(* ===== verification/_CoqProject ===== *)
-Q . S2P
Prelude.v
Alloc.v
Cutils.v
Utf8.v
Sort.v
Exchange.v
SortFacts.v
DynBuf.v
CharRange.v
CharRangeFacts.v
UnicodeTables.v
CaseConv.v
UnicodeProp.v
UnicodeRange.v
UnicodeSets.v
UnicodeRuns.v
UnicodeRangeProps.v
Normalize.v
NormTables.v
NormPairs.v
NormOrder.v
NormDecomp.v
NormCompose.v
NormProps.v
RegexOp.v
RegexExec.v
RegexSafe.v
RegexTerm.v
RegexParse.v
RegexRange.v
RegexCompile.v
RegexExamples.v
ListHead.v
Chains.v
Gc.v
GcFacts.v
GcCycles.v
GcRelease.v
JSValue.v
MapState.v
MapSpec.v
MapFacts.v
MapRefine.v
Float64.v
Date.v
DateText.v
DateFacts.v
DateTime.v
DateFormat.v
DateParse.v
DateObject.v
PromiseState.v
PromiseFacts.v
PromiseSafe.v
PromiseProps.v
PromiseAll.v
AtomState.v
AtomTable.v
AtomFacts.v
AtomGrow.v
AtomRefs.v
AtomSteps.v
AtomNew.v
AtomClient.v
AtomProps.v
ShapeState.v
ShapeSpec.v
ShapeFacts.v
ShapeTable.v
ShapeInv.v
ShapeSteps.v
ShapeUpdate.v
ShapeAdd.v
ShapeShare.v
ObjectState.v
ObjectSpec.v
ObjectSteps.v
ObjectRun.v
ObjectOps.v
ObjectProps.v
