(* ===== verification/Prelude.v ===== *)
(** * A verification library for the C core of sano (QuickJS 2021-03-27)

    sano is a Flutter plugin that runs JavaScript; everything it computes is
    done by the QuickJS engine in [src/cxx/quickjs].  This development models
    parts of that engine in the logic and proves what each part promises.  A C
    function is a function of the logic with the name it has in the source; a
    loop or a switch that is large enough has a definition of its own.

    ** How C is modelled

    A computation is a value of [res] (below): it returns, it has undefined
    behaviour or aborts ([Fault]), or the fuel of a loop ran out ([NoFuel]).
    Integers are [Z], wrapped to their width where the code can leave it ([u8],
    [u32], [i32], ...); signed overflow is a [Fault] where no wrapping is
    defined.  Memory is a list of bytes or words per object, or a store from
    addresses to records; an access outside an object, or to a freed record, is
    a [Fault].  The allocator is a parameter with the contract of C's [realloc]
    (class [Realloc], Alloc.v), or a list that says which of the next
    allocations fail, so that the theorems hold when any of them fails unless
    they say otherwise.  Callbacks and scripts are arbitrary: a comparison
    function is any function of its arguments and of a state that it may change,
    a script is any list of actions.

    ** The parts, from the bottom up

    - cutils.c, cutils.h, list.h.  Cutils.v: strings, integer helpers, packed
      accesses.  Utf8.v: the UTF-8 codec.  Sort.v, Exchange.v, SortFacts.v:
      [rqsort] and [heapsortx], on elements, and the exchange functions on
      bytes, tied by a refinement.  DynBuf.v: dynamic buffers over [Realloc].
      ListHead.v: linked lists.
    - libunicode.c.  CharRange.v, CharRangeFacts.v: sets of code points.
      UnicodeTables.v: the tables.  CaseConv.v: case conversion and
      [lre_canonicalize].  UnicodeProp.v: the compressed property tables.
      UnicodeRange.v: the ranges of scripts, general categories and properties;
      UnicodeSets.v (names, ranges as sets), UnicodeRuns.v (what the tables hold)
      and UnicodeRangeProps.v: their theorems.  Normalize.v: normalization;
      NormTables.v, NormPairs.v (the decomposition and composition tables),
      NormOrder.v, NormDecomp.v, NormCompose.v (the three steps, against the
      algorithm of Unicode) and NormProps.v: its theorems.
    - libregexp.c.  RegexOp.v, RegexExec.v: byte code and the backtracking
      executor.  RegexSafe.v, RegexTerm.v: its memory safety and termination.
      RegexParse.v, RegexCompile.v: the compiler, which writes byte code into a
      [DynBuf] and builds classes as [CharRange]s; it takes the lookup of
      property names from the class [UnicodeLookup].  RegexRange.v: compiled
      classes match the set they were compiled for.  RegexExamples.v: the
      compiler and the executor together on whole patterns, and the instance of
      [UnicodeLookup] by UnicodeRange.v.
    - quickjs.c, memory.  Gc.v: objects with reference counts, frames, weak
      references, [JS_FreeValueRT] and the three phases of [JS_RunGC].  GcFacts.v,
      GcCycles.v, GcRelease.v: exactly the unreachable objects are freed.
    - quickjs.c, values.  JSValue.v: tags, strings, comparison, strict equality.
    - quickjs.c, Map, Set, WeakMap, WeakSet.  MapState.v: the hash tables and
      their iterators.  MapSpec.v: the specification, a list of entries.
      MapFacts.v, MapRefine.v: the invariant and the refinement.
    - quickjs.c, Date.  Float64.v: the double arithmetic it uses.  Date.v,
      DateText.v: calendar, methods, text formats, [Date.parse].  DateFacts.v,
      DateTime.v, DateFormat.v, DateParse.v: lemmas.  DateObject.v: the theorems.
    - quickjs.c, promises and jobs.  PromiseState.v: a machine that interleaves
      scripts with the C code.  PromiseFacts.v, PromiseSafe.v: its invariant.
      PromiseProps.v: the theorems.  PromiseAll.v: Promise.all, allSettled, any.
    - quickjs.c, atoms.  AtomState.v: the table of interned strings and symbols,
      and a client that holds references into it.  AtomTable.v: the predefined
      atoms (quickjs-atom.h).  Chains.v: chains of hash tables, also for shapes.
      AtomFacts.v, AtomGrow.v: the table stays well formed, each operation
      changes one structure.  AtomRefs.v, AtomSteps.v, AtomNew.v, AtomClient.v:
      the invariant that relates structures to the references held, kept by every
      operation.  AtomProps.v: the theorems.
    - quickjs.c, shapes and objects.  ShapeState.v: shapes, their tables, and the
      properties of objects, over any operations on atoms that satisfy the laws of
      a class.  ShapeSpec.v: the specification, a property list.  ShapeFacts.v,
      ShapeTable.v, ShapeInv.v, ShapeSteps.v, ShapeUpdate.v, ShapeAdd.v,
      ShapeShare.v: the invariant, and that each operation is one on property
      lists.  ObjectState.v: getting, setting, defining and deleting, prototypes,
      and programs of these.  ObjectSpec.v: the ordinary objects of ECMAScript.
      ObjectSteps.v, ObjectRun.v, ObjectOps.v: each operation of a program
      against it.  ObjectProps.v: the theorems, with the atoms of AtomState.v.

    ** What the theorems show

    Safety: no undefined behaviour, for verified byte code, for any comparison
    function, for any sequence of date, map, promise, atom or object operations.
    Functional correctness against a definition that does not follow the code:
    sets of code points, fully decoded tables, Unicode's normal forms, a list of
    entries for maps, property lists and ordinary objects, counting days for
    dates.  Refinements: exchange functions, buffers, maps, atoms (equal numbers
    for equal texts), shapes.  Exact reference counts: objects of the heap, atoms,
    shapes.  Round trips: UTF-8, dates and their texts, atoms and their values.
    Termination: of the executor on ranked byte code, of the C code between two
    scripts, of the table searches.

    Some theorems and examples show that the code does not do what it should; they
    name the input on which it happens, and the theorems about that code exclude
    it by a hypothesis.  These are the conditions of the theorems:
    - RegexTerm.v: the byte code has a ranking, so no look-behind and no loop that
      ends only by the check for an empty iteration;
    - GcCycles.v, GcRelease.v ([heap_ok]): no closure shares a variable of a
      suspended frame, no object is a key of a WeakMap or WeakSet (what happens
      with them is shown by [close_var_refs_correct] and examples);
    - MapRefine.v ([op_ok]): numeric keys are canonical, a map does not hold its
      own iterator, at most 2^29 operations;
    - DateTime.v, DateObject.v ([field_limit]): arguments of the setters for
      which the [int64_t] arithmetic does not overflow; [setTime] and the days and
      times in UTC take any number.  In local time setting a field is the inverse
      of getting it when the zone has the same offset before and after;
    - NormProps.v: fewer than 2^26 code points; [no_11A7]: the character U+11A7,
      which [compose_pair] takes for a Hangul trailing consonant, does not occur
      in the decomposition when the form composes;
    - RegexExamples.v, UnicodeRangeProps.v: when an allocation fails
      [unicode_script] may loop forever;
    - AtomProps.v: at most 2^28 operations, below the overflow of
      [atom_size * 3]; ObjectProps.v: fewer than 2^23 (2^22 for the theorem on
      [JS_DefineProperty]) operations on objects, below that of the sizes of the
      tables of shapes; [executes] allows, beside the steps of ECMAScript, a step
      that fails for lack of memory, and an assignment that is refused because
      [JS_SetPropertyInternal] looks past the nearest property of that name;
    - PromiseProps.v: [then_runs_once] is about runs in which no allocation fails.

    ** Fuel

    Only loops whose termination depends on the data have fuel: the executor
    (RegexTerm.v gives a bound that is enough), the compiler (the nesting of the
    calls; the stack check of the code bounds it too), the sorting loops
    (SortFacts.v: the size of the array is enough), the table searches and the
    loops over the Unicode tables (the size of the table), normalization (the
    length of the text; [DECOMP_DEPTH] = 3 levels of decomposition, which
    NormTables.v shows is the deepest), the collector (the number of objects),
    the chains of atoms and shapes and the chain of prototypes (the size of the
    store).  [unicode_script] has an argument [fuel] for the loop it enters when
    an allocation fails, which never ends.  Everything else is structural.

    ** What is not modelled

    The interpreter of JavaScript byte code and the JavaScript parser (their size
    is that of the rest of the engine); exotic objects, arrays and typed arrays,
    getters and setters as properties of the programs of ObjectState.v; the big
    number extension (the plugin is built without it) and libbf.c; quickjs-libc.c,
    qjs.c, qjsc.c and the test runner (operating system calls); the table
    generator; the C++ and Dart bindings. *)
From Stdlib Require Import ZArith Lia Bool Zbitwise.
From stdpp Require Export base numbers list option.

#[export] Set Default Goal Selector "!".
Global Open Scope Z_scope.
Declare Scope quickjs_scope.
Delimit Scope quickjs_scope with qjs.
Global Open Scope quickjs_scope.

(** ** Outcomes of C code

    [Ret a]: the code returns [a].  [Fault]: undefined behaviour or abort (an
    access outside an object, a failed [assert], [abort()]).  [NoFuel]: the
    fuel of a loop ran out before the code returned. *)
Inductive res (A : Type) : Type :=
| Ret (a : A)
| Fault
| NoFuel.
Arguments Ret {A} a.
Arguments Fault {A}.
Arguments NoFuel {A}.

#[export] Instance res_ret : MRet res := fun _ a => Ret a.
#[export] Instance res_bind : MBind res := fun _ _ f m =>
  match m with Ret a => f a | Fault => Fault | NoFuel => NoFuel end.

(** An out-of-range access is a fault. *)
Definition of_opt {A} (o : option A) : res A :=
  match o with Some a => Ret a | None => Fault end.

(** [assert(b)] *)
Definition assert_ (b : bool) : res unit := if b then Ret tt else Fault.

Lemma bind_Ret {A B} (m : res A) (f : A -> res B) b :
  (m ≫= f) = Ret b -> exists a, m = Ret a /\ f a = Ret b.
Proof. destruct m as [a | |]; cbn; [eauto | discriminate | discriminate]. Qed.

Lemma of_opt_Ret {A} (o : option A) a : of_opt o = Ret a <-> o = Some a.
Proof. destruct o; cbn; split; congruence. Qed.

Lemma assert_Ret b u : assert_ b = Ret u <-> b = true.
Proof. destruct b, u; cbn; split; congruence. Qed.

(** ** Freedom from faults

    [safe P m]: running [m] causes no fault, and if it returns the result
    satisfies [P]. *)
Definition safe {A} (P : A -> Prop) (m : res A) : Prop :=
  match m with Ret a => P a | Fault => False | NoFuel => True end.

Lemma safe_bind {A B} (P : A -> Prop) (Q : B -> Prop) m f :
  safe P m -> (forall a, P a -> safe Q (f a)) -> safe Q (m ≫= f).
Proof. destruct m; cbn; auto. Qed.

Lemma safe_mono {A} (P Q : A -> Prop) m : safe P m -> (forall a, P a -> Q a) -> safe Q m.
Proof. destruct m; cbn; auto. Qed.

Lemma safe_of_opt {A} (o : option A) : is_Some o -> safe (fun a => o = Some a) (of_opt o).
Proof. intros [a ->]. reflexivity. Qed.

Lemma safe_assert b : b = true -> safe (fun _ => True) (assert_ b).
Proof. intros ->. exact I. Qed.

Lemma safe_not_Fault {A} (P : A -> Prop) m : safe P m -> m <> Fault.
Proof. by intros Hs ->. Qed.

(** ** Machine integers: values are [Z], wrap-around is written out *)
Definition wrap (w z : Z) : Z := z mod 2 ^ w.
Definition swrap (w z : Z) : Z := (z + 2 ^ (w - 1)) mod 2 ^ w - 2 ^ (w - 1).
Abbreviation u8 := (wrap 8).
Abbreviation u16 := (wrap 16).
Abbreviation u32 := (wrap 32).
Abbreviation u64 := (wrap 64).
Abbreviation i8 := (swrap 8).
Abbreviation i16 := (swrap 16).
Abbreviation i32 := (swrap 32).
Abbreviation i64 := (swrap 64).

Definition INT32_MAX : Z := 2147483647.
Definition UINT32_MAX : Z := 4294967295.

Definition is_u (w z : Z) : Prop := 0 <= z < 2 ^ w.
#[export] Instance is_u_dec w z : Decision (is_u w z).
Proof. unfold is_u. apply _. Defined.

Lemma wrap_range w z : 0 <= w -> 0 <= wrap w z < 2 ^ w.
Proof. intros. apply Z.mod_pos_bound. lia. Qed.

Lemma wrap_small w z : 0 <= z < 2 ^ w -> wrap w z = z.
Proof. apply Z.mod_small. Qed.

Lemma wrap_idemp w z : 0 <= w -> wrap w (wrap w z) = wrap w z.
Proof. intros. apply wrap_small, wrap_range; lia. Qed.

Lemma swrap_range w z : 1 <= w -> - 2 ^ (w - 1) <= swrap w z < 2 ^ (w - 1).
Proof.
  intros. unfold swrap.
  assert (2 ^ w = 2 * 2 ^ (w - 1)) as E.
  { rewrite <- Z.pow_succ_r by lia. f_equal. lia. }
  pose proof (Z.mod_pos_bound (z + 2 ^ (w - 1)) (2 ^ w) ltac:(lia)). lia.
Qed.

Lemma swrap_small w z : 1 <= w -> - 2 ^ (w - 1) <= z < 2 ^ (w - 1) -> swrap w z = z.
Proof.
  intros. unfold swrap.
  assert (2 ^ w = 2 * 2 ^ (w - 1)) as E.
  { rewrite <- Z.pow_succ_r by lia. f_equal. lia. }
  rewrite Z.mod_small by lia. lia.
Qed.

(** Reading an unsigned value back as a signed one of the same width undoes
    the conversion (casts between [int] and [uint32_t]). *)
Lemma swrap_wrap w z : 1 <= w -> swrap w (wrap w z) = swrap w z.
Proof.
  intros. unfold swrap, wrap. rewrite Zplus_mod_idemp_l. reflexivity.
Qed.

Lemma wrap_swrap w z : 1 <= w -> wrap w (swrap w z) = wrap w z.
Proof.
  intros. unfold swrap, wrap. rewrite Zminus_mod_idemp_l. f_equal. lia.
Qed.

(** ** Bit operations as arithmetic *)
Lemma land_low_high a b n :
  0 <= n -> 0 <= a < 2 ^ n -> Z.land a (b * 2 ^ n) = 0.
Proof.
  intros Hn Ha. apply Z.bits_inj'. intros i Hi.
  rewrite Z.land_spec, Z.bits_0. destruct (decide (i < n)).
  - rewrite Z.mul_pow2_bits_low by lia. apply andb_false_r.
  - replace a with (a mod 2 ^ n) by (apply Z.mod_small; lia).
    rewrite Z.mod_pow2_bits_high by lia. reflexivity.
Qed.

Lemma lor_low_high a b n :
  0 <= n -> 0 <= a < 2 ^ n -> Z.lor a (b * 2 ^ n) = a + b * 2 ^ n.
Proof.
  intros Hn Ha. pose proof (land_low_high a b n Hn Ha) as E.
  rewrite Z.add_nocarry_lxor by exact E. symmetry. apply Z.lxor_lor, E.
Qed.

Lemma lor_high_low a b n :
  0 <= n -> 0 <= a < 2 ^ n -> Z.lor (b * 2 ^ n) a = a + b * 2 ^ n.
Proof. intros. rewrite Z.lor_comm. apply lor_low_high; assumption. Qed.

Lemma land_mask a n : 0 <= n -> Z.land a (2 ^ n - 1) = a mod 2 ^ n.
Proof.
  intros. rewrite <- Z.land_ones by lia. f_equal. rewrite Z.ones_equiv. lia.
Qed.

(** ** Arrays indexed by [Z]: every access is checked *)
Definition zlen {A} (l : list A) : Z := Z.of_nat (length l).

Definition znth {A} (l : list A) (i : Z) : option A :=
  if 0 <=? i then l !! Z.to_nat i else None.

(** [l[i] = x] *)
Definition zupd {A} (l : list A) (i : Z) (x : A) : option (list A) :=
  if (0 <=? i) && (i <? zlen l) then Some (<[Z.to_nat i := x]> l) else None.

(** The [len] elements of [l] from [off]. *)
Definition zread {A} (l : list A) (off len : Z) : option (list A) :=
  if (0 <=? off) && (0 <=? len) && (off + len <=? zlen l)
  then Some (take (Z.to_nat len) (drop (Z.to_nat off) l)) else None.

(** [memcpy(l + off, data, |data|)] *)
Definition zwrite {A} (l : list A) (off : Z) (data : list A) : option (list A) :=
  if (0 <=? off) && (off + zlen data <=? zlen l)
  then Some (take (Z.to_nat off) l ++ data ++ drop (Z.to_nat (off + zlen data)) l)
  else None.

Lemma zlen_nonneg {A} (l : list A) : 0 <= zlen l.
Proof. unfold zlen. lia. Qed.

Lemma zlen_nil {A} : zlen (@nil A) = 0.
Proof. reflexivity. Qed.

Lemma zlen_cons {A} (x : A) l : zlen (x :: l) = 1 + zlen l.
Proof. unfold zlen. cbn [length]. lia. Qed.

Lemma zlen_app {A} (l k : list A) : zlen (l ++ k) = zlen l + zlen k.
Proof. unfold zlen. rewrite length_app. lia. Qed.

Lemma zlen_take {A} (l : list A) n : zlen (take n l) = Z.min (Z.of_nat n) (zlen l).
Proof. unfold zlen. rewrite length_take. lia. Qed.

Lemma zlen_drop {A} (l : list A) n : zlen (drop n l) = Z.max 0 (zlen l - Z.of_nat n).
Proof. unfold zlen. rewrite length_drop. lia. Qed.

Lemma zlen_replicate {A} (x : A) n : zlen (replicate n x) = Z.of_nat n.
Proof. unfold zlen. rewrite length_replicate. reflexivity. Qed.

Lemma zlen_insert {A} (l : list A) i x : zlen (<[i := x]> l) = zlen l.
Proof. unfold zlen. rewrite length_insert. reflexivity. Qed.

Lemma to_nat_zlen {A} (l : list A) : Z.to_nat (zlen l) = length l.
Proof. unfold zlen. apply Nat2Z.id. Qed.

Lemma take_zlen_app {A} (l k : list A) : take (Z.to_nat (zlen l)) (l ++ k) = l.
Proof. rewrite to_nat_zlen. apply take_app_length. Qed.

Lemma drop_zlen_app {A} (l k : list A) : drop (Z.to_nat (zlen l)) (l ++ k) = k.
Proof. rewrite to_nat_zlen. apply drop_app_length. Qed.

Lemma znth_Some {A} (l : list A) i x :
  znth l i = Some x <-> 0 <= i /\ l !! Z.to_nat i = Some x.
Proof. unfold znth. destruct (Z.leb_spec 0 i); split; intuition (lia || congruence). Qed.

Lemma znth_nat {A} (l : list A) (i : nat) : znth l (Z.of_nat i) = l !! i.
Proof. unfold znth. rewrite Nat2Z.id. destruct (Z.leb_spec 0 (Z.of_nat i)); [done | lia]. Qed.

Lemma znth_lt_Some {A} (l : list A) i x : znth l i = Some x -> 0 <= i < zlen l.
Proof.
  intros [Hi H%lookup_lt_Some]%znth_Some. unfold zlen. lia.
Qed.

Lemma znth_is_Some {A} (l : list A) i : is_Some (znth l i) <-> 0 <= i < zlen l.
Proof.
  split.
  - intros [x H]. exact (znth_lt_Some _ _ _ H).
  - intros H. unfold znth, zlen in *. destruct (Z.leb_spec 0 i); [| lia].
    apply lookup_lt_is_Some. lia.
Qed.

Lemma znth_ge_None {A} (l : list A) i : zlen l <= i -> znth l i = None.
Proof.
  intros H. unfold znth, zlen in *. destruct (Z.leb_spec 0 i); [| done].
  apply lookup_ge_None. lia.
Qed.

Lemma znth_app_l {A} (l k : list A) i : i < zlen l -> znth (l ++ k) i = znth l i.
Proof.
  intros H. unfold znth, zlen in *. destruct (Z.leb_spec 0 i); [| done].
  apply lookup_app_l. lia.
Qed.

Lemma znth_app_r {A} (l k : list A) i :
  zlen l <= i -> znth (l ++ k) i = znth k (i - zlen l).
Proof.
  intros H. unfold znth, zlen in *.
  destruct (Z.leb_spec 0 i), (Z.leb_spec 0 (i - Z.of_nat (length l))); try lia.
  rewrite lookup_app_r by lia. f_equal. lia.
Qed.

Lemma znth_drop {A} (l : list A) n i :
  0 <= i -> znth (drop n l) i = znth l (Z.of_nat n + i).
Proof.
  intros H. unfold znth.
  destruct (Z.leb_spec 0 i), (Z.leb_spec 0 (Z.of_nat n + i)); try lia.
  rewrite lookup_drop. f_equal. lia.
Qed.

Lemma znth_take {A} (l : list A) n i :
  i < Z.of_nat n -> znth (take n l) i = znth l i.
Proof.
  intros H. unfold znth. destruct (Z.leb_spec 0 i); [| done].
  apply lookup_take_lt. lia.
Qed.

Lemma zupd_Some {A} (l : list A) i x l' :
  zupd l i x = Some l' <-> 0 <= i < zlen l /\ l' = <[Z.to_nat i := x]> l.
Proof.
  unfold zupd. destruct (Z.leb_spec 0 i), (Z.ltb_spec i (zlen l)); cbn; split;
    intros; intuition (lia || congruence).
Qed.

Lemma zupd_is_Some {A} (l : list A) i x : 0 <= i < zlen l -> is_Some (zupd l i x).
Proof. intros H. eexists. apply zupd_Some. eauto. Qed.

Lemma zupd_zlen {A} (l : list A) i x l' : zupd l i x = Some l' -> zlen l' = zlen l.
Proof. intros [_ ->]%zupd_Some. apply zlen_insert. Qed.

Lemma znth_zupd_eq {A} (l : list A) i x l' : zupd l i x = Some l' -> znth l' i = Some x.
Proof.
  intros [Hi ->]%zupd_Some. unfold znth, zlen in *.
  destruct (Z.leb_spec 0 i); [| lia]. apply list_lookup_insert_eq. lia.
Qed.

Lemma znth_zupd_ne {A} (l : list A) i j x l' :
  zupd l i x = Some l' -> i <> j -> znth l' j = znth l j.
Proof.
  intros [Hi ->]%zupd_Some Hne. unfold znth.
  destruct (Z.leb_spec 0 j); [| done]. apply list_lookup_insert_ne. lia.
Qed.

(** The element after an update. *)
Lemma znth_zupd {A} (l : list A) i j x l' : zupd l i x = Some l' ->
  znth l' j = if decide (j = i) then Some x else znth l j.
Proof.
  intros H. destruct (decide (j = i)) as [-> | D]; [by eapply znth_zupd_eq | eapply znth_zupd_ne; [exact H | congruence]].
Qed.

Lemma zread_Some {A} (l : list A) off len r :
  zread l off len = Some r <->
  0 <= off /\ 0 <= len /\ off + len <= zlen l /\
  r = take (Z.to_nat len) (drop (Z.to_nat off) l).
Proof.
  unfold zread.
  destruct (Z.leb_spec 0 off), (Z.leb_spec 0 len), (Z.leb_spec (off + len) (zlen l));
    cbn; split; intros; intuition (lia || congruence).
Qed.

Lemma zread_in {A} (l : list A) off len :
  0 <= off -> 0 <= len -> off + len <= zlen l ->
  zread l off len = Some (take (Z.to_nat len) (drop (Z.to_nat off) l)).
Proof. intros. apply zread_Some. auto. Qed.

Lemma zread_zlen {A} (l : list A) off len r : zread l off len = Some r -> zlen r = len.
Proof.
  intros (? & ? & ? & ->)%zread_Some. rewrite zlen_take, zlen_drop. lia.
Qed.

Lemma zwrite_Some {A} (l : list A) off data r :
  zwrite l off data = Some r <->
  0 <= off /\ off + zlen data <= zlen l /\
  r = take (Z.to_nat off) l ++ data ++ drop (Z.to_nat (off + zlen data)) l.
Proof.
  unfold zwrite.
  destruct (Z.leb_spec 0 off), (Z.leb_spec (off + zlen data) (zlen l));
    cbn; split; intros; intuition (lia || congruence).
Qed.

Lemma zwrite_in {A} (l : list A) off data :
  0 <= off -> off + zlen data <= zlen l ->
  zwrite l off data =
  Some (take (Z.to_nat off) l ++ data ++ drop (Z.to_nat (off + zlen data)) l).
Proof. intros. apply zwrite_Some. auto. Qed.

Lemma zwrite_zlen {A} (l : list A) off data r : zwrite l off data = Some r -> zlen r = zlen l.
Proof.
  intros (? & ? & ->)%zwrite_Some. pose proof (zlen_nonneg data).
  rewrite !zlen_app, zlen_take, zlen_drop. lia.
Qed.

(** ** Little-endian byte sequences (the packed accesses of cutils.h) *)
Fixpoint le_bytes (n : nat) (v : Z) : list Z :=
  match n with
  | O => []
  | S n => v mod 256 :: le_bytes n (v / 256)
  end.

Fixpoint le_val (l : list Z) : Z :=
  match l with
  | [] => 0
  | b :: l => b + 256 * le_val l
  end.

Definition is_byte (b : Z) : Prop := 0 <= b < 256.
#[export] Instance is_byte_dec b : Decision (is_byte b).
Proof. unfold is_byte. apply _. Defined.
Abbreviation bytes_ok := (Forall is_byte).

Lemma length_le_bytes n v : length (le_bytes n v) = n.
Proof. revert v. induction n; intros; cbn; congruence. Qed.

Lemma zlen_le_bytes n v : zlen (le_bytes n v) = Z.of_nat n.
Proof. unfold zlen. rewrite length_le_bytes. reflexivity. Qed.

Lemma le_bytes_ok n v : bytes_ok (le_bytes n v).
Proof.
  revert v. induction n; intros; cbn; constructor; [| done].
  apply Z.mod_pos_bound. lia.
Qed.

Lemma le_val_bytes n v : le_val (le_bytes n v) = v mod 256 ^ Z.of_nat n.
Proof.
  revert v. induction n as [| n IH]; intros; cbn [le_val le_bytes].
  - rewrite Z.mod_1_r. reflexivity.
  - rewrite IH, Nat2Z.inj_succ, Z.pow_succ_r by lia.
    rewrite (Z.rem_mul_r v 256) by lia. lia.
Qed.

Lemma le_bytes_val l : bytes_ok l -> le_bytes (length l) (le_val l) = l.
Proof.
  induction 1 as [| b l Hb Hl IH]; cbn [le_val le_bytes length]; [done |].
  unfold is_byte in Hb.
  replace ((b + 256 * le_val l) mod 256) with b by (Z.to_euclidean_division_equations; lia).
  replace ((b + 256 * le_val l) / 256) with (le_val l) by (Z.to_euclidean_division_equations; lia).
  congruence.
Qed.

Lemma le_val_range l : bytes_ok l -> 0 <= le_val l < 256 ^ zlen l.
Proof.
  induction 1 as [| b l Hb Hl IH]; cbn [le_val]; [unfold zlen; cbn; lia |].
  rewrite zlen_cons, Z.pow_add_r by (pose proof (zlen_nonneg l); lia).
  unfold is_byte in Hb. lia.
Qed.

(** ** Counting the elements with a property *)
Fixpoint countb {A} (P : A -> bool) (l : list A) : Z :=
  match l with
  | [] => 0
  | x :: l => (if P x then 1 else 0) + countb P l
  end.

Lemma countb_nonneg {A} (P : A -> bool) l : 0 <= countb P l.
Proof. induction l as [| x l IH]; cbn; [lia |]. destruct (P x); lia. Qed.

Lemma countb_app {A} (P : A -> bool) l k : countb P (l ++ k) = countb P l + countb P k.
Proof. induction l as [| x l IH]; cbn; [lia |]. rewrite IH. lia. Qed.

Lemma countb_zero {A} (P : A -> bool) l : (forall x, x ∈ l -> P x = false) -> countb P l = 0.
Proof.
  intros H. induction l as [| x l IH]; cbn; [done |].
  rewrite (H x) by left. rewrite IH; [done |]. intros y Hy. apply H. by right.
Qed.

Lemma countb_le {A} (P : A -> bool) l : countb P l <= Z.of_nat (length l).
Proof. induction l as [| x l IH]; cbn [countb length]; [lia |]. destruct (P x); lia. Qed.

Lemma countb_insert {A} (P : A -> bool) l k x y : l !! k = Some x ->
  countb P (<[k := y]> l) = countb P l - (if P x then 1 else 0) + (if P y then 1 else 0).
Proof.
  revert k. induction l as [| z l IH]; intros [| k] H; try done.
  - injection H as ->. cbn. destruct (P x), (P y); lia.
  - specialize (IH k H). change (<[S k := y]> (z :: l)) with (z :: <[k := y]> l). cbn [countb].
    destruct (P z); lia.
Qed.

Lemma countb_all {A} (P : A -> bool) l x : countb P l = 0 -> x ∈ l -> P x = false.
Proof.
  intros H Hx. induction l as [| y l IH]; [by apply not_elem_of_nil in Hx |].
  cbn in H. pose proof (countb_nonneg P l). apply elem_of_cons in Hx as [-> | Hx].
  - destruct (P y); [lia | done].
  - apply IH; [destruct (P y); lia | done].
Qed.

Lemma countb_pos {A} (P : A -> bool) l x : x ∈ l -> P x = true -> 0 < countb P l.
Proof.
  intros Hx HP. pose proof (countb_nonneg P l). assert (countb P l <> 0) as H0; [| lia].
  intros E. by rewrite (countb_all P l x E Hx) in HP.
Qed.

Lemma countb_zupd {A} (P : A -> bool) l i x y l' : znth l i = Some x -> zupd l i y = Some l' ->
  countb P l' = countb P l - (if P x then 1 else 0) + (if P y then 1 else 0).
Proof.
  intros [_ Hx]%znth_Some [_ ->]%zupd_Some. by apply countb_insert.
Qed.

Lemma znth_elem_of {A} (l : list A) i x : znth l i = Some x -> x ∈ l.
Proof. intros [_ H]%znth_Some. by eapply list_elem_of_lookup_2. Qed.

(** ** Automation *)
Create HintDb qjs discriminated.
Create Rewrite HintDb zlen.
#[export] Hint Resolve zlen_nonneg le_bytes_ok : qjs.
#[export] Hint Rewrite @zlen_nil @zlen_cons @zlen_app @zlen_take @zlen_drop
  @zlen_replicate @zlen_insert zlen_le_bytes : zlen.

(** Decide the boolean comparisons of a goal or hypothesis one by one. *)
Ltac bdestruct_one :=
  match goal with
  | |- context [Z.ltb ?a ?b] => destruct (Z.ltb_spec a b)
  | |- context [Z.leb ?a ?b] => destruct (Z.leb_spec a b)
  | |- context [Z.eqb ?a ?b] => destruct (Z.eqb_spec a b)
  | H : context [Z.ltb ?a ?b] |- _ => destruct (Z.ltb_spec a b)
  | H : context [Z.leb ?a ?b] |- _ => destruct (Z.leb_spec a b)
  | H : context [Z.eqb ?a ?b] |- _ => destruct (Z.eqb_spec a b)
  end.
Ltac bdestruct_all := repeat (bdestruct_one; cbn [andb orb negb] in *; try lia).

(** Invert the binds, checked accesses and asserts of a hypothesis
    [m = Ret r]. *)
Ltac inv_ret :=
  repeat match goal with
  | H : (_ ≫= _) = Ret _ |- _ =>
      let a := fresh "a" in let E := fresh "E" in
      apply bind_Ret in H; destruct H as (a & E & H)
  | H : of_opt _ = Ret _ |- _ => apply of_opt_Ret in H
  | H : assert_ _ = Ret _ |- _ => apply assert_Ret in H
  | H : mret _ = Ret _ |- _ => injection H as H
  | H : Ret _ = Ret _ |- _ => injection H as H
  | H : Fault = Ret _ |- _ => discriminate H
  | H : NoFuel = Ret _ |- _ => discriminate H
  end.

(** Linear arithmetic with division and remainder by constants. *)
Ltac zdiv_lia := Z.to_euclidean_division_equations; lia.

(** Length arithmetic. *)
Ltac zlen_pos :=
  repeat match goal with
  | |- context [zlen ?l] =>
      match goal with
      | _ : 0 <= zlen l |- _ => fail 1
      | _ => pose proof (zlen_nonneg l)
      end
  | _ : context [zlen ?l] |- _ =>
      match goal with
      | _ : 0 <= zlen l |- _ => fail 1
      | _ => pose proof (zlen_nonneg l)
      end
  end.
Ltac zlen_lia := autorewrite with zlen in *; zlen_pos; lia.
