(* ===== verification/Alloc.v ===== *)
(** * The memory allocator interface

    The C code gets its memory from a [realloc]-like callback
    ([DynBufReallocFunc], [lre_realloc]).  The callback is not part of the
    modelled files: it is a parameter, the class below, with the documented
    contract of C's [realloc].  The elements of a block are bytes for a
    [DynBuf] and 32-bit words for a [CharRange], so the class is indexed by
    the predicate [P] the elements of a block satisfy.

    The function depends on the block and the size only.  Within the life of
    one buffer the requested sizes strictly increase until the first failure,
    so this covers an allocator that fails at any point in time. *)
From Stdlib Require Import ZArith Lia Bool.
From stdpp Require Import base numbers list.
From S2P Require Import Prelude.

Class Realloc (P : Z -> Prop) : Type := {
  realloc_func : list Z -> Z -> option (list Z);
  realloc_zlen : forall buf n buf',
    0 <= n -> realloc_func buf n = Some buf' -> zlen buf' = n;
  realloc_prefix : forall buf n buf',
    zlen buf <= n -> realloc_func buf n = Some buf' -> buf `prefix_of` buf';
  realloc_elems : forall buf n buf',
    Forall P buf -> realloc_func buf n = Some buf' -> Forall P buf'
}.

(** ** A concrete allocator: serves every request up to [limit] elements and
    zeroes the new part. *)
Definition limited_realloc (limit : Z) (b : list Z) (n : Z) : option (list Z) :=
  if n <=? limit
  then Some (take (Z.to_nat n) b ++ replicate (Z.to_nat n - length b) 0) else None.

Lemma limited_realloc_inv limit b n b' :
  limited_realloc limit b n = Some b' ->
  b' = take (Z.to_nat n) b ++ replicate (Z.to_nat n - length b) 0.
Proof. unfold limited_realloc. destruct (n <=? limit); congruence. Qed.

Definition limited (limit : Z) (P : Z -> Prop) (P0 : P 0) : Realloc P.
Proof.
  refine {| realloc_func := limited_realloc limit |}.
  - intros b n b' Hn ->%limited_realloc_inv.
    unfold zlen. rewrite length_app, length_take, length_replicate. lia.
  - intros b n b' Hn ->%limited_realloc_inv. exists (replicate (Z.to_nat n - length b) 0).
    unfold zlen in Hn. rewrite take_ge by lia. reflexivity.
  - intros b n b' Hb ->%limited_realloc_inv. apply Forall_app; split.
    + apply Forall_take, Hb.
    + apply Forall_replicate, P0.
Defined.

Definition is_u32 (z : Z) : Prop := is_u 32 z.

Lemma byte_0 : is_byte 0.
Proof. unfold is_byte. lia. Qed.
Lemma u32_0 : is_u32 0.
Proof. unfold is_u32, is_u. lia. Qed.

Definition limited_bytes (limit : Z) : Realloc is_byte := limited limit is_byte byte_0.
Definition limited_words (limit : Z) : Realloc is_u32 := limited limit is_u32 u32_0.
