(* ===== verification/Cutils.v ===== *)
(** * cutils.c, cutils.h: C strings, integer helpers, packed and swapped accesses

    Memory is a list of bytes that starts at the pointer passed to the
    function; an access outside the list is a [Fault].  A C string is a list
    of non-zero bytes followed by a zero byte. *)
From Stdlib Require Import ZArith Lia Bool.
From stdpp Require Import base numbers list.
From S2P Require Import Prelude.

(** ** Strings *)

(** [strlen] of the C library: the position of the first zero byte. *)
Fixpoint strlen (s : list Z) : res Z :=
  match s with
  | [] => Fault
  | c :: s => if c =? 0 then Ret 0 else n ← strlen s; Ret (n + 1)
  end.

(** The loop of [pstrcpy]; [q] is the offset of the write pointer in [buf]. *)
Fixpoint pstrcpy_loop (buf : list Z) (buf_size q : Z) (str : list Z) : res (list Z) :=
  match str with
  | [] => Fault
  | c :: str =>
      if (c =? 0) || (buf_size - 1 <=? q) then of_opt (zupd buf q 0)
      else buf ← of_opt (zupd buf q c); pstrcpy_loop buf buf_size (q + 1) str
  end.

Definition pstrcpy (buf : list Z) (buf_size : Z) (str : list Z) : res (list Z) :=
  if buf_size <=? 0 then Ret buf else pstrcpy_loop buf buf_size 0 str.

(** strcat and truncate. *)
Definition pstrcat (buf : list Z) (buf_size : Z) (s : list Z) : res (list Z) :=
  len ← strlen buf;
  if len <? buf_size then
    tail ← pstrcpy (drop (Z.to_nat len) buf) (buf_size - len) s;
    Ret (take (Z.to_nat len) buf ++ tail)
  else Ret buf.

(** Returns the rest of [str] after [val] ([*ptr]), [None] for 0. *)
Fixpoint strstart (str val : list Z) {struct val} : res (option (list Z)) :=
  match val with
  | [] => Fault
  | q :: val =>
      if q =? 0 then Ret (Some str)
      else match str with
           | [] => Fault
           | p :: str => if p =? q then strstart str val else Ret None
           end
  end.

Definition memcmp_eq (a b : list Z) : bool := bool_decide (a = b).

Definition has_suffix (str suffix : list Z) : res bool :=
  len ← strlen str;
  slen ← strlen suffix;
  if slen <=? len then
    a ← of_opt (zread str (len - slen) slen);
    b ← of_opt (zread suffix 0 slen);
    Ret (memcmp_eq a b)
  else Ret false.

(** ** Integer helpers *)
Definition max_int (a b : Z) : Z := if b <? a then a else b.
Definition min_int (a b : Z) : Z := if a <? b then a else b.
Definition max_uint32 (a b : Z) : Z := if b <? a then a else b.
Definition min_uint32 (a b : Z) : Z := if a <? b then a else b.
Definition max_int64 (a b : Z) : Z := if b <? a then a else b.
Definition min_int64 (a b : Z) : Z := if a <? b then a else b.

(** [__builtin_clz] and [__builtin_ctz] are undefined at 0. *)
Definition clz32 (a : Z) : res Z := if a =? 0 then Fault else Ret (31 - Z.log2 a).
Definition clz64 (a : Z) : res Z := if a =? 0 then Fault else Ret (63 - Z.log2 a).

(** The position of the lowest set bit of a positive number. *)
Fixpoint pos_ctz (p : positive) : Z :=
  match p with
  | xO p => 1 + pos_ctz p
  | _ => 0
  end.
Definition ctz (a : Z) : res Z :=
  match a with Zpos p => Ret (pos_ctz p) | _ => Fault end.
Definition ctz32 (a : Z) : res Z := ctz a.
Definition ctz64 (a : Z) : res Z := ctz a.

(** ** Packed accesses (little-endian host) *)
Definition get_un (n : nat) (tab : list Z) (p : Z) : option Z :=
  l ← zread tab p (Z.of_nat n); Some (le_val l).
Definition get_u64 (tab : list Z) (p : Z) : option Z := get_un 8 tab p.
Definition get_i64 (tab : list Z) (p : Z) : option Z := v ← get_un 8 tab p; Some (i64 v).
Definition get_u32 (tab : list Z) (p : Z) : option Z := get_un 4 tab p.
Definition get_i32 (tab : list Z) (p : Z) : option Z := v ← get_un 4 tab p; Some (i32 v).
Definition get_u16 (tab : list Z) (p : Z) : option Z := get_un 2 tab p.
Definition get_i16 (tab : list Z) (p : Z) : option Z := v ← get_un 2 tab p; Some (i16 v).
Definition get_u8 (tab : list Z) (p : Z) : option Z := znth tab p.
Definition get_i8 (tab : list Z) (p : Z) : option Z := v ← znth tab p; Some (i8 v).

Definition put_un (n : nat) (tab : list Z) (p v : Z) : option (list Z) :=
  zwrite tab p (le_bytes n v).
Definition put_u64 (tab : list Z) (p v : Z) : option (list Z) := put_un 8 tab p v.
Definition put_u32 (tab : list Z) (p v : Z) : option (list Z) := put_un 4 tab p v.
Definition put_u16 (tab : list Z) (p v : Z) : option (list Z) := put_un 2 tab p v.
Definition put_u8 (tab : list Z) (p v : Z) : option (list Z) := zupd tab p (u8 v).

(** ** Byte swapping *)
Definition bswap16 (x : Z) : Z :=
  u16 (Z.lor (Z.shiftr x 8) (Z.shiftl x 8)).

Definition bswap32 (v : Z) : Z :=
  u32 (Z.lor (Z.lor (Z.lor
    (Z.shiftr (Z.land v 0xff000000) 24)
    (Z.shiftr (Z.land v 0x00ff0000) 8))
    (Z.shiftl (Z.land v 0x0000ff00) 8))
    (Z.shiftl (Z.land v 0x000000ff) 24)).

Definition bswap64 (v : Z) : Z :=
  let m k := Z.land v (Z.shiftl 0xff (k * 8)) in
  u64 (Z.lor (Z.lor (Z.lor (Z.lor (Z.lor (Z.lor (Z.lor
    (Z.shiftr (m 7) (7 * 8))
    (Z.shiftr (m 6) (5 * 8)))
    (Z.shiftr (m 5) (3 * 8)))
    (Z.shiftr (m 4) (1 * 8)))
    (Z.shiftl (m 3) (1 * 8)))
    (Z.shiftl (m 2) (3 * 8)))
    (Z.shiftl (m 1) (5 * 8)))
    (Z.shiftl (m 0) (7 * 8))).

(** ** Hexadecimal digits; characters are their codes ('0' = 48, 'A' = 65, 'a' = 97) *)
Definition from_hex (c : Z) : Z :=
  if (48 <=? c) && (c <=? 57) then c - 48
  else if (65 <=? c) && (c <=? 70) then c - 65 + 10
  else if (97 <=? c) && (c <=? 102) then c - 97 + 10
  else -1.

(** ** Lemmas: strings *)
Definition nonzero (c : Z) : Prop := c <> 0.
#[export] Instance nonzero_dec c : Decision (nonzero c).
Proof. unfold nonzero. apply _. Defined.

Lemma strlen_spec s rest : Forall nonzero s -> strlen (s ++ 0 :: rest) = Ret (zlen s).
Proof.
  induction 1 as [| c s Hc Hs IH]; [reflexivity |]. cbn [app strlen].
  destruct (Z.eqb_spec c 0); [contradiction |].
  rewrite IH. cbn. rewrite zlen_cons. f_equal. lia.
Qed.

Lemma insert_app_mid {A} (l : list A) y r (n : nat) x :
  n = length l -> <[n := x]> (l ++ y :: r) = l ++ x :: r.
Proof. intros ->. rewrite insert_app_r_alt by lia. rewrite Nat.sub_diag. reflexivity. Qed.

Lemma zupd_app_mid (l r : list Z) y x :
  zupd (l ++ y :: r) (zlen l) x = Some (l ++ x :: r).
Proof.
  apply zupd_Some. rewrite zlen_app, zlen_cons.
  split; [pose proof (zlen_nonneg l); pose proof (zlen_nonneg r); lia |].
  rewrite insert_app_mid; [done |]. unfold zlen. lia.
Qed.

Lemma pstrcpy_loop_spec s : forall done old rest size,
  Forall nonzero s -> zlen done < size -> size <= zlen done + zlen old ->
  let k := Z.to_nat (size - 1 - zlen done) in
  pstrcpy_loop (done ++ old) size (zlen done) (s ++ 0 :: rest) =
  Ret (done ++ take k s ++ 0 :: drop (S (length (take k s))) old).
Proof.
  induction s as [| c s IH]; intros done old rest size Hs Hlt Hold; cbn zeta.
  - cbn [app pstrcpy_loop]. rewrite Z.eqb_refl. cbn [orb].
    destruct old as [| o old]; [rewrite zlen_nil in *; lia |].
    setoid_rewrite zupd_app_mid. rewrite take_nil. reflexivity.
  - apply Forall_cons_iff in Hs as [Hc Hs]. cbn [app pstrcpy_loop].
    destruct (Z.eqb_spec c 0); [contradiction |]. cbn [orb].
    destruct old as [| o old]; [rewrite zlen_nil in *; lia |].
    rewrite zlen_cons in Hold. destruct (Z.leb_spec (size - 1) (zlen done)).
    + setoid_rewrite zupd_app_mid. replace (Z.to_nat _) with 0%nat by lia. reflexivity.
    + setoid_rewrite zupd_app_mid. cbn [of_opt mbind res_bind].
      specialize (IH (done ++ [c]) old rest size Hs).
      rewrite zlen_app, zlen_cons, zlen_nil in IH.
      replace (zlen done + (1 + 0)) with (zlen done + 1) in IH by lia.
      cbn zeta in IH. rewrite <- (app_assoc done [c] old) in IH. cbn [app] in IH.
      rewrite IH by lia.
      replace (Z.to_nat (size - 1 - zlen done))
        with (S (Z.to_nat (size - 1 - (zlen done + 1)))) by lia.
      rewrite <- app_assoc. reflexivity.
Qed.

(** [pstrcpy] stores the longest prefix that fits, always
    NUL-terminated, and leaves the rest of the buffer alone. *)
Lemma pstrcpy_truncates (buf s rest : list Z) (size : Z) :
  Forall nonzero s -> 0 < size <= zlen buf ->
  pstrcpy buf size (s ++ 0 :: rest) =
  Ret (take (Z.to_nat (size - 1)) s ++
       0 :: drop (S (length (take (Z.to_nat (size - 1)) s))) buf).
Proof.
  intros Hs Hsz. unfold pstrcpy. destruct (Z.leb_spec size 0); [lia |].
  pose proof (pstrcpy_loop_spec s [] buf rest size Hs) as E.
  rewrite zlen_nil in E. cbn zeta in E. cbn [app] in E.
  rewrite Z.sub_0_r in E. apply E; lia.
Qed.

Lemma pstrcat_spec (s0 old s rest : list Z) (size : Z) :
  Forall nonzero s0 -> Forall nonzero s ->
  zlen s0 < size <= zlen s0 + 1 + zlen old ->
  let k := Z.to_nat (size - zlen s0 - 1) in
  pstrcat (s0 ++ 0 :: old) size (s ++ 0 :: rest) =
  Ret (s0 ++ take k s ++ 0 :: drop (length (take k s)) old).
Proof.
  intros H0 Hs Hsz k. unfold pstrcat. rewrite strlen_spec by done.
  cbn [mbind res_bind]. destruct (Z.ltb_spec (zlen s0) size); [| lia].
  rewrite drop_zlen_app, take_zlen_app.
  pose proof (pstrcpy_truncates (0 :: old) s rest (size - zlen s0) Hs) as E.
  rewrite zlen_cons in E. rewrite E by lia. reflexivity.
Qed.

Lemma strstart_spec str val sr vr :
  Forall nonzero str -> Forall nonzero val ->
  strstart (str ++ 0 :: sr) (val ++ 0 :: vr) =
  Ret (if decide (val `prefix_of` str)
       then Some (drop (length val) str ++ 0 :: sr) else None).
Proof.
  intros Hstr. revert str Hstr. induction val as [| q val IH]; intros str Hs Hv.
  - cbn [app strstart]. rewrite Z.eqb_refl.
    rewrite decide_True by apply prefix_nil. reflexivity.
  - apply Forall_cons_iff in Hv as [Hq Hv]. cbn [app strstart].
    destruct (Z.eqb_spec q 0); [contradiction |].
    destruct str as [| p str]; cbn [app].
    + destruct (Z.eqb_spec 0 q); [congruence |].
      rewrite decide_False; [done |]. apply prefix_nil_not.
    + apply Forall_cons_iff in Hs as [Hp Hs]. destruct (Z.eqb_spec p q) as [-> | Hne].
      * rewrite IH by done. destruct (decide (val `prefix_of` str)) as [Hpre | Hpre].
        -- rewrite decide_True by (apply prefix_cons, Hpre). reflexivity.
        -- rewrite decide_False; [done |]. intros Hc. apply Hpre.
           eapply prefix_cons_inv_2, Hc.
      * rewrite decide_False; [done |]. intros Hc. apply Hne.
        symmetry. eapply prefix_cons_inv_1, Hc.
Qed.

Lemma take_drop_tail {A} (l r : list A) (n : nat) :
  (n <= length l)%nat ->
  take n (drop (length l - n) (l ++ r)) = drop (length l - n) l.
Proof.
  intros Hn. rewrite drop_app_le by lia.
  rewrite take_app_le by (rewrite length_drop; lia).
  apply take_ge. rewrite length_drop. lia.
Qed.

Lemma has_suffix_spec str suf sr vr :
  Forall nonzero str -> Forall nonzero suf ->
  has_suffix (str ++ 0 :: sr) (suf ++ 0 :: vr) =
  Ret (bool_decide (suf `suffix_of` str)).
Proof.
  intros Hs Hv. unfold has_suffix. rewrite !strlen_spec by done.
  cbn [mbind res_bind]. destruct (Z.leb_spec (zlen suf) (zlen str)) as [Hle | Hgt].
  - rewrite zread_in by zlen_lia.
    rewrite zread_in by zlen_lia.
    cbn [of_opt mbind res_bind]. unfold memcmp_eq. f_equal. apply bool_decide_ext.
    rewrite drop_0, to_nat_zlen, take_app_length.
    unfold zlen in *. replace (Z.to_nat _) with (length str - length suf)%nat by lia.
    rewrite take_drop_tail by lia. split.
    + intros <-. exists (take (length str - length suf) str).
      symmetry. apply take_drop.
    + intros [k ->]. rewrite length_app.
      replace (length k + length suf - length suf)%nat with (length k) by lia.
      apply drop_app_length.
  - f_equal. symmetry. apply bool_decide_eq_false. intros [k ->]. zlen_lia.
Qed.

(** ** Lemmas: packed accesses *)
Lemma zread_zwrite {A} (tab : list A) p data tab' :
  zwrite tab p data = Some tab' -> zread tab' p (zlen data) = Some data.
Proof.
  intros H. pose proof (zwrite_zlen _ _ _ _ H) as El.
  apply zwrite_Some in H as (Hp & Hle & ->). apply zread_Some.
  pose proof (zlen_nonneg data). repeat split; [lia | lia | lia |].
  assert (Z.to_nat p = length (take (Z.to_nat p) tab)) as E.
  { rewrite length_take. unfold zlen in *. lia. }
  rewrite drop_app_length' by exact E. rewrite take_zlen_app. reflexivity.
Qed.

Lemma get_put_un n tab p v tab' :
  put_un n tab p v = Some tab' -> get_un n tab' p = Some (v mod 256 ^ Z.of_nat n).
Proof.
  unfold put_un, get_un. intros H%zread_zwrite. rewrite zlen_le_bytes in H.
  rewrite H. cbn. rewrite le_val_bytes. reflexivity.
Qed.

Lemma get_un_range n tab p v :
  bytes_ok tab -> get_un n tab p = Some v -> 0 <= v < 256 ^ Z.of_nat n.
Proof.
  unfold get_un. intros Hok H. destruct (zread tab p _) as [l |] eqn:E; [| discriminate].
  cbn in H. injection H as <-. pose proof (zread_zlen _ _ _ _ E) as El.
  rewrite <- El. apply le_val_range. apply zread_Some in E as (_ & _ & _ & ->).
  apply Forall_take, Forall_drop, Hok.
Qed.

Lemma get_un_is_Some n tab p :
  0 <= p -> p + Z.of_nat n <= zlen tab -> is_Some (get_un n tab p).
Proof.
  intros. unfold get_un.
  rewrite zread_in by zlen_lia. cbn. eauto.
Qed.

(** ** Lemmas: byte swapping *)
Lemma mask_field v k :
  0 <= k -> Z.land v (Z.shiftl 255 k) = (v / 2 ^ k) mod 256 * 2 ^ k.
Proof.
  intros Hk. rewrite <- Z.shiftr_div_pow2, <- Z.shiftl_mul_pow2 by lia.
  change 256 with (2 ^ 8). rewrite <- land_mask by lia. change (2 ^ 8 - 1) with 255.
  apply Z.bits_inj'. intros i Hi. rewrite Z.land_spec, !Z.shiftl_spec by lia.
  rewrite Z.land_spec. destruct (decide (i < k)).
  - rewrite !(Z.testbit_neg_r _ (i - k)) by lia. rewrite !andb_false_r. reflexivity.
  - rewrite Z.shiftr_spec by lia. f_equal; f_equal; lia.
Qed.

Lemma shiftr_field x k j : 0 <= j <= k -> Z.shiftr (x * 2 ^ k) j = x * 2 ^ (k - j).
Proof.
  intros. rewrite Z.shiftr_div_pow2 by lia.
  replace (2 ^ k) with (2 ^ (k - j) * 2 ^ j) by (rewrite <- Z.pow_add_r by lia; f_equal; lia).
  rewrite Z.mul_assoc, Z.div_mul by lia. reflexivity.
Qed.

Lemma shiftl_field x k j : 0 <= j -> 0 <= k -> Z.shiftl (x * 2 ^ k) j = x * 2 ^ (k + j).
Proof.
  intros. rewrite Z.shiftl_mul_pow2, Z.pow_add_r by lia. lia.
Qed.

(** Joining bytes from the low end up. *)
Lemma lor_field a b k :
  0 <= k -> 0 <= a < 2 ^ k -> Z.lor a (b * 2 ^ k) = a + b * 2 ^ k.
Proof. apply lor_low_high. Qed.

Lemma byte_bound x : 0 <= x mod 256 < 256.
Proof. apply Z.mod_pos_bound. lia. Qed.

(** The nested quotients of [le_bytes] are quotients by powers of two. *)
Lemma le_bytes_fields n v k :
  0 <= k -> le_bytes (S n) (v / 2 ^ k) = (v / 2 ^ k) mod 256 :: le_bytes n (v / 2 ^ (k + 8)).
Proof.
  intros. cbn [le_bytes]. rewrite Z.div_div by lia. rewrite Z.pow_add_r by lia. reflexivity.
Qed.

(** Evaluate the closed shift amounts, then replace every byte
    [(v / 2 ^ k) mod 256] by a variable with its bounds. *)
Ltac eval_exponents :=
  repeat match goal with
  | |- context [2 ^ ?e] =>
      lazymatch e with
      | Z0 => fail
      | Zpos _ => fail
      | _ => let e' := eval vm_compute in e in change (2 ^ e) with (2 ^ e')
      end
  end.
Ltac abstract_bytes :=
  repeat match goal with
  | |- context [?x mod 256] =>
      pose proof (byte_bound x);
      let b := fresh "b" in generalize dependent (x mod 256); intros b ?
  end.

Lemma bswap32_spec v :
  0 <= v < 2 ^ 32 -> bswap32 v = le_val (rev (le_bytes 4 v)).
Proof.
  intros Hv. unfold bswap32.
  change 0xff000000 with (Z.shiftl 255 24). change 0x00ff0000 with (Z.shiftl 255 16).
  change 0x0000ff00 with (Z.shiftl 255 8). change 0x000000ff with (Z.shiftl 255 0).
  rewrite !mask_field, !shiftr_field, !shiftl_field by lia.
  replace (le_bytes 4 v) with (le_bytes 4 (v / 2 ^ 0)) by (f_equal; apply Z.div_1_r).
  rewrite !le_bytes_fields by lia. eval_exponents. abstract_bytes.
  cbn [le_bytes rev app le_val].
  rewrite (lor_field _ _ 8), (lor_field _ _ 16), (lor_field _ _ 24) by lia.
  rewrite wrap_small by lia. lia.
Qed.

Lemma bswap64_spec v :
  0 <= v < 2 ^ 64 -> bswap64 v = le_val (rev (le_bytes 8 v)).
Proof.
  intros Hv. unfold bswap64.
  rewrite !mask_field, !shiftr_field, !shiftl_field by lia.
  replace (le_bytes 8 v) with (le_bytes 8 (v / 2 ^ 0)) by (f_equal; apply Z.div_1_r).
  rewrite !le_bytes_fields by lia. eval_exponents. abstract_bytes.
  cbn [le_bytes rev app le_val].
  rewrite (lor_field _ _ 8), (lor_field _ _ 16), (lor_field _ _ 24), (lor_field _ _ 32),
    (lor_field _ _ 40), (lor_field _ _ 48), (lor_field _ _ 56) by lia.
  rewrite wrap_small by lia. lia.
Qed.

Lemma bswap16_spec v :
  0 <= v < 2 ^ 16 -> bswap16 v = le_val (rev (le_bytes 2 v)).
Proof.
  intros Hv. unfold bswap16.
  rewrite Z.shiftr_div_pow2, Z.shiftl_mul_pow2 by lia.
  rewrite lor_field by zdiv_lia. cbn [le_bytes rev app le_val]. unfold wrap. zdiv_lia.
Qed.
