(* ===== verification/Utf8.v ===== *)
(** * cutils.c: the UTF-8 codec ([unicode_to_utf8], [unicode_from_utf8])

    The codec covers the original 31-bit UTF-8 (up to six bytes).  The theorems
    show that decoding inverts encoding on the whole 31-bit range, that the
    decoder accepts only the bytes the encoder produces (no overlong form), and
    that it reads at most [max_len] bytes. *)
From Stdlib Require Import ZArith Lia Bool.
From stdpp Require Import base numbers list.
From S2P Require Import Prelude Cutils.

(** The bytes stored at [buf]; their number is the value returned. *)
Definition unicode_to_utf8 (c : Z) : list Z :=
  let tail k := u8 (Z.lor (Z.land (Z.shiftr c k) 0x3f) 0x80) in
  if c <? 0x80 then [u8 c]
  else if c <? 0x800 then [u8 (Z.lor (Z.shiftr c 6) 0xc0); tail 0]
  else if c <? 0x10000 then [u8 (Z.lor (Z.shiftr c 12) 0xe0); tail 6; tail 0]
  else if c <? 0x00200000 then
    [u8 (Z.lor (Z.shiftr c 18) 0xf0); tail 12; tail 6; tail 0]
  else if c <? 0x04000000 then
    [u8 (Z.lor (Z.shiftr c 24) 0xf8); tail 18; tail 12; tail 6; tail 0]
  else if c <? 0x80000000 then
    [u8 (Z.lor (Z.shiftr c 30) 0xfc); tail 24; tail 18; tail 12; tail 6; tail 0]
  else [].

Definition utf8_min_code : list Z := [0x80; 0x800; 0x10000; 0x00200000; 0x04000000].
Definition utf8_first_code_mask : list Z := [0x1f; 0xf; 0x7; 0x3; 0x1].

(** The [switch] on the first byte: the number of continuation bytes. *)
Definition utf8_tail_len (c : Z) : option nat :=
  if (0xc0 <=? c) && (c <=? 0xdf) then Some 1%nat
  else if (0xe0 <=? c) && (c <=? 0xef) then Some 2%nat
  else if (0xf0 <=? c) && (c <=? 0xf7) then Some 3%nat
  else if (0xf8 <=? c) && (c <=? 0xfb) then Some 4%nat
  else if (0xfc <=? c) && (c <=? 0xfd) then Some 5%nat
  else None.

(** The loop over the continuation bytes: [None] when one is malformed. *)
Fixpoint utf8_tail (p : list Z) (pos : Z) (l : nat) (c : Z) : res (option Z) :=
  match l with
  | O => Ret (Some c)
  | S l =>
      b ← of_opt (znth p pos);
      if (b <? 0x80) || (0xc0 <=? b) then Ret None
      else utf8_tail p (pos + 1) l (Z.lor (Z.shiftl c 6) (Z.land b 0x3f))
  end.

(** Returns the code point and the offset of [*pp]; [(-1, 0)] on error. *)
Definition unicode_from_utf8 (p : list Z) (max_len : Z) : res (Z * Z) :=
  c ← of_opt (znth p 0);
  if c <? 0x80 then Ret (c, 1)
  else match utf8_tail_len c with
       | None => Ret (-1, 0)
       | Some l =>
           if max_len - 1 <? Z.of_nat l then Ret (-1, 0)
           else
             mask ← of_opt (utf8_first_code_mask !! (l - 1)%nat);
             r ← utf8_tail p 1 l (Z.land c mask);
             match r with
             | None => Ret (-1, 0)
             | Some c =>
                 min ← of_opt (utf8_min_code !! (l - 1)%nat);
                 if c <? min then Ret (-1, 0) else Ret (c, 1 + Z.of_nat l)
             end
       end.

(** ** The codec in arithmetic form *)
Definition utf8_cont (c k : Z) : Z := (c / 2 ^ k) mod 64 + 128.

Lemma utf8_cont_eq c k :
  0 <= k -> u8 (Z.lor (Z.land (Z.shiftr c k) 0x3f) 0x80) = utf8_cont c k.
Proof.
  intros. unfold utf8_cont. change 64 with (2 ^ 6). change 0x3f with (2 ^ 6 - 1).
  rewrite land_mask, Z.shiftr_div_pow2 by lia.
  change 0x80 with (2 * 2 ^ 6). pose proof (Z.mod_pos_bound (c / 2 ^ k) (2 ^ 6) ltac:(lia)).
  rewrite lor_low_high by lia. apply wrap_small. lia.
Qed.

Lemma utf8_head_eq c k n h :
  0 <= k -> 0 <= n -> 0 <= c < 2 ^ (k + n) -> 0 <= h -> 2 ^ n + h * 2 ^ n <= 256 ->
  u8 (Z.lor (Z.shiftr c k) (h * 2 ^ n)) = c / 2 ^ k + h * 2 ^ n.
Proof.
  intros Hk Hn Hc Hh Hm. rewrite Z.shiftr_div_pow2 by lia.
  assert (0 <= c / 2 ^ k < 2 ^ n) as Hd.
  { pose proof (Z.pow_pos_nonneg 2 k ltac:(lia) Hk). split; [apply Z.div_pos; lia |].
    apply Z.div_lt_upper_bound; [lia |]. rewrite <- Z.pow_add_r by lia. lia. }
  rewrite lor_low_high by lia. apply wrap_small. lia.
Qed.

(** The six shapes of an encoding. *)
Inductive utf8_shape (c : Z) : list Z -> Prop :=
| utf8_1 : 0 <= c < 0x80 -> utf8_shape c [c]
| utf8_2 : 0x80 <= c < 0x800 -> utf8_shape c [c / 2 ^ 6 + 0xc0; utf8_cont c 0]
| utf8_3 : 0x800 <= c < 0x10000 ->
    utf8_shape c [c / 2 ^ 12 + 0xe0; utf8_cont c 6; utf8_cont c 0]
| utf8_4 : 0x10000 <= c < 0x200000 ->
    utf8_shape c [c / 2 ^ 18 + 0xf0; utf8_cont c 12; utf8_cont c 6; utf8_cont c 0]
| utf8_5 : 0x200000 <= c < 0x4000000 ->
    utf8_shape c [c / 2 ^ 24 + 0xf8; utf8_cont c 18; utf8_cont c 12; utf8_cont c 6;
                  utf8_cont c 0]
| utf8_6 : 0x4000000 <= c < 0x80000000 ->
    utf8_shape c [c / 2 ^ 30 + 0xfc; utf8_cont c 24; utf8_cont c 18; utf8_cont c 12;
                  utf8_cont c 6; utf8_cont c 0].

Lemma unicode_to_utf8_shape c : 0 <= c < 2 ^ 31 -> utf8_shape c (unicode_to_utf8 c).
Proof.
  intros Hc. unfold unicode_to_utf8. rewrite !utf8_cont_eq by lia.
  repeat match goal with |- context [c <? ?n] => destruct (Z.ltb_spec c n) end; [..| lia].
  - rewrite wrap_small by lia. constructor. lia.
  - change 0xc0 with (6 * 2 ^ 5). rewrite (utf8_head_eq c 6 5 6) by lia. constructor. lia.
  - change 0xe0 with (14 * 2 ^ 4). rewrite (utf8_head_eq c 12 4 14) by lia. constructor. lia.
  - change 0xf0 with (30 * 2 ^ 3). rewrite (utf8_head_eq c 18 3 30) by lia. constructor. lia.
  - change 0xf8 with (62 * 2 ^ 2). rewrite (utf8_head_eq c 24 2 62) by lia. constructor. lia.
  - change 0xfc with (126 * 2 ^ 1). rewrite (utf8_head_eq c 30 1 126) by lia. constructor. lia.
Qed.

(** One continuation byte appends six bits. *)
Lemma utf8_tail_step p pos l acc b :
  znth p pos = Some b -> 0x80 <= b < 0xc0 ->
  utf8_tail p pos (S l) acc = utf8_tail p (pos + 1) l (acc * 64 + (b - 128)).
Proof.
  intros Hb Hr. cbn [utf8_tail]. rewrite Hb. cbn [of_opt mbind res_bind].
  destruct (Z.ltb_spec b 0x80), (Z.leb_spec 0xc0 b); try lia. cbn [orb]. f_equal.
  change 0x3f with (2 ^ 6 - 1). rewrite land_mask, Z.shiftl_mul_pow2 by lia.
  rewrite lor_high_low by (try apply Z.mod_pos_bound; lia).
  replace (b mod 2 ^ 6) with (b - 128) by zdiv_lia. lia.
Qed.

Lemma utf8_cont_range c k : 0x80 <= utf8_cont c k < 0xc0.
Proof. unfold utf8_cont. pose proof (Z.mod_pos_bound (c / 2 ^ k) 64). lia. Qed.

Lemma utf8_cont_join c k k6 :
  0 <= k -> k6 = k + 6 -> c / 2 ^ k6 * 64 + (utf8_cont c k - 128) = c / 2 ^ k.
Proof.
  intros ? ->. unfold utf8_cont. rewrite Z.pow_add_r by lia.
  rewrite <- Z.div_div by lia. change (2 ^ 6) with 64. zdiv_lia.
Qed.

(** ** Decoding an encoding *)
Lemma utf8_first_mask x n h :
  0 <= n -> 0 <= x < 2 ^ n -> Z.land (x + h * 2 ^ n) (2 ^ n - 1) = x.
Proof.
  intros. rewrite land_mask by lia. rewrite Z_mod_plus_full. apply Z.mod_small. lia.
Qed.

Lemma div_pow_bound c k n : 0 <= k -> 0 <= n -> 0 <= c < 2 ^ (k + n) -> 0 <= c / 2 ^ k < 2 ^ n.
Proof.
  intros Hk Hn Hc. pose proof (Z.pow_pos_nonneg 2 k ltac:(lia) Hk).
  split; [apply Z.div_pos; lia |].
  apply Z.div_lt_upper_bound; [lia |]. rewrite <- Z.pow_add_r by lia. lia.
Qed.

(** Run the decoder over literal continuation bytes. *)
Ltac utf8_run :=
  repeat first
    [ rewrite utf8_tail_step with (b := utf8_cont _ _) by
        (first [reflexivity | apply utf8_cont_range])
    | rewrite utf8_cont_join by lia ].

Ltac decide_ltb :=
  repeat match goal with
  | |- context [Z.ltb ?a ?b] =>
      first [ rewrite (proj2 (Z.ltb_lt a b)) by lia | rewrite (proj2 (Z.ltb_ge a b)) by lia ]
  | |- context [Z.leb ?a ?b] =>
      first [ rewrite (proj2 (Z.leb_le a b)) by lia | rewrite (proj2 (Z.leb_gt a b)) by lia ]
  end; cbn [andb orb].

Lemma utf8_tail_len_range c l :
  utf8_tail_len c = Some l <->
  (l = 1%nat /\ 0xc0 <= c <= 0xdf) \/ (l = 2%nat /\ 0xe0 <= c <= 0xef) \/
  (l = 3%nat /\ 0xf0 <= c <= 0xf7) \/ (l = 4%nat /\ 0xf8 <= c <= 0xfb) \/
  (l = 5%nat /\ 0xfc <= c <= 0xfd).
Proof.
  unfold utf8_tail_len.
  repeat (match goal with
          | |- context [?a <=? ?b] => destruct (Z.leb_spec a b)
          end; cbn [andb]);
    (split;
     [ first [intros [= <-]; lia | discriminate]
     | intros [[-> ?] | [[-> ?] | [[-> ?] | [[-> ?] | [-> ?]]]]]; first [reflexivity | lia] ]).
Qed.

(** Decoding when the first byte announces [l] continuation bytes that all
    are well formed. *)
Lemma unicode_from_utf8_run p max_len b0 l mask min c :
  znth p 0 = Some b0 -> 0x80 <= b0 -> utf8_tail_len b0 = Some l ->
  Z.of_nat l <= max_len - 1 ->
  utf8_first_code_mask !! (l - 1)%nat = Some mask ->
  utf8_tail p 1 l (Z.land b0 mask) = Ret (Some c) ->
  utf8_min_code !! (l - 1)%nat = Some min -> min <= c ->
  unicode_from_utf8 p max_len = Ret (c, 1 + Z.of_nat l).
Proof.
  intros H0 Hb Hl Hmax Hm Ht Hmin Hc. unfold unicode_from_utf8.
  rewrite H0. cbn [of_opt mbind res_bind]. decide_ltb. rewrite Hl. decide_ltb.
  rewrite Hm. cbn [of_opt mbind res_bind]. rewrite Ht. cbn [mbind res_bind].
  rewrite Hmin. cbn [of_opt mbind res_bind]. decide_ltb. reflexivity.
Qed.

(** Decode the encoding of [c] with [n] head bits at position [k] whose tag is
    [h * 2 ^ n]. *)
Ltac utf8_decode_case c l k n h mask :=
  pose proof (div_pow_bound c k n ltac:(lia) ltac:(lia) ltac:(lia));
  eapply (unicode_from_utf8_run _ _ (c / 2 ^ k + h * 2 ^ n) l mask);
  [ reflexivity | lia | apply utf8_tail_len_range; lia | lia | reflexivity
  | change mask with (2 ^ n - 1); rewrite utf8_first_mask by lia;
    utf8_run; cbn [utf8_tail];
    change (2 ^ 0) with 1; rewrite Z.div_1_r; reflexivity
  | reflexivity | lia ].

Lemma utf8_shape_decode c bs rest max_len :
  utf8_shape c bs -> zlen bs <= max_len ->
  unicode_from_utf8 (bs ++ rest) max_len = Ret (c, zlen bs).
Proof.
  intros [Hc | Hc | Hc | Hc | Hc | Hc] Hm; unfold zlen in Hm; cbn [length] in Hm.
  - unfold unicode_from_utf8. change (znth ([c] ++ rest) 0) with (Some c).
    cbn [of_opt mbind res_bind]. rewrite (proj2 (Z.ltb_lt c 128)) by lia. reflexivity.
  - utf8_decode_case c 1%nat 6 5 6 0x1f.
  - utf8_decode_case c 2%nat 12 4 14 0xf.
  - utf8_decode_case c 3%nat 18 3 30 0x7.
  - utf8_decode_case c 4%nat 24 2 62 0x3.
  - utf8_decode_case c 5%nat 30 1 126 0x1.
Qed.

(** ** Encoding a decoded sequence *)
Lemma utf8_shape_fun c l1 l2 : utf8_shape c l1 -> utf8_shape c l2 -> l1 = l2.
Proof. intros [] []; first [reflexivity | lia]. Qed.

Lemma utf8_head_snoc acc d k :
  0 <= d < 64 -> 0 <= k -> (acc * 64 + d) / 2 ^ (k + 6) = acc / 2 ^ k.
Proof.
  intros. rewrite (Z.add_comm k), (Z.pow_add_r 2 6 k), <- Z.div_div by lia.
  change (2 ^ 6) with 64. f_equal. zdiv_lia.
Qed.

Lemma utf8_cont_snoc acc d k :
  0 <= d < 64 -> 0 <= k -> utf8_cont (acc * 64 + d) (k + 6) = utf8_cont acc k.
Proof. intros. unfold utf8_cont. rewrite utf8_head_snoc by lia. reflexivity. Qed.

Lemma utf8_cont_last acc b : 0x80 <= b < 0xc0 -> utf8_cont (acc * 64 + (b - 128)) 0 = b.
Proof. intros. unfold utf8_cont. rewrite Z.div_1_r. zdiv_lia. Qed.

(** The decoder's loop succeeds only on continuation bytes. *)
Lemma utf8_tail_inv p pos l acc c :
  utf8_tail p pos (S l) acc = Ret (Some c) ->
  exists b, znth p pos = Some b /\ 0x80 <= b < 0xc0 /\ utf8_tail p (pos + 1) l (acc * 64 + (b - 128)) = Ret (Some c).
Proof.
  cbn [utf8_tail]. intros H. inv_ret. exists a.
  destruct ((a <? 128) || (192 <=? a)) eqn:Eb; [discriminate H |].
  apply orb_false_iff in Eb as [H1 H2]. apply Z.ltb_ge in H1. apply Z.leb_gt in H2.
  split; [done |]. split; [lia |]. rewrite <- H.
  pose proof (utf8_tail_step p pos l acc a E ltac:(lia)) as Hs.
  rewrite <- Hs. cbn [utf8_tail]. rewrite E. cbn [of_opt mbind res_bind].
  rewrite (proj2 (Z.ltb_ge a 128)), (proj2 (Z.leb_gt 192 a)) by lia. done.
Qed.

(** What a successful multi-byte decoding read. *)
Lemma unicode_from_utf8_inv p max_len c n :
  bytes_ok p -> unicode_from_utf8 p max_len = Ret (c, n) -> n <> 0 ->
  exists b, znth p 0 = Some b /\ 0 <= b < 256 /\
    ((b < 0x80 /\ c = b /\ n = 1) \/
     exists l mask min,
       0x80 <= b /\ utf8_tail_len b = Some l /\ Z.of_nat l <= max_len - 1 /\
       utf8_first_code_mask !! (l - 1)%nat = Some mask /\
       utf8_tail p 1 l (Z.land b mask) = Ret (Some c) /\
       utf8_min_code !! (l - 1)%nat = Some min /\ min <= c /\ n = 1 + Z.of_nat l).
Proof.
  intros Hok H Hn. unfold unicode_from_utf8 in H. inv_ret. exists a. split; [done |].
  assert (is_byte a) as Hb.
  { apply znth_Some in E as [_ E]. eapply (Forall_lookup_1 _ _ _ _ Hok E). }
  split; [exact Hb |].
  destruct (Z.ltb_spec a 128) as [Hlt | Hge]; [injection H as <- <-; left; lia |].
  destruct (utf8_tail_len a) as [l |]; [| congruence].
  destruct (Z.ltb_spec (max_len - 1) (Z.of_nat l)) as [Hm | Hm]; [congruence |].
  inv_ret. destruct a1 as [c' |]; [| congruence]. inv_ret.
  destruct (Z.ltb_spec c' a1) as [Hc | Hc]; [congruence |].
  injection H as -> <-. right. exists l, a0, a1. auto 10.
Qed.

Lemma znth_take_cons (p : list Z) b :
  znth p 0 = Some b -> exists q, p = b :: q.
Proof. destruct p; cbn; [discriminate |]. intros [= ->]. eauto. Qed.

Lemma utf8_shape_eq c bs : utf8_shape c bs -> unicode_to_utf8 c = bs.
Proof.
  intros Hs. apply (utf8_shape_fun c); [| done].
  apply unicode_to_utf8_shape. destruct Hs; lia.
Qed.

(** Read one more continuation byte off a successful decoding. *)
Ltac utf8_byte H q :=
  let b := fresh "b" in let Hb := fresh "Hb" in let Hr := fresh "Hr" in
  apply utf8_tail_inv in H; destruct H as (b & Hb & Hr & H);
  destruct q as [| ? q]; [discriminate Hb |];
  cbn in Hb; injection Hb as ->.

(** Peel the last six bits off every quotient of [acc * 64 + d]. *)
Lemma utf8_head_peel acc d k :
  0 <= d < 64 -> 6 <= k -> (acc * 64 + d) / 2 ^ k = acc / 2 ^ (k - 6).
Proof.
  intros. replace k with (k - 6 + 6) at 1 by lia. apply utf8_head_snoc; lia.
Qed.

Lemma utf8_cont_peel acc d k :
  0 <= d < 64 -> 6 <= k -> utf8_cont (acc * 64 + d) k = utf8_cont acc (k - 6).
Proof.
  intros. replace k with (k - 6 + 6) at 1 by lia. apply utf8_cont_snoc; lia.
Qed.

Ltac utf8_peel :=
  repeat first
    [ rewrite utf8_cont_last by lia
    | rewrite utf8_cont_peel by lia
    | rewrite utf8_head_peel by lia
    | match goal with
      | |- context [?k - 6] => let k' := eval vm_compute in (k - 6) in change (k - 6) with k'
      end ];
  change (2 ^ 0) with 1; rewrite ?Z.div_1_r.

(** The bytes read are the encoding [shape] of the code point. *)
Ltac utf8_encode_case shape :=
  match goal with
  | |- utf8_shape ?c ?l =>
      let ty := type of (shape c) in
      match ty with
      | _ -> utf8_shape _ ?r =>
          replace l with r; [apply shape; lia | utf8_peel; repeat f_equal; lia]
      end
  end.

Lemma utf8_decode_shape p max_len c n :
  bytes_ok p -> unicode_from_utf8 p max_len = Ret (c, n) -> n <> 0 ->
  utf8_shape c (take (Z.to_nat n) p) /\ n <= Z.max 1 max_len.
Proof.
  intros Hok H Hn.
  destruct (unicode_from_utf8_inv p max_len c n Hok H Hn)
    as (b & H0 & Hb & [(Hlt & -> & ->) | (l & mask & min & Hge & Hl & Hm & Hmask & Ht & Hmin & Hc & ->)]);
    apply znth_take_cons in H0 as [q ->].
  - split; [| lia]. constructor. lia.
  - split; [| lia].
    apply utf8_tail_len_range in Hl
      as [[-> Hr0] | [[-> Hr0] | [[-> Hr0] | [[-> Hr0] | [-> Hr0]]]]];
      cbn in Hmask, Hmin; injection Hmask as <-; injection Hmin as <-.
    + replace b with ((b - 192) + 6 * 2 ^ 5) in Ht by lia. change 31 with (2 ^ 5 - 1) in Ht.
      rewrite utf8_first_mask in Ht by lia.
      do 1 utf8_byte Ht q. cbn [utf8_tail] in Ht. injection Ht as <-.
      change (Z.to_nat _) with 2%nat. cbn [take]. utf8_encode_case utf8_2.
    + replace b with ((b - 224) + 14 * 2 ^ 4) in Ht by lia. change 15 with (2 ^ 4 - 1) in Ht.
      rewrite utf8_first_mask in Ht by lia.
      do 2 utf8_byte Ht q. cbn [utf8_tail] in Ht. injection Ht as <-.
      change (Z.to_nat _) with 3%nat. cbn [take]. utf8_encode_case utf8_3.
    + replace b with ((b - 240) + 30 * 2 ^ 3) in Ht by lia. change 7 with (2 ^ 3 - 1) in Ht.
      rewrite utf8_first_mask in Ht by lia.
      do 3 utf8_byte Ht q. cbn [utf8_tail] in Ht. injection Ht as <-.
      change (Z.to_nat _) with 4%nat. cbn [take]. utf8_encode_case utf8_4.
    + replace b with ((b - 248) + 62 * 2 ^ 2) in Ht by lia. change 3 with (2 ^ 2 - 1) in Ht.
      rewrite utf8_first_mask in Ht by lia.
      do 4 utf8_byte Ht q. cbn [utf8_tail] in Ht. injection Ht as <-.
      change (Z.to_nat _) with 5%nat. cbn [take]. utf8_encode_case utf8_5.
    + replace b with ((b - 252) + 126 * 2 ^ 1) in Ht by lia. change 1 with (2 ^ 1 - 1) in Ht.
      rewrite utf8_first_mask in Ht by lia.
      do 5 utf8_byte Ht q. cbn [utf8_tail] in Ht. injection Ht as <-.
      change (Z.to_nat _) with 6%nat. cbn [take]. utf8_encode_case utf8_6.
Qed.

(** ** The decoder never reads past [max_len] *)
Lemma utf8_tail_total p l : forall pos acc,
  0 <= pos -> pos + Z.of_nat l <= zlen p -> exists r, utf8_tail p pos l acc = Ret r.
Proof.
  induction l as [| l IH]; intros pos acc Hp Hl; cbn [utf8_tail]; [eauto |].
  destruct (proj2 (znth_is_Some p pos) ltac:(lia)) as [b ->]. cbn [of_opt mbind res_bind].
  destruct (_ || _); [eauto |]. apply IH; lia.
Qed.

Lemma unicode_from_utf8_total p max_len :
  1 <= max_len <= zlen p -> exists r, unicode_from_utf8 p max_len = Ret r.
Proof.
  intros Hm. unfold unicode_from_utf8.
  destruct (proj2 (znth_is_Some p 0) ltac:(lia)) as [c ->]. cbn [of_opt mbind res_bind].
  destruct (c <? 128); [eauto |]. destruct (utf8_tail_len c) as [l |] eqn:El; [| eauto].
  destruct (Z.ltb_spec (max_len - 1) (Z.of_nat l)); [eauto |].
  apply utf8_tail_len_range in El.
  assert (exists mask, utf8_first_code_mask !! (l - 1)%nat = Some mask) as [mask ->]
    by (destruct El as [[-> _] | [[-> _] | [[-> _] | [[-> _] | [-> _]]]]]; cbn; eauto).
  assert (exists min, utf8_min_code !! (l - 1)%nat = Some min) as [min ->]
    by (destruct El as [[-> _] | [[-> _] | [[-> _] | [[-> _] | [-> _]]]]]; cbn; eauto).
  cbn [of_opt mbind res_bind].
  destruct (utf8_tail_total p l 1 (Z.land c mask)) as [[r |] ->]; [lia | lia | |];
    cbn [of_opt mbind res_bind]; [| eauto]. destruct (r <? min); eauto.
Qed.

Lemma unicode_from_utf8_cases p max_len c n :
  bytes_ok p -> unicode_from_utf8 p max_len = Ret (c, n) ->
  (c = -1 /\ n = 0) \/ n <> 0.
Proof.
  intros Hok H. destruct (decide (n = 0)) as [-> | ?]; [left | right; done].
  unfold unicode_from_utf8 in H. inv_ret.
  destruct (a <? 128); [congruence |].
  destruct (utf8_tail_len a) as [l |]; [| split; congruence].
  destruct (max_len - 1 <? Z.of_nat l); [split; congruence |]. inv_ret.
  destruct a1 as [c' |]; [| split; congruence]. inv_ret.
  destruct (c' <? a1); [split; congruence |]. injection H as _ H. lia.
Qed.

Lemma utf8_shape_zlen c bs : utf8_shape c bs -> 1 <= zlen bs <= 6 /\ 0 <= c < 2 ^ 31.
Proof. intros []; unfold zlen; cbn [length]; lia. Qed.

(** ** The theorems of the codec *)

(** C13: decoding the encoding of any 31-bit code point, whatever follows it in
    memory, gives back the code point and the number of bytes stored. *)
Theorem utf8_roundtrip (c max_len : Z) (rest : list Z) :
  0 <= c < 2 ^ 31 -> zlen (unicode_to_utf8 c) <= max_len ->
  unicode_from_utf8 (unicode_to_utf8 c ++ rest) max_len =
  Ret (c, zlen (unicode_to_utf8 c)).
Proof. intros Hc Hm. apply utf8_shape_decode; [apply unicode_to_utf8_shape, Hc | exact Hm]. Qed.

Lemma utf8_roundtrip_witness :
  unicode_from_utf8 (unicode_to_utf8 0x20AC ++ [7]) 6 = Ret (0x20AC, 3).
Proof. apply (utf8_roundtrip 0x20AC 6 [7]); [lia | vm_compute; discriminate]. Defined.

(** C14: on readable memory the decoder returns either a code point whose
    encoding is exactly the bytes it consumed, or -1 with the pointer not
    moved, and then no encoding that fits in [max_len] bytes is a prefix of
    the input (so overlong and truncated forms are refused). *)
Theorem utf8_decode_exact (p : list Z) (max_len : Z) :
  bytes_ok p -> 1 <= max_len <= zlen p ->
  (exists c, 0 <= c < 2 ^ 31 /\ unicode_to_utf8 c `prefix_of` p /\
     zlen (unicode_to_utf8 c) <= max_len /\
     unicode_from_utf8 p max_len = Ret (c, zlen (unicode_to_utf8 c))) \/
  (unicode_from_utf8 p max_len = Ret (-1, 0) /\
   forall c, 0 <= c < 2 ^ 31 -> zlen (unicode_to_utf8 c) <= max_len ->
             ~ unicode_to_utf8 c `prefix_of` p).
Proof.
  intros Hok Hm. destruct (unicode_from_utf8_total p max_len Hm) as [[c n] E].
  destruct (unicode_from_utf8_cases p max_len c n Hok E) as [[-> ->] | Hn].
  - right. split; [exact E |]. intros c Hc Hl [k ->].
    rewrite (utf8_shape_decode c _ k max_len (unicode_to_utf8_shape c Hc) Hl) in E.
    injection E as -> _. lia.
  - left. destruct (utf8_decode_shape p max_len c n Hok E Hn) as [Hs Hle].
    pose proof (utf8_shape_zlen _ _ Hs) as [Hz Hc]. rewrite zlen_take in Hz.
    assert (zlen (take (Z.to_nat n) p) = n) as Hz' by (rewrite zlen_take; lia).
    exists c. rewrite (utf8_shape_eq _ _ Hs). repeat split; try lia.
    + exists (drop (Z.to_nat n) p). symmetry. apply take_drop.
    + congruence.
Qed.

Lemma utf8_decode_exact_witness :
  (exists c, 0 <= c < 2 ^ 31 /\ unicode_to_utf8 c `prefix_of` [0xC0; 0x80] /\
     zlen (unicode_to_utf8 c) <= 2 /\
     unicode_from_utf8 [0xC0; 0x80] 2 = Ret (c, zlen (unicode_to_utf8 c))) \/
  (unicode_from_utf8 [0xC0; 0x80] 2 = Ret (-1, 0) /\
   forall c, 0 <= c < 2 ^ 31 -> zlen (unicode_to_utf8 c) <= 2 ->
             ~ unicode_to_utf8 c `prefix_of` [0xC0; 0x80]).
Proof.
  apply (utf8_decode_exact [0xC0; 0x80] 2); [| vm_compute; split; discriminate].
  repeat constructor; vm_compute; congruence.
Defined.
