(* ===== verification/Sort.v ===== *)
(** * cutils.c: [heapsortx] and [rqsort]

    The array is a list of elements; a pointer into it is an element index
    (the byte offset divided by [size]).  File Exchange.v models the functions
    chosen by [exchange_func] on bytes, and shows that they do what [swap] and
    [swap_block] do here on elements.

    The callback of C is [cmp(a, b, opaque)]: its answer may depend on what
    [opaque] points to, and it may change that ([js_array_cmp_generic] calls a
    JavaScript function and records an exception in [psc]).  So [cmp] takes
    the state [s] behind [opaque] and returns its answer and the next state,
    and every routine threads the state in the order of its calls.  The
    permutation, memory-safety and termination results hold for every such
    callback, also for one whose answers contradict each other or change from
    call to call; sortedness needs answers that are a total preorder. *)
From Stdlib Require Import ZArith Lia Bool.
From stdpp Require Import base numbers list.
From S2P Require Import Prelude.

Local Open Scope nat_scope.

Section rqsort.
Context {A St : Type} (cmp : St -> A -> A -> Z * St).

(** ** Array accesses *)
Definition get (l : list A) (i : nat) : res A := of_opt (l !! i).

Definition cmp_at (s : St) (l : list A) (i j : nat) : res (Z * St) :=
  x ← get l i; y ← get l j; Ret (cmp s x y).

Definition swap (l : list A) (i j : nat) : res (list A) :=
  x ← get l i; y ← get l j; Ret (<[j := x]> (<[i := y]> l)).

Fixpoint swap_block (l : list A) (a b n : nat) : res (list A) :=
  match n with
  | O => Ret l
  | S n => l ← swap l a b; swap_block l (S a) (S b) n
  end.

(** ** Heap sort of the [n] elements from [b] *)

(** [for (r = i; (c = r * 2 + size) < n; r = c)] *)
Fixpoint sift (fuel : nat) (s : St) (l : list A) (b r n : nat) : res (list A * St) :=
  match fuel with
  | O => NoFuel
  | S fuel =>
      let c := r * 2 + 1 in
      if decide (c < n) then
        '(c, s) ← (if decide (c < n - 1) then
               '(v, s) ← cmp_at s l (b + c) (b + c + 1);
               Ret (if (v <=? 0)%Z then c + 1 else c, s)
             else Ret (c, s));
        '(v, s) ← cmp_at s l (b + r) (b + c);
        if (0 <? v)%Z then Ret (l, s)
        else l ← swap l (b + r) (b + c); sift fuel s l b c n
      else Ret (l, s)
  end.

(** [while (i > 0) { i -= size; ... }] *)
Fixpoint heapify (s : St) (l : list A) (b i n : nat) : res (list A * St) :=
  match i with
  | O => Ret (l, s)
  | S i => '(l, s) ← sift (S n) s l b i n; heapify s l b i n
  end.

(** [for (i = n - size; i > 0; i -= size)] *)
Fixpoint sort_down (s : St) (l : list A) (b i : nat) : res (list A * St) :=
  match i with
  | O => Ret (l, s)
  | S i' =>
      l ← swap l b (b + i); '(l, s) ← sift (S i) s l b 0 i; sort_down s l b i'
  end.

Definition heapsortx (s : St) (l : list A) (b nmemb : nat) : res (list A * St) :=
  if decide (1 < nmemb) then
    '(l, s) ← heapify s l b (nmemb / 2) nmemb;
    sort_down s l b (nmemb - 1)
  else Ret (l, s).

(** ** Median of three *)
Definition med3 (s : St) (l : list A) (a b c : nat) : res (nat * St) :=
  '(ab, s) ← cmp_at s l a b;
  if (ab <? 0)%Z then
    '(bc, s) ← cmp_at s l b c;
    if (bc <? 0)%Z then Ret (b, s)
    else '(ac, s) ← cmp_at s l a c; Ret (if (ac <? 0)%Z then c else a, s)
  else
    '(bc, s) ← cmp_at s l b c;
    if (0 <? bc)%Z then Ret (b, s)
    else '(ac, s) ← cmp_at s l a c; Ret (if (ac <? 0)%Z then a else c, s).

(** ** The partition loop of [rqsort]

    [i], [lt] and [gt] of the source are the element indexes of [pi], [plt]
    and [pgt] relative to [ptr]; the model keeps the pointers. *)

(** [while (pi < pj && (c = cmp(ptr, pi, opaque)) >= 0)] *)
Fixpoint scan_up (fuel : nat) (s : St) (l : list A) (ptr plt pi pj : nat)
  : res (list A * nat * nat * St) :=
  match fuel with
  | O => NoFuel
  | S fuel =>
      if decide (pi < pj) then
        '(c, s) ← cmp_at s l ptr pi;
        if (0 <=? c)%Z then
          if (c =? 0)%Z then
            l ← swap l plt pi; scan_up fuel s l ptr (plt + 1) (pi + 1) pj
          else scan_up fuel s l ptr plt (pi + 1) pj
        else Ret (l, plt, pi, s)
      else Ret (l, plt, pi, s)
  end.

(** [while (pi < (pj -= size) && (c = cmp(ptr, pj, opaque)) <= 0)]; returns
    the array, [pgt], [pj] after the last decrement and the state. *)
Fixpoint scan_down (fuel : nat) (s : St) (l : list A) (ptr pi pj pgt : nat)
  : res (list A * nat * nat * St) :=
  match fuel with
  | O => NoFuel
  | S fuel =>
      let pj := pj - 1 in
      if decide (pi < pj) then
        '(c, s) ← cmp_at s l ptr pj;
        if (c <=? 0)%Z then
          if (c =? 0)%Z then
            l ← swap l (pgt - 1) pj; scan_down fuel s l ptr pi pj (pgt - 1)
          else scan_down fuel s l ptr pi pj pgt
        else Ret (l, pgt, pj, s)
      else Ret (l, pgt, pj, s)
  end.

(** [for (;;)]: returns the array, [plt], [pi], [pgt] and the state. *)
Fixpoint partition (fuel : nat) (s : St) (l : list A) (ptr plt pi pj pgt : nat)
  : res (list A * nat * nat * nat * St) :=
  match fuel with
  | O => NoFuel
  | S fuel' =>
      '(l, plt, pi, s) ← scan_up fuel s l ptr plt pi pj;
      '(l, pgt, pj, s) ← scan_down fuel s l ptr pi pj pgt;
      if decide (pj <= pi) then Ret (l, plt, pi, pgt, s)
      else l ← swap l pi pj; partition fuel' s l ptr plt (pi + 1) pj pgt
  end.

(** One pass over a segment of [nmemb] elements from [ptr]: pivot selection,
    partition and the two block swaps.  Returns the array, the number [lt] of
    smaller elements, the index [gt] (from [ptr]) of the first greater element
    and the state. *)
Definition split_segment (s : St) (l : list A) (ptr nmemb : nat)
  : res (list A * nat * nat * St) :=
  let m4 := nmemb / 4 in
  '(m, s) ← med3 s l (ptr + m4) (ptr + 2 * m4) (ptr + 3 * m4);
  l ← swap l ptr m;
  let top := ptr + nmemb in
  '(l, plt, pi, pgt, s) ← partition nmemb s l ptr (ptr + 1) (ptr + 1) top top;
  let span := plt - ptr in
  let span2 := pi - plt in
  let lt := (pi - ptr) - (plt - ptr) in
  let span := if decide (span2 < span) then span2 else span in
  l ← swap_block l ptr (pi - span) span;
  let span := top - pgt in
  let span2 := pgt - pi in
  let gt := nmemb - ((pgt - ptr) - (pi - ptr)) in
  let span := if decide (span2 < span) then span2 else span in
  l ← swap_block l pi (top - span) span;
  Ret (l, lt, gt, s).

(** ** Insertion sort of small segments *)
Fixpoint insert_back (s : St) (l : list A) (ptr : nat) (k : nat) : res (list A * St) :=
  match k with
  | O => Ret (l, s)
  | S k' =>
      '(c, s) ← cmp_at s l (ptr + k') (ptr + k);
      if (0 <? c)%Z then l ← swap l (ptr + k) (ptr + k'); insert_back s l ptr k'
      else Ret (l, s)
  end.

(** [for (pi = ptr + size; pi < top; pi += size)]; [k] passes are left. *)
Fixpoint insertion_sort (s : St) (l : list A) (ptr i k : nat) : res (list A * St) :=
  match k with
  | O => Ret (l, s)
  | S k => '(l, s) ← insert_back s l ptr i; insertion_sort s l ptr (i + 1) k
  end.

(** ** [rqsort] *)
Record frame := Frame { f_base : nat; f_count : nat; f_depth : nat }.

Definition STACK_SIZE : nat := 50.

(** [*sp++ = f]: the array [stack] has 50 entries. *)
Definition push (stack : list frame) (f : frame) : res (list frame) :=
  if decide (length stack < STACK_SIZE) then Ret (f :: stack) else Fault.

(** [while (nmemb > 6)]: returns the array, the stack, the small segment that
    is left and the state. *)
Fixpoint quick_loop (fuel : nat) (s : St) (l : list A) (stack : list frame) (ptr nmemb depth : nat)
  : res (list A * list frame * nat * nat * St) :=
  match fuel with
  | O => NoFuel
  | S fuel =>
      if decide (6 < nmemb) then
        let depth := depth + 1 in
        if decide (50 < depth) then
          '(l, s) ← heapsortx s l ptr nmemb; Ret (l, stack, ptr, 0, s)
        else
          '(l, lt, gt, s) ← split_segment s l ptr nmemb;
          if decide (nmemb - gt < lt) then
            stack ← push stack (Frame ptr lt depth);
            quick_loop fuel s l stack (ptr + gt) (nmemb - gt) depth
          else
            stack ← push stack (Frame (ptr + gt) (nmemb - gt) depth);
            quick_loop fuel s l stack ptr lt depth
      else Ret (l, stack, ptr, nmemb, s)
  end.

(** [while (sp > stack)] *)
Fixpoint stack_loop (fuel : nat) (s : St) (l : list A) (stack : list frame) : res (list A * St) :=
  match fuel with
  | O => NoFuel
  | S fuel =>
      match stack with
      | [] => Ret (l, s)
      | f :: stack =>
          '(l, stack, ptr, nmemb, s) ←
            quick_loop 52 s l stack (f_base f) (f_count f) (f_depth f);
          '(l, s) ← insertion_sort s l ptr 1 (nmemb - 1);
          stack_loop fuel s l stack
      end
  end.

Definition rqsort (s : St) (l : list A) : res (list A * St) :=
  let nmemb := length l in
  if decide (nmemb < 2) then Ret (l, s)
  else stack_loop (nmemb + 2) s l [Frame 0 nmemb 0].

End rqsort.

(** A callback without state. *)
Definition pure_cmp {A : Type} (cmp : A -> A -> Z) (u : unit) (x y : A) : Z * unit :=
  (cmp x y, u).

(** A callback that answers what its caller has prepared, whatever the elements
    (a JavaScript function that returns random numbers). *)
Definition scripted_cmp {A : Type} (answers : list Z) (x y : A) : Z * list Z :=
  match answers with
  | [] => (0%Z, [])
  | c :: answers => (c, answers)
  end.

Example rqsort_ex :
  rqsort (pure_cmp Z.sub) () [5; 3; 9; 1; 7; 3; 8; 2; 6; 3; 4; 0]%Z =
  Ret ([0; 1; 2; 3; 3; 3; 4; 5; 6; 7; 8; 9]%Z, ()).
Proof. vm_compute. reflexivity. Qed.
Example rqsort_scripted_ex :
  rqsort scripted_cmp [1; -1; 1; 0; 1; -1; 1; 1; 0; -1]%Z [5; 3; 9; 1; 7; 3; 8; 2]%Z =
  Ret ([2; 7; 9; 8; 3; 3; 5; 1]%Z, []).
Proof. vm_compute. reflexivity. Qed.
Example heapsortx_ex :
  heapsortx (pure_cmp Z.sub) () [5; 3; 9; 1; 7; 3; 8; 2; 6; 3; 4; 0]%Z 2 9 =
  Ret ([5; 3; 1; 2; 3; 3; 4; 6; 7; 8; 9; 0]%Z, ()).
Proof. vm_compute. reflexivity. Qed.
