(* ===== verification/Exchange.v ===== *)
(** * cutils.c: the exchange functions of [rqsort] and [heapsortx]

    The sorting routines move elements with a function chosen by
    [exchange_func] from the address of the array and the element size: 16, 8,
    4, 2 or 1 bytes at a time.  Memory is a list of bytes that starts at the
    address [addr]; a pointer is an offset into it.  A word access is checked
    for its bounds and for its alignment.  The theorem ties these functions to
    [Sort.swap] and [Sort.swap_block], which exchange whole elements. *)
From Stdlib Require Import ZArith Lia Bool.
From stdpp Require Import base numbers list.
From S2P Require Import Prelude Sort.

Inductive exchange_f : Type :=
  exchange_bytes | exchange_one_byte | exchange_int16s | exchange_one_int16 | exchange_int32s
| exchange_one_int32 | exchange_int64s | exchange_one_int64 | exchange_int128s | exchange_one_int128.

Definition exchange_func (base size : Z) : exchange_f :=
  let low := Z.land (Z.lor base size) 15 in
  if low =? 0 then if size =? 16 then exchange_one_int128 else exchange_int128s
  else if low =? 8 then if size =? 8 then exchange_one_int64 else exchange_int64s
  else if (low =? 4) || (low =? 12) then
    if size =? 4 then exchange_one_int32 else exchange_int32s
  else if (low =? 2) || (low =? 6) || (low =? 10) || (low =? 14) then
    if size =? 2 then exchange_one_int16 else exchange_int16s
  else if size =? 1 then exchange_one_byte else exchange_bytes.

Section exchange.
(** The address of the first byte. *)
Variable addr : Z.

(** ** Word accesses *)
Definition load (w : Z) (mem : list Z) (p : Z) : res (list Z) :=
  _ ← assert_ ((addr + p) mod w =? 0); of_opt (zread mem p w).
Definition store (w : Z) (mem : list Z) (p : Z) (v : list Z) : res (list Z) :=
  _ ← assert_ ((addr + p) mod w =? 0); of_opt (zwrite mem p v).

(** [t = *ap; *ap = *bp; *bp = t;] *)
Definition exchange_word (w : Z) (mem : list Z) (ap bp : Z) : res (list Z) :=
  t ← load w mem ap;
  v ← load w mem bp;
  mem ← store w mem ap v;
  store w mem bp t.

(** Two 64-bit words: [t = ap[0]; u = ap[1]; ap[0] = bp[0]; ...]. *)
Definition exchange_pair (mem : list Z) (ap bp : Z) : res (list Z) :=
  t ← load 8 mem ap;
  u ← load 8 mem (ap + 8);
  v ← load 8 mem bp;
  mem ← store 8 mem ap v;
  v ← load 8 mem (bp + 8);
  mem ← store 8 mem (ap + 8) v;
  mem ← store 8 mem bp t;
  store 8 mem (bp + 8) u.

(** [for (size /= w; size-- != 0;)] *)
Fixpoint exchange_words (w : Z) (n : nat) (mem : list Z) (ap bp : Z) : res (list Z) :=
  match n with
  | O => Ret mem
  | S n => mem ← exchange_word w mem ap bp; exchange_words w n mem (ap + w) (bp + w)
  end.

Fixpoint exchange_pairs (n : nat) (mem : list Z) (ap bp : Z) : res (list Z) :=
  match n with
  | O => Ret mem
  | S n => mem ← exchange_pair mem ap bp; exchange_pairs n mem (ap + 16) (bp + 16)
  end.

(** [f(a, b, size)] *)
Definition exchange (f : exchange_f) (mem : list Z) (a b size : Z) : res (list Z) :=
  match f with
  | exchange_bytes => exchange_words 1 (Z.to_nat size) mem a b
  | exchange_one_byte => exchange_word 1 mem a b
  | exchange_int16s => exchange_words 2 (Z.to_nat (size / 2)) mem a b
  | exchange_one_int16 => exchange_word 2 mem a b
  | exchange_int32s => exchange_words 4 (Z.to_nat (size / 4)) mem a b
  | exchange_one_int32 => exchange_word 4 mem a b
  | exchange_int64s => exchange_words 8 (Z.to_nat (size / 8)) mem a b
  | exchange_one_int64 => exchange_word 8 mem a b
  | exchange_int128s => exchange_pairs (Z.to_nat (size / 16)) mem a b
  | exchange_one_int128 => exchange_pair mem a b
  end.

(** ** Exchanging two blocks, byte by byte *)
Definition partner (a b n k : Z) : Z :=
  if (a <=? k) && (k <? a + n) then b + (k - a)
  else if (b <=? k) && (k <? b + n) then a + (k - b) else k.

Definition swapped (a b n : Z) (mem mem' : list Z) : Prop :=
  zlen mem' = zlen mem /\
  forall k, 0 <= k < zlen mem -> znth mem' k = znth mem (partner a b n k).

(** The blocks are inside memory, and equal or disjoint. *)
Definition blocks_ok (mem : list Z) (a b n : Z) : Prop :=
  0 <= a /\ 0 <= b /\ a + n <= zlen mem /\ b + n <= zlen mem /\
  (a = b \/ a + n <= b \/ b + n <= a).

Lemma swapped_zero a b mem : swapped a b 0 mem mem.
Proof.
  split; [done |]. intros k Hk. unfold partner.
  destruct (Z.leb_spec a k), (Z.ltb_spec k (a + 0)), (Z.leb_spec b k), (Z.ltb_spec k (b + 0));
    cbn [andb]; try lia; done.
Qed.

(** Case analysis on the comparisons of the goal, the innermost first. *)
Ltac zsplit :=
  repeat (match goal with
  | |- context [Z.leb ?x ?y] =>
      lazymatch constr:((x, y)) with context [if _ then _ else _] => fail | _ => destruct (Z.leb_spec x y) end
  | |- context [Z.ltb ?x ?y] =>
      lazymatch constr:((x, y)) with context [if _ then _ else _] => fail | _ => destruct (Z.ltb_spec x y) end
  end; cbn [andb]; try lia).

Lemma swapped_app a b n n' mem mem1 mem2 :
  0 <= n -> 0 <= n' -> blocks_ok mem a b (n + n') ->
  swapped a b n mem mem1 -> swapped (a + n) (b + n) n' mem1 mem2 ->
  swapped a b (n + n') mem mem2.
Proof.
  intros Hn Hn' (Ha & Hb & Hae & Hbe & Hd) (Hl1 & H1) (Hl2 & H2). split; [congruence |].
  intros k Hk. rewrite H2 by lia.
  assert (0 <= partner (a + n) (b + n) n' k < zlen mem) by (unfold partner; zsplit; lia).
  rewrite H1 by lia. f_equal. unfold partner. zsplit; lia.
Qed.

Lemma load_ok w mem p :
  0 < w -> 0 <= p -> p + w <= zlen mem -> (addr + p) mod w = 0 ->
  exists v, load w mem p = Ret v /\ zlen v = w /\
    forall k, 0 <= k < w -> znth v k = znth mem (p + k).
Proof.
  intros Hw Hp Hb Hal. unfold load. rewrite (proj2 (Z.eqb_eq _ _) Hal). cbn.
  destruct (zread mem p w) as [v |] eqn:E; [| rewrite zread_in in E by lia; done].
  exists v. split; [done |]. split; [exact (zread_zlen _ _ _ _ E) |].
  intros k Hk. apply zread_Some in E as (_ & _ & _ & ->).
  rewrite znth_take, znth_drop by lia. f_equal. lia.
Qed.

Lemma store_ok w mem p v :
  0 < w -> 0 <= p -> p + w <= zlen mem -> zlen v = w -> (addr + p) mod w = 0 ->
  exists mem', store w mem p v = Ret mem' /\ zlen mem' = zlen mem /\
    forall k, 0 <= k < zlen mem ->
      znth mem' k = if (p <=? k) && (k <? p + w) then znth v (k - p) else znth mem k.
Proof.
  intros Hw Hp Hb Hv Hal. unfold store. rewrite (proj2 (Z.eqb_eq _ _) Hal). cbn.
  destruct (zwrite mem p v) as [mem' |] eqn:E; [| rewrite zwrite_in in E by lia; done].
  exists mem'. split; [done |]. split; [exact (zwrite_zlen _ _ _ _ E) |].
  intros k Hk. apply zwrite_Some in E as (_ & _ & ->).
  assert (zlen (take (Z.to_nat p) mem) = p) as Ht by (rewrite zlen_take; lia).
  zsplit.
  - rewrite znth_app_r, Ht by lia. rewrite znth_app_l by lia. done.
  - rewrite znth_app_r, Ht by lia. rewrite znth_app_r by lia. rewrite znth_drop by lia. f_equal. lia.
  - rewrite znth_app_l by lia. rewrite znth_take by lia. done.
Qed.

Lemma exchange_word_ok w mem a b :
  0 < w -> blocks_ok mem a b w -> (addr + a) mod w = 0 -> (addr + b) mod w = 0 ->
  exists mem', exchange_word w mem a b = Ret mem' /\ swapped a b w mem mem'.
Proof.
  intros Hw (Ha & Hb & Hae & Hbe & Hd) Hala Halb. unfold exchange_word.
  destruct (load_ok w mem a) as (t & -> & Ht & Htn); try lia.
  destruct (load_ok w mem b) as (v & Ev & Hv & Hvn); try lia. cbn [mbind res_bind]. rewrite Ev.
  destruct (store_ok w mem a v) as (m1 & E1 & Hl1 & Hn1); try lia. cbn [mbind res_bind]. rewrite E1.
  destruct (store_ok w m1 b t) as (m2 & E2 & Hl2 & Hn2); try lia. cbn [mbind res_bind]. rewrite E2.
  exists m2. split; [done |]. split; [lia |]. intros k Hk. rewrite Hn2, Hn1 by lia. unfold partner.
  zsplit; rewrite ?Htn, ?Hvn by lia; f_equal; lia.
Qed.

Lemma mod_step w x k : 0 < w -> x mod w = 0 -> (x + k * w) mod w = 0.
Proof. intros. rewrite Z.mod_add by lia. done. Qed.

Lemma exchange_pair_ok mem a b :
  blocks_ok mem a b 16 -> (addr + a) mod 8 = 0 -> (addr + b) mod 8 = 0 ->
  exists mem', exchange_pair mem a b = Ret mem' /\ swapped a b 16 mem mem'.
Proof.
  intros (Ha & Hb & Hae & Hbe & Hd) Hala Halb. unfold exchange_pair.
  assert ((addr + (a + 8)) mod 8 = 0) by (rewrite Z.add_assoc; apply (mod_step 8 _ 1); lia).
  assert ((addr + (b + 8)) mod 8 = 0) by (rewrite Z.add_assoc; apply (mod_step 8 _ 1); lia).
  destruct (load_ok 8 mem a) as (t & -> & Ht & Htn); try lia. cbn [mbind res_bind].
  destruct (load_ok 8 mem (a + 8)) as (u & -> & Hu & Hun); try lia. cbn [mbind res_bind].
  destruct (load_ok 8 mem b) as (v & -> & Hv & Hvn); try lia. cbn [mbind res_bind].
  destruct (store_ok 8 mem a v) as (m1 & -> & Hl1 & Hn1); try lia. cbn [mbind res_bind].
  destruct (load_ok 8 m1 (b + 8)) as (v' & -> & Hv' & Hvn'); try lia. cbn [mbind res_bind].
  destruct (store_ok 8 m1 (a + 8) v') as (m2 & -> & Hl2 & Hn2); try lia. cbn [mbind res_bind].
  destruct (store_ok 8 m2 b t) as (m3 & -> & Hl3 & Hn3); try lia. cbn [mbind res_bind].
  destruct (store_ok 8 m3 (b + 8) u) as (m4 & -> & Hl4 & Hn4); try lia.
  exists m4. split; [done |]. split; [lia |]. intros k Hk.
  rewrite Hn4, Hn3, Hn2, Hn1 by lia. unfold partner.
  zsplit; rewrite ?Htn, ?Hun, ?Hvn, ?Hvn' by lia; rewrite ?Hn1 by lia; zsplit;
    rewrite ?Hvn by lia; try lia; f_equal; lia.
Qed.

Lemma blocks_head mem a b n n' :
  0 <= n -> 0 <= n' -> blocks_ok mem a b (n + n') -> blocks_ok mem a b n.
Proof. unfold blocks_ok. lia. Qed.
Lemma blocks_tail mem mem1 a b n n' :
  0 <= n -> 0 <= n' -> zlen mem1 = zlen mem -> blocks_ok mem a b (n + n') ->
  blocks_ok mem1 (a + n) (b + n) n'.
Proof. unfold blocks_ok. lia. Qed.

Lemma exchange_words_ok w n : forall mem a b,
  0 < w -> blocks_ok mem a b (Z.of_nat n * w) -> (addr + a) mod w = 0 -> (addr + b) mod w = 0 ->
  exists mem', exchange_words w n mem a b = Ret mem' /\ swapped a b (Z.of_nat n * w) mem mem'.
Proof.
  induction n as [| n IH]; intros mem a b Hw Hb Hala Halb; cbn [exchange_words].
  - eexists. split; [done |]. apply swapped_zero.
  - replace (Z.of_nat (S n) * w) with (w + Z.of_nat n * w) in * by lia.
    destruct (exchange_word_ok w mem a b) as (m1 & -> & H1);
      [lia | eapply blocks_head; [| | exact Hb]; lia | done | done |].
    cbn [mbind res_bind].
    destruct (IH m1 (a + w) (b + w)) as (m2 & E2 & H2).
    { lia. }
    { eapply blocks_tail; [| | apply H1 | exact Hb]; lia. }
    { rewrite Z.add_assoc, <- (Z.mul_1_l w) at 1. apply mod_step; auto. }
    { rewrite Z.add_assoc, <- (Z.mul_1_l w) at 1. apply mod_step; auto. }
    exists m2. split; [exact E2 |]. eapply swapped_app; [| | exact Hb | exact H1 | exact H2]; lia.
Qed.

Lemma exchange_pairs_ok n : forall mem a b,
  blocks_ok mem a b (Z.of_nat n * 16) -> (addr + a) mod 8 = 0 -> (addr + b) mod 8 = 0 ->
  exists mem', exchange_pairs n mem a b = Ret mem' /\ swapped a b (Z.of_nat n * 16) mem mem'.
Proof.
  induction n as [| n IH]; intros mem a b Hb Hala Halb; cbn [exchange_pairs].
  - eexists. split; [done |]. apply swapped_zero.
  - replace (Z.of_nat (S n) * 16) with (16 + Z.of_nat n * 16) in * by lia.
    destruct (exchange_pair_ok mem a b) as (m1 & -> & H1);
      [eapply blocks_head; [| | exact Hb]; lia | done | done |].
    cbn [mbind res_bind].
    destruct (IH m1 (a + 16) (b + 16)) as (m2 & E2 & H2).
    { eapply blocks_tail; [| | apply H1 | exact Hb]; lia. }
    { rewrite Z.add_assoc. apply (mod_step 8 _ 2); lia. }
    { rewrite Z.add_assoc. apply (mod_step 8 _ 2); lia. }
    exists m2. split; [exact E2 |]. eapply swapped_app; [| | exact Hb | exact H1 | exact H2]; lia.
Qed.

(** ** The choice of the function *)

(** The call is one of the two of [rqsort]: a swap of one element with the
    function for [size], or a block swap with the function for [size | 128],
    which is never one of the single-word functions. *)
Definition call_kind (size sz n : Z) : Prop :=
  0 < size /\ ((sz = size /\ n = size) \/ (sz = Z.lor size 128 /\ 0 <= n /\ n mod size = 0)).

Lemma mod_trans x m d : 0 < d -> 0 < m -> m mod d = 0 -> x mod m = 0 -> x mod d = 0.
Proof.
  intros Hd Hm H1 H2. apply Z.mod_divide in H1, H2; try lia. apply Z.mod_divide; [lia |].
  exact (Z.divide_trans _ _ _ H1 H2).
Qed.

Lemma low_bits k size sz n p a b :
  0 <= k <= 4 -> call_kind size sz n -> (a - p) mod size = 0 -> (b - p) mod size = 0 ->
  Z.land (Z.lor (addr + p) sz) (Z.ones k) = 0 ->
  (addr + a) mod 2 ^ k = 0 /\ (addr + b) mod 2 ^ k = 0 /\ n mod 2 ^ k = 0.
Proof.
  intros Hk (Hs & Hc) Ha Hb H. rewrite Z.land_lor_distr_l in H.
  apply Z.lor_eq_0_iff in H as [Hp Hsz]. rewrite Z.land_ones in Hp by lia.
  assert (size mod 2 ^ k = 0) as Hsize.
  { rewrite <- Z.land_ones by lia. destruct Hc as [[-> _] | [-> _]]; [done |].
    rewrite Z.land_lor_distr_l in Hsz. apply Z.lor_eq_0_iff in Hsz. tauto. }
  assert (0 < 2 ^ k) as Hpos by lia.
  assert (forall x, (x - p) mod size = 0 -> (addr + x) mod 2 ^ k = 0) as Hx.
  { intros x Hxp. replace (addr + x) with (addr + p + (x - p)) by lia.
    rewrite Z.add_mod, Hp, (mod_trans (x - p) size) by (lia || done). apply Z.mod_0_l. lia. }
  split_and!; auto. destruct Hc as [[_ ->] | (_ & _ & Hn)]; [done |].
  apply (mod_trans n size); auto.
Qed.

Lemma single_word k size sz n :
  0 <= k <= 4 -> call_kind size sz n -> sz = 2 ^ k -> n = 2 ^ k.
Proof.
  intros Hk (Hs & [[-> ->] | (-> & _)]) H; [done |]. exfalso.
  assert (Z.testbit (Z.lor size 128) 7 = true) as E by (rewrite Z.lor_spec; apply orb_true_r).
  rewrite H, Z.pow2_bits_eqb in E by lia. apply Z.eqb_eq in E. lia.
Qed.

Lemma exact_words n w : 0 < w -> 0 <= n -> n mod w = 0 -> Z.of_nat (Z.to_nat (n / w)) * w = n.
Proof. intros. zdiv_lia. Qed.

Lemma land_low x k : 0 <= k <= 4 -> Z.land (Z.land x 15) (Z.ones k) = 0 -> Z.land x (Z.ones k) = 0.
Proof.
  intros Hk H. rewrite <- Z.land_assoc in H.
  replace (Z.land 15 (Z.ones k)) with (Z.ones k) in H; [done |].
  assert (k = 0 \/ k = 1 \/ k = 2 \/ k = 3 \/ k = 4) as [-> | [-> | [-> | [-> | ->]]]] by lia; done.
Qed.

Lemma exchange_func_ok mem size sz n p a b :
  call_kind size sz n -> (a - p) mod size = 0 -> (b - p) mod size = 0 -> blocks_ok mem a b n ->
  exists mem', exchange (exchange_func (addr + p) sz) mem a b n = Ret mem' /\
    swapped a b n mem mem'.
Proof.
  intros Hc Ha Hb Hbl. unfold exchange_func. set (x := Z.lor (addr + p) sz).
  assert (0 <= n) as Hn by (destruct Hc as (? & [[_ ->] | (_ & ? & _)]); lia).
  assert (forall k, 0 <= k <= 4 -> Z.land (Z.land x 15) (Z.ones k) = 0 ->
    (addr + a) mod 2 ^ k = 0 /\ (addr + b) mod 2 ^ k = 0 /\ n mod 2 ^ k = 0) as Hal.
  { intros k Hk H%land_low; [| done]. exact (low_bits k size sz n p a b Hk Hc Ha Hb H). }
  assert (forall k, 0 <= k <= 4 -> Z.land (Z.land x 15) (Z.ones k) = 0 ->
    exists mem', exchange_words (2 ^ k) (Z.to_nat (n / 2 ^ k)) mem a b = Ret mem' /\
      swapped a b n mem mem') as Hwords.
  { intros k Hk H. destruct (Hal k Hk H) as (H1 & H2 & H3).
    pose proof (exact_words n (2 ^ k) ltac:(lia) Hn H3) as E.
    destruct (exchange_words_ok (2 ^ k) (Z.to_nat (n / 2 ^ k)) mem a b) as (m & Em & Hm);
      rewrite ?E in *; eauto; lia. }
  assert (forall k, 0 <= k <= 4 -> sz = 2 ^ k -> Z.land (Z.land x 15) (Z.ones k) = 0 ->
    exists mem', exchange_word (2 ^ k) mem a b = Ret mem' /\ swapped a b n mem mem') as Hword.
  { intros k Hk Hsz H. destruct (Hal k Hk H) as (H1 & H2 & H3).
    pose proof (single_word k size sz n Hk Hc Hsz) as ->. apply exchange_word_ok; auto. lia. }
  destruct (Z.eqb_spec (Z.land x 15) 0) as [E |].
  { pose proof (Hal 3 ltac:(lia) ltac:(rewrite E; done)) as (H1 & H2 & _).
    pose proof (Hal 4 ltac:(lia) ltac:(rewrite E; done)) as (_ & _ & H3).
    destruct (Z.eqb_spec sz 16) as [Hsz |]; cbn [exchange].
    - pose proof (single_word 4 size sz n ltac:(lia) Hc Hsz) as ->. apply exchange_pair_ok; auto.
    - pose proof (exact_words n 16 ltac:(lia) Hn H3) as E'.
      destruct (exchange_pairs_ok (Z.to_nat (n / 16)) mem a b) as (m & Em & Hm);
        rewrite ?E' in *; eauto. }
  destruct (Z.eqb_spec (Z.land x 15) 8) as [E |].
  { destruct (Z.eqb_spec sz 8); [apply (Hword 3) | apply (Hwords 3)]; try lia; rewrite E; done. }
  destruct (Z.eqb_spec (Z.land x 15) 4) as [E |], (Z.eqb_spec (Z.land x 15) 12) as [E' |]; cbn [orb];
    try (destruct (Z.eqb_spec sz 4); [apply (Hword 2) | apply (Hwords 2)];
         try lia; rewrite ?E, ?E'; done).
  destruct (_ || _) eqn:E.
  { assert (Z.land (Z.land x 15) (Z.ones 1) = 0).
    { repeat (apply orb_true_iff in E as [E | E]); apply Z.eqb_eq in E; rewrite E; done. }
    destruct (Z.eqb_spec sz 2); [apply (Hword 1) | apply (Hwords 1)]; try lia; done. }
  assert (Z.land (Z.land x 15) (Z.ones 0) = 0) as H0 by apply Z.land_0_r.
  destruct (Z.eqb_spec sz 1); cbn [exchange]; [apply (Hword 0); auto; lia |].
  pose proof (Hwords 0 ltac:(lia) H0) as H. change (2 ^ 0) with 1 in H. rewrite Z.div_1_r in H. exact H.
Qed.
End exchange.

(** ** Arrays of elements of [size] bytes *)
Section arrays.
Variable size : Z.
Hypothesis Hsize : 0 < size.

Definition elements_ok (l : list (list Z)) : Prop := Forall (fun e => zlen e = size) l.

Lemma concat_zlen l : elements_ok l -> zlen (concat l) = zlen l * size.
Proof.
  induction 1 as [| e l He _ IH]; [done |]. cbn [concat]. rewrite zlen_app, zlen_cons, IH. lia.
Qed.

Lemma znth_concat l q r e : elements_ok l -> l !! q = Some e -> 0 <= r < size ->
  znth (concat l) (Z.of_nat q * size + r) = znth e r.
Proof.
  intros Hl. revert q. induction Hl as [| e' l He _ IH]; intros q Hq Hr; [done |].
  destruct q as [| q]; cbn [concat].
  - injection Hq as ->. rewrite znth_app_l by lia. done.
  - rewrite znth_app_r by lia. rewrite He.
    replace (Z.of_nat (S q) * size + r - size) with (Z.of_nat q * size + r) by lia. apply IH; auto.
Qed.

Lemma list_eq_znth (l l' : list Z) :
  zlen l = zlen l' -> (forall k, 0 <= k < zlen l -> znth l k = znth l' k) -> l = l'.
Proof.
  intros Hl H. apply list_eq. intros i. rewrite <- !znth_nat.
  destruct (decide (Z.of_nat i < zlen l)); [apply H; lia |]. rewrite !znth_ge_None by lia. done.
Qed.

Lemma swapped_unique a b n mem m1 m2 :
  swapped a b n mem m1 -> swapped a b n mem m2 -> m1 = m2.
Proof.
  intros [H1 E1] [H2 E2]. apply list_eq_znth; [congruence |].
  intros k Hk. rewrite E1, E2 by congruence. done.
Qed.

Lemma swap_get (l : list (list Z)) i j l' : swap l i j = Ret l' ->
  exists x y, l !! i = Some x /\ l !! j = Some y /\ l' = <[j := x]> (<[i := y]> l).
Proof.
  unfold swap, get. destruct (l !! i) as [x |], (l !! j) as [y |]; cbn; try done.
  intros [= <-]. eauto.
Qed.

Lemma swap_elements l i j l' : elements_ok l -> swap l i j = Ret l' -> elements_ok l'.
Proof.
  intros Hl (x & y & Hx & Hy & ->)%swap_get.
  apply Forall_insert; [apply Forall_insert; [done |] |].
  - exact (Forall_lookup_1 _ _ _ _ Hl Hy).
  - exact (Forall_lookup_1 _ _ _ _ Hl Hx).
Qed.

Lemma swap_swapped l i j l' : elements_ok l -> swap l i j = Ret l' ->
  swapped (Z.of_nat i * size) (Z.of_nat j * size) size (concat l) (concat l').
Proof.
  intros Hl Hs. pose proof (swap_elements _ _ _ _ Hl Hs) as Hl'.
  apply swap_get in Hs as (x & y & Hx & Hy & ->).
  pose proof (lookup_lt_Some _ _ _ Hx) as Hi. pose proof (lookup_lt_Some _ _ _ Hy) as Hj.
  split; [rewrite !concat_zlen, !zlen_insert by done; done |].
  intros k Hk. rewrite concat_zlen in Hk by done.
  set (q := Z.to_nat (k / size)). set (r := k mod size).
  assert (k = Z.of_nat q * size + r /\ 0 <= r < size /\ Z.of_nat q < zlen l) as (Ek & Hr & Hq).
  { pose proof (Z.div_mod k size ltac:(lia)). pose proof (Z.mod_pos_bound k size Hsize).
    pose proof (Z.div_pos k size ltac:(lia) Hsize).
    assert (k / size < zlen l) by (apply Z.div_lt_upper_bound; lia). unfold q, r. lia. }
  clearbody q r. subst k.
  assert (exists e, <[j := x]> (<[i := y]> l) !! q = Some e) as [e He].
  { apply lookup_lt_is_Some. rewrite !length_insert. unfold zlen in Hq. lia. }
  rewrite (znth_concat _ _ _ _ Hl' He Hr).
  assert (forall u v : nat, Z.of_nat u * size <= Z.of_nat v * size + r ->
    Z.of_nat v * size + r < Z.of_nat u * size + size -> u = v) as Hsame by (intros; nia).
  unfold partner.
  destruct (decide (q = i)) as [-> |].
  { rewrite (proj2 (Z.leb_le _ _)), (proj2 (Z.ltb_lt _ _)) by lia. cbn [andb].
    replace (Z.of_nat j * size + _) with (Z.of_nat j * size + r) by lia.
    rewrite (znth_concat l j r y) by done.
    destruct (decide (i = j)) as [-> |].
    - rewrite list_lookup_insert_eq in He by (rewrite length_insert; lia). congruence.
    - rewrite list_lookup_insert_ne, list_lookup_insert_eq in He by done. congruence. }
  destruct ((Z.of_nat i * size <=? _) && _) eqn:E.
  { apply andb_true_iff in E as [E1%Z.leb_le E2%Z.ltb_lt]. exfalso. apply n. symmetry. auto. }
  destruct (decide (q = j)) as [-> |].
  { rewrite (proj2 (Z.leb_le _ _)), (proj2 (Z.ltb_lt _ _)) by lia. cbn [andb].
    replace (Z.of_nat i * size + _) with (Z.of_nat i * size + r) by lia.
    rewrite (znth_concat l i r x) by done.
    rewrite list_lookup_insert_eq in He by (rewrite length_insert; lia). congruence. }
  destruct ((Z.of_nat j * size <=? _) && _) eqn:E'.
  { apply andb_true_iff in E' as [E1%Z.leb_le E2%Z.ltb_lt]. exfalso. apply n0. symmetry. auto. }
  rewrite !list_lookup_insert_ne in He by done. rewrite (znth_concat l q r e) by done. done.
Qed.

(** The element ranges of [swap_block]. *)
Definition ranges_ok (l : list (list Z)) (a b n : nat) : Prop :=
  (a + n <= length l /\ b + n <= length l /\ (a = b \/ a + n <= b \/ b + n <= a))%nat.

Lemma ranges_blocks l a b n : elements_ok l -> ranges_ok l a b n ->
  blocks_ok (concat l) (Z.of_nat a * size) (Z.of_nat b * size) (Z.of_nat n * size).
Proof.
  intros Hl (Ha & Hb & Hd). unfold blocks_ok. rewrite concat_zlen by done. unfold zlen.
  split_and!; [nia | nia | nia | nia |].
  destruct Hd as [-> | [H | H]]; [left; done | right; left; nia | right; right; nia].
Qed.

Lemma swap_block_swapped n : forall l a b, elements_ok l -> ranges_ok l a b n ->
  exists l', swap_block l a b n = Ret l' /\ elements_ok l' /\
    swapped (Z.of_nat a * size) (Z.of_nat b * size) (Z.of_nat n * size) (concat l) (concat l').
Proof.
  induction n as [| n IH]; intros l a b Hl Hr; cbn [swap_block].
  { exists l. split; [done |]. split; [done |]. apply swapped_zero. }
  pose proof (ranges_blocks _ _ _ _ Hl Hr) as Hbl. destruct Hr as (Ha & Hb & Hd).
  destruct (swap l a b) as [l1 | |] eqn:E.
  2, 3: unfold swap, get in E; destruct (lookup_lt_is_Some_2 l a) as [x Ex]; [lia |];
    destruct (lookup_lt_is_Some_2 l b) as [y Ey]; [lia |]; rewrite Ex, Ey in E; done.
  pose proof (swap_elements _ _ _ _ Hl E) as Hl1.
  assert (length l1 = length l) as Hlen
    by (apply swap_get in E as (? & ? & _ & _ & ->); rewrite !length_insert; done).
  cbn [mbind res_bind]. destruct (IH l1 (S a) (S b)) as (l2 & E2 & Hl2 & H2); [done | |].
  { unfold ranges_ok. rewrite Hlen. lia. }
  exists l2. split; [exact E2 |]. split; [done |].
  replace (Z.of_nat (S n) * size) with (size + Z.of_nat n * size) in * by lia.
  replace (Z.of_nat (S a) * size) with (Z.of_nat a * size + size) in H2 by lia.
  replace (Z.of_nat (S b) * size) with (Z.of_nat b * size + size) in H2 by lia.
  eapply swapped_app; [lia | nia | exact Hbl | | exact H2]. exact (swap_swapped _ _ _ _ Hl E).
Qed.

Lemma exchange_elements addr l a b n p sz : elements_ok l -> ranges_ok l a b n ->
  call_kind size sz (Z.of_nat n * size) ->
  exists l', swap_block l a b n = Ret l' /\ elements_ok l' /\
    exchange addr (exchange_func (addr + Z.of_nat p * size) sz) (concat l)
      (Z.of_nat a * size) (Z.of_nat b * size) (Z.of_nat n * size) = Ret (concat l').
Proof.
  intros Hl Hr Hc. destruct (swap_block_swapped n l a b Hl Hr) as (l' & E & Hl' & H).
  assert (forall q : nat, (Z.of_nat q * size - Z.of_nat p * size) mod size = 0) as Hmod
    by (intros q; rewrite <- Z.mul_sub_distr_r; apply Z.mod_mul; lia).
  destruct (exchange_func_ok addr (concat l) size sz (Z.of_nat n * size) (Z.of_nat p * size)
              (Z.of_nat a * size) (Z.of_nat b * size) Hc (Hmod a) (Hmod b)
              (ranges_blocks _ _ _ _ Hl Hr)) as (m & Em & Hm).
  exists l'. split; [done |]. split; [done |]. rewrite Em. f_equal.
  exact (swapped_unique _ _ _ _ _ _ Hm H).
Qed.
End arrays.

(** C9: the exchange functions of the sorting routines exchange elements.  For
    every element size and every address of the array, the function chosen by
    [exchange_func] for the element size swaps elements [i] and [j], and the
    one chosen for [size | 128] swaps two ranges of [n] elements that are equal
    or disjoint: every word access is in bounds and aligned, and the memory is
    then the one of [Sort.swap] and [Sort.swap_block]. *)
Theorem exchange_refines_swap (addr size : Z) (l : list (list Z)) (p i j a b n : nat)
  (Hsize : 0 < size) (Hl : elements_ok size l)
  (Hi : (i < length l)%nat) (Hj : (j < length l)%nat) (Hr : ranges_ok l a b n) :
  (exists l', swap l i j = Ret l' /\
     exchange addr (exchange_func (addr + Z.of_nat p * size) size) (concat l)
       (Z.of_nat i * size) (Z.of_nat j * size) size = Ret (concat l')) /\
  (exists l', swap_block l a b n = Ret l' /\
     exchange addr (exchange_func (addr + Z.of_nat p * size) (Z.lor size 128)) (concat l)
       (Z.of_nat a * size) (Z.of_nat b * size) (Z.of_nat n * size) = Ret (concat l')).
Proof.
  split.
  - destruct (exchange_elements size Hsize addr l i j 1 p size) as (l' & E & _ & H); [done | | |].
    + unfold ranges_ok. lia.
    + split; [done |]. left. lia.
    + exists l'. cbn [swap_block] in E. change (Z.of_nat 1) with 1 in H.
      rewrite Z.mul_1_l in H. split; [| exact H].
      destruct (swap l i j); cbn in E; congruence.
  - destruct (exchange_elements size Hsize addr l a b n p (Z.lor size 128)) as (l' & E & _ & H);
      [done | done | | eauto].
    split; [done |]. right. split; [done |]. split; [nia | apply Z.mod_mul; lia].
Qed.

(** Three elements of six bytes at an even address: the words are 16-bit. *)
Lemma exchange_refines_swap_witness :
  let l := [[1; 2; 3; 4; 5; 6]; [7; 8; 9; 10; 11; 12]; [13; 14; 15; 16; 17; 18]] in
  exchange_func 4098 6 = exchange_int16s /\
  (exists l', swap l 0 2 = Ret l' /\
     exchange 4098 (exchange_func (4098 + Z.of_nat 0 * 6) 6) (concat l) (Z.of_nat 0 * 6) (Z.of_nat 2 * 6) 6
     = Ret (concat l')) /\
  (exists l', swap_block l 0 1 1 = Ret l' /\
     exchange 4098 (exchange_func (4098 + Z.of_nat 0 * 6) (Z.lor 6 128)) (concat l)
       (Z.of_nat 0 * 6) (Z.of_nat 1 * 6) (Z.of_nat 1 * 6) = Ret (concat l')).
Proof.
  intros l. split; [reflexivity |].
  apply (exchange_refines_swap 4098 6 l 0 0 2 0 1 1);
    [lia | repeat constructor | cbn; lia | cbn; lia | unfold ranges_ok; cbn; lia].
Defined.
