(* ===== verification/SortFacts.v ===== *)
(** * Correctness of [heapsortx] and [rqsort] (cutils.c) *)
From Stdlib Require Import ZArith Lia Bool.
From stdpp Require Import base numbers list.
From S2P Require Import Prelude Sort.

Local Open Scope nat_scope.

Section facts.
(** [ord] is the order that a consistent callback [cmp] answers with. *)
Context {A St : Type} (cmp : St -> A -> A -> Z * St) (ord : A -> A -> Z).

(** ** Rearrangements inside a segment *)
Definition perm_in (lo hi : nat) (l l' : list A) : Prop :=
  l' ≡ₚ l /\ forall k, k < lo \/ hi <= k -> l' !! k = l !! k.

(** Every element of [lo, hi) satisfies [P]. *)
Definition rng (l : list A) (lo hi : nat) (P : A -> Prop) : Prop :=
  forall k x, lo <= k < hi -> l !! k = Some x -> P x.

Definition sorted_in (l : list A) (lo hi : nat) : Prop :=
  forall i j x y, lo <= i -> i < j -> j < hi ->
    l !! i = Some x -> l !! j = Some y -> (ord x y <= 0)%Z.

(** What the order theorems need of [cmp]: its answers are those of [ord],
    whatever its state, and [ord] is a total preorder. *)
Class TotalPreorder : Prop := {
  cmp_ord : forall s x y, fst (cmp s x y) = ord x y;
  cmp_flip : forall x y, Z.sgn (ord y x) = (- Z.sgn (ord x y))%Z;
  cmp_trans : forall x y z, (ord x y <= 0 -> ord y z <= 0 -> ord x z <= 0)%Z
}.

Lemma perm_in_refl lo hi l : perm_in lo hi l l.
Proof. split; auto. Qed.

Lemma perm_in_trans lo hi l1 l2 l3 :
  perm_in lo hi l1 l2 -> perm_in lo hi l2 l3 -> perm_in lo hi l1 l3.
Proof.
  intros [P1 H1] [P2 H2]. split; [etrans; eassumption |].
  intros k Hk. rewrite H2, H1; auto.
Qed.

Lemma perm_in_weaken lo hi lo' hi' l l' :
  perm_in lo hi l l' -> lo' <= lo -> hi <= hi' -> perm_in lo' hi' l l'.
Proof. intros [P H] ? ?. split; [done |]. intros k Hk. apply H. lia. Qed.

Lemma perm_in_length lo hi l l' : perm_in lo hi l l' -> length l' = length l.
Proof. intros [P _]. apply Permutation_length, P. Qed.

#[local] Hint Resolve perm_in_refl : core.

Lemma list_split3 (l : list A) lo hi :
  lo <= hi -> l = take lo l ++ take (hi - lo) (drop lo l) ++ drop hi l.
Proof.
  intros H. rewrite <- (take_drop lo l) at 1. f_equal.
  rewrite <- (take_drop (hi - lo) (drop lo l)) at 1. f_equal.
  rewrite drop_drop. f_equal. lia.
Qed.

Lemma perm_in_mid lo hi l l' :
  lo <= hi -> perm_in lo hi l l' ->
  take (hi - lo) (drop lo l') ≡ₚ take (hi - lo) (drop lo l).
Proof.
  intros Hle [P H].
  assert (take lo l' = take lo l) as Et.
  { apply list_eq. intros i. destruct (decide (i < lo)).
    - rewrite !lookup_take_lt by done. apply H. lia.
    - rewrite !lookup_take_ge by lia. done. }
  assert (drop hi l' = drop hi l) as Ed.
  { apply list_eq. intros i. rewrite !lookup_drop. apply H. lia. }
  rewrite (list_split3 l' lo hi Hle), (list_split3 l lo hi Hle) in P.
  rewrite Et, Ed in P. apply Permutation_app_inv_l in P.
  apply Permutation_app_inv_r in P. exact P.
Qed.

Lemma elem_mid (l : list A) lo hi x :
  x ∈ take (hi - lo) (drop lo l) <-> exists k, lo <= k < hi /\ l !! k = Some x.
Proof.
  rewrite list_elem_of_lookup. split.
  - intros [i Hi]. apply lookup_take_Some in Hi as [Hi Hlt].
    rewrite lookup_drop in Hi. exists (lo + i). split; [lia | done].
  - intros (k & Hk & E). exists (k - lo). rewrite lookup_take_lt by lia.
    rewrite lookup_drop. rewrite <- E. f_equal. lia.
Qed.

(** Whatever holds of a segment still holds after rearranging inside it. *)
Lemma perm_in_rng lo hi lo' hi' l l' P :
  perm_in lo hi l l' -> lo' <= lo -> lo <= hi -> hi <= hi' ->
  rng l lo' hi' P -> rng l' lo' hi' P.
Proof.
  intros Hp H1 H2 H3 Hr k x Hk E.
  destruct (decide (lo <= k < hi)) as [Hin | Hout].
  - assert (x ∈ take (hi - lo) (drop lo l)) as Hx.
    { rewrite <- (perm_in_mid lo hi l l' H2 Hp). apply elem_mid. eauto. }
    apply elem_mid in Hx as (k' & Hk' & E'). eapply (Hr k'); [lia | exact E'].
  - destruct Hp as [_ Hp]. rewrite Hp in E by lia. eapply Hr; eassumption.
Qed.

Lemma rng_split l lo mid hi P : rng l lo mid P -> rng l mid hi P -> rng l lo hi P.
Proof.
  intros H1 H2 k x Hk E. destruct (decide (k < mid)); [eapply H1 | eapply H2]; eauto; lia.
Qed.

Lemma rng_sub l lo hi lo' hi' P : rng l lo hi P -> lo <= lo' -> hi' <= hi -> rng l lo' hi' P.
Proof. intros H ? ? k x Hk. apply H. lia. Qed.

Lemma rng_impl l lo hi (P Q : A -> Prop) :
  rng l lo hi P -> (forall x, P x -> Q x) -> rng l lo hi Q.
Proof. intros H HPQ k x Hk E. eauto. Qed.

Lemma rng_single l k (P : A -> Prop) x : l !! k = Some x -> P x -> rng l k (S k) P.
Proof. intros E HP k' x' Hk E'. replace k' with k in E' by lia. congruence. Qed.

Lemma rng_empty l lo hi P : hi <= lo -> rng l lo hi P.
Proof. intros ? k x Hk. lia. Qed.

(** ** [swap] and [cmp_at] *)
Lemma get_lt (l : list A) i : i < length l -> exists x, l !! i = Some x.
Proof. intros H. apply lookup_lt_is_Some in H as [x H]. eauto. Qed.

Lemma swap_spec l i j :
  i < length l -> j < length l ->
  exists l', swap l i j = Ret l' /\
    (forall lo hi, lo <= i < hi -> lo <= j < hi -> perm_in lo hi l l') /\
    l' !! i = l !! j /\ l' !! j = l !! i /\
    (forall k, k <> i -> k <> j -> l' !! k = l !! k).
Proof.
  intros Hi Hj. destruct (get_lt l i Hi) as [x Ex], (get_lt l j Hj) as [y Ey].
  unfold swap, get. rewrite Ex, Ey. cbn [of_opt mbind res_bind].
  eexists. split; [reflexivity |].
  assert (forall k, k <> i -> k <> j -> <[j:=x]> (<[i:=y]> l) !! k = l !! k) as Hne.
  { intros k H1 H2. rewrite !list_lookup_insert_ne by congruence. done. }
  assert (<[j:=x]> (<[i:=y]> l) !! j = Some x) as Hjj.
  { apply list_lookup_insert_eq. rewrite length_insert. done. }
  assert (<[j:=x]> (<[i:=y]> l) !! i = Some y) as Hii.
  { destruct (decide (i = j)) as [-> | Hd].
    - rewrite Hjj. congruence.
    - rewrite list_lookup_insert_ne by congruence. apply list_lookup_insert_eq. done. }
  split; [| repeat split; congruence || auto].
  intros lo hi H1 H2. split; [| intros k Hk; apply Hne; lia].
  apply Permutation_insert_swap; done.
Qed.

Lemma cmp_at_spec s l i j :
  i < length l -> j < length l ->
  exists x y c s', l !! i = Some x /\ l !! j = Some y /\
    cmp_at cmp s l i j = Ret (c, s') /\ (TotalPreorder -> c = ord x y).
Proof.
  intros Hi Hj. destruct (get_lt l i Hi) as [x Ex], (get_lt l j Hj) as [y Ey].
  exists x, y, (fst (cmp s x y)), (snd (cmp s x y)). unfold cmp_at, get. rewrite Ex, Ey.
  cbn [of_opt mbind res_bind]. rewrite <- surjective_pairing. split_and?; auto.
  intros ?. apply cmp_ord.
Qed.

(** ** Order facts *)
Lemma cmp_gt_le `{TotalPreorder} x y : (0 < ord x y -> ord y x <= 0)%Z.
Proof. intros Hc. pose proof (cmp_flip x y). lia. Qed.

Lemma cmp_ge_le `{TotalPreorder} x y : (0 <= ord x y -> ord y x <= 0)%Z.
Proof. intros Hc. pose proof (cmp_flip x y). lia. Qed.

Lemma cmp_refl `{TotalPreorder} x : (ord x x <= 0)%Z.
Proof. pose proof (cmp_flip x x). lia. Qed.

(** ** Heaps *)
Definition child (k c : nat) : Prop := c = 2 * k + 1 \/ c = 2 * k + 2.

Definition heap_except (l : list A) (b r0 n : nat) (hole : nat -> Prop) : Prop :=
  forall k c x y, r0 <= k -> ~ hole k -> child k c -> c < n ->
    l !! (b + k) = Some x -> l !! (b + c) = Some y -> (ord y x <= 0)%Z.

Definition heap (l : list A) (b r0 n : nat) : Prop := heap_except l b r0 n (fun _ => False).

(** A heap but for the node [r], which may be smaller than its children. *)
Definition hole (l : list A) (b r0 r n : nat) : Prop :=
  heap_except l b r0 n (eq r) /\
  forall p c x y, r0 <= p -> child p r -> child r c -> c < n ->
    l !! (b + p) = Some x -> l !! (b + c) = Some y -> (ord y x <= 0)%Z.

(** The larger child. *)
Lemma pick_child s l b c n :
  c < n -> b + n <= length l ->
  exists c' s', (if decide (c < n - 1) then
               '(v, s) ← cmp_at cmp s l (b + c) (b + c + 1);
               Ret (if (v <=? 0)%Z then c + 1 else c, s)
             else Ret (c, s)) = Ret (c', s') /\
    (c' = c \/ c' = c + 1) /\ c' < n /\
    (TotalPreorder -> forall d x y, (d = c \/ d = c + 1) -> d < n ->
       l !! (b + c') = Some x -> l !! (b + d) = Some y -> (ord y x <= 0)%Z).
Proof.
  intros Hc Hn. case_decide as Hd.
  - destruct (cmp_at_spec s l (b + c) (b + c + 1)) as (x & y & v & s' & Ex & Ey & -> & Hv);
      [lia | lia |].
    cbn [mbind res_bind]. destruct (Z.leb_spec v 0) as [Hle | Hgt];
      eexists _, _; (split; [reflexivity |]); (split; [lia |]); (split; [lia |]);
      intros HTP; rewrite (Hv HTP) in *; intros d x' y' [-> | ->] _ E1 E2;
      rewrite ?(Nat.add_assoc b c 1) in *; simplify_eq; auto using cmp_refl.
    apply cmp_gt_le. done.
  - eexists _, _. split; [reflexivity |]. split; [lia |]. split; [lia |].
    intros HTP d x' y' Hdc Hdn E1 E2. assert (d = c) as -> by lia.
    simplify_eq. apply cmp_refl.
Qed.

(** Moving the hole one level down. *)
Lemma hole_step `{TotalPreorder} l l1 b r0 r n c' x y :
  hole l b r0 r n -> child r c' -> c' < n ->
  l !! (b + r) = Some x -> l !! (b + c') = Some y -> (ord x y <= 0)%Z ->
  (forall d z, child r d -> d < n -> l !! (b + d) = Some z -> (ord z y <= 0)%Z) ->
  l1 !! (b + r) = Some y -> l1 !! (b + c') = Some x ->
  (forall k, k <> b + r -> k <> b + c' -> l1 !! k = l !! k) ->
  r0 <= r -> hole l1 b r0 c' n.
Proof.
  intros [Hh Hp] Hc Hcn Ex Ey Hxy Hmax E1 E2 Hne Hr. unfold child in *. split.
  - intros k c u v Hk Hnk Hkc Hcn' Eu Ev. unfold child in Hkc.
    destruct (decide (k = r)) as [-> | Hkr].
    + rewrite E1 in Eu. injection Eu as <-.
      destruct (decide (c = c')) as [-> | Hcc].
      * rewrite E2 in Ev. injection Ev as <-. done.
      * rewrite Hne in Ev by lia. eapply Hmax; eauto.
    + rewrite Hne in Eu by lia. destruct (decide (c = r)) as [-> | Hcr].
      * rewrite E1 in Ev. injection Ev as <-. eapply (Hp k c'); unfold child; eauto; lia.
      * rewrite Hne in Ev by lia. eapply (Hh k c); unfold child; eauto.
  - intros p c u v Hpr Hpc Hcc Hcn' Eu Ev. unfold child in *.
    assert (p = r) as -> by lia. rewrite E1 in Eu. injection Eu as <-.
    rewrite Hne in Ev by lia. eapply (Hh c' c); unfold child; eauto; lia.
Qed.

Lemma hole_heap `{TotalPreorder} l b r0 r n :
  hole l b r0 r n ->
  (forall c x y, child r c -> c < n -> l !! (b + r) = Some x -> l !! (b + c) = Some y ->
     (ord y x <= 0)%Z) ->
  heap l b r0 n.
Proof.
  intros [Hh _] Hr k c x y Hk _ Hc Hn Ex Ey.
  destruct (decide (r = k)) as [-> | Hne]; [eapply Hr | eapply Hh]; eauto.
Qed.

Lemma sift_spec fuel : forall s l b r n,
  n - r < fuel -> r < n -> b + n <= length l ->
  exists l' s', sift cmp fuel s l b r n = Ret (l', s') /\ perm_in b (b + n) l l' /\
    (TotalPreorder -> forall r0, r0 <= r -> hole l b r0 r n -> heap l' b r0 n).
Proof.
  induction fuel as [| fuel IH]; intros s l b r n Hf Hr Hn; [lia |].
  cbn [sift]. cbn zeta. case_decide as Hc.
  2: { eexists _, _. split; [reflexivity |]. split; [auto |]. intros HTP r0 Hr0 Hh.
       apply (hole_heap _ _ _ r); [done |]. unfold child. intros; lia. }
  destruct (pick_child s l b (r * 2 + 1) n) as (c' & s1 & -> & Hc' & Hcn & Hmax); [done | done |].
  cbn [mbind res_bind].
  destruct (cmp_at_spec s1 l (b + r) (b + c')) as (x & y & v & s2 & Ex & Ey & -> & Hv);
    [lia | lia |].
  cbn [mbind res_bind]. destruct (Z.ltb_spec 0 v) as [Hgt | Hle].
  - eexists _, _. split; [reflexivity |]. split; [auto |]. intros HTP r0 Hr0 Hh.
    rewrite (Hv HTP) in *. apply (hole_heap _ _ _ r); [done |]. unfold child.
    intros c u w Hcr Hcn' Eu Ev. simplify_eq. apply cmp_trans with y; [| apply cmp_gt_le, Hgt].
    eapply (Hmax HTP c); eauto; lia.
  - destruct (swap_spec l (b + r) (b + c')) as (l1 & -> & Hp1 & H1 & H2 & Hne); [lia | lia |].
    cbn [mbind res_bind]. specialize (Hp1 b (b + n) ltac:(lia) ltac:(lia)).
    destruct (IH s2 l1 b c' n) as (l' & s' & -> & Hp' & Hh');
      [lia | lia | rewrite (perm_in_length _ _ _ _ Hp1); lia |].
    exists l', s'. split; [done |]. split; [eapply perm_in_trans; eassumption |].
    intros HTP; rewrite (Hv HTP) in *; intros r0 Hr0 Hh. apply (Hh' HTP); [lia |].
    eapply (hole_step l l1 b r0 r n c' x y); eauto; unfold child; [lia | | congruence | congruence].
    intros d z Hd Hdn Ez. eapply (Hmax HTP d); eauto; lia.
Qed.

Lemma heapify_spec i : forall s l b n,
  i < n -> b + n <= length l ->
  exists l' s', heapify cmp s l b i n = Ret (l', s') /\ perm_in b (b + n) l l' /\
    (TotalPreorder -> heap l b i n -> heap l' b 0 n).
Proof.
  induction i as [| i IH]; intros s l b n Hi Hn; [eexists _, _; eauto |]. cbn [heapify].
  destruct (sift_spec (S n) s l b i n) as (l1 & s1 & -> & Hp1 & Hh1); [lia | lia | lia |].
  cbn [mbind res_bind].
  destruct (IH s1 l1 b n) as (l' & s' & -> & Hp' & Hh');
    [lia | rewrite (perm_in_length _ _ _ _ Hp1); lia |].
  exists l', s'. split; [done |]. split; [eapply perm_in_trans; eassumption |].
  intros HTP Hh. apply (Hh' HTP), (Hh1 HTP); [done |]. split.
  - intros k c x y Hk Hne Hc Hcn. apply Hh; auto; lia.
  - unfold child. intros p c x y ? ? ? ?. lia.
Qed.

Lemma heap_root_max `{TotalPreorder} l b n k x y :
  heap l b 0 n -> b + n <= length l -> k < n ->
  l !! b = Some x -> l !! (b + k) = Some y -> (ord y x <= 0)%Z.
Proof.
  intros Hh Hn. revert y. induction (lt_wf k) as [k _ IH]. intros y Hk Ex Ey.
  destruct k as [| k].
  - rewrite Nat.add_0_r in Ey. simplify_eq. apply cmp_refl.
  - destruct (get_lt l (b + k / 2)) as [z Ez].
    { pose proof (Nat.div_le_upper_bound k 2 k). lia. }
    pose proof (Nat.div_mod_eq k 2). pose proof (Nat.mod_upper_bound k 2).
    apply cmp_trans with z.
    + eapply (Hh (k / 2) (S k)); eauto; [lia | unfold child; lia].
    + eapply (IH (k / 2)); eauto; lia.
Qed.

(** Everything in [lo, mid) is below everything in [mid, hi). *)
Definition below (l : list A) (lo mid hi : nat) : Prop :=
  forall k y, mid <= k < hi -> l !! k = Some y -> rng l lo mid (fun x => (ord x y <= 0)%Z).

Lemma sort_down_spec i : forall s l b n,
  i < n -> b + n <= length l ->
  exists l' s', sort_down cmp s l b i = Ret (l', s') /\ perm_in b (b + n) l l' /\
    (TotalPreorder -> heap l b 0 (S i) -> sorted_in l (b + S i) (b + n) ->
     below l b (b + S i) (b + n) -> sorted_in l' b (b + n)).
Proof.
  induction i as [| i IH]; intros s l b n Hi Hn.
  { eexists _, _. split; [reflexivity |]. split; [auto |]. intros HTP _ Hs Hb p q x y Hp Hpq Hq Ex Ey.
    destruct (decide (p = b)) as [-> | Hne].
    - eapply (Hb q); eauto; lia.
    - eapply (Hs p q); eauto; lia. }
  cbn [sort_down].
  destruct (swap_spec l b (b + S i)) as (l1 & -> & Hp1 & H1 & H2 & Hne); [lia | lia |].
  specialize (Hp1 b (b + n) ltac:(lia) ltac:(lia)).
  pose proof (perm_in_length _ _ _ _ Hp1) as El1. cbn [mbind res_bind].
  destruct (sift_spec (S (S i)) s l1 b 0 (S i)) as (l2 & s1 & -> & Hp2 & Hh2); [lia | lia | lia |].
  pose proof (perm_in_length _ _ _ _ Hp2) as El2. cbn [mbind res_bind].
  destruct (IH s1 l2 b n) as (l' & s' & -> & Hp' & Hs'); [lia | lia |].
  exists l', s'. split; [done |]. split.
  { eapply perm_in_trans; [exact Hp1 |]. eapply perm_in_trans; [| exact Hp'].
    eapply perm_in_weaken; [exact Hp2 | lia | lia]. }
  intros HTP Hh Hs Hb. destruct (get_lt l b) as [x0 Ex0]; [lia |].
  assert (l2 !! (b + S i) = Some x0) as Elast.
  { rewrite (proj2 Hp2) by lia. rewrite H2. exact Ex0. }
  assert (forall k, b + S i < k -> k < b + n -> l2 !! k = l !! k) as Eup.
  { intros k ? ?. rewrite (proj2 Hp2) by lia. apply Hne; lia. }
  assert (rng l b (b + S (S i)) (fun x => (ord x x0 <= 0)%Z)) as Hmax.
  { intros k x Hk Ex. replace k with (b + (k - b)) in Ex by lia.
    eapply (heap_root_max l b (S (S i)) (k - b)); eauto; lia. }
  assert (forall P, rng l b (b + S (S i)) P -> rng l2 b (b + S i) P) as Htr.
  { intros P HP. eapply (perm_in_rng b (b + S i)); [exact Hp2 | lia | lia | lia |].
    intros k x Hk Ex. destruct (decide (k = b)) as [-> | Hkb].
    - rewrite H1 in Ex. eapply HP; [| exact Ex]. lia.
    - rewrite Hne in Ex by lia. eapply HP; [| exact Ex]. lia. }
  apply (Hs' HTP).
  - apply (Hh2 HTP); [lia |]. split.
    + intros k c x y _ Hk Hc Hcn Ex Ey. unfold child in *. rewrite Hne in Ex, Ey by lia.
      eapply (Hh k c); unfold child; eauto; lia.
    + unfold child. intros; lia.
  - intros p q x y Hp Hpq Hq Ex Ey. rewrite Eup in Ey by lia.
    destruct (decide (p = b + S i)) as [-> | Hpne].
    + rewrite Elast in Ex. injection Ex as <-. eapply (Hb q); eauto; lia.
    + rewrite Eup in Ex by lia. eapply (Hs p q); eauto; lia.
  - intros k y Hk Ey. apply Htr.
    destruct (decide (k = b + S i)) as [-> | Hkne].
    + rewrite Elast in Ey. injection Ey as <-. exact Hmax.
    + rewrite Eup in Ey by lia. eapply (Hb k); [lia | exact Ey].
Qed.

Lemma heapsortx_spec s l b n :
  b + n <= length l ->
  exists l' s', heapsortx cmp s l b n = Ret (l', s') /\ perm_in b (b + n) l l' /\
    (TotalPreorder -> sorted_in l' b (b + n)).
Proof.
  intros Hn. unfold heapsortx. case_decide as H1.
  2: { eexists _, _. split; [reflexivity |]. split; [auto |]. intros HTP p q x y ? ? ?. lia. }
  pose proof (Nat.div_mod_eq n 2). pose proof (Nat.mod_upper_bound n 2).
  destruct (heapify_spec (n / 2) s l b n) as (l1 & s1 & -> & Hp1 & Hh1); [lia | lia |].
  cbn [mbind res_bind].
  destruct (sort_down_spec (n - 1) s1 l1 b n) as (l' & s' & -> & Hp' & Hs');
    [lia | rewrite (perm_in_length _ _ _ _ Hp1); lia |].
  exists l', s'. split; [done |]. split; [eapply perm_in_trans; eassumption |].
  intros HTP. replace (S (n - 1)) with n in Hs' by lia. apply (Hs' HTP).
  - apply (Hh1 HTP). intros k c x y Hk _ Hc Hcn. unfold child in Hc. lia.
  - intros p q x y ? ? ?. lia.
  - intros k y Hk. lia.
Qed.

(** ** Insertion sort *)

(** Sorted but for the element at [q], which may be too far right. *)
Definition sorted_but (l : list A) (lo hi q : nat) : Prop :=
  forall i j x y, lo <= i -> i < j -> j < hi -> j <> q ->
    l !! i = Some x -> l !! j = Some y -> (ord x y <= 0)%Z.

Lemma insert_back_spec k : forall s l ptr hi,
  ptr + k < hi -> hi <= length l ->
  exists l' s', insert_back cmp s l ptr k = Ret (l', s') /\ perm_in ptr hi l l' /\
    (TotalPreorder -> sorted_but l ptr hi (ptr + k) -> sorted_in l' ptr hi).
Proof.
  induction k as [| k IH]; intros s l ptr hi Hk Hn; cbn [insert_back].
  { eexists _, _. split; [reflexivity |]. split; [auto |].
    intros HTP Hs i j x y ? ? ?. apply Hs; lia. }
  destruct (cmp_at_spec s l (ptr + k) (ptr + S k)) as (x & y & v & s1 & Ex & Ey & -> & Hv);
    [lia | lia |].
  cbn [mbind res_bind]. destruct (Z.ltb_spec 0 v) as [Hgt | Hle].
  - destruct (swap_spec l (ptr + S k) (ptr + k)) as (l1 & -> & Hp1 & H1 & H2 & Hne);
      [lia | lia |].
    cbn [mbind res_bind]. specialize (Hp1 ptr hi ltac:(lia) ltac:(lia)).
    destruct (IH s1 l1 ptr hi) as (l' & s' & -> & Hp' & Hs');
      [lia | rewrite (perm_in_length _ _ _ _ Hp1); lia |].
    exists l', s'. split; [done |]. split; [eapply perm_in_trans; eassumption |].
    intros HTP Hs. rewrite (Hv HTP) in *. apply (Hs' HTP). clear Hv v. intros i j u v Hi Hij Hj Hjk Eu Ev.
    destruct (decide (j = ptr + S k)) as [-> | Hj1].
    + destruct (decide (i = ptr + k)) as [-> | Hi1].
      * rewrite H2 in Eu. rewrite H1 in Ev. simplify_eq. apply cmp_gt_le, Hgt.
      * rewrite Hne in Eu by lia. rewrite H1 in Ev. eapply (Hs i (ptr + k)); eauto; lia.
    + rewrite (Hne j) in Ev by lia. destruct (decide (i = ptr + k)) as [-> | Hi1].
      * rewrite H2 in Eu. eapply (Hs (ptr + S k) j); eauto; lia.
      * destruct (decide (i = ptr + S k)) as [-> | Hi2].
        -- rewrite H1 in Eu. eapply (Hs (ptr + k) j); eauto; lia.
        -- rewrite Hne in Eu by lia. eapply (Hs i j); eauto.
  - eexists _, _. split; [reflexivity |]. split; [auto |].
    intros HTP Hs. rewrite (Hv HTP) in *. clear Hv v. intros i j u v Hi Hij Hj Eu Ev.
    destruct (decide (j = ptr + S k)) as [-> | Hj1]; [| eapply Hs; eauto].
    simplify_eq. destruct (decide (i = ptr + k)) as [-> | Hi1]; [congruence |].
    apply cmp_trans with x; [| done]. eapply (Hs i (ptr + k)); eauto; lia.
Qed.

Lemma insertion_sort_spec k : forall s l ptr i,
  1 <= i -> ptr + i + k <= length l ->
  exists l' s', insertion_sort cmp s l ptr i k = Ret (l', s') /\ perm_in ptr (ptr + i + k) l l' /\
    (TotalPreorder -> sorted_in l ptr (ptr + i) -> sorted_in l' ptr (ptr + i + k)).
Proof.
  induction k as [| k IH]; intros s l ptr i Hi Hn; cbn [insertion_sort].
  { rewrite Nat.add_0_r. eexists _, _; eauto. }
  destruct (insert_back_spec i s l ptr (ptr + i + 1)) as (l1 & s1 & -> & Hp1 & Hs1); [lia | lia |].
  cbn [mbind res_bind].
  destruct (IH s1 l1 ptr (i + 1)) as (l' & s' & -> & Hp' & Hs');
    [lia | rewrite (perm_in_length _ _ _ _ Hp1); lia |].
  replace (ptr + (i + 1) + k) with (ptr + i + S k) in * by lia.
  exists l', s'. split; [done |]. split.
  - eapply perm_in_trans; [| exact Hp']. eapply perm_in_weaken; [exact Hp1 | lia | lia].
  - intros HTP Hs. apply (Hs' HTP).
    replace (ptr + (i + 1)) with (ptr + i + 1) by lia.
    apply (Hs1 HTP). intros p q x y ? ? ? ?. apply Hs; lia.
Qed.

(** ** Median and block swaps *)
Lemma med3_spec s l a b c :
  a < length l -> b < length l -> c < length l ->
  exists m s', med3 cmp s l a b c = Ret (m, s') /\ (m = a \/ m = b \/ m = c).
Proof.
  intros Ha Hb Hc. unfold med3.
  destruct (cmp_at_spec s l a b) as (? & ? & v1 & s1 & _ & _ & -> & _); [done | done |].
  destruct (cmp_at_spec s1 l b c) as (? & ? & v2 & s2 & _ & _ & E2 & _); [done | done |].
  destruct (cmp_at_spec s2 l a c) as (? & ? & v3 & s3 & _ & _ & E3 & _); [done | done |].
  cbn [mbind res_bind]. rewrite !E2. cbn [mbind res_bind]. rewrite !E3. cbn [mbind res_bind].
  repeat case_match; (eexists _, _; split; [reflexivity | auto]).
Qed.

Lemma swap_block_spec n : forall l a b,
  a + n <= b -> b + n <= length l ->
  exists l', swap_block l a b n = Ret l' /\
    (forall lo hi, lo <= a -> b + n <= hi -> perm_in lo hi l l') /\
    (forall k, k < n -> l' !! (a + k) = l !! (b + k) /\ l' !! (b + k) = l !! (a + k)) /\
    (forall k, ~ (a <= k < a + n) -> ~ (b <= k < b + n) -> l' !! k = l !! k).
Proof.
  induction n as [| n IH]; intros l a b Hab Hn; cbn [swap_block].
  { eexists. split; [reflexivity |]. split; [auto |]. split; [lia | auto]. }
  destruct (swap_spec l a b) as (l1 & -> & Hp1 & H1 & H2 & Hne); [lia | lia |].
  pose proof (perm_in_length _ _ _ _ (Hp1 a (S b) ltac:(lia) ltac:(lia))) as El.
  cbn [mbind res_bind].
  destruct (IH l1 (S a) (S b)) as (l' & -> & Hp' & Hin & Hout); [lia | lia |].
  exists l'. split; [done |]. split; [| split].
  - intros lo hi ? ?. eapply perm_in_trans; [apply Hp1; lia | apply Hp'; lia].
  - intros [| k] Hk.
    + rewrite !Nat.add_0_r, !Hout by lia. auto.
    + rewrite !Nat.add_succ_r. destruct (Hin k) as [E1 E2]; [lia |]. cbn [Nat.add] in E1, E2.
      rewrite E1, E2, !Hne by lia. auto.
  - intros k ? ?. rewrite Hout by lia. apply Hne; lia.
Qed.

(** Exchanging the shorter of two adjacent blocks with the far end of the
    other one exchanges the blocks (up to order inside them). *)
Lemma swap_min_block l lo mid hi span (P Q : A -> Prop) :
  lo <= mid -> mid <= hi -> hi <= length l -> span = Nat.min (mid - lo) (hi - mid) ->
  exists l', swap_block l lo (hi - span) span = Ret l' /\ perm_in lo hi l l' /\
    (rng l lo mid P -> rng l mid hi Q ->
     rng l' lo (lo + (hi - mid)) Q /\ rng l' (lo + (hi - mid)) hi P).
Proof.
  intros H1 H2 H3 Hs.
  destruct (swap_block_spec span l lo (hi - span)) as (l' & -> & Hp & Hin & Hout);
    [lia | lia |].
  exists l'. split; [done |]. split; [apply Hp; lia |]. intros HP HQ. split; intros k x Hk Ex.
  - destruct (decide (k < lo + span)) as [Hlt | Hge].
    + replace k with (lo + (k - lo)) in Ex by lia. rewrite (proj1 (Hin (k - lo) ltac:(lia))) in Ex.
      eapply HQ; [| exact Ex]. lia.
    + rewrite Hout in Ex by lia. eapply HQ; [| exact Ex]. lia.
  - destruct (decide (hi - span <= k)) as [Hge | Hlt].
    + replace k with (hi - span + (k - (hi - span))) in Ex by lia.
      rewrite (proj2 (Hin (k - (hi - span)) ltac:(lia))) in Ex.
      eapply HP; [| exact Ex]. lia.
    + rewrite Hout in Ex by lia. eapply HP; [| exact Ex]. lia.
Qed.

(** ** Partition

    The three classes of elements; a callback that is not a total preorder
    says nothing about them. *)
Section partition.
Context (pv : A).
Definition EQ (x : A) : Prop := TotalPreorder -> x = pv \/ ord pv x = 0%Z.
Definition LT (x : A) : Prop := TotalPreorder -> (0 < ord pv x)%Z.
Definition GT (x : A) : Prop := TotalPreorder -> (ord pv x < 0)%Z.

Lemma scan_up_spec fuel : forall s l ptr plt pi pj,
  pj - pi < fuel -> ptr < plt -> plt <= pi -> pi <= pj -> pj <= length l ->
  l !! ptr = Some pv -> rng l (S ptr) plt EQ -> rng l plt pi LT ->
  exists l' plt' pi' s', scan_up cmp fuel s l ptr plt pi pj = Ret (l', plt', pi', s') /\
    plt <= plt' /\ plt' <= pi' /\ pi <= pi' /\ pi' <= pj /\
    perm_in plt pi' l l' /\ rng l' (S ptr) plt' EQ /\ rng l' plt' pi' LT /\
    (pi' < pj -> rng l' pi' (S pi') GT).
Proof.
  induction fuel as [| fuel IH]; intros s l ptr plt pi pj Hf H1 H2 H3 Hn Hpv He Hl; [lia |].
  cbn [scan_up]. case_decide as Hlt.
  2: { eexists _, _, _, _. split; [reflexivity |]. split_and?; auto; lia. }
  destruct (cmp_at_spec s l ptr pi) as (x & y & v & s1 & Ex & Ey & -> & Hv); [lia | lia |]. simplify_eq.
  cbn [mbind res_bind]. destruct (Z.leb_spec 0 v) as [Hge | Hgt].
  2: { eexists _, _, _, _. split; [reflexivity |]. split_and?; auto; try lia.
       intros _. eapply rng_single; [exact Ey |]. intros HTP. rewrite <- (Hv HTP). exact Hgt. }
  destruct (Z.eqb_spec v 0) as [E0 | Hne0].
  - destruct (swap_spec l plt pi) as (l1 & -> & Hp1 & E1 & E2 & Hne); [lia | lia |].
    specialize (Hp1 plt (S pi) ltac:(lia) ltac:(lia)).
    pose proof (perm_in_length _ _ _ _ Hp1) as El. cbn [mbind res_bind].
    destruct (IH s1 l1 ptr (plt + 1) (pi + 1) pj) as
      (l' & plt' & pi' & s' & -> & Hb1 & Hb2 & Hb3 & Hb4 & Hp' & He' & Hl' & Hg'); try lia.
    + rewrite Hne by lia. exact Hpv.
    + intros k z Hk Ez. destruct (decide (k = plt)) as [-> | Hkp].
      * rewrite E1 in Ez. simplify_eq. intros HTP. right. exact (eq_sym (Hv HTP)).
      * rewrite Hne in Ez by lia. eapply He; [| exact Ez]. lia.
    + intros k z Hk Ez. destruct (decide (k = pi)) as [-> | Hkp].
      * rewrite E2 in Ez. eapply Hl; [| exact Ez]. lia.
      * rewrite Hne in Ez by lia. eapply Hl; [| exact Ez]. lia.
    + eexists _, _, _, _. split; [reflexivity |]. split_and?; auto; try lia.
      eapply perm_in_trans; [eapply perm_in_weaken; [exact Hp1 | lia | lia] |
        eapply perm_in_weaken; [exact Hp' | lia | lia]].
  - destruct (IH s1 l ptr plt (pi + 1) pj) as
      (l' & plt' & pi' & s' & -> & Hb1 & Hb2 & Hb3 & Hb4 & Hp' & He' & Hl' & Hg'); try lia; auto.
    + eapply rng_split; [exact Hl |]. replace (pi + 1) with (S pi) by lia.
      eapply rng_single; [exact Ey |]. intros HTP. rewrite <- (Hv HTP). lia.
    + eexists _, _, _, _. split; [reflexivity |]. split_and?; auto; lia.
Qed.

Lemma scan_down_spec fuel : forall s l ptr pi pj pgt top,
  0 < fuel -> pj - pi <= fuel -> ptr < pi -> pi <= pj -> pj <= pgt -> pgt <= top ->
  top <= length l ->
  l !! ptr = Some pv -> rng l pj pgt GT -> rng l pgt top EQ ->
  exists l' pgt' pj' s', scan_down cmp fuel s l ptr pi pj pgt = Ret (l', pgt', pj', s') /\
    pj' <= pj /\ pgt' <= pgt /\ perm_in (S pi) top l l' /\ rng l' pgt' top EQ /\
    ((pi < pj' /\ pj' < pj /\ pj' < pgt' /\ rng l' pj' (S pj') LT /\ rng l' (S pj') pgt' GT) \/
     (pj' <= pi /\ pi <= pgt' /\ (pi < pj -> pi < pgt') /\
      rng l' (if decide (pi < pj) then S pi else pi) pgt' GT)).
Proof.
  induction fuel as [| fuel IH];
    intros s l ptr pi pj pgt top Hf0 Hf H1 H2 H3 H4 Hn Hpv Hg He; [lia |].
  cbn [scan_down]. cbn zeta. destruct (decide (pi < pj - 1)) as [Hlt | Hge].
  2: { eexists _, _, _, _. split; [reflexivity |]. split_and?; auto; try lia.
       right. split_and?; try lia. case_decide.
       - eapply rng_sub; [exact Hg | lia | lia].
       - eapply rng_sub; [exact Hg | lia | lia]. }
  rewrite (decide_True (P := pi < pj)) by lia.
  destruct (cmp_at_spec s l ptr (pj - 1)) as (x & y & v & s1 & Ex & Ey & -> & Hv);
    [lia | lia |]. simplify_eq.
  cbn [mbind res_bind]. destruct (Z.leb_spec v 0) as [Hle | Hgt].
  2: { eexists _, _, _, _. split; [reflexivity |]. split_and?; auto; try lia.
       left. split_and?; try lia.
       - eapply rng_single; [exact Ey | intros HTP; rewrite <- (Hv HTP); exact Hgt].
       - eapply rng_sub; [exact Hg | lia | lia]. }
  destruct (Z.eqb_spec v 0) as [E0 | Hne0].
  - destruct (swap_spec l (pgt - 1) (pj - 1)) as (l1 & -> & Hp1 & E1 & E2 & Hne); [lia | lia |].
    specialize (Hp1 (S pi) top ltac:(lia) ltac:(lia)).
    pose proof (perm_in_length _ _ _ _ Hp1) as El. cbn [mbind res_bind].
    destruct (IH s1 l1 ptr pi (pj - 1) (pgt - 1) top) as
      (l' & pgt' & pj' & s' & -> & Hb1 & Hb2 & Hp' & He' & Hcase); try lia.
    + rewrite Hne by lia. exact Hpv.
    + intros k z Hk Ez. destruct (decide (k = pj - 1)) as [-> | Hkp].
      * rewrite E2 in Ez. eapply Hg; [| exact Ez]. lia.
      * rewrite Hne in Ez by lia. eapply Hg; [| exact Ez]. lia.
    + intros k z Hk Ez. destruct (decide (k = pgt - 1)) as [-> | Hkp].
      * rewrite E1 in Ez. simplify_eq. intros HTP. right. exact (eq_sym (Hv HTP)).
      * rewrite Hne in Ez by lia. eapply He; [| exact Ez]. lia.
    + rewrite decide_True in Hcase by lia.
      eexists _, _, _, _. split; [reflexivity |].
      split; [lia |]. split; [lia |]. split; [eapply perm_in_trans; eassumption |].
      split; [done |]. destruct Hcase as [(? & ? & ? & ? & ?) | (? & ? & ? & ?)];
        [left | right]; split_and?; auto; lia.
  - destruct (IH s1 l ptr pi (pj - 1) pgt top) as
      (l' & pgt' & pj' & s' & -> & Hb1 & Hb2 & Hp' & He' & Hcase); try lia; auto.
    + eapply rng_split with (mid := pj); [| exact Hg].
      replace pj with (S (pj - 1)) at 2 by lia. eapply rng_single; [exact Ey |]. intros HTP. rewrite <- (Hv HTP). lia.
    + rewrite decide_True in Hcase by lia.
      eexists _, _, _, _. split; [reflexivity |].
      split; [lia |]. split; [lia |]. split; [done |]. split; [done |].
      destruct Hcase as [(? & ? & ? & ? & ?) | (? & ? & ? & ?)];
        [left | right]; split_and?; auto; lia.
Qed.

Lemma partition_spec fuel : forall s l ptr plt pi pj pgt top,
  pj - pi < fuel -> ptr < plt -> plt <= pi -> pi <= pj -> pj <= pgt -> pgt <= top ->
  top <= length l -> l !! ptr = Some pv ->
  rng l (S ptr) plt EQ -> rng l plt pi LT -> rng l pj pgt GT -> rng l pgt top EQ ->
  exists l' plt' pi' pgt' s',
    partition cmp fuel s l ptr plt pi pj pgt = Ret (l', plt', pi', pgt', s') /\
    plt <= plt' /\ plt' <= pi' /\ pi' <= pgt' /\ pgt' <= top /\
    perm_in (S ptr) top l l' /\
    rng l' (S ptr) plt' EQ /\ rng l' plt' pi' LT /\ rng l' pi' pgt' GT /\ rng l' pgt' top EQ.
Proof.
  induction fuel as [| fuel IH];
    intros s l ptr plt pi pj pgt top Hf H1 H2 H3 H4 H5 Hn Hpv He Hl Hg He2; [lia |].
  cbn [partition].
  destruct (scan_up_spec (S fuel) s l ptr plt pi pj) as
    (l1 & plt1 & pi1 & s1 & -> & Hb1 & Hb2 & Hb3 & Hb4 & Hp1 & He1 & Hl1 & Hg1); auto; [lia |].
  pose proof (perm_in_length _ _ _ _ Hp1) as El1. cbn [mbind res_bind].
  assert (forall P lo, pi1 <= lo -> rng l lo top P -> rng l1 lo top P) as Hup.
  { intros P lo Hlo HP k x Hk Ex. rewrite (proj2 Hp1) in Ex by lia. eauto. }
  destruct (scan_down_spec (S fuel) s1 l1 ptr pi1 pj pgt top) as
    (l2 & pgt2 & pj2 & s2 & -> & Hc1 & Hc2 & Hp2 & He2' & Hcase); try lia.
  { rewrite (proj2 Hp1) by lia. exact Hpv. }
  { intros k x Hk Ex. rewrite (proj2 Hp1) in Ex by lia. eauto. }
  { apply Hup; [lia | exact He2]. }
  pose proof (perm_in_length _ _ _ _ Hp2) as El2. cbn [mbind res_bind].
  assert (forall P lo hi, hi <= S pi1 -> rng l1 lo hi P -> rng l2 lo hi P) as Hdn.
  { intros P lo hi Hhi HP k x Hk Ex. rewrite (proj2 Hp2) in Ex by lia. eauto. }
  assert (perm_in (S ptr) top l l2) as Hp12.
  { eapply perm_in_trans; [eapply perm_in_weaken; [exact Hp1 | lia | lia] |
      eapply perm_in_weaken; [exact Hp2 | lia | lia]]. }
  destruct Hcase as [(Ha & Hb & Hc & HL & HG) | (Ha & Hb & Hd & HG)].
  - rewrite decide_False by lia.
    destruct (swap_spec l2 pi1 pj2) as (l3 & -> & Hp3 & E1 & E2 & Hne); [lia | lia |].
    specialize (Hp3 (S ptr) top ltac:(lia) ltac:(lia)).
    pose proof (perm_in_length _ _ _ _ Hp3) as El3. cbn [mbind res_bind].
    destruct (IH s2 l3 ptr plt1 (pi1 + 1) pj2 pgt2 top) as
      (l' & plt' & pi' & pgt' & s' & -> & ? & ? & ? & ? & Hp' & ? & ? & ? & ?); try lia.
    + rewrite (proj2 Hp3) by lia. rewrite (proj2 Hp12) by lia. exact Hpv.
    + intros k x Hk Ex. rewrite Hne in Ex by lia. eapply (Hdn EQ (S ptr) plt1); [lia | exact He1 | exact Hk | exact Ex].
    + intros k x Hk Ex. destruct (decide (k = pi1)) as [-> | Hk1].
      * rewrite E1 in Ex. eapply HL; [| exact Ex]. lia.
      * rewrite Hne in Ex by lia. eapply (Hdn LT plt1 pi1); [lia | exact Hl1 | | exact Ex]. lia.
    + intros k x Hk Ex. destruct (decide (k = pj2)) as [-> | Hk1].
      * rewrite E2 in Ex. eapply (Hdn GT pi1 (S pi1)); [lia | apply Hg1; lia | | exact Ex]. lia.
      * rewrite Hne in Ex by lia. eapply HG; [| exact Ex]. lia.
    + intros k x Hk Ex. rewrite Hne in Ex by lia. eauto.
    + eexists _, _, _, _, _. split; [reflexivity |]. split_and?; auto; try lia.
      eapply perm_in_trans; [exact Hp12 |]. eapply perm_in_trans; eassumption.
  - rewrite decide_True by lia. eexists _, _, _, _, _. split; [reflexivity |].
    split_and?; [lia | lia | lia | lia | exact Hp12 | eapply Hdn; [lia | exact He1] |
      eapply Hdn; [lia | exact Hl1] | | exact He2'].
    case_decide as Hd'; [| exact HG].
    eapply rng_split with (mid := S pi1); [| exact HG].
    eapply Hdn; [lia | apply Hg1; lia].
Qed.
End partition.

Lemma rng_outside lo hi l l' a b P :
  perm_in lo hi l l' -> b <= lo \/ hi <= a -> rng l a b P -> rng l' a b P.
Proof. intros [_ Hp] Hd HP k x Hk Ex. rewrite Hp in Ex by lia. eauto. Qed.

Lemma split_segment_spec s l ptr n :
  6 < n -> ptr + n <= length l ->
  exists l' lt gt pv s', split_segment cmp s l ptr n = Ret (l', lt, gt, s') /\
    perm_in ptr (ptr + n) l l' /\ lt < gt /\ gt <= n /\
    rng l' ptr (ptr + lt) (LT pv) /\ rng l' (ptr + lt) (ptr + gt) (EQ pv) /\
    rng l' (ptr + gt) (ptr + n) (GT pv).
Proof.
  intros H6 Hn. unfold split_segment. cbn zeta.
  pose proof (Nat.div_mod_eq n 4). pose proof (Nat.mod_upper_bound n 4).
  destruct (med3_spec s l (ptr + n / 4) (ptr + 2 * (n / 4)) (ptr + 3 * (n / 4)))
    as (m & s1 & -> & Hm); [lia | lia | lia |]. cbn [mbind res_bind].
  destruct (swap_spec l ptr m) as (l1 & -> & Hp1 & H1 & _ & _); [lia | lia |].
  specialize (Hp1 ptr (ptr + n) ltac:(lia) ltac:(lia)).
  pose proof (perm_in_length _ _ _ _ Hp1) as El1. cbn [mbind res_bind].
  destruct (get_lt l1 ptr) as [pv Epv]; [lia |].
  destruct (partition_spec pv n s1 l1 ptr (ptr + 1) (ptr + 1) (ptr + n) (ptr + n) (ptr + n))
    as (l2 & plt & pi & pgt & s2 & -> & Hb1 & Hb2 & Hb3 & Hb4 & Hp2 & He1 & Hl1 & Hg1 & He2);
    try lia; try (apply rng_empty; lia); [exact Epv |].
  pose proof (perm_in_length _ _ _ _ Hp2) as El2. cbn [mbind res_bind].
  assert (rng l2 ptr plt (EQ pv)) as He0.
  { eapply rng_split; [| exact He1]. eapply rng_single; [| intros _; left; reflexivity].
    rewrite (proj2 Hp2) by lia. exact Epv. }
  match goal with |- context [swap_block l2 ptr (pi - ?s) ?s] =>
    destruct (swap_min_block l2 ptr plt pi s (EQ pv) (LT pv)) as (l3 & -> & Hp3 & Hr3);
      [lia | lia | lia | case_decide; lia |]
  end.
  destruct (Hr3 He0 Hl1) as [HL HE]. pose proof (perm_in_length _ _ _ _ Hp3) as El3.
  cbn [mbind res_bind].
  match goal with |- context [swap_block l3 pi (ptr + n - ?s) ?s] =>
    destruct (swap_min_block l3 pi pgt (ptr + n) s (GT pv) (EQ pv)) as (l4 & -> & Hp4 & Hr4);
      [lia | lia | lia | case_decide; lia |]
  end.
  destruct Hr4 as [HE' HG].
  { eapply rng_outside; [exact Hp3 | lia | exact Hg1]. }
  { eapply rng_outside; [exact Hp3 | lia | exact He2]. }
  cbn [mbind res_bind]. eexists _, _, _, pv, _. split; [reflexivity |].
  replace (ptr + (pi - ptr - (plt - ptr))) with (ptr + (pi - plt)) by lia.
  replace (ptr + (n - (pgt - ptr - (pi - ptr)))) with (pi + (ptr + n - pgt)) by lia.
  split_and?; [| lia | lia | | | exact HG].
  - eapply perm_in_trans; [exact Hp1 |].
    eapply perm_in_trans; [eapply perm_in_weaken; [exact Hp2 | lia | lia] |].
    eapply perm_in_trans; eapply perm_in_weaken; [exact Hp3 | lia | lia | exact Hp4 | lia | lia].
  - eapply rng_outside; [exact Hp4 | lia | exact HL].
  - eapply rng_split; [| exact HE']. eapply rng_outside; [exact Hp4 | lia | exact HE].
Qed.

(** ** The pending segments *)
Definition inside (f : frame) (i : nat) : Prop := f_base f <= i < f_base f + f_count f.

(** Two elements are in order unless a pending segment holds both. *)
Definition ordered_outside (l : list A) (segs : list frame) : Prop :=
  forall i j x y, i < j -> (forall f, f ∈ segs -> ~ (inside f i /\ inside f j)) ->
    l !! i = Some x -> l !! j = Some y -> (ord x y <= 0)%Z.

Definition disjoint_seg (f g : frame) : Prop :=
  f_base f + f_count f <= f_base g \/ f_base g + f_count g <= f_base f \/
  f_count f = 0 \/ f_count g = 0.

Definition disjoint_segs (segs : list frame) : Prop :=
  ForallOrdPairs disjoint_seg segs.

(** The frame stack: within the array, the depth of a frame bounds the number
    of frames below it, and never exceeds 50. *)
Fixpoint stack_ok (N : nat) (stack : list frame) : Prop :=
  match stack with
  | [] => True
  | f :: stack =>
      f_base f + f_count f <= N /\ length stack <= f_depth f /\ f_depth f <= 50 /\
      stack_ok N stack
  end.

(** Work left: each outer iteration lowers it. *)
Definition weight (segs : list frame) : nat :=
  sum_list_with (fun f => f_count f + 1) segs.

Definition seg (b n : nat) : frame := Frame b n 0.

Lemma ordered_outside_perm l l' b n d stack :
  perm_in b (b + n) l l' -> disjoint_segs (Frame b n d :: stack) ->
  ordered_outside l (Frame b n d :: stack) -> ordered_outside l' (Frame b n d :: stack).
Proof.
  intros Hp Hd Ho i j x y Hij Hout Ex Ey. inversion Hd as [| ? ? Hd0 _]; subst.
  rewrite list.Forall_forall in Hd0.
  assert (forall k, b <= k < b + n -> forall m, ~ (b <= m < b + n) ->
            forall f, f ∈ Frame b n d :: stack -> ~ (inside f k /\ inside f m)) as Hcross.
  { intros k Hk m Hm f Hf [Hik Him]. apply elem_of_cons in Hf as [-> | Hf].
    - unfold inside in Him. cbn in Him. lia.
    - specialize (Hd0 f Hf). unfold disjoint_seg, inside in *. cbn in Hd0. lia. }
  destruct (decide (b <= i < b + n)) as [Hi | Hi], (decide (b <= j < b + n)) as [Hj | Hj].
  - exfalso. apply (Hout (Frame b n d)); [left |]. unfold inside. cbn. lia.
  - rewrite (proj2 Hp j) in Ey by lia.
    assert (rng l' b (b + n) (fun u => (ord u y <= 0)%Z)) as Hr.
    { eapply perm_in_rng; [exact Hp | lia | lia | lia |]. intros k u Hk Eu.
      eapply (Ho k j); eauto. lia. }
    eapply Hr; eauto.
  - rewrite (proj2 Hp i) in Ex by lia.
    assert (rng l' b (b + n) (fun u => (ord x u <= 0)%Z)) as Hr.
    { eapply perm_in_rng; [exact Hp | lia | lia | lia |]. intros k u Hk Eu.
      eapply (Ho i k); eauto; [lia |]. intros f Hf [? ?].
      eapply (Hcross k Hk i Hi f Hf); auto. }
    eapply Hr; eauto.
  - rewrite (proj2 Hp i) in Ex by lia. rewrite (proj2 Hp j) in Ey by lia. eauto.
Qed.

(** A sorted segment is no longer pending. *)
Lemma ordered_outside_done l b n d stack :
  sorted_in l b (b + n) -> ordered_outside l (Frame b n d :: stack) ->
  ordered_outside l stack.
Proof.
  intros Hs Ho i j x y Hij Hout Ex Ey.
  destruct (decide (b <= i < b + n /\ b <= j < b + n)) as [[Hi Hj] | Hn].
  - eapply (Hs i j); eauto; lia.
  - eapply Ho; eauto. intros f Hf [Hfi Hfj]. apply elem_of_cons in Hf as [-> | Hf].
    + apply Hn. exact (conj Hfi Hfj).
    + eapply Hout; eauto.
Qed.

(** The three classes of a partition are in order. *)
Lemma class_le `{TotalPreorder} pv x y :
  (LT pv x /\ (EQ pv y \/ GT pv y)) \/ (EQ pv x /\ (EQ pv y \/ GT pv y)) ->
  (ord x y <= 0)%Z.
Proof.
  assert (forall z, EQ pv z -> (ord z pv <= 0 /\ ord pv z <= 0)%Z) as HE.
  { intros z Hz. destruct (Hz _) as [-> | Hz0]; [split; apply cmp_refl |].
    split; [apply cmp_ge_le |]; lia. }
  assert (forall z, GT pv z -> (ord pv z <= 0)%Z) as HG.
  { intros z Hz. specialize (Hz _). lia. }
  intros Hc. apply cmp_trans with pv.
  - destruct Hc as [[Hx _] | [Hx _]]; [apply cmp_gt_le, Hx, _ | apply HE, Hx].
  - destruct Hc as [[_ [Hy | Hy]] | [_ [Hy | Hy]]]; first [apply HE, Hy | apply HG, Hy].
Qed.

Lemma ordered_outside_split `{TotalPreorder} l b n d pv lt gt stack f1 f2 :
  lt < gt -> gt <= n ->
  rng l b (b + lt) (LT pv) -> rng l (b + lt) (b + gt) (EQ pv) ->
  rng l (b + gt) (b + n) (GT pv) ->
  f_base f1 = b -> f_count f1 = lt -> f_base f2 = b + gt -> f_count f2 = n - gt ->
  ordered_outside l (Frame b n d :: stack) ->
  forall segs, (forall f, f ∈ f1 :: f2 :: stack -> f ∈ segs) -> ordered_outside l segs.
Proof.
  intros H1 H2 HL HE HG E1 E2 E3 E4 Ho segs Hsegs i j x y Hij Hout Ex Ey.
  destruct (decide (b <= i < b + n /\ b <= j < b + n)) as [[Hi Hj] | Hn].
  - assert (~ (inside f1 i /\ inside f1 j)) as Hn1.
    { apply Hout, Hsegs. left. }
    assert (~ (inside f2 i /\ inside f2 j)) as Hn2.
    { apply Hout, Hsegs. right; left. }
    unfold inside in *. rewrite E1, E2 in Hn1. rewrite E3, E4 in Hn2.
    apply (class_le pv). destruct (decide (i < b + lt)).
    + left. split; [eapply HL; eauto; lia |]. destruct (decide (j < b + gt)).
      * left. eapply HE; eauto; lia.
      * right. eapply HG; eauto; lia.
    + right. split; [eapply HE; eauto; lia |]. destruct (decide (j < b + gt)).
      * left. eapply HE; eauto; lia.
      * right. eapply HG; eauto; lia.
  - eapply Ho; eauto. intros f Hf [Hfi Hfj]. apply elem_of_cons in Hf as [-> | Hf].
    + apply Hn. exact (conj Hfi Hfj).
    + eapply Hout; [| split; eauto]. apply Hsegs. right; right; exact Hf.
Qed.

Lemma ordered_outside_mono l segs segs' :
  (forall f i j, f ∈ segs -> i < j -> inside f i -> inside f j ->
     exists g, g ∈ segs' /\ inside g i /\ inside g j) ->
  ordered_outside l segs -> ordered_outside l segs'.
Proof.
  intros Hs Ho i j x y Hij Hout Ex Ey. eapply Ho; eauto. intros f Hf [Hi Hj].
  destruct (Hs f i j Hf Hij Hi Hj) as (g & Hg & Hgi & Hgj). eapply Hout; eauto.
Qed.

Lemma disjoint_segs_cons f segs :
  disjoint_segs (f :: segs) <-> Forall (disjoint_seg f) segs /\ disjoint_segs segs.
Proof. split; [intros H; inversion H; auto | intros [? ?]; constructor; auto]. Qed.

Lemma disjoint_seg_sub f f' g :
  f_base f <= f_base f' -> f_base f' + f_count f' <= f_base f + f_count f ->
  disjoint_seg f g -> disjoint_seg f' g.
Proof. unfold disjoint_seg. lia. Qed.

(** Replacing a segment by two disjoint parts of it. *)
Lemma disjoint_segs_split f f1 f2 segs :
  f_base f <= f_base f1 -> f_base f1 + f_count f1 <= f_base f + f_count f ->
  f_base f <= f_base f2 -> f_base f2 + f_count f2 <= f_base f + f_count f ->
  disjoint_seg f1 f2 ->
  disjoint_segs (f :: segs) -> disjoint_segs (f1 :: f2 :: segs).
Proof.
  intros ? ? ? ? H12 [Hf Hs]%disjoint_segs_cons.
  apply disjoint_segs_cons. split; [constructor; [done |] |].
  - eapply list.Forall_impl; [exact Hf |]. intros g. apply disjoint_seg_sub; done.
  - apply disjoint_segs_cons. split; [| done].
    eapply list.Forall_impl; [exact Hf |]. intros g. apply disjoint_seg_sub; done.
Qed.

Lemma stack_ok_push N f stack :
  f_base f + f_count f <= N -> length stack < f_depth f -> f_depth f <= 50 ->
  stack_ok N stack -> push stack f = Ret (f :: stack) /\ stack_ok N (f :: stack).
Proof.
  intros H1 H2 H3 Hs. unfold push, STACK_SIZE. rewrite decide_True by lia.
  split; [done |]. cbn. split_and?; auto; lia.
Qed.

Lemma quick_loop_spec N fuel : forall s l stack ptr n depth,
  52 <= fuel + depth -> depth <= 50 -> length l = N -> ptr + n <= N ->
  stack_ok N stack -> length stack <= depth -> disjoint_segs (Frame ptr n depth :: stack) ->
  exists l' stack' ptr' n' s',
    quick_loop cmp fuel s l stack ptr n depth = Ret (l', stack', ptr', n', s') /\
    l' ≡ₚ l /\ n' <= 6 /\ ptr' + n' <= N /\ stack_ok N stack' /\
    disjoint_segs (Frame ptr' n' 0 :: stack') /\ weight stack' + n' <= weight stack + n /\
    (TotalPreorder -> ordered_outside l (Frame ptr n depth :: stack) ->
     ordered_outside l' (Frame ptr' n' 0 :: stack')).
Proof.
  induction fuel as [| fuel IH]; intros s l stack ptr n depth Hf Hd Hl Hn Hs Hlen Hdis; [lia |].
  cbn [quick_loop]. case_decide as H6.
  2: { eexists _, _, _, _, _. split; [reflexivity |]. split_and?; [done | lia | lia | done | | lia |].
       { apply disjoint_segs_cons in Hdis as [Hf' Hdis]. apply disjoint_segs_cons.
         split; [| done]. eapply list.Forall_impl; [exact Hf' |]. intros g.
         apply disjoint_seg_sub; cbn; lia. }
       intros _. apply ordered_outside_mono. intros f i j Hf' _ Hi Hj.
       apply elem_of_cons in Hf' as [-> | Hf'].
       - exists (Frame ptr n 0). split; [left | auto].
       - exists f. split; [right; exact Hf' | auto]. }
  cbn zeta. case_decide as H50.
  { destruct (heapsortx_spec s l ptr n) as (l' & s' & -> & Hp & Hsort); [lia |]. cbn [mbind res_bind].
    eexists _, _, _, _, _. split; [reflexivity |]. split_and?; [apply Hp | lia | lia | done | | lia |].
    - apply disjoint_segs_cons in Hdis as [_ Hdis]. apply disjoint_segs_cons. split; [| done].
      apply list.Forall_forall. intros g _. unfold disjoint_seg. cbn. lia.
    - intros HTP Ho. apply (ordered_outside_mono _ stack).
      + intros f i j Hf' _ Hi Hj. exists f. split; [right; exact Hf' | auto].
      + eapply ordered_outside_done; [apply Hsort, HTP |].
        eapply ordered_outside_perm; eauto. }
  destruct (split_segment_spec s l ptr n) as
    (l1 & lt & gt & pv & s1 & -> & Hp1 & Hlg & Hgn & HL & HE & HG); [lia | lia |].
  pose proof (perm_in_length _ _ _ _ Hp1) as El1. cbn [mbind res_bind].
  assert (forall f1 f2, f_base f1 = ptr -> f_count f1 = lt -> f_base f2 = ptr + gt ->
            f_count f2 = n - gt -> TotalPreorder ->
            ordered_outside l (Frame ptr n depth :: stack) ->
            forall segs, (forall f, f ∈ f1 :: f2 :: stack -> f ∈ segs) ->
              ordered_outside l1 segs) as Hord.
  { intros f1 f2 E1 E2 E3 E4 HTP Ho. eapply ordered_outside_split; eauto.
    eapply ordered_outside_perm; eauto. }
  case_decide as Hlt.
  - destruct (stack_ok_push N (Frame ptr lt (depth + 1)) stack) as [-> Hs'];
      [cbn; lia | cbn; lia | cbn; lia | done |].
    cbn [mbind res_bind].
    destruct (IH s1 l1 (Frame ptr lt (depth + 1) :: stack) (ptr + gt) (n - gt) (depth + 1))
      as (l' & stack' & ptr' & n' & s' & -> & ? & ? & ? & ? & ? & Hw & Ho'); try lia; auto.
    { cbn. lia. }
    { apply (disjoint_segs_split (Frame ptr n depth)); [cbn; lia .. | | exact Hdis].
      unfold disjoint_seg. cbn. lia. }
    eexists _, _, _, _, _. split; [reflexivity |].
    split_and?; auto; [etransitivity; [eassumption | apply Hp1] | unfold weight in *; cbn in Hw |- *; lia |].
    intros HTP Ho. apply (Ho' HTP).
    eapply (Hord (Frame ptr lt (depth + 1)) (Frame (ptr + gt) (n - gt) (depth + 1)));
      eauto. intros f Hf'. rewrite !elem_of_cons in *. tauto.
  - destruct (stack_ok_push N (Frame (ptr + gt) (n - gt) (depth + 1)) stack) as [-> Hs'];
      [cbn; lia | cbn; lia | cbn; lia | done |].
    cbn [mbind res_bind].
    destruct (IH s1 l1 (Frame (ptr + gt) (n - gt) (depth + 1) :: stack) ptr lt (depth + 1))
      as (l' & stack' & ptr' & n' & s' & -> & ? & ? & ? & ? & ? & Hw & Ho'); try lia; auto.
    { cbn. lia. }
    { apply (disjoint_segs_split (Frame ptr n depth)); [cbn; lia .. | | exact Hdis].
      unfold disjoint_seg. cbn. lia. }
    eexists _, _, _, _, _. split; [reflexivity |].
    split_and?; auto; [etransitivity; [eassumption | apply Hp1] | unfold weight in *; cbn in Hw |- *; lia |].
    intros HTP Ho. apply (Ho' HTP).
    eapply (Hord (Frame ptr lt (depth + 1)) (Frame (ptr + gt) (n - gt) (depth + 1)));
      eauto.
Qed.

Lemma stack_loop_spec N fuel : forall s l stack,
  weight stack < fuel -> length l = N -> stack_ok N stack -> disjoint_segs stack ->
  exists l' s', stack_loop cmp fuel s l stack = Ret (l', s') /\ l' ≡ₚ l /\
    (TotalPreorder -> ordered_outside l stack -> ordered_outside l' []).
Proof.
  induction fuel as [| fuel IH]; intros s l stack Hw Hl Hs Hd; [lia |]. cbn [stack_loop].
  destruct stack as [| f stack]; [eexists _, _; eauto |].
  destruct f as [b n d]. cbn in Hs, Hw. destruct Hs as (Hb & Hlen & Hd50 & Hs).
  cbn [f_base f_count f_depth].
  destruct (quick_loop_spec N 52 s l stack b n d)
    as (l1 & stack1 & ptr & m & s1 & -> & HP1 & H6 & Hb1 & Hs1 & Hd1 & Hw1 & Ho1); auto; [lia |].
  pose proof (Permutation_length HP1) as El1. cbn [mbind res_bind].
  assert (exists l2 s2, insertion_sort cmp s1 l1 ptr 1 (m - 1) = Ret (l2, s2) /\
            perm_in ptr (ptr + m) l1 l2 /\ (TotalPreorder -> sorted_in l2 ptr (ptr + m)))
    as (l2 & s2 & -> & Hp2 & Hsort).
  { destruct m as [| m].
    - eexists _, _. split; [reflexivity |]. split; [auto |]. intros _ i j x y ? ? ?. lia.
    - destruct (insertion_sort_spec (S m - 1) s1 l1 ptr 1) as (l2 & s2 & -> & Hp2 & Hs2); [lia | lia |].
      replace (ptr + 1 + (S m - 1)) with (ptr + S m) in * by lia.
      exists l2, s2. split_and?; auto. intros HTP. apply (Hs2 HTP). intros i j x y ? ? ?. lia. }
  cbn [mbind res_bind].
  destruct (IH s2 l2 stack1) as (l' & s' & -> & HP' & Ho').
  { unfold weight in *. lia. }
  { rewrite (perm_in_length _ _ _ _ Hp2). lia. }
  { done. }
  { apply disjoint_segs_cons in Hd1 as [_ Hd1]. done. }
  exists l', s'. split; [done |]. split.
  - etransitivity; [exact HP' |]. etransitivity; [apply Hp2 | exact HP1].
  - intros HTP Ho. apply (Ho' HTP). eapply ordered_outside_done; [apply Hsort, HTP |].
    eapply ordered_outside_perm; [exact Hp2 | exact Hd1 |]. apply (Ho1 HTP Ho).
Qed.

Lemma rqsort_spec s l :
  exists l' s', rqsort cmp s l = Ret (l', s') /\ l' ≡ₚ l /\
    (TotalPreorder -> sorted_in l' 0 (length l')).
Proof.
  unfold rqsort. cbn zeta. case_decide as Hn.
  { eexists _, _. split; [reflexivity |]. split; [done |]. intros _ i j x y ? ? ?. lia. }
  destruct (stack_loop_spec (length l) (length l + 2) s l [Frame 0 (length l) 0])
    as (l' & s' & E & HP & Ho); auto.
  { cbn. lia. }
  { cbn. lia. }
  { apply disjoint_segs_cons. split; [constructor |]. constructor. }
  exists l', s'. split; [exact E |]. split; [exact HP |]. intros HTP i j x y _ Hij Hj Ex Ey.
  assert (ordered_outside l [Frame 0 (length l) 0]) as H0.
  { intros p q u v Hpq Hout Eu Ev. exfalso. apply (Hout (Frame 0 (length l) 0)); [left |].
    apply lookup_lt_Some in Eu, Ev. unfold inside. cbn. lia. }
  apply (Ho HTP H0 i j x y Hij); [| exact Ex | exact Ey].
  intros f Hf. inversion Hf.
Qed.

(** ** The theorems of the sorting routines *)

(** C7: whatever the comparison callback answers, also when its answers depend
    on a state that it changes at each call, [rqsort] terminates, never touches
    memory outside the array nor overflows its 50-entry stack, and leaves a
    permutation of the array. *)
Theorem rqsort_safe (s : St) (l : list A) :
  exists l' s', rqsort cmp s l = Ret (l', s') /\ l' ≡ₚ l.
Proof. destruct (rqsort_spec s l) as (l' & s' & E & HP & _). eauto. Qed.

(** C8: with a comparison callback whose answers, whatever its state, are those
    of a total preorder, [rqsort] sorts. *)
Theorem rqsort_sorted `{TotalPreorder} (s s' : St) (l l' : list A) :
  rqsort cmp s l = Ret (l', s') ->
  forall i j x y, i < j -> l' !! i = Some x -> l' !! j = Some y -> (ord x y <= 0)%Z.
Proof.
  intros E i j x y Hij Ex Ey. destruct (rqsort_spec s l) as (l2 & s2 & E2 & _ & Hs).
  rewrite E in E2. injection E2 as <- <-.
  eapply (Hs _ i j); eauto; [lia |]. apply lookup_lt_Some in Ey. done.
Qed.

(** [heapsortx] on a segment terminates, stays inside the segment, permutes
    it and, for a total preorder, sorts it. *)
Theorem heapsortx_correct (s : St) (l : list A) (b n : nat) :
  b + n <= length l ->
  exists l' s', heapsortx cmp s l b n = Ret (l', s') /\ l' ≡ₚ l /\
    (forall k, k < b \/ b + n <= k -> l' !! k = l !! k) /\
    (TotalPreorder -> sorted_in l' b (b + n)).
Proof.
  intros Hn. destruct (heapsortx_spec s l b n Hn) as (l' & s' & E & [HP Hout] & Hs).
  exists l', s'. eauto.
Qed.
End facts.

#[export] Instance Zsub_total_preorder : TotalPreorder (pure_cmp Z.sub) Z.sub.
Proof. split; [reflexivity | |]; lia. Qed.

(** A callback that counts its calls is consistent too. *)
#[export] Instance counting_total_preorder :
  TotalPreorder (fun n x y => ((x - y)%Z, S n)) Z.sub.
Proof. split; [reflexivity | |]; lia. Qed.

Lemma rqsort_sorted_witness :
  rqsort (fun n x y => ((x - y)%Z, S n)) 0 [4; 9; 1; 7; 3; 8; 2; 6; 5]%Z =
  Ret ([1; 2; 3; 4; 5; 6; 7; 8; 9]%Z, 25) /\
  forall i j x y, i < j ->
    [1; 2; 3; 4; 5; 6; 7; 8; 9]%Z !! i = Some x ->
    [1; 2; 3; 4; 5; 6; 7; 8; 9]%Z !! j = Some y -> (x - y <= 0)%Z.
Proof.
  split; [vm_compute; reflexivity |].
  apply (rqsort_sorted (fun n x y => ((x - y)%Z, S n)) Z.sub 0 25
           [4; 9; 1; 7; 3; 8; 2; 6; 5]%Z).
  vm_compute. reflexivity.
Defined.
