(* ===== verification/DynBuf.v ===== *)
(** * cutils.c: dynamic buffers ([DynBuf])

    [buf] is the memory block the buffer owns: its length is the allocated
    size.  The reallocation function is a parameter (class [Realloc] of Alloc.v) with the
    documented contract of C's [realloc]: it fails or returns a block of the
    requested size that starts with the old contents; the rest of the block is
    arbitrary.  Sizes are [size_t] values and wrap at 2^64. *)
From Stdlib Require Import ZArith Lia Bool.
From stdpp Require Import base numbers list.
From S2P Require Import Prelude Alloc Cutils.

(** ** The structure *)
Record DynBuf : Type := mkDynBuf {
  buf : list Z;
  size : Z;
  allocated_size : Z;
  error : bool
}.

Section dynbuf.
Context `{Realloc is_byte}.

Definition dbuf_init2 : DynBuf := mkDynBuf [] 0 0 false.

Definition dbuf_init : DynBuf := dbuf_init2.

(** Returns the buffer and the [int] result. *)
Definition dbuf_realloc (s : DynBuf) (new_size : Z) : DynBuf * Z :=
  if allocated_size s <? new_size then
    if error s then (s, -1)
    else
      let sz := u64 (allocated_size s * 3) / 2 in
      let new_size := if new_size <? sz then sz else new_size in
      match realloc_func (buf s) new_size with
      | None => (mkDynBuf (buf s) (size s) (allocated_size s) true, -1)
      | Some new_buf => (mkDynBuf new_buf (size s) new_size (error s), 0)
      end
  else (s, 0).

Definition dbuf_write (s : DynBuf) (offset : Z) (data : list Z) : res (DynBuf * Z) :=
  let end_ := u64 (offset + zlen data) in
  let '(s, r) := dbuf_realloc s end_ in
  if negb (r =? 0) then Ret (s, -1)
  else
    b ← of_opt (zwrite (buf s) offset data);
    Ret (mkDynBuf b (if size s <? end_ then end_ else size s) (allocated_size s) (error s), 0).

Definition dbuf_put (s : DynBuf) (data : list Z) : res (DynBuf * Z) :=
  let '(s, r) :=
    if allocated_size s <? u64 (size s + zlen data)
    then dbuf_realloc s (u64 (size s + zlen data)) else (s, 0) in
  if negb (r =? 0) then Ret (s, -1)
  else
    b ← of_opt (zwrite (buf s) (size s) data);
    Ret (mkDynBuf b (u64 (size s + zlen data)) (allocated_size s) (error s), 0).

(** [memcpy(s->buf + s->size, s->buf + offset, len)]: the regions must not
    overlap. *)
Definition dbuf_put_self (s : DynBuf) (offset len : Z) : res (DynBuf * Z) :=
  let '(s, r) :=
    if allocated_size s <? u64 (size s + len)
    then dbuf_realloc s (u64 (size s + len)) else (s, 0) in
  if negb (r =? 0) then Ret (s, -1)
  else
    data ← of_opt (zread (buf s) offset len);
    _ ← assert_ ((len =? 0) || (offset + len <=? size s));
    b ← of_opt (zwrite (buf s) (size s) data);
    Ret (mkDynBuf b (u64 (size s + len)) (allocated_size s) (error s), 0).

Definition dbuf_putc (s : DynBuf) (c : Z) : res (DynBuf * Z) := dbuf_put s [u8 c].

Definition dbuf_putstr (s : DynBuf) (str : list Z) : res (DynBuf * Z) :=
  len ← strlen str;
  data ← of_opt (zread str 0 len);
  dbuf_put s data.

Definition dbuf_put_u16 (s : DynBuf) (val : Z) : res (DynBuf * Z) := dbuf_put s (le_bytes 2 val).
Definition dbuf_put_u32 (s : DynBuf) (val : Z) : res (DynBuf * Z) := dbuf_put s (le_bytes 4 val).
Definition dbuf_put_u64 (s : DynBuf) (val : Z) : res (DynBuf * Z) := dbuf_put s (le_bytes 8 val).

Definition dbuf_error (s : DynBuf) : bool := error s.
Definition dbuf_set_error (s : DynBuf) : DynBuf :=
  mkDynBuf (buf s) (size s) (allocated_size s) true.
Definition dbuf_free (s : DynBuf) : DynBuf := mkDynBuf [] 0 0 false.

(** libregexp.c: insert [len] bytes at position [pos]; the [memmove] leaves the
    old bytes in the gap. *)
Definition dbuf_insert (s : DynBuf) (pos len : Z) : res (DynBuf * Z) :=
  let '(s, r) := dbuf_realloc s (u64 (size s + len)) in
  if negb (r =? 0) then Ret (s, -1)
  else
    data ← of_opt (zread (buf s) pos (size s - pos));
    b ← of_opt (zwrite (buf s) (pos + len) data);
    Ret (mkDynBuf b (u64 (size s + len)) (allocated_size s) (error s), 0).

(** ** The invariant and the contents *)
Record dbuf_ok (s : DynBuf) : Prop := {
  ok_size : 0 <= size s <= allocated_size s;
  ok_alloc : zlen (buf s) = allocated_size s;
  ok_width : allocated_size s < 2 ^ 64;
  ok_bytes : bytes_ok (buf s)
}.

Definition dbuf_data (s : DynBuf) : list Z := take (Z.to_nat (size s)) (buf s).

Lemma dbuf_data_zlen s : dbuf_ok s -> zlen (dbuf_data s) = size s.
Proof. intros []. unfold dbuf_data. rewrite zlen_take. lia. Qed.

Lemma dbuf_data_bytes s : dbuf_ok s -> bytes_ok (dbuf_data s).
Proof. intros []. apply Forall_take. assumption. Qed.

(** Why an operation may fail: the flag was already set, or the allocator
    refused a request for this block. *)
Definition refused (s : DynBuf) : Prop :=
  error s = true \/ exists n, realloc_func (buf s) n = None.

(** The value of a result with the [int] code: either success with [data], or
    failure with the error flag set and the contents untouched. *)
Definition put_result (s s' : DynBuf) (r : Z) (data : list Z) : Prop :=
  dbuf_ok s' /\
  ((r = 0 /\ dbuf_data s' = data /\ error s' = error s) \/
   (r = -1 /\ dbuf_data s' = dbuf_data s /\ error s' = true /\ refused s)).

Lemma dbuf_init_ok : dbuf_ok dbuf_init2 /\ dbuf_data dbuf_init2 = [].
Proof. split; [split; cbn; try lia; constructor | reflexivity]. Qed.

(** [dbuf_realloc] keeps the invariant, and on success there is room. *)
Lemma dbuf_realloc_spec s n :
  dbuf_ok s -> 0 <= n < 2 ^ 64 ->
  exists s' r, dbuf_realloc s n = (s', r) /\ dbuf_ok s' /\ size s' = size s /\
    buf s `prefix_of` buf s' /\ allocated_size s <= allocated_size s' /\
    ((r = 0 /\ n <= allocated_size s' /\ error s' = error s) \/
     (r = -1 /\ buf s' = buf s /\ error s' = true /\ refused s)).
Proof.
  intros Hok Hn. destruct Hok as [Hs Ha Hw Hb]. unfold dbuf_realloc.
  destruct (Z.ltb_spec (allocated_size s) n) as [Hlt | Hge].
  - destruct (error s) eqn:Ee.
    { eexists _, _. split; [reflexivity |]. split_and!; try done; try lia; right; unfold refused; auto. }
    set (sz := u64 (allocated_size s * 3) / 2).
    assert (0 <= sz < 2 ^ 64) as Hsz.
    { unfold sz. pose proof (wrap_range 64 (allocated_size s * 3) ltac:(lia)). zdiv_lia. }
    set (n' := if n <? sz then sz else n).
    assert (n <= n' < 2 ^ 64) as Hn' by (unfold n'; destruct (Z.ltb_spec n sz); lia).
    destruct (realloc_func (buf s) n') as [b |] eqn:Er.
    + pose proof (realloc_zlen (buf s) n' b ltac:(lia) Er) as El.
      pose proof (realloc_prefix (buf s) n' b ltac:(lia) Er) as Ep.
      pose proof (realloc_elems _ _ _ Hb Er) as Eb.
      eexists _, _. split; [reflexivity |].
      split_and!; cbn; try done; try lia.
      split; cbn; done || lia.
    + eexists _, _. split; [reflexivity |]. split_and!; cbn; try done; try lia; right.
      unfold refused. split_and!; eauto.
  - eexists _, _. split; [reflexivity |]. split_and!; try done; try lia; left; split_and!; lia || done.
Qed.

Lemma prefix_take_le {A} (l k : list A) n : l `prefix_of` k -> (n <= length l)%nat -> take n k = take n l.
Proof. intros [t ->] Hn. apply take_app_le, Hn. Qed.

(** Writing past the end of the contents appends. *)
Lemma zwrite_append s data :
  dbuf_ok s -> size s + zlen data <= allocated_size s ->
  exists b, zwrite (buf s) (size s) data = Some b /\ zlen b = allocated_size s /\
    take (Z.to_nat (size s + zlen data)) b = dbuf_data s ++ data /\
    (bytes_ok data -> bytes_ok b).
Proof.
  intros [Hs Ha Hw Hb] Hle. eexists. split; [apply zwrite_in; lia |]. split_and!.
  - rewrite !zlen_app, zlen_take, zlen_drop. zlen_pos. lia.
  - unfold dbuf_data. rewrite app_assoc. apply take_app_length'.
    rewrite length_app, length_take. unfold zlen in *. lia.
  - intros Hd. apply Forall_app; split; [apply Forall_take, Hb |].
    apply Forall_app; split; [exact Hd | apply Forall_drop, Hb].
Qed.

Lemma dbuf_put_spec s data :
  dbuf_ok s -> bytes_ok data -> size s + zlen data < 2 ^ 64 ->
  exists s' r, dbuf_put s data = Ret (s', r) /\ put_result s s' r (dbuf_data s ++ data).
Proof.
  intros Hok Hd Hw. unfold dbuf_put. pose proof (zlen_nonneg data) as Hl.
  pose proof (ok_size s Hok) as Hs. rewrite wrap_small by lia.
  assert (exists s1 r, (if allocated_size s <? size s + zlen data
            then dbuf_realloc s (size s + zlen data) else (s, 0)) = (s1, r) /\
          dbuf_ok s1 /\ size s1 = size s /\ buf s `prefix_of` buf s1 /\
          ((r = 0 /\ size s + zlen data <= allocated_size s1 /\ error s1 = error s) \/
           (r = -1 /\ buf s1 = buf s /\ error s1 = true /\ refused s))) as (s1 & r & -> & Hok1 & Es & Hp & Hr).
  { destruct (Z.ltb_spec (allocated_size s) (size s + zlen data)).
    - destruct (dbuf_realloc_spec s (size s + zlen data) Hok) as
        (s1 & r & E & Hok1 & Es & Hp & _ & Hr); [lia |]. eauto 10.
    - eexists _, _. split; [reflexivity |]. split_and!; auto. }
  assert (dbuf_data s1 = dbuf_data s) as Ed.
  { unfold dbuf_data. rewrite Es. apply prefix_take_le; [done |].
    pose proof (ok_alloc s Hok). unfold zlen in *. lia. }
  destruct Hr as [(-> & Hle & He) | (-> & Eb & He)]; cbn [negb Z.eqb].
  - destruct (zwrite_append s1 data Hok1) as (b & Ew & Elen & Et & Hb); [lia |].
    cbn. rewrite Ew. cbn. eexists _, _. split; [reflexivity |]. split.
    + destruct Hok1. split; cbn; rewrite ?wrap_small by lia; auto; lia.
    + left. split_and!; [done | | done]. rewrite <- Ed, <- Et. unfold dbuf_data. cbn.
      rewrite wrap_small by lia. reflexivity.
  - cbn. eexists _, _. split; [reflexivity |]. split; [done |]. right. auto.
Qed.

Lemma realloc_data s s1 :
  dbuf_ok s -> size s1 = size s -> buf s `prefix_of` buf s1 -> dbuf_data s1 = dbuf_data s.
Proof.
  intros [Hs Ha _ _] Es Hp. unfold dbuf_data. rewrite Es. apply prefix_take_le; [done |].
  unfold zlen in *. lia.
Qed.

(** The reallocation step shared by the operations that grow the buffer. *)
Lemma dbuf_grow_spec s n :
  dbuf_ok s -> 0 <= n < 2 ^ 64 ->
  exists s1 r, (if allocated_size s <? n then dbuf_realloc s n else (s, 0)) = (s1, r) /\
    dbuf_realloc s n = (s1, r) /\ dbuf_ok s1 /\ size s1 = size s /\
    dbuf_data s1 = dbuf_data s /\
    ((r = 0 /\ n <= allocated_size s1 /\ error s1 = error s) \/
     (r = -1 /\ error s1 = true /\ refused s)).
Proof.
  intros Hok Hn.
  destruct (dbuf_realloc_spec s n Hok Hn) as (s1 & r & E & Hok1 & Es & Hp & _ & Hr).
  exists s1, r. split_and!; auto using realloc_data.
  - destruct (Z.ltb_spec (allocated_size s) n); [done |]. rewrite <- E.
    unfold dbuf_realloc. destruct (Z.ltb_spec (allocated_size s) n); [lia | done].
  - tauto.
Qed.

(** Copying a part of the contents to the end. *)
Lemma dbuf_put_self_spec s offset len :
  dbuf_ok s -> 0 <= offset -> 0 <= len -> offset + len <= size s -> size s + len < 2 ^ 64 ->
  exists s' r, dbuf_put_self s offset len = Ret (s', r) /\
    put_result s s' r
      (dbuf_data s ++ take (Z.to_nat len) (drop (Z.to_nat offset) (dbuf_data s))).
Proof.
  intros Hok Ho Hl Hin Hw. unfold dbuf_put_self.
  pose proof (ok_size s Hok). rewrite wrap_small by lia.
  destruct (dbuf_grow_spec s (size s + len) Hok)
    as (s1 & r & -> & _ & Hok1 & Es & Ed & Hr); [lia |].
  destruct Hr as [(-> & Hle & He) | (-> & He)]; cbn [negb Z.eqb].
  2: { cbn. eexists _, _. split; [reflexivity |]. split; [done |]. right. auto. }
  pose proof (ok_alloc s1 Hok1) as Ha1. pose proof (ok_bytes s1 Hok1) as Hb1.
  rewrite Es. rewrite zread_in by lia. cbn [of_opt mbind res_bind].
  set (d := take (Z.to_nat len) (drop (Z.to_nat offset) (buf s1))).
  assert (d = take (Z.to_nat len) (drop (Z.to_nat offset) (dbuf_data s))) as Edd.
  { unfold d. rewrite <- Ed. unfold dbuf_data. rewrite Es. rewrite skipn_firstn_comm.
    rewrite take_take. f_equal. lia. }
  assert (zlen d = len) as Eld.
  { unfold d. rewrite zlen_take, zlen_drop. lia. }
  replace ((len =? 0) || (offset + len <=? size s)) with true.
  2: { symmetry. apply orb_true_iff. right. apply Z.leb_le. lia. }
  cbn [assert_ mbind res_bind].
  destruct (zwrite_append s1 d Hok1) as (b & Ew & Elen & Et & Hb); [lia |].
  rewrite Es in Ew. rewrite Ew. cbn. eexists _, _. split; [reflexivity |]. split.
  - split; cbn; rewrite ?wrap_small by lia; try lia.
    + destruct Hok1. lia.
    + apply Hb. unfold d. apply Forall_take, Forall_drop, Hb1.
  - left. split_and!; [done | | done]. unfold dbuf_data at 1. cbn.
    rewrite wrap_small by lia. rewrite <- Edd, <- Ed, <- Et, Eld, Es. done.
Qed.

(** Opening a gap of [len] bytes at [pos]. *)
Lemma dbuf_insert_spec s pos len :
  dbuf_ok s -> 0 <= pos <= size s -> 0 <= len -> size s + len < 2 ^ 64 ->
  exists s' r, dbuf_insert s pos len = Ret (s', r) /\ dbuf_ok s' /\
    ((r = 0 /\ error s' = error s /\ exists gap, zlen gap = len /\
       dbuf_data s' = take (Z.to_nat pos) (dbuf_data s) ++ gap ++
                      drop (Z.to_nat pos) (dbuf_data s)) \/
     (r = -1 /\ dbuf_data s' = dbuf_data s /\ error s' = true /\ refused s)).
Proof.
  intros Hok Hp Hl Hw. unfold dbuf_insert.
  pose proof (ok_size s Hok). rewrite wrap_small by lia.
  destruct (dbuf_grow_spec s (size s + len) Hok)
    as (s1 & r & _ & -> & Hok1 & Es & Ed & Hr); [lia |].
  destruct Hr as [(-> & Hle & He) | (-> & He)]; cbn [negb Z.eqb].
  2: { cbn. eexists _, _. split; [reflexivity |]. auto 10. }
  pose proof (ok_alloc s1 Hok1) as Ha1. pose proof (ok_bytes s1 Hok1) as Hb1.
  rewrite Es. rewrite zread_in by lia. cbn [of_opt mbind res_bind].
  set (d := take _ (drop _ (buf s1))).
  assert (d = drop (Z.to_nat pos) (dbuf_data s)) as Edd.
  { unfold d. rewrite <- Ed. unfold dbuf_data. rewrite Es, skipn_firstn_comm.
    f_equal. lia. }
  assert (zlen d = size s - pos) as Eld by (unfold d; rewrite zlen_take, zlen_drop; lia).
  rewrite zwrite_in by lia. cbn [of_opt mbind res_bind].
  eexists _, _. split; [reflexivity |]. split.
  - split; cbn; rewrite ?wrap_small by lia.
    + lia.
    + rewrite !zlen_app, zlen_take, zlen_drop, Eld. lia.
    + destruct Hok1. done.
    + apply Forall_app; split; [apply Forall_take, Hb1 |].
      apply Forall_app; split; [| apply Forall_drop, Hb1].
      unfold d. apply Forall_take, Forall_drop, Hb1.
  - left. split_and!; [done | done |].
    exists (take (Z.to_nat len) (drop (Z.to_nat pos) (buf s1))). split.
    { rewrite zlen_take, zlen_drop. lia. }
    unfold dbuf_data at 1. cbn. rewrite wrap_small by lia.
    rewrite (app_assoc (take (Z.to_nat (pos + len)) (buf s1))).
    rewrite take_app_length'.
    2: { rewrite length_app, length_take. unfold zlen in *. lia. }
    rewrite <- Edd, app_assoc. f_equal. rewrite <- Ed.
    unfold dbuf_data. rewrite Es, take_take.
    rewrite <- (take_drop (Z.to_nat pos) (take (Z.to_nat (pos + len)) (buf s1))).
    rewrite take_take, skipn_firstn_comm. f_equal; f_equal; lia.
Qed.

(** Overwriting inside the contents. *)
Lemma dbuf_write_spec s offset data :
  dbuf_ok s -> bytes_ok data -> 0 <= offset <= size s -> offset + zlen data < 2 ^ 64 ->
  exists s' r, dbuf_write s offset data = Ret (s', r) /\
    put_result s s' r
      (take (Z.to_nat offset) (dbuf_data s) ++ data ++
       drop (Z.to_nat (offset + zlen data)) (dbuf_data s)).
Proof.
  intros Hok Hd Ho Hw. unfold dbuf_write. pose proof (zlen_nonneg data).
  pose proof (ok_size s Hok). rewrite wrap_small by lia.
  destruct (dbuf_grow_spec s (offset + zlen data) Hok)
    as (s1 & r & _ & -> & Hok1 & Es & Ed & Hr); [lia |].
  destruct Hr as [(-> & Hle & He) | (-> & He)]; cbn [negb Z.eqb].
  2: { cbn. eexists _, _. split; [reflexivity |]. split; [done |]. auto. }
  pose proof (ok_alloc s1 Hok1) as Ha1. pose proof (ok_bytes s1 Hok1) as Hb1.
  pose proof (ok_size s1 Hok1) as Hs1.
  rewrite zwrite_in by lia. cbn [of_opt mbind res_bind].
  set (e := if size s1 <? _ then _ else _).
  assert (e = Z.max (size s) (offset + zlen data)) as Ee.
  { unfold e. rewrite Es. destruct (Z.ltb_spec (size s) (offset + zlen data)); lia. }
  eexists _, _. split; [reflexivity |]. split.
  - split; cbn.
    + lia.
    + rewrite !zlen_app, zlen_take, zlen_drop. lia.
    + destruct Hok1. done.
    + apply Forall_app; split; [apply Forall_take, Hb1 |].
      apply Forall_app; split; [done | apply Forall_drop, Hb1].
  - left. split_and!; [done | | done]. rewrite <- Ed. unfold dbuf_data. cbn.
    rewrite Ee, Es, take_take, skipn_firstn_comm.
    replace (Z.to_nat offset `min` Z.to_nat (size s))%nat with (Z.to_nat offset) by lia.
    assert (length (take (Z.to_nat offset) (buf s1)) = Z.to_nat offset) as El.
    { rewrite length_take. unfold zlen in *. lia. }
    rewrite take_app_ge by lia. f_equal. rewrite El.
    rewrite take_app_ge by (unfold zlen in *; lia). f_equal. f_equal.
    unfold zlen in *. lia.
Qed.
End dynbuf.

(** ** The theorems of dynamic buffers *)
Section theorems.
Context `{Realloc is_byte}.

(** A client that ignores the return codes, as the regexp compiler does. *)
Fixpoint dbuf_put_all (s : DynBuf) (chunks : list (list Z)) : res DynBuf :=
  match chunks with
  | [] => Ret s
  | d :: chunks => '(s, _) ← dbuf_put s d; dbuf_put_all s chunks
  end.

Lemma dbuf_put_all_spec chunks : forall s,
  dbuf_ok s -> Forall (fun d => bytes_ok d) chunks ->
  size s + zlen (concat chunks) < 2 ^ 64 ->
  exists s', dbuf_put_all s chunks = Ret s' /\ dbuf_ok s' /\
    (error s = true -> error s' = true) /\
    (error s' = false -> dbuf_data s' = dbuf_data s ++ concat chunks).
Proof.
  induction chunks as [| d chunks IH]; intros s Hok Hc Hw; cbn [dbuf_put_all concat].
  - exists s. rewrite app_nil_r. auto.
  - apply Forall_cons_iff in Hc as [Hd Hc]. cbn [concat] in Hw. rewrite zlen_app in Hw.
    destruct (dbuf_put_spec s d Hok Hd) as (s1 & r & -> & Hok1 & Hr); [zlen_lia |].
    cbn [mbind res_bind].
    assert (size s1 <= size s + zlen d) as Hsz.
    { rewrite <- (dbuf_data_zlen s1 Hok1), <- (dbuf_data_zlen s Hok).
      destruct Hr as [(_ & -> & _) | (_ & -> & _)]; zlen_lia. }
    destruct (IH s1 Hok1 Hc) as (s' & -> & Hok' & Hst & Hdata); [lia |].
    exists s'. split_and!; auto.
    + intros He. apply Hst. destruct Hr as [(_ & _ & ->) | (_ & _ & -> & _)]; done.
    + intros He. rewrite (Hdata He). destruct Hr as [(_ & -> & _) | (_ & _ & E1 & _)].
      * rewrite app_assoc. reflexivity.
      * rewrite (Hst E1) in He. discriminate He.
Qed.

(** the error flag is sticky, so a client may ignore every return code:
    after any sequence of [dbuf_put] calls on any allocator, if the flag is
    clear then the buffer holds exactly the concatenation of the chunks. *)
Theorem dbuf_sticky_error (s : DynBuf) (chunks : list (list Z)) :
  dbuf_ok s -> Forall (fun d => bytes_ok d) chunks ->
  size s + zlen (concat chunks) < 2 ^ 64 ->
  exists s', dbuf_put_all s chunks = Ret s' /\ dbuf_ok s' /\
    (dbuf_error s = true -> dbuf_error s' = true) /\
    (dbuf_error s' = false -> dbuf_data s' = dbuf_data s ++ concat chunks).
Proof. apply dbuf_put_all_spec. Qed.

(** C15: each operation refines its list counterpart on every allocator: it
    either yields the new contents, or fails with the error flag set and the
    contents as they were, and it fails only if the flag was set before or the
    allocator refused a request; the memory invariant holds in all cases. *)
Theorem dbuf_refines_lists (s : DynBuf) (data : list Z) (pos len : Z) :
  dbuf_ok s -> bytes_ok data -> 0 <= pos -> 0 <= len -> pos + len <= size s ->
  size s + len + zlen data < 2 ^ 64 ->
  let d := dbuf_data s in
  (exists s' r, dbuf_put s data = Ret (s', r) /\ put_result s s' r (d ++ data)) /\
  (exists s' r, dbuf_put_self s pos len = Ret (s', r) /\
     put_result s s' r (d ++ take (Z.to_nat len) (drop (Z.to_nat pos) d))) /\
  (exists s' r, dbuf_write s pos data = Ret (s', r) /\
     put_result s s' r
       (take (Z.to_nat pos) d ++ data ++ drop (Z.to_nat (pos + zlen data)) d)) /\
  (exists s' r gap, dbuf_insert s pos len = Ret (s', r) /\ zlen gap = len /\
     put_result s s' r (take (Z.to_nat pos) d ++ gap ++ drop (Z.to_nat pos) d)).
Proof.
  intros Hok Hd Hp Hl Hle Hw d. pose proof (zlen_nonneg data). split_and!.
  - apply dbuf_put_spec; auto; lia.
  - apply dbuf_put_self_spec; auto; lia.
  - apply dbuf_write_spec; auto; lia.
  - destruct (dbuf_insert_spec s pos len Hok) as
      (s' & r & E & Hok' & [(Er & Ee & gap & Eg & Ed) | (Er & Ed & Ee)]); [lia | lia | lia | |].
    + exists s', r, gap. split_and!; auto. split; auto.
    + exists s', r, (replicate (Z.to_nat len) 0). split_and!; auto.
      * rewrite zlen_replicate. lia.
      * split; auto.
Qed.
End theorems.

Lemma dbuf_sticky_error_witness :
  exists s', @dbuf_put_all (limited_bytes 4) dbuf_init2 [[1; 2]; [3; 4; 5]; [6]] = Ret s' /\
    dbuf_ok s' /\
    (dbuf_error dbuf_init2 = true -> dbuf_error s' = true) /\
    (dbuf_error s' = false ->
     dbuf_data s' = dbuf_data dbuf_init2 ++ concat [[1; 2]; [3; 4; 5]; [6]]).
Proof.
  apply (@dbuf_sticky_error (limited_bytes 4)).
  - apply dbuf_init_ok.
  - repeat constructor; unfold is_byte; lia.
  - vm_compute. reflexivity.
Defined.

Definition sample_buffer : DynBuf := mkDynBuf [1; 2; 3; 4; 0; 0] 4 6 false.

Lemma sample_buffer_ok : dbuf_ok sample_buffer.
Proof. split; cbn; [lia | reflexivity | lia | repeat constructor; unfold is_byte; lia]. Qed.

Lemma dbuf_refines_lists_witness :
  let d := dbuf_data sample_buffer in
  (exists s' r, @dbuf_put (limited_bytes 100) sample_buffer [9] = Ret (s', r) /\
     @put_result (limited_bytes 100) sample_buffer s' r (d ++ [9])) /\
  (exists s' r, @dbuf_put_self (limited_bytes 100) sample_buffer 1 2 = Ret (s', r) /\
     @put_result (limited_bytes 100) sample_buffer s' r (d ++ take (Z.to_nat 2) (drop (Z.to_nat 1) d))) /\
  (exists s' r, @dbuf_write (limited_bytes 100) sample_buffer 1 [9] = Ret (s', r) /\
     @put_result (limited_bytes 100) sample_buffer s' r
       (take (Z.to_nat 1) d ++ [9] ++ drop (Z.to_nat (1 + zlen [9])) d)) /\
  (exists s' r gap, @dbuf_insert (limited_bytes 100) sample_buffer 1 2 = Ret (s', r) /\ zlen gap = 2 /\
     @put_result (limited_bytes 100) sample_buffer s' r (take (Z.to_nat 1) d ++ gap ++ drop (Z.to_nat 1) d)).
Proof.
  apply (@dbuf_refines_lists (limited_bytes 100) sample_buffer [9] 1 2).
  - apply sample_buffer_ok.
  - repeat constructor; unfold is_byte; lia.
  - lia.
  - lia.
  - cbn. lia.
  - vm_compute. reflexivity.
Defined.
