(* ===== verification/CharRange.v ===== *)
(** * libunicode.c, libunicode.h: character ranges ([CharRange])

    A range is an array of points [lo0; hi0; lo1; hi1; ...]: the set of the
    [c] with [lo_k <= c < hi_k] for some [k].  [points] is the memory block, of
    which the first [len] elements are the contents.  [int] overflow of a size
    computation is undefined behaviour, hence a [Fault]. *)
From Stdlib Require Import ZArith Lia Bool Sorted.
From stdpp Require Import base numbers list.
From S2P Require Import Prelude Alloc Cutils.

Record CharRange : Type := mkCharRange {
  cr_len : Z;
  cr_size : Z;
  cr_points : list Z
}.

Inductive CharRangeOp : Type := CR_OP_UNION | CR_OP_INTER | CR_OP_XOR.

(** An [int] result that did not overflow. *)
Definition int_ok (z : Z) : res Z :=
  if (- 2147483648 <=? z) && (z <=? 2147483647) then Ret z else Fault.

Section cr.
Context `{Realloc is_u32}.

Definition cr_init : CharRange := mkCharRange 0 0 [].

Definition cr_realloc (cr : CharRange) (size : Z) : res (CharRange * Z) :=
  if cr_size cr <? size then
    t ← int_ok (cr_size cr * 3);
    let new_size := max_int size (Z.quot t 2) in
    match realloc_func (cr_points cr) new_size with
    | None => Ret (cr, -1)
    | Some new_buf => Ret (mkCharRange (cr_len cr) new_size new_buf, 0)
    end
  else Ret (cr, 0).

Definition cr_copy (cr cr1 : CharRange) : res (CharRange * Z) :=
  '(cr, r) ← cr_realloc cr (cr_len cr1);
  if negb (r =? 0) then Ret (cr, -1)
  else
    data ← of_opt (zread (cr_points cr1) 0 (cr_len cr1));
    pts ← of_opt (zwrite (cr_points cr) 0 data);
    Ret (mkCharRange (cr_len cr1) (cr_size cr) pts, 0).

Definition cr_add_point (cr : CharRange) (v : Z) : res (CharRange * Z) :=
  '(cr, r) ← (if cr_size cr <=? cr_len cr
              then n ← int_ok (cr_len cr + 1); cr_realloc cr n else Ret (cr, 0));
  if negb (r =? 0) then Ret (cr, -1)
  else
    pts ← of_opt (zupd (cr_points cr) (cr_len cr) v);
    Ret (mkCharRange (cr_len cr + 1) (cr_size cr) pts, 0).

Definition cr_add_interval (cr : CharRange) (c1 c2 : Z) : res (CharRange * Z) :=
  n ← int_ok (cr_len cr + 2);
  '(cr, r) ← (if cr_size cr <? n then cr_realloc cr n else Ret (cr, 0));
  if negb (r =? 0) then Ret (cr, -1)
  else
    pts ← of_opt (zupd (cr_points cr) (cr_len cr) c1);
    pts ← of_opt (zupd pts (cr_len cr + 1) c2);
    Ret (mkCharRange (cr_len cr + 2) (cr_size cr) pts, 0).

(** [while ((j + 3) < len && pt[j + 1] == pt[j + 2]) j += 2;] *)
Fixpoint compress_run (fuel : nat) (pt : list Z) (len j : Z) : res Z :=
  match fuel with
  | O => NoFuel
  | S fuel =>
      if j + 3 <? len then
        a ← of_opt (znth pt (j + 1));
        b ← of_opt (znth pt (j + 2));
        if a =? b then compress_run fuel pt len (j + 2) else Ret j
      else Ret j
  end.

(** The outer loop; returns the array and [k]. *)
Fixpoint compress_loop (fuel : nat) (pt : list Z) (len i k : Z) : res (list Z * Z) :=
  match fuel with
  | O => NoFuel
  | S fuel =>
      if i + 1 <? len then
        a ← of_opt (znth pt i);
        b ← of_opt (znth pt (i + 1));
        if a =? b then compress_loop fuel pt len (i + 2) k
        else
          j ← compress_run (Z.to_nat len) pt len i;
          x ← of_opt (znth pt i);
          pt ← of_opt (zupd pt k x);
          y ← of_opt (znth pt (j + 1));
          pt ← of_opt (zupd pt (k + 1) y);
          compress_loop fuel pt len (j + 2) (k + 2)
      else Ret (pt, k)
  end.

(** merge consecutive intervals and remove empty intervals *)
Definition cr_compress (cr : CharRange) : res CharRange :=
  '(pt, k) ← compress_loop (S (Z.to_nat (cr_len cr))) (cr_points cr) (cr_len cr) 0 0;
  Ret (mkCharRange k (cr_size cr) pt).

Definition cr_op_bits (op : CharRangeOp) (a b : Z) : Z :=
  match op with
  | CR_OP_UNION => Z.lor (Z.land a 1) (Z.land b 1)
  | CR_OP_INTER => Z.land (Z.land a 1) (Z.land b 1)
  | CR_OP_XOR => Z.lxor (Z.land a 1) (Z.land b 1)
  end.

(** One more point from [a] or [b] in increasing order: the point and the two
    indexes after it, [None] at the end of both. *)
Definition cr_next (a : list Z) (a_len : Z) (b : list Z) (b_len a_idx b_idx : Z)
  : res (option (Z * Z * Z)) :=
  if (a_idx <? a_len) && (b_idx <? b_len) then
    x ← of_opt (znth a a_idx);
    y ← of_opt (znth b b_idx);
    if x <? y then Ret (Some (x, a_idx + 1, b_idx))
    else if x =? y then Ret (Some (x, a_idx + 1, b_idx + 1))
    else Ret (Some (y, a_idx, b_idx + 1))
  else if a_idx <? a_len then
    x ← of_opt (znth a a_idx); Ret (Some (x, a_idx + 1, b_idx))
  else if b_idx <? b_len then
    y ← of_opt (znth b b_idx); Ret (Some (y, a_idx, b_idx + 1))
  else Ret None.

Fixpoint cr_op_loop (fuel : nat) (cr : CharRange) (a : list Z) (a_len : Z)
    (b : list Z) (b_len : Z) (op : CharRangeOp) (a_idx b_idx : Z) : res (CharRange * Z) :=
  match fuel with
  | O => NoFuel
  | S fuel =>
      nx ← cr_next a a_len b b_len a_idx b_idx;
      match nx with
      | None => Ret (cr, 0)
      | Some (v, a_idx, b_idx) =>
          (* add the point if the in/out status changes *)
          if negb (cr_op_bits op a_idx b_idx =? Z.land (cr_len cr) 1) then
            '(cr, r) ← cr_add_point cr v;
            if negb (r =? 0) then Ret (cr, -1)
            else cr_op_loop fuel cr a a_len b b_len op a_idx b_idx
          else cr_op_loop fuel cr a a_len b b_len op a_idx b_idx
      end
  end.

(** union or intersection *)
Definition cr_op (cr : CharRange) (a_pt : list Z) (a_len : Z) (b_pt : list Z) (b_len : Z)
    (op : CharRangeOp) : res (CharRange * Z) :=
  '(cr, r) ← cr_op_loop (S (Z.to_nat (a_len + b_len))) cr a_pt a_len b_pt b_len op 0 0;
  if negb (r =? 0) then Ret (cr, -1)
  else cr ← cr_compress cr; Ret (cr, 0).

Definition cr_union1 (cr : CharRange) (b_pt : list Z) (b_len : Z) : res (CharRange * Z) :=
  let a := cr in
  cr_op (mkCharRange 0 0 []) (cr_points a) (cr_len a) b_pt b_len CR_OP_UNION.

Definition cr_union_interval (cr : CharRange) (c1 c2 : Z) : res (CharRange * Z) :=
  cr_union1 cr [c1; u32 (c2 + 1)] 2.

Definition cr_invert (cr : CharRange) : res (CharRange * Z) :=
  let len := cr_len cr in
  n ← int_ok (len + 2);
  '(cr, r) ← cr_realloc cr n;
  if negb (r =? 0) then Ret (cr, -1)
  else
    data ← of_opt (zread (cr_points cr) 0 len);
    pts ← of_opt (zwrite (cr_points cr) 1 data);
    pts ← of_opt (zupd pts 0 0);
    pts ← of_opt (zupd pts (len + 1) UINT32_MAX);
    cr ← cr_compress (mkCharRange (len + 2) (cr_size cr) pts);
    Ret (cr, 0).
End cr.

Definition cr_contents (cr : CharRange) : list Z := take (Z.to_nat (cr_len cr)) (cr_points cr).

Example cr_ex :
  (let al := limited_words 100 in
   '(cr, _) ← cr_union_interval cr_init 10 20;
   '(cr, _) ← cr_union_interval cr 30 40;
   '(cr, _) ← cr_union_interval cr 15 35;
   '(cr, _) ← cr_invert cr;
   Ret (cr_contents cr)) = Ret [0; 10; 41; 4294967295].
Proof. vm_compute. reflexivity. Qed.
