(* ===== verification/CharRangeFacts.v ===== *)
(** * The set semantics of character ranges (libunicode.c)

    [cr_op], [cr_union1], [cr_union_interval] and [cr_invert] compute the
    union, intersection, symmetric difference and complement of the sets their
    arguments denote, and leave the points strictly increasing. *)
From Stdlib Require Import ZArith Lia Bool Sorted.
From stdpp Require Import base numbers list.
From S2P Require Import Prelude Alloc Cutils CharRange.

(** Weaken an arithmetic [Forall]. *)
Ltac forall_lia H := eapply list.Forall_impl; [exact H |]; cbn; intros; lia.

(** ** Sets of points *)

(** The set an array of points denotes. *)
Fixpoint in_ranges (pts : list Z) (c : Z) : Prop :=
  match pts with
  | lo :: hi :: pts => lo <= c < hi \/ in_ranges pts c
  | _ => False
  end.

Definition sorted_le (pts : list Z) : Prop := StronglySorted Z.le pts.
Definition sorted_lt (pts : list Z) : Prop := StronglySorted Z.lt pts.

(** The status of [c] by counting points, as [cr_op] does. *)
Fixpoint mem (pts : list Z) (c : Z) : bool :=
  match pts with
  | [] => false
  | p :: pts => xorb (p <=? c) (mem pts c)
  end.

Lemma mem_app a b c : mem (a ++ b) c = xorb (mem a c) (mem b c).
Proof.
  induction a as [| p a IH]; cbn [app mem]; [by destruct (mem b c) |].
  rewrite IH. symmetry. apply xorb_assoc_reverse.
Qed.

Lemma mem_below pts c : Forall (fun p => c < p) pts -> mem pts c = false.
Proof.
  induction 1 as [| p pts Hp _ IH]; cbn [mem]; [done |]. rewrite IH.
  destruct (Z.leb_spec p c); [lia | done].
Qed.

Lemma mem_above pts c : Forall (fun p => p <= c) pts -> mem pts c = Z.odd (zlen pts).
Proof.
  induction 1 as [| p pts Hp _ IH]; cbn [mem]; [done |].
  rewrite IH, zlen_cons, Z.odd_add. destruct (Z.leb_spec p c); [done | lia].
Qed.

Lemma sorted_le_cons p pts : sorted_le (p :: pts) <-> sorted_le pts /\ Forall (Z.le p) pts.
Proof.
  split; [intros Hs; inversion Hs; auto | intros [? ?]; constructor; auto].
Qed.

Lemma sorted_le_app a b :
  sorted_le (a ++ b) <->
  sorted_le a /\ sorted_le b /\ Forall (fun p => Forall (Z.le p) b) a.
Proof.
  induction a as [| p a IH]; cbn [app].
  - split; [intros ?; split_and!; try constructor; done | tauto].
  - rewrite !sorted_le_cons, IH, Forall_app, Forall_cons_iff. tauto.
Qed.

Lemma sorted_lt_le pts : sorted_lt pts -> sorted_le pts.
Proof.
  induction 1 as [| p pts _ IH Hp]; constructor; [done |].
  forall_lia Hp.
Qed.

(** On sorted points the two readings of an array agree. *)
Lemma mem_in_ranges pts c :
  sorted_le pts -> Z.even (zlen pts) = true -> mem pts c = true <-> in_ranges pts c.
Proof.
  intros Hs. remember (length pts) as n eqn:En.
  revert pts En Hs. induction (lt_wf n) as [n _ IH]. intros pts -> Hs He.
  destruct pts as [| lo [| hi pts]]; [cbn; intuition discriminate | discriminate He |].
  apply sorted_le_cons in Hs as [Hs Hlo]. pose proof Hs as Hs'.
  apply sorted_le_cons in Hs as [Hs Hhi].
  cbn [mem in_ranges]. apply Forall_cons_iff in Hlo as [Hlh _].
  assert (Z.even (zlen pts) = true) as He'.
  { rewrite !zlen_cons in He. rewrite <- He. replace (1 + (1 + zlen pts)) with (zlen pts + 2) by lia.
    rewrite Z.even_add. by destruct (Z.even (zlen pts)). }
  specialize (IH (length pts) ltac:(cbn; lia) pts eq_refl Hs He').
  destruct (Z.leb_spec lo c), (Z.leb_spec hi c); cbn; rewrite <- ?IH.
  - destruct (mem pts c); cbn; intuition (lia || congruence).
  - rewrite mem_below; [cbn; intuition lia |].
    forall_lia Hhi.
  - lia.
  - rewrite mem_below; [cbn; intuition (lia || congruence) |].
    forall_lia Hhi.
Qed.

(** ** The merge step of [cr_op] *)
Definition cr_bool (op : CharRangeOp) (x y : bool) : bool :=
  match op with
  | CR_OP_UNION => x || y
  | CR_OP_INTER => x && y
  | CR_OP_XOR => xorb x y
  end.

Lemma land_1_odd z : Z.land z 1 = Z.b2z (Z.odd z).
Proof. change 1 with (Z.ones 1). rewrite Z.land_ones by lia. apply Zmod_odd. Qed.

Lemma cr_op_bits_odd op i j :
  cr_op_bits op i j = Z.b2z (cr_bool op (Z.odd i) (Z.odd j)).
Proof.
  unfold cr_op_bits. rewrite !land_1_odd.
  destruct op, (Z.odd i), (Z.odd j); reflexivity.
Qed.

(** Invariant of the loop: [o] are the points stored so far, [a1], [b1] the
    points consumed. *)
Record merge_inv (op : CharRangeOp) (o a1 b1 : list Z) : Prop := {
  mi_sorted : sorted_le o;
  mi_parity : Z.odd (zlen o) = cr_bool op (Z.odd (zlen a1)) (Z.odd (zlen b1));
  mi_mem : forall c, mem o c = cr_bool op (mem a1 c) (mem b1 c)
}.

Lemma sorted_le_snoc o v : sorted_le o -> Forall (fun p => p <= v) o -> sorted_le (o ++ [v]).
Proof.
  intros Hs Hv. apply sorted_le_app. split_and!; [done | repeat constructor |].
  eapply list.Forall_impl; [exact Hv |]. intros p Hp. repeat constructor. exact Hp.
Qed.

Lemma odd_snoc {A} (o : list A) v : Z.odd (zlen (o ++ [v])) = negb (Z.odd (zlen o)).
Proof. rewrite zlen_app, Z.odd_add. cbn. by destruct (Z.odd (zlen o)). Qed.

(** The status before the point [v] is unchanged, and from [v] on all points
    count. *)
Lemma mem_extend pts ext v c :
  ext = [] \/ ext = [v] -> Forall (fun p => p <= v) pts ->
  mem (pts ++ ext) c = if v <=? c then Z.odd (zlen (pts ++ ext)) else mem pts c.
Proof.
  intros He Hp. destruct (Z.leb_spec v c).
  - apply mem_above. apply Forall_app; split.
    + forall_lia Hp.
    + destruct He as [-> | ->]; repeat constructor; lia.
  - rewrite mem_app. destruct He as [-> | ->]; cbn.
    + apply xorb_false_r.
    + destruct (Z.leb_spec v c); [lia |]. apply xorb_false_r.
Qed.

Lemma merge_step op o a1 b1 v ea eb :
  merge_inv op o a1 b1 ->
  Forall (fun p => p <= v) o -> Forall (fun p => p <= v) a1 -> Forall (fun p => p <= v) b1 ->
  (ea = [] \/ ea = [v]) -> (eb = [] \/ eb = [v]) ->
  let in_ := cr_bool op (Z.odd (zlen (a1 ++ ea))) (Z.odd (zlen (b1 ++ eb))) in
  merge_inv op (o ++ if eqb in_ (Z.odd (zlen o)) then [] else [v]) (a1 ++ ea) (b1 ++ eb).
Proof.
  intros [Hs Hpar Hmem] Ho Ha Hb Hea Heb in_.
  set (eo := if eqb in_ (Z.odd (zlen o)) then [] else [v]).
  assert (eo = [] \/ eo = [v]) as Heo by (unfold eo; destruct eqb; auto).
  assert (Z.odd (zlen (o ++ eo)) = in_) as Hpar'.
  { unfold eo. destruct (eqb in_ (Z.odd (zlen o))) eqn:Ee.
    - rewrite app_nil_r. symmetry. apply eqb_prop, Ee.
    - rewrite odd_snoc. apply eqb_false_iff in Ee. by destruct in_, (Z.odd (zlen o)). }
  split.
  - destruct Heo as [-> | ->]; [rewrite app_nil_r; done | apply sorted_le_snoc; done].
  - exact Hpar'.
  - intros c. rewrite (mem_extend o eo v), (mem_extend a1 ea v), (mem_extend b1 eb v) by done.
    destruct (v <=? c); [exact Hpar' | apply Hmem].
Qed.

(** ** Memory invariant *)

(** At most [MAX_POINTS] points: enough for every code point to be alone in
    its range, and no size computation overflows an [int]. *)
Definition MAX_POINTS : Z := 2 ^ 28.

Record cr_ok (cr : CharRange) : Prop := {
  cr_ok_len : 0 <= cr_len cr <= cr_size cr;
  cr_ok_points : zlen (cr_points cr) = cr_size cr;
  cr_ok_size : cr_size cr <= 2 ^ 29
}.

Lemma cr_contents_zlen cr : cr_ok cr -> zlen (cr_contents cr) = cr_len cr.
Proof. intros []. unfold cr_contents. rewrite zlen_take. lia. Qed.

Lemma cr_init_ok : cr_ok cr_init.
Proof. split; cbn; [lia | reflexivity | lia]. Qed.

Lemma int_ok_in z : - 2 ^ 31 <= z < 2 ^ 31 -> int_ok z = Ret z.
Proof.
  intros. unfold int_ok.
  destruct (Z.leb_spec (-2147483648) z), (Z.leb_spec z 2147483647); cbn; done || lia.
Qed.

Lemma take_prefix_le {A} (l k : list A) n : l `prefix_of` k -> (n <= length l)%nat -> take n k = take n l.
Proof. intros [t ->] Hn. apply take_app_le, Hn. Qed.

Section facts.
Context `{Realloc is_u32}.

(** The only failure is the allocator's. *)
Definition oom (r : Z) : Prop :=
  r = -1 /\ exists buf n, 0 <= n <= 2 ^ 29 /\ realloc_func buf n = None.

Lemma cr_realloc_spec cr n :
  cr_ok cr -> 0 <= n <= MAX_POINTS + 2 ->
  exists cr' r, cr_realloc cr n = Ret (cr', r) /\ cr_ok cr' /\
    cr_contents cr' = cr_contents cr /\ cr_len cr' = cr_len cr /\
    ((r = 0 /\ n <= cr_size cr') \/ oom r).
Proof.
  intros Hok Hn. unfold MAX_POINTS in Hn. pose proof Hok as [Hl Hp Hs].
  unfold cr_realloc. destruct (Z.ltb_spec (cr_size cr) n) as [Hlt | Hge].
  - rewrite int_ok_in by lia. cbn [mbind res_bind].
    rewrite Z.quot_div_nonneg by lia.
    set (n' := max_int n (cr_size cr * 3 / 2)).
    assert (n <= n' <= 2 ^ 29 /\ cr_size cr <= n') as [Hn' Hn''].
    { unfold n', max_int. destruct (Z.ltb_spec (cr_size cr * 3 / 2) n); zdiv_lia. }
    destruct (realloc_func (cr_points cr) n') as [b |] eqn:Er.
    + pose proof (realloc_zlen (cr_points cr) n' b ltac:(lia) Er).
      pose proof (realloc_prefix (cr_points cr) n' b ltac:(lia) Er) as Hpre.
      eexists _, _. split; [reflexivity |]. split_and!; cbn; auto; [split; cbn; lia | | lia].
      unfold cr_contents. cbn. apply take_prefix_le; [done |]. unfold zlen in *. lia.
    + eexists _, _. split; [reflexivity |]. split_and!; auto.
      right. split; [done |]. exists (cr_points cr), n'. split; [lia | done].
  - eexists _, _. split; [reflexivity |]. auto 10.
Qed.

Lemma zupd_contents cr pts v :
  cr_ok cr -> zupd (cr_points cr) (cr_len cr) v = Some pts ->
  take (Z.to_nat (cr_len cr + 1)) pts = cr_contents cr ++ [v].
Proof.
  intros [Hl Hp Hs] [Hi ->]%zupd_Some. unfold cr_contents.
  replace (Z.to_nat (cr_len cr + 1)) with (S (Z.to_nat (cr_len cr))) by lia.
  rewrite take_S_r with (x := v).
  - rewrite take_insert_ge by lia. reflexivity.
  - apply list_lookup_insert_eq. unfold zlen in *. lia.
Qed.

Lemma cr_add_point_spec cr v :
  cr_ok cr -> cr_len cr < MAX_POINTS + 2 ->
  exists cr' r, cr_add_point cr v = Ret (cr', r) /\ cr_ok cr' /\
    ((r = 0 /\ cr_contents cr' = cr_contents cr ++ [v] /\ cr_len cr' = cr_len cr + 1) \/ oom r).
Proof.
  intros Hok Hlen. unfold MAX_POINTS in Hlen. pose proof Hok as [Hl _ _]. unfold cr_add_point.
  assert (exists cr1 r, (if cr_size cr <=? cr_len cr
            then n ← int_ok (cr_len cr + 1); cr_realloc cr n else Ret (cr, 0)) = Ret (cr1, r) /\
          cr_ok cr1 /\ cr_contents cr1 = cr_contents cr /\ cr_len cr1 = cr_len cr /\
          ((r = 0 /\ cr_len cr < cr_size cr1) \/ oom r)) as (cr1 & r & -> & Hok1 & Ec & El & Hr).
  { destruct (Z.leb_spec (cr_size cr) (cr_len cr)).
    - rewrite int_ok_in by lia. cbn [mbind res_bind].
      destruct (cr_realloc_spec cr (cr_len cr + 1) Hok) as (cr1 & r & E & ? & ? & ? & Hr).
      { unfold MAX_POINTS. lia. }
      exists cr1, r. split_and!; auto. destruct Hr as [[-> ?] | ?]; [left; lia | auto].
    - eexists _, _. split; [reflexivity |]. auto 10. }
  cbn [mbind res_bind]. destruct Hr as [[-> Hlt] | Ho]; [| pose proof Ho as [-> _]]; cbn [negb Z.eqb].
  2: { eexists _, _. split; [reflexivity |]. auto. }
  pose proof Hok1 as [Hl1 Hp1 Hs1].
  destruct (zupd_is_Some (cr_points cr1) (cr_len cr1) v) as [pts Eu]; [lia |].
  rewrite Eu. cbn. eexists _, _. split; [reflexivity |]. split.
  - split; cbn; [lia | | lia]. rewrite (zupd_zlen _ _ _ _ Eu). done.
  - left. split_and!; [done | | cbn; lia]. rewrite <- Ec. apply zupd_contents; done.
Qed.

(** ** The loop of [cr_op] *)
Lemma znth_mid (a1 a2 : list Z) : znth (a1 ++ a2) (zlen a1) = head a2.
Proof.
  destruct a2 as [| x a2].
  - rewrite app_nil_r. apply znth_ge_None. lia.
  - rewrite znth_app_r by lia. rewrite Z.sub_diag. reflexivity.
Qed.

(** [cr_next] takes the smallest point left. *)
Lemma cr_next_spec a1 a2 b1 b2 :
  sorted_le a2 -> sorted_le b2 ->
  cr_next (a1 ++ a2) (zlen (a1 ++ a2)) (b1 ++ b2) (zlen (b1 ++ b2)) (zlen a1) (zlen b1) =
    Ret None /\ a2 = [] /\ b2 = [] \/
  exists v ea eb a2' b2',
    cr_next (a1 ++ a2) (zlen (a1 ++ a2)) (b1 ++ b2) (zlen (b1 ++ b2)) (zlen a1) (zlen b1) =
      Ret (Some (v, zlen (a1 ++ ea), zlen (b1 ++ eb))) /\
    a2 = ea ++ a2' /\ b2 = eb ++ b2' /\ (ea = [] \/ ea = [v]) /\ (eb = [] \/ eb = [v]) /\
    (ea = [v] \/ eb = [v]) /\
    Forall (Z.le v) a2' /\ Forall (Z.le v) b2' /\ (v ∈ a2 \/ v ∈ b2).
Proof.
  intros Ha Hb. unfold cr_next. rewrite !znth_mid, !zlen_app.
  destruct a2 as [| x a2], b2 as [| y b2]; rewrite ?zlen_nil, ?zlen_cons;
    cbn [head of_opt mbind res_bind];
    try (apply sorted_le_cons in Ha as [_ Hx]); try (apply sorted_le_cons in Hb as [_ Hy]).
  - left. rewrite !Z.add_0_r, !Z.ltb_irrefl. done.
  - right. exists y, [], [y], [], b2. rewrite Z.add_0_r, Z.ltb_irrefl. cbn [andb].
    rewrite (proj2 (Z.ltb_lt (zlen b1) _)) by zlen_lia. rewrite app_nil_r.
    split_and!; auto; [do 3 f_equal; zlen_lia |]. right. left.
  - right. exists x, [x], [], a2, []. rewrite Z.add_0_r, Z.ltb_irrefl, andb_false_r.
    rewrite (proj2 (Z.ltb_lt (zlen a1) _)) by zlen_lia. rewrite app_nil_r.
    split_and!; auto; [do 4 f_equal; zlen_lia |]. left. left.
  - right. rewrite (proj2 (Z.ltb_lt (zlen a1) _)) by zlen_lia.
    rewrite (proj2 (Z.ltb_lt (zlen b1) _)) by zlen_lia. cbn [andb].
    destruct (Z.ltb_spec x y); [| destruct (Z.eqb_spec x y) as [-> |]].
    + exists x, [x], [], a2, (y :: b2). rewrite app_nil_r.
      split_and!; auto; [do 4 f_equal; zlen_lia | | left; left].
      constructor; [lia |]. forall_lia Hy.
    + exists y, [y], [y], a2, b2.
      split_and!; auto; [do 4 f_equal; zlen_lia |]. left. left.
    + exists y, [], [y], (x :: a2), b2. rewrite app_nil_r.
      split_and!; auto; [do 4 f_equal; zlen_lia | | right; left].
      constructor; [lia |]. forall_lia Hx.
Qed.

(** The points consumed or stored are below the points left. *)
Definition below (l r : list Z) : Prop := Forall (fun p => Forall (Z.le p) r) l.

Lemma below_nil_l r : below [] r.
Proof. constructor. Qed.

Lemma below_app_l a b r : below (a ++ b) r <-> below a r /\ below b r.
Proof. apply Forall_app. Qed.

Lemma below_app_r a r s : below a (r ++ s) <-> below a r /\ below a s.
Proof.
  unfold below. rewrite !list.Forall_forall. setoid_rewrite Forall_app.
  split; [intros Hp; split; intros p Hin; apply (Hp p Hin) | intros [Hl Hr] p Hin; auto].
Qed.

Lemma below_in a r v : below a r -> v ∈ r -> Forall (fun p => p <= v) a.
Proof.
  intros Hb Hv. eapply list.Forall_impl; [exact Hb |].
  cbn. intros p Hp. rewrite list.Forall_forall in Hp. apply Hp, Hv.
Qed.

Lemma below_single v r : Forall (Z.le v) r -> below [v] r.
Proof. repeat constructor. done. Qed.

Lemma below_opt ea v r : ea = [] \/ ea = [v] -> Forall (Z.le v) r -> below ea r.
Proof. intros [-> | ->] Hv; [apply below_nil_l | apply below_single, Hv]. Qed.

Lemma land_1_parity a b : (Z.b2z a =? Z.land b 1) = eqb a (Z.odd b).
Proof. rewrite land_1_odd. by destruct a, (Z.odd b). Qed.

Lemma cr_op_loop_spec op fuel : forall cr a1 a2 b1 b2,
  cr_ok cr -> merge_inv op (cr_contents cr) a1 b1 ->
  sorted_le a2 -> sorted_le b2 ->
  below (cr_contents cr ++ a1 ++ b1) (a2 ++ b2) ->
  cr_len cr + zlen a2 + zlen b2 <= MAX_POINTS ->
  (length a2 + length b2 < fuel)%nat ->
  exists cr' r,
    cr_op_loop fuel cr (a1 ++ a2) (zlen (a1 ++ a2)) (b1 ++ b2) (zlen (b1 ++ b2)) op
      (zlen a1) (zlen b1) = Ret (cr', r) /\ cr_ok cr' /\
    ((r = 0 /\ merge_inv op (cr_contents cr') (a1 ++ a2) (b1 ++ b2) /\
      cr_len cr' <= cr_len cr + zlen a2 + zlen b2) \/ oom r).
Proof.
  induction fuel as [| fuel IH]; intros cr a1 a2 b1 b2 Hok Hinv Ha Hb Hbel Hmax Hf; [lia |].
  cbn [cr_op_loop]. pose proof (cr_contents_zlen cr Hok) as Hlen.
  destruct (cr_next_spec a1 a2 b1 b2 Ha Hb)
    as [(-> & -> & ->) | (v & ea & eb & a2' & b2' & -> & -> & -> & Hea & Heb & Hne & Hva & Hvb & Hin)].
  { cbn [mbind res_bind]. eexists _, _. split; [reflexivity |]. rewrite !app_nil_r.
    split; [done |]. left. split_and!; [done | done | zlen_lia]. }
  cbn [mbind res_bind]. rewrite cr_op_bits_odd, land_1_parity, <- Hlen.
  assert (v ∈ (ea ++ a2') ++ eb ++ b2') as Hin' by (rewrite elem_of_app; exact Hin).
  pose proof (below_in _ _ _ Hbel Hin') as Hle. rewrite !Forall_app in Hle.
  destruct Hle as (Hle1 & Hle2 & Hle3).
  pose proof (merge_step op _ a1 b1 v ea eb Hinv Hle1 Hle2 Hle3 Hea Heb) as Hstep.
  cbn zeta in Hstep.
  apply sorted_le_app in Ha as (_ & Ha & _). apply sorted_le_app in Hb as (_ & Hb & _).
  assert (below (cr_contents cr ++ (a1 ++ ea) ++ b1 ++ eb) (a2' ++ b2')) as Hbel'.
  { rewrite !below_app_l, !below_app_r in *.
    pose proof (below_opt ea v a2' Hea Hva). pose proof (below_opt ea v b2' Hea Hvb).
    pose proof (below_opt eb v a2' Heb Hva). pose proof (below_opt eb v b2' Heb Hvb). tauto. }
  assert (length ea + length eb >= 1)%nat by (destruct Hne as [-> | ->]; cbn; lia).
  rewrite !length_app in Hf. rewrite !app_assoc.
  destruct (eqb _ (Z.odd (zlen (cr_contents cr)))) eqn:Ee; cbn [negb].
  - rewrite app_nil_r in Hstep. rewrite !zlen_app in Hmax.
    pose proof (zlen_nonneg ea). pose proof (zlen_nonneg eb).
    destruct (IH cr (a1 ++ ea) a2' (b1 ++ eb) b2') as (cr' & r & E & Hok' & Hr); auto; [lia | lia |].
    exists cr', r. split_and!; [exact E | done |].
    destruct Hr as [(? & ? & ?) | ?]; [left | auto]. split_and!; [done | done | zlen_lia].
  - assert (zlen ea + zlen eb >= 1) by (unfold zlen; lia). rewrite !zlen_app in Hmax.
    pose proof (zlen_nonneg ea). pose proof (zlen_nonneg eb).
    pose proof (zlen_nonneg a2'). pose proof (zlen_nonneg b2').
    destruct (cr_add_point_spec cr v Hok) as (cr1 & r & -> & Hok1 & Hr); [lia |].
    cbn [mbind res_bind].
    destruct Hr as [(-> & Ec & El) | Ho]; [| pose proof Ho as [-> _]]; cbn [negb Z.eqb].
    2: { eexists _, _. split; [reflexivity |]. auto. }
    rewrite <- Ec in Hstep.
    destruct (IH cr1 (a1 ++ ea) a2' (b1 ++ eb) b2') as (cr' & r & E & Hok' & Hr); auto.
    + rewrite Ec, !below_app_l. rewrite !below_app_l in Hbel'.
      split_and!; try tauto. apply below_single. apply Forall_app. done.
    + lia.
    + lia.
    + exists cr', r. split_and!; [exact E | done |].
      destruct Hr as [(? & ? & ?) | ?]; [left | auto]. split_and!; [done | done |].
      rewrite !zlen_app. lia.
Qed.


(** ** [cr_compress] *)

(** Reading the array [pre ++ x :: y :: ...] around [zlen pre]. *)
Lemma znth_at {A} (pre : list A) x r : znth (pre ++ x :: r) (zlen pre) = Some x.
Proof. rewrite znth_app_r, Z.sub_diag by lia. reflexivity. Qed.

Lemma znth_at1 {A} (pre : list A) x y r : znth (pre ++ x :: y :: r) (zlen pre + 1) = Some y.
Proof. rewrite znth_app_r by lia. replace (zlen pre + 1 - zlen pre) with 1 by lia. reflexivity. Qed.

Lemma znth_at2 {A} (pre : list A) x y z r : znth (pre ++ x :: y :: z :: r) (zlen pre + 2) = Some z.
Proof. rewrite znth_app_r by lia. replace (zlen pre + 2 - zlen pre) with 2 by lia. reflexivity. Qed.

Lemma zupd_at {A} (pre : list A) x r v : zupd (pre ++ x :: r) (zlen pre) v = Some (pre ++ v :: r).
Proof.
  apply zupd_Some. split; [zlen_lia |].
  rewrite to_nat_zlen, insert_app_r_alt, Nat.sub_diag by lia. reflexivity.
Qed.

Lemma even_2 {A} (x y : A) l : Z.even (zlen (x :: y :: l)) = Z.even (zlen l).
Proof.
  rewrite !zlen_cons. replace (1 + (1 + zlen l)) with (zlen l + 2) by lia.
  rewrite Z.even_add. by destruct (Z.even (zlen l)).
Qed.

(** The inner loop stops at the last interval of the run that starts at [x],
    and passes over pairs of equal points only. *)
Lemma compress_run_spec tail fuel : forall pre x hi rest,
  Z.even (zlen rest) = true -> sorted_le (hi :: rest) -> (length rest < fuel)%nat ->
  exists mid x' hi' rest',
    compress_run fuel (pre ++ x :: hi :: rest ++ tail) (zlen (pre ++ x :: hi :: rest)) (zlen pre) =
      Ret (zlen (pre ++ mid)) /\
    x :: hi :: rest = mid ++ x' :: hi' :: rest' /\
    Z.even (zlen mid) = true /\ Z.even (zlen rest') = true /\
    (forall c, mem (hi :: rest) c = mem (hi' :: rest') c) /\
    hi <= hi' /\ sorted_le rest' /\ Forall (fun p => hi' < p) rest'.
Proof.
  induction fuel as [| fuel IH]; intros pre x hi rest He Hs Hf; [lia |].
  cbn [compress_run].
  destruct rest as [| a [| b rest]]; [| discriminate He |].
  - exists [], x, hi, []. rewrite app_nil_r.
    destruct (Z.ltb_spec (zlen pre + 3) (zlen (pre ++ [x; hi]))); [zlen_lia |].
    split_and!; auto; [lia | constructor].
  - destruct (Z.ltb_spec (zlen pre + 3) (zlen (pre ++ x :: hi :: a :: b :: rest))); [| zlen_lia].
    cbn [app]. rewrite znth_at1, znth_at2. cbn [of_opt mbind res_bind].
    rewrite even_2 in He. apply sorted_le_cons in Hs as [Hs Hhi].
    destruct (Z.eqb_spec hi a) as [<- | Hne].
    + apply sorted_le_cons in Hs as [Hs Hhi'].
      replace (zlen pre + 2) with (zlen (pre ++ [x; hi])) by zlen_lia.
      replace (pre ++ x :: hi :: hi :: b :: rest ++ tail)
        with ((pre ++ [x; hi]) ++ hi :: b :: rest ++ tail) by (rewrite <- app_assoc; done).
      replace (pre ++ x :: hi :: hi :: b :: rest)
        with ((pre ++ [x; hi]) ++ hi :: b :: rest) by (rewrite <- app_assoc; done).
      destruct (IH (pre ++ [x; hi]) hi b rest He Hs)
        as (mid & x' & hi' & rest' & -> & E & Hm & Hr & Hmem & Hle & Hs' & Hlt); [cbn in Hf; lia |].
      apply Forall_cons_iff in Hhi' as [Hb _].
      exists (x :: hi :: mid), x', hi', rest'. rewrite <- app_assoc.
      split_and!; auto; [cbn [app]; congruence | by rewrite even_2 | | lia].
      intros c. rewrite <- Hmem. cbn [mem]. by destruct (hi <=? c), (b <=? c), (mem rest c).
    + exists [], x, hi, (a :: b :: rest). rewrite app_nil_r, even_2.
      split_and!; auto; [lia |].
      apply sorted_le_cons in Hs as [Hs Ha]. apply Forall_cons_iff in Hhi as [Hha _].
      constructor; [lia |]. forall_lia Ha.
Qed.

Lemma sorted_lt_app a b :
  sorted_lt (a ++ b) <->
  sorted_lt a /\ sorted_lt b /\ Forall (fun p => Forall (Z.lt p) b) a.
Proof.
  induction a as [| p a IH]; cbn [app].
  - split; [intros ?; split_and!; try constructor; done | tauto].
  - assert (forall q l, sorted_lt (q :: l) <-> sorted_lt l /\ Forall (Z.lt q) l) as Hc.
    { split; [intros Hs; inversion Hs; auto | intros [? ?]; constructor; auto]. }
    rewrite !Hc, IH, Forall_app, Forall_cons_iff. tauto.
Qed.

(** Two points at the head of a chunk of at least two. *)
Lemma chunk2 {A} (g m : list A) x y :
  exists u v w, g ++ m ++ [x; y] = u :: v :: w /\ zlen w = zlen g + zlen m.
Proof.
  assert (2 <= zlen (g ++ m ++ [x; y])) as Hl by zlen_lia.
  destruct (g ++ m ++ [x; y]) as [| u [| v w]] eqn:E; [exfalso; clear E; zlen_lia .. |].
  exists u, v, w. split; [done |]. apply (f_equal zlen) in E. zlen_lia.
Qed.

(** Invariant of the outer loop: [out] is written, [gap] is garbage, [rest] is
    still to be read. *)
Lemma compress_loop_spec tail fuel : forall out gap rest,
  Z.even (zlen out) = true -> Z.even (zlen rest) = true ->
  sorted_lt out -> sorted_le rest -> Forall (fun p => Forall (Z.lt p) rest) out ->
  (length rest < fuel)%nat ->
  exists out' junk,
    compress_loop fuel (out ++ gap ++ rest ++ tail) (zlen (out ++ gap ++ rest))
      (zlen (out ++ gap)) (zlen out) = Ret (out' ++ junk ++ tail, zlen out') /\
    zlen (out' ++ junk) = zlen (out ++ gap ++ rest) /\
    sorted_lt out' /\ Z.even (zlen out') = true /\
    (forall c, mem out' c = mem (out ++ rest) c).
Proof.
  induction fuel as [| fuel IH]; intros out gap rest Heo Her Hso Hsr Hlt Hf; [lia |].
  cbn [compress_loop].
  destruct rest as [| lo [| hi rest]]; [| discriminate Her |].
  { exists out, gap. rewrite !app_nil_r. cbn [app].
    destruct (Z.ltb_spec (zlen (out ++ gap) + 1) (zlen (out ++ gap))); [lia |]. auto. }
  rewrite even_2 in Her.
  replace (zlen (out ++ gap ++ lo :: hi :: rest)) with (zlen ((out ++ gap) ++ lo :: hi :: rest))
    by (by rewrite <- app_assoc).
  destruct (Z.ltb_spec (zlen (out ++ gap) + 1) (zlen ((out ++ gap) ++ lo :: hi :: rest)));
    [| zlen_lia].
  replace (out ++ gap ++ (lo :: hi :: rest) ++ tail)
    with ((out ++ gap) ++ lo :: hi :: rest ++ tail) by (by rewrite <- app_assoc).
  rewrite znth_at, znth_at1. cbn [of_opt mbind res_bind].
  pose proof Hsr as Hsr0. apply sorted_le_cons in Hsr as [Hsr Hlo].
  pose proof Hsr as Hsr1. apply sorted_le_cons in Hsr as [Hsr Hhi].
  destruct (Z.eqb_spec lo hi) as [<- | Hne].
  - (* an empty interval is skipped *)
    replace (zlen (out ++ gap) + 2) with (zlen (out ++ gap ++ [lo; lo])) by zlen_lia.
    replace ((out ++ gap) ++ lo :: lo :: rest ++ tail)
      with (out ++ (gap ++ [lo; lo]) ++ rest ++ tail) by (by rewrite <- !app_assoc).
    replace ((out ++ gap) ++ lo :: lo :: rest)
      with (out ++ (gap ++ [lo; lo]) ++ rest) by (by rewrite <- !app_assoc).
    destruct (IH out (gap ++ [lo; lo]) rest) as (out' & junk & E & Hl & Hs' & He' & Hm'); auto.
    { eapply list.Forall_impl; [exact Hlt |]. cbn. intros p Hp. rewrite !Forall_cons_iff in Hp. tauto. }
    { cbn in Hf; lia. }
    exists out', junk. split_and!; auto.
    intros c. rewrite Hm', !mem_app. cbn [mem]. by destruct (lo <=? c), (mem rest c).
  - (* a run is merged *)
    destruct (compress_run_spec tail (Z.to_nat (zlen ((out ++ gap) ++ lo :: hi :: rest)))
                (out ++ gap) lo hi rest Her Hsr1)
      as (mid & x' & hi' & rest' & -> & E & Hem & Her' & Hmem & Hle & Hsr' & Hlt').
    { rewrite to_nat_zlen, !length_app. cbn. lia. }
    cbn [mbind res_bind].
    destruct (chunk2 gap mid x' hi') as (u & v & w & Eg & Hw).
    assert ((out ++ gap) ++ lo :: hi :: rest ++ tail = out ++ u :: v :: w ++ rest' ++ tail) as Ept.
    { change (lo :: hi :: rest ++ tail) with ((lo :: hi :: rest) ++ tail). rewrite E.
      change (u :: v :: w ++ rest' ++ tail) with ((u :: v :: w) ++ rest' ++ tail).
      rewrite <- Eg, <- !app_assoc. done. }
    assert (zlen out + zlen gap + zlen mid = zlen out + zlen w) as Hz by lia.
    destruct (zupd_is_Some (out ++ u :: v :: w ++ rest' ++ tail) (zlen out) lo) as [pt1 Eu]; [zlen_lia |].
    assert (znth pt1 (zlen ((out ++ gap) ++ mid) + 1) = Some hi') as Ehi.
    { rewrite (znth_zupd_ne _ _ _ _ _ Eu) by zlen_lia. rewrite <- Ept.
      change (lo :: hi :: rest ++ tail) with ((lo :: hi :: rest) ++ tail). rewrite E, <- !app_assoc.
      replace (out ++ gap ++ mid ++ (x' :: hi' :: rest') ++ tail)
        with (((out ++ gap) ++ mid) ++ x' :: hi' :: rest' ++ tail) by (by rewrite <- !app_assoc).
      replace (out ++ gap ++ mid) with ((out ++ gap) ++ mid) by (by rewrite <- app_assoc).
      apply znth_at1. }
    rewrite Ept, Eu. cbn [of_opt mbind res_bind]. rewrite Ehi. cbn [of_opt mbind res_bind].
    rewrite zupd_at in Eu. injection Eu as <-.
    replace (zlen out + 1) with (zlen (out ++ [lo])) by zlen_lia.
    replace (out ++ lo :: v :: w ++ rest' ++ tail)
      with ((out ++ [lo]) ++ v :: w ++ rest' ++ tail) by (by rewrite <- app_assoc).
    rewrite zupd_at. cbn [of_opt mbind res_bind].
    assert (zlen (lo :: hi :: rest) = zlen mid + (2 + zlen rest')) as Hlr.
    { rewrite E. zlen_lia. }
    replace (zlen ((out ++ gap) ++ mid) + 2) with (zlen ((out ++ [lo; hi']) ++ w)) by zlen_lia.
    replace (zlen out + 2) with (zlen (out ++ [lo; hi'])) by zlen_lia.
    replace (zlen ((out ++ gap) ++ lo :: hi :: rest))
      with (zlen ((out ++ [lo; hi']) ++ w ++ rest')) by (rewrite (zlen_app (out ++ gap)), Hlr; zlen_lia).
    replace ((out ++ [lo]) ++ hi' :: w ++ rest' ++ tail)
      with ((out ++ [lo; hi']) ++ w ++ rest' ++ tail) by (by rewrite <- !app_assoc).
    assert (Forall (fun p => p < lo) out) as Hol.
    { eapply list.Forall_impl; [exact Hlt |]. cbn. intros p Hp. apply Forall_cons_iff in Hp. lia. }
    assert (lo < hi) as Hlh by (apply Forall_cons_iff in Hlo; lia).
    assert (forall p, p <= hi' -> Forall (Z.lt p) rest') as Hbelow.
    { intros p Hp. forall_lia Hlt'. }
    destruct (IH (out ++ [lo; hi']) w rest') as (out' & junk & E' & Hl & Hs' & He' & Hm'); auto.
    + rewrite zlen_app, Z.even_add, Heo. done.
    + apply sorted_lt_app. split_and!; [done | repeat constructor; lia |].
      eapply list.Forall_impl; [exact Hol |]. cbn. intros p Hp. repeat constructor; lia.
    + apply Forall_app; split.
      * eapply list.Forall_impl; [exact Hol |]. cbn. intros p Hp. apply Hbelow. lia.
      * repeat constructor; apply Hbelow; lia.
    + apply (f_equal length) in E. rewrite length_app in E. cbn in E, Hf. lia.
    + exists out', junk. split_and!; auto.
      intros c. rewrite Hm', !mem_app. specialize (Hmem c). cbn [mem] in *. rewrite Hmem.
      by destruct (mem out c), (lo <=? c), (hi' <=? c), (mem rest' c).
Qed.

(** ** The set a range represents *)

(** [cr] is a well-formed range in normal form whose set is [P], a set of
    values below [UINT32_MAX]. *)
Record represents (cr : CharRange) (P : Z -> Prop) : Prop := {
  rep_ok : cr_ok cr;
  rep_sorted : sorted_lt (cr_contents cr);
  rep_even : Z.even (cr_len cr) = true;
  rep_bound : forall c, P c -> 0 <= c < UINT32_MAX;
  rep_in : forall c, in_ranges (cr_contents cr) c <-> P c
}.

Lemma cr_compress_spec cr :
  cr_ok cr -> sorted_le (cr_contents cr) -> Z.even (cr_len cr) = true ->
  exists cr', cr_compress cr = Ret cr' /\ cr_ok cr' /\ sorted_lt (cr_contents cr') /\
    Z.even (cr_len cr') = true /\ (forall c, mem (cr_contents cr') c = mem (cr_contents cr) c) /\
    cr_len cr' <= cr_len cr.
Proof.
  intros Hok Hs He. pose proof (cr_contents_zlen cr Hok) as Hlen. pose proof Hok as [Hl Hp Hz].
  pose proof (take_drop (Z.to_nat (cr_len cr)) (cr_points cr)) as Et. fold (cr_contents cr) in Et.
  set (tail := drop (Z.to_nat (cr_len cr)) (cr_points cr)) in *.
  destruct (compress_loop_spec tail (S (Z.to_nat (cr_len cr))) [] [] (cr_contents cr))
    as (out & junk & E & Hz' & Hso & Heo & Hm); auto; [by rewrite Hlen | constructor | |].
  { unfold zlen in Hlen. lia. }
  unfold cr_compress. cbn [app] in E. rewrite Et, Hlen, zlen_nil in E. rewrite E.
  cbn [mbind res_bind]. eexists. split; [reflexivity |].
  assert (cr_contents (mkCharRange (zlen out) (cr_size cr) (out ++ junk ++ tail)) = out) as ->.
  { unfold cr_contents. cbn. apply take_zlen_app. }
  cbn [app] in *. apply (f_equal zlen) in Et. split_and!; auto; [split; cbn; zlen_lia | cbn; zlen_lia].
Qed.

(** Reads stay below the lengths, so what follows the contents is irrelevant. *)
Lemma cr_next_tail a tl b tl' i j :
  cr_next (a ++ tl) (zlen a) (b ++ tl') (zlen b) i j = cr_next a (zlen a) b (zlen b) i j.
Proof.
  unfold cr_next. destruct (Z.ltb_spec i (zlen a)), (Z.ltb_spec j (zlen b)); cbn [andb];
    by rewrite ?znth_app_l by done.
Qed.

Lemma cr_op_loop_tail fuel : forall cr a tl b tl' op i j,
  cr_op_loop fuel cr (a ++ tl) (zlen a) (b ++ tl') (zlen b) op i j =
  cr_op_loop fuel cr a (zlen a) b (zlen b) op i j.
Proof.
  induction fuel as [| fuel IH]; intros; cbn [cr_op_loop]; [done |].
  rewrite cr_next_tail. destruct (cr_next _ _ _ _ _ _) as [[[[v i'] j'] |] | |];
    cbn [mbind res_bind]; [| done ..].
  destruct (negb _); [| apply IH].
  destruct (cr_add_point cr v) as [[cr' r] | |]; cbn [mbind res_bind]; [| done ..].
  destruct (negb _); [done | apply IH].
Qed.

Lemma in_ranges_bounds pts lo hi :
  sorted_lt pts -> Z.even (zlen pts) = true ->
  (forall c, in_ranges pts c -> lo <= c < hi) -> Forall (fun p => lo <= p <= hi) pts.
Proof.
  intros Hs. remember (length pts) as n eqn:En. revert pts En Hs.
  induction (lt_wf n) as [n _ IH]. intros pts -> Hs He Hc.
  destruct pts as [| x [| y pts]]; [constructor | discriminate He |].
  rewrite even_2 in He. inversion Hs as [| ? ? Hs' Hx]; subst. inversion Hs'; subst.
  apply Forall_cons_iff in Hx as [Hxy _].
  pose proof (Hc x ltac:(cbn; lia)). pose proof (Hc (y - 1) ltac:(cbn; lia)).
  do 2 (constructor; [lia |]). apply (IH (length pts) ltac:(cbn; lia) pts eq_refl); auto.
  intros c Hin. apply Hc. cbn. auto.
Qed.

Lemma mem_represents cr P c : represents cr P -> mem (cr_contents cr) c = true <-> P c.
Proof.
  intros [Hok Hs He _ Hin]. rewrite <- Hin. apply mem_in_ranges; [apply sorted_lt_le, Hs |].
  by rewrite cr_contents_zlen.
Qed.

Definition set_op (op : CharRangeOp) (P Q : Z -> Prop) (c : Z) : Prop :=
  match op with
  | CR_OP_UNION => P c \/ Q c
  | CR_OP_INTER => P c /\ Q c
  | CR_OP_XOR => (P c /\ ~ Q c) \/ (~ P c /\ Q c)
  end.

Lemma set_op_bool op (P Q : Z -> Prop) c x y :
  (x = true <-> P c) -> (y = true <-> Q c) ->
  cr_bool op x y = true <-> set_op op P Q c.
Proof. intros HP HQ. destruct op; cbn; rewrite <- HP, <- HQ; destruct x, y; cbn; intuition congruence. Qed.

(** [cr_op] on sorted points of even number followed by anything; the result has no
    more points than both. *)
Lemma cr_op_within a ta b tb op (P Q : Z -> Prop) :
  sorted_le a -> sorted_le b -> Z.even (zlen a) = true -> Z.even (zlen b) = true ->
  zlen a + zlen b <= MAX_POINTS ->
  (forall c, mem a c = true <-> P c) -> (forall c, mem b c = true <-> Q c) ->
  (forall c, P c -> 0 <= c < UINT32_MAX) -> (forall c, Q c -> 0 <= c < UINT32_MAX) ->
  exists cr' r, cr_op cr_init (a ++ ta) (zlen a) (b ++ tb) (zlen b) op = Ret (cr', r) /\
    ((r = 0 /\ represents cr' (set_op op P Q) /\ cr_len cr' <= zlen a + zlen b) \/ oom r).
Proof.
  intros Ha Hb Hea Heb Hmax HP HQ HPb HQb. unfold cr_op. rewrite cr_op_loop_tail.
  destruct (cr_op_loop_spec op (S (Z.to_nat (zlen a + zlen b))) cr_init [] a [] b)
    as (cr1 & r & E & Hok & Hr); auto.
  - exact cr_init_ok.
  - split; [constructor | by destruct op | by destruct op].
  - apply below_nil_l.
  - unfold zlen. lia.
  - cbn [app] in *. rewrite zlen_nil in E. rewrite E. cbn [mbind res_bind].
    destruct Hr as [(-> & [Hs Hpar Hm] & Hl) | Ho]; [| pose proof Ho as [-> _]]; cbn [negb Z.eqb].
    2: { eexists _, _. split; [reflexivity |]. auto. }
    rewrite <- !Z.negb_even, Hea, Heb, cr_contents_zlen in Hpar by done.
    assert (Z.even (cr_len cr1) = true) as He.
    { by destruct op, (Z.even (cr_len cr1)). }
    destruct (cr_compress_spec cr1 Hok Hs He) as (cr2 & -> & Hok2 & Hs2 & He2 & Hm2 & Hl2).
    cbn [mbind res_bind]. eexists _, _. split; [reflexivity |]. left. split; [done |].
    split; [| cbn in Hl; lia]. split; [done .. | |].
    + intros c. specialize (HPb c). specialize (HQb c). destruct op; cbn; tauto.
    + intros c. rewrite <- mem_in_ranges;
        [| apply sorted_lt_le, Hs2 | by rewrite cr_contents_zlen].
      rewrite Hm2, Hm. by apply set_op_bool.
Qed.

Lemma cr_op_spec a ta b tb op (P Q : Z -> Prop) :
  sorted_le a -> sorted_le b -> Z.even (zlen a) = true -> Z.even (zlen b) = true ->
  zlen a + zlen b <= MAX_POINTS ->
  (forall c, mem a c = true <-> P c) -> (forall c, mem b c = true <-> Q c) ->
  (forall c, P c -> 0 <= c < UINT32_MAX) -> (forall c, Q c -> 0 <= c < UINT32_MAX) ->
  exists cr' r, cr_op cr_init (a ++ ta) (zlen a) (b ++ tb) (zlen b) op = Ret (cr', r) /\
    ((r = 0 /\ represents cr' (set_op op P Q)) \/ oom r).
Proof.
  intros Ha Hb Hea Heb Hmax HP HQ HPb HQb.
  destruct (cr_op_within a ta b tb op P Q Ha Hb Hea Heb Hmax HP HQ HPb HQb) as (cr & r & E & Hr).
  exists cr, r. split; [done |]. destruct Hr as [(? & ? & _) |]; auto.
Qed.

(** The contents of a block and what follows them. *)
Lemma cr_points_split cr : cr_ok cr -> exists t,
  cr_points cr = cr_contents cr ++ t /\ cr_len cr = zlen (cr_contents cr).
Proof.
  intros Hok. rewrite cr_contents_zlen by done.
  exists (drop (Z.to_nat (cr_len cr)) (cr_points cr)). split; [| done].
  symmetry. apply take_drop.
Qed.

(** C10: [cr_op] computes the union, intersection or symmetric difference of
    two character ranges: it never accesses memory out of bounds or overflows
    an [int], its result is in normal form (strictly increasing points), and
    it fails only when the allocator does. *)
Theorem cr_op_correct a b op P Q :
  represents a P -> represents b Q -> cr_len a + cr_len b <= MAX_POINTS ->
  exists cr' r, cr_op cr_init (cr_points a) (cr_len a) (cr_points b) (cr_len b) op = Ret (cr', r) /\
    ((r = 0 /\ represents cr' (set_op op P Q)) \/ oom r).
Proof.
  intros HP HQ Hmax. pose proof HP as [Hoka Hsa Hea Hba _]. pose proof HQ as [Hokb Hsb Heb Hbb _].
  destruct (cr_points_split a Hoka) as (ta & -> & El).
  destruct (cr_points_split b Hokb) as (tb & -> & El').
  rewrite El, El' in *. apply cr_op_spec; auto using sorted_lt_le; intros c; by apply mem_represents.
Qed.

Lemma pair_represents c1 c2 c :
  c1 <= c2 -> mem [c1; c2 + 1] c = true <-> c1 <= c <= c2.
Proof. intros. cbn. destruct (Z.leb_spec c1 c), (Z.leb_spec (c2 + 1) c); cbn; intuition (lia || congruence). Qed.

(** [cr_union_interval] adds the interval [c1, c2] to the set. *)
Theorem cr_union_interval_correct cr P c1 c2 :
  represents cr P -> cr_len cr + 2 <= MAX_POINTS -> 0 <= c1 <= c2 -> c2 < UINT32_MAX ->
  exists cr' r, cr_union_interval cr c1 c2 = Ret (cr', r) /\
    ((r = 0 /\ represents cr' (fun c => P c \/ c1 <= c <= c2)) \/ oom r).
Proof.
  intros HP Hmax Hc Hc2. pose proof HP as [Hok Hs He Hb _]. unfold UINT32_MAX in Hc2.
  unfold cr_union_interval, cr_union1. rewrite wrap_small by lia.
  destruct (cr_points_split cr Hok) as (t & -> & El). rewrite El in *.
  apply (cr_op_spec (cr_contents cr) t [c1; c2 + 1] [] CR_OP_UNION P (fun c => c1 <= c <= c2));
    auto using sorted_lt_le.
  - repeat constructor; lia.
  - intros c. by apply mem_represents.
  - intros c. apply pair_represents. lia.
  - unfold UINT32_MAX. lia.
Qed.

(** The stores of [cr_invert] put 0 before the points and the bound after. *)
Lemma invert_points c x y t m :
  zread (c ++ x :: y :: t) 0 (zlen c) = Some c /\
  exists p1 p2, zwrite (c ++ x :: y :: t) 1 c = Some p1 /\ zupd p1 0 0 = Some p2 /\
    zupd p2 (zlen c + 1) m = Some ((0 :: c ++ [m]) ++ t).
Proof.
  split.
  { rewrite zread_in by zlen_lia. rewrite Z2Nat.inj_0, drop_0. by rewrite take_zlen_app. }
  assert (drop (Z.to_nat (1 + zlen c)) (c ++ x :: y :: t) = y :: t) as Ed.
  { replace (Z.to_nat (1 + zlen c)) with (length (c ++ [x])) by (rewrite length_app; unfold zlen; cbn; lia).
    replace (c ++ x :: y :: t) with ((c ++ [x]) ++ y :: t) by (by rewrite <- app_assoc).
    apply drop_app_length. }
  assert (exists u, take 1 (c ++ x :: y :: t) = [u]) as [u Eu] by (destruct c; cbn; eauto).
  exists (u :: c ++ y :: t), (0 :: c ++ y :: t). split_and!.
  - rewrite zwrite_in by zlen_lia. change (Z.to_nat 1) with 1%nat. by rewrite Eu, Ed.
  - apply (zupd_at [] u).
  - replace (zlen c + 1) with (zlen (0 :: c)) by zlen_lia.
    replace ((0 :: c ++ [m]) ++ t) with ((0 :: c) ++ m :: t) by (cbn; by rewrite <- app_assoc).
    apply (zupd_at (0 :: c) y).
Qed.

Lemma cr_points_room cr n :
  cr_ok cr -> cr_len cr + 2 <= cr_size cr -> cr_len cr = n ->
  exists x y t, cr_points cr = cr_contents cr ++ x :: y :: t /\ zlen (cr_contents cr) = n /\
    zlen t = cr_size cr - n - 2.
Proof.
  intros Hok Hr <-. pose proof Hok as [Hl Hp _].
  destruct (cr_points_split cr Hok) as (t & E & El). rewrite <- El.
  apply (f_equal zlen) in E as Ez. rewrite zlen_app in Ez.
  destruct t as [| x [| y t]]; [exfalso; zlen_lia .. |].
  exists x, y, t. split_and!; [done | done | zlen_lia].
Qed.

(** Putting 0 before and the bound after complements the set. *)
Lemma mem_complement pts c :
  0 <= c -> mem (0 :: pts ++ [UINT32_MAX]) c = negb (xorb (mem pts c) (UINT32_MAX <=? c)).
Proof.
  intros. cbn [mem]. rewrite mem_app. cbn [mem]. destruct (Z.leb_spec 0 c); [| lia].
  by destruct (mem pts c), (UINT32_MAX <=? c).
Qed.

(** [cr_invert] needs points that increase, not a range in normal form. *)
Lemma cr_invert_spec cr :
  cr_ok cr -> sorted_le (cr_contents cr) -> Z.even (cr_len cr) = true ->
  Forall (fun p => 0 <= p <= UINT32_MAX) (cr_contents cr) -> cr_len cr <= MAX_POINTS ->
  exists cr' r, cr_invert cr = Ret (cr', r) /\
    ((r = 0 /\ (cr_ok cr' /\ sorted_lt (cr_contents cr') /\ Z.even (cr_len cr') = true) /\ cr_len cr' <= cr_len cr + 2 /\
      forall c, mem (cr_contents cr') c = (0 <=? c) && (c <? UINT32_MAX) && negb (mem (cr_contents cr) c)) \/ oom r).
Proof.
  intros Hok Hs He Hbd Hmax. pose proof Hok as [Hl _ _]. unfold MAX_POINTS in Hmax.
  unfold cr_invert. rewrite int_ok_in by lia. cbn [mbind res_bind].
  destruct (cr_realloc_spec cr (cr_len cr + 2) Hok) as (cr1 & r & -> & Hok1 & Ec & El & Hr).
  { unfold MAX_POINTS. lia. }
  cbn [mbind res_bind].
  destruct Hr as [(-> & Hsz) | Ho]; [| pose proof Ho as [-> _]]; cbn [negb Z.eqb].
  2: { eexists _, _. split; [reflexivity |]. auto. }
  destruct (cr_points_room cr1 (cr_len cr) Hok1) as (x & y & t & Ep & Elen & Ht); [lia | done |].
  destruct (invert_points (cr_contents cr1) x y t UINT32_MAX) as (Er & p1 & p2 & Ew & E0 & E1).
  rewrite Ep, <- Elen, Er. cbn [of_opt mbind res_bind]. rewrite Ew. cbn [of_opt mbind res_bind].
  rewrite E0. cbn [of_opt mbind res_bind]. rewrite E1. cbn [of_opt mbind res_bind].
  set (pts := 0 :: cr_contents cr1 ++ [UINT32_MAX]).
  replace (zlen (cr_contents cr1) + 2) with (zlen pts) by (unfold pts; zlen_lia).
  set (cr2 := mkCharRange (zlen pts) (cr_size cr1) (pts ++ t)).
  assert (cr_contents cr2 = pts) as E2 by apply take_zlen_app.
  assert (zlen pts = cr_len cr + 2) as Hzp by (unfold pts; zlen_lia). rewrite <- Ec in Hbd.
  destruct (cr_compress_spec cr2) as (cr3 & -> & Hok3 & Hs3 & He3 & Hm3 & Hl3).
  - pose proof Hok1 as [? ? ?]. split; cbn; [zlen_lia | zlen_lia | done].
  - rewrite E2. unfold pts. constructor.
    + apply sorted_le_snoc; [by rewrite Ec | forall_lia Hbd].
    + apply Forall_app. split; [forall_lia Hbd | repeat constructor; unfold UINT32_MAX; lia].
  - cbn. rewrite Hzp, Z.even_add, He. done.
  - cbn [mbind res_bind]. eexists _, _. split; [reflexivity |]. left. change (cr_len cr2) with (zlen pts) in Hl3.
    split_and!; [done .. | lia |].
    intros c. rewrite Hm3, E2, <- Ec. destruct (Z.leb_spec 0 c).
    + unfold pts. rewrite mem_complement by done. destruct (Z.leb_spec UINT32_MAX c), (Z.ltb_spec c UINT32_MAX); try lia.
      * rewrite mem_above by forall_lia Hbd. rewrite Elen, <- Z.negb_even, He. done.
      * by destruct (mem (cr_contents cr1) c).
    + apply mem_below. unfold pts. constructor; [lia |]. apply Forall_app. split; [forall_lia Hbd |].
      repeat constructor. unfold UINT32_MAX. lia.
Qed.

(** [cr_invert] complements the set in [0, UINT32_MAX - 1]. *)
Theorem cr_invert_correct cr P :
  represents cr P -> cr_len cr <= MAX_POINTS ->
  exists cr' r, cr_invert cr = Ret (cr', r) /\
    ((r = 0 /\ represents cr' (fun c => 0 <= c < UINT32_MAX /\ ~ P c)) \/ oom r).
Proof.
  intros HP Hmax. pose proof HP as [Hok Hs He Hb Hin].
  destruct (cr_invert_spec cr Hok (sorted_lt_le _ Hs) He) as (cr' & r & E & Hr); [| done |].
  { apply in_ranges_bounds; [done | by rewrite cr_contents_zlen |]. intros c. rewrite Hin. apply Hb. }
  exists cr', r. split; [done |]. destruct Hr as [(-> & (Hok' & Hs' & He') & _ & Hm) |]; [left | by right].
  split; [done |]. split; [done .. | tauto |]. intros c.
  rewrite <- mem_in_ranges; [| by apply sorted_lt_le | by rewrite cr_contents_zlen].
  rewrite Hm, !andb_true_iff, Z.leb_le, Z.ltb_lt, negb_true_iff, <- not_true_iff_false, mem_represents by done. tauto.
Qed.
End facts.

(** ** Concrete inputs *)
Lemma single_represents lo hi :
  0 <= lo < hi -> hi <= UINT32_MAX ->
  represents (mkCharRange 2 2 [lo; hi]) (fun c => lo <= c < hi).
Proof.
  intros Hl Hh. split.
  - split; [cbn; lia | reflexivity | cbn; lia].
  - repeat constructor; lia.
  - reflexivity.
  - lia.
  - intros c. change (lo <= c < hi \/ False <-> lo <= c < hi). tauto.
Qed.

Lemma cr_op_correct_witness :
  let al := limited_words 100 in
  exists cr' r, cr_op cr_init [10; 21] 2 [15; 31] 2 CR_OP_XOR = Ret (cr', r) /\
    ((r = 0 /\ represents cr' (set_op CR_OP_XOR (fun c => 10 <= c < 21) (fun c => 15 <= c < 31)))
     \/ oom r).
Proof.
  intros al. apply (cr_op_correct (mkCharRange 2 2 [10; 21]) (mkCharRange 2 2 [15; 31]));
    [apply single_represents; unfold UINT32_MAX; lia .. | vm_compute; discriminate].
Defined.

Lemma cr_invert_correct_witness :
  let al := limited_words 100 in
  exists cr' r, cr_invert (mkCharRange 2 2 [10; 21]) = Ret (cr', r) /\
    ((r = 0 /\ represents cr' (fun c => 0 <= c < UINT32_MAX /\ ~ 10 <= c < 21)) \/ oom r).
Proof.
  intros al. apply (cr_invert_correct (mkCharRange 2 2 [10; 21]));
    [apply single_represents; unfold UINT32_MAX; lia | vm_compute; discriminate].
Defined.
