(* ===== verification/CaseConv.v ===== *)
(** * libunicode.c: case conversion ([lre_case_conv]) *)
From Stdlib Require Import ZArith Lia Bool.
From stdpp Require Import base numbers list.
From S2P Require Import Prelude UnicodeTables.

Definition RUN_TYPE_U : Z := 0.
Definition RUN_TYPE_L : Z := 1.
Definition RUN_TYPE_UF : Z := 2.
Definition RUN_TYPE_LF : Z := 3.
Definition RUN_TYPE_UL : Z := 4.
Definition RUN_TYPE_LSU : Z := 5.
Definition RUN_TYPE_U2L_399_EXT2 : Z := 6.
Definition RUN_TYPE_UF_D20 : Z := 7.
Definition RUN_TYPE_UF_D1_EXT : Z := 8.
Definition RUN_TYPE_U_EXT : Z := 9.
Definition RUN_TYPE_LF_EXT : Z := 10.
Definition RUN_TYPE_U_EXT2 : Z := 11.
Definition RUN_TYPE_L_EXT2 : Z := 12.
Definition RUN_TYPE_U_EXT3 : Z := 13.

(** ** The tables of runs

    An entry of [case_conv_table1] packs the first code point of a run (17
    bits), its length (7 bits), its type (4 bits) and 4 bits of data; an entry
    of [unicode_decomp_table1] has an 18-bit code point, hence the width [w]. *)
Definition run_code (w v : Z) : Z := Z.shiftr v (32 - w).
Definition run_len (w v : Z) : Z := Z.land (Z.shiftr v (32 - w - 7)) 127.

(** The binary search for the run of [c]: the index and the entry. *)
Fixpoint run_search (fuel : nat) (w : Z) (table : list Z) (c idx_min idx_max : Z)
  : res (option (Z * Z)) :=
  match fuel with
  | O => NoFuel
  | S fuel =>
      if idx_min <=? idx_max then
        let idx := Z.quot (u32 (idx_max + idx_min)) 2 in
        v ← of_opt (znth table idx);
        let code := run_code w v in
        let len := run_len w v in
        if c <? code then run_search fuel w table c idx_min (idx - 1)
        else if u32 (code + len) <=? c then run_search fuel w table c (idx + 1) idx_max
        else Ret (Some (idx, v))
      else Ret None
  end.

Definition find_run (w : Z) (table : list Z) (c : Z) : res (option (Z * Z)) :=
  run_search (S (length table)) w table c 0 (zlen table - 1).

Definition b2z (b : bool) : Z := if b then 1 else 0.

(** The conversion of [c] by the entry [v] at [idx]: the code points stored in
    [res]. *)
Definition case_conv_run (c conv_type idx v : Z) : res (list Z) :=
  let is_lower := b2z (negb (conv_type =? 0)) in
  let code := run_code 17 v in
  t2 ← of_opt (znth case_conv_table2 idx);
  let type := Z.land (Z.shiftr v (32 - 17 - 7 - 4)) 15 in
  let data := Z.lor (Z.shiftl (Z.land v 15) 8) t2 in
  let ext i := of_opt (znth case_conv_ext i) in
  if type <=? RUN_TYPE_LF then
    if (conv_type =? Z.land type 1) || ((RUN_TYPE_UF <=? type) && (conv_type =? 2)) then
      w ← of_opt (znth case_conv_table1 data);
      Ret [u32 (c - code + Z.shiftr w (32 - 17))]
    else Ret [c]
  else if type =? RUN_TYPE_UL then
    let a := u32 (c - code) in
    if negb (Z.land a 1 =? 1 - is_lower) then Ret [c]
    else Ret [u32 (Z.lxor a 1 + code)]
  else if type =? RUN_TYPE_LSU then
    let a := u32 (c - code) in
    if a =? 1 then Ret [u32 (c + (2 * is_lower - 1))]
    else if a =? (1 - is_lower) * 2 then Ret [u32 (c + (2 * is_lower - 1) * 2)]
    else Ret [c]
  else if type =? RUN_TYPE_U2L_399_EXT2 then
    if is_lower =? 0 then
      e ← ext (Z.shiftr data 6); Ret [u32 (c - code + e); 0x399]
    else
      e ← ext (Z.land data 63); Ret [u32 (c - code + e)]
  else if type =? RUN_TYPE_UF_D20 then
    if conv_type =? 1 then Ret [c] else Ret [u32 (data + b2z (conv_type =? 2) * 32)]
  else if type =? RUN_TYPE_UF_D1_EXT then
    if conv_type =? 1 then Ret [c]
    else e ← ext data; Ret [u32 (e + b2z (conv_type =? 2))]
  else if (type =? RUN_TYPE_U_EXT) || (type =? RUN_TYPE_LF_EXT) then
    if negb (is_lower =? type - RUN_TYPE_U_EXT) then Ret [c]
    else e ← ext data; Ret [e]
  else if (type =? RUN_TYPE_U_EXT2) || (type =? RUN_TYPE_L_EXT2) then
    if negb (conv_type =? type - RUN_TYPE_U_EXT2) then Ret [c]
    else
      e0 ← ext (Z.shiftr data 6);
      e1 ← ext (Z.land data 63);
      Ret [u32 (c - code + e0); e1]
  else (* default, RUN_TYPE_U_EXT3 *)
    if negb (conv_type =? 0) then Ret [c]
    else
      e0 ← ext (Z.shiftr data 8);
      e1 ← ext (Z.land (Z.shiftr data 4) 15);
      e2 ← ext (Z.land data 15);
      Ret [e0; e1; e2].

(** conv_type: 0 = to upper, 1 = to lower, 2 = case folding.  The result is
    the prefix of [res] that is written; the C function returns its length. *)
Definition lre_case_conv (c conv_type : Z) : res (list Z) :=
  if c <? 128 then
    if negb (conv_type =? 0) then
      if (65 <=? c) && (c <=? 90) then Ret [u32 (c - 65 + 97)] else Ret [c]
    else
      if (97 <=? c) && (c <=? 122) then Ret [u32 (c - 97 + 65)] else Ret [c]
  else
    r ← find_run 17 case_conv_table1 c;
    match r with
    | Some (idx, v) => case_conv_run c conv_type idx v
    | None => Ret [c]
    end.

(** libregexp.c: canonicalize with the specific JS regexp rules. *)
Definition lre_canonicalize (c : Z) (is_utf16 : bool) : res Z :=
  if is_utf16 then
    if c <? 128 then
      if (65 <=? c) && (c <=? 90) then Ret (u32 (c - 65 + 97)) else Ret c
    else
      res ← lre_case_conv c 2;
      of_opt (znth res 0)
  else
    if c <? 128 then
      if (97 <=? c) && (c <=? 122) then Ret (u32 (c - 97 + 65)) else Ret c
    else
      (* legacy regexp: to upper case if single char >= 128 *)
      res ← lre_case_conv c 0;
      r0 ← of_opt (znth res 0);
      if (zlen res =? 1) && (128 <=? r0) then Ret r0 else Ret c.

(** ** The search finds the run of [c] whenever there is one *)
Definition in_run (w v c : Z) : Prop := run_code w v <= c < run_code w v + run_len w v.

(** The runs of a table are non-empty, increasing, disjoint and start at [lb]. *)
Fixpoint runs_ok (w lb : Z) (table : list Z) : bool :=
  match table with
  | v :: table' =>
      (lb <=? run_code w v) && (0 <? run_len w v) &&
      (run_code w v + run_len w v <=? UINT32_MAX) &&
      runs_ok w (run_code w v + run_len w v) table'
  | [] => true
  end.

Definition run_between (w lb v : Z) : Prop :=
  lb <= run_code w v /\ 0 < run_len w v /\ run_code w v + run_len w v <= UINT32_MAX.

Lemma runs_ok_cons w lb v table :
  runs_ok w lb (v :: table) = true ->
  run_between w lb v /\ runs_ok w (run_code w v + run_len w v) table = true.
Proof.
  cbn. rewrite !andb_true_iff. unfold run_between. intros [[[? ?] ?] ?]. split_and!; lia || done.
Qed.

Lemma runs_ok_between w table : forall lb, runs_ok w lb table = true ->
  Forall (run_between w lb) table.
Proof.
  induction table as [| v table IH]; intros lb Hok; constructor;
    apply runs_ok_cons in Hok as [Hv Hok]; [done |].
  eapply list.Forall_impl; [exact (IH _ Hok) |]. unfold run_between in *. cbn. intros; lia.
Qed.

Lemma runs_ok_lt w table : forall lb i j v v', runs_ok w lb table = true ->
  (i < j)%nat -> table !! i = Some v -> table !! j = Some v' ->
  run_code w v + run_len w v <= run_code w v'.
Proof.
  induction table as [| x table IH]; intros lb i j v v' Hok Hij Hi Hj; [done |].
  apply runs_ok_cons in Hok as (_ & Hok).
  destruct j as [| j]; [lia |]. destruct i as [| i]; cbn in *.
  - injection Hi as ->. apply runs_ok_between in Hok. rewrite list.Forall_forall in Hok.
    apply (Hok v'), (list_elem_of_lookup_2 _ j), Hj.
  - apply (IH _ i j v v' Hok); auto; lia.
Qed.

Section search.
Variables (w : Z) (table : list Z) (c : Z).
Hypothesis Hok : runs_ok w 0 table = true.
Hypothesis Hlen : zlen table <= 2 ^ 30.

Lemma znth_run_between i v : znth table i = Some v -> run_between w 0 v.
Proof.
  intros [_ E]%znth_Some. pose proof (runs_ok_between _ _ _ Hok) as Hb.
  rewrite list.Forall_forall in Hb. apply Hb, (list_elem_of_lookup_2 _ _ _ E).
Qed.

Lemma znth_run_lt i j v v' :
  i < j -> znth table i = Some v -> znth table j = Some v' ->
  run_code w v + run_len w v <= run_code w v'.
Proof.
  intros Hij [? Hi]%znth_Some [? Hj]%znth_Some.
  apply (runs_ok_lt _ _ _ (Z.to_nat i) (Z.to_nat j) v v' Hok); auto; lia.
Qed.

(** What the search has excluded: the runs before [lo] and after [hi]. *)
Lemma run_search_spec fuel : forall lo hi,
  0 <= lo -> hi < zlen table -> Z.max 0 (hi - lo + 1) < Z.of_nat fuel ->
  (forall i v, znth table i = Some v -> i < lo -> run_code w v + run_len w v <= c) ->
  (forall i v, znth table i = Some v -> hi < i -> c < run_code w v) ->
  (exists idx v, run_search fuel w table c lo hi = Ret (Some (idx, v)) /\
     znth table idx = Some v /\ in_run w v c) \/
  (run_search fuel w table c lo hi = Ret None /\ Forall (fun v => ~ in_run w v c) table).
Proof.
  induction fuel as [| fuel IH]; intros lo hi Hlo Hhi Hf Hbelow Habove; [lia |].
  cbn [run_search]. destruct (Z.leb_spec lo hi).
  - rewrite wrap_small, Z.quot_div_nonneg by lia.
    set (idx := (hi + lo) / 2). assert (lo <= idx <= hi) by (unfold idx; zdiv_lia).
    destruct (proj2 (znth_is_Some table idx) ltac:(lia)) as [v Ev]. rewrite Ev.
    cbn [of_opt mbind res_bind]. pose proof (znth_run_between _ _ Ev) as (Hc & Hl & Hm).
    unfold UINT32_MAX in Hm. rewrite wrap_small by lia.
    destruct (Z.ltb_spec c (run_code w v)); [| destruct (Z.leb_spec (run_code w v + run_len w v) c)].
    + apply IH; try lia; [exact Hbelow |]. intros i v' Ei Hi.
      destruct (decide (i = idx)) as [-> | Hne]; [congruence |].
      pose proof (znth_run_lt idx i v v' ltac:(lia) Ev Ei). lia.
    + apply IH; try lia; [| exact Habove]. intros i v' Ei Hi.
      destruct (decide (i = idx)) as [-> | Hne]; [congruence |].
      pose proof (znth_run_lt i idx v' v ltac:(lia) Ei Ev).
      pose proof (znth_run_between _ _ Ei) as (? & ? & ?). lia.
    + left. exists idx, v. unfold in_run. auto.
  - right. split; [done |]. apply list.Forall_forall. intros v Hin.
    apply list_elem_of_lookup_1 in Hin as [i Ei]. rewrite <- znth_nat in Ei. unfold in_run.
    destruct (decide (Z.of_nat i < lo)).
    + specialize (Hbelow _ _ Ei ltac:(lia)). lia.
    + specialize (Habove _ _ Ei ltac:(lia)). lia.
Qed.

Lemma find_run_spec :
  (exists idx v, find_run w table c = Ret (Some (idx, v)) /\ znth table idx = Some v /\ in_run w v c) \/
  (find_run w table c = Ret None /\ Forall (fun v => ~ in_run w v c) table).
Proof.
  apply run_search_spec; try lia.
  - unfold zlen. lia.
  - intros i v Ei. apply znth_lt_Some in Ei. lia.
  - intros i v Ei. apply znth_lt_Some in Ei. lia.
Qed.
End search.

(** ** Checking a property of all the code points of the runs *)
Definition zseq (a n : Z) : list Z := map (fun i => a + Z.of_nat i) (seq 0 (Z.to_nat n)).

Lemma elem_of_zseq a n c : c ∈ zseq a n <-> a <= c < a + n.
Proof.
  unfold zseq. rewrite list_elem_of_fmap. setoid_rewrite elem_of_seq. split.
  - intros (i & -> & ?). lia.
  - intros ?. exists (Z.to_nat (c - a)). lia.
Qed.

Definition forall_runs (w : Z) (table : list Z) (f : Z -> bool) : bool :=
  forallb (fun v => forallb f (zseq (run_code w v) (run_len w v))) table.

Lemma forall_runs_spec w table f idx v c :
  forall_runs w table f = true -> znth table idx = Some v -> in_run w v c -> f c = true.
Proof.
  intros Hf [_ Hv%list_elem_of_lookup_2]%znth_Some Hc.
  pose proof (proj1 (forallb_forall _ _) Hf v (proj1 (list_elem_of_In _ _) Hv)) as Hr.
  apply (proj1 (forallb_forall _ _) Hr), list_elem_of_In, elem_of_zseq, Hc.
Qed.

Lemma forall_ascii f c : forallb f (zseq 0 128) = true -> 0 <= c < 128 -> f c = true.
Proof.
  intros Hall Hc. apply (proj1 (forallb_forall _ _) Hall), list_elem_of_In, elem_of_zseq. lia.
Qed.

Lemma case_table_ok : runs_ok 17 0 case_conv_table1 = true /\ zlen case_conv_table1 <= 2 ^ 30.
Proof. split; [vm_compute; reflexivity | vm_compute; discriminate]. Qed.

(** A property of the conversions holds everywhere if it holds on ASCII, on the
    characters of the runs, and for the identity. *)
Lemma case_conv_cases c (P : Z -> Prop) :
  0 <= c ->
  (c < 128 -> P c) ->
  (128 <= c -> (forall t, lre_case_conv c t = Ret [c]) -> P c) ->
  (forall idx v, znth case_conv_table1 idx = Some v -> in_run 17 v c -> P c) -> P c.
Proof.
  intros Hc Ha Hid Hr. destruct (decide (c < 128)) as [| Hge]; [auto |].
  destruct (find_run_spec 17 case_conv_table1 c (proj1 case_table_ok) (proj2 case_table_ok))
    as [(idx & v & _ & Ev & Hin) | [E _]]; [eauto |].
  apply Hid; [lia |]. intros t. unfold lre_case_conv. destruct (Z.ltb_spec c 128); [lia |].
  by rewrite E.
Qed.

(** The result of a conversion: up to three code points. *)
Definition conv_ok (r : res (list Z)) : bool :=
  match r with
  | Ret l => (1 <=? zlen l) && (zlen l <=? 3) && forallb (fun x => (0 <=? x) && (x <=? 0x10FFFF)) l
  | _ => false
  end.
Definition conv_types : list Z := [0; 1; 2].

(** C12: for every code point and conversion the two table searches terminate in
    bounds, every table index is valid, and the result is one, two or three
    code points. *)
Theorem lre_case_conv_total c t :
  0 <= c <= 0x10FFFF -> t ∈ conv_types ->
  exists l, lre_case_conv c t = Ret l /\ 1 <= zlen l <= 3 /\
    Forall (fun x => 0 <= x <= 0x10FFFF) l.
Proof.
  intros Hc Ht.
  assert (conv_ok (lre_case_conv c t) = true) as Hok.
  { revert t Ht.
    apply (case_conv_cases c (fun c => forall t, t ∈ conv_types -> conv_ok (lre_case_conv c t) = true));
      [lia | | |].
    - intros Hlt t Ht.
      assert (forallb (fun c => forallb (fun t => conv_ok (lre_case_conv c t)) conv_types)
                (zseq 0 128) = true) as Hall by (vm_compute; reflexivity).
      pose proof (forall_ascii _ c Hall ltac:(lia)) as Hall'. cbn beta in Hall'.
      by apply (proj1 (forallb_forall _ _) Hall'), list_elem_of_In.
    - intros _ E t _. rewrite E. cbn. destruct (Z.leb_spec 0 c), (Z.leb_spec c 0x10FFFF); done || lia.
    - intros idx v Ev Hin t Ht.
      assert (forall_runs 17 case_conv_table1
                (fun c => forallb (fun t => conv_ok (lre_case_conv c t)) conv_types) = true) as Hall
        by (vm_compute; reflexivity).
      pose proof (forall_runs_spec _ _ _ _ _ _ Hall Ev Hin) as Hall'. cbn beta in Hall'.
      by apply (proj1 (forallb_forall _ _) Hall'), list_elem_of_In. }
  destruct (lre_case_conv c t) as [l | |]; [| discriminate ..].
  exists l. split; [done |]. cbn in Hok. rewrite !andb_true_iff in Hok. destruct Hok as [[? ?] Hl].
  split; [lia |]. apply list.Forall_forall. intros x Hx%list_elem_of_In.
  pose proof (proj1 (forallb_forall _ _) Hl x Hx) as Hb. apply andb_true_iff in Hb. lia.
Qed.

Definition canon_idem (u : bool) (c : Z) : bool :=
  match lre_canonicalize c u with
  | Ret x => match lre_canonicalize x u with Ret y => x =? y | _ => false end
  | _ => false
  end.

Lemma canon_idem_true c u : 0 <= c -> canon_idem u c = true.
Proof.
  intros Hc. apply (case_conv_cases c (fun c => canon_idem u c = true)); [lia | | |].
  - intros Hlt. apply forall_ascii; [| lia]. destruct u; vm_compute; reflexivity.
  - intros Hge E. assert (lre_canonicalize c u = Ret c) as Ec.
    { unfold lre_canonicalize. rewrite !E. destruct (Z.ltb_spec c 128); [lia |].
      destruct u; [reflexivity |]. cbn [mbind res_bind]. rewrite zlen_cons.
      change (znth [c] 0) with (Some c). cbn [of_opt mbind res_bind].
      by destruct (_ && _). }
    unfold canon_idem. rewrite Ec, Ec. apply Z.eqb_refl.
  - intros idx v. apply forall_runs_spec. destruct u; vm_compute; reflexivity.
Qed.

Lemma lre_canonicalize_Ret c u : 0 <= c -> exists x, lre_canonicalize c u = Ret x.
Proof.
  intros Hc. pose proof (canon_idem_true c u Hc) as Hi. unfold canon_idem in Hi.
  destruct (lre_canonicalize c u) as [x | |]; [eauto | discriminate ..].
Qed.

(** The canonical form the case-insensitive matcher compares (the compiler
    canonicalizes the pattern's characters, the matcher the input's) exists for
    every character and is canonical. *)
Theorem lre_canonicalize_idempotent c u :
  0 <= c ->
  exists x, lre_canonicalize c u = Ret x /\ lre_canonicalize x u = Ret x.
Proof.
  intros Hc. pose proof (canon_idem_true c u Hc) as Hi.
  unfold canon_idem in Hi. destruct (lre_canonicalize c u) as [x | |]; [| discriminate ..].
  exists x. split; [done |]. destruct (lre_canonicalize x u) as [y | |]; [| discriminate ..].
  apply Z.eqb_eq in Hi. congruence.
Qed.

Lemma lre_case_conv_total_witness :
  exists l, lre_case_conv 0xDF 0 = Ret l /\ 1 <= zlen l <= 3 /\
    Forall (fun x => 0 <= x <= 0x10FFFF) l.
Proof. apply (lre_case_conv_total 0xDF 0); [lia | left]. Defined.

Lemma lre_canonicalize_idempotent_witness :
  exists x, lre_canonicalize 0x1C4 true = Ret x /\ lre_canonicalize x true = Ret x.
Proof. apply (lre_canonicalize_idempotent 0x1C4 true). lia. Defined.
