(* ===== verification/UnicodeProp.v ===== *)
(** * libunicode.c: compressed property tables ([lre_is_in_table])

    A property is stored as a byte string of run lengths; an index gives, for
    every block of 32 bytes, a code point and an offset where decoding may
    start.  [lre_is_in_table] with an index of the right shape computes
    membership in the set the whole table denotes. *)
From Stdlib Require Import ZArith Lia Bool.
From stdpp Require Import base numbers list.
From S2P Require Import Prelude CharRangeFacts UnicodeTables CaseConv.

Definition get_le24 (ptr : list Z) (off : Z) : res Z :=
  b0 ← of_opt (znth ptr off);
  b1 ← of_opt (znth ptr (off + 1));
  b2 ← of_opt (znth ptr (off + 2));
  Ret (Z.lor (Z.lor b0 (Z.shiftl b1 8)) (Z.shiftl b2 16)).

Definition UNICODE_INDEX_BLOCK_LEN : Z := 32.
Definition code_mask : Z := Z.shiftl 1 21 - 1.

(** invariant: tab[idx_min] <= c < tab2[idx_max] *)
Fixpoint index_search (fuel : nat) (index_table : list Z) (c idx_min idx_max : Z) : res Z :=
  match fuel with
  | O => NoFuel
  | S fuel =>
      if 1 <? idx_max - idx_min then
        let idx := Z.quot (idx_max + idx_min) 2 in
        v ← get_le24 index_table (idx * 3);
        let code := Z.land v code_mask in
        if c <? code then index_search fuel index_table c idx_min idx
        else index_search fuel index_table c idx idx_max
      else Ret idx_min
  end.

(** The position (-1 if not in the table) and [*pcode], which the C function
    leaves unset when it returns -1. *)
Definition get_index_pos (c : Z) (index_table : list Z) (index_table_len : Z) : res (Z * Z) :=
  v ← get_le24 index_table 0;
  let code := Z.land v code_mask in
  if c <? code then Ret (0, 0)
  else
    let idx_max := index_table_len - 1 in
    code ← get_le24 index_table (idx_max * 3);
    if code <=? c then Ret (-1, 0)
    else
      idx_min ← index_search (S (Z.to_nat index_table_len)) index_table c 0 idx_max;
      v ← get_le24 index_table (idx_min * 3);
      Ret ((idx_min + 1) * UNICODE_INDEX_BLOCK_LEN + Z.shiftr v 21, Z.land v code_mask).

(** The loop over the bytes of a block; [p] is an offset in [table]. *)
Fixpoint in_table_loop (fuel : nat) (table : list Z) (c p code : Z) (bit : bool) : res bool :=
  match fuel with
  | O => NoFuel
  | S fuel =>
      b ← of_opt (znth table p);
      let p := p + 1 in
      if b <? 64 then
        let code := u32 (code + (Z.shiftr b 3 + 1)) in
        if c <? code then Ret bit
        else
          let bit := negb bit in
          let code := u32 (code + (Z.land b 7 + 1)) in
          if c <? code then Ret bit
          else in_table_loop fuel table c p code (negb bit)
      else if 128 <=? b then
        let code := u32 (code + (b - 128 + 1)) in
        if c <? code then Ret bit else in_table_loop fuel table c p code (negb bit)
      else if b <? 96 then
        p0 ← of_opt (znth table p);
        let code := u32 (code + (Z.lor (Z.shiftl (b - 64) 8) p0 + 1)) in
        if c <? code then Ret bit else in_table_loop fuel table c (p + 1) code (negb bit)
      else
        p0 ← of_opt (znth table p);
        p1 ← of_opt (znth table (p + 1));
        let code := u32 (code + (Z.lor (Z.lor (Z.shiftl (b - 96) 16) (Z.shiftl p0 8)) p1 + 1)) in
        if c <? code then Ret bit else in_table_loop fuel table c (p + 2) code (negb bit)
  end.

Definition lre_is_in_table (c : Z) (table index_table : list Z) (index_table_len : Z) : res bool :=
  '(pos, code) ← get_index_pos c index_table index_table_len;
  if pos <? 0 then Ret false (* outside the table *)
  else in_table_loop (S (length table)) table c pos code false.

Definition lre_is_cased (c : Z) : res bool :=
  r ← find_run 17 case_conv_table1 c;
  match r with
  | Some _ => Ret true
  | None =>
      lre_is_in_table c unicode_prop_Cased1_table unicode_prop_Cased1_index
        (Z.quot (zlen unicode_prop_Cased1_index) 3)
  end.

Definition lre_is_case_ignorable (c : Z) : res bool :=
  lre_is_in_table c unicode_prop_Case_Ignorable_table unicode_prop_Case_Ignorable_index
    (Z.quot (zlen unicode_prop_Case_Ignorable_index) 3).

Definition lre_is_id_start (c : Z) : res bool :=
  lre_is_in_table c unicode_prop_ID_Start_table unicode_prop_ID_Start_index
    (Z.quot (zlen unicode_prop_ID_Start_index) 3).

Definition lre_is_id_continue (c : Z) : res bool :=
  s ← lre_is_id_start c;
  if (s : bool) then Ret true
  else
    lre_is_in_table c unicode_prop_ID_Continue1_table unicode_prop_ID_Continue1_index
      (Z.quot (zlen unicode_prop_ID_Continue1_index) 3).

(** ** What a table denotes *)

(** The points of one encoded byte group, and the bytes after it. *)
Definition decode_group (l : list Z) (code : Z) : option (list Z * list Z) :=
  match l with
  | [] => None
  | b :: l =>
      if b <? 64 then
        let c1 := code + (Z.shiftr b 3 + 1) in
        Some ([c1; c1 + (Z.land b 7 + 1)], l)
      else if 128 <=? b then Some ([code + (b - 128 + 1)], l)
      else if b <? 96 then
        match l with
        | p0 :: l => Some ([code + (Z.lor (Z.shiftl (b - 64) 8) p0 + 1)], l)
        | _ => None
        end
      else
        match l with
        | p0 :: p1 :: l =>
            Some ([code + (Z.lor (Z.lor (Z.shiftl (b - 96) 16) (Z.shiftl p0 8)) p1 + 1)], l)
        | _ => None
        end
  end.

(** Decoding from the start: where each group begins (offset and code point)
    and its points. *)
Fixpoint walk (fuel : nat) (l : list Z) (pos code : Z) : list (Z * Z * list Z) :=
  match fuel with
  | O => []
  | S fuel =>
      match decode_group l code with
      | None => []
      | Some (pts, l') =>
          (pos, code, pts) ::
          walk fuel l' (pos + (zlen l - zlen l')) (List.last pts 0)
      end
  end.

Definition table_walk (table : list Z) := walk (length table) table 0 0.
Definition walk_points (w : list (Z * Z * list Z)) : list Z := concat (map snd w).

(** The set of a table, as the points where membership changes. *)
Definition table_points (table : list Z) : list Z := walk_points (table_walk table).

(** ** The loop computes membership *)

(** Strictly increasing points in [lo, 2^32). *)
Fixpoint points_ok (lo : Z) (pts : list Z) : bool :=
  match pts with
  | [] => true
  | p :: pts => (lo <=? p) && (p <=? UINT32_MAX) && points_ok (p + 1) pts
  end.

Lemma points_ok_cons lo p pts :
  points_ok lo (p :: pts) = true <-> lo <= p <= UINT32_MAX /\ points_ok (p + 1) pts = true.
Proof.
  cbn. rewrite !andb_true_iff.
  split; [intros [[? ?] ?] | intros [? ?]]; split_and!; lia || done.
Qed.

Lemma points_ok_weaken lo lo' pts : lo' <= lo -> points_ok lo pts = true -> points_ok lo' pts = true.
Proof.
  destruct pts as [| p pts]; [done |]. rewrite !points_ok_cons. intros ? [? ?]. split; [lia | done].
Qed.

Lemma points_ok_between pts : forall lo, points_ok lo pts = true ->
  Forall (fun p => lo <= p <= UINT32_MAX) pts.
Proof.
  induction pts as [| p pts IH]; intros lo Hok; constructor;
    apply points_ok_cons in Hok as [Hp Hok]; [done |].
  eapply list.Forall_impl; [exact (IH _ Hok) |]. cbn. intros; lia.
Qed.

Lemma points_ok_app_r a : forall lo b, points_ok lo (a ++ b) = true -> points_ok lo b = true.
Proof.
  induction a as [| p a IH]; intros lo b Hok; [done |].
  cbn [app] in Hok. apply points_ok_cons in Hok as [Hp Hok].
  eapply points_ok_weaken; [| exact (IH _ _ Hok)]. lia.
Qed.

(** The first point of an increasing sequence decides, or flips. *)
Lemma mem_step p pts c :
  points_ok (p + 1) pts = true -> mem (p :: pts) c = if c <? p then false else negb (mem pts c).
Proof.
  intros Hok. cbn [mem]. destruct (Z.ltb_spec c p), (Z.leb_spec p c); try lia; [| done].
  rewrite mem_below; [done |]. eapply list.Forall_impl; [exact (points_ok_between _ _ Hok) |].
  cbn. intros. lia.
Qed.

Lemma last_app_ne {A} (a b : list A) d : b <> [] -> List.last (a ++ b) d = List.last b d.
Proof.
  intros Hb. induction a as [| x a IH]; [done |]. cbn. rewrite IH.
  destruct (a ++ b) eqn:E; [| done]. apply app_nil in E as [_ ->]. done.
Qed.

Lemma points_ok_last pts : forall lo d, points_ok lo pts = true ->
  Forall (fun p => p <= List.last pts d) pts.
Proof.
  induction pts as [| p pts IH]; intros lo d Hok; [constructor |].
  apply points_ok_cons in Hok as [Hp Hok]. pose proof (IH _ d Hok) as Hf.
  destruct pts as [| q pts]; [repeat constructor; cbn; lia |].
  change (List.last (p :: q :: pts) d) with (List.last (q :: pts) d). constructor; [| exact Hf].
  apply Forall_cons_iff in Hf as [Hq _]. apply points_ok_cons in Hok. lia.
Qed.

Lemma walk_points_cons e w : walk_points (e :: w) = e.2 ++ walk_points w.
Proof. reflexivity. Qed.

(** The continuation of a run of points after the point [q]. *)
Lemma last_rest q rest c :
  c < List.last (q :: rest) 0 -> q <= c -> c < List.last rest 0.
Proof. destruct rest; cbn; [lia | done]. Qed.

Lemma in_table_loop_spec c fuel : forall fl pre l code bit,
  0 <= c < List.last (walk_points (walk fl l (zlen pre) code)) 0 ->
  points_ok 0 (walk_points (walk fl l (zlen pre) code)) = true ->
  (length l < fuel)%nat ->
  in_table_loop fuel (pre ++ l) c (zlen pre) code bit =
  Ret (xorb bit (mem (walk_points (walk fl l (zlen pre) code)) c)).
Proof.
  induction fuel as [| fuel IH]; intros fl pre l code bit Hc Hok Hf; [lia |].
  destruct fl as [| fl]; [cbn in Hc; lia |]. cbn [walk] in *.
  (* the last point [q] of the group [g], and the rest of the bytes *)
  assert (forall g l' q bit,
    l = g ++ l' -> g <> [] ->
    let rest := walk_points (walk fl l' (zlen pre + (zlen l - zlen l')) q) in
    points_ok 0 (q :: rest) = true -> c < List.last (q :: rest) 0 ->
    (if c <? u32 q then Ret bit
     else in_table_loop fuel (pre ++ l) c (zlen pre + zlen g) (u32 q) (negb bit)) =
    Ret (xorb bit (mem (q :: rest) c))) as Hcont.
  { clear Hc Hok. intros g l' q b El Hg rest [Hq Hrest]%points_ok_cons Hlast. unfold UINT32_MAX in Hq.
    rewrite mem_step, wrap_small by (done || lia).
    destruct (Z.ltb_spec c q); [by destruct b |]. pose proof (last_rest _ _ _ Hlast) as Hl.
    assert (zlen pre + (zlen l - zlen l') = zlen (pre ++ g)) as Ez by (rewrite El; zlen_lia).
    unfold rest in *. rewrite Ez in *. rewrite El, app_assoc, <- zlen_app, (IH fl).
    - by destruct b, (mem _ c).
    - lia.
    - eapply points_ok_weaken; [| exact Hrest]. lia.
    - rewrite El, length_app in Hf. destruct g; [done |]. cbn in Hf. lia. }
  destruct l as [| b l]; [cbn in Hc; lia |].
  cbn [in_table_loop decode_group] in *. rewrite znth_at. cbn [of_opt mbind res_bind].
  destruct (b <? 64); [| destruct (128 <=? b); [| destruct (b <? 96)]].
  - set (c1 := code + (Z.shiftr b 3 + 1)) in *. rewrite walk_points_cons in *. cbn [snd app] in *.
    pose proof Hok as [Hc1 Hok2]%points_ok_cons. unfold UINT32_MAX in Hc1.
    rewrite (wrap_small 32 c1) by lia. rewrite (mem_step c1) by done.
    destruct (Z.ltb_spec c c1) as [| Hge]; [by destruct bit |].
    pose proof (Hcont [b] l (c1 + (Z.land b 7 + 1)) (negb bit) eq_refl ltac:(done)) as E.
    cbn zeta in E. change (zlen [b]) with 1 in E. rewrite E.
    + by destruct bit, (mem _ c).
    + eapply points_ok_weaken; [| exact Hok2]. lia.
    + apply (last_rest c1); [exact (proj2 Hc) | done].
  - rewrite walk_points_cons in *. cbn [snd app] in *.
    apply (Hcont [b] l _ bit eq_refl); [done | exact Hok | exact (proj2 Hc)].
  - destruct l as [| p0 l]; [cbn in Hc; lia |]. rewrite znth_at1. cbn [of_opt mbind res_bind].
    rewrite walk_points_cons in *. cbn [snd app] in *.
    replace (zlen pre + 1 + 1) with (zlen pre + zlen [b; p0]) by (unfold zlen; cbn; lia).
    apply (Hcont [b; p0] l _ bit eq_refl); [done | exact Hok | exact (proj2 Hc)].
  - destruct l as [| p0 [| p1 l]]; [cbn in Hc; lia .. |]. rewrite znth_at1.
    replace (zlen pre + 1 + 1) with (zlen pre + 2) by lia. rewrite znth_at2.
    cbn [of_opt mbind res_bind]. rewrite walk_points_cons in *. cbn [snd app] in *.
    replace (zlen pre + 1 + 2) with (zlen pre + zlen [b; p0; p1]) by (unfold zlen; cbn; lia).
    apply (Hcont [b; p0; p1] l _ bit eq_refl); [done | exact Hok | exact (proj2 Hc)].
Qed.

(** ** The index *)

(** Entry [i] of the index: the offset and the code point where decoding may
    start. *)
Definition index_entry (index_table : list Z) (i : Z) : res (Z * Z) :=
  v ← get_le24 index_table (i * 3);
  Ret ((i + 1) * UNICODE_INDEX_BLOCK_LEN + Z.shiftr v 21, Z.land v code_mask).

(** Decoding may start at [(pos, code)]: a group begins there, after an even
    number of points, all of them at most [code]. *)
Fixpoint aligned (w : list (Z * Z * list Z)) (pos code : Z) (even : bool) : bool :=
  match w with
  | [] => false
  | (p, cd, pts) :: w =>
      ((p =? pos) && (cd =? code) && even) ||
      (forallb (fun x => x <=? code) pts && aligned w pos code (xorb even (Z.odd (zlen pts))))
  end.

Definition entry_ok (table index_table : list Z) (i : Z) : bool :=
  match index_entry index_table i with
  | Ret (pos, code) => (0 <=? pos) && aligned (table_walk table) pos code true
  | _ => false
  end.

Definition index_ok (table index_table : list Z) : bool :=
  let n := Z.quot (zlen index_table) 3 in
  let pts := table_points table in
  (2 <=? n) && points_ok 0 pts && Z.even (zlen pts) && aligned (table_walk table) 0 0 true &&
  match get_le24 index_table 0, get_le24 index_table ((n - 1) * 3) with
  | Ret v, Ret last => (Z.land v code_mask <=? last) && (last =? List.last pts 0)
  | _, _ => false
  end &&
  forallb (fun i => entry_ok table index_table (Z.of_nat i)) (seq 0 (Z.to_nat (n - 1))).

Lemma walk_zlen_nonneg l code pts l' : decode_group l code = Some (pts, l') ->
  exists g, l = g ++ l' /\ g <> [].
Proof.
  destruct l as [| b l]; [done |]. cbn. intros E.
  destruct (b <? 64); [injection E as <- <-; by exists [b] |].
  destruct (128 <=? b); [injection E as <- <-; by exists [b] |].
  destruct (b <? 96); destruct l as [| p0 l]; try done; [injection E as <- <-; by exists [b; p0] |].
  destruct l as [| p1 l]; try done. injection E as <- <-. by exists [b; p0; p1].
Qed.

(** An aligned position splits the table there. *)
Lemma aligned_split pos code fl : forall pre l cd even,
  aligned (walk fl l (zlen pre) cd) pos code even = true ->
  exists l1 l2 fl' w1,
    l = l1 ++ l2 /\ zlen (pre ++ l1) = pos /\
    walk fl l (zlen pre) cd = w1 ++ walk fl' l2 pos code /\
    xorb even (Z.odd (zlen (walk_points w1))) = true /\
    Forall (fun p => p <= code) (walk_points w1).
Proof.
  induction fl as [| fl IH]; intros pre l cd even Ha; [discriminate |].
  cbn [walk] in Ha |- *. destruct (decode_group l cd) as [[pts l'] |] eqn:Ed; [| discriminate].
  cbn [aligned] in Ha. apply orb_true_iff in Ha as [Ha | Ha]; rewrite !andb_true_iff in Ha.
  - destruct Ha as [[? ?] ->]. assert (cd = code) as Ecd by lia. rewrite Ecd in *.
    exists [], l, (S fl), []. cbn [walk]. rewrite Ed, app_nil_r.
    assert (zlen pre = pos) as -> by lia. split_and!; auto.
  - destruct Ha as [Hle Ha]. apply walk_zlen_nonneg in Ed as (g & -> & _).
    replace (zlen pre + (zlen (g ++ l') - zlen l')) with (zlen (pre ++ g)) in Ha |- * by zlen_lia.
    destruct (IH _ _ _ _ Ha) as (l1 & l2 & fl' & w1 & -> & Ez & -> & Ex & Hf).
    exists (g ++ l1), l2, fl', ((zlen pre, cd, pts) :: w1). rewrite !app_assoc.
    split_and!; auto.
    + rewrite walk_points_cons, zlen_app, Z.odd_add. cbn [snd]. rewrite <- Ex.
      by destruct even, (Z.odd (zlen pts)), (Z.odd (zlen (walk_points w1))).
    + rewrite walk_points_cons. apply Forall_app; split; [| done]. apply list.Forall_forall.
      intros x Hx%list_elem_of_In. apply (proj1 (forallb_forall _ _) Hle) in Hx. lia.
Qed.

(** Decoding from an aligned position. *)
Lemma in_table_aligned table pos code c :
  aligned (table_walk table) pos code true = true -> points_ok 0 (table_points table) = true ->
  0 <= code <= c -> c < List.last (table_points table) 0 ->
  in_table_loop (S (length table)) table c pos code false = Ret (mem (table_points table) c).
Proof.
  intros Ha Hok Hc Hl. unfold table_points, table_walk in *.
  destruct (aligned_split pos code (length table) [] table 0 true Ha)
    as (l1 & l2 & fl & w1 & E & Ez & Ew & Ex & Hf).
  cbn [app] in *. change (zlen (@nil Z)) with 0 in Ew. rewrite Ew in *. clear Ew.
  assert (forall w, walk_points (w1 ++ w) = walk_points w1 ++ walk_points w) as Eapp.
  { intros w. unfold walk_points. by rewrite map_app, concat_app. }
  rewrite Eapp in *. rewrite mem_app, (mem_above (walk_points w1)) by forall_lia Hf.
  destruct (walk_points (walk fl l2 pos code)) as [| q r] eqn:Er.
  - (* no point left: the last one is at most [code] *)
    exfalso. rewrite app_nil_r in Hl. clear -Hl Hf Hc.
    induction Hf as [| x w Hx _ IH]; cbn in Hl; [lia |]. destruct w; [lia | auto].
  - rewrite last_app_ne in Hl by done. apply points_ok_app_r in Hok.
    rewrite E at 2. subst pos. rewrite (in_table_loop_spec c _ fl).
    + rewrite Er. destruct (Z.odd _); [done |]. by destruct (mem _ _).
    + rewrite Er. lia.
    + by rewrite Er.
    + rewrite E, length_app. lia.
Qed.

(** The binary search ends at an entry whose code point is at most [c]. *)
Lemma index_search_spec index_table c n :
  (forall i, 0 <= i < n -> exists v, get_le24 index_table (i * 3) = Ret v) ->
  forall fuel lo hi, 0 <= lo < hi -> hi <= n -> hi - lo <= Z.of_nat fuel ->
  (exists v, get_le24 index_table (lo * 3) = Ret v /\ Z.land v code_mask <= c) ->
  exists i v, index_search fuel index_table c lo hi = Ret i /\ lo <= i < hi /\
    get_le24 index_table (i * 3) = Ret v /\ Z.land v code_mask <= c.
Proof.
  intros Hin. induction fuel as [| fuel IH]; intros lo hi Hlo Hhi Hf (v & Ev & Hv); [lia |].
  cbn [index_search]. destruct (Z.ltb_spec 1 (hi - lo)).
  - rewrite Z.quot_div_nonneg by lia. set (m := (hi + lo) / 2).
    assert (lo < m < hi) by (unfold m; zdiv_lia).
    destruct (Hin m ltac:(lia)) as [vm Em]. rewrite Em. cbn [mbind res_bind].
    destruct (Z.ltb_spec c (Z.land vm code_mask)).
    + destruct (IH lo m) as (i & v' & E & ? & ? & ?); [lia | lia | lia | eauto |].
      exists i, v'. split_and!; auto; lia.
    + destruct (IH m hi) as (i & v' & E & ? & ? & ?); [lia | lia | lia | eauto |].
      exists i, v'. split_and!; auto; lia.
  - exists lo, v. split_and!; auto; lia.
Qed.

Lemma entry_ok_inv table index_table i v :
  entry_ok table index_table i = true -> get_le24 index_table (i * 3) = Ret v ->
  0 <= (i + 1) * UNICODE_INDEX_BLOCK_LEN + Z.shiftr v 21 /\
  aligned (table_walk table) ((i + 1) * UNICODE_INDEX_BLOCK_LEN + Z.shiftr v 21)
    (Z.land v code_mask) true = true.
Proof.
  unfold entry_ok, index_entry. intros He E. rewrite E in He. cbn [mbind res_bind] in He.
  apply andb_true_iff in He as [? ?]. split; [lia | done].
Qed.

Lemma entry_ok_Ret table index_table i :
  entry_ok table index_table i = true -> exists v, get_le24 index_table (i * 3) = Ret v.
Proof.
  unfold entry_ok, index_entry. destruct (get_le24 index_table (i * 3)); [eauto | discriminate ..].
Qed.

Lemma lre_is_in_table_spec table index_table c :
  index_ok table index_table = true -> 0 <= c ->
  lre_is_in_table c table index_table (Z.quot (zlen index_table) 3) =
  Ret (mem (table_points table) c).
Proof.
  intros Hok Hc. unfold index_ok in Hok. set (n := Z.quot (zlen index_table) 3) in *.
  set (pts := table_points table) in *. rewrite !andb_true_iff in Hok.
  destruct Hok as [[[[[Hn Hp] He] Ha0] Hlast] Hent].
  assert (forall i, 0 <= i < n - 1 -> entry_ok table index_table i = true) as Hent'.
  { intros i Hi. pose proof (proj1 (forallb_forall _ _) Hent (Z.to_nat i)) as Hx.
    cbn beta in Hx. rewrite Z2Nat.id in Hx by lia. apply Hx, in_seq. lia. }
  clear Hent. unfold lre_is_in_table, get_index_pos.
  destruct (get_le24 index_table 0) as [v0 | |] eqn:E0; [| discriminate ..].
  destruct (get_le24 index_table ((n - 1) * 3)) as [vl | |] eqn:El; [| discriminate ..].
  apply andb_true_iff in Hlast as [H0 Hlast%Z.eqb_eq]. cbn [mbind res_bind].
  assert (forall code pos, aligned (table_walk table) pos code true = true -> 0 <= pos ->
    0 <= code <= c -> c < vl ->
    (if pos <? 0 then Ret false
     else in_table_loop (S (length table)) table c pos code false) = Ret (mem pts c)) as Hloop.
  { intros code pos Ha Hpos Hcode Hcl. destruct (Z.ltb_spec pos 0); [lia |].
    apply in_table_aligned; [done | done | done |]. fold pts. lia. }
  destruct (Z.ltb_spec c (Z.land v0 code_mask)).
  - (* before the first entry: decode from the start *)
    apply (Hloop 0 0); auto; lia.
  - destruct (Z.leb_spec vl c).
    + (* above the last point *)
      rewrite mem_above, <- Z.negb_even, He; [done |].
      apply (points_ok_last _ 0 0) in Hp. fold pts in Hlast. forall_lia Hp.
    + destruct (index_search_spec index_table c (n - 1)
                 (fun i Hi => entry_ok_Ret table _ i (Hent' i Hi)) (S (Z.to_nat n)) 0 (n - 1))
        as (i & v & -> & Hi & Ev & Hv); [lia | lia | lia | eauto |].
      cbn [mbind res_bind]. rewrite Ev. cbn [mbind res_bind].
      destruct (entry_ok_inv _ _ _ _ (Hent' i Hi) Ev) as [Hpos Ha].
      apply Hloop; auto. split; [| done]. apply Z.land_nonneg. right. vm_compute. discriminate.
Qed.

(** ** The property functions *)
Lemma property_tables_ok :
  index_ok unicode_prop_Cased1_table unicode_prop_Cased1_index = true /\
  index_ok unicode_prop_Case_Ignorable_table unicode_prop_Case_Ignorable_index = true /\
  index_ok unicode_prop_ID_Start_table unicode_prop_ID_Start_index = true /\
  index_ok unicode_prop_ID_Continue1_table unicode_prop_ID_Continue1_index = true.
Proof. vm_compute. auto. Qed.

(** The tests that only search tables. *)
Lemma table_tests c : 0 <= c ->
  lre_is_case_ignorable c = Ret (mem (table_points unicode_prop_Case_Ignorable_table) c) /\
  lre_is_id_start c = Ret (mem (table_points unicode_prop_ID_Start_table) c) /\
  lre_is_id_continue c =
    Ret (mem (table_points unicode_prop_ID_Start_table) c || mem (table_points unicode_prop_ID_Continue1_table) c).
Proof.
  intros Hc. destruct property_tables_ok as (_ & H2 & H3 & H4).
  assert (lre_is_id_start c = Ret (mem (table_points unicode_prop_ID_Start_table) c)) as Es
    by exact (lre_is_in_table_spec _ _ c H3 Hc).
  refine (conj (lre_is_in_table_spec _ _ c H2 Hc) (conj Es _)).
  unfold lre_is_id_continue. rewrite Es. cbn [mbind res_bind].
  destruct (mem (table_points unicode_prop_ID_Start_table) c); [reflexivity |].
  exact (lre_is_in_table_spec _ _ c H4 Hc).
Qed.

(** C11: the indexed search in each compressed property table decides, for
    every code point, membership in the set that the whole table encodes: the
    index is consistent with the table and every access is in bounds. *)
Theorem unicode_properties_correct c :
  0 <= c ->
  lre_is_case_ignorable c = Ret (mem (table_points unicode_prop_Case_Ignorable_table) c) /\
  lre_is_id_start c = Ret (mem (table_points unicode_prop_ID_Start_table) c) /\
  lre_is_id_continue c =
    Ret (mem (table_points unicode_prop_ID_Start_table) c ||
         mem (table_points unicode_prop_ID_Continue1_table) c) /\
  exists b, (b = true <-> Exists (fun v => in_run 17 v c) case_conv_table1) /\
    lre_is_cased c = Ret (b || mem (table_points unicode_prop_Cased1_table) c).
Proof.
  intros Hc. destruct (table_tests c Hc) as (E1 & E2 & E3). refine (conj E1 (conj E2 (conj E3 _))). clear E1 E2 E3.
  destruct property_tables_ok as (H1 & _).
  unfold lre_is_cased.
  destruct (find_run_spec 17 case_conv_table1 c (proj1 case_table_ok) (proj2 case_table_ok))
    as [(idx & v & -> & Ev & Hin) | [-> Hn]]; cbn [mbind res_bind].
  - exists true. split; [| done]. split; [| done]. intros _. apply list.Exists_exists.
    exists v. split; [| done]. apply znth_Some in Ev as [_ Ev]. by apply list_elem_of_lookup_2 in Ev.
  - exists false. split; [| exact (lre_is_in_table_spec _ _ c H1 Hc)]. split; [done |].
    intros (v & Hv & Hin)%list.Exists_exists. rewrite list.Forall_forall in Hn.
    destruct (Hn v Hv Hin).
Qed.

Lemma unicode_properties_correct_witness :
  lre_is_case_ignorable 0x3A9 = Ret (mem (table_points unicode_prop_Case_Ignorable_table) 0x3A9) /\
  lre_is_id_start 0x3A9 = Ret (mem (table_points unicode_prop_ID_Start_table) 0x3A9) /\
  lre_is_id_continue 0x3A9 =
    Ret (mem (table_points unicode_prop_ID_Start_table) 0x3A9 ||
         mem (table_points unicode_prop_ID_Continue1_table) 0x3A9) /\
  exists b, (b = true <-> Exists (fun v => in_run 17 v 0x3A9) case_conv_table1) /\
    lre_is_cased 0x3A9 = Ret (b || mem (table_points unicode_prop_Cased1_table) 0x3A9).
Proof. apply (unicode_properties_correct 0x3A9). lia. Defined.
