(* ===== verification/UnicodeRange.v ===== *)
(** * libunicode.c: scripts, general categories and named properties

    [unicode_script], [unicode_general_category] and [unicode_prop] make the range
    of the characters that a name stands for.  A pointer that walks forward in a
    table or in a string is the rest of it from there, so a read past the end is a
    [Fault].  The caller passes an empty range, so the functions return the range
    instead; [cr_free] of a temporary range has no effect on the result, except in
    [fail_loop]. *)
From Stdlib Require Import ZArith Lia Bool.
From stdpp Require Import base numbers list.
From S2P Require Import Prelude Alloc Cutils CharRange UnicodeTables CaseConv.

(** ** Names *)

(** [strlen] *)
Fixpoint strlen (p : list Z) : res Z :=
  match p with
  | [] => Fault
  | b :: p => if b =? 0 then Ret 0 else n ← strlen p; Ret (n + 1)
  end.

(** [strchr(p, c) - p] *)
Fixpoint strchr (p : list Z) (c : Z) : res (option Z) :=
  match p with
  | [] => Fault
  | b :: p =>
      if b =? c then Ret (Some 0)
      else if b =? 0 then Ret None
      else r ← strchr p c; Ret (option_map (Z.add 1) r)
  end.

(** The inner loop: whether one of the names up to the next null byte is [name],
    and the pointer after it if not. *)
Fixpoint find_alias (fuel : nat) (p name : list Z) : res (bool * list Z) :=
  match fuel with
  | O => NoFuel
  | S fuel =>
      r ← strchr p 44;
      len ← match r with None => strlen p | Some n => Ret n end;
      s ← of_opt (zread p 0 len);
      if (len =? zlen name) && bool_decide (s = name) then Ret (true, p)
      else
        let p := drop (Z.to_nat (len + 1)) p in
        match r with
        | None => Ret (false, p)
        | Some _ => find_alias fuel p name
        end
  end.

Fixpoint find_name_loop (fuel : nat) (p : list Z) (pos : Z) (name : list Z) : res Z :=
  match fuel with
  | O => NoFuel
  | S fuel =>
      b ← of_opt (znth p 0);
      if b =? 0 then Ret (-1)
      else
        '(found, p) ← find_alias (length p) p name;
        if (found : bool) then Ret pos else find_name_loop fuel p (pos + 1) name
  end.

Definition unicode_find_name (name_table name : list Z) : res Z :=
  find_name_loop (length name_table) name_table 0 name.

(** ** Entries of the tables *)

(** [*p++] *)
Definition next_byte (p : list Z) : res (Z * list Z) :=
  match p with [] => Fault | b :: p => Ret (b, p) end.

(** An entry of [unicode_script_table]: [n], [v] and the pointer after it. *)
Definition script_entry (p : list Z) : res (Z * Z * list Z) :=
  '(b, p) ← next_byte p;
  let type := Z.shiftr b 7 in
  let n := Z.land b 127 in
  '(n, p) ← (if n <? 96 then Ret (n, p)
             else if n <? 112 then
               '(b1, p) ← next_byte p;
               Ret (Z.lor (Z.shiftl (n - 96) 8) b1 + 96, p)
             else
               '(b1, p) ← next_byte p;
               '(b2, p) ← next_byte p;
               Ret (Z.lor (Z.lor (Z.shiftl (n - 112) 16) (Z.shiftl b1 8)) b2 + (96 + 4096), p));
  if type =? 0 then Ret (n, 0, p)
  else '(v, p) ← next_byte p; Ret (n, v, p).

(** An entry of [unicode_script_ext_table]: [n], the [v_len] scripts and the
    pointer after them. *)
Definition script_ext_entry (p : list Z) : res (Z * list Z * list Z) :=
  '(b, p) ← next_byte p;
  '(n, p) ← (if b <? 128 then Ret (b, p)
             else if b <? 128 + 64 then
               '(b1, p) ← next_byte p;
               Ret (Z.lor (Z.shiftl (b - 128) 8) b1 + 128, p)
             else
               '(b1, p) ← next_byte p;
               '(b2, p) ← next_byte p;
               Ret (Z.lor (Z.lor (Z.shiftl (b - 128 - 64) 16) (Z.shiftl b1 8)) b2 + (128 + 16384), p));
  '(v_len, p) ← next_byte p;
  l ← of_opt (zread p 0 v_len);
  Ret (n, l, drop (Z.to_nat v_len) p).

(** An entry of [unicode_gc_table]: [n], [v] and the pointer after it. *)
Definition gc_entry (p : list Z) : res (Z * Z * list Z) :=
  '(b, p) ← next_byte p;
  let n := Z.shiftr b 5 in
  let v := Z.land b 31 in
  if n =? 7 then
    '(n, p) ← next_byte p;
    if n <? 128 then Ret (n + 7, v, p)
    else if n <? 128 + 64 then
      '(b1, p) ← next_byte p;
      Ret (Z.lor (Z.shiftl (n - 128) 8) b1 + (7 + 128), v, p)
    else
      '(b1, p) ← next_byte p;
      '(b2, p) ← next_byte p;
      Ret (Z.lor (Z.lor (Z.shiftl (n - 128 - 64) 16) (Z.shiftl b1 8)) b2 + (7 + 128 + 16384), v, p)
  else Ret (n, v, p).

(** The bits of a mask of categories. *)
Definition M (id : Z) : Z := Z.shiftl 1 id.
Definition masks (l : list Z) : Z := foldr (fun id m => Z.lor (M id) m) 0 l.

Section ranges.
Context `{Realloc is_u32}.

Definition add_when (b : bool) (cr : CharRange) (c c1 : Z) : res (CharRange * Z) :=
  if b then cr_add_interval cr c c1 else Ret (cr, 0).

(** ** Scripts *)
Fixpoint script_loop (fuel : nat) (script_idx : Z) (p : list Z) (c : Z) (cr : CharRange) : res (CharRange * Z) :=
  match fuel with
  | O => NoFuel
  | S fuel =>
      match p with
      | [] => Ret (cr, 0)
      | _ =>
          '(n, v, p) ← script_entry p;
          let c1 := u32 (c + n + 1) in
          '(cr, r) ← add_when (v =? script_idx) cr c c1;
          if negb (r =? 0) then Ret (cr, -1) else script_loop fuel script_idx p c1 cr
      end
  end.

Fixpoint script_ext_loop (fuel : nat) (is_common : bool) (script_idx : Z) (p : list Z) (c : Z) (cr : CharRange)
    : res (CharRange * Z) :=
  match fuel with
  | O => NoFuel
  | S fuel =>
      match p with
      | [] => Ret (cr, 0)
      | _ =>
          '(n, v, p) ← script_ext_entry p;
          let c1 := u32 (c + n + 1) in
          let has := if is_common then negb (zlen v =? 0) else existsb (fun x => x =? script_idx) v in
          '(cr, r) ← add_when has cr c c1;
          if negb (r =? 0) then Ret (cr, -1) else script_ext_loop fuel is_common script_idx p c1 cr
      end
  end.

(** From the label [fail]: it frees the temporary ranges and jumps to itself.
    The second time the blocks are already free. *)
Fixpoint fail_loop (fuel : nat) (is_ext freed : bool) (cr1 cr2 : CharRange) : res (CharRange * Z) :=
  match fuel with
  | O => NoFuel
  | S fuel =>
      if is_ext && freed && ((0 <? cr_size cr1) || (0 <? cr_size cr2)) then Fault
      else fail_loop fuel is_ext true cr1 cr2
  end.

Definition unicode_script (fuel : nat) (script_name : list Z) (is_ext : bool) : res (CharRange * Z) :=
  script_idx ← unicode_find_name unicode_script_name_table script_name;
  if script_idx <? 0 then Ret (cr_init, -2)
  else
    (* Note: we remove the "Unknown" Script *)
    let script_idx := script_idx + (UNICODE_SCRIPT_Unknown + 1) in
    let is_common := (script_idx =? UNICODE_SCRIPT_Common) || (script_idx =? UNICODE_SCRIPT_Inherited) in
    '(cr1, r) ← script_loop (S (length unicode_script_table)) script_idx unicode_script_table 0 cr_init;
    if negb (r =? 0) then fail_loop fuel is_ext false cr1 cr_init
    else if is_ext then
      (* add the script extensions *)
      '(cr2, r) ← script_ext_loop (S (length unicode_script_ext_table)) is_common script_idx unicode_script_ext_table 0 cr_init;
      if negb (r =? 0) then fail_loop fuel is_ext false cr1 cr2
      else if is_common then
        (* remove all the characters with script extensions *)
        '(cr2, r) ← cr_invert cr2;
        if negb (r =? 0) then fail_loop fuel is_ext false cr1 cr2
        else
          '(cr, r) ← cr_op cr_init (cr_points cr1) (cr_len cr1) (cr_points cr2) (cr_len cr2) CR_OP_INTER;
          if negb (r =? 0) then fail_loop fuel is_ext false cr1 cr2 else Ret (cr, 0)
      else
        '(cr, r) ← cr_op cr_init (cr_points cr1) (cr_len cr1) (cr_points cr2) (cr_len cr2) CR_OP_UNION;
        if negb (r =? 0) then fail_loop fuel is_ext false cr1 cr2 else Ret (cr, 0)
    else Ret (cr1, 0).

(** ** General categories *)

(** [for(; c0 < c; c0 += 2)] *)
Fixpoint add_every_other (fuel : nat) (cr : CharRange) (c0 c : Z) : res (CharRange * Z) :=
  match fuel with
  | O => NoFuel
  | S fuel =>
      if c0 <? c then
        '(cr, r) ← cr_add_interval cr c0 (u32 (c0 + 1));
        if negb (r =? 0) then Ret (cr, -1) else add_every_other fuel cr (u32 (c0 + 2)) c
      else Ret (cr, 0)
  end.

(** The characters of [gc_mask] in the run [v] from [c0] to [c]. *)
Definition gc_add_run (cr : CharRange) (gc_mask c0 c v : Z) : res (CharRange * Z) :=
  if v =? 31 then
    (* run of Lu / Ll *)
    let b := Z.land gc_mask (Z.lor (M UNICODE_GC_Lu) (M UNICODE_GC_Ll)) in
    if negb (b =? 0) then
      if b =? Z.lor (M UNICODE_GC_Lu) (M UNICODE_GC_Ll) then cr_add_interval cr c0 c
      else
        let c0 := u32 (c0 + b2z (negb (Z.land gc_mask (M UNICODE_GC_Ll) =? 0))) in
        add_every_other (S (Z.to_nat (c - c0))) cr c0 c
    else Ret (cr, 0)
  else add_when (Z.land (Z.shiftr gc_mask v) 1 =? 1) cr c0 c.

Fixpoint gc_loop (fuel : nat) (gc_mask : Z) (p : list Z) (c : Z) (cr : CharRange) : res (CharRange * Z) :=
  match fuel with
  | O => NoFuel
  | S fuel =>
      match p with
      | [] => Ret (cr, 0)
      | _ =>
          '(n, v, p) ← gc_entry p;
          let c0 := c in
          let c := u32 (c + (n + 1)) in
          '(cr, r) ← gc_add_run cr gc_mask c0 c v;
          if negb (r =? 0) then Ret (cr, -1) else gc_loop fuel gc_mask p c cr
      end
  end.

Definition unicode_general_category1 (cr : CharRange) (gc_mask : Z) : res (CharRange * Z) :=
  gc_loop (S (length unicode_gc_table)) gc_mask unicode_gc_table 0 cr.

Definition unicode_gc_mask_table : list Z := [
  masks [UNICODE_GC_Lu; UNICODE_GC_Ll; UNICODE_GC_Lt]; (* LC *)
  masks [UNICODE_GC_Lu; UNICODE_GC_Ll; UNICODE_GC_Lt; UNICODE_GC_Lm; UNICODE_GC_Lo]; (* L *)
  masks [UNICODE_GC_Mn; UNICODE_GC_Mc; UNICODE_GC_Me]; (* M *)
  masks [UNICODE_GC_Nd; UNICODE_GC_Nl; UNICODE_GC_No]; (* N *)
  masks [UNICODE_GC_Sm; UNICODE_GC_Sc; UNICODE_GC_Sk; UNICODE_GC_So]; (* S *)
  masks [UNICODE_GC_Pc; UNICODE_GC_Pd; UNICODE_GC_Ps; UNICODE_GC_Pe; UNICODE_GC_Pi; UNICODE_GC_Pf; UNICODE_GC_Po]; (* P *)
  masks [UNICODE_GC_Zs; UNICODE_GC_Zl; UNICODE_GC_Zp]; (* Z *)
  masks [UNICODE_GC_Cc; UNICODE_GC_Cf; UNICODE_GC_Cs; UNICODE_GC_Co; UNICODE_GC_Cn] (* C *)
].

Definition unicode_general_category (gc_name : list Z) : res (CharRange * Z) :=
  gc_idx ← unicode_find_name unicode_gc_name_table gc_name;
  if gc_idx <? 0 then Ret (cr_init, -2)
  else
    gc_mask ← (if gc_idx <=? UNICODE_GC_Co then Ret (u32 (Z.shiftl 1 gc_idx))
               else of_opt (znth unicode_gc_mask_table (gc_idx - UNICODE_GC_LC)));
    unicode_general_category1 cr_init gc_mask.

(** ** Property tables *)
Fixpoint prop_loop (fuel : nat) (p : list Z) (c : Z) (bit : bool) (cr : CharRange) : res (CharRange * Z) :=
  match fuel with
  | O => NoFuel
  | S fuel =>
      match p with
      | [] => Ret (cr, 0)
      | b :: p =>
          let c0 := c in
          '(cr, r, bit, c0, c, p) ←
            (if b <? 64 then
               let c := u32 (c + (Z.shiftr b 3 + 1)) in
               '(cr, r) ← add_when bit cr c0 c;
               Ret (cr, r, negb bit, c, u32 (c + (Z.land b 7 + 1)), p)
             else if 128 <=? b then Ret (cr, 0, bit, c0, u32 (c + (b - 128 + 1)), p)
             else if b <? 96 then
               '(p0, p) ← next_byte p;
               Ret (cr, 0, bit, c0, u32 (c + (Z.lor (Z.shiftl (b - 64) 8) p0 + 1)), p)
             else
               '(p0, p) ← next_byte p;
               '(p1, p) ← next_byte p;
               Ret (cr, 0, bit, c0, u32 (c + (Z.lor (Z.lor (Z.shiftl (b - 96) 16) (Z.shiftl p0 8)) p1 + 1)), p));
          if negb (r =? 0) then Ret (cr, -1)
          else
            '(cr, r) ← add_when bit cr c0 c;
            if negb (r =? 0) then Ret (cr, -1) else prop_loop fuel p c (negb bit) cr
      end
  end.

Definition unicode_prop1 (cr : CharRange) (prop_idx : Z) : res (CharRange * Z) :=
  t ← of_opt (znth unicode_prop_table prop_idx);
  len ← of_opt (znth unicode_prop_len_table prop_idx);
  p ← of_opt (zread t 0 len);
  prop_loop (S (length p)) p 0 false cr.

(** ** Case *)
Definition CASE_U : Z := Z.shiftl 1 0.
Definition CASE_L : Z := Z.shiftl 1 1.
Definition CASE_F : Z := Z.shiftl 1 2.

Definition case_bits (l : list Z) : Z := foldr Z.lor 0 l.

(** [MR(x) | ...] *)
Definition run_types (l : list Z) : Z := foldr (fun t m => Z.lor (Z.shiftl 1 t) m) 0 l.

Definition tab_run_mask : list Z := [
  run_types [RUN_TYPE_U; RUN_TYPE_UF; RUN_TYPE_UL; RUN_TYPE_LSU; RUN_TYPE_U2L_399_EXT2; RUN_TYPE_UF_D20;
             RUN_TYPE_UF_D1_EXT; RUN_TYPE_U_EXT; RUN_TYPE_U_EXT2; RUN_TYPE_U_EXT3];
  run_types [RUN_TYPE_L; RUN_TYPE_LF; RUN_TYPE_UL; RUN_TYPE_LSU; RUN_TYPE_U2L_399_EXT2; RUN_TYPE_LF_EXT; RUN_TYPE_L_EXT2];
  run_types [RUN_TYPE_UF; RUN_TYPE_LF; RUN_TYPE_UL; RUN_TYPE_LSU; RUN_TYPE_U2L_399_EXT2; RUN_TYPE_LF_EXT; RUN_TYPE_UF_D20;
             RUN_TYPE_UF_D1_EXT; RUN_TYPE_LF_EXT]
].

(** [for(i = 0; i < len; i += 2)] *)
Fixpoint add_alternate (fuel : nat) (cr : CharRange) (code len i : Z) : res (CharRange * Z) :=
  match fuel with
  | O => NoFuel
  | S fuel =>
      if i <? len then
        '(cr, r) ← cr_add_interval cr (u32 (code + i)) (u32 (code + i + 1));
        if negb (r =? 0) then Ret (cr, -1) else add_alternate fuel cr code len (u32 (i + 2))
      else Ret (cr, 0)
  end.

(** The characters of [case_mask] in the run [code], [len] of the given type. *)
Definition case_add_run (cr : CharRange) (case_mask type code len : Z) : res (CharRange * Z) :=
  let upper := negb (Z.land case_mask CASE_U =? 0) in
  let both := upper && negb (Z.land case_mask (Z.lor CASE_L CASE_F) =? 0) in
  if (type =? RUN_TYPE_UL) && negb both then
    add_alternate (S (Z.to_nat len)) cr (u32 (code + b2z upper)) len 0
  else if (type =? RUN_TYPE_LSU) && negb both then
    '(cr, r) ← add_when (negb upper) cr code (u32 (code + 1));
    if negb (r =? 0) then Ret (cr, -1)
    else
      '(cr, r) ← cr_add_interval cr (u32 (code + 1)) (u32 (code + 2));
      if negb (r =? 0) then Ret (cr, -1)
      else add_when upper cr (u32 (code + 2)) (u32 (code + 3))
  else cr_add_interval cr code (u32 (code + len)).

Fixpoint case_loop (mask case_mask : Z) (table : list Z) (cr : CharRange) : res (CharRange * Z) :=
  match table with
  | [] => Ret (cr, 0)
  | v :: table =>
      let type := Z.land (Z.shiftr v (32 - 17 - 7 - 4)) 15 in
      let code := run_code 17 v in
      let len := run_len 17 v in
      if Z.land (Z.shiftr mask type) 1 =? 1 then
        '(cr, r) ← case_add_run cr case_mask type code len;
        if negb (r =? 0) then Ret (cr, -1) else case_loop mask case_mask table cr
      else case_loop mask case_mask table cr
  end.

(** The types of the runs of [case_mask]. *)
Fixpoint case_run_mask (i case_mask : Z) (tab : list Z) : Z :=
  match tab with
  | [] => 0
  | m :: tab =>
      Z.lor (if Z.land (Z.shiftr case_mask i) 1 =? 1 then m else 0) (case_run_mask (i + 1) case_mask tab)
  end.

Definition unicode_case1 (cr : CharRange) (case_mask : Z) : res (CharRange * Z) :=
  if case_mask =? 0 then Ret (cr, 0)
  else case_loop (case_run_mask 0 case_mask tab_run_mask) case_mask case_conv_table1 cr.

(** ** Operations on a stack of ranges *)
Inductive PropOPEnum : Type :=
  | POP_GC (gc_mask : Z)
  | POP_PROP (prop_idx : Z)
  | POP_CASE (case_mask : Z)
  | POP_UNION
  | POP_INTER
  | POP_XOR
  | POP_INVERT
  | POP_END.

Definition POP_STACK_LEN_MAX : Z := 4.

(** [op - POP_UNION + CR_OP_UNION] *)
Definition pop_cr_op (op : PropOPEnum) : CharRangeOp :=
  match op with POP_INTER => CR_OP_INTER | POP_XOR => CR_OP_XOR | _ => CR_OP_UNION end.

(** An operation that pushes the range that [f] makes. *)
Definition pop_push (stack : list CharRange) (f : CharRange -> res (CharRange * Z)) : res (list CharRange * Z) :=
  _ ← assert_ (zlen stack <? POP_STACK_LEN_MAX);
  '(cr, r) ← f cr_init;
  Ret (cr :: stack, r).

(** One operation; the top of the stack is the head of the list. *)
Definition pop_step (op : PropOPEnum) (stack : list CharRange) : res (list CharRange * Z) :=
  match op with
  | POP_GC a => pop_push stack (fun cr => unicode_general_category1 cr a)
  | POP_PROP a => pop_push stack (fun cr => unicode_prop1 cr a)
  | POP_CASE a => pop_push stack (fun cr => unicode_case1 cr a)
  | POP_UNION | POP_INTER | POP_XOR =>
      _ ← assert_ ((2 <=? zlen stack) && (zlen stack <? POP_STACK_LEN_MAX));
      match stack with
      | cr2 :: cr1 :: rest =>
          '(cr3, r) ← cr_op cr_init (cr_points cr1) (cr_len cr1) (cr_points cr2) (cr_len cr2) (pop_cr_op op);
          Ret (cr3 :: rest, r)
      | _ => Fault
      end
  | POP_INVERT =>
      _ ← assert_ (1 <=? zlen stack);
      match stack with
      | cr :: rest => '(cr, r) ← cr_invert cr; Ret (cr :: rest, r)
      | [] => Fault
      end
  | POP_END => Ret (stack, 0)
  end.

Fixpoint prop_ops_loop (ops : list PropOPEnum) (stack : list CharRange) : res (CharRange * Z) :=
  match ops with
  | [] => Fault (* no argument is left *)
  | POP_END :: _ =>
      _ ← assert_ (zlen stack =? 1);
      match stack with
      | cr :: _ => cr_copy cr_init cr
      | [] => Fault
      end
  | op :: ops =>
      '(stack, r) ← pop_step op stack;
      if negb (r =? 0) then Ret (cr_init, -1) else prop_ops_loop ops stack
  end.

Definition unicode_prop_ops (ops : list PropOPEnum) : res (CharRange * Z) := prop_ops_loop ops [].

(** ** Named properties *)
Definition prop_range (prop_idx : Z) : res (CharRange * Z) :=
  if prop_idx =? UNICODE_PROP_ASCII then
    cr_add_interval cr_init 0 (0x7f + 1)
  else if prop_idx =? UNICODE_PROP_Any then
    cr_add_interval cr_init 0 (0x10ffff + 1)
  else if prop_idx =? UNICODE_PROP_Assigned then
    unicode_prop_ops [POP_GC (M UNICODE_GC_Cn); POP_INVERT; POP_END]
  else if prop_idx =? UNICODE_PROP_Math then
    unicode_prop_ops [POP_GC (M UNICODE_GC_Sm); POP_PROP UNICODE_PROP_Other_Math; POP_UNION; POP_END]
  else if prop_idx =? UNICODE_PROP_Lowercase then
    unicode_prop_ops [POP_GC (M UNICODE_GC_Ll); POP_PROP UNICODE_PROP_Other_Lowercase; POP_UNION; POP_END]
  else if prop_idx =? UNICODE_PROP_Uppercase then
    unicode_prop_ops [POP_GC (M UNICODE_GC_Lu); POP_PROP UNICODE_PROP_Other_Uppercase; POP_UNION; POP_END]
  else if prop_idx =? UNICODE_PROP_Cased then
    unicode_prop_ops [POP_GC (masks [UNICODE_GC_Lu; UNICODE_GC_Ll; UNICODE_GC_Lt]);
      POP_PROP UNICODE_PROP_Other_Uppercase; POP_UNION; POP_PROP UNICODE_PROP_Other_Lowercase; POP_UNION;
      POP_END]
  else if prop_idx =? UNICODE_PROP_Alphabetic then
    unicode_prop_ops [
      POP_GC (masks [UNICODE_GC_Lu; UNICODE_GC_Ll; UNICODE_GC_Lt; UNICODE_GC_Lm; UNICODE_GC_Lo; UNICODE_GC_Nl]);
      POP_PROP UNICODE_PROP_Other_Uppercase; POP_UNION; POP_PROP UNICODE_PROP_Other_Lowercase; POP_UNION;
      POP_PROP UNICODE_PROP_Other_Alphabetic; POP_UNION; POP_END]
  else if prop_idx =? UNICODE_PROP_Grapheme_Base then
    unicode_prop_ops [
      POP_GC (masks [UNICODE_GC_Cc; UNICODE_GC_Cf; UNICODE_GC_Cs; UNICODE_GC_Co; UNICODE_GC_Cn; UNICODE_GC_Zl; UNICODE_GC_Zp; UNICODE_GC_Me; UNICODE_GC_Mn]);
      POP_PROP UNICODE_PROP_Other_Grapheme_Extend; POP_UNION; POP_INVERT; POP_END]
  else if prop_idx =? UNICODE_PROP_Grapheme_Extend then
    unicode_prop_ops [POP_GC (masks [UNICODE_GC_Me; UNICODE_GC_Mn]);
      POP_PROP UNICODE_PROP_Other_Grapheme_Extend; POP_UNION; POP_END]
  else if prop_idx =? UNICODE_PROP_XID_Start then
    unicode_prop_ops [
      POP_GC (masks [UNICODE_GC_Lu; UNICODE_GC_Ll; UNICODE_GC_Lt; UNICODE_GC_Lm; UNICODE_GC_Lo; UNICODE_GC_Nl]);
      POP_PROP UNICODE_PROP_Other_ID_Start; POP_UNION; POP_PROP UNICODE_PROP_Pattern_Syntax;
      POP_PROP UNICODE_PROP_Pattern_White_Space; POP_UNION; POP_PROP UNICODE_PROP_XID_Start1; POP_UNION;
      POP_INVERT; POP_INTER; POP_END]
  else if prop_idx =? UNICODE_PROP_XID_Continue then
    unicode_prop_ops [
      POP_GC (masks [UNICODE_GC_Lu; UNICODE_GC_Ll; UNICODE_GC_Lt; UNICODE_GC_Lm; UNICODE_GC_Lo; UNICODE_GC_Nl; UNICODE_GC_Mn; UNICODE_GC_Mc; UNICODE_GC_Nd; UNICODE_GC_Pc]);
      POP_PROP UNICODE_PROP_Other_ID_Start; POP_UNION; POP_PROP UNICODE_PROP_Other_ID_Continue; POP_UNION;
      POP_PROP UNICODE_PROP_Pattern_Syntax; POP_PROP UNICODE_PROP_Pattern_White_Space; POP_UNION;
      POP_PROP UNICODE_PROP_XID_Continue1; POP_UNION; POP_INVERT; POP_INTER; POP_END]
  else if prop_idx =? UNICODE_PROP_Changes_When_Uppercased then
    unicode_case1 cr_init CASE_U
  else if prop_idx =? UNICODE_PROP_Changes_When_Lowercased then
    unicode_case1 cr_init CASE_L
  else if prop_idx =? UNICODE_PROP_Changes_When_Casemapped then
    unicode_case1 cr_init (case_bits [CASE_U; CASE_L; CASE_F])
  else if prop_idx =? UNICODE_PROP_Changes_When_Titlecased then
    unicode_prop_ops [POP_CASE CASE_U; POP_PROP UNICODE_PROP_Changes_When_Titlecased1; POP_XOR; POP_END]
  else if prop_idx =? UNICODE_PROP_Changes_When_Casefolded then
    unicode_prop_ops [POP_CASE CASE_F; POP_PROP UNICODE_PROP_Changes_When_Casefolded1; POP_XOR; POP_END]
  else if prop_idx =? UNICODE_PROP_Changes_When_NFKC_Casefolded then
    unicode_prop_ops [POP_CASE CASE_F; POP_PROP UNICODE_PROP_Changes_When_NFKC_Casefolded1; POP_XOR;
      POP_END]
  else if prop_idx =? UNICODE_PROP_ID_Continue then
    unicode_prop_ops [POP_PROP UNICODE_PROP_ID_Start; POP_PROP UNICODE_PROP_ID_Continue1; POP_XOR; POP_END]
  else if zlen unicode_prop_table <=? prop_idx then Ret (cr_init, -2)
  else unicode_prop1 cr_init prop_idx.

Definition unicode_prop (prop_name : list Z) : res (CharRange * Z) :=
  prop_idx ← unicode_find_name unicode_prop_name_table prop_name;
  if prop_idx <? 0 then Ret (cr_init, -2)
  else prop_range (prop_idx + UNICODE_PROP_ASCII_Hex_Digit).
End ranges.
