(* ===== verification/UnicodeSets.v ===== *)
(** * libunicode.c: names, and ranges as sets of characters

    [unicode_find_name] on a table of string literals is the position of the first
    literal that has the name among its parts between commas.  [denotes] says which
    set a range is that need not be in normal form; intervals that increase are
    added to it with [add_all], and it is combined with another. *)
From Stdlib Require Import ZArith Lia Bool.
From stdpp Require Import base numbers list strings.
From S2P Require Import Prelude Alloc Cutils CharRange CharRangeFacts UnicodeTables CaseConv UnicodeRange.

(** ** Names *)

(** The parts of a literal between commas. *)
Fixpoint split_comma (l : list Z) : list (list Z) :=
  match l with
  | [] => [[]]
  | b :: l =>
      if b =? 44 then [] :: split_comma l
      else match split_comma l with h :: t => (b :: h) :: t | [] => [[b]] end
  end.

(** Where the first literal is that has the name [name]. *)
Fixpoint name_index (l : list string) (name : list Z) : option Z :=
  match l with
  | [] => None
  | s :: l =>
      if bool_decide (name ∈ split_comma (string_chars s)) then Some 0
      else option_map (Z.add 1) (name_index l name)
  end.

(** A literal of a table of names: not empty, without null bytes. *)
Definition literal_ok (s : string) : bool :=
  match string_chars s with [] => false | l => forallb (fun b => negb (b =? 0)) l end.

Lemma split_comma_plain l : 44 ∉ l -> split_comma l = [l].
Proof.
  induction l as [| b l IH]; intros H; cbn [split_comma]; [done |]. rewrite not_elem_of_cons in H.
  destruct (Z.eqb_spec b 44); [destruct H; congruence |]. by rewrite IH by tauto.
Qed.

Lemma split_comma_app a l : 44 ∉ a -> split_comma (a ++ 44 :: l) = a :: split_comma l.
Proof.
  induction a as [| b a IH]; intros H; cbn [split_comma app]; [done |]. rewrite not_elem_of_cons in H.
  destruct (Z.eqb_spec b 44); [destruct H; congruence |]. by rewrite IH by tauto.
Qed.

Lemma comma_cases (l : list Z) : 44 ∉ l \/ exists a k, l = a ++ 44 :: k /\ 44 ∉ a.
Proof.
  destruct (decide (44 ∈ l)) as [H | H]; [right | by left].
  apply list_elem_of_split_l in H as (a & k & -> & H). by exists a, k.
Qed.

Lemma strlen_app l p : 0 ∉ l -> strlen (l ++ 0 :: p) = Ret (zlen l).
Proof.
  induction l as [| b l IH]; intros H; cbn [strlen app]; [done |]. rewrite not_elem_of_cons in H.
  destruct (Z.eqb_spec b 0); [destruct H; congruence |]. rewrite IH by tauto. cbn [mbind res_bind]. f_equal. zlen_lia.
Qed.

Lemma strchr_plain l p : 0 ∉ l -> 44 ∉ l -> strchr (l ++ 0 :: p) 44 = Ret None.
Proof.
  induction l as [| b l IH]; intros H0 H; cbn [strchr app]; [done |]. rewrite not_elem_of_cons in H0, H.
  destruct (Z.eqb_spec b 44), (Z.eqb_spec b 0); [destruct H0, H; congruence .. |]. by rewrite IH by tauto.
Qed.

Lemma strchr_app a p : 0 ∉ a -> 44 ∉ a -> strchr (a ++ 44 :: p) 44 = Ret (Some (zlen a)).
Proof.
  induction a as [| b l IH]; intros H0 H; cbn [strchr app]; [done |]. rewrite not_elem_of_cons in H0, H.
  destruct (Z.eqb_spec b 44), (Z.eqb_spec b 0); [destruct H0, H; congruence .. |]. rewrite IH by tauto.
  cbn [mbind res_bind option_map]. do 2 f_equal. zlen_lia.
Qed.

Lemma zread_app {A} (a k : list A) : zread (a ++ k) 0 (zlen a) = Some a.
Proof. rewrite zread_in by zlen_lia. by rewrite drop_0, take_zlen_app. Qed.

Lemma drop_next {A} (a : list A) x k : drop (Z.to_nat (zlen a + 1)) (a ++ x :: k) = k.
Proof.
  replace (zlen a + 1) with (zlen (a ++ [x])) by zlen_lia. change (x :: k) with ([x] ++ k). by rewrite app_assoc, drop_zlen_app.
Qed.

(** The comparison of one part with the name. *)
Lemma name_eqb (a name : list Z) : (zlen a =? zlen name) && bool_decide (a = name) = bool_decide (a = name).
Proof. case_bool_decide as E; [by rewrite E, Z.eqb_refl | apply andb_false_r]. Qed.

Lemma find_alias_spec fuel : forall l p name, 0 ∉ l -> (length l < fuel)%nat ->
  (name ∈ split_comma l /\ exists q, find_alias fuel (l ++ 0 :: p) name = Ret (true, q)) \/
  (name ∉ split_comma l /\ find_alias fuel (l ++ 0 :: p) name = Ret (false, p)).
Proof.
  induction fuel as [| fuel IH]; intros l p name H0 Hf; [lia |]. cbn [find_alias].
  destruct (comma_cases l) as [H | (a & k & -> & H)].
  - rewrite strchr_plain, split_comma_plain by done. cbn [mbind res_bind]. rewrite strlen_app by done. cbn [mbind res_bind]. rewrite zread_app.
    cbn [mbind res_bind of_opt]. rewrite name_eqb, drop_next, list_elem_of_singleton.
    case_bool_decide; [left | right]; eauto.
  - rewrite not_elem_of_app, not_elem_of_cons in H0. rewrite <- app_assoc. cbn [app].
    rewrite strchr_app, split_comma_app by tauto. cbn [mbind res_bind]. rewrite zread_app.
    cbn [mbind res_bind of_opt]. rewrite name_eqb, drop_next, elem_of_cons.
    rewrite length_app in Hf. cbn in Hf. case_bool_decide; [left; eauto |].
    destruct (IH k p name) as [[Hin E] | [Hin E]]; [tauto | lia | left; eauto | right; split; [by intros [] | done]].
Qed.

Lemma literals_cons s l : literals (s :: l) = string_chars s ++ 0 :: literals l.
Proof. unfold literals. cbn. by rewrite <- !app_assoc. Qed.

Lemma literals_nonempty l : literals l <> [].
Proof. unfold literals. by destruct (concat _). Qed.

Lemma find_name_loop_spec name l : forall fuel pos, forallb literal_ok l = true -> (length (literals l) <= fuel)%nat ->
  find_name_loop fuel (literals l) pos name =
  Ret (match name_index l name with Some k => pos + k | None => -1 end).
Proof.
  induction l as [| s l IH]; intros fuel pos Hok Hf; (destruct fuel as [| fuel]; [destruct (literals _) eqn:E in Hf; [by destruct (literals_nonempty _ E) | cbn in Hf; lia] |]); [done |].
  cbn [forallb] in Hok. apply andb_true_iff in Hok as [Hs Hok]. cbn [find_name_loop name_index].
  rewrite literals_cons in Hf |- *. unfold literal_ok in Hs. destruct (string_chars s) as [| b k] eqn:Es; [done |].
  assert (0 ∉ b :: k) as H0.
  { intros Hin. rewrite forallb_forall in Hs. specialize (Hs 0). rewrite <- list_elem_of_In in Hs. by apply Hs in Hin. }
  change (znth ((b :: k) ++ 0 :: literals l) 0) with (Some b). cbn [of_opt mbind res_bind].
  destruct (Z.eqb_spec b 0); [subst; by contradict H0; left |]. rewrite length_app in Hf. cbn [length] in Hf.
  destruct (find_alias_spec (length ((b :: k) ++ 0 :: literals l)) (b :: k) (literals l) name H0) as [[H [q ->]] | [H ->]].
  - rewrite length_app. cbn. lia.
  - cbn [mbind res_bind]. rewrite bool_decide_true by done. f_equal. lia.
  - cbn [mbind res_bind]. rewrite bool_decide_false, IH by (done || lia). destruct (name_index l name); cbn; f_equal; lia.
Qed.

Lemma unicode_find_name_spec l name : forallb literal_ok l = true ->
  unicode_find_name (literals l) name = Ret (match name_index l name with Some k => k | None => -1 end).
Proof. intros H. unfold unicode_find_name. rewrite find_name_loop_spec by done. by destruct (name_index l name). Qed.

Lemma name_index_range l name k : name_index l name = Some k -> 0 <= k < zlen l.
Proof.
  revert k. induction l as [| s l IH]; intros k; cbn [name_index]; [done |]. rewrite zlen_cons. pose proof (zlen_nonneg l).
  case_bool_decide; [intros [= <-]; lia |]. destruct (name_index l name) as [j |]; [| done]. intros [= <-].
  specialize (IH j eq_refl). lia.
Qed.

(** ** Ranges as sets *)
Fixpoint flat (l : list (Z * Z)) : list Z :=
  match l with [] => [] | (c0, c1) :: l => c0 :: c1 :: flat l end.

Lemma flat_app a b : flat (a ++ b) = flat a ++ flat b.
Proof. induction a as [| [c0 c1] a IH]; cbn; [done | by rewrite IH]. Qed.

Lemma zlen_flat l : zlen (flat l) = 2 * zlen l.
Proof. unfold zlen. induction l as [| [c0 c1] l IH]; cbn [flat length] in *; lia. Qed.

(** Points that increase, of even number, within the bounds of a range. *)
Record points_ok_for (pts : list Z) (P : Z -> bool) : Prop := {
  pt_sorted : sorted_le pts;
  pt_even : Z.even (zlen pts) = true;
  pt_bound : Forall (fun p => 0 <= p <= UINT32_MAX) pts;
  pt_mem : forall c, mem pts c = P c
}.

(** [cr] is the set [P]; it may have intervals that touch. *)
Definition denotes (cr : CharRange) (P : Z -> bool) : Prop := cr_ok cr /\ points_ok_for (cr_contents cr) P.

Lemma denotes_ext cr (P Q : Z -> bool) : (forall c, P c = Q c) -> denotes cr P -> denotes cr Q.
Proof. intros E [Hok [Hs He Hb Hm]]. split; [done |]. split; [done .. |]. intros c. by rewrite Hm. Qed.

Lemma denotes_init : denotes cr_init (fun _ => false).
Proof. split; [apply cr_init_ok |]. split; [constructor | done | constructor | done]. Qed.

Lemma denotes_bounds cr P c : denotes cr P -> P c = true -> 0 <= c < UINT32_MAX.
Proof.
  intros [Hok [Hs He Hb Hm]] Hc. rewrite <- Hm in Hc. destruct (Z.leb_spec 0 c).
  - destruct (Z.ltb_spec c UINT32_MAX); [done |]. rewrite mem_above, <- Z.negb_even, He in Hc by forall_lia Hb. done.
  - rewrite mem_below in Hc by forall_lia Hb. done.
Qed.

Section sets.
Context `{Realloc is_u32}.

Fixpoint add_all (l : list (Z * Z)) (cr : CharRange) : res (CharRange * Z) :=
  match l with
  | [] => Ret (cr, 0)
  | (c0, c1) :: l =>
      '(cr, r) ← cr_add_interval cr c0 c1;
      if negb (r =? 0) then Ret (cr, -1) else add_all l cr
  end.

Lemma cr_add_interval_spec cr c0 c1 : cr_ok cr -> cr_len cr + 2 <= MAX_POINTS ->
  exists cr' r, cr_add_interval cr c0 c1 = Ret (cr', r) /\ cr_ok cr' /\
    ((r = 0 /\ cr_contents cr' = cr_contents cr ++ [c0; c1] /\ cr_len cr' = cr_len cr + 2) \/ oom r).
Proof.
  intros Hok Hlen. unfold MAX_POINTS in Hlen. pose proof Hok as [Hl _ _]. unfold cr_add_interval.
  rewrite int_ok_in by lia. cbn [mbind res_bind].
  assert (exists cr1 r, (if cr_size cr <? cr_len cr + 2 then cr_realloc cr (cr_len cr + 2) else Ret (cr, 0)) = Ret (cr1, r) /\
    cr_ok cr1 /\ cr_contents cr1 = cr_contents cr /\ cr_len cr1 = cr_len cr /\
    ((r = 0 /\ cr_len cr + 2 <= cr_size cr1) \/ oom r)) as (cr1 & r & -> & Hok1 & Ec & El & Hr).
  { destruct (Z.ltb_spec (cr_size cr) (cr_len cr + 2)); [apply cr_realloc_spec; [done | unfold MAX_POINTS; lia] |].
    eexists _, _. split; [reflexivity |]. auto 10. }
  cbn [mbind res_bind]. destruct Hr as [[-> Hlt] | Ho]; [| pose proof Ho as [-> _]]; cbn [negb Z.eqb].
  2: { eexists _, _. split; [reflexivity |]. auto. }
  destruct (cr_points_room cr1 (cr_len cr) Hok1) as (x & y & t & Ep & Ez & Ht); [lia | done |].
  rewrite Ep, El, <- Ez, zupd_at. cbn [of_opt mbind res_bind].
  replace (cr_contents cr1 ++ c0 :: y :: t) with ((cr_contents cr1 ++ [c0]) ++ y :: t) by (by rewrite <- app_assoc).
  replace (zlen (cr_contents cr1) + 1) with (zlen (cr_contents cr1 ++ [c0])) by zlen_lia.
  rewrite zupd_at. cbn [of_opt mbind res_bind]. eexists _, _. split; [reflexivity |].
  replace ((cr_contents cr1 ++ [c0]) ++ c1 :: t) with ((cr_contents cr1 ++ [c0; c1]) ++ t) by (by rewrite <- !app_assoc).
  pose proof Hok1 as [? ? ?]. split; [split; cbn; zlen_lia |]. left. split_and!; [done | | cbn; lia].
  unfold cr_contents at 1. cbn [cr_len cr_points]. rewrite <- Ec.
  replace (zlen (cr_contents cr1) + 2) with (zlen (cr_contents cr1 ++ [c0; c1])) by zlen_lia. apply take_zlen_app.
Qed.

Lemma add_all_spec l : forall cr, cr_ok cr -> cr_len cr + 2 * zlen l <= MAX_POINTS ->
  exists cr' r, add_all l cr = Ret (cr', r) /\ cr_ok cr' /\
    ((r = 0 /\ cr_contents cr' = cr_contents cr ++ flat l /\ cr_len cr' = cr_len cr + 2 * zlen l) \/ oom r).
Proof.
  induction l as [| [c0 c1] l IH]; intros cr Hok Hl; cbn [add_all flat].
  - exists cr, 0. replace (2 * zlen (@nil (Z * Z))) with 0 by done. rewrite List.app_nil_r. split_and!; [done .. |]. left. split_and!; [done .. | lia].
  - rewrite zlen_cons in Hl |- *. pose proof (zlen_nonneg l).
    destruct (cr_add_interval_spec cr c0 c1 Hok) as (cr1 & r & -> & Hok1 & Hr); [lia |]. cbn [mbind res_bind].
    destruct Hr as [(-> & Ec & El) | Ho]; [| pose proof Ho as [-> _]]; cbn [negb Z.eqb].
    + destruct (IH cr1 Hok1) as (cr2 & r & E & Hok2 & Hr); [lia |]. exists cr2, r. split_and!; [done .. |].
      destruct Hr as [(-> & Ec' & El') | Ho]; [left | by right]. rewrite Ec', Ec, <- app_assoc. split_and!; [done .. | lia].
    + eexists _, _. split; [reflexivity |]. auto.
Qed.

Lemma add_all_app a b cr : add_all (a ++ b) cr =
  ('(cr, r) ← add_all a cr; if negb (r =? 0) then Ret (cr, -1) else add_all b cr).
Proof.
  revert cr. induction a as [| [c0 c1] a IH]; intros cr; [done |]. cbn [add_all app].
  destruct (cr_add_interval cr c0 c1) as [[cr1 r] | |]; cbn [mbind res_bind]; [| done ..].
  destruct (negb (r =? 0)) eqn:E; [| apply IH]. done.
Qed.

(** Intervals are added to an empty range. *)
Lemma add_all_denotes l P : points_ok_for (flat l) P -> 2 * zlen l <= MAX_POINTS ->
  exists cr r, add_all l cr_init = Ret (cr, r) /\ ((r = 0 /\ denotes cr P /\ cr_len cr = 2 * zlen l) \/ oom r).
Proof.
  intros HP Hl. destruct (add_all_spec l cr_init cr_init_ok Hl) as (cr & r & E & Hok & Hr). exists cr, r. split; [done |].
  destruct Hr as [(-> & Ec & El) | Ho]; [left | by right]. split_and!; [done | | cbn in El; lia]. split; [done |].
  by rewrite Ec.
Qed.

(** ** Operations *)
Lemma denotes_op a b op P Q : denotes a P -> denotes b Q -> cr_len a + cr_len b <= MAX_POINTS ->
  exists cr r, cr_op cr_init (cr_points a) (cr_len a) (cr_points b) (cr_len b) op = Ret (cr, r) /\
    ((r = 0 /\ denotes cr (fun c => cr_bool op (P c) (Q c)) /\ cr_len cr <= cr_len a + cr_len b) \/ oom r).
Proof.
  intros HP HQ Hmax. pose proof HP as [Hoka [Hsa Hea Hba Hma]]. pose proof HQ as [Hokb [Hsb Heb Hbb Hmb]].
  destruct (cr_points_split a Hoka) as (ta & -> & El). destruct (cr_points_split b Hokb) as (tb & -> & El').
  rewrite El, El' in *.
  destruct (cr_op_within (cr_contents a) ta (cr_contents b) tb op (fun c => P c = true) (fun c => Q c = true))
    as (cr & r & E & Hr); auto.
  - intros c. by rewrite Hma.
  - intros c. by rewrite Hmb.
  - intros c. by apply denotes_bounds with a.
  - intros c. by apply denotes_bounds with b.
  - exists cr, r. split; [done |]. destruct Hr as [(-> & Hrep & Hl) | Ho]; [left | by right]. split_and!; [done | | done].
    pose proof Hrep as [Hok Hs He Hb Hin]. split; [done |]. split; [by apply sorted_lt_le | by rewrite cr_contents_zlen | |].
    + apply in_ranges_bounds; [done | by rewrite cr_contents_zlen |]. intros c. rewrite Hin. apply Hb.
    + intros c. apply eq_true_iff_eq. rewrite (mem_represents cr _ c Hrep). symmetry. by apply set_op_bool.
Qed.

Lemma denotes_invert cr P : denotes cr P -> cr_len cr <= MAX_POINTS ->
  exists cr' r, cr_invert cr = Ret (cr', r) /\
    ((r = 0 /\ denotes cr' (fun c => (0 <=? c) && (c <? UINT32_MAX) && negb (P c)) /\ cr_len cr' <= cr_len cr + 2) \/ oom r).
Proof.
  intros [Hok [Hs He Hb Hm]] Hmax. destruct (cr_invert_spec cr Hok Hs) as (cr' & r & E & Hr); auto.
  { by rewrite <- cr_contents_zlen. }
  exists cr', r. split; [done |]. destruct Hr as [(-> & (Hok' & Hs' & He') & Hl & Hm') | Ho]; [left | by right].
  split_and!; [done | | done]. assert (forall c, mem (cr_contents cr') c = (0 <=? c) && (c <? UINT32_MAX) && negb (P c)) as Hm2
    by (intros c; by rewrite Hm', Hm).
  split; [done |]. split; [by apply sorted_lt_le | by rewrite cr_contents_zlen | | done].
  apply in_ranges_bounds; [done | by rewrite cr_contents_zlen |]. intros c Hc.
  rewrite <- mem_in_ranges in Hc by (by apply sorted_lt_le || by rewrite cr_contents_zlen).
  rewrite Hm2, !andb_true_iff, Z.leb_le, Z.ltb_lt in Hc. lia.
Qed.

Lemma denotes_copy cr P : denotes cr P -> cr_len cr <= MAX_POINTS ->
  exists cr' r, cr_copy cr_init cr = Ret (cr', r) /\ ((r = 0 /\ denotes cr' P) \/ oom r).
Proof.
  intros [Hok HP] Hmax. pose proof Hok as [Hl _ _].
  destruct (cr_realloc_spec cr_init (cr_len cr) cr_init_ok) as (cr1 & r & E & Hok1 & _ & _ & Hr); [lia |].
  unfold cr_copy. rewrite E. cbn [mbind res_bind]. clear E.
  destruct Hr as [(-> & Hsz) | Ho]; [| pose proof Ho as [-> _]]; cbn [negb Z.eqb].
  2: { eexists _, _. split; [reflexivity |]. auto. }
  destruct (cr_points_split cr Hok) as (t & -> & El). rewrite El in *. rewrite zread_app. cbn [of_opt mbind res_bind].
  pose proof Hok1 as [? Hz ?]. rewrite zwrite_in by lia. cbn [of_opt mbind res_bind]. eexists _, _. split; [reflexivity |].
  left. split; [done |]. rewrite take_0. cbn [app]. set (rest := drop _ _).
  assert (cr_contents (mkCharRange (zlen (cr_contents cr)) (cr_size cr1) (cr_contents cr ++ rest)) = cr_contents cr) as Ec
    by apply take_zlen_app.
  split; [| by rewrite Ec]. split; cbn; [lia | | done]. unfold rest. rewrite zlen_app, zlen_drop. lia.
Qed.
End sets.
