(* ===== verification/UnicodeRuns.v ===== *)
(** * libunicode.c: what the tables of scripts, categories and properties hold

    A table is a list of runs of characters with a value; the loop over it adds
    the intervals of the runs whose value is wanted, and they are the set of the
    characters whose run has that value. *)
From Stdlib Require Import ZArith Lia Bool.
From stdpp Require Import base numbers list strings.
From S2P Require Import Prelude Alloc Cutils CharRange CharRangeFacts UnicodeTables CaseConv UnicodeProp UnicodeRange UnicodeSets.

(** ** Runs: first character, first character after it, value *)
Section runs.
Context {A : Type}.
Notation run := (Z * Z * A)%type.

(** No character of a table is above this. *)
Definition MAX_CODE : Z := 2 ^ 21.

Fixpoint read_runs (entry : list Z -> res (Z * A * list Z)) (fuel : nat) (p : list Z) (c : Z) : res (list run) :=
  match fuel with
  | O => NoFuel
  | S fuel =>
      match p with
      | [] => Ret []
      | _ =>
          '(n, v, p) ← entry p;
          l ← read_runs entry fuel p (c + n + 1);
          Ret ((c, c + n + 1, v) :: l)
      end
  end.

(** The runs of a table, none if it cannot be read. *)
Definition table_runs (entry : list Z -> res (Z * A * list Z)) (table : list Z) : list run :=
  match read_runs entry (S (length table)) table 0 with Ret l => l | _ => [] end.

Fixpoint ordered (lo : Z) (l : list run) : bool :=
  match l with
  | [] => true
  | (c0, c1, _) :: l => (lo <=? c0) && (c0 <? c1) && (c1 <=? MAX_CODE) && ordered c1 l
  end.

Definition run_has (r : run) (c : Z) : bool := (r.1.1 <=? c) && (c <? r.1.2).

(** The run of a character. *)
Definition run_at (l : list run) (c : Z) : option run := List.find (fun r => run_has r c) l.

Lemma ordered_cons lo r l : ordered lo (r :: l) = true ->
  lo <= r.1.1 < r.1.2 /\ r.1.2 <= MAX_CODE /\ ordered r.1.2 l = true.
Proof. destruct r as [[c0 c1] v]. cbn. rewrite !andb_true_iff, !Z.leb_le, Z.ltb_lt. intuition lia. Qed.

(** The intervals of a run, all inside it. *)
Record piece_ok (r : run) (l : list (Z * Z)) (P : Z -> bool) : Prop := {
  pc_sorted : sorted_le (flat l);
  pc_bound : Forall (fun p => r.1.1 <= p <= r.1.2) (flat l);
  pc_mem : forall c, run_has r c = true -> mem (flat l) c = P c
}.

Lemma even_flat l : Z.even (zlen (flat l)) = true.
Proof. rewrite zlen_flat, Z.even_mul. done. Qed.

Lemma piece_mem r l P c : piece_ok r l P -> mem (flat l) c = run_has r c && P c.
Proof.
  intros [Hs Hb Hm]. destruct (run_has r c) eqn:E; [by apply Hm |]. unfold run_has in E. destruct (Z.leb_spec r.1.1 c).
  - rewrite mem_above, <- Z.negb_even, even_flat; [done |]. cbn in E. rewrite Z.ltb_ge in E. forall_lia Hb.
  - apply mem_below. forall_lia Hb.
Qed.

Lemma nil_piece r P : (forall c, P c = false) -> piece_ok r [] P.
Proof. intros H. by split; [constructor .. |]. Qed.

Lemma whole_piece r P : r.1.1 <= r.1.2 -> (forall c, P c = true) -> piece_ok r [(r.1.1, r.1.2)] P.
Proof.
  intros Hr H. split; cbn [flat].
  - constructor; [repeat constructor | repeat constructor; lia].
  - repeat constructor; lia.
  - intros c Hc. rewrite H. unfold run_has in Hc. apply andb_true_iff in Hc as [H1 H2]. cbn [mem]. rewrite H1.
    apply Z.ltb_lt in H2. destruct (Z.leb_spec r.1.2 c); [lia | done].
Qed.

Section pieces.
Variable f : run -> list (Z * Z).
Variable P : run -> Z -> bool.

(** Is the run of a character, if any, one where [P] holds? *)
Definition in_runs (l : list run) (c : Z) : bool :=
  match run_at l c with Some r => P r c | None => false end.

Lemma runs_set lo l : 0 <= lo -> ordered lo l = true -> (forall r, r ∈ l -> piece_ok r (f r) (P r)) ->
  Forall (fun p => lo <= p <= MAX_CODE) (flat (concat (map f l))) /\ points_ok_for (flat (concat (map f l))) (in_runs l).
Proof.
  revert lo. induction l as [| r l IH]; intros lo Hlo Ho Hf.
  { split; [constructor |]. split; [constructor | done | constructor | done]. }
  apply ordered_cons in Ho as (Hr & Hmax & Ho). cbn [map concat]. rewrite flat_app.
  destruct (IH r.1.2) as [Hb [Hs He Hb' Hm]]; [lia | done | intros x Hx; apply Hf; by right |].
  pose proof (Hf r ltac:(by left)) as Hp. pose proof Hp as [Hps Hpb Hpm].
  assert (Forall (fun p => lo <= p <= MAX_CODE) (flat (f r) ++ flat (concat (map f l)))) as Hall.
  { apply Forall_app. split; [forall_lia Hpb | forall_lia Hb]. }
  split; [done |]. split.
  - apply sorted_le_app. split_and!; [done .. |]. eapply list.Forall_impl; [exact Hpb |]. intros p Hp'. cbn in Hp'. forall_lia Hb.
  - by rewrite zlen_app, Z.even_add, even_flat, He.
  - unfold MAX_CODE in Hall. unfold UINT32_MAX. forall_lia Hall.
  - intros c. rewrite mem_app, (piece_mem _ _ _ _ Hp), Hm. unfold in_runs, run_at. cbn [List.find].
    destruct (run_has r c) eqn:E; cbn [andb]; [| by destruct (match _ with Some _ => _ | None => _ end)].
    fold (run_at l c). change (xorb (P r c) (in_runs l c) = P r c). rewrite <- Hm. unfold run_has in E.
    apply andb_true_iff in E as [_ E]. apply Z.ltb_lt in E. rewrite mem_below by forall_lia Hb. apply xorb_false_r.
Qed.

(** A bound on the number of intervals. *)
Lemma zlen_pieces w l : (forall r, zlen (f r) <= w r) -> zlen (concat (map f l)) <= foldr (fun r s => w r + s) 0 l.
Proof.
  intros Hw. induction l as [| r l IH]; cbn [map concat foldr]; [done |]. rewrite zlen_app. specialize (Hw r). lia.
Qed.
End pieces.
End runs.

(** ** The loops add the intervals of the runs *)
Definition script_piece (script_idx : Z) (r : Z * Z * Z) : list (Z * Z) :=
  if r.2 =? script_idx then [(r.1.1, r.1.2)] else [].

Definition ext_has (is_common : bool) (script_idx : Z) (v : list Z) : bool :=
  if is_common then negb (zlen v =? 0) else existsb (fun x => x =? script_idx) v.

Definition ext_piece (is_common : bool) (script_idx : Z) (r : Z * Z * list Z) : list (Z * Z) :=
  if ext_has is_common script_idx r.2 then [(r.1.1, r.1.2)] else [].

Definition mask_has (gc_mask v : Z) : bool := Z.land (Z.shiftr gc_mask v) 1 =? 1.

Fixpoint every_other (fuel : nat) (c0 c : Z) : list (Z * Z) :=
  match fuel with
  | O => []
  | S fuel => if c0 <? c then (c0, c0 + 1) :: every_other fuel (c0 + 2) c else []
  end.

Definition lu_ll (gc_mask : Z) : Z := Z.land gc_mask (Z.lor (M UNICODE_GC_Lu) (M UNICODE_GC_Ll)).

Definition gc_piece (gc_mask : Z) (r : Z * Z * Z) : list (Z * Z) :=
  let '(c0, c, v) := r in
  if v =? 31 then
    if lu_ll gc_mask =? 0 then []
    else if lu_ll gc_mask =? Z.lor (M UNICODE_GC_Lu) (M UNICODE_GC_Ll) then [(c0, c)]
    else
      let c0 := c0 + b2z (negb (Z.land gc_mask (M UNICODE_GC_Ll) =? 0)) in
      every_other (S (Z.to_nat (c - c0))) c0 c
  else if mask_has gc_mask v then [(c0, c)] else [].

Lemma u32_code c : 0 <= c <= 2 ^ 22 -> u32 c = c.
Proof. intros H. apply wrap_small. lia. Qed.

Section loops.
Context `{Realloc is_u32}.

Lemma script_loop_runs script_idx fuel : forall p c cr l, 0 <= c -> read_runs script_entry fuel p c = Ret l -> ordered c l = true ->
  script_loop fuel script_idx p c cr = add_all (concat (map (script_piece script_idx) l)) cr.
Proof.
  induction fuel as [| fuel IH]; intros p c cr l Hc E Ho; cbn [read_runs script_loop] in *; [done |].
  destruct p as [| b p]; [by injection E as <- |].
  destruct (script_entry (b :: p)) as [[[n v] q] | |]; cbn [mbind res_bind] in *; [| done ..].
  destruct (read_runs script_entry fuel q (c + n + 1)) as [l' | |] eqn:E'; cbn [mbind res_bind] in E; [| done ..].
  injection E as <-. apply ordered_cons in Ho as (Hr & Hmax & Ho). cbn [fst snd] in *. unfold MAX_CODE in Hmax.
  rewrite u32_code by lia. cbn [map concat]. unfold script_piece at 1. cbn [fst snd].
  destruct (v =? script_idx); cbn [add_when app add_all]; [| by apply IH; [lia | ..]].
  destruct (cr_add_interval cr c (c + n + 1)) as [[cr1 r] | |]; cbn [mbind res_bind]; [| done ..].
  destruct (negb (r =? 0)); [done |]. by apply IH; [lia | ..].
Qed.

Lemma script_ext_loop_runs is_common script_idx fuel : forall p c cr l, 0 <= c -> read_runs script_ext_entry fuel p c = Ret l ->
  ordered c l = true ->
  script_ext_loop fuel is_common script_idx p c cr = add_all (concat (map (ext_piece is_common script_idx) l)) cr.
Proof.
  induction fuel as [| fuel IH]; intros p c cr l Hc E Ho; cbn [read_runs script_ext_loop] in *; [done |].
  destruct p as [| b p]; [by injection E as <- |].
  destruct (script_ext_entry (b :: p)) as [[[n v] q] | |]; cbn [mbind res_bind] in *; [| done ..].
  destruct (read_runs script_ext_entry fuel q (c + n + 1)) as [l' | |] eqn:E'; cbn [mbind res_bind] in E; [| done ..].
  injection E as <-. apply ordered_cons in Ho as (Hr & Hmax & Ho). cbn [fst snd] in *. unfold MAX_CODE in Hmax.
  rewrite u32_code by lia. cbn [map concat]. unfold ext_piece at 1. cbn [fst snd]. fold (ext_has is_common script_idx v).
  destruct (ext_has is_common script_idx v); cbn [add_when app add_all]; [| by apply IH; [lia | ..]].
  destruct (cr_add_interval cr c (c + n + 1)) as [[cr1 r] | |]; cbn [mbind res_bind]; [| done ..].
  destruct (negb (r =? 0)); [done |]. by apply IH; [lia | ..].
Qed.

Lemma add_every_other_all fuel : forall cr c0 c, 0 <= c0 -> c <= MAX_CODE -> Z.max 0 (c - c0) < Z.of_nat fuel ->
  add_every_other fuel cr c0 c = add_all (every_other fuel c0 c) cr.
Proof.
  unfold MAX_CODE. induction fuel as [| fuel IH]; intros cr c0 c H0 Hc Hf; cbn [add_every_other every_other]; [lia |].
  destruct (Z.ltb_spec c0 c); [| done]. cbn [add_all]. rewrite !u32_code by lia.
  destruct (cr_add_interval cr c0 (c0 + 1)) as [[cr1 r] | |]; cbn [mbind res_bind]; [| done ..].
  destruct (negb (r =? 0)); [done |]. apply IH; lia.
Qed.

(** A step that adds intervals, and those after it. *)
Lemma add_all_bind (step : res (CharRange * Z)) a b cr (k : CharRange -> res (CharRange * Z)) :
  step = add_all a cr -> (forall cr, k cr = add_all b cr) ->
  ('(cr, r) ← step; if negb (r =? 0) then Ret (cr, -1) else k cr) = add_all (a ++ b) cr.
Proof.
  intros -> Hk. rewrite add_all_app. destruct (add_all a cr) as [[cr1 r] | |]; cbn [mbind res_bind]; [| done ..].
  by rewrite Hk.
Qed.

(** The result of [cr_add_interval] is 0 or -1. *)
Lemma add_one cr c0 c1 : cr_add_interval cr c0 c1 = add_all [(c0, c1)] cr.
Proof.
  cbn [add_all]. unfold cr_add_interval. destruct (int_ok (cr_len cr + 2)) as [n | |]; cbn [mbind res_bind]; [| done ..].
  destruct (if cr_size cr <? n then cr_realloc cr n else Ret (cr, 0)) as [[cr1 r] | |]; cbn [mbind res_bind]; [| done ..].
  destruct (negb (r =? 0)); [done |]. destruct (zupd _ _ c0) as [pts |]; cbn [of_opt mbind res_bind]; [| done].
  by destruct (zupd pts _ c1).
Qed.

Lemma add_when_all b cr c0 c1 : add_when b cr c0 c1 = add_all (if b then [(c0, c1)] else []) cr.
Proof. destruct b; [apply add_one | done]. Qed.

Lemma gc_add_run_all gc_mask cr c0 c v : 0 <= c0 < c -> c <= MAX_CODE ->
  gc_add_run cr gc_mask c0 c v = add_all (gc_piece gc_mask (c0, c, v)) cr.
Proof.
  unfold MAX_CODE. intros H0 Hc. unfold gc_add_run, gc_piece. fold (lu_ll gc_mask) (mask_has gc_mask v).
  destruct (v =? 31); [| apply add_when_all]. destruct (lu_ll gc_mask =? 0); [done |]. cbn [negb].
  destruct (lu_ll gc_mask =? _); [apply add_one |].
  set (d := b2z _). assert (0 <= d <= 1) as Hd by (unfold d; destruct (negb _); cbn; lia).
  rewrite u32_code by lia. apply add_every_other_all; unfold MAX_CODE; lia.
Qed.

Lemma gc_loop_runs gc_mask fuel : forall p c cr l, 0 <= c -> read_runs gc_entry fuel p c = Ret l -> ordered c l = true ->
  gc_loop fuel gc_mask p c cr = add_all (concat (map (gc_piece gc_mask) l)) cr.
Proof.
  induction fuel as [| fuel IH]; intros p c cr l Hc E Ho; cbn [read_runs gc_loop] in *; [done |].
  destruct p as [| b p]; [by injection E as <- |].
  destruct (gc_entry (b :: p)) as [[[n v] q] | |]; cbn [mbind res_bind] in *; [| done ..].
  destruct (read_runs gc_entry fuel q (c + n + 1)) as [l' | |] eqn:E'; cbn [mbind res_bind] in E; [| done ..].
  injection E as <-. apply ordered_cons in Ho as (Hr & Hmax & Ho). cbn [fst snd] in *.
  rewrite Z.add_assoc, u32_code by (unfold MAX_CODE in Hmax; lia). cbn [map concat]. apply add_all_bind.
  - apply gc_add_run_all; [lia | done].
  - intros cr1. by apply IH; [lia | ..].
Qed.

(** ** Property tables *)

(** The points where membership changes. *)
Fixpoint prop_points (fuel : nat) (l : list Z) (code : Z) : res (list Z) :=
  match fuel with
  | O => NoFuel
  | S fuel =>
      match l with
      | [] => Ret []
      | _ =>
          '(pts, l) ← of_opt (decode_group l code);
          k ← prop_points fuel l (List.last pts 0);
          Ret (pts ++ k)
      end
  end.

Fixpoint pairs (pts : list Z) : list (Z * Z) :=
  match pts with c0 :: c1 :: pts => (c0, c1) :: pairs pts | _ => [] end.

Definition from_code (bit : bool) (c : Z) (pts : list Z) : list Z := if bit then c :: pts else pts.

Lemma pairs_step (bit : bool) c c1 pts :
  pairs (from_code bit c (c1 :: pts)) = (if bit then [(c, c1)] else []) ++ pairs (from_code (negb bit) c1 pts).
Proof. by destruct bit. Qed.

Lemma prop_loop_points fuel : forall p c bit cr pts, 0 <= c <= MAX_CODE -> prop_points fuel p c = Ret pts ->
  Forall (fun q => 0 <= q <= MAX_CODE) pts ->
  prop_loop fuel p c bit cr = add_all (pairs (from_code bit c pts)) cr.
Proof.
  unfold MAX_CODE. induction fuel as [| fuel IH]; intros p c bit cr pts Hc E Hb; cbn [prop_points prop_loop] in *; [done |].
  destruct p as [| b p]; [injection E as <-; by destruct bit |]. cbn [decode_group] in E.
  destruct (b <? 64).
  - cbn [of_opt mbind res_bind List.last] in E.
    destruct (prop_points fuel p _) as [k | |] eqn:Ek; cbn [mbind res_bind] in E; [| done ..]. injection E as <-. cbn [app] in *.
    rewrite !Forall_cons_iff in Hb. destruct Hb as (H1 & H2 & Hb). rewrite !u32_code by lia. rewrite !pairs_step, !add_when_all.
    rewrite add_all_app. destruct (add_all (if bit then _ else []) cr) as [[cr1 r] | |]; cbn [mbind res_bind]; [| done ..].
    destruct (negb (r =? 0)) eqn:Er; [done |]. rewrite add_when_all. apply add_all_bind; [done |]. intros cr2. by apply IH.
  - assert (forall c1 q, c1 = List.last [c1] 0 -> prop_points fuel q c1 = Ret (tl pts) -> pts = c1 :: tl pts ->
      ('(cr0, r) ← add_when bit cr c (u32 c1); if negb (r =? 0) then Ret (cr0, -1) else prop_loop fuel q (u32 c1) (negb bit) cr0) =
      add_all (pairs (from_code bit c pts)) cr) as Hone.
    { intros c1 q _ Eq Ep. rewrite Ep in Hb |- *. apply Forall_cons_iff in Hb as [H1 Hb]. rewrite u32_code by lia.
      rewrite add_when_all, pairs_step. apply add_all_bind; [done |]. intros cr2. by apply IH. }
    destruct (128 <=? b); [| destruct (b <? 96); [destruct p as [| p0 p] | destruct p as [| p0 [| p1 p]]]];
      cbn [of_opt mbind res_bind List.last next_byte] in *; try done;
      (destruct (prop_points fuel p _) as [k | |] eqn:Ek; cbn [mbind res_bind] in E; [| done ..]); injection E as <-; by apply Hone.
Qed.

Lemma flat_pairs pts : Z.even (zlen pts) = true -> flat (pairs pts) = pts.
Proof.
  remember (length pts) as n eqn:En. revert pts En. induction (lt_wf n) as [n _ IH]. intros pts -> He.
  destruct pts as [| x [| y pts]]; [done | done |]. rewrite even_2 in He. cbn [pairs flat]. by rewrite (IH (length pts)) by (cbn; lia || done).
Qed.
End loops.

(** ** Characters by script, by category and by table *)
Definition script_runs : list (Z * Z * Z) := table_runs script_entry unicode_script_table.
Definition script_ext_runs : list (Z * Z * list Z) := table_runs script_ext_entry unicode_script_ext_table.
Definition gc_runs : list (Z * Z * Z) := table_runs gc_entry unicode_gc_table.

(** The script of a character: one of [script_idx], or none (0 is Unknown). *)
Definition has_script (script_idx c : Z) : bool := in_runs (fun r _ => r.2 =? script_idx) script_runs c.

(** The scripts that the character has besides. *)
Definition script_extensions (c : Z) : list Z := match run_at script_ext_runs c with Some r => r.2 | None => [] end.

(** The category in a run: upper case and lower case alternate in a run of value 31. *)
Definition run_category (r : Z * Z * Z) (c : Z) : Z :=
  if r.2 =? 31 then if Z.even (c - r.1.1) then UNICODE_GC_Lu else UNICODE_GC_Ll else r.2.

Definition general_category (c : Z) : option Z := option_map (fun r => run_category r c) (run_at gc_runs c).

Definition in_categories (gc_mask c : Z) : bool :=
  match general_category c with Some g => Z.testbit gc_mask g | None => false end.

(** The set that the table [prop_idx] encodes. *)
Definition in_prop (prop_idx c : Z) : bool :=
  match znth unicode_prop_table prop_idx with Some t => mem (table_points t) c | None => false end.

(** ** Pieces *)
Lemma script_piece_ok script_idx r : r.1.1 <= r.1.2 -> piece_ok r (script_piece script_idx r) (fun _ => r.2 =? script_idx).
Proof. intros Hr. unfold script_piece. destruct (r.2 =? script_idx); [by apply whole_piece | by apply nil_piece]. Qed.

Lemma ext_piece_ok is_common script_idx r : r.1.1 <= r.1.2 ->
  piece_ok r (ext_piece is_common script_idx r) (fun _ => ext_has is_common script_idx r.2).
Proof. intros Hr. unfold ext_piece. destruct (ext_has _ _ _); [by apply whole_piece | by apply nil_piece]. Qed.

Lemma every_other_ok fuel : forall c0 c, Z.max 0 (c - c0) < Z.of_nat fuel ->
  sorted_le (flat (every_other fuel c0 c)) /\ Forall (fun p => c0 <= p <= c) (flat (every_other fuel c0 c)) /\
  forall x, mem (flat (every_other fuel c0 c)) x = (c0 <=? x) && (x <? c) && Z.even (x - c0).
Proof.
  induction fuel as [| fuel IH]; intros c0 c Hf; [lia |]. cbn [every_other]. destruct (Z.ltb_spec c0 c) as [Hlt | Hge]; cbn [flat].
  - destruct (IH (c0 + 2) c) as (Hs & Hb & Hm); [lia |]. split_and!.
    + constructor; [constructor; [done |] | constructor; [lia |]]; forall_lia Hb.
    + constructor; [lia |]. constructor; [lia |]. forall_lia Hb.
    + intros x. cbn [mem]. rewrite Hm. replace (x - (c0 + 2)) with (x - c0 + -2) by lia. rewrite Z.even_add.
      destruct (Z.leb_spec c0 x), (Z.leb_spec (c0 + 1) x), (Z.leb_spec (c0 + 2) x), (Z.ltb_spec x c); try lia; cbn; try done.
      all: try (by destruct (Z.even (x - c0))).
      all: try (replace x with (c0 + 1) by lia; by replace (c0 + 1 - c0) with 1 by lia).
      all: replace x with c0 by lia; by rewrite Z.sub_diag.
  - split_and!; [constructor .. |]. intros x. cbn [mem]. destruct (Z.leb_spec c0 x), (Z.ltb_spec x c); try done; lia.
Qed.

Lemma zlen_every_other fuel : forall c0 c, zlen (every_other fuel c0 c) <= Z.max 0 (c - c0).
Proof.
  induction fuel as [| fuel IH]; intros c0 c; cbn [every_other]; [rewrite zlen_nil; lia |].
  destruct (Z.ltb_spec c0 c); [rewrite zlen_cons; specialize (IH (c0 + 2) c); lia | rewrite zlen_nil; lia].
Qed.

Lemma land_M a k : 0 <= k -> Z.land a (M k) = if Z.testbit a k then M k else 0.
Proof.
  intros Hk. unfold M. rewrite Z.shiftl_1_l. apply Z.bits_inj'. intros i Hi. rewrite Z.land_spec, Z.pow2_bits_eqb by lia.
  destruct (Z.eqb_spec k i) as [<- | D].
  - rewrite andb_true_r. destruct (Z.testbit a k); [by rewrite Z.pow2_bits_true by lia | by rewrite Z.bits_0].
  - rewrite andb_false_r. destruct (Z.testbit a k); [by rewrite Z.pow2_bits_false by lia | by rewrite Z.bits_0].
Qed.

Lemma mask_has_testbit m v : 0 <= v -> mask_has m v = Z.testbit m v.
Proof.
  intros Hv. unfold mask_has. rewrite land_1_odd, <- Z.bit0_odd, Z.shiftr_spec, Z.add_0_l by lia. by destruct (Z.testbit m v).
Qed.

Lemma gc_piece_ok gc_mask r : 0 <= r.2 -> r.1.1 < r.1.2 ->
  piece_ok r (gc_piece gc_mask r) (fun c => Z.testbit gc_mask (run_category r c)).
Proof.
  destruct r as [[c0 c] v]. cbn [fst snd]. intros Hv Hc. unfold gc_piece, run_category. cbn [fst snd]. destruct (v =? 31).
  2: { rewrite mask_has_testbit by done. destruct (Z.testbit gc_mask v) eqn:E; [by apply (whole_piece (c0, c, v)); [cbn; lia |] | by apply nil_piece]. }
  unfold lu_ll. rewrite Z.land_lor_distr_r, !land_M by (vm_compute; discriminate).
  destruct (Z.testbit gc_mask UNICODE_GC_Lu) eqn:Eu, (Z.testbit gc_mask UNICODE_GC_Ll) eqn:El; cbn [Z.eqb negb b2z].
  - apply (whole_piece (c0, c, v)); [cbn; lia |]. intros x. by destruct (Z.even _).
  - destruct (every_other_ok (S (Z.to_nat (c - (c0 + 0)))) (c0 + 0) c) as (Hs & Hb & Hm); [lia |]. rewrite Z.add_0_r in *.
    split; [done | exact Hb |]. intros x Hx. unfold run_has in Hx. cbn [fst snd] in Hx. rewrite Hm, Hx. destruct (Z.even (x - c0)); cbn; by rewrite ?Eu, ?El.
  - destruct (every_other_ok (S (Z.to_nat (c - (c0 + 1)))) (c0 + 1) c) as (Hs & Hb & Hm); [lia |].
    split; [done | cbn; forall_lia Hb |]. intros x Hx. unfold run_has in Hx. cbn [fst snd] in Hx. rewrite Hm.
    apply andb_true_iff in Hx as [H1 H2]. rewrite H2. apply Z.leb_le in H1. replace (x - c0) with (x - (c0 + 1) + 1) by lia.
    rewrite Z.even_add. cbn [Z.even]. destruct (Z.leb_spec (c0 + 1) x); [by destruct (Z.even _); cbn; rewrite ?Eu, ?El |].
    replace (x - (c0 + 1)) with (-1) by lia. exact (eq_sym Eu).
  - apply nil_piece. intros x. by destruct (Z.even _).
Qed.

(** ** The tables are well formed *)

(** No table gives more points than this. *)
Definition TABLE_MAX : Z := 2 ^ 14.

Section tables.
Context {A : Type}.
Variables (entry : list Z -> res (Z * A * list Z)) (table : list Z) (w : Z * Z * A -> Z) (value_ok : A -> bool).

Definition table_ok : bool :=
  match read_runs entry (S (length table)) table 0 with
  | Ret l => ordered 0 l && forallb (fun r => value_ok r.2) l && (2 * foldr (fun r s => w r + s) 0 l <=? TABLE_MAX)
  | _ => false
  end.

Lemma table_ok_inv : table_ok = true ->
  read_runs entry (S (length table)) table 0 = Ret (table_runs entry table) /\ ordered 0 (table_runs entry table) = true /\
  (forall r, r ∈ table_runs entry table -> r.1.1 < r.1.2 /\ value_ok r.2 = true) /\
  2 * foldr (fun r s => w r + s) 0 (table_runs entry table) <= TABLE_MAX.
Proof.
  unfold table_ok, table_runs. destruct (read_runs _ _ _ _) as [l | |]; [| done ..].
  intros [[Ho Hv]%andb_true_iff Hw]%andb_true_iff. apply Z.leb_le in Hw. split_and!; [done .. | | done].
  intros r Hr. split.
  - clear Hv Hw. revert Ho. generalize 0. induction Hr as [| x y l Hr IH]; intros lo Ho; apply ordered_cons in Ho as (H1 & H2 & Ho); [lia | by apply (IH _ Ho)].
  - rewrite forallb_forall in Hv. by apply Hv, list_elem_of_In.
Qed.
End tables.

Definition gc_weight (r : Z * Z * Z) : Z := if r.2 =? 31 then Z.max 1 (r.1.2 - r.1.1) else 1.

Lemma script_table_ok : table_ok script_entry unicode_script_table (fun _ => 1) (fun _ => true) = true.
Proof. vm_compute. reflexivity. Qed.

Lemma script_ext_table_ok : table_ok script_ext_entry unicode_script_ext_table (fun _ => 1) (fun _ => true) = true.
Proof. vm_compute. reflexivity. Qed.

Lemma gc_table_ok : table_ok gc_entry unicode_gc_table gc_weight (fun v => 0 <=? v) = true.
Proof. vm_compute. reflexivity. Qed.

(** The points of a property table. *)
Definition prop_table_ok (t : list Z) : bool :=
  match prop_points (S (length t)) t 0 with
  | Ret pts => Z.even (zlen pts) && points_ok 0 pts && forallb (fun p => p <=? MAX_CODE) pts && (zlen pts <=? TABLE_MAX)
  | _ => false
  end.

Lemma prop_tables_ok : forallb prop_table_ok unicode_prop_table = true.
Proof. vm_compute. reflexivity. Qed.

Lemma prop_points_walk fuel : forall l pos c pts, prop_points (S fuel) l c = Ret pts -> walk_points (walk fuel l pos c) = pts.
Proof.
  induction fuel as [| fuel IH]; intros l pos c pts; destruct l as [| b l]; cbn [prop_points walk];
    [by intros [= <-] | | by intros [= <-] |]; (destruct (decode_group (b :: l) c) as [[k l'] |]; cbn [of_opt mbind res_bind]; [| done]); [done |].
  intros E. change (match prop_points (S fuel) l' (List.last k 0) with Ret k' => Ret (k ++ k') | Fault => Fault | NoFuel => NoFuel end = Ret pts) in E.
  destruct (prop_points (S fuel) l' (List.last k 0)) as [k' | |] eqn:E'; [| done ..].
  injection E as <-. rewrite walk_points_cons. cbn [snd]. by rewrite (IH _ _ _ _ E').
Qed.

Lemma points_ok_sorted pts : forall lo, points_ok lo pts = true -> sorted_le pts.
Proof.
  induction pts as [| p pts IH]; intros lo Hp; [constructor |]. apply points_ok_cons in Hp as [_ Hp].
  constructor; [by apply IH with (p + 1) |]. pose proof (points_ok_between _ _ Hp) as Hb. forall_lia Hb.
Qed.

Lemma prop_table_inv t : prop_table_ok t = true ->
  prop_points (S (length t)) t 0 = Ret (table_points t) /\ points_ok_for (table_points t) (mem (table_points t)) /\
  Forall (fun p => 0 <= p <= MAX_CODE) (table_points t) /\ zlen (table_points t) <= TABLE_MAX.
Proof.
  unfold prop_table_ok. destruct (prop_points _ _ _) as [pts | |] eqn:E; [| done ..].
  pose proof (prop_points_walk _ _ 0 _ _ E) as Ew. unfold table_points, table_walk. rewrite Ew.
  intros [[[He Hp]%andb_true_iff Hb]%andb_true_iff Hz]%andb_true_iff. apply Z.leb_le in Hz.
  pose proof (points_ok_between _ _ Hp) as Hb'. split_and!; [done | | | done].
  - split; [by eapply points_ok_sorted | done | done | done].
  - rewrite list.Forall_forall. intros p Hin. rewrite list.Forall_forall in Hb'. specialize (Hb' p Hin).
    rewrite forallb_forall in Hb. apply list_elem_of_In in Hin. specialize (Hb p Hin). lia.
Qed.

#[local] Opaque unicode_script_table unicode_script_ext_table unicode_gc_table unicode_prop_table table_runs.

Section denoted.
Context `{Realloc is_u32}.

(** A function that makes the range of the set [P]. *)
Definition makes (f : res (CharRange * Z)) (P : Z -> bool) : Prop :=
  exists cr r, f = Ret (cr, r) /\ ((r = 0 /\ denotes cr P /\ cr_len cr <= TABLE_MAX) \/ oom r).

Lemma makes_ext f P Q : (forall c, P c = Q c) -> makes f P -> makes f Q.
Proof.
  intros E (cr & r & Ef & Hr). exists cr, r. split; [done |]. destruct Hr as [(? & ? & ?) | ?]; [left | by right].
  split_and!; [done | by eapply denotes_ext | done].
Qed.

Lemma add_all_makes l P : points_ok_for (flat l) P -> 2 * zlen l <= TABLE_MAX -> makes (add_all l cr_init) P.
Proof.
  intros HP Hl. unfold TABLE_MAX in Hl. destruct (add_all_denotes l P HP) as (cr & r & E & Hr); [unfold MAX_POINTS; lia |].
  exists cr, r. split; [done |]. destruct Hr as [(? & ? & ->) | ?]; [left | by right]. unfold TABLE_MAX. split_and!; [done .. | lia].
Qed.

(** The intervals of the runs of a table. *)
Lemma runs_make {A} (l : list (Z * Z * A)) f P w : ordered 0 l = true -> (forall r, r ∈ l -> piece_ok r (f r) (P r)) ->
  (forall r, zlen (f r) <= w r) -> 2 * foldr (fun r s => w r + s) 0 l <= TABLE_MAX ->
  makes (add_all (concat (map f l)) cr_init) (in_runs P l).
Proof.
  intros Ho Hf Hw Hz. destruct (runs_set f P 0 l) as [_ HP]; [lia | done .. |]. apply add_all_makes; [done |].
  pose proof (zlen_pieces f w l Hw). lia.
Qed.

Lemma script_loop_makes script_idx :
  makes (script_loop (S (length unicode_script_table)) script_idx unicode_script_table 0 cr_init) (has_script script_idx).
Proof.
  destruct (table_ok_inv _ _ _ _ script_table_ok) as (E & Ho & Hv & Hw).
  rewrite (script_loop_runs script_idx _ _ _ _ _ (Z.le_refl 0) E Ho). apply (runs_make script_runs (script_piece script_idx) (fun r _ => r.2 =? script_idx) (fun _ => 1)); [exact Ho | | | exact Hw].
  - intros r Hr. apply script_piece_ok. destruct (Hv r Hr). lia.
  - intros r. unfold script_piece. by destruct (_ =? _).
Qed.

Lemma script_ext_loop_makes is_common script_idx :
  makes (script_ext_loop (S (length unicode_script_ext_table)) is_common script_idx unicode_script_ext_table 0 cr_init)
    (fun c => ext_has is_common script_idx (script_extensions c)).
Proof.
  destruct (table_ok_inv _ _ _ _ script_ext_table_ok) as (E & Ho & Hv & Hw).
  rewrite (script_ext_loop_runs is_common script_idx _ _ _ _ _ (Z.le_refl 0) E Ho).
  apply makes_ext with (in_runs (fun r _ => ext_has is_common script_idx r.2) script_ext_runs).
  { intros c. unfold in_runs, script_extensions. destruct (run_at script_ext_runs c); [done | by destruct is_common]. }
  apply (runs_make script_ext_runs (ext_piece is_common script_idx) (fun r _ => ext_has is_common script_idx r.2) (fun _ => 1));
    [exact Ho | | | exact Hw].
  - intros r Hr. apply ext_piece_ok. destruct (Hv r Hr). lia.
  - intros r. unfold ext_piece. by destruct (ext_has _ _ _).
Qed.

(** The characters whose category is in the mask. *)
Lemma unicode_general_category1_makes gc_mask : makes (unicode_general_category1 cr_init gc_mask) (in_categories gc_mask).
Proof.
  destruct (table_ok_inv _ _ _ _ gc_table_ok) as (E & Ho & Hv & Hw). unfold unicode_general_category1.
  rewrite (gc_loop_runs gc_mask _ _ _ _ _ (Z.le_refl 0) E Ho).
  apply makes_ext with (in_runs (fun r c => Z.testbit gc_mask (run_category r c)) gc_runs).
  { intros c. unfold in_runs, in_categories, general_category. by destruct (run_at gc_runs c). }
  apply (runs_make gc_runs (gc_piece gc_mask) (fun r c => Z.testbit gc_mask (run_category r c)) gc_weight); [exact Ho | | | exact Hw].
  - intros r Hr. destruct (Hv r Hr). apply gc_piece_ok; [by apply Z.leb_le | done].
  - intros [[c0 c] v]. unfold gc_piece, gc_weight. cbn [fst snd]. destruct (v =? 31); [| by destruct (mask_has _ _)].
    destruct (_ =? 0); [rewrite zlen_nil; lia |]. destruct (_ =? _); [change (zlen [(c0, c)]) with 1; lia |]. etrans; [apply zlen_every_other |].
    assert (0 <= b2z (negb (Z.land gc_mask (M UNICODE_GC_Ll) =? 0))) by (by destruct (negb _)). lia.
Qed.

(** The characters that a table encodes. *)
Lemma unicode_prop1_makes prop_idx : 0 <= prop_idx < zlen unicode_prop_table -> makes (unicode_prop1 cr_init prop_idx) (in_prop prop_idx).
Proof.
  intros Hi. apply znth_is_Some in Hi as [t Et]. pose proof prop_tables_ok as Hok. rewrite forallb_forall in Hok.
  destruct (prop_table_inv t) as (E & Hp & Hb & Hz); [by apply Hok, list_elem_of_In, (znth_elem_of _ _ _ Et) |].
  unfold unicode_prop1, unicode_prop_len_table, in_prop. rewrite Et. cbn [of_opt mbind res_bind].
  assert (znth (map zlen unicode_prop_table) prop_idx = Some (zlen t)) as ->.
  { apply znth_Some in Et as [H0 Et]. apply znth_Some. split; [done |]. change (map zlen) with (fmap (M := list) (@zlen Z)). by rewrite list_lookup_fmap, Et. }
  cbn [of_opt mbind res_bind]. rewrite <- (List.app_nil_r t) at 1. rewrite zread_app. cbn [of_opt mbind res_bind].
  assert (0 <= 0 <= MAX_CODE) as H0 by done. rewrite (prop_loop_points _ _ _ _ _ _ H0 E Hb). cbn [from_code]. destruct Hp as [Hs He Hbd Hm].
  apply add_all_makes; rewrite <- ?zlen_flat, flat_pairs by done; [by split | done].
Qed.
End denoted.
