(* ===== verification/UnicodeRangeProps.v ===== *)
(** * libunicode.c: the ranges of scripts, categories and named properties

    Every name of the tables gives the range of the characters it stands for, or
    the allocation of memory fails; the ranges of case are those of [lre_case_conv],
    and [ID_Continue] is [lre_is_id_continue]. *)
From Stdlib Require Import ZArith Lia Bool.
From stdpp Require Import base numbers list strings.
From S2P Require Import Prelude Alloc Cutils CharRange CharRangeFacts UnicodeTables CaseConv UnicodeProp UnicodeRange UnicodeSets UnicodeRuns.

(** ** Specifications *)

(** Does the conversion to upper case (0), to lower case (1) or case folding (2)
    change the character? *)
Definition converts (conv_type c : Z) : bool :=
  match lre_case_conv c conv_type with Ret [x] => negb (x =? c) | _ => true end.

(** Bit [t] is set if the conversion [t] changes the character. *)
Definition change_bits (c : Z) : Z := b2z (converts 0 c) + 2 * b2z (converts 1 c) + 4 * b2z (converts 2 c).

Definition changes (case_mask c : Z) : bool := negb (Z.land case_mask (change_bits c) =? 0).

(** The set of a script: with [is_ext] the characters that have it as extension are
    in it, but those with extensions are in neither Common nor Inherited. *)
Definition script_set (script_idx : Z) (is_ext : bool) (c : Z) : bool :=
  if is_ext then
    if (script_idx =? UNICODE_SCRIPT_Common) || (script_idx =? UNICODE_SCRIPT_Inherited) then
      has_script script_idx c && match script_extensions c with [] => true | _ => false end
    else has_script script_idx c || existsb (fun x => x =? script_idx) (script_extensions c)
  else has_script script_idx c.

(** The categories of a name: one, or the group of them. *)
Definition category_mask (gc_idx : Z) : Z :=
  if gc_idx <=? UNICODE_GC_Co then M gc_idx
  else if gc_idx =? UNICODE_GC_LC then masks [UNICODE_GC_Lu; UNICODE_GC_Ll; UNICODE_GC_Lt]
  else if gc_idx =? UNICODE_GC_L then masks [UNICODE_GC_Lu; UNICODE_GC_Ll; UNICODE_GC_Lt; UNICODE_GC_Lm; UNICODE_GC_Lo]
  else if gc_idx =? UNICODE_GC_M then masks [UNICODE_GC_Mn; UNICODE_GC_Mc; UNICODE_GC_Me]
  else if gc_idx =? UNICODE_GC_N then masks [UNICODE_GC_Nd; UNICODE_GC_Nl; UNICODE_GC_No]
  else if gc_idx =? UNICODE_GC_S then masks [UNICODE_GC_Sm; UNICODE_GC_Sc; UNICODE_GC_Sk; UNICODE_GC_So]
  else if gc_idx =? UNICODE_GC_P then
    masks [UNICODE_GC_Pc; UNICODE_GC_Pd; UNICODE_GC_Ps; UNICODE_GC_Pe; UNICODE_GC_Pi; UNICODE_GC_Pf; UNICODE_GC_Po]
  else if gc_idx =? UNICODE_GC_Z then masks [UNICODE_GC_Zs; UNICODE_GC_Zl; UNICODE_GC_Zp]
  else masks [UNICODE_GC_Cc; UNICODE_GC_Cf; UNICODE_GC_Cs; UNICODE_GC_Co; UNICODE_GC_Cn].

(** All values that a range may hold. *)
Definition any_value (c : Z) : bool := (0 <=? c) && (c <? UINT32_MAX).

(** The sets of the names of properties; those that are not tables are derived as
    Unicode derives them (UAX #44). *)
Definition gc (l : list Z) (c : Z) : bool := in_categories (masks l) c.
Definition letters : list Z := [UNICODE_GC_Lu; UNICODE_GC_Ll; UNICODE_GC_Lt; UNICODE_GC_Lm; UNICODE_GC_Lo; UNICODE_GC_Nl].

Definition pattern_char (c : Z) : bool := in_prop UNICODE_PROP_Pattern_Syntax c || in_prop UNICODE_PROP_Pattern_White_Space c.

Definition property_set (prop_idx : Z) : Z -> bool :=
  if prop_idx =? UNICODE_PROP_ASCII then (fun c => (0 <=? c) && (c <? 128))
  else if prop_idx =? UNICODE_PROP_Any then (fun c => (0 <=? c) && (c <? 0x110000))
  else if prop_idx =? UNICODE_PROP_Assigned then (fun c => any_value c && negb (gc [UNICODE_GC_Cn] c))
  else if prop_idx =? UNICODE_PROP_Math then (fun c => gc [UNICODE_GC_Sm] c || in_prop UNICODE_PROP_Other_Math c)
  else if prop_idx =? UNICODE_PROP_Lowercase then (fun c => gc [UNICODE_GC_Ll] c || in_prop UNICODE_PROP_Other_Lowercase c)
  else if prop_idx =? UNICODE_PROP_Uppercase then (fun c => gc [UNICODE_GC_Lu] c || in_prop UNICODE_PROP_Other_Uppercase c)
  else if prop_idx =? UNICODE_PROP_Cased then
    (fun c => gc [UNICODE_GC_Lu; UNICODE_GC_Ll; UNICODE_GC_Lt] c || in_prop UNICODE_PROP_Other_Uppercase c ||
      in_prop UNICODE_PROP_Other_Lowercase c)
  else if prop_idx =? UNICODE_PROP_Alphabetic then
    (fun c => gc letters c || in_prop UNICODE_PROP_Other_Uppercase c || in_prop UNICODE_PROP_Other_Lowercase c ||
      in_prop UNICODE_PROP_Other_Alphabetic c)
  else if prop_idx =? UNICODE_PROP_Grapheme_Base then
    (fun c => any_value c && negb (gc [UNICODE_GC_Cc; UNICODE_GC_Cf; UNICODE_GC_Cs; UNICODE_GC_Co; UNICODE_GC_Cn; UNICODE_GC_Zl;
      UNICODE_GC_Zp; UNICODE_GC_Me; UNICODE_GC_Mn] c || in_prop UNICODE_PROP_Other_Grapheme_Extend c))
  else if prop_idx =? UNICODE_PROP_Grapheme_Extend then
    (fun c => gc [UNICODE_GC_Me; UNICODE_GC_Mn] c || in_prop UNICODE_PROP_Other_Grapheme_Extend c)
  else if prop_idx =? UNICODE_PROP_XID_Start then
    (fun c => (gc letters c || in_prop UNICODE_PROP_Other_ID_Start c) &&
      (any_value c && negb (pattern_char c || in_prop UNICODE_PROP_XID_Start1 c)))
  else if prop_idx =? UNICODE_PROP_XID_Continue then
    (fun c => (gc (letters ++ [UNICODE_GC_Mn; UNICODE_GC_Mc; UNICODE_GC_Nd; UNICODE_GC_Pc]) c ||
      in_prop UNICODE_PROP_Other_ID_Start c || in_prop UNICODE_PROP_Other_ID_Continue c) &&
      (any_value c && negb (pattern_char c || in_prop UNICODE_PROP_XID_Continue1 c)))
  else if prop_idx =? UNICODE_PROP_Changes_When_Uppercased then converts 0
  else if prop_idx =? UNICODE_PROP_Changes_When_Lowercased then converts 1
  else if prop_idx =? UNICODE_PROP_Changes_When_Casemapped then (fun c => converts 0 c || converts 1 c || converts 2 c)
  else if prop_idx =? UNICODE_PROP_Changes_When_Titlecased then
    (fun c => xorb (converts 0 c) (in_prop UNICODE_PROP_Changes_When_Titlecased1 c))
  else if prop_idx =? UNICODE_PROP_Changes_When_Casefolded then
    (fun c => xorb (converts 2 c) (in_prop UNICODE_PROP_Changes_When_Casefolded1 c))
  else if prop_idx =? UNICODE_PROP_Changes_When_NFKC_Casefolded then
    (fun c => xorb (converts 2 c) (in_prop UNICODE_PROP_Changes_When_NFKC_Casefolded1 c))
  else if prop_idx =? UNICODE_PROP_ID_Continue then (fun c => in_prop UNICODE_PROP_ID_Start c || in_prop UNICODE_PROP_ID_Continue1 c)
  else in_prop prop_idx.

(** ** The ranges of case *)
Definition case_runs : list (Z * Z * Z) :=
  map (fun v => (run_code 17 v, run_code 17 v + run_len 17 v, v)) case_conv_table1.

Definition run_type (v : Z) : Z := Z.land (Z.shiftr v (32 - 17 - 7 - 4)) 15.

Definition case_pieces (case_mask type c0 len : Z) : list (Z * Z) :=
  let upper := negb (Z.land case_mask CASE_U =? 0) in
  let both := upper && negb (Z.land case_mask (Z.lor CASE_L CASE_F) =? 0) in
  if (type =? RUN_TYPE_UL) && negb both then every_other (S (Z.to_nat len)) (c0 + b2z upper) (c0 + b2z upper + len)
  else if (type =? RUN_TYPE_LSU) && negb both then
    (if negb upper then [(c0, c0 + 1)] else []) ++ [(c0 + 1, c0 + 2)] ++ (if upper then [(c0 + 2, c0 + 3)] else [])
  else [(c0, c0 + len)].

Definition case_piece (mask case_mask : Z) (r : Z * Z * Z) : list (Z * Z) :=
  if mask_has mask (run_type r.2) then case_pieces case_mask (run_type r.2) r.1.1 (run_len 17 r.2) else [].

Fixpoint increasing (lo : Z) (pts : list Z) : bool :=
  match pts with [] => true | p :: pts => (lo <=? p) && increasing p pts end.

Definition case_masks : list Z := seqZ 1 7.

(** The points of a run for every mask, at its characters. *)
Definition case_run_ok (r : Z * Z * Z) : bool :=
  let l := map (fun m => (m, flat (case_piece (case_run_mask 0 m tab_run_mask) m r))) case_masks in
  forallb (fun x => increasing r.1.1 x.2 && forallb (fun p => p <=? r.1.2) x.2) l &&
  forallb (fun c => let b := change_bits c in forallb (fun x => eqb (mem x.2 c) (negb (Z.land x.1 b =? 0))) l)
    (seqZ r.1.1 (r.1.2 - r.1.1)).

Lemma case_runs_ok : forallb case_run_ok case_runs = true.
Proof. vm_compute. reflexivity. Qed.

Lemma case_runs_ordered : ordered 0 case_runs = true.
Proof. vm_compute. reflexivity. Qed.

(** At most 64 intervals for a run; in all they are few. *)
Definition case_weight (r : Z * Z * Z) : Z := Z.max 3 (run_len 17 r.2).

Lemma case_runs_weight : 2 * foldr (fun r s => case_weight r + s) 0 case_runs <= TABLE_MAX.
Proof. vm_compute. discriminate. Qed.

(** ASCII letters are in runs. *)
Lemma ascii_runs : forallb (fun c => (change_bits c =? 0) || existsb (fun r => run_has r c) case_runs) (zseq 0 128) = true.
Proof. vm_compute. reflexivity. Qed.

Lemma increasing_sorted pts : forall lo, increasing lo pts = true -> sorted_le pts /\ Forall (fun p => lo <= p) pts.
Proof.
  induction pts as [| p pts IH]; intros lo; cbn [increasing]; [split; constructor |].
  intros [Hp%Z.leb_le H]%andb_true_iff. destruct (IH _ H) as [Hs Hb].
  split; constructor; [done | forall_lia Hb | done | forall_lia Hb].
Qed.

Lemma case_piece_ok m r : 1 <= m <= 7 -> r ∈ case_runs ->
  piece_ok r (case_piece (case_run_mask 0 m tab_run_mask) m r) (changes m).
Proof.
  intros Hm Hr. pose proof case_runs_ok as Hok. rewrite forallb_forall in Hok. apply list_elem_of_In in Hr. specialize (Hok r Hr).
  unfold case_run_ok in Hok. apply andb_true_iff in Hok as [Hp Hc].
  assert ((m, flat (case_piece (case_run_mask 0 m tab_run_mask) m r)) ∈
    map (fun m => (m, flat (case_piece (case_run_mask 0 m tab_run_mask) m r))) case_masks) as Hin.
  { apply list_elem_of_In, in_map_iff. exists m. split; [done |]. apply list_elem_of_In, elem_of_seqZ. lia. }
  apply list_elem_of_In in Hin. rewrite forallb_forall in Hp. specialize (Hp _ Hin). cbn [fst snd] in Hp.
  apply andb_true_iff in Hp as [Hi Hb]. destruct (increasing_sorted _ _ Hi) as [Hs Hlo]. split; [done | |].
  - rewrite list.Forall_forall in Hlo |- *. intros p Hp. split; [by apply Hlo |]. rewrite forallb_forall in Hb.
    apply Z.leb_le, Hb, list_elem_of_In, Hp.
  - intros c Hh. unfold run_has in Hh. apply andb_true_iff in Hh as [H1%Z.leb_le H2%Z.ltb_lt]. rewrite forallb_forall in Hc.
    specialize (Hc c). rewrite <- list_elem_of_In, elem_of_seqZ in Hc. specialize (Hc ltac:(lia)). cbn zeta in Hc.
    rewrite forallb_forall in Hc. specialize (Hc _ Hin). apply eqb_prop, Hc.
Qed.

#[local] Opaque case_conv_table1 case_conv_table2 case_conv_ext.

(** A character that a conversion changes is in a run. *)
Lemma changes_in_run m c : (forall r, r ∈ case_runs -> run_has r c = false) -> changes m c = false.
Proof.
  intros Hn. assert (change_bits c = 0) as E; [| unfold changes; by rewrite E, Z.land_0_r].
  assert (forall t, lre_case_conv c t = Ret [c] -> converts t c = false) as Hid by (intros t E; unfold converts; by rewrite E, Z.eqb_refl).
  destruct (Z.ltb_spec c 0).
  { unfold change_bits. rewrite !Hid; [done | unfold lre_case_conv ..];
      (destruct (Z.ltb_spec c 128); [| lia]); destruct (Z.leb_spec 65 c), (Z.leb_spec 97 c); done || lia. }
  assert (forall v, in_run 17 v c -> v ∉ case_conv_table1) as Hn'.
  { intros v Hin Hv. specialize (Hn (run_code 17 v, run_code 17 v + run_len 17 v, v)). unfold run_has in Hn. cbn [fst snd] in Hn.
    rewrite (proj2 (Z.leb_le _ _)), (proj2 (Z.ltb_lt _ _)) in Hn by apply Hin. discriminate Hn. apply list_elem_of_In, in_map_iff.
    exists v. split; [done | by apply list_elem_of_In]. }
  apply (case_conv_cases c (fun c => change_bits c = 0)); [lia | | |].
  - intros Hlt. pose proof (forall_ascii _ c ascii_runs ltac:(lia)) as Ha. cbn beta in Ha. apply orb_true_iff in Ha as [Ha | Ha]; [by apply Z.eqb_eq |].
    apply existsb_exists in Ha as (r & Hr & Hh). apply list_elem_of_In in Hr. by rewrite (Hn r Hr) in Hh.
  - intros _ E. unfold change_bits. by rewrite !Hid.
  - intros idx v Ev Hin. destruct (Hn' v Hin). by apply znth_elem_of with idx.
Qed.

Section case.
Context `{Realloc is_u32}.

Lemma add_alternate_all fuel : forall cr code len i, 0 <= code -> 0 <= i -> code + len <= MAX_CODE -> Z.max 0 (len - i) < Z.of_nat fuel ->
  add_alternate fuel cr code len i = add_all (every_other fuel (code + i) (code + len)) cr.
Proof.
  unfold MAX_CODE. induction fuel as [| fuel IH]; intros cr code len i H0 Hi Hc Hf; cbn [add_alternate every_other]; [lia |].
  destruct (Z.ltb_spec i len), (Z.ltb_spec (code + i) (code + len)); try lia; [| done]. cbn [add_all]. rewrite !u32_code by lia.
  destruct (cr_add_interval cr (code + i) (code + i + 1)) as [[cr1 r] | |]; cbn [mbind res_bind]; [| done ..].
  destruct (negb (r =? 0)); [done |]. rewrite IH by lia. by rewrite Z.add_assoc.
Qed.

Lemma case_add_run_all cr case_mask type code len : 0 <= code -> 0 < len <= 127 -> code + 200 <= MAX_CODE ->
  case_add_run cr case_mask type code len = add_all (case_pieces case_mask type code len) cr.
Proof.
  intros Hc Hl Hm. unfold case_add_run, case_pieces. unfold MAX_CODE in Hm. set (upper := negb (Z.land case_mask CASE_U =? 0)).
  set (both := upper && _). assert (0 <= b2z upper <= 1) as Hu by (by destruct upper).
  destruct ((type =? RUN_TYPE_UL) && negb both).
  { rewrite u32_code by lia. rewrite add_alternate_all by (unfold MAX_CODE; lia). by rewrite Z.add_0_r. }
  destruct ((type =? RUN_TYPE_LSU) && negb both); rewrite !u32_code by lia; [| apply add_one].
  apply add_all_bind; [apply add_when_all |]. intros cr1. apply add_all_bind; [apply add_one |]. intros cr2. apply add_when_all.
Qed.

Lemma case_loop_all mask case_mask table : forall cr, (forall v, v ∈ table -> 0 <= run_code 17 v /\ 0 < run_len 17 v <= 127 /\ run_code 17 v + 200 <= MAX_CODE) ->
  case_loop mask case_mask table cr =
  add_all (concat (map (case_piece mask case_mask) (map (fun v => (run_code 17 v, run_code 17 v + run_len 17 v, v)) table))) cr.
Proof.
  induction table as [| v table IH]; intros cr Hv; [done |]. cbn [case_loop map concat]. fold (run_type v) (mask_has mask (run_type v)).
  unfold case_piece at 1. cbn [fst snd]. destruct (Hv v ltac:(by left)) as (H1 & H2 & H3).
  assert (forall cr, case_loop mask case_mask table cr = _) as IH' by (intros cr1; apply IH; intros w Hw; apply Hv; by right).
  destruct (mask_has mask (run_type v)); [| by apply IH']. apply add_all_bind; [by apply case_add_run_all | exact IH'].
Qed.

Lemma case_table_small : forallb (fun v => (0 <=? run_code 17 v) && (0 <? run_len 17 v) && (run_len 17 v <=? 127) &&
  (run_code 17 v + 200 <=? MAX_CODE)) case_conv_table1 = true.
Proof. vm_compute. reflexivity. Qed.

Lemma zlen_case_piece mask m r : zlen (case_piece mask m r) <= case_weight r.
Proof.
  unfold case_piece, case_weight. destruct (mask_has _ _); [| rewrite zlen_nil; lia]. unfold case_pieces.
  destruct (_ && _); [etrans; [apply zlen_every_other | lia] |]. destruct (_ && _); [| change (zlen [_]) with 1; lia].
  rewrite !zlen_app. assert (forall (b : bool) (x : Z * Z), zlen (if b then [x] else []) <= 1) as Hb by (by intros []).
  pose proof (Hb (negb (negb (Z.land m CASE_U =? 0))) (r.1.1, r.1.1 + 1)).
  pose proof (Hb (negb (Z.land m CASE_U =? 0)) (r.1.1 + 2, r.1.1 + 3)). change (zlen [(r.1.1 + 1, r.1.1 + 2)]) with 1. lia.
Qed.

(** The characters that one of the conversions of the mask changes. *)
Lemma unicode_case1_makes m : 1 <= m <= 7 -> makes (unicode_case1 cr_init m) (changes m).
Proof.
  intros Hm. unfold unicode_case1. destruct (Z.eqb_spec m 0); [lia |]. rewrite case_loop_all; fold case_runs.
  - apply makes_ext with (in_runs (fun _ => changes m) case_runs).
    { intros c. unfold in_runs. destruct (run_at case_runs c) as [r |] eqn:E; [done |]. symmetry. apply changes_in_run.
      intros r Hr. exact (find_none _ _ E r (proj1 (list_elem_of_In _ _) Hr)). }
    apply (runs_make case_runs _ (fun _ => changes m) case_weight); [exact case_runs_ordered | | | exact case_runs_weight].
    + intros r Hr. by apply case_piece_ok.
    + intros r. apply zlen_case_piece.
  - intros v Hv. pose proof case_table_small as Hs. rewrite forallb_forall in Hs. apply list_elem_of_In in Hv. specialize (Hs v Hv).
    rewrite !andb_true_iff, !Z.leb_le, Z.ltb_lt in Hs. tauto.
Qed.
End case.

Lemma converts_spec t c : converts t c = true <-> lre_case_conv c t <> Ret [c].
Proof.
  unfold converts. destruct (lre_case_conv c t) as [[| x [| y l]] | |]; try done.
  rewrite negb_true_iff, Z.eqb_neq. split; congruence.
Qed.

Lemma changes_conversion m c : 1 <= m <= 7 ->
  changes m c = true <-> exists t, 0 <= t <= 2 /\ Z.testbit m t = true /\ lre_case_conv c t <> Ret [c].
Proof.
  intros Hm. setoid_rewrite <- converts_spec. unfold changes, change_bits.
  assert (forall b0 b1 b2, negb (Z.land m (b2z b0 + 2 * b2z b1 + 4 * b2z b2) =? 0) =
    (Z.testbit m 0 && b0 || Z.testbit m 1 && b1 || Z.testbit m 2 && b2)) as ->.
  { assert (Forall (fun m => forall b0 b1 b2, negb (Z.land m (b2z b0 + 2 * b2z b1 + 4 * b2z b2) =? 0) =
      (Z.testbit m 0 && b0 || Z.testbit m 1 && b1 || Z.testbit m 2 && b2)) (seqZ 1 7)) as Ha by (repeat constructor; intros [] [] []; reflexivity).
    rewrite list.Forall_forall in Ha. apply Ha, elem_of_seqZ. lia. }
  rewrite !orb_true_iff, !andb_true_iff. split.
  - intros [[[? ?] | [? ?]] | [? ?]]; [exists 0 | exists 1 | exists 2]; done.
  - intros (t & Ht & ? & ?). assert (t = 0 \/ t = 1 \/ t = 2) as [-> | [-> | ->]] by lia; auto.
Qed.

(** ** The stack of ranges *)

(** What a list of operations stands for, on sets; [None] if it does not leave one
    set on the stack, or needs more than four. *)
Fixpoint eval_ops (ops : list PropOPEnum) (st : list (Z -> bool)) : option (Z -> bool) :=
  let push P ops := if zlen st <? 4 then eval_ops ops (P :: st) else None in
  match ops with
  | [] => None
  | POP_END :: _ => match st with [P] => Some P | _ => None end
  | POP_GC m :: ops => push (in_categories m) ops
  | POP_PROP i :: ops => if (0 <=? i) && (i <? 50) then push (in_prop i) ops else None
  | POP_CASE m :: ops => if (1 <=? m) && (m <=? 7) then push (changes m) ops else None
  | POP_INVERT :: ops => match st with P :: st => eval_ops ops ((fun c => any_value c && negb (P c)) :: st) | [] => None end
  | op :: ops =>
      match st with
      | Q :: P :: rest => if zlen st <? 4 then eval_ops ops ((fun c => cr_bool (pop_cr_op op) (P c) (Q c)) :: rest) else None
      | _ => None
      end
  end.

Lemma prop_tables_number : zlen unicode_prop_table = 50.
Proof. reflexivity. Qed.

(** The lengths of the ranges of the stack. *)
Definition stack_points (st : list CharRange) : Z := foldr (fun cr s => cr_len cr + s) 0 st.

Section ops.
Context `{Realloc is_u32}.

(** As [makes], without a bound on the number of points. *)
Definition yields (f : res (CharRange * Z)) (P : Z -> bool) : Prop :=
  exists cr r, f = Ret (cr, r) /\ ((r = 0 /\ denotes cr P) \/ oom r).

Lemma makes_yields f P : makes f P -> yields f P.
Proof. intros (cr & r & E & Hr). exists cr, r. split; [done |]. destruct Hr as [(? & ? & _) | ?]; auto. Qed.

Lemma yields_ext f P Q : (forall c, P c = Q c) -> yields f P -> yields f Q.
Proof.
  intros E (cr & r & Ef & Hr). exists cr, r. split; [done |]. destruct Hr as [[? ?] | ?]; [left | by right].
  split; [done | by eapply denotes_ext].
Qed.

(** The stack is those sets, with room for what [k] more operations may add. *)
Definition stack_ok (k : nat) (st : list CharRange) (ps : list (Z -> bool)) : Prop :=
  Forall2 denotes st ps /\ stack_points st + Z.of_nat k * TABLE_MAX <= MAX_POINTS.

Lemma stack_zlen k st ps : stack_ok k st ps -> zlen st = zlen ps.
Proof. intros [H2 _]. unfold zlen. by rewrite (Forall2_length H2). Qed.

Lemma denotes_len cr P : denotes cr P -> 0 <= cr_len cr.
Proof. intros [[? _ _] _]. lia. Qed.

(** What an operation does to the stack, or the allocation fails. *)
Definition step_ok (k : nat) (f : res (list CharRange * Z)) (ps : list (Z -> bool)) : Prop :=
  exists st r, f = Ret (st, r) /\ ((r = 0 /\ stack_ok k st ps) \/ oom r).

Lemma pop_push_ok k st ps f P : stack_ok (S k) st ps -> zlen ps < 4 -> makes (f cr_init) P -> step_ok k (pop_push st f) (P :: ps).
Proof.
  intros Hst Hz (cr & r & E & Hr). unfold pop_push, POP_STACK_LEN_MAX. rewrite (stack_zlen _ _ _ Hst), (proj2 (Z.ltb_lt _ _) Hz).
  cbn [assert_ mbind res_bind]. rewrite E. cbn [mbind res_bind]. exists (cr :: st), r. split; [done |].
  destruct Hr as [(-> & Hd & Hl) | ?]; [left | by right]. destruct Hst as [H2 Hp]. split; [done |]. split; [by constructor |].
  cbn [stack_points foldr]. fold (stack_points st). lia.
Qed.

Lemma pop_binary_ok k st op Q P ps : stack_ok (S k) st (Q :: P :: ps) -> zlen (Q :: P :: ps) < 4 ->
  op = POP_UNION \/ op = POP_INTER \/ op = POP_XOR ->
  step_ok k (pop_step op st) ((fun c => cr_bool (pop_cr_op op) (P c) (Q c)) :: ps).
Proof.
  intros Hst Hz Hop. pose proof (stack_zlen _ _ _ Hst) as Hlen. destruct Hst as [H2 Hp].
  inversion H2 as [| cr2 ? st1 ? D2 H2']; subst. inversion H2' as [| cr1 ? rest ? D1 H2'']; subst.
  cbn [stack_points foldr] in Hp. fold (stack_points rest) in Hp.
  assert (0 <= stack_points rest) as Hr0.
  { clear -H2''. induction H2''; cbn; [done |]. pose proof (denotes_len _ _ H). fold (stack_points l). lia. }
  pose proof (denotes_len _ _ D1). pose proof (denotes_len _ _ D2).
  destruct (denotes_op cr1 cr2 (pop_cr_op op) P Q D1 D2) as (cr3 & r & E & Hr); [unfold TABLE_MAX in Hp; lia |].
  assert (pop_step op (cr2 :: cr1 :: rest) = Ret (cr3 :: rest, r)) as ->.
  { assert ((2 <=? zlen (cr2 :: cr1 :: rest)) && (zlen (cr2 :: cr1 :: rest) <? POP_STACK_LEN_MAX) = true) as Ha.
    { unfold POP_STACK_LEN_MAX. rewrite Hlen, !zlen_cons in *. pose proof (zlen_nonneg ps). apply andb_true_iff. lia. }
    destruct Hop as [-> | [-> | ->]]; cbn [pop_step pop_cr_op] in *; rewrite Ha; cbn [assert_ mbind res_bind]; by rewrite E. }
  exists (cr3 :: rest), r. split; [done |]. destruct Hr as [(-> & D & Hl) | ?]; [left | by right]. split; [done |].
  split; [by constructor |]. cbn [stack_points foldr]. fold (stack_points rest). unfold TABLE_MAX in *. lia.
Qed.

Lemma pop_invert_ok k st P ps : stack_ok (S k) st (P :: ps) ->
  step_ok k (pop_step POP_INVERT st) ((fun c => any_value c && negb (P c)) :: ps).
Proof.
  intros Hst. destruct Hst as [H2 Hp]. inversion H2 as [| cr ? rest ? D H2']; subst.
  cbn [stack_points foldr] in Hp. fold (stack_points rest) in Hp.
  assert (0 <= stack_points rest) as Hr0.
  { clear -H2'. induction H2'; cbn; [done |]. pose proof (denotes_len _ _ H). fold (stack_points l). lia. }
  destruct (denotes_invert cr P D) as (cr' & r & E & Hr); [unfold TABLE_MAX in Hp; lia |].
  exists (cr' :: rest), r. split.
  - cbn [pop_step]. rewrite zlen_cons, (proj2 (Z.leb_le 1 _)) by (pose proof (zlen_nonneg rest); lia). cbn [assert_ mbind res_bind].
    by rewrite E.
  - destruct Hr as [(-> & D' & Hl) | ?]; [left | by right]. split; [done |]. split; [by constructor |].
    cbn [stack_points foldr]. fold (stack_points rest). unfold TABLE_MAX in *. lia.
Qed.

#[local] Opaque unicode_general_category1 unicode_prop1 unicode_case1.

Lemma prop_ops_ok ops : forall st ps P, stack_ok (length ops) st ps -> eval_ops ops ps = Some P -> yields (prop_ops_loop ops st) P.
Proof.
  induction ops as [| op ops IH]; intros st ps P Hst E; [done |]. cbn [length] in Hst.
  assert (forall ps', step_ok (length ops) (pop_step op st) ps' -> eval_ops ops ps' = Some P -> op <> POP_END ->
    yields (prop_ops_loop (op :: ops) st) P) as Hstep.
  { intros ps' (st' & r & Es & Hr) E' D. assert (prop_ops_loop (op :: ops) st =
      ('(st1, r) ← pop_step op st; if negb (r =? 0) then Ret (cr_init, -1) else prop_ops_loop ops st1)) as -> by (by destruct op).
    rewrite Es. cbn [mbind res_bind]. destruct Hr as [[-> Hst'] | Ho]; [by apply (IH st' ps') |].
    pose proof Ho as [-> _]. exists cr_init, (-1). auto. }
  destruct op; cbn [eval_ops] in E.
  - destruct (Z.ltb_spec (zlen ps) 4); [| done]. apply (Hstep _ (pop_push_ok _ _ _ (fun cr => unicode_general_category1 cr gc_mask) _ Hst ltac:(assumption) (unicode_general_category1_makes gc_mask)) E).
    discriminate.
  - destruct (Z.leb_spec 0 prop_idx), (Z.ltb_spec prop_idx 50); try done. destruct (Z.ltb_spec (zlen ps) 4); [| done].
    refine (Hstep _ (pop_push_ok _ _ _ (fun cr => unicode_prop1 cr prop_idx) _ Hst _ (unicode_prop1_makes prop_idx _)) E _); [assumption | rewrite prop_tables_number; lia | discriminate].
  - destruct (Z.leb_spec 1 case_mask), (Z.leb_spec case_mask 7); try done. destruct (Z.ltb_spec (zlen ps) 4); [| done].
    refine (Hstep _ (pop_push_ok _ _ _ (fun cr => unicode_case1 cr case_mask) _ Hst _ (unicode_case1_makes case_mask _)) E _); [assumption | lia | discriminate].
  - destruct ps as [| Q [| R ps]]; try done. destruct (Z.ltb_spec (zlen (Q :: R :: ps)) 4); [| done].
    refine (Hstep _ (pop_binary_ok _ _ _ _ _ _ Hst _ _) E _); [assumption | tauto | discriminate].
  - destruct ps as [| Q [| R ps]]; try done. destruct (Z.ltb_spec (zlen (Q :: R :: ps)) 4); [| done].
    refine (Hstep _ (pop_binary_ok _ _ _ _ _ _ Hst _ _) E _); [assumption | tauto | discriminate].
  - destruct ps as [| Q [| R ps]]; try done. destruct (Z.ltb_spec (zlen (Q :: R :: ps)) 4); [| done].
    refine (Hstep _ (pop_binary_ok _ _ _ _ _ _ Hst _ _) E _); [assumption | tauto | discriminate].
  - destruct ps as [| Q ps]; try done. apply (Hstep _ (pop_invert_ok _ _ _ _ Hst) E). discriminate.
  - destruct ps as [| Q [| R ps]]; try done. injection E as ->. destruct Hst as [H2 Hp].
    inversion H2 as [| cr ? rest ? D H2']; subst. inversion H2'; subst. cbn [prop_ops_loop].
    change (zlen [cr] =? 1) with true. cbn [assert_ mbind res_bind]. cbn [stack_points foldr] in Hp.
    apply denotes_copy; [done | unfold TABLE_MAX in Hp; lia].
Qed.

Lemma unicode_prop_ops_yields ops P : eval_ops ops [] = Some P -> (length ops <= 100)%nat -> yields (unicode_prop_ops ops) P.
Proof.
  intros E Hl. unfold unicode_prop_ops. apply (prop_ops_ok ops [] []); [| done]. split; [constructor |].
  unfold stack_points, TABLE_MAX, MAX_POINTS. cbn [foldr]. lia.
Qed.
End ops.

(** ** Sets that do not meet *)
Fixpoint disjoint (fuel : nat) (a b : list (Z * Z)) : bool :=
  match fuel with
  | O => false
  | S fuel =>
      match a, b with
      | (a0, a1) :: a', (b0, b1) :: b' =>
          if a1 <=? b0 then disjoint fuel a' b else if b1 <=? a0 then disjoint fuel a b' else false
      | _, _ => true
      end
  end.

Lemma mem_first x y pts c : sorted_le (x :: y :: pts) -> y <= c -> mem (x :: y :: pts) c = mem pts c.
Proof.
  intros Hs Hc. apply sorted_le_cons in Hs as [_ Hx]. apply Forall_cons_iff in Hx as [Hx _]. cbn [mem].
  destruct (Z.leb_spec x c), (Z.leb_spec y c); try lia. by destruct (mem pts c).
Qed.

Lemma disjoint_spec fuel : forall a b c, sorted_le (flat a) -> sorted_le (flat b) -> disjoint fuel a b = true ->
  mem (flat a) c && mem (flat b) c = false.
Proof.
  assert (forall x y pts b0 b1 q c, sorted_le (x :: y :: pts) -> sorted_le (b0 :: b1 :: q) -> y <= b0 ->
    mem pts c && mem (b0 :: b1 :: q) c = false -> mem (x :: y :: pts) c && mem (b0 :: b1 :: q) c = false) as Hone.
  { intros x y pts b0 b1 q c Ha Hb Hle Hm. destruct (Z.leb_spec y c); [by rewrite mem_first |].
    rewrite (mem_below (b0 :: b1 :: q)); [apply andb_false_r |]. apply sorted_le_cons in Hb as [_ Hb]. constructor; [lia |]. forall_lia Hb. }
  induction fuel as [| fuel IH]; intros a b c Ha Hb Hd; [done |]. cbn [disjoint] in Hd.
  destruct a as [| [a0 a1] a]; [done |]. destruct b as [| [b0 b1] b]; [apply andb_false_r |]. cbn [flat] in *.
  pose proof Ha as Ha'. pose proof Hb as Hb'. do 2 apply sorted_le_cons in Ha' as [Ha' _]. do 2 apply sorted_le_cons in Hb' as [Hb' _].
  destruct (Z.leb_spec a1 b0); [apply Hone; [done .. |]; by apply (IH a ((b0, b1) :: b)) |].
  destruct (Z.leb_spec b1 a0); [| done]. rewrite andb_comm. apply Hone; [done .. |]. rewrite andb_comm.
  by apply (IH ((a0, a1) :: a) b).
Qed.

Definition prop_pairs (prop_idx : Z) : list (Z * Z) :=
  match znth unicode_prop_table prop_idx with Some t => pairs (table_points t) | None => [] end.

Lemma id_tables_disjoint : disjoint 2000 (prop_pairs UNICODE_PROP_ID_Start) (prop_pairs UNICODE_PROP_ID_Continue1) = true.
Proof. vm_compute. reflexivity. Qed.

Lemma prop_pairs_spec prop_idx : 0 <= prop_idx < 50 ->
  sorted_le (flat (prop_pairs prop_idx)) /\ forall c, mem (flat (prop_pairs prop_idx)) c = in_prop prop_idx c.
Proof.
  intros Hi. rewrite <- prop_tables_number in Hi. apply znth_is_Some in Hi as [t Et]. unfold prop_pairs, in_prop. rewrite Et.
  pose proof prop_tables_ok as Hok. rewrite forallb_forall in Hok.
  destruct (prop_table_inv t) as (_ & [Hs He _ _] & _); [by apply Hok, list_elem_of_In, (znth_elem_of _ _ _ Et) |].
  by rewrite flat_pairs.
Qed.

Lemma id_disjoint c : in_prop UNICODE_PROP_ID_Start c && in_prop UNICODE_PROP_ID_Continue1 c = false.
Proof.
  destruct (prop_pairs_spec UNICODE_PROP_ID_Start) as [Hs1 <-]; [done |].
  destruct (prop_pairs_spec UNICODE_PROP_ID_Continue1) as [Hs2 <-]; [done |]. by apply (disjoint_spec _ _ _ _ Hs1 Hs2 id_tables_disjoint).
Qed.

Lemma in_prop_table prop_idx t : znth unicode_prop_table prop_idx = Some t -> forall c, in_prop prop_idx c = mem (table_points t) c.
Proof. intros E c. unfold in_prop. by rewrite E. Qed.

(** The tables that functions test one character with. *)
Lemma id_start_table : znth unicode_prop_table UNICODE_PROP_ID_Start = Some unicode_prop_ID_Start_table.
Proof. reflexivity. Qed.

Lemma id_continue1_table : znth unicode_prop_table UNICODE_PROP_ID_Continue1 = Some unicode_prop_ID_Continue1_table.
Proof. reflexivity. Qed.

Lemma case_ignorable_table : znth unicode_prop_table UNICODE_PROP_Case_Ignorable = Some unicode_prop_Case_Ignorable_table.
Proof. reflexivity. Qed.

(** The sets of their names. *)
Lemma id_start_set : property_set UNICODE_PROP_ID_Start = in_prop UNICODE_PROP_ID_Start.
Proof. reflexivity. Qed.

Lemma id_continue_set : property_set UNICODE_PROP_ID_Continue =
  (fun c => in_prop UNICODE_PROP_ID_Start c || in_prop UNICODE_PROP_ID_Continue1 c).
Proof. reflexivity. Qed.

Lemma case_ignorable_set : property_set UNICODE_PROP_Case_Ignorable = in_prop UNICODE_PROP_Case_Ignorable.
Proof. reflexivity. Qed.

(** ** The properties *)
Lemma script_names_ok : forallb literal_ok unicode_script_names = true.
Proof. vm_compute. reflexivity. Qed.

Lemma gc_names_ok : forallb literal_ok unicode_gc_names = true.
Proof. vm_compute. reflexivity. Qed.

Lemma prop_names_ok : forallb literal_ok unicode_prop_names = true.
Proof. vm_compute. reflexivity. Qed.

Lemma find_script name : unicode_find_name unicode_script_name_table name =
  Ret (match name_index unicode_script_names name with Some k => k | None => -1 end).
Proof. exact (unicode_find_name_spec _ name script_names_ok). Qed.

Lemma find_gc name : unicode_find_name unicode_gc_name_table name =
  Ret (match name_index unicode_gc_names name with Some k => k | None => -1 end).
Proof. exact (unicode_find_name_spec _ name gc_names_ok). Qed.

Lemma find_prop name : unicode_find_name unicode_prop_name_table name =
  Ret (match name_index unicode_prop_names name with Some k => k | None => -1 end).
Proof. exact (unicode_find_name_spec _ name prop_names_ok). Qed.

#[local] Opaque unicode_find_name unicode_script_table unicode_script_ext_table unicode_gc_table.

(** The jump of [fail] to itself never ends in a result. *)
Lemma fail_loop_never fuel : forall is_ext freed cr1 cr2 x, fail_loop fuel is_ext freed cr1 cr2 <> Ret x.
Proof. induction fuel as [| fuel IH]; intros; cbn [fail_loop]; [done |]. by destruct (_ && _). Qed.

Lemma category_mask_spec k : 0 <= k < 38 ->
  (if k <=? UNICODE_GC_Co then Ret (u32 (Z.shiftl 1 k)) else of_opt (znth unicode_gc_mask_table (k - UNICODE_GC_LC))) = Ret (category_mask k).
Proof.
  intros Hk. assert (Forall (fun k => (if k <=? UNICODE_GC_Co then Ret (u32 (Z.shiftl 1 k))
    else of_opt (znth unicode_gc_mask_table (k - UNICODE_GC_LC))) = Ret (category_mask k)) (seqZ 0 38)) as Ha.
  { repeat (apply List.Forall_cons; [vm_compute; reflexivity |]). constructor. }
  rewrite list.Forall_forall in Ha. apply Ha, elem_of_seqZ. lia.
Qed.

Section props.
Context `{Realloc is_u32}.

(** The allocator refused a block. *)
Definition allocation_fails : Prop := exists buf n, 0 <= n <= 2 ^ 29 /\ realloc_func buf n = None.

Lemma unicode_script_spec name is_ext :
  match name_index unicode_script_names name with
  | None => forall fuel, unicode_script fuel name is_ext = Ret (cr_init, -2)
  | Some k =>
      (exists cr, (forall fuel, unicode_script fuel name is_ext = Ret (cr, 0)) /\ denotes cr (script_set (k + 1) is_ext)) \/
      (allocation_fails /\ forall fuel x, unicode_script fuel name is_ext <> Ret x)
  end.
Proof.
  unfold unicode_script. rewrite find_script. destruct (name_index unicode_script_names name) as [k |] eqn:Ek; [| done].
  apply name_index_range in Ek as [Hk _]. cbn [mbind res_bind]. destruct (Z.ltb_spec k 0); [lia |].
  change (UNICODE_SCRIPT_Unknown + 1) with 1. unfold script_set, ext_has.
  set (is_common := (k + 1 =? UNICODE_SCRIPT_Common) || _).
  destruct (script_loop_makes (k + 1)) as (cr1 & r & -> & Hr). cbn [mbind res_bind].
  destruct Hr as [(-> & D1 & L1) | Ho]; [| pose proof Ho as [-> Hf]; right; split; [done | intros; apply fail_loop_never]].
  cbn [Z.eqb negb]. destruct is_ext; [| left; exists cr1; done].
  destruct (script_ext_loop_makes is_common (k + 1)) as (cr2 & r & -> & Hr). cbn [mbind res_bind].
  destruct Hr as [(-> & D2 & L2) | Ho]; [| pose proof Ho as [-> Hf]; right; split; [done | intros; apply fail_loop_never]].
  cbn [Z.eqb negb]. unfold TABLE_MAX in L1, L2. unfold ext_has in D2. destruct is_common.
  - destruct (denotes_invert cr2 _ D2) as (cr3 & r & -> & Hr); [unfold MAX_POINTS; lia |]. cbn [mbind res_bind].
    destruct Hr as [(-> & D3 & L3) | Ho]; [| pose proof Ho as [-> Hf]; right; split; [done | intros; apply fail_loop_never]].
    cbn [Z.eqb negb]. destruct (denotes_op cr1 cr3 CR_OP_INTER _ _ D1 D3) as (cr & r & -> & Hr); [unfold MAX_POINTS; lia |]. cbn [mbind res_bind].
    destruct Hr as [(-> & D & _) | Ho]; [| pose proof Ho as [-> Hf]; right; split; [done | intros; apply fail_loop_never]].
    left. exists cr. split; [done |]. eapply denotes_ext; [| exact D]. intros c. cbn [cr_bool].
    destruct (has_script (k + 1) c) eqn:E; [| done]. pose proof (denotes_bounds _ _ c D1 E) as [H1%Z.leb_le H2%Z.ltb_lt].
    rewrite H1, H2. by destruct (script_extensions c).
  - destruct (denotes_op cr1 cr2 CR_OP_UNION _ _ D1 D2) as (cr & r & -> & Hr); [unfold MAX_POINTS; lia |]. cbn [mbind res_bind].
    destruct Hr as [(-> & D & _) | Ho]; [| pose proof Ho as [-> Hf]; right; split; [done | intros; apply fail_loop_never]].
    left. exists cr. split; [done |]. exact D.
Qed.

(** C32: [unicode_script] finds a script by any of its names, and returns -2 for other
    names.  Its range is the set of the characters of the script: those whose run
    in the table has the script; with extensions, also those that have the script
    among theirs, or for Common and Inherited, only those without extensions.  When
    memory runs out the function never returns. *)
Theorem unicode_script_correct name is_ext :
  match name_index unicode_script_names name with
  | None => forall fuel, unicode_script fuel name is_ext = Ret (cr_init, -2)
  | Some k =>
      (exists cr, (forall fuel, unicode_script fuel name is_ext = Ret (cr, 0)) /\ denotes cr (script_set (k + 1) is_ext)) \/
      (allocation_fails /\ forall fuel x, unicode_script fuel name is_ext <> Ret x)
  end.
Proof. exact (unicode_script_spec name is_ext). Qed.

(** [unicode_general_category] finds a category or a group of categories by any of
    its names, and returns -2 for other names.  Its range is the set of the
    characters of these categories, unless memory runs out. *)
Lemma unicode_general_category_spec name :
  match name_index unicode_gc_names name with
  | None => unicode_general_category name = Ret (cr_init, -2)
  | Some k => yields (unicode_general_category name) (in_categories (category_mask k))
  end.
Proof.
  unfold unicode_general_category. rewrite find_gc. destruct (name_index unicode_gc_names name) as [k |] eqn:Ek; [| done].
  apply name_index_range in Ek. cbn [mbind res_bind]. destruct (Z.ltb_spec k 0); [lia |].
  rewrite category_mask_spec by exact Ek. cbn [mbind res_bind]. apply makes_yields, unicode_general_category1_makes.
Qed.

Lemma cr_add_interval_yields c0 c1 : 0 <= c0 <= c1 -> c1 <= UINT32_MAX ->
  yields (cr_add_interval cr_init c0 c1) (fun c => (c0 <=? c) && (c <? c1)).
Proof.
  intros H0 H1. rewrite add_one. apply makes_yields, add_all_makes; [| vm_compute; discriminate]. split; cbn [flat].
  - constructor; [repeat constructor | repeat constructor; lia].
  - done.
  - repeat constructor; lia.
  - intros c. cbn [mem]. destruct (Z.leb_spec c0 c), (Z.leb_spec c1 c), (Z.ltb_spec c c1); done || lia.
Qed.

#[local] Opaque in_categories in_prop changes converts unicode_prop1 unicode_case1.

Lemma changes_one c : changes CASE_U c = converts 0 c /\ changes CASE_L c = converts 1 c /\ changes CASE_F c = converts 2 c /\
  changes (case_bits [CASE_U; CASE_L; CASE_F]) c = converts 0 c || converts 1 c || converts 2 c.
Proof.
  with_strategy transparent [changes] unfold changes. unfold change_bits.
  by destruct (converts 0 c), (converts 1 c), (converts 2 c).
Qed.

(** A list of operations and the set that it must make. *)
Lemma ops_yield ops P Q : eval_ops ops [] = Some P -> (forall c, P c = Q c) -> (length ops <= 100)%nat -> yields (unicode_prop_ops ops) Q.
Proof. intros E Hq Hl. eapply yields_ext; [exact Hq | by apply unicode_prop_ops_yields]. Qed.

Lemma case1_yields m P : 1 <= m <= 7 -> (forall c, changes m c = P c) -> yields (unicode_case1 cr_init m) P.
Proof. intros Hm E. eapply yields_ext; [exact E | by apply makes_yields, unicode_case1_makes]. Qed.

(** The next case of the switch. *)
Ltac next_case tac :=
  match goal with |- yields (if ?i =? ?k then _ else _) _ => destruct (Z.eqb_spec i k) as [_ | ?]; [solve [tac] |] end.

Lemma prop_range_yields prop_idx : 0 <= prop_idx < UNICODE_PROP_Cased1 -> yields (prop_range prop_idx) (property_set prop_idx).
Proof.
  intros Hi. unfold prop_range, property_set.
  do 2 next_case ltac:(by apply cr_add_interval_yields).
  do 10 next_case ltac:(eapply ops_yield; [reflexivity | reflexivity | cbn; lia]).
  do 3 next_case ltac:(apply case1_yields; [done | intros c; apply (changes_one c)]).
  do 3 next_case ltac:(eapply ops_yield; [reflexivity | | cbn; lia]; intros c; destruct (changes_one c) as (Eu & El & Ef & _);
    cbn [pop_cr_op cr_bool]; by rewrite ?Eu, ?Ef).
  destruct (Z.eqb_spec prop_idx UNICODE_PROP_ID_Continue).
  { eapply ops_yield; [reflexivity | | cbn; lia]. intros c. cbn [pop_cr_op cr_bool]. pose proof (id_disjoint c) as Hd.
    by destruct (in_prop UNICODE_PROP_ID_Start c), (in_prop UNICODE_PROP_ID_Continue1 c). }
  rewrite prop_tables_number. destruct (Z.leb_spec 50 prop_idx) as [Hge | Hlt].
  - exfalso. assert (Forall (fun i => i <> prop_idx) (seqZ 50 19)) as Ha.
    { repeat (apply List.Forall_cons; [by apply not_eq_sym |]). constructor. }
    rewrite list.Forall_forall in Ha. apply (Ha prop_idx); [apply elem_of_seqZ; clear -Hi Hge; unfold UNICODE_PROP_Cased1 in Hi; lia | done].
  - apply makes_yields, unicode_prop1_makes. rewrite prop_tables_number. clear -Hi Hlt. lia.
Qed.

Lemma unicode_prop_named name k : name_index unicode_prop_names name = Some k ->
  yields (unicode_prop name) (property_set (k + UNICODE_PROP_ASCII_Hex_Digit)).
Proof.
  intros Ek. unfold unicode_prop. rewrite find_prop, Ek. apply name_index_range in Ek. change (zlen unicode_prop_names) with 53 in Ek.
  cbn [mbind res_bind]. destruct (Z.ltb_spec k 0); [lia |]. apply prop_range_yields.
  unfold UNICODE_PROP_ASCII_Hex_Digit, UNICODE_PROP_Cased1. lia.
Qed.

Lemma unicode_prop_spec name :
  match name_index unicode_prop_names name with
  | None => unicode_prop name = Ret (cr_init, -2)
  | Some k => yields (unicode_prop name) (property_set (k + UNICODE_PROP_ASCII_Hex_Digit))
  end.
Proof.
  destruct (name_index unicode_prop_names name) as [k |] eqn:Ek; [by apply unicode_prop_named |].
  unfold unicode_prop. by rewrite find_prop, Ek.
Qed.

(** C33: [unicode_prop] finds a binary property by any of its names, and returns -2 for
    other names; no name of the table is without a range.  The range is the set of
    the table of the property, or the set that Unicode derives from categories,
    tables and case conversions, unless memory runs out. *)
Theorem unicode_prop_correct name :
  match name_index unicode_prop_names name with
  | None => unicode_prop name = Ret (cr_init, -2)
  | Some k => yields (unicode_prop name) (property_set (k + UNICODE_PROP_ASCII_Hex_Digit))
  end.
Proof. exact (unicode_prop_spec name). Qed.

(** C34: a character is in the range that [unicode_case1] makes for a mask exactly if
    one of the conversions of the mask (upper case, lower case, folding), done by
    [lre_case_conv], changes it.  The range is read off the types of the runs, the
    conversion computed from their data; the two agree on every character. *)
Theorem unicode_case1_correct m : 1 <= m <= 7 ->
  exists cr r, unicode_case1 cr_init m = Ret (cr, r) /\
    ((r = 0 /\ cr_ok cr /\ sorted_le (cr_contents cr) /\
      forall c, mem (cr_contents cr) c = true <-> exists t, 0 <= t <= 2 /\ Z.testbit m t = true /\ lre_case_conv c t <> Ret [c]) \/
     allocation_fails).
Proof.
  intros Hm. destruct (unicode_case1_makes m Hm) as (cr & r & E & Hr). exists cr, r. split; [done |].
  destruct Hr as [(-> & [Hok [Hs _ _ Hc]] & _) | Ho]; [left | right; apply Ho]. split_and!; [done .. |].
  intros c. rewrite Hc. by apply changes_conversion.
Qed.

(** C35: the ranges of the names ID_Start, ID_Continue and Case_Ignorable hold exactly
    the characters that the functions [lre_is_id_start], [lre_is_id_continue] and
    [lre_is_case_ignorable] accept: a class of a regular expression and the
    scanner of identifiers agree. *)
Theorem id_ranges_agree : exists P Q R,
  (yields (unicode_prop (string_chars "ID_Start"%string)) P /\ forall c, 0 <= c -> lre_is_id_start c = Ret (P c)) /\
  (yields (unicode_prop (string_chars "ID_Continue"%string)) Q /\ forall c, 0 <= c -> lre_is_id_continue c = Ret (Q c)) /\
  (yields (unicode_prop (string_chars "Case_Ignorable"%string)) R /\ forall c, 0 <= c -> lre_is_case_ignorable c = Ret (R c)).
Proof.
  assert (forall s k i, name_index unicode_prop_names (string_chars s) = Some k -> k + UNICODE_PROP_ASCII_Hex_Digit = i ->
    yields (unicode_prop (string_chars s)) (property_set i)) as Hy by (intros s k i Ek <-; by apply unicode_prop_named).
  exists (property_set UNICODE_PROP_ID_Start), (property_set UNICODE_PROP_ID_Continue), (property_set UNICODE_PROP_Case_Ignorable).
  split; [| split]; (split; [eapply Hy; [vm_compute; reflexivity | reflexivity] |]);
    intros c Hc; destruct (table_tests c Hc) as (E1 & E2 & E3).
  - rewrite id_start_set, (in_prop_table _ _ id_start_table). exact E2.
  - rewrite id_continue_set, (in_prop_table _ _ id_start_table), (in_prop_table _ _ id_continue1_table). exact E3.
  - rewrite case_ignorable_set, (in_prop_table _ _ case_ignorable_table). exact E1.
Qed.
End props.

Lemma unicode_case1_correct_witness :
  let al := limited_words 100000 in
  exists cr r, unicode_case1 cr_init 5 = Ret (cr, r) /\
    ((r = 0 /\ cr_ok cr /\ sorted_le (cr_contents cr) /\
      forall c, mem (cr_contents cr) c = true <-> exists t, 0 <= t <= 2 /\ Z.testbit 5 t = true /\ lre_case_conv c t <> Ret [c]) \/
     allocation_fails).
Proof. intros al. apply (unicode_case1_correct 5). lia. Defined.
