(* ===== verification/Normalize.v ===== *)
(** * libunicode.c: normalization

    [unicode_normalize] and what it calls.  A decomposition is read from the
    compressed tables of libunicode-table.h: an entry of [unicode_decomp_table1]
    is a run of code points with one type of encoding, found by the binary search
    of CaseConv.v.  Decomposed text is written to a [DynBuf], put in canonical
    order in place, and composed in place.

    Code points are [uint32_t] values, also where C reads them through an [int *].
    Arrays are lists; an access outside one is a [Fault]. *)
From Stdlib Require Import ZArith Lia Bool.
From stdpp Require Import base numbers list.
From S2P Require Import Prelude Alloc Cutils DynBuf UnicodeTables CaseConv UnicodeProp.

(** ** The encoding of decompositions *)
Definition UNICODE_DECOMP_LEN_MAX : Z := 18.

Definition DECOMP_TYPE_C1 : Z := 0.
Definition DECOMP_TYPE_L1 : Z := 1.
Definition DECOMP_TYPE_L2 : Z := 2.
Definition DECOMP_TYPE_L3 : Z := 3.
Definition DECOMP_TYPE_L4 : Z := 4.
Definition DECOMP_TYPE_L5 : Z := 5.
Definition DECOMP_TYPE_L6 : Z := 6.
Definition DECOMP_TYPE_L7 : Z := 7.
Definition DECOMP_TYPE_LL1 : Z := 8.
Definition DECOMP_TYPE_LL2 : Z := 9.
Definition DECOMP_TYPE_S1 : Z := 10.
Definition DECOMP_TYPE_S2 : Z := 11.
Definition DECOMP_TYPE_S3 : Z := 12.
Definition DECOMP_TYPE_S4 : Z := 13.
Definition DECOMP_TYPE_S5 : Z := 14.
Definition DECOMP_TYPE_I1 : Z := 15.
Definition DECOMP_TYPE_I2_0 : Z := 16.
Definition DECOMP_TYPE_I2_1 : Z := 17.
Definition DECOMP_TYPE_I3_1 : Z := 18.
Definition DECOMP_TYPE_I3_2 : Z := 19.
Definition DECOMP_TYPE_I4_1 : Z := 20.
Definition DECOMP_TYPE_I4_2 : Z := 21.
Definition DECOMP_TYPE_B1 : Z := 22.
Definition DECOMP_TYPE_B2 : Z := 23.
Definition DECOMP_TYPE_B3 : Z := 24.
Definition DECOMP_TYPE_B4 : Z := 25.
Definition DECOMP_TYPE_B5 : Z := 26.
Definition DECOMP_TYPE_B6 : Z := 27.
Definition DECOMP_TYPE_B7 : Z := 28.
Definition DECOMP_TYPE_B8 : Z := 29.
Definition DECOMP_TYPE_B18 : Z := 30.
Definition DECOMP_TYPE_LS2 : Z := 31.
Definition DECOMP_TYPE_PAT3 : Z := 32.
Definition DECOMP_TYPE_S2_UL : Z := 33.
Definition DECOMP_TYPE_LS2_UL : Z := 34.

Definition unicode_short_table : list Z := [0x2044; 0x2215].

Definition unicode_get_short_code (c : Z) : res Z :=
  if c <? 0x80 then Ret c
  else if c <? 0x80 + 0x50 then Ret (u32 (c - 0x80 + 0x300))
  else of_opt (znth unicode_short_table (c - 0x80 - 0x50)).

Definition unicode_get_lower_simple (c : Z) : Z :=
  if (c <? 0x100) || ((0x410 <=? c) && (c <=? 0x42f)) then u32 (c + 0x20) else u32 (c + 1).

(** The functions of this section read [unicode_decomp_table2] and
    [unicode_decomp_data]; pointers to the latter are offsets. *)
Section entry.
Variables (table2 data : Z -> option Z).

Definition data_byte (d : Z) : res Z := of_opt (data d).

Definition unicode_get16 (d : Z) : res Z :=
  b0 ← data_byte d;
  b1 ← data_byte (d + 1);
  Ret (Z.lor b0 (Z.shiftl b1 8)).

(** [for(i = 0; i < l; i++) res[i] = f(i)]: [n] steps from [i] on. *)
Fixpoint fill (n : nat) (i l : Z) (f : Z -> res Z) (r : list Z) : res (Z * list Z) :=
  match n with
  | O => Ret (l, r)
  | S n =>
      c1 ← f i;
      r ← of_opt (zupd r i c1);
      fill n (i + 1) l f r
  end.

(** The same loop when it ends with [return 0] at a character that is 0; [stores]:
    the 0 is stored before. *)
Fixpoint fill_nonzero (n : nat) (i l : Z) (stores : bool) (f : Z -> res Z) (r : list Z) : res (Z * list Z) :=
  match n with
  | O => Ret (l, r)
  | S n =>
      c1 ← f i;
      if c1 =? 0 then
        r ← (if stores then of_opt (zupd r i c1) else Ret r);
        Ret (0, r)
      else
        r ← of_opt (zupd r i c1);
        fill_nonzero n (i + 1) l stores f r
  end.

(** The length of the decomposition of [c], which is in the run [idx], and the
    array [r] with the decomposition. *)
Definition decomp_entry (r : list Z) (c idx code len type : Z) : res (Z * list Z) :=
  t2 ← of_opt (table2 idx);
  let k0 := u32 (c - code) in
  if type =? DECOMP_TYPE_C1 then
    r ← of_opt (zupd r 0 t2);
    Ret (1, r)
  else if (DECOMP_TYPE_L1 <=? type) && (type <=? DECOMP_TYPE_L7) then
    let l := type - DECOMP_TYPE_L1 + 1 in
    let d := t2 + k0 * l * 2 in
    fill_nonzero (Z.to_nat l) 0 l true (fun i => unicode_get16 (d + 2 * i)) r
  else if (DECOMP_TYPE_LL1 <=? type) && (type <=? DECOMP_TYPE_LL2) then
    let l := type - DECOMP_TYPE_LL1 + 1 in
    let p := len * l * 2 in
    fill_nonzero (Z.to_nat l) 0 l false (fun i =>
      let k := k0 * l + i in
      lo ← unicode_get16 (t2 + 2 * k);
      b ← data_byte (t2 + p + k / 4);
      Ret (Z.lor lo (Z.shiftl (Z.land (Z.shiftr b (k mod 4 * 2)) 3) 16))) r
  else if (DECOMP_TYPE_S1 <=? type) && (type <=? DECOMP_TYPE_S5) then
    let l := type - DECOMP_TYPE_S1 + 1 in
    let d := t2 + k0 * l in
    fill_nonzero (Z.to_nat l) 0 l true (fun i => b ← data_byte (d + i); unicode_get_short_code b) r
  else if (DECOMP_TYPE_I1 <=? type) && (type <=? DECOMP_TYPE_I4_2) then
    let l := if type =? DECOMP_TYPE_I1 then 1 else 2 + Z.shiftr (type - DECOMP_TYPE_I2_0) 1 in
    let p := if type =? DECOMP_TYPE_I1 then 0
             else Z.land (type - DECOMP_TYPE_I2_0) 1 + (if 2 <? l then 1 else 0) in
    fill (Z.to_nat l) 0 l (fun i =>
      c1 ← unicode_get16 (t2 + 2 * i);
      Ret (if i =? p then u32 (c1 + k0) else c1)) r
  else if (DECOMP_TYPE_B1 <=? type) && (type <=? DECOMP_TYPE_B18) then
    let l := if type =? DECOMP_TYPE_B18 then 18 else type - DECOMP_TYPE_B1 + 1 in
    c_min ← unicode_get16 t2;
    let d := t2 + 2 + k0 * l in
    fill (Z.to_nat l) 0 l (fun i =>
      c1 ← data_byte (d + i);
      Ret (if c1 =? 0xff then 0x20 else u32 (c1 + c_min))) r
  else if type =? DECOMP_TYPE_LS2 then
    let d := t2 + k0 * 3 in
    c0 ← unicode_get16 d;
    r ← of_opt (zupd r 0 c0);
    if c0 =? 0 then Ret (0, r)
    else
      b ← data_byte (d + 2);
      c1 ← unicode_get_short_code b;
      r ← of_opt (zupd r 1 c1);
      Ret (2, r)
  else if type =? DECOMP_TYPE_PAT3 then
    c0 ← unicode_get16 t2;
    r ← of_opt (zupd r 0 c0);
    c2 ← unicode_get16 (t2 + 2);
    r ← of_opt (zupd r 2 c2);
    c1 ← unicode_get16 (t2 + 4 + k0 * 2);
    r ← of_opt (zupd r 1 c1);
    Ret (3, r)
  else if (type =? DECOMP_TYPE_S2_UL) || (type =? DECOMP_TYPE_LS2_UL) then
    '(c0, d) ←
      (if type =? DECOMP_TYPE_S2_UL then
         let d := t2 + (k0 - k0 mod 2) in
         b ← data_byte d;
         c0 ← unicode_get_short_code b;
         Ret (c0, d + 1)
       else
         let d := t2 + k0 / 2 * 3 in
         c0 ← unicode_get16 d;
         Ret (c0, d + 2));
    let c0 := if Z.odd k0 then unicode_get_lower_simple c0 else c0 in
    r ← of_opt (zupd r 0 c0);
    b ← data_byte d;
    c1 ← unicode_get_short_code b;
    r ← of_opt (zupd r 1 c1);
    Ret (2, r)
  else Ret (0, r).
End entry.

Definition unicode_decomp_entry : list Z -> Z -> Z -> Z -> Z -> Z -> res (Z * list Z) :=
  decomp_entry (znth unicode_decomp_table2) (znth unicode_decomp_data).

(** The fields of an entry of [unicode_decomp_table1] after the run. *)
Definition decomp_type (v : Z) : Z := Z.land (Z.shiftr v (32 - 18 - 7 - 6)) 0x3f.
Definition decomp_is_compat (v : Z) : bool := Z.odd v.

(** The length, 0 if there is no decomposition, and the array [r]. *)
Definition unicode_decomp_char (r : list Z) (c : Z) (is_compat1 : bool) : res (Z * list Z) :=
  e ← find_run 18 unicode_decomp_table1 c;
  match e with
  | Some (idx, v) =>
      if negb is_compat1 && decomp_is_compat v then Ret (0, r)
      else unicode_decomp_entry r c idx (run_code 18 v) (run_len 18 v) (decomp_type v)
  | None => Ret (0, r)
  end.

(** [uint32_t res[UNICODE_DECOMP_LEN_MAX]] *)
Definition decomp_buffer : list Z := replicate (Z.to_nat UNICODE_DECOMP_LEN_MAX) 0.

(** ** Composition of pairs *)

(** [pair] is the array of the function, which keeps what was stored before. *)
Fixpoint compose_search (fuel : nat) (pair : list Z) (c0 c1 idx_min idx_max : Z) : res Z :=
  match fuel with
  | O => NoFuel
  | S fuel =>
      if idx_min <=? idx_max then
        let idx := Z.quot (idx_max + idx_min) 2 in
        idx1 ← of_opt (znth unicode_comp_table idx);
        let d_idx := Z.shiftr idx1 6 in
        let d_offset := Z.land idx1 0x3f in
        v ← of_opt (znth unicode_decomp_table1 d_idx);
        let code := run_code 18 v in
        let ch := u32 (code + d_offset) in
        '(_, pair) ← unicode_decomp_entry pair ch d_idx code (run_len 18 v) (decomp_type v);
        p0 ← of_opt (znth pair 0);
        p1 ← of_opt (znth pair 1);
        let d := i32 (u32 (c0 - p0)) in
        let d := if d =? 0 then i32 (u32 (c1 - p1)) else d in
        if d <? 0 then compose_search fuel pair c0 c1 idx_min (idx - 1)
        else if 0 <? d then compose_search fuel pair c0 c1 (idx + 1) idx_max
        else Ret ch
      else Ret 0
  end.

(** 0: no pair found. *)
Definition unicode_compose_pair (c0 c1 : Z) : res Z :=
  compose_search (S (length unicode_comp_table)) [0; 0] c0 c1 0 (zlen unicode_comp_table - 1).

Definition compose_pair (c0 c1 : Z) : res Z :=
  if (0x1100 <=? c0) && (c0 <? 0x1100 + 19) && (0x1161 <=? c1) && (c1 <? 0x1161 + 21) then
    Ret (u32 (0xac00 + (c0 - 0x1100) * 588 + (c1 - 0x1161) * 28))
  else if (0xac00 <=? c0) && (c0 <? 0xac00 + 11172) && ((c0 - 0xac00) mod 28 =? 0)
          && (0x11a7 <=? c1) && (c1 <? 0x11a7 + 28) then
    Ret (u32 (c0 + c1 - 0x11a7))
  else unicode_compose_pair c0 c1.

(** ** Combining classes *)

(** One entry of [unicode_cc_table]: its type, the length of its run less one, the
    byte before [p] when the run is looked at, and [p]. *)
Definition cc_entry (p : Z) : res (Z * Z * Z * Z) :=
  b ← of_opt (znth unicode_cc_table p);
  let p := p + 1 in
  let type := Z.shiftr b 6 in
  let n := Z.land b 0x3f in
  '(n, p) ←
    (if n <? 48 then Ret (n, p)
     else if n <? 56 then
       b0 ← of_opt (znth unicode_cc_table p);
       Ret (Z.lor (Z.shiftl (n - 48) 8) b0 + 48, p + 1)
     else
       b0 ← of_opt (znth unicode_cc_table p);
       b1 ← of_opt (znth unicode_cc_table (p + 1));
       Ret (Z.lor (Z.lor (Z.shiftl (n - 56) 8) (Z.shiftl b0 8)) b1 + (48 + Z.shiftl 1 11), p + 2));
  let p := if type <=? 1 then p + 1 else p in
  last ← of_opt (znth unicode_cc_table (p - 1));
  Ret (type, n, last, p).

(** The combining class of [c] in a run that starts at [code]. *)
Definition cc_value (type last c code : Z) : Z :=
  if type =? 0 then last
  else if type =? 1 then u32 (last + c - code)
  else if type =? 2 then 0
  else 230.

Fixpoint cc_loop (fuel : nat) (c p code : Z) : res Z :=
  match fuel with
  | O => NoFuel
  | S fuel =>
      '(type, n, last, p) ← cc_entry p;
      let c1 := u32 (code + n + 1) in
      if c <? c1 then Ret (cc_value type last c code) else cc_loop fuel c p c1
  end.

Definition unicode_get_cc (c : Z) : res Z :=
  '(pos, code) ← get_index_pos c unicode_cc_index (Z.quot (zlen unicode_cc_index) 3);
  if pos <? 0 then Ret 0 else cc_loop (S (length unicode_cc_table)) c pos code.

(** ** Canonical order *)

(** [while (k >= start) ...]: the elements with a larger class than [cc1] move up;
    the result is [k]. *)
Fixpoint sort_shift (fuel : nat) (buf : list Z) (start k cc1 : Z) : res (list Z * Z) :=
  if k <? start then Ret (buf, k)
  else match fuel with
  | O => NoFuel
  | S fuel =>
      x ← of_opt (znth buf k);
      cc ← unicode_get_cc x;
      if cc <=? cc1 then Ret (buf, k)
      else
        buf ← of_opt (zupd buf (k + 1) x);
        sort_shift fuel buf start (k - 1) cc1
  end.

(** [while (j < len) ...]: the elements after [start] up to the next one with the
    class 0 are inserted; the result is [j]. *)
Fixpoint sort_run (fuel : nat) (buf : list Z) (len start j : Z) : res (list Z * Z) :=
  if len <=? j then Ret (buf, j)
  else match fuel with
  | O => NoFuel
  | S fuel =>
      ch1 ← of_opt (znth buf j);
      cc1 ← unicode_get_cc ch1;
      if cc1 =? 0 then Ret (buf, j)
      else
        '(buf, k) ← sort_shift (length buf) buf start (j - 1) cc1;
        buf ← of_opt (zupd buf (k + 1) ch1);
        sort_run fuel buf len start (j + 1)
  end.

Fixpoint sort_cc_loop (fuel : nat) (buf : list Z) (len i : Z) : res (list Z) :=
  if len <=? i then Ret buf
  else match fuel with
  | O => NoFuel
  | S fuel =>
      x ← of_opt (znth buf i);
      cc ← unicode_get_cc x;
      if negb (cc =? 0) then
        '(buf, j) ← sort_run (length buf) buf len i (i + 1);
        sort_cc_loop fuel buf len (j + 1)
      else sort_cc_loop fuel buf len (i + 1)
  end.

Definition sort_cc (buf : list Z) (len : Z) : res (list Z) := sort_cc_loop (length buf) buf len 0.

(** ** Decomposition *)
Section normalize.
Context `{Realloc is_byte}.

(** [depth] bounds the depth of the recursion. *)
Fixpoint to_nfd_rec (depth : nat) (is_compat : bool) : DynBuf -> list Z -> res DynBuf :=
  fix each (dbuf : DynBuf) (src : list Z) : res DynBuf :=
    match src with
    | [] => Ret dbuf
    | c :: src =>
        dbuf ←
          (if (0xac00 <=? c) && (c <? 0xd7a4) then
             let c := u32 (c - 0xac00) in
             '(dbuf, _) ← dbuf_put_u32 dbuf (u32 (0x1100 + c / 588));
             '(dbuf, _) ← dbuf_put_u32 dbuf (u32 (0x1161 + c mod 588 / 28));
             let v := c mod 28 in
             if negb (v =? 0) then
               '(dbuf, _) ← dbuf_put_u32 dbuf (u32 (0x11a7 + v));
               Ret dbuf
             else Ret dbuf
           else
             '(l, r) ← unicode_decomp_char decomp_buffer c is_compat;
             if negb (l =? 0) then
               r ← of_opt (zread r 0 l);
               match depth with
               | O => NoFuel
               | S depth => to_nfd_rec depth is_compat dbuf r
               end
             else
               '(dbuf, _) ← dbuf_put_u32 dbuf c;
               Ret dbuf);
        each dbuf src
    end.

(** ** Composition *)

(** [while (starter_pos >= 0) ...]: [None] is [goto next], otherwise the position
    of the starter, or -1. *)
Fixpoint find_starter (fuel : nat) (buf : list Z) (starter_pos last_cc : Z) : res (option Z) :=
  if starter_pos <? 0 then Ret (Some starter_pos)
  else match fuel with
  | O => NoFuel
  | S fuel =>
      x ← of_opt (znth buf starter_pos);
      cc ← unicode_get_cc x;
      if cc =? 0 then Ret (Some starter_pos)
      else if last_cc <=? cc then Ret None
      else find_starter fuel buf (starter_pos - 1) 256
  end.

(** [buf[out_len++] = buf[i++]] *)
Definition keep_char (buf : list Z) (out_len i : Z) : res (list Z) :=
  x ← of_opt (znth buf i);
  of_opt (zupd buf out_len x).

(** The loop from [i] on; the result is [buf] and [out_len]. *)
Fixpoint compose_loop (fuel : nat) (buf : list Z) (buf_len i out_len : Z) : res (list Z * Z) :=
  if buf_len <=? i then Ret (buf, out_len)
  else match fuel with
  | O => NoFuel
  | S fuel =>
      x ← of_opt (znth buf i);
      last_cc ← unicode_get_cc x;
      s ← find_starter (length buf) buf (out_len - 1) last_cc;
      match s with
      | Some starter_pos =>
          p ← (if 0 <=? starter_pos then
                 y ← of_opt (znth buf starter_pos);
                 compose_pair y x
               else Ret 0);
          if negb (p =? 0) then
            buf ← of_opt (zupd buf starter_pos p);
            compose_loop fuel buf buf_len (i + 1) out_len
          else
            buf ← keep_char buf out_len i;
            compose_loop fuel buf buf_len (i + 1) (out_len + 1)
      | None =>
          buf ← keep_char buf out_len i;
          compose_loop fuel buf buf_len (i + 1) (out_len + 1)
      end
  end.

(** ** [unicode_normalize] *)
Inductive UnicodeNormalizationEnum : Type := UNICODE_NFC | UNICODE_NFD | UNICODE_NFKC | UNICODE_NFKD.

(** [n_type >> 1] and [n_type & 1] *)
Definition is_compat_type (n : UnicodeNormalizationEnum) : bool :=
  match n with UNICODE_NFC | UNICODE_NFD => false | UNICODE_NFKC | UNICODE_NFKD => true end.
Definition is_decomp_type (n : UnicodeNormalizationEnum) : bool :=
  match n with UNICODE_NFC | UNICODE_NFKC => false | UNICODE_NFD | UNICODE_NFKD => true end.
Definition is_nfc (n : UnicodeNormalizationEnum) : bool :=
  match n with UNICODE_NFC => true | _ => false end.

(** The block of memory as an array of 32-bit integers, and back. *)
Fixpoint words (n : nat) (l : list Z) : list Z :=
  match n with
  | O => []
  | S n => le_val (take 4 l) :: words n (drop 4 l)
  end.
Definition word_bytes (l : list Z) : list Z := concat (map (le_bytes 4) l).

(** The recursion of [to_nfd_rec] is at most this deep. *)
Definition DECOMP_DEPTH : nat := 3.

(** The characters of [*pdst], as many as the function returns; [None]: -1. *)
Definition unicode_normalize (src : list Z) (n_type : UnicodeNormalizationEnum) : res (option (list Z)) :=
  let is_compat := is_compat_type n_type in
  let '(dbuf, r) := dbuf_realloc dbuf_init2 (u64 (4 * zlen src)) in
  if negb (r =? 0) then Ret None
  else if is_nfc n_type && forallb (fun c => c <? 0x100) src then
    b ← of_opt (zwrite (buf dbuf) 0 (word_bytes src));
    Ret (Some (words (length src) b))
  else
    dbuf ← to_nfd_rec DECOMP_DEPTH is_compat dbuf src;
    if dbuf_error dbuf then Ret None
    else
      let buf_len := i32 (size dbuf / 4) in
      let b := words (Z.to_nat buf_len) (buf dbuf) in
      b ← sort_cc b buf_len;
      if (buf_len <=? 1) || is_decomp_type n_type then Ret (Some (take (Z.to_nat buf_len) b))
      else
        '(b, out_len) ← compose_loop (length b) b buf_len 1 1;
        Ret (Some (take (Z.to_nat out_len) b)).
End normalize.
