(* ===== verification/NormTables.v ===== *)
(** * libunicode.c: what the decomposition tables hold, combining classes

    Every access of [unicode_decomp_char] is in bounds, decompositions nest three
    deep at most, and the pairs of [unicode_comp_table] are the decompositions of
    characters of class 0.  These are facts of the tables, checked by evaluation
    on maps that are as the tables but are faster to read.  [unicode_get_cc]
    starts in the middle of [unicode_cc_table], where its index says; the result
    is that of reading the table from its start. *)
From Stdlib Require Import ZArith Lia Bool.
From stdpp Require Import base numbers list gmap.
From S2P Require Import Prelude Cutils UnicodeTables CaseConv UnicodeProp Normalize.

(** ** Tables as maps *)
Definition fast (l : list Z) : gmap Z Z := map_seqZ 0 l.

Lemma fast_lookup l i : fast l !! i = znth l i.
Proof.
  unfold fast, znth. destruct (Z.leb_spec 0 i).
  - rewrite lookup_map_seqZ, option_guard_True by lia. by rewrite Z.sub_0_r.
  - rewrite lookup_map_seqZ, option_guard_False by lia. done.
Qed.

Section ext.
Variables (t t' data data' : Z -> option Z).
Hypothesis Ht : forall i, t i = t' i.
Hypothesis Hdata : forall i, data i = data' i.

Lemma fill_ext n : forall i l f f' r, (forall i, f i = f' i) -> fill n i l f r = fill n i l f' r.
Proof.
  induction n as [| n IH]; intros i l f f' r Hf; [done |]. cbn [fill]. rewrite Hf.
  destruct (f' i); [| done ..]. cbn [mbind res_bind]. destruct (zupd r i a); [| done]. cbn [of_opt mbind res_bind].
  by apply IH.
Qed.

Lemma fill_nonzero_ext n : forall i l b f f' r, (forall i, f i = f' i) -> fill_nonzero n i l b f r = fill_nonzero n i l b f' r.
Proof.
  induction n as [| n IH]; intros i l b f f' r Hf; [done |]. cbn [fill_nonzero]. rewrite Hf.
  destruct (f' i); [| done ..]. cbn [mbind res_bind]. destruct (a =? 0); [done |].
  destruct (zupd r i a); [| done]. cbn [of_opt mbind res_bind]. by apply IH.
Qed.

Lemma get16_ext d : unicode_get16 data d = unicode_get16 data' d.
Proof. unfold unicode_get16, data_byte. by rewrite !Hdata. Qed.

Lemma entry_ext r c idx code len type : decomp_entry t data r c idx code len type = decomp_entry t' data' r c idx code len type.
Proof.
  unfold decomp_entry. rewrite Ht. destruct (t' idx) as [t2 |]; [| done]. cbn [of_opt mbind res_bind].
  repeat (rewrite ?get16_ext; unfold data_byte; rewrite ?Hdata;
    first [ reflexivity
          | match goal with
            | |- fill _ _ _ _ _ = fill _ _ _ _ _ => apply fill_ext; intros ?
            | |- fill_nonzero _ _ _ _ _ _ = fill_nonzero _ _ _ _ _ _ => apply fill_nonzero_ext; intros ?
            | |- context [if ?b then _ else _] => destruct b
            | |- (?m ≫= _) = (?m ≫= _) => destruct m as [[? ?] | |]; cbn [mbind res_bind]
            | |- (?m ≫= _) = (?m ≫= _) => destruct m; cbn [mbind res_bind]
            end ]).
Qed.
End ext.

#[local] Opaque unicode_decomp_table1 unicode_decomp_table2 unicode_decomp_data unicode_comp_table unicode_cc_table unicode_cc_index.

(** ** The decompositions, from the maps *)
Definition fast_table2 : gmap Z Z := fast unicode_decomp_table2.
Definition fast_data : gmap Z Z := fast unicode_decomp_data.

(** Every character of the runs with the index and the entry of its run. *)
Definition run_points : list (Z * (Z * Z)) :=
  concat (imap (fun i v => map (fun c => (c, (Z.of_nat i, v))) (zseq (run_code 18 v) (run_len 18 v))) unicode_decomp_table1).
Definition run_map : gmap Z (Z * Z) := list_to_map run_points.

Lemma elem_of_run_points c i v : (c, (i, v)) ∈ run_points <-> znth unicode_decomp_table1 i = Some v /\ in_run 18 v c.
Proof.
  unfold run_points. rewrite list_elem_of_In, in_concat. setoid_rewrite <- list_elem_of_In.
  setoid_rewrite elem_of_lookup_imap. unfold in_run. split.
  - intros (l & (j & v' & -> & Hj) & Hl). change (map ?f) with (fmap (M := list) f) in Hl.
    apply list_elem_of_fmap in Hl as (x & [= -> -> ->] & Hx). rewrite znth_nat. split; [done |]. by apply elem_of_zseq.
  - intros [[Hi Hv]%znth_Some Hc]. eexists. split; [exists (Z.to_nat i), v; split; [reflexivity | done] |].
    change (map ?f) with (fmap (M := list) f). apply list_elem_of_fmap. exists c. rewrite Z2Nat.id by lia. split; [done |].
    by apply elem_of_zseq.
Qed.

Lemma decomp_table_ok : runs_ok 18 0 unicode_decomp_table1 = true /\ zlen unicode_decomp_table1 <= 2 ^ 30.
Proof. split; [vm_compute; reflexivity | vm_compute; discriminate]. Qed.

Lemma run_unique c i j v v' : znth unicode_decomp_table1 i = Some v -> in_run 18 v c ->
  znth unicode_decomp_table1 j = Some v' -> in_run 18 v' c -> i = j.
Proof.
  destruct decomp_table_ok as [Hok _]. unfold in_run. intros Ev Hc Ev' Hc'. destruct (Z.lt_trichotomy i j) as [H | [H | H]]; [| done |].
  - pose proof (znth_run_lt 18 _ Hok i j v v' H Ev Ev'). lia.
  - pose proof (znth_run_lt 18 _ Hok j i v' v H Ev' Ev). lia.
Qed.

Lemma find_run_map c : find_run 18 unicode_decomp_table1 c = Ret (run_map !! c).
Proof.
  destruct decomp_table_ok as [Hok Hlen]. unfold run_map.
  destruct (find_run_spec 18 unicode_decomp_table1 c Hok Hlen) as [(i & v & E & Ev & Hc) | [E Hn]]; rewrite E; clear E; f_equal; symmetry.
  - destruct (list_to_map run_points !! c) as [[j v'] |] eqn:E.
    + apply elem_of_list_to_map_2, elem_of_run_points in E as [Ej Hc'].
      pose proof (run_unique c i j v v' Ev Hc Ej Hc') as ->.
      congruence.
    + apply not_elem_of_list_to_map_2 in E. destruct E. apply list_elem_of_fmap. exists (c, (i, v)). split; [done |].
      by apply elem_of_run_points.
  - apply not_elem_of_list_to_map_1. intros ([d [j v]] & -> & Hin)%list_elem_of_fmap. apply elem_of_run_points in Hin as [Ev Hc].
    rewrite list.Forall_forall in Hn. apply (Hn v); [| done]. apply znth_Some in Ev as [_ Ev].
    by apply list_elem_of_lookup_2 in Ev.
Qed.

Definition fast_char (c : Z) (k : bool) : res (Z * list Z) :=
  match run_map !! c with
  | Some (idx, v) =>
      if negb k && decomp_is_compat v then Ret (0, decomp_buffer)
      else decomp_entry (fast_table2 !!.) (fast_data !!.) decomp_buffer c idx (run_code 18 v) (run_len 18 v) (decomp_type v)
  | None => Ret (0, decomp_buffer)
  end.

Lemma fast_char_spec c k : unicode_decomp_char decomp_buffer c k = fast_char c k.
Proof.
  unfold unicode_decomp_char, fast_char. rewrite find_run_map. cbn [mbind res_bind].
  destruct (run_map !! c) as [[idx v] |]; [| done]. destruct (negb k && decomp_is_compat v); [done |].
  apply entry_ext; intros i; symmetry; apply fast_lookup.
Qed.

(** ** What is checked *)
Definition is_code_point (x : Z) : bool := (0 <=? x) && (x <=? 0x10FFFF).

(** The decompositions from [c] on nest [depth] deep at most. *)
Fixpoint nests (char : Z -> res (Z * list Z)) (depth : nat) (c : Z) : bool :=
  match char c with
  | Ret (l, r) =>
      (0 <=? l) && (l <=? UNICODE_DECOMP_LEN_MAX) && (zlen r =? UNICODE_DECOMP_LEN_MAX) && forallb is_code_point r &&
      match depth with
      | O => l =? 0
      | S depth => forallb (nests char depth) (take (Z.to_nat l) r)
      end
  | _ => false
  end.

Lemma nests_ext f g depth : (forall c, f c = g c) -> forall c, nests f depth c = nests g depth c.
Proof.
  intros E. induction depth as [| depth IH]; intros c; cbn [nests]; rewrite E; destruct (g c) as [[l r] | |]; [done .. | | done | done].
  f_equal. induction (take (Z.to_nat l) r) as [| x k IHk]; [done |]. cbn [forallb]. by rewrite IH, IHk.
Qed.

Definition table_nests : bool :=
  forallb (fun k => forallb (nests (fun c => fast_char c k) DECOMP_DEPTH) run_points.*1) [true; false].

Lemma table_nests_true : table_nests = true.
Proof. vm_compute. reflexivity. Qed.

(** No decomposition reads outside the tables, and none nests deeper. *)
Lemma decomp_nests c k : nests (fun c => unicode_decomp_char decomp_buffer c k) DECOMP_DEPTH c = true.
Proof.
  rewrite (nests_ext _ (fun c => fast_char c k)) by (intros; apply fast_char_spec).
  assert (k ∈ [true; false]) as Hk%list_elem_of_In by (destruct k; [by left | by right; left]).
  pose proof (proj1 (forallb_forall _ _) table_nests_true k Hk) as H. cbv beta in H.
  destruct ((list_to_map run_points : gmap Z (Z * Z)) !! c) as [x |] eqn:E.
  - apply (proj1 (forallb_forall _ _) H), list_elem_of_In, list_elem_of_fmap. exists (c, x). split; [reflexivity |].
    by apply elem_of_list_to_map_2.
  - unfold DECOMP_DEPTH. cbn [nests]. unfold fast_char, run_map. rewrite E. reflexivity.
Qed.

(** ** The lengths of decompositions *)

(** The number of characters [c] decomposes into; a Hangul syllable has 2 or 3. *)
Fixpoint leaves (char : Z -> res (Z * list Z)) (depth : nat) (c : Z) : nat :=
  if (0xac00 <=? c) && (c <? 0xd7a4) then 3
  else match char c with
       | Ret (l, r) =>
           if l =? 0 then 1
           else match depth with O => 0 | S depth => sum_list_with (leaves char depth) (take (Z.to_nat l) r) end
       | _ => 0
       end.

Lemma leaves_ext f g depth : (forall c, f c = g c) -> forall c, leaves f depth c = leaves g depth c.
Proof.
  intros E. induction depth as [| depth IH]; intros c; cbn [leaves]; (destruct (_ && _); [done |]); rewrite E;
    destruct (g c) as [[l r] | |]; try done. destruct (l =? 0); [done |].
  induction (take (Z.to_nat l) r) as [| x k IHk]; [done |]. cbn [sum_list_with]. by rewrite IH, IHk.
Qed.

Definition table_leaves : bool :=
  forallb (fun k => forallb (fun c => leaves (fun c => fast_char c k) DECOMP_DEPTH c <=? 18)%nat run_points.*1) [true; false].

Lemma table_leaves_true : table_leaves = true.
Proof. vm_compute. reflexivity. Qed.

Lemma decomp_leaves c k : (leaves (fun c => unicode_decomp_char decomp_buffer c k) DECOMP_DEPTH c <= 18)%nat.
Proof.
  rewrite (leaves_ext _ (fun c => fast_char c k)) by (intros; apply fast_char_spec).
  assert (k ∈ [true; false]) as Hk%list_elem_of_In by (destruct k; [by left | by right; left]).
  pose proof (proj1 (forallb_forall _ _) table_leaves_true k Hk) as H. cbv beta in H.
  destruct ((list_to_map run_points : gmap Z (Z * Z)) !! c) as [x |] eqn:E.
  - apply Nat.leb_le, (proj1 (forallb_forall _ _) H c), list_elem_of_In, list_elem_of_fmap. exists (c, x).
    split; [reflexivity |]. by apply elem_of_list_to_map_2.
  - unfold DECOMP_DEPTH. cbn [leaves]. destruct (_ && _); [lia |]. unfold fast_char, run_map. rewrite E. cbn. lia.
Qed.

(** * Combining classes *)

#[local] Opaque unicode_cc_table unicode_cc_index.

(** ** The table from its start *)

(** The runs: first character, first character after it, type and byte. *)
Fixpoint cc_walk (fuel : nat) (p code : Z) : list (Z * Z * Z * (Z * Z)) :=
  match fuel with
  | O => []
  | S fuel =>
      match cc_entry p with
      | Ret (type, n, last, p') => (p, code, code + n + 1, (type, last)) :: cc_walk fuel p' (code + n + 1)
      | _ => []
      end
  end.

Definition cc_runs : list (Z * Z * Z * (Z * Z)) := cc_walk (length unicode_cc_table) 0 0.

Fixpoint find_cc (l : list (Z * Z * Z * (Z * Z))) (c : Z) : Z :=
  match l with
  | [] => 0
  | (_, code, c1, (type, last)) :: l => if c <? c1 then cc_value type last c code else find_cc l c
  end.

(** The combining class: what the run of the character says, 0 after the last one. *)
Definition cc (c : Z) : Z := find_cc cc_runs c.

Definition run_end (e : Z * Z * Z * (Z * Z)) : Z := e.1.2.

(** ** The loop from any run on *)
Lemma cc_walk_suffix fuel : forall p code pre e rest, cc_walk fuel p code = pre ++ e :: rest ->
  exists k, (k <= fuel)%nat /\ e :: rest = cc_walk k e.1.1.1 e.1.1.2.
Proof.
  induction fuel as [| fuel IH]; intros p code pre e rest E; [by destruct pre |]. cbn [cc_walk] in E.
  destruct (cc_entry p) as [[[[ty n] la] p'] | |] eqn:Ee; [| by destruct pre ..]. destruct pre as [| x pre].
  - injection E as <- <-. exists (S fuel). split; [lia |]. cbn [cc_walk fst snd]. by rewrite Ee.
  - injection E as <- E. destruct (IH _ _ _ _ _ E) as (k & Hk & ->). exists k. split; [lia | done].
Qed.

Lemma find_cc_skip l rest c : Forall (fun e => run_end e <= c) l -> find_cc (l ++ rest) c = find_cc rest c.
Proof.
  induction 1 as [| [[[p code] c1] [ty la]] l H Hl IH]; [done |]. cbn in H |- *.
  destruct (Z.ltb_spec c c1); [lia | done].
Qed.

(** Each run of a walk ends before the later ones start. *)
Lemma cc_walk_order fuel : forall p code pre e rest, 0 <= code -> Forall (fun e => e.1.1.2 < run_end e) (cc_walk fuel p code) ->
  cc_walk fuel p code = pre ++ e :: rest -> Forall (fun x => run_end x <= e.1.1.2) pre /\ code <= e.1.1.2.
Proof.
  induction fuel as [| fuel IH]; intros p code pre e rest Hc Ho E; [by destruct pre |]. cbn [cc_walk] in E, Ho.
  destruct (cc_entry p) as [[[[ty n] la] p'] | |] eqn:Ee; [| by destruct pre ..].
  apply list.Forall_cons in Ho as [Hn Ho]. unfold run_end in Hn. cbn [fst snd] in Hn. destruct pre as [| x pre].
  - injection E as <- <-. split; [constructor | cbn; lia].
  - injection E as <- E. destruct (IH p' (code + n + 1) pre e rest ltac:(lia) Ho E) as [Hp Hle]. split; [| lia].
    constructor; [unfold run_end; cbn; lia | done].
Qed.

Lemma cc_loop_walk k : forall fuel p code c, (k <= fuel)%nat -> 0 <= code -> code <= c ->
  Forall (fun e => e.1.1.2 < run_end e < 2 ^ 32) (cc_walk k p code) -> Exists (fun e => c < run_end e) (cc_walk k p code) ->
  cc_loop fuel c p code = Ret (find_cc (cc_walk k p code) c).
Proof.
  induction k as [| k IH]; intros fuel p code c Hf H0 Hc Ho He; [by inversion He |].
  destruct fuel as [| fuel]; [lia |]. cbn [cc_loop cc_walk find_cc] in *.
  destruct (cc_entry p) as [[[[ty n] la] p'] | |] eqn:Ee; [| by inversion He ..]. cbn [mbind res_bind find_cc].
  apply list.Forall_cons in Ho as [Hn Ho]. unfold run_end in Hn. cbn [fst snd] in Hn. rewrite wrap_small by lia.
  destruct (Z.ltb_spec c (code + n + 1)); [done |].
  apply IH; [lia | lia | lia | done |]. apply List.Exists_cons in He as [He | He]; [| done]. unfold run_end in He. cbn in He. lia.
Qed.

#[local] Opaque cc_runs.

(** ** The index *)
Definition cc_index_len : Z := Z.quot (zlen unicode_cc_index) 3.

(** Where the search starts from the entry [i] of the index. *)
Definition cc_index_entry (i : Z) : res (Z * Z) :=
  v ← get_le24 unicode_cc_index (i * 3);
  Ret ((i + 1) * UNICODE_INDEX_BLOCK_LEN + Z.shiftr v 21, Z.land v code_mask).

Definition starts_run (p code : Z) : bool := existsb (fun e => (e.1.1.1 =? p) && (e.1.1.2 =? code)) cc_runs.

Definition runs_in_order : bool :=
  forallb (fun e => (0 <=? e.1.1.2) && (e.1.1.2 <? run_end e) && (run_end e <=? 125259)) cc_runs.
Definition reaches_end : bool := existsb (fun e => 125259 <=? run_end e) cc_runs.
Definition index_starts_runs : bool :=
  forallb (fun i => match cc_index_entry i with Ret (p, code) => (0 <=? p) && starts_run p code | _ => false end)
    (zseq 0 (cc_index_len - 1)).

Definition bytes_in_range : bool :=
  forallb (fun e => match e.2 with (type, last) => (0 <=? last) && (last <? 256) && (if type =? 1 then last + run_end e - e.1.1.2 <=? 256 else true) end)
    cc_runs.

Lemma cc_index_ok :
  runs_in_order = true /\ reaches_end = true /\ index_starts_runs = true /\ starts_run 0 0 = true /\
  get_le24 unicode_cc_index ((cc_index_len - 1) * 3) = Ret 125259 /\ cc_index_len = 27 /\ bytes_in_range = true.
Proof. vm_compute. split_and!; reflexivity. Qed.

Lemma cc_runs_ok :
  Forall (fun e => 0 <= e.1.1.2 < run_end e /\ run_end e <= 125259) cc_runs /\ Exists (fun e => 125259 <= run_end e) cc_runs.
Proof.
  destruct cc_index_ok as (H1 & H2 & _). split.
  - apply list.Forall_forall. intros e He%list_elem_of_In. pose proof (proj1 (forallb_forall _ _) H1 e He) as Hb.
    cbv beta in Hb. lia.
  - apply existsb_exists in H2 as (e & He%list_elem_of_In & Hb). apply list.Exists_exists. exists e. split; [done | lia].
Qed.

Lemma starts_run_spec p code : starts_run p code = true -> exists pre e rest,
  cc_runs = pre ++ e :: rest /\ e.1.1.1 = p /\ e.1.1.2 = code.
Proof.
  intros (e & He%list_elem_of_In & Hb)%existsb_exists. apply list_elem_of_split in He as (pre & rest & E).
  exists pre, e, rest. split; [done | lia].
Qed.

(** From any run that starts at [c] or before the loop finds the class of [c]. *)
Lemma cc_loop_run p code c : starts_run p code = true -> code <= c -> c < 125259 ->
  cc_loop (S (length unicode_cc_table)) c p code = Ret (cc c).
Proof.
  intros (pre & e & rest & E & <- & <-)%starts_run_spec Hc Hlt. destruct cc_runs_ok as [Ho He].
  destruct (cc_walk_suffix _ _ _ _ _ _ E) as (k & Hk & Ek).
  destruct (cc_walk_order (length unicode_cc_table) 0 0 pre e rest) as [Hp _]; [lia | | exact E |].
  { eapply list.Forall_impl; [exact Ho |]. cbv beta. intros. lia. }
  assert (find_cc cc_runs c = find_cc (e :: rest) c) as Ef.
  { rewrite E. apply find_cc_skip. eapply list.Forall_impl; [exact Hp |]. cbv beta. intros. lia. }
  unfold cc. rewrite Ef, Ek. rewrite E in Ho, He. apply list.Forall_app in Ho as [_ Ho].
  apply cc_loop_walk; [lia | | done | |].
  - apply list.Forall_cons in Ho as [? _]. lia.
  - rewrite <- Ek. eapply list.Forall_impl; [exact Ho |]. cbv beta. intros. lia.
  - rewrite <- Ek. apply list.Exists_app in He as [He | He].
    + apply list.Exists_exists in He as (x & Hx & ?). rewrite list.Forall_forall in Hp. specialize (Hp x Hx). lia.
    + eapply list.Exists_impl; [exact He |]. cbv beta. intros. lia.
Qed.

Lemma cc_after c : 125259 <= c -> cc c = 0.
Proof.
  intros Hc. unfold cc. rewrite <- (app_nil_r cc_runs). rewrite find_cc_skip; [done |].
  eapply list.Forall_impl; [exact (proj1 cc_runs_ok) |]. cbv beta. intros. lia.
Qed.

Lemma unicode_get_cc_spec c : 0 <= c -> unicode_get_cc c = Ret (cc c).
Proof.
  intros Hc. destruct cc_index_ok as (_ & _ & Hi & H0 & Hl & Hn & _).
  assert (forall i, 0 <= i < 26 -> exists v, get_le24 unicode_cc_index (i * 3) = Ret v /\
    0 <= (i + 1) * UNICODE_INDEX_BLOCK_LEN + Z.shiftr v 21 /\
    starts_run ((i + 1) * UNICODE_INDEX_BLOCK_LEN + Z.shiftr v 21) (Z.land v code_mask) = true) as Hent.
  { intros i Hr. pose proof (proj1 (forallb_forall _ _) Hi i) as Hb. cbv beta in Hb. unfold cc_index_entry in Hb.
    assert (In i (zseq 0 (cc_index_len - 1))) as Hin by (apply list_elem_of_In, elem_of_zseq; lia). specialize (Hb Hin).
    destruct (get_le24 unicode_cc_index (i * 3)) as [v | |]; [| discriminate ..]. cbn [mbind res_bind] in Hb.
    apply andb_true_iff in Hb as [? ?]. exists v. split_and!; [done | lia | done]. }
  unfold unicode_get_cc, get_index_pos. fold cc_index_len. rewrite Hn in Hl |- *.
  destruct (Hent 0 ltac:(lia)) as (v0 & E0 & _). rewrite Z.mul_0_l in E0. rewrite E0. cbn [mbind res_bind].
  destruct (Z.ltb_spec c (Z.land v0 code_mask)) as [Hlt | Hge].
  - destruct (Z.ltb_spec 0 0); [lia |]. cbn [mbind res_bind]. apply cc_loop_run; [done | lia |].
    enough (Z.land v0 code_mask <= 125259) by lia.
    destruct (Hent 0 ltac:(lia)) as (v & E & _ & (pre & e & rest & Er & _ & Hcode)%starts_run_spec). rewrite Z.mul_0_l, E0 in E.
    injection E as ->. destruct cc_runs_ok as [Ho _]. rewrite Er in Ho. apply list.Forall_app in Ho as [_ Ho].
    apply list.Forall_cons in Ho as [? _]. lia.
  - change (27 - 1) with 26 in *. change (26 * 3) with 78 in *.
    rewrite Hl. cbn [mbind res_bind].
    destruct (Z.leb_spec 125259 c); [by rewrite cc_after |].
    destruct (index_search_spec unicode_cc_index c 26) with (fuel := S (Z.to_nat 27)) (lo := 0) (hi := 26)
      as (i & v & -> & Hr & Ev & Hv); [| lia .. | |].
    { intros i Hr. destruct (Hent i Hr) as (v & Ev & _). eauto. }
    { exists v0. rewrite Z.mul_0_l. split; [done | lia]. }
    cbn [mbind res_bind]. rewrite Ev. cbn [mbind res_bind]. destruct (Hent i Hr) as (v' & Ev' & Hpos & Hs).
    rewrite Ev in Ev'. injection Ev' as <-. destruct (Z.ltb_spec ((i + 1) * UNICODE_INDEX_BLOCK_LEN + Z.shiftr v 21) 0); [lia |].
    apply cc_loop_run; [done | lia | lia].
Qed.

Lemma find_cc_range k : forall p code c, code <= c ->
  Forall (fun e => 0 <= e.1.1.2 < run_end e /\ 0 <= e.2.2 < 256 /\ (e.2.1 = 1 -> e.2.2 + run_end e - e.1.1.2 <= 256)) (cc_walk k p code) ->
  0 <= find_cc (cc_walk k p code) c < 256.
Proof.
  induction k as [| k IH]; intros p code c Hc Ho; [cbn; lia |]. cbn [cc_walk] in *.
  destruct (cc_entry p) as [[[[ty n] la] p'] | |]; [| cbn; lia ..].
  apply list.Forall_cons in Ho as [(H1 & H2 & H3) Ho]. unfold run_end in H1, H3. cbn [fst snd] in H1, H2, H3. cbn [find_cc].
  destruct (Z.ltb_spec c (code + n + 1)); [| apply IH; [lia | done]]. unfold cc_value.
  destruct (Z.eqb_spec ty 0); [lia |]. destruct (Z.eqb_spec ty 1); [| destruct (ty =? 2); lia].
  rewrite wrap_small; lia.
Qed.

Lemma cc_range c : 0 <= c -> 0 <= cc c < 256.
Proof.
  intros Hc. destruct cc_index_ok as (_ & _ & _ & _ & _ & _ & Hb). destruct cc_runs_ok as [Ho _].
  apply (find_cc_range (length unicode_cc_table) 0 0); [done |].
  change (cc_walk (length unicode_cc_table) 0 0) with cc_runs. apply list.Forall_forall. intros e He.
  rewrite list.Forall_forall in Ho. specialize (Ho e He). apply list_elem_of_In in He.
  pose proof (proj1 (forallb_forall _ _) Hb e He) as Hx. cbv beta in Hx. destruct e as [[[p code] c1] [ty la]]. cbn [fst snd] in *.
  apply andb_true_iff in Hx as [Hx Ht]. split_and!; try lia. intros ->. rewrite Z.eqb_refl in Ht. lia.
Qed.

(** The class of the characters of a run. *)
Lemma cc_in_run e c : e ∈ cc_runs -> e.1.1.2 <= c < run_end e -> cc c = cc_value e.2.1 e.2.2 c e.1.1.2.
Proof.
  intros (pre & rest & E)%list_elem_of_split Hc. destruct cc_runs_ok as [Ho _].
  destruct (cc_walk_order (length unicode_cc_table) 0 0 pre e rest) as [Hp _]; [lia | | exact E |].
  { eapply list.Forall_impl; [exact Ho |]. cbv beta. intros. lia. }
  unfold cc. rewrite E, find_cc_skip by (eapply list.Forall_impl; [exact Hp |]; cbv beta; intros; lia).
  destruct e as [[[p code] c1] [ty la]]. unfold run_end in Hc. cbn [fst snd] in *. cbn [find_cc]. destruct (Z.ltb_spec c c1); [done | lia].
Qed.

(** Hangul syllables have the class 0. *)
Lemma syllable_run : existsb (fun e => (e.1.1.2 <=? 0xac00) && (0xd7a4 <=? run_end e) && (e.2.1 =? 2)) cc_runs = true.
Proof. vm_compute. reflexivity. Qed.

Lemma cc_syllable c : 0xac00 <= c < 0xd7a4 -> cc c = 0.
Proof.
  intros Hc. destruct (proj1 (existsb_exists _ _) syllable_run) as (e & He%list_elem_of_In & Hb). cbv beta in Hb.
  rewrite (cc_in_run e c He) by lia. apply andb_true_iff in Hb as [_ ->%Z.eqb_eq]. done.
Qed.
