(* ===== verification/NormPairs.v ===== *)
(** * libunicode.c: the pairs of characters that compose

    [unicode_comp_table] lists the characters with a canonical decomposition into
    two, in the order of their pairs: the binary search of
    [unicode_compose_pair] finds exactly these. *)
From Stdlib Require Import ZArith Lia Bool.
From stdpp Require Import base numbers list gmap.
From S2P Require Import Prelude Cutils UnicodeTables CaseConv UnicodeProp Normalize NormTables.

(** ** The pairs of the table *)
Definition fast_table1 : gmap Z Z := fast unicode_decomp_table1.

(** What the loop of [unicode_compose_pair] reads for an element of the table:
    the character, and the array [pair]. *)
Definition pair_at (table1 table2 data : Z -> option Z) (r : list Z) (idx1 : Z) : res (Z * Z * list Z) :=
  v ← of_opt (table1 (Z.shiftr idx1 6));
  let ch := u32 (run_code 18 v + Z.land idx1 0x3f) in
  '(l, r) ← decomp_entry table2 data r ch (Z.shiftr idx1 6) (run_code 18 v) (run_len 18 v) (decomp_type v);
  Ret (ch, l, r).

Definition fast_pair (r : list Z) (idx1 : Z) : res (Z * Z * list Z) :=
  pair_at (fast_table1 !!.) (fast_table2 !!.) (fast_data !!.) r idx1.

(** The characters with their pairs, in the order of the table. *)
Definition pair_of (idx1 : Z) : Z * (Z * Z) :=
  match fast_pair [0; 0] idx1 with
  | Ret (ch, _, [p0; p1]) => (ch, (p0, p1))
  | _ => (0, (0, 0))
  end.
Definition comp_points : list (Z * (Z * Z)) := map pair_of unicode_comp_table.

(** ** What is checked *)
Definition lt_pair (x y : Z * Z) : bool := (x.1 <? y.1) || ((x.1 =? y.1) && (x.2 <? y.2)).

Fixpoint increasing (l : list (Z * (Z * Z))) : bool :=
  match l with
  | x :: (y :: _) as k => lt_pair x.2 y.2 && increasing k
  | _ => true
  end.

(** The character is in the tables with just this decomposition, canonical. *)
Definition decomposes_to (x : Z * (Z * Z)) (k : bool) : bool :=
  match fast_char x.1 k with
  | Ret (l, r) => (l =? 2) && bool_decide (take 2 r = [x.2.1; x.2.2])
  | _ => false
  end.

Definition good_pair (x : Z * (Z * Z)) : bool :=
  (0 <? x.1) && is_code_point x.1 && is_code_point x.2.1 && is_code_point x.2.2 && decomposes_to x true && decomposes_to x false &&
  (if cc x.2.1 =? 0 then cc x.1 =? 0 else true).

Lemma pairs_increasing : increasing comp_points = true.
Proof. vm_compute. reflexivity. Qed.

Lemma pairs_good : forallb good_pair comp_points = true.
Proof. vm_compute. reflexivity. Qed.

(** The pair does not depend on what the array held. *)
Lemma fast_pair_any a b :
  forallb (fun idx1 => match fast_pair [a; b] idx1 with
                       | Ret (ch, l, [p0; p1]) => (l =? 2) && bool_decide (pair_of idx1 = (ch, (p0, p1)))
                       | _ => false end) unicode_comp_table = true.
Proof. vm_compute. reflexivity. Qed.

Lemma fast_tables i :
  fast_table1 !! i = znth unicode_decomp_table1 i /\ fast_table2 !! i = znth unicode_decomp_table2 i /\
  fast_data !! i = znth unicode_decomp_data i.
Proof. split_and!; apply fast_lookup. Qed.

#[local] Opaque unicode_decomp_table1 unicode_decomp_table2 unicode_decomp_data unicode_comp_table fast_table1 fast_table2
  fast_data run_map.

Lemma pair_at_ext t1 t1' t2 t2' data data' r idx1 : (forall i, t1 i = t1' i) -> (forall i, t2 i = t2' i) ->
  (forall i, data i = data' i) -> pair_at t1 t2 data r idx1 = pair_at t1' t2' data' r idx1.
Proof.
  intros H1 H2 H3. unfold pair_at. rewrite H1. destruct (t1' (Z.shiftr idx1 6)) as [v |]; [| done]. cbn [of_opt mbind res_bind].
  by rewrite (entry_ext t2 t2' data data' H2 H3).
Qed.

Lemma pair_at_fast r idx1 :
  pair_at (znth unicode_decomp_table1) (znth unicode_decomp_table2) (znth unicode_decomp_data) r idx1 = fast_pair r idx1.
Proof.
  symmetry. apply pair_at_ext; intros i; destruct (fast_tables i) as (H1 & H2 & H3); [exact H1 | exact H2 | exact H3].
Qed.

(** The array has two elements, before and after. *)
Definition is_pair (r : list Z) : Prop := exists a b, r = [a; b].

Lemma pair_at_spec r idx1 : is_pair r -> idx1 ∈ unicode_comp_table ->
  pair_at (znth unicode_decomp_table1) (znth unicode_decomp_table2) (znth unicode_decomp_data) r idx1 =
  Ret ((pair_of idx1).1, 2, [(pair_of idx1).2.1; (pair_of idx1).2.2]).
Proof.
  intros (a & b & ->) Hi%list_elem_of_In. rewrite pair_at_fast.
  pose proof (proj1 (forallb_forall _ _) (fast_pair_any a b) idx1 Hi) as H. cbv beta in H.
  destruct (fast_pair [a; b] idx1) as [[[ch l] r] | |]; [| discriminate ..].
  destruct r as [| p0 [| p1 [|]]]; try discriminate. apply andb_true_iff in H as [->%Z.eqb_eq ->%bool_decide_eq_true_1]. done.
Qed.

Lemma znth_comp_points i : znth comp_points i = pair_of <$> znth unicode_comp_table i.
Proof.
  unfold comp_points, znth. destruct (0 <=? i); [| done]. change (map pair_of) with (fmap (M := list) pair_of).
  apply list_lookup_fmap.
Qed.

Lemma comp_points_zlen : zlen comp_points = zlen unicode_comp_table.
Proof. unfold comp_points, zlen. by rewrite length_map. Qed.

Lemma good_at x : x ∈ comp_points -> good_pair x = true.
Proof. intros Hx%list_elem_of_In. apply (proj1 (forallb_forall _ _) pairs_good x Hx). Qed.

Definition code_point (c : Z) : Prop := 0 <= c <= 0x10FFFF.

Lemma good_pair_spec ch p0 p1 : good_pair (ch, (p0, p1)) = true ->
  0 < ch /\ code_point ch /\ code_point p0 /\ code_point p1 /\ decomposes_to (ch, (p0, p1)) true = true /\
  decomposes_to (ch, (p0, p1)) false = true /\ (cc p0 = 0 -> cc ch = 0).
Proof.
  unfold good_pair, is_code_point, code_point. cbn [fst snd].
  intros [[[[[[H0 H1]%andb_true_iff H2]%andb_true_iff H3]%andb_true_iff Ht]%andb_true_iff Hf]%andb_true_iff Hc]%andb_true_iff.
  split_and!; [clear Ht Hf Hc; lia .. | exact Ht | exact Hf |].
  intros E. rewrite E in Hc. by apply Z.eqb_eq in Hc.
Qed.

(** ** The order of the pairs *)
Definition before (x y : Z * Z) : Prop := x.1 < y.1 \/ (x.1 = y.1 /\ x.2 < y.2).

Lemma lt_pair_spec x y : lt_pair x y = true -> before x y.
Proof. unfold lt_pair, before. intros [|]%orb_true_iff; lia. Qed.

Lemma before_trans x y z : before x y -> before y z -> before x z.
Proof. unfold before. lia. Qed.

Lemma increasing_lookup l : increasing l = true -> forall i j x y, (i < j)%nat -> l !! i = Some x -> l !! j = Some y -> before x.2 y.2.
Proof.
  induction l as [| a [| b l] IH]; intros Hi i j x y Hij Ex Ey; [done | destruct j; [lia | done] |].
  cbn [increasing] in Hi. apply andb_true_iff in Hi as [Hab%lt_pair_spec Hi]. specialize (IH Hi).
  destruct j as [| j]; [lia |]. destruct i as [| i]; [| apply (IH i j); [lia | done | done]].
  injection Ex as <-. destruct j as [| j]; [by injection Ey as <- |].
  eapply before_trans; [exact Hab |]. apply (IH 0%nat (S j)); [lia | done | done].
Qed.

Lemma comp_points_before i j x y : i < j -> znth comp_points i = Some x -> znth comp_points j = Some y -> before x.2 y.2.
Proof.
  intros Hij [? Hx]%znth_Some [? Hy]%znth_Some.
  apply (increasing_lookup _ pairs_increasing (Z.to_nat i) (Z.to_nat j)); [lia | done | done].
Qed.

(** ** The search *)
Lemma code_point_diff a b : code_point a -> code_point b -> i32 (u32 (a - b)) = a - b.
Proof. unfold code_point. intros. rewrite swrap_wrap by lia. apply swrap_small; lia. Qed.

Section search.
Variables c0 c1 : Z.
Hypothesis Hc0 : code_point c0.
Hypothesis Hc1 : code_point c1.

Lemma compose_search_spec fuel : forall r lo hi, is_pair r -> 0 <= lo -> hi < zlen comp_points -> Z.max 0 (hi - lo + 1) < Z.of_nat fuel ->
  (forall i x, znth comp_points i = Some x -> i < lo -> before x.2 (c0, c1)) ->
  (forall i x, znth comp_points i = Some x -> hi < i -> before (c0, c1) x.2) ->
  (exists ch, (ch, (c0, c1)) ∈ comp_points /\ compose_search fuel r c0 c1 lo hi = Ret ch) \/
  (compose_search fuel r c0 c1 lo hi = Ret 0 /\ forall ch, (ch, (c0, c1)) ∉ comp_points).
Proof.
  induction fuel as [| fuel IH]; intros r lo hi Hr Hlo Hhi Hf Hbelow Habove; [lia |]. cbn [compose_search].
  destruct (Z.leb_spec lo hi).
  - rewrite Z.quot_div_nonneg by lia. set (idx := (hi + lo) / 2). assert (lo <= idx <= hi) by (unfold idx; zdiv_lia).
    destruct (proj2 (znth_is_Some unicode_comp_table idx)) as [idx1 E1]; [rewrite <- comp_points_zlen; lia |].
    rewrite E1. cbn [of_opt mbind res_bind]. assert (idx1 ∈ unicode_comp_table) as Hin by (eapply znth_elem_of, E1).
    pose proof (pair_at_spec r idx1 Hr Hin) as Hp. unfold pair_at in Hp.
    assert (znth comp_points idx = Some (pair_of idx1)) as Ep by (by rewrite znth_comp_points, E1).
    pose proof (good_at _ (znth_elem_of _ _ _ Ep)) as Hg.
    destruct (znth unicode_decomp_table1 (Z.shiftr idx1 6)) as [v |]; [| discriminate Hp]. cbn [of_opt mbind res_bind] in Hp |- *.
    unfold unicode_decomp_entry.
    destruct (decomp_entry _ _ r _ _ _ _ _) as [[l r'] | |]; [| discriminate Hp ..]. cbn [mbind res_bind] in Hp |- *.
    destruct (pair_of idx1) as [ch [p0 p1]] eqn:Eo. cbn [fst snd] in Hp. injection Hp as -> -> ->.
    change (znth [p0; p1] 0) with (Some p0). change (znth [p0; p1] 1) with (Some p1). cbn [of_opt mbind res_bind].
    pose proof (znth_elem_of _ _ _ Ep) as Hch. apply good_pair_spec in Hg as (? & ? & ? & ? & _).
    rewrite !code_point_diff by (unfold code_point in *; lia).
    assert (before (p0, p1) (c0, c1) -> forall i x, znth comp_points i = Some x -> i < idx + 1 -> before x.2 (c0, c1)) as Hdown.
    { intros Hb i x Ei Hi. destruct (decide (i = idx)) as [-> | Hne]; [rewrite Ep in Ei; by injection Ei as <- |].
      eapply before_trans; [exact (comp_points_before i idx _ _ ltac:(lia) Ei Ep) | exact Hb]. }
    assert (before (c0, c1) (p0, p1) -> forall i x, znth comp_points i = Some x -> idx - 1 < i -> before (c0, c1) x.2) as Hup.
    { intros Hb i x Ei Hi. destruct (decide (i = idx)) as [-> | Hne]; [rewrite Ep in Ei; by injection Ei as <- |].
      eapply before_trans; [exact Hb | exact (comp_points_before idx i _ _ ltac:(lia) Ep Ei)]. }
    assert (is_pair [p0; p1]) as Hr' by (by exists p0, p1). clear Ep Hin E1 Hr.
    destruct (Z.eqb_spec (c0 - p0) 0) as [E0 | E0].
    + destruct (Z.ltb_spec (c1 - p1) 0); [| destruct (Z.ltb_spec 0 (c1 - p1))].
      * apply IH; [exact Hr' | lia | lia | lia | exact Hbelow |]. apply Hup. unfold before. cbn. lia.
      * apply IH; [exact Hr' | lia | lia | lia | | exact Habove]. apply Hdown. unfold before. cbn. lia.
      * left. exists ch. split; [| reflexivity]. replace c0 with p0 by lia. replace c1 with p1 by lia. exact Hch.
    + destruct (Z.ltb_spec (c0 - p0) 0); [| destruct (Z.ltb_spec 0 (c0 - p0)); [| lia]].
      * apply IH; [exact Hr' | lia | lia | lia | exact Hbelow |]. apply Hup. unfold before. cbn. lia.
      * apply IH; [exact Hr' | lia | lia | lia | | exact Habove]. apply Hdown. unfold before. cbn. lia.
  - right. split; [done |]. intros ch [i Ei]%list_elem_of_lookup_1. rewrite <- znth_nat in Ei.
    destruct (decide (Z.of_nat i < lo)) as [Hi | Hi].
    + specialize (Hbelow _ _ Ei Hi). unfold before in Hbelow. cbn in Hbelow. lia.
    + specialize (Habove _ _ Ei ltac:(lia)). unfold before in Habove. cbn in Habove. lia.
Qed.

Lemma unicode_compose_pair_spec :
  (exists ch, (ch, (c0, c1)) ∈ comp_points /\ unicode_compose_pair c0 c1 = Ret ch) \/
  (unicode_compose_pair c0 c1 = Ret 0 /\ forall ch, (ch, (c0, c1)) ∉ comp_points).
Proof.
  apply compose_search_spec.
  - by eexists _, _.
  - lia.
  - rewrite comp_points_zlen. lia.
  - unfold zlen. lia.
  - intros i x Ei Hi. apply znth_lt_Some in Ei. lia.
  - intros i x Ei Hi. apply znth_lt_Some in Ei. rewrite comp_points_zlen in Ei. lia.
Qed.
End search.

(** A character of the table decomposes into its pair, whether compatibility
    decompositions are asked for or not. *)
Lemma comp_points_char ch p0 p1 k : (ch, (p0, p1)) ∈ comp_points ->
  exists r, unicode_decomp_char decomp_buffer ch k = Ret (2, r) /\ take 2 r = [p0; p1].
Proof.
  intros (_ & _ & _ & _ & Ht & Hf & _)%good_at%good_pair_spec.
  rewrite fast_char_spec. assert (decomposes_to (ch, (p0, p1)) k = true) as H by (destruct k; [exact Ht | exact Hf]). unfold decomposes_to in H.
  cbn [fst snd] in H. destruct (fast_char ch k) as [[l r] | |]; [| discriminate ..]. apply andb_true_iff in H as [->%Z.eqb_eq H].
  exists r. split; [done |]. by apply bool_decide_eq_true_1 in H.
Qed.

Lemma comp_points_class ch p0 p1 : (ch, (p0, p1)) ∈ comp_points ->
  0 < ch /\ code_point ch /\ code_point p0 /\ code_point p1 /\ (cc p0 = 0 -> cc ch = 0).
Proof.
  intros (? & ? & ? & ? & _ & _ & Hc)%good_at%good_pair_spec. auto.
Qed.
