(* ===== verification/NormOrder.v ===== *)
(** * libunicode.c: canonical order

    Unicode puts text in canonical order by exchanging adjacent characters while
    the class of the second is smaller and not 0 (D108 and D109).  [sort_cc] is an
    insertion sort of each run of characters whose class is not 0. *)
From Stdlib Require Import ZArith Lia Bool Sorted.
From stdpp Require Import base numbers list relations.
From S2P Require Import Prelude Cutils Normalize NormTables.

(** ** The definition *)
Definition reorderable (a b : Z) : Prop := 0 < cc b < cc a.

Inductive swap : list Z -> list Z -> Prop :=
  swap_pair l1 a b l2 : reorderable a b -> swap (l1 ++ a :: b :: l2) (l1 ++ b :: a :: l2).

Definition reorders : list Z -> list Z -> Prop := rtc swap.

(** No two adjacent characters are to be exchanged. *)
Definition in_order (l : list Z) : Prop := Sorted (fun a b => ~ reorderable a b) l.

Lemma sorted_app {A} (R : A -> A -> Prop) l1 x l2 : Sorted R (l1 ++ x :: l2) <-> Sorted R (l1 ++ [x]) /\ Sorted R (x :: l2).
Proof.
  induction l1 as [| a l1 IH]; cbn [app].
  - split; [intros H; split; [repeat constructor | done] | intros [_ H]; exact H].
  - split.
    + intros [Hs Hh]%Sorted_inv. apply IH in Hs as [? ?]. split; [constructor; [done |] | done].
      destruct l1; cbn in *; inversion Hh; by constructor.
    + intros [[Hs Hh]%Sorted_inv ?]. constructor; [by apply IH |].
      destruct l1; cbn in *; inversion Hh; by constructor.
Qed.

Lemma sorted_prefix {A} (R : A -> A -> Prop) l1 l2 : Sorted R (l1 ++ l2) -> Sorted R l1.
Proof.
  induction l1 as [| a l1 IH]; [constructor |]. intros [Hs Hh]%Sorted_inv. constructor; [by apply IH |].
  destruct l1; [constructor |]. inversion Hh. by constructor.
Qed.

Lemma swap_app k l l' m : swap l l' -> swap (k ++ l ++ m) (k ++ l' ++ m).
Proof.
  intros [l1 a b l2 H]. rewrite <- !app_assoc. cbn [app]. rewrite !(app_assoc k l1). by constructor.
Qed.

Lemma reorders_app k l l' m : reorders l l' -> reorders (k ++ l ++ m) (k ++ l' ++ m).
Proof. induction 1 as [| x y z Hs _ IH]; [apply rtc_refl |]. eapply rtc_l; [by apply swap_app | exact IH]. Qed.

Lemma swap_perm l l' : swap l l' -> l ≡ₚ l'.
Proof. intros [l1 a b l2 _]. apply Permutation_app_head, perm_swap. Qed.

Lemma reorders_perm l l' : reorders l l' -> l ≡ₚ l'.
Proof. induction 1 as [| x y z Hs _ IH]; [done |]. etransitivity; [by apply swap_perm | exact IH]. Qed.

(** A character goes before characters of larger classes. *)
Lemma reorders_before x l : 0 < cc x -> Forall (fun y => cc x < cc y) l -> reorders (l ++ [x]) (x :: l).
Proof.
  intros Hx. induction l as [| y l IH]; intros Hl; [apply rtc_refl |]. apply list.Forall_cons in Hl as [Hy Hl].
  pose proof (reorders_app [y] _ _ [] (IH Hl)) as H. rewrite !app_nil_r in H. etransitivity; [exact H |].
  apply rtc_once. exact (swap_pair [] y x l (conj Hx Hy)).
Qed.

(** ** The ordered form is unique: insertion computes it *)
Definition reorderable_b (a b : Z) : bool := (0 <? cc b) && (cc b <? cc a).

Fixpoint insert_cc (x : Z) (l : list Z) : list Z :=
  match l with
  | [] => [x]
  | y :: l => if reorderable_b x y then y :: insert_cc x l else x :: y :: l
  end.

Fixpoint canon (l : list Z) : list Z :=
  match l with
  | [] => []
  | x :: l => insert_cc x (canon l)
  end.

Lemma insert_cc_comm a b l : reorderable a b -> insert_cc a (insert_cc b l) = insert_cc b (insert_cc a l).
Proof.
  unfold reorderable. intros Hab. assert (reorderable_b a b = true) as E1 by (unfold reorderable_b; lia).
  assert (reorderable_b b a = false) as E2 by (unfold reorderable_b; lia).
  induction l as [| y l IH]; cbn [insert_cc]; [by rewrite E1, E2 |].
  destruct (reorderable_b b y) eqn:Eb.
  - assert (reorderable_b a y = true) as Ea by (unfold reorderable_b in *; lia).
    cbn [insert_cc]. rewrite Ea. cbn [insert_cc]. by rewrite Eb, IH.
  - cbn [insert_cc]. rewrite E1. destruct (reorderable_b a y) eqn:Ea; cbn [insert_cc]; [by rewrite Eb | by rewrite E2].
Qed.

Lemma canon_app_cong k l l' : canon l = canon l' -> canon (k ++ l) = canon (k ++ l').
Proof. intros E. induction k as [| x k IH]; [done |]. cbn. by rewrite IH. Qed.

Lemma canon_swap l l' : swap l l' -> canon l = canon l'.
Proof. intros [l1 a b l2 H]. apply canon_app_cong. cbn. by apply insert_cc_comm. Qed.

Lemma canon_reorders l l' : reorders l l' -> canon l = canon l'.
Proof. induction 1 as [| x y z Hs _ IH]; [done |]. by rewrite (canon_swap _ _ Hs). Qed.

Lemma canon_in_order l : in_order l -> canon l = l.
Proof.
  induction l as [| x l IH]; intros Ho; [done |]. apply Sorted_inv in Ho as [Ho Hh]. cbn. rewrite (IH Ho).
  destruct l as [| y l]; [done |]. cbn. inversion Hh as [| ? ? Hn]. unfold reorderable in Hn.
  destruct (reorderable_b x y) eqn:E; [| done]. destruct Hn. unfold reorderable_b in E. lia.
Qed.

Lemma ordered_canon l l' : reorders l l' -> in_order l' -> l' = canon l.
Proof. intros Hr Ho. rewrite (canon_reorders _ _ Hr). symmetry. by apply canon_in_order. Qed.

(** ** [sort_cc] *)
Definition nonneg (l : list Z) : Prop := Forall (fun c => 0 <= c) l.

Lemma get_cc x : 0 <= x -> unicode_get_cc x = Ret (cc x).
Proof. apply unicode_get_cc_spec. Qed.

Lemma znth_app_mid {A} (l r : list A) y : znth (l ++ y :: r) (zlen l) = Some y.
Proof. rewrite znth_app_r by lia. by rewrite Z.sub_diag. Qed.

(** The inner loop: the end of a run that is larger than [cc1] moves up. *)
Lemma sort_shift_spec cc1 A : forall R fuel x more, nonneg R -> (length R <= fuel)%nat ->
  exists R1 R2 z, R = R1 ++ R2 /\ Forall (fun y => cc1 < cc y) R2 /\ (R1 = [] \/ exists R' y, R1 = R' ++ [y] /\ cc y <= cc1) /\
    sort_shift fuel (A ++ R ++ x :: more) (zlen A) (zlen A + zlen R - 1) cc1 = Ret (A ++ R1 ++ z :: R2 ++ more, zlen A + zlen R1 - 1).
Proof.
  induction R as [| y R IH] using rev_ind; intros fuel x more Hn Hf.
  - exists [], [], x. split_and!; [done | done | by left |]. cbn [app]. change (zlen (@nil Z)) with 0. destruct fuel; cbn [sort_shift];
      (destruct (Z.ltb_spec (zlen A + 0 - 1) (zlen A)); [done | lia]).
  - apply list.Forall_app in Hn as [Hn [Hy _]%list.Forall_cons]. rewrite length_app in Hf. cbn in Hf. destruct fuel as [| fuel]; [lia |].
    cbn [sort_shift]. rewrite zlen_app. change (zlen [y]) with 1. pose proof (zlen_nonneg R).
    destruct (Z.ltb_spec (zlen A + (zlen R + 1) - 1) (zlen A)); [lia |].
    assert (A ++ (R ++ [y]) ++ x :: more = (A ++ R) ++ y :: x :: more) as El by (by rewrite <- !app_assoc).
    rewrite El. replace (zlen A + (zlen R + 1) - 1) with (zlen (A ++ R)) by (rewrite zlen_app; lia).
    rewrite znth_app_mid. cbn [of_opt mbind res_bind]. rewrite (get_cc y Hy). cbn [mbind res_bind].
    destruct (Z.leb_spec (cc y) cc1).
    + exists (R ++ [y]), [], x. split_and!; [by rewrite app_nil_r | done | by right; exists R, y |].
      f_equal. f_equal; [by rewrite <- !app_assoc | rewrite !zlen_app; change (zlen [y]) with 1; lia].
    + replace (zlen (A ++ R) + 1) with (zlen ((A ++ R) ++ [y])) by (rewrite zlen_app; done).
      replace ((A ++ R) ++ y :: x :: more) with (((A ++ R) ++ [y]) ++ x :: more) by (by rewrite <- app_assoc).
      rewrite zupd_app_mid. cbn [of_opt mbind res_bind].
      destruct (IH fuel y (y :: more) Hn ltac:(lia)) as (R1 & R2 & z & -> & Hgt & Hle & E).
      exists R1, (R2 ++ [y]), z. split_and!; [by rewrite app_assoc | apply list.Forall_app; split; [done | by repeat constructor] | done |].
      replace (zlen (A ++ R1 ++ R2) - 1) with (zlen A + zlen (R1 ++ R2) - 1) by (rewrite !zlen_app; lia).
      rewrite <- !app_assoc in E. rewrite <- !app_assoc. exact E.
Qed.

Lemma nonneg_reorders l l' : reorders l l' -> nonneg l -> nonneg l'.
Proof. unfold nonneg. intros E%reorders_perm. by rewrite E. Qed.

(** The end of a text that is in order and its character of class 0, if any. *)
Definition after_starter (A : list Z) : Prop := A = [] \/ exists A' y, A = A' ++ [y] /\ cc y = 0.

(** A character is inserted into a run that is in order. *)
Lemma insert_in_order A R1 R2 x : after_starter A -> 0 < cc x -> Forall (fun y => cc x < cc y) R2 ->
  (R1 = [] \/ exists R' y, R1 = R' ++ [y] /\ cc y <= cc x) -> in_order (A ++ R1 ++ R2) -> in_order (A ++ R1 ++ x :: R2).
Proof.
  intros HA Hx H2 H1 Ho. unfold in_order in *.
  assert (Sorted (fun a b => ~ reorderable a b) (x :: R2)) as Hx2.
  { rewrite app_assoc in Ho. constructor.
    - destruct R2 as [| y R2]; [constructor |]. by apply sorted_app in Ho as [_ ?].
    - destruct R2 as [| y R2]; constructor. apply list.Forall_cons in H2 as [? _]. unfold reorderable. lia. }
  rewrite app_assoc. apply sorted_app. split; [| done].
  assert (Sorted (fun a b => ~ reorderable a b) (A ++ R1)) as Ho1.
  { rewrite app_assoc in Ho. by apply sorted_prefix in Ho. }
  assert (A ++ R1 = [] \/ exists l y, A ++ R1 = l ++ [y] /\ ~ reorderable y x) as [-> | (l & y & E & Hy)].
  { destruct H1 as [-> | (R' & y & -> & Hy)].
    - rewrite app_nil_r. destruct HA as [-> | (A' & y & -> & Hy)]; [by left | right]. exists A', y. unfold reorderable. split; [done | lia].
    - right. exists (A ++ R'), y. unfold reorderable. rewrite app_assoc. split; [done | lia]. }
  - repeat constructor.
  - rewrite E in Ho1 |- *. rewrite <- app_assoc. cbn [app]. apply sorted_app. split; [done |]. repeat constructor. done.
Qed.

(** The run from [start = zlen A] on: [R] is sorted already. *)
Lemma sort_run_spec A : after_starter A -> nonneg A -> forall S fuel R, nonneg (R ++ S) -> Forall (fun y => 0 < cc y) R ->
  in_order (A ++ R) -> (length S <= fuel)%nat ->
  exists R' S', sort_run fuel (A ++ R ++ S) (zlen (A ++ R ++ S)) (zlen A) (zlen (A ++ R)) = Ret (A ++ R' ++ S', zlen (A ++ R')) /\
    reorders (A ++ R ++ S) (A ++ R' ++ S') /\ in_order (A ++ R') /\
    (S' = [] \/ exists x S2, S' = x :: S2 /\ cc x = 0) /\ (length S' <= length S)%nat.
Proof.
  intros HA HnA. induction S as [| x S IH]; intros fuel R Hn HR Ho Hf.
  - exists R, []. rewrite !app_nil_r. split_and!; [| apply rtc_refl | done | by left | done].
    destruct fuel; cbn [sort_run]; destruct (Z.leb_spec (zlen (A ++ R)) (zlen (A ++ R))); done || lia.
  - cbn in Hf. destruct fuel as [| fuel]; [lia |]. cbn [sort_run].
    apply list.Forall_app in Hn as [HnR [Hx HnS]%list.Forall_cons].
    destruct (Z.leb_spec (zlen (A ++ R ++ x :: S)) (zlen (A ++ R))) as [Hle |].
    { rewrite !zlen_app, zlen_cons in Hle. pose proof (zlen_nonneg S). lia. }
    replace (znth (A ++ R ++ x :: S) (zlen (A ++ R))) with (Some x) by (rewrite app_assoc; symmetry; apply znth_app_mid).
    cbn [of_opt mbind res_bind]. rewrite (get_cc x Hx). cbn [mbind res_bind]. destruct (Z.eqb_spec (cc x) 0) as [Ex | Ex].
    { exists R, (x :: S). split_and!; [done | apply rtc_refl | done | right; by exists x, S | done]. }
    pose proof (cc_range x Hx) as Hcx.
    destruct (sort_shift_spec (cc x) A R (length (A ++ R ++ x :: S)) x S HnR) as (R1 & R2 & z & -> & Hgt & Hle & E).
    { rewrite !length_app. lia. }
    replace (zlen (A ++ R1 ++ R2) - 1) with (zlen A + zlen (R1 ++ R2) - 1) by (rewrite !zlen_app; lia).
    rewrite E. cbn [mbind res_bind]. replace (zlen A + zlen R1 - 1 + 1) with (zlen (A ++ R1)) by (rewrite zlen_app; lia).
    replace (A ++ R1 ++ z :: R2 ++ S) with ((A ++ R1) ++ z :: R2 ++ S) by (by rewrite <- app_assoc).
    rewrite zupd_app_mid. cbn [of_opt mbind res_bind].
    assert (reorders (A ++ (R1 ++ R2) ++ x :: S) (A ++ (R1 ++ x :: R2) ++ S)) as Hr.
    { pose proof (reorders_app (A ++ R1) _ _ S (reorders_before x R2 ltac:(lia) Hgt)) as Hr.
      rewrite <- !app_assoc in Hr. rewrite <- !app_assoc. exact Hr. }
    assert (nonneg ((R1 ++ x :: R2) ++ S)) as Hn'.
    { apply list.Forall_app in HnR as [? ?]. apply list.Forall_app. split; [| done]. apply list.Forall_app. split; [done | by constructor]. }
    destruct (IH fuel (R1 ++ x :: R2)) as (R' & S' & E' & Hr' & Ho' & HS & Hlen); [done | | | lia |].
    { apply list.Forall_app in HR as [? ?]. apply list.Forall_app. split; [done | constructor; [lia | done]]. }
    { by apply insert_in_order; [done | lia | ..]. }
    exists R', S'. split_and!; [| by etransitivity | done | done | cbn; lia].
    rewrite <- E'. rewrite <- !app_assoc. cbn [app]. f_equal; repeat rewrite ?zlen_app, ?zlen_cons; lia.
Qed.

Lemma in_order_starter A x : in_order A -> cc x = 0 -> in_order (A ++ [x]).
Proof.
  intros Ho Hx. destruct A as [| y A _] using rev_ind; [repeat constructor |]. rewrite <- app_assoc. cbn [app].
  apply sorted_app. split; [done |]. repeat constructor. unfold reorderable. lia.
Qed.

Lemma sort_cc_loop_spec : forall fuel A S, after_starter A -> nonneg (A ++ S) -> in_order A -> (length S <= fuel)%nat ->
  exists l, sort_cc_loop fuel (A ++ S) (zlen (A ++ S)) (zlen A) = Ret l /\ reorders (A ++ S) l /\ in_order l.
Proof.
  induction fuel as [| fuel IH]; intros A S HA Hn Ho Hf.
  { destruct S; [| cbn in Hf; lia]. rewrite app_nil_r. cbn [sort_cc_loop]. rewrite Z.leb_refl. exists A. split_and!; [done | apply rtc_refl | done]. }
  cbn [sort_cc_loop]. destruct S as [| x S].
  { rewrite app_nil_r, Z.leb_refl. exists A. split_and!; [done | apply rtc_refl | done]. }
  cbn in Hf. destruct (Z.leb_spec (zlen (A ++ x :: S)) (zlen A)) as [Hle |].
  { rewrite zlen_app, zlen_cons in Hle. pose proof (zlen_nonneg S). lia. }
  pose proof Hn as [HnA [Hx HnS]%list.Forall_cons]%list.Forall_app. rewrite znth_app_mid. cbn [of_opt mbind res_bind].
  rewrite (get_cc x Hx). cbn [mbind res_bind]. pose proof (cc_range x Hx) as Hcx. destruct (Z.eqb_spec (cc x) 0) as [Ex | Ex]; cbn [negb].
  - replace (A ++ x :: S) with ((A ++ [x]) ++ S) by (by rewrite <- app_assoc).
    replace (zlen A + 1) with (zlen (A ++ [x])) by (by rewrite zlen_app).
    apply IH; [by right; exists A, x | by rewrite <- app_assoc | by apply in_order_starter | lia].
  - destruct (sort_run_spec A HA HnA S (length (A ++ x :: S)) [x]) as (R & S' & E & Hr & HoR & HS & Hlen).
    { by apply list.Forall_cons. } { by repeat constructor; lia. }
    { apply (insert_in_order A [] []); [done | lia | done | by left | by rewrite app_nil_r]. } { rewrite length_app. cbn. lia. }
    cbn [app] in E. replace (zlen (A ++ [x])) with (zlen A + 1) in E by (by rewrite zlen_app). rewrite E. cbn [mbind res_bind].
    cbn [app] in Hr. assert (zlen (A ++ x :: S) = zlen (A ++ R ++ S')) as El.
    { apply reorders_perm, Permutation_length in Hr. unfold zlen. lia. }
    rewrite El. destruct HS as [-> | (y & S2 & -> & Ey)].
    + rewrite !app_nil_r in *. exists (A ++ R). split_and!; [| done | done]. destruct fuel; cbn [sort_cc_loop];
        (destruct (Z.leb_spec (zlen (A ++ R)) (zlen (A ++ R) + 1)); [done | lia]).
    + cbn in Hlen. destruct (IH (A ++ R ++ [y]) S2) as (l & El' & Hr' & Ho').
      { right. exists (A ++ R), y. by rewrite <- app_assoc. }
      { rewrite <- !app_assoc. cbn [app]. by apply (nonneg_reorders _ _ Hr). }
      { rewrite app_assoc. by apply in_order_starter. } { lia. }
      rewrite <- !app_assoc in El', Hr'. cbn [app] in El', Hr'. exists l. split_and!; [| by etransitivity | done].
      rewrite <- El'. f_equal. rewrite !zlen_app. change (zlen [y]) with 1. lia.
Qed.

(** [sort_cc] puts the characters in canonical order. *)
Lemma sort_cc_spec l : nonneg l -> exists l', sort_cc l (zlen l) = Ret l' /\ reorders l l' /\ in_order l'.
Proof. intros Hn. apply (sort_cc_loop_spec (length l) [] l); [by left | done | constructor | done]. Qed.
