(* ===== verification/NormDecomp.v ===== *)
(** * libunicode.c: full decomposition

    [to_nfd_rec] appends the full decomposition of each character to the buffer.
    [full_decomposition] is the recursion on the table; [DECOMP_DEPTH] levels are
    enough for every character. *)
From Stdlib Require Import ZArith Lia Bool.
From stdpp Require Import base numbers list.
From S2P Require Import Prelude Alloc Cutils DynBuf UnicodeTables CaseConv Normalize NormTables.

(** ** The definition *)
Definition is_syllable (c : Z) : bool := (0xac00 <=? c) && (c <? 0xd7a4).

(** The arithmetic decomposition of Hangul syllables. *)
Definition syllable (c : Z) : list Z :=
  let s := c - 0xac00 in
  [0x1100 + s / 588; 0x1161 + s mod 588 / 28] ++ (if s mod 28 =? 0 then [] else [0x11a7 + s mod 28]).

(** What the tables say of one character: empty if it does not decompose. *)
Definition mapping (k : bool) (c : Z) : list Z :=
  match unicode_decomp_char decomp_buffer c k with
  | Ret (l, r) => take (Z.to_nat l) r
  | _ => []
  end.

Fixpoint full (depth : nat) (k : bool) (c : Z) : list Z :=
  if is_syllable c then syllable c
  else match mapping k c with
       | [] => [c]
       | l => match depth with O => [] | S depth => concat (map (full depth k) l) end
       end.

Definition full_decomposition (k : bool) (c : Z) : list Z := full DECOMP_DEPTH k c.

(** ** The depth is enough *)
#[local] Notation nests_in k := (nests (fun c => unicode_decomp_char decomp_buffer c k)).

Lemma nests_mapping k depth c : nests_in k (S depth) c = true ->
  exists l r, unicode_decomp_char decomp_buffer c k = Ret (l, r) /\ mapping k c = take (Z.to_nat l) r /\ 0 <= l <= UNICODE_DECOMP_LEN_MAX /\
    zlen r = UNICODE_DECOMP_LEN_MAX /\ Forall (fun x => 0 <= x <= 0x10FFFF) r /\ Forall (fun x => nests_in k depth x = true) (mapping k c).
Proof.
  cbn [nests]. unfold mapping. destruct (unicode_decomp_char decomp_buffer c k) as [[l r] | |]; [| discriminate ..].
  intros [[[[H1 H2]%andb_true_iff H3]%andb_true_iff H4]%andb_true_iff H5]%andb_true_iff. exists l, r. split_and!; try done; try lia.
  - apply list.Forall_forall. intros x Hx%list_elem_of_In. pose proof (proj1 (forallb_forall _ _) H4 x Hx) as Hb.
    unfold is_code_point in Hb. lia.
  - apply list.Forall_forall. intros x Hx%list_elem_of_In. apply (proj1 (forallb_forall _ _) H5 x Hx).
Qed.

Lemma take_nonempty l (r : list Z) : 0 <= l <= UNICODE_DECOMP_LEN_MAX -> zlen r = UNICODE_DECOMP_LEN_MAX -> l <> 0 ->
  [] <> take (Z.to_nat l) r.
Proof. intros Hl Hr Hne E. apply (f_equal zlen) in E. rewrite zlen_take in E. unfold UNICODE_DECOMP_LEN_MAX in *. change (zlen (@nil Z)) with 0 in E. lia. Qed.

Lemma nests_leaf k c : nests_in k 0 c = true -> mapping k c = [].
Proof.
  cbn [nests]. unfold mapping. destruct (unicode_decomp_char decomp_buffer c k) as [[l r] | |]; [| discriminate ..].
  intros [_ ->%Z.eqb_eq]%andb_true_iff. done.
Qed.

Lemma full_more k depth : forall c, nests_in k depth c = true -> full (S depth) k c = full depth k c.
Proof.
  induction depth as [| depth IH]; intros c Hc; [cbn [full]; by rewrite (nests_leaf _ _ Hc) |].
  destruct (nests_mapping k depth c Hc) as (_ & _ & _ & _ & _ & _ & _ & Hm). cbn [full]. destruct (is_syllable c); [done |].
  destruct (mapping k c) as [| x l]; [done |]. f_equal. apply map_ext_in. intros y Hy%list_elem_of_In.
  rewrite list.Forall_forall in Hm. apply (IH y (Hm y Hy)).
Qed.

(** The full decomposition is what Unicode defines it to be: the decomposition of
    the mapping of the character. *)
Lemma full_decomposition_eq k c : full_decomposition k c =
  if is_syllable c then syllable c
  else match mapping k c with [] => [c] | l => concat (map (full_decomposition k) l) end.
Proof.
  pose proof (decomp_nests c k) as Hc. unfold full_decomposition, DECOMP_DEPTH in *.
  destruct (nests_mapping k 2 c Hc) as (_ & _ & _ & _ & _ & _ & _ & Hm). cbn [full]. destruct (is_syllable c); [done |].
  destruct (mapping k c) as [| x l]; [done |]. apply (f_equal (@concat Z)), map_ext_in. intros y Hy%list_elem_of_In.
  rewrite list.Forall_forall in Hm. symmetry. apply (full_more k 2 y (Hm y Hy)).
Qed.

(** Characters of a full decomposition are code points and do not decompose. *)
Definition is_leaf (k : bool) (c : Z) : Prop := is_syllable c = false /\ mapping k c = [].

Lemma leaf_full k c : is_leaf k c -> full_decomposition k c = [c].
Proof. intros [H1 H2]. rewrite full_decomposition_eq. by rewrite H1, H2. Qed.

Definition jamo : list Z := zseq 0x1100 19 ++ zseq 0x1161 21 ++ zseq 0x11a8 27.

Lemma jamo_check : forallb (fun k => forallb (fun c => bool_decide (mapping k c = [])) jamo) [true; false] = true.
Proof. vm_compute. reflexivity. Qed.

Lemma jamo_leaf k c : c ∈ jamo -> is_leaf k c.
Proof.
  intros Hc. split.
  - unfold jamo in Hc. rewrite !elem_of_app, !elem_of_zseq in Hc. unfold is_syllable. lia.
  - assert (In k [true; false]) as Hk by (destruct k; [by left | by right; left]).
    pose proof (proj1 (forallb_forall _ _) (proj1 (forallb_forall _ _) jamo_check k Hk) c (proj1 (list_elem_of_In _ _) Hc)) as H.
    by apply bool_decide_eq_true_1 in H.
Qed.

Lemma syllable_jamo c : is_syllable c = true -> Forall (fun x => x ∈ jamo) (syllable c).
Proof.
  unfold is_syllable, syllable. intros Hc. cbn [app]. set (s := c - 0xac00). assert (0 <= s < 11172) as Hs by lia.
  pose proof (Z.mod_pos_bound s 588). pose proof (Z.mod_pos_bound s 28).
  assert (0 <= s / 588 < 19) by zdiv_lia. assert (0 <= s mod 588 / 28 < 21) by zdiv_lia.
  assert (forall x, 0x1100 <= x < 0x1100 + 19 \/ 0x1161 <= x < 0x1161 + 21 \/ 0x11a8 <= x < 0x11a8 + 27 -> x ∈ jamo) as Hj.
  { intros x. unfold jamo. by rewrite !elem_of_app, !elem_of_zseq. }
  apply list.Forall_cons. split; [apply Hj; lia |]. apply list.Forall_cons. split; [apply Hj; lia |].
  destruct (Z.eqb_spec (s mod 28) 0); [constructor |]. apply list.Forall_singleton, Hj. lia.
Qed.

Lemma full_leaves k depth : forall c, nests_in k depth c = true -> Forall (is_leaf k) (full depth k c).
Proof.
  induction depth as [| depth IH]; intros c Hc; cbn [full]; destruct (is_syllable c) eqn:Es;
    try (eapply list.Forall_impl; [exact (syllable_jamo c Es) | apply jamo_leaf]).
  - rewrite (nests_leaf _ _ Hc). repeat constructor; [done | by apply nests_leaf].
  - destruct (nests_mapping k depth c Hc) as (_ & _ & _ & _ & _ & _ & _ & Hm). destruct (mapping k c) as [| x l] eqn:Em.
    + by repeat constructor.
    + clear Em. induction Hm as [| y l' Hy Hl IHl]; [constructor |]. cbn [map concat]. apply list.Forall_app. split; [by apply IH | exact IHl].
Qed.

(** Decomposition is idempotent. *)
Lemma full_decomposition_leaves k c : Forall (is_leaf k) (full_decomposition k c).
Proof. apply full_leaves, decomp_nests. Qed.

(** ** Lengths *)
Lemma full_length k depth : forall c, nests_in k depth c = true ->
  (length (full depth k c) <= leaves (fun c => unicode_decomp_char decomp_buffer c k) depth c)%nat.
Proof.
  assert (forall c, length (syllable c) <= 3)%nat as Hs by (intros c; unfold syllable; cbn; destruct (_ =? 0); cbn; lia).
  induction depth as [| depth IH]; intros c Hc; cbn [full leaves]; fold (is_syllable c); (destruct (is_syllable c); [apply Hs |]).
  - rewrite (nests_leaf _ _ Hc). cbn [nests] in Hc. destruct (unicode_decomp_char decomp_buffer c k) as [[l r] | |]; [| discriminate ..].
    apply andb_true_iff in Hc as [_ ->]. done.
  - destruct (nests_mapping k depth c Hc) as (l & r & -> & Em & Hl & Hr & _ & Hm). destruct (Z.eqb_spec l 0) as [-> | Hne].
    + by rewrite Em.
    + rewrite <- Em. destruct (mapping k c) as [| x m]; [by destruct (take_nonempty l r Hl Hr Hne) |]. clear Em. induction Hm as [| y m' Hy Hm' IHm]; [cbn; lia |].
      cbn [map concat sum_list_with]. rewrite length_app. specialize (IH y Hy). lia.
Qed.

Definition decompose (k : bool) (l : list Z) : list Z := concat (map (full_decomposition k) l).

Lemma decompose_zlen k l : zlen (decompose k l) <= 18 * zlen l.
Proof.
  unfold decompose. induction l as [| c l IH]; [done |]. cbn [map concat]. rewrite zlen_app, zlen_cons.
  pose proof (full_length k DECOMP_DEPTH c (decomp_nests c k)) as H. pose proof (decomp_leaves c k).
  fold (full_decomposition k c) in H. unfold zlen in *. lia.
Qed.

Lemma decompose_app k l l' : decompose k (l ++ l') = decompose k l ++ decompose k l'.
Proof. unfold decompose. by rewrite map_app, concat_app. Qed.

Lemma decompose_leaves k l : Forall (is_leaf k) (decompose k l).
Proof.
  induction l as [| c l IH]; [constructor |]. unfold decompose. cbn [map concat]. apply list.Forall_app. split; [| exact IH].
  apply full_decomposition_leaves.
Qed.

Lemma decompose_id k l : Forall (is_leaf k) l -> decompose k l = l.
Proof. induction 1 as [| c l Hc Hl IH]; [done |]. unfold decompose in *. cbn [map concat]. by rewrite (leaf_full _ _ Hc), IH. Qed.

(** ** [to_nfd_rec] *)
Lemma full_code_points k depth : forall c, 0 <= c <= 0x10FFFF -> nests_in k depth c = true ->
  Forall (fun x => 0 <= x <= 0x10FFFF) (full depth k c).
Proof.
  assert (forall x, x ∈ jamo -> 0 <= x <= 0x10FFFF) as Hj by (intros x; unfold jamo; rewrite !elem_of_app, !elem_of_zseq; lia).
  induction depth as [| depth IH]; intros c Hc0 Hc; cbn [full]; destruct (is_syllable c) eqn:Es;
    try (eapply list.Forall_impl; [exact (syllable_jamo c Es) | exact Hj]).
  - rewrite (nests_leaf _ _ Hc). by apply list.Forall_singleton.
  - destruct (nests_mapping k depth c Hc) as (l & r & _ & Em & _ & _ & Hr & Hm).
    assert (Forall (fun x => 0 <= x <= 0x10FFFF) (mapping k c)) as Hcp by (rewrite Em; by apply list.Forall_take).
    destruct (mapping k c) as [| x m] eqn:E; [by apply list.Forall_singleton |]. clear E Em.
    induction Hm as [| y m' Hy Hm' IHm]; [constructor |]. apply list.Forall_cons in Hcp as [Hy0 Hcp]. cbn [map concat].
    apply list.Forall_app. split; [by apply IH | by apply IHm].
Qed.

Lemma full_decomposition_code_points k c : 0 <= c <= 0x10FFFF -> Forall (fun x => 0 <= x <= 0x10FFFF) (full_decomposition k c).
Proof. intros Hc. apply full_code_points, decomp_nests. done. Qed.

Lemma full_at_depth k l : concat (map (full DECOMP_DEPTH k) l) = decompose k l.
Proof. done. Qed.

Section nfd.
Context `{Realloc is_byte}.

Lemma dbuf_put_all_app c1 : forall s c2, dbuf_put_all s (c1 ++ c2) = (s ← dbuf_put_all s c1; dbuf_put_all s c2).
Proof.
  induction c1 as [| d c1 IH]; intros s c2; [done |]. cbn [app dbuf_put_all].
  destruct (dbuf_put s d) as [[s' r] | |]; [| done ..]. apply IH.
Qed.

(** What the loop of [to_nfd_rec] does for one character. *)
Definition nfd_char (depth : nat) (k : bool) (dbuf : DynBuf) (c : Z) : res DynBuf := to_nfd_rec depth k dbuf [c].

Lemma to_nfd_rec_cons depth k dbuf c src :
  to_nfd_rec depth k dbuf (c :: src) = (dbuf ← to_nfd_rec depth k dbuf [c]; to_nfd_rec depth k dbuf src).
Proof.
  destruct depth; cbn [to_nfd_rec]; match goal with |- (?m ≫= _) = ((?m ≫= _) ≫= _) => destruct m; reflexivity end.
Qed.

Lemma put_words s x l : dbuf_put_all s (map (le_bytes 4) (x :: l)) =
  ('(s, _) ← dbuf_put_u32 s x; dbuf_put_all s (map (le_bytes 4) l)).
Proof. done. Qed.

Lemma to_nfd_rec_syllable depth k dbuf c : is_syllable c = true ->
  to_nfd_rec depth k dbuf [c] = dbuf_put_all dbuf (map (le_bytes 4) (syllable c)).
Proof.
  intros Hc. pose proof Hc as Hr. unfold is_syllable in Hr. pose proof (Z.mod_pos_bound (c - 0xac00) 588).
  pose proof (Z.mod_pos_bound (c - 0xac00) 28). assert (0 <= (c - 0xac00) / 588 < 19) by zdiv_lia.
  assert (0 <= (c - 0xac00) mod 588 / 28 < 21) by zdiv_lia.
  assert (u32 (c - 0xac00) = c - 0xac00) as E0 by (apply wrap_small; lia).
  destruct depth; cbn [to_nfd_rec]; unfold is_syllable in Hc; rewrite Hc, E0, !wrap_small by lia; unfold syllable; cbn [app];
    rewrite put_words;
    (destruct (dbuf_put_u32 dbuf _) as [[s1 r1] | |]; [| done ..]); cbn [mbind res_bind]; rewrite put_words;
    (destruct (dbuf_put_u32 s1 _) as [[s2 r2] | |]; [| done ..]); cbn [mbind res_bind];
    (destruct (Z.eqb_spec ((c - 0xac00) mod 28) 0); cbn [negb]; [done |]); rewrite put_words;
    destruct (dbuf_put_u32 s2 _) as [[s3 r3] | |]; done.
Qed.

Lemma to_nfd_rec_spec depth k : forall src dbuf, Forall (fun c => nests_in k depth c = true) src ->
  to_nfd_rec depth k dbuf src = dbuf_put_all dbuf (map (le_bytes 4) (concat (map (full depth k) src))).
Proof.
  induction depth as [| depth IH]; induction src as [| c src IHs]; intros dbuf Hs; [done | | done |];
    apply list.Forall_cons in Hs as [Hc Hs]; rewrite to_nfd_rec_cons; cbn [map concat]; rewrite map_app, dbuf_put_all_app;
    (assert (forall m1 m2 : res DynBuf, m1 = m2 -> (m1 ≫= fun d => to_nfd_rec _ k d src) =
       (m2 ≫= fun d => dbuf_put_all d (map (le_bytes 4) (concat (map (full _ k) src))))) as Hb
      by (intros m1 m2 ->; destruct m2; [apply (IHs _ Hs) | done ..])); apply Hb; clear Hb IHs;
    (destruct (is_syllable c) eqn:Es; [rewrite to_nfd_rec_syllable by done; cbn [full]; by rewrite Es |]);
    cbn [to_nfd_rec full]; fold (is_syllable c); rewrite Es.
  - rewrite (nests_leaf _ _ Hc). cbn [nests] in Hc. destruct (unicode_decomp_char decomp_buffer c k) as [[l r] | |]; [| discriminate ..].
    apply andb_true_iff in Hc as [_ ->%Z.eqb_eq]. cbn [mbind res_bind negb Z.eqb]. rewrite put_words.
    destruct (dbuf_put_u32 dbuf c) as [[s r1] | |]; done.
  - destruct (nests_mapping k depth c Hc) as (l & r & -> & Em & Hl & Hr & _ & Hm). cbn [mbind res_bind].
    destruct (Z.eqb_spec l 0) as [-> | Hne]; cbn [negb].
    + rewrite Em. change (take (Z.to_nat 0) r) with (@nil Z). cbv iota. rewrite put_words. destruct (dbuf_put_u32 dbuf c) as [[s r1] | |]; done.
    + rewrite (proj2 (zread_Some r 0 l (mapping k c))) by (split_and!; [lia | lia | lia | exact Em]).
      cbn [of_opt mbind res_bind]. destruct (mapping k c) as [| x m] eqn:E.
      * by destruct (take_nonempty l r Hl Hr Hne).
      * rewrite IH by done. destruct (dbuf_put_all dbuf _); done.
Qed.
End nfd.
