(* ===== verification/NormCompose.v ===== *)
(** * libunicode.c: composition

    [compose] is the algorithm of Unicode (D117): each character is combined with
    the last starter before it unless it is blocked (D115) or the two have no
    composite.  [compose_pair] has one composite more: it takes the vowel U+11A7,
    which is one below the first trailing consonant, for a trailing consonant.  The loop of [unicode_normalize] does it in place and looks at one
    character only to find whether another is blocked. *)
From Stdlib Require Import ZArith Lia Bool Sorted.
From stdpp Require Import base numbers list relations.
From S2P Require Import Prelude Alloc Cutils CaseConv Normalize NormTables NormPairs NormOrder NormDecomp.

(** ** The definition *)

Definition find_pair (l : list (Z * (Z * Z))) (a b : Z) : option Z := fst <$> (snd <$> list_find (fun x => x.2 = (a, b)) l).

(** The composite of two characters: Hangul syllables (chapter 3.12 of Unicode:
    the index of the trailing consonant, counted from TBase = U+11A7, is between
    0 and TCount = 28, both excluded), and the pairs of the table. *)
Definition is_lv (c : Z) : bool := is_syllable c && ((c - 0xac00) mod 28 =? 0).

Definition composite (a b : Z) : option Z :=
  if (0x1100 <=? a) && (a <? 0x1100 + 19) && (0x1161 <=? b) && (b <? 0x1161 + 21) then
    Some (0xac00 + (a - 0x1100) * 588 + (b - 0x1161) * 28)
  else if is_lv a && (0x11a7 <? b) && (b <? 0x11a7 + 28) then Some (a + (b - 0x11a7))
  else find_pair comp_points a b.

(** The text up to the last starter, the starter, and what follows it. *)
Fixpoint last_starter (l : list Z) : option (list Z * Z * list Z) :=
  match l with
  | [] => None
  | x :: l =>
      match last_starter l with
      | Some (pre, s, mid) => Some (x :: pre, s, mid)
      | None => if cc x =? 0 then Some ([], x, l) else None
      end
  end.

(** D115: [c] is blocked from the starter by a character between them. *)
Definition blocked (mid : list Z) (c : Z) : bool := existsb (fun b => (cc b =? 0) || (cc c <=? cc b)) mid.

Definition compose_step (out : list Z) (c : Z) : list Z :=
  match last_starter out with
  | Some (pre, s, mid) =>
      if blocked mid c then out ++ [c]
      else match composite s c with Some p => pre ++ p :: mid | None => out ++ [c] end
  | None => out ++ [c]
  end.

Definition compose (l : list Z) : list Z :=
  match l with
  | [] => []
  | x :: l => foldl compose_step [x] l
  end.

(** ** [compose_pair] *)
Lemma pairs_not_syllables : forallb (fun x => negb (is_syllable x.1)) comp_points = true.
Proof. vm_compute. reflexivity. Qed.

#[local] Opaque comp_points cc_runs cc unicode_compose_pair.

Lemma find_pair_Some l a b p : find_pair l a b = Some p -> (p, (a, b)) ∈ l.
Proof.
  unfold find_pair. destruct (list_find (fun x => x.2 = (a, b)) l) as [[i [ch pr]] |] eqn:E; [| done].
  apply list_find_Some in E as (Ei & Ep & _). cbn in Ep |- *. subst pr. intros [= ->]. by apply list_elem_of_lookup_2 in Ei.
Qed.

Lemma find_pair_None l a b p : find_pair l a b = None -> (p, (a, b)) ∉ l.
Proof.
  unfold find_pair. destruct (list_find (fun x => x.2 = (a, b)) l) as [[i [ch pr]] |] eqn:E; [done |].
  apply list_find_None in E. intros _ Hin. rewrite list.Forall_forall in E. by destruct (E _ Hin).
Qed.

(** No pair is there twice. *)
Lemma comp_points_unique p q x : (p, x) ∈ comp_points -> (q, x) ∈ comp_points -> p = q.
Proof.
  intros [i Ei]%list_elem_of_lookup_1 [j Ej]%list_elem_of_lookup_1. rewrite <- znth_nat in Ei, Ej.
  destruct (Nat.lt_trichotomy i j) as [H | [-> | H]]; [exfalso | congruence | exfalso].
  - pose proof (comp_points_before (Z.of_nat i) (Z.of_nat j) _ _ ltac:(lia) Ei Ej) as Hb. unfold before in Hb. cbn in Hb. lia.
  - pose proof (comp_points_before (Z.of_nat j) (Z.of_nat i) _ _ ltac:(lia) Ej Ei) as Hb. unfold before in Hb. cbn in Hb. lia.
Qed.

(** The code does what Unicode says but for U+11A7. *)
Lemma compose_pair_spec a b : code_point a -> code_point b -> b <> 0x11a7 -> compose_pair a b = Ret (default 0 (composite a b)).
Proof.
  intros Ha Hb H7. unfold compose_pair, composite, is_lv, is_syllable. unfold code_point in *.
  replace (0x11a7 <=? b) with (0x11a7 <? b) by lia.
  destruct ((0x1100 <=? a) && (a <? 0x1100 + 19) && (0x1161 <=? b) && (b <? 0x1161 + 21)) eqn:E1.
  { cbn. f_equal. rewrite wrap_small; lia. }
  change (0xac00 + 11172) with 0xd7a4.
  destruct ((0xac00 <=? a) && (a <? 0xd7a4) && ((a - 0xac00) mod 28 =? 0) && (0x11a7 <? b) && (b <? 0x11a7 + 28)) eqn:E2.
  { cbn. f_equal. rewrite wrap_small; lia. }
  destruct (unicode_compose_pair_spec a b Ha Hb) as [(ch & Hin & ->) | [-> Hn]]; f_equal.
  - destruct (find_pair comp_points a b) as [p |] eqn:E; [| by destruct (find_pair_None _ _ _ ch E)].
    apply find_pair_Some in E. exact (comp_points_unique _ _ _ Hin E).
  - destruct (find_pair comp_points a b) as [p |] eqn:E; [| done]. by destruct (Hn p (find_pair_Some _ _ _ _ E)).
Qed.


(** A composite is a code point of class 0. *)
Lemma composite_starter a b p : code_point a -> cc a = 0 -> composite a b = Some p -> 0 < p /\ code_point p /\ cc p = 0.
Proof.
  intros Ha Hca. unfold composite, is_lv, is_syllable.
  destruct ((0x1100 <=? a) && (a <? 0x1100 + 19) && (0x1161 <=? b) && (b <? 0x1161 + 21)) eqn:E1.
  { intros [= <-]. unfold code_point. split_and!; [lia | lia | lia |]. apply cc_syllable. lia. }
  destruct ((0xac00 <=? a) && (a <? 0xd7a4) && ((a - 0xac00) mod 28 =? 0) && (0x11a7 <? b) && (b <? 0x11a7 + 28)) eqn:E2.
  { intros [= <-]. assert (a + (b - 0x11a7) < 0xd7a4) by (pose proof (Z_div_mod_eq_full (a - 0xac00) 28); lia).
    unfold code_point. split_and!; [lia | lia | lia |]. apply cc_syllable. lia. }
  intros Ei%find_pair_Some. destruct (comp_points_class p a b Ei) as (? & ? & _ & _ & Hc). auto.
Qed.

(** The full decomposition of a composite is that of its parts. *)
Lemma composite_full k a b p : composite a b = Some p -> full_decomposition k p = full_decomposition k a ++ full_decomposition k b.
Proof.
  unfold composite.
  destruct ((0x1100 <=? a) && (a <? 0x1100 + 19) && (0x1161 <=? b) && (b <? 0x1161 + 21)) eqn:E1.
  { intros [= <-]. rewrite (leaf_full k a), (leaf_full k b).
    2, 3: apply jamo_leaf; unfold jamo; rewrite !elem_of_app, !elem_of_zseq; lia.
    rewrite full_decomposition_eq. set (p := 0xac00 + (a - 0x1100) * 588 + (b - 0x1161) * 28).
    assert (is_syllable p = true) as -> by (unfold is_syllable, p; lia). unfold syllable.
    replace (p - 0xac00) with ((a - 0x1100) * 588 + (b - 0x1161) * 28) by (unfold p; lia).
    set (i := a - 0x1100) in *. set (j := b - 0x1161) in *.
    assert ((i * 588 + j * 28) mod 28 = 0) as -> by (replace (i * 588 + j * 28) with ((i * 21 + j) * 28) by lia; apply Z.mod_mul; lia).
    assert ((i * 588 + j * 28) / 588 = i) as -> by (symmetry; apply (Z.div_unique _ _ _ (j * 28)); [left |]; lia).
    assert ((i * 588 + j * 28) mod 588 = j * 28) as -> by (symmetry; apply (Z.mod_unique _ _ i); [left |]; lia).
    rewrite Z.div_mul by lia. cbn [app Z.eqb]. unfold i, j. f_equal; [lia |]. f_equal. lia. }
  destruct (is_lv a && (0x11a7 <? b) && (b <? 0x11a7 + 28)) eqn:E2.
  { intros [= <-]. apply andb_true_iff in E2 as [[Hlv H1]%andb_true_iff H2]. unfold is_lv in Hlv.
    apply andb_true_iff in Hlv as [Hs Hm%Z.eqb_eq]. rewrite (leaf_full k b).
    2: apply jamo_leaf; unfold jamo; rewrite !elem_of_app, !elem_of_zseq; lia.
    rewrite !full_decomposition_eq, Hs. set (t := b - 0x11a7). unfold is_syllable in Hs. set (s := a - 0xac00) in *.
    assert (0 <= s < 11172) by (unfold s; lia). assert (s = 28 * (s / 28)) as Es by (pose proof (Z_div_mod_eq_full s 28); lia).
    assert (0 < t < 28) by (unfold t; lia).
    assert (is_syllable (a + t) = true) as -> by (unfold is_syllable, s in *; pose proof (Z_div_mod_eq_full (a - 0xac00) 28); lia).
    unfold syllable. fold s. replace (a + t - 0xac00) with (s + t) by (unfold s; lia).
    assert ((s + t) mod 28 = t) as -> by (symmetry; apply (Z.mod_unique _ _ (s / 28)); [left |]; lia).
    assert ((s + t) / 588 = s / 588 /\ (s + t) mod 588 / 28 = s mod 588 / 28) as [-> ->].
    { pose proof (Z_div_mod_eq_full s 588). pose proof (Z.mod_pos_bound s 588). pose proof (Z_div_mod_eq_full (s mod 588) 28). pose proof (Z.mod_pos_bound (s mod 588) 28).
      assert (s mod 588 mod 28 = 0) as E0 by (replace (s mod 588) with ((s / 28 - 21 * (s / 588)) * 28) by lia; apply Z.mod_mul; lia).
      assert ((s + t) mod 588 = s mod 588 + t) as E5 by (symmetry; apply (Z.mod_unique _ _ (s / 588)); [left |]; lia).
      split; [symmetry; apply (Z.div_unique _ _ _ (s mod 588 + t)); [left |]; lia |]. rewrite E5.
      symmetry; apply (Z.div_unique _ _ _ t); [left |]; lia. }
    rewrite Hm. destruct (Z.eqb_spec t 0); [lia |]. cbn [app Z.eqb]. unfold t. repeat f_equal. lia. }
  intros Ei%find_pair_Some.
  rewrite (full_decomposition_eq k p). pose proof (proj1 (forallb_forall _ _) pairs_not_syllables (p, (a, b)) (proj1 (list_elem_of_In _ _) Ei)) as Hs.
  cbn [fst] in Hs. apply negb_true_iff in Hs as ->. destruct (comp_points_char p a b k Ei) as (r & Er & Et).
  assert (mapping k p = [a; b]) as -> by (unfold mapping; rewrite Er; exact Et). cbn [map concat]. by rewrite app_nil_r.
Qed.

(** ** The loop *)
Lemma last_starter_Some l pre s mid : last_starter l = Some (pre, s, mid) ->
  l = pre ++ s :: mid /\ cc s = 0 /\ Forall (fun b => cc b <> 0) mid.
Proof.
  revert pre s mid. assert (forall l, last_starter l = None -> Forall (fun b => cc b <> 0) l) as Hnone.
  { induction l0 as [| x l0 IH]; [constructor |]. cbn. destruct (last_starter l0) as [[[? ?] ?] |]; [done |].
    destruct (Z.eqb_spec (cc x) 0); [done |]. intros _. constructor; auto. }
  induction l as [| x l IH]; intros pre s mid E; [done |]. cbn in E. destruct (last_starter l) as [[[pre' s'] mid'] |] eqn:El.
  - injection E as <- -> ->. destruct (IH pre' s mid eq_refl) as (-> & ? & ?). done.
  - destruct (Z.eqb_spec (cc x) 0); [| done]. injection E as <- <- <-. auto.
Qed.

Lemma last_starter_None l : last_starter l = None -> Forall (fun b => cc b <> 0) l.
Proof.
  induction l as [| x l IH]; [constructor |]. cbn. destruct (last_starter l) as [[[? ?] ?] |]; [done |].
  destruct (Z.eqb_spec (cc x) 0); [done |]. intros _. constructor; auto.
Qed.

(** In a run that is in order the last character has the largest class. *)
Lemma run_last l y : nonneg (l ++ [y]) -> Forall (fun b => cc b <> 0) (l ++ [y]) -> in_order (l ++ [y]) ->
  Forall (fun b => cc b <= cc y) l.
Proof.
  induction l as [| x l IH]; intros Hn Hc Ho; [constructor |]. apply list.Forall_cons in Hn as [Hx Hn]. apply list.Forall_cons in Hc as [Hcx Hc].
  apply Sorted_inv in Ho as [Ho Hh]. specialize (IH Hn Hc Ho). constructor; [| done].
  destruct l as [| z l]; cbn in Hh; inversion Hh as [| ? ? Hr]; subst; unfold reorderable in Hr.
  - apply list.Forall_cons in Hn as [Hy _]. apply list.Forall_cons in Hc as [Hcy _]. pose proof (cc_range y Hy). lia.
  - apply list.Forall_cons in Hn as [Hz _]. apply list.Forall_cons in Hc as [Hcz _]. pose proof (cc_range z Hz).
    apply list.Forall_cons in IH as [? _]. lia.
Qed.

(** Looking at the last character is enough to see what is blocked. *)
Lemma blocked_last mid y c : nonneg (mid ++ [y]) -> Forall (fun b => cc b <> 0) (mid ++ [y]) -> in_order (mid ++ [y]) ->
  blocked (mid ++ [y]) c = (cc c <=? cc y).
Proof.
  intros Hn Hc Ho. pose proof (run_last mid y Hn Hc Ho) as Hl. unfold blocked. rewrite existsb_app. cbn [existsb].
  apply list.Forall_app in Hc as [Hc [Hy _]%list.Forall_cons]. destruct (Z.eqb_spec (cc y) 0); [done |]. rewrite orb_false_r. cbn [orb].
  destruct (Z.leb_spec (cc c) (cc y)); [apply orb_true_r |]. rewrite orb_false_r. apply not_true_iff_false.
  intros (b & Hb%list_elem_of_In & Hx)%existsb_exists. rewrite list.Forall_forall in Hl, Hc. specialize (Hl b Hb). specialize (Hc b Hb). cbv beta in *. lia.
Qed.

(** From a position after a starter the search ends at the starter. *)
Lemma find_starter_up pre s mid : nonneg (pre ++ s :: mid) -> cc s = 0 -> Forall (fun b => cc b <> 0) mid ->
  forall fuel junk, (length mid < fuel)%nat -> Forall (fun b => cc b < 256) mid ->
  find_starter fuel (pre ++ s :: mid ++ junk) (zlen pre + zlen mid) 256 = Ret (Some (zlen pre)).
Proof.
  intros Hn Hs. induction mid as [| y mid IH] using rev_ind; intros Hm fuel junk Hf H256; (destruct fuel as [| fuel]; [cbn in Hf; lia |]).
  - cbn [find_starter app]. change (zlen (@nil Z)) with 0. rewrite Z.add_0_r. pose proof (zlen_nonneg pre). destruct (Z.ltb_spec (zlen pre) 0); [lia |].
    rewrite znth_app_mid. cbn [of_opt mbind res_bind]. apply list.Forall_app in Hn as [_ [? _]%list.Forall_cons]. rewrite get_cc by done.
    cbn [mbind res_bind]. by rewrite Hs.
  - cbn [find_starter]. apply list.Forall_app in Hm as [Hm [Hy _]%list.Forall_cons]. apply list.Forall_app in H256 as [H256 [Hy256 _]%list.Forall_cons].
    assert (nonneg (pre ++ s :: mid) /\ 0 <= y) as [Hn' Hy0].
    { rewrite app_comm_cons, app_assoc in Hn. apply list.Forall_app in Hn as [? [? _]%list.Forall_cons]. done. }
    assert (pre ++ s :: (mid ++ [y]) ++ junk = (pre ++ s :: mid) ++ y :: junk) as El by (rewrite <- app_assoc; by rewrite <- app_assoc).
    assert (zlen pre + zlen (mid ++ [y]) = zlen (pre ++ s :: mid)) as Ez by zlen_lia.
    rewrite Ez, El. pose proof (zlen_nonneg (pre ++ s :: mid)). destruct (Z.ltb_spec (zlen (pre ++ s :: mid)) 0); [lia |].
    rewrite znth_app_mid. cbn [of_opt mbind res_bind]. rewrite get_cc by done. cbn [mbind res_bind].
    destruct (Z.eqb_spec (cc y) 0); [done |]. destruct (Z.leb_spec 256 (cc y)); [lia |].
    replace (zlen (pre ++ s :: mid) - 1) with (zlen pre + zlen mid) by zlen_lia.
    rewrite <- app_assoc. cbn [app]. rewrite length_app in Hf. cbn in Hf. apply IH; [done | done | lia | done].
Qed.

Lemma code_points_nonneg l : Forall code_point l -> nonneg l.
Proof. intros Hl. eapply list.Forall_impl; [exact Hl |]. unfold code_point. intros. lia. Qed.

Lemma classes_small l : nonneg l -> Forall (fun b => cc b < 256) l.
Proof. intros Hl. eapply list.Forall_impl; [exact Hl |]. cbv beta. intros x Hx. apply (cc_range x Hx). Qed.

(** The search finds the last starter unless the character is blocked. *)
Lemma find_starter_spec out pre s mid c junk : nonneg out -> in_order out -> last_starter out = Some (pre, s, mid) ->
  find_starter (length (out ++ junk)) (out ++ junk) (zlen out - 1) (cc c) = Ret (if blocked mid c then None else Some (zlen pre)).
Proof.
  intros Hn Ho (-> & Hs & Hm)%last_starter_Some. unfold in_order in Ho. apply sorted_app in Ho as [_ Ho]. apply Sorted_inv in Ho as [Ho _].
  pose proof Hn as [_ [Hs0 Hnm]%list.Forall_cons]%list.Forall_app. destruct mid as [| y mid _] using rev_ind.
  - cbn [blocked existsb]. rewrite <- app_assoc. cbn [app]. rewrite zlen_app. change (zlen [s]) with 1. rewrite length_app. cbn [length].
    rewrite Nat.add_succ_r. cbn [find_starter]. pose proof (zlen_nonneg pre). destruct (Z.ltb_spec (zlen pre + 1 - 1) 0); [lia |].
    replace (zlen pre + 1 - 1) with (zlen pre) by lia. rewrite znth_app_mid. cbn [of_opt mbind res_bind]. rewrite get_cc by done.
    cbn [mbind res_bind]. by rewrite Hs.
  - rewrite (blocked_last mid y c Hnm Hm Ho).
    assert ((pre ++ s :: mid ++ [y]) ++ junk = (pre ++ s :: mid) ++ y :: junk) as El by (rewrite app_comm_cons, <- !app_assoc; done).
    assert (zlen (pre ++ s :: mid ++ [y]) - 1 = zlen (pre ++ s :: mid)) as Ez by zlen_lia.
    apply list.Forall_app in Hnm as [Hnm [Hy _]%list.Forall_cons]. apply list.Forall_app in Hm as [Hm [Hcy _]%list.Forall_cons].
    rewrite El, Ez. rewrite !length_app. cbn [length]. rewrite Nat.add_succ_r. cbn [find_starter]. pose proof (zlen_nonneg (pre ++ s :: mid)).
    destruct (Z.ltb_spec (zlen (pre ++ s :: mid)) 0); [lia |]. rewrite znth_app_mid. cbn [of_opt mbind res_bind]. rewrite get_cc by done.
    cbn [mbind res_bind]. destruct (Z.eqb_spec (cc y) 0); [done |]. destruct (Z.leb_spec (cc c) (cc y)); [done |].
    replace (zlen (pre ++ s :: mid) - 1) with (zlen pre + zlen mid) by zlen_lia. rewrite <- app_assoc. cbn [app].
    apply find_starter_up; [| done | done | lia | by apply classes_small].
    rewrite app_comm_cons, app_assoc in Hn. by apply list.Forall_app in Hn as [? _].
Qed.

(** Without a starter nothing is found. *)
Lemma find_starter_none out : nonneg out -> Forall (fun b => cc b <> 0) out -> forall fuel junk last_cc, (length out <= fuel)%nat ->
  exists r, find_starter fuel (out ++ junk) (zlen out - 1) last_cc = Ret r /\ (r = None \/ r = Some (-1)).
Proof.
  induction out as [| y out IH] using rev_ind; intros Hn Hm fuel junk last_cc Hf.
  - exists (Some (-1)). split; [by destruct fuel | by right].
  - rewrite length_app in Hf. cbn in Hf. destruct fuel as [| fuel]; [lia |]. cbn [find_starter].
    apply list.Forall_app in Hn as [Hn [Hy _]%list.Forall_cons]. apply list.Forall_app in Hm as [Hm [Hcy _]%list.Forall_cons].
    replace (zlen (out ++ [y]) - 1) with (zlen out) by zlen_lia. rewrite <- app_assoc. cbn [app].
    pose proof (zlen_nonneg out). destruct (Z.ltb_spec (zlen out) 0); [lia |]. rewrite znth_app_mid. cbn [of_opt mbind res_bind].
    rewrite get_cc by done. cbn [mbind res_bind]. destruct (Z.eqb_spec (cc y) 0); [done |]. destruct (Z.leb_spec last_cc (cc y)).
    + exists None. auto.
    + apply IH; [done | done | lia].
Qed.

(** A step keeps the order and the code points. *)
Lemma in_order_replace pre s p mid : in_order (pre ++ s :: mid) -> cc p = 0 -> nonneg mid -> in_order (pre ++ p :: mid).
Proof.
  intros [H1 H2]%sorted_app Hp Hn. apply sorted_app. split.
  - destruct pre as [| x pre _] using rev_ind; [repeat constructor |]. rewrite <- app_assoc in H1 |- *. cbn [app] in *. apply sorted_app in H1 as [H1 _].
    apply sorted_app. split; [done |]. repeat constructor. unfold reorderable. lia.
  - apply Sorted_inv in H2 as [H2 _]. constructor; [done |]. destruct mid as [| y mid]; constructor. apply list.Forall_cons in Hn as [Hy _].
    pose proof (cc_range y Hy). unfold reorderable. lia.
Qed.

Lemma compose_step_ok out c rest : Forall code_point (out ++ c :: rest) -> in_order (out ++ c :: rest) ->
  Forall code_point (compose_step out c ++ rest) /\ in_order (compose_step out c ++ rest).
Proof.
  intros Hn Ho. assert (Forall code_point ((out ++ [c]) ++ rest) /\ in_order ((out ++ [c]) ++ rest)) as Hkeep by (by rewrite <- app_assoc).
  unfold compose_step. destruct (last_starter out) as [[[pre s] mid] |] eqn:E; [| done].
  destruct (blocked mid c) eqn:Eb; [done |]. destruct (composite s c) as [p |] eqn:Ep; [| done]. clear Hkeep.
  apply last_starter_Some in E as (-> & Hs & Hm). rewrite <- app_assoc in *. cbn [app] in *.
  apply list.Forall_app in Hn as [Hpre [Hs0 Hn]%list.Forall_cons]. apply list.Forall_app in Hn as [Hmid [Hc Hrest]%list.Forall_cons].
  destruct (composite_starter s c p Hs0 Hs Ep) as (_ & Hp & Hcp). split.
  { apply list.Forall_app. split; [done |]. apply list.Forall_cons. split; [done |]. by apply list.Forall_app. }
  apply (in_order_replace pre s); [| done | apply code_points_nonneg; by apply list.Forall_app].
  apply sorted_app in Ho as [H1 H2]. apply sorted_app. split; [done |]. destruct rest as [| r rest].
  { rewrite app_nil_r. rewrite app_comm_cons in H2. by apply sorted_prefix in H2. }
  rewrite app_comm_cons in H2. apply sorted_app in H2 as [H2 H3]. apply Sorted_inv in H3 as [H3 H4]. inversion H4 as [| ? ? Hcr]; subst.
  rewrite app_comm_cons. apply sorted_app. split; [| done]. apply list.Forall_cons in Hrest as [Hr _].
  unfold code_point in Hc, Hr. pose proof (cc_range c ltac:(lia)). pose proof (cc_range r ltac:(lia)). unfold reorderable in Hcr.
  destruct mid as [| y mid _] using rev_ind; [repeat constructor; unfold reorderable; lia |].
  apply sorted_prefix in H2. replace ((s :: mid ++ [y]) ++ [r]) with ((s :: mid) ++ y :: [r]) by (cbn; by rewrite <- app_assoc).
  apply sorted_app. split; [done |]. repeat constructor. unfold reorderable.
  unfold blocked in Eb. rewrite existsb_app in Eb. cbn [existsb] in Eb. lia.
Qed.

(** A character is kept: it goes to the end of [out]. *)
Lemma keep_char_spec out junk c rest : exists junk', keep_char (out ++ junk ++ c :: rest) (zlen out) (zlen (out ++ junk)) =
  Ret ((out ++ [c]) ++ junk' ++ rest) /\ zlen (out ++ [c]) + zlen junk' = zlen (out ++ junk) + 1.
Proof.
  unfold keep_char. rewrite app_assoc, znth_app_mid. cbn [of_opt mbind res_bind]. rewrite <- app_assoc. destruct junk as [| j junk].
  - cbn [app]. rewrite zupd_app_mid. exists []. split; [cbn; by rewrite <- app_assoc | zlen_lia].
  - cbn [app]. rewrite zupd_app_mid. exists (junk ++ [c]). split; [cbn; by rewrite <- !app_assoc | zlen_lia].
Qed.

(** One iteration is [compose_step]. *)
Lemma compose_loop_step fuel out junk c rest L : Forall code_point out -> code_point c -> c <> 0x11a7 -> in_order out ->
  zlen (out ++ junk ++ c :: rest) = L -> exists junk', zlen (compose_step out c) + zlen junk' = zlen (out ++ junk) + 1 /\
    compose_loop (S fuel) (out ++ junk ++ c :: rest) L (zlen (out ++ junk)) (zlen out) =
    compose_loop fuel (compose_step out c ++ junk' ++ rest) L (zlen (out ++ junk) + 1) (zlen (compose_step out c)).
Proof.
  intros Hout Hc H7 Ho HL. pose proof (code_points_nonneg out Hout) as Hn. cbn [compose_loop].
  destruct (Z.leb_spec L (zlen (out ++ junk))) as [Hle |].
  { rewrite app_assoc, (zlen_app _ (c :: rest)), zlen_cons in HL. pose proof (zlen_nonneg rest). lia. }
  replace (znth (out ++ junk ++ c :: rest) (zlen (out ++ junk))) with (Some c) by (rewrite app_assoc; symmetry; apply znth_app_mid).
  cbn [of_opt mbind res_bind]. rewrite get_cc by (unfold code_point in Hc; lia). cbn [mbind res_bind].
  destruct (keep_char_spec out junk c rest) as (kj & Ek & Ekz). unfold compose_step.
  assert (exists junk', zlen (out ++ [c]) + zlen junk' = zlen (out ++ junk) + 1 /\
    (buf0 ← keep_char (out ++ junk ++ c :: rest) (zlen out) (zlen (out ++ junk));
     compose_loop fuel buf0 L (zlen (out ++ junk) + 1) (zlen out + 1)) =
    compose_loop fuel ((out ++ [c]) ++ junk' ++ rest) L (zlen (out ++ junk) + 1) (zlen (out ++ [c]))) as Hkeep.
  { exists kj. split; [done |]. rewrite Ek. cbn [mbind res_bind]. f_equal. zlen_lia. }
  destruct (last_starter out) as [[[pre s] mid] |] eqn:El.
  - rewrite (find_starter_spec out pre s mid c (junk ++ c :: rest) Hn Ho El). cbn [mbind res_bind].
    destruct (blocked mid c); [exact Hkeep |]. apply last_starter_Some in El as (-> & Hs & Hm).
    apply list.Forall_app in Hout as [_ [Hs0 _]%list.Forall_cons]. pose proof (zlen_nonneg pre). destruct (Z.leb_spec 0 (zlen pre)); [| lia].
    replace (znth ((pre ++ s :: mid) ++ junk ++ c :: rest) (zlen pre)) with (Some s) by (rewrite <- app_assoc; symmetry; apply znth_app_mid).
    cbn [of_opt mbind res_bind]. rewrite (compose_pair_spec s c Hs0 Hc H7). cbn [mbind res_bind].
    destruct (composite s c) as [p |] eqn:Ep; [change (default 0 (Some p)) with p | exact Hkeep].
    destruct (composite_starter s c p Hs0 Hs Ep) as (Hp & _ & _). destruct (Z.eqb_spec p 0); [lia |]. cbn [negb].
    replace (zupd ((pre ++ s :: mid) ++ junk ++ c :: rest) (zlen pre) p) with (Some ((pre ++ p :: mid) ++ (junk ++ [c]) ++ rest))
      by (rewrite <- !app_assoc; cbn [app]; symmetry; apply zupd_app_mid).
    exists (junk ++ [c]). cbn [of_opt mbind res_bind]. split; [zlen_lia |].
    by replace (zlen (pre ++ s :: mid)) with (zlen (pre ++ p :: mid)) by zlen_lia.
  - destruct (find_starter_none out Hn (last_starter_None out El) (length (out ++ junk ++ c :: rest)) (junk ++ c :: rest) (cc c)) as (r & -> & Hr).
    { rewrite length_app. lia. }
    cbn [mbind res_bind]. destruct Hr as [-> | ->]; exact Hkeep.
Qed.

Lemma compose_loop_spec : forall rest fuel out junk L, Forall code_point (out ++ rest) -> in_order (out ++ rest) -> 0x11a7 ∉ rest ->
  (length rest <= fuel)%nat -> zlen (out ++ junk ++ rest) = L ->
  exists junk', compose_loop fuel (out ++ junk ++ rest) L (zlen (out ++ junk)) (zlen out) =
    Ret (foldl compose_step out rest ++ junk', zlen (foldl compose_step out rest)).
Proof.
  induction rest as [| c rest IH]; intros fuel out junk L Hn Ho H7 Hf HL.
  { exists junk. rewrite app_nil_r in *. destruct fuel; cbn [compose_loop foldl]; rewrite HL; by rewrite Z.leb_refl. }
  cbn in Hf. destruct fuel as [| fuel]; [lia |]. pose proof Hn as [Hout [Hc _]%list.Forall_cons]%list.Forall_app.
  destruct (compose_step_ok out c rest Hn Ho) as [Hn' Ho']. pose proof (sorted_prefix _ _ _ Ho) as Hoo.
  apply not_elem_of_cons in H7 as [Hne H7].
  destruct (compose_loop_step fuel out junk c rest L Hout Hc (not_eq_sym Hne) Hoo HL) as (junk' & Ez & ->). cbn [foldl].
  destruct (IH fuel (compose_step out c) junk' L Hn' Ho' H7 ltac:(lia)) as (j & E); [zlen_lia |]. exists j. rewrite <- E. f_equal. zlen_lia.
Qed.
