(* ===== verification/NormProps.v ===== *)
(** * libunicode.c: normalization is that of Unicode *)
From Stdlib Require Import ZArith Lia Bool Sorted.
From stdpp Require Import base numbers list relations.
From S2P Require Import Prelude Alloc Cutils DynBuf CaseConv Normalize NormTables NormPairs NormOrder NormDecomp NormCompose.

#[local] Opaque comp_points cc_runs cc unicode_compose_pair full_decomposition.

(** ** The canonical form does not change when characters are composed *)
Lemma reorders_after x l : Forall (fun y => 0 < cc y < cc x) l -> reorders (x :: l) (l ++ [x]).
Proof.
  induction l as [| y l IH]; intros Hl; [apply rtc_refl |]. apply list.Forall_cons in Hl as [Hy Hl].
  eapply rtc_l; [exact (swap_pair [] x y l Hy) |]. pose proof (reorders_app [y] _ _ [] (IH Hl)) as H. by rewrite !app_nil_r in H.
Qed.

Lemma not_blocked mid c : nonneg mid -> blocked mid c = false -> Forall (fun b => 0 < cc b < cc c) mid.
Proof.
  intros Hn Hb. apply list.Forall_forall. intros b Hin. unfold nonneg in Hn. rewrite list.Forall_forall in Hn.
  pose proof (cc_range b (Hn b Hin)). apply not_true_iff_false in Hb.
  enough (~ ((cc b =? 0) || (cc c <=? cc b) = true)) by lia. intros H'. apply Hb, existsb_exists. exists b. by rewrite <- list_elem_of_In.
Qed.

Lemma decompose_cons k c l : decompose k (c :: l) = full_decomposition k c ++ decompose k l.
Proof. done. Qed.

Lemma compose_step_equiv k out c rest : Forall code_point (out ++ c :: rest) -> Forall (fun b => cc b <> 0 -> is_leaf k b) out ->
  is_leaf k c ->
  canon (decompose k (compose_step out c ++ rest)) = canon (decompose k (out ++ c :: rest)) /\
  Forall (fun b => cc b <> 0 -> is_leaf k b) (compose_step out c).
Proof.
  intros Hn Hout Hc.
  assert (canon (decompose k ((out ++ [c]) ++ rest)) = canon (decompose k (out ++ c :: rest)) /\
    Forall (fun b => cc b <> 0 -> is_leaf k b) (out ++ [c])) as Hkeep.
  { split; [by rewrite <- app_assoc |]. apply list.Forall_app. split; [done |]. by apply list.Forall_singleton. }
  unfold compose_step. destruct (last_starter out) as [[[pre s] mid] |] eqn:El; [| done].
  destruct (blocked mid c) eqn:Eb; [done |]. destruct (composite s c) as [p |] eqn:Ep; [| done]. clear Hkeep.
  apply last_starter_Some in El as (-> & Hs & Hm). apply list.Forall_app in Hout as [Hpre [_ Hmid]%list.Forall_cons].
  apply list.Forall_app in Hn as [[_ [Hs0 Hmn]%list.Forall_cons]%list.Forall_app _].
  destruct (composite_starter s c p Hs0 Hs Ep) as (_ & _ & Hcp). split.
  - rewrite <- !app_assoc. cbn [app]. rewrite !decompose_app, !decompose_cons, !decompose_app, decompose_cons, (composite_full k s c p Ep).
    rewrite (leaf_full k c Hc), (decompose_id k mid).
    2: { clear -Hm Hmid. induction Hm; constructor; apply list.Forall_cons in Hmid as [? ?]; auto. }
    rewrite <- app_assoc. cbn [app]. apply canon_app_cong, canon_app_cong, canon_reorders.
    pose proof (reorders_app [] _ _ (decompose k rest) (reorders_after c mid (not_blocked mid c (code_points_nonneg mid Hmn) Eb))) as Hr.
    cbn [app] in Hr. by rewrite <- app_assoc in Hr.
  - apply list.Forall_app. split; [done |]. apply list.Forall_cons. split; [done | done].
Qed.

Lemma compose_equiv k : forall rest out, Forall code_point (out ++ rest) -> in_order (out ++ rest) ->
  Forall (fun b => cc b <> 0 -> is_leaf k b) out -> Forall (is_leaf k) rest ->
  canon (decompose k (foldl compose_step out rest)) = canon (decompose k (out ++ rest)).
Proof.
  induction rest as [| c rest IH]; intros out Hn Ho Hout Hrest; [by rewrite app_nil_r |]. cbn [foldl].
  apply list.Forall_cons in Hrest as [Hc Hrest].
  destruct (compose_step_equiv k out c rest Hn Hout Hc) as [E Hout'].
  destruct (compose_step_ok out c rest Hn Ho) as [Hn' Ho']. rewrite IH by done. exact E.
Qed.

Lemma compose_foldl l : compose l = foldl compose_step [] l.
Proof. by destruct l. Qed.

Lemma compose_code_points : forall rest out, Forall code_point (out ++ rest) -> in_order (out ++ rest) -> Forall code_point (foldl compose_step out rest).
Proof.
  induction rest as [| c rest IH]; intros out Hn Ho; [by rewrite app_nil_r in Hn |]. cbn [foldl].
  destruct (compose_step_ok out c rest Hn Ho) as [Hn' Ho']. by apply IH.
Qed.

(** ** Latin-1 text is composed already *)
Definition latin1 : list Z := zseq 0 256.

(** A Latin-1 character does not decompose, or into one and a mark it is the
    composite with. *)
Definition latin1_char (c : Z) : bool :=
  (cc c =? 0) && match full_decomposition false c with
                 | [b] => b =? c
                 | [b; m] => (0 <=? b) && (b <? 256) && negb (cc m =? 0) && bool_decide (composite b m = Some c)
                 | _ => false
                 end.

Lemma latin1_chars : forallb latin1_char latin1 = true.
Proof. vm_compute. reflexivity. Qed.

Lemma pairs_end_with_marks : forallb (fun x => 256 <=? x.2.2) comp_points = true.
Proof. vm_compute. reflexivity. Qed.

Lemma no_composite a b : b < 256 -> composite a b = None.
Proof.
  intros Hb. unfold composite. assert ((0x1161 <=? b) = false) as -> by lia. assert ((0x11a7 <? b) = false) as -> by lia.
  rewrite !andb_false_r. cbn [andb]. destruct (find_pair comp_points a b) as [p |] eqn:E; [| done].
  apply find_pair_Some, list_elem_of_In in E. pose proof (proj1 (forallb_forall _ _) pairs_end_with_marks _ E) as H. cbn in H. lia.
Qed.

Lemma latin1_spec c : 0 <= c < 256 -> cc c = 0 /\
  (full_decomposition false c = [c] \/
   exists b m, full_decomposition false c = [b; m] /\ 0 <= b < 256 /\ cc m <> 0 /\ composite b m = Some c).
Proof.
  intros Hc. pose proof (proj1 (forallb_forall _ _) latin1_chars c) as H. unfold latin1 in H.
  rewrite <- list_elem_of_In, elem_of_zseq in H. specialize (H ltac:(lia)). unfold latin1_char in H.
  apply andb_true_iff in H as [Hcc%Z.eqb_eq H]. split; [done |].
  destruct (full_decomposition false c) as [| b [| m [|]]]; try discriminate; [left; f_equal; lia | right].
  apply andb_true_iff in H as [[[H1 H2]%andb_true_iff H3]%andb_true_iff H4%bool_decide_eq_true_1]. exists b, m. split_and!; try done; lia.
Qed.

Lemma last_starter_snoc l s : cc s = 0 -> last_starter (l ++ [s]) = Some (l, s, []).
Proof. intros Hs. induction l as [| x l IH]; cbn; [by rewrite Hs | by rewrite IH]. Qed.

Lemma latin1_step out b : after_starter out -> 0 <= b < 256 -> compose_step out b = out ++ [b].
Proof.
  intros [-> | (out' & s & -> & Hs)] Hb; unfold compose_step; [done |]. rewrite (last_starter_snoc _ _ Hs). cbn [blocked existsb].
  by rewrite no_composite by lia.
Qed.

Lemma compose_latin1 src : forall out, Forall (fun c => 0 <= c < 256) src -> after_starter out ->
  foldl compose_step out (decompose false src) = out ++ src.
Proof.
  induction src as [| c src IH]; intros out Hs Ho; [by rewrite app_nil_r |]. apply list.Forall_cons in Hs as [Hc Hs].
  destruct (latin1_spec c Hc) as [Hcc Hd]. rewrite decompose_cons, foldl_app.
  assert (foldl compose_step out (full_decomposition false c) = out ++ [c]) as ->.
  { destruct Hd as [-> | (b & m & -> & Hb & Hm & E)]; cbn [foldl]; [by apply latin1_step |]. rewrite (latin1_step out b Ho Hb).
    unfold compose_step. rewrite last_starter_snoc by (by apply latin1_spec). cbn [blocked existsb]. by rewrite E. }
  rewrite IH; [by rewrite <- app_assoc | done |]. right. by exists out, c.
Qed.

Lemma latin1_in_order src : Forall (fun c => 0 <= c < 256) src ->
  in_order (decompose false src) /\ (decompose false src = [] \/ exists x l, decompose false src = x :: l /\ cc x = 0).
Proof.
  induction 1 as [| c src Hc Hs [Ho Hh]]; [split; [constructor | by left] |]. rewrite decompose_cons.
  destruct (latin1_spec c Hc) as [Hcc Hd].
  assert (in_order (full_decomposition false c) /\ exists x l, full_decomposition false c = x :: l /\ cc x = 0) as [Hi (x & l & Ex & Hx)].
  { destruct Hd as [-> | (b & m & -> & Hb & Hm & _)]; [split; [repeat constructor | by exists c, []] |]. destruct (latin1_spec b Hb) as [Hcb _].
    split; [repeat constructor; unfold reorderable; lia | by exists b, [m]]. }
  split; [| right; rewrite Ex; exists x, (l ++ decompose false src); done].
  destruct Hh as [-> | (y & l' & Ey & Hy)]; [by rewrite app_nil_r |]. rewrite Ey in Ho |- *. apply sorted_app. split; [| done].
  by apply in_order_starter.
Qed.

(** ** Memory *)
Lemma words_of_bytes l extra : Forall (fun x => 0 <= x < 2 ^ 32) l -> words (length l) (word_bytes l ++ extra) = l.
Proof.
  induction 1 as [| x l Hx Hl IH]; [done |]. unfold word_bytes in *. cbn [map concat length words]. rewrite <- app_assoc.
  rewrite take_app_length' by (by rewrite length_le_bytes). rewrite drop_app_length' by (by rewrite length_le_bytes).
  rewrite IH, le_val_bytes. f_equal. change (256 ^ Z.of_nat 4) with (2 ^ 32). apply Z.mod_small, Hx.
Qed.

Lemma word_bytes_zlen l : zlen (word_bytes l) = 4 * zlen l.
Proof. unfold word_bytes. induction l as [| x l IH]; [done |]. cbn [map concat]. rewrite zlen_app, zlen_cons, IH, zlen_le_bytes. lia. Qed.

(** ** [unicode_normalize] *)
Section normalize.
Context `{Realloc is_byte}.

(** Text of code points, short enough for [int] lengths. *)
Definition short_text (l : list Z) : Prop := Forall code_point l /\ zlen l < 2 ^ 26.

Definition out_of_memory : Prop := exists b n, realloc_func b n = None.

Lemma put_all_error chunks : forall s s', dbuf_ok s -> Forall (fun d => bytes_ok d) chunks -> size s + zlen (concat chunks) < 2 ^ 64 ->
  dbuf_put_all s chunks = Ret s' -> error s' = true -> error s = true \/ out_of_memory.
Proof.
  induction chunks as [| d chunks IH]; intros s s' Hok Hc Hw E He; cbn [dbuf_put_all] in E; [injection E as ->; by left |].
  apply list.Forall_cons in Hc as [Hd Hc]. cbn [concat] in Hw. rewrite zlen_app in Hw. pose proof (zlen_nonneg (concat chunks)).
  destruct (dbuf_put_spec s d Hok Hd) as (s1 & r & Ep & Hok1 & Hr); [lia |]. rewrite Ep in E. cbn [mbind res_bind] in E.
  pose proof (zlen_nonneg d). pose proof (dbuf_data_zlen s Hok) as E0. pose proof (dbuf_data_zlen s1 Hok1) as E1.
  destruct (IH s1 s' Hok1 Hc) as [He1 | ?]; [| done | done | | by right].
  { destruct Hr as [(_ & Ed & _) | (_ & Ed & _)]; rewrite Ed, ?zlen_app in E1; lia. }
  destruct Hr as [(_ & _ & Es) | (_ & _ & _ & [? | (n & Hn)])]; [left; congruence | by left | right; by exists (buf s), n].
Qed.

Lemma code_points_words l : Forall code_point l -> Forall (fun x => 0 <= x < 2 ^ 32) l.
Proof. intros Hl. eapply list.Forall_impl; [exact Hl |]. unfold code_point. intros. lia. Qed.

Lemma decompose_code_points k l : Forall code_point l -> Forall code_point (decompose k l).
Proof.
  intros Hl. unfold decompose. induction Hl as [| c l Hc Hl IH]; [constructor |]. cbn [map concat]. apply list.Forall_app. split; [| done].
  exact (full_decomposition_code_points k c Hc).
Qed.

(** The buffer after [to_nfd_rec]: the decomposed text, if memory did not run out. *)
Lemma to_nfd_rec_text k src s : short_text src -> dbuf_ok s -> size s = 0 -> exists s', to_nfd_rec DECOMP_DEPTH k s src = Ret s' /\
  dbuf_ok s' /\ (error s' = true -> error s = true \/ out_of_memory) /\
  (error s' = false -> size s' = 4 * zlen (decompose k src) /\ words (length (decompose k src)) (buf s') = decompose k src).
Proof.
  intros [Hsrc Hlen] Hok Hsz. rewrite to_nfd_rec_spec by (apply list.Forall_true; intros; apply decomp_nests).
  rewrite full_at_depth. set (d := decompose k src).
  assert (zlen d < 18 * 2 ^ 26) as Hd by (pose proof (decompose_zlen k src); unfold d; lia).
  assert (Forall (fun b => bytes_ok b) (map (le_bytes 4) d)) as Hb by (apply List.Forall_map, list.Forall_true; intros; apply le_bytes_ok).
  assert (size s + zlen (concat (map (le_bytes 4) d)) < 2 ^ 64) as Hw.
  { change (concat (map (le_bytes 4) d)) with (word_bytes d). rewrite word_bytes_zlen. lia. }
  destruct (dbuf_put_all_spec _ s Hok Hb Hw) as (s' & E & Hok' & _ & Hdata). exists s'. split_and!; [done | done | |].
  - by apply (put_all_error _ s s' Hok Hb Hw E).
  - intros He. specialize (Hdata He). change (concat (map (le_bytes 4) d)) with (word_bytes d) in Hdata.
    assert (dbuf_data s = []) as E0 by (unfold dbuf_data; by rewrite Hsz). rewrite E0 in Hdata. cbn [app] in Hdata.
    pose proof (dbuf_data_zlen s' Hok') as El. rewrite Hdata, word_bytes_zlen in El. split; [done |].
    rewrite <- (take_drop (Z.to_nat (size s')) (buf s')). fold (dbuf_data s'). rewrite Hdata. apply words_of_bytes, code_points_words.
    by apply decompose_code_points.
Qed.

(** The text in the order of Unicode, from the decomposition of [src]. *)
Definition canonical (k : bool) (src d : list Z) : Prop := reorders (decompose k src) d /\ in_order d.

Lemma canonical_canon k src d : canonical k src d -> d = canon (decompose k src).
Proof. intros [Hr Ho]. by apply ordered_canon. Qed.

Lemma canonical_code_points k src d : Forall code_point src -> canonical k src d -> Forall code_point d.
Proof. intros Hs [Hr%reorders_perm _]. rewrite <- Hr. by apply decompose_code_points. Qed.

Lemma canonical_zlen k src d : canonical k src d -> zlen d = zlen (decompose k src).
Proof. intros [Hr%reorders_perm%Permutation_length _]. unfold zlen. lia. Qed.

(** The form [n_type] of [src]. *)
Definition normal_form (n_type : UnicodeNormalizationEnum) (d : list Z) : list Z := if is_decomp_type n_type then d else compose d.

(** U+11A7 is not composed: [compose_pair] would take it for a trailing consonant. *)
Definition no_11A7 (n_type : UnicodeNormalizationEnum) (src : list Z) : Prop :=
  is_decomp_type n_type = true \/ 0x11a7 ∉ decompose (is_compat_type n_type) src.

Lemma normalize_spec src n_type : short_text src -> no_11A7 n_type src ->
  (unicode_normalize src n_type = Ret None /\ out_of_memory) \/
  exists d, canonical (is_compat_type n_type) src d /\ unicode_normalize src n_type = Ret (Some (normal_form n_type d)).
Proof.
  intros [Hsrc Hlen] H7. unfold unicode_normalize. pose proof (zlen_nonneg src). destruct dbuf_init_ok as [Hok0 _].
  rewrite wrap_small by lia. destruct (dbuf_realloc_spec dbuf_init2 (4 * zlen src) Hok0) as (s & r & -> & Hok & Hsz & _ & _ & Hr); [lia |].
  destruct Hr as [(-> & Hroom & He) | (-> & _ & _ & [Hf | (n & Hn)])]; cbn [negb Z.eqb]; [| discriminate Hf | left; split; [done | by exists [], n]].
  destruct (is_nfc n_type && forallb (fun c => c <? 256) src) eqn:El.
  { apply andb_true_iff in El as [Hnfc Hl]. right. destruct n_type; try discriminate. exists (decompose false src).
    assert (Forall (fun c => 0 <= c < 256) src) as H256.
    { apply list.Forall_forall. intros x Hx. rewrite list.Forall_forall in Hsrc. specialize (Hsrc x Hx). apply list_elem_of_In in Hx.
      pose proof (proj1 (forallb_forall _ _) Hl x Hx) as Hb. cbv beta in Hb. unfold code_point in Hsrc. lia. }
    split; [split; [apply rtc_refl | by apply latin1_in_order] |]. unfold normal_form. cbn [is_decomp_type].
    rewrite compose_foldl, (compose_latin1 src [] H256) by (by left). cbn [app].
    rewrite zwrite_in; [| lia | rewrite word_bytes_zlen, (ok_alloc s Hok); lia]. cbn [of_opt mbind res_bind take Z.to_nat].
    change (take (Z.to_nat 0) (buf s)) with (@nil Z). cbn [app]. by rewrite words_of_bytes by (by apply code_points_words). }
  set (k := is_compat_type n_type). destruct (to_nfd_rec_text k src s (conj Hsrc Hlen) Hok Hsz) as (s' & -> & Hok' & Herr & Htext).
  cbn [mbind res_bind]. unfold dbuf_error. destruct (error s') eqn:Ee; [left; split; [done |] |].
  { destruct (Herr eq_refl) as [? | ?]; [rewrite He in *; discriminate | done]. }
  destruct (Htext eq_refl) as [Esz Ew]. set (d := decompose k src) in *. right.
  assert (0 <= zlen d < 2 ^ 31) as Hd by (pose proof (decompose_zlen k src); pose proof (zlen_nonneg d); unfold d in *; lia).
  rewrite Esz, Z.mul_comm, Z.div_mul, swrap_small by lia. rewrite to_nat_zlen, Ew.
  assert (Forall code_point d) as Hcp by (by apply decompose_code_points).
  destruct (sort_cc_spec d (code_points_nonneg d Hcp)) as (l & -> & Hl & Ho). cbn [mbind res_bind]. exists l. split; [done |].
  assert (zlen l = zlen d) as Ez by (apply (canonical_zlen k src l); done). unfold normal_form.
  assert (take (length d) l = l) as Et by (apply take_ge; unfold zlen in Ez; lia).
  unfold no_11A7 in H7. fold k in H7.
  destruct (is_decomp_type n_type); [by rewrite orb_true_r, Et |]. destruct H7 as [? | H7]; [done |]. fold d in H7. rewrite orb_false_r. destruct (Z.leb_spec (zlen d) 1).
  - rewrite Et. by destruct l as [| x [| y l]]; [..| zlen_lia].
  - destruct l as [| x l]; [change (zlen (@nil Z)) with 0 in Ez; lia |].
    assert (Forall code_point (x :: l)) as Hcl by (by apply (canonical_code_points k src)).
    assert (0x11a7 ∉ l) as H7l.
    { intros Hin. apply H7. rewrite (reorders_perm _ _ Hl). by right. }
    destruct (compose_loop_spec l (length (x :: l)) [x] [] (zlen d)) as (j & E); [done | done | done | cbn; lia | done |].
    cbn [app] in E. change (zlen [x]) with 1 in E. rewrite E. cbn [mbind res_bind]. rewrite to_nat_zlen, take_app_length. done.
Qed.

(** C36: on text without U+11A7 (a vowel; needed for NFC and NFKC only, and in
    the decomposition of the text) and of fewer than 2^26 characters
    [unicode_normalize] is the algorithm of Unicode: it decomposes every
    character fully, exchanges adjacent characters until none are out of
    canonical order (D109) and, for NFC and NFKC, combines each character with
    the last starter before it unless it is blocked (D117).  It fails only when
    the allocator refuses a request; every table access and every access to the
    buffer is in bounds. *)
Theorem normalize_correct (src : list Z) (n_type : UnicodeNormalizationEnum) :
  short_text src -> no_11A7 n_type src ->
  (unicode_normalize src n_type = Ret None /\ out_of_memory) \/
  exists d, canonical (is_compat_type n_type) src d /\ unicode_normalize src n_type = Ret (Some (normal_form n_type d)).
Proof. apply normalize_spec. Qed.

Lemma canonical_leaves k src d : canonical k src d -> Forall (is_leaf k) d.
Proof. intros [Hr%reorders_perm _]. rewrite <- Hr. apply decompose_leaves. Qed.

(** A normal form has the decomposition of the text. *)
Lemma normal_form_canon n_type k src d : Forall code_point src -> canonical k src d ->
  canon (decompose k (normal_form n_type d)) = canon (decompose k src).
Proof.
  intros Hs Hd. pose proof (canonical_leaves k src d Hd) as Hl. pose proof (canonical_code_points k src d Hs Hd) as Hcp.
  pose proof (canonical_canon k src d Hd) as Ec. destruct Hd as [Hr Ho].
  assert (canon (decompose k d) = canon (decompose k src)) as E by (rewrite (decompose_id k d Hl); by rewrite <- (canon_reorders _ _ Hr)).
  unfold normal_form. destruct (is_decomp_type n_type); [done |]. rewrite compose_foldl, (compose_equiv k d []); [done | done | done | constructor | done].
Qed.

(** C37: normalization preserves canonical equivalence: decomposing the normal form
    of a text gives what decomposing the text gives, so that decomposition is
    idempotent and composition loses nothing.  For NFC and NFKC the text must
    decompose without U+11A7, which [compose_pair] takes for a trailing consonant
    and which is lost after a syllable. *)
Theorem normalize_equivalent (src out o1 o2 : list Z) (t u : UnicodeNormalizationEnum) : short_text src -> short_text out ->
  no_11A7 t src -> is_compat_type u = is_compat_type t -> is_decomp_type u = true ->
  unicode_normalize src t = Ret (Some out) -> unicode_normalize out u = Ret (Some o1) -> unicode_normalize src u = Ret (Some o2) ->
  o1 = o2.
Proof.
  intros Hs Ho H7 Hk Hu E E1 E2.
  destruct (normalize_spec src t Hs H7) as [[Ex _] | (d & Hd & Ed)]; [congruence |]. rewrite E in Ed. injection Ed as ->.
  destruct (normalize_spec _ u Ho (or_introl Hu)) as [[Ex _] | (d1 & Hd1 & Ed1)]; [congruence |]. rewrite E1 in Ed1. injection Ed1 as ->.
  destruct (normalize_spec src u Hs (or_introl Hu)) as [[Ex _] | (d2 & Hd2 & Ed2)]; [congruence |]. rewrite E2 in Ed2. injection Ed2 as ->.
  rewrite Hk in Hd1, Hd2. unfold normal_form. rewrite Hu.
  rewrite (canonical_canon _ _ _ Hd1), (canonical_canon _ _ _ Hd2). apply normal_form_canon; [apply Hs | done].
Qed.
End normalize.

(** ** Examples *)
Lemma sample_text : @short_text [0x1E69; 0x41; 0xAC01; 0x73; 0x307; 0x323].
Proof. unfold short_text, code_point. split; [repeat constructor; lia | vm_compute; reflexivity]. Qed.

Lemma sample_no_11A7 : no_11A7 UNICODE_NFC [0x1E69; 0x41; 0xAC01; 0x73; 0x307; 0x323].
Proof.
  right. intros Hin.
  assert (bool_decide (0x11a7 ∈ decompose false [0x1E69; 0x41; 0xAC01; 0x73; 0x307; 0x323]) = false) as Hb by (vm_compute; reflexivity).
  exact (bool_decide_eq_false_1 _ Hb Hin).
Qed.

Lemma normalize_correct_witness :
  (@unicode_normalize (limited_bytes 4096) [0x1E69; 0x41; 0xAC01; 0x73; 0x307; 0x323] UNICODE_NFC = Ret None /\
     @out_of_memory (limited_bytes 4096)) \/
  exists d, canonical false [0x1E69; 0x41; 0xAC01; 0x73; 0x307; 0x323] d /\
    @unicode_normalize (limited_bytes 4096) [0x1E69; 0x41; 0xAC01; 0x73; 0x307; 0x323] UNICODE_NFC = Ret (Some (normal_form UNICODE_NFC d)).
Proof. apply (@normalize_correct (limited_bytes 4096) [0x1E69; 0x41; 0xAC01; 0x73; 0x307; 0x323] UNICODE_NFC);
    [exact sample_text | exact sample_no_11A7]. Defined.

(** The text and its NFC have the NFD with the marks in order. *)
Lemma normalize_equivalent_witness :
  @unicode_normalize (limited_bytes 4096) [0x1E69; 0x41; 0xAC01; 0x73; 0x307; 0x323] UNICODE_NFC =
    Ret (Some [0x1E69; 0x41; 0xAC01; 0x1E69]) /\
  [0x73; 0x323; 0x307; 0x41; 0x1100; 0x1161; 0x11A8; 0x73; 0x323; 0x307] = [0x73; 0x323; 0x307; 0x41; 0x1100; 0x1161; 0x11A8; 0x73; 0x323; 0x307].
Proof.
  assert (@unicode_normalize (limited_bytes 4096) [0x1E69; 0x41; 0xAC01; 0x73; 0x307; 0x323] UNICODE_NFC =
    Ret (Some [0x1E69; 0x41; 0xAC01; 0x1E69])) as E by (vm_compute; reflexivity). split; [exact E |].
  apply (@normalize_equivalent (limited_bytes 4096) [0x1E69; 0x41; 0xAC01; 0x73; 0x307; 0x323] [0x1E69; 0x41; 0xAC01; 0x1E69] _ _ UNICODE_NFC UNICODE_NFD).
  - exact sample_text.
  - unfold short_text, code_point. split; [repeat constructor; lia | vm_compute; reflexivity].
  - exact sample_no_11A7.
  - reflexivity.
  - reflexivity.
  - exact E.
  - vm_compute. reflexivity.
  - vm_compute. reflexivity.
Defined.

(** U+11A7 is a vowel, but [compose_pair] takes it for a trailing consonant of
    index 0: after a syllable it is lost, where Unicode keeps it. *)
Lemma composition_loses_11A7 :
  compose [0x1100; 0x1161; 0x11A7] = [0xAC00; 0x11A7] /\
  @unicode_normalize (limited_bytes 4096) [0xAC00; 0x11A7] UNICODE_NFC = Ret (Some [0xAC00]) /\
  @unicode_normalize (limited_bytes 4096) [0xAC00; 0x11A7] UNICODE_NFD = Ret (Some [0x1100; 0x1161; 0x11A7]).
Proof. split_and!; vm_compute; reflexivity. Qed.
