(* ===== verification/RegexOp.v ===== *)
(** * libregexp-opcode.h, libregexp.c: the regular expression bytecode *)
From Stdlib Require Import ZArith Lia Bool.
From stdpp Require Import base numbers list.
From S2P Require Import Prelude Cutils.

Inductive REOPCodeEnum : Type :=
| REOP_invalid
| REOP_char | REOP_char32 | REOP_dot | REOP_any
| REOP_line_start | REOP_line_end
| REOP_goto | REOP_split_goto_first | REOP_split_next_first
| REOP_match
| REOP_save_start | REOP_save_end | REOP_save_reset
| REOP_loop | REOP_push_i32 | REOP_drop
| REOP_word_boundary | REOP_not_word_boundary
| REOP_back_reference | REOP_backward_back_reference
| REOP_range | REOP_range32
| REOP_lookahead | REOP_negative_lookahead
| REOP_push_char_pos | REOP_bne_char_pos
| REOP_prev
| REOP_simple_greedy_quant.

#[export] Instance REOPCodeEnum_eq_dec : EqDecision REOPCodeEnum.
Proof. solve_decision. Defined.

(** The opcodes in the order of the header: the position is the byte. *)
Definition reop_list : list (REOPCodeEnum * Z) := [
  (REOP_invalid, 1);
  (REOP_char, 3); (REOP_char32, 5); (REOP_dot, 1); (REOP_any, 1);
  (REOP_line_start, 1); (REOP_line_end, 1);
  (REOP_goto, 5); (REOP_split_goto_first, 5); (REOP_split_next_first, 5);
  (REOP_match, 1);
  (REOP_save_start, 2); (REOP_save_end, 2); (REOP_save_reset, 3);
  (REOP_loop, 5); (REOP_push_i32, 5); (REOP_drop, 1);
  (REOP_word_boundary, 1); (REOP_not_word_boundary, 1);
  (REOP_back_reference, 2); (REOP_backward_back_reference, 2);
  (REOP_range, 3); (REOP_range32, 3);
  (REOP_lookahead, 5); (REOP_negative_lookahead, 5);
  (REOP_push_char_pos, 1); (REOP_bne_char_pos, 5);
  (REOP_prev, 1);
  (REOP_simple_greedy_quant, 17)].

Definition REOP_COUNT : Z := 29.

(** The opcode of a byte; [None] from [REOP_COUNT] on. *)
Definition reop_of (b : Z) : option REOPCodeEnum := fst <$> znth reop_list b.
(** [reopcode_info[opcode].size] *)
Definition reopcode_info (b : Z) : option Z := snd <$> znth reop_list b.
(** The byte of an opcode. *)
Definition reop_byte (op : REOPCodeEnum) : Z :=
  match list_find (fun p => p.1 = op) reop_list with
  | Some (i, _) => Z.of_nat i
  | None => 0
  end.

Definition RE_HEADER_FLAGS : Z := 0.
Definition RE_HEADER_CAPTURE_COUNT : Z := 1.
Definition RE_HEADER_STACK_SIZE : Z := 2.
Definition RE_HEADER_LEN : Z := 7.

Definition CAPTURE_COUNT_MAX : Z := 255.
Definition STACK_SIZE_MAX : Z := 255.

Definition LRE_FLAG_GLOBAL : Z := 1.
Definition LRE_FLAG_IGNORECASE : Z := 2.
Definition LRE_FLAG_MULTILINE : Z := 4.
Definition LRE_FLAG_DOTALL : Z := 8.
Definition LRE_FLAG_UTF16 : Z := 16.
Definition LRE_FLAG_STICKY : Z := 32.
Definition LRE_FLAG_NAMED_GROUPS : Z := 128.

Definition CP_LS : Z := 0x2028.
Definition CP_PS : Z := 0x2029.

Lemma reop_byte_of op : reop_of (reop_byte op) = Some op.
Proof. destruct op; reflexivity. Qed.

(** The ASCII character of a digit test. *)
Definition is_digit (c : Z) : bool := (48 <=? c) && (c <=? 57).

Definition is_line_terminator (c : Z) : bool :=
  (c =? 10) || (c =? 13) || (c =? CP_LS) || (c =? CP_PS).

Definition is_word_char (c : Z) : bool :=
  ((48 <=? c) && (c <=? 57)) || ((97 <=? c) && (c <=? 122)) ||
  ((65 <=? c) && (c <=? 90)) || (c =? 95).
