(* ===== verification/RegexExec.v ===== *)
(** * libregexp.c: the backtracking executor ([lre_exec_backtrack], [lre_exec])

    Pointers are offsets: [pc] is an offset in the bytecode after the header
    (the list [bc]), [cptr] counts code units from [cbuf] (8 or 16 bits wide).
    A [NULL] capture is [None].  The heap block [state_stack] is the list of
    its frames, top first, together with its capacity [state_stack_size].
    Every read and write goes through a checked access; an access outside an
    object, a failed [assert] and [abort()] are [Fault]. *)
From Stdlib Require Import ZArith Lia Bool.
From stdpp Require Import base numbers list.
From S2P Require Import Prelude Cutils CaseConv RegexOp.

Inductive REExecStateEnum : Type :=
| RE_EXEC_STATE_SPLIT
| RE_EXEC_STATE_LOOKAHEAD
| RE_EXEC_STATE_NEGATIVE_LOOKAHEAD
| RE_EXEC_STATE_GREEDY_QUANT.

(** A frame; [buf] holds the captures, then the stack cells. *)
Record REExecState : Type := mkState {
  rs_type : REExecStateEnum;
  rs_stack_len : Z;
  rs_count : Z;
  rs_cptr : Z;
  rs_pc : Z;
  rs_capture : list (option Z);
  rs_stack : list Z
}.

(** The constant part of [REExecContext]. [cbuf_addr] is the numerical value of
    the pointer [cbuf], which [REOP_push_char_pos] exposes; [state_realloc n]
    says whether [lre_realloc] grants a block of [n] bytes. *)
Record REExecContext : Type := mkContext {
  bc : list Z;
  cbuf : list Z;
  cbuf_addr : Z;
  cbuf_type : Z;
  capture_count : Z;
  stack_size_max : Z;
  multi_line : bool;
  ignore_case : bool;
  is_utf16 : bool;
  state_realloc : Z -> bool
}.

(** The mutable part, and the local variables of [lre_exec_backtrack]. *)
Record machine : Type := mkMachine {
  capture : list (option Z);
  stack : list Z;
  stack_len : Z;
  pc : Z;
  cptr : Z;
  state_stack : list REExecState;
  state_stack_size : Z
}.

(** The [intptr_t] result. *)
Inductive result : Type :=
| RET_ERROR           (** -1 *)
| RET_NO              (** 0 *)
| RET_YES             (** 1 *)
| RET_PTR (cptr : Z). (** [(intptr_t)cptr], when [no_recurse] is set *)

(** How an opcode ends: with the next one, or by returning. *)
Inductive outcome : Type :=
| Next (m : machine)
| Return (m : machine) (r : result).

Definition set_pc (m : machine) (p : Z) : machine :=
  mkMachine (capture m) (stack m) (stack_len m) p (cptr m) (state_stack m) (state_stack_size m).
Definition set_cptr (m : machine) (p : Z) : machine :=
  mkMachine (capture m) (stack m) (stack_len m) (pc m) p (state_stack m) (state_stack_size m).
Definition set_capture (m : machine) (c : list (option Z)) : machine :=
  mkMachine c (stack m) (stack_len m) (pc m) (cptr m) (state_stack m) (state_stack_size m).
Definition set_stack (m : machine) (st : list Z) (n : Z) : machine :=
  mkMachine (capture m) st n (pc m) (cptr m) (state_stack m) (state_stack_size m).
Definition set_states (m : machine) (fs : list REExecState) (size : Z) : machine :=
  mkMachine (capture m) (stack m) (stack_len m) (pc m) (cptr m) fs size.

Section exec.
Variable s : REExecContext.

Definition cbuf_end : Z := zlen (cbuf s).
(** The code unit at [p]. *)
Definition cunit (p : Z) : res Z := of_opt (znth (cbuf s) p).
(** [(uintptr_t)cptr] *)
Definition ptr_value (p : Z) : Z :=
  u64 (cbuf_addr s + (if cbuf_type s =? 0 then p else 2 * p)).

Definition is_hi_surrogate (c : Z) : bool := (0xd800 <=? c) && (c <? 0xdc00).
Definition is_lo_surrogate (c : Z) : bool := (0xdc00 <=? c) && (c <? 0xe000).
Definition from_surrogate (c c1 : Z) : Z :=
  Z.lor (Z.shiftl (Z.land c 0x3ff) 10) (Z.land c1 0x3ff) + 0x10000.

(** ** The character macros: the character and the new position *)
Definition GET_CHAR (p p_end : Z) : res (Z * Z) :=
  c ← cunit p;
  let p := p + 1 in
  if is_hi_surrogate c && (cbuf_type s =? 2) && (p <? p_end) then
    c1 ← cunit p;
    if is_lo_surrogate c1 then Ret (from_surrogate c c1, p + 1) else Ret (c, p)
  else Ret (c, p).

Definition PEEK_CHAR (p p_end : Z) : res Z :=
  c ← cunit p;
  if is_hi_surrogate c && (cbuf_type s =? 2) && (p + 1 <? p_end) then
    c1 ← cunit (p + 1);
    if is_lo_surrogate c1 then Ret (from_surrogate c c1) else Ret c
  else Ret c.

Definition PEEK_PREV_CHAR (p p_start : Z) : res Z :=
  c ← cunit (p - 1);
  if is_lo_surrogate c && (cbuf_type s =? 2) && (p_start <=? p - 2) then
    c1 ← cunit (p - 2);
    if is_hi_surrogate c1 then Ret (from_surrogate c1 c) else Ret c
  else Ret c.

Definition GET_PREV_CHAR (p p_start : Z) : res (Z * Z) :=
  let p := p - 1 in
  c ← cunit p;
  if is_lo_surrogate c && (cbuf_type s =? 2) && (p_start <? p) then
    c1 ← cunit (p - 1);
    if is_hi_surrogate c1 then Ret (from_surrogate c1 c, p - 1) else Ret (c, p)
  else Ret (c, p).

(** Forming a pointer before the buffer is undefined behaviour as well. *)
Definition PREV_CHAR (p p_start : Z) : res Z :=
  let p := p - 1 in
  _ ← assert_ (0 <=? p);
  if cbuf_type s =? 2 then
    c ← cunit p;
    if is_lo_surrogate c && (p_start <? p) then
      c ← cunit (p - 1);
      if is_hi_surrogate c then Ret (p - 1) else Ret p
    else Ret p
  else Ret p.

(** [for(i = 0; i < char_count; i++) PREV_CHAR(cptr, s->cbuf);] *)
Fixpoint prev_chars (n : nat) (p : Z) : res Z :=
  match n with
  | O => Ret p
  | S n => p ← PREV_CHAR p 0; prev_chars n p
  end.

(** ** The backtracking stack *)
Definition state_size : Z := 32 + capture_count s * 16 + stack_size_max s * 8.

(** 0, or -1 if the stack cannot grow *)
Definition push_state (m : machine) (pc1 cptr1 : Z) (type : REExecStateEnum) (count : Z)
  : res (machine * Z) :=
  let len := zlen (state_stack m) in
  let grown :=
    if state_stack_size m <? len + 1 then
      let new_size := Z.quot (u64 (state_stack_size m * 3)) 2 in
      let new_size := if new_size <? 8 then 8 else new_size in
      if state_realloc s (u64 (new_size * state_size)) then Some new_size else None
    else Some (state_stack_size m) in
  match grown with
  | None => Ret (m, -1)
  | Some size =>
      (* the frame lies inside the block *)
      _ ← assert_ ((len + 1) * state_size <=? u64 (size * state_size));
      caps ← of_opt (zread (capture m) 0 (2 * capture_count s));
      cells ← of_opt (zread (stack m) 0 (stack_len m));
      _ ← assert_ (stack_len m <=? stack_size_max s);
      let rs := mkState type (u8 (stack_len m)) count cptr1 pc1 caps cells in
      Ret (set_states m (rs :: state_stack m) size, 0)
  end.

(** [pop_state1]: continue at the frame with the current captures. *)
Definition pop_state1 (m : machine) (rs : REExecState) (rest : list REExecState) : res outcome :=
  cells ← of_opt (zread (rs_stack rs) 0 (rs_stack_len rs));
  st ← of_opt (zwrite (stack m) 0 cells);
  Ret (Next (mkMachine (capture m) st (rs_stack_len rs) (rs_pc rs) (rs_cptr rs)
               rest (state_stack_size m))).

(** [pop_state]: restore the captures as well. *)
Definition pop_state (m : machine) (rs : REExecState) (rest : list REExecState) : res outcome :=
  caps ← of_opt (zwrite (capture m) 0 (rs_capture rs));
  pop_state1 (set_capture m caps) rs rest.

(** A failure in a greedy quantifier: one iteration less. *)
Definition pop_greedy (m : machine) (rs : REExecState) (rest : list REExecState) : res outcome :=
  caps ← of_opt (zwrite (capture m) 0 (rs_capture rs));
  cells ← of_opt (zread (rs_stack rs) 0 (rs_stack_len rs));
  st ← of_opt (zwrite (stack m) 0 cells);
  (* go backward *)
  char_count ← of_opt (get_u32 (bc s) (rs_pc rs + 12));
  cptr1 ← prev_chars (Z.to_nat char_count) (rs_cptr rs);
  off ← of_opt (get_u32 (bc s) (rs_pc rs));
  let pc1 := rs_pc rs + 16 + i32 off in
  let count := u64 (rs_count rs - 1) in
  let rs := mkState (rs_type rs) (rs_stack_len rs) count cptr1 (rs_pc rs) (rs_capture rs) (rs_stack rs) in
  Ret (Next (mkMachine caps st (rs_stack_len rs) pc1 cptr1
               (if count =? 0 then rest else rs :: rest) (state_stack_size m))).

(** The [recurse] loop: unwind [frames] with the result [ret] so far. *)
Fixpoint recurse (m : machine) (frames : list REExecState) (ret : bool) : res outcome :=
  match frames with
  | [] => Ret (Return (set_states m [] (state_stack_size m)) (if ret then RET_YES else RET_NO))
  | rs :: rest =>
      match rs_type rs with
      | RE_EXEC_STATE_SPLIT =>
          if negb ret then pop_state m rs rest else recurse m rest ret
      | RE_EXEC_STATE_GREEDY_QUANT =>
          if negb ret then pop_greedy m rs rest else recurse m rest ret
      | RE_EXEC_STATE_LOOKAHEAD =>
          (* keep the capture in case of positive lookahead *)
          if ret then pop_state1 m rs rest else recurse m rest false
      | RE_EXEC_STATE_NEGATIVE_LOOKAHEAD =>
          if negb ret then pop_state m rs rest else recurse m rest false
      end
  end.

Definition no_match (m : machine) (no_recurse : bool) : res outcome :=
  if no_recurse then Ret (Return m RET_NO) else recurse m (state_stack m) false.

Definition op_match (m : machine) (no_recurse : bool) : res outcome :=
  if no_recurse then Ret (Return m (RET_PTR (cptr m))) else recurse m (state_stack m) true.

(** [if (s->ignore_case) c = lre_canonicalize(c, s->is_utf16);] *)
Definition canonicalize (c : Z) : res Z :=
  if ignore_case s then lre_canonicalize c (is_utf16 s) else Ret c.

(** ** One definition per group of opcodes; [m]'s [pc] is after the opcode *)

(** [test_char]: [val] against the next character *)
Definition test_char (m : machine) (no_recurse : bool) (val : Z) : res outcome :=
  if cbuf_end <=? cptr m then no_match m no_recurse
  else
    '(c, p) ← GET_CHAR (cptr m) cbuf_end;
    c ← canonicalize c;
    if negb (val =? c) then no_match (set_cptr m p) no_recurse
    else Ret (Next (set_cptr m p)).

Definition op_char (m : machine) (no_recurse : bool) : res outcome :=
  val ← of_opt (get_u16 (bc s) (pc m));
  test_char (set_pc m (pc m + 2)) no_recurse val.

Definition op_char32 (m : machine) (no_recurse : bool) : res outcome :=
  val ← of_opt (get_u32 (bc s) (pc m));
  test_char (set_pc m (pc m + 4)) no_recurse val.

Definition op_split (m : machine) (next_first : bool) : res outcome :=
  val ← of_opt (get_u32 (bc s) (pc m));
  let pc0 := pc m + 4 in
  let '(pc_now, pc1) :=
    if next_first then (pc0, pc0 + i32 val) else (pc0 + i32 val, pc0) in
  '(m, ret) ← push_state (set_pc m pc_now) pc1 (cptr m) RE_EXEC_STATE_SPLIT 0;
  if ret <? 0 then Ret (Return m RET_ERROR) else Ret (Next m).

Definition op_lookahead (m : machine) (negative : bool) : res outcome :=
  val ← of_opt (get_u32 (bc s) (pc m));
  let pc0 := pc m + 4 in
  '(m, ret) ← push_state (set_pc m pc0) (pc0 + i32 val) (cptr m)
    (if negative then RE_EXEC_STATE_NEGATIVE_LOOKAHEAD else RE_EXEC_STATE_LOOKAHEAD) 0;
  if ret <? 0 then Ret (Return m RET_ERROR) else Ret (Next m).

Definition op_goto (m : machine) : res outcome :=
  val ← of_opt (get_u32 (bc s) (pc m));
  Ret (Next (set_pc m (pc m + (4 + i32 val)))).

Definition op_line_start (m : machine) (no_recurse : bool) : res outcome :=
  if cptr m =? 0 then Ret (Next m)
  else if negb (multi_line s) then no_match m no_recurse
  else
    c ← PEEK_PREV_CHAR (cptr m) 0;
    if negb (is_line_terminator c) then no_match m no_recurse else Ret (Next m).

Definition op_line_end (m : machine) (no_recurse : bool) : res outcome :=
  if cptr m =? cbuf_end then Ret (Next m)
  else if negb (multi_line s) then no_match m no_recurse
  else
    c ← PEEK_CHAR (cptr m) cbuf_end;
    if negb (is_line_terminator c) then no_match m no_recurse else Ret (Next m).

Definition op_dot (m : machine) (no_recurse : bool) : res outcome :=
  if cptr m =? cbuf_end then no_match m no_recurse
  else
    '(c, p) ← GET_CHAR (cptr m) cbuf_end;
    if is_line_terminator c then no_match (set_cptr m p) no_recurse
    else Ret (Next (set_cptr m p)).

Definition op_any (m : machine) (no_recurse : bool) : res outcome :=
  if cptr m =? cbuf_end then no_match m no_recurse
  else
    '(_, p) ← GET_CHAR (cptr m) cbuf_end;
    Ret (Next (set_cptr m p)).

Definition op_save (m : machine) (is_end : bool) : res outcome :=
  val ← of_opt (get_u8 (bc s) (pc m));
  _ ← assert_ (val <? capture_count s);
  caps ← of_opt (zupd (capture m) (2 * val + (if is_end then 1 else 0)) (Some (cptr m)));
  Ret (Next (set_capture (set_pc m (pc m + 1)) caps)).

(** [while (val <= val2) { ...; val++; }] *)
Fixpoint reset_captures (n : nat) (caps : list (option Z)) (val : Z) : res (list (option Z)) :=
  match n with
  | O => Ret caps
  | S n =>
      caps ← of_opt (zupd caps (2 * val) None);
      caps ← of_opt (zupd caps (2 * val + 1) None);
      reset_captures n caps (val + 1)
  end.

Definition op_save_reset (m : machine) : res outcome :=
  val ← of_opt (get_u8 (bc s) (pc m));
  val2 ← of_opt (get_u8 (bc s) (pc m + 1));
  _ ← assert_ (val2 <? capture_count s);
  caps ← reset_captures (Z.to_nat (val2 + 1 - val)) (capture m) val;
  Ret (Next (set_capture (set_pc m (pc m + 2)) caps)).

Definition op_push_i32 (m : machine) : res outcome :=
  val ← of_opt (get_u32 (bc s) (pc m));
  st ← of_opt (zupd (stack m) (stack_len m) val);
  Ret (Next (set_stack (set_pc m (pc m + 4)) st (stack_len m + 1))).

Definition op_drop (m : machine) : res outcome :=
  Ret (Next (set_stack m (stack m) (stack_len m - 1))).

Definition op_loop (m : machine) : res outcome :=
  val ← of_opt (get_u32 (bc s) (pc m));
  let pc0 := pc m + 4 in
  x ← of_opt (znth (stack m) (stack_len m - 1));
  let x := u64 (x - 1) in
  st ← of_opt (zupd (stack m) (stack_len m - 1) x);
  let m := set_stack m st (stack_len m) in
  Ret (Next (set_pc m (if negb (x =? 0) then pc0 + i32 val else pc0))).

Definition op_push_char_pos (m : machine) : res outcome :=
  st ← of_opt (zupd (stack m) (stack_len m) (ptr_value (cptr m)));
  Ret (Next (set_stack m st (stack_len m + 1))).

Definition op_bne_char_pos (m : machine) : res outcome :=
  val ← of_opt (get_u32 (bc s) (pc m));
  let pc0 := pc m + 4 in
  let n := stack_len m - 1 in
  x ← of_opt (znth (stack m) n);
  let m := set_stack m (stack m) n in
  Ret (Next (set_pc m (if negb (x =? ptr_value (cptr m)) then pc0 + i32 val else pc0))).

Definition op_word_boundary (m : machine) (no_recurse negated : bool) : res outcome :=
  (* char before *)
  v1 ← (if cptr m =? 0 then Ret false
        else c ← PEEK_PREV_CHAR (cptr m) 0; Ret (is_word_char c));
  (* current char *)
  v2 ← (if cbuf_end <=? cptr m then Ret false
        else c ← PEEK_CHAR (cptr m) cbuf_end; Ret (is_word_char c));
  if xorb (xorb v1 v2) (negb negated) then no_match m no_recurse else Ret (Next m).

(** The comparison loops of a back reference: [None] if the input differs,
    otherwise the position after it. *)
Fixpoint backref_forward (fuel : nat) (p1 p1_end p : Z) : res (option Z) :=
  match fuel with
  | O => NoFuel
  | S fuel =>
      if p1 <? p1_end then
        if cbuf_end <=? p then Ret None
        else
          '(c1, p1) ← GET_CHAR p1 p1_end;
          '(c2, p) ← GET_CHAR p cbuf_end;
          c1 ← canonicalize c1;
          c2 ← canonicalize c2;
          if negb (c1 =? c2) then Ret None else backref_forward fuel p1 p1_end p
      else Ret (Some p)
  end.

Fixpoint backref_backward (fuel : nat) (p1 p1_start p : Z) : res (option Z) :=
  match fuel with
  | O => NoFuel
  | S fuel =>
      if p1_start <? p1 then
        if p =? 0 then Ret None
        else
          '(c1, p1) ← GET_PREV_CHAR p1 p1_start;
          '(c2, p) ← GET_PREV_CHAR p 0;
          c1 ← canonicalize c1;
          c2 ← canonicalize c2;
          if negb (c1 =? c2) then Ret None else backref_backward fuel p1 p1_start p
      else Ret (Some p)
  end.

Definition op_back_reference (m : machine) (no_recurse backward : bool) : res outcome :=
  val ← of_opt (get_u8 (bc s) (pc m));
  let m := set_pc m (pc m + 1) in
  if capture_count s <=? val then no_match m no_recurse
  else
    start ← of_opt (znth (capture m) (2 * val));
    end_ ← of_opt (znth (capture m) (2 * val + 1));
    match start, end_ with
    | Some cptr1_start, Some cptr1_end =>
        r ← (if backward then
               backref_backward (S (Z.to_nat (cptr1_end - cptr1_start))) cptr1_end cptr1_start (cptr m)
             else
               backref_forward (S (Z.to_nat (cptr1_end - cptr1_start))) cptr1_start cptr1_end (cptr m));
        match r with
        | None => no_match m no_recurse
        | Some p => Ret (Next (set_cptr m p))
        end
    | _, _ => Ret (Next m)
    end.

(** The binary search over the ranges; [w] is the width of a bound in bytes. *)
Fixpoint range_search (fuel : nat) (w : nat) (pc0 c idx_min idx_max : Z) : res bool :=
  match fuel with
  | O => NoFuel
  | S fuel =>
      if idx_min <=? idx_max then
        let idx := Z.quot (u32 (idx_min + idx_max)) 2 in
        low ← of_opt (get_un w (bc s) (pc0 + idx * (2 * Z.of_nat w)));
        high ← of_opt (get_un w (bc s) (pc0 + idx * (2 * Z.of_nat w) + Z.of_nat w));
        if c <? low then range_search fuel w pc0 c idx_min (u32 (idx - 1))
        else if high <? c then range_search fuel w pc0 c (u32 (idx + 1)) idx_max
        else Ret true
      else Ret false
  end.

(** Does [c] match one of the [n] ranges at [pc0]? *)
Definition range_match16 (pc0 n c : Z) : res bool :=
  low ← of_opt (get_u16 (bc s) (pc0 + 0 * 4));
  if c <? low then Ret false
  else
    let idx_max := u32 (n - 1) in
    high ← of_opt (get_u16 (bc s) (pc0 + idx_max * 4 + 2));
    (* 0xffff in for last value means +infinity *)
    if (0xffff <=? c) && (high =? 0xffff) then Ret true
    else if high <? c then Ret false
    else range_search (S (Z.to_nat n)) 2 pc0 c 0 idx_max.

Definition range_match32 (pc0 n c : Z) : res bool :=
  low ← of_opt (get_u32 (bc s) (pc0 + 0 * 8));
  if c <? low then Ret false
  else
    let idx_max := u32 (n - 1) in
    high ← of_opt (get_u32 (bc s) (pc0 + idx_max * 8 + 4));
    if high <? c then Ret false
    else range_search (S (Z.to_nat n)) 4 pc0 c 0 idx_max.

Definition op_range (m : machine) (no_recurse is32 : bool) : res outcome :=
  n ← of_opt (get_u16 (bc s) (pc m)); (* n must be >= 1 *)
  let m := set_pc m (pc m + 2) in
  if cbuf_end <=? cptr m then no_match m no_recurse
  else
    '(c, p) ← GET_CHAR (cptr m) cbuf_end;
    let m := set_cptr m p in
    c ← canonicalize c;
    found ← (if is32 then range_match32 (pc m) n c else range_match16 (pc m) n c);
    if negb found then no_match m no_recurse
    else Ret (Next (set_pc m (pc m + (if is32 then 8 else 4) * n))).

Definition op_prev (m : machine) (no_recurse : bool) : res outcome :=
  if cptr m =? 0 then no_match m no_recurse
  else p ← PREV_CHAR (cptr m) 0; Ret (Next (set_cptr m p)).

(** The loop of [REOP_simple_greedy_quant]: [body] runs the atom from a machine
    whose [pc] and [cptr] are set, with [no_recurse].  The machine, the result
    -1 if any, and [q]. *)
Fixpoint quant_loop (fuel : nat) (body : machine -> res (machine * result))
    (m : machine) (pc1 quant_max q : Z) : res (machine * bool * Z) :=
  match fuel with
  | O => NoFuel
  | S fuel =>
      '(m', r) ← body (set_pc m pc1);
      (* the callee's locals are gone *)
      let m' := mkMachine (capture m') (stack m') (stack_len m) (pc m) (cptr m)
                  (state_stack m') (state_stack_size m') in
      match r with
      | RET_ERROR => Ret (m', true, q)
      | RET_NO => Ret (m', false, q)
      | RET_YES => Fault
      | RET_PTR p =>
          let m' := set_cptr m' p in
          let q := q + 1 in
          if (quant_max <=? q) && negb (quant_max =? INT32_MAX) then Ret (m', false, q)
          else quant_loop fuel body m' pc1 quant_max q
      end
  end.

Definition op_simple_greedy_quant (fuel : nat) (body : machine -> res (machine * result))
    (m : machine) (no_recurse : bool) : res outcome :=
  next_pos ← of_opt (get_u32 (bc s) (pc m));
  quant_min ← of_opt (get_u32 (bc s) (pc m + 4));
  quant_max ← of_opt (get_u32 (bc s) (pc m + 8));
  let pc1 := pc m + 16 in
  '(m, err, q) ← quant_loop fuel body (set_pc m (pc1 + i32 next_pos)) pc1 quant_max 0;
  if (err : bool) then Ret (Return m RET_ERROR)
  else if q <? quant_min then no_match m no_recurse
  else if quant_min <? q then
    (* will examine all matches down to quant_min *)
    '(m, ret) ← push_state m (pc1 - 16) (cptr m) RE_EXEC_STATE_GREEDY_QUANT (q - quant_min);
    if ret <? 0 then Ret (Return m RET_ERROR) else Ret (Next m)
  else Ret (Next m).

(** The [switch]; [m]'s [pc] is after the opcode byte. *)
Definition exec_op (fuel : nat) (body : machine -> res (machine * result))
    (m : machine) (no_recurse : bool) (opcode : REOPCodeEnum) : res outcome :=
  match opcode with
  | REOP_invalid => Fault
  | REOP_match => op_match m no_recurse
  | REOP_char32 => op_char32 m no_recurse
  | REOP_char => op_char m no_recurse
  | REOP_split_goto_first => op_split m false
  | REOP_split_next_first => op_split m true
  | REOP_lookahead => op_lookahead m false
  | REOP_negative_lookahead => op_lookahead m true
  | REOP_goto => op_goto m
  | REOP_line_start => op_line_start m no_recurse
  | REOP_line_end => op_line_end m no_recurse
  | REOP_dot => op_dot m no_recurse
  | REOP_any => op_any m no_recurse
  | REOP_save_start => op_save m false
  | REOP_save_end => op_save m true
  | REOP_save_reset => op_save_reset m
  | REOP_push_i32 => op_push_i32 m
  | REOP_drop => op_drop m
  | REOP_loop => op_loop m
  | REOP_push_char_pos => op_push_char_pos m
  | REOP_bne_char_pos => op_bne_char_pos m
  | REOP_word_boundary => op_word_boundary m no_recurse false
  | REOP_not_word_boundary => op_word_boundary m no_recurse true
  | REOP_back_reference => op_back_reference m no_recurse false
  | REOP_backward_back_reference => op_back_reference m no_recurse true
  | REOP_range => op_range m no_recurse false
  | REOP_range32 => op_range m no_recurse true
  | REOP_prev => op_prev m no_recurse
  | REOP_simple_greedy_quant => op_simple_greedy_quant fuel body m no_recurse
  end.

(** Return 1 if match, 0 if not match or -1 if error. *)
Fixpoint lre_exec_backtrack (fuel : nat) (m : machine) (no_recurse : bool)
  : res (machine * result) :=
  match fuel with
  | O => NoFuel
  | S fuel =>
      b ← of_opt (znth (bc s) (pc m));
      opcode ← of_opt (reop_of b);
      o ← exec_op fuel (fun m => lre_exec_backtrack fuel m true)
            (set_pc m (pc m + 1)) no_recurse opcode;
      match o with
      | Next m => lre_exec_backtrack fuel m no_recurse
      | Return m r => Ret (m, r)
      end
  end.
End exec.

(** ** [lre_exec]

    [bc_buf] is the whole buffer, header first. [capture0] and [stack0] are the
    arrays before the call (the stack is uninitialised memory). The offsets of
    the model's [pc] count from the end of the header. *)
Definition lre_get_capture_count (bc_buf : list Z) : option Z :=
  get_u8 bc_buf RE_HEADER_CAPTURE_COUNT.
Definition lre_get_flags (bc_buf : list Z) : option Z := get_u8 bc_buf RE_HEADER_FLAGS.

(** The offset of the names in [bc_buf], or [None] for NULL. *)
Definition lre_get_groupnames (bc_buf : list Z) : option (option Z) :=
  flags ← lre_get_flags bc_buf;
  if Z.land flags LRE_FLAG_NAMED_GROUPS =? 0 then Some None
  else re_bytecode_len ← get_u32 bc_buf 3; Some (Some (7 + re_bytecode_len)).

Definition exec_context (bc_buf cbuf : list Z) (cbuf_type cbuf_addr : Z)
    (state_realloc : Z -> bool) : res REExecContext :=
  re_flags ← of_opt (get_u8 bc_buf RE_HEADER_FLAGS);
  capture_count ← of_opt (get_u8 bc_buf RE_HEADER_CAPTURE_COUNT);
  stack_size_max ← of_opt (get_u8 bc_buf RE_HEADER_STACK_SIZE);
  let flag f := negb (Z.land re_flags f =? 0) in
  let is_utf16 := flag LRE_FLAG_UTF16 in
  Ret (mkContext (drop (Z.to_nat RE_HEADER_LEN) bc_buf) cbuf cbuf_addr
         (if (cbuf_type =? 1) && is_utf16 then 2 else cbuf_type)
         capture_count stack_size_max
         (flag LRE_FLAG_MULTILINE) (flag LRE_FLAG_IGNORECASE) is_utf16 state_realloc).

(** [for(i = 0; i < s->capture_count * 2; i++) capture[i] = NULL;] *)
Definition init_capture (s : REExecContext) (capture0 : list (option Z)) : res (list (option Z)) :=
  of_opt (zwrite capture0 0 (replicate (Z.to_nat (capture_count s * 2)) None)).

Definition lre_exec (fuel : nat) (capture0 : list (option Z)) (stack0 : list Z)
    (bc_buf cbuf : list Z) (cindex cbuf_type cbuf_addr : Z) (state_realloc : Z -> bool)
  : res (list (option Z) * result) :=
  s ← exec_context bc_buf cbuf cbuf_type cbuf_addr state_realloc;
  caps ← init_capture s capture0;
  (* alloca of stack_size_max cells *)
  stack ← of_opt (zread stack0 0 (stack_size_max s));
  '(m, r) ← lre_exec_backtrack s fuel (mkMachine caps stack 0 0 cindex [] 0) false;
  Ret (capture m, r).
