(* ===== verification/RegexSafe.v ===== *)
(** * Memory safety of the executor on verified bytecode

    [verify] is a linear check of a bytecode: instructions decode up to the
    end, jumps go to instruction starts where the stack has the same height,
    captures and stack cells are within their declared numbers, and the atom of
    a simple greedy quantifier consists of a fixed number of one-character
    instructions.  On bytecode that passes, no execution reads or writes
    outside the bytecode, the input, the captures, the stack or the
    backtracking frames, fails an assertion or aborts, whatever the input. *)
From Stdlib Require Import ZArith Lia Bool.
From stdpp Require Import base numbers list.
From S2P Require Import Prelude Cutils CaseConv RegexOp RegexExec.

(** ** Reading characters *)
Section chars.
Variable s : REExecContext.
Hypothesis units_ok : Forall (fun c => 0 <= c < 65536) (cbuf s).

Lemma cunit_spec p : 0 <= p < cbuf_end s -> exists c, cunit s p = Ret c /\ 0 <= c < 65536.
Proof.
  intros Hp. destruct (proj2 (znth_is_Some (cbuf s) p) Hp) as [c E].
  exists c. unfold cunit. rewrite E. split; [done |].
  rewrite list.Forall_forall in units_ok. apply units_ok.
  apply znth_Some in E as [_ E]. by apply list_elem_of_lookup_2 in E.
Qed.

Lemma from_surrogate_nonneg c c1 : 0 <= from_surrogate c c1.
Proof.
  unfold from_surrogate. assert (0 <= Z.lor (Z.shiftl (Z.land c 0x3ff) 10) (Z.land c1 0x3ff)); [| lia].
  apply Z.lor_nonneg. split; [apply Z.shiftl_nonneg |]; apply Z.land_nonneg; lia.
Qed.

(** [GET_CHAR] reads one or two units and advances by as many. *)
Lemma GET_CHAR_spec p p_end :
  0 <= p < cbuf_end s -> p_end <= cbuf_end s ->
  exists c p', GET_CHAR s p p_end = Ret (c, p') /\ 0 <= c /\
    (p' = p + 1 \/
     (p' = p + 2 /\ p + 2 <= p_end /\ exists h l, cunit s p = Ret h /\ cunit s (p + 1) = Ret l /\
        is_hi_surrogate h = true /\ is_lo_surrogate l = true /\ cbuf_type s = 2)).
Proof.
  intros Hp He. unfold GET_CHAR. destruct (cunit_spec p Hp) as (c & E & Hc). rewrite E.
  cbn [mbind res_bind].
  destruct (is_hi_surrogate c) eqn:Eh; cbn [andb]; [| eexists _, _; split; [done |]; lia].
  destruct (Z.eqb_spec (cbuf_type s) 2); cbn [andb]; [| eexists _, _; split; [done |]; lia].
  destruct (Z.ltb_spec (p + 1) p_end); [| eexists _, _; split; [done |]; lia].
  destruct (cunit_spec (p + 1)) as (c1 & E1 & Hc1); [lia |]. rewrite E1. cbn [mbind res_bind].
  destruct (is_lo_surrogate c1) eqn:El; [| eexists _, _; split; [done |]; lia].
  eexists _, _. split; [done |]. split; [apply from_surrogate_nonneg |]. right.
  split_and!; [lia | lia |]. eauto 10.
Qed.

Lemma GET_CHAR_bounds p p_end :
  0 <= p < cbuf_end s -> p_end <= cbuf_end s ->
  exists c p', GET_CHAR s p p_end = Ret (c, p') /\ 0 <= c /\ p < p' <= cbuf_end s.
Proof.
  intros Hp He. destruct (GET_CHAR_spec p p_end Hp He) as (c & p' & E & Hc & [? | (? & ? & _)]);
    exists c, p'; split_and!; auto; lia.
Qed.

Lemma PEEK_CHAR_bounds p : 0 <= p < cbuf_end s -> exists c, PEEK_CHAR s p (cbuf_end s) = Ret c.
Proof.
  intros Hp. unfold PEEK_CHAR. destruct (cunit_spec p Hp) as (c & -> & _). cbn [mbind res_bind].
  destruct (is_hi_surrogate c && (cbuf_type s =? 2)); cbn [andb]; [| eauto].
  destruct (Z.ltb_spec (p + 1) (cbuf_end s)); [| eauto].
  destruct (cunit_spec (p + 1)) as (c1 & -> & _); [lia |]. cbn. destruct (is_lo_surrogate c1); eauto.
Qed.

Lemma PEEK_PREV_CHAR_bounds p : 0 < p <= cbuf_end s -> exists c, PEEK_PREV_CHAR s p 0 = Ret c.
Proof.
  intros Hp. unfold PEEK_PREV_CHAR. destruct (cunit_spec (p - 1)) as (c & -> & _); [lia |].
  cbn [mbind res_bind]. destruct (is_lo_surrogate c && (cbuf_type s =? 2)); cbn [andb]; [| eauto].
  destruct (Z.leb_spec 0 (p - 2)); [| eauto].
  destruct (cunit_spec (p - 2)) as (c1 & -> & _); [lia |]. cbn. destruct (is_hi_surrogate c1); eauto.
Qed.

Lemma GET_PREV_CHAR_bounds p p_start :
  0 <= p_start < p -> p <= cbuf_end s ->
  exists c p', GET_PREV_CHAR s p p_start = Ret (c, p') /\ 0 <= c /\ p_start <= p' < p.
Proof.
  intros Hp Hl. unfold GET_PREV_CHAR. destruct (cunit_spec (p - 1)) as (c & -> & Hc); [lia |].
  cbn [mbind res_bind]. destruct (is_lo_surrogate c && (cbuf_type s =? 2)); cbn [andb];
    [| eexists _, _; split; [done |]; lia].
  destruct (Z.ltb_spec p_start (p - 1)); [| eexists _, _; split; [done |]; lia].
  destruct (cunit_spec (p - 1 - 1)) as (c1 & -> & Hc1); [lia |]. cbn [mbind res_bind].
  destruct (is_hi_surrogate c1); eexists _, _; split; try done; [| lia].
  split; [apply from_surrogate_nonneg | lia].
Qed.

Lemma PREV_CHAR_bounds p :
  0 < p <= cbuf_end s -> exists p', PREV_CHAR s p 0 = Ret p' /\ 0 <= p' < p.
Proof.
  intros Hp. unfold PREV_CHAR. destruct (Z.leb_spec 0 (p - 1)); [| lia]. cbn [assert_ mbind res_bind].
  destruct (cbuf_type s =? 2); [| eexists; split; [done |]; lia].
  destruct (cunit_spec (p - 1)) as (c & -> & Hc); [lia |]. cbn [mbind res_bind].
  destruct (is_lo_surrogate c); cbn [andb]; [| eexists; split; [done |]; lia].
  destruct (Z.ltb_spec 0 (p - 1)); [| eexists; split; [done |]; lia].
  destruct (cunit_spec (p - 1 - 1)) as (c1 & -> & Hc1); [lia |]. cbn.
  destruct (is_hi_surrogate c1); eexists; split; try done; lia.
Qed.

(** ** Going forward, then backward

    A greedy quantifier steps forward over characters and, on backtracking,
    backward.  The two agree, except that the last step back may land one unit
    before the start, when matching started inside a surrogate pair. *)
Inductive advance : nat -> Z -> Z -> Prop :=
| advance_O p : advance 0 p p
| advance_S n p p' p'' c :
    advance n p p' -> 0 <= p' < cbuf_end s ->
    GET_CHAR s p' (cbuf_end s) = Ret (c, p'') -> advance (S n) p p''.

Lemma advance_bounds n p p' : advance n p p' -> 0 <= p <= cbuf_end s ->
  p + Z.of_nat n <= p' <= cbuf_end s.
Proof.
  induction 1 as [p | n p p' p'' c _ IH Hp' E]; intros Hp; [lia |].
  destruct (GET_CHAR_bounds p' (cbuf_end s) Hp') as (c0 & q & E' & _ & Hq); [lia |].
  rewrite E in E'. injection E' as <- <-. specialize (IH Hp). lia.
Qed.

Lemma advance_trans n k p p' p'' : advance n p p' -> advance k p' p'' -> advance (k + n) p p''.
Proof.
  intros H1. induction 1 as [q | k q q' q'' c _ IH Hq E]; [done |].
  cbn. econstructor; [apply IH, H1 | exact Hq | exact E].
Qed.

(** The start was in the middle of a pair, [q] is the start of the pair. *)
Definition mid_pair (p q : Z) : Prop :=
  cbuf_type s = 2 /\ q = p - 1 /\ 0 <= q /\ exists h l, cunit s q = Ret h /\ cunit s p = Ret l /\
    is_hi_surrogate h = true /\ is_lo_surrogate l = true.

Lemma hi_lo_disjoint c : is_hi_surrogate c = true -> is_lo_surrogate c = true -> False.
Proof. unfold is_hi_surrogate, is_lo_surrogate. rewrite !andb_true_iff. lia. Qed.

(** One step back from the end of a forward step. *)
Lemma prev_of_next p c p' :
  0 <= p < cbuf_end s -> GET_CHAR s p (cbuf_end s) = Ret (c, p') ->
  PREV_CHAR s p' 0 = Ret p \/ (exists q, PREV_CHAR s p' 0 = Ret q /\ p' = p + 1 /\ mid_pair p q).
Proof.
  intros Hp E. destruct (GET_CHAR_spec p (cbuf_end s) Hp) as (c0 & q & E' & _ & Hq); [lia |].
  rewrite E in E'. injection E' as <- <-. unfold PREV_CHAR.
  destruct Hq as [-> | (-> & ? & h & l & Eh & El & Hh & Hl & ->)].
  - destruct (Z.leb_spec 0 (p + 1 - 1)); [| lia]. cbn [assert_ mbind res_bind].
    replace (p + 1 - 1) with p by lia. destruct (Z.eqb_spec (cbuf_type s) 2); [| auto].
    destruct (cunit_spec p Hp) as (u & Eu & _). rewrite Eu. cbn [mbind res_bind].
    destruct (is_lo_surrogate u) eqn:Elo; cbn [andb]; [| auto].
    destruct (Z.ltb_spec 0 p); [| auto].
    destruct (cunit_spec (p - 1)) as (u1 & Eu1 & _); [lia |]. rewrite Eu1. cbn.
    destruct (is_hi_surrogate u1) eqn:Ehi; [| auto]. right. exists (p - 1).
    unfold mid_pair. split_and!; auto; [lia |]. eauto 10.
  - left. destruct (Z.leb_spec 0 (p + 2 - 1)); [| lia]. cbn [assert_ mbind res_bind].
    replace (p + 2 - 1) with (p + 1) by lia. rewrite El. cbn. rewrite Hl.
    destruct (Z.ltb_spec 0 (p + 1)); [| lia]. cbn [andb]. replace (p + 1 - 1) with p by lia.
    rewrite Eh. cbn. by rewrite Hh.
Qed.

(** A forward step never ends in the middle of a pair: it would have taken the
    pair as a whole. *)
Lemma next_not_mid p c p' q :
  0 <= p < cbuf_end s -> p' < cbuf_end s -> GET_CHAR s p (cbuf_end s) = Ret (c, p') ->
  ~ mid_pair p' q.
Proof.
  intros Hp Hp' E (Ht & -> & Hq & h & l & Eh & El & Hh & Hl). unfold GET_CHAR in E.
  destruct (cunit_spec p Hp) as (u & Eu & _). rewrite Eu, Ht in E. cbn [mbind res_bind] in E.
  assert (p' = p + 1 \/ p' = p + 2 /\ exists u1, cunit s (p + 1) = Ret u1 /\ is_lo_surrogate u1 = true)
    as [-> | (-> & u1 & Eu1 & Hu1)].
  { destruct (is_hi_surrogate u); cbn [andb Z.eqb] in E; [| injection E; lia].
    change (2 =? 2) with true in E. cbn [andb] in E.
    destruct (Z.ltb_spec (p + 1) (cbuf_end s)); [| injection E; lia].
    destruct (cunit_spec (p + 1)) as (u1 & Eu1 & _); [lia |]. rewrite Eu1 in E. cbn in E.
    destruct (is_lo_surrogate u1) eqn:El1; injection E as _ <-; [right | auto].
    split; [lia | eauto]. }
  - replace (p + 1 - 1) with p in Eh by lia. rewrite Eu in Eh. injection Eh as <-.
    rewrite Hh in E. change (2 =? 2) with true in E. cbn [andb] in E.
    destruct (Z.ltb_spec (p + 1) (cbuf_end s)); [| lia]. rewrite El in E. cbn in E.
    rewrite Hl in E. injection E. lia.
  - replace (p + 2 - 1) with (p + 1) in Eh by lia. rewrite Eu1 in Eh. injection Eh as <-.
    exact (hi_lo_disjoint _ Hh Hu1).
Qed.

Lemma prev_chars_app a b p :
  prev_chars s (a + b) p = (q ← prev_chars s a p; prev_chars s b q).
Proof.
  revert p. induction a as [| a IH]; intros p; [done |]. cbn [Nat.add prev_chars].
  destruct (PREV_CHAR s p 0) as [q | |]; cbn; [apply IH | done | done].
Qed.

(** Stepping back [n] characters undoes [n] forward steps, up to the start of
    the pair the first one was in. *)
Lemma prev_chars_advance n p p' :
  advance n p p' -> 0 <= p <= cbuf_end s ->
  prev_chars s n p' = Ret p \/
  (exists q, prev_chars s n p' = Ret q /\ mid_pair p q).
Proof.
  induction n as [| n IH] in p' |- *; intros Ha Hp; inversion Ha as [| ? ? p1 ? c Ha1 Hp1 E]; subst.
  - left. done.
  - cbn [prev_chars]. destruct (prev_of_next p1 c p' Hp1 E) as [-> | (q & -> & _ & Hm)];
      cbn [mbind res_bind]; [auto |].
    (* mid-pair: [p1] is the start itself *)
    inversion Ha1 as [| n0 ? p2 ? c2 Ha2 Hp2 E2]; subst; [right; eauto |].
    exfalso. apply (next_not_mid p2 c2 p1 q Hp2); auto. lia.
Qed.
End chars.

(** ** The verifier *)
Section verifier.
Variable s : REExecContext.
Variable code_len : Z.

Definition op_at (pos : Z) : option REOPCodeEnum := b ← znth (bc s) pos; reop_of b.

Definition op_size (op : REOPCodeEnum) : Z := default 0 (reopcode_info (reop_byte op)).

(** The length of the instruction at [pos], operands included. *)
Definition instr_len (op : REOPCodeEnum) (pos : Z) : option Z :=
  match op with
  | REOP_range => n ← get_u16 (bc s) (pos + 1); Some (op_size op + n * 4)
  | REOP_range32 => n ← get_u16 (bc s) (pos + 1); Some (op_size op + n * 8)
  | _ => Some (op_size op)
  end.

Definition stack_delta (op : REOPCodeEnum) : Z :=
  match op with
  | REOP_push_i32 | REOP_push_char_pos => 1
  | REOP_drop | REOP_bne_char_pos => -1
  | _ => 0
  end.

(** The instruction starts with the stack height before each, found linearly
    as [compute_stack_size] does. *)
Fixpoint scan (fuel : nat) (pos h : Z) : option (list (Z * Z)) :=
  match fuel with
  | O => None
  | S fuel =>
      if pos =? code_len then Some []
      else
        op ← op_at pos;
        len ← instr_len op pos;
        rest ← scan fuel (pos + len) (h + stack_delta op);
        Some ((pos, h) :: rest)
  end.

Definition height_at (l : list (Z * Z)) (pos : Z) : option Z :=
  snd <$> List.find (fun p => p.1 =? pos) l.

Definition target_ok (l : list (Z * Z)) (pos h : Z) : bool :=
  match height_at l pos with Some h' => h' =? h | None => false end.

(** The target of the jump with its displacement at [pos]. *)
Definition jump_ok (l : list (Z * Z)) (pos h : Z) : bool :=
  match get_u32 (bc s) pos with
  | Some val => target_ok l (pos + 4 + i32 val) h
  | None => false
  end.

Definition u8_lt (pos n : Z) : bool :=
  match get_u8 (bc s) pos with Some v => v <? n | None => false end.

Definition ranges_ok (pos : Z) : bool :=
  match get_u16 (bc s) pos with Some n => 1 <=? n | None => false end.

Definition is_char_op (op : REOPCodeEnum) : bool :=
  match op with
  | REOP_char | REOP_char32 | REOP_dot | REOP_any | REOP_range | REOP_range32 => true
  | _ => false
  end.
Definition is_assertion_op (op : REOPCodeEnum) : bool :=
  match op with
  | REOP_line_start | REOP_line_end | REOP_word_boundary | REOP_not_word_boundary => true
  | _ => false
  end.
Definition char_op_ok (op : REOPCodeEnum) (pos len : Z) : bool :=
  (pos + len <=? zlen (bc s)) &&
  match op with REOP_range | REOP_range32 => ranges_ok (pos + 1) | _ => true end.

(** The atom at [pos] consists of assertions and [n] one-character instructions
    up to a [REOP_match]. *)
Fixpoint simple_body (fuel : nat) (pos n : Z) : bool :=
  match fuel with
  | O => false
  | S fuel =>
      match op_at pos with
      | Some op =>
          if decide (op = REOP_match) then n =? 0
          else if is_char_op op then
            match instr_len op pos with
            | Some len => char_op_ok op pos len && simple_body fuel (pos + len) (n - 1)
            | None => false
            end
          else if is_assertion_op op then simple_body fuel (pos + 1) n
          else false
      | None => false
      end
  end.

(** [REOP_simple_greedy_quant] at [pos]: the displacement counts from the end of
    the operands; the last operand is the number of characters of the atom. *)
Definition quant_ok (l : list (Z * Z)) (pos h : Z) : bool :=
  match get_u32 (bc s) (pos + 1), get_u32 (bc s) (pos + 13) with
  | Some off, Some char_count =>
      target_ok l (pos + 17 + i32 off) h && (1 <=? char_count) &&
      simple_body (length (bc s)) (pos + 17) char_count
  | _, _ => false
  end.

Definition verify_instr (l : list (Z * Z)) (pos h : Z) : bool :=
  match op_at pos with
  | None => false
  | Some op =>
      match instr_len op pos with
      | None => false
      | Some len =>
          let next h := target_ok l (pos + len) h in
          match op with
          | REOP_invalid => false
          | REOP_match => true
          | REOP_char | REOP_char32 | REOP_dot | REOP_any | REOP_range | REOP_range32 =>
              char_op_ok op pos len && next h
          | REOP_line_start | REOP_line_end | REOP_word_boundary | REOP_not_word_boundary
          | REOP_prev => next h
          | REOP_back_reference | REOP_backward_back_reference => u8_lt (pos + 1) 256 && next h
          | REOP_goto => jump_ok l (pos + 1) h
          | REOP_split_goto_first | REOP_split_next_first
          | REOP_lookahead | REOP_negative_lookahead => jump_ok l (pos + 1) h && next h
          | REOP_save_start | REOP_save_end => u8_lt (pos + 1) (capture_count s) && next h
          | REOP_save_reset =>
              u8_lt (pos + 1) 256 && u8_lt (pos + 2) (capture_count s) && next h
          | REOP_push_i32 | REOP_push_char_pos =>
              (h <? stack_size_max s) && (pos + len <=? zlen (bc s)) && next (h + 1)
          | REOP_drop => (0 <? h) && next (h - 1)
          | REOP_loop => (0 <? h) && jump_ok l (pos + 1) h && next h
          | REOP_bne_char_pos => (0 <? h) && jump_ok l (pos + 1) (h - 1) && next (h - 1)
          | REOP_simple_greedy_quant => (pos + len <=? zlen (bc s)) && quant_ok l pos h
          end
      end
  end.

(** The code starts at offset 0 with an empty stack. *)
Definition code_scan : option (list (Z * Z)) := scan (S (length (bc s))) 0 0.

Definition verify : bool :=
  match code_scan with
  | Some l => forallb (fun p => verify_instr l p.1 p.2) l && target_ok l 0 0
  | None => false
  end.
End verifier.

(** ** The instructions of an atom *)

(** [m'] differs from [m] in [pc] and [cptr] only. *)
Definition same_state (m m' : machine) : Prop :=
  capture m' = capture m /\ stack m' = stack m /\ stack_len m' = stack_len m /\
  state_stack m' = state_stack m /\ state_stack_size m' = state_stack_size m.

Lemma same_state_refl m : same_state m m.
Proof. repeat split. Qed.
Lemma same_state_trans m m' m'' : same_state m m' -> same_state m' m'' -> same_state m m''.
Proof. unfold same_state. intuition congruence. Qed.
Lemma same_state_cptr m p : same_state m (set_cptr m p).
Proof. repeat split. Qed.
Lemma same_state_pc m p : same_state m (set_pc m p).
Proof. repeat split. Qed.
#[export] Hint Resolve same_state_refl same_state_cptr same_state_pc : qjs.

Lemma get_un_Some n tab p :
  0 <= p -> p + Z.of_nat n <= zlen tab -> exists v, get_un n tab p = Some v.
Proof. intros Hp Hl. destruct (get_un_is_Some n tab p Hp Hl) as [v E]. eauto. Qed.

Lemma op_at_Some s pos op :
  op_at s pos = Some op -> exists b, znth (bc s) pos = Some b /\ reop_of b = Some op.
Proof. unfold op_at. destruct (znth (bc s) pos) as [b |]; cbn; [eauto | discriminate]. Qed.

Lemma op_at_bounds s pos op : op_at s pos = Some op -> 0 <= pos < zlen (bc s).
Proof. intros (b & E & _)%op_at_Some. exact (znth_lt_Some _ _ _ E). Qed.

Section atoms.
Variable s : REExecContext.
Hypothesis units_ok : Forall (fun c => 0 <= c < 65536) (cbuf s).
Hypothesis code_ok : bytes_ok (bc s).

Lemma canonicalize_Ret c : 0 <= c -> exists x, canonicalize s c = Ret x.
Proof.
  intros Hc. unfold canonicalize. destruct (ignore_case s); [| eauto]. by apply lre_canonicalize_Ret.
Qed.

(** One character is consumed, or the match fails. *)
Definition char_step (m : machine) (nr : bool) (o : res outcome) (pc' : Z) : Prop :=
  (exists c p, o = Ret (Next (set_pc (set_cptr m p) pc')) /\
     GET_CHAR s (cptr m) (cbuf_end s) = Ret (c, p) /\ cptr m < cbuf_end s) \/
  (exists m', o = no_match s m' nr /\ same_state m m').

Lemma test_char_step m nr val :
  0 <= cptr m <= cbuf_end s -> char_step m nr (test_char s m nr val) (pc m).
Proof.
  intros Hc. unfold test_char. destruct (Z.leb_spec (cbuf_end s) (cptr m)).
  { right. exists m. auto with qjs. }
  destruct (GET_CHAR_bounds s units_ok (cptr m) (cbuf_end s)) as (c & p & E & Hc0 & Hp); [lia | lia |].
  rewrite E. cbn [mbind res_bind]. destruct (canonicalize_Ret c Hc0) as [c' ->]. cbn [mbind res_bind].
  destruct (val =? c'); cbn [negb]; [left; exists c, p; auto | right; exists (set_cptr m p); auto with qjs].
Qed.

Lemma dot_step m nr : 0 <= cptr m <= cbuf_end s -> char_step m nr (op_dot s m nr) (pc m).
Proof.
  intros Hc. unfold op_dot. destruct (Z.eqb_spec (cptr m) (cbuf_end s)); [right; eauto with qjs |].
  destruct (GET_CHAR_bounds s units_ok (cptr m) (cbuf_end s)) as (c & p & E & _ & Hp); [lia | lia |].
  rewrite E. cbn [mbind res_bind].
  destruct (is_line_terminator c); cbn [negb]; [right; exists (set_cptr m p); auto with qjs | left].
  exists c, p. split_and!; auto. lia.
Qed.

Lemma any_step m nr : 0 <= cptr m <= cbuf_end s -> char_step m nr (op_any s m nr) (pc m).
Proof.
  intros Hc. unfold op_any. destruct (Z.eqb_spec (cptr m) (cbuf_end s)); [right; eauto with qjs |].
  destruct (GET_CHAR_bounds s units_ok (cptr m) (cbuf_end s)) as (c & p & E & _ & Hp); [lia | lia |].
  rewrite E. left. exists c, p. split_and!; auto. lia.
Qed.

(** The binary search stays in the table and ends: [low0 <= c] keeps [idx - 1]
    from wrapping around. *)
Lemma range_search_Ret w pc0 c n low0 fuel : forall lo hi,
  0 <= pc0 -> (0 < w)%nat -> pc0 + n * (2 * Z.of_nat w) <= zlen (bc s) -> n < 2 ^ 16 ->
  get_un w (bc s) pc0 = Some low0 -> low0 <= c ->
  0 <= lo <= n -> -1 <= hi < n -> Z.max 0 (hi - lo + 1) < Z.of_nat fuel ->
  exists b, range_search s fuel w pc0 c lo hi = Ret b.
Proof.
  induction fuel as [| fuel IH]; intros lo hi Hpc Hw Hlen Hn E0 Hc Hlo Hhi Hf; [lia |].
  cbn [range_search]. destruct (Z.leb_spec lo hi); [| eauto].
  rewrite (wrap_small 32 (lo + hi)), Z.quot_div_nonneg by lia. set (idx := (lo + hi) / 2).
  assert (lo <= idx <= hi) by (unfold idx; zdiv_lia).
  destruct (get_un_Some w (bc s) (pc0 + idx * (2 * Z.of_nat w))) as [low El]; [nia | nia |].
  destruct (get_un_Some w (bc s) (pc0 + idx * (2 * Z.of_nat w) + Z.of_nat w)) as [high Eh]; [nia | nia |].
  rewrite El, Eh. cbn [of_opt mbind res_bind]. destruct (Z.ltb_spec c low).
  - assert (idx <> 0).
    { intros E. rewrite E, Z.add_0_r, E0 in El. injection El as <-. lia. }
    rewrite wrap_small by lia. apply IH; auto; lia.
  - destruct (high <? c); [| eauto]. rewrite wrap_small by lia. apply IH; auto; lia.
Qed.

Lemma range_match_Ret (is32 : bool) pc0 n c :
  0 <= pc0 -> 1 <= n < 2 ^ 16 -> pc0 + n * (if is32 then 8 else 4) <= zlen (bc s) ->
  exists b, (if is32 then range_match32 s pc0 n c else range_match16 s pc0 n c) = Ret b.
Proof.
  intros Hpc Hn Hlen. destruct is32; unfold range_match32, range_match16; rewrite Z.add_0_r.
  - destruct (get_un_Some 4 (bc s) pc0) as [low0 E0]; [lia | lia |].
    unfold get_u32. rewrite E0. cbn [of_opt mbind res_bind].
    destruct (Z.ltb_spec c low0); [eauto |]. rewrite wrap_small by lia.
    destruct (get_un_Some 4 (bc s) (pc0 + (n - 1) * 8 + 4)) as [high Eh]; [lia | lia |].
    rewrite Eh. cbn [of_opt mbind res_bind]. destruct (high <? c); [eauto |].
    apply (range_search_Ret 4 pc0 c n low0); auto; lia.
  - destruct (get_un_Some 2 (bc s) pc0) as [low0 E0]; [lia | lia |].
    unfold get_u16. rewrite E0. cbn [of_opt mbind res_bind].
    destruct (Z.ltb_spec c low0); [eauto |]. rewrite wrap_small by lia.
    destruct (get_un_Some 2 (bc s) (pc0 + (n - 1) * 4 + 2)) as [high Eh]; [lia | lia |].
    rewrite Eh. cbn [of_opt mbind res_bind]. destruct (_ && _); [eauto |].
    destruct (high <? c); [eauto |].
    apply (range_search_Ret 2 pc0 c n low0); auto; lia.
Qed.

Lemma range_step (is32 : bool) m nr n :
  0 <= cptr m <= cbuf_end s -> 0 <= pc m ->
  get_u16 (bc s) (pc m) = Some n -> 1 <= n ->
  pc m + 2 + n * (if is32 then 8 else 4) <= zlen (bc s) ->
  char_step m nr (op_range s m nr is32) (pc m + 2 + n * (if is32 then 8 else 4)).
Proof.
  intros Hc Hpc En Hn Hlen. unfold op_range. rewrite En. cbn [of_opt mbind res_bind].
  assert (n < 2 ^ 16) by (apply get_un_range in En; [lia | done]).
  cbn [cptr set_pc]. destruct (Z.leb_spec (cbuf_end s) (cptr m)).
  { right. eexists. split; [done |]. auto with qjs. }
  destruct (GET_CHAR_bounds s units_ok (cptr m) (cbuf_end s)) as (c & p & E & Hc0 & Hp); [lia | lia |].
  rewrite E. cbn [mbind res_bind]. destruct (canonicalize_Ret c Hc0) as [c' ->]. cbn [mbind res_bind].
  cbn [pc set_pc set_cptr].
  destruct (range_match_Ret is32 (pc m + 2) n c') as [b ->]; [lia | lia | done |].
  cbn [mbind res_bind]. destruct b; cbn [negb].
  - left. exists c, p. split_and!; [| done | lia]. unfold set_pc, set_cptr. cbn. do 3 f_equal.
    destruct is32; lia.
  - right. eexists. split; [done |]. repeat split.
Qed.

(** A one-character instruction consumes one character or fails. *)
Lemma char_op_step fuel body op m nr pos len :
  is_char_op op = true -> instr_len s op pos = Some len -> char_op_ok s op pos len = true ->
  0 <= pos -> pc m = pos + 1 -> 0 <= cptr m <= cbuf_end s ->
  char_step m nr (exec_op s fuel body m nr op) (pos + len).
Proof.
  intros Hop El Hok Hpos Hpc Hc. unfold char_op_ok in Hok. apply andb_true_iff in Hok as [Hlen Hok].
  destruct op; try discriminate Hop; cbn [exec_op].
  - injection El as <-. change (op_size REOP_char) with 3 in *. unfold op_char.
    destruct (get_un_Some 2 (bc s) (pc m)) as [v E]; [lia | lia |].
    unfold get_u16. rewrite E. cbn [of_opt mbind res_bind].
    replace (pos + 3) with (pc (set_pc m (pc m + 2))) by (cbn; lia).
    destruct (test_char_step (set_pc m (pc m + 2)) nr v Hc) as [(c & p & -> & ? & ?) | (m' & -> & ?)].
    + left. exists c, p. auto.
    + right. exists m'. auto.
  - injection El as <-. change (op_size REOP_char32) with 5 in *. unfold op_char32.
    destruct (get_un_Some 4 (bc s) (pc m)) as [v E]; [lia | lia |].
    unfold get_u32. rewrite E. cbn [of_opt mbind res_bind].
    replace (pos + 5) with (pc (set_pc m (pc m + 4))) by (cbn; lia).
    destruct (test_char_step (set_pc m (pc m + 4)) nr v Hc) as [(c & p & -> & ? & ?) | (m' & -> & ?)].
    + left. exists c, p. auto.
    + right. exists m'. auto.
  - injection El as <-. change (op_size REOP_dot) with 1 in *. rewrite <- Hpc. by apply dot_step.
  - injection El as <-. change (op_size REOP_any) with 1 in *. rewrite <- Hpc. by apply any_step.
  - unfold ranges_ok in Hok. rewrite <- Hpc in Hok. cbn in El. rewrite <- Hpc in El.
    destruct (get_u16 (bc s) (pc m)) as [n |] eqn:En; [| discriminate]. cbn in El. injection El as <-.
    change (op_size REOP_range) with 3 in *.
    replace (pos + (3 + n * 4)) with (pc m + 2 + n * 4) in * by lia.
    apply (range_step false); auto; lia.
  - unfold ranges_ok in Hok. rewrite <- Hpc in Hok. cbn in El. rewrite <- Hpc in El.
    destruct (get_u16 (bc s) (pc m)) as [n |] eqn:En; [| discriminate]. cbn in El. injection El as <-.
    change (op_size REOP_range32) with 3 in *.
    replace (pos + (3 + n * 8)) with (pc m + 2 + n * 8) in * by lia.
    apply (range_step true); auto; lia.
Qed.

(** An assertion continues or fails. *)
Lemma assertion_op_step fuel body op m nr :
  is_assertion_op op = true -> 0 <= cptr m <= cbuf_end s ->
  exec_op s fuel body m nr op = Ret (Next m) \/ exec_op s fuel body m nr op = no_match s m nr.
Proof.
  intros Hop Hc.
  assert (forall neg, op_word_boundary s m nr neg = Ret (Next m) \/
            op_word_boundary s m nr neg = no_match s m nr) as Hwb.
  { intros neg. unfold op_word_boundary.
    assert (exists v1, (if cptr m =? 0 then Ret false
              else c ← PEEK_PREV_CHAR s (cptr m) 0; Ret (is_word_char c)) = Ret v1) as [v1 ->].
    { destruct (Z.eqb_spec (cptr m) 0); [eauto |].
      destruct (PEEK_PREV_CHAR_bounds s units_ok (cptr m)) as [c ->]; [lia |]. cbn. eauto. }
    assert (exists v2, (if cbuf_end s <=? cptr m then Ret false
              else c ← PEEK_CHAR s (cptr m) (cbuf_end s); Ret (is_word_char c)) = Ret v2) as [v2 ->].
    { destruct (Z.leb_spec (cbuf_end s) (cptr m)); [eauto |].
      destruct (PEEK_CHAR_bounds s units_ok (cptr m)) as [c ->]; [lia |]. cbn. eauto. }
    cbn [mbind res_bind]. destruct (xorb _ _); auto. }
  destruct op; try discriminate Hop; cbn [exec_op]; auto.
  - unfold op_line_start. destruct (Z.eqb_spec (cptr m) 0); [auto |].
    destruct (multi_line s); cbn [negb]; [| auto].
    destruct (PEEK_PREV_CHAR_bounds s units_ok (cptr m)) as [c ->]; [lia |]. cbn [mbind res_bind].
    destruct (is_line_terminator c); auto.
  - unfold op_line_end. destruct (Z.eqb_spec (cptr m) (cbuf_end s)); [auto |].
    destruct (multi_line s); cbn [negb]; [| auto].
    destruct (PEEK_CHAR_bounds s units_ok (cptr m)) as [c ->]; [lia |]. cbn [mbind res_bind].
    destruct (is_line_terminator c); auto.
Qed.

(** ** Running an atom *)
Lemma simple_body_nonneg f : forall pos n, simple_body s f pos n = true -> 0 <= n.
Proof.
  induction f as [| f IH]; intros pos n Hb; [discriminate |]. cbn [simple_body] in Hb.
  destruct (op_at s pos) as [op |]; [| discriminate].
  destruct (decide (op = REOP_match)); [lia |]. destruct (is_char_op op).
  - destruct (instr_len s op pos); [| discriminate]. apply andb_true_iff in Hb as [_ Hb].
    apply IH in Hb. lia.
  - destruct (is_assertion_op op); [eapply IH, Hb | discriminate].
Qed.

Lemma advance_cons n p c p' p'' :
  0 <= p < cbuf_end s -> GET_CHAR s p (cbuf_end s) = Ret (c, p') -> advance s n p' p'' ->
  advance s (S n) p p''.
Proof.
  intros Hp E Ha. replace (S n) with (n + 1)%nat by lia.
  apply (advance_trans s 1 n p p'); [| done]. econstructor; [constructor | exact Hp | exact E].
Qed.

Lemma instr_len_pos op pos len :
  instr_len s op pos = Some len -> 0 < len.
Proof.
  assert (forall n, get_u16 (bc s) (pos + 1) = Some n -> 0 <= n) as Hn.
  { intros n E. apply get_un_range in E; [lia | done]. }
  destruct op; cbn [instr_len]; try (intros [= <-]; vm_compute; reflexivity).
  - destruct (get_u16 (bc s) (pos + 1)) as [n |] eqn:E; [| discriminate]. intros [= <-].
    change (op_size REOP_range) with 3. specialize (Hn n eq_refl). lia.
  - destruct (get_u16 (bc s) (pos + 1)) as [n |] eqn:E; [| discriminate]. intros [= <-].
    change (op_size REOP_range32) with 3. specialize (Hn n eq_refl). lia.
Qed.

(** The result of an atom: failure, or the position after its characters. *)
Definition atom_result (n : Z) (m : machine) (o : machine * result) : Prop :=
  same_state m o.1 /\
  (o.2 = RET_NO \/ exists p, o.2 = RET_PTR p /\ advance s (Z.to_nat n) (cptr m) p).

Lemma no_match_atom n m m' :
  same_state m m' ->
  safe (atom_result n m)
    (o ← no_match s m' true;
     match o with Next m => NoFuel | Return m r => Ret (m, r) end).
Proof. intros Hs. cbn. split; [exact Hs | auto]. Qed.

Lemma atom_safe f : forall fuel n m,
  simple_body s f (pc m) n = true -> 0 <= cptr m <= cbuf_end s ->
  safe (atom_result n m) (lre_exec_backtrack s fuel m true).
Proof.
  induction f as [| f IH]; intros fuel n m Hb Hc; [discriminate |]. cbn [simple_body] in Hb.
  destruct (op_at s (pc m)) as [op |] eqn:Eop; [| discriminate].
  pose proof (op_at_bounds _ _ _ Eop) as Hpc. apply op_at_Some in Eop as (b & Eb & Eop).
  destruct fuel as [| fuel]; [exact I |]. cbn [lre_exec_backtrack]. rewrite Eb.
  cbn [of_opt mbind res_bind]. rewrite Eop. cbn [of_opt mbind res_bind].
  destruct (decide (op = REOP_match)) as [-> | Hnm].
  { assert (n = 0) as -> by lia. cbn. split; [repeat split | right]. exists (cptr m).
    split; [done | constructor]. }
  destruct (is_char_op op) eqn:Hco; [| destruct (is_assertion_op op) eqn:Hao; [| discriminate]].
  - destruct (instr_len s op (pc m)) as [len |] eqn:El; [| discriminate].
    apply andb_true_iff in Hb as [Hok Hb].
    destruct (char_op_step fuel (fun m => lre_exec_backtrack s fuel m true) op
                (set_pc m (pc m + 1)) true (pc m) len Hco El Hok)
      as [(c & p & -> & E & Hlt) | (m' & -> & Hs)]; [lia | done | done | |].
    + cbn [mbind res_bind].
      destruct (GET_CHAR_bounds s units_ok (cptr m) (cbuf_end s)) as (c0 & p0 & E0 & _ & Hp0);
        [cbn in Hlt; lia | lia |].
      cbn [cptr set_pc] in E, Hlt. rewrite E in E0. injection E0 as <- <-.
      set (m1 := set_pc (set_cptr (set_pc m (pc m + 1)) p) (pc m + len)).
      eapply safe_mono; [apply (IH fuel (n - 1) m1); [exact Hb | cbn; lia] |].
      intros [m2 r] [Hs Hr]. split; [exact Hs |].
      destruct Hr as [-> | (q & -> & Ha)]; [auto | right].
      exists q. split; [done |]. apply simple_body_nonneg in Hb.
      replace (Z.to_nat n) with (S (Z.to_nat (n - 1))) by lia.
      eapply advance_cons; [| exact E | exact Ha]. lia.
    + cbn. split; [| auto]. eapply same_state_trans; [| exact Hs]. auto with qjs.
  - destruct (assertion_op_step fuel (fun m => lre_exec_backtrack s fuel m true) op
                (set_pc m (pc m + 1)) true Hao Hc) as [-> | ->].
    + cbn [mbind res_bind]. eapply safe_mono; [apply (IH fuel n); [exact Hb | exact Hc] |].
      intros [m2 r] [Hs Hr]. split; [exact Hs | exact Hr].
    + cbn. split; [repeat split | auto].
Qed.

(** The loop of a greedy quantifier: [q] iterations from [p0]. *)
Lemma quant_loop_safe body pc1 qmax n p0 :
  (forall m, pc m = pc1 -> 0 <= cptr m <= cbuf_end s -> safe (atom_result n m) (body m)) ->
  0 <= p0 <= cbuf_end s ->
  forall fuel m (q : nat),
  advance s (q * Z.to_nat n) p0 (cptr m) ->
  safe (fun o => let '(m', err, q') := o in
          same_state m m' /\ pc m' = pc m /\ err = false /\
          exists k : nat, q' = Z.of_nat k /\ advance s (k * Z.to_nat n) p0 (cptr m'))
    (quant_loop fuel body m pc1 qmax (Z.of_nat q)).
Proof.
  intros Hbody Hp0. induction fuel as [| fuel IH]; intros m q Ha; [exact I |]. cbn [quant_loop].
  pose proof (advance_bounds s units_ok _ _ _ Ha Hp0) as Hb.
  eapply safe_bind; [apply (Hbody (set_pc m pc1)); [done | cbn; lia] |].
  intros [m' r] [(E1 & E2 & _ & E3 & E4) Hr]. cbn in *.
  destruct Hr as [-> | (p & -> & Hp)]; cbn.
  - split_and!; auto; [repeat split; auto | eauto].
  - replace (Z.of_nat q + 1) with (Z.of_nat (S q)) by lia.
    assert (advance s (S q * Z.to_nat n) p0 p) as Ha'.
    { cbn [Nat.mul]. eapply advance_trans; [exact Ha | exact Hp]. }
    destruct (_ && _).
    + split_and!; auto; [repeat split; auto |]. exists (S q). auto.
    + eapply safe_mono; [apply IH; exact Ha' |]. intros [[m2 err] q2] (Hs & Hpc & -> & k & -> & Hk).
      split_and!; auto; [| eauto]. eapply same_state_trans; [| exact Hs]. repeat split; auto.
Qed.
End atoms.

(** ** The machine invariant *)
Section safety.
Variable s : REExecContext.
Variable l : list (Z * Z).

(** The environment: the input holds code units and is a JS string, the
    bytecode holds bytes, and the allocator grants no block beyond half of the
    address space. *)
Record context_ok : Prop := {
  ctx_units : Forall (fun c => 0 <= c < 65536) (cbuf s);
  ctx_input : cbuf_end s < 2 ^ 31;
  ctx_bytes : bytes_ok (bc s);
  ctx_captures : 0 <= capture_count s <= CAPTURE_COUNT_MAX;
  ctx_stack : 0 <= stack_size_max s <= STACK_SIZE_MAX;
  ctx_realloc : forall n, state_realloc s n = true -> n < 2 ^ 63
}.
Hypothesis Hctx : context_ok.
Hypothesis Hverify : forall pos h, height_at l pos = Some h -> verify_instr s l pos h = true.

Definition pos_ok (p : Z) : Prop := 0 <= p <= cbuf_end s.

Definition captures_ok (c : list (option Z)) : Prop :=
  Forall (fun o => match o with Some p => pos_ok p | None => True end) c.

(** Where a frame resumes. *)
Definition resume_ok (rs : REExecState) : Prop :=
  match rs_type rs with
  | RE_EXEC_STATE_GREEDY_QUANT =>
      exists off char_count q,
        get_u32 (bc s) (rs_pc rs) = Some off /\
        get_u32 (bc s) (rs_pc rs + 12) = Some char_count /\ 0 <= char_count /\
        height_at l (rs_pc rs + 16 + i32 off) = Some (rs_stack_len rs) /\
        1 <= rs_count rs < 2 ^ 64 /\
        prev_chars s (Z.to_nat (rs_count rs) * Z.to_nat char_count) (rs_cptr rs) = Ret q
  | _ => height_at l (rs_pc rs) = Some (rs_stack_len rs)
  end.

Record frame_ok (rs : REExecState) : Prop := {
  fr_stack : 0 <= rs_stack_len rs <= stack_size_max s;
  fr_cells : zlen (rs_stack rs) = rs_stack_len rs;
  fr_caps : zlen (rs_capture rs) = 2 * capture_count s;
  fr_caps_ok : captures_ok (rs_capture rs);
  fr_cptr : pos_ok (rs_cptr rs);
  fr_resume : resume_ok rs
}.

(** Everything but [pc], [cptr] and the current stack height. *)
Record memory_ok (m : machine) : Prop := {
  mem_stack : zlen (stack m) = stack_size_max s;
  mem_caps_len : 2 * capture_count s <= zlen (capture m);
  mem_caps : captures_ok (capture m);
  mem_frames : Forall frame_ok (state_stack m);
  mem_len : zlen (state_stack m) <= state_stack_size m;
  mem_size : state_stack_size m * state_size s < 2 ^ 63
}.

Record inv (m : machine) : Prop := {
  inv_memory : memory_ok m;
  inv_pc : height_at l (pc m) = Some (stack_len m);
  inv_stack : 0 <= stack_len m <= stack_size_max s;
  inv_cptr : pos_ok (cptr m)
}.

Definition outcome_ok (o : outcome) : Prop :=
  match o with
  | Next m => inv m
  | Return m r => memory_ok m /\ (r = RET_YES \/ r = RET_NO \/ r = RET_ERROR)
  end.

Lemma memory_same m m' : same_state m m' -> memory_ok m -> memory_ok m'.
Proof.
  intros (E1 & E2 & E3 & E4 & E5) [].
  split; rewrite ?E1, ?E2, ?E4, ?E5; assumption.
Qed.

Lemma captures_take n c : captures_ok c -> captures_ok (take n c).
Proof. apply Forall_take. Qed.
Lemma captures_drop n c : captures_ok c -> captures_ok (drop n c).
Proof. apply Forall_drop. Qed.

Lemma memory_restore m rs caps st rest pc' cptr' :
  memory_ok m -> captures_ok caps -> zlen caps = zlen (capture m) -> zlen st = zlen (stack m) ->
  Forall frame_ok rest -> zlen rest <= state_stack_size m ->
  memory_ok (mkMachine caps st (rs_stack_len rs) pc' cptr' rest (state_stack_size m)).
Proof. intros [] Hc El Es Hr Hl. split; cbn; auto; congruence || lia. Qed.

(** The stores of a popped frame fit. *)
Lemma restore_cells m rs :
  memory_ok m -> frame_ok rs -> exists cells st,
    zread (rs_stack rs) 0 (rs_stack_len rs) = Some cells /\
    zwrite (stack m) 0 cells = Some st /\ zlen st = zlen (stack m).
Proof.
  intros [] []. rewrite zread_in by lia. set (cells := take _ _).
  assert (zlen cells = rs_stack_len rs) by (unfold cells; autorewrite with zlen; lia).
  destruct (zwrite (stack m) 0 cells) as [st |] eqn:E.
  - exists cells, st. split_and!; auto. exact (zwrite_zlen _ _ _ _ E).
  - rewrite zwrite_in in E by lia. discriminate.
Qed.

Lemma restore_caps m rs :
  memory_ok m -> frame_ok rs -> exists caps,
    zwrite (capture m) 0 (rs_capture rs) = Some caps /\ zlen caps = zlen (capture m) /\
    captures_ok caps.
Proof.
  intros [] []. destruct (zwrite (capture m) 0 (rs_capture rs)) as [caps |] eqn:E.
  - exists caps. split; [done |]. split; [exact (zwrite_zlen _ _ _ _ E) |].
    apply zwrite_Some in E as (_ & _ & ->).
    apply Forall_app; split; [by apply captures_take |].
    apply Forall_app; split; [done | by apply captures_drop].
  - rewrite zwrite_in in E by lia. discriminate.
Qed.

Lemma pop_state1_safe m rs rest :
  memory_ok m -> frame_ok rs -> Forall frame_ok rest -> zlen rest <= state_stack_size m ->
  rs_type rs <> RE_EXEC_STATE_GREEDY_QUANT ->
  safe outcome_ok (pop_state1 m rs rest).
Proof.
  intros Hm Hf Hr Hl Ht. destruct (restore_cells m rs Hm Hf) as (cells & st & E1 & E2 & E3).
  unfold pop_state1. rewrite E1. cbn [of_opt mbind res_bind]. rewrite E2. cbn.
  destruct Hf as [? ? ? ? ? Hres]. split; [apply memory_restore; auto; apply Hm | | done | done].
  unfold resume_ok in Hres. cbn. by destruct (rs_type rs).
Qed.

Lemma pop_state_safe m rs rest :
  memory_ok m -> frame_ok rs -> Forall frame_ok rest -> zlen rest <= state_stack_size m ->
  rs_type rs <> RE_EXEC_STATE_GREEDY_QUANT ->
  safe outcome_ok (pop_state m rs rest).
Proof.
  intros Hm Hf Hr Hl Ht. destruct (restore_caps m rs Hm Hf) as (caps & E1 & E2 & E3).
  unfold pop_state. rewrite E1. cbn [of_opt mbind res_bind]. apply pop_state1_safe; auto.
  destruct Hm. split; cbn; auto. lia.
Qed.

Lemma prev_chars_bounds n : forall p q, prev_chars s n p = Ret q -> pos_ok p -> pos_ok q.
Proof.
  induction n as [| n IH]; intros p q E Hp; cbn [prev_chars] in E.
  - injection E as <-. exact Hp.
  - destruct (PREV_CHAR s p 0) as [p1 | |] eqn:E1; [| discriminate ..]. cbn in E.
    unfold pos_ok in *. assert (0 < p) as Hp0.
    { unfold PREV_CHAR in E1. destruct (Z.leb_spec 0 (p - 1)); [lia | discriminate]. }
    destruct (PREV_CHAR_bounds s (ctx_units Hctx) p) as (p2 & E2 & H2); [lia |].
    rewrite E1 in E2. injection E2 as <-. apply (IH p1); auto; lia.
Qed.

Lemma pop_greedy_safe m rs rest :
  memory_ok m -> frame_ok rs -> Forall frame_ok rest -> 1 + zlen rest <= state_stack_size m ->
  rs_type rs = RE_EXEC_STATE_GREEDY_QUANT ->
  safe outcome_ok (pop_greedy s m rs rest).
Proof.
  intros Hm Hf Hr Hl Ht. destruct (restore_caps m rs Hm Hf) as (caps & E1 & E2 & E3).
  destruct (restore_cells m rs Hm Hf) as (cells & st & E4 & E5 & E6).
  pose proof Hf as [Hs Hcl Hcp Hco Hp Hres]. unfold resume_ok in Hres. rewrite Ht in Hres.
  destruct Hres as (off & cc & q & Eoff & Ecc & Hcc & Hh & Hcnt & Hprev).
  unfold pop_greedy. rewrite E1. cbn [of_opt mbind res_bind]. rewrite E4. cbn [of_opt mbind res_bind].
  rewrite E5. cbn [of_opt mbind res_bind]. rewrite Ecc, Eoff. cbn [of_opt mbind res_bind].
  replace (Z.to_nat (rs_count rs)) with (S (Z.to_nat (rs_count rs - 1))) in Hprev by lia.
  cbn [Nat.mul] in Hprev. rewrite prev_chars_app in Hprev.
  destruct (prev_chars s (Z.to_nat cc) (rs_cptr rs)) as [p1 | |] eqn:Ep; [| discriminate ..].
  cbn [mbind res_bind] in Hprev |- *.
  assert (pos_ok p1) as Hp1.
  { apply (prev_chars_bounds (Z.to_nat cc) (rs_cptr rs)); auto. }
  rewrite wrap_small by lia. cbn [safe outcome_ok].
  split; cbn; [| exact Hh | exact Hs | exact Hp1].
  apply memory_restore; auto.
  - destruct (Z.eqb_spec (rs_count rs - 1) 0); [done |]. constructor; [| done].
    split; cbn; auto. unfold resume_ok. cbn. rewrite Ht. exists off, cc, q. split_and!; auto; lia.
  - destruct (Z.eqb_spec (rs_count rs - 1) 0); [lia | zlen_lia].
Qed.

Lemma recurse_safe frames : forall m ret,
  memory_ok m -> Forall frame_ok frames -> zlen frames <= state_stack_size m ->
  safe outcome_ok (recurse s m frames ret).
Proof.
  induction frames as [| rs rest IH]; intros m ret Hm Hf Hl.
  - cbn. split; [| by destruct ret; auto]. destruct Hm. split; cbn; auto.
  - apply Forall_cons_iff in Hf as [Hrs Hrest]. rewrite zlen_cons in Hl.
    pose proof (zlen_nonneg rest). cbn [recurse].
    destruct (rs_type rs) eqn:Et; destruct ret; cbn [negb];
      try (apply IH; auto; lia);
      [apply pop_state_safe | apply pop_state1_safe | apply pop_state_safe | apply pop_greedy_safe];
      auto; congruence || lia.
Qed.

Lemma no_match_safe m : memory_ok m -> safe outcome_ok (no_match s m false).
Proof. intros Hm. apply recurse_safe; [done | apply Hm | apply Hm]. Qed.

(** ** Pushing a frame *)
Lemma state_size_bounds : 32 <= state_size s <= 6152.
Proof.
  destruct Hctx. unfold state_size, CAPTURE_COUNT_MAX, STACK_SIZE_MAX in *. lia.
Qed.

Lemma push_state_safe m pc1 cptr1 type count :
  memory_ok m -> 0 <= stack_len m <= stack_size_max s -> pos_ok cptr1 ->
  (forall caps cells, resume_ok (mkState type (stack_len m) count cptr1 pc1 caps cells)) ->
  safe (fun '(m', r) => memory_ok m' /\ pc m' = pc m /\ cptr m' = cptr m /\
          stack_len m' = stack_len m /\ (r = 0 \/ r = -1))
    (push_state s m pc1 cptr1 type count).
Proof.
  intros Hm Hst Hc Hres. pose proof state_size_bounds as Hsz. pose proof Hm as [Hs Hcl Hco Hf Hl Hb].
  pose proof (zlen_nonneg (state_stack m)) as Hz. unfold push_state.
  set (grown := if state_stack_size m <? _ then _ else _).
  assert (match grown with
          | None => True
          | Some size => zlen (state_stack m) + 1 <= size /\ size * state_size s < 2 ^ 63
          end) as Hg.
  { unfold grown. destruct (Z.ltb_spec (state_stack_size m) (zlen (state_stack m) + 1)); [| lia].
    assert (state_stack_size m < 2 ^ 59) by nia.
    rewrite (wrap_small 64 (state_stack_size m * 3)), Z.quot_div_nonneg by lia.
    set (n := if _ <? 8 then 8 else state_stack_size m * 3 / 2).
    assert (8 <= n /\ state_stack_size m * 3 / 2 <= n /\ (n = 8 \/ n * 2 <= state_stack_size m * 3)) as Hn.
    { unfold n. destruct (Z.ltb_spec (state_stack_size m * 3 / 2) 8); zdiv_lia. }
    assert (n * state_size s < 2 ^ 64) by (destruct Hn as (_ & _ & [-> | Hn]); nia).
    rewrite wrap_small by nia.
    destruct (state_realloc s (n * state_size s)) eqn:Er; [| done].
    apply (ctx_realloc Hctx) in Er. split; [zdiv_lia | done]. }
  destruct grown as [size |]; [| cbn; auto 10].
  destruct Hg as [Hg1 Hg2].
  rewrite (wrap_small 64 (size * state_size s)) by nia.
  rewrite (proj2 (Z.leb_le ((zlen (state_stack m) + 1) * state_size s) _)) by nia.
  cbn [assert_ mbind res_bind].
  pose proof (ctx_captures Hctx). pose proof (ctx_stack Hctx). unfold STACK_SIZE_MAX in *.
  rewrite zread_in by lia. cbn [of_opt mbind res_bind].
  rewrite zread_in by lia. cbn [of_opt mbind res_bind].
  rewrite (proj2 (Z.leb_le _ _)) by lia. cbn [assert_ mbind res_bind].
  rewrite (wrap_small 8) by lia. cbn [safe]. split_and!; auto.
  split; cbn [set_states stack capture state_stack state_stack_size]; auto; [| zlen_lia].
  constructor; [| done]. split; cbn [rs_stack_len rs_stack rs_capture rs_cptr]; auto.
  - autorewrite with zlen. lia.
  - autorewrite with zlen. lia.
  - apply captures_take. by rewrite drop_0.
Qed.

(** ** One instruction *)
Lemma target_ok_Some pos h : target_ok l pos h = true -> height_at l pos = Some h.
Proof.
  unfold target_ok. destruct (height_at l pos) as [h' |]; [| discriminate].
  intros ->%Z.eqb_eq. reflexivity.
Qed.

Lemma jump_ok_Some pos h :
  jump_ok s l pos h = true -> exists val, get_u32 (bc s) pos = Some val /\
    height_at l (pos + 4 + i32 val) = Some h.
Proof.
  unfold jump_ok. destruct (get_u32 (bc s) pos) as [val |]; [| discriminate].
  intros ?%target_ok_Some. eauto.
Qed.

Lemma u8_lt_Some pos n : u8_lt s pos n = true -> exists v, get_u8 (bc s) pos = Some v /\ 0 <= v < n.
Proof.
  unfold u8_lt, get_u8. destruct (znth (bc s) pos) as [v |] eqn:E; [| discriminate].
  intros Hv%Z.ltb_lt. exists v. split; [done |].
  apply znth_Some in E as [_ E]. apply list_elem_of_lookup_2 in E.
  pose proof (ctx_bytes Hctx) as Hb. rewrite list.Forall_forall in Hb. apply Hb in E. unfold is_byte in E. lia.
Qed.

(** Continue at [pos'] with the same memory. *)
Lemma next_ok m m' pos' h' cptr' :
  inv m -> same_state m m' -> height_at l pos' = Some h' -> pc m' = pos' -> stack_len m = h' ->
  cptr m' = cptr' -> pos_ok cptr' -> inv m'.
Proof.
  intros [Hm _ Hs _] Hss Hh <- <- <- Hp. pose proof Hss as (_ & _ & E & _ & _).
  split; [eapply memory_same; eauto | by rewrite E | by rewrite E | done].
Qed.

Lemma char_step_safe m pos' o :
  inv m -> height_at l pos' = Some (stack_len m) ->
  char_step s (set_pc m (pc m + 1)) false o pos' -> safe outcome_ok o.
Proof.
  intros Hi Hh [(c & p & -> & E & Hlt) | (m' & -> & Hs)].
  - cbn in E, Hlt |- *. destruct (GET_CHAR_bounds s (ctx_units Hctx) (cptr m) (cbuf_end s))
      as (c' & p' & E' & _ & Hp); [destruct (inv_cptr m Hi); lia | lia |].
    rewrite E in E'. injection E' as <- <-.
    eapply next_ok; [exact Hi | | exact Hh | | | |]; try reflexivity; [repeat split |].
    pose proof (inv_cptr m Hi). unfold pos_ok in *. cbn. lia.
  - apply no_match_safe. eapply memory_same; [| apply Hi].
    eapply same_state_trans; [| exact Hs]. repeat split.
Qed.

Lemma no_match_pc m p : inv m -> safe outcome_ok (no_match s (set_pc m p) false).
Proof. intros Hi. apply no_match_safe. eapply memory_same; [| apply Hi]. repeat split. Qed.

Lemma inv_set_pc m p : inv m -> height_at l p = Some (stack_len m) -> inv (set_pc m p).
Proof. intros [Hm _ ? ?] Hh. split; auto. eapply memory_same; [| apply Hm]. repeat split. Qed.

Lemma split_safe m next_first val :
  inv m -> get_u32 (bc s) (pc m + 1) = Some val ->
  height_at l (pc m + 1 + 4 + i32 val) = Some (stack_len m) ->
  height_at l (pc m + 5) = Some (stack_len m) ->
  safe outcome_ok (op_split s (set_pc m (pc m + 1)) next_first).
Proof.
  intros Hi Ev Hj Hn. replace (pc m + 5) with (pc m + 1 + 4) in Hn by lia.
  pose proof Hi as [Hm _ Hst Hc]. unfold op_split. cbn [pc set_pc]. rewrite Ev.
  cbn [of_opt mbind res_bind].
  destruct next_first; cbv beta iota;
    (eapply safe_bind;
     [apply push_state_safe; cbn; auto; eapply memory_same; [| apply Hm]; repeat split |];
     intros [m' r] (Hm' & E1 & E2 & E3 & Hr); cbn in *;
     destruct (r <? 0); cbn; [auto |]; split; rewrite ?E1, ?E2, ?E3; auto).
Qed.

Lemma lookahead_safe m negative val :
  inv m -> get_u32 (bc s) (pc m + 1) = Some val ->
  height_at l (pc m + 1 + 4 + i32 val) = Some (stack_len m) ->
  height_at l (pc m + 5) = Some (stack_len m) ->
  safe outcome_ok (op_lookahead s (set_pc m (pc m + 1)) negative).
Proof.
  intros Hi Ev Hj Hn. replace (pc m + 5) with (pc m + 1 + 4) in Hn by lia.
  pose proof Hi as [Hm _ Hst Hc]. unfold op_lookahead. cbn [pc set_pc]. rewrite Ev.
  cbn [of_opt mbind res_bind]. eapply safe_bind.
  { apply push_state_safe; cbn; auto; [eapply memory_same; [| apply Hm]; repeat split |].
    intros. by destruct negative. }
  intros [m' r] (Hm' & E1 & E2 & E3 & Hr). cbn in *.
  destruct (r <? 0); cbn; [auto |]. split; rewrite ?E1, ?E2, ?E3; auto.
Qed.

Lemma save_safe m is_end v :
  inv m -> get_u8 (bc s) (pc m + 1) = Some v -> 0 <= v < capture_count s ->
  height_at l (pc m + 2) = Some (stack_len m) ->
  safe outcome_ok (op_save s (set_pc m (pc m + 1)) is_end).
Proof.
  intros Hi Ev Hv Hn. pose proof Hi as [[Hs Hcl Hco Hf Hl Hb] _ Hst Hc].
  unfold op_save. cbn [pc set_pc capture cptr]. rewrite Ev. cbn [of_opt mbind res_bind].
  rewrite (proj2 (Z.ltb_lt _ _)) by lia. cbn [assert_ mbind res_bind].
  destruct (zupd_is_Some (capture m) (2 * v + (if is_end then 1 else 0)) (Some (cptr m))) as [caps E];
    [destruct is_end; lia |].
  rewrite E. cbn. pose proof (zupd_zlen _ _ _ _ E) as El. apply zupd_Some in E as [_ ->].
  split; cbn; auto; [| by replace (pc m + 1 + 1) with (pc m + 2) by lia].
  split; cbn; auto; [by rewrite El |]. apply Forall_insert; [done | exact Hc].
Qed.

Lemma reset_captures_safe n : forall caps v,
  captures_ok caps -> 0 <= v -> 2 * (v + Z.of_nat n) <= zlen caps ->
  exists caps', reset_captures n caps v = Ret caps' /\ captures_ok caps' /\ zlen caps' = zlen caps.
Proof.
  induction n as [| n IH]; intros caps v Hc Hv Hl; [exists caps; auto |]. cbn [reset_captures].
  destruct (zupd_is_Some caps (2 * v) None) as [c1 E1]; [lia |].
  rewrite E1. cbn [of_opt mbind res_bind]. pose proof (zupd_zlen _ _ _ _ E1).
  destruct (zupd_is_Some c1 (2 * v + 1) None) as [c2 E2]; [lia |].
  rewrite E2. cbn [of_opt mbind res_bind]. pose proof (zupd_zlen _ _ _ _ E2).
  destruct (IH c2 (v + 1)) as (c3 & -> & Hc3 & Hl3); [| lia | lia |].
  - apply zupd_Some in E2 as [_ ->]. apply Forall_insert; [| exact I].
    apply zupd_Some in E1 as [_ ->]. apply Forall_insert; [exact Hc | exact I].
  - exists c3. split_and!; auto. lia.
Qed.

Lemma save_reset_safe m v v2 :
  inv m -> get_u8 (bc s) (pc m + 1) = Some v -> 0 <= v ->
  get_u8 (bc s) (pc m + 2) = Some v2 -> 0 <= v2 < capture_count s ->
  height_at l (pc m + 3) = Some (stack_len m) ->
  safe outcome_ok (op_save_reset s (set_pc m (pc m + 1))).
Proof.
  intros Hi Ev Hv Ev2 Hv2 Hn. pose proof Hi as [[Hs Hcl Hco Hf Hl Hb] _ Hst Hc].
  unfold op_save_reset. cbn [pc set_pc capture]. rewrite Ev. cbn [of_opt mbind res_bind].
  replace (pc m + 1 + 1) with (pc m + 2) by lia. rewrite Ev2. cbn [of_opt mbind res_bind].
  rewrite (proj2 (Z.ltb_lt _ _)) by lia. cbn [assert_ mbind res_bind].
  assert (exists caps', reset_captures (Z.to_nat (v2 + 1 - v)) (capture m) v = Ret caps' /\
            captures_ok caps' /\ zlen caps' = zlen (capture m)) as (caps' & -> & Hc' & Hl').
  { destruct (Z.leb_spec v v2); [apply reset_captures_safe; auto; lia |].
    rewrite Z2Nat.nonpos by lia. cbn. eauto. }
  cbn. split; cbn; auto; [| by replace (pc m + 1 + 2) with (pc m + 3) by lia].
  split; cbn; auto. by rewrite Hl'.
Qed.

(** A store in the stack. *)
Lemma memory_stack m st n p :
  memory_ok m -> zlen st = zlen (stack m) -> memory_ok (set_stack (set_pc m p) st n).
Proof. intros [] E. split; cbn; auto. congruence. Qed.

Lemma push_safe m v p st :
  inv m -> stack_len m < stack_size_max s -> zupd (stack m) (stack_len m) v = Some st ->
  height_at l p = Some (stack_len m + 1) ->
  inv (set_stack (set_pc m p) st (stack_len m + 1)).
Proof.
  intros [Hm _ Hst Hc] Hlt E Hh. pose proof (zupd_zlen _ _ _ _ E).
  split; [by apply memory_stack | exact Hh | cbn; lia | exact Hc].
Qed.

Lemma push_room m v :
  inv m -> stack_len m < stack_size_max s ->
  exists st, zupd (stack m) (stack_len m) v = Some st.
Proof.
  intros [Hm _ Hst _] Hlt. destruct Hm.
  destruct (zupd_is_Some (stack m) (stack_len m) v) as [st E]; [lia | eauto].
Qed.

Lemma top_cell m : inv m -> 0 < stack_len m -> exists x, znth (stack m) (stack_len m - 1) = Some x.
Proof.
  intros [Hm _ Hst _] Hpos. destruct Hm.
  destruct (proj2 (znth_is_Some (stack m) (stack_len m - 1))) as [x E]; [lia | eauto].
Qed.

Lemma loop_safe m val :
  inv m -> 0 < stack_len m -> get_u32 (bc s) (pc m + 1) = Some val ->
  height_at l (pc m + 1 + 4 + i32 val) = Some (stack_len m) ->
  height_at l (pc m + 5) = Some (stack_len m) ->
  safe outcome_ok (op_loop s (set_pc m (pc m + 1))).
Proof.
  intros Hi Hpos Ev Hj Hn. replace (pc m + 5) with (pc m + 1 + 4) in Hn by lia.
  unfold op_loop. cbn [pc set_pc stack stack_len]. rewrite Ev. cbn [of_opt mbind res_bind].
  destruct (top_cell m Hi Hpos) as [x Ex]. rewrite Ex. cbn [of_opt mbind res_bind].
  pose proof (znth_lt_Some _ _ _ Ex) as Hx.
  destruct (zupd_is_Some (stack m) (stack_len m - 1) (u64 (x - 1)) Hx) as [st Es].
  rewrite Es. cbn [of_opt mbind res_bind safe outcome_ok]. pose proof (zupd_zlen _ _ _ _ Es).
  destruct Hi as [Hm _ Hst Hc]. split; [| | exact Hst | exact Hc].
  - eapply memory_same; [| by apply (memory_stack m st (stack_len m) (pc m) Hm)]. repeat split.
  - cbn. by destruct (negb _).
Qed.

Lemma bne_char_pos_safe m val :
  inv m -> 0 < stack_len m -> get_u32 (bc s) (pc m + 1) = Some val ->
  height_at l (pc m + 1 + 4 + i32 val) = Some (stack_len m - 1) ->
  height_at l (pc m + 5) = Some (stack_len m - 1) ->
  safe outcome_ok (op_bne_char_pos s (set_pc m (pc m + 1))).
Proof.
  intros Hi Hpos Ev Hj Hn. replace (pc m + 5) with (pc m + 1 + 4) in Hn by lia.
  unfold op_bne_char_pos. cbn [pc set_pc stack stack_len]. rewrite Ev. cbn [of_opt mbind res_bind].
  destruct (top_cell m Hi Hpos) as [x Ex]. rewrite Ex. cbn [of_opt mbind res_bind safe outcome_ok].
  destruct Hi as [Hm _ Hst Hc]. split; [| | cbn; lia | exact Hc].
  - eapply memory_same; [| by apply (memory_stack m (stack m) (stack_len m - 1) (pc m) Hm)]. repeat split.
  - cbn. by destruct (negb _).
Qed.

(** ** Back references *)
Lemma backref_forward_safe fuel : forall p1 p1_end p,
  0 <= p1 -> pos_ok p1_end -> pos_ok p ->
  safe (fun r => match r with Some p => pos_ok p | None => True end)
    (backref_forward s fuel p1 p1_end p).
Proof.
  induction fuel as [| fuel IH]; intros p1 p1_end p H1 He Hp; [exact I |]. unfold pos_ok in *.
  cbn [backref_forward]. destruct (Z.ltb_spec p1 p1_end); [| exact Hp].
  destruct (Z.leb_spec (cbuf_end s) p); [exact I |].
  destruct (GET_CHAR_bounds s (ctx_units Hctx) p1 p1_end) as (c1 & q1 & -> & Hc1 & Hq1); [lia | lia |].
  destruct (GET_CHAR_bounds s (ctx_units Hctx) p (cbuf_end s)) as (c2 & q2 & -> & Hc2 & Hq2); [lia | lia |].
  cbn [mbind res_bind]. destruct (canonicalize_Ret s c1 Hc1) as [x1 ->]. cbn [mbind res_bind].
  destruct (canonicalize_Ret s c2 Hc2) as [x2 ->]. cbn [mbind res_bind].
  destruct (x1 =? x2); cbn [negb]; [| exact I]. apply IH; lia.
Qed.

Lemma backref_backward_safe fuel : forall p1 p1_start p,
  0 <= p1_start -> p1 <= cbuf_end s -> pos_ok p ->
  safe (fun r => match r with Some p => pos_ok p | None => True end)
    (backref_backward s fuel p1 p1_start p).
Proof.
  induction fuel as [| fuel IH]; intros p1 p1_start p H1 He Hp; [exact I |]. unfold pos_ok in *.
  cbn [backref_backward]. destruct (Z.ltb_spec p1_start p1); [| exact Hp].
  destruct (Z.eqb_spec p 0); [exact I |].
  destruct (GET_PREV_CHAR_bounds s (ctx_units Hctx) p1 p1_start) as (c1 & q1 & -> & Hc1 & Hq1); [lia | lia |].
  destruct (GET_PREV_CHAR_bounds s (ctx_units Hctx) p 0) as (c2 & q2 & -> & Hc2 & Hq2); [lia | lia |].
  cbn [mbind res_bind]. destruct (canonicalize_Ret s c1 Hc1) as [x1 ->]. cbn [mbind res_bind].
  destruct (canonicalize_Ret s c2 Hc2) as [x2 ->]. cbn [mbind res_bind].
  destruct (x1 =? x2); cbn [negb]; [| exact I]. apply IH; lia.
Qed.

Lemma capture_read m i o :
  inv m -> znth (capture m) i = Some (Some o) -> pos_ok o.
Proof.
  intros [Hm _ _ _] [_ E]%znth_Some. apply list_elem_of_lookup_2 in E.
  pose proof (mem_caps _ Hm) as Hc. unfold captures_ok in Hc. rewrite list.Forall_forall in Hc.
  exact (Hc _ E).
Qed.

Lemma back_reference_safe m backward v :
  inv m -> get_u8 (bc s) (pc m + 1) = Some v -> 0 <= v ->
  height_at l (pc m + 2) = Some (stack_len m) ->
  safe outcome_ok (op_back_reference s (set_pc m (pc m + 1)) false backward).
Proof.
  intros Hi Ev Hv Hn. unfold op_back_reference. cbn [pc set_pc]. rewrite Ev.
  cbn [of_opt mbind res_bind capture cptr set_pc].
  replace (pc m + 2) with (pc m + 1 + 1) in Hn by lia.
  pose proof (inv_set_pc m _ Hi Hn) as Hi'.
  destruct (Z.leb_spec (capture_count s) v); [apply no_match_safe, Hi' |].
  pose proof (mem_caps_len _ (inv_memory _ Hi)) as Hcl.
  destruct (proj2 (znth_is_Some (capture m) (2 * v))) as [o1 E1]; [lia |].
  destruct (proj2 (znth_is_Some (capture m) (2 * v + 1))) as [o2 E2]; [lia |].
  rewrite E1. cbn [of_opt mbind res_bind]. rewrite E2. cbn [of_opt mbind res_bind].
  destruct o1 as [p1 |]; [| exact Hi']. destruct o2 as [p2 |]; [| exact Hi'].
  pose proof (capture_read _ _ _ Hi E1). pose proof (capture_read _ _ _ Hi E2).
  pose proof (inv_cptr _ Hi) as Hc. eapply safe_bind.
  { destruct backward; [apply backref_backward_safe | apply backref_forward_safe];
      unfold pos_ok in *; lia. }
  intros [p |] Hp; [| apply no_match_safe, Hi'].
  eapply next_ok; [exact Hi' | apply same_state_cptr | exact Hn | done | done | done | exact Hp].
Qed.

(** ** Greedy quantifiers *)
Lemma simple_quant_safe fuel body m off cc :
  inv m -> get_u32 (bc s) (pc m + 1) = Some off -> get_u32 (bc s) (pc m + 13) = Some cc ->
  1 <= cc -> pc m + 17 <= zlen (bc s) -> 0 <= pc m ->
  height_at l (pc m + 17 + i32 off) = Some (stack_len m) ->
  (forall m', pc m' = pc m + 17 -> pos_ok (cptr m') -> safe (atom_result s cc m') (body m')) ->
  safe outcome_ok (op_simple_greedy_quant s fuel body (set_pc m (pc m + 1)) false).
Proof.
  intros Hi Eoff Ecc Hcc Hlen Hpc0 Hh Hbody. unfold op_simple_greedy_quant. cbn [pc set_pc].
  rewrite Eoff. cbn [of_opt mbind res_bind].
  destruct (get_un_Some 4 (bc s) (pc m + 1 + 4)) as [qmin Emin]; [lia | lia |].
  destruct (get_un_Some 4 (bc s) (pc m + 1 + 8)) as [qmax Emax]; [lia | lia |].
  change (get_un 4) with get_u32 in *.
  rewrite Emin. cbn [of_opt mbind res_bind]. rewrite Emax. cbn [of_opt mbind res_bind].
  replace (pc m + 1 + 16) with (pc m + 17) by lia.
  set (m1 := set_pc (set_pc m (pc m + 1)) (pc m + 17 + i32 off)).
  assert (inv m1) as Hi1 by (unfold m1; apply (inv_set_pc m); auto).
  pose proof (inv_cptr _ Hi1) as Hc1.
  eapply safe_bind.
  { apply (quant_loop_safe s (ctx_units Hctx) body (pc m + 17) qmax cc (cptr m1) Hbody Hc1 fuel m1 0).
    constructor. }
  intros [[m2 err] q] (Hs & Hpc & -> & k & -> & Hadv).
  pose proof (advance_bounds s (ctx_units Hctx) _ _ _ Hadv Hc1) as Hb.
  assert (inv m2) as Hi2.
  { eapply next_ok; [exact Hi1 | exact Hs | exact Hh | exact Hpc | done | done |].
    unfold pos_ok. destruct Hc1. lia. }
  destruct (Z.ltb_spec (Z.of_nat k) qmin); [apply no_match_safe, Hi2 |].
  destruct (Z.ltb_spec qmin (Z.of_nat k)); [| exact Hi2].
  pose proof (get_un_range 4 _ _ _ (ctx_bytes Hctx) Emin) as Hqmin.
  assert (Z.of_nat k < 2 ^ 31) as Hk by (pose proof (ctx_input Hctx); destruct Hc1; nia).
  eapply safe_bind.
  { apply push_state_safe; [apply Hi2 | apply Hi2 | apply Hi2 |]. intros caps cells.
    assert (exists q, prev_chars s (Z.to_nat (Z.of_nat k - qmin) * Z.to_nat cc) (cptr m2) = Ret q)
      as [q Eq].
    { destruct (prev_chars_advance s (ctx_units Hctx) _ _ _ Hadv Hc1) as [E | (q & E & _)];
        replace (k * Z.to_nat cc)%nat
          with (Z.to_nat (Z.of_nat k - qmin) * Z.to_nat cc + Z.to_nat qmin * Z.to_nat cc)%nat in E by nia;
        rewrite prev_chars_app in E;
        (destruct (prev_chars s (Z.to_nat (Z.of_nat k - qmin) * Z.to_nat cc) (cptr m2)); [eauto | done ..]). }
    exists off, cc, q. cbn [rs_pc rs_stack_len rs_count rs_cptr].
    replace (pc m + 17 - 16) with (pc m + 1) by lia.
    replace (pc m + 1 + 12) with (pc m + 13) by lia.
    replace (pc m + 1 + 16) with (pc m + 17) by lia.
    pose proof Hs as (_ & _ & Esl & _ & _). rewrite Esl. split_and!; auto; lia. }
  intros [m3 r] (Hm3 & E1 & E2 & E3 & Hr). destruct (r <? 0); cbn; [auto |].
  destruct Hi2. split; rewrite ?E1, ?E2, ?E3; auto.
Qed.

(** ** The switch *)
Lemma exec_op_safe fuel body m op :
  inv m -> op_at s (pc m) = Some op ->
  (forall cc m', simple_body s (length (bc s)) (pc m') cc = true -> pos_ok (cptr m') ->
     safe (atom_result s cc m') (body m')) ->
  safe outcome_ok (exec_op s fuel body (set_pc m (pc m + 1)) false op).
Proof.
  intros Hi Eop Hbody. pose proof Hi as [Hm Hpc Hst Hc]. pose proof (Hverify _ _ Hpc) as Hv.
  pose proof (op_at_bounds _ _ _ Eop) as Hpb.
  unfold verify_instr in Hv. rewrite Eop in Hv.
  destruct (instr_len s op (pc m)) as [len |] eqn:El; [| discriminate].
  destruct (is_char_op op) eqn:Hco.
  { assert (char_op_ok s op (pc m) len = true /\ target_ok l (pc m + len) (stack_len m) = true) as [Hok Hn].
    { apply andb_true_iff. by destruct op; try discriminate Hco. }
    apply (char_step_safe m (pc m + len)); [done | by apply target_ok_Some |].
    apply char_op_step; auto; [apply Hctx | apply Hctx | lia]. }
  destruct (is_assertion_op op) eqn:Hao.
  { assert (target_ok l (pc m + len) (stack_len m) = true /\ len = 1) as [Hn ->].
    { destruct op; try discriminate Hao; (split; [exact Hv | injection El as <-; vm_compute; done]). }
    destruct (assertion_op_step s (ctx_units Hctx) fuel body op (set_pc m (pc m + 1)) false Hao Hc)
      as [-> | ->]; [apply inv_set_pc; auto; by apply target_ok_Some | by apply no_match_pc]. }
  destruct op; try discriminate; cbn [exec_op];
    injection El as <-; rewrite ?andb_true_iff in Hv.
  - (* goto *)
    apply jump_ok_Some in Hv as (val & Ev & Hh). unfold op_goto. cbn [pc set_pc]. rewrite Ev.
    cbn [of_opt mbind res_bind safe outcome_ok].
    apply (inv_set_pc m); auto. by replace (pc m + 1 + (4 + i32 val)) with (pc m + 1 + 4 + i32 val) by lia.
  - destruct Hv as [(val & Ev & Hh)%jump_ok_Some Hn%target_ok_Some]. by apply (split_safe m false val).
  - destruct Hv as [(val & Ev & Hh)%jump_ok_Some Hn%target_ok_Some]. by apply (split_safe m true val).
  - (* match *)
    apply recurse_safe; [eapply memory_same; [| apply Hm]; repeat split | apply Hm | apply Hm].
  - destruct Hv as [(v & Ev & Hv)%u8_lt_Some Hn%target_ok_Some]. by apply (save_safe m false v).
  - destruct Hv as [(v & Ev & Hv)%u8_lt_Some Hn%target_ok_Some]. by apply (save_safe m true v).
  - destruct Hv as [[(v & Ev & Hv)%u8_lt_Some (v2 & Ev2 & Hv2)%u8_lt_Some] Hn%target_ok_Some].
    apply (save_reset_safe m v v2); auto. lia.
  - (* loop *)
    destruct Hv as [[Hpos (val & Ev & Hh)%jump_ok_Some] Hn%target_ok_Some].
    apply (loop_safe m val); auto. lia.
  - (* push_i32 *)
    destruct Hv as [[Hlt Hlen] Hn%target_ok_Some]. change (op_size REOP_push_i32) with 5 in *.
    destruct (get_un_Some 4 (bc s) (pc m + 1)) as [val Ev]; [lia | lia |].
    unfold op_push_i32. cbn [pc set_pc stack stack_len]. unfold get_u32. rewrite Ev.
    cbn [of_opt mbind res_bind]. destruct (push_room m val) as [st Es]; [done | lia |].
    rewrite Es. cbn [of_opt mbind res_bind safe outcome_ok].
    apply (push_safe m val (pc m + 1 + 4)); auto; [lia |].
    by replace (pc m + 1 + 4) with (pc m + 5) by lia.
  - (* drop *)
    destruct Hv as [Hpos Hn%target_ok_Some]. unfold op_drop. cbn [safe outcome_ok].
    split; [eapply memory_same; [| by apply (memory_stack m (stack m) (stack_len m - 1) (pc m) Hm)];
            repeat split | exact Hn | cbn; lia | exact Hc].
  - destruct Hv as [(v & Ev & Hv)%u8_lt_Some Hn%target_ok_Some].
    apply (back_reference_safe m false v); auto. lia.
  - destruct Hv as [(v & Ev & Hv)%u8_lt_Some Hn%target_ok_Some].
    apply (back_reference_safe m true v); auto. lia.
  - destruct Hv as [(val & Ev & Hh)%jump_ok_Some Hn%target_ok_Some]. by apply (lookahead_safe m false val).
  - destruct Hv as [(val & Ev & Hh)%jump_ok_Some Hn%target_ok_Some]. by apply (lookahead_safe m true val).
  - (* push_char_pos *)
    destruct Hv as [[Hlt Hlen] Hn%target_ok_Some]. unfold op_push_char_pos. cbn [stack set_pc stack_len cptr].
    destruct (push_room m (ptr_value s (cptr m))) as [st Es]; [done | lia |].
    rewrite Es. cbn [of_opt mbind res_bind safe outcome_ok].
    apply (push_safe m (ptr_value s (cptr m)) (pc m + 1)); auto. lia.
  - (* bne_char_pos *)
    destruct Hv as [[Hpos (val & Ev & Hh)%jump_ok_Some] Hn%target_ok_Some].
    apply (bne_char_pos_safe m val); auto. lia.
  - (* prev *)
    apply target_ok_Some in Hv. pose proof (inv_set_pc m _ Hi Hv) as Hi'.
    unfold op_prev. cbn [cptr set_pc]. destruct (Z.eqb_spec (cptr m) 0); [by apply no_match_pc |].
    destruct Hc as [Hc1 Hc2].
    destruct (PREV_CHAR_bounds s (ctx_units Hctx) (cptr m)) as (p & -> & Hp); [lia |].
    cbn [mbind res_bind safe outcome_ok].
    eapply next_ok; [exact Hi' | apply same_state_cptr | exact Hv | done | done | done |].
    unfold pos_ok. cbn. lia.
  - (* simple_greedy_quant *)
    destruct Hv as [Hlen Hq]. change (op_size REOP_simple_greedy_quant) with 17 in *.
    unfold quant_ok in Hq.
    destruct (get_u32 (bc s) (pc m + 1)) as [off |] eqn:Eoff; [| discriminate].
    destruct (get_u32 (bc s) (pc m + 13)) as [cc |] eqn:Ecc; [| discriminate].
    rewrite !andb_true_iff in Hq. destruct Hq as [[Hh%target_ok_Some Hcc] Hb].
    apply (simple_quant_safe fuel body m off cc); auto; try lia.
    intros m' Epc Hp. apply Hbody; [| exact Hp]. by rewrite Epc.
Qed.

Definition final_ok (o : machine * result) : Prop :=
  memory_ok o.1 /\ (o.2 = RET_YES \/ o.2 = RET_NO \/ o.2 = RET_ERROR).

Lemma height_at_op pos h : height_at l pos = Some h -> exists op, op_at s pos = Some op.
Proof.
  intros Hh. pose proof (Hverify _ _ Hh) as Hv. unfold verify_instr in Hv.
  destruct (op_at s pos); [eauto | discriminate].
Qed.

Lemma backtrack_safe fuel : forall m, inv m -> safe final_ok (lre_exec_backtrack s fuel m false).
Proof.
  induction fuel as [| fuel IH]; intros m Hi; [exact I |]. cbn [lre_exec_backtrack].
  destruct (height_at_op _ _ (inv_pc m Hi)) as [op Eop].
  pose proof Eop as (b & Eb & Er)%op_at_Some. rewrite Eb. cbn [of_opt mbind res_bind].
  rewrite Er. cbn [of_opt mbind res_bind]. eapply safe_bind.
  - apply exec_op_safe; [exact Hi | exact Eop |]. intros cc m' Hb Hp.
    eapply atom_safe; [apply Hctx | apply Hctx | exact Hb | exact Hp].
  - intros [m' | m' r] Ho; [by apply IH | exact Ho].
Qed.
End safety.

(** ** [verify] establishes the hypothesis of the invariant *)
Lemma height_at_in l pos h : height_at l pos = Some h -> In (pos, h) l.
Proof.
  unfold height_at. destruct (List.find _ l) as [[p h'] |] eqn:E; [| discriminate].
  apply find_some in E as [Hin Ep]. cbn in *. intros [= <-]. apply Z.eqb_eq in Ep. by subst.
Qed.

Lemma verify_spec s code_len :
  verify s code_len = true -> exists l, code_scan s code_len = Some l /\
    (forall pos h, height_at l pos = Some h -> verify_instr s l pos h = true) /\
    height_at l 0 = Some 0.
Proof.
  unfold verify. destruct (code_scan s code_len) as [l |]; [| discriminate].
  intros [Hall Ht]%andb_true_iff. exists l. split; [done |]. split; [| by apply target_ok_Some].
  intros pos h Hh%height_at_in. exact (proj1 (forallb_forall _ _) Hall _ Hh).
Qed.

(** The contract of a call: the header's counts match the arrays, the bytecode
    passes the verifier, the start is within the input. *)
Record call_ok (s : REExecContext) (bc_buf cbuf0 : list Z) (capture0 : list (option Z))
    (stack0 : list Z) (cindex ctype addr : Z) (realloc : Z -> bool) : Prop := {
  call_context : exec_context bc_buf cbuf0 ctype addr realloc = Ret s;
  call_env : context_ok s;
  call_verify : exists code_len, get_u32 bc_buf 3 = Some code_len /\ verify s code_len = true;
  call_captures : zlen capture0 = 2 * capture_count s;
  call_stack : stack_size_max s <= zlen stack0;
  call_index : 0 <= cindex <= cbuf_end s
}.

(** The machine [lre_exec] starts. *)
Lemma init_machine s bc_buf cbuf0 capture0 stack0 cindex ctype addr realloc :
  call_ok s bc_buf cbuf0 capture0 stack0 cindex ctype addr realloc ->
  exists code_len l caps st,
    get_u32 bc_buf 3 = Some code_len /\ code_scan s code_len = Some l /\
    (forall pos h, height_at l pos = Some h -> verify_instr s l pos h = true) /\
    init_capture s capture0 = Ret caps /\ zread stack0 0 (stack_size_max s) = Some st /\
    zlen caps = zlen capture0 /\
    inv s l (mkMachine caps st 0 0 cindex [] 0).
Proof.
  intros [Hc Henv (code_len & Hlen & Hv) Hcap Hst Hi].
  destruct (verify_spec s code_len Hv) as (l & Hsc & Hl & H0). exists code_len, l.
  pose proof (ctx_captures s Henv). pose proof (ctx_stack s Henv).
  unfold init_capture. rewrite zwrite_in by (rewrite ?zlen_replicate; lia). rewrite zread_in by lia.
  eexists _, _. do 2 (split; [assumption |]). split; [exact Hl |].
  split; [reflexivity |]. split; [reflexivity |].
  assert (zlen (take (Z.to_nat 0) capture0 ++ replicate (Z.to_nat (capture_count s * 2)) None ++
            drop (Z.to_nat (0 + zlen (replicate (Z.to_nat (capture_count s * 2)) (@None Z)))) capture0)
          = zlen capture0) as El by (autorewrite with zlen; lia).
  split; [exact El |]. split; [| exact H0 | cbn; lia | exact Hi].
  split; cbn [stack capture state_stack state_stack_size].
  - autorewrite with zlen. lia.
  - lia.
  - apply Forall_app; split; [constructor |]. apply Forall_app; split.
    + apply Forall_replicate. exact I.
    + rewrite drop_ge; [constructor |]. rewrite zlen_replicate. unfold zlen in Hcap. lia.
  - constructor.
  - rewrite zlen_nil. lia.
  - lia.
Qed.

Lemma lre_exec_unfold fuel s bc_buf cbuf0 capture0 stack0 cindex ctype addr realloc caps st :
  exec_context bc_buf cbuf0 ctype addr realloc = Ret s ->
  init_capture s capture0 = Ret caps -> zread stack0 0 (stack_size_max s) = Some st ->
  lre_exec fuel capture0 stack0 bc_buf cbuf0 cindex ctype addr realloc =
  ('(m, r) ← lre_exec_backtrack s fuel (mkMachine caps st 0 0 cindex [] 0) false;
   Ret (capture m, r)).
Proof. intros E1 E2 E3. unfold lre_exec. rewrite E1. cbn. rewrite E2. cbn. by rewrite E3. Qed.

(** C1: on bytecode that passes the verifier, [lre_exec] is memory safe for
    every input, start position, flags, alphabet width and allocator: no
    access outside an object, no failed assertion, no [abort()]; the result is
    1, 0 or -1 and every capture points into the input. *)
Theorem lre_exec_safe fuel s bc_buf cbuf0 capture0 stack0 cindex ctype addr realloc :
  call_ok s bc_buf cbuf0 capture0 stack0 cindex ctype addr realloc ->
  match lre_exec fuel capture0 stack0 bc_buf cbuf0 cindex ctype addr realloc with
  | Ret (caps, r) => captures_ok s caps /\ (r = RET_YES \/ r = RET_NO \/ r = RET_ERROR)
  | Fault => False
  | NoFuel => True
  end.
Proof.
  intros Hcall. destruct (init_machine _ _ _ _ _ _ _ _ _ Hcall)
    as (code_len & l & caps & st & _ & _ & Hl & Ei & Es & _ & Hinv).
  rewrite (lre_exec_unfold fuel s bc_buf cbuf0 capture0 stack0 cindex ctype addr realloc caps st
             (call_context _ _ _ _ _ _ _ _ _ Hcall) Ei Es).
  pose proof (backtrack_safe s l (call_env _ _ _ _ _ _ _ _ _ Hcall) Hl fuel _ Hinv) as Hs.
  destruct (lre_exec_backtrack s fuel _ false) as [[m r] | |]; cbn in *; try done.
  destruct Hs as [Hm Hr]. split; [apply Hm | exact Hr].
Qed.

(** ** A concrete call: /a+b/y on "xaab" from index 1 *)
Definition code_a_plus_b : list Z :=
  [32; 1; 0; 29; 0; 0; 0] ++
  [reop_byte REOP_save_start; 0] ++
  [reop_byte REOP_simple_greedy_quant; 4; 0; 0; 0; 1; 0; 0; 0; 255; 255; 255; 127; 1; 0; 0; 0] ++
  [reop_byte REOP_char; 97; 0; reop_byte REOP_match] ++
  [reop_byte REOP_char; 98; 0] ++
  [reop_byte REOP_save_end; 0; reop_byte REOP_match].

Example run_a_plus_b :
  lre_exec 100 [None; None] [] code_a_plus_b [120; 97; 97; 98] 1 0 4096 (fun n => n <? 100000) =
  Ret ([Some 1; Some 4], RET_YES).
Proof. vm_compute. reflexivity. Qed.

Definition context_a_plus_b (input : list Z) : REExecContext :=
  mkContext (drop 7 code_a_plus_b) input 4096 0 1 0 false false false (fun n => n <? 100000).

Lemma call_a_plus_b :
  call_ok (context_a_plus_b [120; 97; 97; 98]) code_a_plus_b [120; 97; 97; 98] [None; None] []
    1 0 4096 (fun n => n <? 100000).
Proof.
  split.
  - vm_compute. reflexivity.
  - split.
    + repeat constructor; lia.
    + reflexivity.
    + change (Forall is_byte (drop 7 code_a_plus_b)). apply Forall_drop.
      vm_compute. repeat constructor; done.
    + cbn. unfold CAPTURE_COUNT_MAX. lia.
    + cbn. unfold STACK_SIZE_MAX. lia.
    + cbn. intros n Hn. lia.
  - eexists. split; [reflexivity |]. vm_compute. reflexivity.
  - reflexivity.
  - vm_compute. discriminate.
  - vm_compute. split; discriminate.
Qed.

Lemma lre_exec_safe_witness :
  match lre_exec 100 [None; None] [] code_a_plus_b [120; 97; 97; 98] 1 0 4096
          (fun n => n <? 100000) with
  | Ret (caps, r) => captures_ok (context_a_plus_b [120; 97; 97; 98]) caps /\
      (r = RET_YES \/ r = RET_NO \/ r = RET_ERROR)
  | Fault => False
  | NoFuel => True
  end.
Proof.
  apply (lre_exec_safe 100 (context_a_plus_b [120; 97; 97; 98]) code_a_plus_b), call_a_plus_b.
Defined.
