(* ===== verification/RegexTerm.v ===== *)
(** * Termination of the executor

    A bytecode is ranked when its instructions have ranks that decrease along
    every step that consumes no character (so that every loop consumes one),
    and it has no instruction that moves backward.  That excludes look-behinds
    and the loops that rely on the check of [REOP_bne_char_pos].  On verified,
    ranked bytecode the executor returns for every input, with an explicit bound
    on the fuel.  Without the
    ranking it may not: see [empty_lazy_loop_diverges]. *)
From Stdlib Require Import ZArith Lia Bool.
From stdpp Require Import base numbers list.
From S2P Require Import Prelude Cutils CaseConv RegexOp RegexExec RegexSafe.

(** ** The ranking *)
Section ranking.
Variable s : REExecContext.
Variable l : list (Z * Z).
Variable rank : Z -> Z.
Variable R : Z.

Definition jump_target (pos : Z) : Z :=
  match get_u32 (bc s) pos with Some val => pos + 4 + i32 val | None => 0 end.
(** The displacement of a greedy quantifier counts from the end of its operands. *)
Definition quant_target (pos : Z) : Z :=
  match get_u32 (bc s) pos with Some off => pos + 16 + i32 off | None => 0 end.

Definition ranked_instr (pos : Z) : bool :=
  (0 <=? rank pos) && (rank pos <? R) &&
  match op_at s pos with
  | None => false
  | Some op =>
      match instr_len s op pos with
      | None => false
      | Some len =>
          let next := rank (pos + len) <? rank pos in
          let jump := rank (jump_target (pos + 1)) <? rank pos in
          match op with
          | REOP_match => true
          | REOP_char | REOP_char32 | REOP_dot | REOP_any | REOP_range | REOP_range32 => true
          | REOP_goto => jump
          | REOP_split_goto_first | REOP_split_next_first | REOP_lookahead | REOP_negative_lookahead
          | REOP_loop | REOP_bne_char_pos => jump && next
          | REOP_simple_greedy_quant => rank (quant_target (pos + 1)) <? rank pos
          | REOP_prev | REOP_backward_back_reference => false
          | _ => next
          end
      end
  end.

Definition ranked : Prop := forall pos h, height_at l pos = Some h -> ranked_instr pos = true.
End ranking.

(** ** Positions inside a surrogate pair count as its start *)
Section effective.
Variable s : REExecContext.
Hypothesis units_ok : Forall (fun c => 0 <= c < 65536) (cbuf s).

Definition eff (c : Z) : Z :=
  match cunit s (c - 1), cunit s c with
  | Ret h, Ret l => if (cbuf_type s =? 2) && is_hi_surrogate h && is_lo_surrogate l then c - 1 else c
  | _, _ => c
  end.

Lemma eff_cases c : eff c = c \/ (eff c = c - 1 /\ mid_pair s c (c - 1)).
Proof.
  unfold eff. destruct (cunit s (c - 1)) as [h | |] eqn:Eh; [| auto ..].
  destruct (cunit s c) as [l | |] eqn:El; [| auto ..].
  destruct (_ && _) eqn:E; [| auto]. rewrite !andb_true_iff in E. destruct E as [[? ?] ?].
  right. split; [done |]. unfold mid_pair. split_and!; [lia | done | |].
  - unfold cunit in Eh. apply of_opt_Ret in Eh. apply znth_lt_Some in Eh. lia.
  - exists h, l. auto.
Qed.

Lemma eff_mid c q : mid_pair s c q -> eff c = q.
Proof.
  intros (Ht & -> & _ & h & l & Eh & El & Hh & Hl). unfold eff. rewrite Eh, El, Ht, Hh, Hl. done.
Qed.

Lemma eff_bounds c : 0 <= c -> 0 <= eff c <= c.
Proof. intros Hc. destruct (eff_cases c) as [-> | [-> (_ & _ & ? & _)]]; lia. Qed.

Lemma eff_mono c c' : 0 <= c <= c' -> eff c <= eff c'.
Proof.
  intros Hc. destruct (Z.eq_dec c c') as [-> | Hne]; [lia |].
  destruct (eff_cases c) as [-> | [-> _]], (eff_cases c') as [-> | [-> _]]; lia.
Qed.

(** A character moves forward. *)
Lemma eff_next c x c' :
  0 <= c < cbuf_end s -> GET_CHAR s c (cbuf_end s) = Ret (x, c') -> eff c < eff c'.
Proof.
  intros Hc E. destruct (GET_CHAR_bounds s units_ok c (cbuf_end s) Hc ltac:(lia))
    as (x1 & c1 & E1 & _ & Hc1). rewrite E in E1. injection E1 as <- <-.
  destruct (eff_cases c') as [-> | [-> Hm]].
  - destruct (eff_cases c) as [-> | [-> _]]; lia.
  - exfalso. apply (next_not_mid s units_ok c x c' (c' - 1)); auto.
    destruct Hm as (_ & _ & _ & h & l & _ & El & _). unfold cunit in El.
    apply of_opt_Ret, znth_lt_Some in El. exact (proj2 El).
Qed.

Lemma prev_chars_le n : forall p p', prev_chars s n p = Ret p' -> 0 <= p <= cbuf_end s -> p' <= p.
Proof.
  induction n as [| n IH]; intros p p' E Hp; cbn [prev_chars] in E; [injection E as <-; lia |].
  destruct (PREV_CHAR s p 0) as [p1 | |] eqn:E1; [| discriminate ..]. cbn in E.
  assert (0 < p) as Hp0.
  { unfold PREV_CHAR in E1. destruct (Z.leb_spec 0 (p - 1)); [lia | discriminate]. }
  destruct (PREV_CHAR_bounds s units_ok p) as (p2 & E2 & H2); [lia |].
  rewrite E1 in E2. injection E2 as <-. specialize (IH p1 p' E). lia.
Qed.

(** Where [n] characters back from [n] characters forward ends. *)
Lemma eff_back n c c' k q :
  advance s n c c' -> 0 <= c <= cbuf_end s -> (k <= n)%nat ->
  prev_chars s k c' = Ret q -> 0 <= q <= c' -> eff c <= eff q.
Proof.
  intros Ha Hc Hk E Hq. remember (n - k)%nat as j eqn:Ej. assert (n = k + j)%nat as -> by lia.
  clear Ej. pose proof (prev_chars_advance s units_ok (k + j) c c' Ha Hc) as Hn.
  rewrite !prev_chars_app, E in Hn.
  cbn [mbind res_bind] in Hn.
  assert (forall i p p', prev_chars s i p = Ret p' -> 0 <= p <= cbuf_end s -> p' <= p) as Hdec
    by exact prev_chars_le.
  pose proof (advance_bounds s units_ok _ _ _ Ha Hc).
  destruct Hn as [En | (q0 & En & Hm)].
  - apply Hdec in En; [| lia]. apply eff_mono. lia.
  - apply Hdec in En; [| lia]. rewrite (eff_mid c q0 Hm).
    destruct Hm as (_ & -> & Hq0 & h & l & Eh & El & Hh & Hl).
    destruct (eff_cases q) as [-> | [Eq (_ & _ & _ & h' & l' & Eh' & El' & Hh' & Hl')]]; [lia |].
    rewrite Eq. destruct (Z.eq_dec q (c - 1)) as [-> |]; [| lia].
    rewrite Eh in El'. injection El' as <-. destruct (hi_lo_disjoint _ Hh Hl').
Qed.
End effective.

(** Compute the instruction sizes in the hypotheses. *)
Ltac op_sizes :=
  repeat match goal with
  | H : context [op_size ?op] |- _ =>
      let v := eval vm_compute in (op_size op) in change (op_size op) with v in H
  end.

(** ** The cost of a machine *)
Section cost.
Variable s : REExecContext.
Variable l : list (Z * Z).
Variable rank : Z -> Z.
Variable R : Z.
Hypothesis Hctx : context_ok s.
Hypothesis Hverify : forall pos h, height_at l pos = Some h -> verify_instr s l pos h = true.
Hypothesis Hranked : ranked s l rank R.

Definition base : Z := cbuf_end s + 4.
Definition weight (e r : Z) : Z := base ^ ((cbuf_end s - e) * R + r).

(** What continuing at [p], [c] may cost. *)
Definition point_cost (p c : Z) : Z := weight (eff s c) (rank p).

Definition frame_cost (rs : REExecState) : Z :=
  match rs_type rs with
  | RE_EXEC_STATE_GREEDY_QUANT =>
      match get_u32 (bc s) (rs_pc rs + 12) with
      | Some cc =>
          match prev_chars s (Z.to_nat (rs_count rs) * Z.to_nat cc) (rs_cptr rs) with
          | Ret q => rs_count rs * weight (eff s q) (rank (quant_target s (rs_pc rs)))
          | _ => 0
          end
      | None => 0
      end
  | _ => point_cost (rs_pc rs) (rs_cptr rs)
  end.

Fixpoint frames_cost (fs : list REExecState) : Z :=
  match fs with [] => 0 | rs :: fs => frame_cost rs + frames_cost fs end.

Definition cost (m : machine) : Z := point_cost (pc m) (cptr m) + frames_cost (state_stack m).

Lemma base_ge : 4 <= base.
Proof. unfold base, cbuf_end. pose proof (zlen_nonneg (cbuf s)). lia. Qed.

Lemma rank_bounds pos h : height_at l pos = Some h -> 0 <= rank pos < R.
Proof.
  intros Hh. specialize (Hranked _ _ Hh). unfold ranked_instr in Hranked.
  rewrite !andb_true_iff in Hranked. lia.
Qed.

Lemma weight_pos e r : 0 < R -> e <= cbuf_end s -> 0 <= r -> 0 < weight e r.
Proof. intros. pose proof base_ge. apply Z.pow_pos_nonneg; [lia | nia]. Qed.

(** Weights grow by a factor of [base] when the rank grows at the same
    position, or the position goes back. *)
Lemma weight_step e r e' r' :
  0 <= e <= e' -> e' <= cbuf_end s -> 0 <= r < R -> 0 <= r' < R -> (e < e' \/ r' < r) ->
  base * weight e' r' <= weight e r.
Proof.
  intros He He' Hr Hr' Hlt. pose proof base_ge. unfold weight.
  rewrite <- Z.pow_succ_r by nia. apply Z.pow_le_mono_r; [lia | nia].
Qed.

Lemma weight_mono e e' r : 0 <= e <= e' -> e' <= cbuf_end s -> 0 <= r < R -> weight e' r <= weight e r.
Proof.
  intros. pose proof base_ge. unfold weight. apply Z.pow_le_mono_r; [lia | nia].
Qed.

Lemma eff_pos_ok c : pos_ok s c -> 0 <= eff s c <= cbuf_end s.
Proof. intros Hc. unfold pos_ok in Hc. pose proof (eff_bounds s c). lia. Qed.

Lemma point_cost_pos p c h : height_at l p = Some h -> pos_ok s c -> 0 < point_cost p c.
Proof.
  intros Hh Hc. pose proof (rank_bounds _ _ Hh). pose proof (eff_pos_ok c Hc).
  apply weight_pos; lia.
Qed.

(** A step without a character, to a lower rank; a step over a character. *)
Lemma point_cost_lower p h p' h' c c' :
  height_at l p = Some h -> height_at l p' = Some h' -> pos_ok s c -> pos_ok s c' ->
  (eff s c < eff s c' \/ eff s c <= eff s c' /\ rank p' < rank p) ->
  base * point_cost p' c' <= point_cost p c.
Proof.
  intros Hh Hh' Hc Hc' Hlt. pose proof (rank_bounds _ _ Hh). pose proof (rank_bounds _ _ Hh').
  pose proof (eff_pos_ok c Hc). pose proof (eff_pos_ok c' Hc'). apply weight_step; lia.
Qed.

Lemma frame_cost_nonneg rs : frame_ok s l rs -> 0 <= frame_cost rs.
Proof.
  intros [_ _ _ _ Hp Hr]. unfold frame_cost, resume_ok in *. destruct (rs_type rs).
  4: { destruct Hr as (off & cc & q & Eoff & Ecc & Hcc & Hh & Hcnt & Eq).
       rewrite Ecc, Eq. unfold quant_target. rewrite Eoff. pose proof (rank_bounds _ _ Hh).
       pose proof (prev_chars_bounds s Hctx _ _ _ Eq Hp) as Hq. pose proof (eff_pos_ok q Hq).
       pose proof (weight_pos (eff s q) (rank (rs_pc rs + 16 + i32 off)) ltac:(lia) ltac:(lia) ltac:(lia)).
       nia. }
  all: pose proof (point_cost_pos _ _ _ Hr Hp); lia.
Qed.

Lemma frames_cost_nonneg fs : Forall (frame_ok s l) fs -> 0 <= frames_cost fs.
Proof.
  induction 1 as [| rs fs Hrs _ IH]; cbn [frames_cost]; [lia |].
  pose proof (frame_cost_nonneg rs Hrs). lia.
Qed.

(** ** Backtracking costs no more than the frames *)
Lemma pop_greedy_cost m rs rest m' :
  frame_ok s l rs -> Forall (frame_ok s l) rest -> rs_type rs = RE_EXEC_STATE_GREEDY_QUANT ->
  pop_greedy s m rs rest = Ret (Next m') -> cost m' <= frame_cost rs + frames_cost rest.
Proof.
  intros [_ _ _ _ Hp Hr] Hrest Ht E. unfold resume_ok in Hr. rewrite Ht in Hr.
  destruct Hr as (off & cc & q & Eoff & Ecc & Hcc & Hh & Hcnt & Eq).
  unfold pop_greedy in E. rewrite Ecc, Eoff in E. inv_ret. subst m'.
  injection E3 as <-. injection E5 as <-. rename a3 into p1. rename E4 into Ep.
  replace (Z.to_nat (rs_count rs)) with (S (Z.to_nat (rs_count rs - 1))) in Eq by lia.
  cbn [Nat.mul] in Eq. pose proof Eq as Eq'. rewrite prev_chars_app, Ep in Eq'.
  cbn [mbind res_bind] in Eq'.
  pose proof (prev_chars_bounds s Hctx _ _ _ Ep Hp) as Hp1.
  pose proof (prev_chars_bounds s Hctx _ _ _ Eq' Hp1) as Hq.
  pose proof (prev_chars_le s (ctx_units s Hctx) _ _ _ Eq' Hp1) as Hle.
  pose proof (eff_mono s q p1 ltac:(destruct Hq; lia)) as Heff.
  pose proof (rank_bounds _ _ Hh). pose proof (eff_pos_ok q Hq). pose proof (eff_pos_ok p1 Hp1).
  set (tgt := rs_pc rs + 16 + i32 off) in *.
  assert (quant_target s (rs_pc rs) = tgt) as Etgt by (unfold quant_target; by rewrite Eoff).
  pose proof (weight_mono (eff s q) (eff s p1) (rank tgt) ltac:(lia) ltac:(lia) ltac:(lia)) as Hw.
  assert (frame_cost rs = rs_count rs * weight (eff s q) (rank tgt)) as Efc.
  { unfold frame_cost. rewrite Ht, Ecc.
    replace (Z.to_nat (rs_count rs)) with (S (Z.to_nat (rs_count rs - 1))) by lia.
    cbn [Nat.mul]. by rewrite Eq, Etgt. }
  unfold cost, point_cost. cbn [pc cptr state_stack]. rewrite wrap_small by lia. rewrite Efc.
  destruct (Z.eqb_spec (rs_count rs - 1) 0) as [E1' |].
  - replace (rs_count rs) with 1 by lia. lia.
  - cbn [frames_cost]. unfold frame_cost at 1. cbn [rs_type rs_pc rs_count rs_cptr].
    rewrite Ht, Ecc, Eq', Etgt. nia.
Qed.

(** The machine and the frames it was popped from. *)
Lemma pop_state1_cost m rs rest m' :
  rs_type rs <> RE_EXEC_STATE_GREEDY_QUANT -> pop_state1 m rs rest = Ret (Next m') ->
  cost m' = frame_cost rs + frames_cost rest.
Proof.
  intros Ht E. unfold pop_state1 in E. inv_ret. subst m'. unfold cost, frame_cost.
  cbn [pc cptr state_stack]. by destruct (rs_type rs).
Qed.

Lemma pop_state_cost m rs rest m' :
  rs_type rs <> RE_EXEC_STATE_GREEDY_QUANT -> pop_state m rs rest = Ret (Next m') ->
  cost m' = frame_cost rs + frames_cost rest.
Proof.
  intros Ht E. unfold pop_state in E. inv_ret. by apply pop_state1_cost in E.
Qed.

Lemma recurse_cost frames : forall m ret m',
  Forall (frame_ok s l) frames -> recurse s m frames ret = Ret (Next m') ->
  cost m' <= frames_cost frames.
Proof.
  induction frames as [| rs rest IH]; intros m ret m' Hf E; [discriminate |].
  apply Forall_cons_iff in Hf as [Hrs Hrest]. cbn [recurse frames_cost] in *.
  pose proof (frame_cost_nonneg rs Hrs).
  assert (forall ret, recurse s m rest ret = Ret (Next m') -> cost m' <= frame_cost rs + frames_cost rest) as Hskip.
  { intros r Er. specialize (IH m r m' Hrest Er). lia. }
  destruct (rs_type rs) eqn:Et, ret; cbn [negb] in E; eauto;
    try (apply pop_state_cost in E; [lia | congruence]);
    try (apply pop_state1_cost in E; [lia | congruence]).
  by apply (pop_greedy_cost m rs rest).
Qed.

Lemma no_match_cost m m1 m' :
  state_stack m1 = state_stack m -> memory_ok s l m -> 0 < point_cost (pc m) (cptr m) ->
  no_match s m1 false = Ret (Next m') -> cost m' < cost m.
Proof.
  intros Es Hm Hp E. unfold no_match in E. apply recurse_cost in E; [| rewrite Es; apply Hm].
  rewrite Es in E. unfold cost in *. lia.
Qed.

(** ** Every instruction lowers the cost *)
Lemma push_state_frames m pc1 c type n m' r :
  push_state s m pc1 c type n = Ret (m', r) ->
  r = -1 \/
  (r = 0 /\ pc m' = pc m /\ cptr m' = cptr m /\ exists rs,
     state_stack m' = rs :: state_stack m /\ rs_type rs = type /\ rs_pc rs = pc1 /\
     rs_cptr rs = c /\ rs_count rs = n).
Proof.
  unfold push_state. destruct (if _ <? _ then _ else _) as [size |].
  - intros E. inv_ret. subst m' r. right. cbn. eauto 10.
  - intros [= _ <-]. auto.
Qed.

(** Two successors. *)
Lemma push_cost m m1 m' pc1 type :
  inv s l m -> state_stack m1 = state_stack m -> cptr m1 = cptr m ->
  type <> RE_EXEC_STATE_GREEDY_QUANT ->
  height_at l (pc m1) = Some (stack_len m) -> height_at l pc1 = Some (stack_len m) ->
  rank (pc m1) < rank (pc m) -> rank pc1 < rank (pc m) ->
  ('(m, ret) ← push_state s m1 pc1 (cptr m) type 0;
   if ret <? 0 then Ret (Return m RET_ERROR) else Ret (Next m)) = Ret (Next m') ->
  cost m' < cost m.
Proof.
  intros [Hm Hpc _ Hc] Es Ec Ht Hh1 Hh2 Hr1 Hr2 E. inv_ret. destruct a as [m2 r].
  destruct (push_state_frames _ _ _ _ _ _ _ E0) as [-> | (-> & Epc & Ecp & rs & Efs & Ety & Erp & Erc & _)];
    [discriminate |].
  change (0 <? 0) with false in E. injection E as <-. unfold cost. rewrite Epc, Ecp, Efs, Ec, Es.
  cbn [frames_cost].
  assert (frame_cost rs = point_cost pc1 (cptr m)) as ->.
  { unfold frame_cost. rewrite Ety, Erp, Erc. by destruct type. }
  pose proof (point_cost_lower _ _ _ _ _ _ Hpc Hh1 Hc Hc ltac:(right; split; [lia | done])).
  pose proof (point_cost_lower _ _ _ _ _ _ Hpc Hh2 Hc Hc ltac:(right; split; [lia | done])).
  pose proof (point_cost_pos _ _ _ Hpc Hc). pose proof (point_cost_pos _ _ _ Hh1 Hc).
  pose proof (point_cost_pos _ _ _ Hh2 Hc). pose proof base_ge. nia.
Qed.

(** One successor: a lower rank, or a later position. *)
Lemma next_cost m m' h' :
  inv s l m -> state_stack m' = state_stack m -> height_at l (pc m') = Some h' -> pos_ok s (cptr m') ->
  (eff s (cptr m) < eff s (cptr m') \/
   eff s (cptr m) <= eff s (cptr m') /\ rank (pc m') < rank (pc m)) ->
  cost m' < cost m.
Proof.
  intros [Hm Hpc _ Hc] Es Hh Hc' Hlt. unfold cost. rewrite Es.
  pose proof (point_cost_lower _ _ _ _ _ _ Hpc Hh Hc Hc' Hlt).
  pose proof (point_cost_pos _ _ _ Hpc Hc). pose proof (point_cost_pos _ _ _ Hh Hc').
  pose proof base_ge. nia.
Qed.

Lemma char_step_cost m m' pos' h' o :
  inv s l m -> height_at l pos' = Some h' ->
  char_step s (set_pc m (pc m + 1)) false o pos' -> o = Ret (Next m') -> cost m' < cost m.
Proof.
  intros Hi Hh Hs ->. pose proof Hi as [Hm Hpc _ Hc].
  destruct Hs as [(c & p & [= ->] & E & Hlt) | (m1 & E & Hs)].
  - cbn in E, Hlt. destruct Hc as [Hc1 Hc2].
    destruct (GET_CHAR_bounds s (ctx_units s Hctx) (cptr m) (cbuf_end s)) as (c1 & p1 & E1 & _ & Hp1);
      [lia | lia |]. rewrite E in E1. injection E1 as <- <-.
    eapply (next_cost m _ h'); [exact Hi | done | exact Hh | unfold pos_ok; cbn; lia |].
    left. cbn. apply (eff_next s (ctx_units s Hctx) _ c); [lia | exact E].
  - apply (no_match_cost m m1 m'); auto; [apply Hs | by apply (point_cost_pos _ _ _ Hpc)].
Qed.

Lemma backref_forward_eff fuel : forall p1 p1_end p p',
  0 <= p1 -> pos_ok s p1_end -> pos_ok s p ->
  backref_forward s fuel p1 p1_end p = Ret (Some p') -> eff s p <= eff s p'.
Proof.
  induction fuel as [| fuel IH]; intros p1 p1_end p p' H1 He Hp E; [discriminate |].
  unfold pos_ok in *. cbn [backref_forward] in E.
  destruct (Z.ltb_spec p1 p1_end); [| injection E as <-; lia].
  destruct (Z.leb_spec (cbuf_end s) p); [discriminate |].
  destruct (GET_CHAR_bounds s (ctx_units s Hctx) p1 p1_end) as (c1 & q1 & E1 & _ & Hq1); [lia | lia |].
  destruct (GET_CHAR_bounds s (ctx_units s Hctx) p (cbuf_end s)) as (c2 & q2 & E2 & _ & Hq2); [lia | lia |].
  rewrite E1, E2 in E. cbn [mbind res_bind] in E. inv_ret.
  destruct (negb _); [discriminate |]. apply IH in E; [| lia | lia | lia].
  pose proof (eff_next s (ctx_units s Hctx) p c2 q2 ltac:(lia) E2). lia.
Qed.

Lemma backref_cost m m' :
  inv s l m -> height_at l (pc m + 2) = Some (stack_len m) -> rank (pc m + 2) < rank (pc m) ->
  op_back_reference s (set_pc m (pc m + 1)) false false = Ret (Next m') -> cost m' < cost m.
Proof.
  intros Hi Hh Hr E. pose proof Hi as [Hm Hpc _ Hc]. unfold op_back_reference in E.
  apply bind_Ret in E as (v & Ev & E). cbn [pc set_pc cptr capture] in E.
  replace (pc m + 1 + 1) with (pc m + 2) in E by lia.
  pose proof (point_cost_pos _ _ _ Hpc Hc) as Hp.
  destruct (capture_count s <=? v); [by eapply (no_match_cost m); [| exact Hm | exact Hp | exact E] |].
  apply bind_Ret in E as (o1 & E1%of_opt_Ret & E). apply bind_Ret in E as (o2 & E2%of_opt_Ret & E).
  assert (forall m1, Next m1 = Next m' -> m1 = set_pc m (pc m + 2) -> cost m' < cost m) as Hnext.
  { intros m1 [= <-] ->. apply (next_cost m _ (stack_len m)); auto. right. cbn. split; [lia | done]. }
  destruct o1 as [p1 |]; [| injection E as E; apply (Hnext _ (f_equal Next E) eq_refl)].
  destruct o2 as [p2 |]; [| injection E as E; apply (Hnext _ (f_equal Next E) eq_refl)].
  apply bind_Ret in E as (r & Er & E).
  destruct r as [p |]; [| by eapply (no_match_cost m); [| exact Hm | exact Hp | exact E]].
  injection E as <-.
  pose proof (capture_read s l _ _ _ Hi E1) as Hp1. pose proof (capture_read s l _ _ _ Hi E2) as Hp2.
  pose proof (backref_forward_eff _ _ _ _ _ (proj1 Hp1) Hp2 Hc Er).
  pose proof (backref_forward_safe s Hctx (S (Z.to_nat (p2 - p1))) p1 p2 (cptr m) (proj1 Hp1) Hp2 Hc) as Hs.
  rewrite Er in Hs. apply (next_cost m _ (stack_len m)); auto.
Qed.

Lemma quant_cost fuel body m m' off cc :
  inv s l m -> get_u32 (bc s) (pc m + 1) = Some off -> get_u32 (bc s) (pc m + 13) = Some cc ->
  1 <= cc -> height_at l (pc m + 17 + i32 off) = Some (stack_len m) ->
  rank (pc m + 17 + i32 off) < rank (pc m) ->
  (forall m', pc m' = pc m + 17 -> pos_ok s (cptr m') -> safe (atom_result s cc m') (body m')) ->
  op_simple_greedy_quant s fuel body (set_pc m (pc m + 1)) false = Ret (Next m') ->
  cost m' < cost m.
Proof.
  intros Hi Eoff Ecc Hcc Hh Hr Hbody E. pose proof Hi as [Hm Hpc _ Hc].
  pose proof (point_cost_pos _ _ _ Hpc Hc) as Hp.
  unfold op_simple_greedy_quant in E. cbn [pc set_pc] in E. rewrite Eoff in E. cbn [of_opt mbind res_bind] in E.
  apply bind_Ret in E as (qmin & Emin%of_opt_Ret & E). apply bind_Ret in E as (qmax & _ & E).
  replace (pc m + 1 + 16) with (pc m + 17) in E by lia.
  set (m1 := set_pc (set_pc m (pc m + 1)) (pc m + 17 + i32 off)) in E.
  apply bind_Ret in E as ([[m2 err] q] & Eq & E).
  pose proof (quant_loop_safe s (ctx_units s Hctx) body (pc m + 17) qmax cc (cptr m1) Hbody Hc fuel m1 0
                (advance_O s _)) as Hs.
  change (Z.of_nat 0) with 0 in Hs. rewrite Eq in Hs. destruct Hs as (Hs & Epc & -> & k & -> & Ha).
  change (cptr m1) with (cptr m) in Ha. change (pc m1) with (pc m + 17 + i32 off) in Epc.
  pose proof Hs as (_ & _ & _ & Ef & _). change (state_stack m1) with (state_stack m) in Ef.
  pose proof (advance_bounds s (ctx_units s Hctx) _ _ _ Ha Hc) as Hb.
  assert (pos_ok s (cptr m2)) as Hc2 by (unfold pos_ok; destruct Hc; lia).
  set (tgt := pc m + 17 + i32 off) in *.
  pose proof (eff_mono s (cptr m) (cptr m2) ltac:(destruct Hc; lia)) as Heff.
  destruct (Z.ltb_spec (Z.of_nat k) qmin); [by eapply (no_match_cost m); [exact Ef | | |] |].
  destruct (Z.ltb_spec qmin (Z.of_nat k)).
  2: { injection E as <-. apply (next_cost m _ (stack_len m)); auto; rewrite Epc; auto. }
  pose proof (get_un_range 4 _ _ _ (ctx_bytes s Hctx) Emin) as Hqmin.
  apply bind_Ret in E as ([m3 r] & Epush & E).
  destruct (push_state_frames _ _ _ _ _ _ _ Epush)
    as [-> | (-> & Epc3 & Ecp3 & rs & Efs & Ety & Erp & Erc & Ern)]; [discriminate |].
  change (0 <? 0) with false in E. injection E as <-.
  unfold cost. rewrite Epc3, Ecp3, Efs, Epc, Ef. cbn [frames_cost].
  (* the frame: [k - qmin] resumptions, none before the start *)
  set (w := weight (eff s (cptr m)) (rank tgt)).
  pose proof (rank_bounds _ _ Hpc) as Hrk. pose proof (rank_bounds _ _ Hh) as Hrk'.
  pose proof (eff_pos_ok _ Hc) as He. pose proof (eff_pos_ok _ Hc2) as He2.
  assert (0 < w) as Hw by (apply weight_pos; lia).
  assert (base * w <= point_cost (pc m) (cptr m)) as Hbig by (apply weight_step; lia).
  assert (point_cost tgt (cptr m2) <= w) as Hcur by (apply weight_mono; lia).
  assert (frame_cost rs <= (Z.of_nat k - qmin) * w) as Hframe.
  { unfold frame_cost. rewrite Ety, Erp, Ern, Erc. replace (pc m + 17 - 16) with (pc m + 1) by lia.
    replace (pc m + 1 + 12) with (pc m + 13) by lia. rewrite Ecc.
    destruct (prev_chars s (Z.to_nat (Z.of_nat k - qmin) * Z.to_nat cc) (cptr m2)) as [q | |] eqn:Epq;
      [| nia ..].
    unfold quant_target. rewrite Eoff. replace (pc m + 1 + 16 + i32 off) with tgt by (unfold tgt; lia).
    pose proof (prev_chars_bounds s Hctx _ _ _ Epq Hc2) as Hq.
    pose proof (prev_chars_le s (ctx_units s Hctx) _ _ _ Epq Hc2) as Hle.
    pose proof (eff_back s (ctx_units s Hctx) _ _ _ (Z.to_nat (Z.of_nat k - qmin) * Z.to_nat cc) q
                  Ha Hc ltac:(nia) Epq ltac:(destruct Hq; lia)) as Heq.
    pose proof (eff_pos_ok _ Hq). apply Z.mul_le_mono_nonneg_l; [lia |]. apply weight_mono; lia. }
  assert (Z.of_nat k <= cbuf_end s) as Hk by (destruct Hc; nia).
  unfold base in Hbig. nia.
Qed.

Lemma jump_target_eq pos val : get_u32 (bc s) pos = Some val -> jump_target s pos = pos + 4 + i32 val.
Proof. unfold jump_target. by intros ->. Qed.

Lemma split_cost m m' next_first val :
  inv s l m -> get_u32 (bc s) (pc m + 1) = Some val ->
  height_at l (pc m + 1 + 4 + i32 val) = Some (stack_len m) ->
  height_at l (pc m + 5) = Some (stack_len m) ->
  (rank (jump_target s (pc m + 1)) <? rank (pc m)) = true /\ (rank (pc m + 5) <? rank (pc m)) = true ->
  op_split s (set_pc m (pc m + 1)) next_first = Ret (Next m') -> cost m' < cost m.
Proof.
  intros Hi Ev Hj Hn [Hr1 Hr2] E. rewrite (jump_target_eq _ _ Ev) in Hr1.
  replace (pc m + 5) with (pc m + 1 + 4) in * by lia.
  unfold op_split in E. cbn [pc set_pc cptr] in E. rewrite Ev in E. cbn [of_opt mbind res_bind] in E.
  destruct next_first; cbv beta iota in E; (eapply push_cost; [exact Hi | | | | | | | | exact E]);
    cbn; done || lia.
Qed.

Lemma lookahead_cost m m' negative val :
  inv s l m -> get_u32 (bc s) (pc m + 1) = Some val ->
  height_at l (pc m + 1 + 4 + i32 val) = Some (stack_len m) ->
  height_at l (pc m + 5) = Some (stack_len m) ->
  (rank (jump_target s (pc m + 1)) <? rank (pc m)) = true /\ (rank (pc m + 5) <? rank (pc m)) = true ->
  op_lookahead s (set_pc m (pc m + 1)) negative = Ret (Next m') -> cost m' < cost m.
Proof.
  intros Hi Ev Hj Hn [Hr1 Hr2] E. rewrite (jump_target_eq _ _ Ev) in Hr1.
  replace (pc m + 5) with (pc m + 1 + 4) in * by lia.
  unfold op_lookahead in E. cbn [pc set_pc cptr] in E. rewrite Ev in E. cbn [of_opt mbind res_bind] in E.
  eapply push_cost; [exact Hi | | | | | | | | exact E]; cbn; try (done || lia). by destruct negative.
Qed.

(** Instructions that only go on, to a lower rank. *)
Lemma lower_cost m m' h' :
  inv s l m -> state_stack m' = state_stack m -> cptr m' = cptr m ->
  height_at l (pc m') = Some h' -> rank (pc m') < rank (pc m) -> cost m' < cost m.
Proof.
  intros Hi Es Ec Hh Hr. apply (next_cost m m' h' Hi Es Hh).
  - rewrite Ec. apply Hi.
  - right. rewrite Ec. split; [lia | done].
Qed.

Lemma exec_op_cost fuel body m op m' :
  inv s l m -> op_at s (pc m) = Some op ->
  (forall cc m', simple_body s (length (bc s)) (pc m') cc = true -> pos_ok s (cptr m') ->
     safe (atom_result s cc m') (body m')) ->
  exec_op s fuel body (set_pc m (pc m + 1)) false op = Ret (Next m') -> cost m' < cost m.
Proof.
  intros Hi Eop Hbody E. pose proof Hi as [Hm Hpc Hst Hc].
  pose proof (op_at_bounds _ _ _ Eop) as Hpb.
  pose proof (Hverify _ _ Hpc) as Hv. pose proof (Hranked _ _ Hpc) as Hr.
  unfold verify_instr in Hv. unfold ranked_instr in Hr. rewrite Eop in Hv, Hr.
  apply andb_true_iff in Hr as [_ Hr].
  destruct (instr_len s op (pc m)) as [len |] eqn:El; [| discriminate].
  pose proof (point_cost_pos _ _ _ Hpc Hc) as Hp.
  destruct (is_char_op op) eqn:Hco.
  { assert (char_op_ok s op (pc m) len = true /\ target_ok l (pc m + len) (stack_len m) = true) as [Hok Hn].
    { apply andb_true_iff. by destruct op; try discriminate Hco. }
    apply target_ok_Some in Hn. eapply (char_step_cost m m' _ _ _ Hi Hn); [| exact E].
    apply char_op_step; auto; [apply Hctx | apply Hctx | lia]. }
  destruct (is_assertion_op op) eqn:Hao.
  { assert (target_ok l (pc m + len) (stack_len m) = true /\ len = 1 /\
            rank (pc m + len) < rank (pc m)) as (Hn%target_ok_Some & -> & Hlt).
    { destruct op; try discriminate Hao;
        (split_and!; [exact Hv | injection El as <-; vm_compute; done | lia]). }
    destruct (assertion_op_step s (ctx_units s Hctx) fuel body op (set_pc m (pc m + 1)) false Hao Hc)
      as [E' | E']; rewrite E' in E.
    - injection E as <-. apply (next_cost m _ (stack_len m)); auto. right. cbn. lia.
    - eapply no_match_cost; [| exact Hm | exact Hp | exact E]. done. }
  destruct op; try discriminate; cbn [exec_op] in E;
    injection El as <-; rewrite ?andb_true_iff in Hv; rewrite ?andb_true_iff in Hr; op_sizes.
  - apply jump_ok_Some in Hv as (val & Ev & Hh). unfold op_goto in E. cbn [pc set_pc] in E.
    rewrite Ev in E. injection E as <-. unfold jump_target in Hr. rewrite Ev in Hr.
    replace (pc m + 1 + 4 + i32 val) with (pc m + 1 + (4 + i32 val)) in * by lia.
    apply (next_cost m _ (stack_len m)); auto. right. cbn. lia.
  - destruct Hv as [(val & Ev & Hh)%jump_ok_Some Hn%target_ok_Some]. by apply (split_cost m m' false val).
  - destruct Hv as [(val & Ev & Hh)%jump_ok_Some Hn%target_ok_Some]. by apply (split_cost m m' true val).
  - unfold op_match in E. apply recurse_cost in E; [| apply Hm]. unfold cost in *. cbn in E. lia.
  - destruct Hv as [_ Hn%target_ok_Some]. unfold op_save in E. inv_ret. subst m'.
    apply (lower_cost m _ (stack_len m)); auto; cbn;
      replace (pc m + 1 + 1) with (pc m + 2) by lia; done || lia.
  - destruct Hv as [_ Hn%target_ok_Some]. unfold op_save in E. inv_ret. subst m'.
    apply (lower_cost m _ (stack_len m)); auto; cbn;
      replace (pc m + 1 + 1) with (pc m + 2) by lia; done || lia.
  - destruct Hv as [_ Hn%target_ok_Some]. unfold op_save_reset in E. inv_ret. subst m'.
    apply (lower_cost m _ (stack_len m)); auto; cbn;
      replace (pc m + 1 + 2) with (pc m + 3) by lia; done || lia.
  - (* loop *)
    destruct Hv as [[_ (val & Ev & Hh)%jump_ok_Some] Hn%target_ok_Some].
    rewrite (jump_target_eq _ _ Ev) in Hr. destruct Hr as [Hr1 Hr2].
    replace (pc m + 5) with (pc m + 1 + 4) in * by lia.
    unfold op_loop in E. cbn [pc set_pc] in E. rewrite Ev in E. cbn [of_opt mbind res_bind] in E.
    inv_ret. subst m'. apply (lower_cost m _ (stack_len m)); auto; cbn; destruct (negb _); done || lia.
  - (* push_i32 *)
    destruct Hv as [_ Hn%target_ok_Some]. unfold op_push_i32 in E. inv_ret. subst m'.
    apply (lower_cost m _ (stack_len m + 1)); auto; cbn;
      replace (pc m + 1 + 4) with (pc m + 5) by lia; done || lia.
  - (* drop *)
    destruct Hv as [_ Hn%target_ok_Some]. unfold op_drop in E. inv_ret. subst m'.
    apply (lower_cost m _ (stack_len m - 1)); auto; cbn; done || lia.
  - destruct Hv as [_ Hn%target_ok_Some]. apply backref_cost; auto. lia.
  - destruct Hv as [(val & Ev & Hh)%jump_ok_Some Hn%target_ok_Some]. by apply (lookahead_cost m m' false val).
  - destruct Hv as [(val & Ev & Hh)%jump_ok_Some Hn%target_ok_Some]. by apply (lookahead_cost m m' true val).
  - (* push_char_pos *)
    destruct Hv as [_ Hn%target_ok_Some]. unfold op_push_char_pos in E. inv_ret. subst m'.
    apply (lower_cost m _ (stack_len m + 1)); auto; cbn; done || lia.
  - (* bne_char_pos *)
    destruct Hv as [[_ (val & Ev & Hh)%jump_ok_Some] Hn%target_ok_Some].
    rewrite (jump_target_eq _ _ Ev) in Hr. destruct Hr as [Hr1 Hr2].
    replace (pc m + 5) with (pc m + 1 + 4) in * by lia.
    unfold op_bne_char_pos in E. cbn [pc set_pc] in E. rewrite Ev in E. cbn [of_opt mbind res_bind] in E.
    inv_ret. subst m'. apply (lower_cost m _ (stack_len m - 1)); auto; cbn; destruct (negb _); done || lia.
  - (* simple_greedy_quant *)
    destruct Hv as [Hlen Hq]. unfold quant_ok in Hq.
    destruct (get_u32 (bc s) (pc m + 1)) as [off |] eqn:Eoff; [| discriminate].
    destruct (get_u32 (bc s) (pc m + 13)) as [cc |] eqn:Ecc; [| discriminate].
    rewrite !andb_true_iff in Hq. destruct Hq as [[Hh%target_ok_Some Hcc] Hb].
    unfold quant_target in Hr. rewrite Eoff in Hr.
    replace (pc m + 1 + 16 + i32 off) with (pc m + 17 + i32 off) in Hr by lia.
    apply (quant_cost fuel body m m' off cc); auto; try lia.
    intros m1 Epc Hp1. apply Hbody; [| exact Hp1]. by rewrite Epc.
Qed.

(** ** Enough fuel for the inner loops *)
Lemma total_bind {A B} (x : res A) (f : A -> res B) :
  x <> NoFuel -> (forall a, x = Ret a -> f a <> NoFuel) -> (x ≫= f) <> NoFuel.
Proof. destruct x; cbn; auto. Qed.

Lemma total_of_opt {A} (o : option A) : of_opt o <> NoFuel.
Proof. by destruct o. Qed.

Lemma total_assert b : assert_ b <> NoFuel.
Proof. by destruct b. Qed.

Ltac total :=
  repeat first
    [ discriminate | apply total_of_opt | apply total_assert | assumption
    | apply total_bind; [| intros ? ?]
    | match goal with |- (if ?b then _ else _) <> _ => destruct b end
    | progress cbv beta iota zeta ].

Lemma PREV_CHAR_total p p0 : PREV_CHAR s p p0 <> NoFuel.
Proof. unfold PREV_CHAR, cunit. total. Qed.

Lemma prev_chars_total n : forall p, prev_chars s n p <> NoFuel.
Proof. induction n; intros; cbn [prev_chars]; total; auto using PREV_CHAR_total. Qed.

Lemma recurse_total frames : forall m ret, recurse s m frames ret <> NoFuel.
Proof.
  induction frames as [| rs rest IH]; intros m ret; cbn [recurse]; [done |].
  destruct (rs_type rs), ret; cbn [negb]; try apply IH;
    unfold pop_state, pop_state1, pop_greedy; total; apply prev_chars_total.
Qed.

Lemma no_match_total m nr : no_match s m nr <> NoFuel.
Proof. unfold no_match. destruct nr; [done | apply recurse_total]. Qed.

Lemma push_state_total m pc1 c type n : push_state s m pc1 c type n <> NoFuel.
Proof. unfold push_state. destruct (if _ <? _ then _ else _); total. Qed.

Lemma atom_total f : forall fuel n m,
  simple_body s f (pc m) n = true -> pos_ok s (cptr m) -> (f <= fuel)%nat ->
  lre_exec_backtrack s fuel m true <> NoFuel.
Proof.
  induction f as [| f IH]; intros fuel n m Hb Hc Hf; [discriminate |].
  destruct fuel as [| fuel]; [lia |]. cbn [simple_body] in Hb.
  destruct (op_at s (pc m)) as [op |] eqn:Eop; [| discriminate].
  pose proof (op_at_bounds _ _ _ Eop) as Hpc. apply op_at_Some in Eop as (b & Eb & Eop).
  cbn [lre_exec_backtrack]. rewrite Eb. cbn [of_opt mbind res_bind]. rewrite Eop.
  cbn [of_opt mbind res_bind].
  destruct (decide (op = REOP_match)) as [-> | Hnm]; [done |].
  destruct (is_char_op op) eqn:Hco; [| destruct (is_assertion_op op) eqn:Hao; [| discriminate]].
  - destruct (instr_len s op (pc m)) as [len |] eqn:El; [| discriminate].
    apply andb_true_iff in Hb as [Hok Hb].
    destruct (char_op_step s (ctx_units s Hctx) (ctx_bytes s Hctx) fuel
                (fun m => lre_exec_backtrack s fuel m true) op (set_pc m (pc m + 1)) true (pc m) len
                Hco El Hok) as [(c & p & -> & E & Hlt) | (m' & -> & _)]; [lia | done | exact Hc | |].
    + cbn [mbind res_bind]. cbn in E, Hlt. destruct Hc as [Hc1 Hc2].
      destruct (GET_CHAR_bounds s (ctx_units s Hctx) (cptr m) (cbuf_end s)) as (c0 & p0 & E0 & _ & Hp0);
        [lia | lia |]. rewrite E in E0. injection E0 as <- <-.
      apply (IH fuel (n - 1)); [exact Hb | unfold pos_ok; cbn; lia | lia].
    + done.
  - destruct (assertion_op_step s (ctx_units s Hctx) fuel (fun m => lre_exec_backtrack s fuel m true)
                op (set_pc m (pc m + 1)) true Hao Hc) as [-> | ->]; [| done].
    cbn [mbind res_bind]. apply (IH fuel n); [exact Hb | exact Hc | lia].
Qed.

Lemma quant_loop_total body pc1 qmax cc :
  1 <= cc ->
  (forall m, pc m = pc1 -> pos_ok s (cptr m) -> safe (atom_result s cc m) (body m) /\ body m <> NoFuel) ->
  forall fuel m q, pos_ok s (cptr m) -> cbuf_end s - cptr m < Z.of_nat fuel ->
  quant_loop fuel body m pc1 qmax q <> NoFuel.
Proof.
  intros Hcc Hbody. induction fuel as [| fuel IH]; intros m q Hc Hf; [destruct Hc; lia |].
  cbn [quant_loop]. destruct (Hbody (set_pc m pc1) eq_refl Hc) as [Hs Ht].
  apply total_bind; [exact Ht |]. intros [m1 r] E. rewrite E in Hs.
  destruct Hs as [_ Hr]. cbn in Hr. destruct Hr as [-> | (p & -> & Ha)]; [done |].
  cbv beta iota zeta. destruct (_ && _); [done |].
  pose proof (advance_bounds s (ctx_units s Hctx) _ _ _ Ha Hc) as Hb.
  apply IH; cbn; [unfold pos_ok; destruct Hc; lia | lia].
Qed.

Lemma backref_forward_total fuel : forall p1 p1_end p,
  0 <= p1 -> pos_ok s p1_end -> pos_ok s p -> p1_end - p1 < Z.of_nat fuel -> (0 < fuel)%nat ->
  backref_forward s fuel p1 p1_end p <> NoFuel.
Proof.
  induction fuel as [| fuel IH]; intros p1 p1_end p H1 He Hp Hf Hf0; [lia |]. unfold pos_ok in *.
  cbn [backref_forward]. destruct (Z.ltb_spec p1 p1_end); [| done].
  destruct (Z.leb_spec (cbuf_end s) p); [done |].
  destruct (GET_CHAR_bounds s (ctx_units s Hctx) p1 p1_end) as (c1 & q1 & -> & Hc1 & Hq1); [lia | lia |].
  destruct (GET_CHAR_bounds s (ctx_units s Hctx) p (cbuf_end s)) as (c2 & q2 & -> & Hc2 & Hq2); [lia | lia |].
  cbn [mbind res_bind]. destruct (canonicalize_Ret s c1 Hc1) as [x1 ->]. cbn [mbind res_bind].
  destruct (canonicalize_Ret s c2 Hc2) as [x2 ->]. cbn [mbind res_bind].
  destruct (negb _); [done |]. apply IH; lia.
Qed.

Lemma reset_captures_total n : forall caps v, reset_captures n caps v <> NoFuel.
Proof. induction n; intros; cbn [reset_captures]; total; auto. Qed.

(** Fuel for one quantifier: its iterations and its atom. *)
Definition inner_fuel : Z := cbuf_end s + Z.of_nat (length (bc s)) + 2.

Lemma back_reference_total m : inv s l m ->
  op_back_reference s (set_pc m (pc m + 1)) false false <> NoFuel.
Proof.
  intros Hi. unfold op_back_reference. cbn [pc set_pc capture cptr].
  apply total_bind; [apply total_of_opt |]. intros v _.
  destruct (capture_count s <=? v); [apply no_match_total |].
  apply total_bind; [apply total_of_opt |]. intros o1 E1%of_opt_Ret.
  apply total_bind; [apply total_of_opt |]. intros o2 E2%of_opt_Ret.
  destruct o1 as [p1 |]; [| done]. destruct o2 as [p2 |]; [| done].
  pose proof (capture_read s l _ _ _ Hi E1) as Hp1. pose proof (capture_read s l _ _ _ Hi E2) as Hp2.
  apply total_bind.
  - apply backref_forward_total; [apply Hp1 | exact Hp2 | apply Hi | lia | lia].
  - intros [p |] _; [done | apply no_match_total].
Qed.

Lemma exec_op_total fuel m op :
  inv s l m -> op_at s (pc m) = Some op -> inner_fuel <= Z.of_nat fuel ->
  exec_op s fuel (fun m => lre_exec_backtrack s fuel m true) (set_pc m (pc m + 1)) false op <> NoFuel.
Proof.
  intros Hi Eop Hf. pose proof Hi as [Hm Hpc Hst Hc]. unfold inner_fuel in Hf.
  pose proof (op_at_bounds _ _ _ Eop) as Hpb.
  pose proof (Hverify _ _ Hpc) as Hv. pose proof (Hranked _ _ Hpc) as Hr.
  unfold verify_instr in Hv. unfold ranked_instr in Hr. rewrite Eop in Hv, Hr.
  apply andb_true_iff in Hr as [_ Hr].
  destruct (instr_len s op (pc m)) as [len |] eqn:El; [| discriminate].
  destruct (is_char_op op) eqn:Hco.
  { assert (char_op_ok s op (pc m) len = true) as Hok.
    { destruct op; try discriminate Hco; by apply andb_true_iff in Hv as [? _]. }
    destruct (char_op_step s (ctx_units s Hctx) (ctx_bytes s Hctx) fuel
                (fun m => lre_exec_backtrack s fuel m true) op (set_pc m (pc m + 1)) false (pc m) len
                Hco El Hok) as [(c & p & -> & _) | (m' & -> & _)];
      [lia | done | exact Hc | done | apply no_match_total]. }
  destruct (is_assertion_op op) eqn:Hao.
  { destruct (assertion_op_step s (ctx_units s Hctx) fuel (fun m => lre_exec_backtrack s fuel m true)
                op (set_pc m (pc m + 1)) false Hao Hc) as [-> | ->]; [done | apply no_match_total]. }
  destruct op; try discriminate; cbn [exec_op];
    try (unfold op_goto, op_save, op_save_reset, op_push_i32, op_drop, op_loop, op_push_char_pos,
           op_bne_char_pos; total; fail).
  - unfold op_split. total; [apply push_state_total | destruct a0; total].
  - unfold op_split. total; [apply push_state_total | destruct a0; total].
  - apply recurse_total.
  - unfold op_save_reset. total. apply reset_captures_total.
  - by apply back_reference_total.
  - unfold op_lookahead. total; [apply push_state_total | destruct a0; total].
  - unfold op_lookahead. total; [apply push_state_total | destruct a0; total].
  - injection El as <-. rewrite !andb_true_iff in Hv. destruct Hv as [Hlen Hq]. unfold quant_ok in Hq.
    destruct (get_u32 (bc s) (pc m + 1)) as [off |] eqn:Eoff; [| discriminate].
    destruct (get_u32 (bc s) (pc m + 13)) as [cc |] eqn:Ecc; [| discriminate].
    rewrite !andb_true_iff in Hq. destruct Hq as [[_ Hcc] Hb].
    unfold op_simple_greedy_quant. cbn [pc set_pc].
    apply total_bind; [apply total_of_opt | intros next_pos _].
    apply total_bind; [apply total_of_opt | intros qmin _].
    apply total_bind; [apply total_of_opt | intros qmax _].
    replace (pc m + 1 + 16) with (pc m + 17) by lia. cbv zeta. apply total_bind.
    + apply (quant_loop_total _ (pc m + 17) qmax cc); [lia | | exact Hc | destruct Hc; cbn; lia].
      intros m1 Epc Hc1. rewrite <- Epc in Hb. split.
      * eapply atom_safe; [apply Hctx | apply Hctx | exact Hb | exact Hc1].
      * eapply atom_total; [exact Hb | exact Hc1 | destruct Hc; lia].
    + intros [[m2 err] q] _. cbv beta iota. destruct err; [done |].
      destruct (q <? qmin); [apply no_match_total |]. destruct (qmin <? q); [| done].
      apply total_bind; [apply push_state_total |]. intros [m3 r] _. total.
Qed.

(** ** The executor returns *)
Lemma backtrack_total fuel : forall m,
  inv s l m -> cost m + inner_fuel <= Z.of_nat fuel -> lre_exec_backtrack s fuel m false <> NoFuel.
Proof.
  assert (0 < inner_fuel) as Hin.
  { unfold inner_fuel, cbuf_end. pose proof (zlen_nonneg (cbuf s)). lia. }
  induction fuel as [| fuel IH]; intros m Hi Hf; pose proof Hi as [Hm Hpc _ Hc];
    pose proof (point_cost_pos _ _ _ Hpc Hc); pose proof (frames_cost_nonneg _ (mem_frames _ _ _ Hm));
    assert (1 <= cost m) by (unfold cost; lia); [lia |].
  cbn [lre_exec_backtrack]. destruct (height_at_op s l Hverify _ _ Hpc) as [op Eop].
  pose proof Eop as (b & Eb & Er)%op_at_Some. rewrite Eb. cbn [of_opt mbind res_bind].
  rewrite Er. cbn [of_opt mbind res_bind].
  assert (forall cc m', simple_body s (length (bc s)) (pc m') cc = true -> pos_ok s (cptr m') ->
            safe (atom_result s cc m') (lre_exec_backtrack s fuel m' true)) as Hbody.
  { intros cc m' Hb Hp. eapply atom_safe; [apply Hctx | apply Hctx | exact Hb | exact Hp]. }
  apply total_bind; [apply exec_op_total; auto; lia |].
  intros [m' | m' r] E; [| done]. apply IH.
  - pose proof (exec_op_safe s l Hctx Hverify fuel _ m op Hi Eop Hbody) as Hs. by rewrite E in Hs.
  - pose proof (exec_op_cost fuel _ m op m' Hi Eop Hbody E). lia.
Qed.
End cost.

(** ** [lre_exec] returns *)

(** Every instruction of the code has a rank. *)
Definition ranked_code (s : REExecContext) (code_len : Z) (rank : Z -> Z) (R : Z) : bool :=
  match code_scan s code_len with
  | Some l => forallb (fun p => ranked_instr s rank R p.1) l
  | None => false
  end.

(** C5: on verified bytecode with a ranking, [lre_exec] returns a result for
    every input and allocator, and the number of opcodes executed is bounded by
    an explicit function of the input length and the ranks.  A ranking exists
    when the code has no instruction that moves backward ([REOP_prev] and
    [REOP_backward_back_reference], which the compiler emits for look-behinds)
    and every cycle of its instructions, as [ranked_instr] reads them, goes
    through one that consumes a character.  A loop that ends only because
    [REOP_bne_char_pos] sees no advance, as the one of [(a?)*], has no ranking:
    both successors of that instruction must have a smaller rank. *)
Theorem lre_exec_terminates fuel s bc_buf cbuf0 capture0 stack0 cindex ctype addr realloc
    code_len rank R :
  call_ok s bc_buf cbuf0 capture0 stack0 cindex ctype addr realloc ->
  get_u32 bc_buf 3 = Some code_len -> ranked_code s code_len rank R = true ->
  (cbuf_end s + 4) ^ ((cbuf_end s + 1) * R) + inner_fuel s <= Z.of_nat fuel ->
  exists caps r, lre_exec fuel capture0 stack0 bc_buf cbuf0 cindex ctype addr realloc = Ret (caps, r) /\
    captures_ok s caps.
Proof.
  intros Hcall Elen Hrank Hf. destruct (init_machine _ _ _ _ _ _ _ _ _ Hcall)
    as (code_len' & l & caps & st & Elen' & Esc & Hl & Ei & Es & _ & Hinv).
  rewrite Elen in Elen'. injection Elen' as <-.
  pose proof (call_env _ _ _ _ _ _ _ _ _ Hcall) as Hctx.
  assert (ranked s l rank R) as Hr.
  { intros pos h Hh%height_at_in. unfold ranked_code in Hrank. rewrite Esc in Hrank.
    exact (proj1 (forallb_forall _ _) Hrank _ Hh). }
  rewrite (lre_exec_unfold fuel s bc_buf cbuf0 capture0 stack0 cindex ctype addr realloc caps st
             (call_context _ _ _ _ _ _ _ _ _ Hcall) Ei Es).
  set (m := mkMachine caps st 0 0 cindex [] 0) in *.
  assert (lre_exec_backtrack s fuel m false <> NoFuel) as Ht.
  { apply (backtrack_total s l rank R Hctx Hl Hr); [exact Hinv |].
    unfold cost. cbn [state_stack frames_cost m]. pose proof (inv_cptr _ _ _ Hinv) as Hc.
    pose proof (rank_bounds s l rank R Hr _ _ (inv_pc _ _ _ Hinv)) as Hb.
    pose proof (eff_pos_ok s _ Hc) as He. pose proof (base_ge s) as Hba.
    assert (point_cost s rank R (pc m) (cptr m) <= (cbuf_end s + 4) ^ ((cbuf_end s + 1) * R)); [| lia].
    unfold point_cost, weight. apply Z.pow_le_mono_r; [exact (Z.lt_le_trans 0 4 _ eq_refl Hba) | nia]. }
  pose proof (backtrack_safe s l Hctx Hl fuel m Hinv) as Hs.
  destruct (lre_exec_backtrack s fuel m false) as [[m' r] | |]; [| done | done].
  cbn. exists (capture m'), r. split; [done | apply Hs].
Qed.

(** ** Concrete code: /a+b/, which tries every start position *)
Definition code_search : list Z :=
  [0; 1; 0; 40; 0; 0; 0] ++
  [reop_byte REOP_split_goto_first; 6; 0; 0; 0; reop_byte REOP_any;
   reop_byte REOP_goto; 245; 255; 255; 255] ++ drop 7 code_a_plus_b.

Definition context_search (input : list Z) : REExecContext :=
  mkContext (drop 7 code_search) input 4096 0 1 0 false false false (fun n => n <? 100000).

Lemma call_search :
  call_ok (context_search [120; 97; 97; 98]) code_search [120; 97; 97; 98] [None; None] []
    0 0 4096 (fun n => n <? 100000).
Proof.
  split.
  - vm_compute. reflexivity.
  - split.
    + repeat constructor; lia.
    + reflexivity.
    + change (Forall is_byte (drop 7 code_search)). apply Forall_drop.
      vm_compute. repeat constructor; done.
    + cbn. unfold CAPTURE_COUNT_MAX. lia.
    + cbn. unfold STACK_SIZE_MAX. lia.
    + cbn. intros n Hn. lia.
  - eexists. split; [reflexivity |]. vm_compute. reflexivity.
  - reflexivity.
  - vm_compute. discriminate.
  - vm_compute. split; discriminate.
Qed.

(** The backward [goto] of the search loop is above its target. *)
Definition rank_search (pos : Z) : Z := if pos =? 6 then 51 else 50 - pos.

Example run_search_code :
  lre_exec 100 [None; None] [] code_search [120; 97; 97; 98] 0 0 4096 (fun n => n <? 100000) =
  Ret ([Some 1; Some 4], RET_YES).
Proof. vm_compute. reflexivity. Qed.

Lemma lre_exec_terminates_witness :
  exists caps r,
    lre_exec (Z.to_nat (8 ^ 260 + 100)) [None; None] [] code_search [120; 97; 97; 98] 0 0 4096
      (fun n => n <? 100000) = Ret (caps, r) /\
    captures_ok (context_search [120; 97; 97; 98]) caps.
Proof.
  apply (lre_exec_terminates (Z.to_nat (8 ^ 260 + 100)) (context_search [120; 97; 97; 98]) code_search
           [120; 97; 97; 98] [None; None] [] 0 0 4096 (fun n => n <? 100000) 40 rank_search 52).
  - apply call_search.
  - vm_compute. reflexivity.
  - vm_compute. reflexivity.
  - rewrite Z2Nat.id; [vm_compute; discriminate | vm_compute; discriminate].
Defined.

(** ** A loop that consumes nothing

    The compiler adds no zero-advance check to a lazy quantifier, so
    /(?:)*?x/y is the code below: the split prefers the exit, fails on the
    character and retries through the empty body. *)
Definition code_empty_lazy_loop : list Z :=
  [32; 1; 0; 18; 0; 0; 0] ++
  [reop_byte REOP_save_start; 0] ++
  [reop_byte REOP_split_goto_first; 5; 0; 0; 0; reop_byte REOP_goto; 246; 255; 255; 255] ++
  [reop_byte REOP_char; 120; 0; reop_byte REOP_save_end; 0; reop_byte REOP_match].

Definition context_empty_lazy_loop : REExecContext :=
  mkContext (drop 7 code_empty_lazy_loop) [121] 4096 0 1 0 false false false (fun n => n <? 100000).

Lemma empty_lazy_loop_cycle fuel :
  let m := mkMachine [Some 0; None] [] 0 2 0 [] 8 in
  lre_exec_backtrack context_empty_lazy_loop (3 + fuel) m false =
  lre_exec_backtrack context_empty_lazy_loop fuel m false.
Proof. reflexivity. Qed.

Lemma empty_lazy_loop_forever fuel :
  lre_exec_backtrack context_empty_lazy_loop fuel (mkMachine [Some 0; None] [] 0 2 0 [] 8) false = NoFuel.
Proof.
  induction (lt_wf fuel) as [fuel _ IH].
  destruct fuel as [| [| [| fuel]]]; [reflexivity .. |].
  change (S (S (S fuel))) with (3 + fuel)%nat. rewrite empty_lazy_loop_cycle. apply IH. lia.
Qed.

(** It is well formed, and matching it against "y" never returns. *)
Lemma empty_lazy_loop_verified : verify context_empty_lazy_loop 18 = true.
Proof. vm_compute. reflexivity. Qed.

Lemma empty_lazy_loop_diverges fuel :
  lre_exec fuel [None; None] [] code_empty_lazy_loop [121] 0 0 4096 (fun n => n <? 100000) = NoFuel.
Proof.
  destruct fuel as [| [| [| [| fuel]]]]; [reflexivity .. |].
  pose proof (empty_lazy_loop_forever fuel) as E.
  change (lre_exec (S (S (S (S fuel)))) [None; None] [] code_empty_lazy_loop [121] 0 0 4096
            (fun n => n <? 100000))
    with ('(m, r) ← lre_exec_backtrack context_empty_lazy_loop fuel
                      (mkMachine [Some 0; None] [] 0 2 0 [] 8) false;
          Ret (capture m, r)).
  by rewrite E.
Qed.
