(* ===== verification/RegexParse.v ===== *)
(** * libregexp.c: the pieces of the regular expression compiler

    The parser state, the emission of opcodes, the escapes, the group names, the
    character classes and the analyses of emitted code.  The recursive descent
    itself is in RegexCompile.v.

    The pattern is the list of its bytes with the terminating zero; pointers
    into it are offsets.  A function that returns an [int] status is a
    computation of the monad [PM]: [None] is the result -1 (the message is in
    the state when the code sets one). *)
From Stdlib Require Import ZArith Lia Bool Ascii String.
From stdpp Require Import base numbers list.
From S2P Require Import Prelude Alloc Cutils Utf8 DynBuf CharRange CaseConv UnicodeProp RegexOp.

(** The code of an ASCII character. *)
Definition ch (a : ascii) : Z := Z.of_N (N_of_ascii a).
Definition str (s : string) : list Z := map ch (list_ascii_of_string s).

Definition TMP_BUF_SIZE : Z := 128.
Definition UTF8_CHAR_LEN_MAX : Z := 6.
Definition CLASS_RANGE_BASE : Z := 0x40000000.

(** ** The parser state *)
Record REParseState : Type := mkParse {
  byte_code : DynBuf;
  buf_ptr : Z;
  buf_end : Z;
  pattern : list Z;      (** [buf_start], up to and including the final zero *)
  ps_is_utf16 : bool;
  ps_ignore_case : bool;
  ps_dotall : bool;
  ps_capture_count : Z;
  total_capture_count : Z; (** -1 = not computed yet *)
  has_named_captures : Z;  (** -1 = don't know, 0 = no, 1 = yes *)
  group_names : DynBuf;
  error_msg : string
}.

Definition set_byte_code (s : REParseState) (b : DynBuf) : REParseState :=
  mkParse b (buf_ptr s) (buf_end s) (pattern s) (ps_is_utf16 s) (ps_ignore_case s) (ps_dotall s)
    (ps_capture_count s) (total_capture_count s) (has_named_captures s) (group_names s) (error_msg s).
Definition set_buf_ptr (s : REParseState) (p : Z) : REParseState :=
  mkParse (byte_code s) p (buf_end s) (pattern s) (ps_is_utf16 s) (ps_ignore_case s) (ps_dotall s)
    (ps_capture_count s) (total_capture_count s) (has_named_captures s) (group_names s) (error_msg s).
Definition set_capture_count (s : REParseState) (n : Z) : REParseState :=
  mkParse (byte_code s) (buf_ptr s) (buf_end s) (pattern s) (ps_is_utf16 s) (ps_ignore_case s)
    (ps_dotall s) n (total_capture_count s) (has_named_captures s) (group_names s) (error_msg s).
Definition set_captures (s : REParseState) (total named : Z) : REParseState :=
  mkParse (byte_code s) (buf_ptr s) (buf_end s) (pattern s) (ps_is_utf16 s) (ps_ignore_case s)
    (ps_dotall s) (ps_capture_count s) total named (group_names s) (error_msg s).
Definition set_group_names (s : REParseState) (b : DynBuf) : REParseState :=
  mkParse (byte_code s) (buf_ptr s) (buf_end s) (pattern s) (ps_is_utf16 s) (ps_ignore_case s)
    (ps_dotall s) (ps_capture_count s) (total_capture_count s) (has_named_captures s) b (error_msg s).
Definition set_error_msg (s : REParseState) (msg : string) : REParseState :=
  mkParse (byte_code s) (buf_ptr s) (buf_end s) (pattern s) (ps_is_utf16 s) (ps_ignore_case s)
    (ps_dotall s) (ps_capture_count s) (total_capture_count s) (has_named_captures s) (group_names s) msg.

(** ** The monad *)
Definition PM (A : Type) : Type := REParseState -> res (REParseState * option A).

#[export] Instance PM_ret : MRet PM := fun _ a s => Ret (s, Some a).
#[export] Instance PM_bind : MBind PM := fun _ _ f m s =>
  match m s with
  | Ret (s, Some a) => f a s
  | Ret (s, None) => Ret (s, None)
  | Fault => Fault
  | NoFuel => NoFuel
  end.

Definition ret {A} (a : A) : PM A := fun s => Ret (s, Some a).
Definition lift {A} (m : res A) : PM A := fun s =>
  match m with Ret a => Ret (s, Some a) | Fault => Fault | NoFuel => NoFuel end.
Definition get_state : PM REParseState := fun s => Ret (s, Some s).
Definition put_state (s : REParseState) : PM unit := fun _ => Ret (s, Some tt).
(** [return -1] without a message *)
Definition fail_silent {A} : PM A := fun s => Ret (s, None).
Definition re_parse_error {A} (msg : string) : PM A := fun s => Ret (set_error_msg s msg, None).
Definition re_parse_out_of_memory {A} : PM A := re_parse_error "out of memory".

(** The byte of the pattern at [p]. *)
Definition byte_at (p : Z) : PM Z := s ← get_state; lift (of_opt (znth (pattern s) p)).
Definition is_byte_at (p : Z) (c : ascii) : PM bool := b ← byte_at p; ret (b =? ch c).

Section parse.
Context `{AB : Realloc is_byte} `{AW : Realloc is_u32}.

(** ** Emission *)

(** Run an operation of [byte_code] and ignore its status, as the C code does. *)
Definition on_byte_code (f : DynBuf -> res (DynBuf * Z)) : PM unit := fun s =>
  match f (byte_code s) with
  | Ret (b, _) => Ret (set_byte_code s b, Some tt)
  | Fault => Fault
  | NoFuel => NoFuel
  end.
(** ... and report its status. *)
Definition on_byte_code_status (f : DynBuf -> res (DynBuf * Z)) : PM Z := fun s =>
  match f (byte_code s) with
  | Ret (b, r) => Ret (set_byte_code s b, Some r)
  | Fault => Fault
  | NoFuel => NoFuel
  end.

Definition code_size : PM Z := s ← get_state; ret (size (byte_code s)).

Definition re_emit_op (op : REOPCodeEnum) : PM unit :=
  on_byte_code (fun b => dbuf_putc b (reop_byte op)).

(** return the offset of the u32 value *)
Definition re_emit_op_u32 (op : REOPCodeEnum) (val : Z) : PM Z :=
  _ ← re_emit_op op;
  pos ← code_size;
  _ ← on_byte_code (fun b => dbuf_put_u32 b val);
  ret pos.

Definition re_emit_goto (op : REOPCodeEnum) (val : Z) : PM Z :=
  _ ← re_emit_op op;
  pos ← code_size;
  _ ← on_byte_code (fun b => dbuf_put_u32 b (u32 (val - (pos + 4))));
  ret pos.

Definition re_emit_op_u8 (op : REOPCodeEnum) (val : Z) : PM unit :=
  _ ← re_emit_op op;
  on_byte_code (fun b => dbuf_putc b val).

Definition re_emit_op_u16 (op : REOPCodeEnum) (val : Z) : PM unit :=
  _ ← re_emit_op op;
  on_byte_code (fun b => dbuf_put_u16 b val).

(** [s->byte_code.buf[pos] = v] and [put_u32(s->byte_code.buf + pos, v)] *)
Definition code_store (pos v : Z) : PM unit :=
  on_byte_code (fun b =>
    m ← of_opt (zupd (buf b) pos (u8 v));
    Ret (mkDynBuf m (size b) (allocated_size b) (error b), 0)).
Definition code_put_u32 (pos v : Z) : PM unit :=
  on_byte_code (fun b =>
    m ← of_opt (put_u32 (buf b) pos v);
    Ret (mkDynBuf m (size b) (allocated_size b) (error b), 0)).
(** [s->byte_code.size = n] *)
Definition code_truncate (n : Z) : PM unit :=
  on_byte_code (fun b => Ret (mkDynBuf (buf b) n (allocated_size b) (error b), 0)).
Definition code_insert (pos len : Z) : PM unit :=
  r ← on_byte_code_status (fun b => dbuf_insert b pos len);
  if negb (r =? 0) then re_parse_out_of_memory else ret tt.

(** ** Numbers and escapes *)

(** If allow_overflow is false, return -1 in case of overflow. Otherwise return
    INT32_MAX. *)
Fixpoint parse_digits_loop (fuel : nat) (b : list Z) (p v : Z) (allow_overflow : bool)
  : res (option (Z * Z)) :=
  match fuel with
  | O => NoFuel
  | S fuel =>
      c ← of_opt (znth b p);
      if (c <? ch "0") || (ch "9" <? c) then Ret (Some (v, p))
      else
        let v := u64 (u64 (v * 10) + c - ch "0") in
        if INT32_MAX <=? v then
          if allow_overflow then parse_digits_loop fuel b (p + 1) INT32_MAX allow_overflow
          else Ret None
        else parse_digits_loop fuel b (p + 1) v allow_overflow
  end.

(** The value and the new position; [*pp] is not updated on overflow. *)
Definition parse_digits (b : list Z) (p : Z) (allow_overflow : bool) : res (Z * Z) :=
  r ← parse_digits_loop (S (length b)) b p 0 allow_overflow;
  match r with Some (v, p') => Ret (v, p') | None => Ret (-1, p) end.

Definition re_parse_expect (p : Z) (c : ascii) : PM Z :=
  b ← is_byte_at p c;
  if (b : bool) then ret (p + 1) else re_parse_error ("expecting '" ++ String c "'").

(** [n] hexadecimal digits *)
Fixpoint hex_digits (n : nat) (b : list Z) (p c : Z) : res (option (Z * Z)) :=
  match n with
  | O => Ret (Some (c, p))
  | S n =>
      x ← of_opt (znth b p);
      let h := from_hex x in
      if h <? 0 then Ret None else hex_digits n b (p + 1) (u32 (Z.lor (Z.shiftl c 4) h))
  end.

(** The digits of [\u{...}]; [p] is after the brace. *)
Fixpoint hex_braces (fuel : nat) (b : list Z) (p c : Z) : res (option (Z * Z)) :=
  match fuel with
  | O => NoFuel
  | S fuel =>
      x ← of_opt (znth b p);
      let p := p + 1 in
      let h := from_hex x in
      if h <? 0 then Ret None
      else
        let c := u32 (Z.lor (Z.shiftl c 4) h) in
        if 0x10FFFF <? c then Ret None
        else
          y ← of_opt (znth b p);
          if y =? ch "}" then Ret (Some (c, p + 1)) else hex_braces fuel b p c
  end.

(** The surrogate pair case of [\uXXXX\uXXXX]. *)
Definition escape_surrogate (b : list Z) (p c allow_utf16 : Z) : res (Z * Z) :=
  if (0xd800 <=? c) && (c <? 0xdc00) && (allow_utf16 =? 2) then
    x0 ← of_opt (znth b p);
    if x0 =? ch "\" then
      x1 ← of_opt (znth b (p + 1));
      if x1 =? ch "u" then
        r ← hex_digits 4 b (p + 2) 0;
        match r with
        | Some (c1, _) =>
            if (0xdc00 <=? c1) && (c1 <? 0xe000)
            then Ret (Z.lor (Z.shiftl (Z.land c 0x3ff) 10) (Z.land c1 0x3ff) + 0x10000, p + 6)
            else Ret (c, p)
        | None => Ret (c, p)
        end
      else Ret (c, p)
    else Ret (c, p)
  else Ret (c, p).

(** The octal escapes; [c] is the first digit's value, [p] after it. *)
Definition escape_octal (b : list Z) (p c allow_utf16 : Z) : res (option (Z * Z)) :=
  x ← of_opt (znth b p);
  if allow_utf16 =? 2 then
    (* only accept \0 not followed by digit *)
    if negb (c =? 0) || is_digit x then Ret None else Ret (Some (c, p))
  else
    (* parse a legacy octal sequence *)
    let v := u32 (x - ch "0") in
    if 7 <? v then Ret (Some (c, p))
    else
      let c := Z.lor (Z.shiftl c 3) v in
      let p := p + 1 in
      if 32 <=? c then Ret (Some (c, p))
      else
        x ← of_opt (znth b p);
        let v := u32 (x - ch "0") in
        if 7 <? v then Ret (Some (c, p))
        else Ret (Some (Z.lor (Z.shiftl c 3) v, p + 1)).

(** The character and the new position; -1 if malformed escape, -2 if not an
    escape of this function ([*pp] unchanged). *)
Definition lre_parse_escape (b : list Z) (p0 : Z) (allow_utf16 : Z) : res (Z * Z) :=
  c ← of_opt (znth b p0);
  let p := p0 + 1 in
  if c =? ch "b" then Ret (8, p)
  else if c =? ch "f" then Ret (12, p)
  else if c =? ch "n" then Ret (10, p)
  else if c =? ch "r" then Ret (13, p)
  else if c =? ch "t" then Ret (9, p)
  else if c =? ch "v" then Ret (11, p)
  else if (c =? ch "x") || (c =? ch "u") then
    x ← of_opt (znth b p);
    if (x =? ch "{") && negb (allow_utf16 =? 0) then
      r ← hex_braces (S (length b)) b (p + 1) 0;
      match r with Some cp => Ret cp | None => Ret (-1, p0) end
    else
      r ← hex_digits (if c =? ch "x" then 2 else 4) b p 0;
      match r with
      | None => Ret (-1, p0)
      | Some (c, p) => escape_surrogate b p c allow_utf16
      end
  else if (ch "0" <=? c) && (c <=? ch "7") then
    r ← escape_octal b p (c - ch "0") allow_utf16;
    match r with Some cp => Ret cp | None => Ret (-1, p0) end
  else Ret (-2, p0).

(** ** Predefined classes *)
Definition char_range_d : list Z := [1; 0x0030; 0x0039 + 1].

(** code point ranges for Zs,Zl or Zp property *)
Definition char_range_s : list Z := [
  10;
  0x0009; 0x000D + 1;
  0x0020; 0x0020 + 1;
  0x00A0; 0x00A0 + 1;
  0x1680; 0x1680 + 1;
  0x2000; 0x200A + 1;
  0x2028; 0x2029 + 1;
  0x202F; 0x202F + 1;
  0x205F; 0x205F + 1;
  0x3000; 0x3000 + 1;
  0xFEFF; 0xFEFF + 1].

Definition char_range_w : list Z := [
  4;
  0x0030; 0x0039 + 1;
  0x0041; 0x005A + 1;
  0x005F; 0x005F + 1;
  0x0061; 0x007A + 1].

Inductive CharRangeEnum : Type :=
  CHAR_RANGE_d | CHAR_RANGE_D | CHAR_RANGE_s | CHAR_RANGE_S | CHAR_RANGE_w | CHAR_RANGE_W.

(** [char_range_table[c >> 1]] and [c & 1] *)
Definition char_range_table (c : CharRangeEnum) : list Z :=
  match c with
  | CHAR_RANGE_d | CHAR_RANGE_D => char_range_d
  | CHAR_RANGE_s | CHAR_RANGE_S => char_range_s
  | CHAR_RANGE_w | CHAR_RANGE_W => char_range_w
  end.
Definition char_range_inverted (c : CharRangeEnum) : bool :=
  match c with CHAR_RANGE_D | CHAR_RANGE_S | CHAR_RANGE_W => true | _ => false end.

(** The loop of [lre_is_space] over the pairs of the table. *)
Fixpoint is_space_loop (pts : list Z) (c : Z) : bool :=
  match pts with
  | low :: high :: pts => if c <? low then false else if c <? high then true else is_space_loop pts c
  | _ => false
  end.
Definition lre_is_space (c : Z) : bool := is_space_loop (tail char_range_s) c.

Definition lre_id_start_table_ascii : list Z := [0x00000000; 0x00000010; 0x87FFFFFE; 0x07FFFFFE].
Definition lre_id_continue_table_ascii : list Z := [0x00000000; 0x03FF0010; 0x87FFFFFE; 0x07FFFFFE].

Definition lre_js_is_ident_first (c : Z) : res bool :=
  if (0 <=? c) && (c <? 128) then
    w ← of_opt (znth lre_id_start_table_ascii (Z.shiftr c 5));
    Ret (Z.testbit w (Z.land c 31))
  else lre_is_id_start (u32 c).

Definition lre_js_is_ident_next (c : Z) : res bool :=
  if (0 <=? c) && (c <? 128) then
    w ← of_opt (znth lre_id_continue_table_ascii (Z.shiftr c 5));
    Ret (Z.testbit w (Z.land c 31))
  else
    (* ZWNJ and ZWJ are accepted in identifiers *)
    b ← lre_is_id_continue (u32 c);
    Ret (b || (c =? 0x200C) || (c =? 0x200D)).

(** [for(i = 0; i < len * 2; i++) if (cr_add_point(cr, c_pt[i])) goto fail;] *)
Fixpoint add_points (cr : CharRange) (pts : list Z) : res (CharRange * Z) :=
  match pts with
  | [] => Ret (cr, 0)
  | x :: pts =>
      '(cr, r) ← cr_add_point cr x;
      if negb (r =? 0) then Ret (cr, -1) else add_points cr pts
  end.

Definition cr_init_char_range (c : CharRangeEnum) : res (CharRange * Z) :=
  let t := char_range_table c in
  len ← of_opt (znth t 0);
  pts ← of_opt (zread t 1 (len * 2));
  '(cr, r) ← add_points cr_init pts;
  if negb (r =? 0) then Ret (cr, -1)
  else if char_range_inverted c then
    '(cr, r) ← cr_invert cr;
    Ret (cr, if r =? 0 then 0 else -1)
  else Ret (cr, 0).

(** Adds the upper case letters of the lower case ones. *)
Definition cr_canonicalize (cr : CharRange) : res (CharRange * Z) :=
  '(a, r) ← cr_op cr_init (cr_points cr) (cr_len cr) [97; 123] 2 CR_OP_INTER;
  if negb (r =? 0) then Ret (cr, r)
  else
    (* convert to upper case *)
    pts ← of_opt (zread (cr_points a) 0 (cr_len a));
    cr_union1 cr (map (fun x => u32 (x - 32)) pts) (cr_len a).

(** A result of the range functions, with the failure reported by [on_fail]. *)
Definition lift_cr (m : res (CharRange * Z)) (on_fail : PM CharRange) : PM CharRange :=
  '(cr, r) ← lift m;
  if negb (r =? 0) then on_fail else ret cr.

(** ** Group names *)

(** [q] holds the bytes of the name so far. *)
Fixpoint group_name_loop (fuel : nat) (b : list Z) (buf_size p : Z) (is_utf16 : bool) (q : list Z)
  : res (option (list Z * Z)) :=
  match fuel with
  | O => NoFuel
  | S fuel =>
      c ← of_opt (znth b p);
      let next (c p : Z) : res (option (list Z * Z)) :=
        if 0x10FFFF <? u32 c then Ret None
        else
          ok ← (match q with [] => lre_js_is_ident_first c | _ => lre_js_is_ident_next c end);
          if negb ok then Ret None
          else if buf_size <? zlen q + UTF8_CHAR_LEN_MAX + 1 then Ret None
          else group_name_loop fuel b buf_size p is_utf16
                 (q ++ (if c <? 128 then [c] else unicode_to_utf8 c)) in
      if c =? ch "\" then
        let p := p + 1 in
        u ← of_opt (znth b p);
        if negb (u =? ch "u") then Ret None
        else
          '(c, p) ← lre_parse_escape b p (if is_utf16 then 2 else 0);
          next c p
      else if c =? ch ">" then
        Ret (match q with [] => None | _ => Some (q, p) end)
      else if 128 <=? c then
        '(c, n) ← unicode_from_utf8 (drop (Z.to_nat p) b) UTF8_CHAR_LEN_MAX;
        next c (p + n)
      else next c (p + 1)
  end.

(** '*pp' is the first char after '<': the name, and the position after '>'. *)
Definition re_parse_group_name (b : list Z) (buf_size p : Z) (is_utf16 : bool)
  : res (option (list Z * Z)) :=
  r ← group_name_loop (S (length b)) b buf_size p is_utf16 [];
  Ret (match r with Some (name, p) => Some (name, p + 1) | None => None end).

(** [for (p += 1 + ( *p == ']'); p < s->buf_end && *p != ']'; p++) ...] *)
Fixpoint skip_class (fuel : nat) (b : list Z) (bend p : Z) : res Z :=
  match fuel with
  | O => NoFuel
  | S fuel =>
      if p <? bend then
        c ← of_opt (znth b p);
        if c =? ch "]" then Ret p
        else if c =? ch "\" then skip_class fuel b bend (p + 2)
        else skip_class fuel b bend (p + 1)
      else Ret p
  end.

(** The scan of the pattern for captures. The result is the index of
    [capture_name], or [None]; the capture index reached; and whether a named
    capture was seen. *)
Fixpoint captures_loop (fuel : nat) (b : list Z) (bend p : Z) (is_utf16 : bool)
    (capture_name : option (list Z)) (capture_index named : Z) : res (option Z * Z * Z) :=
  match fuel with
  | O => NoFuel
  | S fuel =>
      if p <? bend then
        c ← of_opt (znth b p);
        let continue p idx named := captures_loop fuel b bend (p + 1) is_utf16 capture_name idx named in
        let count p named :=
          if CAPTURE_COUNT_MAX <=? capture_index + 1 then Ret (None, capture_index + 1, named)
          else continue p (capture_index + 1) named in
        if c =? ch "(" then
          c1 ← of_opt (znth b (p + 1));
          if c1 =? ch "?" then
            c2 ← of_opt (znth b (p + 2));
            if c2 =? ch "<" then
              c3 ← of_opt (znth b (p + 3));
              if negb (c3 =? ch "=") && negb (c3 =? ch "!") then
                (* potential named capture *)
                match capture_name with
                | Some cname =>
                    let p := p + 3 in
                    r ← re_parse_group_name b TMP_BUF_SIZE p is_utf16;
                    match r with
                    | Some (name, p') =>
                        if bool_decide (name = cname) then Ret (Some capture_index, capture_index, 1)
                        else count p' 1
                    | None => count p 1
                    end
                | None => count p 1
                end
              else continue p capture_index named
            else continue p capture_index named
          else count p named
        else if c =? ch "\" then continue (p + 1) capture_index named
        else if c =? ch "[" then
          (* [p] is at the bracket: [1 + ( *p == ']')] is 1 *)
          p ← skip_class fuel b bend (p + 1);
          continue p capture_index named
        else continue p capture_index named
      else Ret (None, capture_index, named)
  end.

(** if capture_name = NULL: return the number of captures + 1. Otherwise, return
    the capture index corresponding to capture_name or -1 if none.  The second
    component is [*phas_named_captures]. *)
Definition re_parse_captures (s : REParseState) (capture_name : option (list Z)) : res (Z * Z) :=
  '(found, idx, named) ← captures_loop (2 + length (pattern s)) (pattern s) (buf_end s) 0
    (ps_is_utf16 s) capture_name 1 0;
  Ret (match found, capture_name with
       | Some i, _ => i
       | None, Some _ => -1
       | None, None => idx
       end, named).

Definition re_count_captures : PM Z :=
  s ← get_state;
  if total_capture_count s <? 0 then
    '(n, named) ← lift (re_parse_captures s None);
    _ ← put_state (set_captures s n named);
    ret n
  else ret (total_capture_count s).

Definition re_has_named_captures : PM bool :=
  s ← get_state;
  _ ← (if has_named_captures s <? 0 then _ ← re_count_captures; ret tt else ret tt);
  s ← get_state;
  ret (negb (has_named_captures s =? 0)).

(** The loop over the zero terminated names. *)
Fixpoint find_name_loop (fuel : nat) (names : list Z) (p bend : Z) (name : list Z) (idx : Z) : res Z :=
  match fuel with
  | O => NoFuel
  | S fuel =>
      if p <? bend then
        len ← strlen (drop (Z.to_nat p) names);
        x ← of_opt (zread names p len);
        if bool_decide (x = name) then Ret idx
        else find_name_loop fuel names (p + len + 1) bend name (idx + 1)
      else Ret (-1)
  end.

Definition find_group_name (name : list Z) : PM Z :=
  s ← get_state;
  let g := group_names s in
  lift (find_name_loop (S (length (buf g))) (buf g) 0 (size g) name 1).

(** ** Unicode properties: [\p{...}] *)
Definition is_unicode_char (c : Z) : bool :=
  ((48 <=? c) && (c <=? 57)) || ((65 <=? c) && (c <=? 90)) || ((97 <=? c) && (c <=? 122)) || (c =? 95).

(** The characters of a name or value into a buffer of 64 bytes: [None] when it
    is full. *)
Fixpoint property_name_loop (fuel : nat) (p : Z) (q : list Z) : PM (option (list Z) * Z) :=
  match fuel with
  | O => lift NoFuel
  | S fuel =>
      c ← byte_at p;
      if is_unicode_char c then
        if 64 - 1 <=? zlen q then ret (None, p)
        else property_name_loop fuel (p + 1) (q ++ [c])
      else ret (Some q, p)
  end.

(** libunicode.c's lookups, which the parser calls: [unicode_script],
    [unicode_general_category] and [unicode_prop] of an empty range: 0 if OK,
    -1 if error, -2 if not found. *)
Class UnicodeLookup : Type := {
  unicode_script : list Z -> bool -> res (CharRange * Z);
  unicode_general_category : list Z -> res (CharRange * Z);
  unicode_prop : list Z -> res (CharRange * Z)
}.
Context `{UL : UnicodeLookup}.

Definition lookup_status (m : res (CharRange * Z)) (not_found : PM CharRange) : PM CharRange :=
  '(cr, r) ← lift m;
  if r =? 0 then ret cr
  else if r =? -2 then not_found
  else re_parse_out_of_memory.

Definition property_range (name value : list Z) : PM CharRange :=
  let unknown := re_parse_error "unknown unicode property name" in
  let is_name n := bool_decide (name = str n) in
  if is_name "Script"%string || is_name "sc"%string then
    lookup_status (unicode_script value false) (re_parse_error "unknown unicode script")
  else if is_name "Script_Extensions"%string || is_name "scx"%string then
    lookup_status (unicode_script value true) (re_parse_error "unknown unicode script")
  else if is_name "General_Category"%string || is_name "gc"%string then
    lookup_status (unicode_general_category value)
      (re_parse_error "unknown unicode general category")
  else
    match value with
    | [] =>
        '(cr, r) ← lift (unicode_general_category name);
        if r =? -1 then re_parse_out_of_memory
        else if r <? 0 then lookup_status (unicode_prop name) unknown
        else ret cr
    | _ => unknown
    end.

Definition parse_unicode_property (p : Z) (is_inv : bool) : PM (CharRange * Z) :=
  ok ← is_byte_at p "{";
  if negb ok then re_parse_error "expecting '{' after \p"
  else
    s ← get_state;
    let fuel := length (pattern s) in
    '(name, p) ← property_name_loop fuel (p + 1) [];
    match name with
    | None => re_parse_error "unknown unicode property name"
    | Some name =>
        eq ← is_byte_at p "=";
        '(value, p) ← (if (eq : bool) then property_name_loop fuel (p + 1) [] else ret (Some [], p));
        match value with
        | None => re_parse_error "unknown unicode property value"
        | Some value =>
            ok ← is_byte_at p "}";
            if negb ok then re_parse_error "expecting '}'"
            else
              cr ← property_range name value;
              cr ← (if is_inv then lift_cr (cr_invert cr) fail_silent else ret cr);
              ret (cr, p + 1)
        end
    end.

(** ** Class atoms *)

Definition is_syntax_char (c : Z) : bool :=
  negb (c =? 0) && bool_decide (c ∈ str "^$\.*+?()[]{}|/").

(** [normal_char]: the character at [p], whose first byte is [c] *)
Definition normal_char (c p : Z) : PM (Z * CharRange * Z) :=
  s ← get_state;
  if 128 <=? c then
    '(c, n) ← lift (unicode_from_utf8 (drop (Z.to_nat p) (pattern s)) UTF8_CHAR_LEN_MAX);
    if (0xffff <? u32 c) && negb (ps_is_utf16 s) then
      (* XXX: should handle non BMP-1 code points *)
      re_parse_error "malformed unicode char"
    else if c <? 0 then fail_silent (* the caller returns on a negative character *)
    else ret (c, cr_init, p + n)
  else ret (c, cr_init, p + 1).

(** The escapes of a class atom; [p] is after the backslash. *)
Definition class_escape (p : Z) (inclass : bool) : PM (Z * CharRange * Z) :=
  s ← get_state;
  if buf_end s <=? p then re_parse_error "unexpected end"
  else
    c ← byte_at p;
    let p1 := p + 1 in
    let invalid_escape := re_parse_error "invalid escape sequence in regular expression" in
    let class_range e :=
      cr ← lift_cr (cr_init_char_range e) fail_silent;
      ret (CLASS_RANGE_BASE, cr, p1) in
    let default :=
      '(r, p2) ← lift (lre_parse_escape (pattern s) p (if ps_is_utf16 s then 2 else 0));
      if 0 <=? r then ret (r, cr_init, p2)
      else if (r =? -2) && is_syntax_char c then
        (* always valid to escape these characters *)
        normal_char c p
      else if ps_is_utf16 s then invalid_escape
      else (* just ignore the '\' *) normal_char c p in
    if c =? ch "d" then class_range CHAR_RANGE_d
    else if c =? ch "D" then class_range CHAR_RANGE_D
    else if c =? ch "s" then class_range CHAR_RANGE_s
    else if c =? ch "S" then class_range CHAR_RANGE_S
    else if c =? ch "w" then class_range CHAR_RANGE_w
    else if c =? ch "W" then class_range CHAR_RANGE_W
    else if c =? ch "c" then
      c ← byte_at p1;
      if ((ch "a" <=? c) && (c <=? ch "z")) || ((ch "A" <=? c) && (c <=? ch "Z")) ||
         ((((ch "0" <=? c) && (c <=? ch "9")) || (c =? ch "_")) && inclass && negb (ps_is_utf16 s))
      then (* Annex B.1.4 *) ret (Z.land c 0x1f, cr_init, p1 + 1)
      else if ps_is_utf16 s then invalid_escape
      else (* otherwise return '\' and 'c' *) ret (ch "\", cr_init, p1 - 1)
    else if ((c =? ch "p") || (c =? ch "P")) && ps_is_utf16 s then
      '(cr, p) ← parse_unicode_property p1 (c =? ch "P");
      ret (CLASS_RANGE_BASE, cr, p)
    else default.

(** return -1 if error otherwise the character or a class range
    (CLASS_RANGE_BASE). In case of class range, 'cr' is initialized. Otherwise, it
    is ignored. *)
Definition get_class_atom (p : Z) (inclass : bool) : PM (Z * CharRange * Z) :=
  s ← get_state;
  c ← byte_at p;
  if c =? ch "\" then class_escape (p + 1) inclass
  else if (c =? 0) && (buf_end s <=? p) then re_parse_error "unexpected end"
  else normal_char c p.

(** ** Emitting a range *)

(** The pairs of a range. *)
Fixpoint put_pairs (pts : list Z) (put : Z -> Z -> PM unit) : PM unit :=
  match pts with
  | low :: high :: pts => _ ← put low high; put_pairs pts put
  | _ => ret tt
  end.

Definition re_emit_range (cr : CharRange) : PM unit :=
  let len := Z.quot (u32 (cr_len cr)) 2 in
  if 65535 <=? len then re_parse_error "too many ranges"
  else if len =? 0 then
    (* not sure it can really happen. Emit a match that is always false *)
    _ ← re_emit_op_u32 REOP_char32 (u32 (-1)); ret tt
  else
    high ← lift (of_opt (znth (cr_points cr) (cr_len cr - 1)));
    high ← (if high =? UINT32_MAX then lift (of_opt (znth (cr_points cr) (cr_len cr - 2)))
            else ret high);
    pts ← lift (of_opt (zread (cr_points cr) 0 (cr_len cr)));
    if high <=? 0xffff then
      (* can use 16 bit ranges with the conversion that 0xffff = infinity *)
      _ ← re_emit_op_u16 REOP_range len;
      put_pairs pts (fun low high =>
        _ ← on_byte_code (fun b => dbuf_put_u16 b low);
        let high := u32 (high - 1) in
        let high := if high =? UINT32_MAX - 1 then 0xffff else high in
        on_byte_code (fun b => dbuf_put_u16 b high))
    else
      _ ← re_emit_op_u16 REOP_range32 len;
      put_pairs pts (fun low high =>
        _ ← on_byte_code (fun b => dbuf_put_u32 b low);
        on_byte_code (fun b => dbuf_put_u32 b (u32 (high - 1)))).

(** ** Character classes *)
Definition memory_error {A} : PM A := re_parse_out_of_memory.

(** [class_atom]: add a single atom to the class *)
Definition class_atom (cr : CharRange) (c1 : Z) (cr1 : CharRange) : PM CharRange :=
  if CLASS_RANGE_BASE <=? c1 then
    lift_cr (cr_union1 cr (cr_points cr1) (cr_len cr1)) memory_error
  else lift_cr (cr_union_interval cr c1 c1) memory_error.

Fixpoint char_class_loop (fuel : nat) (cr : CharRange) (p : Z) : PM (CharRange * Z) :=
  match fuel with
  | O => lift NoFuel
  | S fuel =>
      s ← get_state;
      close ← is_byte_at p "]";
      if (close : bool) then ret (cr, p)
      else
        '(c1, cr1, p) ← get_class_atom p true;
        let single := cr ← class_atom cr c1 cr1; char_class_loop fuel cr p in
        dash ← is_byte_at p "-";
        next ← (if (dash : bool) then b ← is_byte_at (p + 1) "]"; ret (negb b) else ret false);
        if (next : bool) then
          let p0 := p + 1 in
          if CLASS_RANGE_BASE <=? c1 then
            if ps_is_utf16 s then re_parse_error "invalid class range"
            else (* Annex B: match '-' character *) single
          else
            '(c2, _, p0) ← get_class_atom p0 true;
            if CLASS_RANGE_BASE <=? c2 then
              if ps_is_utf16 s then re_parse_error "invalid class range"
              else (* Annex B: match '-' character *) single
            else if c2 <? c1 then re_parse_error "invalid class range"
            else
              cr ← lift_cr (cr_union_interval cr c1 c2) memory_error;
              char_class_loop fuel cr p0
        else single
  end.

(** [p] is at the '['; the position after the ']'. *)
Definition re_parse_char_class (p : Z) : PM Z :=
  s ← get_state;
  let p := p + 1 in (* skip '[' *)
  invert ← is_byte_at p "^";
  let p := if (invert : bool) then p + 1 else p in
  '(cr, p) ← char_class_loop (S (length (pattern s))) cr_init p;
  cr ← (if ps_ignore_case s then lift_cr (cr_canonicalize cr) memory_error else ret cr);
  cr ← (if invert then lift_cr (cr_invert cr) memory_error else ret cr);
  _ ← re_emit_range cr;
  ret (p + 1). (* skip ']' *)

(** ** Analyses of emitted code *)

(** [reopcode_info[opcode].size], with the operands of the range opcodes; the
    table read is out of bounds from [REOP_COUNT] on. *)
Definition code_instr (bc_buf : list Z) (pos : Z) : res (REOPCodeEnum * Z) :=
  opcode ← of_opt (znth bc_buf pos);
  op ← of_opt (reop_of opcode);
  len ← of_opt (reopcode_info opcode);
  match op with
  | REOP_range => n ← of_opt (get_u16 bc_buf (pos + 1)); Ret (op, len + n * 4)
  | REOP_range32 => n ← of_opt (get_u16 bc_buf (pos + 1)); Ret (op, len + n * 8)
  | _ => Ret (op, len)
  end.

(** [capture_bitmap[i] |= v] *)
Definition bitmap_or (bm : list Z) (i v : Z) : res (list Z) :=
  x ← of_opt (znth bm i);
  of_opt (zupd bm i (Z.lor x v)).

(** [while (val < last) capture_bitmap[val++] |= 1;] *)
Fixpoint bitmap_range (n : nat) (bm : list Z) (val : Z) : res (list Z) :=
  match n with
  | O => Ret bm
  | S n => bm ← bitmap_or bm val 1; bitmap_range n bm (val + 1)
  end.

Fixpoint check_advance_loop (fuel : nat) (bc_buf : list Z) (bc_buf_len pos ret0 : Z)
    (has_back_reference : bool) (bm : list Z) : res (Z * bool * list Z) :=
  match fuel with
  | O => NoFuel
  | S fuel =>
      if pos <? bc_buf_len then
        '(op, len) ← code_instr bc_buf pos;
        let continue := check_advance_loop fuel bc_buf bc_buf_len (pos + len) in
        match op with
        | REOP_range | REOP_range32 | REOP_char | REOP_char32 | REOP_dot | REOP_any =>
            continue (if ret0 =? -2 then 1 else ret0) has_back_reference bm
        | REOP_line_start | REOP_line_end | REOP_push_i32 | REOP_push_char_pos | REOP_drop
        | REOP_word_boundary | REOP_not_word_boundary | REOP_prev =>
            (* no effect *)
            continue ret0 has_back_reference bm
        | REOP_save_start | REOP_save_end =>
            val ← of_opt (znth bc_buf (pos + 1));
            bm ← bitmap_or bm val 1;
            continue ret0 has_back_reference bm
        | REOP_save_reset =>
            val ← of_opt (znth bc_buf (pos + 1));
            last ← of_opt (znth bc_buf (pos + 2));
            bm ← bitmap_range (Z.to_nat (last - val)) bm val;
            continue ret0 has_back_reference bm
        | REOP_back_reference | REOP_backward_back_reference =>
            val ← of_opt (znth bc_buf (pos + 1));
            bm ← bitmap_or bm val 2;
            continue ret0 true bm
        | _ =>
            (* safe behvior: we cannot predict the outcome *)
            continue (if ret0 =? -2 then 0 else ret0) has_back_reference bm
        end
      else Ret (ret0, has_back_reference, bm)
  end.

(** 1 if the opcodes in bc_buf[] always advance the character pointer. 0 if the
    character pointer may not be advanced. -1 if the code may depend on side
    effects of its previous execution (backreference) *)
Definition re_check_advance (bc_buf : list Z) (bc_buf_len : Z) : res Z :=
  '(r, has_back_reference, bm) ← check_advance_loop (S (Z.to_nat bc_buf_len)) bc_buf bc_buf_len 0 (-2)
    false (replicate (Z.to_nat CAPTURE_COUNT_MAX) 0);
  if has_back_reference && existsb (fun x => x =? 3) bm then Ret (-1)
  else Ret (if r =? -2 then 0 else r).

Fixpoint simple_quantifier_loop (fuel : nat) (bc_buf : list Z) (bc_buf_len pos count : Z) : res Z :=
  match fuel with
  | O => NoFuel
  | S fuel =>
      if pos <? bc_buf_len then
        '(op, len) ← code_instr bc_buf pos;
        match op with
        | REOP_range | REOP_range32 | REOP_char | REOP_char32 | REOP_dot | REOP_any =>
            simple_quantifier_loop fuel bc_buf bc_buf_len (pos + len) (count + 1)
        | REOP_line_start | REOP_line_end | REOP_word_boundary | REOP_not_word_boundary =>
            simple_quantifier_loop fuel bc_buf bc_buf_len (pos + len) count
        | _ => Ret (-1)
        end
      else Ret count
  end.

(** -1 if a simple quantifier cannot be used. Otherwise the number of characters
    in the atom. *)
Definition re_is_simple_quantifier (bc_buf : list Z) (bc_buf_len : Z) : res Z :=
  simple_quantifier_loop (S (Z.to_nat bc_buf_len)) bc_buf bc_buf_len 0 0.

Fixpoint stack_size_loop (fuel : nat) (bc_buf : list Z) (bc_buf_len pos stack_size stack_size_max : Z)
  : res Z :=
  match fuel with
  | O => NoFuel
  | S fuel =>
      if pos <? bc_buf_len then
        opcode ← of_opt (znth bc_buf pos);
        size ← of_opt (reopcode_info opcode);
        _ ← assert_ (opcode <? REOP_COUNT);
        _ ← assert_ (pos + size <=? bc_buf_len);
        '(op, len) ← code_instr bc_buf pos;
        match op with
        | REOP_push_i32 | REOP_push_char_pos =>
            let stack_size := stack_size + 1 in
            if stack_size_max <? stack_size then
              if STACK_SIZE_MAX <? stack_size then Ret (-1)
              else stack_size_loop fuel bc_buf bc_buf_len (pos + len) stack_size stack_size
            else stack_size_loop fuel bc_buf bc_buf_len (pos + len) stack_size stack_size_max
        | REOP_drop | REOP_bne_char_pos =>
            _ ← assert_ (0 <? stack_size);
            stack_size_loop fuel bc_buf bc_buf_len (pos + len) (stack_size - 1) stack_size_max
        | _ => stack_size_loop fuel bc_buf bc_buf_len (pos + len) stack_size stack_size_max
        end
      else Ret stack_size_max
  end.

(** the control flow is recursive so the analysis can be linear *)
Definition compute_stack_size (bc_buf : list Z) (bc_buf_len : Z) : res Z :=
  let len := bc_buf_len - RE_HEADER_LEN in
  stack_size_loop (S (Z.to_nat len)) (drop (Z.to_nat RE_HEADER_LEN) bc_buf) len 0 0 0.
End parse.

