(* ===== verification/RegexRange.v ===== *)
(** * Character classes: emission ([re_emit_range]) and matching

    The end-to-end correctness of character classes in libregexp.c: the ranges
    the compiler emits for a set of code points, searched by the executor's
    binary search, decide membership in the set.  This covers the 16-bit
    encoding, where an upper bound 0xffff stands for infinity, and the 32-bit
    one. *)
From Stdlib Require Import ZArith Lia Bool String.
From stdpp Require Import base numbers list.
From S2P Require Import Prelude Alloc Cutils DynBuf CharRange CharRangeFacts.
From S2P Require Import RegexOp RegexExec RegexSafe RegexParse.

(** ** The binary search is membership *)
Section search.
Variable s : REExecContext.
Variables (w : nat) (pc0 n : Z) (lo hi : Z -> Z).
Hypothesis Hn : 1 <= n < 2 ^ 16.
Hypothesis Hlo : forall i, 0 <= i < n ->
  get_un w (bc s) (pc0 + i * (2 * Z.of_nat w)) = Some (lo i).
Hypothesis Hhi : forall i, 0 <= i < n ->
  get_un w (bc s) (pc0 + i * (2 * Z.of_nat w) + Z.of_nat w) = Some (hi i).
Hypothesis Hne : forall i, 0 <= i < n -> lo i <= hi i.
Hypothesis Hsorted : forall i j, 0 <= i < j -> j < n -> hi i < lo j.

Lemma range_search_spec c fuel : forall a b,
  0 <= a <= n -> -1 <= b < n -> Z.max 0 (b - a + 1) < Z.of_nat fuel -> lo 0 <= c ->
  (forall i, 0 <= i < a -> hi i < c) -> (forall i, b < i < n -> c < lo i) ->
  exists r, range_search s fuel w pc0 c a b = Ret r /\
    (r = true <-> exists i, 0 <= i < n /\ lo i <= c <= hi i).
Proof.
  induction fuel as [| fuel IH]; intros a b Ha Hb Hf H0 Hbelow Habove; [lia |].
  cbn [range_search]. destruct (Z.leb_spec a b).
  - rewrite (wrap_small 32 (a + b)), Z.quot_div_nonneg by lia. set (idx := (a + b) / 2).
    assert (a <= idx <= b) by (unfold idx; zdiv_lia).
    rewrite Hlo, Hhi by lia. cbn [of_opt mbind res_bind].
    destruct (Z.ltb_spec c (lo idx)); [| destruct (Z.ltb_spec (hi idx) c)].
    + assert (idx <> 0) by (intros ->; lia).
      rewrite wrap_small by lia. apply IH; auto; [lia | lia |].
      intros i Hi. destruct (Z.eq_dec i idx) as [-> |]; [done |].
      pose proof (Hsorted idx i ltac:(lia) ltac:(lia)). pose proof (Hne idx ltac:(lia)). lia.
    + rewrite wrap_small by lia. apply IH; auto; [lia | lia |].
      intros i Hi. destruct (Z.eq_dec i idx) as [-> |]; [done |].
      pose proof (Hsorted i idx ltac:(lia) ltac:(lia)). pose proof (Hne idx ltac:(lia)). lia.
    + exists true. split; [done |]. split; [| done]. intros _. exists idx. lia.
  - exists false. split; [done |]. split; [done |]. intros (i & Hi & Hc).
    destruct (decide (i < a)); [specialize (Hbelow i); lia | specialize (Habove i); lia].
Qed.

(** The two instructions, with their tests before the search. *)
Lemma range_match_spec (is32 : bool) c :
  w = (if is32 then 4 else 2)%nat ->
  exists r, (if is32 then range_match32 s pc0 n c else range_match16 s pc0 n c) = Ret r /\
    (r = true <-> (exists i, 0 <= i < n /\ lo i <= c <= hi i) \/
                  (is32 = false /\ 0xffff <= c /\ hi (n - 1) = 0xffff /\ lo 0 <= c)).
Proof.
  intros Hw. pose proof (Hlo 0 ltac:(lia)) as E0. pose proof (Hhi (n - 1) ltac:(lia)) as E1.
  assert (forall i, 0 <= i < n -> lo 0 <= lo i) as Hlow.
  { intros i Hi. destruct (Z.eq_dec i 0) as [-> |]; [lia |].
    pose proof (Hsorted 0 i ltac:(lia) ltac:(lia)). pose proof (Hne 0 ltac:(lia)). lia. }
  assert (forall i, 0 <= i < n -> hi i <= hi (n - 1)) as Hhigh.
  { intros i Hi. destruct (Z.eq_dec i (n - 1)) as [-> |]; [lia |].
    pose proof (Hsorted i (n - 1) ltac:(lia) ltac:(lia)). pose proof (Hne (n - 1) ltac:(lia)). lia. }
  assert (forall r : bool, r = false -> c < lo 0 ->
    (r = true <-> (exists i, 0 <= i < n /\ lo i <= c <= hi i) \/
                  (is32 = false /\ 0xffff <= c /\ hi (n - 1) = 0xffff /\ lo 0 <= c))) as Hbelow.
  { intros r -> Hc. split; [done |]. intros [(i & Hi & Hci) | (_ & _ & _ & ?)]; [| lia].
    specialize (Hlow i Hi). lia. }
  assert (lo 0 <= c -> c <= hi (n - 1) -> exists r,
    range_search s (S (Z.to_nat n)) w pc0 c 0 (n - 1) = Ret r /\
    (r = true <-> exists i, 0 <= i < n /\ lo i <= c <= hi i)) as Hsearch.
  { intros H0 Hc. apply range_search_spec; auto; try lia. }
  destruct is32; subst w.
  - unfold range_match32. rewrite Z.mul_0_l. change (2 * Z.of_nat 4) with 8 in *.
    change (Z.of_nat 4) with 4 in *. rewrite Z.mul_0_l in E0.
    unfold get_u32. rewrite E0. cbn [of_opt mbind res_bind].
    destruct (Z.ltb_spec c (lo 0)); [exists false; auto |].
    rewrite wrap_small by lia. rewrite E1. cbn [of_opt mbind res_bind].
    destruct (Z.ltb_spec (hi (n - 1)) c).
    + exists false. split; [done |]. split; [done |]. intros [(i & Hi & Hci) | (? & _)]; [| done].
      specialize (Hhigh i Hi). lia.
    + destruct Hsearch as (r & -> & Hr); [lia | lia |]. exists r. split; [done |]. rewrite Hr.
      intuition discriminate.
  - unfold range_match16. rewrite Z.mul_0_l. change (2 * Z.of_nat 2) with 4 in *.
    change (Z.of_nat 2) with 2 in *. rewrite Z.mul_0_l in E0.
    unfold get_u16. rewrite E0. cbn [of_opt mbind res_bind].
    destruct (Z.ltb_spec c (lo 0)); [exists false; auto |].
    rewrite wrap_small by lia. rewrite E1. cbn [of_opt mbind res_bind].
    destruct (Z.leb_spec 0xffff c), (Z.eqb_spec (hi (n - 1)) 0xffff); cbn [andb].
    + exists true. split; [done |]. split; [auto 10 | done].
    + destruct (Z.ltb_spec (hi (n - 1)) c).
      * exists false. split; [done |]. split; [done |]. intros [(i & Hi & Hci) | (_ & _ & ? & _)]; [| done].
        specialize (Hhigh i Hi). lia.
      * destruct Hsearch as (r & -> & Hr); [lia | lia |]. exists r. split; [done |]. rewrite Hr.
        intuition lia.
    + destruct (Z.ltb_spec (hi (n - 1)) c); [lia |].
      destruct Hsearch as (r & -> & Hr); [lia | lia |]. exists r. split; [done |]. rewrite Hr.
      intuition lia.
    + destruct (Z.ltb_spec (hi (n - 1)) c).
      * exists false. split; [done |]. split; [done |]. intros [(i & Hi & Hci) | (_ & ? & _)]; [| lia].
        specialize (Hhigh i Hi). lia.
      * destruct Hsearch as (r & -> & Hr); [lia | lia |]. exists r. split; [done |]. rewrite Hr.
        intuition lia.
Qed.
End search.

(** ** The emitted bytes *)

(** The ranges of an array of points. *)
Fixpoint pairs (pts : list Z) : list (Z * Z) :=
  match pts with
  | lo :: hi :: pts => (lo, hi) :: pairs pts
  | _ => []
  end.

(** A pair with [w]-byte bounds; [inf] is the upper bound that encodes
    infinity, if there is one. *)
Definition upper (w : nat) (hi : Z) : Z :=
  if decide (w = 2%nat) then if u32 (hi - 1) =? UINT32_MAX - 1 then 0xffff else u32 (hi - 1)
  else u32 (hi - 1).
Definition enc_pair (w : nat) (p : Z * Z) : list Z :=
  le_bytes w p.1 ++ le_bytes w (upper w p.2).
Definition enc_pairs (w : nat) (ps : list (Z * Z)) : list Z := concat (map (enc_pair w) ps).

Lemma enc_pair_zlen w p : zlen (enc_pair w p) = 2 * Z.of_nat w.
Proof. unfold enc_pair. zlen_lia. Qed.

Lemma enc_pairs_zlen w ps : zlen (enc_pairs w ps) = zlen ps * (2 * Z.of_nat w).
Proof.
  unfold enc_pairs. induction ps as [| p ps IH]; cbn [map concat]; [done |].
  rewrite zlen_app, zlen_cons, IH, enc_pair_zlen. lia.
Qed.

Lemma get_un_bytes n a v b :
  get_un n (a ++ le_bytes n v ++ b) (zlen a) = Some (v mod 256 ^ Z.of_nat n).
Proof.
  unfold get_un. rewrite zread_in by zlen_lia.
  rewrite drop_zlen_app. cbn. rewrite <- (le_val_bytes n v). do 2 f_equal.
  rewrite take_app_length'; [done |]. rewrite length_le_bytes. lia.
Qed.

(** The bounds of the [i]-th pair in code that contains the encoding. *)
Lemma enc_pairs_get w code pre ps post i lo hi :
  code = pre ++ enc_pairs w ps ++ post -> ps !! i = Some (lo, hi) ->
  let p := zlen pre + Z.of_nat i * (2 * Z.of_nat w) in
  get_un w code p = Some (lo mod 256 ^ Z.of_nat w) /\
  get_un w code (p + Z.of_nat w) = Some (upper w hi mod 256 ^ Z.of_nat w).
Proof.
  intros -> Hi p. pose proof (lookup_lt_Some _ _ _ Hi) as Hlt.
  pose proof (take_drop_middle ps i (lo, hi) Hi) as E.
  assert (enc_pairs w ps = enc_pairs w (take i ps) ++ enc_pair w (lo, hi) ++
            enc_pairs w (drop (S i) ps)) as ->.
  { rewrite <- E at 1. unfold enc_pairs. rewrite map_app, concat_app. done. }
  set (a := enc_pairs w (take i ps)). set (z := enc_pairs w (drop (S i) ps)).
  assert (zlen (pre ++ a) = p) as Ea.
  { rewrite zlen_app. unfold a. rewrite enc_pairs_zlen, zlen_take. unfold p, zlen. lia. }
  unfold enc_pair. cbn [fst snd]. split.
  - replace (pre ++ _) with ((pre ++ a) ++ le_bytes w lo ++ (le_bytes w (upper w hi) ++ z ++ post))
      by (rewrite <- !app_assoc; done).
    rewrite <- Ea. apply get_un_bytes.
  - replace (pre ++ _) with ((pre ++ a ++ le_bytes w lo) ++ le_bytes w (upper w hi) ++ (z ++ post))
      by (rewrite <- !app_assoc; done).
    replace (p + Z.of_nat w) with (zlen (pre ++ a ++ le_bytes w lo)).
    + apply get_un_bytes.
    + rewrite app_assoc, zlen_app, Ea, zlen_le_bytes. done.
Qed.

(** Does the last finite point fit 16 bits? *)
Definition is_narrow (pts : list Z) : bool :=
  let n := zlen pts in
  match znth pts (n - 1), znth pts (n - 2) with
  | Some high, Some before => (if high =? UINT32_MAX then before else high) <=? 0xffff
  | _, _ => false
  end.

Definition range_width (pts : list Z) : nat := if is_narrow pts then 2 else 4.

(** The instruction of a class. *)
Definition enc_range (pts : list Z) : list Z :=
  if decide (pts = []) then reop_byte REOP_char32 :: le_bytes 4 (u32 (-1))
  else reop_byte (if is_narrow pts then REOP_range else REOP_range32) ::
       le_bytes 2 (zlen pts / 2) ++ enc_pairs (range_width pts) (pairs pts).

(** ** Emission appends *)
Section emit.
Context `{AB : Realloc is_byte}.

(** [m] appends [data] to the code, on every allocator, and does nothing
    else; the error flag is sticky, and the contents are right when it is
    clear at the end. *)
Definition appends {A} (m : PM A) (data : list Z) : Prop :=
  forall s, dbuf_ok (byte_code s) -> size (byte_code s) + zlen data < 2 ^ 64 ->
  exists b a, m s = Ret (set_byte_code s b, Some a) /\ dbuf_ok b /\
    size b <= size (byte_code s) + zlen data /\
    (error (byte_code s) = true -> error b = true) /\
    (error b = false -> dbuf_data b = dbuf_data (byte_code s) ++ data).

Lemma set_byte_code_twice s b b' : set_byte_code (set_byte_code s b) b' = set_byte_code s b'.
Proof. reflexivity. Qed.

Lemma appends_bind {A B} (m : PM A) (f : A -> PM B) d d' :
  appends m d -> (forall a, appends (f a) d') -> appends (m ≫= f) (d ++ d').
Proof.
  intros Hm Hf s Hok Hsz. rewrite zlen_app in Hsz. pose proof (zlen_nonneg d').
  destruct (Hm s Hok) as (b & a & E & Hb & Hbs & Hst & Hd); [lia |].
  destruct (Hf a (set_byte_code s b)) as (b' & a' & E' & Hb' & Hbs' & Hst' & Hd');
    [done | cbn; lia |]. cbn [byte_code set_byte_code] in *.
  exists b', a'. rewrite set_byte_code_twice in E'. unfold mbind, PM_bind. rewrite E, E'.
  split_and!; auto; [rewrite zlen_app; lia |].
  intros He. rewrite (Hd' He), app_assoc. f_equal. apply Hd.
  destruct (error b); [rewrite Hst' in He by done; discriminate He | done].
Qed.

Lemma appends_ret {A} (a : A) : appends (ret a) [].
Proof.
  intros s Hok Hsz. exists (byte_code s), a. split_and!; auto.
  - destruct s. reflexivity.
  - rewrite zlen_nil. lia.
  - intros _. rewrite app_nil_r. done.
Qed.

Lemma appends_nil_bind {A B} (m : PM A) (f : A -> PM B) d :
  appends m [] -> (forall a, appends (f a) d) -> appends (m ≫= f) d.
Proof. intros Hm Hf. apply (appends_bind m f [] d Hm Hf). Qed.

Lemma appends_code_size : appends code_size [].
Proof.
  intros s Hok Hsz. exists (byte_code s), (size (byte_code s)). split_and!; auto.
  - destruct s. reflexivity.
  - rewrite zlen_nil. lia.
  - intros _. rewrite app_nil_r. done.
Qed.

Lemma appends_put data : bytes_ok data -> appends (on_byte_code (fun b => dbuf_put b data)) data.
Proof.
  intros Hd s Hok Hsz. destruct (dbuf_put_spec (byte_code s) data Hok Hd Hsz)
    as (b & r & E & Hb & Hr).
  exists b, tt. unfold on_byte_code. rewrite E. split_and!; auto.
  - rewrite <- (dbuf_data_zlen b Hb), <- (dbuf_data_zlen _ Hok).
    destruct Hr as [(_ & -> & _) | (_ & -> & _ & _)]; zlen_lia.
  - destruct Hr as [(_ & _ & ->) | (_ & _ & -> & _)]; done.
  - intros He. destruct Hr as [(_ & -> & _) | (_ & _ & He' & _)]; [done | congruence].
Qed.

Lemma appends_op op : appends (re_emit_op op) [reop_byte op].
Proof.
  unfold re_emit_op, dbuf_putc. replace (u8 (reop_byte op)) with (reop_byte op) by (by destruct op).
  apply appends_put. constructor; [by destruct op | constructor].
Qed.

Lemma appends_op_u32 op v : appends (re_emit_op_u32 op v) (reop_byte op :: le_bytes 4 v).
Proof.
  unfold re_emit_op_u32. apply (appends_bind _ _ [_]); [apply appends_op |]. intros _.
  apply appends_nil_bind; [apply appends_code_size |]. intros pos.
  rewrite <- (app_nil_r (le_bytes 4 v)). apply appends_bind; [| intros; apply appends_ret].
  apply appends_put, le_bytes_ok.
Qed.

Lemma appends_op_u16 op v : appends (re_emit_op_u16 op v) (reop_byte op :: le_bytes 2 v).
Proof.
  unfold re_emit_op_u16. apply (appends_bind _ _ [_]); [apply appends_op |]. intros _.
  apply appends_put, le_bytes_ok.
Qed.

Lemma appends_pairs w put pts :
  (forall lo hi, appends (put lo hi) (enc_pair w (lo, hi))) ->
  appends (put_pairs pts put) (enc_pairs w (pairs pts)).
Proof.
  intros Hput. remember (length pts) as n eqn:En. revert pts En.
  induction (lt_wf n) as [n _ IH]. intros pts ->.
  destruct pts as [| lo [| hi pts]]; [apply appends_ret | apply appends_ret |].
  cbn [put_pairs pairs]. unfold enc_pairs. cbn [map concat].
  apply appends_bind; [apply Hput |]. intros _. apply (IH (length pts)); [cbn; lia | done].
Qed.

Lemma appends_lift {A} (m : res A) a : m = Ret a -> appends (lift m) [].
Proof. intros ->. apply (appends_ret a). Qed.

Lemma lift_bind {A B} (m : res A) a (f : A -> PM B) d :
  m = Ret a -> appends (f a) d -> appends (lift m ≫= f) d.
Proof. intros -> Hf s Hok Hsz. apply Hf; auto. Qed.

Lemma ret_bind {A B} (a : A) (f : A -> PM B) d : appends (f a) d -> appends (ret a ≫= f) d.
Proof. intros Hf s Hok Hsz. apply Hf; auto. Qed.

Lemma if_bind {A B} (b : bool) (x y : A) (f : A -> PM B) d :
  appends (f (if b then x else y)) d ->
  appends ((if b then lift (of_opt (Some x)) else ret y) ≫= f) d.
Proof. intros Hf. destruct b; [apply (lift_bind _ x) | apply ret_bind]; done. Qed.

(** [re_emit_range] emits the encoding. *)
Lemma re_emit_range_spec cr P :
  represents cr P -> cr_len cr < 2 * 65535 -> appends (re_emit_range cr) (enc_range (cr_contents cr)).
Proof.
  intros [[Hl Hp Hs] Hso He Hbd Hin] Hlen. pose proof (cr_contents_zlen cr ltac:(by split)) as Hz.
  unfold re_emit_range, enc_range. rewrite (wrap_small 32) by lia.
  rewrite Z.quot_div_nonneg by lia. destruct (Z.leb_spec 65535 (cr_len cr / 2)); [zdiv_lia |].
  destruct (decide (cr_contents cr = [])) as [E0 | Hne].
  { rewrite E0, zlen_nil in Hz. rewrite <- Hz. cbn [Z.div Z.eqb].
    replace (0 / 2 =? 0) with true by done.
    rewrite <- (app_nil_r (_ :: _)). apply appends_bind; [| intros; apply appends_ret].
    apply appends_op_u32. }
  assert (2 <= cr_len cr) as H2.
  { destruct (cr_contents cr) as [| x [| y l]] eqn:E; [done | |]; rewrite ?zlen_cons, ?zlen_nil in Hz.
    - rewrite <- Hz in He. discriminate He.
    - zlen_lia. }
  destruct (Z.eqb_spec (cr_len cr / 2) 0); [zdiv_lia |].
  assert (forall i, i < cr_len cr -> znth (cr_points cr) i = znth (cr_contents cr) i) as Hnth.
  { intros i Hi. unfold cr_contents. rewrite znth_take by lia. done. }
  unfold range_width, is_narrow. rewrite Hz. rewrite !Hnth by lia.
  destruct (znth (cr_contents cr) (cr_len cr - 1)) as [high |] eqn:E1.
  2: { exfalso. destruct (proj2 (znth_is_Some (cr_contents cr) (cr_len cr - 1))) as [? ?]; [lia | congruence]. }
  destruct (znth (cr_contents cr) (cr_len cr - 2)) as [before |] eqn:E2.
  2: { exfalso. destruct (proj2 (znth_is_Some (cr_contents cr) (cr_len cr - 2))) as [? ?]; [lia | congruence]. }
  apply (lift_bind _ high); [done |].
  assert (zread (cr_points cr) 0 (cr_len cr) = Some (cr_contents cr)) as Er
    by (rewrite zread_in by lia; done).
  apply if_bind, (lift_bind _ (cr_contents cr)); [by rewrite Er |].
  set (last := if high =? UINT32_MAX then before else high).
  destruct (last <=? 0xffff); rewrite app_comm_cons;
    (apply appends_bind; [apply appends_op_u16 | intros _; apply appends_pairs; intros lo hi]);
    (apply appends_bind; [apply appends_put, le_bytes_ok | intros _; apply appends_put, le_bytes_ok]).
Qed.
End emit.

(** ** The emitted instruction decides membership *)

Lemma pairs_zlen pts : Z.even (zlen pts) = true -> zlen pts = 2 * zlen (pairs pts).
Proof.
  remember (length pts) as n eqn:En. revert pts En.
  induction (lt_wf n) as [n _ IH]. intros pts -> He.
  destruct pts as [| lo [| hi pts]]; [done | discriminate He |]. rewrite even_2 in He.
  cbn [pairs]. rewrite !zlen_cons, (IH (length pts)); [lia | cbn; lia | done | done].
Qed.

Lemma pairs_elem pts lo hi : (lo, hi) ∈ pairs pts -> lo ∈ pts /\ hi ∈ pts.
Proof.
  remember (length pts) as n eqn:En. revert pts En.
  induction (lt_wf n) as [n _ IH]. intros pts -> Hin.
  destruct pts as [| x [| y pts]]; [by apply not_elem_of_nil in Hin .. |].
  cbn [pairs] in Hin. apply elem_of_cons in Hin as [[= -> ->] | Hin].
  - split; [left | right; left].
  - destruct (IH (length pts) ltac:(cbn; lia) pts eq_refl Hin). split; do 2 right; done.
Qed.

Lemma in_ranges_pairs pts c :
  in_ranges pts c <-> exists lo hi, (lo, hi) ∈ pairs pts /\ lo <= c < hi.
Proof.
  remember (length pts) as n eqn:En. revert pts En.
  induction (lt_wf n) as [n _ IH]. intros pts ->.
  destruct pts as [| x [| y pts]]; cbn [in_ranges pairs].
  1, 2: split; [done | intros (? & ? & H & _); by apply not_elem_of_nil in H].
  rewrite (IH (length pts) ltac:(cbn; lia) pts eq_refl). split.
  - intros [H | (lo & hi & Hin & H)]; [exists x, y | exists lo, hi]; (split; [| done]);
      [left | right; done].
  - intros (lo & hi & Hin & H). apply elem_of_cons in Hin as [[= -> ->] | Hin]; [auto |].
    right. eauto.
Qed.

(** On strictly sorted points the pairs are nonempty and separated. *)
Lemma pairs_sorted pts : sorted_lt pts ->
  (forall i lo hi, pairs pts !! i = Some (lo, hi) -> lo < hi) /\
  (forall i j lo hi lo' hi', (i < j)%nat -> pairs pts !! i = Some (lo, hi) ->
     pairs pts !! j = Some (lo', hi') -> hi < lo').
Proof.
  remember (length pts) as n eqn:En. revert pts En.
  induction (lt_wf n) as [n _ IH]. intros pts -> Hs.
  destruct pts as [| x [| y pts]]; cbn [pairs].
  1, 2: split; intros; rewrite lookup_nil in *; done.
  inversion Hs as [| ? ? Hs1 Hx]; subst. inversion Hs1 as [| ? ? Hs2 Hy]; subst.
  destruct (IH (length pts) ltac:(cbn; lia) pts eq_refl Hs2) as [IH1 IH2].
  apply Forall_cons_iff in Hx as [Hxy _]. split.
  - intros [| i] lo hi; cbn; [intros [= <- <-]; done | apply IH1].
  - intros [| i] [| j] lo hi lo' hi' Hij; cbn; try lia.
    + intros [= <- <-] H%list_elem_of_lookup_2. apply pairs_elem in H as [H _].
      rewrite list.Forall_forall in Hy. apply Hy, H.
    + apply IH2. lia.
Qed.

(** The pairs of a represented set. *)
Definition pair_lo (pts : list Z) (i : Z) : Z :=
  match pairs pts !! Z.to_nat i with Some (lo, _) => lo | None => 0 end.
Definition pair_hi (pts : list Z) (i : Z) : Z :=
  match pairs pts !! Z.to_nat i with Some (_, hi) => hi | None => 0 end.

Lemma pairs_at pts i : 0 <= i < zlen (pairs pts) ->
  pairs pts !! Z.to_nat i = Some (pair_lo pts i, pair_hi pts i).
Proof.
  intros Hi. unfold pair_lo, pair_hi.
  destruct (lookup_lt_is_Some_2 (pairs pts) (Z.to_nat i)) as [[lo hi] E]; [unfold zlen in Hi; lia |].
  rewrite E. done.
Qed.

Record pair_facts (pts : list Z) (n : Z) : Prop := {
  pf_len : zlen (pairs pts) = n;
  pf_range : forall i, 0 <= i < n -> 0 <= pair_lo pts i < pair_hi pts i /\ pair_hi pts i <= UINT32_MAX;
  pf_sep : forall i j, 0 <= i < j -> j < n -> pair_hi pts i < pair_lo pts j;
  pf_in : forall c, in_ranges pts c <-> exists i, 0 <= i < n /\ pair_lo pts i <= c < pair_hi pts i
}.

Lemma represents_pairs cr P : represents cr P ->
  pair_facts (cr_contents cr) (zlen (cr_contents cr) / 2).
Proof.
  intros [Hok Hs He Hbd Hin]. set (pts := cr_contents cr) in *.
  rewrite <- (cr_contents_zlen cr Hok) in He. fold pts in He.
  pose proof (pairs_zlen pts He) as Hn. destruct (pairs_sorted pts Hs) as [Hne Hsep].
  assert (zlen (pairs pts) = zlen pts / 2) as Hl by (rewrite Hn; zdiv_lia). rewrite <- Hl.
  assert (Forall (fun p => 0 <= p <= UINT32_MAX) pts) as Hb.
  { apply in_ranges_bounds; [done | done |]. intros c Hc. apply Hin, Hbd in Hc. lia. }
  rewrite list.Forall_forall in Hb. split; [done | | |].
  - intros i Hi. pose proof (pairs_at pts i Hi) as E. pose proof (Hne _ _ _ E).
    apply list_elem_of_lookup_2, pairs_elem in E as [H1 H2].
    pose proof (Hb _ H1). pose proof (Hb _ H2). cbn in *. lia.
  - intros i j Hij Hj. apply (Hsep (Z.to_nat i) (Z.to_nat j) (pair_lo pts i) _ _ (pair_hi pts j));
      [lia | apply pairs_at; lia | apply pairs_at; lia].
  - intros c. rewrite in_ranges_pairs. split.
    + intros (lo & hi & Hel & Hc). apply list_elem_of_lookup_1 in Hel as [i Ei].
      pose proof (lookup_lt_Some _ _ _ Ei). exists (Z.of_nat i).
      assert (0 <= Z.of_nat i < zlen (pairs pts)) as Hi by (unfold zlen; lia).
      pose proof (pairs_at pts _ Hi) as E. rewrite Nat2Z.id in E. split; [done |]. 
      rewrite Ei in E. injection E as -> ->. done.
    + intros (i & Hi & Hc). exists (pair_lo pts i), (pair_hi pts i). split; [| done].
      apply list_elem_of_lookup_2 with (i := Z.to_nat i), pairs_at, Hi.
Qed.

(** In the narrow encoding the finite bounds fit. *)
Lemma narrow_bounds pts n : pair_facts pts n -> 1 <= n -> zlen pts = 2 * n -> is_narrow pts = true ->
  forall i, 0 <= i < n -> pair_lo pts i <= 0xffff /\
    (pair_hi pts i <= 0xffff \/ (pair_hi pts i = UINT32_MAX /\ i = n - 1)).
Proof.
  intros [Hl Hr Hsep Hin] H1 Hz Hn.
  assert (znth pts (zlen pts - 1) = Some (pair_hi pts (n - 1)) /\
          znth pts (zlen pts - 2) = Some (pair_lo pts (n - 1))) as [E1 E2].
  { pose proof (pairs_at pts (n - 1) ltac:(lia)) as E. revert E.
    replace (n - 1) with (zlen (pairs pts) - 1) by lia. rewrite Hl, Hz.
    generalize (pair_lo pts (n - 1)), (pair_hi pts (n - 1)). intros lo hi E.
    clear - Hz H1 E. revert n Hz H1 E. remember (length pts) as k eqn:Ek. revert pts Ek.
    induction (lt_wf k) as [k _ IH]. intros pts -> n Hz H1 E.
    destruct pts as [| x [| y pts]]; [done | done |]. rewrite !zlen_cons in Hz. cbn [pairs] in E.
    destruct (Z.eq_dec n 1) as [-> |].
    - cbn in E. injection E as <- <-. destruct pts as [| z pts]; [done |].
      rewrite zlen_cons in Hz. pose proof (zlen_nonneg pts). lia.
    - replace (Z.to_nat (n - 1)) with (S (Z.to_nat (n - 1 - 1))) in E by lia. cbn in E.
      destruct (IH (length pts) ltac:(cbn; lia) pts eq_refl (n - 1) ltac:(lia) ltac:(lia) E) as [E1 E2].
      change (x :: y :: pts) with ([x; y] ++ pts). assert (zlen [x; y] = 2) as E2' by done.
      rewrite !znth_app_r, E2' by lia.
      rewrite <- E1, <- E2. split; f_equal; lia. }
  unfold is_narrow in Hn. rewrite E1, E2 in Hn. intros i Hi.
  assert (i < n - 1 -> pair_hi pts i < pair_lo pts (n - 1)) as Hlt by (intros; apply Hsep; lia).
  pose proof (Hr i Hi). pose proof (Hr (n - 1) ltac:(lia)).
  destruct (Z.eqb_spec (pair_hi pts (n - 1)) UINT32_MAX), (Z.eq_dec i (n - 1)) as [-> |];
    apply Z.leb_le in Hn; lia.
Qed.

Section class.
Variable s : REExecContext.
Variables (cr : CharRange) (P : Z -> Prop) (pre post : list Z).
Hypothesis Hrep : represents cr P.
Hypothesis Hlen : cr_len cr < 2 * 65535.
Let pts := cr_contents cr.
Hypothesis Hbc : bc s = pre ++ enc_range pts ++ post.

Lemma enc_range_match c : pts <> [] -> 0 <= c < UINT32_MAX ->
  exists r, (if is_narrow pts then range_match16 else range_match32) s (zlen pre + 3) (zlen pts / 2) c
    = Ret r /\ (r = true <-> P c).
Proof.
  intros Hne Hc. assert (UINT32_MAX = 4294967295) as EM by done.
  pose proof (represents_pairs cr P Hrep) as Hpf. fold pts in Hpf.
  pose proof (cr_contents_zlen cr (rep_ok _ _ Hrep)) as Hz. fold pts in Hz.
  pose proof (rep_even _ _ Hrep) as He. rewrite <- Hz in He, Hlen.
  pose proof (pairs_zlen pts He) as Hz2. pose proof Hpf as [Hl Hr Hsep Hin].
  set (n := zlen pts / 2) in *. rewrite Hl in Hz2.
  assert (1 <= n) as Hn1.
  { destruct pts as [| x l]; [done |]. rewrite zlen_cons in Hz2. zlen_pos. lia. }
  assert (P c <-> exists i, 0 <= i < n /\ pair_lo pts i <= c < pair_hi pts i) as HP
    by (rewrite <- (rep_in _ _ Hrep c); apply Hin).
  set (w := range_width pts).
  assert (forall i, 0 <= i < n ->
    get_un w (bc s) (zlen pre + 3 + i * (2 * Z.of_nat w)) = Some (pair_lo pts i mod 256 ^ Z.of_nat w) /\
    get_un w (bc s) (zlen pre + 3 + i * (2 * Z.of_nat w) + Z.of_nat w)
      = Some (upper w (pair_hi pts i) mod 256 ^ Z.of_nat w)) as Hget.
  { intros i Hi. unfold enc_range in Hbc. destruct (decide (pts = [])); [done |].
    fold n w in Hbc.
    set (hd := reop_byte (if is_narrow pts then REOP_range else REOP_range32) :: le_bytes 2 n).
    assert (zlen (pre ++ hd) = zlen pre + 3) as <- by (rewrite zlen_app; done).
    assert (bc s = (pre ++ hd) ++ enc_pairs w (pairs pts) ++ post) as Hcode
      by (rewrite Hbc, app_comm_cons; fold hd; rewrite <- !app_assoc; done).
    pose proof (enc_pairs_get w _ _ _ _ _ _ _ Hcode (pairs_at pts i ltac:(lia))) as H.
    cbv zeta in H. rewrite Z2Nat.id in H by lia. exact H. }
  assert (forall i, 0 <= i < n -> u32 (pair_hi pts i - 1) = pair_hi pts i - 1) as Hhi1.
  { intros i Hi. pose proof (Hr i Hi). apply wrap_small; lia. }
  destruct (is_narrow pts) eqn:Enar.
  - pose proof (narrow_bounds pts n Hpf Hn1 Hz2 Enar) as Hnb.
    assert (w = 2%nat) as Ew by (unfold w, range_width; by rewrite Enar). rewrite Ew in Hget.
    set (hi' := fun i => if pair_hi pts i =? UINT32_MAX then 0xffff else pair_hi pts i - 1).
    assert (forall i, 0 <= i < n -> upper 2 (pair_hi pts i) = hi' i /\ 0 <= hi' i <= 0xffff) as Hup.
    { intros i Hi. unfold upper, hi'. rewrite decide_True, (Hhi1 i Hi) by done.
      pose proof (Hr i Hi). pose proof (Hnb i Hi).
      destruct (Z.eqb_spec (pair_hi pts i) UINT32_MAX) as [E | E];
        destruct (Z.eqb_spec (pair_hi pts i - 1) (UINT32_MAX - 1)); cbn; lia. }
    destruct (range_match_spec s 2 (zlen pre + 3) n (pair_lo pts) hi') with (is32 := false) (c := c)
      as (r & -> & Hiff); [lia | | | | | done |].
    { intros i Hi. rewrite (proj1 (Hget i Hi)), Z.mod_small; [done |].
      pose proof (Hr i Hi). pose proof (Hnb i Hi). cbn. lia. }
    { intros i Hi. destruct (Hup i Hi) as [E Hb]. rewrite (proj2 (Hget i Hi)), E, Z.mod_small; [done |].
      cbn. lia. }
    { intros i Hi. pose proof (Hr i Hi). pose proof (Hnb i Hi). unfold hi'.
      destruct (Z.eqb_spec (pair_hi pts i) UINT32_MAX); lia. }
    { intros i j Hij Hj. pose proof (Hsep i j Hij Hj). pose proof (Hnb i ltac:(lia)).
      unfold hi'. destruct (Z.eqb_spec (pair_hi pts i) UINT32_MAX); lia. }
    exists r. split; [done |]. rewrite Hiff, HP. split.
    + intros [(i & Hi & Hci) | (_ & Hbig & Elast & _)].
      * exists i. split; [done |]. unfold hi' in Hci.
        destruct (Z.eqb_spec (pair_hi pts i) UINT32_MAX); lia.
      * exists (n - 1). split; [lia |]. pose proof (Hnb (n - 1) ltac:(lia)). unfold hi' in Elast.
        destruct (Z.eqb_spec (pair_hi pts (n - 1)) UINT32_MAX); lia.
    + intros (i & Hi & Hci). destruct (Hnb i Hi) as [Hlo [Hhi | [Hhi ->]]].
      * left. exists i. split; [done |]. unfold hi'.
        destruct (Z.eqb_spec (pair_hi pts i) UINT32_MAX); lia.
      * destruct (Z.le_gt_cases c 0xffff).
        { left. exists (n - 1). split; [done |]. unfold hi'. rewrite Hhi. cbn. lia. }
        right. split_and!; [done | lia | unfold hi'; by rewrite Hhi |].
        destruct (Z.eq_dec n 1) as [En |]; [rewrite En in Hci; exact (proj1 Hci) |].
        pose proof (Hsep 0 (n - 1) ltac:(lia) ltac:(lia)). pose proof (Hr 0 ltac:(lia)). lia.
  - assert (w = 4%nat) as Ew by (unfold w, range_width; by rewrite Enar). rewrite Ew in Hget.
    destruct (range_match_spec s 4 (zlen pre + 3) n (pair_lo pts) (fun i => pair_hi pts i - 1))
      with (is32 := true) (c := c) as (r & -> & Hiff); [lia | | | | | done |].
    { intros i Hi. rewrite (proj1 (Hget i Hi)), Z.mod_small; [done |]. pose proof (Hr i Hi). cbn. lia. }
    { intros i Hi. rewrite (proj2 (Hget i Hi)). unfold upper. rewrite decide_False by done.
      rewrite (Hhi1 i Hi), Z.mod_small; [done |]. pose proof (Hr i Hi). cbn. lia. }
    { intros i Hi. pose proof (Hr i Hi). lia. }
    { intros i j Hij Hj. pose proof (Hsep i j Hij Hj). lia. }
    exists r. split; [done |]. rewrite Hiff, HP. split.
    + intros [(i & Hi & Hci) | (? & _)]; [| done]. exists i. split; [done | lia].
    + intros (i & Hi & Hci). left. exists i. split; [done | lia].
Qed.
End class.

Lemma enc_range_zlen pts : zlen (enc_range pts) <= 5 + 4 * zlen pts.
Proof.
  unfold enc_range. destruct (decide (pts = [])); [zlen_lia |].
  rewrite zlen_cons, zlen_app, enc_pairs_zlen, zlen_le_bytes.
  assert (2 * zlen (pairs pts) <= zlen pts).
  { clear. remember (length pts) as n eqn:En. revert pts En.
    induction (lt_wf n) as [n _ IH]. intros pts ->.
    destruct pts as [| x [| y pts]]; [done | done |]. cbn [pairs]. rewrite !zlen_cons.
    pose proof (IH (length pts) ltac:(cbn; lia) pts eq_refl). lia. }
  pose proof (zlen_nonneg (pairs pts)). unfold range_width. destruct (is_narrow pts); lia.
Qed.

Lemma znth_middle {A} (pre : list A) x post : znth (pre ++ x :: post) (zlen pre) = Some x.
Proof. rewrite znth_app_r by lia. rewrite Z.sub_diag. done. Qed.

Lemma op_at_middle s pre op post :
  bc s = pre ++ reop_byte op :: post -> op_at s (zlen pre) = Some op.
Proof. intros E. unfold op_at. rewrite E, znth_middle. by destruct op. Qed.

(** One step of the executor at an emitted class. *)
Lemma enc_range_exec s cr P pre post m fuel body no_recurse c0 p c :
  represents cr P -> cr_len cr < 2 * 65535 ->
  bc s = pre ++ enc_range (cr_contents cr) ++ post -> pc m = zlen pre ->
  cptr m < cbuf_end s -> GET_CHAR s (cptr m) (cbuf_end s) = Ret (c0, p) ->
  canonicalize s c0 = Ret c -> 0 <= c < UINT32_MAX ->
  exists op pc', op_at s (pc m) = Some op /\
    (P c -> exec_op s fuel body (set_pc m (pc m + 1)) no_recurse op =
       Ret (Next (set_pc (set_cptr m p) (zlen pre + zlen (enc_range (cr_contents cr)))))) /\
    (~ P c -> exec_op s fuel body (set_pc m (pc m + 1)) no_recurse op =
       no_match s (set_pc (set_cptr m p) pc') no_recurse).
Proof.
  intros Hrep Hlen Hbc Hpc Hend Hchar Hcan Hc. set (pts := cr_contents cr) in *.
  pose proof (cr_contents_zlen cr (rep_ok _ _ Hrep)) as Hz. fold pts in Hz.
  destruct (decide (pts = [])) as [E0 | Hne].
  - exists REOP_char32, (pc m + 5). unfold enc_range in *. rewrite E0 in *. cbn [decide] in *.
    split; [rewrite Hpc; apply (op_at_middle _ _ _ (le_bytes 4 (u32 (-1)) ++ post)); exact Hbc |].
    assert (~ P c) as HP by (rewrite <- (rep_in _ _ Hrep); fold pts; rewrite E0; tauto).
    split; [tauto |]. intros _. cbn [exec_op]. unfold op_char32, get_u32. cbn [pc set_pc].
    assert (get_un 4 (bc s) (pc m + 1) = Some (u32 (-1))) as ->.
    { rewrite Hbc, Hpc. change (pre ++ ?x ++ ?y) with (pre ++ [reop_byte REOP_char32] ++ le_bytes 4 (u32 (-1)) ++ post).
      rewrite app_assoc. replace (zlen pre + 1) with (zlen (pre ++ [reop_byte REOP_char32])) by zlen_lia.
      apply get_un_bytes. }
    cbn [of_opt mbind res_bind]. unfold test_char. cbn [cptr set_pc set_cptr pc].
    destruct (Z.leb_spec (cbuf_end s) (cptr m)); [lia |]. rewrite Hchar. cbn [mbind res_bind].
    rewrite Hcan. cbn [mbind res_bind].
    destruct (Z.eqb_spec (u32 (-1)) c) as [Ec |]; [cbv in Ec; change UINT32_MAX with 4294967295 in Hc; lia |].
    cbn [negb]. replace (pc m + 5) with (pc m + 1 + 4) by lia. done.
  - exists (if is_narrow pts then REOP_range else REOP_range32).
    assert (bc s = pre ++ reop_byte (if is_narrow pts then REOP_range else REOP_range32) ::
              le_bytes 2 (zlen pts / 2) ++ (enc_pairs (range_width pts) (pairs pts) ++ post)) as Hbc'.
    { rewrite Hbc. unfold enc_range. destruct (decide (pts = [])); [done |].
      cbn [app]. rewrite <- app_assoc. done. }
    destruct (enc_range_match s cr P pre post Hrep Hlen Hbc c Hne Hc) as (r & Er & Hr).
    fold pts in Er. exists (if r then 0 else zlen pre + 3).
    split; [rewrite Hpc; exact (op_at_middle _ _ _ _ Hbc') |].
    assert (0 <= zlen pts < 2 * 65535) as Hzb by (pose proof (zlen_nonneg pts); lia).
    assert (get_u16 (bc s) (pc m + 1) = Some (zlen pts / 2)) as En.
    { unfold get_u16. set (op := reop_byte _) in Hbc'.
      replace (pc m + 1) with (zlen (pre ++ [op])) by zlen_lia.
      rewrite Hbc'. rewrite cons_middle, app_assoc.
      rewrite get_un_bytes, Z.mod_small; [done |]. zdiv_lia. }
    assert (forall b : bool, exec_op s fuel body (set_pc m (pc m + 1)) no_recurse
        (if b then REOP_range else REOP_range32) =
        op_range s (set_pc m (pc m + 1)) no_recurse (negb b)) as -> by by intros [].
    unfold op_range. cbn [pc set_pc cptr]. rewrite En. cbn [of_opt mbind res_bind].
    destruct (Z.leb_spec (cbuf_end s) (cptr m)); [lia |]. rewrite Hchar. cbn [mbind res_bind].
    rewrite Hcan. cbn [mbind res_bind pc set_cptr set_pc].
    replace (pc m + 1 + 2) with (zlen pre + 3) by lia.
    assert ((if negb (is_narrow pts) then range_match32 s (zlen pre + 3) (zlen pts / 2) c
             else range_match16 s (zlen pre + 3) (zlen pts / 2) c) = Ret r) as ->
      by (rewrite <- Er; destruct (is_narrow pts); done).
    cbn [mbind res_bind]. destruct r; cbn [negb].
    + split; [intros _ | intros HP; exfalso; apply HP, Hr; done]. do 3 f_equal.
      unfold enc_range. destruct (decide (pts = [])); [done |].
      pose proof (rep_even _ _ Hrep) as He. rewrite <- Hz in He. pose proof (pairs_zlen pts He).
      rewrite zlen_cons, zlen_app, enc_pairs_zlen, zlen_le_bytes. unfold range_width.
      destruct (is_narrow pts); cbn [negb]; zdiv_lia.
    + split; [intros HP; apply Hr in HP; done |]. intros _. done.
Qed.

(** C6: character classes match exactly their set.  Whatever range [cr] the
    compiler built for a set [P] of code points, [re_emit_range] appends one
    instruction to the byte code (or sets the error flag), and wherever this
    instruction ends up in a program, one step of the executor on the next
    character, canonicalized to [c], goes on after the instruction if [c] is in
    [P] and fails otherwise. *)
Theorem re_emit_range_correct `{AB : Realloc is_byte} (cr : CharRange) (P : Z -> Prop)
    (ps : REParseState) :
  represents cr P -> cr_len cr < 2 * 65535 ->
  dbuf_ok (byte_code ps) -> size (byte_code ps) < 2 ^ 63 ->
  exists b u, re_emit_range cr ps = Ret (set_byte_code ps b, Some u) /\ dbuf_ok b /\
    (dbuf_error b = false ->
     forall s post m fuel body no_recurse c0 p c,
       bc s = dbuf_data b ++ post -> pc m = size (byte_code ps) ->
       cptr m < cbuf_end s -> GET_CHAR s (cptr m) (cbuf_end s) = Ret (c0, p) ->
       canonicalize s c0 = Ret c -> 0 <= c < UINT32_MAX ->
       exists op pc', op_at s (pc m) = Some op /\
         (P c -> exec_op s fuel body (set_pc m (pc m + 1)) no_recurse op =
            Ret (Next (set_pc (set_cptr m p) (size b)))) /\
         (~ P c -> exec_op s fuel body (set_pc m (pc m + 1)) no_recurse op =
            no_match s (set_pc (set_cptr m p) pc') no_recurse)).
Proof.
  intros Hrep Hlen Hok Hsz. pose proof (cr_contents_zlen cr (rep_ok _ _ Hrep)) as Hz.
  pose proof (enc_range_zlen (cr_contents cr)).
  destruct (re_emit_range_spec cr P Hrep Hlen ps Hok) as (b & u & E & Hb & _ & _ & Hd); [lia |].
  exists b, u. split; [exact E |]. split; [exact Hb |].
  intros He s post m fuel body nr c0 p c Hbc Hpc Hend Hch Hcan Hc. specialize (Hd He).
  pose proof (dbuf_data_zlen b Hb) as Esz. rewrite Hd in Hbc, Esz. rewrite <- app_assoc in Hbc.
  rewrite <- (dbuf_data_zlen _ Hok) in Hpc.
  destruct (enc_range_exec s cr P _ post m fuel body nr c0 p c Hrep Hlen Hbc Hpc Hend Hch Hcan Hc)
    as (op & pc' & H1 & H2 & H3).
  exists op, pc'. rewrite zlen_app in Esz. rewrite Esz in H2. auto.
Qed.

(** The class [a-c] as the first instruction, on an allocator with room. *)
Definition empty_parse : REParseState :=
  mkParse dbuf_init2 0 0 [0] false false false 1 (-1) (-1) dbuf_init2 String.EmptyString.

Lemma re_emit_range_correct_witness :
  let al := limited_bytes 100 in
  exists b u, re_emit_range (mkCharRange 2 2 [97; 100]) empty_parse =
      Ret (set_byte_code empty_parse b, Some u) /\ dbuf_ok b /\
    (dbuf_error b = false ->
     forall s post m fuel body no_recurse c0 p c,
       bc s = dbuf_data b ++ post -> pc m = size (byte_code empty_parse) ->
       cptr m < cbuf_end s -> GET_CHAR s (cptr m) (cbuf_end s) = Ret (c0, p) ->
       canonicalize s c0 = Ret c -> 0 <= c < UINT32_MAX ->
       exists op pc', op_at s (pc m) = Some op /\
         (97 <= c < 100 -> exec_op s fuel body (set_pc m (pc m + 1)) no_recurse op =
            Ret (Next (set_pc (set_cptr m p) (size b)))) /\
         (~ 97 <= c < 100 -> exec_op s fuel body (set_pc m (pc m + 1)) no_recurse op =
            no_match s (set_pc (set_cptr m p) pc') no_recurse)).
Proof.
  intros al. apply (re_emit_range_correct (mkCharRange 2 2 [97; 100]) (fun c => 97 <= c < 100));
    [apply single_represents; unfold UINT32_MAX; lia | done | apply dbuf_init_ok | done].
Defined.

(** The bytes of [a-c], and of the complement of [a-c], which needs the
    encoding of infinity. *)
Example emit_a_c :
  (let al := limited_bytes 100 in
   '(s, _) ← re_emit_range (mkCharRange 2 2 [97; 100]) empty_parse; Ret (dbuf_data (byte_code s)))
  = Ret [reop_byte REOP_range; 1; 0; 97; 0; 99; 0].
Proof. vm_compute. reflexivity. Qed.
Example emit_not_a_c :
  (let al := limited_bytes 100 in
   '(s, _) ← re_emit_range (mkCharRange 4 4 [0; 97; 100; UINT32_MAX]) empty_parse;
   Ret (dbuf_data (byte_code s)))
  = Ret [reop_byte REOP_range; 2; 0; 0; 0; 96; 0; 100; 0; 255; 255].
Proof. vm_compute. reflexivity. Qed.
