(* ===== verification/RegexCompile.v ===== *)
(** * libregexp.c: the regular expression compiler ([lre_compile])

    The recursive descent over disjunctions, alternatives and terms, which emits
    bytecode as it parses.  [fuel] bounds the nesting of calls and the number of
    terms; [depth] is the nesting the stack check sees. *)
From Stdlib Require Import ZArith Lia Bool Ascii String.
From stdpp Require Import base numbers list.
From S2P Require Import Prelude Alloc Cutils DynBuf CharRange CaseConv RegexOp RegexParse.

Section compile.
Context `{AB : Realloc is_byte} `{AW : Realloc is_u32} `{UL : UnicodeLookup}.
(** The engine's check of the C stack: does a call at this depth overflow? *)
Variable lre_check_stack_overflow : Z -> bool.

(** What an atom leaves for the quantifier after it: the position, and
    [last_atom_start], [last_capture_count]; [last_atom_start] is -1 for a term
    that cannot be repeated. *)
Definition atom : Type := Z * Z * Z.

Definition atom_start : PM (Z * Z) :=
  s ← get_state; ret (size (byte_code s), ps_capture_count s).

Definition when (b : bool) (m : PM unit) : PM unit := if b then m else ret tt.

(** [normal_char]: emit a character or a class *)
Definition emit_normal_char (c : Z) (cr : CharRange) (p : Z) (is_backward_dir : bool) : PM atom :=
  '(las, lcc) ← atom_start;
  s ← get_state;
  _ ← when is_backward_dir (re_emit_op REOP_prev);
  _ ← (if CLASS_RANGE_BASE <=? c then
         (* Note: canonicalization is not needed *)
         re_emit_range cr
       else
         c ← (if ps_ignore_case s then lift (lre_canonicalize c (ps_is_utf16 s)) else ret c);
         if c <=? 0xffff then re_emit_op_u16 REOP_char c
         else _ ← re_emit_op_u32 REOP_char32 c; ret tt);
  _ ← when is_backward_dir (re_emit_op REOP_prev);
  ret (p, las, lcc).

Definition parse_class_atom (p : Z) (is_backward_dir : bool) : PM atom :=
  '(c, cr, p) ← get_class_atom p false;
  emit_normal_char c cr p is_backward_dir.

Definition parse_dot (p : Z) (is_backward_dir : bool) : PM atom :=
  '(las, lcc) ← atom_start;
  s ← get_state;
  _ ← when is_backward_dir (re_emit_op REOP_prev);
  _ ← re_emit_op (if ps_dotall s then REOP_any else REOP_dot);
  _ ← when is_backward_dir (re_emit_op REOP_prev);
  ret (p + 1, las, lcc).

Definition parse_class_term (p : Z) (is_backward_dir : bool) : PM atom :=
  '(las, lcc) ← atom_start;
  _ ← when is_backward_dir (re_emit_op REOP_prev);
  p ← re_parse_char_class p;
  _ ← when is_backward_dir (re_emit_op REOP_prev);
  ret (p, las, lcc).

(** Annex B: is the '{' at [p] like a repetition count? *)
Definition like_repetition (p : Z) : PM bool :=
  s ← get_state;
  '(_, p1) ← lift (parse_digits (pattern s) (p + 1) true);
  comma ← is_byte_at p1 ",";
  p1 ← (if (comma : bool) then
          d ← byte_at (p1 + 1);
          if is_digit d then
            '(_, p2) ← lift (parse_digits (pattern s) (p1 + 1) true); ret p2
          else ret (p1 + 1)
        else ret p1);
  is_byte_at p1 "}".

Definition parse_brace (p : Z) (is_backward_dir : bool) : PM atom :=
  s ← get_state;
  if ps_is_utf16 s then re_parse_error "syntax error"%string
  else
    d ← byte_at (p + 1);
    if negb (is_digit d) then
      (* Annex B: we accept '{' not followed by digits as a normal atom *)
      parse_class_atom p is_backward_dir
    else
      like ← like_repetition p;
      if (like : bool) then re_parse_error "nothing to repeat"%string
      else parse_class_atom p is_backward_dir.

(** ** Groups; [rec] is [re_parse_disjunction] *)
Section groups.
Variable rec : bool -> PM unit.

(** Parse a disjunction from [p]; the position after it. *)
Definition sub_disjunction (p : Z) (is_backward_dir : bool) : PM Z :=
  s ← get_state;
  _ ← put_state (set_buf_ptr s p);
  _ ← rec is_backward_dir;
  s ← get_state;
  ret (buf_ptr s).

Definition parse_lookahead (p : Z) (is_neg is_backward_lookahead : bool) : PM atom :=
  s ← get_state;
  (* Annex B allows lookahead to be used as an atom for the quantifiers *)
  '(las, lcc) ← (if negb (ps_is_utf16 s) && negb is_backward_lookahead then atom_start
                 else ret (-1, 0));
  pos ← re_emit_op_u32 (if is_neg then REOP_negative_lookahead else REOP_lookahead) 0;
  p ← sub_disjunction p is_backward_lookahead;
  p ← re_parse_expect p ")";
  _ ← re_emit_op REOP_match;
  (* jump after the 'match' after the lookahead is successful *)
  s ← get_state;
  if dbuf_error (byte_code s) then fail_silent
  else
    _ ← code_put_u32 pos (size (byte_code s) - (pos + 4));
    ret (p, las, lcc).

(** [parse_capture] *)
Definition parse_capture (p : Z) (is_backward_dir : bool) : PM atom :=
  s ← get_state;
  if CAPTURE_COUNT_MAX <=? ps_capture_count s then re_parse_error "too many captures"%string
  else
    '(las, lcc) ← atom_start;
    let capture_index := ps_capture_count s in
    _ ← put_state (set_capture_count s (capture_index + 1));
    _ ← re_emit_op_u8 (if is_backward_dir then REOP_save_end else REOP_save_start) capture_index;
    p ← sub_disjunction p is_backward_dir;
    _ ← re_emit_op_u8 (if is_backward_dir then REOP_save_start else REOP_save_end) capture_index;
    p ← re_parse_expect p ")";
    ret (p, las, lcc).

Definition put_group_names (data : list Z) : PM unit :=
  s ← get_state;
  '(g, _) ← lift (dbuf_put (group_names s) data);
  put_state (set_group_names s g).

Definition parse_named_group (p : Z) (is_backward_dir : bool) : PM atom :=
  s ← get_state;
  r ← lift (re_parse_group_name (pattern s) TMP_BUF_SIZE p (ps_is_utf16 s));
  match r with
  | None => re_parse_error "invalid group name"%string
  | Some (name, p) =>
      idx ← find_group_name name;
      if 0 <? idx then re_parse_error "duplicate group name"%string
      else
        (* group name with a trailing zero *)
        _ ← put_group_names (name ++ [0]);
        s ← get_state;
        _ ← put_state (set_captures s (total_capture_count s) 1);
        parse_capture p is_backward_dir
  end.

(** [p] is at the '('. *)
Definition parse_group (p : Z) (is_backward_dir : bool) : PM atom :=
  quest ← is_byte_at (p + 1) "?";
  if (quest : bool) then
    c2 ← byte_at (p + 2);
    if c2 =? ch ":" then
      '(las, lcc) ← atom_start;
      p ← sub_disjunction (p + 3) is_backward_dir;
      p ← re_parse_expect p ")";
      ret (p, las, lcc)
    else if (c2 =? ch "=") || (c2 =? ch "!") then
      parse_lookahead (p + 3) (c2 =? ch "!") false
    else if c2 =? ch "<" then
      c3 ← byte_at (p + 3);
      if (c3 =? ch "=") || (c3 =? ch "!") then parse_lookahead (p + 4) (c3 =? ch "!") true
      else parse_named_group (p + 3) is_backward_dir
    else re_parse_error "invalid group"%string
  else
    (* capture without group name *)
    _ ← put_group_names [0];
    parse_capture (p + 1) is_backward_dir.

(** ** Escapes at the level of terms *)

(** [emit_back_reference] *)
Definition emit_back_reference (p c : Z) (is_backward_dir : bool) : PM atom :=
  '(las, lcc) ← atom_start;
  _ ← re_emit_op_u8 (if is_backward_dir then REOP_backward_back_reference else REOP_back_reference) c;
  ret (p, las, lcc).

(** [\k]; annex B: we tolerate invalid group names in non unicode mode if there
    is no named capture definition.  [p] is at the backslash. *)
Definition parse_named_reference (p : Z) (is_backward_dir : bool) : PM atom :=
  s ← get_state;
  let tolerate (msg : string) :=
    strict ← (if ps_is_utf16 s then ret true else re_has_named_captures);
    if (strict : bool) then re_parse_error msg else parse_class_atom p is_backward_dir in
  lt ← is_byte_at (p + 2) "<";
  if negb lt then tolerate "expecting group name"%string
  else
    r ← lift (re_parse_group_name (pattern s) TMP_BUF_SIZE (p + 3) (ps_is_utf16 s));
    match r with
    | None => tolerate "invalid group name"%string
    | Some (name, p1) =>
        c ← find_group_name name;
        if c <? 0 then
          (* no capture name parsed before, try to look after *)
          s ← get_state;
          '(c, _) ← lift (re_parse_captures s (Some name));
          if c <? 0 then tolerate "group name not defined"%string
          else emit_back_reference p1 c is_backward_dir
        else emit_back_reference p1 c is_backward_dir
    end.

(** An octal digit at [p] extends [c]. *)
Definition octal_at (p : Z) : PM bool := b ← byte_at p; ret ((ch "0" <=? b) && (b <=? ch "7")).

Definition parse_zero_escape (p : Z) (is_backward_dir : bool) : PM atom :=
  s ← get_state;
  let p := p + 2 in
  b ← byte_at p;
  if ps_is_utf16 s then
    if is_digit b then re_parse_error "invalid decimal escape in regular expression"%string
    else emit_normal_char 0 cr_init p is_backward_dir
  else
    (* Annex B.1.4: accept legacy octal *)
    o1 ← octal_at p;
    if (o1 : bool) then
      let c := b - ch "0" in
      b2 ← byte_at (p + 1);
      o2 ← octal_at (p + 1);
      if (o2 : bool) then emit_normal_char (Z.shiftl c 3 + b2 - ch "0") cr_init (p + 2) is_backward_dir
      else emit_normal_char c cr_init (p + 1) is_backward_dir
    else emit_normal_char 0 cr_init p is_backward_dir.

(** The octal digits of an out of range back reference: at most [n] more. *)
Fixpoint legacy_octal (n : nat) (c p : Z) : PM (Z * Z) :=
  match n with
  | O => ret (c, p)
  | S n =>
      o ← octal_at p;
      if (o : bool) then b ← byte_at p; legacy_octal n (Z.shiftl c 3 + b - ch "0") (p + 1)
      else ret (c, p)
  end.

(** [\1] to [\9]; [q] is at the digit. *)
Definition parse_decimal_escape (q : Z) (is_backward_dir : bool) : PM atom :=
  s ← get_state;
  '(c, p) ← lift (parse_digits (pattern s) q false);
  out_of_range ← (if c <? 0 then ret true
                  else if ps_capture_count s <=? c then n ← re_count_captures; ret (n <=? c)
                  else ret false);
  if (out_of_range : bool) then
    if negb (ps_is_utf16 s) then
      (* Annex B.1.4: accept legacy octal *)
      b ← byte_at q;
      if b <=? ch "7" then
        '(c, p) ← (if b <=? ch "3" then legacy_octal 2 (b - ch "0") (q + 1) else legacy_octal 2 0 q);
        emit_normal_char c cr_init p is_backward_dir
      else emit_normal_char b cr_init (q + 1) is_backward_dir
    else re_parse_error "back reference out of range in regular expression"%string
  else emit_back_reference p c is_backward_dir.

(** [p] is at the backslash. *)
Definition parse_escape_term (p : Z) (is_backward_dir : bool) : PM atom :=
  c ← byte_at (p + 1);
  if (c =? ch "b") || (c =? ch "B") then
    _ ← re_emit_op (if c =? ch "b" then REOP_word_boundary else REOP_not_word_boundary);
    ret (p + 2, -1, 0)
  else if c =? ch "k" then parse_named_reference p is_backward_dir
  else if c =? ch "0" then parse_zero_escape p is_backward_dir
  else if (ch "1" <=? c) && (c <=? ch "9") then parse_decimal_escape (p + 1) is_backward_dir
  else parse_class_atom p is_backward_dir.

(** The atom at [buf_ptr]. *)
Definition parse_atom (is_backward_dir : bool) : PM atom :=
  s ← get_state;
  let p := buf_ptr s in
  c ← byte_at p;
  if c =? ch "^" then _ ← re_emit_op REOP_line_start; ret (p + 1, -1, 0)
  else if c =? ch "$" then _ ← re_emit_op REOP_line_end; ret (p + 1, -1, 0)
  else if c =? ch "." then parse_dot p is_backward_dir
  else if c =? ch "{" then parse_brace p is_backward_dir
  else if (c =? ch "*") || (c =? ch "+") || (c =? ch "?") then re_parse_error "nothing to repeat"%string
  else if c =? ch "(" then parse_group p is_backward_dir
  else if c =? ch "\" then parse_escape_term p is_backward_dir
  else if c =? ch "[" then parse_class_term p is_backward_dir
  else if (c =? ch "]") || (c =? ch "}") then
    if ps_is_utf16 s then re_parse_error "syntax error"%string else parse_class_atom p is_backward_dir
  else parse_class_atom p is_backward_dir.

(** ** Quantifiers *)

(** The emitted code from [start], and its length. *)
Definition code_from (start : Z) : PM (list Z * Z) :=
  s ← get_state;
  let len := size (byte_code s) - start in
  code ← lift (of_opt (zread (buf (byte_code s)) start len));
  ret (code, len).

(** The bounds of the quantifier at [p], whose first character is [c], and the
    position after it; [None] if there is none. *)
Definition parse_quantifier (p c : Z) : PM (option (Z * Z * Z)) :=
  s ← get_state;
  if c =? ch "*" then ret (Some (p + 1, 0, INT32_MAX))
  else if c =? ch "+" then ret (Some (p + 1, 1, INT32_MAX))
  else if c =? ch "?" then ret (Some (p + 1, 0, 1))
  else if c =? ch "{" then
    let p1 := p in
    d ← byte_at (p + 1);
    (* As an extension (see ES6 annex B), we accept '{' not followed by digits
       as a normal atom *)
    if negb (is_digit d) then
      if ps_is_utf16 s then re_parse_error "invalid repetition count"%string else ret None
    else
      '(quant_min, p) ← lift (parse_digits (pattern s) (p + 1) true);
      comma ← is_byte_at p ",";
      '(p, quant_max) ←
        (if (comma : bool) then
           d ← byte_at (p + 1);
           if is_digit d then
             '(quant_max, p) ← lift (parse_digits (pattern s) (p + 1) true);
             if quant_max <? quant_min then re_parse_error "invalid repetition count"%string
             else ret (p, quant_max)
           else ret (p + 1, INT32_MAX) (* infinity *)
         else ret (p, quant_min));
      close ← is_byte_at p "}";
      if negb close && negb (ps_is_utf16 s) then
        (* Annex B: normal atom if invalid '{' syntax *)
        ret None
      else
        p ← re_parse_expect p "}";
        ret (Some (p, quant_min, quant_max))
  else ret None.

(** specific optimization for simple quantifiers: true if it applied *)
Definition emit_simple_quantifier (last_atom_start quant_min quant_max : Z) : PM bool :=
  s ← get_state;
  if dbuf_error (byte_code s) then re_parse_out_of_memory
  else
    '(code, n) ← code_from last_atom_start;
    len ← lift (re_is_simple_quantifier code n);
    if 0 <? len then
      _ ← re_emit_op REOP_match;
      _ ← code_insert last_atom_start 17;
      let pos := last_atom_start in
      _ ← code_store pos (reop_byte REOP_simple_greedy_quant);
      sz ← code_size;
      _ ← code_put_u32 (pos + 1) (sz - last_atom_start - 17);
      _ ← code_put_u32 (pos + 5) quant_min;
      _ ← code_put_u32 (pos + 9) quant_max;
      _ ← code_put_u32 (pos + 13) len;
      ret true
    else ret false.

(** [REOP_split_goto_first + greedy] and [REOP_split_next_first - greedy] *)
Definition split_exit (greedy : bool) : REOPCodeEnum :=
  if greedy then REOP_split_next_first else REOP_split_goto_first.
Definition split_back (greedy : bool) : REOPCodeEnum :=
  if greedy then REOP_split_goto_first else REOP_split_next_first.

Definition check_len (check : bool) : Z := if check then 1 else 0.

(** quant_min = 0; [las] is the start of the atom, [len] its length. *)
Definition emit_optional (las len quant_max : Z) (greedy check : bool) : PM unit :=
  if quant_max =? 0 then code_truncate las
  else if quant_max =? 1 then
    _ ← code_insert las 5;
    _ ← code_store las (reop_byte (split_exit greedy));
    code_put_u32 (las + 1) len
  else if quant_max =? INT32_MAX then
    _ ← code_insert las (5 + check_len check);
    _ ← code_store las (reop_byte (split_exit greedy));
    _ ← code_put_u32 (las + 1) (len + 5 + check_len check);
    if check then
      (* avoid infinite loop by stoping the recursion if no advance was made in
         the atom (only works if the atom has no side effect) *)
      _ ← code_store (las + 1 + 4) (reop_byte REOP_push_char_pos);
      _ ← re_emit_goto REOP_bne_char_pos las; ret tt
    else _ ← re_emit_goto REOP_goto las; ret tt
  else
    _ ← code_insert las 10;
    _ ← code_store las (reop_byte REOP_push_i32);
    _ ← code_put_u32 (las + 1) quant_max;
    _ ← code_store (las + 5) (reop_byte (split_exit greedy));
    _ ← code_put_u32 (las + 6) (len + 5);
    _ ← re_emit_goto REOP_loop (las + 5);
    re_emit_op REOP_drop.

(** [dbuf_put_self], whose status is ignored *)
Definition copy_atom (las len : Z) : PM unit := on_byte_code (fun b => dbuf_put_self b las len).

(** quant_min > 0 *)
Definition emit_repeated (las len quant_min quant_max : Z) (greedy check : bool) : PM unit :=
  if (quant_min =? 1) && (quant_max =? INT32_MAX) && negb check then
    _ ← re_emit_goto (split_back greedy) las; ret tt
  else
    las ← (if quant_min =? 1 then ret las (* nothing to add *)
           else
             _ ← code_insert las 5;
             _ ← code_store las (reop_byte REOP_push_i32);
             _ ← code_put_u32 (las + 1) quant_min;
             let las := las + 5 in
             _ ← re_emit_goto REOP_loop las;
             _ ← re_emit_op REOP_drop;
             ret las);
    if quant_max =? INT32_MAX then
      pos ← code_size;
      _ ← re_emit_op_u32 (split_exit greedy) (len + 5 + check_len check);
      _ ← when check (re_emit_op REOP_push_char_pos);
      (* copy the atom *)
      _ ← copy_atom las len;
      _ ← re_emit_goto (if check then REOP_bne_char_pos else REOP_goto) pos; ret tt
    else if quant_min <? quant_max then
      _ ← re_emit_op_u32 REOP_push_i32 (quant_max - quant_min);
      pos ← code_size;
      _ ← re_emit_op_u32 (split_exit greedy) (len + 5);
      (* copy the atom *)
      _ ← copy_atom las len;
      _ ← re_emit_goto REOP_loop pos;
      re_emit_op REOP_drop
    else ret tt.

(** The general case: a check that every iteration advances, then the loop. *)
Definition emit_quantifier (las lcc quant_min quant_max : Z) (greedy : bool) : PM unit :=
  check ← (if greedy then
             s ← get_state;
             if dbuf_error (byte_code s) then re_parse_out_of_memory
             else
               '(code, n) ← code_from las;
               r ← lift (re_check_advance code n);
               ret (r =? 0)
           else ret false);
  s ← get_state;
  let len := size (byte_code s) - las in
  if quant_min =? 0 then
    (* need to reset the capture in case the atom is not executed *)
    las ← (if negb (lcc =? ps_capture_count s) then
             _ ← code_insert las 3;
             _ ← code_store las (reop_byte REOP_save_reset);
             _ ← code_store (las + 1) lcc;
             _ ← code_store (las + 2) (ps_capture_count s - 1);
             ret (las + 3)
           else ret las);
    emit_optional las len quant_max greedy check
  else emit_repeated las len quant_min quant_max greedy check.

(** The quantifier after an atom; the position after it. *)
Definition parse_repetition (p las lcc : Z) : PM Z :=
  c ← byte_at p;
  q ← parse_quantifier p c;
  match q with
  | None => ret p
  | Some (p, quant_min, quant_max) =>
      lazy ← is_byte_at p "?";
      let greedy := negb lazy in
      let p := if (lazy : bool) then p + 1 else p in
      simple ← (if greedy && (0 <? quant_max) then emit_simple_quantifier las quant_min quant_max
                else ret false);
      _ ← (if (simple : bool) then ret tt else emit_quantifier las lcc quant_min quant_max greedy);
      ret p
  end.
End groups.

(** ** The descent *)

(** [rec] is [re_parse_disjunction]. *)
Definition re_parse_term (rec : bool -> PM unit) (is_backward_dir : bool) : PM unit :=
  '(p, las, lcc) ← parse_atom rec is_backward_dir;
  p ← (if 0 <=? las then parse_repetition p las lcc else ret p);
  s ← get_state;
  put_state (set_buf_ptr s p).

(** reverse the order of the terms *)
Definition swap_term (start term_start : Z) : PM unit :=
  end_ ← code_size;
  let term_size := end_ - term_start in
  r ← on_byte_code_status (fun b => let '(b, r) := dbuf_realloc b (end_ + term_size) in Ret (b, r));
  if negb (r =? 0) then fail_silent
  else
    on_byte_code (fun b =>
      moved ← of_opt (zread (buf b) start (end_ - start));
      m ← of_opt (zwrite (buf b) (start + term_size) moved);
      term ← of_opt (zread m end_ term_size);
      m ← of_opt (zwrite m start term);
      Ret (mkDynBuf m (size b) (allocated_size b) (error b), 0)).

Fixpoint alternative_loop (fuel : nat) (rec : bool -> PM unit) (is_backward_dir : bool) (start : Z)
  : PM unit :=
  match fuel with
  | O => lift NoFuel
  | S fuel =>
      s ← get_state;
      let p := buf_ptr s in
      if buf_end s <=? p then ret tt
      else
        c ← byte_at p;
        if (c =? ch "|") || (c =? ch ")") then ret tt
        else
          term_start ← code_size;
          _ ← re_parse_term rec is_backward_dir;
          _ ← when is_backward_dir (swap_term start term_start);
          alternative_loop fuel rec is_backward_dir start
  end.

Definition re_parse_alternative (fuel : nat) (rec : bool -> PM unit) (is_backward_dir : bool) : PM unit :=
  start ← code_size;
  alternative_loop fuel rec is_backward_dir start.

(** The alternatives after the first. *)
Fixpoint disjunction_loop (fuel : nat) (rec : bool -> PM unit) (is_backward_dir : bool) (start : Z)
  : PM unit :=
  match fuel with
  | O => lift NoFuel
  | S fuel =>
      s ← get_state;
      bar ← is_byte_at (buf_ptr s) "|";
      if (bar : bool) then
        _ ← put_state (set_buf_ptr s (buf_ptr s + 1));
        let len := size (byte_code s) - start in
        (* insert a split before the first alternative *)
        _ ← code_insert start 5;
        _ ← code_store start (reop_byte REOP_split_next_first);
        _ ← code_put_u32 (start + 1) (len + 5);
        pos ← re_emit_op_u32 REOP_goto 0;
        _ ← re_parse_alternative fuel rec is_backward_dir;
        (* patch the goto *)
        sz ← code_size;
        _ ← code_put_u32 pos (sz - (pos + 4));
        disjunction_loop fuel rec is_backward_dir start
      else ret tt
  end.

Fixpoint re_parse_disjunction (fuel : nat) (depth : Z) (is_backward_dir : bool) : PM unit :=
  match fuel with
  | O => lift NoFuel
  | S fuel =>
      if lre_check_stack_overflow depth then re_parse_error "stack overflow"%string
      else
        start ← code_size;
        let rec := re_parse_disjunction fuel (depth + 1) in
        _ ← re_parse_alternative fuel rec is_backward_dir;
        disjunction_loop fuel rec is_backward_dir start
  end.

(** ** [lre_compile] *)
Definition init_parse_state (pat : list Z) (buf_len re_flags : Z) : REParseState :=
  let flag f := negb (Z.land re_flags f =? 0) in
  mkParse dbuf_init2 0 buf_len pat (flag LRE_FLAG_UTF16) (flag LRE_FLAG_IGNORECASE)
    (flag LRE_FLAG_DOTALL) 1 (-1) (-1) dbuf_init2 ""%string.

(** The header and the search loop. *)
Definition emit_prologue (re_flags : Z) : PM unit :=
  let putc c := on_byte_code (fun b => dbuf_putc b c) in
  _ ← putc re_flags; (* first element is the flags *)
  _ ← putc 0; (* second element is the number of captures *)
  _ ← putc 0; (* stack size *)
  _ ← on_byte_code (fun b => dbuf_put_u32 b 0); (* bytecode length *)
  _ ← (if Z.land re_flags LRE_FLAG_STICKY =? 0 then
         (* iterate thru all positions (about the same as .*?( ... ) ) *)
         _ ← re_emit_op_u32 REOP_split_goto_first (1 + 5);
         _ ← re_emit_op REOP_any;
         _ ← re_emit_op_u32 REOP_goto (u32 (- (5 + 1 + 5))); ret tt
       else ret tt);
  re_emit_op_u8 REOP_save_start 0.

(** After the code: the counts of the header, and the named groups. *)
Definition emit_epilogue : PM unit :=
  _ ← re_emit_op_u8 REOP_save_end 0;
  _ ← re_emit_op REOP_match;
  s ← get_state;
  b ← byte_at (buf_ptr s);
  if negb (b =? 0) then re_parse_error "extraneous characters at the end"%string
  else if dbuf_error (byte_code s) then re_parse_out_of_memory
  else
    stack_size ← lift (compute_stack_size (buf (byte_code s)) (size (byte_code s)));
    if stack_size <? 0 then re_parse_error "too many imbricated quantifiers"%string
    else
      _ ← code_store RE_HEADER_CAPTURE_COUNT (ps_capture_count s);
      _ ← code_store RE_HEADER_STACK_SIZE stack_size;
      _ ← code_put_u32 3 (size (byte_code s) - RE_HEADER_LEN);
      (* add the named groups if needed *)
      if ps_capture_count s - 1 <? size (group_names s) then
        names ← lift (of_opt (zread (buf (group_names s)) 0 (size (group_names s))));
        _ ← on_byte_code (fun b => dbuf_put b names);
        s ← get_state;
        flags ← lift (of_opt (znth (buf (byte_code s)) RE_HEADER_FLAGS));
        code_store RE_HEADER_FLAGS (Z.lor flags LRE_FLAG_NAMED_GROUPS)
      else ret tt.

(** 'buf' must be a zero terminated UTF-8 string of length buf_len. The compiled
    bytecode, or the error message. *)
Definition lre_compile (fuel : nat) (pat : list Z) (buf_len re_flags : Z)
  : res (list Z + string) :=
  let run : PM unit :=
    _ ← emit_prologue re_flags;
    _ ← re_parse_disjunction fuel 0 false;
    emit_epilogue in
  '(s, r) ← run (init_parse_state pat buf_len re_flags);
  match r with
  | None => Ret (inr (error_msg s))
  | Some _ =>
      code ← of_opt (zread (buf (byte_code s)) 0 (size (byte_code s)));
      Ret (inl code)
  end.
End compile.
