(* ===== verification/RegexExamples.v ===== *)
(** * libregexp.c: the compiler and the executor together, on concrete patterns

    [lre_compile] is run inside the kernel on whole patterns.  The examples tie
    the byte code used in RegexSafe.v and RegexTerm.v to its source pattern;
    the theorems are the behaviours of the compiled code that contradict
    ECMAScript or the C standard.

    [libunicode] instantiates the property lookups that the parser takes from
    libunicode.c (the class [UnicodeLookup] of RegexParse.v) with the ones of
    UnicodeRange.v; [property_range_correct] carries their specification over to
    the ranges of [\p{...}] in a pattern. *)
From Stdlib Require Import ZArith Lia Bool String.
From stdpp Require Import base numbers list.
From S2P Require Import Prelude Alloc Cutils DynBuf CharRange CharRangeFacts UnicodeTables UnicodeRange UnicodeSets UnicodeRuns UnicodeRangeProps RegexOp RegexExec RegexSafe RegexTerm RegexParse RegexCompile.

(** The lookups of libunicode.c; [fuel] bounds the loop of [unicode_script] when
    memory runs out. *)
Definition libunicode `{Realloc is_u32} (fuel : nat) : UnicodeLookup := {|
  RegexParse.unicode_script := UnicodeRange.unicode_script fuel;
  RegexParse.unicode_general_category := UnicodeRange.unicode_general_category;
  RegexParse.unicode_prop := UnicodeRange.unicode_prop
|}.

(** ** The set of a property in a pattern *)

Definition is_script_name (name : list Z) : bool :=
  bool_decide (name = str "Script") || bool_decide (name = str "sc") ||
  bool_decide (name = str "Script_Extensions") || bool_decide (name = str "scx").

(** What [\p{name=value}] stands for; [value] is empty in [\p{name}]. *)
Definition class_set (name value : list Z) : option (Z -> bool) :=
  if bool_decide (name = str "Script") || bool_decide (name = str "sc") then
    option_map (fun k => script_set (k + 1) false) (name_index unicode_script_names value)
  else if bool_decide (name = str "Script_Extensions") || bool_decide (name = str "scx") then
    option_map (fun k => script_set (k + 1) true) (name_index unicode_script_names value)
  else if bool_decide (name = str "General_Category") || bool_decide (name = str "gc") then
    option_map (fun k => in_categories (category_mask k)) (name_index unicode_gc_names value)
  else
    match value with
    | [] =>
        match name_index unicode_gc_names name with
        | Some k => Some (in_categories (category_mask k))
        | None => option_map (fun k => property_set (k + UNICODE_PROP_ASCII_Hex_Digit)) (name_index unicode_prop_names name)
        end
    | _ => None
    end.

Section lookup.
Context `{Realloc is_u32}.

(** The parser gets a range of the set [P], or an allocation has failed: then the
    error is "out of memory", but for scripts, whose lookup never returns. *)
Definition parses_set (script : bool) (f : nat -> PM CharRange) (P : Z -> bool) (s : REParseState) : Prop :=
  (exists cr, (forall fuel, f fuel s = Ret (s, Some cr)) /\ denotes cr P) \/
  (allocation_fails /\
   if script then forall fuel x, f fuel s <> Ret x
   else forall fuel, f fuel s = Ret (set_error_msg s "out of memory", None)).

(** An error with a message about the name. *)
Definition rejects (f : nat -> PM CharRange) (s : REParseState) : Prop :=
  exists msg, msg <> "out of memory"%string /\ forall fuel, f fuel s = Ret (set_error_msg s msg, None).

Lemma yields_parses m P nf s : yields m P -> parses_set false (fun _ => lookup_status m nf) P s.
Proof.
  intros (cr & r & E & Hr). unfold parses_set, lookup_status, lift, mbind, PM_bind. rewrite E.
  destruct Hr as [[-> D] | [-> Hf]]; [left; by exists cr | right; split; [exact Hf | done]].
Qed.

Lemma script_parses name is_ext nf s :
  match name_index unicode_script_names name with
  | Some k => parses_set true (fun fuel => lookup_status (UnicodeRange.unicode_script fuel name is_ext) nf) (script_set (k + 1) is_ext) s
  | None => forall fuel, lookup_status (UnicodeRange.unicode_script fuel name is_ext) nf s = nf s
  end.
Proof.
  pose proof (unicode_script_spec name is_ext) as Hs. unfold parses_set, lookup_status, lift, mbind, PM_bind.
  destruct (name_index unicode_script_names name) as [k |]; [| intros fuel; by rewrite Hs].
  destruct Hs as [(cr & E & D) | [Hf Hn]]; [left; exists cr | right].
  - split; [intros fuel; by rewrite E | done].
  - split; [done |]. intros fuel x. specialize (Hn fuel). destruct (UnicodeRange.unicode_script fuel name is_ext) as [y | |]; [by destruct (Hn y) | done ..].
Qed.

Lemma gc_parses name nf s :
  match name_index unicode_gc_names name with
  | Some k => parses_set false (fun _ => lookup_status (UnicodeRange.unicode_general_category name) nf) (in_categories (category_mask k)) s
  | None => lookup_status (UnicodeRange.unicode_general_category name) nf s = nf s
  end.
Proof.
  pose proof (unicode_general_category_spec name) as Hs. destruct (name_index unicode_gc_names name); [by apply yields_parses |].
  unfold lookup_status, lift, mbind, PM_bind. by rewrite Hs.
Qed.

Lemma prop_parses name nf s :
  match name_index unicode_prop_names name with
  | Some k => parses_set false (fun _ => lookup_status (UnicodeRange.unicode_prop name) nf) (property_set (k + UNICODE_PROP_ASCII_Hex_Digit)) s
  | None => lookup_status (UnicodeRange.unicode_prop name) nf s = nf s
  end.
Proof.
  pose proof (unicode_prop_spec name) as Hs. destruct (name_index unicode_prop_names name); [by apply yields_parses |].
  unfold lookup_status, lift, mbind, PM_bind. by rewrite Hs.
Qed.

(** C31: the range that the parser of regular expressions makes for [\p{name=value}] is
    the set of characters of the script, the category or the binary property, found
    by any of its names; other names are an error that is not "out of memory".  When
    an allocation fails, a category or a property gives the error "out of memory";
    the lookup of a script then never returns. *)
Theorem property_range_correct name value s :
  let f := fun fuel => @property_range (libunicode fuel) name value in
  match class_set name value with
  | Some P => parses_set (is_script_name name) f P s
  | None => rejects f s
  end.
Proof.
  cbn zeta. unfold class_set, is_script_name, property_range, rejects. cbn [RegexParse.unicode_script RegexParse.unicode_general_category RegexParse.unicode_prop libunicode].
  destruct (bool_decide (name = str "Script") || bool_decide (name = str "sc")) eqn:E1.
  { cbn [orb]. pose proof (script_parses value false (re_parse_error "unknown unicode script") s) as Hs.
    destruct (name_index unicode_script_names value); cbn [option_map]; [done | by exists "unknown unicode script"%string]. }
  rewrite orb_false_l.
  destruct (bool_decide (name = str "Script_Extensions") || bool_decide (name = str "scx")) eqn:E2.
  { pose proof (script_parses value true (re_parse_error "unknown unicode script") s) as Hs.
    destruct (name_index unicode_script_names value); cbn [option_map]; [done | by exists "unknown unicode script"%string]. }
  destruct (bool_decide (name = str "General_Category") || bool_decide (name = str "gc")).
  { pose proof (gc_parses value (re_parse_error "unknown unicode general category") s) as Hs.
    destruct (name_index unicode_gc_names value); cbn [option_map]; [done | by exists "unknown unicode general category"%string]. }
  destruct value as [| v value]; [| by exists "unknown unicode property name"%string].
  pose proof (unicode_general_category_spec name) as Hg. destruct (name_index unicode_gc_names name) as [k |].
  - destruct Hg as (cr & r & E & Hr). unfold parses_set, lift, mbind, PM_bind. rewrite E.
    destruct Hr as [[-> D] | [-> Hf]]; [left; by exists cr | right; split; [exact Hf | done]].
  - unfold lift, mbind, PM_bind. rewrite Hg. cbn [Z.eqb Z.ltb Z.compare].
    pose proof (prop_parses name (re_parse_error "unknown unicode property name") s) as Hp.
    destruct (name_index unicode_prop_names name); cbn [option_map]; [done | by exists "unknown unicode property name"%string].
Qed.
End lookup.

(** Compile [p] when the byte code allocator serves blocks up to [limit]. *)
Definition compile (limit : Z) (p : string) (re_flags : Z) : res (list Z + string) :=
  @lre_compile (limited_bytes limit) (limited_words 100000) (@libunicode (limited_words 100000) 1) (fun depth => 100 <? depth)
    100 (str p ++ [0]) (Z.of_nat (String.length p)) re_flags.

(** Compile and match from the start of [input]. *)
Definition run (p : string) (re_flags : Z) (input : list Z) : res (list (option Z) * result) :=
  code ← compile 100000 p re_flags;
  match code with
  | inr _ => Fault
  | inl bc =>
      n ← of_opt (lre_get_capture_count bc);
      lre_exec 1000 (replicate (2 * Z.to_nat n) None) (replicate 255 0) bc input 0 0 4096
        (fun n => n <? 1000000)
  end.

Example compile_a_plus_b : compile 1000 "a+b" LRE_FLAG_STICKY = Ret (inl code_a_plus_b).
Proof. vm_compute. reflexivity. Qed.

Example run_groups :
  run "(\w+)@(\d{2,})" 0 (str "-xy@42!") =
  Ret ([Some 1; Some 6; Some 1; Some 3; Some 4; Some 6], RET_YES).
Proof. vm_compute. reflexivity. Qed.
Example run_lookahead :
  run "(a(b)?)+(?=(c))\3" 0 (str "aabcd") =
  Ret ([Some 0; Some 4; Some 1; Some 3; Some 2; Some 3; Some 3; Some 4], RET_YES).
Proof. vm_compute. reflexivity. Qed.

Example run_properties :
  run "^\p{Lu}\p{Script=Greek}+[\P{ID_Start}]$" LRE_FLAG_UTF16 [0x41; 0x3b1; 0x1f80; 0x21] =
  Ret ([Some 0; Some 4], RET_YES).
Proof. vm_compute. reflexivity. Qed.

(** ** The heap overflow on memory exhaustion *)

(** [re_parse_disjunction] patches the offset of its [goto] without
    testing the error flag of the byte code buffer.  When the allocator refuses
    to grow the buffer between the opcode and its operand, the patch is a
    four-byte store past the end of the block: with an allocator that serves
    blocks of up to 40 bytes, compiling [aaaaa|b|c] performs it. *)
Theorem disjunction_overflow_on_oom :
  compile 1000 "aaaaa|b|c" LRE_FLAG_STICKY <> Fault /\
  compile 40 "aaaaa|b|c" LRE_FLAG_STICKY = Fault.
Proof. split; [vm_compute; discriminate | vm_compute; reflexivity]. Qed.

(** ** Lazy quantifiers over an empty atom *)

(** The compiler adds no zero-advance check to a lazy quantifier: it
    compiles [(?:)*?x] to code that passes the verifier, and matching this code
    against "y" never returns. *)
Theorem lazy_quantifier_diverges :
  exists code, compile 1000 "(?:)*?x" LRE_FLAG_STICKY = Ret (inl code) /\
    verify context_empty_lazy_loop 18 = true /\
    bc context_empty_lazy_loop = drop (Z.to_nat RE_HEADER_LEN) code /\
    forall fuel, lre_exec fuel [None; None] [] code [121] 0 0 4096 (fun n => n <? 100000) = NoFuel.
Proof.
  exists code_empty_lazy_loop. split; [vm_compute; reflexivity |].
  split; [apply empty_lazy_loop_verified |]. split; [reflexivity |].
  apply empty_lazy_loop_diverges.
Qed.

(** ** Named groups and captures *)

(** When [re_parse_captures] looks for a name it resumes one byte too far
    after each group name, so a group that starts right after a name is not
    seen: the reference to [b] fails, although the group exists; with one
    character between the two groups it is found. *)
Theorem forward_named_reference_missed :
  compile 1000 "\k<b>(?<a>(?<b>x))" 0 = Ret (inr "group name not defined"%string) /\
  exists code, compile 1000 "\k<b>(?<a>.(?<b>x))" 0 = Ret (inl code).
Proof. split; [vm_compute; reflexivity |]. eexists. vm_compute. reflexivity. Qed.

(** The captures of a group are reset once before a loop and not at each
    iteration: matching [(?:(a)|b)*] against "ab" leaves capture 1 at the "a"
    of the first iteration, where ECMAScript (RepeatMatcher, step 4) has it
    undefined. *)
Theorem captures_kept_across_iterations :
  run "(?:(a)|b)*" 0 [97; 98] = Ret ([Some 0; Some 2; Some 0; Some 1], RET_YES).
Proof. vm_compute. reflexivity. Qed.
