(* ===== verification/ListHead.v ===== *)
(** * list.h: doubly linked lists

    A list is the sequence of the addresses of its elements; the links and the
    head are implicit.  An element is in a list at most once, and [list_del]
    takes it out. *)
From Stdlib Require Import ZArith Lia Bool Permutation.
From stdpp Require Import base numbers list.
From S2P Require Import Prelude.

Definition remove_id (p : Z) (l : list Z) : list Z := filter (fun x => x <> p) l.
#[global] Arguments remove_id : simpl never.

(** [el->next], where the list head is [None]; the links of an object that is
    not in the list are not followed. *)
Fixpoint next_after (l : list Z) (p : Z) : res (option Z) :=
  match l with
  | [] => Fault
  | x :: l => if decide (x = p) then Ret (head l) else next_after l p
  end.
Definition list_next (l : list Z) (el : option Z) : res (option Z) :=
  match el with None => Ret (head l) | Some p => next_after l p end.

(** ** Counting occurrences *)
Definition cnt (l : list Z) (p : Z) : Z := Z.of_nat (count_occ Z.eq_dec l p).

Lemma cnt_nil p : cnt [] p = 0.
Proof. reflexivity. Qed.
Lemma cnt_app l k p : cnt (l ++ k) p = cnt l p + cnt k p.
Proof. unfold cnt. rewrite count_occ_app. lia. Qed.
Lemma cnt_cons x l p : cnt (x :: l) p = (if decide (x = p) then 1 else 0) + cnt l p.
Proof. unfold cnt. cbn. destruct (Z.eq_dec x p), (decide (x = p)); lia || done. Qed.
Lemma cnt_nonneg l p : 0 <= cnt l p.
Proof. unfold cnt. lia. Qed.
Lemma cnt_pos l p : 0 < cnt l p <-> p ∈ l.
Proof.
  unfold cnt. rewrite list_elem_of_In. rewrite (count_occ_In Z.eq_dec). lia.
Qed.
Lemma cnt_zero l p : cnt l p = 0 <-> p ∉ l.
Proof. rewrite <- cnt_pos. pose proof (cnt_nonneg l p). lia. Qed.
Lemma cnt_perm l k p : l ≡ₚ k -> cnt l p = cnt k p.
Proof. intros H. unfold cnt. f_equal. by apply Permutation_count_occ. Qed.

(** ** Facts *)
Lemma elem_of_nil_iff (x : Z) : x ∈ [] <-> False.
Proof. split; [apply not_elem_of_nil | done]. Qed.

Lemma elem_remove_id p l x : x ∈ remove_id p l <-> x ∈ l /\ x <> p.
Proof. unfold remove_id. rewrite list_elem_of_filter. tauto. Qed.
Lemma remove_id_notin p l : p ∉ l -> remove_id p l = l.
Proof.
  intros Hp. unfold remove_id. induction l as [| x l IH]; [done |].
  apply not_elem_of_cons in Hp as [Hx Hl]. rewrite filter_cons_True by done. f_equal. auto.
Qed.
Lemma NoDup_snoc (l : list Z) p : NoDup l -> p ∉ l -> NoDup (l ++ [p]).
Proof.
  intros Hl Hp. apply list.NoDup_app. split; [done |]. split; [| apply list.NoDup_singleton].
  intros x Hx Hin. apply list_elem_of_singleton in Hin as ->. done.
Qed.

Lemma next_after_app l p k : p ∉ l -> next_after (l ++ p :: k) p = Ret (head k).
Proof.
  intros Hl. induction l as [| x l IH]; cbn.
  - by rewrite decide_True.
  - apply not_elem_of_cons in Hl as [Hx Hl]. rewrite decide_False by done. auto.
Qed.

Lemma list_next_app l k : NoDup (l ++ k) -> list_next (l ++ k) (head k) = Ret (head (tail k)) \/ k = [].
Proof.
  intros Hn. destruct k as [| p k]; [auto | left]. cbn. apply next_after_app.
  apply list.NoDup_app in Hn as (_ & Hd & _). intros Hp. apply (Hd p Hp). left.
Qed.

Lemma filter_all {A} (P : A -> Prop) `{forall x, Decision (P x)} (l : list A) :
  (forall x, x ∈ l -> P x) -> filter P l = l.
Proof.
  induction l as [| x l IH]; intros Hl; [done |].
  rewrite filter_cons_True by (apply Hl; left). f_equal. apply IH. intros y Hy. apply Hl. by right.
Qed.


Lemma filter_none {A} (P : A -> Prop) `{forall x, Decision (P x)} (l : list A) :
  (forall x, x ∈ l -> ~ P x) -> filter P l = [].
Proof.
  induction l as [| x l IH]; intros Hl; [done |].
  rewrite filter_cons_False by (apply Hl; left). apply IH. intros y Hy. apply Hl. by right.
Qed.

Lemma filter_ext_in {A} (P Q : A -> Prop) `{forall x, Decision (P x)} `{forall x, Decision (Q x)} (l : list A) :
  (forall x, x ∈ l -> P x <-> Q x) -> filter P l = filter Q l.
Proof.
  induction l as [| x l IH]; intros Hl; [done |].
  assert (filter P l = filter Q l) as E by (apply IH; intros y Hy; apply Hl; by right).
  assert (P x <-> Q x) as Hx by (apply Hl; left).
  destruct (decide (P x)).
  - rewrite !filter_cons_True by tauto. by rewrite E.
  - rewrite !filter_cons_False by tauto. done.
Qed.

Lemma remove_id_middle (D R : list Z) p : NoDup (D ++ p :: R) -> remove_id p (D ++ p :: R) = D ++ R.
Proof.
  intros (_ & Hd & Hr)%list.NoDup_app. apply list.NoDup_cons in Hr as [Hp _].
  unfold remove_id. rewrite list.filter_app, filter_cons_False by tauto.
  rewrite !filter_all; [done | |].
  - intros x Hx ->. done.
  - intros x Hx ->. apply (Hd p Hx). left.
Qed.
