(* ===== verification/Chains.v ===== *)
(** * Chains of a hash table

    A table is a list of heads, one for each bucket; a chain goes from its head
    from node to node and ends with 0.  [bucket] tells in which chain a node is.
    The tables of atoms, of shapes and of properties are such tables. *)
From Stdlib Require Import ZArith Lia Bool.
From stdpp Require Import base numbers list.
From S2P Require Import Prelude.

(** ** Linked lists of indices *)

(** From [i], [next] goes through [l] and ends with 0. *)
Fixpoint linked (next : Z -> option Z) (i : Z) (l : list Z) : Prop :=
  match l with
  | [] => i = 0
  | j :: l => i = j /\ i <> 0 /\ exists k, next i = Some k /\ linked next k l
  end.

Lemma linked_ext next next' l : forall i, linked next i l -> (forall j, j ∈ l -> next' j = next j) ->
  linked next' i l.
Proof.
  induction l as [| j l IH]; intros i H He; [done |]. destruct H as (-> & Hj & k & Hk & Hl).
  split_and!; [done | done |]. exists k. split; [rewrite He; [done | by left] |].
  apply IH; [done |]. intros x Hx. apply He. by right.
Qed.

Lemma linked_det next l : forall l' i, linked next i l -> linked next i l' -> l = l'.
Proof.
  induction l as [| j l IH]; intros [| j' l'] i H H'; [done | | |]; cbn in *.
  - destruct H' as (-> & ? & _). done.
  - destruct H as (-> & ? & _). done.
  - destruct H as (-> & _ & k & Hk & Hl), H' as (-> & _ & k' & Hk' & Hl').
    assert (k = k') as -> by congruence. f_equal. by eapply IH.
Qed.

Lemma linked_suffix next l k : forall i j, linked next i (l ++ j :: k) -> linked next j (j :: k).
Proof.
  induction l as [| x l IH]; intros i j H; cbn in H.
  - destruct H as (-> & ?). cbn. done.
  - destruct H as (_ & _ & y & _ & Hl). by apply (IH y).
Qed.

Lemma linked_nodup next l : forall i, linked next i l -> NoDup l.
Proof.
  induction l as [| j l IH]; intros i H; [constructor |].
  destruct H as (-> & Hj & k & Hk & Hl). constructor; [| by eapply IH].
  intros Hin. apply list_elem_of_split in Hin as (l1 & l2 & ->).
  pose proof (linked_suffix next l1 l2 k j Hl) as Hs.
  assert (linked next j (j :: l1 ++ j :: l2)) as Hs' by (split_and!; eauto).
  pose proof (linked_det next _ _ j Hs Hs') as E.
  apply (f_equal length) in E. cbn in E. rewrite length_app in E. cbn in E. lia.
Qed.

Lemma linked_nonzero next l j : forall i, linked next i l -> j ∈ l -> j <> 0 /\ is_Some (next j).
Proof.
  induction l as [| x l IH]; intros i H Hin; [by apply not_elem_of_nil in Hin |].
  destruct H as (-> & Hx & k & Hk & Hl). apply elem_of_cons in Hin as [-> | Hin]; [by eauto |].
  by eapply IH.
Qed.

(** The element after [j] skips the next one. *)
Lemma linked_remove next next' j x k l2 l1 : forall i, linked next i (l1 ++ j :: x :: l2) -> next x = Some k ->
  next' j = Some k -> (forall y, y <> j -> next' y = next y) -> linked next' i (l1 ++ j :: l2).
Proof.
  intros i H Hx Hj Hy. pose proof (linked_nodup _ _ _ H) as Hnd. revert i H.
  induction l1 as [| z l1 IH]; intros i H; cbn in *.
  - destruct H as (-> & Hj0 & y & Hnj & -> & Hx0 & k' & Hk' & Hl). split_and!; [done | done |].
    exists k. split; [done |]. assert (k' = k) as -> by congruence.
    apply (linked_ext next); [done |]. intros w Hw. apply Hy. intros ->.
    apply list.NoDup_cons in Hnd as [Hn _]. apply Hn. by right.
  - apply list.NoDup_cons in Hnd as [Hn Hnd]. destruct H as (-> & Hz & y & Hnz & Hl). split_and!; [done | done |].
    exists y. split; [| by apply IH]. rewrite Hy; [done |]. intros ->. apply Hn. apply elem_of_app. right. by left.
Qed.

(** ** Bounded lists without repetition are short *)
Lemma nodup_bounded l n : NoDup l -> (forall i, i ∈ l -> 0 <= i < n) -> (length l <= Z.to_nat n)%nat.
Proof.
  intros Hnd Hb. rewrite <- (length_seqZ 0 n). apply submseteq_length, NoDup_submseteq; [done |].
  intros i Hi. apply elem_of_seqZ. specialize (Hb i Hi). lia.
Qed.

(** ** Lists of chains *)
Lemma nodup_concat (ch : list (list Z)) : (forall b l, ch !! b = Some l -> NoDup l) ->
  (forall a b l m i, ch !! a = Some l -> ch !! b = Some m -> i ∈ l -> i ∈ m -> a = b) -> NoDup (concat ch).
Proof.
  induction ch as [| c ch IH]; intros H1 H2; cbn; [constructor |]. apply list.NoDup_app. split_and!.
  - by apply (H1 O).
  - intros i Hi Hin. apply list_elem_of_In, in_concat in Hin as (m & Hm & Hin).
    apply list_elem_of_In, list_elem_of_lookup in Hm as [b Hb]. apply list_elem_of_In in Hin.
    by pose proof (H2 O (S b) c m i eq_refl Hb Hi Hin).
  - apply IH; [intros b l Hb; by apply (H1 (S b)) |].
    intros a b l m i Ha Hb Hl Hm. by pose proof (H2 (S a) (S b) l m i Ha Hb Hl Hm) as [= ->].
Qed.

Lemma elem_of_concat (i : Z) (ch : list (list Z)) : i ∈ concat ch <-> exists b l, ch !! b = Some l /\ i ∈ l.
Proof.
  rewrite list_elem_of_In, in_concat. split.
  - intros (l & Hl & Hi). apply list_elem_of_In, list_elem_of_lookup in Hl as [b Hb]. exists b, l.
    by rewrite list_elem_of_In.
  - intros (b & l & Hb & Hi). exists l. rewrite <- !list_elem_of_In. split; [by eapply list_elem_of_lookup_2 | done].
Qed.

(** ** Tables *)
Definition table (next : Z -> option Z) (heads : list Z) (bucket : Z -> option Z) : Prop :=
  (exists ch, Forall2 (linked next) heads ch /\
    forall b l, ch !! b = Some l -> forall i, i ∈ l <-> bucket i = Some (Z.of_nat b)) /\
  forall i b, bucket i = Some b -> 0 <= b < zlen heads.

Section tables.
Implicit Types (next : Z -> option Z) (heads : list Z) (bucket : Z -> option Z).

Lemma table_empty next n bucket : (forall i, bucket i = None) -> table next (replicate n 0) bucket.
Proof.
  intros Hb. split; [| intros i b H; by rewrite Hb in H]. exists (replicate n []). split.
  - apply Forall2_same_length_lookup. split; [by rewrite !length_replicate |]. intros i x l Hx Hl.
    apply lookup_replicate in Hx as [-> _]. by apply lookup_replicate in Hl as [-> _].
  - intros b l Hl i. apply lookup_replicate in Hl as [-> _]. rewrite Hb. split; [intros H; by apply not_elem_of_nil in H | done].
Qed.

Lemma table_chain next heads bucket b : table next heads bucket -> 0 <= b < zlen heads -> exists i l,
  znth heads b = Some i /\ linked next i l /\ forall x, x ∈ l <-> bucket x = Some b.
Proof.
  intros [(ch & H2 & Hch) _] Hb. destruct (lookup_lt_is_Some_2 heads (Z.to_nat b)) as [i Hi]; [unfold zlen in Hb; lia |].
  destruct (Forall2_lookup_l _ _ _ _ _ H2 Hi) as (l & Hl & Hk). exists i, l. split_and!; [| done |].
  - apply znth_Some. split; [lia | done].
  - intros x. rewrite (Hch _ _ Hl x). by rewrite Z2Nat.id by lia.
Qed.

Lemma table_ext next next' heads bucket bucket' : table next heads bucket ->
  (forall i, is_Some (bucket i) -> next' i = next i) -> (forall i, bucket' i = bucket i) -> table next' heads bucket'.
Proof.
  intros [(ch & H2 & Hch) Hr] Hn Hb. split; [| intros i b; rewrite Hb; apply Hr]. exists ch. split.
  - apply Forall2_same_length_lookup. split; [by eapply list.Forall2_length |]. intros b i l Hi Hl.
    apply (linked_ext next); [by eapply Forall2_lookup_lr |]. intros j Hj. apply Hn. exists (Z.of_nat b). by apply (Hch b l Hl).
  - intros b l Hl i. rewrite Hb. by apply Hch.
Qed.

(** The chain of one bucket changes. *)
Lemma table_update next next' heads heads' bucket bucket' b i' l' : table next heads bucket ->
  zupd heads b i' = Some heads' -> linked next' i' l' -> (forall x, x ∈ l' <-> bucket' x = Some b) ->
  (forall x c, bucket x = Some c -> c <> b -> next' x = next x) ->
  (forall x c, c <> b -> bucket' x = Some c <-> bucket x = Some c) -> table next' heads' bucket'.
Proof.
  intros [(ch & H2 & Hch) Hr] Hu Hl Hm Hn Hb. apply zupd_Some in Hu as [Hlt ->]. split.
  - exists (<[Z.to_nat b := l']> ch). pose proof (list.Forall2_length _ _ _ H2) as Hlen. split.
    + apply Forall2_same_length_lookup. split; [by rewrite !length_insert |]. intros c i l Hi Hc.
      destruct (decide (Z.to_nat b = c)) as [<- | D].
      * rewrite list_lookup_insert_eq in Hi by (unfold zlen in Hlt; lia).
        rewrite list_lookup_insert_eq in Hc by (unfold zlen in Hlt; lia). injection Hi as <-. by injection Hc as <-.
      * rewrite list_lookup_insert_ne in Hi by done. rewrite list_lookup_insert_ne in Hc by done. apply (linked_ext next); [by eapply Forall2_lookup_lr |].
        intros j Hj. apply (Hn j (Z.of_nat c)); [by apply (Hch c l Hc) | lia].
    + intros c l Hc x. destruct (decide (Z.to_nat b = c)) as [<- | D].
      * rewrite list_lookup_insert_eq in Hc by (unfold zlen in Hlt; lia). injection Hc as <-. rewrite Hm. by rewrite Z2Nat.id by lia.
      * rewrite list_lookup_insert_ne in Hc by done. rewrite Hb by lia. by apply Hch.
  - intros x c Hx. rewrite zlen_insert. destruct (decide (c = b)) as [-> | D]; [done |]. apply (Hr x c). by apply Hb.
Qed.

(** A node comes first in its chain. *)
Lemma table_push next next' heads heads' bucket bucket' b x first : table next heads bucket -> x <> 0 ->
  bucket x = None -> znth heads b = Some first -> zupd heads b x = Some heads' -> next' x = Some first ->
  (forall y, is_Some (bucket y) -> next' y = next y) -> bucket' x = Some b ->
  (forall y, y <> x -> bucket' y = bucket y) -> table next' heads' bucket'.
Proof.
  intros T Hx Hnone Hf Hu Hnx Hn Hbx Hb. pose proof (znth_lt_Some _ _ _ Hf) as Hlt.
  destruct (table_chain _ _ _ b T Hlt) as (i & l & Hi & Hl & Hm). assert (i = first) as -> by congruence.
  assert (forall y, y ∈ l -> y <> x) as Hne by (intros y Hy ->; apply Hm in Hy; congruence).
  apply (table_update next next' heads heads' bucket bucket' b x (x :: l) T Hu).
  - cbn. split_and!; [done | done |]. exists first. split; [done |]. apply (linked_ext next); [done |].
    intros y Hy. apply Hn. exists b. by apply Hm.
  - intros y. rewrite elem_of_cons. destruct (decide (y = x)) as [-> | D]; [by rewrite Hbx; split; [| left] |].
    rewrite Hb, Hm by done. split; [by intros [-> | ?] | by right].
  - intros y c Hy _. apply Hn. by exists c.
  - intros y c Hc. destruct (decide (y = x)) as [-> | D]; [rewrite Hbx, Hnone; split; [congruence | done] | by rewrite Hb].
Qed.

(** The first node leaves its chain. *)
Lemma table_pop next next' heads heads' bucket bucket' b x k : table next heads bucket -> znth heads b = Some x ->
  bucket x = Some b -> next x = Some k -> zupd heads b k = Some heads' -> (forall y, y <> x -> next' y = next y) ->
  bucket' x = None -> (forall y, y <> x -> bucket' y = bucket y) -> table next' heads' bucket'.
Proof.
  intros T Hh Hbx Hk Hu Hn Hx Hb. pose proof (znth_lt_Some _ _ _ Hh) as Hlt.
  destruct (table_chain _ _ _ b T Hlt) as (i & l & Hi & Hl & Hm). assert (i = x) as -> by congruence.
  assert (x ∈ l) as Hin by (by apply Hm). destruct l as [| y l]; [by apply not_elem_of_nil in Hin |].
  pose proof (linked_nodup _ _ _ Hl) as Hnd. apply list.NoDup_cons in Hnd as [Hnx Hnd].
  destruct Hl as (<- & H0 & k' & Hk' & Hl). assert (k' = k) as -> by congruence.
  apply (table_update next next' heads heads' bucket bucket' b k l T Hu).
  - apply (linked_ext next); [done |]. intros y Hy. apply Hn. by intros ->.
  - intros y. destruct (decide (y = x)) as [-> | D]; [rewrite Hx; split; done |]. rewrite Hb, <- Hm, elem_of_cons by done.
    split; [by right | by intros [? | ?]].
  - intros y c Hy Hc. apply Hn. intros ->. congruence.
  - intros y c Hc. destruct (decide (y = x)) as [-> | D]; [rewrite Hx, Hbx; split; [done | congruence] | by rewrite Hb].
Qed.

(** The node after [y] leaves its chain. *)
Lemma table_skip next next' heads bucket bucket' b x y i l1 l2 k : table next heads bucket -> znth heads b = Some i ->
  linked next i (l1 ++ y :: x :: l2) -> bucket x = Some b -> next x = Some k -> next' y = Some k ->
  (forall z, z <> y -> z <> x -> next' z = next z) -> bucket' x = None -> (forall z, z <> x -> bucket' z = bucket z) ->
  table next' heads bucket'.
Proof.
  intros T Hh Hl Hbx Hk Hny Hn Hx Hb. pose proof (znth_lt_Some _ _ _ Hh) as Hlt.
  destruct (table_chain _ _ _ b T Hlt) as (i' & l & Hi & Hl' & Hm). assert (i' = i) as -> by congruence.
  assert (l = l1 ++ y :: x :: l2) as -> by (by eapply linked_det).
  pose proof (linked_nodup _ _ _ Hl) as Hnd.
  assert (y <> x /\ x ∉ l1 ++ y :: l2) as [Hyx Hxl].
  { apply list.NoDup_app in Hnd as (_ & H1 & H2). apply list.NoDup_cons in H2 as [H2 H3].
    apply list.NoDup_cons in H3 as [H3 _]. assert (y <> x) as D by (intros ->; apply H2; by left). split; [done |].
    rewrite elem_of_app, elem_of_cons. intros [H | [H | H]]; [| congruence | done]. apply (H1 x H). right. by left. }
  assert (zupd heads b i = Some heads) as Hu.
  { apply zupd_Some. split; [lia |]. symmetry. apply list_insert_id. by apply znth_Some in Hi as [_ ?]. }
  apply (table_update next next' heads heads bucket bucket' b i (l1 ++ y :: l2) T Hu).
  - set (next2 := fun z => if decide (z = x) then next x else next' z).
    apply (linked_ext next2).
    + apply (linked_remove next next2 y x k l2 l1 i Hl Hk).
      * unfold next2. by rewrite decide_False.
      * intros z Hz. unfold next2. case_decide; [by subst | by apply Hn].
    + intros z Hz. unfold next2. rewrite decide_False; [done |]. by intros ->.
  - intros z. destruct (decide (z = x)) as [-> | D]; [rewrite Hx; split; done |]. rewrite Hb, <- Hm by done.
    rewrite !elem_of_app, !elem_of_cons. tauto.
  - intros z c Hz Hc. apply Hn; intros ->; [| congruence].
    assert (bucket y = Some b); [| congruence]. apply Hm. apply elem_of_app. right. by left.
  - intros z c Hc. destruct (decide (z = x)) as [-> | D]; [rewrite Hx, Hbx; split; [done | congruence] | by rewrite Hb].
Qed.

(** All the nodes, without repetition. *)
Lemma table_nodes next heads bucket : table next heads bucket -> exists ch, Forall2 (linked next) heads ch /\
  NoDup (concat ch) /\ forall x, x ∈ concat ch <-> is_Some (bucket x).
Proof.
  intros [(ch & H2 & Hch) Hr]. exists ch. split; [done |]. split.
  - apply nodup_concat.
    + intros b l Hb. destruct (Forall2_lookup_r _ _ _ _ _ H2 Hb) as (i & _ & Hl). by eapply linked_nodup.
    + intros a b l m i Ha Hb Hi Hj. apply (Hch a l Ha) in Hi. apply (Hch b m Hb) in Hj. rewrite Hi in Hj. injection Hj as E. lia.
  - intros x. rewrite elem_of_concat. split.
    + intros (b & l & Hb & Hx). exists (Z.of_nat b). by apply (Hch b l Hb).
    + intros [b Hb]. pose proof (Hr x b Hb) as Hlt. pose proof (list.Forall2_length _ _ _ H2) as Hlen.
      destruct (lookup_lt_is_Some_2 ch (Z.to_nat b)) as [l Hl]; [unfold zlen in Hlt; lia |].
      exists (Z.to_nat b), l. split; [done |]. apply (Hch _ l Hl). rewrite Hb. f_equal. lia.
Qed.
End tables.
