(* ===== verification/Gc.v ===== *)
(** * quickjs.c: reference counting and the cycle collector

    The heap maps the address of a GC object to its header and to the fields
    that hold references.  A [JSValue] matters only when it points to a GC
    object, so a value is an [option] of an address.  Freed memory is absent
    from the heap: an access to it is a [Fault].

    The lists [gc_obj_list], [tmp_obj_list] and [gc_zero_ref_count_list] of the
    runtime link the objects through one field, so an object is in at most one
    of them, and [list_del] takes it out of the one it is in. *)
From Stdlib Require Import ZArith Lia Bool.
From stdpp Require Import base numbers list gmap.
From S2P Require Import Prelude ListHead.

Abbreviation id := Z (only parsing).

(** ** Objects *)
Inductive JSProperty : Type :=
| PROP_NULL                                      (** a deleted property: [JS_ATOM_NULL] *)
| PROP_VALUE (value : option id)
| PROP_GETSET (getter setter : option id)
| PROP_VARREF (var_ref : id)
| PROP_AUTOINIT (realm : id).

(** The frame of a suspended generator or async function: the open variable
    references on its [var_ref_list], each with the variable it points to, and
    its values, of which [frame_stack] are those from [arg_buf] to [cur_sp]. *)
Record JSAsyncFunctionState : Type := mkFrame {
  var_ref_list : list (id * option id);
  cur_func : option id;
  this_val : option id;
  frame_stack : list (option id)
}.

Inductive content : Type :=
(** [class_refs]: the objects [gc_mark] of the class marks, and its finalizer
    releases, apart from a suspended frame and the records of a WeakMap or
    WeakSet.  [first_weak_ref]: the records of which the object is the key;
    [records]: those of the WeakMap or WeakSet it is, [NULL] for another class.
    [shape] is NULL after [free_object]. *)
| JS_OBJECT (shape : option id) (prop : list JSProperty) (class_refs : list id)
            (func_state : option JSAsyncFunctionState) (first_weak_ref records : list Z)
| FUNCTION_BYTECODE (cpool : list (option id)) (realm : option id)
(** While it is not detached the value is a variable of a frame. *)
| VAR_REF (is_detached : bool) (value : option id)
| ASYNC_FUNCTION (func_state : option JSAsyncFunctionState) (resolving_funcs : list (option id))
| SHAPE (proto : option id)
| JS_CONTEXT (values : list (option id)) (array_shape : option id).

Record JSGCObjectHeader : Type := mkObj {
  ref_count : Z;
  mark : Z;
  obj : content
}.

(** A [JSMapRecord] of a WeakMap or WeakSet; it does not count as a reference
    to its key. *)
Record WeakRecord : Type := mkWeak {
  weak_map : id;
  weak_key : id;
  weak_value : option id
}.

Inductive JSGCPhaseEnum : Type := JS_GC_PHASE_NONE | JS_GC_PHASE_DECREF | JS_GC_PHASE_REMOVE_CYCLES.
#[export] Instance JSGCPhaseEnum_eq_dec : EqDecision JSGCPhaseEnum.
Proof. solve_decision. Defined.

Record JSRuntime : Type := mkRT {
  heap : gmap id JSGCObjectHeader;
  gc_obj_list : list id;
  tmp_obj_list : list id;
  gc_zero_ref_count_list : list id;
  gc_phase : JSGCPhaseEnum;
  weak_records : gmap Z WeakRecord                 (** the memory of the records *)
}.

Definition set_heap (rt : JSRuntime) h : JSRuntime :=
  mkRT h (gc_obj_list rt) (tmp_obj_list rt) (gc_zero_ref_count_list rt) (gc_phase rt) (weak_records rt).
Definition set_gc_obj_list (rt : JSRuntime) l : JSRuntime :=
  mkRT (heap rt) l (tmp_obj_list rt) (gc_zero_ref_count_list rt) (gc_phase rt) (weak_records rt).
Definition set_tmp_obj_list (rt : JSRuntime) l : JSRuntime :=
  mkRT (heap rt) (gc_obj_list rt) l (gc_zero_ref_count_list rt) (gc_phase rt) (weak_records rt).
Definition set_zero_list (rt : JSRuntime) l : JSRuntime :=
  mkRT (heap rt) (gc_obj_list rt) (tmp_obj_list rt) l (gc_phase rt) (weak_records rt).
Definition set_gc_phase (rt : JSRuntime) ph : JSRuntime :=
  mkRT (heap rt) (gc_obj_list rt) (tmp_obj_list rt) (gc_zero_ref_count_list rt) ph (weak_records rt).
Definition set_weak_records (rt : JSRuntime) w : JSRuntime :=
  mkRT (heap rt) (gc_obj_list rt) (tmp_obj_list rt) (gc_zero_ref_count_list rt) (gc_phase rt) w.

Definition get_obj (rt : JSRuntime) (p : id) : res JSGCObjectHeader := of_opt (heap rt !! p).
Definition put_obj (rt : JSRuntime) (p : id) (o : JSGCObjectHeader) : JSRuntime :=
  set_heap rt (<[p := o]> (heap rt)).

Definition set_ref_count (o : JSGCObjectHeader) n : JSGCObjectHeader := mkObj n (mark o) (obj o).
Definition set_mark (o : JSGCObjectHeader) n : JSGCObjectHeader := mkObj (ref_count o) n (obj o).
Definition set_obj (o : JSGCObjectHeader) c : JSGCObjectHeader := mkObj (ref_count o) (mark o) c.

(** ** Lists *)
Definition list_del (rt : JSRuntime) (p : id) : JSRuntime :=
  mkRT (heap rt) (remove_id p (gc_obj_list rt)) (remove_id p (tmp_obj_list rt))
    (remove_id p (gc_zero_ref_count_list rt)) (gc_phase rt) (weak_records rt).

Definition add_gc_object (rt : JSRuntime) (p : id) : res JSRuntime :=
  o ← get_obj rt p;
  let rt := put_obj rt p (set_mark o 0) in
  Ret (set_gc_obj_list rt (gc_obj_list rt ++ [p])).

(** ** Marking *)
Definition opt_ref (v : option id) : list id := match v with Some p => [p] | None => [] end.
Definition opt_refs (vs : list (option id)) : list id := flat_map opt_ref vs.

(** A variable reference is passed to [mark_func] only when it is detached. *)
Definition mark_ref (rt : JSRuntime) (p : id) : res (list id) :=
  o ← get_obj rt p;
  match obj o with VAR_REF false _ => Ret [] | _ => Ret [p] end.
Fixpoint mark_refs (rt : JSRuntime) (ps : list id) : res (list id) :=
  match ps with
  | [] => Ret []
  | p :: ps => a ← mark_ref rt p; b ← mark_refs rt ps; Ret (a ++ b)
  end.

Definition property_refs (rt : JSRuntime) (pr : JSProperty) : res (list id) :=
  match pr with
  | PROP_NULL => Ret []
  | PROP_VALUE v => Ret (opt_ref v)
  | PROP_GETSET g s => Ret (opt_ref g ++ opt_ref s)
  | PROP_VARREF p => mark_ref rt p
  | PROP_AUTOINIT realm => Ret [realm]
  end.
Fixpoint properties_refs (rt : JSRuntime) (prs : list JSProperty) : res (list id) :=
  match prs with
  | [] => Ret []
  | pr :: prs => a ← property_refs rt pr; b ← properties_refs rt prs; Ret (a ++ b)
  end.

Definition async_func_mark (s : option JSAsyncFunctionState) : list id :=
  match s with
  | Some f => opt_ref (cur_func f) ++ opt_ref (this_val f) ++ opt_refs (frame_stack f)
  | None => []
  end.

(** [js_map_mark] of a WeakMap: the values, not the keys. *)
Fixpoint records_refs (rt : JSRuntime) (l : list Z) : res (list id) :=
  match l with
  | [] => Ret []
  | i :: l => r ← of_opt (weak_records rt !! i); b ← records_refs rt l; Ret (opt_ref (weak_value r) ++ b)
  end.

(** The objects [mark_children] passes to [mark_func], in order. *)
Definition children (rt : JSRuntime) (c : content) : res (list id) :=
  match c with
  | JS_OBJECT shape prop class_refs func_state _ records =>
      a ← properties_refs rt prop;
      b ← mark_refs rt class_refs;
      c ← records_refs rt records;
      Ret (opt_ref shape ++ a ++ b ++ c ++ async_func_mark func_state)
  | FUNCTION_BYTECODE cpool realm => Ret (opt_refs cpool ++ opt_ref realm)
  | VAR_REF is_detached value => _ ← assert_ is_detached; Ret (opt_ref value)
  | ASYNC_FUNCTION func_state resolving_funcs =>
      Ret (async_func_mark func_state ++ opt_refs resolving_funcs)
  | SHAPE proto => Ret (opt_ref proto)
  | JS_CONTEXT values array_shape => Ret (opt_refs values ++ opt_ref array_shape)
  end.

Fixpoint for_children (f : JSRuntime -> id -> res JSRuntime) (rt : JSRuntime) (ps : list id)
  : res JSRuntime :=
  match ps with
  | [] => Ret rt
  | p :: ps => rt ← f rt p; for_children f rt ps
  end.

Definition mark_children (f : JSRuntime -> id -> res JSRuntime) (rt : JSRuntime) (p : id)
  : res JSRuntime :=
  o ← get_obj rt p;
  ps ← children rt (obj o);
  for_children f rt ps.

(** ** The three phases of a collection *)
Definition gc_decref_child (rt : JSRuntime) (p : id) : res JSRuntime :=
  o ← get_obj rt p;
  _ ← assert_ (0 <? ref_count o);
  let o := set_ref_count o (ref_count o - 1) in
  let rt := put_obj rt p o in
  if (ref_count o =? 0) && (mark o =? 1) then
    let rt := list_del rt p in
    Ret (set_tmp_obj_list rt (tmp_obj_list rt ++ [p]))
  else Ret rt.

(** The body of the loop of [gc_decref]. *)
Definition gc_decref_object (rt : JSRuntime) (p : id) : res JSRuntime :=
  o ← get_obj rt p;
  _ ← assert_ (mark o =? 0);
  rt ← mark_children gc_decref_child rt p;
  o ← get_obj rt p;
  let rt := put_obj rt p (set_mark o 1) in
  if ref_count o =? 0 then
    let rt := list_del rt p in
    Ret (set_tmp_obj_list rt (tmp_obj_list rt ++ [p]))
  else Ret rt.

(** [list_for_each_safe(el, el1, &rt->gc_obj_list)] *)
Fixpoint gc_decref_loop (fuel : nat) (rt : JSRuntime) (el el1 : option id) : res JSRuntime :=
  match fuel with
  | O => NoFuel
  | S fuel =>
      match el with
      | None => Ret rt
      | Some p =>
          rt ← gc_decref_object rt p;
          el2 ← list_next (gc_obj_list rt) el1;
          gc_decref_loop fuel rt el1 el2
      end
  end.

(** Enough iterations for every object. *)
Definition gc_fuel (rt : JSRuntime) : nat := S (size (heap rt)).

Definition gc_decref (rt : JSRuntime) : res JSRuntime :=
  let rt := set_tmp_obj_list rt [] in
  el ← list_next (gc_obj_list rt) None;
  el1 ← list_next (gc_obj_list rt) el;
  gc_decref_loop (gc_fuel rt) rt el el1.

Definition gc_scan_incref_child (rt : JSRuntime) (p : id) : res JSRuntime :=
  o ← get_obj rt p;
  let o := set_ref_count o (ref_count o + 1) in
  if ref_count o =? 1 then
    (* ref_count was 0: remove from tmp_obj_list and add at the end of
       gc_obj_list; reset the mark for the next GC call *)
    let rt := list_del (put_obj rt p (set_mark o 0)) p in
    Ret (set_gc_obj_list rt (gc_obj_list rt ++ [p]))
  else Ret (put_obj rt p o).

Definition gc_scan_incref_child2 (rt : JSRuntime) (p : id) : res JSRuntime :=
  o ← get_obj rt p; Ret (put_obj rt p (set_ref_count o (ref_count o + 1))).

(** [list_for_each(el, &rt->gc_obj_list)]: the list grows while it is walked. *)
Fixpoint gc_scan_loop (fuel : nat) (rt : JSRuntime) (el : option id) : res JSRuntime :=
  match fuel with
  | O => NoFuel
  | S fuel =>
      match el with
      | None => Ret rt
      | Some p =>
          o ← get_obj rt p;
          _ ← assert_ (0 <? ref_count o);
          let rt := put_obj rt p (set_mark o 0) in
          rt ← mark_children gc_scan_incref_child rt p;
          el ← list_next (gc_obj_list rt) el;
          gc_scan_loop fuel rt el
      end
  end.

Fixpoint gc_restore_loop (rt : JSRuntime) (l : list id) : res JSRuntime :=
  match l with
  | [] => Ret rt
  | p :: l => rt ← mark_children gc_scan_incref_child2 rt p; gc_restore_loop rt l
  end.

Definition gc_scan (rt : JSRuntime) : res JSRuntime :=
  el ← list_next (gc_obj_list rt) None;
  rt ← gc_scan_loop (gc_fuel rt) rt el;
  (* restore the refcount of the objects to be deleted *)
  gc_restore_loop rt (tmp_obj_list rt).

(** ** Releasing references *)

(** [js_free_rt] *)
Definition free_memory (rt : JSRuntime) (p : id) : JSRuntime := set_heap rt (delete p (heap rt)).

Definition JS_DupValueRT (rt : JSRuntime) (v : option id) : res JSRuntime :=
  match v with
  | None => Ret rt
  | Some p => o ← get_obj rt p; Ret (put_obj rt p (set_ref_count o (ref_count o + 1)))
  end.

(** The open variable references get their own copy of the variable, and
    become GC objects. *)
Fixpoint close_var_refs (rt : JSRuntime) (refs : list (id * option id)) : res JSRuntime :=
  match refs with
  | [] => Ret rt
  | (r, v) :: refs =>
      rt ← JS_DupValueRT rt v;
      o ← get_obj rt r;
      rt ← add_gc_object (put_obj rt r (set_obj o (VAR_REF true v))) r;
      close_var_refs rt refs
  end.

(** [list_del(&var_ref->header.link)] of an open variable reference: it leaves
    the [var_ref_list] of its frame. *)
Definition drop_open_ref (r : id) (s : option JSAsyncFunctionState) : option JSAsyncFunctionState :=
  match s with
  | Some f => Some (mkFrame (filter (fun x => x.1 <> r) (var_ref_list f)) (cur_func f) (this_val f) (frame_stack f))
  | None => None
  end.
Definition drop_open (r : id) (c : content) : content :=
  match c with
  | JS_OBJECT sh pr cr fs fw rs => JS_OBJECT sh pr cr (drop_open_ref r fs) fw rs
  | ASYNC_FUNCTION fs rf => ASYNC_FUNCTION (drop_open_ref r fs) rf
  | _ => c
  end.
Definition unlink_open_ref (rt : JSRuntime) (r : id) : JSRuntime :=
  set_heap rt ((fun o => set_obj o (drop_open r (obj o))) <$> heap rt).

Definition is_value_object (c : content) : bool :=
  match c with JS_OBJECT _ _ _ _ _ _ | FUNCTION_BYTECODE _ _ => true | _ => false end.

(** [__JS_FreeValueRT] of an object or a function, except that
    [free_zero_refcount] is called by [JS_FreeValueRT] below. *)
Definition free_value_zero (rt : JSRuntime) (p : id) : JSRuntime :=
  match gc_phase rt with
  | JS_GC_PHASE_REMOVE_CYCLES => rt
  | _ => let rt := list_del rt p in
         set_zero_list rt (p :: gc_zero_ref_count_list rt)
  end.

(** The order in which [async_func_free] releases the values. *)
Definition frame_owned (s : option JSAsyncFunctionState) : list id :=
  match s with
  | Some f => opt_refs (frame_stack f) ++ opt_ref (cur_func f) ++ opt_ref (this_val f)
  | None => []
  end.
Definition async_func_free (rel : JSRuntime -> id -> res JSRuntime) (rt : JSRuntime)
    (s : option JSAsyncFunctionState) : res JSRuntime :=
  match s with
  | None => Ret rt
  | Some f =>
      rt ← close_var_refs rt (var_ref_list f);
      for_children rel rt (frame_owned s)
  end.

(** What is done when the count of [p] has reached 0; [rel] releases the
    references of its fields. *)
Section zero_count.
Variable rel : JSRuntime -> id -> res JSRuntime.

Definition free_var_ref (rt : JSRuntime) (p : id) (is_detached : bool) (value : option id)
  : res JSRuntime :=
  rt ← (if is_detached then
          rt ← for_children rel rt (opt_ref value);
          Ret (list_del rt p)
        else Ret (unlink_open_ref rt p));   (* still on the stack *)
  Ret (free_memory rt p).

Definition js_free_shape0 (rt : JSRuntime) (p : id) (proto : option id) : res JSRuntime :=
  rt ← for_children rel rt (opt_ref proto);
  Ret (free_memory (list_del rt p) p).

Definition js_async_function_free0 (rt : JSRuntime) (p : id)
    (func_state : option JSAsyncFunctionState) (resolving_funcs : list (option id)) : res JSRuntime :=
  rt ← async_func_free rel rt func_state;
  rt ← for_children rel rt (opt_refs resolving_funcs);
  Ret (free_memory (list_del rt p) p).

Definition JS_FreeContext (rt : JSRuntime) (p : id) (values : list (option id))
    (array_shape : option id) : res JSRuntime :=
  rt ← for_children rel rt (opt_refs values);
  rt ← for_children rel rt (opt_ref array_shape);
  Ret (free_memory (list_del rt p) p).
End zero_count.

(** Give up one reference to [p]: [JS_FreeValueRT], [js_free_shape],
    [free_var_ref], [js_async_function_free] or [JS_FreeContext], according to
    the type of [p]. *)
Fixpoint release (fuel : nat) (rt : JSRuntime) (p : id) : res JSRuntime :=
  match fuel with
  | O => NoFuel
  | S fuel =>
      o ← get_obj rt p;
      let o := set_ref_count o (ref_count o - 1) in
      let rt := put_obj rt p o in
      if 0 <? ref_count o then Ret rt
      else
        match obj o with
        | JS_OBJECT _ _ _ _ _ _ | FUNCTION_BYTECODE _ _ => Ret (free_value_zero rt p)
        | VAR_REF is_detached value => free_var_ref (release fuel) rt p is_detached value
        | SHAPE proto => js_free_shape0 (release fuel) rt p proto
        | ASYNC_FUNCTION func_state resolving_funcs =>
            js_async_function_free0 (release fuel) rt p func_state resolving_funcs
        | JS_CONTEXT values array_shape => JS_FreeContext (release fuel) rt p values array_shape
        end
  end.

(** Objects own contexts, which own shapes: three levels. *)
Definition release_fuel : nat := 3.

(** [free_property] *)
Definition property_owned (pr : JSProperty) : list id :=
  match pr with
  | PROP_NULL => []
  | PROP_VALUE v => opt_ref v
  | PROP_GETSET g s => opt_ref g ++ opt_ref s
  | PROP_VARREF p => [p]
  | PROP_AUTOINIT realm => [realm]
  end.

(** The end of [free_object] and [free_function_bytecode]: the memory of an
    object that is still referenced by other garbage is kept. *)
Definition finish_free (rt : JSRuntime) (p : id) (empty : content) : res JSRuntime :=
  let rt := list_del rt p in
  o ← get_obj rt p;
  match gc_phase rt with
  | JS_GC_PHASE_REMOVE_CYCLES =>
      if negb (ref_count o =? 0) then
        let rt := put_obj rt p (set_obj o empty) in
        Ret (set_zero_list rt (gc_zero_ref_count_list rt ++ [p]))
      else Ret (free_memory rt p)
  | _ => Ret (free_memory rt p)
  end.

(** ** Weak references *)

(** [list_del(&mr->link)]: the record leaves its map. *)
Definition unlink_record (rt : JSRuntime) (i : Z) : res JSRuntime :=
  r ← of_opt (weak_records rt !! i);
  o ← get_obj rt (weak_map r);
  match obj o with
  | JS_OBJECT sh pr cr fs fw records =>
      Ret (put_obj rt (weak_map r) (set_obj o (JS_OBJECT sh pr cr fs fw (remove_id i records))))
  | _ => Fault
  end.

(** [JS_FreeValueRT(rt, mr->value); js_free_rt(rt, mr);] *)
Definition free_record (rt : JSRuntime) (i : Z) : res JSRuntime :=
  r ← of_opt (weak_records rt !! i);
  rt ← for_children (release release_fuel) rt (opt_ref (weak_value r));
  Ret (set_weak_records rt (delete i (weak_records rt))).

(** The two passes over the records of which [p] is the key. *)
Definition reset_weak_ref (rt : JSRuntime) (p : id) : res JSRuntime :=
  o ← get_obj rt p;
  match obj o with
  | JS_OBJECT _ _ _ _ fw _ =>
      rt ← for_children unlink_record rt fw;
      rt ← for_children free_record rt fw;
      o ← get_obj rt p;
      match obj o with
      | JS_OBJECT sh pr cr fs _ records => Ret (put_obj rt p (set_obj o (JS_OBJECT sh pr cr fs [] records)))
      | _ => Fault
      end
  | _ => Fault
  end.

(** The record leaves the list of its key. *)
Definition delete_weak_ref (rt : JSRuntime) (i : Z) : res JSRuntime :=
  r ← of_opt (weak_records rt !! i);
  o ← get_obj rt (weak_key r);
  match obj o with
  | JS_OBJECT sh pr cr fs fw records =>
      _ ← assert_ (bool_decide (i ∈ fw));
      Ret (put_obj rt (weak_key r) (set_obj o (JS_OBJECT sh pr cr fs (remove_id i fw) records)))
  | _ => Fault
  end.

(** [js_map_finalizer] of a WeakMap or WeakSet. *)
Definition free_weak_map (rt : JSRuntime) (records : list Z) : res JSRuntime :=
  for_children (fun rt i => rt ← delete_weak_ref rt i; free_record rt i) rt records.

(** Not modelled: [free_mark], which tells a Map iterator whether its map, and
    so the record it holds, is still there. *)
Definition free_object (rt : JSRuntime) (p : id) (shape : option id) (prop : list JSProperty)
    (class_refs : list id) : res JSRuntime :=
  rt ← for_children (release release_fuel) rt (flat_map property_owned prop);
  rt ← for_children (release release_fuel) rt (opt_ref shape);
  o ← get_obj rt p;
  rt ← match obj o with
       | JS_OBJECT _ _ _ _ [] _ => Ret rt
       | _ => reset_weak_ref rt p
       end;
  (* the finalizer of the class *)
  rt ← for_children (release release_fuel) rt class_refs;
  o ← get_obj rt p;
  rt ← match obj o with
       | JS_OBJECT _ _ _ func_state _ records =>
           rt ← free_weak_map rt records;
           async_func_free (release release_fuel) rt func_state
       | _ => Fault
       end;
  finish_free rt p (JS_OBJECT None [] [] None [] []).

Definition free_function_bytecode (rt : JSRuntime) (p : id) (cpool : list (option id))
    (realm : option id) : res JSRuntime :=
  rt ← for_children (release release_fuel) rt (opt_refs cpool);
  rt ← for_children (release release_fuel) rt (opt_ref realm);
  finish_free rt p (FUNCTION_BYTECODE [] None).

Definition free_gc_object (rt : JSRuntime) (p : id) : res JSRuntime :=
  o ← get_obj rt p;
  match obj o with
  | JS_OBJECT shape prop class_refs _ _ _ => free_object rt p shape prop class_refs
  | FUNCTION_BYTECODE cpool realm => free_function_bytecode rt p cpool realm
  | _ => Fault
  end.

(** ** Plain reference counting *)
Fixpoint free_zero_loop (fuel : nat) (rt : JSRuntime) : res JSRuntime :=
  match fuel with
  | O => NoFuel
  | S fuel =>
      match gc_zero_ref_count_list rt with
      | [] => Ret rt
      | p :: _ =>
          o ← get_obj rt p;
          _ ← assert_ (ref_count o =? 0);
          rt ← free_gc_object rt p;
          free_zero_loop fuel rt
      end
  end.

Definition free_zero_refcount (rt : JSRuntime) : res JSRuntime :=
  rt ← free_zero_loop (gc_fuel rt) (set_gc_phase rt JS_GC_PHASE_DECREF);
  Ret (set_gc_phase rt JS_GC_PHASE_NONE).

(** Between collections, for an object or a function. *)
Definition JS_FreeValueRT (rt : JSRuntime) (p : id) : res JSRuntime :=
  rt ← release release_fuel rt p;
  match gc_zero_ref_count_list rt with
  | [] => Ret rt
  | _ => free_zero_refcount rt
  end.

(** ** Freeing the cycles *)
Fixpoint free_cycles_loop (fuel : nat) (rt : JSRuntime) : res JSRuntime :=
  match fuel with
  | O => NoFuel
  | S fuel =>
      match tmp_obj_list rt with
      | [] => Ret rt
      | p :: _ =>
          o ← get_obj rt p;
          rt ← (if is_value_object (obj o) then free_gc_object rt p
                else let rt := list_del rt p in
                     Ret (set_zero_list rt (gc_zero_ref_count_list rt ++ [p])));
          free_cycles_loop fuel rt
      end
  end.

Fixpoint free_memory_loop (rt : JSRuntime) (l : list id) : res JSRuntime :=
  match l with
  | [] => Ret rt
  | p :: l =>
      o ← get_obj rt p;
      _ ← assert_ (is_value_object (obj o));
      free_memory_loop (free_memory rt p) l
  end.

Definition gc_free_cycles (rt : JSRuntime) : res JSRuntime :=
  rt ← free_cycles_loop (gc_fuel rt) (set_gc_phase rt JS_GC_PHASE_REMOVE_CYCLES);
  let rt := set_gc_phase rt JS_GC_PHASE_NONE in
  rt ← free_memory_loop rt (gc_zero_ref_count_list rt);
  Ret (set_zero_list rt []).

Definition JS_RunGC (rt : JSRuntime) : res JSRuntime :=
  rt ← gc_decref rt;
  rt ← gc_scan rt;
  gc_free_cycles rt.

(** ** Examples: a garbage cycle next to a reachable object *)
Definition cycle_heap : JSRuntime :=
  mkRT (list_to_map [
      (1, mkObj 1 0 (JS_OBJECT (Some 4) [PROP_VALUE (Some 2)] [] None [] []));
      (2, mkObj 1 0 (JS_OBJECT (Some 4) [PROP_VALUE (Some 1); PROP_VALUE (Some 3)] [] None [] []));
      (3, mkObj 2 0 (JS_OBJECT (Some 4) [] [] None [] []));
      (4, mkObj 3 0 (SHAPE None))])
    [4; 1; 2; 3] [] [] JS_GC_PHASE_NONE ∅.

Example run_cycle :
  JS_RunGC cycle_heap =
  Ret (mkRT (list_to_map [
      (3, mkObj 1 0 (JS_OBJECT (Some 4) [] [] None [] []));
      (4, mkObj 1 0 (SHAPE None))])
    [3; 4] [] [] JS_GC_PHASE_NONE ∅).
Proof. vm_compute. reflexivity. Qed.
