(* ===== verification/GcFacts.v ===== *)
(** * quickjs.c: the cycle collector keeps exactly the reachable objects *)
From Stdlib Require Import ZArith Lia Bool Permutation.
From stdpp Require Import base numbers list gmap.
From S2P Require Import Prelude ListHead Gc.


(** ** Well-formed contents *)

(** The references an object owns. *)
Definition kids (c : content) : list Z :=
  match c with
  | JS_OBJECT shape prop class_refs func_state _ _ =>
      opt_ref shape ++ flat_map property_owned prop ++ class_refs ++ async_func_mark func_state
  | FUNCTION_BYTECODE cpool realm => opt_refs cpool ++ opt_ref realm
  | VAR_REF _ value => opt_ref value
  | ASYNC_FUNCTION func_state resolving_funcs =>
      async_func_mark func_state ++ opt_refs resolving_funcs
  | SHAPE proto => opt_ref proto
  | JS_CONTEXT values array_shape => opt_refs values ++ opt_ref array_shape
  end.

(** No variable of a suspended frame is shared with a closure, and no object
    is the key of a record of a WeakMap or WeakSet. *)
Definition frame_closed (s : option JSAsyncFunctionState) : bool :=
  match s with Some f => if var_ref_list f then true else false | None => true end.
Definition closed (c : content) : bool :=
  match c with
  | JS_OBJECT _ _ _ s [] [] => frame_closed s
  | JS_OBJECT _ _ _ _ _ _ => false
  | ASYNC_FUNCTION s _ => frame_closed s
  | VAR_REF is_detached _ => is_detached
  | _ => true
  end.

(** The references an object that is not a value releases, in order. *)
Definition released (c : content) : list Z :=
  match c with
  | ASYNC_FUNCTION func_state resolving_funcs => frame_owned func_state ++ opt_refs resolving_funcs
  | _ => kids c
  end.

Lemma frame_owned_perm s : frame_owned s ≡ₚ async_func_mark s.
Proof. destruct s as [f |]; [| done]. cbn. rewrite Permutation_app_comm, <- app_assoc. done. Qed.
Lemma released_perm c : released c ≡ₚ kids c.
Proof. destruct c; try done. cbn. by rewrite frame_owned_perm. Qed.

(** How deep [release] goes: it stops at objects and functions. *)
Definition level (c : content) : Z :=
  match c with
  | JS_OBJECT _ _ _ _ _ _ | FUNCTION_BYTECODE _ _ => 0
  | SHAPE _ | VAR_REF _ _ | ASYNC_FUNCTION _ _ => 1
  | JS_CONTEXT _ _ => 2
  end.

Lemma level_value c : is_value_object c = (level c =? 0).
Proof. by destruct c. Qed.
Lemma level_range c : 0 <= level c <= 2.
Proof. destruct c; cbn; lia. Qed.

Lemma children_closed rt c :
  closed c = true -> (forall p o, heap rt !! p = Some o -> closed (obj o) = true) ->
  (forall p, p ∈ kids c -> is_Some (heap rt !! p)) -> children rt c = Ret (kids c).
Proof.
  intros Hc Hh Hk.
  assert (forall p, p ∈ kids c -> mark_ref rt p = Ret [p]) as Hm.
  { intros p Hp. destruct (Hk p Hp) as [o Ho]. unfold mark_ref, get_obj. rewrite Ho. cbn.
    specialize (Hh p o Ho). destruct (obj o) as [| | [] | | |]; done. }
  destruct c as [sh pr cr fs [] [] | | [] | | |]; cbn [children]; try done.
  assert (forall prs, (forall p, p ∈ flat_map property_owned prs -> mark_ref rt p = Ret [p]) ->
    properties_refs rt prs = Ret (flat_map property_owned prs)) as Hpr.
  { induction prs as [| x prs IH]; intros Hq; [done |]. cbn [properties_refs flat_map] in *.
    assert (property_refs rt x = Ret (property_owned x)) as ->.
    { destruct x; try done. cbn. apply Hq. apply elem_of_app. left. by apply list_elem_of_singleton. }
    cbn [mbind res_bind]. rewrite IH; [done |]. intros p Hp. apply Hq, elem_of_app. auto. }
  assert (forall l, (forall p, p ∈ l -> mark_ref rt p = Ret [p]) -> mark_refs rt l = Ret l) as Hcr.
  { induction l as [| x l IH]; intros Hq; [done |]. cbn [mark_refs]. rewrite Hq by left.
    cbn [mbind res_bind]. rewrite IH; [done |]. intros p Hp. apply Hq. by right. }
  cbn [kids] in *. rewrite Hpr, Hcr; cbn [mbind res_bind records_refs]; [done | |]; intros p Hp; apply Hm; rewrite !elem_of_app; auto.
Qed.

(** ** States of the marking phases: only counts and marks change *)
Section marking.
Variable rt0 : JSRuntime.
Let G := gc_obj_list rt0.
Let h0 := heap rt0.

Definition kids_at (p : Z) : list Z :=
  match h0 !! p with Some o => kids (obj o) | None => [] end.
Definition refs (l : list Z) : list Z := flat_map kids_at l.
(** The references from outside the heap. *)
Definition ext (p : Z) : Z :=
  match h0 !! p with Some o => ref_count o - cnt (refs G) p | None => 0 end.

Hypothesis HG : NoDup G.
Hypothesis Hdom : forall p, is_Some (h0 !! p) <-> p ∈ G.
Hypothesis Hclosed : forall p o, h0 !! p = Some o -> closed (obj o) = true.
Hypothesis Hrefs : forall p c, p ∈ G -> c ∈ kids_at p -> c ∈ G.
Hypothesis Hext : forall p, p ∈ G -> 0 <= ext p.
Hypothesis Hmark : forall p o, h0 !! p = Some o -> mark o = 0.

Lemma refs_app l k : refs (l ++ k) = refs l ++ refs k.
Proof. apply flat_map_app. Qed.
Lemma refs_cons p l : refs (p :: l) = kids_at p ++ refs l.
Proof. reflexivity. Qed.
Lemma refs_in p c l : c ∈ kids_at p -> p ∈ l -> c ∈ refs l.
Proof.
  intros Hc Hp. unfold refs. rewrite list_elem_of_In, in_flat_map.
  exists p. rewrite <- !list_elem_of_In. done.
Qed.
Lemma refs_inv c l : c ∈ refs l -> exists p, p ∈ l /\ c ∈ kids_at p.
Proof.
  unfold refs. rewrite list_elem_of_In, in_flat_map. intros (p & H1 & H2).
  exists p. rewrite !list_elem_of_In. done.
Qed.
Lemma refs_perm l k p : l ≡ₚ k -> cnt (refs l) p = cnt (refs k) p.
Proof. intros H. apply cnt_perm, Permutation_flat_map, H. Qed.

(** The heap with the counts [rc] and the marks [mk]. *)
Definition view (rt : JSRuntime) (rc mk : Z -> Z) : Prop :=
  forall p, heap rt !! p = (fun o => mkObj (rc p) (mk p) (obj o)) <$> h0 !! p.

Definition upd (f : Z -> Z) (p v : Z) : Z -> Z := fun q => if decide (q = p) then v else f q.

Lemma view_get rt rc mk p : view rt rc mk -> p ∈ G ->
  exists o, h0 !! p = Some o /\ get_obj rt p = Ret (mkObj (rc p) (mk p) (obj o)).
Proof.
  intros Hv Hp. apply Hdom in Hp as [o Ho]. exists o. split; [done |].
  unfold get_obj. rewrite Hv, Ho. done.
Qed.

Lemma view_put rt rc mk p n m o : view rt rc mk -> h0 !! p = Some o ->
  view (put_obj rt p (mkObj n m (obj o))) (upd rc p n) (upd mk p m).
Proof.
  intros Hv Ho q. unfold put_obj, upd. cbn. destruct (decide (q = p)) as [-> | Hne].
  - rewrite lookup_insert_eq, Ho. done.
  - rewrite lookup_insert_ne by done. apply Hv.
Qed.

Lemma view_eq rt rt' rc mk rc' mk' : view rt rc mk -> heap rt' = heap rt ->
  (forall p, p ∈ G -> rc' p = rc p /\ mk' p = mk p) -> view rt' rc' mk'.
Proof.
  intros Hv He Hf p. rewrite He, Hv. destruct (h0 !! p) as [o |] eqn:E; [| done]. cbn.
  destruct (Hf p) as [-> ->]; [apply Hdom; eauto | done].
Qed.

Lemma view_children rt rc mk p : view rt rc mk -> p ∈ G ->
  exists o, h0 !! p = Some o /\ forall f, mark_children f rt p = for_children f rt (kids_at p).
Proof.
  intros Hv Hp. destruct (view_get rt rc mk p Hv Hp) as (o & Ho & E). exists o. split; [done |].
  intros f. unfold mark_children, kids_at. rewrite E, Ho. cbn [mbind res_bind obj].
  rewrite children_closed; [done | eauto | |].
  - intros q oq Hq. rewrite Hv in Hq. destruct (h0 !! q) as [oq0 |] eqn:Eq; [| done].
    injection Hq as <-. cbn. eauto.
  - intros q Hq. rewrite Hv. apply fmap_is_Some, Hdom, (Hrefs p q Hp).
    unfold kids_at. by rewrite Ho.
Qed.

(** ** [gc_decref] *)
Definition keep (rc mk : Z -> Z) (x : Z) : Prop := mk x = 0 \/ 0 < rc x.
#[local] Instance keep_dec rc mk x : Decision (keep rc mk x).
Proof. unfold keep. apply _. Defined.

Record dec_inv (rt : JSRuntime) (rc mk : Z -> Z) : Prop := {
  di_view : view rt rc mk;
  di_list : gc_obj_list rt = filter (keep rc mk) G;
  di_nodup : NoDup (tmp_obj_list rt);
  di_tmp : forall x, x ∈ tmp_obj_list rt <-> x ∈ G /\ ~ keep rc mk x;
  di_zero : gc_zero_ref_count_list rt = [];
  di_phase : gc_phase rt = gc_phase rt0
}.

(** Taking an object whose count has reached 0 out of the list. *)
Lemma dec_inv_move rt rc mk rc' mk' p :
  dec_inv rt rc mk -> p ∈ G -> keep rc mk p -> ~ keep rc' mk' p ->
  (forall x, x <> p -> keep rc' mk' x <-> keep rc mk x) ->
  forall h, view (set_heap rt h) rc' mk' ->
  let rt' := list_del (set_heap rt h) p in
  dec_inv (set_tmp_obj_list rt' (tmp_obj_list rt' ++ [p])) rc' mk'.
Proof.
  intros [Hv Hl Hn Ht Hz Hph] Hp Hk Hk' Hsame h Hv' rt'.
  assert (p ∉ tmp_obj_list rt) as Hpt by (rewrite Ht; tauto).
  unfold rt'. split; cbn.
  - exact Hv'.
  - rewrite Hl. unfold remove_id. rewrite list_filter_filter. apply list_filter_iff.
    intros x. destruct (decide (x = p)) as [-> |]; [tauto |]. rewrite Hsame by done. tauto.
  - apply NoDup_snoc; [apply list.NoDup_filter, Hn |]. rewrite elem_remove_id. tauto.
  - intros x. rewrite elem_of_app, elem_remove_id, list_elem_of_singleton, Ht.
    destruct (decide (x = p)) as [-> |]; [tauto |]. rewrite Hsame by done. tauto.
  - by rewrite Hz.
  - done.
Qed.

Lemma dec_inv_same rt rc mk rc' mk' :
  dec_inv rt rc mk -> (forall x, x ∈ G -> keep rc' mk' x <-> keep rc mk x) ->
  forall h, view (set_heap rt h) rc' mk' -> dec_inv (set_heap rt h) rc' mk'.
Proof.
  intros [Hv Hl Hn Ht Hz Hph] Hsame h Hv'. split; cbn; try done.
  - rewrite Hl. clear - Hsame. revert Hsame. generalize G. intros l Hs.
    induction l as [| x l IH]; [done |].
    assert (keep rc' mk' x <-> keep rc mk x) as Hx by (apply Hs; left).
    specialize (IH ltac:(intros y Hy; apply Hs; by right)). rewrite !filter_cons.
    destruct (decide (keep rc mk x)), (decide (keep rc' mk' x)); tauto || congruence.
  - intros x. rewrite Ht. specialize (Hsame x). tauto.
Qed.

Lemma upd_eq f p v : upd f p v p = v.
Proof. unfold upd. by rewrite decide_True. Qed.
Lemma upd_ne f p v q : q <> p -> upd f p v q = f q.
Proof. intros. unfold upd. by rewrite decide_False. Qed.

Lemma gc_decref_child_spec rt rc mk p :
  dec_inv rt rc mk -> p ∈ G -> 0 < rc p -> (mk p = 0 \/ mk p = 1) ->
  exists rt', gc_decref_child rt p = Ret rt' /\ dec_inv rt' (upd rc p (rc p - 1)) mk.
Proof.
  intros Hi Hp Hrc Hmk. pose proof (di_view _ _ _ Hi) as Hv.
  destruct (view_get rt rc mk p Hv Hp) as (o & Ho & E).
  unfold gc_decref_child. rewrite E. cbn [mbind res_bind ref_count mark].
  destruct (Z.ltb_spec 0 (rc p)); [| lia]. cbn [assert_ mbind res_bind].
  unfold set_ref_count. cbn [ref_count mark obj].
  set (h := heap (put_obj rt p (mkObj (rc p - 1) (mk p) (obj o)))).
  change (put_obj rt p _) with (set_heap rt h).
  assert (view (set_heap rt h) (upd rc p (rc p - 1)) mk) as Hv'.
  { eapply view_eq; [exact (view_put rt rc mk p (rc p - 1) (mk p) o Hv Ho) | done |].
    intros q _. split; [done |]. unfold upd. destruct (decide (q = p)) as [-> |]; done. }
  assert (forall x, x <> p -> keep (upd rc p (rc p - 1)) mk x <-> keep rc mk x) as Hsame
    by (intros x Hx; unfold keep; rewrite upd_ne by done; done).
  destruct (Z.eqb_spec (rc p - 1) 0), (Z.eqb_spec (mk p) 1); cbn [andb];
    (eexists; split; [reflexivity |]).
  - apply (dec_inv_move rt rc mk); auto; unfold keep; rewrite ?upd_eq; lia.
  - apply (dec_inv_same rt rc mk); auto. intros x _. destruct (decide (x = p)) as [-> |]; [| auto].
    unfold keep. lia.
  - apply (dec_inv_same rt rc mk); auto. intros x _. destruct (decide (x = p)) as [-> |]; [| auto].
    unfold keep. rewrite upd_eq. lia.
  - apply (dec_inv_same rt rc mk); auto. intros x _. destruct (decide (x = p)) as [-> |]; [| auto].
    unfold keep. lia.
Qed.

(** The invariant does not see the functions outside [G]. *)
Lemma dec_inv_ext rt rc mk rc' mk' :
  dec_inv rt rc mk -> (forall p, p ∈ G -> rc' p = rc p /\ mk' p = mk p) -> dec_inv rt rc' mk'.
Proof.
  intros Hi He. replace rt with (set_heap rt (heap rt)) by (by destruct rt).
  apply (dec_inv_same rt rc mk); [done | |].
  - intros x Hx. unfold keep. destruct (He x Hx) as [-> ->]. done.
  - eapply view_eq; [apply (di_view _ _ _ Hi) | done | exact He].
Qed.

Lemma decref_children_spec mk ps : forall rt rc,
  dec_inv rt rc mk -> (forall p, mk p = 0 \/ mk p = 1) -> (forall p, p ∈ ps -> p ∈ G) ->
  (forall p, p ∈ G -> cnt ps p <= rc p) ->
  exists rt', for_children gc_decref_child rt ps = Ret rt' /\
    dec_inv rt' (fun p => rc p - cnt ps p) mk.
Proof.
  induction ps as [| p ps IH]; intros rt rc Hi Hmk Hin Hc; cbn [for_children].
  - exists rt. split; [done |]. eapply dec_inv_ext; [exact Hi |]. intros q _. rewrite cnt_nil. lia.
  - assert (p ∈ G) as Hp by (apply Hin; left).
    destruct (gc_decref_child_spec rt rc mk p Hi Hp) as (rt1 & -> & Hi1); [| auto |].
    { specialize (Hc p Hp). rewrite cnt_cons, decide_True in Hc by done.
      pose proof (cnt_nonneg ps p). lia. }
    cbn [mbind res_bind].
    destruct (IH rt1 _ Hi1 Hmk) as (rt2 & -> & Hi2).
    + intros q Hq. apply Hin. by right.
    + intros q Hq. specialize (Hc q Hq). rewrite cnt_cons in Hc. unfold upd.
      repeat case_decide; subst; congruence || lia.
    + exists rt2. split; [done |]. eapply dec_inv_ext; [exact Hi2 |]. intros q _. split; [| done].
      rewrite cnt_cons. unfold upd. repeat case_decide; subst; congruence || lia.
Qed.

(** One object of the list. *)
Lemma decref_object_spec rt rc mk q :
  dec_inv rt rc mk -> q ∈ G -> mk q = 0 -> (forall p, mk p = 0 \/ mk p = 1) ->
  (forall p, p ∈ G -> cnt (kids_at q) p <= rc p) ->
  exists rt', gc_decref_object rt q = Ret rt' /\
    dec_inv rt' (fun p => rc p - cnt (kids_at q) p) (upd mk q 1).
Proof.
  intros Hi Hq Hmq Hmk Hc. unfold gc_decref_object.
  destruct (view_get rt rc mk q (di_view _ _ _ Hi) Hq) as (o & Ho & ->).
  cbn [mbind res_bind mark]. rewrite Hmq. cbn [Z.eqb assert_ mbind res_bind].
  destruct (view_children rt rc mk q (di_view _ _ _ Hi) Hq) as (o' & Ho' & ->).
  destruct (decref_children_spec mk (kids_at q) rt rc Hi Hmk) as (rt1 & -> & Hi1);
    [intros p Hp; exact (Hrefs q p Hq Hp) | exact Hc |]. cbn [mbind res_bind].
  set (rc1 := fun p => rc p - cnt (kids_at q) p) in *.
  destruct (view_get rt1 rc1 mk q (di_view _ _ _ Hi1) Hq) as (o1 & Ho1 & ->).
  cbn [mbind res_bind ref_count]. unfold set_mark. cbn [ref_count obj].
  set (h := heap (put_obj rt1 q (mkObj (rc1 q) 1 (obj o1)))).
  change (put_obj rt1 q _) with (set_heap rt1 h).
  assert (view (set_heap rt1 h) rc1 (upd mk q 1)) as Hv'.
  { eapply view_eq; [exact (view_put rt1 rc1 mk q (rc1 q) 1 o1 (di_view _ _ _ Hi1) Ho1) | done |].
    intros x _. split; [| done]. unfold upd. destruct (decide (x = q)) as [-> |]; done. }
  specialize (Hc q Hq).
  destruct (Z.eqb_spec (rc1 q) 0); (eexists; split; [reflexivity |]).
  - apply (dec_inv_move rt1 rc1 mk); auto; unfold keep; rewrite ?upd_eq; [lia | lia |].
    intros x Hx. rewrite upd_ne by done. done.
  - apply (dec_inv_same rt1 rc1 mk); auto. intros x _. unfold keep, upd.
    destruct (decide (x = q)) as [-> |]; [| done]. subst rc1. cbn in *. lia.
Qed.

(** The loop: [D] is done, [R] is left. *)
Definition in_list (l : list Z) (p : Z) : Z := if decide (p ∈ l) then 1 else 0.

Lemma gc_decref_loop_spec fuel : forall D R rt,
  G = D ++ R ->
  dec_inv rt (fun p => ext p + cnt (refs R) p) (in_list D) -> (length R < fuel)%nat ->
  exists rt', gc_decref_loop fuel rt (head R) (head (tail R)) = Ret rt' /\
    dec_inv rt' ext (in_list G).
Proof.
  induction fuel as [| fuel IH]; intros D R rt EG Hi Hf; [lia |].
  destruct R as [| q R]; cbn [gc_decref_loop head tail].
  - rewrite app_nil_r in EG. exists rt. split; [done |]. rewrite EG.
    eapply dec_inv_ext; [exact Hi |]. intros p _. cbn. rewrite cnt_nil. split; [lia | done].
  - assert (NoDup (D ++ q :: R)) as Hn by (rewrite <- EG; exact HG).
    assert (q ∈ G) as Hq by (rewrite EG; apply elem_of_app; right; left).
    pose proof Hn as (Hnd & Hdis & Hnr)%list.NoDup_app. apply list.NoDup_cons in Hnr as [HqR HnR].
    assert (q ∉ D) as HqD by (intros H; apply (Hdis q H); left).
    destruct (decref_object_spec rt _ (in_list D) q Hi Hq) as (rt1 & -> & Hi1).
    { unfold in_list. by rewrite decide_False. }
    { intros p. unfold in_list. case_decide; auto. }
    { intros p Hp. rewrite refs_cons, cnt_app. specialize (Hext p Hp).
      pose proof (cnt_nonneg (refs R) p). lia. }
    cbn [mbind res_bind].
    assert (dec_inv rt1 (fun p => ext p + cnt (refs R) p) (in_list (D ++ [q]))) as Hi2.
    { eapply dec_inv_ext; [exact Hi1 |]. intros p _. rewrite refs_cons, cnt_app. split; [lia |].
      unfold in_list, upd. repeat case_decide; rewrite ?elem_of_app, ?list_elem_of_singleton in *;
        subst; tauto || congruence. }
    assert (G = (D ++ [q]) ++ R) as EG' by (rewrite EG, <- app_assoc; done).
    assert (list_next (gc_obj_list rt1) (head R) = Ret (head (tail R)) \/ R = []) as Hnext.
    { rewrite (di_list _ _ _ Hi2), EG', list.filter_app.
      rewrite (filter_all _ R).
      - apply list_next_app. apply list.NoDup_app. split; [apply list.NoDup_filter |].
        + apply list.NoDup_app. split; [done |]. split; [| apply list.NoDup_singleton].
          intros x Hx Hx'. apply list_elem_of_singleton in Hx' as ->. done.
        + split; [| done]. intros x Hx HxR. apply list_elem_of_filter in Hx as [_ Hx].
          apply elem_of_app in Hx as [Hx | Hx%list_elem_of_singleton].
          * apply (Hdis x Hx). by right.
          * subst. done.
      - intros x Hx. left. unfold in_list. rewrite decide_False; [done |].
        rewrite elem_of_app, list_elem_of_singleton. intros [Hx' | ->]; [| done].
        apply (Hdis x Hx'). by right. }
    destruct Hnext as [-> | ->]; cbn [mbind res_bind].
    + apply (IH (D ++ [q]) R rt1 EG' Hi2). cbn in Hf. lia.
    + cbn [head tail list_next mbind res_bind]. destruct fuel; [cbn in Hf; lia |].
      exists rt1. split; [done |]. rewrite EG', app_nil_r. eapply dec_inv_ext; [exact Hi2 |].
      intros p _. cbn. rewrite cnt_nil. split; [lia | done].
Qed.

Lemma gc_size : size h0 = length G.
Proof.
  rewrite <- size_dom. rewrite <- (size_list_to_set (C := gset Z) G HG). f_equal.
  apply set_eq. intros p. rewrite elem_of_dom, elem_of_list_to_set. apply Hdom.
Qed.

(** The counts are now the external references; the objects without any are
    in [tmp_obj_list]. *)
Lemma gc_decref_spec : gc_zero_ref_count_list rt0 = [] ->
  exists rt, gc_decref rt0 = Ret rt /\ dec_inv rt ext (in_list G).
Proof.
  intros Hz. unfold gc_decref. cbn [list_next mbind res_bind].
  assert (dec_inv (set_tmp_obj_list rt0 []) (fun p => ext p + cnt (refs G) p) (in_list [])) as Hi.
  { assert (forall x, keep (fun p => ext p + cnt (refs G) p) (in_list []) x) as Hk
      by (intros x; left; unfold in_list; rewrite decide_False; [done | apply not_elem_of_nil]).
    split; cbn.
    - intros p. cbn. fold h0. unfold ext. destruct (h0 !! p) as [o |] eqn:E; [| done].
      cbn. f_equal. pose proof (Hmark p o E). unfold in_list. rewrite decide_False by apply not_elem_of_nil.
      destruct o. cbn in *. f_equal; [lia | done].
    - fold G. symmetry. apply filter_all. auto.
    - constructor.
    - intros x. split; [intros H; by apply not_elem_of_nil in H | intros [_ H]; by apply H in Hk].
    - done.
    - done. }
  cbn [gc_obj_list set_tmp_obj_list]. fold G.
  assert (list_next G (head G) = Ret (head (tail G)) \/ G = []) as [E | E] by apply (list_next_app [] G HG).
  - rewrite E. cbn [mbind res_bind]. apply (gc_decref_loop_spec _ [] G); [done | exact Hi |].
    unfold gc_fuel. cbn. fold h0. rewrite gc_size. lia.
  - rewrite E. cbn [head list_next mbind res_bind].
    pose proof (gc_decref_loop_spec (gc_fuel (set_tmp_obj_list rt0 [])) [] G _ eq_refl Hi) as H.
    rewrite E in H. apply H. unfold gc_fuel. cbn. lia.
Qed.

(** ** [gc_scan] *)
Inductive reach : Z -> Prop :=
| reach_root p : p ∈ G -> 0 < ext p -> reach p
| reach_step p c : reach p -> c ∈ kids_at p -> reach c.

Lemma reach_in p : reach p -> p ∈ G.
Proof.
  induction 1 as [p Hp _ | p c _ IH Hc]; [done |]. exact (Hrefs p c IH Hc).
Qed.

Record scan_inv (rt : JSRuntime) (rc mk : Z -> Z) : Prop := {
  si_view : view rt rc mk;
  si_nodup : NoDup (gc_obj_list rt);
  si_list : forall x, x ∈ gc_obj_list rt <-> x ∈ G /\ 0 < rc x;
  si_nodup_tmp : NoDup (tmp_obj_list rt);
  si_tmp : forall x, x ∈ tmp_obj_list rt <-> x ∈ G /\ ~ 0 < rc x;
  si_zero : gc_zero_ref_count_list rt = [];
  si_phase : gc_phase rt = gc_phase rt0
}.

Lemma scan_inv_ext rt rc mk rc' mk' :
  scan_inv rt rc mk -> (forall p, p ∈ G -> rc' p = rc p /\ mk' p = mk p) -> scan_inv rt rc' mk'.
Proof.
  intros [Hv Hn Hl Hnt Ht Hz Hph] He. split; try done.
  - eapply view_eq; [exact Hv | done | exact He].
  - intros x. rewrite Hl. specialize (He x). intuition lia.
  - intros x. rewrite Ht. specialize (He x). intuition lia.
Qed.

Lemma gc_scan_incref_child_spec rt rc mk p :
  scan_inv rt rc mk -> p ∈ G -> 0 <= rc p ->
  exists rt' new mk', gc_scan_incref_child rt p = Ret rt' /\
    scan_inv rt' (upd rc p (rc p + 1)) mk' /\ gc_obj_list rt' = gc_obj_list rt ++ new /\
    (forall x, x ∈ new -> x = p) /\ (forall x, mk x = 0 -> mk' x = 0).
Proof.
  intros Hi Hp Hrc. pose proof Hi as [Hv Hn Hl Hnt Ht Hz Hph].
  destruct (view_get rt rc mk p Hv Hp) as (o & Ho & E).
  unfold gc_scan_incref_child. rewrite E. cbn [mbind res_bind ref_count].
  unfold set_ref_count, set_mark. cbn [ref_count mark obj].
  destruct (Z.eqb_spec (rc p + 1) 1).
  - assert (p ∉ gc_obj_list rt) as Hpl by (rewrite Hl; lia).
    eexists _, [p], (upd mk p 0). split; [reflexivity |]. unfold list_del. cbn.
    rewrite (remove_id_notin p (gc_obj_list rt)) by done. split_and!; [split; cbn | done | |].
    + eapply view_eq; [exact (view_put rt rc mk p (rc p + 1) 0 o Hv Ho) | done | done].
    + by apply NoDup_snoc.
    + intros x. rewrite elem_of_app, list_elem_of_singleton, Hl. unfold upd.
      case_decide; subst; intuition (lia || congruence).
    + apply list.NoDup_filter, Hnt.
    + intros x. rewrite elem_remove_id, Ht. unfold upd. case_decide; subst; intuition (lia || congruence).
    + by rewrite Hz.
    + done.
    + intros x Hx. by apply list_elem_of_singleton in Hx.
    + intros x Hx. unfold upd. by case_decide.
  - eexists _, [], mk. split; [reflexivity |]. cbn. rewrite app_nil_r.
    split_and!; [split; cbn; try done | done | | done].
    + eapply view_eq; [exact (view_put rt rc mk p (rc p + 1) (mk p) o Hv Ho) | done |].
      intros x _. split; [done |]. unfold upd. case_decide; congruence.
    + intros x. rewrite Hl. unfold upd. case_decide; subst; intuition lia.
    + intros x. rewrite Ht. unfold upd. case_decide; subst; intuition lia.
    + intros x Hx. by apply not_elem_of_nil in Hx.
Qed.

Lemma scan_children_spec ps : forall rt rc mk,
  scan_inv rt rc mk -> (forall p, p ∈ ps -> p ∈ G) -> (forall p, p ∈ G -> 0 <= rc p) ->
  exists rt' new mk', for_children gc_scan_incref_child rt ps = Ret rt' /\
    scan_inv rt' (fun p => rc p + cnt ps p) mk' /\ gc_obj_list rt' = gc_obj_list rt ++ new /\
    (forall x, x ∈ new -> x ∈ ps) /\ (forall x, mk x = 0 -> mk' x = 0).
Proof.
  induction ps as [| p ps IH]; intros rt rc mk Hi Hin Hrc; cbn [for_children].
  - exists rt, [], mk. rewrite app_nil_r. split_and!; try done.
    eapply scan_inv_ext; [exact Hi |]. intros p _. rewrite cnt_nil. split; [lia | done].
  - assert (p ∈ G) as Hp by (apply Hin; left).
    destruct (gc_scan_incref_child_spec rt rc mk p Hi Hp (Hrc p Hp))
      as (rt1 & n1 & mk1 & -> & Hi1 & E1 & Hn1 & Hm1). cbn [mbind res_bind].
    destruct (IH rt1 _ mk1 Hi1) as (rt2 & n2 & mk2 & -> & Hi2 & E2 & Hn2 & Hm2).
    + intros q Hq. apply Hin. by right.
    + intros q Hq. specialize (Hrc q Hq). unfold upd. case_decide; subst; lia.
    + exists rt2, (n1 ++ n2), mk2. split_and!; [done | | | | auto].
      * eapply scan_inv_ext; [exact Hi2 |]. intros q _. split; [| done].
        rewrite cnt_cons. unfold upd. repeat case_decide; subst; congruence || lia.
      * rewrite E2, E1, app_assoc. done.
      * intros x Hx. apply elem_of_app in Hx as [Hx | Hx]; [rewrite (Hn1 x Hx); left | right; auto].
Qed.

Lemma sublist_length (l : list Z) : NoDup l -> (forall x, x ∈ l -> x ∈ G) -> (length l <= length G)%nat.
Proof. intros Hn Hin. apply submseteq_length, NoDup_submseteq; done. Qed.

(** The loop: [A] is done, [B] is left. *)
Lemma gc_scan_loop_spec fuel : forall A B rt mk,
  gc_obj_list rt = A ++ B ->
  scan_inv rt (fun p => ext p + cnt (refs A) p) mk ->
  (forall x, x ∈ A -> mk x = 0) -> (forall x, x ∈ gc_obj_list rt -> reach x) ->
  (length G - length A < fuel)%nat ->
  exists rt' mk', gc_scan_loop fuel rt (head B) = Ret rt' /\
    scan_inv rt' (fun p => ext p + cnt (refs (gc_obj_list rt')) p) mk' /\
    (forall x, x ∈ gc_obj_list rt' -> mk' x = 0) /\ (forall x, x ∈ gc_obj_list rt' -> reach x).
Proof.
  induction fuel as [| fuel IH]; intros A B rt mk EL Hi Hmk Hr Hf; [lia |].
  destruct B as [| p B]; cbn [gc_scan_loop head].
  - rewrite app_nil_r in EL. exists rt, mk. split; [done |]. rewrite EL in Hr |- *. auto.
  - set (rc := fun p => ext p + cnt (refs A) p) in *.
    assert (p ∈ gc_obj_list rt) as Hpl by (rewrite EL; apply elem_of_app; right; left).
    pose proof Hpl as (Hp & Hrc)%(si_list _ _ _ Hi).
    pose proof (si_view _ _ _ Hi) as Hv.
    destruct (view_get rt rc mk p Hv Hp) as (o & Ho & ->). cbn [mbind res_bind ref_count].
    destruct (Z.ltb_spec 0 (rc p)); [| lia]. cbn [assert_ mbind res_bind].
    unfold set_mark. cbn [ref_count obj].
    assert (scan_inv (put_obj rt p (mkObj (rc p) 0 (obj o))) rc (upd mk p 0)) as Hi1.
    { pose proof Hi as [_ ? ? ? ? ? ?]. split; cbn; try done.
      eapply view_eq; [exact (view_put rt rc mk p (rc p) 0 o Hv Ho) | done |].
      intros x _. split; [| done]. unfold upd. case_decide; congruence. }
    set (rt1 := put_obj rt p _) in *.
    destruct (view_children rt1 rc _ p (si_view _ _ _ Hi1) Hp) as (o' & _ & ->).
    destruct (scan_children_spec (kids_at p) rt1 rc _ Hi1) as (rt2 & new & mk2 & -> & Hi2 & E2 & Hn2 & Hm2).
    + intros q Hq. exact (Hrefs p q Hp Hq).
    + intros q Hq. unfold rc. pose proof (cnt_nonneg (refs A) q). specialize (Hext q Hq). lia.
    + cbn [mbind res_bind]. change (gc_obj_list rt1) with (gc_obj_list rt) in E2.
      rewrite EL, <- app_assoc in E2. cbn [app] in E2.
      pose proof (si_nodup _ _ _ Hi2) as Hn. rewrite E2 in Hn.
      destruct (list_next_app A (p :: B ++ new) Hn) as [E |]; [| done]. cbn [head tail] in E.
      rewrite E2, E. cbn [mbind res_bind].
      apply (IH (A ++ [p]) (B ++ new) rt2 mk2).
      * rewrite E2, <- app_assoc. done.
      * eapply scan_inv_ext; [exact Hi2 |]. intros q _. split; [| done]. unfold rc.
        rewrite refs_app, cnt_app. unfold refs at 2. cbn [flat_map]. rewrite app_nil_r. lia.
      * intros x Hx. apply Hm2. unfold upd. case_decide; [done |]. apply Hmk.
        apply elem_of_app in Hx as [Hx | Hx%list_elem_of_singleton]; [done | congruence].
      * intros x Hx. rewrite E2 in Hx.
        assert (x ∈ A ++ p :: B \/ x ∈ new) as [Hx' | Hx'].
        { rewrite elem_of_app, elem_of_cons, elem_of_app in Hx. rewrite elem_of_app, elem_of_cons. tauto. }
        { apply Hr. by rewrite EL. }
        { apply (reach_step p); [apply Hr, Hpl | auto]. }
      * rewrite length_app. cbn [length].
        assert (length (A ++ [p]) <= length G)%nat as Hlen.
        { apply sublist_length.
          - rewrite cons_middle, app_assoc in Hn. by apply list.NoDup_app in Hn as [Hn _].
          - intros x Hx. apply (si_list _ _ _ Hi2). rewrite E2, cons_middle, app_assoc. apply elem_of_app. auto. }
        rewrite length_app in Hlen. cbn [length] in Hlen. lia.
Qed.

Lemma incref2_children_spec ps mk : forall rt rc,
  view rt rc mk -> (forall p, p ∈ ps -> p ∈ G) ->
  exists h, for_children gc_scan_incref_child2 rt ps = Ret (set_heap rt h) /\
    view (set_heap rt h) (fun p => rc p + cnt ps p) mk.
Proof.
  induction ps as [| p ps IH]; intros rt rc Hv Hin; cbn [for_children].
  - exists (heap rt). replace (set_heap rt (heap rt)) with rt by (by destruct rt). split; [done |].
    eapply view_eq; [exact Hv | done |]. intros p _. rewrite cnt_nil. split; [lia | done].
  - assert (p ∈ G) as Hp by (apply Hin; left).
    destruct (view_get rt rc mk p Hv Hp) as (o & Ho & Eo).
    assert (gc_scan_incref_child2 rt p = Ret (put_obj rt p (mkObj (rc p + 1) (mk p) (obj o)))) as ->
      by (unfold gc_scan_incref_child2; rewrite Eo; done).
    cbn [mbind res_bind].
    destruct (IH (put_obj rt p (mkObj (rc p + 1) (mk p) (obj o))) (upd rc p (rc p + 1)))
      as (h & E & Hv').
    + eapply view_eq; [exact (view_put rt rc mk p (rc p + 1) (mk p) o Hv Ho) | done |].
      intros x _. split; [done |]. unfold upd. case_decide; congruence.
    + intros q Hq. apply Hin. by right.
    + exists h. rewrite E. split; [done |]. eapply view_eq; [exact Hv' | done |].
      intros q _. split; [| done]. rewrite cnt_cons. unfold upd. repeat case_decide; subst; congruence || lia.
Qed.

Lemma restore_loop_spec l mk : forall rt rc,
  view rt rc mk -> (forall p, p ∈ l -> p ∈ G) ->
  exists h, gc_restore_loop rt l = Ret (set_heap rt h) /\
    view (set_heap rt h) (fun p => rc p + cnt (refs l) p) mk.
Proof.
  induction l as [| q l IH]; intros rt rc Hv Hin; cbn [gc_restore_loop].
  - exists (heap rt). replace (set_heap rt (heap rt)) with rt by (by destruct rt). split; [done |].
    eapply view_eq; [exact Hv | done |]. intros p _. cbn. rewrite cnt_nil. split; [lia | done].
  - assert (q ∈ G) as Hq by (apply Hin; left).
    destruct (view_children rt rc mk q Hv Hq) as (o & _ & ->).
    destruct (incref2_children_spec (kids_at q) mk rt rc Hv) as (h & -> & Hv1);
      [intros p Hp; exact (Hrefs q p Hq Hp) |]. cbn [mbind res_bind].
    destruct (IH _ _ Hv1) as (h' & -> & Hv2); [intros p Hp; apply Hin; by right |].
    exists h'. split; [done |]. eapply view_eq; [exact Hv2 | done |].
    intros p _. split; [| done]. rewrite refs_cons, cnt_app. lia.
Qed.

(** After the two marking phases: the reachable objects are in [gc_obj_list]
    with their marks reset, the others in [tmp_obj_list], and every count is
    what it was. *)
Record marked (rt : JSRuntime) (mk : Z -> Z) : Prop := {
  mr_view : view rt (fun p => ext p + cnt (refs G) p) mk;
  mr_nodup : NoDup (gc_obj_list rt);
  mr_list : forall x, x ∈ gc_obj_list rt <-> reach x;
  mr_mark : forall x, x ∈ gc_obj_list rt -> mk x = 0;
  mr_nodup_tmp : NoDup (tmp_obj_list rt);
  mr_tmp : forall x, x ∈ tmp_obj_list rt <-> x ∈ G /\ ~ reach x;
  mr_zero : gc_zero_ref_count_list rt = [];
  mr_phase : gc_phase rt = gc_phase rt0
}.

Lemma gc_scan_spec rt : dec_inv rt ext (in_list G) ->
  exists rt' mk, gc_scan rt = Ret rt' /\ marked rt' mk.
Proof.
  intros [Hv Hl Hnt Ht Hz Hph]. unfold gc_scan. cbn [list_next mbind res_bind].
  assert (forall x, x ∈ G -> keep ext (in_list G) x <-> 0 < ext x) as Hk.
  { intros x Hx. unfold keep, in_list. rewrite decide_True by done. lia. }
  assert (scan_inv rt (fun p => ext p + cnt (refs []) p) (in_list G)) as Hi.
  { split; try done.
    - eapply view_eq; [exact Hv | done |]. intros p _. cbn. rewrite cnt_nil. split; [lia | done].
    - rewrite Hl. apply list.NoDup_filter, HG.
    - intros x. rewrite Hl, list_elem_of_filter. cbn. rewrite cnt_nil, Z.add_0_r.
      specialize (Hk x). tauto.
    - intros x. rewrite Ht. cbn. rewrite cnt_nil, Z.add_0_r. specialize (Hk x). tauto. }
  destruct (gc_scan_loop_spec (gc_fuel rt) [] (gc_obj_list rt) rt (in_list G) eq_refl Hi)
    as (rt1 & mk & -> & Hi1 & Hm1 & Hr1).
  - intros x Hx. by apply not_elem_of_nil in Hx.
  - intros x [Hx Hxl]%(si_list _ _ _ Hi). apply reach_root; [done |]. cbn in Hxl. rewrite cnt_nil in Hxl. lia.
  - unfold gc_fuel.
    assert (size (heap rt) = length G) as ->; [| cbn; lia].
    rewrite <- gc_size. apply Nat2Z.inj. rewrite <- !size_dom. f_equal. f_equal. apply set_eq.
    intros p. rewrite !elem_of_dom, Hv. unfold h0. apply fmap_is_Some.
  - cbn [mbind res_bind]. pose proof Hi1 as [Hv1 Hn1 Hl1 Hnt1 Ht1 Hz1 Hph1].
    set (L := gc_obj_list rt1) in *.
    destruct (restore_loop_spec (tmp_obj_list rt1) mk rt1 _ Hv1) as (h & -> & Hv2).
    { intros p Hp. apply Ht1 in Hp as [Hp _]. exact Hp. }
    assert (forall x, x ∈ L <-> reach x) as HL.
    { intros x. split; [apply Hr1 |]. induction 1 as [p Hp He | p c Hr IH Hc].
      - apply Hl1. split; [done |]. pose proof (cnt_nonneg (refs L) p). lia.
      - pose proof (reach_in p Hr) as Hp. apply Hl1. split; [exact (Hrefs p c Hp Hc) |].
        pose proof (proj2 (cnt_pos (refs L) c) (refs_in p c L Hc IH)).
        specialize (Hext c (Hrefs p c Hp Hc)). lia. }
    exists (set_heap rt1 h), mk. split; [done |]. split; cbn; try done.
    + eapply view_eq; [exact Hv2 | done |]. intros p _. split; [| done].
      assert (G ≡ₚ L ++ tmp_obj_list rt1) as EG.
      { apply NoDup_Permutation; [exact HG | |].
        - apply list.NoDup_app. split; [done |]. split; [| done].
          intros x [_ Hx]%Hl1 [_ Hx']%Ht1. done.
        - intros x. rewrite elem_of_app, Hl1, Ht1. destruct (decide (0 < ext x + cnt (refs L) x)); tauto. }
      rewrite (refs_perm _ _ p EG), refs_app, cnt_app. lia.
    + intros x. rewrite Ht1, <- HL, Hl1. tauto.
Qed.
End marking.

(** ** Releasing references *)
Section releasing.
(** The contents, the external references and the marks. *)
Variables (C : Z -> content) (E M : Z -> Z).
Hypothesis HE : forall p, 0 <= E p.

Definition owned (l : list Z) : list Z := flat_map (fun p => kids (C p)) l.

Lemma owned_cons p l : owned (p :: l) = kids (C p) ++ owned l.
Proof. reflexivity. Qed.
Lemma owned_perm l k p : l ≡ₚ k -> cnt (owned l) p = cnt (owned k) p.
Proof. intros H. apply cnt_perm, Permutation_flat_map, H. Qed.

(** The references to [p]: external ones, those of the objects [A] whose
    fields are intact, and the pending ones [P] that are still to be released. *)
Definition count (A P : list Z) (p : Z) : Z := E p + cnt (owned A) p + cnt P p.

(** [X] are the objects that are already destroyed but still in memory. *)
Record counted (ph : JSGCPhaseEnum) (A X P : list Z) (h : gmap Z JSGCObjectHeader) : Prop := {
  ct_nodup : NoDup (A ++ X);
  ct_dom : forall p, is_Some (h !! p) <-> p ∈ A ++ X;
  ct_obj : forall p o, p ∈ A -> h !! p = Some o -> obj o = C p;
  ct_level : forall p o, h !! p = Some o -> level (obj o) = level (C p) /\ mark o = M p;
  ct_rc : forall p o, h !! p = Some o -> ref_count o = count A P p;
  ct_refs : forall p, 0 < count A P p -> p ∈ A ++ X;
  ct_pos : forall p, p ∈ A -> 0 < level (C p) -> 0 < count A P p;
  ct_dead : forall p, p ∈ X -> 0 < level (C p) \/ ph <> JS_GC_PHASE_REMOVE_CYCLES -> count A P p = 0;
  ct_closed : forall p, p ∈ A -> closed (C p) = true;
  ct_typed : forall p c, p ∈ A -> 0 < level (C p) -> c ∈ kids (C p) -> level (C c) < level (C p)
}.

Lemma counted_perm ph A A' X P P' h : A ≡ₚ A' -> P ≡ₚ P' -> counted ph A X P h -> counted ph A' X P' h.
Proof.
  intros HA HP [H1 H2 H3 H4 H5 H6 H7 H8 H9 H10].
  assert (forall p, p ∈ A' ++ X <-> p ∈ A ++ X) as Hin by (intros p; by rewrite HA).
  assert (forall p, p ∈ A' <-> p ∈ A) as HinA by (intros p; by rewrite HA).
  assert (forall p, count A' P' p = count A P p) as Hc
    by (intros p; unfold count; rewrite (owned_perm A A' p HA), (cnt_perm P P' p HP); done).
  split.
  - by rewrite <- HA.
  - intros p. rewrite Hin. apply H2.
  - intros p o Hp. apply H3, HinA, Hp.
  - done.
  - intros p o Hp. rewrite Hc. eauto.
  - intros p Hp. apply Hin, H6. by rewrite <- Hc.
  - intros p Hp Hl. rewrite Hc. apply H7; [apply HinA |]; done.
  - intros p Hp Hl. rewrite Hc. auto.
  - intros p Hp. apply H9, HinA, Hp.
  - intros p c Hp. apply H10, HinA, Hp.
Qed.

(** How the lists change: [F] was freed, [Z] was moved to the list of objects
    with no reference. *)
Record moved (rt rt' : JSRuntime) (F Z : list Z) : Prop := {
  mv_gc : forall x, x ∈ gc_obj_list rt' <-> x ∈ gc_obj_list rt /\ x ∉ F ++ Z;
  mv_tmp : forall x, x ∈ tmp_obj_list rt' <-> x ∈ tmp_obj_list rt /\ x ∉ F ++ Z;
  mv_zero : forall x, x ∈ gc_zero_ref_count_list rt' <->
    x ∈ Z \/ (x ∈ gc_zero_ref_count_list rt /\ x ∉ F ++ Z);
  mv_nodup : NoDup (gc_obj_list rt) -> NoDup (gc_obj_list rt');
  mv_nodup_tmp : NoDup (tmp_obj_list rt) -> NoDup (tmp_obj_list rt');
  mv_nodup_zero : NoDup (gc_zero_ref_count_list rt) -> NoDup (gc_zero_ref_count_list rt');
  mv_phase : gc_phase rt' = gc_phase rt;
  mv_values : forall x, x ∈ Z -> level (C x) = 0;
  mv_others : forall x, x ∈ F -> 0 < level (C x)
}.

Lemma moved_refl rt h : moved rt (set_heap rt h) [] [].
Proof. split; cbn; try done; intros x; rewrite ?elem_of_nil_iff; tauto. Qed.

Lemma moved_trans rt1 rt2 rt3 F Z F' Z' :
  moved rt1 rt2 F Z -> moved rt2 rt3 F' Z' -> moved rt1 rt3 (F ++ F') (Z ++ Z').
Proof.
  intros [G1 T1 Z1 N1 M1 O1 P1 V1 W1] [G2 T2 Z2 N2 M2 O2 P2 V2 W2]. split.
  - intros x. rewrite G2, G1, !elem_of_app. tauto.
  - intros x. rewrite T2, T1, !elem_of_app. tauto.
  - intros x. rewrite Z2, Z1, !elem_of_app.
    assert (x ∈ Z -> x ∉ F') as Hd by (intros HZ HF; specialize (V1 x HZ); specialize (W2 x HF); lia).
    destruct (decide (x ∈ Z')); tauto.
  - auto.
  - auto.
  - auto.
  - congruence.
  - intros x [H | H]%elem_of_app; auto.
  - intros x [H | H]%elem_of_app; auto.
Qed.

Lemma moved_del rt h p : 0 < level (C p) -> moved rt (list_del (set_heap rt h) p) [p] [].
Proof.
  intros Hl. unfold list_del. split; cbn; try done; try (apply list.NoDup_filter).
  1-3: intros x; rewrite elem_remove_id, list_elem_of_singleton, ?elem_of_nil_iff; tauto.
  - intros x. rewrite elem_of_nil_iff. done.
  - intros x ->%list_elem_of_singleton. done.
Qed.

Record step_ok (rt rt' : JSRuntime) (A A' X P F Z : list Z) : Prop := {
  so_perm : A ≡ₚ A' ++ F;
  so_counted : counted (gc_phase rt) A' X P (heap rt');
  so_moved : moved rt rt' F Z;
  so_zero : forall x, x ∈ Z -> x ∈ A' /\ count A' P x = 0;
  so_remove : gc_phase rt = JS_GC_PHASE_REMOVE_CYCLES -> Z = [];
  so_obj : forall x o o', heap rt !! x = Some o -> heap rt' !! x = Some o' -> obj o' = obj o;
  so_complete : gc_phase rt <> JS_GC_PHASE_REMOVE_CYCLES ->
    forall x o, heap rt !! x = Some o -> 0 < ref_count o -> x ∈ A' -> count A' P x = 0 -> x ∈ Z
}.

Lemma count_cons A P c p : count A (c :: P) p = (if decide (c = p) then 1 else 0) + count A P p.
Proof. unfold count. rewrite cnt_cons. lia. Qed.
Lemma count_kill A A1 P c p : A ≡ₚ c :: A1 -> count A1 (kids (C c) ++ P) p = count A P p.
Proof.
  intros HA. unfold count. rewrite (owned_perm A _ p HA), owned_cons, !cnt_app. lia.
Qed.
Lemma count_nonneg A P p : 0 <= count A P p.
Proof. unfold count. pose proof (cnt_nonneg (owned A) p). pose proof (cnt_nonneg P p). specialize (HE p). lia. Qed.

(** The object of a pending reference. *)
Lemma counted_get ph A X P c h : counted ph A X (c :: P) h ->
  exists o, h !! c = Some o /\ level (obj o) = level (C c) /\
    ref_count o - 1 = count A P c /\
    (c ∈ A /\ obj o = C c \/ c ∈ X /\ level (C c) = 0 /\ ph = JS_GC_PHASE_REMOVE_CYCLES).
Proof.
  intros Hc. assert (0 < count A (c :: P) c) as Hpos.
  { rewrite count_cons, decide_True by done. pose proof (count_nonneg A P c). lia. }
  assert (c ∈ A ++ X) as Hin.
  { by apply (ct_refs _ _ _ _ _ Hc). }
  pose proof Hin as [o Ho]%(ct_dom _ _ _ _ _ Hc). exists o. split; [done |].
  split; [apply (ct_level _ _ _ _ _ Hc c o Ho) |]. split.
  { rewrite (ct_rc _ _ _ _ _ Hc c o Ho), count_cons, decide_True by done. lia. }
  apply elem_of_app in Hin as [HA | HX].
  - left. split; [done |]. exact (ct_obj _ _ _ _ _ Hc c o HA Ho).
  - right. split; [done |]. pose proof (ct_dead _ _ _ _ _ Hc c HX) as Hd.
    pose proof (level_range (C c)).
    destruct (decide (level (C c) = 0)) as [E0 | ?]; [| specialize (Hd ltac:(left; lia)); lia].
    split; [done |]. destruct ph; try done; specialize (Hd ltac:(right; done)); lia.
Qed.

Lemma insert_level (h : gmap Z JSGCObjectHeader) c o n p o' :
  h !! c = Some o -> <[c := set_ref_count o n]> h !! p = Some o' ->
  exists o0, h !! p = Some o0 /\ obj o' = obj o0 /\ ref_count o' = (if decide (p = c) then n else ref_count o0) /\
    mark o' = mark o0.
Proof.
  intros Ho Hp. destruct (decide (p = c)) as [-> | Hne].
  - rewrite lookup_insert_eq in Hp. injection Hp as <-. eauto.
  - rewrite lookup_insert_ne in Hp by done. eauto.
Qed.

Lemma insert_dom (h : gmap Z JSGCObjectHeader) c o n p :
  h !! c = Some o -> is_Some (<[c := n]> h !! p) <-> is_Some (h !! p).
Proof.
  intros Ho. destruct (decide (p = c)) as [-> |].
  - rewrite lookup_insert_eq, Ho. split; eauto.
  - by rewrite lookup_insert_ne.
Qed.

Lemma counted_dec ph A X P c h o : counted ph A X (c :: P) h -> h !! c = Some o ->
  0 < count A P c \/ level (C c) = 0 ->
  counted ph A X P (<[c := set_ref_count o (ref_count o - 1)]> h).
Proof.
  intros Hc Ho Hor. destruct (counted_get _ _ _ _ _ _ Hc) as (o' & Ho' & _ & Erc & Hcase).
  rewrite Ho in Ho'. injection Ho' as <-. pose proof Hc as [H1 H2 H3 H4 H5 H6 H7 H8 H9 H10].
  assert (forall p, p <> c -> count A (c :: P) p = count A P p) as Hne
    by (intros p Hp; rewrite count_cons, decide_False by congruence; lia).
  split; try done.
  - intros p. rewrite (insert_dom h c o _ p Ho). apply H2.
  - intros p op Hp Hop. apply (insert_level h c o _ p op Ho) in Hop as (o0 & Hop & -> & _). eauto.
  - intros p op Hop. apply (insert_level h c o _ p op Ho) in Hop as (o0 & Hop & -> & _ & ->). eauto.
  - intros p op Hop. apply (insert_level h c o _ p op Ho) in Hop as (o0 & Hop & _ & -> & _).
    case_decide; [by subst |]. rewrite (H5 p o0 Hop). auto.
  - intros p Hp. apply H6. rewrite count_cons. case_decide; lia.
  - intros p Hp Hl. destruct (decide (p = c)) as [-> | Hpc]; [lia |]. rewrite <- Hne by done. auto.
  - intros p Hp Hl. destruct (decide (p = c)) as [-> | Hpc]; [| rewrite <- Hne by done; auto].
    destruct Hcase as [[HA _] | (_ & E0 & Eph)]; [| destruct Hl; [lia | done]].
    exfalso. apply list.NoDup_app in H1 as (_ & Hd & _). exact (Hd c HA Hp).
Qed.

Lemma NoDup_kill A A1 X (c : Z) : A ≡ₚ c :: A1 -> NoDup (A ++ X) -> NoDup (A1 ++ c :: X).
Proof.
  intros HA Hn. rewrite HA in Hn. rewrite Permutation_app_comm. cbn.
  rewrite Permutation_app_comm. exact Hn.
Qed.

(** Destroying an object turns its references into pending ones. *)
Lemma counted_kill ph A A1 X P c h : A ≡ₚ c :: A1 ->
  (0 < level (C c) \/ ph <> JS_GC_PHASE_REMOVE_CYCLES -> count A P c = 0) ->
  NoDup (A ++ X) -> (forall p, is_Some (h !! p) <-> p ∈ A ++ X) ->
  (forall p o, p ∈ A -> h !! p = Some o -> obj o = C p) ->
  (forall p o, h !! p = Some o -> level (obj o) = level (C p) /\ mark o = M p) ->
  (forall p o, h !! p = Some o -> ref_count o = count A P p) ->
  (forall p, 0 < count A P p -> p ∈ A ++ X) ->
  (forall p, p ∈ A -> 0 < level (C p) -> p <> c -> 0 < count A P p) ->
  (forall p, p ∈ X -> 0 < level (C p) \/ ph <> JS_GC_PHASE_REMOVE_CYCLES -> count A P p = 0) ->
  (forall p, p ∈ A -> closed (C p) = true) ->
  (forall p k, p ∈ A -> 0 < level (C p) -> k ∈ kids (C p) -> level (C k) < level (C p)) ->
  counted ph A1 (c :: X) (kids (C c) ++ P) h.
Proof.
  intros HA H0 H1 H2 H3 H4 H5 H6 H7 H8 H9 H10.
  assert (forall p, p ∈ A1 ++ c :: X <-> p ∈ A ++ X) as Hin.
  { intros p. rewrite HA, !elem_of_app, !elem_of_cons. tauto. }
  assert (forall p, p ∈ A1 -> p ∈ A) as Hsub by (intros p Hp; rewrite HA; by right).
  split.
  - by apply (NoDup_kill A).
  - intros p. by rewrite Hin.
  - eauto.
  - done.
  - intros p o Hp. rewrite (count_kill A A1 P c p HA). eauto.
  - intros p Hp. apply Hin, H6. by rewrite <- (count_kill A A1 P c p HA).
  - intros p Hp Hl. rewrite (count_kill A A1 P c p HA). apply H7; auto. intros ->.
    rewrite HA in H1. cbn in H1. apply list.NoDup_cons in H1 as [H1 _]. apply H1, elem_of_app. auto.
  - intros p Hp Hl. rewrite (count_kill A A1 P c p HA). apply elem_of_cons in Hp as [-> | Hp]; auto.
  - eauto.
  - eauto.
Qed.

(** An object that is not a value, when its last reference is released. *)
Lemma counted_killed ph A A1 X P c h o : counted ph A X (c :: P) h -> h !! c = Some o -> A ≡ₚ c :: A1 ->
  0 < level (C c) -> count A P c = 0 ->
  counted ph A1 (c :: X) (released (C c) ++ P) (<[c := set_ref_count o (count A P c)]> h).
Proof.
  intros Hc Ho HA Hlev H0.
  assert (c ∈ A) as HcA by (rewrite HA; left).
  eapply counted_perm; [done | by rewrite released_perm |].
  pose proof Hc as [H1 H2 H3 H4 H5 H6 H7 H8 H9 H10].
  assert (forall p, p <> c -> count A (c :: P) p = count A P p) as Hne
    by (intros p Hp; rewrite count_cons, decide_False by congruence; lia).
  apply (counted_kill _ A); auto; cbn.
  - intros p. rewrite (insert_dom _ c o _ p Ho). apply H2.
  - intros p op Hp Hop. apply (insert_level _ c o _ p op Ho) in Hop as (o0 & Hop & -> & _). eauto.
  - intros p op Hop. apply (insert_level _ c o _ p op Ho) in Hop as (o0 & Hop & -> & _ & ->). eauto.
  - intros p op Hop. apply (insert_level _ c o _ p op Ho) in Hop as (o0 & Hop & _ & -> & _).
    case_decide; [by subst |]. rewrite (H5 p o0 Hop). auto.
  - intros p Hp. apply H6. rewrite count_cons. case_decide; lia.
  - intros p Hp Hlp Hpc. rewrite <- Hne by done. auto.
  - intros p Hp Hlp. rewrite <- Hne; [auto |]. intros ->.
    apply list.NoDup_app in H1 as (_ & Hd & _). exact (Hd c HcA Hp).
Qed.

(** Once nothing refers to a destroyed object its memory can go. *)
Lemma counted_free ph A X P c h : counted ph A (c :: X) P h -> count A P c = 0 ->
  counted ph A X P (delete c h).
Proof.
  intros [H1 H2 H3 H4 H5 H6 H7 H8 H9 H10] H0.
  rewrite <- Permutation_middle in H1. apply list.NoDup_cons in H1 as [Hc H1].
  assert (forall p o, delete c h !! p = Some o -> h !! p = Some o) as Hd
    by (intros p o [_ Hp]%lookup_delete_Some; done).
  split; eauto.
  - intros p. destruct (decide (p = c)) as [-> | Hne].
    + rewrite lookup_delete_eq. split; [by intros [? ?] | done].
    + rewrite lookup_delete_ne by done. rewrite H2, !elem_of_app, elem_of_cons. intuition congruence.
  - intros p Hp. specialize (H6 p Hp). rewrite elem_of_app, elem_of_cons in H6.
    destruct (decide (p = c)) as [-> |]; [lia |].
    rewrite elem_of_app. tauto.
  - intros p Hp. apply H8. by right.
Qed.

Lemma count_mono A A' F ps P p : A ≡ₚ A' ++ F -> count A' P p <= count A (ps ++ P) p.
Proof.
  intros HA. unfold count. rewrite (owned_perm A _ p HA). unfold owned. rewrite flat_map_app, !cnt_app.
  pose proof (cnt_nonneg (flat_map (fun p => kids (C p)) F) p). pose proof (cnt_nonneg ps p). lia.
Qed.

Lemma step_trans rt1 rt2 rt3 A1 A2 A3 X ps P F Z F' Z' :
  step_ok rt1 rt2 A1 A2 X (ps ++ P) F Z -> step_ok rt2 rt3 A2 A3 X P F' Z' ->
  step_ok rt1 rt3 A1 A3 X P (F ++ F') (Z ++ Z').
Proof.
  intros [HA1 Hc1 Hm1 Hz1 Hr1 Ho1 Hp1] [HA2 Hc2 Hm2 Hz2 Hr2 Ho2 Hp2].
  pose proof (mv_phase _ _ _ _ Hm1) as Hph. rewrite Hph in Hc2, Hr2, Hp2. split.
  - rewrite HA1, HA2, <- app_assoc. f_equiv. apply Permutation_app_comm.
  - done.
  - eapply moved_trans; eauto.
  - intros x [Hx | Hx]%elem_of_app; [| auto]. destruct (Hz1 x Hx) as [HxA H0].
    rewrite HA2 in HxA. apply elem_of_app in HxA as [HxA | HxF].
    + split; [done |]. pose proof (count_mono A2 A3 F' ps P x HA2). pose proof (count_nonneg A3 P x). lia.
    + pose proof (mv_values _ _ _ _ Hm1 x Hx). pose proof (mv_others _ _ _ _ Hm2 x HxF). lia.
  - intros Hp. rewrite Hr1, Hr2 by done. done.
  - intros x o o3 Hx H3. assert (is_Some (heap rt2 !! x)) as [o2 H2].
    { apply (ct_dom _ _ _ _ _ Hc1).
      assert (x ∈ A3 ++ X) as Hin by (apply (ct_dom _ _ _ _ _ Hc2); eauto).
      rewrite HA2, !elem_of_app. apply elem_of_app in Hin. tauto. }
    rewrite (Ho2 x o2 o3 H2 H3). exact (Ho1 x o o2 Hx H2).
  - intros Hne x o Hx Hrc HxA H0. apply elem_of_app.
    assert (x ∈ A2) as HxA2 by (rewrite HA2; apply elem_of_app; auto).
    destruct (proj2 (ct_dom _ _ _ _ _ Hc1 x)) as [o2 Ho]; [apply elem_of_app; auto |].
    pose proof (ct_rc _ _ _ _ _ Hc1 x o2 Ho). pose proof (count_nonneg A2 (ps ++ P) x).
    destruct (decide (ref_count o2 = 0)); [left; apply (Hp1 Hne x o); auto; lia |].
    right. apply (Hp2 Hne x o2); auto. lia.
Qed.

Lemma step_refl rt A X P : counted (gc_phase rt) A X P (heap rt) -> step_ok rt rt A A X P [] [].
Proof.
  intros Hc. split; try done.
  - by rewrite app_nil_r.
  - replace rt with (set_heap rt (heap rt)) at 2 by (by destruct rt). apply moved_refl.
  - intros x Hx. by apply not_elem_of_nil in Hx.
  - intros x o o' H1 H2. congruence.
  - intros _ x o Ho Hrc _ H0. rewrite (ct_rc _ _ _ _ _ Hc x o Ho) in Hrc. lia.
Qed.

Definition rel_ok (rel : JSRuntime -> Z -> res JSRuntime) (n : Z) : Prop :=
  forall rt c A X P, counted (gc_phase rt) A X (c :: P) (heap rt) -> level (C c) < n ->
  exists rt' A' F Z, rel rt c = Ret rt' /\ step_ok rt rt' A A' X P F Z.

Lemma release_list_spec rel n : rel_ok rel n ->
  forall ps rt A X P, counted (gc_phase rt) A X (ps ++ P) (heap rt) ->
  (forall c, c ∈ ps -> level (C c) < n) ->
  exists rt' A' F Z, for_children rel rt ps = Ret rt' /\ step_ok rt rt' A A' X P F Z.
Proof.
  intros Hrel. induction ps as [| c ps IH]; intros rt A X P Hc Hl; cbn [for_children].
  - exists rt, A, [], []. split; [done |]. by apply step_refl.
  - destruct (Hrel rt c A X (ps ++ P) Hc) as (rt1 & A1 & F1 & Z1 & -> & Hs1); [apply Hl; left |].
    cbn [mbind res_bind]. pose proof (so_counted _ _ _ _ _ _ _ _ Hs1) as Hc1.
    rewrite <- (mv_phase _ _ _ _ (so_moved _ _ _ _ _ _ _ _ Hs1)) in Hc1.
    destruct (IH rt1 A1 X P Hc1) as (rt2 & A2 & F2 & Z2 & -> & Hs2); [intros k Hk; apply Hl; by right |].
    exists rt2, A2, (F1 ++ F2), (Z1 ++ Z2). split; [done |]. exact (step_trans _ _ _ _ _ _ _ _ _ _ _ _ _ Hs1 Hs2).
Qed.

Lemma for_children_app f ps qs rt :
  for_children f rt (ps ++ qs) = (rt ← for_children f rt ps; for_children f rt qs).
Proof.
  revert rt. induction ps as [| p ps IH]; intros rt; [done |]. cbn [app for_children].
  destruct (f rt p); cbn [mbind res_bind]; auto.
Qed.

Lemma async_func_free_closed rel rt s : frame_closed s = true ->
  async_func_free rel rt s = for_children rel rt (frame_owned s).
Proof. destruct s as [[[| ]] |]; done. Qed.

(** The memory of a destroyed object that nothing refers to. *)
Lemma step_free rt c A A' X P F Z rt1 : 0 < level (C c) ->
  step_ok rt rt1 A A' (c :: X) P F Z -> count A' P c = 0 -> c ∉ A' ->
  step_ok rt (free_memory (list_del rt1 c) c) (c :: A) A' X P (c :: F) Z.
Proof.
  intros Hl [HA Hc Hm Hz Hr Ho Hp] H0 HcA.
  assert (moved rt (free_memory (list_del rt1 c) c) (F ++ [c]) (Z ++ [])) as Hm'.
  { eapply moved_trans; [exact Hm |].
    pose proof (moved_del rt1 (delete c (heap rt1)) c Hl) as Hd. exact Hd. }
  split.
  - rewrite HA. apply Permutation_middle.
  - cbn. by apply counted_free.
  - rewrite app_nil_r in Hm'. destruct Hm' as [M1 M2 M3 M4 M5 M6 M7 M8 M9].
    split; try done.
    + intros x. rewrite M1, !elem_of_app, !elem_of_cons, !elem_of_nil_iff. tauto.
    + intros x. rewrite M2, !elem_of_app, !elem_of_cons, !elem_of_nil_iff. tauto.
    + intros x. rewrite M3, !elem_of_app, !elem_of_cons, !elem_of_nil_iff. tauto.
    + intros x Hx. apply M9. rewrite elem_of_app, list_elem_of_singleton. apply elem_of_cons in Hx. tauto.
  - done.
  - done.
  - intros x o o' Hx Hx'. cbn in Hx'. apply lookup_delete_Some in Hx' as [_ Hx']. eauto.
  - done.
Qed.

Lemma release_spec fuel : rel_ok (release fuel) (Z.of_nat fuel).
Proof.
  induction fuel as [| fuel IH]; intros rt c A X P Hc Hl.
  { pose proof (level_range (C c)). lia. }
  destruct (counted_get _ _ _ _ _ _ Hc) as (o & Ho & Elev & Erc & Hcase).
  cbn [release]. unfold get_obj. rewrite Ho. cbn [of_opt mbind res_bind].
  rewrite Erc. change (ref_count (set_ref_count o (count A P c))) with (count A P c).
  change (obj (set_ref_count o (count A P c))) with (obj o).
  set (rt1 := put_obj rt c (set_ref_count o (count A P c))).
  assert (forall rt2, heap rt2 = heap rt1 -> forall x oo o', heap rt !! x = Some oo ->
    heap rt2 !! x = Some o' -> obj o' = obj oo) as Hobj.
  { intros rt2 E2 x oo o' Hx Hx'. rewrite E2 in Hx'. cbn in Hx'.
    apply (insert_level _ c o _ x o' Ho) in Hx' as (o0 & Hx0 & -> & _). congruence. }
  assert (forall x oo, heap rt !! x = Some oo -> 0 < ref_count oo -> count A P x = 0 -> x = c) as Hcomp.
  { intros x oo Hx Hrc Hx0. rewrite (ct_rc _ _ _ _ _ Hc x oo Hx), count_cons in Hrc.
    case_decide; [done | lia]. }
  destruct (Z.ltb_spec 0 (count A P c)) as [Hpos | Hzero].
  { exists rt1, A, [], []. split; [done |]. split; try done.
    - by rewrite app_nil_r.
    - cbn. rewrite <- Erc. apply counted_dec; auto.
    - apply moved_refl.
    - intros x Hx. by apply not_elem_of_nil in Hx.
    - exact (Hobj rt1 eq_refl).
    - intros _ x oo Hx Hrc _ Hx0. rewrite (Hcomp x oo Hx Hrc Hx0) in Hx0. lia. }
  assert (count A P c = 0) as H0 by (pose proof (count_nonneg A P c); lia).
  destruct (decide (level (C c) = 0)) as [E0 | Hlev].
  - (* an object or a function *)
    assert (counted (gc_phase rt) A X P (heap rt1)) as Hc1
      by (cbn; rewrite <- Erc; apply counted_dec; auto).
    exists (free_value_zero rt1 c), A, [],
      (if decide (gc_phase rt = JS_GC_PHASE_REMOVE_CYCLES) then [] else [c]).
    split. { rewrite E0 in Elev. destruct (obj o); done. }
    assert (heap (free_value_zero rt1 c) = heap rt1) as Eh
      by (unfold free_value_zero; destruct (gc_phase rt1); done).
    split.
    + by rewrite app_nil_r.
    + by rewrite Eh.
    + unfold free_value_zero. cbn [gc_phase rt1 put_obj set_heap]. destruct (gc_phase rt) eqn:Eph.
      3: { rewrite decide_True by done. apply moved_refl. }
      1, 2: rewrite decide_False by done; unfold list_del; split; cbn; try done; try (apply list.NoDup_filter);
        try (intros x; rewrite !elem_of_cons, elem_remove_id, !elem_of_nil_iff; tauto).
      * intros Hn. apply list.NoDup_cons. rewrite elem_remove_id. split; [tauto |]. by apply list.NoDup_filter.
      * intros x ->%list_elem_of_singleton. done.
      * intros x Hx. by apply not_elem_of_nil in Hx.
      * intros Hn. apply list.NoDup_cons. rewrite elem_remove_id. split; [tauto |]. by apply list.NoDup_filter.
      * intros x ->%list_elem_of_singleton. done.
      * intros x Hx. by apply not_elem_of_nil in Hx.
    + intros x Hx. case_decide as Eph; [by apply not_elem_of_nil in Hx |].
      apply list_elem_of_singleton in Hx as ->. split; [| done].
      destruct Hcase as [[? _] | (_ & _ & ?)]; done.
    + intros Eph. by rewrite decide_True.
    + exact (Hobj _ Eh).
    + intros Eph x oo Hx Hrc HxA Hx0. rewrite decide_False by done.
      apply list_elem_of_singleton. exact (Hcomp x oo Hx Hrc Hx0).
  - (* the other types are destroyed at once *)
    destruct Hcase as [[HcA Eo] | (_ & E0 & _)]; [| lia].
    destruct (proj1 (elem_of_Permutation A c) HcA) as [A1 HA].
    pose proof (counted_killed _ A A1 X P c (heap rt) o Hc Ho HA ltac:(pose proof (level_range (C c)); lia) H0) as Hc2.
    assert (counted (gc_phase rt) A1 (c :: X) (kids (C c) ++ P) (heap rt1)) as Hc1
      by (eapply counted_perm; [| | exact Hc2]; [done | by rewrite released_perm]).
    assert (forall k, k ∈ kids (C c) -> level (C k) < Z.of_nat fuel) as Hk.
    { intros k Hk. pose proof (ct_typed _ _ _ _ _ Hc c k HcA) as Ht.
      pose proof (level_range (C c)). specialize (Ht ltac:(lia) Hk). lia. }
    destruct (release_list_spec _ _ IH (released (C c)) rt1 A1 (c :: X) P Hc2)
      as (rt2 & A2 & F & Zn & E2 & Hs); [intros k; rewrite released_perm; apply Hk |].
    assert (step_ok rt (free_memory (list_del rt2 c) c) A A2 X P (c :: F) Zn) as Hfin.
    { assert (NoDup (A1 ++ c :: X)) as Hn by apply (ct_nodup _ _ _ _ _ Hc1).
      assert (c ∉ A2) as HcA2.
      { intros H2. rewrite <- Permutation_middle in Hn. apply list.NoDup_cons in Hn as [Hn _].
        apply Hn, elem_of_app. left. rewrite (so_perm _ _ _ _ _ _ _ _ Hs). apply elem_of_app. auto. }
      assert (count A2 P c = 0) as H20.
      { pose proof (count_mono A1 A2 F (kids (C c)) P c (so_perm _ _ _ _ _ _ _ _ Hs)) as Hm.
        rewrite (count_kill A A1 P c c HA) in Hm. pose proof (count_nonneg A2 P c). lia. }
      pose proof (step_free rt1 c A1 A2 X P F Zn rt2 ltac:(pose proof (level_range (C c)); lia) Hs H20 HcA2)
        as [S1 S2 S3 S4 S5 S6 S7].
      split; try done.
      - rewrite HA. exact S1.
      - destruct S3. by split.
      - intros x oo o' Hx Hx'. cbn in Hx'. pose proof Hx' as [_ Hx2]%lookup_delete_Some.
        assert (is_Some (heap rt1 !! x)) as [o1 Ho1] by (cbn; rewrite (insert_dom _ c o _ x Ho); eauto).
        rewrite (S6 x o1 o' Ho1 Hx'). exact (Hobj rt1 eq_refl x oo o1 Hx Ho1).
      - intros Hne x oo Hx Hrc HxA Hx0. assert (x <> c) as Hxc by congruence.
        apply (S7 Hne x oo); auto. cbn. by rewrite lookup_insert_ne. }
    exists (free_memory (list_del rt2 c) c), A2, (c :: F), Zn. split; [| done].
    pose proof (ct_closed _ _ _ _ _ Hc c HcA) as Hcl. rewrite <- Eo in E2, Hcl, Hlev.
    destruct (obj o) as [| | [] | | |]; cbn [released kids closed level] in *; try done;
      unfold free_var_ref, js_free_shape0, js_async_function_free0, JS_FreeContext.
    + rewrite E2. done.
    + rewrite async_func_free_closed by done. rewrite for_children_app in E2.
      destruct (for_children _ _ (frame_owned _)); cbn [mbind res_bind] in E2 |- *; [| done ..].
      rewrite E2. done.
    + rewrite E2. done.
    + rewrite for_children_app in E2.
      destruct (for_children _ _ (opt_refs _)); cbn [mbind res_bind] in E2 |- *; [| done ..].
      rewrite E2. done.
Qed.

(** ** Destroying one object or function *)
Record freed (rt rt' : JSRuntime) (p : Z) (A A' X X' F Z : list Z) : Prop := {
  fr_perm : A ≡ₚ p :: A' ++ F;
  fr_dead : X' = X \/ (X' = p :: X /\ gc_phase rt = JS_GC_PHASE_REMOVE_CYCLES);
  fr_counted : counted (gc_phase rt) A' X' [] (heap rt');
  fr_phase : gc_phase rt' = gc_phase rt;
  fr_gc : forall x, x ∈ gc_obj_list rt' <-> x ∈ gc_obj_list rt /\ x ∉ p :: F ++ Z;
  fr_tmp : forall x, x ∈ tmp_obj_list rt' <-> x ∈ tmp_obj_list rt /\ x ∉ p :: F ++ Z;
  fr_zero : forall x, x ∈ gc_zero_ref_count_list rt' <->
    (x = p /\ X' <> X) \/ x ∈ Z \/ (x ∈ gc_zero_ref_count_list rt /\ x ∉ p :: F ++ Z);
  fr_nodup : NoDup (gc_obj_list rt) -> NoDup (gc_obj_list rt');
  fr_nodup_tmp : NoDup (tmp_obj_list rt) -> NoDup (tmp_obj_list rt');
  fr_nodup_zero : NoDup (gc_zero_ref_count_list rt) -> NoDup (gc_zero_ref_count_list rt');
  fr_values : forall x, x ∈ Z -> level (C x) = 0 /\ x ∈ A' /\ count A' [] x = 0;
  fr_others : forall x, x ∈ F -> 0 < level (C x);
  fr_remove : gc_phase rt = JS_GC_PHASE_REMOVE_CYCLES -> Z = [];
  fr_complete : gc_phase rt <> JS_GC_PHASE_REMOVE_CYCLES ->
    forall x o, heap rt !! x = Some o -> 0 < ref_count o -> x ∈ A' -> count A' [] x = 0 -> x ∈ Z
}.

Lemma counted_put_dead ph A X P h p o c : counted ph A X P h -> p ∉ A -> h !! p = Some o ->
  level c = level (obj o) -> counted ph A X P (<[p := set_obj o c]> h).
Proof.
  intros [H1 H2 H3 H4 H5 H6 H7 H8 H9 H10] HpA Ho Hlev. split; try done.
  - intros q. rewrite (insert_dom h p o _ q Ho). apply H2.
  - intros q oq Hq Hoq. rewrite lookup_insert_ne in Hoq by congruence. eauto.
  - intros q oq Hoq. destruct (decide (q = p)) as [-> |].
    + rewrite lookup_insert_eq in Hoq. injection Hoq as <-. cbn. rewrite Hlev. exact (H4 p o Ho).
    + rewrite lookup_insert_ne in Hoq by done. eauto.
  - intros q oq Hoq. destruct (decide (q = p)) as [-> |].
    + rewrite lookup_insert_eq in Hoq. injection Hoq as <-. cbn. eauto.
    + rewrite lookup_insert_ne in Hoq by done. eauto.
Qed.

Lemma cons_neq (p : Z) X : p :: X <> X.
Proof. intros H. apply (f_equal length) in H. cbn in H. lia. Qed.

(** The lists after [list_del] of an object that was moved nowhere else. *)
Lemma finish_free_spec rt rt1 p A A1 X F Z empty :
  level (C p) = 0 -> level empty = 0 -> A ≡ₚ p :: A1 ++ F ->
  counted (gc_phase rt) A1 (p :: X) [] (heap rt1) -> moved rt rt1 F Z ->
  (forall x, x ∈ Z -> x ∈ A1 /\ count A1 [] x = 0) ->
  (gc_phase rt = JS_GC_PHASE_REMOVE_CYCLES -> Z = []) ->
  (gc_phase rt <> JS_GC_PHASE_REMOVE_CYCLES ->
    forall x o, heap rt !! x = Some o -> 0 < ref_count o -> x ∈ A1 -> count A1 [] x = 0 -> x ∈ Z) ->
  exists rt' X', finish_free rt1 p empty = Ret rt' /\ freed rt rt' p A A1 X X' F Z.
Proof.
  intros Hl Hle HA Hc Hm HZ HZr HZc. pose proof Hm as [M1 M2 M3 M4 M5 M6 M7 M8 M9].
  assert (p ∉ A1) as HpA.
  { pose proof (ct_nodup _ _ _ _ _ Hc) as Hn. rewrite <- Permutation_middle in Hn.
    apply list.NoDup_cons in Hn as [Hn _]. intros H. apply Hn, elem_of_app. auto. }
  assert (p ∉ Z) as HpZ by (intros H; apply HZ in H as [H _]; done).
  destruct (proj2 (ct_dom _ _ _ _ _ Hc p)) as [o Ho]; [apply elem_of_app; right; left |].
  pose proof (ct_rc _ _ _ _ _ Hc p o Ho) as Erc.
  assert (forall rt' h X', heap rt' = h -> rt' = set_heap (list_del rt1 p) h -> (X' = X) ->
    counted (gc_phase rt) A1 X' [] h -> freed rt rt' p A A1 X X' F Z) as Hfree.
  { intros rt' h X' _ -> -> Hc'. unfold list_del. split; cbn; auto.
    1-3: intros x; rewrite elem_remove_id, ?M1, ?M2, ?M3, !elem_of_cons, !elem_of_app.
    - tauto.
    - tauto.
    - destruct (decide (x = p)) as [-> |]; tauto.
    - intros Hn. by apply list.NoDup_filter, M4.
    - intros Hn. by apply list.NoDup_filter, M5.
    - intros Hn. by apply list.NoDup_filter, M6. }
  unfold finish_free. unfold get_obj. cbn [heap list_del gc_phase]. rewrite Ho.
  cbn [of_opt mbind res_bind]. rewrite M7.
  destruct (gc_phase rt) eqn:Eph; cbn [negb].
  3: destruct (Z.eqb_spec (ref_count o) 0) as [E0 | Hne]; cbn [negb].
  1, 2: eexists _, X; split; [reflexivity |]; apply (Hfree _ (delete p (heap rt1))); try done;
    apply counted_free; [done |]; apply (ct_dead _ _ _ _ _ Hc); [left | right; done].
  - eexists _, X. split; [reflexivity |]. apply (Hfree _ (delete p (heap rt1))); try done.
    apply counted_free; [done |]. rewrite <- Erc. done.
  - eexists _, (p :: X). split; [reflexivity |]. unfold list_del. specialize (HZr eq_refl) as ->.
    split; cbn; auto.
    + rewrite Eph. apply counted_put_dead; auto.
      destruct (ct_level _ _ _ _ _ Hc p o Ho) as [-> _]. lia.
    + congruence.
    + intros x. rewrite elem_remove_id, M1, !elem_of_cons, !elem_of_app. tauto.
    + intros x. rewrite elem_remove_id, M2, !elem_of_cons, !elem_of_app. tauto.
    + intros x. rewrite elem_of_app, elem_remove_id, M3, !elem_of_cons, !elem_of_app, !elem_of_nil_iff.
      pose proof (cons_neq p X). destruct (decide (x = p)) as [-> |]; tauto.
    + intros Hn. by apply list.NoDup_filter, M4.
    + intros Hn. by apply list.NoDup_filter, M5.
    + intros Hn. apply NoDup_snoc; [by apply list.NoDup_filter, M6 |]. rewrite elem_remove_id. tauto.
    + rewrite Eph. done.
Qed.

Lemma get_obj_Some rt p o : heap rt !! p = Some o -> get_obj rt p = Ret o.
Proof. intros H. unfold get_obj. by rewrite H. Qed.

(** An object that is being destroyed keeps its contents. *)
Lemma step_get rt rt' p o A A' X P F Z : heap rt !! p = Some o -> step_ok rt rt' A A' (p :: X) P F Z ->
  exists o', heap rt' !! p = Some o' /\ obj o' = obj o.
Proof.
  intros Ho Hs. destruct (proj2 (ct_dom _ _ _ _ _ (so_counted _ _ _ _ _ _ _ _ Hs) p)) as [o' Ho'].
  { apply elem_of_app. right. left. }
  exists o'. split; [done |]. exact (so_obj _ _ _ _ _ _ _ _ Hs p o o' Ho Ho').
Qed.

Lemma free_gc_object_spec rt p A X :
  counted (gc_phase rt) A X [] (heap rt) -> p ∈ A -> level (C p) = 0 ->
  (gc_phase rt <> JS_GC_PHASE_REMOVE_CYCLES -> count A [] p = 0) ->
  exists rt' A' X' F Z, free_gc_object rt p = Ret rt' /\ freed rt rt' p A A' X X' F Z.
Proof.
  intros Hc HpA Hl Hz. destruct (proj1 (elem_of_Permutation A p) HpA) as [A1 HA].
  destruct (proj2 (ct_dom _ _ _ _ _ Hc p)) as [o Ho]; [apply elem_of_app; auto |].
  pose proof (ct_obj _ _ _ _ _ Hc p o HpA Ho) as Eo.
  pose proof (ct_closed _ _ _ _ _ Hc p HpA) as Hcl.
  assert (counted (gc_phase rt) A1 (p :: X) (kids (C p)) (heap rt)) as Hk.
  { rewrite <- (app_nil_r (kids (C p))). destruct Hc as [H1 H2 H3 H4 H5 H6 H7 H8 H9 H10].
    apply (counted_kill _ A); auto. intros [H | H]; [lia | auto]. }
  assert (forall c, c ∈ kids (C p) -> level (C c) < Z.of_nat release_fuel) as Hlev
    by (intros c _; pose proof (level_range (C c)); unfold release_fuel; lia).
  pose proof (release_spec release_fuel) as Hrel.
  unfold free_gc_object, get_obj. rewrite Ho. cbn [of_opt mbind res_bind].
  assert (forall A2 F, A1 ≡ₚ A2 ++ F -> A ≡ₚ p :: A2 ++ F) as HAF by (intros A2 F <-; done).
  destruct (obj o) as [shape prop cr fs fw rs | cpool realm | | | |] eqn:Eobj; rewrite <- Eo in *; cbn in Hl; try lia.
  - unfold free_object. destruct fw, rs; try discriminate Hcl. cbn [kids closed] in *.
    assert (opt_ref shape ++ flat_map property_owned prop ++ cr ++ async_func_mark fs ≡ₚ
            (flat_map property_owned prop ++ opt_ref shape) ++ cr ++ frame_owned fs) as Hperm.
    { rewrite frame_owned_perm, <- !app_assoc. apply Permutation_app_swap_app. }
    assert (forall c, c ∈ cr ++ frame_owned fs -> level (C c) < Z.of_nat release_fuel) as Hlev2
      by (intros c Hc'; apply Hlev; rewrite Hperm; apply elem_of_app; auto).
    pose proof (counted_perm _ _ _ _ _ _ _ (reflexivity A1) Hperm Hk) as Hk'.
    destruct (release_list_spec _ _ Hrel _ rt A1 (p :: X) _ Hk') as (rt1 & A2 & F1 & Z1 & E1 & Hs1).
    { intros c Hc'. apply Hlev. rewrite Hperm. apply elem_of_app. auto. }
    rewrite for_children_app in E1.
    destruct (for_children _ rt (flat_map _ _)) as [r1 | |]; cbn [mbind res_bind] in E1 |- *; [| done ..].
    rewrite E1. cbn [mbind res_bind].
    destruct (step_get rt rt1 p o A1 A2 X _ _ _ Ho Hs1) as (o1 & Ho1 & Eo1).
    rewrite (get_obj_Some rt1 p o1 Ho1). cbn [mbind res_bind]. rewrite Eo1, Eobj. cbn [mbind res_bind].
    pose proof (so_counted _ _ _ _ _ _ _ _ Hs1) as Hc1.
    rewrite <- (mv_phase _ _ _ _ (so_moved _ _ _ _ _ _ _ _ Hs1)) in Hc1.
    destruct (release_list_spec _ _ Hrel cr rt1 A2 (p :: X) _ Hc1) as (rt2 & A3 & F2 & Z2 & -> & Hs2).
    { intros c Hc'. apply Hlev2, elem_of_app. auto. }
    cbn [mbind res_bind].
    destruct (step_get rt1 rt2 p o1 A2 A3 X _ _ _ Ho1 Hs2) as (o2 & Ho2 & Eo2).
    rewrite (get_obj_Some rt2 p o2 Ho2). cbn [mbind res_bind]. rewrite Eo2, Eo1, Eobj.
    cbn [free_weak_map for_children mbind res_bind]. rewrite async_func_free_closed by done.
    pose proof (step_trans _ _ _ _ _ _ _ _ _ _ _ _ _ Hs1 Hs2) as Hs12.
    pose proof (so_counted _ _ _ _ _ _ _ _ Hs2) as Hc2.
    rewrite <- (mv_phase _ _ _ _ (so_moved _ _ _ _ _ _ _ _ Hs2)) in Hc2.
    rewrite <- (app_nil_r (frame_owned fs)) in Hc2, Hs12.
    destruct (release_list_spec _ _ Hrel _ rt2 A3 (p :: X) [] Hc2) as (rt3 & A4 & F3 & Z3 & -> & Hs3).
    { intros c Hc'. apply Hlev2, elem_of_app. auto. }
    cbn [mbind res_bind].
    pose proof (step_trans _ _ _ _ _ _ _ _ _ _ _ _ _ Hs12 Hs3) as [S1 S2 S3 S4 S5 _ S7].
    destruct (finish_free_spec rt rt3 p A A4 X ((F1 ++ F2) ++ F3) ((Z1 ++ Z2) ++ Z3) (JS_OBJECT None [] [] None [] []))
      as (rt' & X' & -> & Hf); auto; [by rewrite <- Eo | eauto 10].
  - unfold free_function_bytecode. cbn [kids] in *.
    rewrite <- (app_nil_r (opt_refs cpool ++ opt_ref realm)) in Hk.
    destruct (release_list_spec _ _ Hrel _ rt A1 (p :: X) [] Hk Hlev) as (rt1 & A2 & F & Z & E1 & [S1 S2 S3 S4 S5 _ S7]).
    rewrite for_children_app in E1.
    destruct (for_children _ rt (opt_refs cpool)) as [r1 | |]; cbn [mbind res_bind] in E1 |- *; [| done ..].
    rewrite E1. cbn [mbind res_bind].
    destruct (finish_free_spec rt rt1 p A A2 X F Z (FUNCTION_BYTECODE [] None))
      as (rt' & X' & -> & Hf); auto; [by rewrite <- Eo | eauto 10].
Qed.
End releasing.
