(* ===== verification/GcCycles.v ===== *)
(** * quickjs.c: a collection keeps exactly the reachable objects

    [gc_free_cycles] after the marking phases of GcFacts.v, and the theorem
    about [JS_RunGC] as a whole. *)
From Stdlib Require Import ZArith Lia Bool Permutation.
From stdpp Require Import base numbers list gmap.
From S2P Require Import Prelude ListHead Gc GcFacts.

(** ** [gc_free_cycles] *)
Section cycles.
Variables (C : Z -> content) (E M : Z -> Z).
Hypothesis HE : forall p, 0 <= E p.

Inductive live : Z -> Prop :=
| live_root p : 0 < E p -> live p
| live_step p c : live p -> c ∈ kids (C p) -> live c.

Lemma owned_pos A p c : p ∈ A -> c ∈ kids (C p) -> 0 < cnt (owned C A) c.
Proof.
  intros Hp Hc. apply cnt_pos. unfold owned. rewrite list_elem_of_In, in_flat_map.
  exists p. rewrite <- !list_elem_of_In. done.
Qed.

Lemma owned_inv A c : 0 < cnt (owned C A) c -> exists p, p ∈ A /\ c ∈ kids (C p).
Proof.
  rewrite cnt_pos. unfold owned. rewrite list_elem_of_In, in_flat_map.
  intros (p & H1 & H2). exists p. rewrite !list_elem_of_In. done.
Qed.

(** A live object is never destroyed. *)
Lemma live_in ph A X h : counted C E M ph A X [] h -> (forall x, x ∈ X -> ~ live x) ->
  forall x, live x -> x ∈ A.
Proof.
  intros Hc HX x Hx. pose proof Hx as Hl.
  assert (x ∈ A ++ X) as Hin; [| apply elem_of_app in Hin as [? | Hin]; [done | by apply HX in Hin]].
  apply (ct_refs _ _ _ _ _ _ _ _ Hc). unfold count. rewrite cnt_nil. specialize (HE x) as Hx0.
  clear Hl. revert Hx0. induction Hx as [p Hp | p c Hp IH Hk]; intros Hx0.
  - pose proof (cnt_nonneg (owned C A) p). lia.
  - assert (p ∈ A ++ X) as Hin.
    { apply (ct_refs _ _ _ _ _ _ _ _ Hc). unfold count. rewrite cnt_nil. apply IH, HE. }
    apply elem_of_app in Hin as [Hin | Hin]; [| by apply HX in Hin].
    pose proof (owned_pos A p c Hin Hk). lia.
Qed.

Lemma live_count A p : (forall x, x ∈ A <-> live x) -> p ∈ A -> 0 < count C E A [] p.
Proof.
  intros HA Hp%HA. unfold count. rewrite cnt_nil. specialize (HE p).
  destruct Hp as [p He | p c Hp Hc]; [pose proof (cnt_nonneg (owned C A) p); lia |].
  pose proof (owned_pos A p c (proj2 (HA p) Hp) Hc). lia.
Qed.

Record cyc (rt : JSRuntime) (A X : list Z) : Prop := {
  cy_phase : gc_phase rt = JS_GC_PHASE_REMOVE_CYCLES;
  cy_counted : counted C E M JS_GC_PHASE_REMOVE_CYCLES A X [] (heap rt);
  cy_tmp : forall x, x ∈ tmp_obj_list rt -> x ∈ A /\ ~ live x;
  cy_tmp_nodup : NoDup (tmp_obj_list rt);
  cy_values : forall x, x ∈ A -> level (C x) = 0 -> live x \/ x ∈ tmp_obj_list rt;
  cy_dead : forall x, x ∈ X -> level (C x) = 0 /\ ~ live x /\ x ∈ gc_zero_ref_count_list rt;
  cy_zero : forall x, x ∈ gc_zero_ref_count_list rt ->
    x ∈ X \/ (x ∈ A /\ 0 < level (C x) /\ ~ live x);
  cy_zero_nodup : NoDup (gc_zero_ref_count_list rt);
  cy_gc : forall x, x ∈ gc_obj_list rt <-> live x;
  cy_gc_nodup : NoDup (gc_obj_list rt)
}.

(** An object or a function of [tmp_obj_list] is destroyed. *)
Lemma cyc_value rt A X p : cyc rt A X -> p ∈ tmp_obj_list rt -> level (C p) = 0 ->
  exists rt' A' X', free_gc_object rt p = Ret rt' /\ cyc rt' A' X' /\
    p ∉ tmp_obj_list rt' /\ (forall x, x ∈ tmp_obj_list rt' -> x ∈ tmp_obj_list rt).
Proof.
  intros [Hph Hc Ht Htn Hv Hd Hz Hzn Hg Hgn] Hp Hl. destruct (Ht p Hp) as [HpA Hpl].
  destruct (free_gc_object_spec C E M HE rt p A X) as (rt' & A' & X' & F & Zn & E1 & Hf);
    [by rewrite Hph | done | done | by rewrite Hph |].
  pose proof Hf as [F1 F2 F3 F4 F5 F6 F7 F8 F9 F10 F11 F12 F13].
  rewrite Hph in F3, F4. rewrite (F13 Hph), app_nil_r in *. clear F11 F13.
  assert (forall x, x ∈ X' -> x = p \/ x ∈ X) as HX'.
  { intros x Hx. destruct F2 as [-> | [-> _]]; [auto | by apply elem_of_cons in Hx]. }
  assert (forall x, x ∈ X -> x ∈ X') as HXX by (intros x Hx; destruct F2 as [-> | [-> _]]; [done | by right]).
  assert (forall x, x ∈ X' -> ~ live x) as HXl by (intros x [-> | Hx]%HX'; [done | apply Hd, Hx]).
  pose proof (live_in _ _ _ _ F3 HXl) as HlA.
  pose proof (ct_nodup _ _ _ _ _ _ _ _ Hc) as (HnA & HAX & _)%list.NoDup_app.
  rewrite F1 in HnA. apply list.NoDup_cons in HnA as [HpAF (HnA' & HAF & _)%list.NoDup_app].
  assert (forall x, x ∈ A <-> x = p \/ x ∈ A' \/ x ∈ F) as HA.
  { intros x. by rewrite F1, elem_of_cons, elem_of_app. }
  assert (forall x, live x -> x ∉ p :: F) as HlF.
  { intros x Hx Hin. apply elem_of_cons in Hin as [-> | Hin]; [done |]. exact (HAF x (HlA x Hx) Hin). }
  exists rt', A', X'. split; [exact E1 |]. split.
  2: { split; [rewrite F6; intros [_ H]; apply H; left | intros x Hx; apply F6 in Hx; tauto]. }
  split; auto.
  - intros x [Hx Hn]%F6. destruct (Ht x Hx) as [HxA Hxl]. split; [| done].
    apply HA in HxA. rewrite elem_of_cons in Hn. tauto.
  - intros x Hx Hxl. destruct (Hv x) as [? | Hxt]; [apply HA; auto | done | by left |].
    right. apply F6. split; [done |]. intros [-> | HxF]%elem_of_cons.
    + apply HpAF, elem_of_app. auto.
    + specialize (F12 x HxF). lia.
  - intros x Hx. split; [| split; [auto |]].
    + destruct (HX' x Hx) as [-> | Hx']; [done | apply Hd, Hx'].
    + apply F7. destruct (decide (x ∈ X)) as [HxX | Hn].
      * right. right. split; [apply Hd, HxX |].
        intros [-> | HxF]%elem_of_cons; [exact (HAX p HpA HxX) |].
        apply (HAX x); [apply HA; auto | done].
      * left. destruct (HX' x Hx) as [-> | ?]; [| done]. split; [done |]. intros ->. done.
  - intros x [[-> Hx] | [[]%elem_of_nil | [Hx Hn]]]%F7.
    + destruct F2 as [-> | [-> _]]; [done | left; left].
    + destruct (Hz x Hx) as [? | (HxA & ? & ?)]; [auto |]. right. split; [| done].
      apply HA in HxA. rewrite elem_of_cons in Hn. tauto.
  - intros x. rewrite F5, Hg. specialize (HlF x). tauto.
Qed.

(** Any other object waits in the list: something still refers to it. *)
Lemma cyc_other rt A X p : cyc rt A X -> p ∈ tmp_obj_list rt -> 0 < level (C p) ->
  let rt1 := list_del rt p in
  cyc (set_zero_list rt1 (gc_zero_ref_count_list rt1 ++ [p])) A X.
Proof.
  intros [Hph Hc Ht Htn Hv Hd Hz Hzn Hg Hgn] Hp Hl. destruct (Ht p Hp) as [HpA Hpl].
  split; cbn; auto.
  - intros x [Hx _]%elem_remove_id. auto.
  - by apply list.NoDup_filter.
  - intros x Hx Hxl. rewrite elem_remove_id. destruct (Hv x Hx Hxl) as [? | ?]; [by left |].
    right. split; [done |]. intros ->. lia.
  - intros x Hx. destruct (Hd x Hx) as (H1 & H2 & H3). split_and!; [done | done |].
    rewrite elem_of_app, elem_remove_id. left. split; [done |]. intros ->. lia.
  - intros x. rewrite elem_of_app, elem_remove_id, list_elem_of_singleton.
    intros [[Hx _] | ->]; [auto |]. right. done.
  - apply NoDup_snoc; [by apply list.NoDup_filter |]. rewrite elem_remove_id. tauto.
  - intros x. rewrite elem_remove_id, Hg. split; [tauto |]. intros Hx. split; [done |]. intros ->. done.
  - by apply list.NoDup_filter.
Qed.

Lemma shrink_length (l l' : list Z) p : NoDup l' -> p ∈ l -> p ∉ l' ->
  (forall x, x ∈ l' -> x ∈ l) -> (length l' < length l)%nat.
Proof.
  intros Hn Hp Hp' Hs. change (length (p :: l') <= length l)%nat.
  apply submseteq_length, NoDup_submseteq; [by apply list.NoDup_cons |].
  intros x [-> | Hx]%elem_of_cons; auto.
Qed.

Lemma free_cycles_loop_spec fuel : forall rt A X,
  cyc rt A X -> (length (tmp_obj_list rt) < fuel)%nat ->
  exists rt' A' X', free_cycles_loop fuel rt = Ret rt' /\ cyc rt' A' X' /\ tmp_obj_list rt' = [].
Proof.
  induction fuel as [| fuel IH]; intros rt A X Hi Hf; [lia |]. cbn [free_cycles_loop].
  destruct (tmp_obj_list rt) as [| p tmp] eqn:Et; [exists rt, A, X; done |].
  assert (p ∈ tmp_obj_list rt) as Hp by (rewrite Et; left).
  destruct (cy_tmp _ _ _ Hi p Hp) as [HpA _].
  destruct (proj2 (ct_dom _ _ _ _ _ _ _ _ (cy_counted _ _ _ Hi) p)) as [o Ho];
    [apply elem_of_app; auto |].
  unfold get_obj. rewrite Ho. cbn [of_opt mbind res_bind].
  rewrite level_value. destruct (ct_level _ _ _ _ _ _ _ _ (cy_counted _ _ _ Hi) p o Ho) as [-> _].
  assert (forall rt', cyc rt' A X \/ True -> p ∉ tmp_obj_list rt' -> NoDup (tmp_obj_list rt') ->
    (forall x, x ∈ tmp_obj_list rt' -> x ∈ tmp_obj_list rt) ->
    (length (tmp_obj_list rt') < fuel)%nat) as Hlen.
  { intros rt' _ Hn Hnd Hs. pose proof (shrink_length _ _ p Hnd Hp Hn Hs) as Hlt. rewrite Et in Hlt. lia. }
  destruct (Z.eqb_spec (level (C p)) 0) as [E0 | Hne].
  - destruct (cyc_value rt A X p Hi Hp E0) as (rt1 & A1 & X1 & -> & Hi1 & Hn & Hs).
    cbn [mbind res_bind]. apply (IH rt1 A1 X1 Hi1).
    apply Hlen; auto. apply (cy_tmp_nodup _ _ _ Hi1).
  - cbn [mbind res_bind]. pose proof (level_range (C p)).
    pose proof (cyc_other rt A X p Hi Hp ltac:(lia)) as Hi1. apply (IH _ A X Hi1).
    apply Hlen; [auto | | exact (cy_tmp_nodup _ _ _ Hi1) |]; cbn.
    + rewrite elem_remove_id. tauto.
    + intros x [Hx _]%elem_remove_id. done.
Qed.

(** When [tmp_obj_list] is empty only live objects are intact: an object that
    is not a value is referenced, in the end by an object that is. *)
Lemma cyc_end rt A X : cyc rt A X -> tmp_obj_list rt = [] -> forall x, x ∈ A -> live x.
Proof.
  intros [Hph Hc Ht Htn Hv Hd Hz Hzn Hg Hgn] Et.
  assert (forall n x, (Z.to_nat (2 - level (C x)) < n)%nat -> x ∈ A -> live x) as Hn; [| eauto].
  induction n as [| n IH]; intros x Hx HxA; [lia |].
  destruct (decide (level (C x) = 0)) as [E0 | Hne].
  { destruct (Hv x HxA E0) as [? | Hxt]; [done |]. rewrite Et in Hxt. by apply not_elem_of_nil in Hxt. }
  pose proof (level_range (C x)). pose proof (ct_pos _ _ _ _ _ _ _ _ Hc x HxA ltac:(lia)) as Hpos.
  unfold count in Hpos. rewrite cnt_nil in Hpos.
  destruct (decide (0 < E x)) as [Hr | Hr]; [by apply live_root |].
  destruct (owned_inv A x) as (y & Hy & Hk); [lia |].
  apply (live_step y); [| done]. destruct (decide (level (C y) = 0)) as [E0 | Hne'].
  - destruct (Hv y Hy E0) as [? | Hyt]; [done |]. rewrite Et in Hyt. by apply not_elem_of_nil in Hyt.
  - pose proof (level_range (C y)). pose proof (ct_typed _ _ _ _ _ _ _ _ Hc y x Hy ltac:(lia) Hk).
    apply IH; [lia | done].
Qed.

Lemma free_memory_loop_spec A l : forall rt,
  counted C E M JS_GC_PHASE_REMOVE_CYCLES A l [] (heap rt) ->
  (forall x, x ∈ l -> level (C x) = 0 /\ count C E A [] x = 0) ->
  exists h, free_memory_loop rt l = Ret (set_heap rt h) /\
    counted C E M JS_GC_PHASE_REMOVE_CYCLES A [] [] h.
Proof.
  induction l as [| p l IH]; intros rt Hc Hl; cbn [free_memory_loop].
  - exists (heap rt). split; [by destruct rt | done].
  - destruct (Hl p) as [Hlev H0]; [left |].
    destruct (proj2 (ct_dom _ _ _ _ _ _ _ _ Hc p)) as [o Ho]; [apply elem_of_app; right; left |].
    unfold get_obj. rewrite Ho. cbn [of_opt mbind res_bind]. rewrite level_value.
    destruct (ct_level _ _ _ _ _ _ _ _ Hc p o Ho) as [-> _]. rewrite Hlev.
    cbn [Z.eqb assert_ mbind res_bind].
    destruct (IH (free_memory rt p)) as (h & Eh & Hh).
    + apply counted_free; done.
    + intros x Hx. apply Hl. by right.
    + exists h. split; [exact Eh | done].
Qed.

Lemma counted_dead_perm ph A X X' P h : X ≡ₚ X' -> counted C E M ph A X P h ->
  counted C E M ph A X' P h.
Proof.
  intros HX [H1 H2 H3 H4 H5 H6 H7 H8 H9 H10]. split; try done.
  - by rewrite <- HX.
  - intros p. by rewrite <- HX.
  - intros p. rewrite <- HX. auto.
  - intros p. rewrite <- HX. auto.
Qed.

Lemma gc_free_cycles_spec rt A :
  let rt1 := set_gc_phase rt JS_GC_PHASE_REMOVE_CYCLES in
  cyc rt1 A [] ->
  exists rt' A', gc_free_cycles rt = Ret rt' /\
    counted C E M JS_GC_PHASE_REMOVE_CYCLES A' [] [] (heap rt') /\
    (forall x, x ∈ A' <-> live x) /\ NoDup (gc_obj_list rt') /\
    (forall x, x ∈ gc_obj_list rt' <-> live x) /\
    gc_zero_ref_count_list rt' = [] /\ gc_phase rt' = JS_GC_PHASE_NONE.
Proof.
  intros rt1 Hi. unfold gc_free_cycles. fold rt1.
  destruct (free_cycles_loop_spec (gc_fuel rt1) rt1 A [] Hi) as (rt2 & A2 & X2 & E2 & Hi2 & Et).
  { unfold gc_fuel. rewrite <- size_dom.
    assert (tmp_obj_list rt1 ⊆+ elements (dom (heap rt1))) as Hs.
    { apply NoDup_submseteq; [apply (cy_tmp_nodup _ _ _ Hi) |].
      intros x [Hx _]%(cy_tmp _ _ _ Hi). rewrite elem_of_elements, elem_of_dom.
      apply (ct_dom _ _ _ _ _ _ _ _ (cy_counted _ _ _ Hi)). apply elem_of_app. auto. }
    apply submseteq_length in Hs.
    change (size (dom (heap rt1))) with (length (elements (dom (heap rt1)))). lia. }
  change (gc_fuel rt) with (gc_fuel rt1). rewrite E2. cbn [mbind res_bind].
  pose proof (cyc_end rt2 A2 X2 Hi2 Et) as HA.
  pose proof Hi2 as [Hph Hc Ht Htn Hv Hd Hz Hzn Hg Hgn].
  assert (X2 ≡ₚ gc_zero_ref_count_list rt2) as HX.
  { apply NoDup_Permutation; [| done |].
    - by apply ct_nodup in Hc as (_ & _ & ?)%list.NoDup_app.
    - intros x. split; [apply Hd |]. intros [? | (HxA & _ & Hn)]%Hz; [done |]. by apply HA in HxA. }
  destruct (free_memory_loop_spec A2 (gc_zero_ref_count_list rt2) (set_gc_phase rt2 JS_GC_PHASE_NONE))
    as (h & Eh & Hh).
  - by apply (counted_dead_perm _ _ X2).
  - intros x Hx. rewrite <- HX in Hx. destruct (Hd x Hx) as (Hl & Hn & _). split; [done |].
    unfold count. rewrite cnt_nil. pose proof (HE x). pose proof (cnt_nonneg (owned C A2) x).
    destruct (decide (0 < E x)); [by destruct Hn; apply live_root |].
    destruct (decide (0 < cnt (owned C A2) x)) as [(y & Hy & Hk)%owned_inv |]; [| lia].
    destruct Hn. apply (live_step y); auto.
  - cbn [gc_zero_ref_count_list set_gc_phase]. rewrite Eh. cbn [mbind res_bind].
    eexists _, A2. split; [reflexivity |]. cbn. split_and!; try done.
    intros x. split; [apply HA |]. apply (live_in _ _ _ _ Hc). intros y Hy. apply Hd, Hy.
Qed.
End cycles.

(** ** [JS_RunGC] *)

(** The heap between two collections: the runtime's list holds every object,
    marks are cleared, no variable of a suspended frame is shared with a
    closure and no object is the key of a weak record ([closed]), every
    reference is to an object of the heap and is counted, and
    the objects that are not values refer only to values, except that a
    context refers to a shape. *)
Record heap_ok (rt : JSRuntime) : Prop := {
  ho_nodup : NoDup (gc_obj_list rt);
  ho_dom : forall p, is_Some (heap rt !! p) <-> p ∈ gc_obj_list rt;
  ho_closed : forall p o, heap rt !! p = Some o -> closed (obj o) = true;
  ho_refs : forall p c, c ∈ kids_at rt p -> is_Some (heap rt !! c);
  ho_typed : forall p o c oc, heap rt !! p = Some o -> heap rt !! c = Some oc ->
    0 < level (obj o) -> c ∈ kids (obj o) -> level (obj oc) < level (obj o);
  ho_mark : forall p o, heap rt !! p = Some o -> mark o = 0;
  ho_ext : forall p, 0 <= ext rt p;
  ho_pos : forall p o, heap rt !! p = Some o -> 0 < ref_count o;
  ho_zero : gc_zero_ref_count_list rt = [];
  ho_phase : gc_phase rt = JS_GC_PHASE_NONE
}.

(** The contents of the heap, with a default. *)
Definition contents (rt : JSRuntime) (p : Z) : content :=
  match heap rt !! p with Some o => obj o | None => SHAPE None end.

Lemma kids_contents rt p : kids_at rt p = kids (contents rt p).
Proof. unfold kids_at, contents. by destruct (heap rt !! p). Qed.

Lemma refs_contents rt l : refs rt l = owned (contents rt) l.
Proof. apply flat_map_ext. intros p. apply kids_contents. Qed.

Lemma reach_live rt p : heap_ok rt -> reach rt p <-> live (contents rt) (ext rt) p.
Proof.
  intros Ho. split.
  - induction 1 as [p _ He | p c _ IH Hc]; [by constructor |]. eapply live_step; [exact IH |].
    by rewrite <- kids_contents.
  - induction 1 as [p He | p c _ IH Hc].
    + constructor; [| done]. apply (ho_dom _ Ho). unfold ext in He.
      destruct (heap rt !! p); [eauto | lia].
    + eapply reach_step; [exact IH |]. by rewrite kids_contents.
Qed.

(** The state after the marking phases is a start of [gc_free_cycles]. *)
Lemma marked_cyc rt rt1 mk : heap_ok rt -> marked rt rt1 mk ->
  cyc (contents rt) (ext rt) mk (set_gc_phase rt1 JS_GC_PHASE_REMOVE_CYCLES) (gc_obj_list rt) [].
Proof.
  intros Ho [Hv Hn Hl Hm Hnt Ht Hz Hph].
  assert (forall p o1, heap rt1 !! p = Some o1 -> exists o, heap rt !! p = Some o /\
    contents rt p = obj o /\ obj o1 = obj o /\ mark o1 = mk p /\
    ref_count o1 = ext rt p + cnt (refs rt (gc_obj_list rt)) p /\ ref_count o1 = ref_count o) as Hget.
  { intros p o1 H1. rewrite Hv in H1. destruct (heap rt !! p) as [o |] eqn:E; [| done].
    injection H1 as <-. exists o. unfold contents. rewrite E. cbn. split_and!; try done.
    unfold ext. rewrite E. lia. }
  assert (forall p, count (contents rt) (ext rt) (gc_obj_list rt) [] p =
    ext rt p + cnt (refs rt (gc_obj_list rt)) p) as Hcount
    by (intros p; unfold count; rewrite cnt_nil, refs_contents; lia).
  assert (forall p, p ∈ gc_obj_list rt -> exists o, heap rt !! p = Some o /\ contents rt p = obj o) as Hin.
  { intros p [o Eo]%(ho_dom _ Ho). exists o. split; [done |]. unfold contents. by rewrite Eo. }
  assert (forall x, {reach rt x} + {~ reach rt x}) as Hdec.
  { intros x. destruct (decide (x ∈ gc_obj_list rt1)) as [H | H]; [left | right]; by rewrite <- Hl. }
  split; cbn.
  - done.
  - split.
    + rewrite app_nil_r. apply Ho.
    + intros p. rewrite app_nil_r, Hv, fmap_is_Some. apply Ho.
    + intros p o _ Hp. destruct (Hget p o Hp) as (? & _ & -> & -> & _). done.
    + intros p o Hp. destruct (Hget p o Hp) as (? & _ & -> & -> & Em & _). done.
    + intros p o Hp. rewrite Hcount. by destruct (Hget p o Hp) as (? & _ & _ & _ & _ & -> & _).
    + intros p Hp. rewrite app_nil_r, <- (ho_dom _ Ho). rewrite Hcount in Hp.
      destruct (decide (0 < ext rt p)) as [He | He].
      * unfold ext in He. destruct (heap rt !! p); [eauto | lia].
      * pose proof (ho_ext _ Ho p). assert (0 < cnt (refs rt (gc_obj_list rt)) p) as Hc by lia.
        apply cnt_pos, refs_inv in Hc as (q & _ & Hq). exact (ho_refs _ Ho q p Hq).
    + intros p Hp Hlev. destruct (Hin p Hp) as (o & Eo & _).
      assert (heap rt1 !! p = Some (mkObj (ext rt p + cnt (refs rt (gc_obj_list rt)) p) (mk p) (obj o))) as E1
        by (rewrite Hv, Eo; done).
      destruct (Hget p _ E1) as (o' & Eo' & _ & _ & _ & _ & Erc). rewrite Eo in Eo'. injection Eo' as <-.
      rewrite Hcount. pose proof (ho_pos _ Ho p o Eo). cbn in Erc. lia.
    + intros p Hp. by apply not_elem_of_nil in Hp.
    + intros p Hp. destruct (Hin p Hp) as (o & Eo & ->). eapply ho_closed; eauto.
    + intros p c Hp Hlev Hc. destruct (Hin p Hp) as (o & Eo & Ec). rewrite Ec in *.
      destruct (ho_refs _ Ho p c) as [oc Eoc]; [by rewrite kids_contents, Ec |].
      unfold contents. rewrite Eoc. exact (ho_typed _ Ho p o c oc Eo Eoc Hlev Hc).
  - intros x Hx%Ht. by rewrite <- reach_live.
  - done.
  - intros x Hx _. rewrite <- reach_live, Ht by done. destruct (Hdec x); auto.
  - intros x Hx. by apply not_elem_of_nil in Hx.
  - rewrite Hz. intros x Hx. by apply not_elem_of_nil in Hx.
  - rewrite Hz. constructor.
  - intros x. by rewrite Hl, reach_live.
  - done.
Qed.

(** The intact objects of the final state make a heap. *)
Lemma counted_heap_ok C E M ph A rt : (forall p, 0 <= E p) ->
  counted C E M ph A [] [] (heap rt) -> NoDup (gc_obj_list rt) ->
  (forall x, x ∈ gc_obj_list rt <-> x ∈ A) -> (forall p, p ∈ A -> 0 < count C E A [] p) ->
  (forall x, x ∈ A -> M x = 0) -> gc_zero_ref_count_list rt = [] -> gc_phase rt = JS_GC_PHASE_NONE ->
  heap_ok rt /\ forall p, p ∈ A -> ext rt p = E p.
Proof.
  intros HE [H1 H2 H3 H4 H5 H6 H7 H8 H9 H10] Hn Hl Hpos HM Hz Hph. rewrite app_nil_r in H1.
  assert (forall p, is_Some (heap rt !! p) <-> p ∈ A) as Hdom by (intros p; by rewrite H2, app_nil_r).
  assert (forall p o, heap rt !! p = Some o -> p ∈ A /\ obj o = C p) as Hget
    by (intros p o Ho; assert (p ∈ A) by (apply Hdom; eauto); eauto).
  assert (A ≡ₚ gc_obj_list rt) as HAl by (apply NoDup_Permutation; [done | done |]; intros x; by rewrite Hl).
  assert (forall p, p ∈ A -> kids_at rt p = kids (C p)) as Hk.
  { intros p Hp. unfold kids_at. destruct (proj2 (Hdom p) Hp) as [o Ho]. rewrite Ho.
    by destruct (Hget p o Ho) as [_ ->]. }
  assert (forall p, cnt (refs rt (gc_obj_list rt)) p = cnt (owned C A) p) as Hrefs.
  { intros p. rewrite <- (refs_perm rt _ _ p HAl). f_equal. unfold refs, owned.
    assert (forall l, (forall x, x ∈ l -> x ∈ A) ->
      flat_map (kids_at rt) l = flat_map (fun p => kids (C p)) l) as Hfl; [| by apply Hfl].
    induction l as [| x l IH]; intros Hs; [done |]. cbn. rewrite Hk by (apply Hs; left).
    f_equal. apply IH. intros y Hy. apply Hs. by right. }
  assert (forall p, p ∈ A -> ext rt p = E p) as Hext.
  { intros p Hp. unfold ext. destruct (proj2 (Hdom p) Hp) as [o Ho]. rewrite Ho, (H5 p o Ho), Hrefs.
    unfold count. rewrite cnt_nil. lia. }
  split; [| done]. split; try done.
  - intros p. by rewrite Hdom, HAl.
  - intros p o Ho. destruct (Hget p o Ho) as [Hp ->]. auto.
  - intros p c Hc. unfold kids_at in Hc. destruct (heap rt !! p) as [o |] eqn:Eo.
    + destruct (Hget p o Eo) as [Hp E0]. rewrite E0 in Hc. apply H2, H6. unfold count.
      pose proof (owned_pos C A p c Hp Hc). rewrite cnt_nil. specialize (HE c). lia.
    + by apply not_elem_of_nil in Hc.
  - intros p o c oc Ho Hoc Hlev Hc. destruct (Hget p o Ho) as [Hp E0]. destruct (Hget c oc Hoc) as [_ E1].
    rewrite E0, E1 in *. auto.
  - intros p o Ho. destruct (H4 p o Ho) as [_ ->]. apply HM. apply Hdom. eauto.
  - intros p. unfold ext. destruct (heap rt !! p) as [o |] eqn:Eo; [| lia].
    assert (p ∈ A) as Hp by (apply Hdom; eauto). specialize (HE p). rewrite <- (Hext p Hp) in HE.
    unfold ext in HE. by rewrite Eo in HE.
  - intros p o Ho. rewrite (H5 p o Ho). apply Hpos, Hdom. eauto.
Qed.

(** [heap_ok] of a concrete heap is decided by computation. *)
Definition object_okb (rt : JSRuntime) (p : Z) (o : JSGCObjectHeader) : bool :=
  closed (obj o) && (mark o =? 0) && (0 <? ref_count o) && (0 <=? ext rt p) &&
  forallb (fun c => match heap rt !! c with
                    | Some oc => (level (obj o) =? 0) || (level (obj oc) <? level (obj o))
                    | None => false
                    end) (kids (obj o)).
Definition heap_okb (rt : JSRuntime) : bool :=
  bool_decide (NoDup (gc_obj_list rt)) &&
  forallb (fun p => bool_decide (is_Some (heap rt !! p))) (gc_obj_list rt) &&
  forallb (fun x => bool_decide (x.1 ∈ gc_obj_list rt) && object_okb rt x.1 x.2)
    (map_to_list (heap rt)) &&
  bool_decide (gc_zero_ref_count_list rt = []) && bool_decide (gc_phase rt = JS_GC_PHASE_NONE).

Lemma heap_okb_ok rt : heap_okb rt = true -> heap_ok rt.
Proof.
  unfold heap_okb. rewrite !andb_true_iff, !forallb_forall, !bool_decide_eq_true.
  intros ((((Hn & Hin) & Hall) & Hz) & Hph).
  assert (forall p o, heap rt !! p = Some o -> p ∈ gc_obj_list rt /\ object_okb rt p o = true) as Hok.
  { intros p o Ho. apply elem_of_map_to_list, list_elem_of_In, Hall in Ho.
    rewrite andb_true_iff, bool_decide_eq_true in Ho. done. }
  assert (forall p o, heap rt !! p = Some o -> closed (obj o) = true /\ mark o = 0 /\
    0 < ref_count o /\ 0 <= ext rt p /\ forall c, c ∈ kids (obj o) -> exists oc,
    heap rt !! c = Some oc /\ (0 < level (obj o) -> level (obj oc) < level (obj o))) as Hobj.
  { intros p o Ho. apply Hok in Ho as [_ Ho]. unfold object_okb in Ho.
    rewrite !andb_true_iff, forallb_forall in Ho. destruct Ho as ((((H1 & H2) & H3) & H4) & H5).
    split_and!; [done | lia | lia | lia |]. intros c Hc. apply list_elem_of_In, H5 in Hc.
    destruct (heap rt !! c) as [oc |]; [| done]. exists oc. split; [done |]. lia. }
  split; try done.
  - intros p. split; [intros [o Ho]; apply (Hok p o Ho) |].
    intros Hp%list_elem_of_In. apply Hin in Hp. by apply bool_decide_eq_true in Hp.
  - intros p o Ho. apply (Hobj p o Ho).
  - intros p c Hc. unfold kids_at in Hc. destruct (heap rt !! p) as [o |] eqn:Ho.
    + destruct (Hobj p o Ho) as (_ & _ & _ & _ & Hk). destruct (Hk c Hc) as (oc & -> & _). eauto.
    + by apply not_elem_of_nil in Hc.
  - intros p o c oc Ho Hoc Hl Hc. destruct (Hobj p o Ho) as (_ & _ & _ & _ & Hk).
    destruct (Hk c Hc) as (oc' & Hoc' & Hlt). rewrite Hoc in Hoc'. injection Hoc' as <-. auto.
  - intros p o Ho. apply (Hobj p o Ho).
  - intros p. destruct (heap rt !! p) as [o |] eqn:Ho; [apply (Hobj p o Ho) |].
    unfold ext. by rewrite Ho.
  - intros p o Ho. apply (Hobj p o Ho).
Qed.

(** C2: the cycle collector is exact.  From any well-formed heap (of any shape,
    with any cycles) in which no closure shares a variable of a suspended frame
    and no object is a key of a WeakMap or WeakSet, [JS_RunGC] returns without an access to freed memory and
    without a failed assertion; the heap it leaves is well formed again and
    holds exactly the objects that were reachable from an object with a
    reference from outside the heap, each with its contents and its number of
    outside references unchanged, so that no garbage is left and nothing
    reachable is lost. *)
Theorem JS_RunGC_correct rt : heap_ok rt ->
  exists rt', JS_RunGC rt = Ret rt' /\ heap_ok rt' /\
    (forall p, is_Some (heap rt' !! p) <-> reach rt p) /\
    (forall p o', heap rt' !! p = Some o' ->
      exists o, heap rt !! p = Some o /\ obj o' = obj o /\ ext rt' p = ext rt p).
Proof.
  intros Ho. pose proof Ho as [Hn Hdom Hcl Hrf Hty Hmk Hx Hpos Hz Hph].
  assert (forall p c, p ∈ gc_obj_list rt -> c ∈ kids_at rt p -> c ∈ gc_obj_list rt) as Hrf'
    by (intros p c _ Hc; apply Hdom; eauto).
  unfold JS_RunGC.
  destruct (gc_decref_spec rt Hn Hdom Hcl Hrf' (fun p _ => Hx p) Hmk Hz) as (rt1 & -> & Hi).
  cbn [mbind res_bind].
  destruct (gc_scan_spec rt Hn Hdom Hcl Hrf' (fun p _ => Hx p) rt1 Hi) as (rt2 & mk & -> & Hm).
  cbn [mbind res_bind].
  pose proof (marked_cyc rt rt2 mk Ho Hm) as Hc.
  destruct (gc_free_cycles_spec _ _ _ Hx rt2 _ Hc) as (rt3 & A & -> & Hh & HA & Hn3 & Hl3 & Hz3 & Hph3).
  exists rt3. split; [done |].
  assert (forall p, is_Some (heap rt3 !! p) <-> p ∈ A) as Hdom3
    by (intros p; rewrite (ct_dom _ _ _ _ _ _ _ _ Hh), app_nil_r; done).
  destruct (counted_heap_ok _ _ _ _ A rt3 Hx Hh Hn3) as [Hok Hext]; auto.
  { intros x. by rewrite Hl3, HA. }
  { intros p HpA. exact (live_count _ _ Hx A p HA HpA). }
  { intros x Hx'. apply (mr_mark _ _ _ Hm), (mr_list _ _ _ Hm). apply reach_live; [done |]. by apply HA. }
  split; [done |]. split.
  - intros p. rewrite Hdom3, HA, reach_live by done. done.
  - intros p o' Hp. assert (p ∈ A) as HpA by (apply Hdom3; eauto).
    rewrite (ct_obj _ _ _ _ _ _ _ _ Hh p o' HpA Hp), (Hext p HpA).
    assert (reach rt p) as Hr by (apply reach_live; [done |]; by apply HA).
    apply reach_in in Hr; [| done]. apply Hdom in Hr as [o Eo].
    exists o. unfold contents. rewrite Eo. done.
Qed.

Lemma JS_RunGC_correct_witness :
  heap_ok cycle_heap /\
  exists rt', JS_RunGC cycle_heap = Ret rt' /\ heap_ok rt' /\
    (forall p, is_Some (heap rt' !! p) <-> reach cycle_heap p) /\
    (forall p o', heap rt' !! p = Some o' ->
      exists o, heap cycle_heap !! p = Some o /\ obj o' = obj o /\ ext rt' p = ext cycle_heap p).
Proof.
  assert (heap_ok cycle_heap) as H by (apply heap_okb_ok; vm_compute; reflexivity).
  split; [exact H | exact (JS_RunGC_correct cycle_heap H)].
Defined.

(** ** Variables shared between a suspended frame and a closure *)

(** A suspended generator 1 has a variable that holds object 2 and that closure
    3 shares through the open variable reference 5, whose own count does not
    include the value.  Only the closure is referenced from outside. *)
Definition shared_variable_heap : JSRuntime :=
  mkRT (list_to_map [
      (1, mkObj 1 0 (JS_OBJECT (Some 9) [PROP_VALUE (Some 1)] []
                       (Some (mkFrame [(5, Some 2)] None None [Some 2])) [] []));
      (2, mkObj 1 0 (JS_OBJECT (Some 9) [] [] None [] []));
      (3, mkObj 1 0 (JS_OBJECT (Some 9) [] [5] None [] []));
      (5, mkObj 1 0 (VAR_REF false None));
      (9, mkObj 3 0 (SHAPE None))])
    [9; 1; 2; 3] [] [] JS_GC_PHASE_NONE ∅.

(** The precondition on suspended frames is necessary (the one on weak
    references too: [weak_value_left]).  [mark_children]
    passes an open variable reference to the marker only when it is detached,
    so a variable of a suspended generator that a live closure shares is not
    marked through the closure.  When the generator is garbage in a cycle the
    collection frees the object in the variable, while the closure keeps, in
    the reference that is now detached, its address: the next read of the
    variable is a use after free. *)
Theorem shared_variable_use_after_free :
  exists rt' v r, JS_RunGC shared_variable_heap = Ret rt' /\
    heap rt' !! 3 = Some r /\ obj r = JS_OBJECT (Some 9) [] [5] None [] [] /\
    heap rt' !! 5 = Some v /\ obj v = VAR_REF true (Some 2) /\ heap rt' !! 2 = None.
Proof. vm_compute. do 3 eexists. split_and!; reflexivity. Qed.

(** ** Weak references

    The key 2 of a record of WeakMap 1 is garbage in a cycle, and the record
    holds the only reference to 3.  The collection marks 3 through the map, then
    frees the key and with it the record: the count of 3 becomes 0 while the
    phase is JS_GC_PHASE_REMOVE_CYCLES, in which [__JS_FreeValueRT] does nothing.
    So 3 stays, with no reference, until the next collection. *)
Definition weak_heap : JSRuntime :=
  mkRT (list_to_map [
      (1, mkObj 1 0 (JS_OBJECT (Some 9) [] [] None [] [7]));
      (2, mkObj 1 0 (JS_OBJECT (Some 9) [PROP_VALUE (Some 2)] [] None [7] []));
      (3, mkObj 1 0 (JS_OBJECT (Some 9) [] [] None [] []));
      (9, mkObj 3 0 (SHAPE None))])
    [9; 1; 2; 3] [] [] JS_GC_PHASE_NONE {[7 := mkWeak 1 2 (Some 3)]}.

Theorem weak_value_left :
  exists rt1 rt2 o, JS_RunGC weak_heap = Ret rt1 /\ heap rt1 !! 2 = None /\ weak_records rt1 = ∅ /\
    heap rt1 !! 3 = Some o /\ ref_count o = 0 /\ gc_zero_ref_count_list rt1 = [] /\
    JS_RunGC rt1 = Ret rt2 /\ heap rt2 !! 3 = None.
Proof.
  do 3 eexists. split; [vm_compute; reflexivity |].
  split_and!; vm_compute; reflexivity.
Qed.

(** Without a cycle the value goes at once, and so does the record when the map
    goes first. *)
Definition weak_tree : JSRuntime :=
  mkRT (list_to_map [
      (1, mkObj 1 0 (JS_OBJECT (Some 9) [] [] None [] [7]));
      (2, mkObj 1 0 (JS_OBJECT (Some 9) [] [] None [7] []));
      (3, mkObj 1 0 (JS_OBJECT (Some 9) [] [] None [] []));
      (9, mkObj 3 0 (SHAPE None))])
    [9; 1; 2; 3] [] [] JS_GC_PHASE_NONE {[7 := mkWeak 1 2 (Some 3)]}.

Example free_weak_key :
  JS_FreeValueRT weak_tree 2 = Ret (mkRT (list_to_map [
      (1, mkObj 1 0 (JS_OBJECT (Some 9) [] [] None [] []));
      (9, mkObj 1 0 (SHAPE None))]) [9; 1] [] [] JS_GC_PHASE_NONE ∅).
Proof. vm_compute. reflexivity. Qed.

Example free_weak_map_first :
  JS_FreeValueRT weak_tree 1 = Ret (mkRT (list_to_map [
      (2, mkObj 1 0 (JS_OBJECT (Some 9) [] [] None [] []));
      (9, mkObj 1 0 (SHAPE None))]) [9; 2] [] [] JS_GC_PHASE_NONE ∅).
Proof. vm_compute. reflexivity. Qed.
