(* ===== verification/GcRelease.v ===== *)
(** * quickjs.c: reference counting between collections

    [JS_FreeValueRT] and the objects it destroys in turn, on heaps without
    shared frame variables and weak references ([heap_ok]); what
    [close_var_refs] does with the variables of a frame that is freed is
    [close_var_refs_correct]. *)
From Stdlib Require Import ZArith Lia Bool Permutation.
From stdpp Require Import base numbers list gmap.
From S2P Require Import Prelude ListHead Gc GcFacts GcCycles.

Lemma counted_phase C E M ph ph' A P h :
  counted C E M ph A [] P h -> counted C E M ph' A [] P h.
Proof. intros [H1 H2 H3 H4 H5 H6 H7 H8 H9 H10]. split; try done. intros p Hp. by apply not_elem_of_nil in Hp. Qed.

(** ** [free_zero_refcount] *)
Section zero.
Variables (C : Z -> content) (E M : Z -> Z).
Hypothesis HE : forall p, 0 <= E p.

(** Every object without a reference waits in the list. *)
Record zero_inv (rt : JSRuntime) (A : list Z) : Prop := {
  zi_counted : counted C E M (gc_phase rt) A [] [] (heap rt);
  zi_zero : forall x, x ∈ gc_zero_ref_count_list rt <-> x ∈ A /\ count C E A [] x = 0;
  zi_gc : forall x, x ∈ gc_obj_list rt <-> x ∈ A /\ 0 < count C E A [] x;
  zi_nodup : NoDup (gc_obj_list rt)
}.

Lemma zero_step rt A p : zero_inv rt A -> gc_phase rt = JS_GC_PHASE_DECREF ->
  p ∈ gc_zero_ref_count_list rt ->
  exists rt' A', free_gc_object rt p = Ret rt' /\ zero_inv rt' A' /\
    gc_phase rt' = JS_GC_PHASE_DECREF /\ (length A' < length A)%nat /\ (forall x, x ∈ A' -> x ∈ A).
Proof.
  intros [Hc Hz Hg Hgn] Hph Hp. pose proof Hp as [HpA H0]%Hz.
  assert (level (C p) = 0) as Hl.
  { pose proof (level_range (C p)). destruct (decide (level (C p) = 0)); [done |].
    pose proof (ct_pos _ _ _ _ _ _ _ _ Hc p HpA ltac:(lia)). lia. }
  destruct (free_gc_object_spec C E M HE rt p A [] Hc HpA Hl (fun _ => H0))
    as (rt' & A' & X' & F & Zn & E1 & [F1 F2 F3 F4 F5 F6 F7 F8 F9 F10 F11 F12 F13 F14]).
  assert (X' = []) as -> by (destruct F2 as [? | [_ ?]]; [done | congruence]).
  specialize (F14 ltac:(rewrite Hph; done)).
  assert (forall x, x ∈ A <-> x = p \/ x ∈ A' \/ x ∈ F) as HA.
  { intros x. by rewrite F1, elem_of_cons, elem_of_app. }
  pose proof (ct_nodup _ _ _ _ _ _ _ _ Hc) as Hn. rewrite app_nil_r, F1 in Hn.
  apply list.NoDup_cons in Hn as [HpAF (_ & HAF & _)%list.NoDup_app].
  assert (forall x, count C E A' [] x <= count C E A [] x) as Hmono.
  { intros x. apply (count_mono C E A A' (p :: F) [] [] x). rewrite F1. apply Permutation_middle. }
  assert (forall x, x ∈ A' -> x <> p /\ x ∉ F) as Hout.
  { intros x Hx. split; [intros ->; apply HpAF, elem_of_app; auto | exact (HAF x Hx)]. }
  pose proof (count_nonneg C E HE A') as Hnn.
  exists rt', A'. split; [done |]. split.
  2: { split; [congruence |]. split; [| intros x Hx; apply HA; auto].
       apply Permutation_length in F1. cbn in F1. rewrite length_app in F1. lia. }
  split.
  - by rewrite F4.
  - intros x. rewrite F7. split.
    + intros [[_ ?] | [HxZ | [Hx Hnx]]]; [done | apply F11 in HxZ; tauto |].
      apply Hz in Hx as [HxA Hx0]. rewrite elem_of_cons, elem_of_app in Hnx.
      apply HA in HxA. specialize (Hmono x). specialize (Hnn [] x). split; [tauto | lia].
    + intros [HxA Hx0]. destruct (decide (x ∈ Zn)) as [| HnZ]; [auto |]. right. right.
      destruct (Hout x HxA). rewrite elem_of_cons, elem_of_app, Hz. split; [| tauto].
      split; [apply HA; auto |].
      destruct (proj2 (ct_dom _ _ _ _ _ _ _ _ Hc x)) as [o Ho]; [rewrite app_nil_r; apply HA; auto |].
      pose proof (ct_rc _ _ _ _ _ _ _ _ Hc x o Ho) as Erc.
      pose proof (count_nonneg C E HE A [] x).
      destruct (decide (count C E A [] x = 0)); [done |].
      destruct HnZ. apply (F14 x o); auto; lia.
  - intros x. rewrite F5, Hg, elem_of_cons, elem_of_app. split.
    + intros [[HxA Hx0] Hnx]. apply HA in HxA. assert (x ∈ A') as HxA' by tauto. split; [done |].
      destruct (proj2 (ct_dom _ _ _ _ _ _ _ _ Hc x)) as [o Ho]; [rewrite app_nil_r; apply HA; auto |].
      pose proof (ct_rc _ _ _ _ _ _ _ _ Hc x o Ho) as Erc. specialize (Hnn [] x).
      destruct (decide (count C E A' [] x = 0)) as [E0 |]; [| lia].
      destruct Hnx. right. right. apply (F14 x o); auto; lia.
    + intros [HxA Hx0]. destruct (Hout x HxA). specialize (Hmono x).
      split; [split; [apply HA; auto | lia] |].
      intros [? | [? | HxZ]]; [done | done |]. apply F11 in HxZ. lia.
  - auto.
Qed.

Lemma free_zero_loop_spec fuel : forall rt A, zero_inv rt A -> gc_phase rt = JS_GC_PHASE_DECREF ->
  (length A < fuel)%nat ->
  exists rt' A', free_zero_loop fuel rt = Ret rt' /\ zero_inv rt' A' /\
    gc_zero_ref_count_list rt' = [] /\ (forall x, x ∈ A' -> x ∈ A).
Proof.
  induction fuel as [| fuel IH]; intros rt A Hi Hph Hf; [lia |]. cbn [free_zero_loop].
  destruct (gc_zero_ref_count_list rt) as [| p l] eqn:Ez; [exists rt, A; auto |].
  assert (p ∈ gc_zero_ref_count_list rt) as Hp by (rewrite Ez; left).
  pose proof Hp as [HpA H0]%(zi_zero _ _ Hi).
  destruct (proj2 (ct_dom _ _ _ _ _ _ _ _ (zi_counted _ _ Hi) p)) as [o Ho]; [by rewrite app_nil_r |].
  unfold get_obj. rewrite Ho. cbn [of_opt mbind res_bind].
  rewrite (ct_rc _ _ _ _ _ _ _ _ (zi_counted _ _ Hi) p o Ho), H0. cbn [Z.eqb assert_ mbind res_bind].
  destruct (zero_step rt A p Hi Hph Hp) as (rt1 & A1 & -> & Hi1 & Hph1 & Hlt & Hs).
  cbn [mbind res_bind]. destruct (IH rt1 A1 Hi1 Hph1 ltac:(lia)) as (rt2 & A2 & -> & Hi2 & Ez2 & Hs2).
  exists rt2, A2. split_and!; auto.
Qed.
End zero.

(** ** [JS_FreeValueRT] *)
Lemma heap_counted rt ph E P : heap_ok rt -> (forall q, 0 <= E q) ->
  (forall q, ext rt q = E q + cnt P q) ->
  counted (contents rt) E (fun _ => 0) ph (gc_obj_list rt) [] P (heap rt).
Proof.
  intros Ho HE HP.
  assert (forall q, count (contents rt) E (gc_obj_list rt) P q =
    ext rt q + cnt (refs rt (gc_obj_list rt)) q) as Hcount
    by (intros q; unfold count; rewrite refs_contents, HP; lia).
  assert (forall q o, heap rt !! q = Some o -> contents rt q = obj o /\
    ref_count o = count (contents rt) E (gc_obj_list rt) P q) as Hget.
  { intros q o Hq. unfold contents at 1. rewrite Hcount. unfold ext. rewrite Hq. split; [done | lia]. }
  assert (forall q, q ∈ gc_obj_list rt -> exists o, heap rt !! q = Some o) as Hin
    by (intros q Hq; apply (ho_dom _ Ho) in Hq as [o Hq]; eauto).
  split.
  - rewrite app_nil_r. apply Ho.
  - intros q. rewrite app_nil_r. apply Ho.
  - intros q o _ Hq. by destruct (Hget q o Hq) as [-> _].
  - intros q o Hq. destruct (Hget q o Hq) as [-> _]. split; [done |]. eapply ho_mark; eauto.
  - intros q o Hq. by destruct (Hget q o Hq).
  - intros q Hq. rewrite app_nil_r, <- (ho_dom _ Ho). rewrite Hcount in Hq.
    destruct (decide (0 < ext rt q)) as [He | He].
    + unfold ext in He. destruct (heap rt !! q); [eauto | lia].
    + assert (0 < cnt (refs rt (gc_obj_list rt)) q) as Hc by lia.
      apply cnt_pos, refs_inv in Hc as (r & _ & Hr). exact (ho_refs _ Ho r q Hr).
  - intros q Hq _. destruct (Hin q Hq) as [o Eo]. destruct (Hget q o Eo) as [_ <-].
    eapply ho_pos; eauto.
  - intros q Hq. by apply not_elem_of_nil in Hq.
  - intros q Hq. destruct (Hin q Hq) as [o Eo]. destruct (Hget q o Eo) as [-> _].
    eapply ho_closed; eauto.
  - intros q c Hq Hlev Hc. destruct (Hin q Hq) as [o Eo]. destruct (Hget q o Eo) as [E1 _].
    rewrite E1 in *. destruct (ho_refs _ Ho q c) as [oc Eoc]; [by rewrite kids_contents, E1 |].
    unfold contents. rewrite Eoc. exact (ho_typed _ Ho q o c oc Eo Eoc Hlev Hc).
Qed.

(** ** The variables of a suspended frame *)
Lemma put_obj_lookup rt p o q : heap (put_obj rt p o) !! q = if decide (q = p) then Some o else heap rt !! q.
Proof. cbn. case_decide; [subst; apply lookup_insert_eq | by apply lookup_insert_ne]. Qed.

(** One more reference to [v]. *)
Lemma JS_DupValueRT_correct rt v : (forall c, v = Some c -> is_Some (heap rt !! c)) ->
  exists rt', JS_DupValueRT rt v = Ret rt' /\ gc_obj_list rt' = gc_obj_list rt /\
    forall q, heap rt' !! q = (fun o => set_ref_count o (ref_count o + cnt (opt_ref v) q)) <$> heap rt !! q.
Proof.
  intros Hv. destruct v as [c |].
  - destruct (Hv c eq_refl) as [o Ho]. cbn [JS_DupValueRT]. unfold get_obj. rewrite Ho. cbn [of_opt mbind res_bind].
    eexists. split_and!; [reflexivity | done |]. intros q. rewrite put_obj_lookup. cbn [opt_ref].
    rewrite cnt_cons, cnt_nil. repeat case_decide; subst; try congruence.
    + by rewrite Ho.
    + destruct (heap rt !! q) as [[n m c'] |]; [| done]. cbn. by rewrite Z.add_0_r.
  - exists rt. split_and!; [done | done |]. intros q. destruct (heap rt !! q) as [[n m c'] |]; [| done].
    cbn. by rewrite Z.add_0_r.
Qed.

(** [close_var_refs] of open variable references that are all different: each
    becomes a GC object that owns the value of its variable, each value gets a
    reference for each variable that holds it, and nothing else changes. *)
Theorem close_var_refs_correct refs : forall rt, NoDup refs.*1 ->
  (forall r v, (r, v) ∈ refs -> is_Some (heap rt !! r) /\ forall c, v = Some c -> is_Some (heap rt !! c)) ->
  exists rt', close_var_refs rt refs = Ret rt' /\ gc_obj_list rt' = gc_obj_list rt ++ refs.*1 /\
    forall q, (is_Some (heap rt' !! q) <-> is_Some (heap rt !! q)) /\
      forall o o', heap rt !! q = Some o -> heap rt' !! q = Some o' ->
        ref_count o' = ref_count o + cnt (opt_refs refs.*2) q /\
        (q ∉ refs.*1 -> obj o' = obj o) /\ (forall v, (q, v) ∈ refs -> obj o' = VAR_REF true v).
Proof.
  induction refs as [| [r v] refs IH]; intros rt Hn Hin; cbn [close_var_refs fmap list_fmap fst snd].
  - exists rt. rewrite List.app_nil_r. split_and!; [done | done |]. intros q. split; [done |].
    intros o o' Ho Ho'. rewrite Ho in Ho'. injection Ho' as <-. cbn. rewrite cnt_nil. split_and!; [lia | done |].
    intros v Hv. by apply not_elem_of_nil in Hv.
  - cbn in Hn. apply list.NoDup_cons in Hn as [Hr Hn].
    destruct (Hin r v) as [Hro Hv]; [left |].
    destruct (JS_DupValueRT_correct rt v Hv) as (rt1 & -> & Hg1 & H1). cbn [mbind res_bind].
    destruct Hro as [o0 Ho0].
    assert (heap rt1 !! r = Some (set_ref_count o0 (ref_count o0 + cnt (opt_ref v) r))) as Hr1 by (by rewrite H1, Ho0).
    unfold get_obj. rewrite Hr1. cbn [of_opt mbind res_bind]. unfold add_gc_object, get_obj.
    rewrite put_obj_lookup, decide_True by done. cbn [of_opt mbind res_bind].
    set (rt2 := set_gc_obj_list _ _).
    assert (forall q, heap rt2 !! q = if decide (q = r) then Some (mkObj (ref_count o0 + cnt (opt_ref v) r) 0 (VAR_REF true v))
      else heap rt1 !! q) as H2.
    { intros q. change (heap rt2) with (heap (put_obj (put_obj rt1 r (set_obj (set_ref_count o0 (ref_count o0 + cnt (opt_ref v) r)) (VAR_REF true v))) r
        (mkObj (ref_count o0 + cnt (opt_ref v) r) 0 (VAR_REF true v)))).
      rewrite !put_obj_lookup. by case_decide. }
    assert (forall q, is_Some (heap rt2 !! q) <-> is_Some (heap rt !! q)) as Hd.
    { intros q. rewrite H2. case_decide; [subst; rewrite Ho0; split; eauto |]. rewrite H1. apply fmap_is_Some. }
    destruct (IH rt2 Hn) as (rt' & -> & Hg & Hq).
    { intros r' v' Hv'. destruct (Hin r' v') as [Hs Hs']; [by right |]. rewrite Hd. split; [done |].
      intros c Hc. apply Hd. auto. }
    exists rt'. split; [done |]. split; [rewrite Hg; cbn; by rewrite Hg1, <- (assoc_L (++)) |].
    intros q. destruct (Hq q) as [Hqd Hqo]. split; [by rewrite Hqd, Hd |]. intros o o' Ho Ho'.
    change (opt_refs (v :: refs.*2)) with (opt_ref v ++ opt_refs refs.*2). rewrite cnt_app.
    destruct (decide (q = r)) as [-> | Hne].
    + assert (o = o0) as -> by congruence.
      destruct (Hqo _ o' (eq_trans (H2 r) ltac:(by rewrite decide_True)) Ho') as (E1 & E2 & _).
      cbn in E1. split_and!; [lia | intros H; destruct H; left |].
      intros v' [E | E]%elem_of_cons; [injection E as ->; by apply E2 |].
      destruct Hr. apply list_elem_of_fmap. exists (r, v'). done.
    + assert (heap rt2 !! q = Some (set_ref_count o (ref_count o + cnt (opt_ref v) q))) as Hq2
        by (rewrite H2, decide_False, H1, Ho by done; done).
      destruct (Hqo _ o' Hq2 Ho') as (E1 & E2 & E3). cbn in E1, E2. split_and!; [lia | |].
      * rewrite elem_of_cons. tauto.
      * intros v' [E | E]%elem_of_cons; [injection E as -> ->; done | auto].
Qed.

(** A suspended generator 1 that is freed while closure 3 shares its variable:
    the variable reference 5 takes over object 2, and every count is exact. *)
Definition suspended_heap : JSRuntime :=
  mkRT (list_to_map [
      (1, mkObj 1 0 (JS_OBJECT (Some 9) [] [] (Some (mkFrame [(5, Some 2)] None None [Some 2])) [] []));
      (2, mkObj 1 0 (JS_OBJECT (Some 9) [] [] None [] []));
      (3, mkObj 1 0 (JS_OBJECT (Some 9) [] [5] None [] []));
      (5, mkObj 1 0 (VAR_REF false None));
      (9, mkObj 3 0 (SHAPE None))])
    [9; 1; 2; 3] [] [] JS_GC_PHASE_NONE ∅.
Example run_suspended :
  JS_FreeValueRT suspended_heap 1 = Ret (mkRT (list_to_map [
      (2, mkObj 1 0 (JS_OBJECT (Some 9) [] [] None [] []));
      (3, mkObj 1 0 (JS_OBJECT (Some 9) [] [5] None [] []));
      (5, mkObj 1 0 (VAR_REF true (Some 2)));
      (9, mkObj 2 0 (SHAPE None))])
    [9; 2; 3; 5] [] [] JS_GC_PHASE_NONE ∅) /\
  heap_okb (mkRT (list_to_map [
      (2, mkObj 1 0 (JS_OBJECT (Some 9) [] [] None [] []));
      (3, mkObj 1 0 (JS_OBJECT (Some 9) [] [5] None [] []));
      (5, mkObj 1 0 (VAR_REF true (Some 2)));
      (9, mkObj 2 0 (SHAPE None))])
    [9; 2; 3; 5] [] [] JS_GC_PHASE_NONE ∅) = true.
Proof. split; vm_compute; reflexivity. Qed.

(** The references from outside after one of them, to [p], is given up. *)
Definition drop_ext (rt : JSRuntime) (p q : Z) : Z := ext rt q - (if decide (q = p) then 1 else 0).

(** C3: reference counting is sound and complete, on a well-formed heap in which
    no closure shares a variable of a suspended frame and no object is a key of a
    WeakMap or WeakSet.  Giving up an outside reference to [p]
    ([JS_FreeValueRT], or the function that frees the type of [p]) never touches
    freed memory and terminates; the heap it leaves is well formed, so every
    object left has a reference and every count is exact; what can still be
    reached from outside is left, and each object left has its contents and its
    outside references, less the one given up. *)
Theorem JS_FreeValueRT_correct rt p : heap_ok rt -> 0 < ext rt p ->
  exists rt', JS_FreeValueRT rt p = Ret rt' /\ heap_ok rt' /\
    (forall q, live (contents rt) (drop_ext rt p) q -> is_Some (heap rt' !! q)) /\
    (forall q o', heap rt' !! q = Some o' -> exists o, heap rt !! q = Some o /\
      obj o' = obj o /\ ext rt' q = drop_ext rt p q).
Proof.
  intros Ho Hp. set (C := contents rt). set (E := drop_ext rt p).
  assert (forall q, 0 <= E q) as HE.
  { intros q. unfold E, drop_ext. pose proof (ho_ext _ Ho q). case_decide; subst; lia. }
  assert (counted C E (fun _ => 0) (gc_phase rt) (gc_obj_list rt) [] ([p] ++ []) (heap rt)) as Hc.
  { apply heap_counted; [done | done |]. intros q. unfold E, drop_ext. cbn [app].
    rewrite cnt_cons, cnt_nil. repeat case_decide; congruence || lia. }
  unfold JS_FreeValueRT.
  destruct (release_spec C E (fun _ => 0) HE release_fuel rt p _ [] [] Hc) as (rt1 & A1 & F & Zn & -> & Hs).
  { pose proof (level_range (C p)). unfold release_fuel. lia. }
  cbn [mbind res_bind]. pose proof Hs as [S1 S2 S3 S4 S5 _ S7].
  pose proof S3 as [M1 _ M3 M4 _ _ M7 _ _]. rewrite (ho_phase _ Ho) in *.
  specialize (S7 ltac:(done)).
  assert (forall x, x ∈ gc_zero_ref_count_list rt1 <-> x ∈ Zn) as Hz.
  { intros x. rewrite M3, (ho_zero _ Ho), elem_of_nil_iff. tauto. }
  assert (zero_inv C E (fun _ => 0) rt1 A1) as Hi.
  { assert (forall x, x ∈ A1 -> count C E A1 [] x = 0 -> x ∈ Zn) as Hcomp.
    { intros x HxA H0. destruct (proj2 (ct_dom _ _ _ _ _ _ _ _ Hc x)) as [o Eo].
      { rewrite app_nil_r, S1. apply elem_of_app. auto. }
      apply (S7 x o); auto. eapply ho_pos; eauto. }
    pose proof (ct_nodup _ _ _ _ _ _ _ _ Hc) as Hn. rewrite app_nil_r, S1 in Hn.
    apply list.NoDup_app in Hn as (_ & Hd & _).
    split.
    - by rewrite M7.
    - intros x. rewrite Hz. split; [apply S4 | intros []; auto].
    - intros x. rewrite M1, S1, !elem_of_app. pose proof (count_nonneg C E HE A1 [] x). split.
      + intros [[Hx | Hx] Hn]; [| tauto]. split; [done |].
        destruct (decide (count C E A1 [] x = 0)); [| lia]. destruct Hn. auto.
      + intros [Hx Hx0]. split; [auto |]. intros [HxF | HxZ]; [by apply (Hd x) |].
        apply S4 in HxZ. lia.
    - apply M4, Ho. }
  assert (exists rt' A', (match gc_zero_ref_count_list rt1 with [] => Ret rt1 | _ => free_zero_refcount rt1 end)
    = Ret rt' /\ zero_inv C E (fun _ => 0) rt' A' /\ gc_zero_ref_count_list rt' = [] /\
    gc_phase rt' = JS_GC_PHASE_NONE /\ (forall x, x ∈ A' -> x ∈ A1))
    as (rt' & A' & -> & Hi' & Ez & Hph & Hsub).
  { destruct (gc_zero_ref_count_list rt1) as [| z zl] eqn:Ez.
    { exists rt1, A1. split_and!; auto. }
    unfold free_zero_refcount.
    assert (zero_inv C E (fun _ => 0) (set_gc_phase rt1 JS_GC_PHASE_DECREF) A1) as Hi1.
    { destruct Hi as [I1 I2 I3 I4]. split; try done. eapply counted_phase; exact I1. }
    destruct (free_zero_loop_spec C E (fun _ => 0) HE (gc_fuel rt1) _ A1 Hi1 eq_refl)
      as (rt2 & A2 & -> & [I1 I2 I3 I4] & Ez2 & Hs2).
    { unfold gc_fuel. rewrite <- size_dom.
      assert (A1 ⊆+ elements (dom (heap rt1))) as Hsub.
      { apply NoDup_submseteq; [by apply ct_nodup in S2 as (? & _)%list.NoDup_app |].
        intros x Hx. rewrite elem_of_elements, elem_of_dom.
        apply (ct_dom _ _ _ _ _ _ _ _ S2), elem_of_app. auto. }
      apply submseteq_length in Hsub.
      change (size (dom (heap rt1))) with (length (elements (dom (heap rt1)))). lia. }
    cbn [mbind res_bind]. exists (set_gc_phase rt2 JS_GC_PHASE_NONE), A2. split_and!; auto.
    split; try done. eapply counted_phase; exact I1. }
  pose proof Hi' as [I1 I2 I3 I4].
  assert (forall x, x ∈ A' -> 0 < count C E A' [] x) as Hpos.
  { intros x Hx. pose proof (count_nonneg C E HE A' [] x).
    destruct (decide (count C E A' [] x = 0)) as [H0 |]; [| lia].
    assert (x ∈ gc_zero_ref_count_list rt') as Hxz by (apply I2; auto).
    rewrite Ez in Hxz. by apply not_elem_of_nil in Hxz. }
  assert (forall q, is_Some (heap rt' !! q) <-> q ∈ A') as Hdom
    by (intros q; rewrite (ct_dom _ _ _ _ _ _ _ _ I1), app_nil_r; done).
  destruct (counted_heap_ok C E (fun _ => 0) _ A' rt' HE I1 I4) as [Hok Hext]; auto.
  { intros x. rewrite I3. split; [tauto |]. auto. }
  exists rt'. split_and!; [done | done | |].
  - intros q Hq. apply Hdom. apply (live_in C E (fun _ => 0) HE _ _ _ _ I1); [| done].
    intros x Hx. by apply not_elem_of_nil in Hx.
  - intros q o' Hq. assert (q ∈ A') as HqA by (apply Hdom; eauto).
    rewrite (ct_obj _ _ _ _ _ _ _ _ I1 q o' HqA Hq), (Hext q HqA).
    assert (is_Some (heap rt !! q)) as [o Eo].
    { apply (ho_dom _ Ho). rewrite S1. apply elem_of_app. auto. }
    exists o. unfold C, contents. rewrite Eo. done.
Qed.

(** The last reference to an object that owns another one. *)
Definition chain_heap : JSRuntime :=
  mkRT (list_to_map [
      (1, mkObj 1 0 (JS_OBJECT (Some 4) [PROP_VALUE (Some 2)] [] None [] []));
      (2, mkObj 1 0 (JS_OBJECT (Some 4) [PROP_NULL] [] None [] []));
      (3, mkObj 1 0 (JS_OBJECT (Some 4) [] [] None [] []));
      (4, mkObj 3 0 (SHAPE None))])
    [4; 2; 1; 3] [] [] JS_GC_PHASE_NONE ∅.

Example run_chain :
  JS_FreeValueRT chain_heap 1 =
  Ret (mkRT (list_to_map [
      (3, mkObj 1 0 (JS_OBJECT (Some 4) [] [] None [] []));
      (4, mkObj 1 0 (SHAPE None))])
    [4; 3] [] [] JS_GC_PHASE_NONE ∅).
Proof. vm_compute. reflexivity. Qed.

Lemma JS_FreeValueRT_correct_witness :
  heap_ok chain_heap /\ 0 < ext chain_heap 1 /\
  exists rt', JS_FreeValueRT chain_heap 1 = Ret rt' /\ heap_ok rt' /\
    (forall q, live (contents chain_heap) (drop_ext chain_heap 1) q -> is_Some (heap rt' !! q)) /\
    (forall q o', heap rt' !! q = Some o' -> exists o, heap chain_heap !! q = Some o /\
      obj o' = obj o /\ ext rt' q = drop_ext chain_heap 1 q).
Proof.
  assert (heap_ok chain_heap) as H by (apply heap_okb_ok; vm_compute; reflexivity).
  assert (0 < ext chain_heap 1) as Hx by (vm_compute; reflexivity).
  split; [exact H |]. split; [exact Hx | exact (JS_FreeValueRT_correct chain_heap 1 H Hx)].
Defined.
