(* ===== verification/JSValue.v ===== *)
(** * quickjs.h, quickjs.c: values, strings and their comparison

    Pointers are addresses.  A [double] is its 64-bit IEEE 754 pattern: the
    code modelled here only compares doubles and converts 32-bit integers.  The
    big number tags exist only with CONFIG_BIGNUM, which the plugin's build
    files do not define. *)
From Stdlib Require Import ZArith Lia Bool.
From stdpp Require Import base numbers list.
From S2P Require Import Prelude Cutils.

(** The characters have 8 bits, or 16 when [is_wide_char] is set. *)
Record JSString : Type := mkString { is_wide_char : bool; chars : list Z }.

Inductive JSValue : Type :=
| JS_TAG_SYMBOL (ptr : Z)
| JS_TAG_STRING (str : JSString)
| JS_TAG_OBJECT (ptr : Z)
| JS_TAG_INT (int32 : Z)
| JS_TAG_BOOL (int32 : Z)
| JS_TAG_NULL
| JS_TAG_UNDEFINED
| JS_TAG_EXCEPTION
| JS_TAG_FLOAT64 (float64 : Z).

Definition JS_VALUE_GET_NORM_TAG (v : JSValue) : Z :=
  match v with
  | JS_TAG_SYMBOL _ => -8
  | JS_TAG_STRING _ => -7
  | JS_TAG_OBJECT _ => -1
  | JS_TAG_INT _ => 0
  | JS_TAG_BOOL _ => 1
  | JS_TAG_NULL => 2
  | JS_TAG_UNDEFINED => 3
  | JS_TAG_EXCEPTION => 6
  | JS_TAG_FLOAT64 _ => 7
  end.

Definition JS_NewBool (b : bool) : JSValue := JS_TAG_BOOL (if b then 1 else 0).
Definition JS_IsObject (v : JSValue) : bool := match v with JS_TAG_OBJECT _ => true | _ => false end.

(** ** Doubles *)
Definition float64_abs (d : Z) : Z := Z.land d (2 ^ 63 - 1).
Definition isnan (d : Z) : bool := 2047 * 2 ^ 52 <? float64_abs d.
(** [d == 0.0] *)
Definition float64_is_zero (d : Z) : bool := float64_abs d =? 0.
(** [d1 == d2] *)
Definition float64_eq (d1 d2 : Z) : bool :=
  negb (isnan d1) && negb (isnan d2) && ((d1 =? d2) || (float64_is_zero d1 && float64_is_zero d2)).

(** The conversion of a 32-bit integer, which is exact. *)
Definition float64_of_int (n : Z) : Z :=
  if n =? 0 then 0
  else
    let e := Z.log2 (Z.abs n) in
    (if n <? 0 then 2 ^ 63 else 0) + (e + 1023) * 2 ^ 52 + (Z.abs n * 2 ^ (52 - e) - 2 ^ 52).

(** ** Strings *)

(** [memcmp] and its 16-bit variants: the difference of the first characters
    that differ. *)
Fixpoint memcmp16 (s1 s2 : list Z) (len : nat) : res Z :=
  match len with
  | O => Ret 0
  | S len =>
      match s1, s2 with
      | a :: s1, b :: s2 => if a - b =? 0 then memcmp16 s1 s2 len else Ret (a - b)
      | _, _ => Fault
      end
  end.

Definition js_string_memcmp (p1 p2 : JSString) (len : Z) : res Z :=
  if negb (is_wide_char p1) && is_wide_char p2 then
    c ← memcmp16 (chars p2) (chars p1) (Z.to_nat len); Ret (- c)
  else memcmp16 (chars p1) (chars p2) (Z.to_nat len).

Definition js_string_compare (p1 p2 : JSString) : res Z :=
  let len1 := zlen (chars p1) in
  let len2 := zlen (chars p2) in
  r ← js_string_memcmp p1 p2 (min_int len1 len2);
  if r =? 0 then Ret (if len1 =? len2 then 0 else if len1 <? len2 then -1 else 1)
  else Ret r.

Definition hash_string8 (str : list Z) (h : Z) : Z := fold_left (fun h c => u32 (h * 263 + c)) str h.
Definition hash_string16 (str : list Z) (h : Z) : Z := fold_left (fun h c => u32 (h * 263 + c)) str h.
Definition hash_string (str : JSString) (h : Z) : Z :=
  if is_wide_char str then hash_string16 (chars str) h else hash_string8 (chars str) h.

(** ** Numbers as text *)

(** The decimal digits of a natural number below [10 ^ fuel]. *)
Fixpoint dec_digits (fuel : nat) (n : Z) : list Z :=
  match fuel with
  | O => []
  | S fuel => if n <? 10 then [48 + n] else dec_digits fuel (n / 10) ++ [48 + n mod 10]
  end.

(** ** Strict equality and its variants *)
Inductive JSStrictEqModeEnum : Type := JS_EQ_STRICT | JS_EQ_SAME_VALUE | JS_EQ_SAME_VALUE_ZERO.

(** The label [number_test]. *)
Definition number_test (eq_mode : JSStrictEqModeEnum) (d1 d2 : Z) : bool :=
  match eq_mode with
  | JS_EQ_STRICT => float64_eq d1 d2
  | _ =>
      if isnan d1 || isnan d2 then Bool.eqb (isnan d1) (isnan d2)
      else match eq_mode with
           | JS_EQ_SAME_VALUE_ZERO => float64_eq d1 d2
           | _ => d1 =? d2
           end
  end.

Definition js_strict_eq2 (op1 op2 : JSValue) (eq_mode : JSStrictEqModeEnum) : res bool :=
  match op1, op2 with
  | JS_TAG_BOOL a, JS_TAG_BOOL b => Ret (a =? b)
  | JS_TAG_NULL, JS_TAG_NULL => Ret true
  | JS_TAG_UNDEFINED, JS_TAG_UNDEFINED => Ret true
  | JS_TAG_STRING p1, JS_TAG_STRING p2 => c ← js_string_compare p1 p2; Ret (c =? 0)
  | JS_TAG_SYMBOL p1, JS_TAG_SYMBOL p2 => Ret (p1 =? p2)
  | JS_TAG_OBJECT p1, JS_TAG_OBJECT p2 => Ret (p1 =? p2)
  | JS_TAG_INT a, JS_TAG_INT b => Ret (number_test eq_mode (float64_of_int a) (float64_of_int b))
  | JS_TAG_INT a, JS_TAG_FLOAT64 d2 => Ret (number_test eq_mode (float64_of_int a) d2)
  | JS_TAG_FLOAT64 d1, JS_TAG_FLOAT64 d2 => Ret (number_test eq_mode d1 d2)
  | JS_TAG_FLOAT64 d1, JS_TAG_INT b => Ret (number_test eq_mode d1 (float64_of_int b))
  | _, _ => Ret false
  end.
Definition js_strict_eq (op1 op2 : JSValue) : res bool := js_strict_eq2 op1 op2 JS_EQ_STRICT.
Definition js_same_value (op1 op2 : JSValue) : res bool := js_strict_eq2 op1 op2 JS_EQ_SAME_VALUE.
Definition js_same_value_zero (op1 op2 : JSValue) : res bool :=
  js_strict_eq2 op1 op2 JS_EQ_SAME_VALUE_ZERO.

(** ** The mathematical equality *)

(** SameValueZero of ECMAScript. *)
Definition same_value_zero (a b : JSValue) : bool :=
  match a, b with
  | JS_TAG_STRING p, JS_TAG_STRING q => bool_decide (chars p = chars q)
  | _, _ => match js_same_value_zero a b with Ret r => r | _ => false end
  end.

Lemma memcmp16_spec s1 : forall s2 n, (n <= length s1)%nat -> (n <= length s2)%nat ->
  exists c, memcmp16 s1 s2 n = Ret c /\ (c = 0 <-> take n s1 = take n s2).
Proof.
  induction s1 as [| a s1 IH]; intros s2 n H1 H2; cbn in H1.
  - replace n with O by lia. exists 0. done.
  - destruct n as [| n]; [exists 0; done |]. destruct s2 as [| b s2]; cbn in H2; [lia |].
    cbn [memcmp16 take]. destruct (Z.eqb_spec (a - b) 0).
    + destruct (IH s2 n) as (c & -> & Hc); [lia | lia |]. exists c. split; [done |].
      rewrite Hc. replace b with a by lia. split; congruence.
    + exists (a - b). split; [done |]. split; [lia |]. intros [= Hab _]. lia.
Qed.

Lemma js_string_compare_spec p q :
  exists c, js_string_compare p q = Ret c /\ (c = 0 <-> chars p = chars q).
Proof.
  unfold js_string_compare, js_string_memcmp, min_int.
  set (l1 := zlen (chars p)). set (l2 := zlen (chars q)).
  set (n := Z.to_nat (if l1 <? l2 then l1 else l2)).
  assert (n <= length (chars p) /\ n <= length (chars q) /\
          n = Nat.min (length (chars p)) (length (chars q)))%nat as (Hp & Hq & Hn).
  { subst n l1 l2. unfold zlen. destruct (Z.ltb_spec (Z.of_nat (length (chars p))) (Z.of_nat (length (chars q)))); lia. }
  assert (exists r, (if negb (is_wide_char p) && is_wide_char q
      then c ← memcmp16 (chars q) (chars p) n; Ret (- c) else memcmp16 (chars p) (chars q) n) = Ret r /\
      (r = 0 <-> take n (chars p) = take n (chars q))) as (r & -> & Hr).
  { destruct (negb (is_wide_char p) && is_wide_char q).
    - destruct (memcmp16_spec (chars q) (chars p) n Hq Hp) as (c & -> & Hc).
      exists (- c). split; [done |].
      split; intros H; [symmetry; apply Hc; lia | symmetry in H; apply Hc in H; lia].
    - exact (memcmp16_spec (chars p) (chars q) n Hp Hq). }
  cbn [mbind res_bind]. subst l1 l2. unfold zlen in *.
  destruct (Z.eqb_spec r 0) as [E | E].
  - eexists. split; [reflexivity |]. apply Hr in E.
    destruct (Z.eqb_spec (Z.of_nat (length (chars p))) (Z.of_nat (length (chars q)))) as [El | El].
    + split; [| done]. intros _. rewrite !firstn_all2 in E by lia. done.
    + destruct (Z.ltb_spec (Z.of_nat (length (chars p))) (Z.of_nat (length (chars q))));
        (split; [lia | intros Ep; rewrite Ep in El; lia]).
  - exists r. split; [done |]. split; [lia |]. intros Ep. destruct E. apply Hr. by rewrite Ep.
Qed.

(** The comparison never fails and decides SameValueZero. *)
Lemma js_same_value_zero_spec a b : js_same_value_zero a b = Ret (same_value_zero a b).
Proof.
  unfold js_same_value_zero, same_value_zero.
  destruct a as [| p | | | | | | |], b as [| q | | | | | | |]; try done.
  cbn. destruct (js_string_compare_spec p q) as (c & -> & Hc). cbn [mbind res_bind]. f_equal.
  apply eq_true_iff_eq. rewrite bool_decide_eq_true, Z.eqb_eq. done.
Qed.

(** ** Doubles of integers *)
Definition float64_int_val (d : Z) : Z :=
  let e := d / 2 ^ 52 mod 2048 - 1023 in
  let m := (2 ^ 52 + d mod 2 ^ 52) / 2 ^ (52 - e) in
  if d =? 0 then 0 else if 2 ^ 63 <=? d then - m else m.

Lemma float64_of_int_val n : - 2 ^ 31 <= n < 2 ^ 31 -> float64_int_val (float64_of_int n) = n.
Proof.
  intros Hn. unfold float64_of_int. destruct (Z.eqb_spec n 0) as [-> | Hn0]; [done |].
  set (e := Z.log2 (Z.abs n)).
  assert (0 <= e <= 31) as He.
  { split; [apply Z.log2_nonneg |]. assert (e < 32); [| lia]. apply Z.log2_lt_pow2; lia. }
  pose proof (Z.log2_spec (Z.abs n) ltac:(lia)) as Hl. fold e in Hl.
  set (m := Z.abs n * 2 ^ (52 - e)).
  assert (2 ^ 52 = 2 ^ e * 2 ^ (52 - e)) as E52 by (rewrite <- Z.pow_add_r by lia; f_equal; lia).
  assert (0 < 2 ^ (52 - e)) as Hp by (apply Z.pow_pos_nonneg; lia).
  assert (2 ^ 52 <= m < 2 * 2 ^ 52) as Hm.
  { unfold m. rewrite E52. rewrite Z.pow_succ_r in Hl by lia. nia. }
  set (s := if n <? 0 then 2 ^ 63 else 0).
  assert (s = 0 \/ s = 2 ^ 63) as Hs by (unfold s; destruct (n <? 0); auto).
  set (d := s + (e + 1023) * 2 ^ 52 + (m - 2 ^ 52)).
  assert (d / 2 ^ 52 mod 2048 = e + 1023) as Ee.
  { replace d with ((s / 2 ^ 52 + (e + 1023)) * 2 ^ 52 + (m - 2 ^ 52)).
    - rewrite Z.div_add_l by lia. rewrite (Z.div_small (m - 2 ^ 52)) by lia.
      destruct Hs as [-> | ->].
      + change (0 / 2 ^ 52) with 0. rewrite Z.mod_small; lia.
      + change (2 ^ 63 / 2 ^ 52) with 2048. replace (2048 + (e + 1023) + 0) with (e + 1023 + 1 * 2048) by lia.
        rewrite Z.mod_add by lia. apply Z.mod_small. lia.
    - unfold d. destruct Hs as [-> | ->]; [change (0 / 2 ^ 52) with 0 | change (2 ^ 63 / 2 ^ 52) with 2048]; lia. }
  assert (d mod 2 ^ 52 = m - 2 ^ 52) as Em.
  { symmetry. apply (Z.mod_unique d _ (s / 2 ^ 52 + (e + 1023))); [lia |].
    unfold d. destruct Hs as [-> | ->]; [change (0 / 2 ^ 52) with 0 | change (2 ^ 63 / 2 ^ 52) with 2048]; lia. }
  unfold float64_int_val. rewrite Ee, Em. replace (e + 1023 - 1023) with e by lia.
  replace (2 ^ 52 + (m - 2 ^ 52)) with m by lia. unfold m at 1 2. rewrite Z.div_mul by lia.
  assert (0 < d - s < 2 ^ 63) as Hd by (unfold d; lia).
  destruct (Z.eqb_spec d 0); [lia |]. clear - Hd. clearbody d. unfold s in Hd.
  destruct (Z.ltb_spec n 0), (Z.leb_spec (2 ^ 63) d); lia.
Qed.

Lemma float64_of_int_inj a b : - 2 ^ 31 <= a < 2 ^ 31 -> - 2 ^ 31 <= b < 2 ^ 31 ->
  float64_of_int a = float64_of_int b -> a = b.
Proof.
  intros Ha Hb E. rewrite <- (float64_of_int_val a Ha), <- (float64_of_int_val b Hb). by rewrite E.
Qed.

Example float64_of_minus_3 : float64_of_int (-3) = 0xc008000000000000.
Proof. reflexivity. Qed.
Example float64_of_big : float64_of_int 2147483647 = 0x41dfffffffc00000.
Proof. reflexivity. Qed.
