(* ===== verification/MapState.v ===== *)
(** * quickjs.c: Map, Set, WeakMap and WeakSet

    One map with its iterators and the [forEach] calls in progress.  The records
    are in a store; a freed record is absent from it, so that an access to it is
    a [Fault].  The objects that matter are the iterators of the map: when the
    last reference to one is given up, its finalizer runs.  The map itself is
    referenced throughout, and the receiver of a method has the class of the
    method. *)
From Stdlib Require Import ZArith Lia Bool.
From stdpp Require Import base numbers list gmap.
From S2P Require Import Prelude ListHead JSValue.

(** ** State *)
Record JSMapRecord : Type := mkRecord {
  ref_count : Z;     (** used during enumeration to avoid freeing the record *)
  empty : bool;      (** the record is deleted *)
  key : JSValue;
  value : JSValue
}.

(** [records] and the buckets of [hash_table] link the records. *)
Record JSMapState : Type := mkMap {
  is_weak : bool;
  records : list Z;
  record_count : Z;
  hash_table : list (list Z);
  hash_size : Z;
  record_count_threshold : Z
}.

Inductive JSIteratorKindEnum : Type :=
| JS_ITERATOR_KIND_KEY
| JS_ITERATOR_KIND_VALUE
| JS_ITERATOR_KIND_KEY_AND_VALUE.

(** [it_obj]: [it->obj] is the map and not JS_UNDEFINED.  [it_refs] is the
    reference count of the iterator object. *)
Record JSMapIteratorData : Type := mkIterator {
  it_refs : Z;
  it_obj : bool;
  kind : JSIteratorKindEnum;
  cur_record : option Z
}.

(** [is_set]: the bit MAGIC_SET of the class.  [calls]: the record and the
    arguments of each [forEach] that is calling its callback, the innermost
    first. *)
Record world : Type := mkWorld {
  map_state : JSMapState;
  is_set : bool;
  store : gmap Z JSMapRecord;
  first_weak_ref : gmap Z (list Z);
  next_addr : Z;
  iterators : gmap Z JSMapIteratorData;
  calls : list (Z * list JSValue)
}.

Definition set_map (w : world) s : world :=
  mkWorld s (is_set w) (store w) (first_weak_ref w) (next_addr w) (iterators w) (calls w).
Definition set_store (w : world) st : world :=
  mkWorld (map_state w) (is_set w) st (first_weak_ref w) (next_addr w) (iterators w) (calls w).
Definition set_weak (w : world) fw : world :=
  mkWorld (map_state w) (is_set w) (store w) fw (next_addr w) (iterators w) (calls w).
Definition set_next_addr (w : world) n : world :=
  mkWorld (map_state w) (is_set w) (store w) (first_weak_ref w) n (iterators w) (calls w).
Definition set_iterators (w : world) its : world :=
  mkWorld (map_state w) (is_set w) (store w) (first_weak_ref w) (next_addr w) its (calls w).
Definition set_calls (w : world) cs : world :=
  mkWorld (map_state w) (is_set w) (store w) (first_weak_ref w) (next_addr w) (iterators w) cs.

Definition set_records (s : JSMapState) l : JSMapState :=
  mkMap (is_weak s) l (record_count s) (hash_table s) (hash_size s) (record_count_threshold s).
Definition set_record_count (s : JSMapState) n : JSMapState :=
  mkMap (is_weak s) (records s) n (hash_table s) (hash_size s) (record_count_threshold s).
Definition set_hash_table (s : JSMapState) t : JSMapState :=
  mkMap (is_weak s) (records s) (record_count s) t (hash_size s) (record_count_threshold s).

Definition get_record (w : world) (mr : Z) : res JSMapRecord := of_opt (store w !! mr).
Definition put_record (w : world) (mr : Z) (r : JSMapRecord) : world :=
  set_store w (<[mr := r]> (store w)).
Definition set_value (r : JSMapRecord) v : JSMapRecord := mkRecord (ref_count r) (empty r) (key r) v.
Definition add_ref_count (r : JSMapRecord) n : JSMapRecord :=
  mkRecord (ref_count r + n) (empty r) (key r) (value r).

(** [list_del(&mr->link)] and [js_free_rt(rt, mr)] *)
Definition free_record (w : world) (mr : Z) : world :=
  let s := map_state w in
  set_store (set_map w (set_records s (remove_id mr (records s)))) (delete mr (store w)).

(** ** Keys *)
Definition map_normalize_key (key : JSValue) : JSValue :=
  match key with
  | JS_TAG_FLOAT64 d => if float64_is_zero d then JS_TAG_INT 0 else key
  | _ => key
  end.

Definition JS_FLOAT64_NAN : Z := 0x7ff8000000000000.

(** The label [hash_float64]. *)
Definition hash_float64 (d : Z) : Z := u32 (Z.lxor (d mod 2 ^ 32) (d / 2 ^ 32) * 3163).

(** The product of an integer key overflows an [int]; it is taken to wrap. *)
Definition map_hash_key (key : JSValue) : Z :=
  let h := match key with
           | JS_TAG_BOOL n => u32 n
           | JS_TAG_STRING p => hash_string p 0
           | JS_TAG_OBJECT p | JS_TAG_SYMBOL p => u32 (p * 3163)
           | JS_TAG_INT n => hash_float64 (float64_of_int (i32 (n * 3163)))
           | JS_TAG_FLOAT64 d => hash_float64 (if isnan d then JS_FLOAT64_NAN else d)
           | _ => 0
           end in
  Z.lxor h (u32 (JS_VALUE_GET_NORM_TAG key)).

Definition bucket_of (key : JSValue) (hash_size : Z) : Z := Z.land (map_hash_key key) (hash_size - 1).

(** ** The hash table *)
Fixpoint find_in_bucket (w : world) (l : list Z) (k : JSValue) : res (option Z) :=
  match l with
  | [] => Ret None
  | mr :: l =>
      r ← get_record w mr;
      same ← js_same_value_zero (key r) k;
      if (same : bool) then Ret (Some mr) else find_in_bucket w l k
  end.

Definition map_find_record (w : world) (k : JSValue) : res (option Z) :=
  let s := map_state w in
  l ← of_opt (znth (hash_table s) (bucket_of k (hash_size s)));
  find_in_bucket w l k.

(** [list_add_tail(&mr->hash_link, &table[h])] *)
Definition bucket_add (table : list (list Z)) (h mr : Z) : res (list (list Z)) :=
  l ← of_opt (znth table h); of_opt (zupd table h (l ++ [mr])).

Fixpoint rehash (w : world) (size : Z) (l : list Z) (table : list (list Z)) : res (list (list Z)) :=
  match l with
  | [] => Ret table
  | mr :: l =>
      r ← get_record w mr;
      table ← (if negb (empty r) then bucket_add table (bucket_of (key r) size) mr else Ret table);
      rehash w size l table
  end.

(** [mem]: the result of [js_realloc2], where [Some n] is a block with room for
    [n] more entries than were asked for. *)
Definition map_hash_resize (w : world) (mem : option Z) : res world :=
  let s := map_state w in
  let new_hash_size := if hash_size s =? 1 then 4 else u32 (hash_size s * 2) in
  match mem with
  | None => Ret w
  | Some slack =>
      let new_hash_size := u32 (new_hash_size + slack) in
      table ← rehash w new_hash_size (records s) (replicate (Z.to_nat new_hash_size) []);
      Ret (set_map w (mkMap (is_weak s) (records s) (record_count s) table new_hash_size
                        (u32 (new_hash_size * 2))))
  end.

(** ** References *)
Definition map_decref_record (w : world) (mr : Z) : res world :=
  r ← get_record w mr;
  let w := put_record w mr (add_ref_count r (-1)) in
  if ref_count r - 1 =? 0 then
    _ ← assert_ (empty r);
    Ret (free_record w mr)
  else Ret w.

Definition js_map_iterator_finalizer (w : world) (it : JSMapIteratorData) : res world :=
  if it_obj it then
    match cur_record it with Some mr => map_decref_record w mr | None => Ret w end
  else Ret w.

Definition JS_FreeValue (w : world) (v : JSValue) : res world :=
  match v with
  | JS_TAG_OBJECT p =>
      match iterators w !! p with
      | Some it =>
          if it_refs it =? 1 then
            js_map_iterator_finalizer (set_iterators w (delete p (iterators w))) it
          else
            Ret (set_iterators w
                   (<[p := mkIterator (it_refs it - 1) (it_obj it) (kind it) (cur_record it)]> (iterators w)))
      | None => Ret w
      end
  | _ => Ret w
  end.

Definition JS_DupValue (w : world) (v : JSValue) : world :=
  match v with
  | JS_TAG_OBJECT p =>
      match iterators w !! p with
      | Some it => set_iterators w
          (<[p := mkIterator (it_refs it + 1) (it_obj it) (kind it) (cur_record it)]> (iterators w))
      | None => w
      end
  | _ => w
  end.

(** ** Records *)

(** The memory available to an insertion: whether [js_malloc] serves the
    record, and [js_realloc2] the table. *)
Record memory : Type := mkMemory { record_mem : bool; table_mem : option Z }.

Definition weak_refs (w : world) (p : Z) : list Z := default [] (first_weak_ref w !! p).

Definition map_add_record (w : world) (k : JSValue) (mem : memory) : res (world * option Z) :=
  if negb (record_mem mem) then Ret (w, None)
  else
    let mr := next_addr w in
    let w := set_next_addr w (mr + 1) in
    w ← (if is_weak (map_state w) then
           match k with
           | JS_TAG_OBJECT p => Ret (set_weak w (<[p := mr :: weak_refs w p]> (first_weak_ref w)))
           | _ => Fault
           end
         else Ret (JS_DupValue w k));
    let w := put_record w mr (mkRecord 1 false k JS_TAG_UNDEFINED) in
    let s := map_state w in
    table ← bucket_add (hash_table s) (bucket_of k (hash_size s)) mr;
    let s := set_record_count (set_records (set_hash_table s table) (records s ++ [mr]))
               (u32 (record_count s + 1)) in
    let w := set_map w s in
    w ← (if record_count_threshold s <=? record_count s then map_hash_resize w (table_mem mem) else Ret w);
    Ret (w, Some mr).

Definition delete_weak_ref (w : world) (mr : Z) (k : JSValue) : res world :=
  match k with
  | JS_TAG_OBJECT p =>
      _ ← assert_ (bool_decide (mr ∈ weak_refs w p));
      Ret (set_weak w (<[p := remove_id mr (weak_refs w p)]> (first_weak_ref w)))
  | _ => Fault
  end.

Definition hash_unlink (w : world) (mr : Z) : world :=
  let s := map_state w in set_map w (set_hash_table s (remove_id mr <$> hash_table s)).

Definition map_delete_record (w : world) (mr : Z) : res world :=
  r ← get_record w mr;
  if empty r then Ret w
  else
    let w := hash_unlink w mr in
    w ← (if is_weak (map_state w) then delete_weak_ref w mr (key r) else JS_FreeValue w (key r));
    w ← JS_FreeValue w (value r);
    r ← get_record w mr;
    let w := (if ref_count r - 1 =? 0 then free_record w mr
              else (* keep a zombie record for iterators *)
                put_record w mr (mkRecord (ref_count r - 1) true JS_TAG_UNDEFINED JS_TAG_UNDEFINED)) in
    Ret (set_map w (set_record_count (map_state w) (u32 (record_count (map_state w) - 1)))).

Fixpoint reset_weak_unlink (w : world) (l : list Z) : res world :=
  match l with
  | [] => Ret w
  | mr :: l =>
      r ← get_record w mr;
      _ ← assert_ (is_weak (map_state w));
      _ ← assert_ (negb (empty r));
      let w := hash_unlink w mr in
      let s := map_state w in
      reset_weak_unlink (set_map w (set_records s (remove_id mr (records s)))) l
  end.
Fixpoint reset_weak_free (w : world) (l : list Z) : res world :=
  match l with
  | [] => Ret w
  | mr :: l =>
      r ← get_record w mr;
      w ← JS_FreeValue w (value r);
      reset_weak_free (set_store w (delete mr (store w))) l
  end.
(** Called when the object [p] is destroyed. *)
Definition reset_weak_ref (w : world) (p : Z) : res world :=
  w ← reset_weak_unlink w (weak_refs w p);
  w ← reset_weak_free w (weak_refs w p);
  Ret (set_weak w (delete p (first_weak_ref w))).

(** ** Methods *)

(** What a call of a method hands to its caller: it returns [this], a value or
    an exception; [forEach] calls its callback; [next] of an iterator gives the
    end of the enumeration or the fields of the next item. *)
Inductive reply : Type :=
| RThis
| RReturn (v : JSValue)
| RException
| RCall (args : list JSValue)
| RNext (done : bool) (fields : list JSValue).

Definition js_map_set (w : world) (arg0 arg1 : JSValue) (mem : memory) : res (world * reply) :=
  let k := map_normalize_key arg0 in
  if is_weak (map_state w) && negb (JS_IsObject k) then Ret (w, RException)
  else
    let v := if is_set w then JS_TAG_UNDEFINED else arg1 in
    mr ← map_find_record w k;
    '(w, mr) ← match mr with
               | Some mr => r ← get_record w mr; w ← JS_FreeValue w (value r); Ret (w, Some mr)
               | None => map_add_record w k mem
               end;
    match mr with
    | Some mr =>
        r ← get_record w mr;
        Ret (put_record (JS_DupValue w v) mr (set_value r v), RThis)
    | None => Ret (w, RException)
    end.

Definition js_map_get (w : world) (arg0 : JSValue) : res (world * reply) :=
  mr ← map_find_record w (map_normalize_key arg0);
  match mr with
  | None => Ret (w, RReturn JS_TAG_UNDEFINED)
  | Some mr => r ← get_record w mr; Ret (JS_DupValue w (value r), RReturn (value r))
  end.

Definition js_map_has (w : world) (arg0 : JSValue) : res (world * reply) :=
  mr ← map_find_record w (map_normalize_key arg0);
  Ret (w, RReturn (JS_NewBool (match mr with Some _ => true | None => false end))).

Definition js_map_delete (w : world) (arg0 : JSValue) : res (world * reply) :=
  mr ← map_find_record w (map_normalize_key arg0);
  match mr with
  | None => Ret (w, RReturn (JS_NewBool false))
  | Some mr => w ← map_delete_record w mr; Ret (w, RReturn (JS_NewBool true))
  end.

(** [list_for_each_safe(el, el1, &s->records)] *)
Fixpoint clear_loop (fuel : nat) (w : world) (el el1 : option Z) : res world :=
  match fuel with
  | O => NoFuel
  | S fuel =>
      match el with
      | None => Ret w
      | Some mr =>
          w ← map_delete_record w mr;
          el2 ← list_next (records (map_state w)) el1;
          clear_loop fuel w el1 el2
      end
  end.
Definition map_fuel (w : world) : nat := S (length (records (map_state w))).
Definition js_map_clear (w : world) : res (world * reply) :=
  let l := records (map_state w) in
  el ← list_next l None;
  el1 ← list_next l el;
  w ← clear_loop (map_fuel w) w el el1;
  Ret (w, RReturn JS_TAG_UNDEFINED).

Definition js_map_get_size (w : world) : res (world * reply) :=
  Ret (w, RReturn (let n := record_count (map_state w) in
                   if n <=? 0x7fffffff then JS_TAG_INT n else JS_TAG_FLOAT64 (float64_of_int n))).

(** The loop of [js_map_forEach] up to the next call of the callback. *)
Fixpoint forEach_from (fuel : nat) (w : world) (el : option Z) : res (world * reply) :=
  match fuel with
  | O => NoFuel
  | S fuel =>
      match el with
      | None => Ret (w, RReturn JS_TAG_UNDEFINED)
      | Some mr =>
          r ← get_record w mr;
          if negb (empty r) then
            let w := put_record w mr (add_ref_count r 1) in
            (* must duplicate in case the record is deleted *)
            let w := JS_DupValue w (key r) in
            let w := if is_set w then w else JS_DupValue w (value r) in
            let args := [if is_set w then key r else value r; key r] in
            Ret (set_calls w ((mr, args) :: calls w), RCall args)
          else
            el ← list_next (records (map_state w)) el;
            forEach_from fuel w el
      end
  end.
Definition js_map_forEach (w : world) : res (world * reply) :=
  el ← list_next (records (map_state w)) None; forEach_from (map_fuel w) w el.

(** The callback of the innermost [forEach] returns. *)
Definition forEach_return (w : world) (exception : bool) : res (world * reply) :=
  match calls w with
  | [] => Ret (w, RException)
  | (mr, args) :: cs =>
      let w := set_calls w cs in
      a0 ← of_opt (args !! 0%nat);
      a1 ← of_opt (args !! 1%nat);
      w ← JS_FreeValue w a0;
      w ← (if is_set w then Ret w else JS_FreeValue w a1);
      el ← list_next (records (map_state w)) (Some mr);
      w ← map_decref_record w mr;
      if exception then Ret (w, RException) else forEach_from (map_fuel w) w el
  end.

(** [p] is the address of the new object, which is not in use. *)
Definition js_create_map_iterator (w : world) (p : Z) (k : JSIteratorKindEnum) : res (world * reply) :=
  match iterators w !! p with
  | Some _ => Ret (w, RException)
  | None => Ret (set_iterators w (<[p := mkIterator 1 true k None]> (iterators w)), RReturn (JS_TAG_OBJECT p))
  end.

Definition set_iterator (w : world) (p : Z) (obj : bool) (cur : option Z) : res world :=
  it ← of_opt (iterators w !! p);
  Ret (set_iterators w (<[p := mkIterator (it_refs it) obj (kind it) cur]> (iterators w))).

Fixpoint iterator_next_from (fuel : nat) (w : world) (p : Z) (el : option Z) : res (world * reply) :=
  match fuel with
  | O => NoFuel
  | S fuel =>
      match el with
      | None =>
          (* no more record *)
          w ← set_iterator w p false None;
          Ret (w, RNext true [])
      | Some mr =>
          r ← get_record w mr;
          if negb (empty r) then
            (* lock the record so that it won't be freed *)
            w ← set_iterator (put_record w mr (add_ref_count r 1)) p true (Some mr);
            it ← of_opt (iterators w !! p);
            let v := if is_set w then key r else value r in
            Ret match kind it with
                | JS_ITERATOR_KIND_KEY => (JS_DupValue w (key r), RNext false [key r])
                | JS_ITERATOR_KIND_VALUE => (JS_DupValue w v, RNext false [v])
                | JS_ITERATOR_KIND_KEY_AND_VALUE =>
                    (JS_DupValue (JS_DupValue w (key r)) v, RNext false [key r; v])
                end
          else
            el ← list_next (records (map_state w)) el;
            iterator_next_from fuel w p el
      end
  end.

Definition js_map_iterator_next (w : world) (p : Z) : res (world * reply) :=
  match iterators w !! p with
  | None => Ret (w, RException)
  | Some it =>
      if negb (it_obj it) then Ret (w, RNext true [])
      else
        el ← list_next (records (map_state w)) (cur_record it);
        w ← match cur_record it with
            | Some mr => map_decref_record w mr
            | None => Ret w
            end;
        iterator_next_from (map_fuel w) w p el
  end.

Definition js_map_new (weak set : bool) : world :=
  mkWorld (mkMap weak [] 0 [[]] 1 4) set ∅ ∅ 0 ∅ [].

(** ** Programs *)
Inductive op : Type :=
| OSet (k v : JSValue) (mem : memory)
| OGet (k : JSValue)
| OHas (k : JSValue)
| ODelete (k : JSValue)
| OClear
| OSize
| OForEach
| OForEachReturn (exception : bool)
| OIterator (p : Z) (kind : JSIteratorKindEnum)
| ONext (p : Z)
| ODrop (v : JSValue)           (** the script gives up a reference *)
| OObjectFreed (p : Z).         (** an object that is no iterator is destroyed *)

(** WeakMap and WeakSet have only [set], [get], [has] and [delete]. *)
Definition enumerates (o : op) : bool :=
  match o with
  | OClear | OSize | OForEach | OForEachReturn _ | OIterator _ _ | ONext _ => true
  | _ => false
  end.

Definition step (w : world) (o : op) : res (world * reply) :=
  if is_weak (map_state w) && enumerates o then Ret (w, RException)
  else
    match o with
    | OSet k v mem => js_map_set w k v mem
    | OGet k => js_map_get w k
    | OHas k => js_map_has w k
    | ODelete k => js_map_delete w k
    | OClear => js_map_clear w
    | OSize => js_map_get_size w
    | OForEach => js_map_forEach w
    | OForEachReturn e => forEach_return w e
    | OIterator p k => js_create_map_iterator w p k
    | ONext p => js_map_iterator_next w p
    | ODrop v => w ← JS_FreeValue w v; Ret (w, RReturn JS_TAG_UNDEFINED)
    | OObjectFreed p => w ← reset_weak_ref w p; Ret (w, RReturn JS_TAG_UNDEFINED)
    end.

Fixpoint run (w : world) (ops : list op) : res (world * list reply) :=
  match ops with
  | [] => Ret (w, [])
  | o :: ops => '(w, r) ← step w o; '(w, rs) ← run w ops; Ret (w, r :: rs)
  end.

(** ** Examples *)
Definition plenty : memory := mkMemory true (Some 0).
Definition replies (ops : list op) : res (list reply) :=
  '(_, rs) ← run (js_map_new false false) ops; Ret rs.

(** A record deleted and another added during the enumeration. *)
Example run_iteration :
  replies [OSet (JS_TAG_INT 1) (JS_TAG_INT 10) plenty; OSet (JS_TAG_INT 2) (JS_TAG_INT 20) plenty;
           OIterator 100 JS_ITERATOR_KIND_KEY; ONext 100; ODelete (JS_TAG_INT 1);
           OSet (JS_TAG_INT 3) (JS_TAG_INT 30) plenty; ONext 100; ODelete (JS_TAG_INT 2); ONext 100; ONext 100;
           OSize] =
  Ret [RThis; RThis; RReturn (JS_TAG_OBJECT 100); RNext false [JS_TAG_INT 1]; RReturn (JS_TAG_BOOL 1);
       RThis; RNext false [JS_TAG_INT 2]; RReturn (JS_TAG_BOOL 1); RNext false [JS_TAG_INT 3]; RNext true [];
       RReturn (JS_TAG_INT 1)].
Proof. vm_compute. reflexivity. Qed.
