(* ===== verification/MapSpec.v ===== *)
(** * Map and Set as ECMAScript specifies them

    A map is the list of its entries in insertion order.  An entry has a number,
    which grows with each insertion; an enumeration remembers the number of the
    last entry it gave, and the next one is the first entry with a larger
    number.  Nothing here depends on hashing, reference counts or memory. *)
From Stdlib Require Import ZArith Lia Bool.
From stdpp Require Import base numbers list gmap.
From S2P Require Import Prelude ListHead JSValue MapState.

Record entry : Type := mkEntry { e_id : Z; e_key : JSValue; e_value : JSValue }.

Inductive position : Type := PStart | PAfter (id : Z) | PEnd.

Record smap : Type := mkSpec {
  s_entries : list entry;
  s_next : Z;
  s_iterators : gmap Z (JSIteratorKindEnum * position);
  s_calls : list Z
}.

Definition with_entries (m : smap) l : smap := mkSpec l (s_next m) (s_iterators m) (s_calls m).

Fixpoint find_entry (l : list entry) (k : JSValue) : option entry :=
  match l with
  | [] => None
  | e :: l => if same_value_zero (e_key e) k then Some e else find_entry l k
  end.
Definition update_entry (l : list entry) (id : Z) (v : JSValue) : list entry :=
  (fun e => if e_id e =? id then mkEntry id (e_key e) v else e) <$> l.
Definition remove_entry (l : list entry) (id : Z) : list entry := filter (fun e => e_id e <> id) l.

(** The entries an enumeration at position [pos] has not given. *)
Definition entries_after (l : list entry) (pos : position) : list entry :=
  match pos with
  | PStart => l
  | PAfter id => filter (fun e => id < e_id e) l
  | PEnd => []
  end.

Section spec.
(** The class: MAGIC_SET and MAGIC_WEAK. *)
Variables (set weak : bool).

Definition spec_set (m : smap) (arg0 arg1 : JSValue) (mem : bool) : smap * reply :=
  let k := map_normalize_key arg0 in
  if weak && negb (JS_IsObject k) then (m, RException)
  else
    let v := if set then JS_TAG_UNDEFINED else arg1 in
    match find_entry (s_entries m) k with
    | Some e => (with_entries m (update_entry (s_entries m) (e_id e) v), RThis)
    | None =>
        if mem then
          (mkSpec (s_entries m ++ [mkEntry (s_next m) k v]) (s_next m + 1) (s_iterators m) (s_calls m), RThis)
        else (m, RException)
    end.

Definition spec_get (m : smap) (arg0 : JSValue) : reply :=
  RReturn match find_entry (s_entries m) (map_normalize_key arg0) with
          | Some e => e_value e
          | None => JS_TAG_UNDEFINED
          end.

Definition spec_has (m : smap) (arg0 : JSValue) : reply :=
  RReturn (JS_NewBool match find_entry (s_entries m) (map_normalize_key arg0) with
                      | Some _ => true
                      | None => false
                      end).

Definition spec_delete (m : smap) (arg0 : JSValue) : smap * reply :=
  match find_entry (s_entries m) (map_normalize_key arg0) with
  | Some e => (with_entries m (remove_entry (s_entries m) (e_id e)), RReturn (JS_NewBool true))
  | None => (m, RReturn (JS_NewBool false))
  end.

(** [forEach] goes on from [pos]: it calls its callback with the next entry, or
    returns. *)
Definition spec_forEach (m : smap) (pos : position) (cs : list Z) : smap * reply :=
  match entries_after (s_entries m) pos with
  | e :: _ => (mkSpec (s_entries m) (s_next m) (s_iterators m) (e_id e :: cs),
               RCall [if set then e_key e else e_value e; e_key e])
  | [] => (mkSpec (s_entries m) (s_next m) (s_iterators m) cs, RReturn JS_TAG_UNDEFINED)
  end.

Definition fields (k : JSIteratorKindEnum) (e : entry) : list JSValue :=
  let v := if set then e_key e else e_value e in
  match k with
  | JS_ITERATOR_KIND_KEY => [e_key e]
  | JS_ITERATOR_KIND_VALUE => [v]
  | JS_ITERATOR_KIND_KEY_AND_VALUE => [e_key e; v]
  end.

Definition set_position (m : smap) (p : Z) (k : JSIteratorKindEnum) (pos : position) : smap :=
  mkSpec (s_entries m) (s_next m) (<[p := (k, pos)]> (s_iterators m)) (s_calls m).

Definition spec_next (m : smap) (p : Z) : smap * reply :=
  match s_iterators m !! p with
  | None => (m, RException)
  | Some (_, PEnd) => (m, RNext true [])
  | Some (k, pos) =>
      match entries_after (s_entries m) pos with
      | e :: _ => (set_position m p k (PAfter (e_id e)), RNext false (fields k e))
      | [] => (set_position m p k PEnd, RNext true [])
      end
  end.

Definition spec_step (m : smap) (o : op) : smap * reply :=
  if weak && enumerates o then (m, RException)
  else
    match o with
    | OSet k v mem => spec_set m k v (record_mem mem)
    | OGet k => (m, spec_get m k)
    | OHas k => (m, spec_has m k)
    | ODelete k => spec_delete m k
    | OClear => (with_entries m [], RReturn JS_TAG_UNDEFINED)
    | OSize => (m, RReturn (JS_TAG_INT (zlen (s_entries m))))
    | OForEach => spec_forEach m PStart (s_calls m)
    | OForEachReturn exception =>
        match s_calls m with
        | [] => (m, RException)
        | id :: cs =>
            if exception then (mkSpec (s_entries m) (s_next m) (s_iterators m) cs, RException)
            else spec_forEach m (PAfter id) cs
        end
    | OIterator p k =>
        match s_iterators m !! p with
        | Some _ => (m, RException)
        | None => (set_position m p k PStart, RReturn (JS_TAG_OBJECT p))
        end
    | ONext p => spec_next m p
    | ODrop v =>
        (match v with
         | JS_TAG_OBJECT p => mkSpec (s_entries m) (s_next m) (delete p (s_iterators m)) (s_calls m)
         | _ => m
         end, RReturn JS_TAG_UNDEFINED)
    | OObjectFreed p =>
        (if weak then
           with_entries m (filter (fun e => same_value_zero (e_key e) (JS_TAG_OBJECT p) = false) (s_entries m))
         else m, RReturn JS_TAG_UNDEFINED)
    end.

Fixpoint spec_run (m : smap) (ops : list op) : smap * list reply :=
  match ops with
  | [] => (m, [])
  | o :: ops => let '(m, r) := spec_step m o in let '(m, rs) := spec_run m ops in (m, r :: rs)
  end.
End spec.

Definition spec_new : smap := mkSpec [] 0 ∅ [].

(** ** Keys for which equal keys have equal hashes *)

(** A double that is an integer of 32 bits is represented with JS_TAG_INT, as
    [JS_NewFloat64] does. *)
Definition key_ok (k : JSValue) : Prop :=
  match k with
  | JS_TAG_INT n => - 2 ^ 31 <= n < 2 ^ 31
  | JS_TAG_FLOAT64 d => forall n, - 2 ^ 31 <= n < 2 ^ 31 -> n <> 0 -> d <> float64_of_int n
  | _ => True
  end.
Definition normalized (k : JSValue) : Prop := map_normalize_key k = k.

Lemma normalize_normalized k : normalized (map_normalize_key k).
Proof.
  unfold normalized. destruct k as [| | | | | | | | d]; try done. cbn.
  destruct (float64_is_zero d) eqn:E; [done |]. cbn. by rewrite E.
Qed.
Lemma normalize_key_ok k : key_ok k -> key_ok (map_normalize_key k).
Proof. destruct k; try done. cbn. destruct (float64_is_zero _); [done | auto]. Qed.

(** The conversion of an integer never gives a NaN, nor a zero except for 0. *)
Lemma float64_of_int_range n : - 2 ^ 31 <= n < 2 ^ 31 ->
  isnan (float64_of_int n) = false /\ (n <> 0 -> float64_is_zero (float64_of_int n) = false).
Proof.
  intros Hn. destruct (decide (n = 0)) as [-> | Hn0]; [done |].
  assert (0 < float64_abs (float64_of_int n) < 2047 * 2 ^ 52) as Ha.
  { unfold float64_of_int, float64_abs. destruct (Z.eqb_spec n 0); [done |].
    rewrite land_mask by lia. set (e := Z.log2 (Z.abs n)).
    assert (0 <= e < 32) as He by (split; [apply Z.log2_nonneg | apply Z.log2_lt_pow2; lia]).
    pose proof (Z.log2_spec (Z.abs n) ltac:(lia)) as Hl. fold e in Hl. rewrite Z.pow_succ_r in Hl by lia.
    assert (2 ^ 52 = 2 ^ e * 2 ^ (52 - e)) as E52 by (rewrite <- Z.pow_add_r by lia; f_equal; lia).
    assert (0 < 2 ^ (52 - e)) by (apply Z.pow_pos_nonneg; lia).
    assert (2 ^ 52 <= Z.abs n * 2 ^ (52 - e) < 2 * 2 ^ 52) as Hm by nia.
    set (m := Z.abs n * 2 ^ (52 - e)) in *.
    set (b := (e + 1023) * 2 ^ 52 + (m - 2 ^ 52)).
    assert (((if n <? 0 then 2 ^ 63 else 0) + (e + 1023) * 2 ^ 52 + (m - 2 ^ 52)) mod 2 ^ 63 = b) as ->;
      [| subst b; lia].
    destruct (n <? 0).
    - replace (2 ^ 63 + (e + 1023) * 2 ^ 52 + (m - 2 ^ 52)) with (b + 1 * 2 ^ 63) by (subst b; lia).
      rewrite Z.mod_add by lia. apply Z.mod_small. subst b. lia.
    - replace (0 + (e + 1023) * 2 ^ 52 + (m - 2 ^ 52)) with b by (subst b; lia).
      apply Z.mod_small. subst b. lia. }
  unfold isnan, float64_is_zero. split; [apply Z.ltb_ge; lia | intros _; apply Z.eqb_neq; lia].
Qed.

Lemma number_test_spec d1 d2 : number_test JS_EQ_SAME_VALUE_ZERO d1 d2 = true ->
  (isnan d1 = true /\ isnan d2 = true) \/
  (isnan d1 = false /\ isnan d2 = false /\
   (d1 = d2 \/ (float64_is_zero d1 = true /\ float64_is_zero d2 = true))).
Proof.
  cbn. unfold float64_eq. destruct (isnan d1), (isnan d2); cbn; try done; [auto |].
  rewrite orb_true_iff, andb_true_iff, Z.eqb_eq. intros H. right. tauto.
Qed.

(** The hash function respects SameValueZero on such keys. *)
Lemma map_hash_key_same a b : key_ok a -> key_ok b -> normalized a -> normalized b ->
  same_value_zero a b = true -> map_hash_key a = map_hash_key b.
Proof.
  intros Ha Hb Na Nb E. unfold same_value_zero, js_same_value_zero in E.
  destruct a as [p | s | p | n | n | | | | d], b as [q | t | q | m | m | | | | f]; cbn in E; try done.
  - apply Z.eqb_eq in E as ->. done.
  - apply bool_decide_eq_true in E. unfold map_hash_key, hash_string, hash_string8, hash_string16.
    rewrite E. by destruct (is_wide_char s), (is_wide_char t).
  - apply Z.eqb_eq in E as ->. done.
  - apply number_test_spec in E.
    destruct (float64_of_int_range n Ha) as [Hn1 Hn2], (float64_of_int_range m Hb) as [Hm1 Hm2].
    destruct E as [[? _] | (_ & _ & [E | [E1 E2]])]; [congruence | |].
    + by rewrite (float64_of_int_inj n m Ha Hb E).
    + destruct (decide (n = 0)) as [-> |]; [| rewrite Hn2 in E1 by done; done].
      destruct (decide (m = 0)) as [-> |]; [done | rewrite Hm2 in E2 by done; done].
  - apply number_test_spec in E. destruct (float64_of_int_range n Ha) as [Hn1 Hn2].
    unfold normalized in Nb. cbn in Nb. destruct (float64_is_zero f) eqn:Ef; [done |].
    destruct E as [[? _] | (_ & _ & [E | [_ E2]])]; [congruence | | congruence].
    destruct (decide (n = 0)) as [-> | Hn0]; [cbn in E; subst f; done |].
    exfalso. exact (Hb n Ha Hn0 (eq_sym E)).
  - apply Z.eqb_eq in E as ->. done.
  - apply number_test_spec in E. destruct (float64_of_int_range m Hb) as [Hm1 Hm2].
    unfold normalized in Na. cbn in Na. destruct (float64_is_zero d) eqn:Ed; [done |].
    destruct E as [[_ ?] | (_ & _ & [E | [E1 _]])]; [congruence | | congruence].
    destruct (decide (m = 0)) as [-> | Hm0]; [cbn in E; subst d; done |].
    exfalso. exact (Ha m Hb Hm0 E).
  - apply number_test_spec in E. unfold normalized in Na, Nb. cbn in Na, Nb.
    destruct (float64_is_zero d) eqn:Ed; [done |].
    destruct E as [[E1 E2] | (_ & _ & [-> | [E1 _]])]; [| done | congruence].
    unfold map_hash_key. rewrite E1, E2. done.
Qed.
