(* ===== verification/MapFacts.v ===== *)
(** * quickjs.c: the invariant of a map, and what each operation does to it *)
From Stdlib Require Import ZArith Lia Bool.
From stdpp Require Import base numbers list gmap sorting.
From S2P Require Import Prelude ListHead JSValue MapState MapSpec.

(** ** The entries of a list of records *)
Definition entry_of (st : gmap Z JSMapRecord) (mr : Z) : option entry :=
  match st !! mr with
  | Some r => if empty r then None else Some (mkEntry mr (key r) (value r))
  | None => None
  end.
Definition entries_of (st : gmap Z JSMapRecord) (l : list Z) : list entry := omap (entry_of st) l.

Lemma entries_cons st x l : entries_of st (x :: l) =
  match entry_of st x with Some e => e :: entries_of st l | None => entries_of st l end.
Proof. unfold entries_of. cbn. by destruct (entry_of st x). Qed.
Lemma entries_app st l k : entries_of st (l ++ k) = entries_of st l ++ entries_of st k.
Proof. apply omap_app. Qed.

Lemma entry_of_Some st mr e : entry_of st mr = Some e ->
  exists r, st !! mr = Some r /\ empty r = false /\ e = mkEntry mr (key r) (value r).
Proof.
  unfold entry_of. destruct (st !! mr) as [r |]; [| done].
  destruct (empty r) eqn:E; [done |]. intros [= <-]. eauto.
Qed.
Lemma entry_of_live st mr r : st !! mr = Some r -> empty r = false ->
  entry_of st mr = Some (mkEntry mr (key r) (value r)).
Proof. intros H E. unfold entry_of. by rewrite H, E. Qed.

Lemma entries_in st l e : e ∈ entries_of st l ->
  exists r, e_id e ∈ l /\ st !! e_id e = Some r /\ empty r = false /\ e = mkEntry (e_id e) (key r) (value r).
Proof.
  unfold entries_of. rewrite list_elem_of_omap. intros (mr & Hmr & He).
  apply entry_of_Some in He as (r & Hr & E & ->). exists r. done.
Qed.

Lemma entries_ext st st' l : (forall x, x ∈ l -> entry_of st' x = entry_of st x) ->
  entries_of st' l = entries_of st l.
Proof.
  induction l as [| x l IH]; intros H; [done |]. rewrite !entries_cons, H by left.
  rewrite IH; [done |]. intros y Hy. apply H. by right.
Qed.

(** A change of one record. *)
Lemma entry_of_ne st mr r x : x <> mr -> entry_of (<[mr := r]> st) x = entry_of st x.
Proof. intros H. unfold entry_of. by rewrite lookup_insert_ne. Qed.
Lemma entry_of_delete_ne st mr x : x <> mr -> entry_of (delete mr st) x = entry_of st x.
Proof. intros H. unfold entry_of. by rewrite lookup_delete_ne. Qed.

Lemma entry_of_id st mr e : entry_of st mr = Some e -> e_id e = mr.
Proof. intros H. apply entry_of_Some in H as (r & _ & _ & ->). done. Qed.

Lemma entries_put st l mr r r' : st !! mr = Some r -> empty r' = empty r -> key r' = key r ->
  entries_of (<[mr := r']> st) l = update_entry (entries_of st l) mr (value r').
Proof.
  intros Hr He Hk. induction l as [| x l IH]; [done |]. rewrite !entries_cons, IH.
  destruct (decide (x = mr)) as [-> | Hne].
  - unfold entry_of. rewrite lookup_insert_eq, Hr, He. destruct (empty r); [done |].
    unfold update_entry. cbn. by rewrite Z.eqb_refl, Hk.
  - rewrite entry_of_ne by done. destruct (entry_of st x) as [e |] eqn:E; [| done].
    unfold update_entry. cbn. apply entry_of_id in E. destruct (Z.eqb_spec (e_id e) mr); [congruence | done].
Qed.

Lemma update_same st l mr r : st !! mr = Some r -> update_entry (entries_of st l) mr (value r) = entries_of st l.
Proof.
  intros Hr. rewrite <- (entries_put st l mr r r Hr eq_refl eq_refl). by rewrite insert_id.
Qed.

Lemma entries_gone st st' l mr : (forall x, x <> mr -> entry_of st' x = entry_of st x) ->
  entry_of st' mr = None -> entries_of st' l = remove_entry (entries_of st l) mr.
Proof.
  intros Hne Hmr. induction l as [| x l IH]; [done |]. rewrite !entries_cons, IH.
  destruct (decide (x = mr)) as [-> | Hx].
  - rewrite Hmr. destruct (entry_of st mr) as [e |] eqn:E; [| done].
    unfold remove_entry. rewrite filter_cons_False; [done |]. apply entry_of_id in E. lia.
  - rewrite Hne by done. destruct (entry_of st x) as [e |] eqn:E; [| done].
    unfold remove_entry. rewrite filter_cons_True; [done |]. apply entry_of_id in E. lia.
Qed.

Lemma entries_remove st l mr : entry_of st mr = None -> entries_of st (remove_id mr l) = entries_of st l.
Proof.
  intros Hmr. induction l as [| x l IH]; [done |]. unfold remove_id in *. rewrite filter_cons.
  destruct (decide (x <> mr)) as [Hx | Hx].
  - rewrite !entries_cons, IH. done.
  - apply dec_stable in Hx as ->. rewrite entries_cons, Hmr. exact IH.
Qed.

Lemma remove_entry_notin l id : (forall e, e ∈ l -> e_id e <> id) -> remove_entry l id = l.
Proof.
  induction l as [| e l IH]; intros H; [done |]. unfold remove_entry in *.
  rewrite filter_cons_True by (apply H; left). rewrite IH; [done |]. intros x Hx. apply H. by right.
Qed.

Lemma remove_entry_zlen st l mr e : NoDup l -> mr ∈ l -> entry_of st mr = Some e ->
  zlen (remove_entry (entries_of st l) mr) = zlen (entries_of st l) - 1.
Proof.
  intros Hn Hin He. induction l as [| x l IH]; [by apply not_elem_of_nil in Hin |].
  apply list.NoDup_cons in Hn as [Hx Hn]. rewrite entries_cons.
  apply elem_of_cons in Hin as [-> | Hin].
  - rewrite He. unfold remove_entry. rewrite filter_cons_False by (apply entry_of_id in He; lia).
    change (filter _ _) with (remove_entry (entries_of st l) x). rewrite remove_entry_notin; [zlen_lia |].
    intros e' Hin' Heq. apply entries_in in Hin' as (r & Hin' & _). by rewrite Heq in Hin'.
  - destruct (entry_of st x) as [ex |] eqn:Ex; [| by apply IH].
    unfold remove_entry. apply entry_of_id in Ex. rewrite filter_cons_True by congruence.
    change (filter _ _) with (remove_entry (entries_of st l) mr). rewrite !zlen_cons, IH by done. lia.
Qed.

(** Enumeration: the entries after a record are those of the records after it. *)
Lemma entries_after_split st D R mr : (forall x, x ∈ D -> x <= mr) -> (forall x, x ∈ R -> mr < x) ->
  entries_after (entries_of st (D ++ R)) (PAfter mr) = entries_of st R.
Proof.
  intros HD HR. cbn [entries_after]. rewrite entries_app, list.filter_app, filter_none, filter_all; [done | |].
  - intros e He. apply entries_in in He as (r & Hin & _). auto.
  - intros e He. apply entries_in in He as (r & Hin & _). specialize (HD _ Hin). lia.
Qed.

(** ** Buckets *)
Definition in_bucket (st : gmap Z JSMapRecord) (size h mr : Z) : bool :=
  match st !! mr with
  | Some r => negb (empty r) && (bucket_of (key r) size =? h)
  | None => false
  end.
Definition bucket (st : gmap Z JSMapRecord) (size h : Z) (l : list Z) : list Z :=
  filter (fun mr => in_bucket st size h mr = true) l.

(** A table of [size] buckets over the records [l]. *)
Definition table_ok (st : gmap Z JSMapRecord) (l : list Z) (table : list (list Z)) (size : Z) : Prop :=
  zlen table = size /\ forall h, 0 <= h < size -> znth table h = Some (bucket st size h l).

Lemma bucket_of_range k size : 0 < size -> 0 <= bucket_of k size < size.
Proof.
  intros Hs. unfold bucket_of. set (a := map_hash_key k).
  assert (Z.land a (size - 1) = Z.land (size - 1) a) as -> by apply Z.land_comm.
  assert (0 <= Z.land (size - 1) a) by (apply Z.land_nonneg; lia). split; [done |].
  set (b := Z.land (size - 1) a) in *.
  assert (Z.ldiff b (size - 1) = 0) as E.
  { apply Z.bits_inj'. intros i Hi. unfold b. rewrite Z.ldiff_spec, Z.land_spec, Z.bits_0.
    by destruct (Z.testbit (size - 1) i), (Z.testbit a i). }
  apply Z.sub_nocarry_ldiff in E. assert (0 <= Z.ldiff (size - 1) b) by (apply Z.ldiff_nonneg; lia). lia.
Qed.

Lemma bucket_cons st size h x l : bucket st size h (x :: l) =
  if in_bucket st size h x then x :: bucket st size h l else bucket st size h l.
Proof. unfold bucket. rewrite filter_cons. by destruct (in_bucket st size h x). Qed.

Lemma bucket_app st size h l k : bucket st size h (l ++ k) = bucket st size h l ++ bucket st size h k.
Proof. apply list.filter_app. Qed.

Lemma find_bucket st l k size :
  (forall mr r, st !! mr = Some r -> empty r = false -> same_value_zero (key r) k = true ->
    bucket_of (key r) size = bucket_of k size) ->
  find_entry (entries_of st (bucket st size (bucket_of k size) l)) k = find_entry (entries_of st l) k.
Proof.
  intros Hb. induction l as [| x l IH]; [done |]. rewrite bucket_cons, (entries_cons st x l).
  destruct (in_bucket st size (bucket_of k size) x) eqn:E.
  - rewrite entries_cons. destruct (entry_of st x) as [e |]; [| done]. cbn.
    by destruct (same_value_zero (e_key e) k).
  - destruct (entry_of st x) as [e |] eqn:Ee; [| done]. cbn.
    destruct (same_value_zero (e_key e) k) eqn:Es; [| done].
    apply entry_of_Some in Ee as (r & Hr & He & ->). exfalso. unfold in_bucket in E.
    rewrite Hr, He, (Hb x r Hr He Es), Z.eqb_refl in E. done.
Qed.

Lemma find_in_bucket_spec w l k :
  (forall mr, mr ∈ l -> exists r, store w !! mr = Some r /\ empty r = false) ->
  find_in_bucket w l k = Ret (e_id <$> find_entry (entries_of (store w) l) k).
Proof.
  induction l as [| x l IH]; intros Hl; [done |]. cbn [find_in_bucket].
  destruct (Hl x) as (r & Hr & He); [left |]. unfold get_record. rewrite Hr. cbn [of_opt mbind res_bind].
  rewrite js_same_value_zero_spec. cbn [mbind res_bind].
  rewrite entries_cons, (entry_of_live _ _ r Hr He). cbn [find_entry e_key].
  destruct (same_value_zero (key r) k); [done |]. apply IH. intros y Hy. apply Hl. by right.
Qed.

Lemma find_entry_Some l k e : find_entry l k = Some e -> e ∈ l /\ same_value_zero (e_key e) k = true.
Proof.
  induction l as [| x l IH]; [done |]. cbn. destruct (same_value_zero (e_key x) k) eqn:E.
  - intros [= ->]. split; [left | done].
  - intros H. destruct (IH H). split; [by right | done].
Qed.

Lemma bucket_live st size h l mr : mr ∈ bucket st size h l ->
  mr ∈ l /\ exists r, st !! mr = Some r /\ empty r = false /\ bucket_of (key r) size = h.
Proof.
  unfold bucket. rewrite list_elem_of_filter. intros [E Hin]. split; [done |].
  unfold in_bucket in E. destruct (st !! mr) as [r |]; [| done].
  apply andb_true_iff in E as [E1 E2]. exists r. split_and!; [done | by destruct (empty r) | lia].
Qed.

Lemma in_bucket_ext st st' size h mr :
  (forall r, st !! mr = Some r -> exists r', st' !! mr = Some r' /\ empty r' = empty r /\ key r' = key r) ->
  (st !! mr = None -> st' !! mr = None) -> in_bucket st' size h mr = in_bucket st size h mr.
Proof.
  intros H1 H2. unfold in_bucket. destruct (st !! mr) as [r |].
  - destruct (H1 r eq_refl) as (r' & -> & -> & ->). done.
  - by rewrite H2.
Qed.

Lemma table_ok_put st l table size mr r r' : st !! mr = Some r -> empty r' = empty r -> key r' = key r ->
  table_ok st l table size -> table_ok (<[mr := r']> st) l table size.
Proof.
  intros Hr He Hk [Hz Ht]. split; [done |]. intros h Hh. rewrite (Ht h Hh). f_equal.
  apply list_filter_iff. intros x. unfold in_bucket.
  destruct (decide (x = mr)) as [-> |]; [| by rewrite lookup_insert_ne].
  by rewrite lookup_insert_eq, Hr, He, Hk.
Qed.

(** A record leaves the table. *)
Lemma bucket_gone st st' size h l mr : (forall x, x <> mr -> st' !! x = st !! x) ->
  in_bucket st' size h mr = false -> bucket st' size h l = remove_id mr (bucket st size h l).
Proof.
  intros Hne Hmr. unfold bucket, remove_id. rewrite list_filter_filter. apply list_filter_iff.
  intros x. destruct (decide (x = mr)) as [-> | Hx].
  - rewrite Hmr. split; [done | tauto].
  - unfold in_bucket. rewrite Hne by done. tauto.
Qed.
Lemma bucket_remove st size h l mr : in_bucket st size h mr = false ->
  bucket st size h (remove_id mr l) = bucket st size h l.
Proof.
  intros Hmr. unfold bucket, remove_id. rewrite list_filter_filter. apply list_filter_iff.
  intros x. split; [tauto |]. intros Hx. split; [done |]. intros ->. congruence.
Qed.

Lemma table_ok_gone st st' l l' table size mr : (forall x, x <> mr -> st' !! x = st !! x) ->
  (forall h, in_bucket st' size h mr = false) -> l' = l \/ l' = remove_id mr l ->
  table_ok st l table size -> table_ok st' l' (remove_id mr <$> table) size.
Proof.
  intros Hne Hmr Hl [Hz Ht]. split; [unfold zlen in *; by rewrite length_fmap |].
  intros h Hh. specialize (Ht h Hh). unfold znth in *. destruct (0 <=? h); [| done].
  rewrite list_lookup_fmap, Ht. cbn. f_equal. rewrite <- (bucket_gone st st' size h l mr Hne (Hmr h)).
  destruct Hl as [-> | ->]; [done |]. by rewrite bucket_remove.
Qed.

(** A record that was in no bucket is forgotten. *)
Lemma table_ok_dead st st' l l' table size mr : (forall x, x <> mr -> st' !! x = st !! x) ->
  (forall h, in_bucket st' size h mr = false) -> l' = l \/ l' = remove_id mr l -> entry_of st mr = None ->
  table_ok st l table size -> table_ok st' l' table size.
Proof.
  intros Hne Hmr Hl Hno [Hz Ht]. split; [done |]. intros h Hh. rewrite (Ht h Hh). f_equal.
  assert (bucket st' size h l' = bucket st' size h l) as ->
    by (destruct Hl as [-> | ->]; [done | by apply bucket_remove]).
  rewrite (bucket_gone st st' size h l mr Hne (Hmr h)). symmetry. apply remove_id_notin.
  intros Hin. apply bucket_live in Hin as (_ & r & Hr & He & _).
  rewrite (entry_of_live _ _ _ Hr He) in Hno. done.
Qed.

(** A record is appended. *)
Lemma bucket_add_spec st l table size h0 mr :
  table_ok st l table size -> 0 <= h0 < size -> in_bucket st size h0 mr = true ->
  (forall h, h <> h0 -> in_bucket st size h mr = false) ->
  exists table', bucket_add table h0 mr = Ret table' /\ table_ok st (l ++ [mr]) table' size.
Proof.
  intros [Hz Ht] Hh0 Hin Hout. unfold bucket_add. rewrite (Ht h0 Hh0). cbn [of_opt mbind res_bind].
  destruct (zupd_is_Some table h0 (bucket st size h0 l ++ [mr])) as [t' Et]; [lia |].
  rewrite Et. exists t'. split; [done |]. split; [rewrite (zupd_zlen _ _ _ _ Et); done |].
  intros h Hh. rewrite bucket_app, bucket_cons.
  destruct (decide (h = h0)) as [-> | Hne].
  - rewrite (znth_zupd_eq _ _ _ _ Et), Hin. done.
  - rewrite (znth_zupd_ne _ _ _ _ _ Et), Hout by congruence. rewrite app_nil_r. auto.
Qed.

(** ** The invariant *)
Section invariant.
(** The addresses of the objects that are iterators of the map. *)
Variable is_iter : Z -> bool.

(** A value that is no iterator of the map. *)
Definition plain (v : JSValue) : Prop :=
  match v with JS_TAG_OBJECT p => is_iter p = false | _ => True end.

Abbreviation recs w := (records (map_state w)).
Definition ents (w : world) : list entry := entries_of (store w) (recs w).

(** [pn mr]: how many enumerations are at the record [mr]. *)
Record sinv (w : world) (pn : Z -> Z) : Prop := {
  si_dom : forall mr, is_Some (store w !! mr) <-> mr ∈ recs w;
  si_sorted : StronglySorted Z.lt (recs w);
  si_next : forall mr, mr ∈ recs w -> mr < next_addr w;
  si_table : table_ok (store w) (recs w) (hash_table (map_state w)) (hash_size (map_state w));
  si_size : 0 < hash_size (map_state w) <= 2 ^ 30 /\
    2 * hash_size (map_state w) <= record_count_threshold (map_state w);
  si_keys : forall mr r, store w !! mr = Some r -> empty r = false ->
    key_ok (key r) /\ normalized (key r) /\ plain (key r) /\ plain (value r);
  si_pins : forall mr r, store w !! mr = Some r ->
    ref_count r = (if empty r then 0 else 1) + pn mr /\ 0 < ref_count r;
  si_pinned : forall mr, 0 <= pn mr /\ (0 < pn mr -> mr ∈ recs w);
  si_count : zlen (ents w) <= record_count (map_state w) <= next_addr w /\
    (is_weak (map_state w) = false ->
     record_count (map_state w) = zlen (ents w) /\ first_weak_ref w = ∅);
  si_iters : forall p, is_Some (iterators w !! p) -> is_iter p = true;
  si_weak : is_weak (map_state w) = true ->
    (forall mr r, store w !! mr = Some r -> empty r = false /\ exists p, key r = JS_TAG_OBJECT p) /\
    forall p, NoDup (weak_refs w p) /\
      forall mr, mr ∈ weak_refs w p <-> exists r, store w !! mr = Some r /\ key r = JS_TAG_OBJECT p
}.

Lemma recs_NoDup w pn : sinv w pn -> NoDup (recs w).
Proof.
  intros Hi. pose proof (si_sorted _ _ Hi) as Hs. induction Hs as [| x l Hs IH Hall]; [constructor |].
  apply list.NoDup_cons. split; [| done]. intros Hx. rewrite list.Forall_forall in Hall.
  specialize (Hall x Hx). lia.
Qed.

Lemma sinv_ext w pn pn' : sinv w pn -> (forall x, pn' x = pn x) -> sinv w pn'.
Proof.
  intros [H1 H2 H3 H4 H5 H6 H7 H8 H9 H10 H11] He. split; try done.
  - intros mr r Hr. rewrite He. auto.
  - intros mr. rewrite He. auto.
Qed.

(** Other parts of the world do not matter. *)
Lemma sinv_users w pn its cs : sinv w pn -> (forall p, is_Some (its !! p) -> is_iter p = true) ->
  sinv (set_calls (set_iterators w its) cs) pn.
Proof. intros [H1 H2 H3 H4 H5 H6 H7 H8 H9 H10 H11] Hits. split; done. Qed.

Definition iters_ok (w : world) : Prop := forall p, is_Some (iterators w !! p) -> is_iter p = true.

Lemma free_plain w v : iters_ok w -> plain v -> JS_FreeValue w v = Ret w.
Proof.
  intros Hi Hv. destruct v as [| | p | | | | | |]; try done. cbn.
  destruct (iterators w !! p) eqn:E; [| done].
  assert (is_iter p = true) by (apply Hi; eauto). cbn in Hv. congruence.
Qed.
Lemma dup_plain w v : iters_ok w -> plain v -> JS_DupValue w v = w.
Proof.
  intros Hi Hv. destruct v as [| | p | | | | | |]; try done. cbn.
  destruct (iterators w !! p) eqn:E; [| done].
  assert (is_iter p = true) by (apply Hi; eauto). cbn in Hv. congruence.
Qed.

(** Lookup finds the first entry with the key. *)
Lemma map_find_record_spec w pn k : sinv w pn -> key_ok k -> normalized k ->
  map_find_record w k = Ret (e_id <$> find_entry (ents w) k).
Proof.
  intros Hi Hk Hn. unfold map_find_record. destruct (si_table _ _ Hi) as [Hz Ht].
  rewrite (Ht (bucket_of k (hash_size (map_state w)))) by (apply bucket_of_range; apply (si_size _ _ Hi)).
  cbn [of_opt mbind res_bind]. rewrite find_in_bucket_spec.
  - do 2 f_equal. apply find_bucket. intros mr r Hr He Hs.
    destruct (si_keys _ _ Hi mr r Hr He) as (Hko & Hno & _).
    unfold bucket_of. by rewrite (map_hash_key_same (key r) k).
  - intros mr Hmr. apply bucket_live in Hmr as (_ & r & Hr & He & _). eauto.
Qed.

Lemma ents_in w e : e ∈ ents w -> exists r, e_id e ∈ recs w /\ store w !! e_id e = Some r /\
  empty r = false /\ key r = e_key e /\ value r = e_value e.
Proof.
  intros He. apply entries_in in He as (r & Hin & Hr & Hl & ->). exists r. done.
Qed.

(** A change of the value of a record, or of the enumerations at it. *)
Lemma sinv_put w pn mr r r' : sinv w pn -> store w !! mr = Some r ->
  empty r' = empty r -> key r' = key r -> (empty r = false -> plain (value r')) ->
  0 <= pn mr + (ref_count r' - ref_count r) -> 0 < ref_count r' ->
  sinv (put_record w mr r') (fun x => pn x + if decide (x = mr) then ref_count r' - ref_count r else 0) /\
  ents (put_record w mr r') = update_entry (ents w) mr (value r').
Proof.
  intros Hi Hr He Hk Hv Hp Hpos. pose proof Hi as [H1 H2 H3 H4 H5 H6 H7 H8 H9 H10 H11].
  assert (ents (put_record w mr r') = update_entry (ents w) mr (value r')) as Hents
    by (unfold ents; cbn; by apply (entries_put _ _ mr r)).
  split; [| done].
  assert (forall x rx, <[mr := r']> (store w) !! x = Some rx ->
    (x = mr /\ rx = r') \/ (x <> mr /\ store w !! x = Some rx)) as Hget.
  { intros x rx Hx. destruct (decide (x = mr)) as [-> | Hne].
    - rewrite lookup_insert_eq in Hx. injection Hx as <-. auto.
    - rewrite lookup_insert_ne in Hx by done. auto. }
  split; cbn [store put_record set_store map_state next_addr iterators]; try done.
  - intros x. rewrite <- H1. destruct (decide (x = mr)) as [-> | Hne].
    + rewrite lookup_insert_eq, Hr. split; eauto.
    + by rewrite lookup_insert_ne.
  - by apply (table_ok_put _ _ _ _ mr r).
  - intros x rx [[-> ->] | [Hne Hx]]%Hget Hex; [| eauto].
    rewrite Hk. destruct (H6 mr r Hr) as (? & ? & ? & _); [congruence |].
    split_and!; auto. apply Hv. congruence.
  - intros x rx [[-> ->] | [Hne Hx]]%Hget.
    + rewrite decide_True, He by done. destruct (H7 mr r Hr). split; [lia | done].
    + rewrite decide_False by done. destruct (H7 x rx Hx). split; [lia | done].
  - intros x. destruct (H8 x) as [Hx Hx']. destruct (decide (x = mr)) as [-> |].
    + split; [lia |]. intros _. apply H1. eauto.
    + split; [lia |]. intros ?. apply Hx'. lia.
  - rewrite Hents. unfold update_entry, zlen. rewrite length_fmap. exact H9.
  - intros Hw. destruct (H11 Hw) as [Ha Hb]. split.
    + intros x rx [[-> ->] | [Hne Hx]]%Hget; [rewrite He, Hk; eauto | eauto].
    + intros p. change (weak_refs (put_record w mr r') p) with (weak_refs w p).
      destruct (Hb p) as [Hnd Hin]. split; [done |]. intros x. rewrite Hin.
      destruct (decide (x = mr)) as [-> | Hne].
      * rewrite lookup_insert_eq, Hr. split; intros (y & [= <-] & E); [exists r' | exists r]; split; congruence.
      * by rewrite lookup_insert_ne.
Qed.

(** [map_hash_resize] *)
Lemma rehash_spec w size : 0 < size -> forall l D table,
  (forall mr, mr ∈ l -> is_Some (store w !! mr)) -> table_ok (store w) D table size ->
  exists table', rehash w size l table = Ret table' /\ table_ok (store w) (D ++ l) table' size.
Proof.
  intros Hs. induction l as [| mr l IH]; intros D table Hl Ht.
  - exists table. rewrite app_nil_r. done.
  - cbn [rehash]. destruct (Hl mr) as [r Hr]; [left |]. unfold get_record. rewrite Hr.
    cbn [of_opt mbind res_bind]. rewrite (cons_middle mr D l), app_assoc.
    destruct (empty r) eqn:He; cbn [negb].
    + cbn [mbind res_bind]. apply IH; [intros x Hx; apply Hl; by right |].
      destruct Ht as [Hz Ht]. split; [done |]. intros h Hh. rewrite bucket_app, bucket_cons.
      unfold in_bucket at 1. rewrite Hr, He. cbn. rewrite app_nil_r. auto.
    + destruct (bucket_add_spec (store w) D table size (bucket_of (key r) size) mr Ht) as (t1 & -> & Ht1).
      * by apply bucket_of_range.
      * unfold in_bucket. rewrite Hr, He. apply Z.eqb_refl.
      * intros h Hh. unfold in_bucket. rewrite Hr, He. apply Z.eqb_neq. congruence.
      * cbn [mbind res_bind]. apply IH; [intros x Hx; apply Hl; by right | done].
Qed.

(** The block of [js_realloc2] is not much larger than asked for. *)
Definition memory_ok (mem : memory) : Prop :=
  match table_mem mem with Some slack => 0 <= slack < 2 ^ 29 | None => True end.

Lemma map_hash_resize_spec w pn mem : sinv w pn -> memory_ok mem ->
  record_count_threshold (map_state w) <= record_count (map_state w) <= 2 ^ 29 ->
  exists s, map_hash_resize w (table_mem mem) = Ret (set_map w s) /\ sinv (set_map w s) pn /\
    ents (set_map w s) = ents w /\ is_weak s = is_weak (map_state w).
Proof.
  intros Hi Hm Hc. pose proof Hi as [H1 H2 H3 H4 H5 H6 H7 H8 H9 H10 H11].
  unfold map_hash_resize, memory_ok in *.
  destruct (table_mem mem) as [slack |]; [| exists (map_state w); by destruct w].
  set (n := if hash_size (map_state w) =? 1 then 4 else u32 (hash_size (map_state w) * 2)).
  assert (4 <= n + slack <= 2 ^ 30 /\ 0 < n) as [Hn Hn0].
  { subst n. destruct (Z.eqb_spec (hash_size (map_state w)) 1); [lia |]. unfold wrap.
    rewrite Z.mod_small by lia. lia. }
  rewrite (wrap_small 32 (n + slack)) by lia.
  assert (table_ok (store w) [] (replicate (Z.to_nat (n + slack)) []) (n + slack)) as Ht.
  { split; [rewrite zlen_replicate; lia |]. intros h Hh. unfold znth.
    destruct (Z.leb_spec 0 h); [| lia]. apply lookup_replicate. split; [done | lia]. }
  destruct (rehash_spec w (n + slack) ltac:(lia) (recs w) [] _ (fun mr Hmr => proj2 (H1 mr) Hmr) Ht)
    as (t' & -> & Ht').
  cbn [mbind res_bind]. eexists. split; [reflexivity |].
  split; [| done]. split; cbn; try done. rewrite wrap_small by lia. lia.
Qed.

(** [map_add_record] *)
Definition new_record (k : JSValue) : JSMapRecord := mkRecord 1 false k JS_TAG_UNDEFINED.

Lemma sinv_add w pn k fw table : sinv w pn -> pn (next_addr w) = 0 -> next_addr w < 2 ^ 29 ->
  key_ok k -> normalized k -> plain k ->
  (is_weak (map_state w) = true -> exists p, k = JS_TAG_OBJECT p /\
    fw = <[p := next_addr w :: weak_refs w p]> (first_weak_ref w)) ->
  (is_weak (map_state w) = false -> fw = first_weak_ref w) ->
  let mr := next_addr w in
  let st := <[mr := new_record k]> (store w) in
  let s := map_state w in
  table_ok st (records s ++ [mr]) table (hash_size s) ->
  let w' := mkWorld (set_record_count (set_records (set_hash_table s table) (records s ++ [mr]))
                       (u32 (record_count s + 1))) (is_set w) st fw (mr + 1) (iterators w) (calls w) in
  sinv w' pn /\ ents w' = ents w ++ [mkEntry mr k JS_TAG_UNDEFINED] /\
  record_count (map_state w') = record_count s + 1.
Proof.
  intros Hi Hp0 Hlt Hk Hn Hpl Hw1 Hw0 mr st s Ht w'. subst s. pose proof Hi as [H1 H2 H3 H4 H5 H6 H7 H8 H9 H10 H11].
  assert (mr ∉ recs w) as Hfresh by (intros H; specialize (H3 mr H); unfold mr in H3; lia).
  assert (forall x, x ∈ recs w -> entry_of st x = entry_of (store w) x) as Hold.
  { intros x Hx. apply entry_of_ne. intros ->. done. }
  assert (ents w' = ents w ++ [mkEntry mr k JS_TAG_UNDEFINED]) as Hents.
  { change (ents w') with (entries_of st (recs w ++ [mr])).
    rewrite entries_app, (entries_ext _ _ _ Hold). f_equal.
    rewrite entries_cons. unfold entry_of, st. rewrite lookup_insert_eq. done. }
  assert (record_count (map_state w') = record_count (map_state w) + 1) as Hrc.
  { cbn. apply wrap_small. destruct H9 as [[Ha Hb] _]. pose proof (zlen_nonneg (ents w)). lia. }
  assert (forall x rx, st !! x = Some rx -> (x = mr /\ rx = new_record k) \/ (x <> mr /\ store w !! x = Some rx)) as Hget.
  { intros x rx Hx. unfold st in Hx. destruct (decide (x = mr)) as [-> | Hne].
    - rewrite lookup_insert_eq in Hx. injection Hx as <-. auto.
    - rewrite lookup_insert_ne in Hx by done. auto. }
  split; [| done]. split; try done.
  - intros x. cbn. rewrite elem_of_app, list_elem_of_singleton, <- H1. unfold st.
    destruct (decide (x = mr)) as [-> | Hne].
    + rewrite lookup_insert_eq. split; [auto | eauto].
    + rewrite lookup_insert_ne by done. tauto.
  - cbn. apply StronglySorted_app. split_and!; [| done | repeat constructor].
    intros x y Hx Hy%list_elem_of_singleton. subst y. exact (H3 x Hx).
  - cbn. intros x [Hx | ->%list_elem_of_singleton]%elem_of_app; [specialize (H3 x Hx); lia | unfold mr; lia].
  - intros x rx [[-> ->] | [Hne Hx]]%Hget Hex; [done | eauto].
  - intros x rx [[-> ->] | [Hne Hx]]%Hget; [cbn; unfold mr; lia | eauto].
  - intros x. destruct (H8 x) as [Ha Hb]. split; [done |]. intros Hx. cbn. apply elem_of_app. auto.
  - rewrite Hents, Hrc. change (next_addr w') with (mr + 1). change (is_weak (map_state w')) with (is_weak (map_state w)).
    rewrite zlen_app, zlen_cons, zlen_nil. destruct H9 as [Ha Hb]. unfold mr. split; [lia |].
    intros Hw. destruct (Hb Hw) as [Hb1 Hb2]. rewrite <- Hb2, <- (Hw0 Hw). split; [lia | done].
  - intros Hw. cbn in Hw. destruct (H11 Hw) as [Ha Hb]. destruct (Hw1 Hw) as (p0 & -> & Efw). split.
    + intros x rx [[-> ->] | [Hne Hx]]%Hget; [eauto | eauto].
    + intros p. unfold weak_refs. cbn. rewrite Efw. destruct (Hb p) as [Hnd Hin].
      destruct (decide (p = p0)) as [-> | Hpp].
      * rewrite lookup_insert_eq. cbn. split.
        { apply list.NoDup_cons. split; [| done]. intros (r & Hr & _)%Hin. destruct Hfresh. apply H1. eauto. }
        intros x. rewrite elem_of_cons, Hin. unfold st. destruct (decide (x = mr)) as [-> | Hne].
        -- rewrite lookup_insert_eq. split; [intros _; eexists; done | auto].
        -- rewrite lookup_insert_ne by done. tauto.
      * rewrite lookup_insert_ne by done. fold (weak_refs w p). split; [done |]. intros x.
        rewrite Hin. unfold st.
        destruct (decide (x = mr)) as [-> | Hne].
        -- rewrite lookup_insert_eq. split.
           ++ intros (r & Hr & _). destruct Hfresh. apply H1. eauto.
           ++ intros (r & [= <-] & Er). cbn in Er. congruence.
        -- by rewrite lookup_insert_ne.
Qed.

Lemma map_add_record_spec w pn k mem : sinv w pn -> pn (next_addr w) = 0 -> next_addr w < 2 ^ 29 ->
  key_ok k -> normalized k -> plain k -> memory_ok mem ->
  (is_weak (map_state w) = true -> JS_IsObject k = true) -> record_mem mem = true ->
  exists w', map_add_record w k mem = Ret (w', Some (next_addr w)) /\ sinv w' pn /\
    ents w' = ents w ++ [mkEntry (next_addr w) k JS_TAG_UNDEFINED] /\ next_addr w' = next_addr w + 1 /\
    store w' !! next_addr w = Some (new_record k) /\
    iterators w' = iterators w /\ calls w' = calls w /\ is_set w' = is_set w /\
    is_weak (map_state w') = is_weak (map_state w).
Proof.
  intros Hi Hp0 Hlt Hk Hn Hpl Hm Hobj Hmem. unfold map_add_record. rewrite Hmem. cbn [negb].
  set (mr := next_addr w). set (s := map_state w).
  set (fw := match k with
             | JS_TAG_OBJECT p => if is_weak s then <[p := mr :: weak_refs w p]> (first_weak_ref w) else first_weak_ref w
             | _ => first_weak_ref w
             end).
  set (w1 := mkWorld s (is_set w) (store w) fw (mr + 1) (iterators w) (calls w)).
  assert ((if is_weak (map_state (set_next_addr w (mr + 1)))
           then match k with
                | JS_TAG_OBJECT p => Ret (set_weak (set_next_addr w (mr + 1))
                    (<[p := mr :: weak_refs (set_next_addr w (mr + 1)) p]> (first_weak_ref (set_next_addr w (mr + 1)))))
                | _ => Fault
                end
           else Ret (JS_DupValue (set_next_addr w (mr + 1)) k)) = Ret w1) as ->.
  { cbn [map_state set_next_addr]. fold s. unfold w1, fw. destruct (is_weak s) eqn:Ew.
    - specialize (Hobj Ew). destruct k; done.
    - assert (JS_DupValue (set_next_addr w (mr + 1)) k = set_next_addr w (mr + 1)) as ->.
      { apply dup_plain; [exact (si_iters _ _ Hi) | done]. }
      unfold set_next_addr. fold s. by destruct k. }
  cbn [mbind res_bind]. unfold put_record. cbn [store set_store map_state w1].
  set (st := <[mr := mkRecord 1 false k JS_TAG_UNDEFINED]> (store w)).
  assert (mr ∉ recs w) as Hfresh by (intros H; pose proof (si_next _ _ Hi mr H); unfold mr in *; lia).
  assert (table_ok st (recs w) (hash_table s) (hash_size s)) as Ht0.
  { destruct (si_table _ _ Hi) as [Hz Ht]. split; [done |]. intros h Hh. unfold s. rewrite (Ht h Hh).
    f_equal. unfold bucket. apply filter_ext_in. intros x Hx. unfold in_bucket, st.
    by rewrite lookup_insert_ne by (intros <-; done). }
  destruct (bucket_add_spec st (recs w) (hash_table s) (hash_size s) (bucket_of k (hash_size s)) mr Ht0)
    as (table & -> & Ht1).
  { apply bucket_of_range, (si_size _ _ Hi). }
  { unfold in_bucket, st. rewrite lookup_insert_eq. cbn. apply Z.eqb_refl. }
  { intros h Hh. unfold in_bucket, st. rewrite lookup_insert_eq. cbn. apply Z.eqb_neq. congruence. }
  cbn [mbind res_bind].
  destruct (sinv_add w pn k fw table Hi Hp0 Hlt Hk Hn Hpl) as (Hi2 & He2 & Hc2).
  { intros Hw. specialize (Hobj Hw). unfold fw, s. rewrite Hw. destruct k; try done. eauto. }
  { intros Hw. unfold fw, s. rewrite Hw. by destruct k. }
  { exact Ht1. }
  set (w2 := mkWorld _ _ _ _ _ _ _) in Hi2, He2, Hc2.
  change (set_map (set_store w1 st) _) with w2.
  change (record_count_threshold _) with (record_count_threshold s) at 1.
  change (record_count _) with (record_count (map_state w2)) at 1. rewrite Hc2.
  assert (store w2 !! mr = Some (new_record k)) as Hmr by (cbn; by rewrite lookup_insert_eq).
  destruct (Z.leb_spec (record_count_threshold s) (record_count (map_state w) + 1)) as [Hle | Hgt].
  - destruct (map_hash_resize_spec w2 pn mem Hi2 Hm) as (s' & -> & Hi3 & He3 & Hw3).
    { change (record_count_threshold (map_state w2)) with (record_count_threshold s). rewrite Hc2.
      split; [done |]. destruct (si_count _ _ Hi2) as [[_ Hb] _]. rewrite Hc2 in Hb. cbn in Hb.
      destruct (si_count _ _ Hi) as [[_ Hb'] _]. fold s in Hb'. lia. }
    cbn [mbind res_bind]. exists (set_map w2 s'). split_and!; try done. by rewrite He3.
  - cbn [mbind res_bind]. exists w2. split_and!; done.
Qed.

(** A live record leaves the map: its memory is freed, or it is kept, empty, for
    the enumerations at it. *)
Lemma sinv_gone w pn pn' mr r st' l' table fw rc : sinv w pn -> store w !! mr = Some r ->
  (forall x, x <> mr -> pn' x = pn x) ->
  (st' = delete mr (store w) /\ l' = remove_id mr (recs w) /\ pn' mr = 0) \/
  (st' = <[mr := mkRecord (pn mr) true JS_TAG_UNDEFINED JS_TAG_UNDEFINED]> (store w) /\ l' = recs w /\
   0 < pn mr /\ pn' mr = pn mr) ->
  table = remove_id mr <$> hash_table (map_state w) \/
    (table = hash_table (map_state w) /\ entry_of (store w) mr = None) ->
  (is_weak (map_state w) = true -> pn' mr = 0 /\ forall p, default [] (fw !! p) = remove_id mr (weak_refs w p)) ->
  zlen (remove_entry (ents w) mr) <= rc <= next_addr w ->
  (is_weak (map_state w) = false -> rc = zlen (remove_entry (ents w) mr) /\ fw = ∅) ->
  let s := map_state w in
  let w' := mkWorld (mkMap (is_weak s) l' rc table (hash_size s)
                       (record_count_threshold s))
              (is_set w) st' fw (next_addr w) (iterators w) (calls w) in
  sinv w' pn' /\ ents w' = remove_entry (ents w) mr.
Proof.
  intros Hi Hr Hpn Hcase Htable Hweak Hrc Hrc0 s w'. subst s.
  pose proof (recs_NoDup w pn Hi) as Hnd. pose proof Hi as [H1 H2 H3 H4 H5 H6 H7 H8 H9 H10 H11].
  assert (mr ∈ recs w) as Hin by (apply H1; eauto).
  assert (forall x, x <> mr -> st' !! x = store w !! x) as Hne.
  { intros x Hx. destruct Hcase as [(-> & _) | (-> & _)]; [by rewrite lookup_delete_ne | by rewrite lookup_insert_ne]. }
  assert (forall r', st' !! mr = Some r' -> empty r' = true /\ ref_count r' = pn' mr /\ 0 < pn' mr) as Hmr.
  { intros r' Hr'. destruct Hcase as [(-> & _) | (-> & _ & Hp & Ep)].
    - by rewrite lookup_delete_eq in Hr'.
    - rewrite lookup_insert_eq in Hr'. injection Hr' as <-. by rewrite Ep. }
  assert (entry_of st' mr = None) as Hno.
  { unfold entry_of. destruct (st' !! mr) as [r' |]; [| done]. by destruct (Hmr r' eq_refl) as [-> _]. }
  assert (forall x, x <> mr -> entry_of st' x = entry_of (store w) x) as Hent
    by (intros x Hx; unfold entry_of; by rewrite Hne).
  assert (ents w' = remove_entry (ents w) mr) as Hents.
  { change (ents w') with (entries_of st' l'). unfold ents. rewrite <- (entries_gone _ st' _ mr Hent Hno).
    destruct Hcase as [(_ & -> & _) | (_ & -> & _)]; [by apply entries_remove | done]. }
  assert (forall x, x ∈ l' -> x ∈ recs w) as Hsub.
  { intros x. destruct Hcase as [(_ & -> & _) | (_ & -> & _)]; [rewrite elem_remove_id; tauto | done]. }
  split; [| done]. split; try done.
  - intros x. cbn. destruct Hcase as [(-> & -> & _) | (-> & -> & _)].
    + rewrite elem_remove_id. destruct (decide (x = mr)) as [-> | Hx].
      * rewrite lookup_delete_eq. split; [by intros [? ?] | tauto].
      * rewrite lookup_delete_ne by done. rewrite H1. tauto.
    + rewrite <- H1. destruct (decide (x = mr)) as [-> | Hx].
      * rewrite lookup_insert_eq, Hr. split; eauto.
      * by rewrite lookup_insert_ne.
  - cbn. destruct Hcase as [(_ & -> & _) | (_ & -> & _)]; [| done]. unfold remove_id.
    clear - H2. induction H2 as [| x l Hs IH Hall]; [constructor |]. rewrite filter_cons.
    case_decide; [| done]. constructor; [done |]. rewrite list.Forall_forall in Hall |- *.
    intros y [_ Hy]%list_elem_of_filter. auto.
  - intros x Hx. apply H3, Hsub, Hx.
  - assert (forall h, in_bucket st' (hash_size (map_state w)) h mr = false) as Hib.
    { intros h. unfold in_bucket. destruct (st' !! mr) as [r' |]; [| done].
      by destruct (Hmr r' eq_refl) as [-> _]. }
    assert (l' = recs w \/ l' = remove_id mr (recs w)) as Hl' by tauto.
    destruct Htable as [-> | [-> Hnone]].
    + by apply (table_ok_gone (store w) st' (recs w)).
    + by apply (table_ok_dead (store w) st' (recs w) l' _ _ mr).
  - intros x rx Hx Hex. destruct (decide (x = mr)) as [-> | Hxm].
    + destruct (Hmr rx Hx). congruence.
    + cbn in Hx. rewrite Hne in Hx by done. eauto.
  - intros x rx Hx. destruct (decide (x = mr)) as [-> | Hxm].
    + destruct (Hmr rx Hx) as (-> & -> & ?). lia.
    + cbn in Hx. rewrite Hne in Hx by done. rewrite Hpn by done. eauto.
  - intros x. destruct (H8 x) as [Ha Hb]. cbn. destruct (decide (x = mr)) as [-> | Hx].
    + destruct Hcase as [(_ & -> & ->) | (_ & -> & Hp & ->)]; [lia | auto].
    + rewrite Hpn by done. split; [done |]. intros Hpx.
      destruct Hcase as [(_ & -> & Hp) | (_ & -> & _)]; [apply elem_remove_id |]; auto.
  - rewrite Hents. done.
  - intros Hw. cbn in Hw. destruct (H11 Hw) as [Ha Hb]. destruct (Hweak Hw) as [Hp Hfw].
    destruct Hcase as [(-> & -> & _) | (_ & _ & ?)]; [| lia]. split.
    + intros x rx Hx. apply (Ha x). cbn in Hx. by apply lookup_delete_Some in Hx as [_ Hx].
    + intros p. unfold weak_refs. cbn. rewrite Hfw. destruct (Hb p) as [Hnd' Hin'].
      split; [by apply list.NoDup_filter |]. intros x. rewrite elem_remove_id, Hin'.
      destruct (decide (x = mr)) as [-> | Hx].
      * rewrite lookup_delete_eq. split; [tauto | by intros (? & ? & _)].
      * rewrite lookup_delete_ne by done. tauto.
Qed.

(** What every operation leaves alone. *)
Definition same_users (w w' : world) : Prop :=
  next_addr w' = next_addr w /\ iterators w' = iterators w /\ calls w' = calls w /\
  is_set w' = is_set w /\ is_weak (map_state w') = is_weak (map_state w).

Lemma map_delete_record_spec w pn mr r : sinv w pn -> next_addr w <= 2 ^ 29 -> store w !! mr = Some r ->
  (is_weak (map_state w) = true -> pn mr = 0) ->
  exists w', map_delete_record w mr = Ret w' /\ sinv w' pn /\ ents w' = remove_entry (ents w) mr /\
    same_users w w' /\ entry_of (store w') mr = None /\
    (recs w' = recs w \/ recs w' = remove_id mr (recs w)).
Proof.
  intros Hi Hna Hr Hpw. unfold map_delete_record, get_record. rewrite Hr. cbn [of_opt mbind res_bind].
  destruct (empty r) eqn:He.
  { exists w. assert (entry_of (store w) mr = None) as Hno by (unfold entry_of; by rewrite Hr, He).
    split_and!; try done; [| by left]. symmetry. unfold ents.
    rewrite <- (entries_gone (store w) (store w) (recs w) mr); done. }
  destruct (si_keys _ _ Hi mr r Hr He) as (_ & _ & Hpk & Hpv).
  destruct (si_pins _ _ Hi mr r Hr) as [Erc Hrc]. rewrite He in Erc.
  set (s := map_state w).
  set (fw := match key r with
             | JS_TAG_OBJECT p => if is_weak s then <[p := remove_id mr (weak_refs w p)]> (first_weak_ref w)
                                  else first_weak_ref w
             | _ => first_weak_ref w
             end).
  set (w1 := mkWorld (set_hash_table s (remove_id mr <$> hash_table s)) (is_set w) (store w) fw
               (next_addr w) (iterators w) (calls w)).
  assert (is_weak s = true -> exists p, key r = JS_TAG_OBJECT p /\ mr ∈ weak_refs w p) as Hweak.
  { intros Hw. destruct (si_weak _ _ Hi Hw) as [Ha Hb]. destruct (Ha mr r Hr) as (_ & p & Ek).
    exists p. split; [done |]. apply Hb. eauto. }
  assert ((if is_weak (map_state (hash_unlink w mr)) then delete_weak_ref (hash_unlink w mr) mr (key r)
           else JS_FreeValue (hash_unlink w mr) (key r)) = Ret w1) as ->.
  { change (is_weak (map_state (hash_unlink w mr))) with (is_weak s).
    unfold w1, fw. destruct (is_weak s) eqn:Ew.
    - destruct (Hweak eq_refl) as (p & -> & Hin). cbn [delete_weak_ref].
      change (weak_refs (hash_unlink w mr) p) with (weak_refs w p). by rewrite bool_decide_true.
    - rewrite free_plain; [| exact (si_iters _ _ Hi) | done]. by destruct (key r). }
  cbn [mbind res_bind].
  rewrite (free_plain w1) by (exact (si_iters _ _ Hi) || done). cbn [mbind res_bind].
  change (store w1) with (store w). rewrite Hr. cbn [of_opt mbind res_bind].
  set (st' := if ref_count r - 1 =? 0 then delete mr (store w)
              else <[mr := mkRecord (pn mr) true JS_TAG_UNDEFINED JS_TAG_UNDEFINED]> (store w)).
  set (l' := if ref_count r - 1 =? 0 then remove_id mr (recs w) else recs w).
  pose proof (zlen_nonneg (ents w)).
  destruct (si_count _ _ Hi) as [[Hc1 Hc2] Hc3].
  assert (1 <= zlen (ents w)) as Hpos.
  { assert (mkEntry mr (key r) (value r) ∈ ents w) as Hin.
    { unfold ents, entries_of. rewrite list_elem_of_omap. exists mr. split; [apply (si_dom _ _ Hi); eauto |].
      by apply entry_of_live. }
    destruct (ents w); [by apply not_elem_of_nil in Hin | zlen_lia]. }
  assert (zlen (remove_entry (ents w) mr) = zlen (ents w) - 1) as Hzl.
  { apply (remove_entry_zlen _ _ mr (mkEntry mr (key r) (value r)) (recs_NoDup w pn Hi)).
    - apply (si_dom _ _ Hi). eauto.
    - by apply entry_of_live. }
  destruct (sinv_gone w pn pn mr r st' l' (remove_id mr <$> hash_table s) fw (u32 (record_count s - 1)) Hi Hr)
    as [Hi' He']; [done | | by left | | | |].
  { unfold st', l'. destruct (Z.eqb_spec (ref_count r - 1) 0); [left | right]; split_and!; try done; lia. }
  { intros Hw. split; [auto |]. destruct (Hweak Hw) as (p & Ek & Hin). unfold fw, s. rewrite Ek, Hw.
    intros q. destruct (decide (q = p)) as [-> | Hq]; [by rewrite lookup_insert_eq |].
    rewrite lookup_insert_ne by done. symmetry. apply remove_id_notin. intros Hq'.
    apply (si_weak _ _ Hi Hw) in Hq' as (r' & Hr' & Ek'). congruence. }
  { unfold s. rewrite wrap_small; lia. }
  { intros Hw. destruct (Hc3 Hw) as [Hc4 Hc5]. unfold s, fw, s. rewrite Hw. split.
    - rewrite wrap_small; lia.
    - by destruct (key r). }
  assert (entry_of st' mr = None) as Hno.
  { unfold entry_of, st'. destruct (ref_count r - 1 =? 0);
      [by rewrite lookup_delete_eq | by rewrite lookup_insert_eq]. }
  unfold st', l' in *. replace (pn mr) with (ref_count r - 1) in * by lia.
  destruct (ref_count r - 1 =? 0); (eexists; split; [reflexivity |]); split_and!; try done; auto.
Qed.

(** An enumeration leaves the record it is at. *)
Definition unpin (pn : Z -> Z) (mr x : Z) : Z := pn x - if decide (x = mr) then 1 else 0.

Lemma map_decref_record_spec w pn mr : sinv w pn -> is_weak (map_state w) = false -> 0 < pn mr ->
  exists w', map_decref_record w mr = Ret w' /\ sinv w' (unpin pn mr) /\ ents w' = ents w /\
    same_users w w' /\ (recs w' = recs w \/ recs w' = remove_id mr (recs w)).
Proof.
  intros Hi Hw Hp. destruct (si_pinned _ _ Hi mr) as [_ Hin]. specialize (Hin Hp).
  apply (si_dom _ _ Hi) in Hin as [r Hr].
  destruct (si_pins _ _ Hi mr r Hr) as [Erc Hrc].
  unfold map_decref_record, get_record. rewrite Hr. cbn [of_opt mbind res_bind].
  destruct (Z.eqb_spec (ref_count r - 1) 0) as [E | E].
  - destruct (empty r) eqn:He; [| lia]. cbn [assert_ mbind res_bind].
    assert (entry_of (store w) mr = None) as Hno by (unfold entry_of; by rewrite Hr, He).
    assert (remove_entry (ents w) mr = ents w) as Hsame.
    { unfold ents. by rewrite <- (entries_gone (store w) (store w) (recs w) mr). }
    destruct (si_count _ _ Hi) as [Hc1 Hc2].
    destruct (sinv_gone w pn (unpin pn mr) mr r (delete mr (store w)) (remove_id mr (recs w))
      (hash_table (map_state w)) (first_weak_ref w) (record_count (map_state w)) Hi Hr) as [Hi' He'].
    + intros x Hx. unfold unpin. rewrite decide_False by done. lia.
    + left. split_and!; try done. unfold unpin. rewrite decide_True by done. lia.
    + by right.
    + congruence.
    + by rewrite Hsame.
    + intros _. rewrite Hsame. auto.
    + rewrite Hsame in He'. eexists. split; [reflexivity |].
      unfold free_record, put_record. cbn [store set_store]. rewrite delete_insert_eq.
      split_and!; try done. by right.
  - set (r' := add_ref_count r (-1)).
    destruct (sinv_put w pn mr r r' Hi Hr) as [Hi' He']; try done.
    + intros He. apply (si_keys _ _ Hi mr r Hr He).
    + unfold r', add_ref_count. cbn. lia.
    + unfold r', add_ref_count. cbn. lia.
    + exists (put_record w mr r'). split; [done |]. split; [| split].
      * eapply sinv_ext; [exact Hi' |]. intros x. unfold unpin, r', add_ref_count. cbn.
        case_decide; lia.
      * rewrite He'. unfold ents. cbn. by apply update_same.
      * split; [done | by left].
Qed.

(** ** [reset_weak_ref] *)
Definition gone_weak (w : world) (mr p : Z) : world :=
  let s := map_state w in
  mkWorld (mkMap (is_weak s) (remove_id mr (records s)) (record_count s) (remove_id mr <$> hash_table s)
             (hash_size s) (record_count_threshold s))
    (is_set w) (delete mr (store w)) (<[p := remove_id mr (weak_refs w p)]> (first_weak_ref w))
    (next_addr w) (iterators w) (calls w).

Lemma gone_weak_spec w pn mr p : sinv w pn -> (forall x, pn x = 0) -> is_weak (map_state w) = true ->
  mr ∈ weak_refs w p ->
  sinv (gone_weak w mr p) pn /\ ents (gone_weak w mr p) = remove_entry (ents w) mr /\
  exists r, store w !! mr = Some r /\ empty r = false /\ plain (value r) /\ key r = JS_TAG_OBJECT p.
Proof.
  intros Hi Hp Hw Hin. destruct (si_weak _ _ Hi Hw) as [Ha Hb].
  apply (Hb p) in Hin as Hin'. destruct Hin' as (r & Hr & Ek). destruct (Ha mr r Hr) as [He _].
  destruct (si_count _ _ Hi) as [Hc1 _].
  assert (zlen (remove_entry (ents w) mr) <= zlen (ents w)) as Hle.
  { unfold zlen, remove_entry. pose proof (length_filter (fun e => e_id e <> mr) (ents w)). lia. }
  destruct (sinv_gone w pn pn mr r (delete mr (store w)) (remove_id mr (recs w))
    (remove_id mr <$> hash_table (map_state w)) (<[p := remove_id mr (weak_refs w p)]> (first_weak_ref w))
    (record_count (map_state w)) Hi Hr) as [Hi' He']; try done.
  - left. done.
  - by left.
  - intros _. split; [done |]. intros q. destruct (decide (q = p)) as [-> | Hq]; [by rewrite lookup_insert_eq |].
    rewrite lookup_insert_ne by done. fold (weak_refs w q). symmetry. apply remove_id_notin. intros Hq'.
    apply (Hb q) in Hq' as (r' & Hr' & Ek'). congruence.
  - lia.
  - congruence.
  - split; [exact Hi' |]. split; [exact He' |]. exists r. split_and!; try done.
    apply (si_keys _ _ Hi mr r Hr He).
Qed.

(** The two passes, which first unlink the records and then free them, remove
    them one after the other. *)
Lemma reset_weak_loops w0 p : forall l w pn, sinv w pn -> (forall x, pn x = 0) ->
  is_weak (map_state w) = true -> weak_refs w p = l -> NoDup l ->
  (forall mr, mr ∈ l -> store w0 !! mr = store w !! mr) -> iters_ok w0 -> is_weak (map_state w0) = true ->
  forall w1, map_state w1 = map_state w -> store w1 = store w0 -> is_weak (map_state w1) = true ->
  forall w2, store w2 = store w -> iters_ok w2 ->
  exists s st, reset_weak_unlink w1 l = Ret (set_map w1 s) /\ reset_weak_free w2 l = Ret (set_store w2 st) /\
    let w' := mkWorld s (is_set w) st (<[p := []]> (first_weak_ref w)) (next_addr w) (iterators w) (calls w) in
    sinv w' pn /\ ents w' = filter (fun e => e_id e ∉ l) (ents w) /\ is_weak s = true.
Proof.
  induction l as [| mr l IH]; intros w pn Hi Hp Hw El Hnd Hst Hits Hw0 w1 E1 Es1 Hw1 w2 Es2 Hits2.
  - exists (map_state w), (store w). cbn. split_and!; try done.
    + rewrite <- E1. by destruct w1.
    + rewrite <- Es2. by destruct w2.
    + destruct Hi as [H1 H2 H3 H4 H5 H6 H7 H8 H9 H10 H11]. split; try done.
      { split; [apply H9 | cbn; congruence]. }
      intros Hww. destruct (H11 Hww) as [Ha Hb]. split; [done |]. intros q. specialize (Hb q).
      unfold weak_refs in *. cbn. destruct (decide (q = p)) as [-> |].
      * rewrite lookup_insert_eq. cbn. by rewrite El in Hb.
      * by rewrite lookup_insert_ne.
    + symmetry. apply filter_all. intros e _. apply not_elem_of_nil.
  - apply list.NoDup_cons in Hnd as [Hmr Hnd].
    assert (mr ∈ weak_refs w p) as Hin by (rewrite El; left).
    destruct (gone_weak_spec w pn mr p Hi Hp Hw Hin) as (Hi' & He' & r & Hr & He & Hv & _).
    set (w' := gone_weak w mr p) in *.
    assert (weak_refs w' p = l) as El'.
    { unfold weak_refs, w', gone_weak. cbn. rewrite lookup_insert_eq. cbn. rewrite El.
      unfold remove_id. rewrite filter_cons_False by tauto. apply filter_all. intros x Hx ->. done. }
    cbn [reset_weak_unlink reset_weak_free]. unfold get_record.
    rewrite Es1, (Hst mr) by left. rewrite Hr. cbn [of_opt mbind res_bind].
    rewrite Hw1, He. cbn [assert_ negb mbind res_bind].
    rewrite Es2, Hr. cbn [of_opt mbind res_bind]. rewrite (free_plain w2) by done. cbn [mbind res_bind].
    set (w1' := set_map (hash_unlink w1 mr) _).
    set (w2' := set_store w2 (delete mr (store w2))).
    destruct (IH w' pn Hi' Hp Hw El' Hnd) with (w1 := w1') (w2 := w2') as (s & st & E3 & E4 & H5 & H6 & H7); try done.
    + intros x Hx. cbn. rewrite lookup_delete_ne by (intros ->; done). apply Hst. by right.
    + unfold w1', hash_unlink, w', gone_weak. cbn. by rewrite E1.
    + unfold w2'. cbn. by rewrite Es2.
    + exists s, st. rewrite E3, E4. split_and!; try done.
      * destruct H5 as [K1 K2 K3 K4 K5 K6 K7 K8 K9 K10 K11]. split; try done.
        { split; [apply K9 | cbn; congruence]. }
        intros Hww. destruct (K11 Hww) as [Ha Hb]. split; [done |]. intros q. specialize (Hb q).
        unfold weak_refs in *. cbn in *. destruct (decide (q = p)) as [-> |].
        -- by rewrite lookup_insert_eq in *.
        -- rewrite !lookup_insert_ne in * by done. exact Hb.
      * transitivity (filter (fun e => e_id e ∉ l) (remove_entry (ents w) mr)); [by rewrite <- He' |].
        unfold remove_entry. rewrite list_filter_filter. apply list_filter_iff. intros e.
        rewrite not_elem_of_cons. tauto.
Qed.

Lemma reset_weak_ref_spec w pn p : sinv w pn -> (is_weak (map_state w) = true -> forall x, pn x = 0) ->
  exists w', reset_weak_ref w p = Ret w' /\ sinv w' pn /\ same_users w w' /\
    ents w' = if is_weak (map_state w)
              then filter (fun e => same_value_zero (e_key e) (JS_TAG_OBJECT p) = false) (ents w)
              else ents w.
Proof.
  intros Hi Hp. unfold reset_weak_ref. destruct (is_weak (map_state w)) eqn:Hw.
  - specialize (Hp eq_refl). destruct (si_weak _ _ Hi Hw) as [Ha Hb].
    destruct (reset_weak_loops w p (weak_refs w p) w pn Hi Hp Hw eq_refl (proj1 (Hb p))) with (w1 := w) (w2 := w)
      as (s & _ & E1 & _ & _); try done; [exact (si_iters _ _ Hi) | exact (si_iters _ _ Hi) |].
    destruct (reset_weak_loops w p (weak_refs w p) w pn Hi Hp Hw eq_refl (proj1 (Hb p))) with
      (w1 := w) (w2 := set_map w s) as (s' & st & E1' & E2 & Hi' & He' & Hw'); try done;
      [exact (si_iters _ _ Hi) | exact (si_iters _ _ Hi) |].
    rewrite E1 in E1'. injection E1' as <-. rewrite E1. cbn [mbind res_bind].
    change (weak_refs (set_map w s) p) with (weak_refs w p). rewrite E2. cbn [mbind res_bind].
    eexists. split; [reflexivity |]. split; [| split].
    + destruct Hi' as [K1 K2 K3 K4 K5 K6 K7 K8 K9 K10 K11]. split; try done.
      * split; [apply K9 |]. cbn. congruence.
      * intros Hww. destruct (K11 Hww) as [Ka Kb]. split; [done |]. intros q. specialize (Kb q).
        unfold weak_refs in *. cbn in *. destruct (decide (q = p)) as [-> |].
        -- by rewrite lookup_delete_eq, lookup_insert_eq in *.
        -- rewrite lookup_delete_ne by done. by rewrite lookup_insert_ne in Kb.
    + unfold same_users. cbn. by rewrite Hw, Hw'.
    + transitivity (filter (fun e => e_id e ∉ weak_refs w p) (ents w)); [exact He' |].
      apply filter_ext_in. intros e He. apply ents_in in He as (r & _ & Hr & _ & <- & _).
      destruct (Ha _ r Hr) as (_ & q & Ek). destruct (Hb p) as [_ Hin]. rewrite Hin, Ek.
      change (same_value_zero (JS_TAG_OBJECT q) (JS_TAG_OBJECT p)) with (q =? p). rewrite Z.eqb_neq. split.
      * intros Hn ->. apply Hn. eauto.
      * intros Hq (r' & Hr' & Ek'). congruence.
  - destruct (si_count _ _ Hi) as [_ Hc]. destruct (Hc Hw) as [_ Hfw].
    assert (weak_refs w p = []) as -> by (unfold weak_refs; by rewrite Hfw).
    cbn [reset_weak_unlink reset_weak_free mbind res_bind].
    assert (weak_refs w p = []) as -> by (unfold weak_refs; by rewrite Hfw).
    cbn [reset_weak_free mbind res_bind]. exists w. split; [| done]. f_equal.
    destruct w. cbn in *. subst. unfold set_weak. cbn. by rewrite delete_empty.
Qed.
End invariant.
