(* ===== verification/MapRefine.v ===== *)
(** * quickjs.c: Map and Set refine their specification *)
From Stdlib Require Import ZArith Lia Bool.
From stdpp Require Import base numbers list gmap sorting.
From S2P Require Import Prelude ListHead JSValue MapState MapSpec MapFacts.

(** ** The enumerations in progress *)
Definition pin (it : JSMapIteratorData) : option Z := if it_obj it then cur_record it else None.
Definition pin_at (it : JSMapIteratorData) (mr : Z) : Z := if decide (pin it = Some mr) then 1 else 0.
Definition iter_pins (its : gmap Z JSMapIteratorData) (mr : Z) : Z :=
  map_fold (fun _ it n => pin_at it mr + n) 0 its.
Definition pins (w : world) (mr : Z) : Z := iter_pins (iterators w) mr + cnt (fst <$> calls w) mr.

Lemma iter_pins_delete its p it mr : its !! p = Some it ->
  iter_pins its mr = pin_at it mr + iter_pins (delete p its) mr.
Proof. intros H. unfold iter_pins. rewrite (map_fold_delete_L _ _ p it its); [done | intros; lia | done]. Qed.

Lemma iter_pins_insert its p it mr :
  iter_pins (<[p := it]> its) mr = pin_at it mr + iter_pins (delete p its) mr.
Proof.
  rewrite (iter_pins_delete _ p it) by apply lookup_insert_eq. by rewrite delete_insert_eq.
Qed.

Lemma iter_pins_nonneg its mr : 0 <= iter_pins its mr.
Proof.
  unfold iter_pins. apply (map_fold_weak_ind (fun n _ => 0 <= n)); [lia |].
  intros p it m n _ Hn. unfold pin_at. case_decide; lia.
Qed.

(** ** The state as the specification sees it *)
Definition pos (it : JSMapIteratorData) : position :=
  if it_obj it then match cur_record it with None => PStart | Some mr => PAfter mr end else PEnd.
Definition abs (w : world) : smap :=
  mkSpec (ents w) (next_addr w) ((fun it => (kind it, pos it)) <$> iterators w) (fst <$> calls w).

Section refine.
Variable is_iter : Z -> bool.
Abbreviation sinv := (sinv is_iter).
Abbreviation plain := (plain is_iter).
Abbreviation recs w := (records (map_state w)).

Record uinv (w : world) : Prop := {
  ui_iters : forall p it, iterators w !! p = Some it -> it_refs it = 1 /\ (it_obj it = false -> cur_record it = None);
  ui_calls : forall mr args, (mr, args) ∈ calls w -> exists a0 a1, args = [a0; a1] /\ plain a0 /\ plain a1;
  ui_weak : is_weak (map_state w) = true -> iterators w = ∅ /\ calls w = []
}.

Definition winv (w : world) : Prop := sinv w (pins w) /\ uinv w.

(** What the environment may do: its keys are canonical numbers, it stores no
    iterator of the map in the map, and its allocator is sane. *)
Definition op_ok (o : op) : Prop :=
  match o with
  | OSet k v mem => key_ok k /\ plain k /\ plain v /\ memory_ok mem
  | OGet k | OHas k | ODelete k => key_ok k
  | OIterator p _ => is_iter p = true
  | _ => True
  end.

(** One step is simulated. *)
Definition simulated (w : world) (o : op) : Prop :=
  exists w' r, step w o = Ret (w', r) /\ winv w' /\
    spec_step (is_set w) (is_weak (map_state w)) (abs w) o = (abs w', r) /\
    is_set w' = is_set w /\ is_weak (map_state w') = is_weak (map_state w) /\
    next_addr w' <= next_addr w + 1.

Lemma plain_normalize k : plain k -> plain (map_normalize_key k).
Proof. destruct k; try done. cbn. by destruct (float64_is_zero _). Qed.

Lemma same_users_uinv w w' : uinv w -> same_users w w' -> uinv w'.
Proof.
  intros [H1 H2 H3] (_ & Ei & Ec & _ & Ew). split.
  - by rewrite Ei.
  - by rewrite Ec.
  - by rewrite Ei, Ec, Ew.
Qed.
Lemma same_users_pins w w' mr : same_users w w' -> pins w' mr = pins w mr.
Proof. intros (_ & Ei & Ec & _). unfold pins. by rewrite Ei, Ec. Qed.
Lemma same_users_abs w w' : same_users w w' -> abs w' = with_entries (abs w) (ents w').
Proof. intros (En & Ei & Ec & _). unfold abs, with_entries. cbn. by rewrite En, Ei, Ec. Qed.

Lemma pins_weak w mr : uinv w -> is_weak (map_state w) = true -> pins w mr = 0.
Proof. intros Hu Hw. destruct (ui_weak _ Hu Hw) as [Ei Ec]. unfold pins. by rewrite Ei, Ec. Qed.

Lemma winv_same w w' : winv w -> sinv w' (pins w) -> same_users w w' -> winv w'.
Proof.
  intros [_ Hu] Hi Hs. split; [| exact (same_users_uinv w w' Hu Hs)].
  eapply sinv_ext; [exact Hi |]. intros mr. by apply same_users_pins.
Qed.

Lemma find_spec w k : winv w -> key_ok k ->
  map_find_record w (map_normalize_key k) = Ret (e_id <$> find_entry (ents w) (map_normalize_key k)).
Proof.
  intros [Hi _] Hk. apply (map_find_record_spec is_iter w (pins w));
    [done | by apply normalize_key_ok | apply normalize_normalized].
Qed.

(** ** Lookup, insertion, deletion *)
Lemma sim_get w k : winv w -> key_ok k -> simulated w (OGet k).
Proof.
  intros Hw Hk. unfold simulated, step. cbn [enumerates]. rewrite andb_false_r. unfold js_map_get.
  rewrite (find_spec w k Hw Hk). cbn [mbind res_bind].
  unfold spec_step. cbn [enumerates]. rewrite andb_false_r. unfold spec_get. cbn [s_entries abs].
  destruct (find_entry (ents w) (map_normalize_key k)) as [e |] eqn:E; cbn [fmap option_fmap option_map].
  - apply find_entry_Some in E as [Hin _]. apply ents_in in Hin as (r & _ & Hr & He & _ & Ev).
    unfold get_record. rewrite Hr. cbn [of_opt mbind res_bind]. destruct Hw as [Hi Hu].
    rewrite (dup_plain is_iter) by (exact (si_iters _ _ _ Hi) || apply (si_keys _ _ _ Hi _ _ Hr He)).
    rewrite Ev. exists w, (RReturn (e_value e)). split_and!; try done. lia.
  - exists w, (RReturn JS_TAG_UNDEFINED). split_and!; try done. lia.
Qed.

Lemma sim_has w k : winv w -> key_ok k -> simulated w (OHas k).
Proof.
  intros Hw Hk. unfold simulated, step. cbn [enumerates]. rewrite andb_false_r. unfold js_map_has.
  rewrite (find_spec w k Hw Hk). cbn [mbind res_bind].
  unfold spec_step. cbn [enumerates]. rewrite andb_false_r. unfold spec_has. cbn [s_entries abs].
  do 2 eexists. split; [reflexivity |]. split_and!; try done; [| lia].
  by destruct (find_entry (ents w) (map_normalize_key k)).
Qed.

Lemma sim_delete w k : winv w -> next_addr w < 2 ^ 29 -> key_ok k -> simulated w (ODelete k).
Proof.
  intros Hw Hn Hk. unfold simulated, step. cbn [enumerates]. rewrite andb_false_r. unfold js_map_delete.
  rewrite (find_spec w k Hw Hk). cbn [mbind res_bind].
  unfold spec_step. cbn [enumerates]. rewrite andb_false_r. unfold spec_delete. cbn [s_entries abs].
  destruct (find_entry (ents w) (map_normalize_key k)) as [e |] eqn:E; cbn [fmap option_fmap option_map].
  - apply find_entry_Some in E as [Hin _]. apply ents_in in Hin as (r & _ & Hr & _).
    pose proof Hw as [Hi Hu].
    destruct (map_delete_record_spec is_iter w (pins w) (e_id e) r Hi) as (w' & -> & Hi' & He' & Hs & _); [lia | done | |].
    { intros Hwk. by apply pins_weak. }
    cbn [mbind res_bind]. exists w', (RReturn (JS_NewBool true)). split_and!; try done.
    + by apply (winv_same w).
    + by rewrite (same_users_abs w w' Hs), He'.
    + apply Hs.
    + apply Hs.
    + destruct Hs as [-> _]. lia.
  - exists w, (RReturn (JS_NewBool false)). split_and!; try done. lia.
Qed.

(** Storing a value in a record. *)
Lemma store_value w mr r v : sinv w (pins w) -> store w !! mr = Some r -> empty r = false -> plain v ->
  sinv (put_record w mr (set_value r v)) (pins w) /\
  ents (put_record w mr (set_value r v)) = update_entry (ents w) mr v.
Proof.
  intros Hi Hr He Hv. destruct (si_pins _ _ _ Hi mr r Hr) as [Erc Hrc].
  destruct (si_pinned _ _ _ Hi mr) as [Hp _].
  destruct (sinv_put is_iter w (pins w) mr r (set_value r v) Hi Hr) as [Hi' He']; try done; [cbn; lia |].
  split; [| done]. eapply sinv_ext; [exact Hi' |]. intros x. cbn. case_decide; lia.
Qed.

Lemma update_new st l mr k v : mr ∉ l ->
  update_entry (entries_of st l ++ [mkEntry mr k JS_TAG_UNDEFINED]) mr v =
  entries_of st l ++ [mkEntry mr k v].
Proof.
  intros Hmr. unfold update_entry. rewrite fmap_app. cbn. rewrite Z.eqb_refl. f_equal.
  rewrite <- (list_fmap_id (entries_of st l)) at 2. apply list_fmap_ext. intros i e He.
  apply list_elem_of_lookup_2, entries_in in He as (r & Hin & _).
  destruct (Z.eqb_spec (e_id e) mr); [congruence | done].
Qed.

Lemma sim_set w k v mem : winv w -> next_addr w < 2 ^ 29 -> op_ok (OSet k v mem) -> simulated w (OSet k v mem).
Proof.
  intros Hw Hn (Hk & Hpk & Hpv & Hm). unfold simulated, step. cbn [enumerates]. rewrite andb_false_r.
  unfold spec_step. cbn [enumerates]. rewrite andb_false_r. unfold js_map_set, spec_set. cbn [s_entries abs].
  set (k' := map_normalize_key k).
  destruct (is_weak (map_state w) && negb (JS_IsObject k')) eqn:Eobj.
  { exists w, RException. split_and!; try done. lia. }
  set (v' := if is_set w then JS_TAG_UNDEFINED else v).
  assert (plain v') as Hv' by (unfold v'; by destruct (is_set w)).
  subst k'. rewrite (find_spec w k Hw Hk). set (k' := map_normalize_key k) in *. cbn [mbind res_bind].
  pose proof Hw as [Hi Hu].
  destruct (find_entry (ents w) k') as [e |] eqn:E; cbn [fmap option_fmap option_map].
  - apply find_entry_Some in E as [Hin _]. apply ents_in in Hin as (r & _ & Hr & He & _ & _).
    unfold get_record. rewrite Hr. cbn [of_opt mbind res_bind].
    rewrite (free_plain is_iter) by (exact (si_iters _ _ _ Hi) || apply (si_keys _ _ _ Hi _ _ Hr He)).
    cbn [mbind res_bind]. rewrite Hr. cbn [of_opt mbind res_bind].
    rewrite (dup_plain is_iter) by (exact (si_iters _ _ _ Hi) || done).
    destruct (store_value w (e_id e) r v' Hi Hr He Hv') as [Hi' He'].
    do 2 eexists. split; [reflexivity |]. split; [| split_and!; try done; [| cbn; lia]].
    + by apply (winv_same w).
    + by rewrite (same_users_abs w (put_record w (e_id e) (set_value r v'))), He' by done.
  - destruct (record_mem mem) eqn:Emem.
    + destruct (map_add_record_spec is_iter w (pins w) k' mem Hi) as (w1 & -> & Hi1 & He1 & En1 & Hr1 & Ei1 & Ec1 & Es1 & Ew1);
        try done.
      * destruct (si_pinned _ _ _ Hi (next_addr w)) as [Hp Hin].
        destruct (decide (0 < pins w (next_addr w))) as [H |]; [| lia].
        specialize (Hin H). apply (si_next _ _ _ Hi) in Hin. lia.
      * by apply normalize_key_ok.
      * apply normalize_normalized.
      * by apply plain_normalize.
      * intros Hwk. rewrite Hwk in Eobj. by destruct (JS_IsObject k').
      * cbn [mbind res_bind]. unfold get_record. rewrite Hr1. cbn [of_opt mbind res_bind].
        rewrite (dup_plain is_iter w1) by (exact (si_iters _ _ _ Hi1) || done).
        assert (forall x, pins w1 x = pins w x) as Hpins by (intros x; unfold pins; by rewrite Ei1, Ec1).
        assert (sinv w1 (pins w1)) as Hi1' by (eapply sinv_ext; [exact Hi1 | done]).
        destruct (store_value w1 (next_addr w) (new_record k') v' Hi1' Hr1 eq_refl Hv') as [Hi2 He2].
        do 2 eexists. split; [reflexivity |].
        set (w2 := put_record w1 (next_addr w) (set_value (new_record k') v')) in *.
        split; [split; [eapply sinv_ext; [exact Hi2 | done] |] | split_and!; try done].
        -- destruct Hu as [H1 H2 H3]. split; cbn; [by rewrite Ei1 | by rewrite Ec1 | by rewrite Ei1, Ec1, Ew1].
        -- unfold abs. rewrite He2, He1. cbn [next_addr w2 put_record set_store iterators calls].
           rewrite En1, Ei1, Ec1. unfold ents. rewrite update_new; [done |].
           intros Hin. apply (si_next _ _ _ Hi) in Hin. lia.
        -- cbn. lia.
    + unfold map_add_record. rewrite Emem. cbn [negb mbind res_bind].
      exists w, RException. split_and!; try done. lia.
Qed.

(** ** [clear], [size] and the objects that go *)
Lemma same_users_trans w1 w2 w3 : same_users w1 w2 -> same_users w2 w3 -> same_users w1 w3.
Proof. intros (? & ? & ? & ? & ?) (? & ? & ? & ? & ?). unfold same_users. split_and!; congruence. Qed.

Lemma recs_split w pn mr : sinv w pn -> mr ∈ recs w -> exists D R, recs w = D ++ mr :: R /\
  (forall x, x ∈ D -> x < mr) /\ (forall x, x ∈ R -> mr < x).
Proof.
  intros Hi Hin. apply list_elem_of_split in Hin as (D & R & E). exists D, R. split; [done |].
  pose proof (si_sorted _ _ _ Hi) as Hs. rewrite E in Hs. apply StronglySorted_app in Hs as (Hd & _ & Hr).
  inversion Hr as [| ? ? _ Hall]; subst. rewrite list.Forall_forall in Hall. split; [| done].
  intros x Hx. apply Hd; [done | left].
Qed.

Lemma clear_loop_spec fuel : forall w D R, winv w -> next_addr w <= 2 ^ 29 -> is_weak (map_state w) = false ->
  recs w = D ++ R -> (forall e, e ∈ ents w -> e_id e ∈ R) -> (length R < fuel)%nat ->
  exists w', clear_loop fuel w (head R) (head (tail R)) = Ret w' /\ winv w' /\ ents w' = [] /\ same_users w w'.
Proof.
  induction fuel as [| fuel IH]; intros w D R Hw Hn Hwk ER HR Hf; [lia |].
  destruct R as [| mr R]; cbn [clear_loop head tail].
  - exists w. split_and!; try done. destruct (ents w) as [| e l]; [done |].
    specialize (HR e ltac:(left)). by apply not_elem_of_nil in HR.
  - pose proof Hw as [Hi Hu]. pose proof (recs_NoDup is_iter w (pins w) Hi) as Hnd. rewrite ER in Hnd.
    destruct (proj2 (si_dom _ _ _ Hi mr)) as [r Hr]; [rewrite ER; apply elem_of_app; right; left |].
    destruct (map_delete_record_spec is_iter w (pins w) mr r Hi Hn Hr) as (w1 & -> & Hi1 & He1 & Hs1 & _ & Hl1);
      [congruence |]. cbn [mbind res_bind].
    pose proof (winv_same w w1 Hw Hi1 Hs1) as Hw1.
    assert (exists D1, recs w1 = D1 ++ R) as [D1 ER1].
    { destruct Hl1 as [-> | ->]; rewrite ER; [exists (D ++ [mr]); by rewrite <- app_assoc |].
      exists D. by apply remove_id_middle. }
    assert (forall e, e ∈ ents w1 -> e_id e ∈ R) as HR1.
    { intros e He. rewrite He1 in He. apply list_elem_of_filter in He as [Hne He].
      apply HR, elem_of_cons in He. tauto. }
    destruct Hs1 as (En & Ei & Ec & Es & Ew).
    assert (list_next (recs w1) (head R) = Ret (head (tail R)) \/ R = []) as [-> | ->].
    { rewrite ER1. apply list_next_app. rewrite <- ER1. apply (recs_NoDup is_iter w1 (pins w)). done. }
    + cbn [mbind res_bind].
      destruct (IH w1 D1 R Hw1) as (w2 & E2 & Hw2 & He2 & Hs2); try done; [lia | congruence | cbn in Hf; lia |].
      exists w2. split_and!; try done. apply (same_users_trans w w1 w2); [done | exact Hs2].
    + cbn [head list_next mbind res_bind tail]. destruct fuel; [cbn in Hf; lia |].
      exists w1. split_and!; try done. destruct (ents w1) as [| e l]; [done |].
      specialize (HR1 e ltac:(left)). by apply not_elem_of_nil in HR1.
Qed.

Lemma sim_clear w : winv w -> next_addr w < 2 ^ 29 -> simulated w OClear.
Proof.
  intros Hw Hn. unfold simulated, step, spec_step. cbn [enumerates]. rewrite andb_true_r.
  destruct (is_weak (map_state w)) eqn:Hwk; [exists w, RException; split_and!; try done; lia |].
  unfold js_map_clear. cbn [list_next mbind res_bind]. pose proof Hw as [Hi Hu].
  destruct (list_next_app [] (recs w)) as [E | E]; cbn [app] in *.
  { apply (recs_NoDup is_iter w (pins w) Hi). }
  - rewrite E. cbn [mbind res_bind].
    destruct (clear_loop_spec (map_fuel w) w [] (recs w) Hw) as (w' & -> & Hw' & He' & Hs); try done; [lia | | unfold map_fuel; lia |].
    + intros e He. apply ents_in in He as (r & Hin & _). done.
    + cbn [mbind res_bind]. exists w', (RReturn JS_TAG_UNDEFINED). split_and!; try done.
      * by rewrite (same_users_abs w w' Hs), He'.
      * apply Hs.
      * rewrite <- Hwk. apply Hs.
      * destruct Hs as [-> _]. lia.
  - assert (ents w = []) as He by (unfold ents; by rewrite E).
    unfold map_fuel. rewrite E. cbn. exists w, (RReturn JS_TAG_UNDEFINED). split_and!; try done; [| lia].
    unfold abs, with_entries. cbn. by rewrite He.
Qed.

Lemma sim_size w : winv w -> next_addr w < 2 ^ 29 -> simulated w OSize.
Proof.
  intros Hw Hn. unfold simulated, step, spec_step. cbn [enumerates]. rewrite andb_true_r.
  destruct (is_weak (map_state w)) eqn:Hwk; [exists w, RException; split_and!; try done; lia |].
  pose proof Hw as [Hi Hu]. destruct (si_count _ _ _ Hi) as [Hc1 Hc2]. destruct (Hc2 Hwk) as [Hc3 _].
  unfold js_map_get_size. destruct (Z.leb_spec (record_count (map_state w)) 0x7fffffff); [| lia].
  exists w. eexists. split; [reflexivity |]. split_and!; try done; [| lia]. by rewrite Hc3.
Qed.

Lemma sim_freed w p : winv w -> simulated w (OObjectFreed p).
Proof.
  intros Hw. pose proof Hw as [Hi Hu]. unfold simulated, step, spec_step. cbn [enumerates]. rewrite andb_false_r.
  destruct (reset_weak_ref_spec is_iter w (pins w) p Hi) as (w' & -> & Hi' & Hs & He').
  { intros Hwk mr. by apply pins_weak. }
  cbn [mbind res_bind]. exists w', (RReturn JS_TAG_UNDEFINED). split; [done |]. split; [by apply (winv_same w) |].
  split; [| destruct Hs as (En & _ & _ & Es & Ew); split_and!; try done; lia].
  rewrite (same_users_abs w w' Hs), He'. cbn [s_entries abs]. by destruct (is_weak (map_state w)).
Qed.

(** ** Enumerations *)

(** The records after the one an enumeration is at, before and after it leaves
    that record. *)
Lemma leave_record w w1 pn mr D R : sinv w pn -> recs w = D ++ mr :: R ->
  (forall x, x ∈ D -> x < mr) -> (forall x, x ∈ R -> mr < x) ->
  (recs w1 = recs w \/ recs w1 = remove_id mr (recs w)) -> ents w1 = ents w ->
  exists D1, recs w1 = D1 ++ R /\ entries_of (store w1) R = entries_after (ents w) (PAfter mr).
Proof.
  intros Hi E HD HR Hl He. pose proof (recs_NoDup is_iter w pn Hi) as Hnd. rewrite E in Hnd.
  assert (exists D1, recs w1 = D1 ++ R /\ forall x, x ∈ D1 -> x <= mr) as (D1 & E1 & HD1).
  { destruct Hl as [-> | ->]; rewrite E.
    - exists (D ++ [mr]). rewrite <- app_assoc. split; [done |].
      intros x [Hx | ->%list_elem_of_singleton]%elem_of_app; [specialize (HD x Hx); lia | lia].
    - exists D. rewrite remove_id_middle by done. split; [done |]. intros x Hx. specialize (HD x Hx). lia. }
  exists D1. split; [done |]. rewrite <- He. unfold ents. rewrite E1. symmetry. by apply entries_after_split.
Qed.

(** The next record that is not empty. *)
Lemma lock_record w pn mr r : sinv w pn -> store w !! mr = Some r -> empty r = false ->
  sinv (put_record w mr (add_ref_count r 1)) (fun x => pn x + if decide (x = mr) then 1 else 0) /\
  ents (put_record w mr (add_ref_count r 1)) = ents w.
Proof.
  intros Hi Hr He. destruct (si_pins _ _ _ Hi mr r Hr) as [Erc Hrc].
  destruct (si_pinned _ _ _ Hi mr) as [Hp _].
  destruct (sinv_put is_iter w pn mr r (add_ref_count r 1) Hi Hr) as [Hi' He']; try done.
  - intros _. apply (si_keys _ _ _ Hi mr r Hr He).
  - cbn. lia.
  - cbn. lia.
  - split.
    + eapply sinv_ext; [exact Hi' |]. intros x. cbn. case_decide; lia.
    + rewrite He'. unfold ents. cbn. by apply update_same.
Qed.

Lemma next_record (l D R : list Z) mr : l = D ++ mr :: R -> NoDup l ->
  list_next l (Some mr) = Ret (head R).
Proof. intros -> Hn. cbn. apply next_after_app. apply list.NoDup_app in Hn as (_ & Hd & _). intros H. apply (Hd mr H). left. Qed.

Definition forEach_result (w : world) (l : list entry) : smap * reply :=
  match l with
  | e :: _ => (mkSpec (ents w) (next_addr w) (s_iterators (abs w)) (e_id e :: (fst <$> calls w)),
               RCall [if is_set w then e_key e else e_value e; e_key e])
  | [] => (abs w, RReturn JS_TAG_UNDEFINED)
  end.

Lemma forEach_from_spec w : winv w -> is_weak (map_state w) = false -> forall R fuel D,
  recs w = D ++ R -> (length R < fuel)%nat ->
  exists w' r, forEach_from fuel w (head R) = Ret (w', r) /\ winv w' /\
    forEach_result w (entries_of (store w) R) = (abs w', r) /\
    is_set w' = is_set w /\ is_weak (map_state w') = is_weak (map_state w) /\ next_addr w' = next_addr w.
Proof.
  intros Hw Hwk. pose proof Hw as [Hi Hu]. induction R as [| mr R IH]; intros fuel D ER Hf.
  - destruct fuel; [cbn in Hf; lia |]. exists w, (RReturn JS_TAG_UNDEFINED). done.
  - destruct fuel as [| fuel]; [lia |]. cbn [forEach_from head].
    destruct (proj2 (si_dom _ _ _ Hi mr)) as [r Hr]; [rewrite ER; apply elem_of_app; right; left |].
    unfold get_record. rewrite Hr. cbn [of_opt mbind res_bind]. rewrite entries_cons.
    destruct (empty r) eqn:He; cbn [negb].
    + rewrite (next_record _ D R mr ER) by exact (recs_NoDup is_iter w (pins w) Hi). cbn [mbind res_bind].
      assert (entry_of (store w) mr = None) as -> by (unfold entry_of; by rewrite Hr, He).
      apply (IH fuel (D ++ [mr])); [by rewrite <- app_assoc | cbn in Hf; lia].
    + rewrite (entry_of_live _ _ _ Hr He). cbn [forEach_result e_id e_key e_value].
      destruct (si_keys _ _ _ Hi mr r Hr He) as (_ & _ & Hpk & Hpv).
      set (w1 := put_record w mr (add_ref_count r 1)).
      assert (iters_ok is_iter w1) as Hits by exact (si_iters _ _ _ Hi).
      rewrite (dup_plain is_iter w1 (key r)) by done.
      assert ((if is_set w1 then w1 else JS_DupValue w1 (value r)) = w1) as ->
        by (rewrite (dup_plain is_iter w1 (value r)) by done; by destruct (is_set w1)).
      change (is_set w1) with (is_set w). change (calls w1) with (calls w).
      destruct (lock_record w (pins w) mr r Hi Hr He) as [Hi1 He1]. fold w1 in Hi1, He1.
      do 2 eexists. split; [reflexivity |].
      set (args := [if is_set w then key r else value r; key r]).
      set (w2 := set_calls w1 ((mr, args) :: calls w)).
      assert (sinv w2 (pins w2)) as Hi2.
      { eapply sinv_ext; [exact (sinv_users is_iter w1 _ (iterators w) ((mr, args) :: calls w) Hi1 Hits) |].
        intros x. unfold pins. cbn. rewrite cnt_cons. repeat case_decide; subst; congruence || lia. }
      split; [split; [exact Hi2 |] |].
      * destruct Hu as [H1 H2 H3]. split; [done | | cbn; congruence].
        intros x a [[= -> ->] | Hx]%elem_of_cons; [| eauto].
        do 2 eexists. split; [reflexivity |]. split; [by destruct (is_set w) | done].
      * split_and!; try done. unfold abs. cbn [ents w2 next_addr iterators calls set_calls].
        change (ents w2) with (ents w1). rewrite He1. done.
Qed.

Lemma spec_forEach_result w pos cs : cs = (fst <$> calls w) ->
  spec_forEach (is_set w) (abs w) pos cs = forEach_result w (entries_after (ents w) pos).
Proof.
  intros ->. unfold spec_forEach, forEach_result. cbn [s_entries abs].
  by destruct (entries_after (ents w) pos).
Qed.

Lemma sim_forEach w : winv w -> simulated w OForEach.
Proof.
  intros Hw. unfold simulated, step, spec_step. cbn [enumerates]. rewrite andb_true_r.
  destruct (is_weak (map_state w)) eqn:Hwk; [exists w, RException; split_and!; try done; lia |].
  unfold js_map_forEach. cbn [list_next mbind res_bind].
  destruct (forEach_from_spec w Hw Hwk (recs w) (map_fuel w) []) as (w' & r & E & Hw' & Er & Es & Ew & En);
    [done | unfold map_fuel; lia |].
  exists w', r. split; [done |]. split; [done |].
  rewrite (spec_forEach_result w PStart) by done. split_and!; congruence || lia || exact Er.
Qed.

Lemma sim_forEach_return w exception : winv w -> simulated w (OForEachReturn exception).
Proof.
  intros Hw. unfold simulated, step, spec_step. cbn [enumerates]. rewrite andb_true_r.
  destruct (is_weak (map_state w)) eqn:Hwk; [exists w, RException; split_and!; try done; lia |].
  unfold forEach_return. cbn [s_calls abs].
  destruct (calls w) as [| [mr args] cs] eqn:Ec; [exists w, RException; split_and!; done || lia |].
  pose proof Hw as [Hi Hu]. destruct (ui_calls _ Hu mr args) as (a0 & a1 & -> & Hp0 & Hp1); [rewrite Ec; left |].
  cbn [lookup list_lookup of_opt mbind res_bind].
  set (w1 := set_calls w cs). assert (iters_ok is_iter w1) as Hits by exact (si_iters _ _ _ Hi).
  rewrite (free_plain is_iter w1 a0) by done. cbn [mbind res_bind].
  assert ((if is_set w1 then Ret w1 else JS_FreeValue w1 a1) = Ret w1) as ->
    by (rewrite (free_plain is_iter w1 a1) by done; by destruct (is_set w1)).
  cbn [mbind res_bind].
  assert (0 < pins w mr) as Hpin.
  { unfold pins. rewrite Ec. cbn. rewrite cnt_cons, decide_True by done.
    pose proof (iter_pins_nonneg (iterators w) mr). pose proof (cnt_nonneg (fst <$> cs) mr). lia. }
  destruct (recs_split w (pins w) mr Hi) as (D & R & ER & HD & HR); [by apply (si_pinned _ _ _ Hi) |].
  change (recs w1) with (recs w).
  rewrite (next_record _ D R mr ER) by exact (recs_NoDup is_iter w (pins w) Hi). cbn [mbind res_bind].
  pose proof (sinv_users is_iter w (pins w) (iterators w) cs Hi Hits) as Hi1.
  change (sinv w1 (pins w)) in Hi1.
  destruct (map_decref_record_spec is_iter w1 (pins w) mr Hi1 Hwk Hpin) as (w2 & -> & Hi2 & He2 & Hs2 & Hl2).
  cbn [mbind res_bind].
  destruct (leave_record w1 w2 (pins w) mr D R Hi1 ER HD HR Hl2 He2) as (D2 & ER2 & HR2).
  assert (uinv w1) as Hu1.
  { destruct Hu as [H1 H2 H3]. split; [done | | cbn; congruence]. intros x a Hx. apply (H2 x).
    rewrite Ec. by right. }
  assert (winv w2) as Hw2.
  { split; [| exact (same_users_uinv w1 w2 Hu1 Hs2)]. eapply sinv_ext; [exact Hi2 |].
    intros x. rewrite (same_users_pins w1 w2 x Hs2). unfold unpin, pins. rewrite Ec. cbn. rewrite cnt_cons.
    repeat case_decide; subst; congruence || lia. }
  pose proof (same_users_abs w1 w2 Hs2) as Ea2. rewrite He2 in Ea2.
  destruct Hs2 as (En & Ei & Ecs & Es & Ewk).
  change (is_set w1) with (is_set w) in Es. change (next_addr w1) with (next_addr w) in En.
  change (is_weak (map_state w1)) with (is_weak (map_state w)) in Ewk.
  destruct exception.
  - exists w2, RException. split_and!; try done; [by rewrite Ea2 | congruence | lia].
  - destruct (forEach_from_spec w2 Hw2) with (R := R) (fuel := map_fuel w2) (D := D2)
      as (w3 & r & E3 & Hw3 & Er & Es3 & Ew3 & En3); [congruence | done | |].
    { unfold map_fuel. rewrite ER2, length_app. lia. }
    exists w3, r. split; [done |]. split; [done |].
    split_and!; [| congruence | congruence | lia].
    rewrite <- Er, HR2. change (spec_forEach (is_set w) (abs w) (PAfter mr) (fst <$> cs) =
      forEach_result w2 (entries_after (ents w) (PAfter mr))).
    unfold spec_forEach, forEach_result. rewrite Ea2, He2, Es, En, Ecs. cbn [s_entries abs].
    by destruct (entries_after (ents w) (PAfter mr)).
Qed.

(** *** Iterators *)
Definition next_result (w : world) (p : Z) (k : JSIteratorKindEnum) (l : list entry) : smap * reply :=
  match l with
  | e :: _ => (set_position (abs w) p k (PAfter (e_id e)), RNext false (fields (is_set w) k e))
  | [] => (set_position (abs w) p k PEnd, RNext true [])
  end.

Lemma abs_iterator w p it : abs (set_iterators w (<[p := it]> (iterators w))) =
  set_position (abs w) p (kind it) (pos it).
Proof. unfold abs, set_position. cbn. by rewrite fmap_insert. Qed.

(** The iterator [p] is at no record, whatever its data says. *)
Lemma iterator_next_from_spec w p it pn : sinv w pn -> uinv w -> is_weak (map_state w) = false ->
  iterators w !! p = Some it -> it_obj it = true ->
  (forall x, pn x = iter_pins (delete p (iterators w)) x + cnt (fst <$> calls w) x) ->
  forall R fuel D, recs w = D ++ R -> (length R < fuel)%nat ->
  exists w' r, iterator_next_from fuel w p (head R) = Ret (w', r) /\ winv w' /\
    next_result w p (kind it) (entries_of (store w) R) = (abs w', r) /\
    is_set w' = is_set w /\ is_weak (map_state w') = is_weak (map_state w) /\ next_addr w' = next_addr w.
Proof.
  intros Hi Hu Hwk Hit Hobj Hpn.
  destruct (ui_iters _ Hu p it Hit) as [Hrefs _].
  assert (forall w1 it1, sinv w1 (fun x => pn x + pin_at it1 x) -> iterators w1 = iterators w ->
    calls w1 = calls w -> is_weak (map_state w1) = false ->
    it_refs it1 = 1 -> (it_obj it1 = false -> cur_record it1 = None) ->
    winv (set_iterators w1 (<[p := it1]> (iterators w1)))) as Hset.
  { intros w1 it1 Hi1 Ei Ec Ew Hr1 Hc1. split.
    - assert (forall q, is_Some (<[p := it1]> (iterators w1) !! q) -> is_iter q = true) as Hits.
      { intros q [it2 Hq]. apply (si_iters _ _ _ Hi). destruct (decide (q = p)) as [-> |]; [eauto |].
        rewrite lookup_insert_ne, Ei in Hq by done. eauto. }
      apply (sinv_ext is_iter _ (fun x => pn x + pin_at it1 x));
        [exact (sinv_users is_iter w1 _ (<[p := it1]> (iterators w1)) (calls w1) Hi1 Hits) |].
      intros x. unfold pins. cbn. rewrite Hpn, iter_pins_insert, Ei, Ec. lia.
    - destruct Hu as [H1 H2 H3]. split; cbn.
      + intros q it2 Hq. destruct (decide (q = p)) as [-> |].
        * rewrite lookup_insert_eq in Hq. by injection Hq as <-.
        * rewrite lookup_insert_ne, Ei in Hq by done. eauto.
      + rewrite Ec. exact H2.
      + congruence. }
  induction R as [| mr R IH]; intros fuel D ER Hf.
  - destruct fuel; [cbn in Hf; lia |]. cbn [iterator_next_from head]. unfold set_iterator. rewrite Hit.
    cbn [of_opt mbind res_bind]. do 2 eexists. split; [reflexivity |].
    split; [apply Hset; try done | split_and!; try done].
    + eapply sinv_ext; [exact Hi |]. intros x. unfold pin_at. cbn. rewrite decide_False by done. lia.
    + by rewrite abs_iterator.
  - destruct fuel as [| fuel]; [lia |]. cbn [iterator_next_from head].
    destruct (proj2 (si_dom _ _ _ Hi mr)) as [r Hr]; [rewrite ER; apply elem_of_app; right; left |].
    unfold get_record. rewrite Hr. cbn [of_opt mbind res_bind]. rewrite entries_cons.
    destruct (empty r) eqn:He; cbn [negb].
    + rewrite (next_record _ D R mr ER) by exact (recs_NoDup is_iter w pn Hi). cbn [mbind res_bind].
      assert (entry_of (store w) mr = None) as -> by (unfold entry_of; by rewrite Hr, He).
      apply (IH fuel (D ++ [mr])); [by rewrite <- app_assoc | cbn in Hf; lia].
    + rewrite (entry_of_live _ _ _ Hr He). cbn [next_result e_id].
      destruct (si_keys _ _ _ Hi mr r Hr He) as (_ & _ & Hpk & Hpv).
      destruct (lock_record w pn mr r Hi Hr He) as [Hi1 He1].
      set (w1 := put_record w mr (add_ref_count r 1)) in *.
      unfold set_iterator. change (iterators w1) with (iterators w). rewrite Hit. cbn [of_opt mbind res_bind].
      set (it1 := mkIterator (it_refs it) true (kind it) (Some mr)).
      change (iterators w) with (iterators w1). set (w2 := set_iterators w1 (<[p := it1]> (iterators w1))).
      assert (winv w2) as Hw2.
      { apply Hset; try done. eapply sinv_ext; [exact Hi1 |]. intros x. cbn. unfold pin_at. cbn.
        repeat case_decide; congruence. }
      assert (iterators w2 !! p = Some it1) as -> by (cbn; by rewrite lookup_insert_eq).
      cbn [of_opt mbind res_bind]. change (kind it1) with (kind it). change (is_set w2) with (is_set w).
      assert (iters_ok is_iter w2) as Hits by exact (si_iters _ _ _ (proj1 Hw2)).
      assert (plain (if is_set w then key r else value r)) as Hpx by (by destruct (is_set w)).
      assert ((match kind it with
               | JS_ITERATOR_KIND_KEY => (JS_DupValue w2 (key r), RNext false [key r])
               | JS_ITERATOR_KIND_VALUE =>
                   (JS_DupValue w2 (if is_set w then key r else value r),
                    RNext false [if is_set w then key r else value r])
               | JS_ITERATOR_KIND_KEY_AND_VALUE =>
                   (JS_DupValue (JS_DupValue w2 (key r)) (if is_set w then key r else value r),
                    RNext false [key r; if is_set w then key r else value r])
               end) = (w2, RNext false (fields (is_set w) (kind it) (mkEntry mr (key r) (value r))))) as ->.
      { destruct (kind it); rewrite ?(dup_plain is_iter w2) by done; done. }
      do 2 eexists. split; [reflexivity |]. split; [done |]. split_and!; try done.
      unfold w2. rewrite abs_iterator. unfold abs. by rewrite He1.
Qed.

Lemma spec_next_eq w p it : iterators w !! p = Some it -> it_obj it = true ->
  spec_next (is_set w) (abs w) p = next_result w p (kind it) (entries_after (ents w) (pos it)).
Proof.
  intros Hit Hobj. unfold spec_next. cbn [s_iterators abs]. rewrite lookup_fmap, Hit. cbn [fmap option_fmap option_map].
  unfold pos. rewrite Hobj. unfold next_result. cbn [s_entries].
  by destruct (cur_record it) as [mr |].
Qed.

Lemma sim_next w p : winv w -> simulated w (ONext p).
Proof.
  intros Hw. unfold simulated, step, spec_step. cbn [enumerates]. rewrite andb_true_r.
  destruct (is_weak (map_state w)) eqn:Hwk; [exists w, RException; split_and!; try done; lia |].
  unfold js_map_iterator_next. pose proof Hw as [Hi Hu].
  destruct (iterators w !! p) as [it |] eqn:Hit.
  2: { exists w, RException. split_and!; try done; [| lia]. unfold spec_next. cbn. by rewrite lookup_fmap, Hit. }
  destruct (it_obj it) eqn:Hobj; cbn [negb].
  2: { exists w, (RNext true []). split_and!; try done; [| lia]. unfold spec_next. cbn.
       rewrite lookup_fmap, Hit. cbn. unfold pos. by rewrite Hobj. }
  rewrite (spec_next_eq w p it Hit Hobj).
  assert (forall x, pins w x = pin_at it x + (iter_pins (delete p (iterators w)) x + cnt (fst <$> calls w) x)) as Hpins
    by (intros x; unfold pins; rewrite (iter_pins_delete _ p it) by done; lia).
  destruct (cur_record it) as [mr |] eqn:Ecur; cbn [list_next].
  - assert (0 < pins w mr) as Hpin.
    { rewrite Hpins. unfold pin_at, pin. rewrite Hobj, Ecur, decide_True by done.
      pose proof (iter_pins_nonneg (delete p (iterators w)) mr). pose proof (cnt_nonneg (fst <$> calls w) mr). lia. }
    destruct (recs_split w (pins w) mr Hi) as (D & R & ER & HD & HR); [by apply (si_pinned _ _ _ Hi) |].
    change (next_after (recs w) mr) with (list_next (recs w) (Some mr)).
    rewrite (next_record _ D R mr ER) by exact (recs_NoDup is_iter w (pins w) Hi). cbn [mbind res_bind].
    destruct (map_decref_record_spec is_iter w (pins w) mr Hi Hwk Hpin) as (w1 & -> & Hi1 & He1 & Hs1 & Hl1).
    cbn [mbind res_bind].
    destruct (leave_record w w1 (pins w) mr D R Hi ER HD HR Hl1 He1) as (D1 & ER1 & HR1).
    pose proof (same_users_abs w w1 Hs1) as Ea1. rewrite He1 in Ea1.
    pose proof (same_users_uinv w w1 Hu Hs1) as Hu1. destruct Hs1 as (En & Ei & Ecs & Es & Ewk).
    destruct (iterator_next_from_spec w1 p it (unpin (pins w) mr) Hi1 Hu1) with (R := R) (fuel := map_fuel w1) (D := D1)
      as (w2 & r & E2 & Hw2 & Er & Es2 & Ew2 & En2); try done; [congruence | congruence | | |].
    + intros x. unfold unpin. rewrite Hpins, Ei, Ecs. unfold pin_at, pin. rewrite Hobj, Ecur.
      repeat case_decide; congruence || lia.
    + unfold map_fuel. rewrite ER1, length_app. lia.
    + exists w2, r. split; [done |]. split; [done |].
      split; [| split_and!; congruence || lia]. rewrite <- Er, HR1. unfold pos. rewrite Hobj, Ecur.
      unfold next_result. rewrite Ea1, Es. by destruct (entries_after (ents w) (PAfter mr)).
  - cbn [mbind res_bind].
    destruct (iterator_next_from_spec w p it (pins w) Hi Hu Hwk Hit Hobj) with
      (R := recs w) (fuel := map_fuel w) (D := @nil Z) as (w2 & r & E2 & Hw2 & Er & Es2 & Ew2 & En2); try done.
    + intros x. rewrite Hpins. unfold pin_at, pin. rewrite Hobj, Ecur, decide_False by done. lia.
    + unfold map_fuel. lia.
    + exists w2, r. split; [done |]. split; [done |].
      split; [| split_and!; congruence || lia]. rewrite <- Er. unfold pos. by rewrite Hobj, Ecur.
Qed.

Lemma sim_iterator w p k : winv w -> is_iter p = true -> simulated w (OIterator p k).
Proof.
  intros Hw Hp. unfold simulated, step, spec_step. cbn [enumerates]. rewrite andb_true_r.
  destruct (is_weak (map_state w)) eqn:Hwk; [exists w, RException; split_and!; try done; lia |].
  unfold js_create_map_iterator. cbn [s_iterators abs]. rewrite lookup_fmap. pose proof Hw as [Hi Hu].
  destruct (iterators w !! p) as [it |] eqn:Hit; cbn [fmap option_fmap option_map].
  - exists w, RException. split_and!; try done. lia.
  - do 2 eexists. split; [reflexivity |]. split; [| split_and!; try done; [by rewrite abs_iterator | cbn; lia]].
    set (it := mkIterator 1 true k None).
    assert (forall q, is_Some (<[p := it]> (iterators w) !! q) -> is_iter q = true) as Hits.
    { intros q [it2 Hq]. destruct (decide (q = p)) as [-> |]; [done |].
      rewrite lookup_insert_ne in Hq by done. apply (si_iters _ _ _ Hi). eauto. }
    split.
    + apply (sinv_ext is_iter _ (pins w)); [exact (sinv_users is_iter w _ _ (calls w) Hi Hits) |].
      intros x. unfold pins. cbn. rewrite iter_pins_insert, delete_id by done.
      unfold pin_at. cbn. rewrite decide_False by done. lia.
    + destruct Hu as [H1 H2 H3]. split; cbn; [| exact H2 | congruence].
      intros q it2 Hq. destruct (decide (q = p)) as [-> |].
      * rewrite lookup_insert_eq in Hq. by injection Hq as <-.
      * rewrite lookup_insert_ne in Hq by done. eauto.
Qed.

Lemma sim_drop w v : winv w -> simulated w (ODrop v).
Proof.
  intros Hw. unfold simulated, step, spec_step. cbn [enumerates]. rewrite andb_false_r. pose proof Hw as [Hi Hu].
  assert (forall w1, w1 = w -> (match v with JS_TAG_OBJECT p => iterators w !! p = None | _ => True end) ->
    exists w' r, (Ret w ≫= fun w => Ret (w, RReturn JS_TAG_UNDEFINED)) = Ret (w', r) /\ winv w' /\
    (match v with
     | JS_TAG_OBJECT p => mkSpec (s_entries (abs w)) (s_next (abs w)) (delete p (s_iterators (abs w))) (s_calls (abs w))
     | _ => abs w
     end, RReturn JS_TAG_UNDEFINED) = (abs w', r) /\
    is_set w' = is_set w /\ is_weak (map_state w') = is_weak (map_state w) /\ next_addr w' <= next_addr w + 1) as Hnop.
  { intros _ _ Hv. exists w, (RReturn JS_TAG_UNDEFINED). split_and!; try done; [| lia].
    destruct v; try done. rewrite delete_id; [done |]. cbn. by rewrite lookup_fmap, Hv. }
  destruct v as [| | p | | | | | |]; try (apply (Hnop w); done). cbn [JS_FreeValue].
  destruct (iterators w !! p) as [it |] eqn:Hit; [| apply (Hnop w); done].
  destruct (ui_iters _ Hu p it Hit) as [-> Hcur]. cbn [Z.eqb Pos.eqb].
  assert (is_weak (map_state w) = false) as Hwk.
  { destruct (is_weak (map_state w)) eqn:E; [| done]. destruct (ui_weak _ Hu E) as [Ei _]. by rewrite Ei in Hit. }
  set (w1 := set_iterators w (delete p (iterators w))).
  assert (forall q, is_Some (delete p (iterators w) !! q) -> is_iter q = true) as Hits.
  { intros q [it2 Hq]. apply lookup_delete_Some in Hq as [_ Hq]. apply (si_iters _ _ _ Hi). eauto. }
  pose proof (sinv_users is_iter w _ _ (calls w) Hi Hits) as Hi1. change (sinv w1 (pins w)) in Hi1.
  assert (uinv w1) as Hu1.
  { destruct Hu as [H1 H2 H3]. split; cbn; [| exact H2 | congruence].
    intros q it2 Hq. apply lookup_delete_Some in Hq as [_ Hq]. eauto. }
  assert (abs w1 = mkSpec (s_entries (abs w)) (s_next (abs w)) (delete p (s_iterators (abs w))) (s_calls (abs w))) as Ea1
    by (unfold abs; cbn; by rewrite fmap_delete).
  assert (forall x, pins w x = pin_at it x + pins w1 x) as Hpins
    by (intros x; unfold pins; cbn; rewrite (iter_pins_delete _ p it) by done; lia).
  unfold js_map_iterator_finalizer.
  assert (pin it = None -> winv w1) as Hnone.
  { intros Hp. split; [| done]. eapply sinv_ext; [exact Hi1 |]. intros x. rewrite Hpins. unfold pin_at.
    rewrite Hp, decide_False by done. lia. }
  destruct (it_obj it) eqn:Hobj; [destruct (cur_record it) as [mr |] eqn:Ecur |].
  - assert (pin it = Some mr) as Hp by (unfold pin; by rewrite Hobj).
    assert (0 < pins w mr) as Hpin.
    { rewrite Hpins. unfold pin_at. rewrite Hp, decide_True by done.
      pose proof (iter_pins_nonneg (iterators w1) mr). pose proof (cnt_nonneg (fst <$> calls w1) mr).
      unfold pins. lia. }
    destruct (map_decref_record_spec is_iter w1 (pins w) mr Hi1 Hwk Hpin) as (w2 & -> & Hi2 & He2 & Hs2 & _).
    cbn [mbind res_bind]. exists w2, (RReturn JS_TAG_UNDEFINED). split; [done |]. split.
    + split; [| exact (same_users_uinv w1 w2 Hu1 Hs2)]. eapply sinv_ext; [exact Hi2 |]. intros x.
      rewrite (same_users_pins w1 w2 x Hs2). unfold unpin. rewrite Hpins. unfold pin_at. rewrite Hp.
      repeat case_decide; congruence || lia.
    + rewrite (same_users_abs w1 w2 Hs2), He2, <- Ea1. destruct Hs2 as (En & _ & _ & Es & Ew).
      split; [done |]. split; [exact Es |]. split; [exact Ew |]. rewrite En. cbn. lia.
  - cbn [mbind res_bind]. exists w1, (RReturn JS_TAG_UNDEFINED). split; [done |].
    split; [apply Hnone; unfold pin; by rewrite Hobj |]. rewrite <- Ea1. split_and!; try done. cbn. lia.
  - cbn [mbind res_bind]. exists w1, (RReturn JS_TAG_UNDEFINED). split; [done |].
    split; [apply Hnone; unfold pin; by rewrite Hobj |]. rewrite <- Ea1. split_and!; try done. cbn. lia.
Qed.

(** ** Programs *)
Lemma sim_step w o : winv w -> next_addr w < 2 ^ 29 -> op_ok o -> simulated w o.
Proof.
  intros Hw Hn Ho. destruct o; cbn in Ho.
  - by apply sim_set.
  - by apply sim_get.
  - by apply sim_has.
  - by apply sim_delete.
  - by apply sim_clear.
  - by apply sim_size.
  - by apply sim_forEach.
  - by apply sim_forEach_return.
  - by apply sim_iterator.
  - by apply sim_next.
  - by apply sim_drop.
  - by apply sim_freed.
Qed.

Lemma winv_new weak set : winv (js_map_new weak set).
Proof.
  split.
  - split; cbn; try done.
    + intros mr. rewrite lookup_empty. split; [by intros [? ?] | intros H; by apply not_elem_of_nil in H].
    + constructor.
    + intros mr H. by apply not_elem_of_nil in H.
    + split; [done |]. intros h Hh. replace h with 0 by lia. done.
    + intros p. rewrite lookup_empty. by intros [? ?].
    + intros _. split; [done |]. intros p. unfold weak_refs. cbn. rewrite lookup_empty. split; [constructor |].
      intros mr. split; [intros H; by apply not_elem_of_nil in H | by intros (? & ? & _)].
  - split; cbn; [done | | done]. intros mr args H. by apply not_elem_of_nil in H.
Qed.

Lemma run_simulated ops : forall w, winv w -> next_addr w + zlen ops <= 2 ^ 29 -> Forall op_ok ops ->
  exists w', run w ops = Ret (w', (spec_run (is_set w) (is_weak (map_state w)) (abs w) ops).2) /\ winv w' /\
    abs w' = (spec_run (is_set w) (is_weak (map_state w)) (abs w) ops).1.
Proof.
  induction ops as [| o ops IH]; intros w Hw Hn Hok; [exists w; done |].
  apply Forall_cons_iff in Hok as [Ho Hok]. rewrite zlen_cons in Hn. pose proof (zlen_nonneg ops).
  destruct (sim_step w o Hw ltac:(lia) Ho) as (w1 & r & E1 & Hw1 & Er & Es & Ew & En).
  cbn [run spec_run]. rewrite E1, Er. cbn [mbind res_bind].
  destruct (IH w1 Hw1 ltac:(lia) Hok) as (w2 & -> & Hw2 & Ea). rewrite Es, Ew in *. cbn [mbind res_bind].
  destruct (spec_run _ _ (abs w1) ops) as [m rs]. exists w2. done.
Qed.
End refine.

(** C4: Map, Set, WeakMap and WeakSet implement their specification.  Any
    program of insertions, lookups, deletions, [clear], [size], [forEach] calls
    nested to any depth, iterators advanced in any order and abandoned at any
    time, and weakly held objects destroyed, on a new map, with an allocator that
    may refuse any request, gets from the hash table with its reference-counted
    records the very replies it gets from a plain list of entries in insertion
    order: entries added during an enumeration are visited, removed ones are
    not, and no freed record is ever touched.  The keys of the program are
    canonical numbers, it stores no iterator of the map in the map itself, and
    it has less than 2^29 operations. *)
Theorem map_refines_spec is_iter weak set ops :
  Forall (op_ok is_iter) ops -> zlen ops <= 2 ^ 29 ->
  exists w, run (js_map_new weak set) ops = Ret (w, (spec_run set weak spec_new ops).2) /\
    abs w = (spec_run set weak spec_new ops).1.
Proof.
  intros Hok Hn. destruct (run_simulated is_iter ops (js_map_new weak set)) as (w & E & _ & Ea); try done.
  - apply winv_new.
  - exists w. change (abs (js_map_new weak set)) with spec_new in *. cbn in E, Ea.
    change (abs (js_map_new weak set)) with spec_new in *. done.
Qed.

(** A callback that deletes its own entry and adds another, an iterator that is
    dropped in the middle, and a failed allocation. *)
Definition sample_program : list op :=
  let I := JS_TAG_INT in
  [OSet (I 1) (I 10) plenty; OSet (JS_TAG_STRING (mkString false [97])) (I 20) plenty; OForEach;
   ODelete (I 1); OSet (I 3) (I 30) plenty; OIterator 100 JS_ITERATOR_KIND_KEY; ONext 100;
   OForEachReturn false; OForEachReturn false; OForEachReturn false; ODrop (JS_TAG_OBJECT 100);
   OSet (I 4) (I 40) (mkMemory false None); OSize].

Lemma map_refines_spec_witness :
  Forall (op_ok (fun p => p =? 100)) sample_program /\ zlen sample_program <= 2 ^ 29 /\
  exists w, run (js_map_new false false) sample_program =
      Ret (w, (spec_run false false spec_new sample_program).2) /\
    abs w = (spec_run false false spec_new sample_program).1.
Proof.
  assert (Forall (op_ok (fun p => p =? 100)) sample_program) as H.
  { unfold sample_program. repeat (apply Forall_cons; [cbn; unfold memory_ok; cbn; repeat split; lia |]).
    apply Forall_nil_2. }
  assert (zlen sample_program <= 2 ^ 29) as Hn by (vm_compute; discriminate).
  split; [exact H |]. split; [exact Hn |].
  exact (map_refines_spec (fun p => p =? 100) false false sample_program H Hn).
Defined.

Example sample_replies : (spec_run false false spec_new sample_program).2 =
  let I := JS_TAG_INT in let a := JS_TAG_STRING (mkString false [97]) in
  [RThis; RThis; RCall [I 10; I 1]; RReturn (JS_TAG_BOOL 1); RThis; RReturn (JS_TAG_OBJECT 100);
   RNext false [a]; RCall [I 20; a]; RCall [I 30; I 3]; RReturn JS_TAG_UNDEFINED; RReturn JS_TAG_UNDEFINED;
   RException; RReturn (I 2)].
Proof. vm_compute. reflexivity. Qed.

(** ** Where the preconditions fail *)

(** The keys 0 to [n - 1], as integers. *)
Definition int_keys (n : nat) : list op :=
  (fun i => OSet (JS_TAG_INT (Z.of_nat i)) (JS_TAG_BOOL 1) plenty) <$> seq 0 n.

(** the hash function does not respect equality when an integer is
    represented as a double, as the result of [0.5 + 0.5] is: in a map with the
    keys 0 to 5 the lookup of the double 1 fails, although it is the same value as
    the key 1 and the same lookup in a map with the keys 0 and 1 succeeds. *)
Theorem lookup_misses_equal_key :
  let one := JS_TAG_FLOAT64 (float64_of_int 1) in
  same_value_zero (JS_TAG_INT 1) one = true /\
  (exists w rs, run (js_map_new false false) (int_keys 2 ++ [OGet one]) = Ret (w, rs) /\
     rs !! 2%nat = Some (RReturn (JS_TAG_BOOL 1))) /\
  (exists w rs, run (js_map_new false false) (int_keys 6 ++ [OGet one]) = Ret (w, rs) /\
     rs !! 6%nat = Some (RReturn JS_TAG_UNDEFINED)).
Proof. split_and!; [vm_compute; reflexivity | ..]; do 2 eexists; (split; [vm_compute; reflexivity | reflexivity]). Qed.

(** [js_map_clear] keeps the next record in [el1] while it deletes the
    current one.  When the value of the current record is the last reference to
    an iterator of the map that stands at the next record, which was deleted
    meanwhile, the finalizer of the iterator frees that record, and [clear] goes
    on at freed memory. *)
Theorem clear_use_after_free :
  let I := JS_TAG_INT in
  replies [OSet (I 1) (I 0) plenty; OSet (I 2) (I 0) plenty; OIterator 100 JS_ITERATOR_KIND_KEY; ONext 100;
           ONext 100; ODelete (I 2); OSet (I 1) (JS_TAG_OBJECT 100) plenty; ODrop (JS_TAG_OBJECT 100)] <> Fault /\
  replies [OSet (I 1) (I 0) plenty; OSet (I 2) (I 0) plenty; OIterator 100 JS_ITERATOR_KIND_KEY; ONext 100;
           ONext 100; ODelete (I 2); OSet (I 1) (JS_TAG_OBJECT 100) plenty; ODrop (JS_TAG_OBJECT 100);
           OClear] = Fault.
Proof. split; [vm_compute; discriminate | vm_compute; reflexivity]. Qed.

(** [n] objects are used as a key and destroyed, one after the other. *)
Definition weak_rounds (n : nat) : list op :=
  concat (replicate n [OSet (JS_TAG_OBJECT 5) (JS_TAG_INT 0) plenty; OObjectFreed 5]).

(** [reset_weak_ref] does not decrement [record_count], so the table of a
    WeakMap grows with the number of insertions: after 1000 objects that came and
    went the map is empty, and its table has 512 buckets. *)
Theorem weak_map_grows :
  exists w rs, run (js_map_new true false) (weak_rounds 1000) = Ret (w, rs) /\
    records (map_state w) = [] /\ record_count (map_state w) = 1000 /\ hash_size (map_state w) = 512.
Proof. do 2 eexists. split; [vm_compute; reflexivity | split_and!; reflexivity]. Qed.
