(* ===== verification/Float64.v ===== *)
(** * IEEE 754 binary64 arithmetic, as the date functions use it

    A finite double is [m * 2 ^ e].  An operation computes the exact result
    and rounds it to 53 significant bits, ties to even; a result of at least
    [2 ^ 1024] is an infinity.  The representation is not unique ([4 * 2 ^ 0],
    [1 * 2 ^ 2]) and the sign of a zero is not kept: the only function that
    could let a caller see it, [time_clip], adds +0.0 to drop it.  Subnormal
    results do not occur: the date functions add, subtract and multiply
    integers and divide an integer by 12. *)
From Stdlib Require Import ZArith Lia Bool.
From stdpp Require Import base numbers list.
From S2P Require Import Prelude.

Inductive float64 : Type :=
| NaN
| Infinity (neg : bool)
| Finite (m e : Z).

Module F64.

(** The integer nearest to [n / d], the even one when there are two. *)
Definition nearest (n d : Z) : Z :=
  let q := n / d in
  let r := n mod d in
  if 2 * r <? d then q
  else if d <? 2 * r then q + 1
  else if Z.even q then q else q + 1.

Definition check_overflow (m e : Z) : float64 :=
  if (1024 <=? Z.log2 (Z.abs m) + e) && negb (m =? 0) then Infinity (m <? 0) else Finite m e.

Definition round (m e : Z) : float64 :=
  let k := Z.log2 (Z.abs m) - 52 in
  if k <=? 0 then check_overflow m e else check_overflow (nearest m (2 ^ k)) (e + k).

(** The conversion of an integer type to [double]. *)
Definition of_int64 (z : Z) : float64 := round z 0.

Definition isnan (x : float64) : bool := match x with NaN => true | _ => false end.
Definition isfinite (x : float64) : bool := match x with Finite _ _ => true | _ => false end.

(** [m1 * 2 ^ e1 <= m2 * 2 ^ e2] *)
Definition le (x y : float64) : bool :=
  match x, y with
  | NaN, _ | _, NaN => false
  | Infinity n, Infinity n' => n || negb n'
  | Infinity n, Finite _ _ => n
  | Finite _ _, Infinity n => negb n
  | Finite m1 e1, Finite m2 e2 =>
      let e := Z.min e1 e2 in m1 * 2 ^ (e1 - e) <=? m2 * 2 ^ (e2 - e)
  end.
Definition lt (x y : float64) : bool :=
  match x, y with
  | NaN, _ | _, NaN => false
  | _, _ => negb (le y x)
  end.

Definition neg (x : float64) : float64 :=
  match x with
  | NaN => NaN
  | Infinity n => Infinity (negb n)
  | Finite m e => Finite (- m) e
  end.

Definition add (x y : float64) : float64 :=
  match x, y with
  | NaN, _ | _, NaN => NaN
  | Infinity n, Infinity n' => if Bool.eqb n n' then Infinity n else NaN
  | Infinity n, Finite _ _ | Finite _ _, Infinity n => Infinity n
  | Finite m1 e1, Finite m2 e2 =>
      let e := Z.min e1 e2 in round (m1 * 2 ^ (e1 - e) + m2 * 2 ^ (e2 - e)) e
  end.
Definition sub (x y : float64) : float64 := add x (neg y).

Definition mul (x y : float64) : float64 :=
  match x, y with
  | NaN, _ | _, NaN => NaN
  | Infinity n, Infinity n' => Infinity (xorb n n')
  | Infinity n, Finite m _ | Finite m _, Infinity n =>
      if m =? 0 then NaN else Infinity (xorb n (m <? 0))
  | Finite m1 e1, Finite m2 e2 => round (m1 * m2) (e1 + e2)
  end.

(** The dividend is scaled so that the quotient has at least 54 bits before
    it is rounded.  The divisor is not zero. *)
Definition div (x y : float64) : float64 :=
  match x, y with
  | NaN, _ | _, NaN => NaN
  | Infinity _, Infinity _ => NaN
  | Infinity n, Finite m _ => Infinity (xorb n (m <? 0))
  | Finite _ _, Infinity _ => Finite 0 0
  | Finite m1 e1, Finite m2 e2 =>
      if m1 =? 0 then Finite 0 0
      else
        let s := Z.max 0 (55 + Z.log2 (Z.abs m2) - Z.log2 (Z.abs m1)) in
        let n := m1 * Z.sgn m2 * 2 ^ s in
        let d := Z.abs m2 in
        let k := Z.log2 (Z.abs n / d) - 52 in
        check_overflow (nearest n (d * 2 ^ k)) (e1 - e2 - s + k)
  end.

(** [fmod], which is exact; the divisor is not zero. *)
Definition fmod (x y : float64) : float64 :=
  match x, y with
  | Finite m1 e1, Finite m2 e2 =>
      let e := Z.min e1 e2 in Finite (Z.rem (m1 * 2 ^ (e1 - e)) (m2 * 2 ^ (e2 - e))) e
  | Finite m e, Infinity _ => Finite m e
  | _, _ => NaN
  end.

(** The integer part, towards zero and towards minus infinity. *)
Definition trunc_Z (m e : Z) : Z := if 0 <=? e then m * 2 ^ e else Z.quot m (2 ^ (- e)).
Definition floor_Z (m e : Z) : Z := if 0 <=? e then m * 2 ^ e else m / 2 ^ (- e).
Definition trunc (x : float64) : float64 :=
  match x with Finite m e => Finite (trunc_Z m e) 0 | _ => x end.
Definition floor (x : float64) : float64 :=
  match x with Finite m e => Finite (floor_Z m e) 0 | _ => x end.

(** Conversions to the integer types: undefined when the integer part does
    not fit. *)
Definition to_int (w : Z) (x : float64) : res Z :=
  match x with
  | Finite m e =>
      let z := trunc_Z m e in
      if (- 2 ^ (w - 1) <=? z) && (z <? 2 ^ (w - 1)) then Ret z else Fault
  | _ => Fault
  end.

(** ** Integers below [2 ^ 53] are exact *)
Definition exact (z : Z) : Prop := - 2 ^ 53 < z < 2 ^ 53.

Lemma check_overflow_exact z : exact z -> check_overflow z 0 = Finite z 0.
Proof.
  unfold exact, check_overflow. intros H.
  destruct (Z.eqb_spec z 0) as [-> | Hz]; [done |].
  assert (Z.log2 (Z.abs z) < 53) by (apply Z.log2_lt_pow2; lia).
  destruct (Z.leb_spec 1024 (Z.log2 (Z.abs z) + 0)); [lia | done].
Qed.

Lemma round_exact z : exact z -> round z 0 = Finite z 0.
Proof.
  intros H. unfold round.
  assert (Z.log2 (Z.abs z) < 53).
  { unfold exact in H. destruct (Z.eq_dec z 0) as [-> | Hz]; [done |].
    apply Z.log2_lt_pow2; lia. }
  destruct (Z.leb_spec (Z.log2 (Z.abs z) - 52) 0); [| lia].
  by apply check_overflow_exact.
Qed.

Lemma of_int64_exact z : exact z -> of_int64 z = Finite z 0.
Proof. apply round_exact. Qed.

Lemma add_exact a b : exact (a + b) -> add (Finite a 0) (Finite b 0) = Finite (a + b) 0.
Proof. intros H. cbn. rewrite !Z.mul_1_r. by apply round_exact. Qed.

Lemma sub_exact a b : exact (a - b) -> sub (Finite a 0) (Finite b 0) = Finite (a - b) 0.
Proof. intros H. unfold sub. cbn [neg]. rewrite add_exact; [done | exact H]. Qed.

Lemma mul_exact a b : exact (a * b) -> mul (Finite a 0) (Finite b 0) = Finite (a * b) 0.
Proof. intros H. cbn. by apply round_exact. Qed.

Lemma fmod_exact a b : fmod (Finite a 0) (Finite b 0) = Finite (Z.rem a b) 0.
Proof. cbn. by rewrite !Z.mul_1_r. Qed.

Lemma le_exact a b : le (Finite a 0) (Finite b 0) = (a <=? b).
Proof. cbn. by rewrite !Z.mul_1_r. Qed.

Lemma lt_exact a b : lt (Finite a 0) (Finite b 0) = (a <? b).
Proof. cbn. rewrite !Z.mul_1_r. symmetry. apply Z.ltb_antisym. Qed.

Lemma trunc_exact a : trunc (Finite a 0) = Finite a 0.
Proof. unfold trunc, trunc_Z. cbn [Z.leb Z.compare]. by rewrite Z.mul_1_r. Qed.

Lemma floor_exact a : floor (Finite a 0) = Finite a 0.
Proof. unfold floor, floor_Z. cbn [Z.leb Z.compare]. by rewrite Z.mul_1_r. Qed.

Lemma to_int_exact w a : - 2 ^ (w - 1) <= a < 2 ^ (w - 1) -> to_int w (Finite a 0) = Ret a.
Proof.
  intros H. unfold to_int, trunc_Z. cbn [Z.leb Z.compare]. rewrite Z.pow_0_r, Z.mul_1_r.
  destruct (Z.leb_spec (- 2 ^ (w - 1)) a), (Z.ltb_spec a (2 ^ (w - 1))); cbn; lia || done.
Qed.

Lemma nearest_bounds n d a b : 0 < d -> a * d <= n -> 2 * n + d < 2 * (b * d) ->
  a <= nearest n d < b.
Proof.
  intros Hd Ha Hb. unfold nearest.
  pose proof (Z.div_mod n d ltac:(lia)) as E.
  pose proof (Z.mod_pos_bound n d Hd) as Hr.
  set (q := n / d) in *. set (r := n mod d) in *.
  assert (a <= q) by nia.
  destruct (Z.ltb_spec (2 * r) d), (Z.ltb_spec d (2 * r)), (Z.even q); try nia.
Qed.

(** The rounded quotient by 12 never reaches the next integer. *)
Lemma floor_div_12 z : exact z -> floor (div (Finite z 0) (Finite 12 0)) = Finite (z / 12) 0.
Proof.
  intros Hz. unfold exact in Hz. unfold div.
  destruct (Z.eqb_spec z 0) as [-> | Hz0]; [done |].
  change (Z.log2 (Z.abs 12)) with 3. change (Z.sgn 12) with 1. change (Z.abs 12) with 12.
  set (l := Z.log2 (Z.abs z)).
  pose proof (Z.log2_spec (Z.abs z) ltac:(lia)) as Hl. fold l in Hl.
  assert (0 <= l) by apply Z.log2_nonneg.
  assert (l < 53) by (apply Z.log2_lt_pow2; lia).
  rewrite Z.max_r by lia. set (s := 55 + 3 - l).
  replace (z * 1 * 2 ^ s) with (z * 2 ^ s) by lia.
  set (n := z * 2 ^ s).
  assert (0 < 2 ^ s) as Hs by (apply Z.pow_pos_nonneg; lia).
  assert (2 ^ 58 <= Z.abs n < 2 ^ 59) as Hn.
  { assert (2 ^ 58 = 2 ^ l * 2 ^ s) as E1 by (rewrite <- Z.pow_add_r by lia; f_equal; lia).
    assert (2 ^ 59 = 2 ^ Z.succ l * 2 ^ s) as E2 by (rewrite <- Z.pow_add_r by lia; f_equal; lia).
    rewrite E1, E2. unfold n. rewrite Z.abs_mul, (Z.abs_eq (2 ^ s)) by lia. nia. }
  set (k := Z.log2 (Z.abs n / 12) - 52).
  assert (2 <= k <= 3) as Hk.
  { unfold k. assert (54 <= Z.log2 (Z.abs n / 12)).
    { apply Z.log2_le_pow2; [| apply Z.div_le_lower_bound; lia].
      assert (2 ^ 54 <= Z.abs n / 12) by (apply Z.div_le_lower_bound; lia). lia. }
    assert (Z.log2 (Z.abs n / 12) < 56); [| lia].
    apply Z.log2_lt_pow2; [| apply Z.div_lt_upper_bound; lia].
    assert (2 ^ 54 <= Z.abs n / 12) by (apply Z.div_le_lower_bound; lia). lia. }
  assert (2 ^ s = 2 ^ (s - k) * 2 ^ k) as Es by (rewrite <- Z.pow_add_r by lia; f_equal; lia).
  assert (8 <= 2 ^ (s - k)) as Hu by (change 8 with (2 ^ 3); apply Z.pow_le_mono_r; lia).
  assert (0 < 2 ^ k) as Hkp by (apply Z.pow_pos_nonneg; lia).
  set (u := 2 ^ (s - k)) in *. set (q := z / 12).
  pose proof (Z.div_mod z 12 ltac:(lia)) as Eq. fold q in Eq.
  pose proof (Z.mod_pos_bound z 12 ltac:(lia)) as Hr.
  assert (q * u <= nearest n (12 * 2 ^ k) < (q + 1) * u) as Hnear.
  { apply nearest_bounds; [lia | |]; unfold n; rewrite Es; nia. }
  assert (exact (nearest n (12 * 2 ^ k)) \/ Z.abs (nearest n (12 * 2 ^ k)) <= 2 ^ 53) as Hm.
  { right. assert (- 2 ^ 53 - 1 < nearest n (12 * 2 ^ k) < 2 ^ 53 + 1); [| lia].
    assert (Z.abs n < 2 ^ 53 * (12 * 2 ^ k)) as Hb.
    { pose proof (Z.log2_spec (Z.abs n / 12)) as Hls.
      assert (0 < Z.abs n / 12) as Hp by (apply Z.div_str_pos; lia).
      specialize (Hls Hp). replace (Z.succ (Z.log2 (Z.abs n / 12))) with (53 + k) in Hls by (unfold k; lia).
      rewrite Z.pow_add_r in Hls by lia.
      pose proof (Z.div_mod (Z.abs n) 12 ltac:(lia)).
      pose proof (Z.mod_pos_bound (Z.abs n) 12 ltac:(lia)). lia. }
    assert (- 2 ^ 53 <= nearest n (12 * 2 ^ k) < 2 ^ 53 + 1); [| lia].
    apply nearest_bounds; lia. }
  set (v := nearest n (12 * 2 ^ k)) in *.
  unfold check_overflow.
  assert ((1024 <=? Z.log2 (Z.abs v) + (0 - 0 - s + k)) = false) as ->.
  { apply Z.leb_gt. assert (Z.log2 (Z.abs v) <= 53).
    { change 53 with (Z.log2 (2 ^ 53)). apply Z.log2_le_mono. unfold exact in Hm. lia. }
    lia. }
  cbn [andb]. unfold floor, floor_Z. destruct (Z.leb_spec 0 (0 - 0 - s + k)); [lia |].
  replace (- (0 - 0 - s + k)) with (s - k) by lia. fold u.
  f_equal. symmetry. apply (Z.div_unique v u q (v - q * u)); lia.
Qed.

(** ** Integers of any size: rounding does not cross a power of two *)

(** An integral double of absolute value at most [b]. *)
Definition int_le (b : Z) (x : float64) : Prop :=
  exists m e, x = Finite m e /\ 0 <= e /\ - b <= m * 2 ^ e <= b.

Lemma int_le_Finite b z : - b <= z <= b -> int_le b (Finite z 0).
Proof. intros H. exists z, 0. rewrite Z.mul_1_r. split_and!; lia || done. Qed.

Lemma nearest_mono n d a b : 0 < d -> a * d <= n <= b * d -> a <= nearest n d <= b.
Proof.
  intros Hd Hn. unfold nearest.
  pose proof (Z.div_mod n d ltac:(lia)) as E.
  pose proof (Z.mod_pos_bound n d Hd) as Hr.
  set (q := n / d) in *. set (r := n mod d) in *.
  assert (a <= q) by nia. assert (q <= b) by nia. assert (r = 0 \/ q < b) by nia.
  destruct (Z.ltb_spec (2 * r) d), (Z.ltb_spec d (2 * r)), (Z.even q); lia.
Qed.

Lemma check_overflow_le p m e : 0 <= p < 1024 -> 0 <= e -> - 2 ^ p <= m * 2 ^ e <= 2 ^ p ->
  check_overflow m e = Finite m e.
Proof.
  intros Hp He Hm. unfold check_overflow. destruct (Z.eqb_spec m 0) as [-> | Hm0].
  { by rewrite andb_false_r. }
  destruct (Z.leb_spec 1024 (Z.log2 (Z.abs m) + e)) as [L |]; [exfalso | done].
  assert (2 ^ (Z.log2 (Z.abs m) + e) <= 2 ^ p) as M.
  { rewrite Z.pow_add_r by (lia || apply Z.log2_nonneg).
    pose proof (Z.log2_spec (Z.abs m) ltac:(lia)).
    assert (0 < 2 ^ e) by (apply Z.pow_pos_nonneg; lia).
    assert (Z.abs m * 2 ^ e <= 2 ^ p); [| nia].
    rewrite <- (Z.abs_eq (2 ^ e)), <- Z.abs_mul by lia. lia. }
  apply Z.pow_le_mono_r_iff in M; lia.
Qed.

Lemma round_le p m e : 0 <= p < 1024 -> 0 <= e -> - 2 ^ p <= m * 2 ^ e <= 2 ^ p ->
  int_le (2 ^ p) (round m e).
Proof.
  intros Hp He Hm. unfold round. set (k := Z.log2 (Z.abs m) - 52).
  destruct (Z.leb_spec k 0) as [Hk | Hk].
  - rewrite (check_overflow_le p) by done. by exists m, e.
  - assert (m <> 0) as Hm0 by (intros ->; by compute in k; subst k).
    assert (0 < 2 ^ k /\ 0 < 2 ^ e) as [Hkp Hep] by (split; apply Z.pow_pos_nonneg; lia).
    assert (e + k <= p) as Hekp.
    { apply (Z.pow_le_mono_r_iff 2); [lia | lia |].
      transitivity (2 ^ (e + Z.log2 (Z.abs m))); [apply Z.pow_le_mono_r; lia |].
      rewrite Z.pow_add_r by (lia || apply Z.log2_nonneg).
      pose proof (Z.log2_spec (Z.abs m) ltac:(lia)).
      assert (Z.abs m * 2 ^ e <= 2 ^ p); [| nia].
      rewrite <- (Z.abs_eq (2 ^ e)), <- Z.abs_mul by lia. lia. }
    assert (2 ^ p = 2 ^ (p - e - k) * 2 ^ k * 2 ^ e) as Ep.
    { rewrite <- !Z.pow_add_r by lia. f_equal. lia. }
    assert (- 2 ^ (p - e - k) <= nearest m (2 ^ k) <= 2 ^ (p - e - k)) as Hn.
    { apply nearest_mono; [lia |]. nia. }
    assert (- 2 ^ p <= nearest m (2 ^ k) * 2 ^ (e + k) <= 2 ^ p) as Hv.
    { rewrite Ep, (Z.pow_add_r 2 e k) by lia. set (a := 2 ^ (p - e - k)) in *.
      assert (0 < 2 ^ k * 2 ^ e) by lia. nia. }
    rewrite (check_overflow_le p) by lia. exists (nearest m (2 ^ k)), (e + k). split_and!; lia || done.
Qed.

Lemma of_int64_le p z : 0 <= p < 1024 -> - 2 ^ p <= z <= 2 ^ p -> int_le (2 ^ p) (of_int64 z).
Proof. intros. apply round_le; lia. Qed.

Lemma mul_le p a b x y : 0 <= p < 1024 -> 0 <= a -> 0 <= b -> int_le a x -> int_le b y -> a * b <= 2 ^ p ->
  int_le (2 ^ p) (mul x y).
Proof.
  intros Hp Ha Hb (m & e & -> & He & Hm) (n & f & -> & Hf & Hn) Hab. cbn [mul].
  apply round_le; [done | lia |]. rewrite Z.pow_add_r by lia.
  replace (m * n * (2 ^ e * 2 ^ f)) with (m * 2 ^ e * (n * 2 ^ f)) by lia.
  set (u := m * 2 ^ e) in *. set (v := n * 2 ^ f) in *. clearbody u v.
  assert (Z.abs (u * v) <= a * b); [| lia]. rewrite Z.abs_mul. apply Z.mul_le_mono_nonneg; lia.
Qed.

Lemma add_le p a b x y : 0 <= p < 1024 -> int_le a x -> int_le b y -> a + b <= 2 ^ p ->
  int_le (2 ^ p) (add x y).
Proof.
  intros Hp (m & e & -> & He & Hm) (n & f & -> & Hf & Hn) Hab. cbn [add].
  apply round_le; [done | lia |]. rewrite Z.mul_add_distr_r, <- !Z.mul_assoc, <- !Z.pow_add_r by lia.
  replace (e - Z.min e f + Z.min e f) with e by lia. replace (f - Z.min e f + Z.min e f) with f by lia. lia.
Qed.

Lemma to_int_le p w x : 0 <= p < w - 1 -> int_le (2 ^ p) x ->
  exists z, to_int w x = Ret z /\ - 2 ^ p <= z <= 2 ^ p.
Proof.
  intros Hp (m & e & -> & He & Hm). unfold to_int, trunc_Z. destruct (Z.leb_spec 0 e); [| lia].
  assert (2 ^ p < 2 ^ (w - 1)) by (apply Z.pow_lt_mono_r; lia).
  destruct (Z.leb_spec (- 2 ^ (w - 1)) (m * 2 ^ e)), (Z.ltb_spec (m * 2 ^ e) (2 ^ (w - 1))); try lia.
  cbn [andb]. eauto.
Qed.

(** ** Known values *)
Example round_tie_even : round (2 ^ 53 + 1) 0 = Finite (2 ^ 52) 1.
Proof. reflexivity. Qed.
Example round_tie_up : round (2 ^ 53 + 3) 0 = Finite (2 ^ 52 + 2) 1.
Proof. reflexivity. Qed.
(** [1.0 / 12] is 0x3FB5555555555555. *)
Example one_twelfth : div (Finite 1 0) (Finite 12 0) = Finite 0x15555555555555 (-56).
Proof. reflexivity. Qed.
Example mul_overflow : mul (Finite (2 ^ 52) 900) (Finite (2 ^ 52) 900) = Infinity false.
Proof. reflexivity. Qed.

End F64.
