(* ===== verification/Date.v ===== *)
(** * quickjs.c: the Date object

    Calendar arithmetic ([days_from_year] to [set_date_fields]), the getters,
    setters and constructor, the four string formats and [Date.parse].

    [int64_t] and [int] arithmetic is checked: a result outside the type is a
    [Fault], as is the conversion of a double that does not fit.  A Date object
    is its [object_data].  The value of an argument comes from [JS_ToFloat64],
    which may run a script that changes the object: an argument is a function
    from the object to the object and the number.  The local time zone is the
    field [tm_gmtoff] that [localtime_r] fills in, a parameter; [time_t] has 64
    bits. *)
From Stdlib Require Import ZArith Lia Bool Ascii String.
From stdpp Require Import base numbers list.
From S2P Require Import Prelude Cutils JSValue Float64.

Class LocalTime : Type := {
  (** Seconds east of UTC at a time in seconds since 1970. *)
  tm_gmtoff : Z -> Z;
  (** A time zone is at most 24:59:59 from UTC (POSIX, TZ). *)
  tm_gmtoff_range : forall t, - 90000 < tm_gmtoff t < 90000
}.

(** ** Checked machine arithmetic *)
Definition int64 (z : Z) : res Z :=
  if (- 2 ^ 63 <=? z) && (z <? 2 ^ 63) then Ret z else Fault.
Definition int32 (z : Z) : res Z :=
  if (- 2 ^ 31 <=? z) && (z <? 2 ^ 31) then Ret z else Fault.

(** [a] is small enough for [m + (m < 0) * b] and the difference to fit. *)
Definition math_mod (a b : Z) : Z :=
  let m := Z.rem a b in m + (if m <? 0 then b else 0).

Definition floor_div (a b : Z) : res Z :=
  let m := Z.rem a b in
  n ← int64 (a - (m + (if m <? 0 then b else 0)));
  Ret (Z.quot n b).

(** ** Years and days *)
Definition days_from_year (y : Z) : res Z :=
  y1970 ← int64 (y - 1970);
  a ← int64 (365 * y1970);
  y1969 ← int64 (y - 1969);
  b ← floor_div y1969 4;
  ab ← int64 (a + b);
  y1901 ← int64 (y - 1901);
  c ← floor_div y1901 100;
  abc ← int64 (ab - c);
  y1601 ← int64 (y - 1601);
  d ← floor_div y1601 400;
  int64 (abc + d).

Definition days_in_year (y : Z) : Z :=
  365 + (if Z.rem y 4 =? 0 then 1 else 0) - (if Z.rem y 100 =? 0 then 1 else 0)
      + (if Z.rem y 400 =? 0 then 1 else 0).

(** The loop of [year_from_days]: the year and the day in the year. *)
Fixpoint year_from_days_loop (fuel : nat) (d y : Z) : res (Z * Z) :=
  match fuel with
  | O => NoFuel
  | S fuel =>
      days ← days_from_year y;
      let d1 := d - days in
      if d1 <? 0 then year_from_days_loop fuel d (y - 1)
      else
        let nd := days_in_year y in
        if d1 <? nd then Ret (y, d1) else year_from_days_loop fuel d (y + 1)
  end.

(** Two iterations are enough. *)
Definition year_from_days (days : Z) : res (Z * Z) :=
  d ← int64 (days * 10000);
  y ← floor_div d 3652425;
  year_from_days_loop 2 days (y + 1970).

Definition month_days : list Z := [31; 28; 31; 30; 31; 30; 31; 31; 30; 31; 30; 31].

Definition ascii_codes (s : string) : list Z :=
  map (fun c => Z.of_nat (nat_of_ascii c)) (list_ascii_of_string s).
Definition month_names : list Z := ascii_codes "JanFebMarAprMayJunJulAugSepOctNovDec".
Definition day_names : list Z := ascii_codes "SunMonTueWedThuFriSat".

(** [md] in the loops over months. *)
Definition days_in_month (y i : Z) : res Z :=
  md ← of_opt (znth month_days i);
  Ret (if i =? 1 then md + (days_in_year y - 365) else md).

(** The month that contains day [days] of year [y], and the day of month. *)
Fixpoint find_month (fuel : nat) (y i days : Z) : res (Z * Z) :=
  match fuel with
  | O => NoFuel
  | S fuel =>
      if i <? 11 then
        md ← days_in_month y i;
        if days <? md then Ret (i, days) else find_month fuel y (i + 1) (days - md)
      else Ret (i, days)
  end.

(** ** The Date object *)
Inductive this_val : Type :=
| NotDate
| DateObj (object_data : float64).

(** What a C function returns to the interpreter: a value or an exception. *)
Inductive js (A : Type) : Type :=
| JS_OK (a : A)
| JS_TypeError
| JS_RangeError
| JS_Throw.
Arguments JS_OK {A} a.
Arguments JS_TypeError {A}.
Arguments JS_RangeError {A}.
Arguments JS_Throw {A}.

Definition JS_ThisTimeValue (this : this_val) : option float64 :=
  match this with DateObj v => Some v | NotDate => None end.

Definition JS_SetThisTimeValue (this : this_val) (v : float64) : this_val * js float64 :=
  match this with
  | DateObj _ => (DateObj v, JS_OK v)
  | NotDate => (NotDate, JS_TypeError)
  end.

Definition time_clip (t : float64) : float64 :=
  if F64.le (Finite (-8640000000000000) 0) t && F64.le t (Finite 8640000000000000 0)
  then F64.trunc t else NaN.

(** An argument: [JS_ToFloat64] may change the object and may throw. *)
Definition JSArg : Type := this_val -> this_val * option float64.

Section local_time.
Context `{LocalTime}.

Definition getTimezoneOffset (time : Z) : Z :=
  let ti := Z.quot time 1000 in
  i32 (Z.quot (- tm_gmtoff ti) 60).

Inductive fields_result : Type :=
| GDF_exception
| GDF_nan
| GDF_fields (fields : list float64).

(** The fields of time [d] in milliseconds, [tz] minutes included. *)
Definition split_time (d tz : Z) : res (list Z) :=
  let h := math_mod d 86400000 in
  d0 ← int64 (d - h);
  let days := Z.quot d0 86400000 in
  let ms := Z.rem h 1000 in
  let h := Z.quot (h - ms) 1000 in
  let s := Z.rem h 60 in
  let h := Z.quot (h - s) 60 in
  let m := Z.rem h 60 in
  let h := Z.quot (h - m) 60 in
  let wd := math_mod (days + 4) 7 in
  '(y, days) ← year_from_days days;
  '(i, days) ← find_month 12 y 0 days;
  Ret [y; i; days + 1; h; m; s; ms; wd; tz].

Definition get_date_fields (obj : this_val) (is_local force : bool) : res fields_result :=
  match JS_ThisTimeValue obj with
  | None => Ret GDF_exception
  | Some dval =>
      if F64.isnan dval && negb force then Ret GDF_nan
      else
        '(d, tz) ←
          (if F64.isnan dval then Ret (0, 0)
           else
             d ← F64.to_int 64 dval;
             if is_local then
               let tz := - getTimezoneOffset d in
               d ← int64 (d + tz * 60000);
               Ret (d, tz)
             else Ret (d, 0));
        fields ← split_time d tz;
        Ret (GDF_fields (map F64.of_int64 fields))
  end.

(** The loop that adds the lengths of the months before [m]. *)
Fixpoint add_months (n : nat) (y i : Z) (days : float64) : res float64 :=
  match n with
  | O => Ret days
  | S n => md ← days_in_month y i; add_months n y (i + 1) (F64.add days (F64.of_int64 md))
  end.

Definition field (fields : list float64) (i : Z) : res float64 := of_opt (znth fields i).
Definition dbl (z : Z) : float64 := Finite z 0.

Definition set_date_fields (fields : list float64) (is_local : bool) : res float64 :=
  m1 ← field fields 1;
  m ← F64.to_int 32 (F64.fmod m1 (dbl 12));
  let m := if m <? 0 then m + 12 else m in
  f0 ← field fields 0;
  y ← F64.to_int 64 (F64.add f0 (F64.floor (F64.div m1 (dbl 12))));
  days ← days_from_year y;
  days ← add_months (Z.to_nat m) y 0 (F64.of_int64 days);
  f2 ← field fields 2;
  let days := F64.add days (F64.sub f2 (dbl 1)) in
  f3 ← field fields 3;
  f4 ← field fields 4;
  f5 ← field fields 5;
  f6 ← field fields 6;
  let h := F64.add (F64.add (F64.add (F64.mul f3 (dbl 3600000)) (F64.mul f4 (dbl 60000)))
                            (F64.mul f5 (dbl 1000))) f6 in
  let d := F64.add (F64.mul days (dbl 86400000)) h in
  d ← (if is_local then
         t ← F64.to_int 64 d;
         off ← int32 (getTimezoneOffset t * 60000);
         Ret (F64.add d (F64.of_int64 off))
       else Ret d);
  Ret (time_clip d).

(** ** Getters and setters *)
Definition get_date_field (this : this_val) (magic : Z) : res (js float64) :=
  let is_local := Z.land magic 15 in
  let n := Z.land (Z.shiftr magic 4) 15 in
  r ← get_date_fields this (negb (is_local =? 0)) false;
  match r with
  | GDF_exception => Ret JS_TypeError
  | GDF_nan => Ret (JS_OK NaN)
  | GDF_fields fields =>
      f0 ← field fields 0;
      let f0 := if Z.land magic 256 =? 0 then f0 else F64.sub f0 (dbl 1900) in
      fields ← of_opt (zupd fields 0 f0);
      f ← field fields n;
      Ret (JS_OK f)
  end.

Inductive set_fields_result : Type :=
| SF_throw
| SF_done
| SF_fields (fields : list float64).

(** The loop over the [n] arguments that are used. *)
Fixpoint set_fields (n : nat) (args : list JSArg) (this : this_val) (i : Z)
    (fields : list float64) : res (this_val * set_fields_result) :=
  match n, args with
  | O, _ => Ret (this, SF_fields fields)
  | S n, arg :: args =>
      let '(this, a) := arg this in
      match a with
      | None => Ret (this, SF_throw)
      | Some a =>
          if F64.isfinite a then
            fields ← of_opt (zupd fields i (F64.trunc a));
            set_fields n args this (i + 1) fields
          else Ret (this, SF_done)
      end
  | S _, [] => Fault
  end.

Definition set_date_field (this : this_val) (args : list JSArg) (magic : Z)
    : res (this_val * js float64) :=
  let first_field := Z.land (Z.shiftr magic 8) 15 in
  let end_field := Z.land (Z.shiftr magic 4) 15 in
  let is_local := negb (Z.land magic 15 =? 0) in
  r ← get_date_fields this is_local (first_field =? 0);
  match r with
  | GDF_exception => Ret (this, JS_TypeError)
  | GDF_nan => Ret (JS_SetThisTimeValue this NaN)
  | GDF_fields fields =>
      if 0 <? zlen args then
        let n := Z.min (zlen args) (end_field - first_field) in
        '(this, r) ← set_fields (Z.to_nat n) args this first_field fields;
        match r with
        | SF_throw => Ret (this, JS_Throw)
        | SF_done => Ret (JS_SetThisTimeValue this NaN)
        | SF_fields fields =>
            d ← set_date_fields fields is_local;
            Ret (JS_SetThisTimeValue this d)
        end
      else Ret (JS_SetThisTimeValue this NaN)
  end.

Definition js_date_getTimezoneOffset (this : this_val) : res (js float64) :=
  match JS_ThisTimeValue this with
  | None => Ret JS_TypeError
  | Some v =>
      if F64.isnan v then Ret (JS_OK NaN)
      else t ← F64.to_int 64 (F64.trunc v); Ret (JS_OK (F64.of_int64 (getTimezoneOffset t)))
  end.

Definition js_date_getTime (this : this_val) : js float64 :=
  match JS_ThisTimeValue this with None => JS_TypeError | Some v => JS_OK v end.

Definition js_date_setTime (this : this_val) (arg : JSArg) : this_val * js float64 :=
  match JS_ThisTimeValue this with
  | None => (this, JS_TypeError)
  | Some _ =>
      let '(this, v) := arg this in
      match v with
      | None => (this, JS_Throw)
      | Some v => JS_SetThisTimeValue this (time_clip v)
      end
  end.

(** A year given with two digits. *)
Definition two_digit_year (y : float64) : float64 :=
  if F64.le (dbl 0) y && F64.lt y (dbl 100) then F64.add y (dbl 1900) else y.

Definition js_date_setYear (this : this_val) (arg : JSArg) : res (this_val * js float64) :=
  match JS_ThisTimeValue this with
  | None => Ret (this, JS_TypeError)
  | Some _ =>
      let '(this, y) := arg this in
      match y with
      | None => Ret (this, JS_Throw)
      | Some y =>
          let y := if F64.isfinite y then two_digit_year (F64.trunc y) else y in
          set_date_field this [fun this => (this, Some y)] 0x011
      end
  end.

(** ** Date.UTC *)
Fixpoint UTC_fields (n : nat) (args : list (option float64)) (i : Z) (fields : list float64)
    : res (js (option (list float64))) :=
  match n, args with
  | O, _ => Ret (JS_OK (Some fields))
  | S n, arg :: args =>
      match arg with
      | None => Ret JS_Throw
      | Some a =>
          if F64.isfinite a then
            let a := F64.trunc a in
            let a := if i =? 0 then two_digit_year a else a in
            fields ← of_opt (zupd fields i a);
            UTC_fields n args (i + 1) fields
          else Ret (JS_OK None)
      end
  | S _, [] => Fault
  end.

Definition default_fields : list float64 := map dbl [0; 0; 1; 0; 0; 0; 0].

Definition js_Date_UTC (args : list (option float64)) : res (js float64) :=
  let n := zlen args in
  if n =? 0 then Ret (JS_OK NaN)
  else
    r ← UTC_fields (Z.to_nat (Z.min n 7)) args 0 default_fields;
    match r with
    | JS_OK (Some fields) => d ← set_date_fields fields false; Ret (JS_OK d)
    | JS_OK None => Ret (JS_OK NaN)
    | JS_TypeError => Ret JS_TypeError
    | JS_RangeError => Ret JS_RangeError
    | JS_Throw => Ret JS_Throw
    end.

End local_time.
