(* ===== verification/DateText.v ===== *)
(** * quickjs.c: the text formats of dates, Date.parse and the constructor

    Text is a list of character codes.  [get_date_string] writes into
    [char buf[64]] with [snprintf]: the buffer and the position are explicit,
    and a write outside the buffer is a [Fault].  [snprintf] and its [%d] and
    [%s] conversions are the C library's. *)
From Stdlib Require Import ZArith Lia Bool Ascii String.
From stdpp Require Import base numbers list.
From S2P Require Import Prelude Cutils JSValue Float64 Date.

(** ** snprintf *)

(** [%0*d] and, with [plus], [%+0*d], of an [int]: the width counts the sign. *)
Definition fmt_d (plus : bool) (width : Z) (n : Z) : list Z :=
  let sign := if n <? 0 then [45] else if plus then [43] else [] in
  let digits := dec_digits 10 (Z.abs n) in
  sign ++ replicate (Z.to_nat (width - zlen sign - zlen digits)) 48 ++ digits.

(** [snprintf(buf + pos, sizeof(buf) - pos, ...)] for the text [s]; the size
    is a [size_t].  The new position is [pos] plus the length of [s]. *)
Definition snprintf (st : list Z * Z) (s : list Z) : res (list Z * Z) :=
  let '(buf, pos) := st in
  let size := u64 (zlen buf - pos) in
  buf ← of_opt (if size =? 0 then Some buf
                else zwrite buf pos (take (Z.to_nat (Z.min (size - 1) (zlen s))) s ++ [0]));
  Ret (buf, pos + zlen s).

(** [buf[pos++] = c] *)
Definition putc (st : list Z * Z) (c : Z) : res (list Z * Z) :=
  let '(buf, pos) := st in
  buf ← of_opt (zupd buf pos c);
  Ret (buf, pos + 1).

(** ** Printing *)
Record date_ints : Type := mkInts {
  di_y : Z; di_mon : Z; di_d : Z; di_h : Z; di_m : Z; di_s : Z; di_ms : Z; di_wd : Z; di_tz : Z
}.

Definition d2 (n : Z) : list Z := fmt_d false 2 n.
Definition year4 (y : Z) : list Z := fmt_d false (4 + (if y <? 0 then 1 else 0)) y.
Notation ascii s := (ascii_codes s%string).

Definition date_part (fmt part : Z) (f : date_ints) (st : list Z * Z) : res (list Z * Z) :=
  match fmt with
  | 0 =>
      day ← of_opt (zread day_names (di_wd f * 3) 3);
      mon ← of_opt (zread month_names (di_mon f * 3) 3);
      snprintf st (day ++ ascii ", " ++ d2 (di_d f) ++ ascii " " ++ mon ++ ascii " "
                   ++ year4 (di_y f) ++ ascii " ")
  | 1 =>
      day ← of_opt (zread day_names (di_wd f * 3) 3);
      mon ← of_opt (zread month_names (di_mon f * 3) 3);
      st ← snprintf st (day ++ ascii " " ++ mon ++ ascii " " ++ d2 (di_d f) ++ ascii " "
                        ++ year4 (di_y f));
      if part =? 3 then putc st 32 else Ret st
  | 2 =>
      st ← (if (0 <=? di_y f) && (di_y f <=? 9999) then snprintf st (fmt_d false 4 (di_y f))
            else snprintf st (fmt_d true 7 (di_y f)));
      snprintf st (ascii "-" ++ d2 (di_mon f + 1) ++ ascii "-" ++ d2 (di_d f) ++ ascii "T")
  | 3 =>
      st ← snprintf st (d2 (di_mon f + 1) ++ ascii "/" ++ d2 (di_d f) ++ ascii "/"
                        ++ year4 (di_y f));
      if part =? 3 then st ← putc st 44; putc st 32 else Ret st
  | _ => Ret st
  end.

Definition time_part (fmt : Z) (f : date_ints) (st : list Z * Z) : res (list Z * Z) :=
  let hms := d2 (di_h f) ++ ascii ":" ++ d2 (di_m f) ++ ascii ":" ++ d2 (di_s f) in
  match fmt with
  | 0 => snprintf st (hms ++ ascii " GMT")
  | 1 =>
      st ← snprintf st (hms ++ ascii " GMT");
      st ← putc st (if di_tz f <? 0 then 45 else 43);
      let tz := if di_tz f <? 0 then - di_tz f else di_tz f in
      snprintf st (d2 (Z.quot tz 60) ++ d2 (Z.rem tz 60))
  | 2 => snprintf st (hms ++ ascii "." ++ fmt_d false 3 (di_ms f) ++ ascii "Z")
  | 3 =>
      snprintf st (d2 (Z.rem (di_h f + 1) 12 - 1) ++ ascii ":" ++ d2 (di_m f) ++ ascii ":"
                   ++ d2 (di_s f) ++ ascii " " ++ (if di_h f <? 12 then ascii "A" else ascii "P")
                   ++ ascii "M")
  | _ => Ret st
  end.

Definition date_ints_of (fields : list float64) : res date_ints :=
  let int i := f ← field fields i; F64.to_int 32 f in
  y ← int 0; mon ← int 1; d ← int 2; h ← int 3; m ← int 4; s ← int 5; ms ← int 6;
  wd ← int 7; tz ← int 8;
  Ret (mkInts y mon d h m s ms wd tz).

Definition get_date_string `{LocalTime} (this : this_val) (magic : Z) : res (js (list Z)) :=
  let fmt := Z.land (Z.shiftr magic 4) 15 in
  let part := Z.land magic 15 in
  r ← get_date_fields this (negb (Z.land fmt 1 =? 0)) false;
  match r with
  | GDF_exception => Ret JS_TypeError
  | GDF_nan => Ret (if fmt =? 2 then JS_RangeError else JS_OK (ascii "Invalid Date"))
  | GDF_fields fields =>
      f ← date_ints_of fields;
      let st := (replicate 64 0, 0) in
      st ← (if Z.land part 1 =? 0 then Ret st else date_part fmt part f st);
      '(buf, pos) ← (if Z.land part 2 =? 0 then Ret st else time_part fmt f st);
      s ← of_opt (zread buf 0 pos);
      Ret (JS_OK s)
  end.

(** ** Parsing *)
Definition is_digit (c : Z) : bool := (48 <=? c) && (c <=? 57).

Definition string_get (sp : JSString) (p : Z) : res Z := of_opt (znth (chars sp) p).
Definition len (sp : JSString) : Z := zlen (chars sp).

Fixpoint string_skip_spaces_loop (fuel : nat) (sp : JSString) (p : Z) : res Z :=
  match fuel with
  | O => NoFuel
  | S fuel =>
      if p <? len sp then
        c ← string_get sp p;
        if c =? 32 then string_skip_spaces_loop fuel sp (p + 1) else Ret p
      else Ret p
  end.
(** A loop over the rest of the string: one iteration per character. *)
Definition rest (sp : JSString) (p : Z) : nat := S (Z.to_nat (len sp - p)).
Definition string_skip_spaces (sp : JSString) (p : Z) : res Z :=
  string_skip_spaces_loop (rest sp p) sp p.

Fixpoint string_skip_non_spaces_loop (fuel : nat) (sp : JSString) (p : Z) : res Z :=
  match fuel with
  | O => NoFuel
  | S fuel =>
      if p <? len sp then
        c ← string_get sp p;
        if c =? 32 then Ret p else string_skip_non_spaces_loop fuel sp (p + 1)
      else Ret p
  end.
Definition string_skip_non_spaces (sp : JSString) (p : Z) : res Z :=
  string_skip_non_spaces_loop (rest sp p) sp p.

(** The functions below return the new position and the value, or [None] for
    the error code -1. *)
Fixpoint string_get_digits_loop (fuel : nat) (sp : JSString) (p_start p v : Z)
    : res (option (Z * Z)) :=
  match fuel with
  | O => NoFuel
  | S fuel =>
      if p <? len sp then
        c ← string_get sp p;
        if is_digit c then
          v10 ← int64 (v * 10);
          vc ← int64 (v10 + c);
          string_get_digits_loop fuel sp p_start (p + 1) (vc - 48)
        else Ret (if p =? p_start then None else Some (p, v))
      else Ret (Some (p, v))
  end.
Definition string_get_digits (sp : JSString) (p : Z) : res (option (Z * Z)) :=
  if len sp <=? p then Ret None else string_get_digits_loop (rest sp p) sp p p 0.

Definition string_get_signed_digits (sp : JSString) (p : Z) : res (option (Z * Z)) :=
  if len sp <=? p then Ret None
  else
    sgn ← string_get sp p;
    r ← string_get_digits sp (if (sgn =? 45) || (sgn =? 43) then p + 1 else p);
    Ret (match r with
         | Some (p, v) => Some (p, if sgn =? 45 then - v else v)
         | None => None
         end).

Fixpoint string_get_fixed_width_digits (sp : JSString) (p : Z) (n : nat) (v : Z)
    : res (option (Z * Z)) :=
  match n with
  | O => Ret (Some (p, v))
  | S n =>
      if len sp <=? p then Ret None
      else
        c ← string_get sp p;
        if is_digit c then string_get_fixed_width_digits sp (p + 1) n (v * 10 + c - 48)
        else Ret None
  end.

Fixpoint string_get_milliseconds_loop (fuel : nat) (sp : JSString) (p_start p mul ms : Z)
    : res (option (Z * Z)) :=
  match fuel with
  | O => NoFuel
  | S fuel =>
      if p <? len sp then
        c ← string_get sp p;
        if is_digit c then
          let ms := if (mul =? 1) && (53 <=? c) then ms + 1 else ms in
          let mul := Z.quot mul 10 in
          string_get_milliseconds_loop fuel sp p_start (p + 1) mul (ms + (c - 48) * mul)
        else Ret (if p =? p_start then None else Some (p, ms))
      else Ret (Some (p, ms))
  end.
Definition string_get_milliseconds (sp : JSString) (p : Z) : res (option (Z * Z)) :=
  if len sp <=? p then Ret None else string_get_milliseconds_loop (rest sp p) sp p p 1000 0.

(** The three characters at [p] are those of name [n] of [month_names]: the
    function does not use its argument [list]. *)
Fixpoint abbrev_matches (k : nat) (sp : JSString) (p n i : Z) : res bool :=
  match k with
  | O => Ret true
  | S k =>
      c ← string_get sp (p + i);
      d ← of_opt (znth month_names (n * 3 + i));
      if c =? d then abbrev_matches k sp p n (i + 1) else Ret false
  end.
Fixpoint find_abbrev_loop (k : nat) (sp : JSString) (p n : Z) : res Z :=
  match k with
  | O => Ret (-1)
  | S k =>
      b ← abbrev_matches 3 sp p n 0;
      if (b : bool) then Ret n else find_abbrev_loop k sp p (n + 1)
  end.
Definition find_abbrev (sp : JSString) (p count : Z) : res Z :=
  if p + 3 <=? len sp then find_abbrev_loop (Z.to_nat count) sp p 0 else Ret (-1).

Definition string_get_month (sp : JSString) (p : Z) : res (option (Z * Z)) :=
  p ← string_skip_spaces sp p;
  n ← find_abbrev sp p 12;
  Ret (if n <? 0 then None else Some (p + 3, n)).

(** *** The ISO format *)
Definition iso_separator (i : Z) : Z :=
  match i with 1 | 2 => 45 | 3 => 84 | 4 | 5 => 58 | _ => 46 end.

(** The loop over fields [i] to 6: the position, the index at which it stopped
    and the fields; [None] is [goto done]. *)
Fixpoint iso_fields (k : nat) (sp : JSString) (p i : Z) (fields : list Z)
    : res (option (Z * Z * list Z)) :=
  match k with
  | O => Ret (Some (p, i, fields))
  | S k =>
      if len sp <=? p then Ret (Some (p, i, fields))
      else
        c ← string_get sp p;
        if c =? iso_separator i then
          r ← (if i =? 6 then string_get_milliseconds sp (p + 1)
               else string_get_digits sp (p + 1));
          match r with
          | None => Ret None
          | Some (p, v) =>
              fields ← of_opt (zupd fields i v);
              iso_fields k sp p (i + 1) fields
          end
        else Ret (Some (p, i, fields))
  end.

(** The sign, the hours and the minutes of a time zone. *)
Definition tz_minutes (sgn hh mm : Z) : Z :=
  let tz := hh * 60 + mm in if sgn =? 45 then - tz else tz.

(** [[+-]HH:mm], [[+-]HHmm] or [Z] up to the end of the string; [None] is
    [goto done]. *)
Definition iso_time_zone (sp : JSString) (p : Z) : res (option Z) :=
  sgn ← string_get sp p;
  if (sgn =? 43) || (sgn =? 45) then
    let p := p + 1 in
    let l := len sp - p in
    if negb (l =? 4) && negb (l =? 5) then Ret None
    else
      r ← string_get_fixed_width_digits sp p 2 0;
      match r with
      | None => Ret None
      | Some (p, hh) =>
          colon ← (if l =? 5 then c ← string_get sp p; Ret (c =? 58) else Ret true);
          if negb colon then Ret None
          else
            r ← string_get_fixed_width_digits sp (if l =? 5 then p + 1 else p) 2 0;
            Ret (match r with
                 | None => None
                 | Some (p, mm) =>
                     if negb (p =? len sp) then None else Some (tz_minutes sgn hh mm)
                 end)
      end
  else if sgn =? 90 then Ret (if negb (p + 1 =? len sp) then None else Some 0)
  else Ret None.

(** What the two branches of [js_Date_parse] compute: the fields, [tz] and
    [is_local]; [None] is [goto done]. *)
Definition parsed : Type := option (list Z * Z * bool).

Definition parse_fields0 : list Z := [0; 1; 1; 0; 0; 0; 0].

Definition parse_iso (sp : JSString) : res parsed :=
  r ← string_get_signed_digits sp 0;
  match r with
  | None => Ret None
  | Some (p, y) =>
      fields ← of_opt (zupd parse_fields0 0 y);
      r ← iso_fields 6 sp p 1 fields;
      match r with
      | None => Ret None
      | Some (p, i, fields) =>
          f1 ← of_opt (znth fields 1);
          fields ← of_opt (zupd fields 1 (f1 - 1));
          if p <? len sp then
            tz ← iso_time_zone sp p;
            Ret (match tz with None => None | Some tz => Some (fields, tz, false) end)
          else Ret (Some (fields, 0, 3 <? i))
      end
  end.

(** *** The toString and toUTCString formats *)

(** The loop over hour, minute and second. *)
Fixpoint clock_fields (k : nat) (sp : JSString) (p i : Z) (fields : list Z)
    : res (option (Z * list Z)) :=
  match k with
  | O => Ret (Some (p, fields))
  | S k =>
      colon ← (if (i =? 1) || (i =? 2) then
                 if len sp <=? p then Ret false else c ← string_get sp p; Ret (c =? 58)
               else Ret true);
      if negb colon then Ret None
      else
        r ← string_get_digits sp (if (i =? 1) || (i =? 2) then p + 1 else p);
        match r with
        | None => Ret None
        | Some (p, v) => fields ← of_opt (zupd fields (3 + i) v); clock_fields k sp p (i + 1) fields
        end
  end.

(** The loop that looks for a sign. *)
Fixpoint text_time_zone (fuel : nat) (sp : JSString) (p : Z) : res (option Z) :=
  match fuel with
  | O => NoFuel
  | S fuel =>
      if p <? len sp then
        sgn ← string_get sp p;
        if (sgn =? 43) || (sgn =? 45) then
          r ← string_get_fixed_width_digits sp (p + 1) 2 0;
          match r with
          | None => Ret None
          | Some (p, hh) =>
              r ← string_get_fixed_width_digits sp p 2 0;
              Ret (match r with None => None | Some (p, mm) => Some (tz_minutes sgn hh mm) end)
          end
        else text_time_zone fuel sp (p + 1)
      else Ret (Some 0)
  end.

(** The day and the month, in either order. *)
Definition parse_day_month (sp : JSString) (p : Z) (fields : list Z) : res (option (Z * list Z)) :=
  c ← string_get sp p;
  if is_digit c then
    r ← string_get_digits sp p;
    match r with
    | None => Ret None
    | Some (p, d) =>
        fields ← of_opt (zupd fields 2 d);
        r ← string_get_month sp p;
        match r with
        | None => Ret None
        | Some (p, m) => fields ← of_opt (zupd fields 1 m); Ret (Some (p, fields))
        end
    end
  else
    r ← string_get_month sp p;
    match r with
    | None => Ret None
    | Some (p, m) =>
        fields ← of_opt (zupd fields 1 m);
        p ← string_skip_spaces sp p;
        r ← string_get_digits sp p;
        match r with
        | None => Ret None
        | Some (p, d) => fields ← of_opt (zupd fields 2 d); Ret (Some (p, fields))
        end
    end.

(** The year, the time of day and the time zone. *)
Definition parse_year_time (sp : JSString) (p : Z) (fields : list Z) : res parsed :=
  p ← string_skip_spaces sp p;
  r ← string_get_signed_digits sp p;
  match r with
  | None => Ret None
  | Some (p, y) =>
      fields ← of_opt (zupd fields 0 y);
      p ← string_skip_spaces sp p;
      r ← clock_fields 3 sp p 0 fields;
      match r with
      | None => Ret None
      | Some (p, fields) =>
          tz ← text_time_zone (rest sp p) sp p;
          Ret (match tz with None => None | Some tz => Some (fields, tz, false) end)
      end
  end.

Definition parse_text (sp : JSString) : res parsed :=
  p ← string_skip_non_spaces sp 0;
  p ← string_skip_spaces sp p;
  if len sp <=? p then Ret None
  else
    r ← parse_day_month sp p parse_fields0;
    match r with
    | None => Ret None
    | Some (p, fields) => parse_year_time sp p fields
    end.

Section local_time.
Context `{LocalTime}.

Definition parse_string (sp : JSString) : res float64 :=
  iso ← (if 0 <? len sp then
           c ← string_get sp 0; Ret (is_digit c || (c =? 43) || (c =? 45))
         else Ret false);
  r ← (if (iso : bool) then parse_iso sp else parse_text sp);
  match r with
  | None => Ret NaN
  | Some (fields, tz, is_local) =>
      d ← set_date_fields (map F64.of_int64 fields) is_local;
      Ret (F64.sub d (F64.of_int64 (tz * 60000)))
  end.

(** The argument is the result of [JS_ToString], [None] when it throws. *)
Definition js_Date_parse (s : option JSString) : res (js float64) :=
  match s with
  | None => Ret JS_Throw
  | Some sp => d ← parse_string sp; Ret (JS_OK d)
  end.

(** ** The constructor *)
Definition date_now (tv_sec tv_usec : Z) : res Z :=
  s ← int64 (tv_sec * 1000);
  int64 (s + Z.quot tv_usec 1000).

Definition js_Date_now (tv_sec tv_usec : Z) : res (js float64) :=
  t ← date_now tv_sec tv_usec; Ret (JS_OK (F64.of_int64 t)).

(** An argument of the constructor: its value when it is a Date object, the
    results of [JS_ToPrimitive] (a string or a number) and of [JS_ToFloat64],
    [None] when they throw. *)
Record ctor_arg : Type := mkArg {
  date_value : option float64;
  to_primitive : option (JSString + float64);
  to_float64 : option float64
}.

Definition js_date_constructor (is_call : bool) (tv_sec tv_usec : Z) (argv : list ctor_arg)
    : res (js (float64 + list Z)) :=
  let argv := if is_call then [] else argv in
  val ←
    match argv with
    | [] => t ← date_now tv_sec tv_usec; Ret (JS_OK (F64.of_int64 t))
    | [arg] =>
        match date_value arg with
        | Some val => Ret (JS_OK (time_clip val))
        | None =>
            match to_primitive arg with
            | None => Ret JS_Throw
            | Some (inl s) => d ← parse_string s; Ret (JS_OK (time_clip d))
            | Some (inr d) => Ret (JS_OK (time_clip d))
            end
        end
    | _ =>
        r ← UTC_fields (Z.to_nat (Z.min (zlen argv) 7)) (map to_float64 argv) 0 default_fields;
        match r with
        | JS_OK (Some fields) => d ← set_date_fields fields true; Ret (JS_OK d)
        | JS_OK None => Ret (JS_OK NaN)
        | JS_TypeError => Ret JS_TypeError
        | JS_RangeError => Ret JS_RangeError
        | JS_Throw => Ret JS_Throw
        end
    end;
  match val with
  | JS_OK val =>
      if is_call then
        s ← get_date_string (DateObj val) 0x13;
        Ret (match s with
             | JS_OK s => JS_OK (inr s)
             | JS_TypeError => JS_TypeError
             | JS_RangeError => JS_RangeError
             | JS_Throw => JS_Throw
             end)
      else Ret (JS_OK (inl val))
  | JS_TypeError => Ret JS_TypeError
  | JS_RangeError => Ret JS_RangeError
  | JS_Throw => Ret JS_Throw
  end.

(** ** The methods of Date.prototype *)
Inductive date_method : Type :=
| DM_get_field (magic : Z)
| DM_set_field (magic : Z)
| DM_get_string (magic : Z)
| DM_getTime
| DM_setTime
| DM_setYear
| DM_getTimezoneOffset.

(** The entries for the methods defined above: all but [Symbol.toPrimitive] and
    [toJSON], which call methods of the object. *)
Definition js_date_proto_funcs : list (string * date_method) := [
  ("valueOf", DM_getTime);
  ("toString", DM_get_string 0x13);
  ("toUTCString", DM_get_string 0x03);
  ("toGMTString", DM_get_string 0x03);
  ("toISOString", DM_get_string 0x23);
  ("toDateString", DM_get_string 0x11);
  ("toTimeString", DM_get_string 0x12);
  ("toLocaleString", DM_get_string 0x33);
  ("toLocaleDateString", DM_get_string 0x31);
  ("toLocaleTimeString", DM_get_string 0x32);
  ("getTimezoneOffset", DM_getTimezoneOffset);
  ("getTime", DM_getTime);
  ("getYear", DM_get_field 0x101);
  ("getFullYear", DM_get_field 0x01);
  ("getUTCFullYear", DM_get_field 0x00);
  ("getMonth", DM_get_field 0x11);
  ("getUTCMonth", DM_get_field 0x10);
  ("getDate", DM_get_field 0x21);
  ("getUTCDate", DM_get_field 0x20);
  ("getHours", DM_get_field 0x31);
  ("getUTCHours", DM_get_field 0x30);
  ("getMinutes", DM_get_field 0x41);
  ("getUTCMinutes", DM_get_field 0x40);
  ("getSeconds", DM_get_field 0x51);
  ("getUTCSeconds", DM_get_field 0x50);
  ("getMilliseconds", DM_get_field 0x61);
  ("getUTCMilliseconds", DM_get_field 0x60);
  ("getDay", DM_get_field 0x71);
  ("getUTCDay", DM_get_field 0x70);
  ("setTime", DM_setTime);
  ("setMilliseconds", DM_set_field 0x671);
  ("setUTCMilliseconds", DM_set_field 0x670);
  ("setSeconds", DM_set_field 0x571);
  ("setUTCSeconds", DM_set_field 0x570);
  ("setMinutes", DM_set_field 0x471);
  ("setUTCMinutes", DM_set_field 0x470);
  ("setHours", DM_set_field 0x371);
  ("setUTCHours", DM_set_field 0x370);
  ("setDate", DM_set_field 0x231);
  ("setUTCDate", DM_set_field 0x230);
  ("setMonth", DM_set_field 0x131);
  ("setUTCMonth", DM_set_field 0x130);
  ("setYear", DM_setYear);
  ("setFullYear", DM_set_field 0x031);
  ("setUTCFullYear", DM_set_field 0x030)
]%string.

(** What a method returns: a number or a text. *)
Definition date_value_js : Type := js (float64 + list Z).
Definition num (r : js float64) : date_value_js :=
  match r with
  | JS_OK v => JS_OK (inl v)
  | JS_TypeError => JS_TypeError
  | JS_RangeError => JS_RangeError
  | JS_Throw => JS_Throw
  end.
Definition txt (r : js (list Z)) : date_value_js :=
  match r with
  | JS_OK v => JS_OK (inr v)
  | JS_TypeError => JS_TypeError
  | JS_RangeError => JS_RangeError
  | JS_Throw => JS_Throw
  end.

(** The first argument; a missing one is [undefined], which converts to NaN. *)
Definition arg0 (args : list JSArg) : JSArg := default (fun this => (this, Some NaN)) (head args).

Definition date_call (this : this_val) (m : date_method) (args : list JSArg)
    : res (this_val * date_value_js) :=
  match m with
  | DM_get_field magic => r ← get_date_field this magic; Ret (this, num r)
  | DM_set_field magic => '(this, r) ← set_date_field this args magic; Ret (this, num r)
  | DM_get_string magic => r ← get_date_string this magic; Ret (this, txt r)
  | DM_getTime => Ret (this, num (js_date_getTime this))
  | DM_setTime => let '(this, r) := js_date_setTime this (arg0 args) in Ret (this, num r)
  | DM_setYear => '(this, r) ← js_date_setYear this (arg0 args); Ret (this, num r)
  | DM_getTimezoneOffset => r ← js_date_getTimezoneOffset this; Ret (this, num r)
  end.

(** A sequence of method calls on one object. *)
Fixpoint date_run (this : this_val) (calls : list (date_method * list JSArg)) : res this_val :=
  match calls with
  | [] => Ret this
  | (m, args) :: calls => '(this, _) ← date_call this m args; date_run this calls
  end.

End local_time.

(** ** Concrete zones and known values *)
Definition fixed_zone (off : Z) (P : - 90000 < off < 90000) : LocalTime :=
  {| tm_gmtoff := fun _ => off; tm_gmtoff_range := fun _ => P |}.
Lemma utc_bound : - 90000 < 0 < 90000. Proof. lia. Qed.
Lemma cet_bound : - 90000 < 3600 < 90000. Proof. lia. Qed.
Definition utc : LocalTime := fixed_zone 0 utc_bound.
Definition cet : LocalTime := fixed_zone 3600 cet_bound.

Definition latin (s : string) : JSString := mkString false (ascii_codes s).

Example utc_string : get_date_string (H := cet) (DateObj (dbl 1514934286000)) 0x03
  = Ret (JS_OK (ascii "Tue, 02 Jan 2018 23:04:46 GMT")).
Proof. reflexivity. Qed.
Example local_string : get_date_string (H := cet) (DateObj (dbl 1514934322000)) 0x13
  = Ret (JS_OK (ascii "Wed Jan 03 2018 00:05:22 GMT+0100")).
Proof. reflexivity. Qed.
Example iso_string : get_date_string (H := cet) (DateObj (dbl 1514934176927)) 0x23
  = Ret (JS_OK (ascii "2018-01-02T23:02:56.927Z")).
Proof. reflexivity. Qed.
Example parse_iso_offset : parse_string (H := utc) (latin "2018-01-02T23:02:56.927+01:00")
  = Ret (dbl (1514934176927 - 3600000)).
Proof. reflexivity. Qed.
Example parse_local_time : parse_string (H := cet) (latin "1970-01-01T00:00") = Ret (dbl (-3600000)).
Proof. reflexivity. Qed.
