(* ===== verification/DateFacts.v ===== *)
(** * The calendar of the Date object

    [days_from_year] counts the days of the proleptic Gregorian calendar, the
    loop of [year_from_days] ends after at most two steps, and the fields of a
    time and the time of the fields determine each other. *)
From Stdlib Require Import ZArith Lia Bool.
From stdpp Require Import base numbers list.
From S2P Require Import Prelude Float64 Date.

(** ** Checked arithmetic in range *)
Lemma int64_ok z : - 2 ^ 63 <= z < 2 ^ 63 -> int64 z = Ret z.
Proof.
  intros H. unfold int64.
  destruct (Z.leb_spec (- 2 ^ 63) z), (Z.ltb_spec z (2 ^ 63)); cbn; lia || done.
Qed.

Lemma int32_ok z : - 2 ^ 31 <= z < 2 ^ 31 -> int32 z = Ret z.
Proof.
  intros H. unfold int32.
  destruct (Z.leb_spec (- 2 ^ 31) z), (Z.ltb_spec z (2 ^ 31)); cbn; lia || done.
Qed.

Lemma math_mod_spec a b : 0 < b -> math_mod a b = a mod b.
Proof.
  intros Hb. unfold math_mod.
  pose proof (Z.quot_rem' a b) as E. pose proof (Z.rem_bound_abs a b ltac:(lia)) as R.
  destruct (Z.ltb_spec (Z.rem a b) 0).
  - apply (Z.mod_unique_pos _ _ (Z.quot a b - 1)); lia.
  - apply (Z.mod_unique_pos _ _ (Z.quot a b)); lia.
Qed.

Lemma floor_div_spec a b : 0 < b < 2 ^ 31 -> - 2 ^ 62 <= a < 2 ^ 62 -> floor_div a b = Ret (a / b).
Proof.
  intros Hb Ha. unfold floor_div.
  change (Z.rem a b + (if Z.rem a b <? 0 then b else 0)) with (math_mod a b).
  rewrite math_mod_spec by lia.
  pose proof (Z.mod_pos_bound a b ltac:(lia)).
  rewrite int64_ok by lia. cbn [mbind res_bind]. f_equal.
  pose proof (Z.div_mod a b ltac:(lia)) as E.
  replace (a - a mod b) with (a / b * b) by lia. apply Z.quot_mul. lia.
Qed.

(** ** Years *)
Definition is_leap (y : Z) : bool := (y mod 4 =? 0) && (negb (y mod 100 =? 0) || (y mod 400 =? 0)).

(** The day number of January 1st. *)
Definition year_start (y : Z) : Z :=
  365 * (y - 1970) + (y - 1969) / 4 - (y - 1901) / 100 + (y - 1601) / 400.

Lemma rem_zero y b : b <> 0 -> (Z.rem y b =? 0) = (y mod b =? 0).
Proof.
  intros Hb. apply eq_true_iff_eq. rewrite !Z.eqb_eq.
  rewrite Z.rem_divide, Z.mod_divide by done. done.
Qed.

Lemma days_in_year_spec y : days_in_year y = if is_leap y then 366 else 365.
Proof.
  unfold days_in_year, is_leap. rewrite !rem_zero by lia.
  destruct (Z.eqb_spec (y mod 4) 0), (Z.eqb_spec (y mod 100) 0), (Z.eqb_spec (y mod 400) 0);
    cbn [andb orb negb]; zdiv_lia.
Qed.

Lemma days_in_year_bounds y : 365 <= days_in_year y <= 366.
Proof. rewrite days_in_year_spec. destruct (is_leap y); lia. Qed.

Lemma days_from_year_spec y : - 2 ^ 53 <= y <= 2 ^ 53 -> days_from_year y = Ret (year_start y).
Proof.
  intros Hy. unfold days_from_year, year_start.
  assert (- 2 ^ 53 <= (y - 1969) / 4 <= 2 ^ 53) by zdiv_lia.
  assert (- 2 ^ 53 <= (y - 1901) / 100 <= 2 ^ 53) by zdiv_lia.
  assert (- 2 ^ 53 <= (y - 1601) / 400 <= 2 ^ 53) by zdiv_lia.
  repeat ((rewrite int64_ok by lia) || (rewrite floor_div_spec by lia); cbn [mbind res_bind]).
  reflexivity.
Qed.

Lemma year_start_succ y : year_start (y + 1) = year_start y + days_in_year y.
Proof.
  rewrite days_in_year_spec. unfold year_start, is_leap.
  destruct (Z.eqb_spec (y mod 4) 0), (Z.eqb_spec (y mod 100) 0), (Z.eqb_spec (y mod 400) 0);
    cbn [andb orb negb]; zdiv_lia.
Qed.

Lemma year_start_pred y : year_start (y - 1) = year_start y - days_in_year (y - 1).
Proof. pose proof (year_start_succ (y - 1)). replace (y - 1 + 1) with y in * by lia. lia. Qed.

Lemma year_start_1970 : year_start 1970 = 0.
Proof. reflexivity. Qed.

Lemma year_start_mono y n : 0 <= n -> year_start y + 365 * n <= year_start (y + n).
Proof.
  intros Hn. revert n Hn. apply natlike_ind; [rewrite !Z.add_0_r; lia |].
  intros n Hn IH. replace (y + Z.succ n) with (y + n + 1) by lia.
  rewrite year_start_succ. pose proof (days_in_year_bounds (y + n)). lia.
Qed.

(** The year of a day is unique. *)
Lemma year_of_day_unique y y' d :
  year_start y <= d < year_start (y + 1) -> year_start y' <= d < year_start (y' + 1) -> y = y'.
Proof.
  intros H H'. destruct (Z.lt_trichotomy y y') as [L | [E | L]]; [| exact E |].
  - pose proof (year_start_mono (y + 1) (y' - (y + 1)) ltac:(lia)) as M.
    replace (y + 1 + (y' - (y + 1))) with y' in M by lia. lia.
  - pose proof (year_start_mono (y' + 1) (y - (y' + 1)) ltac:(lia)) as M.
    replace (y' + 1 + (y - (y' + 1))) with y in M by lia. lia.
Qed.

(** ** The loop of year_from_days *)
Definition day_of (y d1 d : Z) : Prop := year_start y + d1 = d /\ 0 <= d1 < days_in_year y.

(** The first approximation starts at most two days after the day and less
    than 368 days before it. *)
Lemma year_approx d y : y = d * 10000 / 3652425 + 1970 -> -2 <= d - year_start y < 368.
Proof. intros ->. unfold year_start. zdiv_lia. Qed.

Lemma year_from_days_spec d : - 10 ^ 14 <= d <= 10 ^ 14 ->
  exists y d1, year_from_days d = Ret (y, d1) /\ day_of y d1 d /\ - 2 ^ 50 < y < 2 ^ 50.
Proof.
  intros Hd. unfold year_from_days.
  rewrite int64_ok by lia. cbn [mbind res_bind].
  rewrite floor_div_spec by lia. cbn [mbind res_bind].
  set (q := d * 10000 / 3652425).
  assert (- 2 ^ 49 < q < 2 ^ 49) as Hq by (unfold q; zdiv_lia).
  pose proof (year_approx d (q + 1970) eq_refl) as Ha.
  set (y := q + 1970) in *. cbn [year_from_days_loop].
  rewrite (days_from_year_spec y) by lia. cbn [mbind res_bind].
  pose proof (days_in_year_bounds y). pose proof (days_in_year_bounds (y - 1)).
  pose proof (days_in_year_bounds (y + 1)).
  pose proof (year_start_pred y). pose proof (year_start_succ y).
  destruct (Z.ltb_spec (d - year_start y) 0).
  - exists (y - 1), (d - year_start (y - 1)). rewrite (days_from_year_spec (y - 1)) by lia.
    cbn [mbind res_bind].
    destruct (Z.ltb_spec (d - year_start (y - 1)) 0); [lia |].
    destruct (Z.ltb_spec (d - year_start (y - 1)) (days_in_year (y - 1))); [| lia].
    unfold day_of. split_and!; lia || done.
  - destruct (Z.ltb_spec (d - year_start y) (days_in_year y)).
    + exists y, (d - year_start y). unfold day_of. split_and!; lia || done.
    + exists (y + 1), (d - year_start (y + 1)). rewrite (days_from_year_spec (y + 1)) by lia.
      cbn [mbind res_bind].
      destruct (Z.ltb_spec (d - year_start (y + 1)) 0); [lia |].
      destruct (Z.ltb_spec (d - year_start (y + 1)) (days_in_year (y + 1))); [| lia].
      unfold day_of. split_and!; lia || done.
Qed.

(** ** Months *)
Definition month_length (y i : Z) : Z :=
  match i with
  | 1 => if is_leap y then 29 else 28
  | 3 | 5 | 8 | 10 => 30
  | _ => 31
  end.

(** The days of the year before month [i]. *)
Definition month_start (y i : Z) : Z :=
  foldr Z.add 0 (map (fun k => month_length y (Z.of_nat k)) (seq 0 (Z.to_nat i))).

(** A statement about a month, by cases. *)
Lemma month_cases (P : Z -> Prop) :
  Forall P [0; 1; 2; 3; 4; 5; 6; 7; 8; 9; 10; 11] -> forall i, 0 <= i < 12 -> P i.
Proof.
  intros H i Hi. rewrite list.Forall_forall in H. apply H.
  apply list_elem_of_In. cbn [In]. lia.
Qed.

Lemma days_in_month_spec y i : 0 <= i < 12 -> days_in_month y i = Ret (month_length y i).
Proof.
  intros Hi. revert i Hi. apply month_cases.
  repeat constructor. unfold days_in_month. cbn -[days_in_year is_leap]; [].
  rewrite days_in_year_spec. destruct (is_leap y); reflexivity.
Qed.

Lemma month_start_succ y i : 0 <= i -> month_start y (i + 1) = month_start y i + month_length y i.
Proof.
  intros Hi. unfold month_start.
  replace (Z.to_nat (i + 1)) with (Z.to_nat i + 1)%nat by lia.
  rewrite seq_app, map_app, foldr_app. cbn [seq map foldr Nat.add].
  rewrite Z2Nat.id by lia. rewrite Z.add_0_r.
  generalize (month_length y i) as k. intros k.
  induction (map _ (seq 0 (Z.to_nat i))) as [| a l IH]; cbn [foldr]; lia.
Qed.

Lemma month_start_year y : month_start y 12 = days_in_year y.
Proof. rewrite days_in_year_spec. cbv -[is_leap]. destruct (is_leap y); reflexivity. Qed.

Lemma month_length_bounds y i : 28 <= month_length y i <= 31.
Proof. unfold month_length. repeat case_match; lia. Qed.

Lemma month_start_mono y i n : 0 <= i -> 0 <= n -> month_start y i + 28 * n <= month_start y (i + n).
Proof.
  intros Hi Hn. revert n Hn. apply natlike_ind; [rewrite !Z.add_0_r; lia |].
  intros n Hn IH. replace (i + Z.succ n) with (i + n + 1) by lia.
  rewrite month_start_succ by lia. pose proof (month_length_bounds y (i + n)). lia.
Qed.

Lemma month_start_bounds y i : 0 <= i <= 12 -> 0 <= month_start y i <= 366.
Proof.
  intros Hi. pose proof (month_start_mono y 0 i ltac:(lia) ltac:(lia)).
  pose proof (month_start_mono y i (12 - i) ltac:(lia) ltac:(lia)) as H'.
  replace (i + (12 - i)) with 12 in H' by lia. rewrite month_start_year in H'.
  pose proof (days_in_year_bounds y). change (month_start y 0) with 0 in *.
  change (0 + i) with i in *. lia.
Qed.

Lemma find_month_spec fuel y i days :
  0 <= i <= 11 -> 12 <= i + Z.of_nat fuel -> 0 <= days < month_start y 12 - month_start y i ->
  exists i' k, find_month fuel y i days = Ret (i', k) /\ 0 <= i' <= 11 /\
    0 <= k < month_length y i' /\ month_start y i' + k = month_start y i + days.
Proof.
  revert i days. induction fuel as [| fuel IH]; intros i days Hi Hf Hd; [lia |].
  cbn [find_month]. pose proof (month_start_succ y i ltac:(lia)).
  destruct (Z.ltb_spec i 11).
  - rewrite days_in_month_spec by lia. cbn [mbind res_bind].
    destruct (Z.ltb_spec days (month_length y i)).
    + exists i, days. split_and!; lia || done.
    + destruct (IH (i + 1) (days - month_length y i)) as (i' & k & -> & ? & ? & ?); [lia.. |].
      exists i', k. split_and!; lia || done.
  - replace i with 11 in * by lia. change (11 + 1) with 12 in *.
    exists 11, days. split_and!; lia || done.
Qed.

Lemma month_of_day_unique y i k i' k' :
  0 <= i <= 11 -> 0 <= i' <= 11 -> 0 <= k < month_length y i -> 0 <= k' < month_length y i' ->
  month_start y i + k = month_start y i' + k' -> i = i' /\ k = k'.
Proof.
  intros Hi Hi' Hk Hk' E. assert (i = i') as ->; [| lia].
  pose proof (month_start_succ y i ltac:(lia)). pose proof (month_start_succ y i' ltac:(lia)).
  destruct (Z.lt_trichotomy i i') as [L | [? | L]]; [| done |].
  - pose proof (month_start_mono y (i + 1) (i' - (i + 1)) ltac:(lia) ltac:(lia)) as M.
    replace (i + 1 + (i' - (i + 1))) with i' in M by lia. lia.
  - pose proof (month_start_mono y (i' + 1) (i - (i' + 1)) ltac:(lia) ltac:(lia)) as M.
    replace (i' + 1 + (i - (i' + 1))) with i in M by lia. lia.
Qed.

(** ** Times *)

(** A date and a time of day of the calendar; the month is counted from 0. *)
Record civil : Type := mkCivil {
  c_year : Z; c_month : Z; c_day : Z; c_hour : Z; c_min : Z; c_sec : Z; c_ms : Z
}.

Definition civil_ok (c : civil) : Prop :=
  0 <= c_month c <= 11 /\ 1 <= c_day c <= month_length (c_year c) (c_month c) /\
  0 <= c_hour c < 24 /\ 0 <= c_min c < 60 /\ 0 <= c_sec c < 60 /\ 0 <= c_ms c < 1000.

Definition day_number (y i d : Z) : Z := year_start y + month_start y i + (d - 1).
Definition time_in_day (c : civil) : Z :=
  c_hour c * 3600000 + c_min c * 60000 + c_sec c * 1000 + c_ms c.
Definition civil_time (c : civil) : Z :=
  day_number (c_year c) (c_month c) (c_day c) * 86400000 + time_in_day c.

Definition fields_of (c : civil) (wd tz : Z) : list Z :=
  [c_year c; c_month c; c_day c; c_hour c; c_min c; c_sec c; c_ms c; wd; tz].

Lemma time_in_day_range c : civil_ok c -> 0 <= time_in_day c < 86400000.
Proof. unfold civil_ok, time_in_day. lia. Qed.

Lemma civil_time_day c : civil_ok c ->
  civil_time c / 86400000 = day_number (c_year c) (c_month c) (c_day c) /\
  civil_time c mod 86400000 = time_in_day c.
Proof.
  intros H%time_in_day_range. unfold civil_time. split.
  - rewrite Z.div_add_l by lia. rewrite Z.div_small; lia.
  - rewrite Z.add_comm, Z.mod_add by lia. apply Z.mod_small. lia.
Qed.

Lemma day_number_year c : civil_ok c ->
  let n := day_number (c_year c) (c_month c) (c_day c) in
  year_start (c_year c) <= n < year_start (c_year c + 1).
Proof.
  intros (Hi & Hd & _) n. unfold n, day_number. rewrite year_start_succ, <- month_start_year.
  pose proof (month_start_bounds (c_year c) (c_month c) ltac:(lia)).
  pose proof (month_start_succ (c_year c) (c_month c) ltac:(lia)).
  pose proof (month_start_mono (c_year c) (c_month c + 1) (12 - (c_month c + 1)) ltac:(lia) ltac:(lia)) as M.
  replace (c_month c + 1 + (12 - (c_month c + 1))) with 12 in M by lia. lia.
Qed.

(** The date and time of a number of milliseconds are unique. *)
Lemma civil_time_inj c c' : civil_ok c -> civil_ok c' -> civil_time c = civil_time c' -> c = c'.
Proof.
  intros H H' E.
  destruct (civil_time_day c H) as [Ed Et]. destruct (civil_time_day c' H') as [Ed' Et'].
  rewrite E in Ed, Et. rewrite Ed in Ed'. rewrite Et in Et'. clear E Ed Et.
  pose proof (day_number_year c H) as Hy. pose proof (day_number_year c' H') as Hy'. cbn in Hy, Hy'.
  rewrite Ed' in Hy.
  pose proof (year_of_day_unique _ _ _ Hy Hy') as Ey.
  destruct c as [y i d h m s ms], c' as [y' i' d' h' m' s' ms'].
  unfold civil_ok, time_in_day, day_number in *. cbn in *. subst y'.
  destruct (month_of_day_unique y i (d - 1) i' (d' - 1)) as [-> ?]; [lia.. |].
  assert (h = h' /\ m = m' /\ s = s' /\ ms = ms') as (-> & -> & -> & ->) by lia.
  f_equal. lia.
Qed.

(** [get_date_fields] computes the date and the time of day. *)
Lemma split_time_spec t tz : - 86400000 * 10 ^ 9 <= t <= 86400000 * 10 ^ 9 ->
  exists c, split_time t tz = Ret (fields_of c ((t / 86400000 + 4) mod 7) tz) /\
    civil_ok c /\ civil_time c = t /\ - 2 ^ 31 < c_year c < 2 ^ 31.
Proof.
  intros Ht. unfold split_time. rewrite math_mod_spec by lia.
  pose proof (Z.mod_pos_bound t 86400000 ltac:(lia)) as Hm.
  pose proof (Z.div_mod t 86400000 ltac:(lia)) as Et.
  set (r := t mod 86400000) in *. set (n := t / 86400000) in *.
  rewrite int64_ok by lia. cbn [mbind res_bind].
  replace (Z.quot (t - r) 86400000) with n by (replace (t - r) with (n * 86400000) by lia; rewrite Z.quot_mul; lia).
  rewrite math_mod_spec by lia.
  destruct (year_from_days_spec n) as (y & d1 & -> & [Ey Hd1] & _); [lia |].
  cbn [mbind res_bind]. rewrite <- month_start_year in Hd1.
  destruct (find_month_spec 12 y 0 d1) as (i & k & -> & Hi & Hk & Ek);
    [lia | lia | change (month_start y 0) with 0; lia |].
  cbn [mbind res_bind]. change (month_start y 0) with 0 in Ek.
  set (ms := Z.rem r 1000). set (r1 := Z.quot (r - ms) 1000).
  set (s := Z.rem r1 60). set (r2 := Z.quot (r1 - s) 60). set (m := Z.rem r2 60).
  assert (0 <= ms < 1000 /\ r = r1 * 1000 + ms) as [? ?] by (unfold r1, ms; zdiv_lia).
  assert (0 <= s < 60 /\ r1 = r2 * 60 + s) as [? ?] by (unfold r2, s; zdiv_lia).
  assert (0 <= m < 60 /\ r2 = Z.quot (r2 - m) 60 * 60 + m) as [? ?] by (unfold m; zdiv_lia).
  exists (mkCivil y i (k + 1) (Z.quot (r2 - m) 60) m s ms).
  unfold civil_ok, civil_time, day_number, time_in_day, fields_of. cbn [c_year c_month c_day c_hour c_min c_sec c_ms].
  split_and!; try reflexivity || lia.
  - pose proof (month_start_bounds y i ltac:(lia)). pose proof (month_length_bounds y i).
    unfold year_start in Ey. zdiv_lia.
  - pose proof (month_start_bounds y i ltac:(lia)). pose proof (month_length_bounds y i).
    unfold year_start in Ey. zdiv_lia.
Qed.
