(* ===== verification/DateTime.v ===== *)
(** * The operations of the Date object

    [set_date_fields] computes MakeDate of ECMAScript for arguments below
    [field_limit], the getters and setters are inverse to each other in UTC (in
    local time up to the change of the offset of the zone), and every method keeps the value of a Date
    object a time value: NaN or an integer of at most 8.64e15 milliseconds. *)
From Stdlib Require Import ZArith Lia Bool String.
From stdpp Require Import base numbers list.
From S2P Require Import Prelude JSValue Float64 Date DateText DateFacts.

(** ** Time values *)
Definition max_time : Z := 8640000000000000.

Definition clip (z : Z) : float64 := if Z.abs z <=? max_time then dbl z else NaN.

(** What [p->u.object_data] of a Date object can hold. *)
Definition time_value (v : float64) : Prop := v = NaN \/ exists t, v = dbl t /\ - max_time <= t <= max_time.

Lemma time_clip_dbl z : time_clip (dbl z) = clip z.
Proof.
  unfold time_clip, clip, dbl, max_time. rewrite !F64.le_exact, F64.trunc_exact.
  destruct (Z.leb_spec (-8640000000000000) z), (Z.leb_spec z 8640000000000000),
    (Z.leb_spec (Z.abs z) 8640000000000000); cbn; lia || done.
Qed.

Lemma clip_time_value z : time_value (clip z).
Proof.
  unfold clip. destruct (Z.leb_spec (Z.abs z) max_time); [right | by left].
  exists z. split; [done | lia].
Qed.

Lemma trunc_Z_bounds m e b : Z.abs m * 2 ^ (e - Z.min e 0) <= b * 2 ^ (0 - Z.min e 0) -> 0 <= b ->
  - b <= F64.trunc_Z m e <= b.
Proof.
  intros H Hb. unfold F64.trunc_Z. destruct (Z.leb_spec 0 e) as [He | He].
  - rewrite Z.min_r, !Z.sub_0_r, Z.mul_1_r in H by lia.
    assert (0 < 2 ^ e) by (apply Z.pow_pos_nonneg; lia).
    assert (Z.abs (m * 2 ^ e) <= b); [| lia]. rewrite Z.abs_mul, (Z.abs_eq (2 ^ e)); lia.
  - rewrite Z.min_l, Z.sub_diag, Z.mul_1_r, Z.sub_0_l in H by lia.
    assert (0 < 2 ^ (- e)) as Hp by (apply Z.pow_pos_nonneg; lia).
    set (p := 2 ^ (- e)) in *. clearbody p.
    pose proof (Z.quot_rem' m p) as E. pose proof (Z.rem_bound_abs m p ltac:(lia)) as R.
    rewrite (Z.abs_eq p) in R by lia. split.
    + destruct (Z.le_gt_cases (- b) (Z.quot m p)) as [| L]; [done | exfalso].
      pose proof (Z.rem_sign_nz m p). nia.
    + destruct (Z.le_gt_cases (Z.quot m p) b) as [| L]; [done | exfalso]. nia.
Qed.

(** [time_clip] returns a time value for every double. *)
Lemma time_clip_time_value t : time_value (time_clip t).
Proof.
  unfold time_clip. destruct t as [| n | m e]; [by left | |].
  - destruct n; by left.
  - destruct (F64.le (Finite (-8640000000000000) 0) (Finite m e) && F64.le (Finite m e) (Finite 8640000000000000 0)) eqn:E;
      [| by left].
    right. apply andb_true_iff in E as [E1 E2]. cbn -[Z.pow Z.min] in E1, E2.
    rewrite (Z.min_comm 0 e) in E1. apply Z.leb_le in E1, E2.
    exists (F64.trunc_Z m e). split; [done |]. unfold max_time.
    apply trunc_Z_bounds; [| lia].
    assert (0 < 2 ^ (e - Z.min e 0)) by (apply Z.pow_pos_nonneg; lia).
    destruct (Z.abs_spec m) as [[? ->] | [? ->]]; lia.
Qed.

(** ** MakeDate *)

(** MakeDate(MakeDay(f0, f1, f2), MakeTime(f3, f4, f5, f6)) of ECMAScript, on
    integers. *)
Definition make_day (f0 f1 f2 : Z) : Z := day_number (f0 + f1 / 12) (f1 mod 12) f2.
Definition make_time (f3 f4 f5 f6 : Z) : Z := f3 * 3600000 + f4 * 60000 + f5 * 1000 + f6.
Definition make_date (f0 f1 f2 f3 f4 f5 f6 : Z) : Z :=
  make_day f0 f1 f2 * 86400000 + make_time f3 f4 f5 f6.

Ltac exact_lia := unfold F64.exact; lia.

Lemma add_months_spec n y i d :
  0 <= i -> i + Z.of_nat n <= 12 -> - 2 ^ 52 <= d <= 2 ^ 52 ->
  add_months n y i (dbl d) = Ret (dbl (d + month_start y (i + Z.of_nat n) - month_start y i)).
Proof.
  revert i d. enough (forall i d, 0 <= i -> i + Z.of_nat n <= 12 ->
    - 2 ^ 52 - 31 * i <= d <= 2 ^ 52 + 31 * i ->
    add_months n y i (dbl d) = Ret (dbl (d + month_start y (i + Z.of_nat n) - month_start y i))) as H.
  { intros. apply H; lia. }
  induction n as [| n IH]; intros i d Hi Hn Hd; cbn [add_months].
  - rewrite Z.add_0_r. do 2 f_equal. lia.
  - rewrite days_in_month_spec by lia. cbn [mbind res_bind].
    pose proof (month_length_bounds y i).
    rewrite F64.of_int64_exact by exact_lia. unfold dbl at 1.
    rewrite F64.add_exact by exact_lia. fold (dbl (d + month_length y i)).
    rewrite IH by lia. rewrite month_start_succ by lia.
    replace (i + 1 + Z.of_nat n) with (i + Z.of_nat (S n)) by lia. do 2 f_equal. lia.
Qed.

Definition small (b z : Z) : Prop := - b <= z <= b.

Section local_time.
Context `{LocalTime}.

Lemma getTimezoneOffset_range t : -1500 <= getTimezoneOffset t <= 1500.
Proof.
  unfold getTimezoneOffset. pose proof (tm_gmtoff_range (Z.quot t 1000)).
  set (o := tm_gmtoff (Z.quot t 1000)) in *. clearbody o.
  rewrite swrap_small; [zdiv_lia | lia |]. zdiv_lia.
Qed.

(** The number of days of the first of the month is computed on integers; what
    follows is floating-point arithmetic, on any integers. *)
Lemma set_date_fields_days f0 f1 f2 f3 f4 f5 f6 more is_local :
  small (2 ^ 45) f0 -> small (2 ^ 45) f1 -> small (2 ^ 51) (make_day f0 f1 1) ->
  set_date_fields (dbl <$> (f0 :: f1 :: f2 :: f3 :: f4 :: f5 :: f6 :: more)) is_local =
  (let days := F64.add (dbl (make_day f0 f1 1)) (F64.sub (dbl f2) (dbl 1)) in
   let h := F64.add (F64.add (F64.add (F64.mul (dbl f3) (dbl 3600000)) (F64.mul (dbl f4) (dbl 60000)))
                             (F64.mul (dbl f5) (dbl 1000))) (dbl f6) in
   d ← (let d := F64.add (F64.mul days (dbl 86400000)) h in
        if is_local then
          t ← F64.to_int 64 d;
          off ← int32 (getTimezoneOffset t * 60000);
          Ret (F64.add d (F64.of_int64 off))
        else Ret d);
   Ret (time_clip d)).
Proof.
  unfold small. intros B0 B1 BD. unfold set_date_fields.
  set (l := dbl <$> _). set (y := f0 + f1 / 12).
  assert (- 2 ^ 45 <= f1 / 12 <= 2 ^ 45) by zdiv_lia.
  change (field l 0) with (Ret (dbl f0)). change (field l 1) with (Ret (dbl f1)).
  change (field l 2) with (Ret (dbl f2)). change (field l 3) with (Ret (dbl f3)).
  change (field l 4) with (Ret (dbl f4)). change (field l 5) with (Ret (dbl f5)).
  change (field l 6) with (Ret (dbl f6)). cbn [mbind res_bind]. clear l. unfold dbl.
  rewrite F64.fmod_exact.
  pose proof (Z.rem_bound_abs f1 12 ltac:(lia)) as Hr. change (Z.abs 12) with 12 in Hr.
  rewrite F64.to_int_exact by lia. cbn [mbind res_bind].
  assert ((if Z.rem f1 12 <? 0 then Z.rem f1 12 + 12 else Z.rem f1 12) = f1 mod 12) as ->.
  { rewrite <- (math_mod_spec f1 12) by lia. unfold math_mod. cbv zeta. destruct (Z.rem f1 12 <? 0); lia. }
  rewrite F64.floor_div_12 by exact_lia. rewrite F64.add_exact by exact_lia. fold y.
  rewrite F64.to_int_exact by lia. cbn [mbind res_bind].
  rewrite days_from_year_spec by lia. cbn [mbind res_bind].
  pose proof (Z.mod_pos_bound f1 12 ltac:(lia)) as Hm.
  pose proof (month_start_bounds y (f1 mod 12) ltac:(lia)).
  unfold make_day, day_number in BD. fold y in BD.
  assert (- 2 ^ 52 <= year_start y <= 2 ^ 52) by lia.
  rewrite F64.of_int64_exact by exact_lia. fold (dbl (year_start y)).
  rewrite add_months_spec by lia. cbn [mbind res_bind].
  rewrite Z2Nat.id, Z.add_0_l by lia. change (month_start y 0) with 0. rewrite Z.sub_0_r.
  unfold make_day, day_number. fold y.
  rewrite Z.add_0_r. reflexivity.
Qed.

(** The number of days and the time of day [set_date_fields] computes before
    they are combined, on fields that are small enough. *)
Lemma set_date_fields_eq f0 f1 f2 f3 f4 f5 f6 more is_local :
  small (2 ^ 45) f0 -> small (2 ^ 45) f1 -> small (2 ^ 45) f2 ->
  small (10 ^ 9) f3 -> small (10 ^ 9) f4 -> small (10 ^ 9) f5 -> small (10 ^ 15) f6 ->
  small (2 ^ 51) (make_day f0 f1 1) ->
  set_date_fields (dbl <$> (f0 :: f1 :: f2 :: f3 :: f4 :: f5 :: f6 :: more)) is_local =
  (d ← (let d := F64.add (F64.mul (dbl (make_day f0 f1 f2)) (dbl 86400000)) (dbl (make_time f3 f4 f5 f6)) in
        if is_local then
          t ← F64.to_int 64 d;
          off ← int32 (getTimezoneOffset t * 60000);
          Ret (F64.add d (F64.of_int64 off))
        else Ret d);
   Ret (time_clip d)).
Proof.
  intros B0 B1 B2 B3 B4 B5 B6 BD. rewrite set_date_fields_days by done. unfold small in *. cbv zeta.
  assert (F64.add (dbl (make_day f0 f1 1)) (F64.sub (dbl f2) (dbl 1)) = dbl (make_day f0 f1 f2)) as ->.
  { assert (make_day f0 f1 f2 = make_day f0 f1 1 + (f2 - 1)) as -> by (unfold make_day, day_number; lia).
    unfold dbl. rewrite F64.sub_exact by exact_lia. by rewrite F64.add_exact by exact_lia. }
  unfold dbl. rewrite (F64.mul_exact f3), (F64.mul_exact f4), (F64.mul_exact f5) by exact_lia.
  by rewrite !F64.add_exact by exact_lia.
Qed.

(** In UTC, as long as no intermediate result needs more than 53 bits,
    [set_date_fields] is TimeClip(MakeDate(...)). *)
Lemma set_date_fields_spec f0 f1 f2 f3 f4 f5 f6 more :
  small (2 ^ 45) f0 -> small (2 ^ 45) f1 -> small (2 ^ 45) f2 ->
  small (10 ^ 9) f3 -> small (10 ^ 9) f4 -> small (10 ^ 9) f5 -> small (10 ^ 15) f6 ->
  F64.exact (make_day f0 f1 f2 * 86400000) -> F64.exact (make_date f0 f1 f2 f3 f4 f5 f6) ->
  set_date_fields (dbl <$> (f0 :: f1 :: f2 :: f3 :: f4 :: f5 :: f6 :: more)) false =
  Ret (clip (make_date f0 f1 f2 f3 f4 f5 f6)).
Proof.
  intros B0 B1 B2 B3 B4 B5 B6 ED ET. rewrite set_date_fields_eq; try done.
  - cbn [mbind res_bind]. unfold dbl. rewrite F64.mul_exact by done.
    rewrite F64.add_exact by done. f_equal. apply time_clip_dbl.
  - unfold small, F64.exact, make_day, day_number in *. lia.
Qed.

Lemma civil_make_date c : civil_ok c ->
  make_date (c_year c) (c_month c) (c_day c) (c_hour c) (c_min c) (c_sec c) (c_ms c) = civil_time c.
Proof.
  intros (Hi & _). unfold make_date, make_day, make_time, civil_time, time_in_day.
  rewrite Z.div_small, Z.mod_small, Z.add_0_r by lia. reflexivity.
Qed.

Lemma civil_make_day c : civil_ok c ->
  make_day (c_year c) (c_month c) (c_day c) = day_number (c_year c) (c_month c) (c_day c).
Proof.
  intros (Hi & _). unfold make_day. rewrite Z.div_small, Z.mod_small, Z.add_0_r by lia. done.
Qed.

Lemma civil_day_bounds c b : civil_ok c -> small (86400000 * b) (civil_time c) ->
  small (86400000 * b + 86400000) (day_number (c_year c) (c_month c) (c_day c) * 86400000).
Proof.
  intros Hc%time_in_day_range Ht. unfold small, civil_time in *. lia.
Qed.

(** The fields of a time in range are small. *)
Lemma civil_small c : civil_ok c -> small (86400000 * 10 ^ 9) (civil_time c) -> small (2 ^ 31) (c_year c).
Proof.
  intros Hc Ht. pose proof (civil_day_bounds c _ Hc Ht) as Hd.
  destruct Hc as (Hi & Hd1 & _). unfold small, day_number in *.
  pose proof (month_start_bounds (c_year c) (c_month c) ltac:(lia)).
  pose proof (month_length_bounds (c_year c) (c_month c)).
  unfold year_start in *. zdiv_lia.
Qed.

(** Setting the fields of a civil time gives that time. *)
Lemma set_civil c more : civil_ok c -> small max_time (civil_time c) ->
  set_date_fields (dbl <$> (c_year c :: c_month c :: c_day c :: c_hour c :: c_min c :: c_sec c :: c_ms c :: more)) false
  = Ret (dbl (civil_time c)).
Proof.
  intros Hc Ht. unfold max_time in *.
  assert (small (86400000 * 10 ^ 8) (civil_time c)) as Ht' by (unfold small in *; lia).
  pose proof (civil_day_bounds c _ Hc Ht') as Hd.
  pose proof (civil_small c Hc ltac:(unfold small in *; lia)) as Hy.
  assert (civil_ok c) as Hc' by done. destruct Hc' as (Hi & Hd1 & ? & ? & ? & ?).
  pose proof (month_length_bounds (c_year c) (c_month c)).
  rewrite set_date_fields_spec; rewrite ?civil_make_date, ?civil_make_day by done;
    unfold small, F64.exact in *; try lia.
  unfold clip, max_time. destruct (Z.leb_spec (Z.abs (civil_time c)) 8640000000000000); [done | lia].
Qed.

End local_time.

(** ** Freedom from faults *)

(** The fields are integers.  [set_date_fields] converts the year to [int64_t],
    after it has added the years of the months, and in local time the number of
    milliseconds as well: up to these limits nothing overflows.  In UTC the
    fields from the day on are only computed with in floating point. *)
Definition field_limit (is_local : bool) (i : Z) : option Z :=
  if (i =? 0) || (i =? 1) then Some (if is_local then 10 ^ 7 else 10 ^ 12)
  else if negb is_local then None
  else znth [0; 0; 10 ^ 10; 10 ^ 10; 10 ^ 12; 10 ^ 13; 10 ^ 16] i.

Definition within (limit : option Z) (z : Z) : Prop := match limit with Some b => small b z | None => True end.

Definition limited_field (limit : option Z) (x : float64) : Prop := exists z, x = dbl z /\ within limit z.

(** The result of an argument. *)
Definition limited_arg (limit : option Z) (x : float64) : Prop :=
  match F64.trunc x with Finite z _ => within limit z | _ => True end.

(** The fields of a date. *)
Definition fields_ok (is_local : bool) (fields : list float64) : Prop :=
  length fields = 9%nat /\ forall i x, znth fields i = Some x -> limited_field (field_limit is_local i) x.

Section safety.
Context `{LocalTime}.

Lemma make_day_bounds f0 f1 b : 0 <= b <= 10 ^ 12 -> small b f0 -> small b f1 ->
  small (400 * b + 10 ^ 6) (make_day f0 f1 1).
Proof.
  unfold small, make_day, day_number. intros Hb B0 B1.
  pose proof (Z.mod_pos_bound f1 12 ltac:(lia)).
  pose proof (month_start_bounds (f0 + f1 / 12) (f1 mod 12) ltac:(lia)).
  assert (12 * (f1 / 12) <= f1 < 12 * (f1 / 12) + 12) by zdiv_lia.
  set (q := f1 / 12) in *. clearbody q.
  set (y := f0 + q) in *. assert (-13 * b - 12 <= 12 * y <= 13 * b) as By by lia. clearbody y.
  assert (12 * year_start y <= 12 * 366 * Z.abs y + 12 * (9 * 10 ^ 5) /\ - (12 * 366 * Z.abs y + 12 * (9 * 10 ^ 5)) <= 12 * year_start y)
    by (unfold year_start; zdiv_lia).
  lia.
Qed.

Lemma fields_list is_local fields : fields_ok is_local fields -> exists f0 f1 f2 f3 f4 f5 f6 more,
  fields = dbl <$> (f0 :: f1 :: f2 :: f3 :: f4 :: f5 :: f6 :: more) /\
  within (field_limit is_local 0) f0 /\ within (field_limit is_local 1) f1 /\ within (field_limit is_local 2) f2 /\
  within (field_limit is_local 3) f3 /\ within (field_limit is_local 4) f4 /\ within (field_limit is_local 5) f5 /\
  within (field_limit is_local 6) f6.
Proof.
  intros [Hl Hf]. destruct fields as [| x0 [| x1 [| x2 [| x3 [| x4 [| x5 [| x6 [| x7 [| x8 [| ? ?]]]]]]]]]]; cbn in Hl; try lia. clear Hl.
  destruct (Hf 0 _ eq_refl) as (f0 & -> & ?), (Hf 1 _ eq_refl) as (f1 & -> & ?), (Hf 2 _ eq_refl) as (f2 & -> & ?),
    (Hf 3 _ eq_refl) as (f3 & -> & ?), (Hf 4 _ eq_refl) as (f4 & -> & ?), (Hf 5 _ eq_refl) as (f5 & -> & ?),
    (Hf 6 _ eq_refl) as (f6 & -> & ?), (Hf 7 _ eq_refl) as (f7 & -> & _), (Hf 8 _ eq_refl) as (f8 & -> & _).
  exists f0, f1, f2, f3, f4, f5, f6, [f7; f8]. split_and!; done.
Qed.

(** The number of milliseconds of local fields fits in [int64_t]. *)
Lemma local_milliseconds day f2 f3 f4 f5 f6 :
  small (5 * 10 ^ 9) day -> small (10 ^ 10) f2 -> small (10 ^ 10) f3 -> small (10 ^ 12) f4 -> small (10 ^ 13) f5 -> small (10 ^ 16) f6 ->
  let days := F64.add (dbl day) (F64.sub (dbl f2) (dbl 1)) in
  let h := F64.add (F64.add (F64.add (F64.mul (dbl f3) (dbl 3600000)) (F64.mul (dbl f4) (dbl 60000)))
                            (F64.mul (dbl f5) (dbl 1000))) (dbl f6) in
  F64.int_le (2 ^ 62) (F64.add (F64.mul days (dbl 86400000)) h).
Proof.
  unfold small, dbl. intros. cbv zeta. rewrite F64.sub_exact, F64.add_exact by exact_lia.
  apply (F64.add_le 62 (2 ^ 61) (2 ^ 59)); [lia | | | lia].
  - apply (F64.mul_le 61 (2 ^ 34) 86400000); [lia.. | | | lia]; apply F64.int_le_Finite; lia.
  - apply (F64.add_le 59 (2 ^ 58) (2 ^ 54)); [lia | | apply F64.int_le_Finite; lia | lia].
    apply (F64.add_le 58 (2 ^ 57) (2 ^ 54)); [lia | | | lia].
    + apply (F64.add_le 57 (2 ^ 55) (2 ^ 56)); [lia | | | lia].
      * apply (F64.mul_le 55 (10 ^ 10) 3600000); [lia.. | | | lia]; apply F64.int_le_Finite; lia.
      * apply (F64.mul_le 56 (10 ^ 12) 60000); [lia.. | | | lia]; apply F64.int_le_Finite; lia.
    + apply (F64.mul_le 54 (10 ^ 13) 1000); [lia.. | | | lia]; apply F64.int_le_Finite; lia.
Qed.

Lemma set_date_fields_safe fields is_local : fields_ok is_local fields ->
  exists v, set_date_fields fields is_local = Ret v /\ time_value v.
Proof.
  intros (f0 & f1 & f2 & f3 & f4 & f5 & f6 & more & -> & H0 & H1 & H2 & H3 & H4 & H5 & H6)%fields_list.
  assert (exists b, 0 <= b <= 10 ^ 12 /\ small b f0 /\ small b f1 /\ (is_local = true -> b = 10 ^ 7)) as (b & Hb & B0 & B1 & Hbl).
  { destruct is_local; [exists (10 ^ 7) | exists (10 ^ 12)]; (split; [lia |]; split; [exact H0 |]; split; [exact H1 |]); done. }
  pose proof (make_day_bounds f0 f1 b Hb B0 B1) as Hd. unfold small in B0, B1.
  rewrite set_date_fields_days by (unfold small in *; lia). destruct is_local; cbv zeta.
  - rewrite (Hbl eq_refl) in Hd.
    pose proof (local_milliseconds (make_day f0 f1 1) f2 f3 f4 f5 f6 ltac:(unfold small in *; lia) H2 H3 H4 H5 H6) as Hms.
    cbv zeta in Hms. destruct (F64.to_int_le 62 64 _ ltac:(lia) Hms) as (t & -> & _). cbn [mbind res_bind].
    pose proof (getTimezoneOffset_range t). rewrite int32_ok by lia. cbn [mbind res_bind].
    eexists. split; [done |]. apply time_clip_time_value.
  - cbn [mbind res_bind]. eexists. split; [done |]. apply time_clip_time_value.
Qed.

(** *** get_date_fields *)
Definition local_offset (is_local : bool) (t : Z) : Z := if is_local then - getTimezoneOffset t else 0.

Lemma local_offset_range is_local t : -1500 <= local_offset is_local t <= 1500.
Proof. unfold local_offset. pose proof (getTimezoneOffset_range t). destruct is_local; lia. Qed.

Lemma dbl_fields zs : Forall (small (2 ^ 52)) zs -> map F64.of_int64 zs = dbl <$> zs.
Proof.
  induction 1 as [| z zs Hz Hzs IH]; [done |]. cbn. rewrite IH.
  rewrite F64.of_int64_exact by (unfold small in Hz; exact_lia). done.
Qed.

Lemma fields_of_small c wd tz : civil_ok c -> small (10 ^ 7) (c_year c) -> 0 <= wd < 7 -> small 1500 tz ->
  Forall (small (10 ^ 7)) (fields_of c wd tz).
Proof.
  intros Hc Hy Hwd Htz. pose proof (month_length_bounds (c_year c) (c_month c)).
  unfold civil_ok, small in *. repeat constructor; lia.
Qed.

Lemma civil_year_bounds c : civil_ok c -> small (max_time + 10 ^ 8) (civil_time c) -> small (300000) (c_year c).
Proof.
  intros Hc Ht. pose proof (time_in_day_range c Hc). unfold civil_time, max_time, small in *.
  pose proof (day_number_year c Hc) as Hn. cbv zeta in Hn.
  set (n := day_number (c_year c) (c_month c) (c_day c)) in *.
  assert (- 10 ^ 8 - 3 <= n <= 10 ^ 8 + 3) by lia. clearbody n.
  unfold year_start in Hn. clear Hc. set (y := c_year c) in *. clearbody y. zdiv_lia.
Qed.

Lemma get_date_fields_spec t is_local force : small max_time t ->
  let tz := local_offset is_local t in
  exists c, civil_ok c /\ civil_time c = t + tz * 60000 /\ small 300000 (c_year c) /\
    get_date_fields (DateObj (dbl t)) is_local force =
    Ret (GDF_fields (dbl <$> fields_of c (((t + tz * 60000) / 86400000 + 4) mod 7) tz)).
Proof.
  intros Ht tz. pose proof (local_offset_range is_local t) as Htz. fold tz in Htz.
  unfold small, max_time in Ht. unfold get_date_fields. cbn [JS_ThisTimeValue F64.isnan dbl negb andb].
  change (F64.to_int 64 (dbl t)) with (F64.to_int 64 (Finite t 0)).
  rewrite F64.to_int_exact by lia. cbn [mbind res_bind].
  assert ((if is_local then d ← int64 (t + - getTimezoneOffset t * 60000); Ret (d, - getTimezoneOffset t)
           else Ret (t, 0)) = Ret (t + tz * 60000, tz)) as E.
  { unfold tz, local_offset in *. destruct is_local.
    - rewrite int64_ok by lia. reflexivity.
    - do 2 f_equal. lia. }
  cbv zeta. rewrite E. cbn [mbind res_bind].
  destruct (split_time_spec (t + tz * 60000) tz) as (c & -> & Hc & Ec & _); [lia |].
  cbn [mbind res_bind]. exists c.
  assert (small 300000 (c_year c)) as Hy.
  { apply civil_year_bounds; [done |]. unfold small, max_time. lia. }
  set (wd := ((t + tz * 60000) / 86400000 + 4) mod 7).
  assert (Forall (small (10 ^ 7)) (fields_of c wd tz)) as Hs.
  { apply fields_of_small; [done | | apply Z.mod_pos_bound; lia | done]. unfold small in *. lia. }
  rewrite (dbl_fields (fields_of c wd tz)); [done |].
  eapply list.Forall_impl; [exact Hs |]. unfold small. lia.
Qed.

(** Fields of at most ten million are within the limits. *)
Lemma small_within is_local i z : small (10 ^ 7) z -> 0 <= i < 7 -> within (field_limit is_local i) z.
Proof.
  intros Hz Hi. assert (i = 0 \/ i = 1 \/ i = 2 \/ i = 3 \/ i = 4 \/ i = 5 \/ i = 6) as Hc by lia. unfold small in Hz.
  repeat destruct Hc as [-> | Hc]; [..| subst i]; destruct is_local;
    match goal with |- within ?l z => let l' := eval vm_compute in l in change (within l' z) end; unfold within, small; lia || exact I.
Qed.

Lemma small_fields is_local zs : length zs = 9%nat -> Forall (small (10 ^ 7)) zs -> fields_ok is_local (dbl <$> zs).
Proof.
  intros Hl Hs. split; [by rewrite length_fmap |]. intros i x [Hi Hx]%znth_Some. rewrite list_lookup_fmap in Hx.
  destruct (zs !! Z.to_nat i) as [z |] eqn:Ez; [| done]. injection Hx as <-. exists z. split; [done |].
  destruct (Z.ltb_spec i 7); [apply small_within; [| lia]; by eapply (list.Forall_lookup_1 _ _ _ _ Hs) |].
  apply lookup_lt_Some in Ez. assert (i = 7 \/ i = 8) as [-> | ->] by lia; by destruct is_local.
Qed.

Lemma get_date_fields_safe v is_local force : time_value v ->
  exists r, get_date_fields (DateObj v) is_local force = Ret r /\ r <> GDF_exception /\
    forall fields, r = GDF_fields fields -> fields_ok is_local fields.
Proof.
  intros [-> | (t & -> & Ht)].
  - destruct force; [| eexists; split; [reflexivity |]; split; [done |]; discriminate].
    exists (GDF_fields (dbl <$> [1970; 0; 1; 0; 0; 0; 0; 4; 0])).
    split; [vm_compute; reflexivity |]. split; [done |]. intros fields [= <-].
    apply (small_fields is_local [1970; 0; 1; 0; 0; 0; 0; 4; 0]); [done | repeat constructor; unfold small; lia].
  - destruct (get_date_fields_spec t is_local force Ht) as (c & Hc & _ & Hy & ->).
    eexists. split; [done |]. split; [done |]. intros fields E.
    assert (fields = dbl <$> fields_of c (((t + local_offset is_local t * 60000) / 86400000 + 4) mod 7) (local_offset is_local t)) as -> by congruence.
    apply small_fields; [done |]. apply (fields_of_small c _ _ Hc); [unfold small in *; lia | apply Z.mod_pos_bound; lia | apply local_offset_range].
Qed.

End safety.
