(* ===== verification/DateFormat.v ===== *)
(** * The text formats of dates

    The texts [get_date_string] produces, without the buffer: every write of
    the function stays inside [buf[64]] and nothing is truncated. *)
From Stdlib Require Import ZArith Lia Bool Ascii String.
From stdpp Require Import base numbers list.
From S2P Require Import Prelude Cutils JSValue Alloc Float64 Date DateText DateFacts DateTime.

(** ** Decimal numbers *)
Definition digits_val (l : list Z) : Z := fold_left (fun v c => v * 10 + c - 48) l 0.

Lemma digits_val_snoc l c : digits_val (l ++ [c]) = digits_val l * 10 + c - 48.
Proof. unfold digits_val. by rewrite fold_left_app. Qed.

Lemma digits_val_zeros k l : digits_val (replicate k 48 ++ l) = digits_val l.
Proof.
  unfold digits_val. rewrite fold_left_app. f_equal.
  induction k as [| k IH]; [done |]. cbn [replicate fold_left]. exact IH.
Qed.

Lemma is_digit_spec c : is_digit c = true <-> 48 <= c <= 57.
Proof. unfold is_digit. rewrite andb_true_iff, !Z.leb_le. done. Qed.

Lemma dec_digits_spec fuel n : 0 <= n < 10 ^ Z.of_nat fuel ->
  digits_val (dec_digits fuel n) = n /\ Forall (fun c => is_digit c = true) (dec_digits fuel n).
Proof.
  revert n. induction fuel as [| fuel IH]; intros n Hn; [cbn in *; split; [unfold digits_val; cbn; lia | done] |].
  cbn [dec_digits]. destruct (Z.ltb_spec n 10).
  - split; [unfold digits_val; cbn; lia |]. repeat constructor. apply is_digit_spec. lia.
  - rewrite Nat2Z.inj_succ, Z.pow_succ_r in Hn by lia.
    destruct (IH (n / 10)) as [E D]; [zdiv_lia |].
    rewrite digits_val_snoc, E. split; [zdiv_lia |].
    apply Forall_app. split; [exact D |]. repeat constructor. apply is_digit_spec. zdiv_lia.
Qed.

Lemma dec_digits_length fuel n k : (1 <= k)%nat -> (k <= fuel)%nat -> 0 <= n < 10 ^ Z.of_nat k ->
  1 <= zlen (dec_digits fuel n) <= Z.of_nat k.
Proof.
  revert n k. induction fuel as [| fuel IH]; intros n k Hk Hf Hn; [lia |].
  cbn [dec_digits]. destruct (Z.ltb_spec n 10).
  - zlen_lia.
  - destruct k as [| [| k]]; [lia | cbn in Hn; lia |].
    rewrite Nat2Z.inj_succ, Z.pow_succ_r in Hn by lia.
    destruct (IH (n / 10) (S k)); [lia | lia | zdiv_lia |]. zlen_lia.
Qed.

(** A number of at most [k] digits, padded to the width. *)
Lemma fmt_d_spec plus w n k : (1 <= k)%nat -> (k <= 10)%nat -> - 10 ^ Z.of_nat k < n < 10 ^ Z.of_nat k ->
  exists sign ds, fmt_d plus w n = sign ++ ds /\
    sign = (if n <? 0 then [45] else if plus then [43] else []) /\
    digits_val ds = Z.abs n /\ Forall (fun c => is_digit c = true) ds /\
    1 <= zlen ds /\ (Z.of_nat k + zlen sign <= w -> zlen ds = w - zlen sign).
Proof.
  intros Hk Hk' Hn. unfold fmt_d. set (sign := if n <? 0 then [45] else if plus then [43] else []).
  exists sign. eexists. split; [done |]. split; [done |].
  destruct (dec_digits_length 10 (Z.abs n) k) as [L1 L2]; [done.. | lia |].
  assert (0 <= Z.abs n < 10 ^ Z.of_nat 10) as Hr.
  { split; [lia |]. assert (10 ^ Z.of_nat k <= 10 ^ Z.of_nat 10) by (apply Z.pow_le_mono_r; lia). lia. }
  destruct (dec_digits_spec 10 (Z.abs n) Hr) as [V D].
  rewrite digits_val_zeros, V. split; [done |].
  split; [apply Forall_app; split; [| exact D]; apply Forall_replicate; done |].
  rewrite zlen_app, zlen_replicate. split; [zlen_lia |]. intros. zlen_lia.
Qed.

(** Two digits. *)
Lemma d2_spec n : 0 <= n < 100 ->
  digits_val (d2 n) = n /\ Forall (fun c => is_digit c = true) (d2 n) /\ zlen (d2 n) = 2.
Proof.
  intros Hn. unfold d2. destruct (fmt_d_spec false 2 n 2) as (sg & ds & -> & Es & V & D & _ & L); [lia | lia | cbn; lia |].
  destruct (Z.ltb_spec n 0); [lia |]. subst sg. rewrite app_nil_l, zlen_nil in *.
  split_and!; [lia | done | lia].
Qed.

Lemma d2_zlen n : 0 <= n < 100 -> zlen (d2 n) = 2.
Proof. intros. by apply d2_spec. Qed.

Lemma d3_spec n : 0 <= n < 1000 ->
  digits_val (fmt_d false 3 n) = n /\ Forall (fun c => is_digit c = true) (fmt_d false 3 n) /\
  zlen (fmt_d false 3 n) = 3.
Proof.
  intros Hn. destruct (fmt_d_spec false 3 n 3) as (sg & ds & -> & Es & V & D & _ & L); [lia | lia | cbn; lia |].
  destruct (Z.ltb_spec n 0); [lia |]. subst sg. rewrite app_nil_l, zlen_nil in *.
  split_and!; [lia | done | lia].
Qed.

(** The years of time values have at most six digits. *)
Lemma fmt_d_zlen plus w n : small 300000 n -> zlen (fmt_d plus w n) <= Z.max w 7.
Proof.
  intros Hn. unfold small in Hn. unfold fmt_d.
  destruct (dec_digits_length 10 (Z.abs n) 6) as [L1 L2]; [lia | lia | cbn; lia |].
  set (sign := if n <? 0 then [45] else if plus then [43] else []).
  assert (zlen sign <= 1) by (unfold sign; destruct (n <? 0), plus; zlen_lia).
  zlen_lia.
Qed.

(** ** The buffer *)

(** The first [pos] characters of the buffer are the text [s]. *)
Definition wrote (st : list Z * Z) (s : list Z) : Prop :=
  exists rest, st = (s ++ rest, zlen s) /\ zlen (s ++ rest) = 64.

Lemma snprintf_wrote st s t : wrote st s -> zlen s + zlen t < 64 ->
  exists st', snprintf st t = Ret st' /\ wrote st' (s ++ t).
Proof.
  intros (rest & -> & Hl) Ht. unfold snprintf. pose proof (zlen_nonneg s). pose proof (zlen_nonneg t).
  rewrite Hl, (wrap_small 64 (64 - zlen s)) by lia.
  destruct (Z.eqb_spec (64 - zlen s) 0); [lia |].
  rewrite Z.min_r, to_nat_zlen, firstn_all by lia.
  rewrite zwrite_in by zlen_lia. cbn [of_opt mbind res_bind].
  eexists. split; [done |]. rewrite take_zlen_app.
  exists ([0] ++ drop (Z.to_nat (zlen s + zlen (t ++ [0]))) (s ++ rest)).
  rewrite <- !app_assoc, !zlen_app. split; [done |]. zlen_lia.
Qed.

Lemma putc_wrote st s c : wrote st s -> zlen s < 63 ->
  exists st', putc st c = Ret st' /\ wrote st' (s ++ [c]).
Proof.
  intros (rest & -> & Hl) Ht. unfold putc. pose proof (zlen_nonneg s).
  destruct rest as [| r rest]; [rewrite app_nil_r in Hl; lia |].
  assert (zupd (s ++ r :: rest) (zlen s) c = Some ((s ++ [c]) ++ rest)) as ->.
  { apply zupd_Some. split; [lia |]. rewrite to_nat_zlen.
    replace (length s) with (length s + 0)%nat by lia. rewrite insert_app_r. cbn.
    by rewrite <- app_assoc. }
  cbn [of_opt mbind res_bind]. eexists. split; [done |].
  exists rest. rewrite zlen_app. split; [done |]. zlen_lia.
Qed.

(** ** The texts *)
Definition name3 (names : list Z) (i : Z) : list Z := take 3 (drop (Z.to_nat (i * 3)) names).

Definition date_text (fmt part : Z) (f : date_ints) : list Z :=
  match fmt with
  | 0 => name3 day_names (di_wd f) ++ ascii ", " ++ d2 (di_d f) ++ ascii " "
         ++ name3 month_names (di_mon f) ++ ascii " " ++ year4 (di_y f) ++ ascii " "
  | 1 => name3 day_names (di_wd f) ++ ascii " " ++ name3 month_names (di_mon f) ++ ascii " "
         ++ d2 (di_d f) ++ ascii " " ++ year4 (di_y f) ++ (if part =? 3 then [32] else [])
  | 2 => (if (0 <=? di_y f) && (di_y f <=? 9999) then fmt_d false 4 (di_y f) else fmt_d true 7 (di_y f))
         ++ ascii "-" ++ d2 (di_mon f + 1) ++ ascii "-" ++ d2 (di_d f) ++ ascii "T"
  | 3 => d2 (di_mon f + 1) ++ ascii "/" ++ d2 (di_d f) ++ ascii "/" ++ year4 (di_y f)
         ++ (if part =? 3 then [44; 32] else [])
  | _ => []
  end.

Definition clock_text (f : date_ints) : list Z :=
  d2 (di_h f) ++ ascii ":" ++ d2 (di_m f) ++ ascii ":" ++ d2 (di_s f).

Definition zone_text (tz : Z) : list Z :=
  (if tz <? 0 then [45] else [43]) ++ d2 (Z.abs tz / 60) ++ d2 (Z.abs tz mod 60).

Definition time_text (fmt : Z) (f : date_ints) : list Z :=
  match fmt with
  | 0 => clock_text f ++ ascii " GMT"
  | 1 => clock_text f ++ ascii " GMT" ++ zone_text (di_tz f)
  | 2 => clock_text f ++ ascii "." ++ fmt_d false 3 (di_ms f) ++ ascii "Z"
  | 3 => d2 (Z.rem (di_h f + 1) 12 - 1) ++ ascii ":" ++ d2 (di_m f) ++ ascii ":"
         ++ d2 (di_s f) ++ ascii " " ++ (if di_h f <? 12 then ascii "A" else ascii "P") ++ ascii "M"
  | _ => []
  end.

(** The fields of a time value. *)
Definition ints_ok (f : date_ints) : Prop :=
  small 300000 (di_y f) /\ 0 <= di_mon f <= 11 /\ 1 <= di_d f <= 31 /\ 0 <= di_h f < 24 /\
  0 <= di_m f < 60 /\ 0 <= di_s f < 60 /\ 0 <= di_ms f < 1000 /\ 0 <= di_wd f < 7 /\ small 1500 (di_tz f).

Lemma read_name names i n : zlen names = 3 * n -> 0 <= i < n ->
  zread names (i * 3) 3 = Some (name3 names i) /\ zlen (name3 names i) = 3.
Proof.
  intros Hl Hi. assert (zread names (i * 3) 3 = Some (name3 names i)) as E by (apply zread_in; lia).
  split; [exact E |]. exact (zread_zlen _ _ _ _ E).
Qed.

Ltac text_zlen :=
  rewrite ?zlen_app;
  repeat match goal with
  | |- context [zlen (ascii_codes ?s)] =>
      let n := eval vm_compute in (zlen (ascii_codes s)) in
      change (zlen (ascii_codes s)) with n
  | |- context [zlen (d2 ?n)] => rewrite (d2_zlen n) by zdiv_lia
  end.

Lemma year4_zlen y : small 300000 y -> zlen (year4 y) <= 7.
Proof. intros Hy. unfold year4. pose proof (fmt_d_zlen false (4 + (if y <? 0 then 1 else 0)) y Hy). destruct (y <? 0); lia. Qed.

Lemma locale_hour_zlen h : 0 <= h < 24 -> zlen (d2 (Z.rem (h + 1) 12 - 1)) = 2.
Proof.
  intros Hh. destruct (Z.eq_dec (Z.rem (h + 1) 12) 0) as [-> | N]; [done |].
  apply d2_zlen. zdiv_lia.
Qed.

Lemma zone_text_zlen tz : small 1500 tz -> zlen (zone_text tz) = 5.
Proof.
  unfold small, zone_text. intros H. rewrite !zlen_app. rewrite !d2_zlen by zdiv_lia.
  destruct (tz <? 0); reflexivity.
Qed.

Lemma iso_year_zlen y : small 300000 y ->
  zlen (if (0 <=? y) && (y <=? 9999) then fmt_d false 4 y else fmt_d true 7 y) <= 7.
Proof.
  intros Hy. pose proof (fmt_d_zlen false 4 y Hy). pose proof (fmt_d_zlen true 7 y Hy).
  destruct ((0 <=? y) && (y <=? 9999)); lia.
Qed.

Lemma date_text_zlen fmt part f : ints_ok f -> zlen (date_text fmt part f) <= 20.
Proof.
  intros (Hy & Hmon & Hd & _ & _ & _ & _ & Hwd & _). unfold date_text.
  destruct (read_name day_names (di_wd f) 7 eq_refl Hwd) as [_ L1].
  destruct (read_name month_names (di_mon f) 12 eq_refl ltac:(lia)) as [_ L2].
  pose proof (year4_zlen _ Hy). pose proof (iso_year_zlen _ Hy).
  repeat case_match; text_zlen; zlen_lia.
Qed.

Lemma time_text_zlen fmt f : ints_ok f -> zlen (time_text fmt f) <= 17.
Proof.
  intros (_ & _ & _ & Hh & Hm & Hs & Hms & _ & Htz). unfold time_text, clock_text.
  pose proof (zone_text_zlen _ Htz). destruct (d3_spec _ Hms) as (_ & _ & ?).
  pose proof (locale_hour_zlen _ Hh).
  repeat case_match; rewrite ?zlen_app, ?H0; text_zlen; lia || zlen_lia.
Qed.

(** Write [t] after the text so far; [s ++ t] is the new text. *)
Ltac write_text :=
  match goal with
  | W : wrote ?st ?s |- context [snprintf ?st ?t] =>
      let st' := fresh "st" in let E := fresh "E" in let W' := fresh "W" in
      destruct (snprintf_wrote st s t W) as (st' & E & W');
      [| rewrite E; cbn [mbind res_bind]; clear E W]
  | W : wrote ?st ?s |- context [putc ?st ?c] =>
      let st' := fresh "st" in let E := fresh "E" in let W' := fresh "W" in
      destruct (putc_wrote st s c W) as (st' & E & W');
      [| rewrite E; cbn [mbind res_bind]; clear E W]
  end.

Lemma fmt_cases fmt : 0 <= fmt < 4 -> fmt = 0 \/ fmt = 1 \/ fmt = 2 \/ fmt = 3.
Proof. lia. Qed.

Lemma date_part_ok fmt part f st : 0 <= fmt < 4 -> ints_ok f -> wrote st [] ->
  exists st', date_part fmt part f st = Ret st' /\ wrote st' (date_text fmt part f).
Proof.
  intros Hfmt Hf W. pose proof (date_text_zlen fmt part f Hf) as L.
  assert (Hf' := Hf). destruct Hf' as (Hy & Hmon & Hd & _ & _ & _ & _ & Hwd & _).
  destruct (read_name day_names (di_wd f) 7 eq_refl Hwd) as [R1 _].
  destruct (read_name month_names (di_mon f) 12 eq_refl ltac:(lia)) as [R2 _].
  unfold date_part, date_text in *.
  destruct (fmt_cases fmt Hfmt) as [-> | [-> | [-> | ->]]].
  - rewrite R1, R2. cbn [of_opt mbind res_bind]. write_text; [rewrite zlen_nil; lia |]. eauto.
  - rewrite R1, R2. cbn [of_opt mbind res_bind].
    write_text; [rewrite ?zlen_app in *; destruct (part =? 3); zlen_lia |].
    rewrite !app_assoc in *. rewrite app_nil_l in *. destruct (part =? 3).
    + write_text; [zlen_lia |]. eauto.
    + rewrite app_nil_r. eauto.
  - destruct ((0 <=? di_y f) && (di_y f <=? 9999));
      (write_text; [zlen_lia |]; write_text; [zlen_lia |]; rewrite app_nil_l in *; eauto).
  - write_text; [rewrite ?zlen_app in *; destruct (part =? 3); zlen_lia |].
    rewrite app_nil_l in *. destruct (part =? 3).
    + write_text; [zlen_lia |]. write_text; [zlen_lia |].
      eexists. split; [done |]. rewrite <- !app_assoc in *. assumption.
    + rewrite !app_assoc in *. rewrite app_nil_r in *. eauto.
Qed.

Lemma time_part_ok fmt f st s : 0 <= fmt < 4 -> ints_ok f -> wrote st s -> zlen s <= 20 ->
  exists st', time_part fmt f st = Ret st' /\ wrote st' (s ++ time_text fmt f).
Proof.
  intros Hfmt Hf W Hs. pose proof (time_text_zlen fmt f Hf) as L.
  assert (Hf' := Hf). destruct Hf' as (_ & _ & _ & _ & _ & _ & _ & _ & Htz).
  unfold time_part, time_text, clock_text in *.
  destruct (fmt_cases fmt Hfmt) as [-> | [-> | [-> | ->]]].
  - write_text; [zlen_lia |]. eauto.
  - write_text; [zlen_lia |]. unfold zone_text in *. unfold small in Htz.
    destruct (Z.ltb_spec (di_tz f) 0).
    + write_text; [zlen_lia |]. rewrite Z.abs_neq in * by lia.
      rewrite Z.quot_div_nonneg, Z.rem_mod_nonneg by lia. write_text; [zlen_lia |].
      eexists. split; [done |]. rewrite <- !app_assoc in *. assumption.
    + write_text; [zlen_lia |]. rewrite Z.abs_eq in * by lia.
      rewrite Z.quot_div_nonneg, Z.rem_mod_nonneg by lia. write_text; [zlen_lia |].
      eexists. split; [done |]. rewrite <- !app_assoc in *. assumption.
  - write_text; [zlen_lia |]. eauto.
  - write_text; [zlen_lia |]. eauto.
Qed.

(** ** get_date_string *)
Definition ints_of (c : civil) (wd tz : Z) : date_ints :=
  mkInts (c_year c) (c_month c) (c_day c) (c_hour c) (c_min c) (c_sec c) (c_ms c) wd tz.

Lemma to_int32_dbl z : small (10 ^ 7) z -> F64.to_int 32 (dbl z) = Ret z.
Proof. intros Hz. unfold small in Hz. apply (F64.to_int_exact 32 z). lia. Qed.

Lemma date_ints_of_spec c wd tz : Forall (small (10 ^ 7)) (fields_of c wd tz) ->
  date_ints_of (dbl <$> fields_of c wd tz) = Ret (ints_of c wd tz).
Proof.
  intros Hs. unfold fields_of in Hs.
  repeat (apply Forall_cons_iff in Hs as [? Hs]).
  unfold date_ints_of. set (l := dbl <$> fields_of c wd tz).
  change (field l 0) with (Ret (dbl (c_year c))).
  change (field l 1) with (Ret (dbl (c_month c))).
  change (field l 2) with (Ret (dbl (c_day c))).
  change (field l 3) with (Ret (dbl (c_hour c))).
  change (field l 4) with (Ret (dbl (c_min c))).
  change (field l 5) with (Ret (dbl (c_sec c))).
  change (field l 6) with (Ret (dbl (c_ms c))).
  change (field l 7) with (Ret (dbl wd)).
  change (field l 8) with (Ret (dbl tz)).
  cbn [mbind res_bind]. repeat (rewrite to_int32_dbl by done; cbn [mbind res_bind]). reflexivity.
Qed.

Definition date_string (magic : Z) (f : date_ints) : list Z :=
  let fmt := Z.land (Z.shiftr magic 4) 15 in
  let part := Z.land magic 15 in
  (if Z.land part 1 =? 0 then [] else date_text fmt part f) ++
  (if Z.land part 2 =? 0 then [] else time_text fmt f).

Section local_time.
Context `{LocalTime}.

(** The format of the local time zone: [fmt & 1]. *)
Definition is_local_fmt (magic : Z) : bool := negb (Z.land (Z.land (Z.shiftr magic 4) 15) 1 =? 0).

Lemma get_date_string_spec t magic : small max_time t -> Z.land (Z.shiftr magic 4) 15 < 4 ->
  let tz := local_offset (is_local_fmt magic) t in
  let wd := ((t + tz * 60000) / 86400000 + 4) mod 7 in
  exists c, civil_ok c /\ civil_time c = t + tz * 60000 /\ ints_ok (ints_of c wd tz) /\
    get_date_string (DateObj (dbl t)) magic = Ret (JS_OK (date_string magic (ints_of c wd tz))).
Proof.
  intros Ht Hfmt tz wd.
  destruct (get_date_fields_spec t (is_local_fmt magic) false Ht) as (c & Hc & Ec & Hy & E).
  fold tz in Ec, E. fold wd in E.
  assert (0 <= wd < 7) as Hwd by (apply Z.mod_pos_bound; lia).
  assert (small 1500 tz) as Htz by apply local_offset_range.
  assert (ints_ok (ints_of c wd tz)) as Hf.
  { pose proof (month_length_bounds (c_year c) (c_month c)).
    destruct Hc as (? & ? & ? & ? & ? & ?). unfold ints_ok, small in *. cbn. lia. }
  exists c. split_and!; try done.
  assert (Forall (small (10 ^ 7)) (fields_of c wd tz)) as Hs.
  { apply fields_of_small; [done | unfold small in *; lia | done | done]. }
  unfold get_date_string. fold (is_local_fmt magic). rewrite E. cbn [mbind res_bind].
  rewrite date_ints_of_spec by done. cbn [mbind res_bind].
  unfold date_string. set (fmt := Z.land (Z.shiftr magic 4) 15) in *. set (part := Z.land magic 15).
  assert (0 <= fmt) by (apply Z.land_nonneg; right; lia).
  assert (wrote (replicate 64 0, 0) []) as W0 by (exists (replicate 64 0); done).
  set (f := ints_of c wd tz) in *.
  assert (exists st s, (if Z.land part 1 =? 0 then Ret (replicate 64 0, 0)
      else date_part fmt part f (replicate 64 0, 0)) = Ret st /\ wrote st s /\ zlen s <= 20 /\
      s = if Z.land part 1 =? 0 then [] else date_text fmt part f) as (st & s & -> & W & Hl & ->).
  { destruct (Z.land part 1 =? 0).
    - do 2 eexists. split_and!; [done | exact W0 | done | done].
    - destruct (date_part_ok fmt part f _ ltac:(lia) Hf W0) as (st & E1 & W).
      exists st. eexists. split_and!; [exact E1 | exact W | by apply date_text_zlen | done]. }
  cbn [mbind res_bind]. set (s := if Z.land part 1 =? 0 then [] else date_text fmt part f) in *.
  assert (exists st' u, (if Z.land part 2 =? 0 then Ret st else time_part fmt f st) = Ret st' /\
      wrote st' (s ++ u) /\ u = if Z.land part 2 =? 0 then [] else time_text fmt f)
    as (st' & u & -> & (rest & -> & Hr) & ->).
  { destruct (Z.land part 2 =? 0).
    - exists st, []. rewrite app_nil_r. done.
    - destruct (time_part_ok fmt f st s ltac:(lia) Hf W Hl) as (st' & E1 & W').
      exists st'. eexists. split_and!; [exact E1 | exact W' | done]. }
  cbn [mbind res_bind]. rewrite zread_in by zlen_lia. cbn [of_opt mbind res_bind].
  by rewrite drop_0, take_zlen_app.
Qed.

Lemma get_date_string_NaN magic :
  get_date_string (DateObj NaN) magic =
  Ret (if Z.land (Z.shiftr magic 4) 15 =? 2 then JS_RangeError else JS_OK (ascii "Invalid Date")).
Proof. reflexivity. Qed.

End local_time.
