(* ===== verification/DateParse.v ===== *)
(** * Date.parse reads back what the Date object prints *)
From Stdlib Require Import ZArith Lia Bool Ascii String.
From stdpp Require Import base numbers list.
From S2P Require Import Prelude Cutils JSValue Alloc Float64 Date DateText DateFacts DateTime DateFormat.

(** ** The cursor *)

(** The text from position [p] on is [s]. *)
Definition at_ (sp : JSString) (p : Z) (s : list Z) : Prop :=
  exists pre, chars sp = pre ++ s /\ p = zlen pre.

Lemma at_start w l : at_ (mkString w l) 0 l.
Proof. by exists []. Qed.

Lemma at_len sp p s : at_ sp p s -> len sp = p + zlen s /\ 0 <= p.
Proof. intros (pre & E & ->). unfold len. rewrite E. zlen_lia. Qed.

Lemma at_app sp p a s : at_ sp p (a ++ s) -> at_ sp (p + zlen a) s.
Proof. intros (pre & E & ->). exists (pre ++ a). rewrite E, zlen_app, app_assoc. done. Qed.

Lemma at_next sp p c s : at_ sp p (c :: s) -> at_ sp (p + 1) s.
Proof. apply (at_app sp p [c] s). Qed.

Lemma at_get sp p c s : at_ sp p (c :: s) -> string_get sp p = Ret c.
Proof.
  intros (pre & E & ->). unfold string_get. rewrite E, znth_app_r, Z.sub_diag by lia. done.
Qed.

Lemma at_lt sp p c s : at_ sp p (c :: s) -> (p <? len sp) = true /\ (len sp <=? p) = false.
Proof. intros [E Hp]%at_len. rewrite E. split; [apply Z.ltb_lt | apply Z.leb_gt]; zlen_lia. Qed.

Lemma at_end sp p : at_ sp p [] -> (p <? len sp) = false /\ (len sp <=? p) = true /\ p = len sp.
Proof. intros [E Hp]%at_len. rewrite zlen_nil in E. split_and!; lia. Qed.

Lemma rest_fuel sp p s : at_ sp p s -> rest sp p = S (length s).
Proof. intros [E Hp]%at_len. unfold rest. rewrite E. unfold zlen. f_equal. lia. Qed.

(** The next character is known. *)
Ltac at_head A :=
  rewrite ?(proj1 (at_lt _ _ _ _ A)), ?(proj2 (at_lt _ _ _ _ A)), ?(at_get _ _ _ _ A);
  cbn [mbind res_bind].

(** ** Numbers *)
Definition stop (s : list Z) : Prop := match s with [] => True | c :: _ => is_digit c = false end.
Abbreviation digits := (Forall (fun c => is_digit c = true)).
Definition digits_from (v : Z) (ds : list Z) : Z := fold_left (fun v c => v * 10 + c - 48) ds v.

Lemma digits_loop_at ds : forall fuel sp p0 p v s,
  digits ds -> stop s -> at_ sp p (ds ++ s) -> (length (ds ++ s) < fuel)%nat ->
  0 <= v -> (v + 1) * 10 ^ zlen ds <= 10 ^ 18 -> (ds = [] -> p0 <> p) -> p0 <= p ->
  string_get_digits_loop fuel sp p0 p v = Ret (Some (p + zlen ds, digits_from v ds)).
Proof.
  induction ds as [| d ds IH]; intros fuel sp p0 p v s Hd Hs A Hf Hv Hb Hne Hp;
    (destruct fuel as [| fuel]; [lia |]); cbn [string_get_digits_loop].
  - rewrite zlen_nil, Z.add_0_r. destruct s as [| c s].
    + rewrite (proj1 (at_end _ _ A)). done.
    + at_head A. cbn in Hs. rewrite Hs. destruct (Z.eqb_spec p p0); [| done].
      destruct Hne; done.
  - apply Forall_cons_iff in Hd as [Hd Hds]. cbn [app] in A. at_head A. rewrite Hd.
    apply is_digit_spec in Hd. rewrite zlen_cons, Z.pow_add_r in Hb by zlen_lia.
    assert (0 < 10 ^ zlen ds) by (apply Z.pow_pos_nonneg; zlen_lia).
    assert (v < 10 ^ 17) by nia.
    rewrite !int64_ok by lia. cbn [mbind res_bind]. rewrite int64_ok by lia. cbn [mbind res_bind].
    rewrite (IH fuel sp p0 (p + 1) (v * 10 + d - 48) s); try done.
    + rewrite zlen_cons. do 3 f_equal. lia.
    + exact (at_next _ _ _ _ A).
    + cbn in Hf. lia.
    + lia.
    + nia.
    + lia.
    + lia.
Qed.

Lemma get_digits_at sp p ds s : digits ds -> stop s -> 1 <= zlen ds <= 17 -> at_ sp p (ds ++ s) ->
  string_get_digits sp p = Ret (Some (p + zlen ds, digits_val ds)).
Proof.
  intros Hd Hs Hl A. unfold string_get_digits.
  rewrite (rest_fuel _ _ _ A).
  destruct ds as [| d ds]; [rewrite zlen_nil in Hl; lia |].
  rewrite (proj2 (at_lt _ _ _ _ A)).
  apply (digits_loop_at (d :: ds) _ _ _ _ _ s); try done; try lia.
  assert (10 ^ zlen (d :: ds) <= 10 ^ 17) by (apply Z.pow_le_mono_r; lia). lia.
Qed.

(** A sign and the value it gives. *)
Definition signed (sign : list Z) (v : Z) : Z := match sign with 45 :: _ => - v | _ => v end.

Lemma get_signed_at sp p sign ds s :
  sign = [] \/ sign = [45] \/ sign = [43] ->
  digits ds -> 1 <= zlen ds <= 17 -> at_ sp p (sign ++ ds ++ s) -> stop s ->
  string_get_signed_digits sp p = Ret (Some (p + zlen sign + zlen ds, signed sign (digits_val ds))).
Proof.
  intros Hsign Hd Hl A Hs. unfold string_get_signed_digits.
  destruct Hsign as [-> | [-> | ->]].
  - cbn [app] in A. rewrite zlen_nil, Z.add_0_r.
    destruct ds as [| d ds]; [rewrite zlen_nil in Hl; lia |].
    assert (A' := A). cbn [app] in A'. at_head A'.
    assert (is_digit d = true) as Hdd%is_digit_spec by (by apply Forall_cons_iff in Hd as [? ?]).
    destruct (Z.eqb_spec d 45), (Z.eqb_spec d 43); try lia. cbn [orb].
    rewrite (get_digits_at _ _ (d :: ds) s) by done. reflexivity.
  - cbn [app] in A. at_head A. cbn [Z.eqb Pos.eqb orb].
    rewrite (get_digits_at _ _ ds s) by (done || exact (at_next _ _ _ _ A)). reflexivity.
  - cbn [app] in A. at_head A. cbn [Z.eqb Pos.eqb orb].
    rewrite (get_digits_at _ _ ds s) by (done || exact (at_next _ _ _ _ A)). reflexivity.
Qed.

Lemma two_digits ds : digits ds -> zlen ds = 2 ->
  exists a b, ds = [a; b] /\ is_digit a = true /\ is_digit b = true.
Proof.
  intros Hd Hl. destruct ds as [| a [| b [| ? ?]]]; try (unfold zlen in Hl; cbn in Hl; lia).
  exists a, b. repeat (apply Forall_cons_iff in Hd as [? Hd]). done.
Qed.

Lemma get_fixed2_at sp p ds s : digits ds -> zlen ds = 2 -> at_ sp p (ds ++ s) ->
  string_get_fixed_width_digits sp p 2 0 = Ret (Some (p + 2, digits_val ds)).
Proof.
  intros Hd Hl A. destruct (two_digits ds Hd Hl) as (a & b & -> & Ha & Hb). cbn [app] in A.
  cbn [string_get_fixed_width_digits]. at_head A. rewrite Ha.
  apply at_next in A. at_head A. rewrite Hb. do 3 f_equal. lia.
Qed.

Lemma get_milliseconds_at sp p ds s : digits ds -> zlen ds = 3 -> stop s -> at_ sp p (ds ++ s) ->
  string_get_milliseconds sp p = Ret (Some (p + 3, digits_val ds)).
Proof.
  intros Hd Hl Hs A. unfold string_get_milliseconds. rewrite (rest_fuel _ _ _ A).
  destruct ds as [| a [| b [| c [| ? ?]]]]; try (unfold zlen in Hl; cbn in Hl; lia).
  repeat (apply Forall_cons_iff in Hd as [? Hd]).
  cbn [app length string_get_milliseconds_loop] in *.
  at_head A. rewrite H. apply at_next in A. at_head A. rewrite H0.
  apply at_next in A. at_head A. rewrite H1. cbn [Z.eqb andb]. change (Z.quot 1000 10) with 100.
  change (Z.quot 100 10) with 10. change (Z.quot 10 10) with 1. cbn [Z.eqb andb Pos.eqb].
  apply at_next in A.
  assert (0 + (a - 48) * 100 + (b - 48) * 10 + (c - 48) * 1 = digits_val [a; b; c]) as E
    by (unfold digits_val; cbn [fold_left]; lia).
  rewrite E. replace (p + 1 + 1 + 1) with (p + 3) in * by lia.
  destruct s as [| d s]; cbn [length string_get_milliseconds_loop].
  - by rewrite (proj1 (at_end _ _ A)).
  - at_head A. cbn in Hs. rewrite Hs. destruct (Z.eqb_spec (p + 3) p); [lia | done].
Qed.

(** ** Words *)
Definition no_space (s : list Z) : Prop := match s with [] => True | c :: _ => c <> 32 end.

Lemma skip_spaces_at k : forall fuel sp p s, no_space s -> at_ sp p (replicate k 32%Z ++ s) ->
  (length (replicate k 32%Z ++ s) < fuel)%nat ->
  string_skip_spaces_loop fuel sp p = Ret (p + Z.of_nat k).
Proof.
  induction k as [| k IH]; intros fuel sp p s Hs A Hf;
    (destruct fuel as [| fuel]; [lia |]); cbn [string_skip_spaces_loop replicate app] in *.
  - rewrite Z.add_0_r. destruct s as [| c s]; [by rewrite (proj1 (at_end _ _ A)) |].
    at_head A. cbn in Hs. destruct (Z.eqb_spec c 32); done.
  - at_head A. cbn [Z.eqb Pos.eqb]. rewrite (IH fuel sp (p + 1) s Hs (at_next _ _ _ _ A)).
    + f_equal. lia.
    + cbn in Hf. lia.
Qed.

Lemma skip_space sp p s : no_space s -> at_ sp p (32%Z :: s) -> string_skip_spaces sp p = Ret (p + 1).
Proof.
  intros Hs A. unfold string_skip_spaces. rewrite (rest_fuel _ _ _ A).
  apply (skip_spaces_at 1 _ _ _ s Hs A). cbn. lia.
Qed.

Lemma skip_no_space sp p s : no_space s -> at_ sp p s -> string_skip_spaces sp p = Ret p.
Proof.
  intros Hs A. unfold string_skip_spaces. rewrite (rest_fuel _ _ _ A).
  rewrite (skip_spaces_at 0 _ _ _ s Hs A) by (cbn; lia). f_equal. lia.
Qed.

Lemma skip_word ds : forall fuel sp p s, Forall (fun c => c <> 32) ds -> at_ sp p (ds ++ 32%Z :: s) ->
  (length (ds ++ 32%Z :: s) < fuel)%nat ->
  string_skip_non_spaces_loop fuel sp p = Ret (p + zlen ds).
Proof.
  induction ds as [| d ds IH]; intros fuel sp p s Hd A Hf;
    (destruct fuel as [| fuel]; [lia |]); cbn [string_skip_non_spaces_loop app] in *.
  - at_head A. cbn [Z.eqb Pos.eqb]. rewrite zlen_nil. f_equal. lia.
  - apply Forall_cons_iff in Hd as [Hd Hds]. at_head A. destruct (Z.eqb_spec d 32); [done |].
    rewrite (IH fuel sp (p + 1) s Hds (at_next _ _ _ _ A)).
    + rewrite zlen_cons. f_equal. lia.
    + cbn in Hf. lia.
Qed.

Lemma skip_word_at sp p ds s : Forall (fun c => c <> 32) ds -> at_ sp p (ds ++ 32%Z :: s) ->
  string_skip_non_spaces sp p = Ret (p + zlen ds).
Proof.
  intros Hd A. unfold string_skip_non_spaces. rewrite (rest_fuel _ _ _ A).
  apply (skip_word ds _ _ _ s Hd A). lia.
Qed.

(** ** Months *)
Lemma abbrev_at sp p a b c s n x y z : at_ sp p (a :: b :: c :: s) ->
  znth month_names (n * 3 + 0) = Some x -> znth month_names (n * 3 + 1) = Some y ->
  znth month_names (n * 3 + 2) = Some z ->
  abbrev_matches 3 sp p n 0 = Ret ((a =? x) && (b =? y) && (c =? z)).
Proof.
  intros A Hx Hy Hz. cbn [abbrev_matches]. change (0 + 1) with 1. change (1 + 1) with 2.
  rewrite !Z.add_0_r in *. rewrite (at_get _ _ _ _ A), Hx.
  cbn [mbind res_bind of_opt]. destruct (a =? x); [| done].
  apply at_next in A. rewrite (at_get _ _ _ _ A), Hy. cbn [mbind res_bind of_opt].
  destruct (b =? y); [| done].
  apply at_next in A. replace (p + 1 + 1) with (p + 2) in A by lia.
  rewrite (at_get _ _ _ _ A), Hz. cbn [mbind res_bind of_opt]. destruct (c =? z); done.
Qed.

(** The loop stops at the first month that matches; the names differ. *)
Lemma find_abbrev_loop_at sp p a b c s k : forall n i,
  at_ sp p (a :: b :: c :: s) -> 0 <= n -> n + Z.of_nat k = 12 -> n <= i < 12 ->
  (forall j, n <= j <= i -> bool_decide (name3 month_names j = [a; b; c]) = (j =? i)) ->
  find_abbrev_loop k sp p n = Ret i.
Proof.
  induction k as [| k IH]; intros n i A Hn Hk Hi Hj; [lia |]. cbn [find_abbrev_loop].
  destruct (read_name month_names n 12 eq_refl ltac:(lia)) as [_ L].
  assert (forall d, 0 <= d < 3 -> znth month_names (n * 3 + d) = znth (name3 month_names n) d) as Hz.
  { intros d Hd. unfold name3. rewrite znth_take, znth_drop by lia. f_equal. lia. }
  destruct (name3 month_names n) as [| x [| y [| z [| ? ?]]]] eqn:En; try (unfold zlen in L; cbn in L; lia).
  rewrite (abbrev_at sp p a b c s n x y z A (Hz 0 ltac:(lia)) (Hz 1 ltac:(lia)) (Hz 2 ltac:(lia))).
  cbn [mbind res_bind]. specialize (Hj n ltac:(lia)) as Hjn. rewrite En in Hjn.
  assert ((a =? x) && (b =? y) && (c =? z) = bool_decide ([x; y; z] = [a; b; c])) as ->.
  { apply eq_true_iff_eq. rewrite !andb_true_iff, !Z.eqb_eq, bool_decide_eq_true.
    split; [intros [[-> ->] ->]; done | intros [= -> -> ->]; done]. }
  rewrite Hjn. destruct (Z.eqb_spec n i) as [-> | Hne]; [done |].
  apply (IH (n + 1) i); try done; try lia. intros j ?. apply Hj. lia.
Qed.

Lemma month_names_differ : forall i, 0 <= i < 12 -> forall j, 0 <= j <= i ->
  bool_decide (name3 month_names j = name3 month_names i) = (j =? i).
Proof.
  intros i Hi j Hj.
  assert (forallb (fun i => forallb (fun j => Bool.eqb (bool_decide (name3 month_names (Z.of_nat j) = name3 month_names (Z.of_nat i)))
    (Z.of_nat j =? Z.of_nat i)) (seq 0 12)) (seq 0 12) = true) as E by (vm_compute; reflexivity).
  rewrite forallb_forall in E. specialize (E (Z.to_nat i) ltac:(apply in_seq; lia)).
  rewrite forallb_forall in E. specialize (E (Z.to_nat j) ltac:(apply in_seq; lia)).
  rewrite !Z2Nat.id in E by lia. by apply eqb_prop in E.
Qed.

Lemma find_abbrev_at sp p i s : 0 <= i < 12 -> at_ sp p (name3 month_names i ++ s) ->
  find_abbrev sp p 12 = Ret i.
Proof.
  intros Hi A. unfold find_abbrev.
  destruct (at_len _ _ _ A) as [El _].
  destruct (read_name month_names i 12 eq_refl Hi) as [_ L].
  destruct (Z.leb_spec (p + 3) (len sp)); [| zlen_lia].
  pose proof (month_names_differ i Hi) as Hd.
  destruct (name3 month_names i) as [| a [| b [| c [| ? ?]]]]; try (unfold zlen in L; cbn in L; lia).
  apply (find_abbrev_loop_at sp p a b c s); try done; lia.
Qed.

Lemma get_month_at sp p i s : 0 <= i < 12 -> at_ sp p (32%Z :: name3 month_names i ++ s) ->
  string_get_month sp p = Ret (Some (p + 4, i)).
Proof.
  intros Hi A. unfold string_get_month.
  rewrite (skip_space sp p (name3 month_names i ++ s)); [| | exact A].
  - cbn [mbind res_bind]. rewrite (find_abbrev_at sp (p + 1) i s Hi (at_next _ _ _ _ A)).
    cbn [mbind res_bind]. destruct (Z.ltb_spec i 0); [lia |]. do 3 f_equal. lia.
  - revert i Hi A. apply (month_cases (fun i => at_ sp p (32%Z :: name3 month_names i ++ s) ->
      no_space (name3 month_names i ++ s))).
    repeat constructor; done.
Qed.

(** The month when the cursor is already on it. *)
Lemma get_month_here sp p i s : 0 <= i < 12 -> at_ sp p (name3 month_names i ++ s) ->
  string_get_month sp p = Ret (Some (p + 3, i)).
Proof.
  intros Hi A. unfold string_get_month.
  rewrite (skip_no_space sp p (name3 month_names i ++ s)); [| | exact A].
  - cbn [mbind res_bind]. rewrite (find_abbrev_at sp p i s Hi A).
    cbn [mbind res_bind]. destruct (Z.ltb_spec i 0); [lia | done].
  - revert i Hi A. apply (month_cases (fun i => at_ sp p (name3 month_names i ++ s) ->
      no_space (name3 month_names i ++ s))).
    repeat constructor; done.
Qed.

(** ** The ISO format *)
Lemma iso_field_at k sp p i fields ds s v fields' :
  1 <= i < 6 -> digits ds -> 1 <= zlen ds <= 17 -> digits_val ds = v ->
  at_ sp p (iso_separator i :: ds ++ s) -> stop s -> zupd fields i v = Some fields' ->
  iso_fields (S k) sp p i fields = iso_fields k sp (p + 1 + zlen ds) (i + 1) fields'.
Proof.
  intros Hi Hd Hl Hv A Hs Hu. cbn [iso_fields]. at_head A. rewrite Z.eqb_refl.
  destruct (Z.eqb_spec i 6); [lia |].
  rewrite (get_digits_at _ _ ds s) by (done || exact (at_next _ _ _ _ A)).
  cbn [mbind res_bind]. by rewrite Hv, Hu.
Qed.

Lemma iso_last_field_at sp p fields ds s fields' :
  digits ds -> stop s -> zlen ds = 3 -> at_ sp p (46 :: ds ++ s) ->
  zupd fields 6 (digits_val ds) = Some fields' ->
  iso_fields 1 sp p 6 fields = Ret (Some (p + 1 + 3, 7, fields')).
Proof.
  intros Hd Hs Hl A Hu. cbn [iso_fields]. at_head A. cbn [iso_separator Z.eqb Pos.eqb].
  rewrite (get_milliseconds_at _ _ ds s) by (done || exact (at_next _ _ _ _ A)).
  cbn [mbind res_bind]. by rewrite Hu.
Qed.

(** The year of the ISO format. *)
Lemma iso_year_spec y : small 300000 y ->
  exists sign ds, (if (0 <=? y) && (y <=? 9999) then fmt_d false 4 y else fmt_d true 7 y) = sign ++ ds /\
    (sign = [] \/ sign = [45] \/ sign = [43]) /\ digits ds /\ 1 <= zlen ds <= 17 /\
    signed sign (digits_val ds) = y.
Proof.
  intros Hy. assert (Hy' := Hy). unfold small in Hy'.
  destruct ((0 <=? y) && (y <=? 9999)) eqn:E.
  - apply andb_true_iff in E as [E1%Z.leb_le E2%Z.leb_le].
    pose proof (fmt_d_zlen false 4 y Hy) as L.
    destruct (fmt_d_spec false 4 y 6) as (sg & ds & Ef & -> & V & D & L1 & _); [lia | lia | cbn; lia |].
    destruct (Z.ltb_spec y 0); [lia |]. rewrite Ef in L. exists [], ds. rewrite Ef.
    split_and!; try done; [by left | zlen_lia | cbn; lia].
  - pose proof (fmt_d_zlen true 7 y Hy) as L.
    destruct (fmt_d_spec true 7 y 6) as (sg & ds & Ef & -> & V & D & L1 & _); [lia | lia | cbn; lia |].
    rewrite Ef in *. destruct (Z.ltb_spec y 0).
    + exists [45], ds. split_and!; try done; [by right; left | zlen_lia | cbn; lia].
    + exists [43], ds. split_and!; try done; [by right; right | zlen_lia | cbn; lia].
Qed.

Definition iso_string (f : date_ints) : list Z := date_text 2 3 f ++ time_text 2 f.

Lemma parse_iso_at w f : ints_ok f ->
  parse_iso (mkString w (iso_string f)) =
  Ret (Some ([di_y f; di_mon f; di_d f; di_h f; di_m f; di_s f; di_ms f], 0, false)).
Proof.
  intros (Hy & Hmon & Hd & Hh & Hm & Hs & Hms & _ & _).
  destruct (iso_year_spec _ Hy) as (sign & ds & Ey & Hsign & Dy & Ly & Vy).
  destruct (d2_spec (di_mon f + 1)) as (Vmon & Dmon & Lmon); [lia |].
  destruct (d2_spec (di_d f)) as (Vd & Dd & Ld); [lia |].
  destruct (d2_spec (di_h f)) as (Vh & Dh & Lh); [lia |].
  destruct (d2_spec (di_m f)) as (Vm & Dm & Lm); [lia |].
  destruct (d2_spec (di_s f)) as (Vs & Ds & Ls); [lia |].
  destruct (d3_spec (di_ms f)) as (Vms & Dms & Lms); [lia |].
  set (sp := mkString w (iso_string f)).
  pose proof (at_start w (iso_string f)) as A. fold sp in A.
  unfold iso_string, date_text, time_text, clock_text in A. rewrite Ey in A.
  change (ascii_codes "-") with [45] in A. change (ascii_codes "T") with [84] in A.
  change (ascii_codes ":") with [58] in A. change (ascii_codes ".") with [46] in A.
  change (ascii_codes "Z") with [90] in A.
  rewrite <- !app_assoc in A. cbn [app] in A.
  unfold parse_iso. rewrite (get_signed_at _ _ _ _ _ Hsign Dy Ly A eq_refl).
  cbn [mbind res_bind of_opt]. rewrite Vy.
  apply at_app in A. apply at_app in A.
  change (zupd parse_fields0 0 (di_y f)) with (Some [di_y f; 1; 1; 0; 0; 0; 0]). cbn [of_opt mbind res_bind].
  erewrite (iso_field_at 5 _ _ 1 _ _ _ _ _ ltac:(lia) Dmon ltac:(lia) Vmon A eq_refl); [| reflexivity].
  apply at_next, at_app in A.
  erewrite (iso_field_at 4 _ _ 2 _ _ _ _ _ ltac:(lia) Dd ltac:(lia) Vd A eq_refl); [| reflexivity].
  apply at_next, at_app in A.
  erewrite (iso_field_at 3 _ _ 3 _ _ _ _ _ ltac:(lia) Dh ltac:(lia) Vh A eq_refl); [| reflexivity].
  apply at_next, at_app in A.
  erewrite (iso_field_at 2 _ _ 4 _ _ _ _ _ ltac:(lia) Dm ltac:(lia) Vm A eq_refl); [| reflexivity].
  apply at_next, at_app in A.
  erewrite (iso_field_at 1 _ _ 5 _ _ _ _ _ ltac:(lia) Ds ltac:(lia) Vs A eq_refl); [| reflexivity].
  apply at_next, at_app in A.
  erewrite (iso_last_field_at _ _ _ _ [90] _ Dms eq_refl Lms A); [| reflexivity].
  apply at_next, at_app in A. rewrite Lms in A. rewrite Vms. cbn [mbind res_bind].
  match goal with |- context [znth ?F 1] =>
    change F with [di_y f; di_mon f + 1; di_d f; di_h f; di_m f; di_s f; di_ms f] end.
  change (znth _ 1) with (Some (di_mon f + 1)). cbn [of_opt mbind res_bind].
  replace (di_mon f + 1 - 1) with (di_mon f) by lia.
  change (zupd _ 1 (di_mon f)) with (Some [di_y f; di_mon f; di_d f; di_h f; di_m f; di_s f; di_ms f]).
  cbn [of_opt mbind res_bind]. at_head A.
  unfold iso_time_zone. at_head A. cbn [Z.eqb Pos.eqb orb].
  apply at_next in A. destruct (at_end _ _ A) as (_ & _ & ->). rewrite Z.eqb_refl. reflexivity.
Qed.

(** ** The toString and toUTCString formats *)
Lemma year4_spec y : small 300000 y ->
  exists sign ds, year4 y = sign ++ ds /\ (sign = [] \/ sign = [45] \/ sign = [43]) /\ digits ds /\
    1 <= zlen ds <= 17 /\ signed sign (digits_val ds) = y /\ no_space (sign ++ ds).
Proof.
  intros Hy. assert (Hy' := Hy). unfold small in Hy'. pose proof (year4_zlen y Hy) as L.
  unfold year4 in *. set (w := 4 + (if y <? 0 then 1 else 0)) in *.
  destruct (fmt_d_spec false w y 6) as (sg & ds & Ef & -> & V & D & L1 & _); [lia | lia | cbn; lia |].
  rewrite Ef in *. destruct (Z.ltb_spec y 0).
  - exists [45], ds. split_and!; try done; [by right; left | zlen_lia | cbn; lia].
  - exists [], ds. split_and!; try done; [by left | zlen_lia | cbn; lia |].
    destruct ds as [| d ds]; [done |]. apply Forall_cons_iff in D as [D%is_digit_spec _]. cbn. lia.
Qed.

Lemma clock_at sp p f y mon d s : ints_ok f -> stop s -> at_ sp p (clock_text f ++ s) ->
  clock_fields 3 sp p 0 [y; mon; d; 0; 0; 0; 0] =
  Ret (Some (p + 8, [y; mon; d; di_h f; di_m f; di_s f; 0])).
Proof.
  intros (_ & _ & _ & Hh & Hm & Hs & _) St A.
  destruct (d2_spec (di_h f)) as (Vh & Dh & Lh); [lia |].
  destruct (d2_spec (di_m f)) as (Vm & Dm & Lm); [lia |].
  destruct (d2_spec (di_s f)) as (Vs & Ds & Ls); [lia |].
  unfold clock_text in A. change (ascii_codes ":") with [58] in A.
  rewrite <- !app_assoc in A. cbn [app] in A.
  cbn [clock_fields]. change (0 =? 1) with false. change (0 =? 2) with false.
  cbn [orb negb mbind res_bind].
  rewrite (get_digits_at sp p (d2 (di_h f)) (58 :: d2 (di_m f) ++ 58 :: d2 (di_s f) ++ s) Dh);
    [| done | lia | exact A].
  cbn [mbind res_bind]. rewrite Vh.
  change (zupd [y; mon; d; 0; 0; 0; 0] (3 + 0) (di_h f)) with (Some [y; mon; d; di_h f; 0; 0; 0]).
  cbn [of_opt mbind res_bind]. change (0 + 1 =? 1) with true. change (0 + 1) with 1.
  cbn [orb negb mbind res_bind].
  apply at_app in A. at_head A. cbn [Z.eqb Pos.eqb negb]. apply at_next in A.
  rewrite (get_digits_at _ _ (d2 (di_m f)) (58 :: d2 (di_s f) ++ s) Dm);
    [| done | lia | exact A].
  cbn [mbind res_bind]. rewrite Vm.
  change (zupd [y; mon; d; di_h f; 0; 0; 0] (3 + 1) (di_m f)) with (Some [y; mon; d; di_h f; di_m f; 0; 0]).
  cbn [of_opt mbind res_bind]. change (1 + 1) with 2. change (2 =? 1) with false. change (2 =? 2) with true.
  cbn [orb negb mbind res_bind].
  apply at_app in A. at_head A. cbn [Z.eqb Pos.eqb negb]. apply at_next in A.
  rewrite (get_digits_at _ _ (d2 (di_s f)) s Ds); [| done | lia | exact A].
  cbn [mbind res_bind]. rewrite Vs, Lh, Lm, Ls.
  change (zupd [y; mon; d; di_h f; di_m f; 0; 0] (3 + 2) (di_s f))
    with (Some [y; mon; d; di_h f; di_m f; di_s f; 0]).
  cbn [of_opt mbind res_bind]. do 3 f_equal. lia.
Qed.

Definition no_sign (c : Z) : Prop := c <> 43 /\ c <> 45.

(** The zone at the end of the text: nothing, or a sign and four digits. *)
Definition zone_suffix (tz : Z) (s : list Z) : Prop := (s = [] /\ tz = 0) \/ (s = zone_text tz /\ small 1500 tz).

Lemma text_time_zone_at u : forall fuel sp p tz s, Forall no_sign u -> zone_suffix tz s ->
  at_ sp p (u ++ s) -> (length u < fuel)%nat -> text_time_zone fuel sp p = Ret (Some tz).
Proof.
  induction u as [| c u IH]; intros fuel sp p tz s Hu Hz A Hf;
    (destruct fuel as [| fuel]; [lia |]); cbn [text_time_zone app] in *.
  - destruct Hz as [[-> ->] | [-> Htz]]; [by rewrite (proj1 (at_end _ _ A)) |].
    unfold zone_text, small in *.
    destruct (d2_spec (Z.abs tz / 60)) as (Vh & Dh & Lh); [zdiv_lia |].
    destruct (d2_spec (Z.abs tz mod 60)) as (Vm & Dm & Lm); [zdiv_lia |].
    set (sg := if tz <? 0 then 45 else 43).
    assert ((if tz <? 0 then [45] else [43]) = [sg]) as Es by (unfold sg; destruct (tz <? 0); done).
    rewrite Es in A. cbn [app] in A. at_head A.
    assert ((sg =? 43) || (sg =? 45) = true) as -> by (unfold sg; destruct (tz <? 0); done).
    apply at_next in A.
    rewrite (get_fixed2_at _ _ _ _ Dh Lh A). cbn [mbind res_bind].
    apply at_app in A. rewrite Lh in A. rewrite <- (app_nil_r (d2 (Z.abs tz mod 60))) in A.
    rewrite (get_fixed2_at _ _ _ _ Dm Lm A). cbn [mbind res_bind]. do 2 f_equal.
    unfold tz_minutes, sg. rewrite Vh, Vm. destruct (Z.ltb_spec tz 0); cbn [Z.eqb Pos.eqb]; zdiv_lia.
  - apply Forall_cons_iff in Hu as [[H1 H2] Hu]. at_head A.
    destruct (Z.eqb_spec c 43), (Z.eqb_spec c 45); try done. cbn [orb].
    apply (IH fuel sp (p + 1) tz s Hu Hz (at_next _ _ _ _ A)). cbn in Hf. lia.
Qed.

Lemma parse_year_time_at sp p f y0 tz s :
  ints_ok f -> zone_suffix tz s ->
  at_ sp p (32 :: year4 (di_y f) ++ 32 :: clock_text f ++ ascii " GMT" ++ s) ->
  parse_year_time sp p [y0; di_mon f; di_d f; 0; 0; 0; 0] =
  Ret (Some ([di_y f; di_mon f; di_d f; di_h f; di_m f; di_s f; 0], tz, false)).
Proof.
  intros Hf Hz A. assert (Hf' := Hf). destruct Hf' as (Hy & _ & _ & Hh & _).
  destruct (year4_spec _ Hy) as (sign & ds & Ey & Hsign & Dy & Ly & Vy & Sp).
  rewrite Ey in A. unfold parse_year_time. rewrite <- !app_assoc in A.
  rewrite (skip_space _ _ (sign ++ ds ++ 32%Z :: clock_text f ++ ascii_codes " GMT" ++ s)); [| | exact A].
  2: { destruct Hsign as [-> | [-> | ->]]; [| done..]. destruct ds as [| d ds]; [rewrite zlen_nil in Ly; lia |]. exact Sp. }
  cbn [mbind res_bind]. apply at_next in A.
  rewrite (get_signed_at _ _ _ _ _ Hsign Dy Ly A eq_refl). cbn [mbind res_bind]. rewrite Vy.
  change (zupd [y0; di_mon f; di_d f; 0; 0; 0; 0] 0 (di_y f)) with (Some [di_y f; di_mon f; di_d f; 0; 0; 0; 0]).
  cbn [of_opt mbind res_bind]. apply at_app, at_app in A.
  rewrite (skip_space _ _ (clock_text f ++ ascii_codes " GMT" ++ s)); [| | exact A].
  2: { unfold clock_text. destruct (d2_spec (di_h f)) as (_ & Dh & Lh); [lia |].
       destruct (two_digits _ Dh Lh) as (a & b & -> & Ha%is_digit_spec & _). cbn. lia. }
  cbn [mbind res_bind]. apply at_next in A.
  rewrite (clock_at _ _ _ _ _ _ (ascii_codes " GMT" ++ s) Hf eq_refl A). cbn [mbind res_bind].
  apply at_app in A.
  assert (zlen (clock_text f) = 8) as El.
  { destruct Hf as (_ & _ & _ & ? & ? & ? & _). unfold clock_text. text_zlen. reflexivity. }
  rewrite El in A. rewrite (rest_fuel _ _ _ A).
  rewrite (text_time_zone_at (ascii_codes " GMT") _ _ _ tz s); [reflexivity | | exact Hz | exact A |].
  - change (ascii_codes " GMT") with [32; 71; 77; 84]. unfold no_sign.
    repeat (apply Forall_cons_iff; split; [lia |]). done.
  - rewrite length_app. lia.
Qed.

(** A statement about a name of one of the tables, by cases. *)
Lemma day_name_cases (P : list Z -> bool) :
  forallb (fun i => P (name3 day_names (Z.of_nat i))) (seq 0 7) = true ->
  forall i, 0 <= i < 7 -> P (name3 day_names i) = true.
Proof.
  intros H i Hi. rewrite forallb_forall in H. specialize (H (Z.to_nat i) ltac:(apply in_seq; lia)).
  by rewrite Z2Nat.id in H by lia.
Qed.
Lemma month_name_cases (P : list Z -> bool) :
  forallb (fun i => P (name3 month_names (Z.of_nat i))) (seq 0 12) = true ->
  forall i, 0 <= i < 12 -> P (name3 month_names i) = true.
Proof.
  intros H i Hi. rewrite forallb_forall in H. specialize (H (Z.to_nat i) ltac:(apply in_seq; lia)).
  by rewrite Z2Nat.id in H by lia.
Qed.

Lemma day_name_word i : 0 <= i < 7 -> Forall (fun c => c <> 32) (name3 day_names i).
Proof.
  intros Hi. pose proof (day_name_cases (forallb (fun c => negb (c =? 32))) eq_refl i Hi) as H.
  rewrite forallb_forall in H. apply list.Forall_forall. intros c Hc%list_elem_of_In.
  specialize (H c Hc). destruct (Z.eqb_spec c 32); done.
Qed.

Lemma day_name_comma i : 0 <= i < 7 -> Forall (fun c => c <> 32) (name3 day_names i ++ [44]).
Proof.
  intros Hi. apply Forall_app. split; [by apply day_name_word |].
  apply Forall_cons_iff. split; [lia | done].
Qed.

Lemma day_name_letter i : 0 <= i < 7 -> exists c s, name3 day_names i = c :: s /\
  is_digit c = false /\ c <> 43 /\ c <> 45.
Proof.
  intros Hi.
  pose proof (day_name_cases (fun l => match l with c :: _ => 64 <=? c | [] => false end) eq_refl i Hi) as H.
  destruct (name3 day_names i) as [| c s]; [done |]. apply Z.leb_le in H. exists c, s.
  split; [done |]. split; [| lia]. apply not_true_iff_false. rewrite is_digit_spec. lia.
Qed.

Lemma month_name_letter i : 0 <= i < 12 -> exists c s, name3 month_names i = c :: s /\
  is_digit c = false /\ c <> 32.
Proof.
  intros Hi.
  pose proof (month_name_cases (fun l => match l with c :: _ => 64 <=? c | [] => false end) eq_refl i Hi) as H.
  destruct (name3 month_names i) as [| c s]; [done |]. apply Z.leb_le in H. exists c, s.
  split; [done |]. split; [| lia]. apply not_true_iff_false. rewrite is_digit_spec. lia.
Qed.

Lemma parse_utc_at w f : ints_ok f ->
  parse_text (mkString w (date_string 0x03 f)) =
  Ret (Some ([di_y f; di_mon f; di_d f; di_h f; di_m f; di_s f; 0], 0, false)).
Proof.
  intros Hf. assert (Hf' := Hf). destruct Hf' as (_ & Hmon & Hd & _ & _ & _ & _ & Hwd & _).
  destruct (d2_spec (di_d f)) as (Vd & Dd & Ld); [lia |].
  set (sp := mkString w (date_string 0x03 f)).
  assert (at_ sp 0 ((name3 day_names (di_wd f) ++ [44]) ++ 32 :: d2 (di_d f) ++
    32 :: name3 month_names (di_mon f) ++ 32 :: year4 (di_y f) ++ 32 :: clock_text f ++ ascii " GMT" ++ [])) as A.
  { pose proof (at_start w (date_string 0x03 f)) as A. fold sp in A.
    change (date_string 0x03 f) with (date_text 0 3 f ++ time_text 0 f) in A.
    unfold date_text, time_text in A.
    change (ascii_codes ", ") with [44; 32] in A. change (ascii_codes " ") with [32] in A.
    rewrite <- !app_assoc in A. cbn [app] in A.
    rewrite <- !app_assoc. cbn [app]. rewrite app_nil_r. exact A. }
  unfold parse_text.
  rewrite (skip_word_at _ _ _ _ (day_name_comma _ Hwd) A).
  cbn [mbind res_bind]. apply at_app in A.
  destruct (two_digits _ Dd Ld) as (a & b & Ed & Ha & Hb).
  assert (Ha' := Ha). apply is_digit_spec in Ha'.
  rewrite (skip_space _ _ (d2 (di_d f) ++ 32%Z :: name3 month_names (di_mon f) ++ 32%Z :: year4 (di_y f) ++
    32%Z :: clock_text f ++ ascii_codes " GMT" ++ [])); [| rewrite Ed; cbn; lia | exact A].
  cbn [mbind res_bind]. apply at_next in A.
  assert (A' := A). rewrite Ed in A'. cbn [app] in A'. unfold parse_day_month. at_head A'. rewrite Ha.
  rewrite (get_digits_at _ _ _ (32 :: name3 month_names (di_mon f) ++ 32 :: year4 (di_y f) ++
    32 :: clock_text f ++ ascii_codes " GMT" ++ []) Dd); [| done | lia | exact A].
  cbn [mbind res_bind]. rewrite Vd.
  change (zupd parse_fields0 2 (di_d f)) with (Some [0; 1; di_d f; 0; 0; 0; 0]). cbn [of_opt mbind res_bind].
  apply at_app in A. rewrite (get_month_at _ _ (di_mon f) _ ltac:(lia) A). cbn [mbind res_bind].
  change (zupd [0; 1; di_d f; 0; 0; 0; 0] 1 (di_mon f)) with (Some [0; di_mon f; di_d f; 0; 0; 0; 0]).
  cbn [of_opt mbind res_bind].
  destruct (read_name month_names (di_mon f) 12 eq_refl ltac:(lia)) as [_ Ln].
  apply at_next, at_app in A. rewrite Ln in A.
  match type of A with at_ _ ?q _ => match goal with |- parse_year_time _ ?p _ = _ => replace p with q by lia end end.
  apply (parse_year_time_at _ _ f 0 0 [] Hf); [by left | exact A].
Qed.

Lemma parse_local_at w f : ints_ok f ->
  parse_text (mkString w (date_string 0x13 f)) =
  Ret (Some ([di_y f; di_mon f; di_d f; di_h f; di_m f; di_s f; 0], di_tz f, false)).
Proof.
  intros Hf. assert (Hf' := Hf). destruct Hf' as (_ & Hmon & Hd & _ & _ & _ & _ & Hwd & Htz).
  destruct (d2_spec (di_d f)) as (Vd & Dd & Ld); [lia |].
  set (sp := mkString w (date_string 0x13 f)).
  set (year_time := 32 :: year4 (di_y f) ++ 32 :: clock_text f ++ ascii " GMT" ++ zone_text (di_tz f)).
  assert (at_ sp 0 (name3 day_names (di_wd f) ++ 32 :: name3 month_names (di_mon f) ++
    32 :: d2 (di_d f) ++ year_time)) as A.
  { pose proof (at_start w (date_string 0x13 f)) as A. fold sp in A.
    change (date_string 0x13 f) with (date_text 1 3 f ++ time_text 1 f) in A.
    unfold date_text, time_text in A.
    change (ascii_codes " ") with [32] in A. change (3 =? 3) with true in A.
    rewrite <- !app_assoc in A. cbn [app] in A.
    unfold year_time. rewrite <- ?app_assoc. exact A. }
  unfold parse_text. rewrite (skip_word_at _ _ _ _ (day_name_word _ Hwd) A).
  cbn [mbind res_bind]. apply at_app in A.
  destruct (month_name_letter (di_mon f)) as (c & u & En & Hc & Hc32); [lia |].
  rewrite (skip_space _ _ (name3 month_names (di_mon f) ++ 32%Z :: d2 (di_d f) ++ year_time));
    [| rewrite En; cbn; done | exact A].
  cbn [mbind res_bind]. apply at_next in A.
  assert (A' := A). rewrite En in A'. cbn [app] in A'. unfold parse_day_month. at_head A'. rewrite Hc.
  rewrite (get_month_here _ _ (di_mon f) _ ltac:(lia) A). cbn [mbind res_bind].
  change (zupd parse_fields0 1 (di_mon f)) with (Some [0; di_mon f; 1; 0; 0; 0; 0]). cbn [of_opt mbind res_bind].
  destruct (read_name month_names (di_mon f) 12 eq_refl ltac:(lia)) as [_ Ln].
  apply at_app in A. rewrite Ln in A.
  destruct (two_digits _ Dd Ld) as (a & b & Ed & Ha & Hb). apply is_digit_spec in Ha.
  rewrite (skip_space _ _ (d2 (di_d f) ++ year_time)); [| rewrite Ed; cbn; lia | exact A].
  cbn [mbind res_bind]. apply at_next in A.
  rewrite (get_digits_at _ _ _ year_time Dd); [| done | lia | exact A].
  cbn [mbind res_bind]. rewrite Vd.
  change (zupd [0; di_mon f; 1; 0; 0; 0; 0] 2 (di_d f)) with (Some [0; di_mon f; di_d f; 0; 0; 0; 0]).
  cbn [of_opt mbind res_bind]. apply at_app in A.
  apply (parse_year_time_at _ _ f 0 (di_tz f) (zone_text (di_tz f)) Hf); [by right | exact A].
Qed.
