(* ===== verification/DateObject.v ===== *)
(** * The promises of the Date object

    The getters return the date and time of day of the time value; setting the
    fields is the inverse of getting them, in UTC, and in local time when the zone
    has one offset at both times; no sequence of method calls with arguments
    below [field_limit] faults or leaves a value that is not a time value; and
    [Date.parse] reads the three standard formats back. *)
From Stdlib Require Import ZArith Lia Bool Ascii String.
From stdpp Require Import base numbers list.
From S2P Require Import Prelude Cutils JSValue Alloc Float64 Date DateText DateFacts DateTime DateFormat DateParse.

(** ** Getters *)

(** C21: every getter of a Date object with a time value in range, in UTC or in
    local time, returns its field of the one calendar date and time of day
    whose number of milliseconds since 1970 is the time value plus the offset
    of the zone; the year is [n = 0], the day of the week [n = 7]. *)
Theorem date_getters_correct `{LocalTime} t is_local (Ht : small max_time t) :
  let tz := local_offset is_local t in
  exists c, civil_ok c /\ civil_time c = t + tz * 60000 /\
    (forall c', civil_ok c' -> civil_time c' = t + tz * 60000 -> c' = c) /\
    forall n v, fields_of c (((t + tz * 60000) / 86400000 + 4) mod 7) tz !! n = Some v ->
      get_date_field (DateObj (dbl t)) (16 * Z.of_nat n + (if is_local then 1 else 0)) = Ret (JS_OK (dbl v)).
Proof.
  intros tz. destruct (get_date_fields_spec t is_local false Ht) as (c & Hc & Ec & Hy & E).
  fold tz in Ec, E. exists c. split_and!; [done | done | |].
  - intros c' Hc' Ec'. apply civil_time_inj; congruence.
  - intros n v Hn. set (wd := ((t + tz * 60000) / 86400000 + 4) mod 7) in *.
    assert (n < 9)%nat as Hn9 by exact (lookup_lt_Some _ _ _ Hn).
    unfold get_date_field. set (magic := 16 * Z.of_nat n + (if is_local then 1 else 0)).
    assert (Z.land magic 15 = (if is_local then 1 else 0) /\ Z.land (Z.shiftr magic 4) 15 = Z.of_nat n /\
            Z.land magic 256 = 0) as (-> & -> & ->).
    { unfold magic. do 9 (destruct n as [| n]; [destruct is_local; done |]). lia. }
    assert (negb ((if is_local then 1 else 0) =? 0) = is_local) as -> by (destruct is_local; done).
    rewrite E. cbn [mbind res_bind].
    set (l := fields_of c wd tz) in *.
    change (field (dbl <$> l) 0) with (Ret (dbl (c_year c))). cbn [mbind res_bind Z.eqb].
    change (zupd (dbl <$> l) 0 (dbl (c_year c))) with (Some (dbl <$> l)). cbn [of_opt mbind res_bind].
    unfold field. rewrite znth_nat, list_lookup_fmap, Hn. reflexivity.
Qed.

Definition end_of_2020 : Z := 1609459199999.
Lemma date_getters_correct_witness :
  small max_time end_of_2020 /\
  exists c, civil_ok c /\ civil_time c = end_of_2020 + 60 * 60000 /\
    (forall c', civil_ok c' -> civil_time c' = end_of_2020 + 60 * 60000 -> c' = c) /\
    forall n v, fields_of c (((end_of_2020 + 60 * 60000) / 86400000 + 4) mod 7) 60 !! n = Some v ->
      get_date_field (H := cet) (DateObj (dbl end_of_2020)) (16 * Z.of_nat n + 1) = Ret (JS_OK (dbl v)).
Proof.
  split.
  - unfold small, max_time, end_of_2020. lia.
  - apply (date_getters_correct (H := cet) end_of_2020 true). unfold small, max_time, end_of_2020. lia.
Defined.

(** ** The calendar *)

(** The day after a day: the calendar's definition. *)
Definition next_day (y i d : Z) : Z * Z * Z :=
  if d <? month_length y i then (y, i, d + 1)
  else if i <? 11 then (y, i + 1, 1)
  else (y + 1, 0, 1).

Definition next_civil (c : civil) : civil :=
  let '(y, i, d) := next_day (c_year c) (c_month c) (c_day c) in
  mkCivil y i d (c_hour c) (c_min c) (c_sec c) (c_ms c).

Lemma next_civil_spec c : civil_ok c ->
  civil_ok (next_civil c) /\ civil_time (next_civil c) = civil_time c + 86400000.
Proof.
  intros (Hi & Hd & Ht). unfold next_civil, next_day.
  pose proof (month_start_succ (c_year c) (c_month c) ltac:(lia)) as Hs.
  destruct (Z.ltb_spec (c_day c) (month_length (c_year c) (c_month c))).
  { unfold civil_ok, civil_time, day_number, time_in_day. cbn. lia. }
  destruct (Z.ltb_spec (c_month c) 11).
  - pose proof (month_length_bounds (c_year c) (c_month c + 1)).
    unfold civil_ok, civil_time, day_number, time_in_day. cbn. lia.
  - assert (c_month c = 11) as Em by lia. rewrite Em in *. change (11 + 1) with 12 in Hs.
    rewrite month_start_year in Hs. pose proof (year_start_succ (c_year c)).
    pose proof (month_length_bounds (c_year c + 1) 0).
    unfold civil_ok, civil_time, day_number, time_in_day. cbn [c_year c_month c_day c_hour c_min c_sec c_ms].
    change (month_start (c_year c + 1) 0) with 0. rewrite Em. lia.
Qed.

(** C20: the calendar: the first day is Thursday, January 1st, 1970, and one day
    later [get_date_fields] returns the next day of the Gregorian calendar,
    the next day of the week and the same time of day. *)
Theorem date_fields_calendar `{LocalTime} t c wd (Ht : small max_time t)
    (Ht' : small max_time (t + 86400000))
    (Hf : get_date_fields (DateObj (dbl t)) false false = Ret (GDF_fields (dbl <$> fields_of c wd 0))) :
  get_date_fields (DateObj (dbl 0)) false false =
    Ret (GDF_fields (dbl <$> fields_of (mkCivil 1970 0 1 0 0 0 0) 4 0)) /\
  get_date_fields (DateObj (dbl (t + 86400000))) false false =
    Ret (GDF_fields (dbl <$> fields_of (next_civil c) ((wd + 1) mod 7) 0)).
Proof.
  split; [vm_compute; reflexivity |].
  destruct (get_date_fields_spec t false false Ht) as (c1 & Hc1 & Ec1 & _ & E1).
  destruct (get_date_fields_spec (t + 86400000) false false Ht') as (c2 & Hc2 & Ec2 & _ & ->).
  cbn [local_offset] in *. rewrite Hf in E1. rewrite Z.mul_0_l, Z.add_0_r in *.
  injection E1 as Ey Em Ed Eh Emi Es Ems Ew.
  assert (c1 = c) as -> by (destruct c1, c; cbn in *; congruence).
  destruct (next_civil_spec c Hc1) as [Hn En].
  assert (next_civil c = c2) as -> by (apply civil_time_inj; [done | done | lia]).
  do 3 f_equal. f_equal. subst wd. zdiv_lia.
Qed.

(** 28 February 2024, noon. *)
Definition feb_28 : Z := 1709121600000.
Lemma date_fields_calendar_witness :
  get_date_fields (H := utc) (DateObj (dbl feb_28)) false false =
    Ret (GDF_fields (dbl <$> fields_of (mkCivil 2024 1 28 12 0 0 0) 3 0)) /\
  get_date_fields (H := utc) (DateObj (dbl 0)) false false =
    Ret (GDF_fields (dbl <$> fields_of (mkCivil 1970 0 1 0 0 0 0) 4 0)) /\
  get_date_fields (H := utc) (DateObj (dbl (feb_28 + 86400000))) false false =
    Ret (GDF_fields (dbl <$> fields_of (next_civil (mkCivil 2024 1 28 12 0 0 0)) ((3 + 1) mod 7) 0)).
Proof.
  split; [reflexivity |].
  apply (date_fields_calendar (H := utc) feb_28 (mkCivil 2024 1 28 12 0 0 0) 3);
    [unfold small, max_time, feb_28; lia.. | reflexivity].
Defined.

(** ** Setting the fields *)

(** MakeDate of the first seven fields. *)
Definition make_date_of (l : list Z) : Z :=
  match l with
  | f0 :: f1 :: f2 :: f3 :: f4 :: f5 :: f6 :: _ => make_date f0 f1 f2 f3 f4 f5 f6
  | _ => 0
  end.
Definition make_day_of (l : list Z) : Z :=
  match l with f0 :: f1 :: f2 :: _ => make_day f0 f1 f2 | _ => 0 end.

Lemma make_date_fields c wd tz : civil_ok c ->
  make_date_of (fields_of c wd tz) = civil_time c /\
  make_day_of (fields_of c wd tz) = day_number (c_year c) (c_month c) (c_day c).
Proof. intros Hc. split; [exact (civil_make_date c Hc) | exact (civil_make_day c Hc)]. Qed.

Lemma set_date_fields_list `{LocalTime} l : (7 <= length l)%nat -> Forall (small (10 ^ 9)) l ->
  F64.exact (make_day_of l * 86400000) -> F64.exact (make_date_of l) ->
  set_date_fields (dbl <$> l) false = Ret (clip (make_date_of l)).
Proof.
  intros Hl Hs Hd Ht. do 7 (destruct l as [| ? l]; [cbn in Hl; lia |]).
  repeat (apply Forall_cons_iff in Hs as [? Hs]).
  apply set_date_fields_spec; try done; unfold small in *; lia.
Qed.

(** How much the local time is behind UTC at a time. *)
Definition zone_shift `{LocalTime} (is_local : bool) (t : Z) : Z := if is_local then getTimezoneOffset t * 60000 else 0.

Lemma zone_shift_range `{LocalTime} is_local t : small (1500 * 60000) (zone_shift is_local t).
Proof. unfold zone_shift, small. pose proof (getTimezoneOffset_range t). destruct is_local; lia. Qed.

(** Setting the fields of a date: the offset is that of the local time. *)
Lemma set_civil_local `{LocalTime} c wd tz is_local : civil_ok c -> small (max_time + 10 ^ 8) (civil_time c) ->
  set_date_fields (dbl <$> fields_of c wd tz) is_local = Ret (clip (civil_time c + zone_shift is_local (civil_time c))).
Proof.
  intros Hc Hct. pose proof (getTimezoneOffset_range (civil_time c)) as Ho. unfold small, max_time in Hct.
  pose proof (civil_year_bounds c Hc Hct) as Hy.
  pose proof (civil_make_date c Hc) as Em. pose proof (civil_make_day c Hc) as Ed.
  pose proof (time_in_day_range c Hc) as Hr.
  destruct (Hc) as (Hi & Hd1 & Hh & Hmi & Hse & Hms).
  pose proof (month_length_bounds (c_year c) (c_month c)).
  unfold small, max_time in *. unfold fields_of.
  assert (day_number (c_year c) (c_month c) (c_day c) * 86400000 = civil_time c - time_in_day c) as Edn
    by (unfold civil_time; lia).
  rewrite set_date_fields_eq; unfold small; try lia.
  2: { unfold make_day in *. rewrite Z.div_small, Z.mod_small, Z.add_0_r in * by lia.
       unfold day_number in *. lia. }
  rewrite Ed. change (make_time _ _ _ _) with (time_in_day c). cbv zeta.
  assert (F64.add (F64.mul (dbl (day_number (c_year c) (c_month c) (c_day c))) (dbl 86400000))
            (dbl (time_in_day c)) = Finite (civil_time c) 0) as ->.
  { unfold dbl. rewrite F64.mul_exact by exact_lia. rewrite F64.add_exact by exact_lia. f_equal; lia. }
  unfold zone_shift. destruct is_local; cbn [mbind res_bind].
  - rewrite F64.to_int_exact by lia. cbn [mbind res_bind].
    rewrite int32_ok by lia. cbn [mbind res_bind].
    rewrite F64.of_int64_exact, F64.add_exact by exact_lia. f_equal. apply time_clip_dbl.
  - rewrite Z.add_0_r. f_equal. apply time_clip_dbl.
Qed.

Lemma clip_small z : small max_time z -> clip z = dbl z.
Proof. unfold small, clip. intros Hz. destruct (Z.leb_spec (Z.abs z) max_time); [done | lia]. Qed.

(** C17: getting and setting the fields.  The local time of [t] is
    [t - zone_shift t] (in UTC the shift is 0).  Setting the fields that were got
    from [t] gives the local time plus its own shift; setting the fields of a
    calendar date, such that the result [u] is in range, and getting them again
    gives the date of the local time of [u].  So the two are inverse to each other
    in UTC, and in local time exactly where the zone has the same offset at the
    two times: the code takes the offset of a local time as if it were UTC, and
    close to a change of the offset the result is off by the difference. *)
Theorem date_fields_roundtrip `{LocalTime} is_local :
  (forall t, small max_time t -> let local := t - zone_shift is_local t in
     exists fields, get_date_fields (DateObj (dbl t)) is_local false = Ret (GDF_fields fields) /\
       set_date_fields fields is_local = Ret (clip (local + zone_shift is_local local)) /\
       (zone_shift is_local local = zone_shift is_local t <-> set_date_fields fields is_local = Ret (dbl t))) /\
  (forall c, civil_ok c -> let u := civil_time c + zone_shift is_local (civil_time c) in small max_time u ->
     set_date_fields (dbl <$> fields_of c 0 0) is_local = Ret (dbl u) /\
     exists c' wd tz, civil_ok c' /\ civil_time c' = u - zone_shift is_local u /\
       get_date_fields (DateObj (dbl u)) is_local false = Ret (GDF_fields (dbl <$> fields_of c' wd tz)) /\
       (zone_shift is_local u = zone_shift is_local (civil_time c) <-> c' = c)) /\
  (is_local = false -> forall t, zone_shift is_local t = 0).
Proof.
  split; [| split; [| by intros ->]].
  - intros t Ht local. assert (local = t - zone_shift is_local t) as Hloc by done. clearbody local. destruct (get_date_fields_spec t is_local false Ht) as (c & Hc & Ec & Hy & ->).
    pose proof (zone_shift_range is_local t) as Hz.
    assert (civil_time c = local) as El by (rewrite Hloc; unfold zone_shift; destruct is_local; cbn [local_offset] in Ec; lia).
    assert (small (max_time + 10 ^ 8) (civil_time c)) as Hct by (unfold small in *; lia).
    eexists. split; [done |]. rewrite set_civil_local, El by done. split; [done |]. split.
    + intros E. rewrite clip_small; [do 2 f_equal; lia |]. unfold small in *. lia.
    + unfold clip. destruct (Z.abs _ <=? max_time); [| done]. intros [= E]. lia.
  - intros c Hc u Hu. pose proof (zone_shift_range is_local (civil_time c)) as Hz.
    assert (small (max_time + 10 ^ 8) (civil_time c)) as Hct by (unfold small, u in *; lia).
    rewrite set_civil_local by done. fold u. rewrite clip_small by done. split; [done |].
    destruct (get_date_fields_spec u is_local false Hu) as (c' & Hc' & Ec' & _ & ->).
    assert (civil_time c' = u - zone_shift is_local u) as El by (unfold zone_shift; destruct is_local; cbn [local_offset] in Ec'; lia).
    exists c', (((u + local_offset is_local u * 60000) / 86400000 + 4) mod 7), (local_offset is_local u).
    split_and!; try done. split.
    + intros E. apply civil_time_inj; [done | done |]. unfold u in *. lia.
    + intros ->. unfold u in *. lia.
Qed.

Lemma date_fields_roundtrip_witness :
  civil_ok (mkCivil 2024 1 28 13 0 0 0) /\
  set_date_fields (H := cet) (dbl <$> fields_of (mkCivil 2024 1 28 13 0 0 0) 0 0) true = Ret (dbl feb_28) /\
  exists c' wd tz, civil_ok c' /\ civil_time c' = feb_28 - zone_shift (H := cet) true feb_28 /\
    get_date_fields (H := cet) (DateObj (dbl feb_28)) true false = Ret (GDF_fields (dbl <$> fields_of c' wd tz)) /\
    (zone_shift (H := cet) true feb_28 = zone_shift (H := cet) true (civil_time (mkCivil 2024 1 28 13 0 0 0)) <->
     c' = mkCivil 2024 1 28 13 0 0 0).
Proof.
  assert (civil_ok (mkCivil 2024 1 28 13 0 0 0)) as Hc by (vm_compute; repeat split; discriminate).
  split; [exact Hc |].
  apply (proj1 (proj2 (date_fields_roundtrip (H := cet) true)) (mkCivil 2024 1 28 13 0 0 0) Hc).
  vm_compute. split; discriminate.
Defined.

(** ** Setters *)

(** An argument that is an integer. *)
Definition plain (v : Z) : JSArg := fun this => (this, Some (dbl v)).

(** [vs] replaces the elements of [l] from index [i]. *)
Definition splice (l : list Z) (i : nat) (vs : list Z) : list Z :=
  take i l ++ vs ++ drop (i + length vs) l.

Lemma splice_cons l i v vs : (i < length l)%nat -> splice (<[i := v]> l) (S i) vs = splice l i (v :: vs).
Proof.
  intros Hi. unfold splice. rewrite (take_S_r _ i v) by (apply list_lookup_insert_eq; done).
  rewrite take_insert_ge by lia. rewrite drop_insert_lt by lia.
  cbn [length]. rewrite <- app_assoc. cbn [app]. do 3 f_equal. f_equal. lia.
Qed.

Lemma length_splice l i vs : (i + length vs <= length l)%nat -> length (splice l i vs) = length l.
Proof. intros. unfold splice. rewrite !length_app, length_take, length_drop. lia. Qed.

Lemma set_fields_plain vs : forall l i this, (i + length vs <= length l)%nat ->
  set_fields (length vs) (plain <$> vs) this (Z.of_nat i) (dbl <$> l) =
  Ret (this, SF_fields (dbl <$> splice l i vs)).
Proof.
  induction vs as [| v vs IH]; intros l i this Hi.
  - unfold splice. cbn [fmap list_fmap length set_fields app].
    rewrite Nat.add_0_r, take_drop. done.
  - cbn [length fmap list_fmap set_fields] in *. unfold plain at 1. cbn [F64.isfinite dbl].
    change (F64.trunc (dbl v)) with (F64.trunc (Finite v 0)). rewrite F64.trunc_exact.
    assert (zupd (dbl <$> l) (Z.of_nat i) (Finite v 0) = Some (dbl <$> <[i := v]> l)) as ->.
    { apply zupd_Some. unfold zlen. rewrite length_fmap. split; [lia |].
      rewrite Nat2Z.id, list_fmap_insert. done. }
    cbn [of_opt mbind res_bind]. replace (Z.of_nat i + 1) with (Z.of_nat (S i)) by lia.
    rewrite IH by (rewrite length_insert; lia). by rewrite splice_cons by lia.
Qed.

(** C22: a UTC setter called with integers replaces its fields of the date, in
    order, and sets the time value to TimeClip(MakeDate(...)) of the result. *)
Theorem set_utc_field_correct `{LocalTime} c vs magic
    (first := Z.land (Z.shiftr magic 8) 15) (last := Z.land (Z.shiftr magic 4) 15)
    (fields := splice (fields_of c ((civil_time c / 86400000 + 4) mod 7) 0) (Z.to_nat first) vs)
    (Hc : civil_ok c) (Ht : small max_time (civil_time c))
    (Hutc : Z.land magic 15 = 0) (Hlast : 0 <= first < last /\ last <= 7)
    (Hvs : 0 < zlen vs <= last - first) (Hsmall : Forall (small (10 ^ 9)) vs)
    (Hday : F64.exact (make_day_of fields * 86400000)) (Htime : F64.exact (make_date_of fields)) :
  set_date_field (DateObj (dbl (civil_time c))) (plain <$> vs) magic =
  Ret (DateObj (clip (make_date_of fields)), JS_OK (clip (make_date_of fields))).
Proof.
  destruct (get_date_fields_spec (civil_time c) false (first =? 0) Ht) as (c' & Hc' & Ec' & Hy & E).
  cbn [local_offset] in *. rewrite Z.mul_0_l, Z.add_0_r in *.
  rewrite (civil_time_inj c' c Hc' Hc Ec') in *. clear c' Hc' Ec'.
  set (wd := (civil_time c / 86400000 + 4) mod 7) in *.
  unfold set_date_field. fold first last. rewrite Hutc. cbn [Z.eqb negb]. rewrite E. cbn [mbind res_bind].
  assert (zlen (plain <$> vs) = zlen vs) as -> by (unfold zlen; by rewrite length_fmap).
  destruct (Z.ltb_spec 0 (zlen vs)); [| lia]. rewrite Z.min_l, to_nat_zlen by lia.
  assert (Z.to_nat first + length vs <= length (fields_of c wd 0))%nat as Hlen
    by (unfold zlen in *; cbn [length fields_of]; lia).
  replace first with (Z.of_nat (Z.to_nat first)) at 1 by lia.
  rewrite set_fields_plain by exact Hlen. cbn [mbind res_bind]. fold fields.
  rewrite set_date_fields_list; [reflexivity | | | exact Hday | exact Htime].
  - unfold fields. rewrite length_splice by exact Hlen. cbn. lia.
  - unfold fields, splice.
    assert (Forall (small (10 ^ 9)) (fields_of c wd 0)) as Hf.
    { eapply list.Forall_impl; [apply (fields_of_small c wd 0 Hc) |].
      - unfold small in *. lia.
      - apply Z.mod_pos_bound. lia.
      - unfold small. lia.
      - unfold small. lia. }
    apply Forall_app. split; [by apply Forall_take |].
    apply Forall_app. split; [exact Hsmall | by apply Forall_drop].
Qed.

(** [setUTCMonth(13, 31)] on 28 February 2024. *)
Lemma set_utc_field_correct_witness :
  let c := mkCivil 2024 1 28 12 0 0 0 in
  civil_time c = feb_28 /\
  set_date_field (H := utc) (DateObj (dbl (civil_time c))) (plain <$> [13; 31]) 0x130 =
  Ret (DateObj (dbl 1741003200000), JS_OK (dbl 1741003200000)).
Proof.
  split; [reflexivity |].
  apply (set_utc_field_correct (H := utc) (mkCivil 2024 1 28 12 0 0 0) [13; 31] 0x130).
  - vm_compute. repeat split; discriminate.
  - vm_compute. split; discriminate.
  - reflexivity.
  - vm_compute. repeat split; discriminate.
  - vm_compute. repeat split; discriminate.
  - repeat constructor; vm_compute; discriminate.
  - vm_compute. repeat split; discriminate.
  - vm_compute. repeat split; discriminate.
Defined.

(** ** Sequences of method calls *)

(** Converting an argument keeps the value a time value and, when it gives a
    number, one within the limit. *)
Definition good_arg (limit : option Z) (a : JSArg) : Prop :=
  forall v, time_value v -> exists v' r, a (DateObj v) = (DateObj v', r) /\ time_value v' /\
    forall x, r = Some x -> limited_arg limit x.

(** The limit of the argument [i] of a method: there is one for the numbers that
    become fields. *)
Definition arg_limit (m : date_method) (i : nat) : option Z :=
  match m with
  | DM_set_field magic => field_limit (negb (Z.land magic 15 =? 0)) (Z.land (Z.shiftr magic 8) 15 + Z.of_nat i)
  | DM_setYear => field_limit true 0
  | _ => None
  end.

Definition good_args (m : date_method) (args : list JSArg) : Prop :=
  forall i a, args !! i = Some a -> good_arg (arg_limit m i) a.

Definition safe_result {A} (r : res (this_val * A)) : Prop :=
  exists v' x, r = Ret (DateObj v', x) /\ time_value v'.

Section run.
Context `{LocalTime}.

Lemma limited_trunc limit x : limited_arg limit x -> F64.isfinite x = true -> limited_field limit (F64.trunc x).
Proof.
  unfold limited_arg. destruct x as [| | m e]; try done. intros Hb _. cbn in *. by eexists.
Qed.

Lemma fields_ok_set is_local fields i x f' :
  fields_ok is_local fields -> limited_field (field_limit is_local i) x -> zupd fields i x = Some f' -> fields_ok is_local f'.
Proof.
  intros [Hl Hf] Hx E. split; [apply zupd_Some in E as [_ ->]; by rewrite length_insert |].
  intros j y Hy. rewrite (znth_zupd _ _ j _ _ E) in Hy. case_decide as D; [subst j; by injection Hy as <- | by apply Hf].
Qed.

Lemma set_fields_safe is_local n : forall args v i fields,
  (n <= length args)%nat -> 0 <= i -> i + Z.of_nat n <= 9 -> time_value v -> fields_ok is_local fields ->
  (forall j a, args !! j = Some a -> good_arg (field_limit is_local (i + Z.of_nat j)) a) ->
  exists v' r, set_fields n args (DateObj v) i fields = Ret (DateObj v', r) /\ time_value v' /\
    forall fields', r = SF_fields fields' -> fields_ok is_local fields'.
Proof.
  induction n as [| n IH]; intros args v i fields Hn Hi Hin Hv Hf Ha.
  - exists v, (SF_fields fields). split_and!; [by destruct args | done | by intros ? [= <-]].
  - destruct args as [| a args]; [cbn in Hn; lia |]. cbn [set_fields].
    destruct (Ha 0%nat a eq_refl v Hv) as (v1 & r & -> & Hv1 & Hr). rewrite Z.add_0_r in Hr.
    destruct r as [x |]; [| by exists v1, SF_throw].
    destruct (F64.isfinite x) eqn:Ef; [| by exists v1, SF_done].
    pose proof (limited_trunc _ x (Hr x eq_refl) Ef) as Hx.
    destruct (zupd_is_Some fields i (F64.trunc x)) as [f' Ef'].
    { destruct Hf as [Hl _]. unfold zlen. lia. }
    rewrite Ef'. cbn [of_opt mbind res_bind].
    apply IH; try done; [cbn in Hn; lia | lia | lia | exact (fields_ok_set _ _ _ _ _ Hf Hx Ef') |].
    intros j b Hb. replace (i + 1 + Z.of_nat j) with (i + Z.of_nat (S j)) by lia. by apply Ha.
Qed.

Lemma set_date_field_safe v args magic :
  Z.land (Z.shiftr magic 8) 15 + 1 <= Z.land (Z.shiftr magic 4) 15 <= 9 ->
  time_value v -> good_args (DM_set_field magic) args -> safe_result (set_date_field (DateObj v) args magic).
Proof.
  intros Hm Hv Ha. unfold set_date_field, safe_result. unfold good_args, arg_limit in Ha.
  set (is_local := negb (Z.land magic 15 =? 0)) in *.
  destruct (get_date_fields_safe v is_local (Z.land (Z.shiftr magic 8) 15 =? 0) Hv) as (r & -> & Hne & Hr).
  cbn [mbind res_bind]. destruct r as [| | fields]; [done | |].
  - do 2 eexists. split; [done |]. by left.
  - destruct (Z.ltb_spec 0 (zlen args)); [| do 2 eexists; split; [done | by left]].
    set (first := Z.land (Z.shiftr magic 8) 15) in *. set (last := Z.land (Z.shiftr magic 4) 15) in *.
    assert (0 <= first) by (apply Z.land_nonneg; right; lia).
    destruct (set_fields_safe is_local (Z.to_nat (Z.min (zlen args) (last - first))) args v first fields)
      as (v' & r & -> & Hv' & Hr'); try done; [unfold zlen; lia | lia | by apply Hr |].
    cbn [mbind res_bind]. destruct r as [| | fields'].
    + by do 2 eexists.
    + do 2 eexists. split; [done |]. by left.
    + destruct (set_date_fields_safe fields' is_local (Hr' _ eq_refl)) as (d & -> & Hd).
      cbn [mbind res_bind]. by do 2 eexists.
Qed.

Lemma get_date_field_safe v magic : Z.land (Z.shiftr magic 4) 15 < 9 -> time_value v ->
  exists r, get_date_field (DateObj v) magic = Ret r.
Proof.
  intros Hm Hv. unfold get_date_field.
  destruct (get_date_fields_safe v (negb (Z.land magic 15 =? 0)) false Hv) as (r & -> & _ & Hr).
  cbn [mbind res_bind]. destruct r as [| | fields]; [eauto | eauto |].
  destruct (Hr _ eq_refl) as [Hl Hf]. set (n := Z.land (Z.shiftr magic 4) 15) in *.
  assert (0 <= n) by (apply Z.land_nonneg; right; lia).
  destruct fields as [| f0 fields]; [done |].
  change (field (f0 :: fields) 0) with (Ret f0). cbn [mbind res_bind].
  set (f0' := if Z.land magic 256 =? 0 then f0 else _).
  destruct (zupd_is_Some (f0 :: fields) 0 f0') as [l El]; [unfold zlen; lia |].
  rewrite El. cbn [of_opt mbind res_bind].
  destruct (znth_is_Some l n) as [_ Hz]. destruct Hz as [x Hx].
  { rewrite (zupd_zlen _ _ _ _ El). unfold zlen. lia. }
  unfold field. rewrite Hx. cbn. eauto.
Qed.

Lemma get_date_string_safe v magic : Z.land (Z.shiftr magic 4) 15 < 4 -> time_value v ->
  exists r, get_date_string (DateObj v) magic = Ret r.
Proof.
  intros Hm [-> | (t & -> & Ht)]; [rewrite get_date_string_NaN; eauto |].
  destruct (get_date_string_spec t magic Ht Hm) as (c & _ & _ & _ & ->). eauto.
Qed.

(** A method of the table: its magic number selects fields that exist. *)
Definition method_ok (m : date_method) : Prop :=
  match m with
  | DM_get_field magic => Z.land (Z.shiftr magic 4) 15 < 9
  | DM_set_field magic => Z.land (Z.shiftr magic 8) 15 + 1 <= Z.land (Z.shiftr magic 4) 15 <= 9
  | DM_get_string magic => Z.land (Z.shiftr magic 4) 15 < 4
  | _ => True
  end.

Lemma js_date_proto_funcs_ok : Forall (fun f => method_ok f.2) js_date_proto_funcs.
Proof. repeat constructor; vm_compute; try split; discriminate. Qed.

Lemma two_digit_year_limited y : limited_field (field_limit true 0) y -> limited_field (field_limit true 0) (two_digit_year y).
Proof.
  intros (z & -> & Hz). unfold two_digit_year, dbl. rewrite F64.le_exact, F64.lt_exact.
  destruct (Z.leb_spec 0 z), (Z.ltb_spec z 100); cbn [andb]; try (by exists z).
  rewrite F64.add_exact by exact_lia. exists (z + 1900). split; [done |]. apply small_within; unfold small; lia.
Qed.

Lemma set_year_safe v arg : time_value v -> good_arg (field_limit true 0) arg -> safe_result (js_date_setYear (DateObj v) arg).
Proof.
  intros Hv Ha. unfold js_date_setYear. cbn [JS_ThisTimeValue].
  destruct (Ha v Hv) as (v1 & r & -> & Hv1 & Hr).
  destruct r as [y |]; [| by do 2 eexists].
  apply set_date_field_safe; [vm_compute; split; discriminate | done |].
  intros [| i] a; [intros [= <-] | done]. intros u Hu. do 2 eexists. split; [done |]. split; [done |].
  change (arg_limit (DM_set_field 17) 0) with (field_limit true 0).
  intros x [= <-]. specialize (Hr y eq_refl).
  destruct (F64.isfinite y) eqn:Ef; [| by destruct y].
  destruct (two_digit_year_limited _ (limited_trunc _ y Hr Ef)) as (z & -> & Hz).
  unfold limited_arg, dbl. by rewrite F64.trunc_exact.
Qed.

Lemma date_call_safe v m args : method_ok m -> time_value v -> good_args m args ->
  safe_result (date_call (DateObj v) m args).
Proof.
  intros Hm Hv Ha. assert (good_arg (arg_limit m 0) (arg0 args)) as Ha0.
  { unfold arg0. destruct args as [| a args]; [| by apply (Ha 0%nat)].
    intros u Hu. do 2 eexists. split; [reflexivity |]. split; [done |]. by intros x [= <-]. }
  destruct m as [magic | magic | magic | | | |]; cbn [method_ok date_call] in *.
  - destruct (get_date_field_safe v magic Hm Hv) as [r ->]. by do 2 eexists.
  - destruct (set_date_field_safe v args magic Hm Hv Ha) as (v' & x & -> & Hv'). by do 2 eexists.
  - destruct (get_date_string_safe v magic Hm Hv) as [r ->]. by do 2 eexists.
  - by do 2 eexists.
  - unfold js_date_setTime. cbn [JS_ThisTimeValue].
    destruct (Ha0 v Hv) as (v1 & r & -> & Hv1 & _).
    destruct r as [x |]; [| by do 2 eexists]. do 2 eexists. split; [done |]. apply time_clip_time_value.
  - destruct (set_year_safe v (arg0 args) Hv Ha0) as (v' & x & -> & Hv'). by do 2 eexists.
  - unfold js_date_getTimezoneOffset. cbn [JS_ThisTimeValue].
    destruct Hv as [-> | (t & -> & Ht)]; [do 2 eexists; split; [done | by left] |].
    cbn [F64.isnan dbl]. change (F64.trunc (dbl t)) with (F64.trunc (Finite t 0)).
    rewrite F64.trunc_exact, F64.to_int_exact by (unfold max_time in Ht; lia). cbn [mbind res_bind].
    do 2 eexists. split; [done |]. right. eauto.
Qed.

End run.

(** C16: no sequence of calls of the methods of Date.prototype on a Date object
    with a time value has undefined behaviour, reads or writes outside
    [buf[64]] or loops, and the object ends with a time value: NaN or an
    integer of at most 8.64e15 - as long as converting the arguments keeps the
    value a time value and the numbers that become fields are within
    [field_limit]: there is no limit for [setTime] nor for the day and the time
    of the UTC setters; the year and the month are at most 10^12 in UTC and 10^7 in
    local time, the day and the hour, the minute, the second and the millisecond
    of the local setters at most 10^10, 10^12, 10^13 and 10^16.  (Without a limit
    the year overflows [int64_t]: [UTC_huge_year].) *)
Theorem date_run_safe `{LocalTime} v calls (Hv : time_value v)
    (Hcalls : Forall (fun c => c.1 ∈ js_date_proto_funcs.*2 /\ good_args c.1 c.2) calls) :
  exists v', date_run (DateObj v) calls = Ret (DateObj v') /\ time_value v'.
Proof.
  revert v Hv. induction Hcalls as [| [m args] calls [Hm Ha] Hcalls IH]; intros v Hv; cbn [date_run].
  - eauto.
  - assert (method_ok m) as Hok.
    { cbn [fst] in Hm. apply list_elem_of_fmap in Hm as (f & -> & Hf).
      pose proof js_date_proto_funcs_ok as Hall. rewrite list.Forall_forall in Hall. by apply Hall. }
    destruct (date_call_safe v m args Hok Hv Ha) as (v' & x & -> & Hv'). cbn [mbind res_bind]. by apply IH.
Qed.

Ltac in_table := first [apply list_elem_of_here | apply list_elem_of_further; in_table].

Definition date_calls : list (date_method * list JSArg) :=
  [(DM_set_field 0x231, [plain 31]); (DM_set_field 0x130, [plain 1; plain (10 ^ 30)]);
   (DM_setTime, [plain 1709121600000]); (DM_get_string 0x13, []); (DM_setTime, [])].

Lemma plain_good limit z : within limit z -> good_arg limit (plain z).
Proof.
  intros Hz v Hv. exists v, (Some (dbl z)). split; [reflexivity |]. split; [exact Hv |].
  intros x [= <-]. unfold limited_arg, dbl. rewrite F64.trunc_exact. exact Hz.
Qed.

Lemma date_run_safe_witness :
  time_value (dbl feb_28) /\
  exists v', date_run (H := cet) (DateObj (dbl feb_28)) date_calls = Ret (DateObj v') /\ time_value v'.
Proof.
  assert (time_value (dbl feb_28)) as Hv.
  { right. exists feb_28. split; [reflexivity |]. unfold max_time, feb_28. lia. }
  split; [exact Hv |]. apply (date_run_safe (H := cet) (dbl feb_28) date_calls Hv).
  unfold date_calls.
  repeat (apply Forall_cons_iff; split); [..| apply Forall_nil_2]; (split; [cbn; in_table |]); cbn [fst snd];
    intros [| [| i]] a; cbn; try discriminate; intros [= <-]; apply plain_good; vm_compute; split; discriminate || exact I.
Defined.

(** ** Date.parse *)
Section parse.
Context `{LocalTime}.

(** The fields that were parsed denote the date [c] in the zone [tz]. *)
Lemma parsed_civil c tz : civil_ok c -> small 300000 (c_year c) -> small max_time (civil_time c) -> small 1500 tz ->
  (d ← set_date_fields (map F64.of_int64 [c_year c; c_month c; c_day c; c_hour c; c_min c; c_sec c; c_ms c]) false;
   Ret (F64.sub d (F64.of_int64 (tz * 60000)))) = Ret (dbl (civil_time c - tz * 60000)).
Proof.
  intros Hc Hy Ht Htz. rewrite dbl_fields.
  - rewrite set_civil by done. cbn [mbind res_bind]. unfold dbl, small, max_time in *.
    rewrite F64.of_int64_exact, F64.sub_exact by exact_lia. reflexivity.
  - pose proof (month_length_bounds (c_year c) (c_month c)).
    destruct Hc as (? & ? & ? & ? & ? & ?). unfold small in *. repeat constructor; lia.
Qed.

(** The first character of a text selects the format. *)
Lemma parse_string_iso_branch w s d u : s = d :: u -> (is_digit d || (d =? 43) || (d =? 45)) = true ->
  parse_string (mkString w s) =
  (r ← parse_iso (mkString w s);
   match r with
   | None => Ret NaN
   | Some (fields, tz, is_local) =>
       d ← set_date_fields (map F64.of_int64 fields) is_local; Ret (F64.sub d (F64.of_int64 (tz * 60000)))
   end).
Proof.
  intros -> Hd. pose proof (at_start w (d :: u)) as A. unfold parse_string. at_head A. rewrite Hd. reflexivity.
Qed.

Lemma parse_string_text_branch w s d u : s = d :: u -> (is_digit d || (d =? 43) || (d =? 45)) = false ->
  parse_string (mkString w s) =
  (r ← parse_text (mkString w s);
   match r with
   | None => Ret NaN
   | Some (fields, tz, is_local) =>
       d ← set_date_fields (map F64.of_int64 fields) is_local; Ret (F64.sub d (F64.of_int64 (tz * 60000)))
   end).
Proof.
  intros -> Hd. pose proof (at_start w (d :: u)) as A. unfold parse_string. at_head A. rewrite Hd. reflexivity.
Qed.

Lemma iso_string_head f : ints_ok f -> exists d u, iso_string f = d :: u /\
  (is_digit d || (d =? 43) || (d =? 45)) = true.
Proof.
  intros (Hy & _). destruct (iso_year_spec _ Hy) as (sign & ds & Ey & Hsign & Dy & Ly & _).
  unfold iso_string, date_text. rewrite Ey. destruct Hsign as [-> | [-> | ->]].
  - destruct ds as [| d ds]; [rewrite zlen_nil in Ly; lia |].
    apply Forall_cons_iff in Dy as [Hd _]. exists d. eexists. split; [reflexivity |]. by rewrite Hd.
  - do 2 eexists. split; reflexivity.
  - do 2 eexists. split; reflexivity.
Qed.

Lemma text_string_head magic f : magic = 0x03 \/ magic = 0x13 -> ints_ok f ->
  exists d u, date_string magic f = d :: u /\ (is_digit d || (d =? 43) || (d =? 45)) = false.
Proof.
  intros Hm (_ & _ & _ & _ & _ & _ & _ & Hwd & _).
  destruct (day_name_letter _ Hwd) as (d & u & En & Hd & H43 & H45).
  exists d. assert (is_digit d || (d =? 43) || (d =? 45) = false) as Hf.
  { rewrite Hd. destruct (Z.eqb_spec d 43), (Z.eqb_spec d 45); done. }
  destruct Hm as [-> | ->].
  - change (date_string 0x03 f) with (date_text 0 3 f ++ time_text 0 f).
    unfold date_text. rewrite En. eexists. split; [reflexivity | exact Hf].
  - change (date_string 0x13 f) with (date_text 1 3 f ++ time_text 1 f).
    unfold date_text. rewrite En. eexists. split; [reflexivity | exact Hf].
Qed.

(** The date without its milliseconds. *)
Definition to_seconds (c : civil) : civil :=
  mkCivil (c_year c) (c_month c) (c_day c) (c_hour c) (c_min c) (c_sec c) 0.

Lemma to_seconds_spec c : civil_ok c ->
  civil_ok (to_seconds c) /\ civil_time (to_seconds c) = civil_time c - civil_time c mod 1000.
Proof.
  intros Hc. assert (civil_time c mod 1000 = c_ms c) as ->.
  { destruct Hc as (_ & _ & _ & _ & _ & Hms). symmetry.
    apply (Z.mod_unique _ _ (day_number (c_year c) (c_month c) (c_day c) * 86400 +
      c_hour c * 3600 + c_min c * 60 + c_sec c)); [lia |].
    unfold civil_time, time_in_day. lia. }
  destruct Hc as (? & ? & ? & ? & ? & ?). unfold civil_ok, to_seconds, civil_time, time_in_day. cbn. lia.
Qed.

Lemma clip_seconds t : small max_time t -> small max_time (t - t mod 1000).
Proof.
  unfold small, max_time. intros Ht. pose proof (Z.mod_pos_bound t 1000 ltac:(lia)). split; [| lia].
  change (- (8640000000000000)) with (- 8640000000000 * 1000) in *. zdiv_lia.
Qed.

Lemma parse_text_format w magic t : magic = 0x03 \/ magic = 0x13 -> small max_time t ->
  let tz := local_offset (is_local_fmt magic) t in
  small max_time (t + tz * 60000) ->
  exists s, get_date_string (DateObj (dbl t)) magic = Ret (JS_OK s) /\
    parse_string (mkString w s) = Ret (dbl (t - t mod 1000)).
Proof.
  intros Hm Ht tz Hl.
  destruct (get_date_string_spec t magic Ht ltac:(destruct Hm as [-> | ->]; vm_compute; done))
    as (c & Hc & Ec & Hf & ->).
  fold tz in Ec, Hf |- *. set (f := ints_of c _ tz) in *.
  assert (di_tz f = tz) as Hftz by reflexivity.
  assert ([di_y f; di_mon f; di_d f; di_h f; di_m f; di_s f; 0] =
    [c_year c; c_month c; c_day c; c_hour c; c_min c; c_sec c; 0]) as Hfc by reflexivity.
  assert (small 300000 (c_year c)) as Hy by (destruct Hf as [? _]; done).
  eexists. split; [reflexivity |].
  destruct (text_string_head magic f Hm Hf) as (d & u & Es & Hd).
  rewrite (parse_string_text_branch w _ d u Es Hd).
  destruct (to_seconds_spec c Hc) as [Hc' Ec']. rewrite Ec in Ec'.
  assert ((t + tz * 60000) mod 1000 = t mod 1000) as Em.
  { replace (t + tz * 60000) with (t + (tz * 60) * 1000) by lia. apply Z.mod_add. lia. }
  assert (parse_text (mkString w (date_string magic f)) =
    Ret (Some ([di_y f; di_mon f; di_d f; di_h f; di_m f; di_s f; 0], tz, false))) as ->.
  { assert (magic = 0x03 -> tz = 0) as Hutc by (intros ->; reflexivity).
    clearbody f. destruct Hm as [-> | ->].
    - rewrite (parse_utc_at w f Hf), (Hutc eq_refl). reflexivity.
    - rewrite (parse_local_at w f Hf), Hftz. reflexivity. }
  rewrite Hfc. cbn [mbind res_bind].
  etransitivity; [apply (parsed_civil (to_seconds c) tz Hc' Hy) |].
  - rewrite Ec'. by apply clip_seconds.
  - apply local_offset_range.
  - rewrite Ec'. do 2 f_equal. lia.
Qed.

End parse.

(** C18: [Date.parse] is the inverse of [toISOString] on every time value, in
    every time zone and for both string representations. *)
Theorem parse_toISOString `{LocalTime} t w (Ht : small max_time t) :
  exists s, get_date_string (DateObj (dbl t)) 0x23 = Ret (JS_OK s) /\
    js_Date_parse (Some (mkString w s)) = Ret (JS_OK (dbl t)).
Proof.
  destruct (get_date_string_spec t 0x23 Ht ltac:(vm_compute; done)) as (c & Hc & Ec & Hf & ->).
  change (is_local_fmt 0x23) with false in *. cbn [local_offset] in *. rewrite Z.mul_0_l, Z.add_0_r in *.
  set (f := ints_of c _ 0) in *. exists (date_string 0x23 f). split; [done |].
  unfold js_Date_parse. change (date_string 0x23 f) with (iso_string f).
  destruct (iso_string_head f Hf) as (d & u & Es & Hd).
  rewrite (parse_string_iso_branch w _ d u Es Hd). rewrite (parse_iso_at w f Hf). cbn [mbind res_bind].
  destruct Hf as (Hy & _). unfold f. cbn [ints_of di_y di_mon di_d di_h di_m di_s di_ms].
  rewrite (parsed_civil c 0 Hc Hy); [| congruence | unfold small; lia].
  cbn [mbind res_bind]. rewrite Ec. do 3 f_equal. lia.
Qed.

Lemma parse_toISOString_witness :
  small max_time (-62198755200000) /\
  exists s, get_date_string (H := cet) (DateObj (dbl (-62198755200000))) 0x23 = Ret (JS_OK s) /\
    js_Date_parse (H := cet) (Some (mkString true s)) = Ret (JS_OK (dbl (-62198755200000))).
Proof.
  assert (small max_time (-62198755200000)) as Hs by (unfold small, max_time; lia).
  split; [exact Hs |]. exact (parse_toISOString (H := cet) (-62198755200000) true Hs).
Defined.

(** C19: [Date.parse] reads the text of [toUTCString] back up to the milliseconds,
    which it does not print, for every time value, and the text of [toString] when
    the local time is itself in the range of time values (at the two ends of the
    range it may not be: [toString_end_of_range]). *)
Theorem parse_toString `{LocalTime} t w (Ht : small max_time t) :
  (exists s, get_date_string (DateObj (dbl t)) 0x03 = Ret (JS_OK s) /\
     js_Date_parse (Some (mkString w s)) = Ret (JS_OK (dbl (t - t mod 1000)))) /\
  (small max_time (t - getTimezoneOffset t * 60000) ->
   exists s, get_date_string (DateObj (dbl t)) 0x13 = Ret (JS_OK s) /\
     js_Date_parse (Some (mkString w s)) = Ret (JS_OK (dbl (t - t mod 1000)))).
Proof.
  unfold js_Date_parse. split.
  - destruct (parse_text_format w 0x03 t (or_introl eq_refl) Ht) as (s & Es & Ep).
    { change (is_local_fmt 0x03) with false. cbn [local_offset]. by rewrite Z.mul_0_l, Z.add_0_r. }
    exists s. by rewrite Ep.
  - intros Hl. destruct (parse_text_format w 0x13 t (or_intror eq_refl) Ht) as (s & Es & Ep).
    { change (is_local_fmt 0x13) with true. cbn [local_offset].
      by replace (t + - getTimezoneOffset t * 60000) with (t - getTimezoneOffset t * 60000) by lia. }
    exists s. by rewrite Ep.
Qed.

Lemma parse_toString_witness :
  small max_time end_of_2020 /\
  small max_time (end_of_2020 - getTimezoneOffset (H := cet) end_of_2020 * 60000) /\
  exists s, get_date_string (H := cet) (DateObj (dbl end_of_2020)) 0x13 = Ret (JS_OK s) /\
     js_Date_parse (H := cet) (Some (mkString false s)) = Ret (JS_OK (dbl (end_of_2020 - end_of_2020 mod 1000))).
Proof.
  assert (small max_time end_of_2020) as Hs by (unfold small, max_time, end_of_2020; lia).
  assert (small max_time (end_of_2020 - getTimezoneOffset (H := cet) end_of_2020 * 60000)) as Hl.
  { change (getTimezoneOffset (H := cet) end_of_2020) with (-60). unfold small, max_time, end_of_2020. lia. }
  split; [exact Hs |]. split; [exact Hl |]. exact (proj2 (parse_toString (H := cet) end_of_2020 false Hs) Hl).
Defined.

(** ** Deviations *)

(** At the end of the range the local time is clipped before the offset of the
    zone is subtracted: a date prints a text that parses to NaN. *)
Example toString_end_of_range :
  get_date_string (H := cet) (DateObj (dbl max_time)) 0x13 =
    Ret (JS_OK (ascii "Sat Sep 13 275760 01:00:00 GMT+0100")) /\
  parse_string (H := cet) (latin "Sat Sep 13 275760 01:00:00 GMT+0100") = Ret NaN.
Proof. split; reflexivity. Qed.

(** [toLocaleTimeString] prints the hour -1 for 11 and 23 o'clock. *)
Example locale_hour_minus_one :
  get_date_string (H := utc) (DateObj (dbl (23 * 3600000))) 0x32 = Ret (JS_OK (ascii "-1:00:00 PM")).
Proof. reflexivity. Qed.

(** A finite year that does not fit in [int64_t] is converted nevertheless. *)
Example UTC_huge_year : js_Date_UTC (H := utc) [Some (Finite 1 70); Some (dbl 0)] = Fault.
Proof. reflexivity. Qed.

(** A long number in a text overflows [int64_t]. *)
Example parse_long_number : parse_string (H := utc) (latin "99999999999999999999") = Fault.
Proof. reflexivity. Qed.

(** The value [Date.parse] returns need not be a time value. *)
Example parse_not_clipped :
  parse_string (H := utc) (latin "275760-09-13T00:00-0100") = Ret (dbl (max_time + 3600000)).
Proof. vm_compute. reflexivity. Qed.
