(* ===== verification/PromiseState.v ===== *)
(** * quickjs.c: promises and the job queue

    Scripts are arbitrary: the machine below runs a list of actions, each either
    something a script does (create a promise, call [then], call a function,
    return or throw from a callback) or one step of the C code after a callback
    has returned.  A C function that calls a script is split at the call: what
    it still has to do is a [frame] on the stack [frames].

    Promises, resolving functions and the shared [already_resolved] flags are in
    stores; they are not freed here (Gc.v models memory).  [mem] says which of
    the next allocations fail; when it is empty none does.  An allocation that
    fails anywhere in a function is modelled as the function's first one, with
    the same result.  [rd_id] numbers the calls of [perform_promise_then] and
    [log] records events; the code has neither. *)
From Stdlib Require Import ZArith Lia Bool.
From stdpp Require Import base numbers list gmap.
From S2P Require Import Prelude.

(** ** Values *)
Inductive value : Type :=
| Undefined
| Prim (n : Z)
| TypeErr
| Promise (p : Z)
| ResolvingFunc (f : Z)
| Obj (o : Z) (is_function : bool).

#[export] Instance value_eq_dec : EqDecision value.
Proof. solve_decision. Defined.

Definition JS_IsFunction (v : value) : bool :=
  match v with ResolvingFunc _ => true | Obj _ b => b | _ => false end.
Definition JS_IsObject (v : value) : bool :=
  match v with Promise _ | ResolvingFunc _ | Obj _ _ | TypeErr => true | _ => false end.
Definition JS_IsUndefined (v : value) : bool := match v with Undefined => true | _ => false end.

(** The result of a call: a value or an exception. *)
Inductive outcome : Type :=
| Normal (v : value)
| Throw (e : value).

(** ** Promises *)
Inductive JSPromiseStateEnum : Type :=
| JS_PROMISE_PENDING
| JS_PROMISE_FULFILLED
| JS_PROMISE_REJECTED.

Record JSPromiseReactionData : Type := mkReaction {
  rd_id : Z * Z;
  resolving_func0 : value;
  resolving_func1 : value;
  handler : value
}.

Record JSPromiseData : Type := mkPromise {
  promise_state : JSPromiseStateEnum;
  promise_reactions0 : list JSPromiseReactionData;
  promise_reactions1 : list JSPromiseReactionData;
  is_handled : bool;
  promise_result : value
}.

(** A resolving function; [presolved] is the address of the shared flag and
    [is_reject] tells JS_CLASS_PROMISE_REJECT_FUNCTION. *)
Record JSPromiseFunctionData : Type := mkFunction {
  fn_promise : Z;
  presolved : Z;
  fn_reject : bool
}.

Inductive JSJobEntry : Type :=
| promise_reaction_job_entry (id : Z * Z) (func0 func1 hdl : value) (is_reject : bool) (arg : value)
| js_promise_resolve_thenable_job_entry (promise : Z) (thenable then_ : value).

(** What a C function still has to do after a call. *)
Inductive frame : Type :=
| FUser                                  (* the caller is a script *)
| FJob                                   (* JS_ExecutePendingJob *)
| FExecutor (obj : Z) (reject : value)   (* js_promise_constructor, the executor *)
| FExecutorReject (obj : Z)              (* js_promise_constructor, the reject function *)
| FGetThen (promise : Z) (resolution : value)  (* js_promise_resolve_function_call *)
| FReaction (func0 func1 : value)        (* promise_reaction_job, the handler *)
| FThenable (reject : value)             (* js_promise_resolve_thenable_job *)
| FResolve (result_promise : Z).         (* js_promise_resolve *)

(** Who runs: a script, or the C code with the result of the call. *)
Inductive control : Type :=
| Running
| Returning (o : outcome).

Inductive event : Type :=
| EvIgnored (p : Z)            (* the branch "should never happen" *)
| EvTracker (p : Z) (handled : bool)
| EvThen (id : Z * Z)
| EvEnqueue (job : JSJobEntry)
| EvExecute (job : JSJobEntry).

Record world : Type := mkWorld {
  promises : gmap Z JSPromiseData;
  functions : gmap Z JSPromiseFunctionData;
  resolved : gmap Z bool;
  job_list : list JSJobEntry;
  frames : list frame;
  ctl : control;
  mem : list bool;
  next_id : Z;
  log : list event
}.

(** ** State updates *)
Definition set_promise (p : Z) (s : JSPromiseData) (w : world) : world :=
  mkWorld (<[p := s]> (promises w)) (functions w) (resolved w) (job_list w) (frames w) (ctl w) (mem w)
    (next_id w) (log w).
Definition set_function (f : Z) (s : JSPromiseFunctionData) (w : world) : world :=
  mkWorld (promises w) (<[f := s]> (functions w)) (resolved w) (job_list w) (frames w) (ctl w) (mem w)
    (next_id w) (log w).
Definition set_flag (r : Z) (b : bool) (w : world) : world :=
  mkWorld (promises w) (functions w) (<[r := b]> (resolved w)) (job_list w) (frames w) (ctl w) (mem w)
    (next_id w) (log w).
Definition set_jobs (l : list JSJobEntry) (w : world) : world :=
  mkWorld (promises w) (functions w) (resolved w) l (frames w) (ctl w) (mem w) (next_id w) (log w).
Definition set_frames (l : list frame) (w : world) : world :=
  mkWorld (promises w) (functions w) (resolved w) (job_list w) l (ctl w) (mem w) (next_id w) (log w).
Definition set_ctl (c : control) (w : world) : world :=
  mkWorld (promises w) (functions w) (resolved w) (job_list w) (frames w) c (mem w) (next_id w) (log w).
Definition add_event (e : event) (w : world) : world :=
  mkWorld (promises w) (functions w) (resolved w) (job_list w) (frames w) (ctl w) (mem w) (next_id w)
    (log w ++ [e]).
Definition push (f : frame) (w : world) : world := set_frames (f :: frames w) w.
Definition returning (o : outcome) (w : world) : world := set_ctl (Returning o) w.
Definition undefined : outcome := Normal Undefined.

(** A new address; it is also used as a serial number. *)
Definition fresh (w : world) : Z * world :=
  (next_id w, mkWorld (promises w) (functions w) (resolved w) (job_list w) (frames w) (ctl w) (mem w)
                (next_id w + 1) (log w)).

(** Does the next allocation succeed? *)
Definition js_malloc (w : world) : bool * world :=
  match mem w with
  | [] => (true, w)
  | b :: mem => (b, mkWorld (promises w) (functions w) (resolved w) (job_list w) (frames w) (ctl w) mem
                     (next_id w) (log w))
  end.

(** ** The job queue *)
Definition JS_EnqueueJob (e : JSJobEntry) (w : world) : world :=
  let '(ok, w) := js_malloc w in
  if ok then add_event (EvEnqueue e) (set_jobs (job_list w ++ [e]) w) else w.

Definition JS_IsJobPending (w : world) : bool := match job_list w with [] => false | _ => true end.

(** ** Settling a promise *)
Definition reaction_job (rd : JSPromiseReactionData) (is_reject : bool) (arg : value) : JSJobEntry :=
  promise_reaction_job_entry (rd_id rd) (resolving_func0 rd) (resolving_func1 rd) (handler rd) is_reject arg.

(** The first loop of [fulfill_or_reject_promise]. *)
Fixpoint enqueue_reactions (l : list JSPromiseReactionData) (is_reject : bool) (v : value) (w : world) : world :=
  match l with
  | [] => w
  | rd :: l => enqueue_reactions l is_reject v (JS_EnqueueJob (reaction_job rd is_reject v) w)
  end.

Definition fulfill_or_reject_promise (p : Z) (v : value) (is_reject : bool) (w : world) : res world :=
  s ← of_opt (promises w !! p);
  match promise_state s with
  | JS_PROMISE_PENDING =>
      let st := if is_reject then JS_PROMISE_REJECTED else JS_PROMISE_FULFILLED in
      let w := if is_reject && negb (is_handled s) then add_event (EvTracker p false) w else w in
      let l := if is_reject then promise_reactions1 s else promise_reactions0 s in
      Ret (enqueue_reactions l is_reject v (set_promise p (mkPromise st [] [] (is_handled s) v) w))
  | _ => Ret (add_event (EvIgnored p) w)
  end.

Definition reject_promise (p : Z) (v : value) (w : world) : res world :=
  fulfill_or_reject_promise p v true w.

(** ** Resolving functions *)

(** The two functions and the flag they share; [None]: out of memory. *)
Definition js_create_resolving_functions (p : Z) (w : world) : option (value * value) * world :=
  let '(ok, w) := js_malloc w in
  if ok then
    let '(sr, w) := fresh w in
    let '(f0, w) := fresh w in
    let '(f1, w) := fresh w in
    (Some (ResolvingFunc f0, ResolvingFunc f1),
     set_function f1 (mkFunction p sr true) (set_function f0 (mkFunction p sr false) (set_flag sr false w)))
  else (None, w).

(** Up to [JS_GetProperty(resolution, "then")], which may run a script. *)
Definition js_promise_resolve_function_call (f : Z) (resolution : value) (w : world) : res world :=
  s ← of_opt (functions w !! f);
  already_resolved ← of_opt (resolved w !! presolved s);
  if (already_resolved : bool) then Ret (returning undefined w)
  else
    let w := set_flag (presolved s) true w in
    if fn_reject s || negb (JS_IsObject resolution) then
      w ← fulfill_or_reject_promise (fn_promise s) resolution (fn_reject s) w;
      Ret (returning undefined w)
    else if bool_decide (resolution = Promise (fn_promise s)) then
      w ← reject_promise (fn_promise s) TypeErr w;
      Ret (returning undefined w)
    else Ret (set_ctl Running (push (FGetThen (fn_promise s) resolution) w)).

(** The rest of it. *)
Definition resolve_with_then (p : Z) (resolution : value) (o : outcome) (w : world) : res world :=
  w ← match o with
      | Throw e => reject_promise p e w
      | Normal then_ =>
          if JS_IsFunction then_
          then Ret (JS_EnqueueJob (js_promise_resolve_thenable_job_entry p resolution then_) w)
          else fulfill_or_reject_promise p resolution false w
      end;
  Ret (returning undefined w).

(** [JS_Call] with the first argument [arg]; a script function starts to run. *)
Definition JS_Call (f : value) (arg : value) (w : world) : res world :=
  match f with
  | ResolvingFunc f => js_promise_resolve_function_call f arg w
  | Obj _ true => Ret (set_ctl Running w)
  | _ => Ret (returning (Throw TypeErr) w)
  end.

(** ** Jobs *)

(** Up to the call of the handler. *)
Definition promise_reaction_job (func0 func1 hdl : value) (is_reject : bool) (arg : value) (w : world)
    : res world :=
  let w := push (FReaction func0 func1) w in
  if JS_IsUndefined hdl then Ret (returning (if is_reject then Throw arg else Normal arg) w)
  else JS_Call hdl arg w.

(** The result of the handler is passed to one of the resolving functions, whose
    result is the result of the job. *)
Definition reaction_result (func0 func1 : value) (o : outcome) (w : world) : res world :=
  let '(func, v) := match o with Throw e => (func1, e) | Normal v => (func0, v) end in
  if JS_IsUndefined func then Ret (returning undefined w) else JS_Call func v w.

Definition js_promise_resolve_thenable_job (p : Z) (then_ : value) (w : world) : res world :=
  let '(fs, w) := js_create_resolving_functions p w in
  match fs with
  | None => Ret (returning (Throw TypeErr) w)
  | Some (f0, f1) => JS_Call then_ f0 (push (FThenable f1) w)
  end.

Definition thenable_result (reject : value) (o : outcome) (w : world) : res world :=
  match o with
  | Normal v => Ret (returning (Normal v) w)
  | Throw e => JS_Call reject e w
  end.

(** Up to the call of the job; [FJob] is the rest. *)
Definition JS_ExecutePendingJob (w : world) : res world :=
  match job_list w with
  | [] => Ret w
  | e :: l =>
      let w := push FJob (add_event (EvExecute e) (set_jobs l w)) in
      match e with
      | promise_reaction_job_entry _ f0 f1 h is_reject arg => promise_reaction_job f0 f1 h is_reject arg w
      | js_promise_resolve_thenable_job_entry p _ then_ => js_promise_resolve_thenable_job p then_ w
      end
  end.

(** ** Methods *)

(** A new promise object. *)
Definition new_promise (w : world) : option Z * world :=
  let '(ok, w) := js_malloc w in
  if ok then
    let '(p, w) := fresh w in
    (Some p, set_promise p (mkPromise JS_PROMISE_PENDING [] [] false Undefined) w)
  else (None, w).

(** Up to the call of the executor. *)
Definition js_promise_constructor (executor : value) (w : world) : res world :=
  if negb (JS_IsFunction executor) then Ret (returning (Throw TypeErr) w)
  else
    let '(p, w) := new_promise w in
    match p with
    | None => Ret (returning (Throw TypeErr) w)
    | Some p =>
        let '(fs, w) := js_create_resolving_functions p w in
        match fs with
        | None => Ret (returning (Throw TypeErr) w)
        | Some (f0, f1) => JS_Call executor f0 (push (FExecutor p f1) w)
        end
    end.

Definition executor_result (p : Z) (reject : value) (o : outcome) (w : world) : res world :=
  match o with
  | Normal _ => Ret (returning (Normal (Promise p)) w)
  | Throw e => JS_Call reject e (push (FExecutorReject p) w)
  end.

Definition executor_reject_result (p : Z) (o : outcome) (w : world) : res world :=
  match o with
  | Normal _ => Ret (returning (Normal (Promise p)) w)
  | Throw e => Ret (returning (Throw e) w)
  end.

(** [js_new_promise_capability] for the intrinsic constructor, whose executor
    only stores the two functions. *)
Definition js_new_promise_capability (w : world) : option (Z * value * value) * world :=
  let '(p, w) := new_promise w in
  match p with
  | None => (None, w)
  | Some p =>
      let '(fs, w) := js_create_resolving_functions p w in
      (match fs with Some (f0, f1) => Some (p, f0, f1) | None => None end, w)
  end.

(** [false]: out of memory. *)
Definition perform_promise_then (p : Z) (h0 h1 f0 f1 : value) (w : world) : res (bool * world) :=
  s ← of_opt (promises w !! p);
  let '(ok, w) := js_malloc w in
  if negb ok then Ret (false, w)
  else
    let '(id, w) := fresh w in
    let w := add_event (EvThen (p, id)) w in
    let fn h := if JS_IsFunction h then h else Undefined in
    let rd0 := mkReaction (p, id) f0 f1 (fn h0) in
    let rd1 := mkReaction (p, id) f0 f1 (fn h1) in
    let done s := mkPromise (promise_state s) (promise_reactions0 s) (promise_reactions1 s) true (promise_result s) in
    match promise_state s with
    | JS_PROMISE_PENDING =>
        Ret (true, set_promise p (mkPromise JS_PROMISE_PENDING (promise_reactions0 s ++ [rd0])
                                   (promise_reactions1 s ++ [rd1]) true (promise_result s)) w)
    | JS_PROMISE_FULFILLED =>
        Ret (true, set_promise p (done s) (JS_EnqueueJob (reaction_job rd0 false (promise_result s)) w))
    | JS_PROMISE_REJECTED =>
        let w := if negb (is_handled s) then add_event (EvTracker p true) w else w in
        Ret (true, set_promise p (done s) (JS_EnqueueJob (reaction_job rd1 true (promise_result s)) w))
    end.

(** [js_promise_then] when the species constructor is the intrinsic one. *)
Definition js_promise_then (this_val h0 h1 : value) (w : world) : res world :=
  match this_val with
  | Promise p =>
      let '(cap, w) := js_new_promise_capability w in
      match cap with
      | None => Ret (returning (Throw TypeErr) w)
      | Some (p2, f0, f1) =>
          '(ok, w) ← perform_promise_then p h0 h1 f0 f1 w;
          Ret (returning (if (ok : bool) then Normal (Promise p2) else Throw TypeErr) w)
      end
  | _ => Ret (returning (Throw TypeErr) w)
  end.

(** [js_promise_resolve] on the intrinsic constructor; [is_same]: the
    [constructor] property of a promise argument is the receiver. *)
Definition js_promise_resolve (is_reject is_same : bool) (arg : value) (w : world) : res world :=
  if negb is_reject && (match arg with Promise _ => true | _ => false end) && is_same
  then Ret (returning (Normal arg) w)
  else
    let '(cap, w) := js_new_promise_capability w in
    match cap with
    | None => Ret (returning (Throw TypeErr) w)
    | Some (p, f0, f1) => JS_Call (if is_reject then f1 else f0) arg (push (FResolve p) w)
    end.

(** ** The machine *)

(** The result [o] of a call reaches the C function that made it. *)
Definition continue (fr : frame) (o : outcome) (w : world) : res world :=
  match fr with
  | FUser => Ret (set_ctl Running w)
  | FJob => Ret (set_ctl Running w)
  | FExecutor p reject => executor_result p reject o w
  | FExecutorReject p => executor_reject_result p o w
  | FGetThen p resolution => resolve_with_then p resolution o w
  | FReaction f0 f1 => reaction_result f0 f1 o w
  | FThenable reject => thenable_result reject o w
  | FResolve p => executor_reject_result p o w
  end.

Inductive action : Type :=
| AContinue                                 (* the C code goes on *)
| AReturn (o : outcome)                     (* the script function that runs returns *)
| ANew (executor : value)                   (* new Promise(executor) *)
| AThen (this_val h0 h1 : value)            (* this_val.then(h0, h1) *)
| AThenCap (p : Z) (h0 h1 f0 f1 : value)    (* with the functions of another species, or await *)
| ACall (f arg : value)                     (* f(arg) *)
| AResolve (is_reject is_same : bool) (v : value)  (* Promise.resolve(v), Promise.reject(v) *)
| AJob.                                     (* the host runs a job *)

Definition outcome_value (o : outcome) : value := match o with Normal v => v | Throw e => e end.
Definition action_values (a : action) : list value :=
  match a with
  | AContinue | AJob => []
  | AReturn o => [outcome_value o]
  | ANew v => [v]
  | AThen v h0 h1 => [v; h0; h1]
  | AThenCap p h0 h1 f0 f1 => [Promise p; h0; h1; f0; f1]
  | ACall f arg => [f; arg]
  | AResolve _ _ v => [v]
  end.

(** A script only has values that exist. *)
Definition known (w : world) (v : value) : bool :=
  match v with
  | Promise p => match promises w !! p with Some _ => true | None => false end
  | ResolvingFunc f => match functions w !! f with Some _ => true | None => false end
  | _ => true
  end.

Definition do_action (a : action) (w : world) : res world :=
  match ctl w, a with
  | Returning o, AContinue =>
      match frames w with
      | [] => Ret (set_ctl Running w)
      | fr :: l => continue fr o (set_frames l w)
      end
  | Running, AReturn o =>
      match frames w with
      | [] | FUser :: _ => Ret w
      | _ => Ret (returning o w)
      end
  | Running, ANew executor => js_promise_constructor executor (push FUser w)
  | Running, AThen this_val h0 h1 => js_promise_then this_val h0 h1 (push FUser w)
  | Running, AThenCap p h0 h1 f0 f1 => '(_, w) ← perform_promise_then p h0 h1 f0 f1 w; Ret w
  | Running, ACall f arg =>
      match f with
      | ResolvingFunc _ => JS_Call f arg (push FUser w)
      | _ => Ret w
      end
  | Running, AResolve is_reject is_same v => js_promise_resolve is_reject is_same v (push FUser w)
  | Running, AJob => match frames w with [] => JS_ExecutePendingJob w | _ => Ret w end
  | _, _ => Ret w
  end.

(** An action that is not possible in the state is skipped. *)
Definition step (a : action) (w : world) : res world :=
  if forallb (known w) (action_values a) then do_action a w else Ret w.

Fixpoint run (acts : list action) (w : world) : res world :=
  match acts with
  | [] => Ret w
  | a :: acts => w ← step a w; run acts w
  end.

Definition init (mem : list bool) : world := mkWorld ∅ ∅ ∅ [] [] Running mem 1 [].

(** [Promise.resolve(1).then(o)] and two jobs later. *)
Example run_then : exists w, run [AResolve false true (Prim 1); AContinue; AContinue;
    AThen (Promise 1) (Obj 7 true) Undefined; AContinue; AJob; AReturn (Normal (Prim 2)); AContinue; AContinue;
    AContinue] (init []) = Ret w /\ promise_result <$> promises w !! 5 = Some (Prim 2).
Proof. eexists. split; vm_compute; reflexivity. Qed.
