(* ===== verification/PromiseFacts.v ===== *)
(** * quickjs.c: the invariant of promises and jobs *)
From Stdlib Require Import ZArith Lia Bool.
From stdpp Require Import base numbers list gmap.
From S2P Require Import Prelude PromiseState.

(** ** What can still settle a promise *)
Definition is_get_then (p : Z) (fr : frame) : bool :=
  match fr with FGetThen q _ => q =? p | _ => false end.
Definition is_thenable (p : Z) (e : JSJobEntry) : bool :=
  match e with js_promise_resolve_thenable_job_entry q _ _ => q =? p | _ => false end.

(** The resolve calls of promise [p] that wait for its [then] property, in the
    stack and in the queue. *)
Definition tokens (p : Z) (w : world) : Z :=
  countb (is_get_then p) (frames w) + countb (is_thenable p) (job_list w).

(** A pair of resolving functions of [p] that has not been used. *)
Definition open (w : world) (p : Z) : Prop :=
  exists f s, functions w !! f = Some s /\ fn_promise s = p /\ resolved w !! presolved s = Some false.

Definition pending (s : JSPromiseData) : Prop := promise_state s = JS_PROMISE_PENDING.

(** ** Values that exist *)
Definition known_reaction (w : world) (rd : JSPromiseReactionData) : Prop :=
  known w (resolving_func0 rd) /\ known w (resolving_func1 rd) /\ known w (handler rd).

Definition known_job (w : world) (e : JSJobEntry) : Prop :=
  match e with
  | promise_reaction_job_entry _ f0 f1 h _ arg => known w f0 /\ known w f1 /\ known w h /\ known w arg
  | js_promise_resolve_thenable_job_entry p v then_ => known w (Promise p) /\ known w v /\ known w then_
  end.

Definition known_frame (w : world) (fr : frame) : Prop :=
  match fr with
  | FUser | FJob => True
  | FExecutor p v => known w (Promise p) /\ known w v
  | FExecutorReject p | FResolve p => known w (Promise p)
  | FGetThen p v => known w (Promise p) /\ known w v
  | FReaction v0 v1 => known w v0 /\ known w v1
  | FThenable v => known w v
  end.

Definition known_ctl (w : world) : Prop :=
  match ctl w with Running => True | Returning o => known w (outcome_value o) end.

(** ** The log *)
Definition then_id (p : Z) (e : event) : option Z :=
  match e with EvThen (q, id) => if q =? p then Some id else None | _ => None end.
Definition enqueue_id (p : Z) (e : event) : option Z :=
  match e with
  | EvEnqueue (promise_reaction_job_entry (q, id) _ _ _ _ _) => if q =? p then Some id else None
  | _ => None
  end.
Definition enqueued_job (e : event) : option JSJobEntry := match e with EvEnqueue j => Some j | _ => None end.
Definition executed_job (e : event) : option JSJobEntry := match e with EvExecute j => Some j | _ => None end.

(** The calls of [then] on [p], the reaction jobs that were queued for them, and
    the calls whose reactions are still in the lists of [p]. *)
Definition registered (p : Z) (w : world) : list Z := omap (then_id p) (log w).
Definition enqueued (p : Z) (w : world) : list Z := omap (enqueue_id p) (log w).
Definition waiting (p : Z) (w : world) : list Z :=
  match promises w !! p with
  | Some s => map (fun rd : JSPromiseReactionData => (rd_id rd).2) (promise_reactions0 s)
  | None => []
  end.

Definition is_rejected (s : JSPromiseData) : bool :=
  match promise_state s with JS_PROMISE_REJECTED => true | _ => false end.

(** The state of one promise. *)
Record promise_ok (w : world) (p : Z) (s : JSPromiseData) : Prop := {
  p_result : known w (promise_result s);
  p_pending : pending s -> promise_result s = Undefined;
  p_settled : ~ pending s -> promise_reactions0 s = [] /\ promise_reactions1 s = [];
  p_reactions0 : Forall (known_reaction w) (promise_reactions0 s);
  p_reactions1 : Forall (known_reaction w) (promise_reactions1 s);
  p_ids : map rd_id (promise_reactions0 s) = map rd_id (promise_reactions1 s);
  p_owner : Forall (fun rd : JSPromiseReactionData => (rd_id rd).1 = p) (promise_reactions0 s)
}.

(** [full]: no allocation fails. *)
Record inv (full : bool) (w : world) : Prop := {
  i_next : forall p s, promises w !! p = Some s -> p < next_id w;
  i_fnext : forall f s, functions w !! f = Some s -> f < next_id w;
  i_rnext : forall r b, resolved w !! r = Some b -> r < next_id w;
  i_fn : forall f s, functions w !! f = Some s ->
    is_Some (promises w !! fn_promise s) /\ is_Some (resolved w !! presolved s);
  i_flag : forall f g s t, functions w !! f = Some s -> functions w !! g = Some t ->
    presolved s = presolved t -> fn_promise s = fn_promise t;
  i_promise : forall p s, promises w !! p = Some s -> promise_ok w p s;
  i_jobs : Forall (known_job w) (job_list w);
  i_frames : Forall (known_frame w) (frames w);
  i_ctl : known_ctl w;
  i_open : forall f g s t, functions w !! f = Some s -> functions w !! g = Some t ->
    fn_promise s = fn_promise t -> resolved w !! presolved s = Some false ->
    resolved w !! presolved t = Some false -> presolved s = presolved t;
  i_tokens : forall p, tokens p w <= 1;
  i_open_tokens : forall p, open w p -> tokens p w = 0;
  i_settled : forall p s, promises w !! p = Some s -> ~ pending s -> tokens p w = 0 /\ ~ open w p;
  i_ignored : forall p, EvIgnored p ∉ log w;
  i_mem : full = true -> mem w = [];
  i_then : full = true -> forall p, enqueued p w ++ waiting p w = registered p w;
  i_then_ids : forall p id, EvThen (p, id) ∈ log w -> id < next_id w;
  i_then_nodup : forall p, NoDup (registered p w);
  i_enqueue : forall q id f0 f1 h rej v,
    EvEnqueue (promise_reaction_job_entry (q, id) f0 f1 h rej v) ∈ log w ->
    exists s, promises w !! q = Some s /\ ~ pending s /\ is_rejected s = rej /\ promise_result s = v;
  i_fifo : omap enqueued_job (log w) = omap executed_job (log w) ++ job_list w
}.

(** What never changes: objects stay, and a settled promise keeps its state and
    its result. *)
Record keeps (w w' : world) : Prop := {
  k_functions : forall f s, functions w !! f = Some s -> functions w' !! f = Some s;
  k_promises : forall p, is_Some (promises w !! p) -> is_Some (promises w' !! p);
  k_settled : forall p s, promises w !! p = Some s -> ~ pending s ->
    exists s', promises w' !! p = Some s' /\ promise_state s' = promise_state s /\ promise_result s' = promise_result s;
  k_log : log w `prefix_of` log w'
}.

(** The log of a later world. *)
Ltac log_grows := cbn; rewrite <- ?app_assoc; first [reflexivity | eexists; reflexivity].

Lemma keeps_refl w : keeps w w.
Proof. split; eauto. Qed.

Lemma keeps_trans w1 w2 w3 : keeps w1 w2 -> keeps w2 w3 -> keeps w1 w3.
Proof.
  intros [F1 P1 S1 L1] [F2 P2 S2 L2]. split; [eauto | eauto | | by etrans].
  intros p s Hp Hs. destruct (S1 p s Hp Hs) as (s' & Hp' & Es & Er).
  destruct (S2 p s' Hp') as (s'' & Hp'' & Es' & Er'); [unfold pending in *; congruence |].
  exists s''. split_and!; [done | congruence | congruence].
Qed.

Lemma known_mono w w' v : keeps w w' -> known w v -> known w' v.
Proof.
  intros [F P _ _] Hv. destruct v as [| | | p | f |]; cbn in *; try done.
  - destruct (promises w !! p) as [s |] eqn:E; [| done].
    destruct (P p ltac:(by eexists)) as [s' ->]. done.
  - destruct (functions w !! f) as [s |] eqn:E; [| done]. by rewrite (F f s E).
Qed.

Lemma known_reaction_mono w w' rd : keeps w w' -> known_reaction w rd -> known_reaction w' rd.
Proof. intros K (? & ? & ?). split_and!; by eapply known_mono. Qed.

Lemma known_job_mono w w' e : keeps w w' -> known_job w e -> known_job w' e.
Proof. intros K. destruct e; cbn [known_job]; intuition eauto using known_mono. Qed.

Lemma known_frame_mono w w' fr : keeps w w' -> known_frame w fr -> known_frame w' fr.
Proof. intros K. destruct fr; cbn [known_frame]; intuition eauto using known_mono. Qed.

Lemma promise_ok_mono w w' p s : keeps w w' -> promise_ok w p s -> promise_ok w' p s.
Proof.
  intros K [H1 H2 H3 H4 H5 H6 H7]. split; try done.
  - by eapply known_mono.
  - eapply list.Forall_impl; [exact H4 |]. intros. by eapply known_reaction_mono.
  - eapply list.Forall_impl; [exact H5 |]. intros. by eapply known_reaction_mono.
Qed.

(** ** Updates that do not concern the promises *)
Section inv.
Variable full : bool.
Abbreviation inv := (inv full).

Lemma tokens_nonneg p w : 0 <= tokens p w.
Proof. unfold tokens. pose proof (countb_nonneg (is_get_then p) (frames w)). pose proof (countb_nonneg (is_thenable p) (job_list w)). lia. Qed.

Lemma keeps_same w w' : promises w' = promises w -> functions w' = functions w ->
  log w `prefix_of` log w' -> keeps w w'.
Proof. intros E1 E2 L. split; rewrite ?E1, ?E2; eauto. Qed.

Lemma keeps_insert w w' p s' : promises w' = <[p := s']> (promises w) -> functions w' = functions w ->
  log w `prefix_of` log w' ->
  (forall s, promises w !! p = Some s -> ~ pending s ->
     promise_state s' = promise_state s /\ promise_result s' = promise_result s) -> keeps w w'.
Proof.
  intros E1 E2 L H. split; rewrite ?E1, ?E2; [done | | | done].
  - intros q Hq. apply lookup_insert_is_Some. by destruct (decide (p = q)); [left | right].
  - intros q s Hq Hn. destruct (decide (p = q)) as [<- | E].
    + exists s'. rewrite lookup_insert_eq. split; [done | by apply H].
    + exists s. by rewrite lookup_insert_ne.
Qed.

(** The fields of the invariant that an update does not touch. *)
Ltac untouched :=
  split; try done;
  try match goal with
  | H : forall p s, promises ?w !! p = Some s -> promise_ok ?w p s
    |- forall p s, promises ?w' !! p = Some s -> promise_ok ?w' p s =>
      refine (fun p s Hp => promise_ok_mono w w' p s (keeps_same w w' eq_refl eq_refl _) (H p s Hp)); log_grows
  end.

Lemma inv_ctl w c : inv w -> known_ctl (set_ctl c w) -> inv (set_ctl c w).
Proof. intros [] Hc. untouched. Qed.

Lemma inv_returning w o : inv w -> known w (outcome_value o) -> inv (returning o w).
Proof. intros I Ho. apply inv_ctl; [done | exact Ho]. Qed.

Lemma inv_running w : inv w -> inv (set_ctl Running w).
Proof. intros I. by apply inv_ctl. Qed.

(** Fewer waiting resolve calls on the stack. *)
Lemma inv_frames w l : inv w -> Forall (known_frame w) l ->
  (forall p, countb (is_get_then p) l <= countb (is_get_then p) (frames w)) -> inv (set_frames l w).
Proof.
  intros [] Hl Hc.
  assert (forall p, tokens p (set_frames l w) <= tokens p w) as Ht.
  { intros p. unfold tokens. cbn. specialize (Hc p). lia. }
  untouched.
  - intros p. specialize (Ht p). specialize (i_tokens0 p). lia.
  - intros p Ho. specialize (Ht p). pose proof (tokens_nonneg p (set_frames l w)).
    specialize (i_open_tokens0 p Ho). lia.
  - intros p s Hp Hs. specialize (Ht p). pose proof (tokens_nonneg p (set_frames l w)).
    destruct (i_settled0 p s Hp Hs). split; [lia | done].
Qed.

Lemma inv_push w fr : inv w -> known_frame w fr -> (forall p, is_get_then p fr = false) -> inv (push fr w).
Proof.
  intros I Hf Hg. apply inv_frames; [done | |].
  - constructor; [done | apply (i_frames _ _ I)].
  - intros p. cbn [countb]. rewrite Hg. lia.
Qed.

Lemma inv_pop w fr l : inv w -> frames w = fr :: l -> inv (set_frames l w) /\ known_frame w fr.
Proof.
  intros I E. pose proof (i_frames _ _ I) as Hf. rewrite E in Hf.
  apply Forall_cons_iff in Hf as [Hfr Hl]. split; [| done]. apply inv_frames; [done | done |].
  intros p. rewrite E. cbn [countb]. destruct (is_get_then p fr); lia.
Qed.

(** The [then] property of a resolution is being read. *)
Lemma inv_get_then w p v : inv w -> known w (Promise p) -> known w v -> tokens p w = 0 -> ~ open w p ->
  (forall s, promises w !! p = Some s -> pending s) -> inv (push (FGetThen p v) w).
Proof.
  intros I Kp Kv Ht Ho Hpend. pose proof I as [].
  assert (forall q, tokens q (push (FGetThen p v) w) = (if p =? q then 1 else 0) + tokens q w) as E.
  { intros q. unfold tokens. cbn. lia. }
  untouched.
  - constructor; done.
  - intros q. rewrite E. destruct (Z.eqb_spec p q) as [<- |]; [lia |]. specialize (i_tokens0 q). lia.
  - intros q Hq. rewrite E. destruct (Z.eqb_spec p q) as [<- |]; [done |]. specialize (i_open_tokens0 q Hq). lia.
  - intros q s Hq Hs. rewrite E. destruct (Z.eqb_spec p q) as [<- |]; [destruct Hs; by apply Hpend |].
    destruct (i_settled0 q s Hq Hs). split; [lia | done].
Qed.

Lemma get_then_token w p v l : inv w -> frames w = FGetThen p v :: l ->
  tokens p (set_frames l w) = 0 /\ ~ open w p /\ (forall s, promises w !! p = Some s -> pending s).
Proof.
  intros I E.
  assert (tokens p w = 1 + tokens p (set_frames l w)) as Et.
  { unfold tokens. rewrite E. cbn. rewrite Z.eqb_refl. lia. }
  pose proof (tokens_nonneg p (set_frames l w)). pose proof (i_tokens _ _ I p).
  split_and!; [lia | |].
  - intros Ho. pose proof (i_open_tokens _ _ I p Ho). lia.
  - intros s Hs. destruct (promise_state s) eqn:Es; [done | |]; exfalso;
      (destruct (i_settled _ _ I p s Hs); [unfold pending; congruence | lia]).
Qed.

(** ** Using a resolving function *)
Lemma inv_use_flag w f s : inv w -> functions w !! f = Some s -> resolved w !! presolved s = Some false ->
  let w' := set_flag (presolved s) true w in
  inv w' /\ keeps w w' /\ tokens (fn_promise s) w' = 0 /\ ~ open w' (fn_promise s) /\
  (forall t, promises w' !! fn_promise s = Some t -> pending t).
Proof.
  intros I Hf Hr w'. pose proof I as [].
  assert (open w (fn_promise s)) as Ho by (by exists f, s).
  assert (forall q, open w' q -> open w q) as Hopen.
  { intros q (g & t & Hg & Hq & Hgr). exists g, t. split_and!; [done | done |]. cbn in Hgr.
    destruct (decide (presolved s = presolved t)) as [E | E].
    - rewrite E, lookup_insert_eq in Hgr. done.
    - by rewrite lookup_insert_ne in Hgr. }
  split_and!.
  - untouched.
    + intros r b Hb. cbn in Hb. destruct (decide (presolved s = r)) as [<- | E].
      * exact (i_rnext0 _ _ Hr).
      * rewrite lookup_insert_ne in Hb by done. exact (i_rnext0 _ _ Hb).
    + intros g t Hg. cbn. destruct (i_fn0 g t Hg) as [? [b Hb]]. split; [done |].
      destruct (decide (presolved s = presolved t)) as [-> | E].
      * rewrite lookup_insert_eq. by eexists.
      * rewrite lookup_insert_ne by done. by eexists.
    + intros g h t u Hg Hh Ep Hgr Hhr. cbn in Hgr, Hhr.
      apply (i_open0 g h); try done.
      * destruct (decide (presolved s = presolved t)) as [E | E];
          [rewrite E, lookup_insert_eq in Hgr | rewrite lookup_insert_ne in Hgr]; done.
      * destruct (decide (presolved s = presolved u)) as [E | E];
          [rewrite E, lookup_insert_eq in Hhr | rewrite lookup_insert_ne in Hhr]; done.
    + intros q Hq. exact (i_open_tokens0 q (Hopen q Hq)).
    + intros q t Hq Ht. destruct (i_settled0 q t Hq Ht). split; [done |]. intros Hoq. by apply Hopen in Hoq.
  - apply keeps_same; [done | done | log_grows].
  - exact (i_open_tokens0 _ Ho).
  - intros (g & t & Hg & Eg & Hgr). cbn in Hgr.
    destruct (decide (presolved s = presolved t)) as [E | E].
    + rewrite E, lookup_insert_eq in Hgr. done.
    + rewrite lookup_insert_ne in Hgr by done. destruct E. exact (i_open0 f g s t Hf Hg (eq_sym Eg) Hr Hgr).
  - intros t Ht. destruct (promise_state t) eqn:Et; [done | |]; exfalso;
      (destruct (i_settled0 _ t Ht) as [_ Hn]; [unfold pending; congruence | by apply Hn]).
Qed.

(** ** Queueing jobs *)
Lemma JS_EnqueueJob_spec e w : exists js mem',
  JS_EnqueueJob e w = mkWorld (promises w) (functions w) (resolved w) (job_list w ++ js) (frames w) (ctl w) mem'
    (next_id w) (log w ++ map EvEnqueue js) /\
  js `sublist_of` [e] /\ (mem w = [] -> mem' = [] /\ js = [e]).
Proof.
  unfold JS_EnqueueJob, js_malloc. destruct w as [P F R J fr c [| [] m] n l]; cbn.
  - exists [e], []. done.
  - exists [e], m. done.
  - exists [], m. rewrite !app_nil_r. split_and!; [done | apply sublist_nil_l | done].
Qed.

Lemma enqueue_reactions_spec l rej v : forall w, exists js mem',
  enqueue_reactions l rej v w =
    mkWorld (promises w) (functions w) (resolved w) (job_list w ++ js) (frames w) (ctl w) mem'
      (next_id w) (log w ++ map EvEnqueue js) /\
  js `sublist_of` map (fun rd => reaction_job rd rej v) l /\
  (mem w = [] -> mem' = [] /\ js = map (fun rd => reaction_job rd rej v) l).
Proof.
  induction l as [| rd l IH]; intros w; cbn [enqueue_reactions map].
  - exists [], (mem w). rewrite !app_nil_r. destruct w. done.
  - destruct (JS_EnqueueJob_spec (reaction_job rd rej v) w) as (j1 & m1 & -> & S1 & E1).
    destruct (IH (mkWorld (promises w) (functions w) (resolved w) (job_list w ++ j1) (frames w) (ctl w) m1
      (next_id w) (log w ++ map EvEnqueue j1))) as (j2 & m2 & -> & S2 & E2). cbn in *.
    exists (j1 ++ j2), m2. rewrite map_app, !app_assoc. split; [done |]. split.
    + by apply (sublist_app j1 [reaction_job rd rej v] j2).
    + intros Hm. destruct (E1 Hm) as [-> ->]. destruct (E2 eq_refl) as [-> ->]. done.
Qed.

Lemma omap_enqueued js : omap enqueued_job (map EvEnqueue js) = js.
Proof. induction js as [| j js IH]; cbn; [done |]. f_equal. exact IH. Qed.
Lemma omap_executed js : omap executed_job (map EvEnqueue js) = [].
Proof. induction js as [| j js IH]; cbn; [done |]. exact IH. Qed.
Lemma omap_then p js : omap (then_id p) (map EvEnqueue js) = [].
Proof. induction js as [| j js IH]; cbn; [done |]. exact IH. Qed.

(** The queue and the log after [js] were queued. *)
Lemma reaction_jobs_tokens q l rej v js : js `sublist_of` map (fun rd => reaction_job rd rej v) l ->
  countb (is_thenable q) js = 0.
Proof.
  intros Hs. apply countb_zero. intros j Hj.
  pose proof (elem_of_sublist _ _ _ Hj Hs) as Hj'.
  apply list_elem_of_In, in_map_iff in Hj' as (rd & <- & _). done.
Qed.

Lemma reaction_jobs_in l rej v js j : js `sublist_of` map (fun rd => reaction_job rd rej v) l -> j ∈ js ->
  exists rd, rd ∈ l /\ j = reaction_job rd rej v.
Proof.
  intros Hs Hj. pose proof (elem_of_sublist _ _ _ Hj Hs) as Hj'.
  apply list_elem_of_In, in_map_iff in Hj' as (rd & <- & Hrd). exists rd. by rewrite list_elem_of_In.
Qed.

Lemma reaction_jobs_known w l rej v js : js `sublist_of` map (fun rd => reaction_job rd rej v) l ->
  Forall (known_reaction w) l -> known w v -> Forall (known_job w) js.
Proof.
  intros Hs Hl Hv. apply list.Forall_forall. intros j Hj.
  destruct (reaction_jobs_in _ _ _ _ _ Hs Hj) as (rd & Hrd & ->).
  rewrite list.Forall_forall in Hl. destruct (Hl rd Hrd) as (? & ? & ?). done.
Qed.

(** The ids of the queued reactions of one promise. *)
Lemma enqueued_reactions p q l rej v : Forall (fun rd : JSPromiseReactionData => (rd_id rd).1 = p) l ->
  omap (enqueue_id q) (map EvEnqueue (map (fun rd => reaction_job rd rej v) l)) =
  if p =? q then map (fun rd : JSPromiseReactionData => (rd_id rd).2) l else [].
Proof.
  induction 1 as [| [[p' id] f0 f1 h] l Hp Hl IH]; cbn in *; [by destruct (p =? q) |].
  subst p'. destruct (p =? q); cbn; [f_equal |]; exact IH.
Qed.

(** Events that say nothing about the promises. *)
Definition tracker (e : event) : Prop := match e with EvTracker _ _ => True | _ => False end.

Lemma omap_trackers {B} (f : event -> option B) evs : Forall tracker evs ->
  (forall p b, f (EvTracker p b) = None) -> omap f evs = [].
Proof. intros H Hf. induction H as [| [] evs He Hevs IH]; try done. cbn. rewrite Hf. exact IH. Qed.

(** ** Settling *)
Definition settled_as (s : JSPromiseData) (rej : bool) (v : value) : JSPromiseData :=
  mkPromise (if rej then JS_PROMISE_REJECTED else JS_PROMISE_FULFILLED) [] [] (is_handled s) v.

Lemma settle_inv w p s v (rej : bool) js m evs l : inv w -> promises w !! p = Some s -> pending s ->
  tokens p w = 0 -> ~ open w p -> known w v -> Forall tracker evs ->
  l = (if rej then promise_reactions1 s else promise_reactions0 s) ->
  js `sublist_of` map (fun rd => reaction_job rd rej v) l ->
  (mem w = [] -> m = [] /\ js = map (fun rd => reaction_job rd rej v) l) ->
  let w' := mkWorld (<[p := settled_as s rej v]> (promises w)) (functions w) (resolved w) (job_list w ++ js)
              (frames w) (ctl w) m (next_id w) ((log w ++ evs) ++ map EvEnqueue js) in
  keeps w w' /\ inv w'.
Proof.
  intros I Hp Hpend Ht Ho Hv Hevs Hl Hjs Hmem w'. pose proof I as [].
  assert (keeps w w') as K.
  { apply (keeps_insert w w' p (settled_as s rej v)); [done | done | log_grows | congruence]. }
  split; [exact K |].
  destruct (i_promise0 p s Hp) as [R1 R2 R3 R4 R5 R6 R7].
  assert (Forall (fun rd : JSPromiseReactionData => (rd_id rd).1 = p) l) as Hown.
  { rewrite Hl. destruct rej; [| exact R7].
    assert (Forall (fun i : Z * Z => i.1 = p) (map rd_id (promise_reactions1 s))) as H1.
    { rewrite <- R6. by apply list.Forall_fmap. }
    by apply list.Forall_fmap in H1. }
  assert (Forall (known_reaction w) l) as Hkl by (rewrite Hl; by destruct rej).
  assert (forall q, tokens q w' = tokens q w) as Htok.
  { intros q. unfold tokens. cbn. rewrite countb_app, (reaction_jobs_tokens q l rej v js Hjs). lia. }
  assert (~ pending (settled_as s rej v)) as Hnp by (unfold pending; by destruct rej).
  split; cbn.
  - intros q t Hq. destruct (decide (p = q)) as [<- | E]; [by eapply i_next0 |].
    rewrite lookup_insert_ne in Hq by done. by eapply i_next0.
  - done.
  - done.
  - intros f t Hf. destruct (i_fn0 f t Hf) as [? ?]. split; [| done]. by apply K.
  - done.
  - intros q t Hq. destruct (decide (p = q)) as [<- | E].
    + rewrite lookup_insert_eq in Hq. injection Hq as <-. split; try done.
      by eapply (known_mono w w').
    + rewrite lookup_insert_ne in Hq by done. eapply promise_ok_mono; [exact K | by apply i_promise0].
  - apply Forall_app. split.
    + eapply list.Forall_impl; [exact i_jobs0 |]. intros. by eapply known_job_mono.
    + eapply list.Forall_impl; [exact (reaction_jobs_known w l rej v js Hjs Hkl Hv) |].
      intros. by eapply known_job_mono.
  - eapply list.Forall_impl; [exact i_frames0 |]. intros. by eapply known_frame_mono.
  - unfold known_ctl in *. cbn. destruct (ctl w) as [| o] eqn:Ec; [done |]. by eapply (known_mono w w').
  - done.
  - intros q. rewrite Htok. apply i_tokens0.
  - intros q Hq. rewrite Htok. by apply i_open_tokens0.
  - intros q t Hq Hn. rewrite Htok. destruct (decide (p = q)) as [<- | E]; [done |].
    rewrite lookup_insert_ne in Hq by done. by apply (i_settled0 q t).
  - intros q Hq. apply elem_of_app in Hq as [Hq | Hq].
    + apply elem_of_app in Hq as [Hq | Hq]; [by eapply i_ignored0 |].
      rewrite list.Forall_forall in Hevs. by apply Hevs in Hq.
    + apply list_elem_of_In, in_map_iff in Hq as (j & [=] & _).
  - intros Hfull. by destruct (Hmem (i_mem0 Hfull)).
  - intros Hfull q. destruct (Hmem (i_mem0 Hfull)) as [-> Ejs].
    unfold enqueued, registered, waiting. cbn. rewrite !omap_app, omap_then, app_nil_r.
    rewrite !(omap_trackers _ evs) by done. rewrite !app_nil_r.
    rewrite Ejs, (enqueued_reactions p q l rej v Hown).
    specialize (i_then0 Hfull q). unfold enqueued, registered, waiting in i_then0.
    destruct (Z.eqb_spec p q) as [<- | E].
    + rewrite lookup_insert_eq. cbn. rewrite app_nil_r. rewrite Hp in i_then0.
      assert (map (fun rd : JSPromiseReactionData => (rd_id rd).2) l = map (fun rd : JSPromiseReactionData => (rd_id rd).2) (promise_reactions0 s)) as ->;
        [| done].
      rewrite Hl. destruct rej; [| done].
      rewrite <- (map_map rd_id snd (promise_reactions0 s)), <- (map_map rd_id snd (promise_reactions1 s)).
      by rewrite R6.
    + rewrite lookup_insert_ne by done. by rewrite app_nil_r.
  - intros q id Hq. apply elem_of_app in Hq as [Hq | Hq].
    + apply elem_of_app in Hq as [Hq | Hq]; [by eapply i_then_ids0 |].
      rewrite list.Forall_forall in Hevs. by apply Hevs in Hq.
    + apply list_elem_of_In, in_map_iff in Hq as (j & [=] & _).
  - intros q. unfold registered. cbn. rewrite !omap_app, omap_then, (omap_trackers _ evs), !app_nil_r by done.
    apply i_then_nodup0.
  - intros q id f0 f1 h rej' v' Hq. apply elem_of_app in Hq as [Hq | Hq].
    + apply elem_of_app in Hq as [Hq | Hq].
      * destruct (i_enqueue0 _ _ _ _ _ _ _ Hq) as (t & Eq & Hn & ?).
        destruct (decide (p = q)) as [<- | E]; [congruence |].
        exists t. by rewrite lookup_insert_ne.
      * rewrite list.Forall_forall in Hevs. by apply Hevs in Hq.
    + apply list_elem_of_In, in_map_iff in Hq as (j & [= ->] & Hj).
      destruct (reaction_jobs_in _ _ _ _ _ Hjs ltac:(by apply list_elem_of_In)) as (rd & Hrd & Erd).
      rewrite list.Forall_forall in Hown. specialize (Hown rd Hrd).
      destruct rd as [[p' id'] g0 g1 g]. cbn in *. injection Erd as -> -> -> -> -> -> ->. subst p'.
      exists (settled_as s rej v). rewrite lookup_insert_eq. split_and!; [done | done | by destruct rej | done].
  - rewrite !omap_app, omap_enqueued, omap_executed, !(omap_trackers _ evs) by done.
    rewrite !app_nil_r, i_fifo0, app_assoc. done.
Qed.

Lemma settle_spec w p v rej : inv w -> known w (Promise p) -> tokens p w = 0 -> ~ open w p ->
  (forall s, promises w !! p = Some s -> pending s) -> known w v ->
  exists w', fulfill_or_reject_promise p v rej w = Ret w' /\ inv w' /\ keeps w w'.
Proof.
  intros I Kp Ht Ho Hpend Hv. cbn in Kp. destruct (promises w !! p) as [s |] eqn:Hp; [| done].
  specialize (Hpend s eq_refl). unfold fulfill_or_reject_promise. rewrite Hp. cbn [of_opt mbind res_bind].
  unfold pending in Hpend. rewrite Hpend.
  set (w1 := if rej && negb (is_handled s) then add_event (EvTracker p false) w else w).
  set (l := if rej then promise_reactions1 s else promise_reactions0 s).
  destruct (enqueue_reactions_spec l rej v (set_promise p (settled_as s rej v) w1)) as (js & m & E & Hjs & Hm).
  unfold settled_as in E at 1. rewrite E. eexists. split; [reflexivity |].
  assert (exists evs, Forall tracker evs /\ w1 = mkWorld (promises w) (functions w) (resolved w) (job_list w)
    (frames w) (ctl w) (mem w) (next_id w) (log w ++ evs)) as (evs & Hevs & Ew).
  { unfold w1. destruct (rej && negb (is_handled s)).
    - exists [EvTracker p false]. split; [by repeat constructor | done].
    - exists []. rewrite app_nil_r. by destruct w. }
  rewrite Ew in E |- *. rewrite Ew in Hm. cbn in Hm.
  destruct (settle_inv w p s v rej js m evs l) as [K I']; try done.
Qed.

(** A thenable job is queued. *)
Lemma enqueue_thenable w p v then_ : inv w -> known w (Promise p) -> known w v -> known w then_ ->
  tokens p w = 0 -> ~ open w p -> (forall s, promises w !! p = Some s -> pending s) ->
  let w' := JS_EnqueueJob (js_promise_resolve_thenable_job_entry p v then_) w in inv w' /\ keeps w w'.
Proof.
  intros I Kp Kv Kt Ht Ho Hpend w'. unfold w'.
  destruct (JS_EnqueueJob_spec (js_promise_resolve_thenable_job_entry p v then_) w) as (js & m & -> & Hjs & Hm).
  set (w1 := mkWorld _ _ _ _ _ _ _ _ _).
  assert (keeps w w1) as K by (apply keeps_same; [done | done | log_grows]). split; [| exact K]. pose proof I as [].
  assert (js = [] \/ js = [js_promise_resolve_thenable_job_entry p v then_]) as Ej.
  { inversion Hjs as [| ? ? ? Hs | ? ? ? Hs]; subst; apply sublist_nil_r in Hs; subst; auto. }
  assert (forall q, tokens q w <= tokens q w1 <= tokens q w + (if p =? q then 1 else 0)) as Htok.
  { intros q. unfold tokens. cbn. rewrite countb_app. destruct Ej as [-> | ->]; cbn; destruct (p =? q); lia. }
  assert (forall q, p <> q -> tokens q w1 = tokens q w) as Hother.
  { intros q Hq. specialize (Htok q). destruct (Z.eqb_spec p q); [done | lia]. }
  untouched; cbn.
  - apply Forall_app. split; [done |]. destruct Ej as [-> | ->]; repeat constructor; done.
  - intros q. destruct (decide (p = q)) as [<- | E]; [| rewrite Hother by done; apply i_tokens0].
    specialize (Htok p). rewrite Z.eqb_refl in Htok. lia.
  - intros q Hq. destruct (decide (p = q)) as [<- | E]; [done |]. rewrite Hother by done. by apply i_open_tokens0.
  - intros q s Hq Hn. destruct (decide (p = q)) as [<- | E]; [destruct Hn; by apply Hpend |].
    rewrite Hother by done. by apply (i_settled0 q s).
  - intros q Hq. apply elem_of_app in Hq as [Hq | Hq]; [by eapply i_ignored0 |].
    apply list_elem_of_In, in_map_iff in Hq as (j & [=] & _).
  - intros Hfull. by destruct (Hm (i_mem0 Hfull)).
  - intros Hfull q. specialize (i_then0 Hfull q). unfold enqueued, registered, waiting in *. cbn.
    rewrite !omap_app, omap_then, app_nil_r, <- i_then0.
    destruct Ej as [-> | ->]; cbn; by rewrite ?app_nil_r.
  - intros q id Hq. apply elem_of_app in Hq as [Hq | Hq]; [by eapply i_then_ids0 |].
    apply list_elem_of_In, in_map_iff in Hq as (j & [=] & _).
  - intros q. unfold registered. cbn. rewrite omap_app, omap_then, app_nil_r. apply i_then_nodup0.
  - intros q id f0 f1 h rej u Hq. apply elem_of_app in Hq as [Hq | Hq]; [by eapply i_enqueue0 |].
    apply list_elem_of_In, in_map_iff in Hq as (j & [= ->] & Hj). destruct Ej as [-> | ->]; [done |].
    destruct Hj as [[=] | []].
  - rewrite !omap_app, omap_enqueued, omap_executed, app_nil_r, i_fifo0, app_assoc. done.
Qed.

(** An allocation. *)
Lemma js_malloc_spec w : inv w -> exists ok w', js_malloc w = (ok, w') /\ inv w' /\ keeps w w' /\
  promises w' = promises w /\ functions w' = functions w /\ resolved w' = resolved w /\
  job_list w' = job_list w /\ frames w' = frames w /\ next_id w' = next_id w.
Proof.
  intros I. pose proof I as []. unfold js_malloc. destruct (mem w) as [| b m] eqn:Em.
  - exists true, w. split_and!; try done. apply keeps_refl.
  - eexists b, _. split; [reflexivity |]. split; [| split_and!; [apply keeps_same; [done | done | log_grows] | done..]].
    untouched. intros Hfull. specialize (i_mem0 Hfull). congruence.
Qed.

(** New resolving functions for a promise that nothing can settle yet. *)
Lemma create_functions_spec w p : inv w -> known w (Promise p) -> tokens p w = 0 -> ~ open w p ->
  (forall s, promises w !! p = Some s -> pending s) ->
  exists fs w', js_create_resolving_functions p w = (fs, w') /\ inv w' /\ keeps w w' /\
    match fs with Some (v0, v1) => known w' v0 /\ known w' v1 | None => True end /\
    frames w' = frames w /\ promises w' = promises w.
Proof.
  intros I Kp Ht Ho Hpend. unfold js_create_resolving_functions.
  destruct (js_malloc_spec w I) as (ok & w1 & -> & I1 & K1 & Ep & Ef & Er & Ej & Efr & En).
  destruct ok; [| by exists None, w1].
  cbn. set (n := next_id w1). set (s0 := mkFunction p n false). set (s1 := mkFunction p n true).
  eexists _, _. split; [reflexivity |].
  set (w2 := set_function _ _ _).
  pose proof I1 as [].
  assert (functions w1 !! (n + 1) = None /\ functions w1 !! (n + 1 + 1) = None) as [N0 N1].
  { split; (destruct (functions w1 !! _) eqn:E; [| done]); apply i_fnext0 in E; unfold n in E; lia. }
  assert (resolved w1 !! n = None) as Nr.
  { destruct (resolved w1 !! n) eqn:E; [| done]. apply i_rnext0 in E. unfold n in E. lia. }
  assert (forall f s, functions w2 !! f = Some s <->
    f = n + 1 + 1 /\ s = s1 \/ f = n + 1 /\ s = s0 \/ functions w1 !! f = Some s) as Hfun.
  { intros f s. cbn. destruct (decide (n + 1 + 1 = f)) as [<- | D1].
    - rewrite lookup_insert_eq, N1. split; [intros [= <-]; auto |].
      intros [[_ ->] | [[? ?] | ?]]; [done | lia | done].
    - rewrite lookup_insert_ne by done. destruct (decide (n + 1 = f)) as [<- | D0].
      + rewrite lookup_insert_eq, N0. split; [intros [= <-]; auto |].
        intros [[? ?] | [[_ ->] | ?]]; [lia | done | done].
      + rewrite lookup_insert_ne by done. split; [auto |]. intros [[? ?] | [[? ?] | ?]]; [lia | lia | done]. }
  assert (keeps w1 w2) as K2.
  { split; [intros f s Hf; apply Hfun; auto | done | intros q s ? ?; by exists s | log_grows]. }
  assert (keeps w w2) as K by (by eapply keeps_trans).
  assert (forall r, r <> n -> resolved w2 !! r = resolved w1 !! r) as Hres
    by (intros r ?; cbn; by rewrite lookup_insert_ne).
  assert (forall f s, functions w1 !! f = Some s -> presolved s <> n) as Hold.
  { intros f s Hf E. destruct (i_fn0 f s Hf) as [_ [b Hb]]. congruence. }
  assert (forall q, open w2 q -> q = p \/ open w1 q) as Hopen.
  { intros q (f & s & Hf & Hq & Hr). apply Hfun in Hf as [[-> ->] | [[-> ->] | Hf]]; [by left | by left |].
    right. exists f, s. split_and!; try done. rewrite Hres in Hr; [done | by eapply Hold]. }
  assert (forall q, tokens q w2 = tokens q w1) as Htok by done.
  assert (tokens p w1 = 0) as Ht1 by (unfold tokens in *; by rewrite Efr, Ej).
  assert (~ open w1 p) as Ho1 by (unfold open in *; by rewrite Ef, Er).
  split_and!; try done.
  - split; try done.
    + intros q s Hq. specialize (i_next0 q s Hq). cbn. unfold n. lia.
    + intros f s Hf. cbn. apply Hfun in Hf as [[-> _] | [[-> _] | Hf]]; [unfold n; lia | unfold n; lia |].
      specialize (i_fnext0 f s Hf). unfold n. lia.
    + intros r b Hr. cbn. destruct (decide (r = n)) as [-> | D]; [unfold n; lia |].
      rewrite Hres in Hr by done. specialize (i_rnext0 r b Hr). unfold n. lia.
    + intros f s Hf. apply Hfun in Hf as [[-> ->] | [[-> ->] | Hf]].
      * cbn. rewrite lookup_insert_eq. split; [| by eexists]. rewrite Ep. cbn in Kp.
        destruct (promises w !! p) eqn:E; [by eexists | done].
      * cbn. rewrite lookup_insert_eq. split; [| by eexists]. rewrite Ep. cbn in Kp.
        destruct (promises w !! p) eqn:E; [by eexists | done].
      * destruct (i_fn0 f s Hf) as [? ?]. split; [done |]. rewrite Hres; [done | by eapply Hold].
    + intros f g s t Hf Hg E.
      apply Hfun in Hf as [[-> ->] | [[-> ->] | Hf]]; apply Hfun in Hg as [[-> ->] | [[-> ->] | Hg]]; try done;
        try (destruct (Hold _ _ Hg); done); try (destruct (Hold _ _ Hf); done).
      by eapply (i_flag0 f g).
    + intros q s Hq. eapply promise_ok_mono; [exact K2 | by apply i_promise0].
    + eapply list.Forall_impl; [exact i_jobs0 |]. intros. by eapply (known_job_mono w1 w2).
    + eapply list.Forall_impl; [exact i_frames0 |]. intros. by eapply (known_frame_mono w1 w2).
    + unfold known_ctl in *. cbn. destruct (ctl w1); [done |]. by eapply (known_mono w1 w2).
    + intros f g s t Hf Hg E Hr Hr'.
      apply Hfun in Hf as [[-> ->] | [[-> ->] | Hf]]; apply Hfun in Hg as [[-> ->] | [[-> ->] | Hg]]; try done;
        cbn in E.
      * destruct Ho1. exists g, t. rewrite Hres in Hr' by (by eapply Hold). done.
      * destruct Ho1. exists g, t. rewrite Hres in Hr' by (by eapply Hold). done.
      * destruct Ho1. exists f, s. rewrite Hres in Hr by (by eapply Hold). done.
      * destruct Ho1. exists f, s. rewrite Hres in Hr by (by eapply Hold). done.
      * rewrite Hres in Hr by (by eapply Hold). rewrite Hres in Hr' by (by eapply Hold).
        by eapply (i_open0 f g).
    + intros q Hq. rewrite Htok. destruct (Hopen q Hq) as [-> | Hq']; [done | by apply i_open_tokens0].
    + intros q s Hq Hn. rewrite Htok. destruct (i_settled0 q s Hq Hn) as [? ?]. split; [done |].
      intros Hoq. destruct (Hopen q Hoq) as [-> | ?]; [| done]. destruct Hn. apply Hpend. by rewrite <- Ep.
    + intros q id Hq. specialize (i_then_ids0 q id Hq). cbn. unfold n. lia.
  - cbn. rewrite lookup_insert_ne by lia. by rewrite lookup_insert_eq.
  - cbn. by rewrite lookup_insert_eq.
Qed.

(** A new promise. *)
Lemma new_promise_spec w : inv w -> exists op w', new_promise w = (op, w') /\ inv w' /\ keeps w w' /\
  frames w' = frames w /\
  match op with
  | Some p => known w' (Promise p) /\ tokens p w' = 0 /\ ~ open w' p /\
              (forall s, promises w' !! p = Some s -> pending s)
  | None => True
  end.
Proof.
  intros I. unfold new_promise.
  destruct (js_malloc_spec w I) as (ok & w1 & -> & I1 & K1 & Ep & Ef & Er & Ej & Efr & En).
  destruct ok; [| by exists None, w1].
  cbn. set (p := next_id w1). eexists _, _. split; [reflexivity |].
  set (w2 := set_promise _ _ _). pose proof I1 as [].
  assert (promises w1 !! p = None) as Np.
  { destruct (promises w1 !! p) eqn:E; [| done]. apply i_next0 in E. unfold p in E. lia. }
  assert (keeps w1 w2) as K2.
  { eapply (keeps_insert w1 w2 p); [reflexivity | done | log_grows | congruence]. }
  assert (tokens p w1 = 0) as Ht.
  { unfold tokens. rewrite !countb_zero; [done | |].
    - intros e He. rewrite list.Forall_forall in i_jobs0. specialize (i_jobs0 e He).
      destruct e as [| q v u]; [done |]. destruct i_jobs0 as [Kq _]. cbn in *.
      destruct (Z.eqb_spec q p) as [-> |]; [by rewrite Np in Kq | done].
    - intros fr Hfr. rewrite list.Forall_forall in i_frames0. specialize (i_frames0 fr Hfr).
      destruct fr as [| | | | q v | | |]; try done. destruct i_frames0 as [Kq _]. cbn in *.
      destruct (Z.eqb_spec q p) as [-> |]; [by rewrite Np in Kq | done]. }
  assert (~ open w1 p) as Ho.
  { intros (f & s & Hf & Hs & _). destruct (i_fn0 f s Hf) as [[t Hp] _]. congruence. }
  split_and!; try done.
  - split; try done.
    + intros q s Hq. cbn in *. destruct (decide (p = q)) as [<- | D]; [unfold p; lia |].
      rewrite lookup_insert_ne in Hq by done. specialize (i_next0 q s Hq). lia.
    + intros f s Hf. specialize (i_fnext0 f s Hf). cbn. lia.
    + intros r b Hr. specialize (i_rnext0 r b Hr). cbn. lia.
    + intros f s Hf. destruct (i_fn0 f s Hf). split; [by apply K2 | done].
    + intros q s Hq. cbn in Hq. destruct (decide (p = q)) as [<- | D].
      * rewrite lookup_insert_eq in Hq. injection Hq as <-. by split.
      * rewrite lookup_insert_ne in Hq by done. eapply promise_ok_mono; [exact K2 | by apply i_promise0].
    + eapply list.Forall_impl; [exact i_jobs0 |]. intros. by eapply known_job_mono.
    + eapply list.Forall_impl; [exact i_frames0 |]. intros. by eapply known_frame_mono.
    + unfold known_ctl in *. cbn. destruct (ctl w1); [done |]. by eapply (known_mono w1 w2).
    + intros q s Hq Hn. cbn in Hq. destruct (decide (p = q)) as [<- | D]; [done |].
      rewrite lookup_insert_ne in Hq by done. by apply (i_settled0 q s).
    + intros Hfull q. specialize (i_then0 Hfull q). unfold waiting in *. cbn.
      destruct (decide (p = q)) as [<- | D]; [| by rewrite lookup_insert_ne].
      rewrite lookup_insert_eq. by rewrite Np in i_then0.
    + intros q id Hq. specialize (i_then_ids0 q id Hq). cbn. lia.
    + intros q id f0 f1 h rej v Hq. destruct (i_enqueue0 _ _ _ _ _ _ _ Hq) as (s & Hs & ?).
      exists s. cbn. rewrite lookup_insert_ne; [done |]. congruence.
  - by eapply keeps_trans.
  - cbn. by rewrite lookup_insert_eq.
  - intros s. cbn. rewrite lookup_insert_eq. by intros [= <-].
Qed.

(** ** Registering reactions *)
Definition reaction_ids (l : list JSPromiseReactionData) : list Z := map (fun rd => (rd_id rd).2) l.

Lemma omap_snoc_then q p n l : omap (then_id q) (l ++ [EvThen (p, n)]) =
  omap (then_id q) l ++ (if p =? q then [n] else []).
Proof. rewrite omap_app. f_equal. cbn. by destruct (p =? q). Qed.

Lemma then_fresh p w : inv w -> next_id w ∉ registered p w.
Proof.
  intros I Hin. apply list_elem_of_omap in Hin as (e & He & Hid).
  destruct e as [| | [q id] | |]; try done. cbn in Hid.
  destruct (Z.eqb_spec q p) as [-> |]; [| done]. injection Hid as ->.
  pose proof (i_then_ids _ _ I p _ He). lia.
Qed.

(** The call of [then] number [next_id w] on [p], whose reaction is kept in [s'] or queued in [js]. *)
Lemma then_inv w p s s' rd rej js m evs : inv w -> promises w !! p = Some s -> promise_ok w p s' ->
  promise_state s' = promise_state s -> promise_result s' = promise_result s -> Forall tracker evs ->
  rd_id rd = (p, next_id w) -> known_reaction w rd ->
  js `sublist_of` [reaction_job rd rej (promise_result s)] ->
  (js <> [] -> ~ pending s /\ is_rejected s = rej) ->
  (mem w = [] -> m = [] /\ omap (enqueue_id p) (map EvEnqueue js) ++ reaction_ids (promise_reactions0 s') =
                           reaction_ids (promise_reactions0 s) ++ [next_id w]) ->
  let w' := mkWorld (<[p := s']> (promises w)) (functions w) (resolved w) (job_list w ++ js)
              (frames w) (ctl w) m (next_id w + 1)
              (((log w ++ [EvThen (p, next_id w)]) ++ evs) ++ map EvEnqueue js) in
  inv w' /\ keeps w w'.
Proof.
  intros I Hp Hok Est Eres Hevs Hid Hrd Hjs Hset Hmem w'. pose proof I as [].
  assert (keeps w w') as K.
  { apply (keeps_insert w w' p s'); [done | done | log_grows |]. intros t Ht. split; congruence. }
  split; [| exact K].
  assert (js `sublist_of` map (fun rd => reaction_job rd rej (promise_result s)) [rd]) as Hjs' by done.
  assert (forall q, tokens q w' = tokens q w) as Htok.
  { intros q. unfold tokens. cbn. rewrite countb_app, (reaction_jobs_tokens q _ _ _ _ Hjs'). lia. }
  assert (forall e, e ∈ log w' -> e ∈ log w \/ e = EvThen (p, next_id w) \/ tracker e \/
    exists j, j ∈ js /\ e = EvEnqueue j) as Hlog.
  { intros e. cbn. rewrite !elem_of_app, list_elem_of_singleton. rewrite list.Forall_forall in Hevs.
    intros [[[? | ->] | ?] | Hj]; [by left | by right; left | by right; right; left; apply Hevs |].
    right. right. right. apply list_elem_of_In, in_map_iff in Hj as (j & <- & Hj). exists j. by rewrite list_elem_of_In. }
  split; cbn.
  - intros q t Hq. destruct (decide (p = q)) as [<- | E]; [specialize (i_next0 p s Hp); lia |].
    rewrite lookup_insert_ne in Hq by done. specialize (i_next0 q t Hq). lia.
  - intros f t Hf. specialize (i_fnext0 f t Hf). lia.
  - intros r b Hr. specialize (i_rnext0 r b Hr). lia.
  - intros f t Hf. destruct (i_fn0 f t Hf) as [? ?]. split; [| done]. by apply K.
  - done.
  - intros q t Hq. destruct (decide (p = q)) as [<- | E].
    + rewrite lookup_insert_eq in Hq. injection Hq as <-. by eapply (promise_ok_mono w w').
    + rewrite lookup_insert_ne in Hq by done. eapply promise_ok_mono; [exact K | by apply i_promise0].
  - apply Forall_app. split.
    + eapply list.Forall_impl; [exact i_jobs0 |]. intros. by eapply (known_job_mono w w').
    + eapply list.Forall_impl; [eapply (reaction_jobs_known w _ _ _ _ Hjs') |].
      * by constructor.
      * apply (p_result _ _ _ (i_promise0 p s Hp)).
      * intros. by eapply (known_job_mono w w').
  - eapply list.Forall_impl; [exact i_frames0 |]. intros. by eapply (known_frame_mono w w').
  - unfold known_ctl in *. cbn. destruct (ctl w) as [| o] eqn:Ec; [done |]. by eapply (known_mono w w').
  - done.
  - intros q. rewrite Htok. apply i_tokens0.
  - intros q Hq. rewrite Htok. by apply i_open_tokens0.
  - intros q t Hq Hn. rewrite Htok. destruct (decide (p = q)) as [<- | E].
    + rewrite lookup_insert_eq in Hq. injection Hq as <-. apply (i_settled0 p s Hp).
      unfold pending in *. congruence.
    + rewrite lookup_insert_ne in Hq by done. by apply (i_settled0 q t).
  - intros q Hq. destruct (Hlog _ Hq) as [? | [? | [? | (j & _ & ?)]]]; try done. by eapply i_ignored0.
  - intros Hfull. by destruct (Hmem (i_mem0 Hfull)).
  - intros Hfull q. destruct (Hmem (i_mem0 Hfull)) as [-> Ejs]. specialize (i_then0 Hfull q).
    unfold enqueued, registered, waiting in *. cbn. fold (reaction_ids (promise_reactions0 s')) in *.
    rewrite (omap_app (enqueue_id q) _ (map EvEnqueue js)), (omap_app (enqueue_id q) _ evs).
    rewrite (omap_app (enqueue_id q) _ [_]), (omap_app (then_id q) _ (map EvEnqueue js)), (omap_app (then_id q) _ evs).
    rewrite omap_snoc_then, omap_then, !(omap_trackers _ evs), !app_nil_r by done. cbn. rewrite <- i_then0.
    destruct (decide (p = q)) as [<- | E].
    + rewrite lookup_insert_eq, Z.eqb_refl, Hp, <- !app_assoc. cbn. f_equal. exact Ejs.
    + rewrite lookup_insert_ne by done. rewrite (proj2 (Z.eqb_neq p q) E), app_nil_r. f_equal.
      rewrite <- (app_nil_r (omap _ (log w))) at 2. f_equal.
      destruct js as [| j js']; [done |].
      assert (j :: js' = [reaction_job rd rej (promise_result s)]) as ->.
      { inversion Hjs as [| ? ? ? Hs | ? ? ? Hs]; subst; apply sublist_nil_r in Hs; by subst. }
      cbn. rewrite Hid. by rewrite (proj2 (Z.eqb_neq p q) E).
  - intros q id Hq. destruct (Hlog _ Hq) as [H | [[= -> ->] | [? | (j & _ & ?)]]]; try done; [| lia].
    specialize (i_then_ids0 q id H). lia.
  - intros q. unfold registered. cbn. rewrite (omap_app _ _ (map EvEnqueue js)), (omap_app _ _ evs).
    rewrite omap_snoc_then, omap_then, (omap_trackers _ evs), !app_nil_r by done.
    destruct (Z.eqb_spec p q) as [<- |]; [| rewrite app_nil_r; apply i_then_nodup0].
    apply list.NoDup_app. split_and!; [apply i_then_nodup0 | | apply list.NoDup_singleton].
    intros x Hx ->%list_elem_of_singleton. by apply (then_fresh p w I).
  - intros q id f0 f1 h rej' v' Hq. destruct (Hlog _ Hq) as [H | [? | [? | (j & Hj & [= <-])]]]; try done.
    + destruct (i_enqueue0 _ _ _ _ _ _ _ H) as (t & Eq & Hn & ? & ?).
      destruct (decide (p = q)) as [<- | E]; [| exists t; by rewrite lookup_insert_ne].
      exists s'. rewrite lookup_insert_eq. unfold pending, is_rejected in *.
      rewrite Hp in Eq. injection Eq as ->. rewrite Est, Eres. done.
    + destruct (reaction_jobs_in _ _ _ _ _ Hjs' Hj) as (rd' & ->%list_elem_of_singleton & Erd).
      destruct Hset as [Hn Hr]; [intros ->; by apply not_elem_of_nil in Hj |].
      destruct rd as [[i0 i1] g0 g1 g]. cbn in Hid, Erd. injection Hid as -> ->. injection Erd as -> -> -> -> -> -> ->.
      exists s'. rewrite lookup_insert_eq. unfold pending, is_rejected in *. rewrite Est, Eres. done.
  - rewrite !(omap_app _ _ (map EvEnqueue js)), !(omap_app _ _ evs), !(omap_app _ _ [_]).
    rewrite omap_enqueued, omap_executed, !(omap_trackers _ evs) by done. cbn.
    rewrite !app_nil_r, i_fifo0, app_assoc. done.
Qed.
End inv.
