(* ===== verification/PromiseSafe.v ===== *)
(** * quickjs.c: every step of the promise machine preserves its invariant *)
From Stdlib Require Import ZArith Lia Bool.
From stdpp Require Import base numbers list gmap.
From S2P Require Import Prelude PromiseState PromiseFacts.

Section safe.
Variable full : bool.
Abbreviation inv := (inv full).

(** The goal of each operation: it returns, in a world with the invariant. *)
Definition safe (w : world) (r : res world) : Prop :=
  exists w', r = Ret w' /\ inv w' /\ keeps w w'.

Lemma step_ret w w' : inv w' -> keeps w w' -> safe w (Ret w').
Proof. intros. by exists w'. Qed.

Lemma step_bind w r k : safe w r -> (forall w', inv w' -> keeps w w' -> safe w' (k w')) ->
  safe w (w' ← r; k w').
Proof.
  intros (w' & -> & I & K) H. destruct (H w' I K) as (w'' & E & I' & K').
  exists w''. split_and!; [exact E | done | by eapply keeps_trans].
Qed.

(** The world may be changed first, as long as it [keeps]. *)
Lemma safe_from w w1 r : keeps w w1 -> safe w1 r -> safe w r.
Proof. intros K (w' & ? & ? & ?). exists w'. split_and!; [done | done | by eapply keeps_trans]. Qed.

Lemma keeps_ctl c w : keeps w (set_ctl c w).
Proof. apply keeps_same; [done | done | log_grows]. Qed.
Lemma keeps_frames l w : keeps w (set_frames l w).
Proof. apply keeps_same; [done | done | log_grows]. Qed.

Lemma safe_returning w o : inv w -> known w (outcome_value o) -> safe w (Ret (returning o w)).
Proof. intros. apply step_ret; [by apply inv_returning | apply keeps_ctl]. Qed.

Lemma safe_running w : inv w -> safe w (Ret (set_ctl Running w)).
Proof. intros. apply step_ret; [by apply inv_running | apply keeps_ctl]. Qed.

(** A C function is called from [fr]. *)
Lemma safe_push w fr r : inv w -> known_frame w fr -> (forall p, is_get_then p fr = false) ->
  (inv (push fr w) -> safe (push fr w) r) -> safe w r.
Proof. intros I Hf Hg H. apply (safe_from w (push fr w)); [apply keeps_frames |]. apply H. by apply inv_push. Qed.

Lemma settle_safe w p v rej : inv w -> known w (Promise p) -> tokens p w = 0 -> ~ open w p ->
  (forall s, promises w !! p = Some s -> pending s) -> known w v ->
  safe w (fulfill_or_reject_promise p v rej w).
Proof. intros. by apply settle_spec. Qed.

(** ** Calls *)
Lemma resolve_call_safe w f v : inv w -> known w (ResolvingFunc f) -> known w v ->
  safe w (js_promise_resolve_function_call f v w).
Proof.
  intros I Kf Kv. unfold js_promise_resolve_function_call.
  cbn in Kf. destruct (functions w !! f) as [s |] eqn:Hf; [| done].
  destruct (i_fn _ _ I f s Hf) as [[t Hp] [b Hr]]. cbn [of_opt mbind res_bind]. rewrite Hr.
  cbn [of_opt mbind res_bind]. destruct b; [by apply safe_returning |].
  destruct (inv_use_flag full w f s I Hf Hr) as (I' & K' & Ht & Ho & Hpend).
  apply (safe_from _ _ _ K').
  set (w' := set_flag _ _ _) in *. assert (known w' v) as Kv' by (by eapply known_mono).
  assert (known w' (Promise (fn_promise s))) as Kp by (cbn; by rewrite Hp).
  destruct (fn_reject s || negb (JS_IsObject v)).
  - apply step_bind; [by apply settle_safe |]. intros. by apply safe_returning.
  - case_bool_decide.
    + apply step_bind; [by apply settle_safe |]. intros. by apply safe_returning.
    + assert (inv (push (FGetThen (fn_promise s) v) w')) as I2 by (by apply inv_get_then).
      apply step_ret; [by apply inv_running |].
      eapply keeps_trans; [apply keeps_frames | apply keeps_ctl].
Qed.

Lemma JS_Call_safe w f v : inv w -> known w f -> known w v -> safe w (JS_Call f v w).
Proof.
  intros I Kf Kv. destruct f as [| | | | f | o []]; cbn [JS_Call]; try (by apply safe_returning).
  - by apply resolve_call_safe.
  - by apply safe_running.
Qed.

Lemma resolve_with_then_safe w p v o l : inv w -> frames w = FGetThen p v :: l ->
  known w (outcome_value o) -> safe w (resolve_with_then p v o (set_frames l w)).
Proof.
  intros I E Ko. destruct (inv_pop full w _ _ I E) as [I' [Kp Kv]].
  destruct (get_then_token full w p v l I E) as (Ht & Ho & Hpend).
  apply (safe_from _ (set_frames l w)); [apply keeps_frames |].
  unfold resolve_with_then. apply step_bind.
  - destruct o as [u | e]; [| by apply settle_safe].
    destruct (JS_IsFunction u); [| by apply settle_safe].
    destruct (enqueue_thenable full (set_frames l w) p v u) as [? ?]; try done.
    by apply step_ret.
  - intros. by apply safe_returning.
Qed.

(** ** Jobs *)
Lemma promise_reaction_job_safe w f0 f1 h rej v : inv w -> known w f0 -> known w f1 -> known w h ->
  known w v -> safe w (promise_reaction_job f0 f1 h rej v w).
Proof.
  intros I K0 K1 Kh Kv. unfold promise_reaction_job. apply (safe_push w (FReaction f0 f1)); [done | done | done |].
  intros I'. destruct (JS_IsUndefined h).
  - apply safe_returning; [done | by destruct rej].
  - by apply JS_Call_safe.
Qed.

Lemma reaction_result_safe w f0 f1 o : inv w -> known w f0 -> known w f1 -> known w (outcome_value o) ->
  safe w (reaction_result f0 f1 o w).
Proof.
  intros I K0 K1 Ko. unfold reaction_result.
  destruct o; cbn zeta; (destruct (JS_IsUndefined _); [by apply safe_returning | by apply JS_Call_safe]).
Qed.

Lemma thenable_job_safe w p u : inv w -> known w (Promise p) -> known w u -> tokens p w = 0 ->
  ~ open w p -> (forall s, promises w !! p = Some s -> pending s) ->
  safe w (js_promise_resolve_thenable_job p u w).
Proof.
  intros I Kp Ku Ht Ho Hpend. unfold js_promise_resolve_thenable_job.
  destruct (create_functions_spec full w p I Kp Ht Ho Hpend) as (fs & w' & -> & I' & K' & Hfs & _).
  apply (safe_from _ _ _ K'). destruct fs as [[f0 f1] |]; [| by apply safe_returning].
  destruct Hfs. apply (safe_push w' (FThenable f1)); [done | done | done |].
  intros I2. apply JS_Call_safe; [done | | done]. exact (known_mono w w' u K' Ku).
Qed.

Lemma thenable_result_safe w f o : inv w -> known w f -> known w (outcome_value o) ->
  safe w (thenable_result f o w).
Proof. intros I Kf Ko. destruct o; [by apply safe_returning | by apply JS_Call_safe]. Qed.

(** The first job leaves the queue. *)
Lemma inv_dequeue w e l : inv w -> job_list w = e :: l ->
  let w' := add_event (EvExecute e) (set_jobs l w) in
  inv w' /\ keeps w w' /\ known_job w' e /\
  match e with
  | js_promise_resolve_thenable_job_entry p _ _ =>
      tokens p w' = 0 /\ ~ open w' p /\ forall s, promises w' !! p = Some s -> pending s
  | _ => True
  end.
Proof.
  intros I E w'. pose proof I as [].
  assert (keeps w w') as K by (apply keeps_same; [done | done | log_grows]).
  assert (forall q, tokens q w = (if is_thenable q e then 1 else 0) + tokens q w') as Ht.
  { intros q. unfold tokens. rewrite E. cbn. destruct (is_thenable q e); lia. }
  rewrite E in i_jobs. apply Forall_cons_iff in i_jobs as [He Hl].
  split_and!; [| done | done |].
  - split; try done; cbn.
    + intros p s Hp. apply (promise_ok_mono w w'); [done | by apply i_promise].
    + intros q. specialize (Ht q). specialize (i_tokens q). destruct (is_thenable q e); lia.
    + intros q Hq. specialize (Ht q). specialize (i_open_tokens q Hq).
      pose proof (tokens_nonneg q w'). destruct (is_thenable q e); lia.
    + intros q s Hq Hn. specialize (Ht q). destruct (i_settled q s Hq Hn) as [Ht' ?].
      pose proof (tokens_nonneg q w'). split; [destruct (is_thenable q e); lia | done].
    + intros q Hq. apply elem_of_app in Hq as [Hq | Hq]; [by eapply i_ignored |].
      by apply list_elem_of_singleton in Hq.
    + intros Hfull q. specialize (i_then Hfull q). unfold enqueued, registered, waiting in *. cbn.
      rewrite !omap_app. cbn. by rewrite !app_nil_r.
    + intros q id Hq. apply elem_of_app in Hq as [Hq | Hq]; [by eapply i_then_ids |].
      by apply list_elem_of_singleton in Hq.
    + intros q. unfold registered. cbn. rewrite omap_app. cbn. rewrite app_nil_r. apply i_then_nodup.
    + intros q id f0 f1 h rej v Hq. apply elem_of_app in Hq as [Hq | Hq]; [by eapply i_enqueue |].
      by apply list_elem_of_singleton in Hq.
    + rewrite !omap_app. cbn. rewrite app_nil_r, i_fifo, E, <- app_assoc. done.
  - destruct e as [| p v u]; [done |]. cbn in Ht. specialize (Ht p). rewrite Z.eqb_refl in Ht.
    pose proof (tokens_nonneg p w'). specialize (i_tokens p). split_and!.
    + lia.
    + intros Ho. assert (open w p) as Ho' by done. specialize (i_open_tokens p Ho'). lia.
    + intros s Hs. destruct (promise_state s) eqn:Es; [done | |]; exfalso;
        (destruct (i_settled p s Hs); [unfold pending; congruence | lia]).
Qed.

Lemma JS_ExecutePendingJob_safe w : inv w -> safe w (JS_ExecutePendingJob w).
Proof.
  intros I. unfold JS_ExecutePendingJob. destruct (job_list w) as [| e l] eqn:E.
  { by apply step_ret, keeps_refl. }
  destruct (inv_dequeue w e l I E) as (I' & K' & Ke & He). apply (safe_from _ _ _ K').
  apply (safe_push _ FJob); [done | done | done |]. intros I2.
  destruct e as [id f0 f1 h rej v | p v u].
  - destruct Ke as (? & ? & ? & ?). by apply promise_reaction_job_safe.
  - destruct He as (Ht & ? & ?), Ke as (? & ? & ?). by apply thenable_job_safe.
Qed.

(** ** Methods *)

(** The one allocation of [perform_promise_then]; then the three branches. *)
Lemma then_settled_safe w p s rd (rej : bool) evs : inv w -> promises w !! p = Some s ->
  ~ pending s -> is_rejected s = rej -> Forall tracker evs -> rd_id rd = (p, next_id w) -> known_reaction w rd ->
  let s' := mkPromise (promise_state s) (promise_reactions0 s) (promise_reactions1 s) true (promise_result s) in
  safe w (Ret (set_promise p s' (JS_EnqueueJob (reaction_job rd rej (promise_result s))
    (mkWorld (promises w) (functions w) (resolved w) (job_list w) (frames w) (ctl w) (mem w) (next_id w + 1)
       ((log w ++ [EvThen (p, next_id w)]) ++ evs))))).
Proof.
  intros I Hp Hn Hrej Hevs Hid Hrd s'. pose proof (i_promise _ _ I p s Hp) as [].
  destruct (p_settled Hn) as [R0 R1].
  match goal with |- context [JS_EnqueueJob ?e ?v] =>
    destruct (JS_EnqueueJob_spec e v) as (js & m & -> & Hjs & Hm) end.
  cbn in *.
  destruct (then_inv full w p s s' rd rej js m evs) as [I' K']; try done.
  - intros Hmem. destruct (Hm Hmem) as [-> ->]. split; [done |]. rewrite R0. cbn. rewrite Hid. cbn. by rewrite Z.eqb_refl, R0.
  - by apply step_ret.
Qed.

Lemma perform_promise_then_safe w p h0 h1 f0 f1 : inv w -> known w (Promise p) ->
  known w h0 -> known w h1 -> known w f0 -> known w f1 ->
  exists ok w', perform_promise_then p h0 h1 f0 f1 w = Ret (ok, w') /\ inv w' /\ keeps w w'.
Proof.
  intros I Kp K0 K1 Kf0 Kf1. unfold perform_promise_then.
  cbn in Kp. destruct (promises w !! p) as [s |] eqn:Hp; [| done]. cbn [of_opt mbind res_bind].
  destruct (js_malloc_spec full w I) as (ok & w1 & -> & I1 & K & Ep & Ef & Er & Ej & Efr & En).
  destruct ok; cbn [negb]; [| by exists false, w1]. rewrite <- Ep in Hp.
  pose proof (i_promise _ _ I1 p s Hp) as [].
  assert (forall h, known w h -> known w1 (if JS_IsFunction h then h else Undefined)) as Kh.
  { intros h Hh. destruct (JS_IsFunction h); [by apply (known_mono w) | done]. }
  pose (rd h := mkReaction (p, next_id w1) f0 f1 (if JS_IsFunction h then h else Undefined)).
  assert (forall h, known w h -> known_reaction w1 (rd h)) as Krd.
  { intros h Hh. split_and!; cbn; [by apply (known_mono w) | by apply (known_mono w) | by apply Kh]. }
  assert (forall r w', safe w1 (Ret w') -> r = Ret (true, w') ->
    exists ok w', r = Ret (ok, w') /\ inv w' /\ keeps w w') as Hdone.
  { intros r w' (w2 & [= <-] & I2 & K2) ->. exists true, w'. split_and!; [done | done | by eapply keeps_trans]. }
  cbn [fresh]. destruct (promise_state s) eqn:Es.
  - eapply Hdone; [| reflexivity]. set (s' := mkPromise _ _ _ _ _).
    destruct (then_inv full w1 p s s' (rd h0) false [] (mem w1) []) as [I' K']; try done.
    + subst s'. split; try done; cbn.
      * intros _. by apply p_pending.
      * apply Forall_app. split; [done |]. constructor; [by apply Krd | done].
      * apply Forall_app. split; [done |]. constructor; [by apply Krd | done].
      * rewrite !map_app. by rewrite p_ids.
      * apply Forall_app. split; [done |]. by constructor.
    + by apply Krd.
    + apply sublist_nil_l.
    + intros Hmem. split; [done |]. unfold reaction_ids. cbn. by rewrite map_app.
    + cbn in I', K'. rewrite !app_nil_r in I', K'. by apply step_ret.
  - eapply Hdone; [| reflexivity].
    pose proof (then_settled_safe w1 p s (rd h0) false [] I1 Hp ltac:(unfold pending; congruence)
      ltac:(unfold is_rejected; by rewrite Es) ltac:(done) eq_refl (Krd h0 K0)) as H.
    rewrite app_nil_r, Es in H. exact H.
  - eapply Hdone; [| reflexivity].
    pose proof (then_settled_safe w1 p s (rd h1) true (if negb (is_handled s) then [EvTracker p true] else []) I1 Hp
      ltac:(unfold pending; congruence) ltac:(unfold is_rejected; by rewrite Es)
      ltac:(destruct (negb _); by repeat constructor) eq_refl (Krd h1 K1)) as H.
    rewrite Es in H. destruct (negb (is_handled s)); [exact H |]. rewrite app_nil_r in H. exact H.
Qed.

(** A new promise and its functions. *)
Lemma new_capability w : inv w -> exists op w', new_promise w = (op, w') /\ inv w' /\ keeps w w' /\
  match op with
  | None => True
  | Some p => known w' (Promise p) /\ exists fs w'', js_create_resolving_functions p w' = (fs, w'') /\
      inv w'' /\ keeps w' w'' /\ match fs with Some (v0, v1) => known w'' v0 /\ known w'' v1 | None => True end
  end.
Proof.
  intros I. destruct (new_promise_spec full w I) as (op & w' & E & I' & K & _ & Hp).
  exists op, w'. split_and!; [done | done | done |]. destruct op as [p |]; [| done].
  destruct Hp as (Kp & Ht & Ho & Hpend). split; [done |].
  destruct (create_functions_spec full w' p I' Kp Ht Ho Hpend) as (fs & w'' & E' & I'' & K' & Hfs & _).
  by exists fs, w''.
Qed.

Lemma js_new_promise_capability_safe w : inv w -> exists cap w',
  js_new_promise_capability w = (cap, w') /\ inv w' /\ keeps w w' /\
  match cap with Some (p, f0, f1) => known w' (Promise p) /\ known w' f0 /\ known w' f1 | None => True end.
Proof.
  intros I. unfold js_new_promise_capability.
  destruct (new_capability w I) as (op & w' & -> & I' & K & H). destruct op as [p |]; [| by exists None, w'].
  destruct H as (Kp & fs & w'' & -> & I'' & K' & Hfs).
  assert (keeps w w'') as K2 by (by eapply keeps_trans).
  destruct fs as [[f0 f1] |]; [| by exists None, w''].
  exists (Some (p, f0, f1)), w''. split_and!; try done; [by apply (known_mono w') | apply Hfs..].
Qed.

Lemma js_promise_constructor_safe w v : inv w -> known w v -> safe w (js_promise_constructor v w).
Proof.
  intros I Kv. unfold js_promise_constructor. destruct (JS_IsFunction v); [cbn [negb] | by apply safe_returning].
  destruct (new_capability w I) as (op & w' & -> & I' & K & H). apply (safe_from _ _ _ K).
  destruct op as [p |]; [| by apply safe_returning].
  destruct H as (Kp & fs & w'' & -> & I'' & K' & Hfs). apply (safe_from _ _ _ K').
  destruct fs as [[f0 f1] |]; [| by apply safe_returning]. destruct Hfs.
  apply (safe_push w'' (FExecutor p f1)); [done | split; [by apply (known_mono w') | done] | done |].
  intros I2. apply JS_Call_safe; [done | | done].
  exact (known_mono w' w'' v K' (known_mono w w' v K Kv)).
Qed.

Lemma executor_result_safe w p f o : inv w -> known w (Promise p) -> known w f -> known w (outcome_value o) ->
  safe w (executor_result p f o w).
Proof.
  intros I Kp Kf Ko. destruct o as [u | e]; cbn [executor_result]; [by apply safe_returning |].
  apply (safe_push w (FExecutorReject p)); [done | done | done |]. intros I2. by apply JS_Call_safe.
Qed.

Lemma executor_reject_result_safe w p o : inv w -> known w (Promise p) -> known w (outcome_value o) ->
  safe w (executor_reject_result p o w).
Proof. intros I Kp Ko. destruct o; by apply safe_returning. Qed.

Lemma js_promise_then_safe w v h0 h1 : inv w -> known w v -> known w h0 -> known w h1 ->
  safe w (js_promise_then v h0 h1 w).
Proof.
  intros I Kv K0 K1. destruct v as [| | | p | |]; cbn [js_promise_then]; try (by apply safe_returning).
  destruct (js_new_promise_capability_safe w I) as (cap & w' & -> & I' & K & Hc). apply (safe_from _ _ _ K).
  destruct cap as [[[p2 f0] f1] |]; [| by apply safe_returning]. destruct Hc as (Kp2 & Kf0 & Kf1).
  destruct (perform_promise_then_safe w' p h0 h1 f0 f1 I') as (ok & w'' & -> & I'' & K');
    try done; try (by apply (known_mono w w')).
  cbn [mbind res_bind]. apply (safe_from _ _ _ K'). destruct ok; apply safe_returning; try done.
  by apply (known_mono w').
Qed.

Lemma js_promise_resolve_safe w is_reject is_same v : inv w -> known w v ->
  safe w (js_promise_resolve is_reject is_same v w).
Proof.
  intros I Kv. unfold js_promise_resolve. destruct (_ && is_same); [by apply safe_returning |].
  destruct (js_new_promise_capability_safe w I) as (cap & w' & -> & I' & K & Hc). apply (safe_from _ _ _ K).
  destruct cap as [[[p f0] f1] |]; [| by apply safe_returning]. destruct Hc as (Kp & Kf0 & Kf1).
  apply (safe_push w' (FResolve p)); [done | done | done |]. intros I2.
  apply JS_Call_safe; [done | by destruct is_reject | exact (known_mono w w' v K Kv)].
Qed.

(** ** The machine *)
Lemma continue_safe w fr l o : inv w -> frames w = fr :: l -> known w (outcome_value o) ->
  safe w (continue fr o (set_frames l w)).
Proof.
  intros I E Ko. destruct (inv_pop full w fr l I E) as [I' Kfr].
  assert ((exists p v, fr = FGetThen p v) \/ ~ (exists p v, fr = FGetThen p v)) as [(p & v & ->) | Hfr].
  { destruct fr; try (right; intros (? & ? & ?); congruence). left. by eexists _, _. }
  { by apply resolve_with_then_safe. }
  apply (safe_from _ (set_frames l w)); [apply keeps_frames |].
  destruct fr as [| | p v | p | p v | v0 v1 | v | p]; cbn [continue].
  - by apply safe_running.
  - by apply safe_running.
  - destruct Kfr. by apply executor_result_safe.
  - by apply executor_reject_result_safe.
  - destruct Hfr. by exists p, v.
  - destruct Kfr. by apply reaction_result_safe.
  - by apply thenable_result_safe.
  - by apply executor_reject_result_safe.
Qed.

Lemma user_call_safe w r : inv w -> (inv (push FUser w) -> safe (push FUser w) r) -> safe w r.
Proof. intros I. by apply safe_push. Qed.

Lemma do_action_safe a w : inv w -> Forall (known w) (action_values a) -> safe w (do_action a w).
Proof.
  intros I Ka. assert (safe w (Ret w)) as Hskip by (apply step_ret; [done | apply keeps_refl]).
  pose proof (i_ctl _ _ I) as Kc. unfold known_ctl in Kc. unfold do_action.
  destruct (ctl w) as [| o] eqn:Ec; destruct a; try done; cbn [action_values] in Ka;
    rewrite ?Forall_cons_iff in Ka.
  - destruct (frames w) as [| fr l] eqn:Ef; [done |]. destruct fr; try done; apply safe_returning; tauto.
  - apply user_call_safe; [done |]. intros I2. apply js_promise_constructor_safe; [done | apply Ka].
  - apply user_call_safe; [done |]. intros I2. apply js_promise_then_safe; [done | apply Ka..].
  - destruct (perform_promise_then_safe w p h0 h1 f0 f1 I) as (ok & w' & -> & I' & K); try apply Ka.
    cbn [mbind res_bind]. by apply step_ret.
  - destruct f; try done. apply user_call_safe; [done |]. intros I2. apply JS_Call_safe; [done | apply Ka..].
  - apply user_call_safe; [done |]. intros I2. apply js_promise_resolve_safe; [done | apply Ka].
  - destruct (frames w) as [| fr l] eqn:Ef; [by apply JS_ExecutePendingJob_safe | done].
  - destruct (frames w) as [| fr l] eqn:Ef; [by apply safe_running |]. by apply continue_safe.
Qed.

Lemma step_safe a w : inv w -> safe w (step a w).
Proof.
  intros I. unfold step. destruct (forallb _ _) eqn:E.
  - apply do_action_safe; [done |]. apply list.Forall_forall. intros v Hv.
    rewrite forallb_forall in E. specialize (E v (proj1 (list_elem_of_In _ _) Hv)). by rewrite E.
  - apply step_ret; [done | apply keeps_refl].
Qed.

Lemma run_safe acts : forall w, inv w -> safe w (run acts w).
Proof.
  induction acts as [| a acts IH]; intros w I; cbn [run].
  - apply step_ret; [done | apply keeps_refl].
  - apply step_bind; [by apply step_safe |]. intros. by apply IH.
Qed.

Lemma run_app acts1 acts2 w : run (acts1 ++ acts2) w = (w' ← run acts1 w; run acts2 w').
Proof.
  revert w. induction acts1 as [| a acts IH]; intros w; cbn [run app]; [done |].
  destruct (step a w); cbn; [apply IH | done..].
Qed.

Lemma init_inv m : (full = true -> m = []) -> inv (init m).
Proof.
  intros Hm. split; cbn; try done.
  - intros p. apply not_elem_of_nil.
  - intros q id H. by apply not_elem_of_nil in H.
  - intros p. constructor.
  - intros q id f0 f1 h rej v H. by apply not_elem_of_nil in H.
Qed.
End safe.
