(* ===== verification/PromiseProps.v ===== *)
(** * quickjs.c: what promises and the job queue guarantee to scripts *)
From Stdlib Require Import ZArith Lia Bool.
From stdpp Require Import base numbers list gmap.
From S2P Require Import Prelude PromiseState PromiseFacts PromiseSafe.

(** ** The C code between two scripts terminates *)
Definition frame_cost (fr : frame) : nat := match fr with FExecutor _ _ => 2 | _ => 1 end.
Definition frames_cost (w : world) : nat := sum_list_with frame_cost (frames w).

Lemma frames_cost_le w : (frames_cost w <= 2 * length (frames w))%nat.
Proof. unfold frames_cost. induction (frames w) as [| fr l IH]; cbn; [lia |]. destruct fr; cbn; lia. Qed.

(** A script runs in [w'], or its stack is the one of [w]. *)
Definition settles (w w' : world) : Prop := ctl w' = Running \/ frames w' = frames w.

Lemma fulfill_frames p v rej w w' : fulfill_or_reject_promise p v rej w = Ret w' -> frames w' = frames w.
Proof.
  unfold fulfill_or_reject_promise. destruct (promises w !! p) as [s |]; [| done]. cbn [of_opt mbind res_bind].
  destruct (promise_state s); intros [= <-]; try done.
  match goal with |- frames (enqueue_reactions ?l ?r ?u ?w1) = _ =>
    destruct (enqueue_reactions_spec l r u w1) as (js & m & -> & _) end.
  cbn. by destruct (_ && _).
Qed.

Lemma returning_settles o w : settles w (returning o w).
Proof. by right. Qed.

Lemma fulfill_settles p v rej w w' :
  (w ← fulfill_or_reject_promise p v rej w; Ret (returning undefined w)) = Ret w' -> settles w w'.
Proof.
  destruct (fulfill_or_reject_promise p v rej w) as [w1 | |] eqn:E; try done. intros [= <-].
  right. cbn. by eapply fulfill_frames.
Qed.

Lemma JS_Call_settles f v w w' : JS_Call f v w = Ret w' -> settles w w'.
Proof.
  destruct f as [| | | | f | o []]; cbn [JS_Call]; try (intros [= <-]; apply returning_settles).
  - unfold js_promise_resolve_function_call. destruct (functions w !! f) as [s |]; [| done].
    cbn [of_opt mbind res_bind]. destruct (resolved w !! presolved s) as [[] |]; try done.
    + intros [= <-]. apply returning_settles.
    + cbn [of_opt mbind res_bind].
      destruct (fn_reject s || _); [intros H; exact (fulfill_settles _ _ _ (set_flag (presolved s) true w) _ H) |].
      case_bool_decide; [intros Hw; exact (fulfill_settles _ _ _ (set_flag (presolved s) true w) _ Hw) |]. intros [= <-]. by left.
  - intros [= <-]. by left.
Qed.

Lemma continue_cost fr o w w' : continue fr o w = Ret w' ->
  ctl w' = Running \/ (frames_cost w' < frame_cost fr + frames_cost w)%nat.
Proof.
  assert (forall w1, settles w w1 -> ctl w1 = Running \/ (frames_cost w1 < 1 + frames_cost w)%nat) as Hs.
  { intros w1 [? | E]; [by left | right]. unfold frames_cost. rewrite E. lia. }
  destruct fr as [| | p v | p | p v | v0 v1 | v | p]; cbn [continue frame_cost]; intros H.
  - injection H as <-. by left.
  - injection H as <-. by left.
  - destruct o; cbn [executor_result] in H; [injection H as <-; right; change (frames_cost w < 2 + frames_cost w)%nat; lia |].
    apply JS_Call_settles in H as [? | E]; [by left | right]. unfold frames_cost. rewrite E. cbn. lia.
  - apply Hs. destruct o; injection H as <-; apply returning_settles.
  - apply Hs. destruct o as [u | e]; [| by eapply fulfill_settles]. unfold resolve_with_then in H.
    destruct (JS_IsFunction u); [| by eapply fulfill_settles].
    injection H as <-. right. cbn.
    destruct (JS_EnqueueJob_spec (js_promise_resolve_thenable_job_entry p v u) w) as (js & m & -> & _). done.
  - apply Hs. unfold reaction_result in H.
    destruct o; (destruct (JS_IsUndefined _); [injection H as <-; apply returning_settles | by eapply JS_Call_settles]).
  - apply Hs. destruct o; [injection H as <-; apply returning_settles | by eapply JS_Call_settles].
  - apply Hs. destruct o; injection H as <-; apply returning_settles.
Qed.

Lemma AContinue_running w : ctl w = Running -> step AContinue w = Ret w.
Proof. intros E. unfold step. cbn. unfold do_action. by rewrite E. Qed.

Lemma AContinue_cost w w' : step AContinue w = Ret w' ->
  ctl w' = Running \/ (frames_cost w' < frames_cost w)%nat.
Proof.
  unfold step. cbn. unfold do_action. destruct (ctl w) as [| o] eqn:E; [intros [= <-]; by left |].
  destruct (frames w) as [| fr l] eqn:Ef; [intros [= <-]; by left |].
  intros H. apply continue_cost in H as [? | H]; [by left | right].
  unfold frames_cost in *. rewrite Ef. exact H.
Qed.

Lemma run_continue n : forall w, inv false w -> (frames_cost w < n)%nat ->
  exists w', run (replicate n AContinue) w = Ret w' /\ ctl w' = Running.
Proof.
  induction n as [| n IH]; intros w I Hn; [lia |]. cbn [replicate run].
  destruct (step_safe false AContinue w I) as (w1 & E & I1 & _). rewrite E. cbn [mbind res_bind].
  destruct (AContinue_cost _ _ E) as [Er | Hc]; [| apply IH; [done | lia]].
  clear IH Hn. exists w1. split; [| done]. induction n as [| n IH]; cbn [replicate run]; [done |].
  rewrite (AContinue_running w1 Er). exact IH.
Qed.

(** ** The queue *)
Definition executed (w : world) : list JSJobEntry := omap executed_job (log w).

Lemma omap_prefix {A B} (f : A -> option B) l k : l `prefix_of` k -> omap f l `prefix_of` omap f k.
Proof. intros [m ->]. rewrite omap_app. by eexists. Qed.

Lemma queue_order w w' k j : inv false w -> inv false w' -> keeps w w' -> job_list w !! k = Some j ->
  (length (executed w) + k < length (executed w'))%nat -> executed w' !! (length (executed w) + k)%nat = Some j.
Proof.
  intros I I' K Hk Hlen.
  destruct (omap_prefix enqueued_job _ _ (k_log _ _ K)) as [l El].
  rewrite (i_fifo _ _ I), (i_fifo _ _ I') in El. fold (executed w) (executed w') in El.
  assert ((executed w' ++ job_list w') !! (length (executed w) + k)%nat = Some j) as E.
  { rewrite El, <- app_assoc, lookup_app_r by lia. replace (_ + k - _)%nat with k by lia.
    rewrite lookup_app_l; [done |]. by eapply lookup_lt_Some. }
  by rewrite lookup_app_l in E by done.
Qed.

Lemma execute_first w e l : inv false w -> ctl w = Running -> frames w = [] -> job_list w = e :: l ->
  exists w', step AJob w = Ret w' /\ executed w ++ [e] `prefix_of` executed w'.
Proof.
  intros I Ec Ef El. unfold step. cbn. unfold do_action. rewrite Ec, Ef.
  unfold JS_ExecutePendingJob. rewrite El.
  destruct (inv_dequeue false w e l I El) as (I1 & _ & Ke & He).
  set (w1 := add_event _ _) in *.
  assert (safe false (push FJob w1) (match e with
      | promise_reaction_job_entry _ f0 f1 h is_reject arg =>
          promise_reaction_job f0 f1 h is_reject arg (push FJob w1)
      | js_promise_resolve_thenable_job_entry p _ then_ =>
          js_promise_resolve_thenable_job p then_ (push FJob w1)
      end)) as (w' & E & _ & K).
  { assert (inv false (push FJob w1)) by (by apply inv_push).
    destruct e as [id f0 f1 h rej v | p v u].
    - destruct Ke as (? & ? & ? & ?). by apply promise_reaction_job_safe.
    - destruct He as (Ht & ? & ?), Ke as (? & ? & ?). by apply thenable_job_safe. }
  exists w'. split; [exact E |].
  pose proof (omap_prefix executed_job _ _ (k_log _ _ K)) as H.
  unfold w1 in H. cbn in H. rewrite omap_app in H. exact H.
Qed.

(** ** Out of memory *)

(** [fulfill_or_reject_promise] ignores the result of [JS_EnqueueJob]: when its
    allocation fails, the reaction is lost although the promise is fulfilled. *)
Example reaction_lost_on_oom : exists w, run [ANew (Obj 7 true); AReturn undefined; AContinue; AContinue;
    AThen (Promise 1) (Obj 8 true) Undefined; AContinue; ACall (ResolvingFunc 3) (Prim 5); AContinue]
    (init [true; true; true; true; true; false]) = Ret w /\
  promise_state <$> promises w !! 1 = Some JS_PROMISE_FULFILLED /\
  length (registered 1 w) = 1%nat /\ waiting 1 w = [] /\ job_list w = [].
Proof. eexists. split_and!; vm_compute; reflexivity. Qed.

(** The same with enough memory. *)
Example reaction_queued : exists w, run [ANew (Obj 7 true); AReturn undefined; AContinue; AContinue;
    AThen (Promise 1) (Obj 8 true) Undefined; AContinue; ACall (ResolvingFunc 3) (Prim 5); AContinue]
    (init []) = Ret w /\
  promise_state <$> promises w !! 1 = Some JS_PROMISE_FULFILLED /\
  enqueued 1 w = registered 1 w /\ length (job_list w) = 1%nat.
Proof. eexists. split_and!; vm_compute; reflexivity. Qed.

(** ** Properties *)

(** The states that the machine can be in. *)
Lemma reachable full m acts acts' : (full = true -> m = []) ->
  exists w w', run acts (init m) = Ret w /\ run acts' w = Ret w' /\ inv full w /\ inv full w' /\ keeps w w'.
Proof.
  intros Hm. destruct (run_safe full acts (init m) (init_inv full m Hm)) as (w & E & I & _).
  destruct (run_safe full acts' w I) as (w' & E' & I' & K). by exists w, w'.
Qed.

(** C26: whatever scripts do, whichever allocations fail and however jobs are
    interleaved, no step faults, the branch of [fulfill_or_reject_promise] for a
    promise that is already settled is never taken, and a settled promise has no
    reactions left and keeps its state and its result for ever. *)
Theorem promise_settles_once : forall m acts acts', exists w w',
  run acts (init m) = Ret w /\ run acts' w = Ret w' /\
  (forall p, EvIgnored p ∉ log w') /\
  forall p s, promises w !! p = Some s -> promise_state s <> JS_PROMISE_PENDING ->
    promise_reactions0 s = [] /\ promise_reactions1 s = [] /\
    exists s', promises w' !! p = Some s' /\ promise_state s' = promise_state s /\
               promise_result s' = promise_result s.
Proof.
  intros m acts acts'. destruct (reachable false m acts acts') as (w & w' & E & E' & I & I' & K); [done |].
  exists w, w'. split_and!; [done | done | apply (i_ignored _ _ I') |].
  intros p s Hp Hs. destruct (p_settled _ _ _ (i_promise _ _ I p s Hp) Hs) as [R0 R1].
  split_and!; [done | done |]. by apply (k_settled _ _ K).
Qed.

(** C27: when no allocation fails, each call of [then] on a promise leads to
    exactly one reaction job, in the order of the calls: the calls whose job has
    been queued, followed by those whose reaction waits in the promise, are all
    the calls; none waits once the promise is settled; and the job runs the
    handler for the way the promise was settled, with its result. *)
Theorem then_runs_once : forall acts, exists w, run acts (init []) = Ret w /\
  forall p, NoDup (registered p w) /\ enqueued p w ++ waiting p w = registered p w /\
    (forall s, promises w !! p = Some s -> promise_state s <> JS_PROMISE_PENDING -> waiting p w = []) /\
    forall id f0 f1 h rej v, EvEnqueue (promise_reaction_job_entry (p, id) f0 f1 h rej v) ∈ log w ->
      exists s, promises w !! p = Some s /\ promise_result s = v /\
        promise_state s = if (rej : bool) then JS_PROMISE_REJECTED else JS_PROMISE_FULFILLED.
Proof.
  intros acts. destruct (reachable true [] acts []) as (w & _ & E & _ & I & _); [done |].
  exists w. split; [done |]. intros p. split_and!.
  - apply (i_then_nodup _ _ I).
  - by apply (i_then _ _ I).
  - intros s Hp Hs. unfold waiting. rewrite Hp.
    by destruct (p_settled _ _ _ (i_promise _ _ I p s Hp) Hs) as [-> _].
  - intros id f0 f1 h rej v Hin. destruct (i_enqueue _ _ I _ _ _ _ _ _ _ Hin) as (s & Hs & Hn & Hr & Hv).
    exists s. split_and!; [done | done |]. unfold is_rejected, pending in *.
    destruct (promise_state s); subst rej; done.
Qed.

(** C28: jobs run in the order in which they were queued: when the host runs a
    job, it is the first one of the queue, and the job at position [k] of the
    queue is the [k]-th one executed from there, whatever is queued meanwhile. *)
Theorem jobs_run_in_order : forall m acts acts', exists w w',
  run acts (init m) = Ret w /\ run acts' w = Ret w' /\
  (forall k j, job_list w !! k = Some j -> (length (executed w) + k < length (executed w'))%nat ->
     executed w' !! (length (executed w) + k)%nat = Some j) /\
  (forall e l, ctl w = Running -> frames w = [] -> job_list w = e :: l ->
     exists w1, step AJob w = Ret w1 /\ executed w ++ [e] `prefix_of` executed w1).
Proof.
  intros m acts acts'. destruct (reachable false m acts acts') as (w & w' & E & E' & I & I' & K); [done |].
  exists w, w'. split_and!; [done | done | |].
  - intros k j. by apply queue_order.
  - intros e l. by apply execute_first.
Qed.

(** C29: the C code of promises always gives control back: from any state, at
    most [2 d + 1] of its steps, where [d] is the number of C calls on the
    stack, lead to a state where a script or the host runs. *)
Theorem promise_code_terminates : forall m acts, exists w, run acts (init m) = Ret w /\
  exists w', run (replicate (2 * length (frames w) + 1) AContinue) w = Ret w' /\ ctl w' = Running.
Proof.
  intros m acts. destruct (reachable false m acts []) as (w & _ & E & _ & I & _); [done |].
  exists w. split; [done |]. apply run_continue; [done |]. pose proof (frames_cost_le w). lia.
Qed.
