(* ===== verification/PromiseAll.v ===== *)
(** * quickjs.c: Promise.all, Promise.allSettled and Promise.any

    The state of one call of [js_promise_all] and of the element functions it
    creates.  Scripts may call the element functions at any time and in any
    order, also while the iteration goes on: the machine runs a list of actions.
    [values] and [resolve_element_env] are arrays that no script can reach before
    the result is settled.  The result is the promise of an intrinsic capability:
    its two resolving functions share [already_resolved], so the first call of
    either of them decides, here [outcome].  Element functions of Promise.all
    and Promise.any come with a resolving function of the capability itself, to
    be called by one element alone: [DirectAction].

    [el_arg], the argument of the call of an element function that was counted,
    and [calls], the calls of the resolving functions so far, are not in the
    code. *)
From Stdlib Require Import ZArith Lia Bool.
From stdpp Require Import base numbers list gmap.
From S2P Require Import Prelude PromiseState.

Inductive promise_magic : Type :=
| PROMISE_MAGIC_all
| PROMISE_MAGIC_allSettled
| PROMISE_MAGIC_any.

(** The data of an element function: alreadyCalled, index and the bit 4 of its magic. *)
Record element : Type := mkElement {
  alreadyCalled : bool;
  el_index : Z;
  is_reject : bool;
  el_arg : option value
}.

(** An element of the array [values]. *)
Inductive cell : Type :=
| CUndefined
| CValue (v : value)
| CSettled (rejected : bool) (v : value).

(** [loop]: the iteration goes on, has ended, or has failed. *)
Inductive loop_state : Type :=
| Iterating
| Ended
| Failed.

(** The argument of a resolving function: the values of all elements, the value
    of one, or the exception of [fail_reject]. *)
Inductive argument : Type :=
| Values (vs : gmap Z cell)
| Value (v : value)
| Exception.

(** A call of [resolving_funcs[func]]: 0 resolves, 1 rejects. *)
Record resolving_call : Type := mkCall {
  func : Z;
  arg : argument
}.

Record all_state : Type := mkAll {
  magic : promise_magic;
  values : gmap Z cell;
  remainingElementsCount : Z;
  elements : list element;
  index : Z;
  loop : loop_state;
  outcome : option resolving_call;
  calls : list resolving_call
}.

Definition set_values (vs : gmap Z cell) (s : all_state) : all_state :=
  mkAll (magic s) vs (remainingElementsCount s) (elements s) (index s) (loop s) (outcome s) (calls s).
Definition set_count (n : Z) (s : all_state) : all_state :=
  mkAll (magic s) (values s) n (elements s) (index s) (loop s) (outcome s) (calls s).
Definition set_elements (l : list element) (s : all_state) : all_state :=
  mkAll (magic s) (values s) (remainingElementsCount s) l (index s) (loop s) (outcome s) (calls s).
Definition set_loop (i : Z) (l : loop_state) (s : all_state) : all_state :=
  mkAll (magic s) (values s) (remainingElementsCount s) (elements s) i l (outcome s) (calls s).

(** [JS_Call(ctx, resolving_funcs[func], ...)]: only the first one acts. *)
Definition call_resolving_func (func : Z) (arg : argument) (s : all_state) : all_state :=
  mkAll (magic s) (values s) (remainingElementsCount s) (elements s) (index s) (loop s)
    (match outcome s with None => Some (mkCall func arg) | Some c => Some c end) (calls s ++ [mkCall func arg]).

Definition is_promise_any (m : promise_magic) : Z := match m with PROMISE_MAGIC_any => 1 | _ => 0 end.

(** [int] arithmetic: an overflow is undefined. *)
Definition add_int (a b : Z) : res Z :=
  if (- INT32_MAX - 1 <=? a + b) && (a + b <=? INT32_MAX) then Ret (a + b) else Fault.

Definition remainingElementsCount_add (addend : Z) (s : all_state) : res (bool * all_state) :=
  n ← add_int (remainingElementsCount s) addend;
  Ret (n =? 0, set_count n s).

(** The last call: the values, or an AggregateError of them ([ok]: it could be
    created).  The resolving function is the one of the magic. *)
Definition settle_all (ok : bool) (s : all_state) : all_state :=
  match magic s, ok with
  | PROMISE_MAGIC_any, false => s
  | m, _ => call_resolving_func (is_promise_any m) (Values (values s)) s
  end.

(** A call of the element function [k] with [arg]; [ok]: memory can be had. *)
Definition js_promise_all_resolve_element (k : nat) (arg : value) (ok ok_error : bool) (s : all_state)
    : res all_state :=
  e ← of_opt (elements s !! k);
  if alreadyCalled e then Ret s
  else
    let s1 := set_elements (<[k := mkElement true (el_index e) (is_reject e) (el_arg e)]> (elements s)) s in
    if negb ok then Ret s1
    else
      let obj := match magic s with
                 | PROMISE_MAGIC_allSettled => CSettled (is_reject e) arg
                 | _ => CValue arg
                 end in
      let s2 := set_elements (<[k := mkElement true (el_index e) (is_reject e) (Some arg)]> (elements s)) s1 in
      '(is_zero, s3) ← remainingElementsCount_add (-1) (set_values (<[el_index e := obj]> (values s2)) s2);
      Ret (if (is_zero : bool) then settle_all ok_error s3 else s3).

(** One item of the iteration, up to the call of its [then]. *)
Definition promise_all_item (s : all_state) : res all_state :=
  let new r := mkElement false (index s) r None in
  let s1 := match magic s with
            | PROMISE_MAGIC_all => set_elements (elements s ++ [new false]) s
            | PROMISE_MAGIC_allSettled => set_elements (elements s ++ [new false; new true]) s
            | PROMISE_MAGIC_any =>
                set_elements (elements s ++ [new false]) (set_values (<[index s := CUndefined]> (values s)) s)
            end in
  '(_, s2) ← remainingElementsCount_add 1 s1;
  i ← add_int (index s) 1;
  Ret (set_loop i Iterating s2).

(** The other function that [then] of an element gets: for Promise.all
    [resolving_funcs[1]], for Promise.any [resolving_funcs[0]]; for
    Promise.allSettled it is an element function too. *)
Definition direct_call (v : value) (s : all_state) : all_state :=
  match magic s with
  | PROMISE_MAGIC_all => call_resolving_func 1 (Value v) s
  | PROMISE_MAGIC_allSettled => s
  | PROMISE_MAGIC_any => call_resolving_func 0 (Value v) s
  end.

(** [fail_reject] *)
Definition promise_all_fail (s : all_state) : all_state := call_resolving_func 1 Exception s.

(** The end of the iteration. *)
Definition promise_all_end (ok_error : bool) (s : all_state) : res all_state :=
  '(is_zero, s1) ← remainingElementsCount_add (-1) (set_loop (index s) Ended s);
  Ret (if (is_zero : bool) then
         match magic s, ok_error with
         | PROMISE_MAGIC_any, false => promise_all_fail s1
         | m, _ => call_resolving_func (is_promise_any m) (Values (values s1)) s1
         end
       else s1).

Definition js_promise_all (magic : promise_magic) : all_state := mkAll magic ∅ 1 [] 0 Iterating None [].

(** [FailAction]: the iterator, a [resolve] or a [then] throws. *)
Inductive all_action : Type :=
| ItemAction
| EndAction (ok_error : bool)
| FailAction
| CallAction (k : nat) (arg : value) (ok ok_error : bool)
| DirectAction (k : nat) (arg : value).

(** An action that is not possible is skipped. *)
Definition all_step (a : all_action) (s : all_state) : res all_state :=
  match a, loop s with
  | ItemAction, Iterating => promise_all_item s
  | EndAction ok, Iterating => promise_all_end ok s
  | FailAction, Iterating => Ret (promise_all_fail (set_loop (index s) Failed s))
  | CallAction k arg ok ok_error, _ =>
      if decide (k < length (elements s))%nat then js_promise_all_resolve_element k arg ok ok_error s else Ret s
  | DirectAction k arg, _ => Ret (if decide (k < length (elements s))%nat then direct_call arg s else s)
  | _, _ => Ret s
  end.

Fixpoint all_run (acts : list all_action) (s : all_state) : res all_state :=
  match acts with
  | [] => Ret s
  | a :: acts => s ← all_step a s; all_run acts s
  end.

(** The arguments of the final calls. *)
Definition final_arg (c : resolving_call) : option (gmap Z cell) :=
  match arg c with Values vs => Some vs | _ => None end.
Definition resolve_calls (s : all_state) : list (gmap Z cell) := omap final_arg (calls s).

(** Two elements of Promise.all, of which the first rejects and then resolves
    nevertheless: the rejection decides. *)
Example first_call_decides : exists s,
  all_run [ItemAction; ItemAction; EndAction true; DirectAction 0 (Prim 7); CallAction 0 (Prim 1) true true;
           CallAction 1 (Prim 2) true true] (js_promise_all PROMISE_MAGIC_all) = Ret s /\
  outcome s = Some (mkCall 1 (Value (Prim 7))) /\ length (calls s) = 2%nat.
Proof. eexists. split_and!; vm_compute; reflexivity. Qed.

(** The two functions that Promise.allSettled makes for an element have their
    own [alreadyCalled]: a thenable that calls both is counted twice.  The result
    is resolved before the second element is settled, and then a second time,
    without effect. *)
Example allSettled_counts_twice : exists s,
  all_run [ItemAction; CallAction 0 (Prim 1) true true; CallAction 1 (Prim 2) true true; ItemAction;
           EndAction true] (js_promise_all PROMISE_MAGIC_allSettled) = Ret s /\
  (fun vs : gmap Z cell => vs !! 1) <$> resolve_calls s = [None; None] /\
  remainingElementsCount s = 0 /\ index s = 2.
Proof. eexists. split_and!; vm_compute; reflexivity. Qed.



























(** ** The calls of the resolving functions *)
















(** ** Properties *)


