(* ===== verification/AtomState.v ===== *)
(** * quickjs.c: atoms, the interned strings of the engine

    Property names are numbers, the atoms.  A string of digits below 2^31 is
    the number with the top bit set; any other one is an index in [atom_array],
    which points to the string.  [atom_hash] finds the atom of a string, through
    chains of atoms linked by [hash_next]; symbols are atoms that are in no
    chain.  A string that becomes an atom is the atom: string values and atoms
    share one structure and one reference count.

    [strings] maps the address of a structure to it; a freed structure is absent,
    so that an access to it is a [Fault].  Addresses are not reused.  [mem] says
    which of the next allocations fail.  The client at the end of the file holds
    references, and does with them what the engine may do. *)
From Stdlib Require Import ZArith Lia Bool.
From stdpp Require Import base numbers list gmap.
From S2P Require Import Prelude Cutils JSValue.

(** ** Data *)
Definition JS_ATOM_TYPE_STRING : Z := 1.
Definition JS_ATOM_TYPE_GLOBAL_SYMBOL : Z := 2.
Definition JS_ATOM_TYPE_SYMBOL : Z := 3.
Definition JS_ATOM_TYPE_PRIVATE : Z := 4.
Definition JS_ATOM_HASH_SYMBOL : Z := 0.
Definition JS_ATOM_HASH_PRIVATE : Z := 1.
Definition JS_ATOM_HASH_MASK : Z := Z.shiftl 1 30 - 1.
Definition JS_ATOM_NULL : Z := 0.
Definition JS_ATOM_TAG_INT : Z := Z.shiftl 1 31.
Definition JS_ATOM_MAX_INT : Z := JS_ATOM_TAG_INT - 1.
Definition JS_ATOM_MAX : Z := Z.shiftl 1 30 - 1.

(** [struct JSString], which is also [JSAtomStruct]. *)
Record JSAtomStruct : Type := mkAtom {
  ref_count : Z;
  body : JSString;
  hash : Z;
  atom_type : Z;
  hash_next : Z
}.

(** An element of [atom_array]: a pointer, or an odd number that links the free
    elements. *)
Inductive atom_entry : Type :=
| APtr (p : Z)
| AFree (next : Z).

#[export] Instance atom_entry_eq_dec : EqDecision atom_entry.
Proof. solve_decision. Defined.

Definition atom_get_free (e : atom_entry) : res Z := match e with AFree n => Ret n | APtr _ => Fault end.
Definition atom_is_free (e : atom_entry) : bool := match e with AFree _ => true | APtr _ => false end.
Definition atom_set_free (v : Z) : atom_entry := AFree v.

Record JSRuntime : Type := mkRuntime {
  strings : gmap Z JSAtomStruct;
  atom_hash : list Z;
  atom_array : list atom_entry;
  atom_count : Z;
  atom_count_resize : Z;
  atom_free_index : Z;
  mem : list bool;
  next_addr : Z
}.

Definition atom_hash_size (rt : JSRuntime) : Z := zlen (atom_hash rt).
Definition atom_size (rt : JSRuntime) : Z := zlen (atom_array rt).

Definition set_strings (m : gmap Z JSAtomStruct) (rt : JSRuntime) : JSRuntime :=
  mkRuntime m (atom_hash rt) (atom_array rt) (atom_count rt) (atom_count_resize rt) (atom_free_index rt)
    (mem rt) (next_addr rt).
Definition set_hash (h : list Z) (n : Z) (rt : JSRuntime) : JSRuntime :=
  mkRuntime (strings rt) h (atom_array rt) (atom_count rt) n (atom_free_index rt) (mem rt) (next_addr rt).
Definition set_array (l : list atom_entry) (free count : Z) (rt : JSRuntime) : JSRuntime :=
  mkRuntime (strings rt) (atom_hash rt) l count (atom_count_resize rt) free (mem rt) (next_addr rt).
Definition set_struct (p : Z) (s : JSAtomStruct) (rt : JSRuntime) : JSRuntime :=
  set_strings (<[p := s]> (strings rt)) rt.
Definition js_free_rt (p : Z) (rt : JSRuntime) : JSRuntime := set_strings (delete p (strings rt)) rt.

Definition set_ref_count (n : Z) (s : JSAtomStruct) : JSAtomStruct :=
  mkAtom n (body s) (hash s) (atom_type s) (hash_next s).
Definition set_hash_next (i : Z) (s : JSAtomStruct) : JSAtomStruct :=
  mkAtom (ref_count s) (body s) (hash s) (atom_type s) i.

(** The pointer at [atom_array[i]], which the code goes on to use. *)
Definition atom_ptr (rt : JSRuntime) (i : Z) : res Z :=
  e ← of_opt (znth (atom_array rt) i);
  match e with APtr p => Ret p | AFree _ => Fault end.
Definition get_struct (rt : JSRuntime) (p : Z) : res JSAtomStruct := of_opt (strings rt !! p).

(** ** Memory *)
Definition alloc_ok (rt : JSRuntime) : bool * JSRuntime :=
  match mem rt with
  | [] => (true, rt)
  | b :: m => (b, mkRuntime (strings rt) (atom_hash rt) (atom_array rt) (atom_count rt) (atom_count_resize rt)
                    (atom_free_index rt) m (next_addr rt))
  end.

(** A new structure; [None]: out of memory. *)
Definition js_malloc_struct (s : JSAtomStruct) (rt : JSRuntime) : option Z * JSRuntime :=
  let '(ok, rt) := alloc_ok rt in
  if ok then
    (Some (next_addr rt),
     mkRuntime (<[next_addr rt := s]> (strings rt)) (atom_hash rt) (atom_array rt) (atom_count rt)
       (atom_count_resize rt) (atom_free_index rt) (mem rt) (next_addr rt + 1))
  else (None, rt).

(** With the contents it is given next. *)
Definition js_alloc_string_rt (str : JSString) (rt : JSRuntime) : option Z * JSRuntime :=
  js_malloc_struct (mkAtom 1 str 0 0 0) rt.

(** ** Tagged integers *)
Definition __JS_AtomIsTaggedInt (v : Z) : bool := negb (Z.land v JS_ATOM_TAG_INT =? 0).
Definition __JS_AtomFromUInt32 (v : Z) : Z := Z.lor v JS_ATOM_TAG_INT.
Definition __JS_AtomToUInt32 (atom : Z) : Z := Z.land atom (Z.lnot JS_ATOM_TAG_INT).

Definition is_num (c : Z) : bool := (48 <=? c) && (c <=? 57).

(** The loop of [is_num_string]. *)
Fixpoint num_loop (l : list Z) (n : Z) : option Z :=
  match l with
  | [] => Some n
  | c :: l =>
      if negb (is_num c) then None
      else
        let n64 := n * 10 + (c - 48) in
        if negb (Z.shiftr n64 32 =? 0) then None else num_loop l n64
  end.

(** The [n] with [0 <= n <= 2^32-1] whose digits the string is. *)
Definition is_num_string (p : JSString) : option Z :=
  match chars p with
  | [] => None
  | c :: l =>
      if 10 <? zlen (chars p) then None
      else if is_num c then
        if c =? 48 then (if zlen (chars p) =? 1 then Some 0 else None) else num_loop l (c - 48)
      else None
  end.

Section atoms.
(** The number of predefined atoms, and the index of the empty string. *)
Variable JS_ATOM_END : Z.
Variable JS_ATOM_empty_string : Z.

Definition __JS_AtomIsConst (v : Z) : bool := i32 v <? JS_ATOM_END.

(** ** The hash table *)
Definition JS_ATOM_COUNT_RESIZE (n : Z) : Z := n * 2.

(** The [while] loop of [JS_ResizeAtomHash]: a chain moves to the new table. *)
Fixpoint resize_chain (fuel : nat) (mask h : Z) (new_hash : list Z) (rt : JSRuntime) : res (list Z * JSRuntime) :=
  if h =? 0 then Ret (new_hash, rt)
  else match fuel with
  | O => NoFuel
  | S fuel =>
      p ← atom_ptr rt h;
      s ← get_struct rt p;
      let hash_next1 := hash_next s in
      let j := Z.land (hash s) mask in
      nj ← of_opt (znth new_hash j);
      let rt := set_struct p (set_hash_next nj s) rt in
      new_hash ← of_opt (zupd new_hash j h);
      resize_chain fuel mask hash_next1 new_hash rt
  end.

(** The [for] loop. *)
Fixpoint resize_buckets (fuel : nat) (mask : Z) (old new_hash : list Z) (rt : JSRuntime)
    : res (list Z * JSRuntime) :=
  match old with
  | [] => Ret (new_hash, rt)
  | h :: old =>
      '(new_hash, rt) ← resize_chain fuel mask h new_hash rt;
      resize_buckets fuel mask old new_hash rt
  end.

(** [false]: out of memory. *)
Definition JS_ResizeAtomHash (new_hash_size : Z) (rt : JSRuntime) : res (bool * JSRuntime) :=
  _ ← assert_ (Z.land new_hash_size (new_hash_size - 1) =? 0);
  let '(ok, rt) := alloc_ok rt in
  if negb ok then Ret (false, rt)
  else
    let new_hash := replicate (Z.to_nat new_hash_size) 0 in
    '(new_hash, rt) ← resize_buckets (length (atom_array rt)) (new_hash_size - 1) (atom_hash rt) new_hash rt;
    Ret (true, set_hash new_hash (JS_ATOM_COUNT_RESIZE new_hash_size) rt).

Definition hash_index (h : Z) (rt : JSRuntime) : Z := Z.land h (atom_hash_size rt - 1).

(** The loop of [js_get_atom_index]. *)
Fixpoint index_walk (fuel : nat) (rt : JSRuntime) (p i : Z) : res Z :=
  p1 ← atom_ptr rt i;
  if p1 =? p then Ret i
  else match fuel with
  | O => NoFuel
  | S fuel =>
      _ ← assert_ (negb (i =? 0));
      s1 ← get_struct rt p1;
      index_walk fuel rt p (hash_next s1)
  end.

Definition js_get_atom_index (rt : JSRuntime) (p : Z) : res Z :=
  s ← get_struct rt p;
  if atom_type s =? JS_ATOM_TYPE_SYMBOL then Ret (hash_next s)
  else
    i ← of_opt (znth (atom_hash rt) (hash_index (hash s) rt));
    index_walk (length (atom_array rt)) rt p i.

(** The search in a chain: [None] if the string is not there. *)
Fixpoint find_walk (fuel : nat) (rt : JSRuntime) (h ty : Z) (str : JSString) (i : Z) : res (option Z) :=
  if i =? 0 then Ret None
  else match fuel with
  | O => NoFuel
  | S fuel =>
      p ← atom_ptr rt i;
      s ← get_struct rt p;
      let len := zlen (chars str) in
      if (hash s =? h) && (atom_type s =? ty) && (zlen (chars (body s)) =? len) then
        c ← js_string_memcmp (body s) str len;
        if c =? 0 then Ret (Some i) else find_walk fuel rt h ty str (hash_next s)
      else find_walk fuel rt h ty str (hash_next s)
  end.

(** ** Reference counts *)

(** The loop of [JS_FreeAtomStruct]: the predecessor of [p] in its chain is
    linked to its successor.  The result is the index of [p]. *)
Fixpoint unlink_walk (fuel : nat) (p i p1 : Z) (rt : JSRuntime) : res (Z * JSRuntime) :=
  match fuel with
  | O => NoFuel
  | S fuel =>
      _ ← assert_ (negb (i =? 0));
      s0 ← get_struct rt p1;
      let i := hash_next s0 in
      p2 ← atom_ptr rt i;
      if p2 =? p then
        s ← get_struct rt p2;
        Ret (i, set_struct p1 (set_hash_next (hash_next s) s0) rt)
      else unlink_walk fuel p i p2 rt
  end.

Definition JS_FreeAtomStruct (p : Z) (rt : JSRuntime) : res JSRuntime :=
  s ← get_struct rt p;
  '(i, rt) ← (if atom_type s =? JS_ATOM_TYPE_SYMBOL then Ret (hash_next s, rt)
              else
                let h0 := hash_index (hash s) rt in
                i ← of_opt (znth (atom_hash rt) h0);
                p1 ← atom_ptr rt i;
                if p1 =? p then
                  s1 ← get_struct rt p1;
                  l ← of_opt (zupd (atom_hash rt) h0 (hash_next s1));
                  Ret (i, set_hash l (atom_count_resize rt) rt)
                else unlink_walk (length (atom_array rt)) p i p1 rt);
  l ← of_opt (zupd (atom_array rt) i (atom_set_free (atom_free_index rt)));
  let rt := js_free_rt p (set_array l i (atom_count rt - 1) rt) in
  _ ← assert_ (0 <=? atom_count rt);
  Ret rt.

Definition js_free_string (p : Z) (rt : JSRuntime) : res JSRuntime :=
  s ← get_struct rt p;
  let n := ref_count s - 1 in
  let rt := set_struct p (set_ref_count n s) rt in
  if n <=? 0 then
    if negb (atom_type s =? 0) then JS_FreeAtomStruct p rt else Ret (js_free_rt p rt)
  else Ret rt.

(** [JS_FreeValue] of a symbol. *)
Definition js_free_symbol (p : Z) (rt : JSRuntime) : res JSRuntime :=
  s ← get_struct rt p;
  let n := ref_count s - 1 in
  let rt := set_struct p (set_ref_count n s) rt in
  if n <=? 0 then JS_FreeAtomStruct p rt else Ret rt.

(** [JS_DupValue] of a string or a symbol. *)
Definition js_dup_struct (p : Z) (rt : JSRuntime) : res JSRuntime :=
  s ← get_struct rt p;
  Ret (set_struct p (set_ref_count (ref_count s + 1) s) rt).

Definition __JS_FreeAtom (i : Z) (rt : JSRuntime) : res JSRuntime :=
  p ← atom_ptr rt i;
  s ← get_struct rt p;
  let n := ref_count s - 1 in
  let rt := set_struct p (set_ref_count n s) rt in
  if 0 <? n then Ret rt else JS_FreeAtomStruct p rt.

Definition JS_FreeAtom (v : Z) (rt : JSRuntime) : res JSRuntime :=
  if negb (__JS_AtomIsConst v) then __JS_FreeAtom v rt else Ret rt.

Definition JS_DupAtom (v : Z) (rt : JSRuntime) : res JSRuntime :=
  if negb (__JS_AtomIsConst v) then
    p ← atom_ptr rt v;
    js_dup_struct p rt
  else Ret rt.

(** ** New atoms *)

(** The elements [start], ..., [new_size - 1] as a list of free elements. *)
Definition free_entries (start new_size : Z) : list atom_entry :=
  map (fun k => let i := start + Z.of_nat k in
                atom_set_free (if i =? new_size - 1 then 0 else i + 1))
    (seq 0 (Z.to_nat (new_size - start))).

(** [a * 3 / 2] on [int]. *)
Definition grow_size (size : Z) : res Z :=
  if size * 3 <=? INT32_MAX then Ret (Z.quot (size * 3) 2) else Fault.

(** The array grows; [false]: it cannot. *)
Definition grow_array (rt : JSRuntime) : res (bool * JSRuntime) :=
  n ← grow_size (atom_size rt);
  let new_size := Z.max 211 n in
  if JS_ATOM_MAX <? new_size then Ret (false, rt)
  else
    let '(ok, rt) := alloc_ok rt in
    if negb ok then Ret (false, rt)
    else if atom_size rt =? 0 then
      let '(p, rt) := js_malloc_struct (mkAtom 1 (mkString false []) 0 JS_ATOM_TYPE_SYMBOL 0) rt in
      match p with
      | None => Ret (false, rt)
      | Some p => Ret (true, set_array (APtr p :: free_entries 1 new_size) 1 (atom_count rt + 1) rt)
      end
    else Ret (true, set_array (atom_array rt ++ free_entries (atom_size rt) new_size) (atom_size rt)
                      (atom_count rt) rt).

(** The structure of the new atom: the string itself, unless it already is an
    atom, or a string that stands for none.  The result is [None] when memory
    runs out; the flag tells whether the code goes to [fail]. *)
Definition atom_struct (str : option Z) (ty : Z) (rt : JSRuntime) : res (option Z * bool * JSRuntime) :=
  match str with
  | Some p =>
      s ← get_struct rt p;
      if atom_type s =? 0 then Ret (Some p, false, rt)
      else
        let '(q, rt) := js_malloc_struct (mkAtom 1 (body s) 0 0 0) rt in
        match q with
        | None => Ret (None, true, rt)
        | Some q => rt ← js_free_string p rt; Ret (Some q, false, rt)
        end
  | None =>
      let '(q, rt) := js_malloc_struct (mkAtom 1 (mkString true []) 0 0 0) rt in
      Ret (q, false, rt)
  end.

Definition free_opt_string (str : option Z) (rt : JSRuntime) : res JSRuntime :=
  match str with Some p => js_free_string p rt | None => Ret rt end.

(** The atom gets a free index, and is put in its chain. *)
Definition link_atom (p h h1 ty : Z) (rt : JSRuntime) : res (Z * JSRuntime) :=
  let i := atom_free_index rt in
  e ← of_opt (znth (atom_array rt) i);
  free ← atom_get_free e;
  l ← of_opt (zupd (atom_array rt) i (APtr p));
  s ← get_struct rt p;
  let rt := set_array l free (atom_count rt + 1) rt in
  if negb (ty =? JS_ATOM_TYPE_SYMBOL) then
    next ← of_opt (znth (atom_hash rt) h1);
    let rt := set_struct p (mkAtom (ref_count s) (body s) h ty next) rt in
    l ← of_opt (zupd (atom_hash rt) h1 i);
    let rt := set_hash l (atom_count_resize rt) rt in
    if atom_count_resize rt <=? atom_count rt then
      '(_, rt) ← JS_ResizeAtomHash (atom_hash_size rt * 2) rt;
      Ret (i, rt)
    else Ret (i, rt)
  else Ret (i, set_struct p (mkAtom (ref_count s) (body s) h ty i) rt).

(** A new atom for a string that is in no chain. *)
Definition new_atom (str : option Z) (h h1 ty : Z) (rt : JSRuntime) : res (Z * JSRuntime) :=
  '(ok, rt) ← (if atom_free_index rt =? 0 then grow_array rt else Ret (true, rt));
  if negb (ok : bool) then rt ← free_opt_string str rt; Ret (JS_ATOM_NULL, rt)
  else
    '(q, fail, rt) ← atom_struct str ty rt;
    match q with
    | None => if (fail : bool) then rt ← free_opt_string str rt; Ret (JS_ATOM_NULL, rt)
              else Ret (JS_ATOM_NULL, rt)
    | Some p => link_atom p h h1 ty rt
    end.

(** [str] is given up; the result is 0 when memory runs out. *)
Definition __JS_NewAtom (str : option Z) (atom_type0 : Z) (rt : JSRuntime) : res (Z * JSRuntime) :=
  if atom_type0 <? JS_ATOM_TYPE_SYMBOL then
    p ← of_opt str;
    s ← get_struct rt p;
    if atom_type s =? atom_type0 then
      i ← js_get_atom_index rt p;
      Ret (i, if __JS_AtomIsConst i then set_struct p (set_ref_count (ref_count s - 1) s) rt else rt)
    else
      let h := Z.land (hash_string (body s) atom_type0) JS_ATOM_HASH_MASK in
      let h1 := hash_index h rt in
      i ← of_opt (znth (atom_hash rt) h1);
      r ← find_walk (length (atom_array rt)) rt h atom_type0 (body s) i;
      match r with
      | Some i =>
          rt ← JS_DupAtom i rt;
          rt ← js_free_string p rt;
          Ret (i, rt)
      | None => new_atom str h h1 atom_type0 rt
      end
  else if atom_type0 =? JS_ATOM_TYPE_SYMBOL then new_atom str JS_ATOM_HASH_SYMBOL 0 JS_ATOM_TYPE_SYMBOL rt
  else new_atom str JS_ATOM_HASH_PRIVATE 0 JS_ATOM_TYPE_SYMBOL rt.

Definition __JS_NewAtomInit (str : list Z) (ty : Z) (rt : JSRuntime) : res (Z * JSRuntime) :=
  let '(p, rt) := js_alloc_string_rt (mkString false str) rt in
  match p with
  | None => Ret (JS_ATOM_NULL, rt)
  | Some p => __JS_NewAtom (Some p) ty rt
  end.

Definition JS_NewAtomStr (p : Z) (rt : JSRuntime) : res (Z * JSRuntime) :=
  s ← get_struct rt p;
  match is_num_string (body s) with
  | Some n =>
      if n <=? JS_ATOM_MAX_INT then
        rt ← js_free_string p rt;
        Ret (__JS_AtomFromUInt32 n, rt)
      else __JS_NewAtom (Some p) JS_ATOM_TYPE_STRING rt
  | None => __JS_NewAtom (Some p) JS_ATOM_TYPE_STRING rt
  end.

(** [snprintf("%u")] and [snprintf("%lld")]. *)
Definition JS_NewAtomUInt32 (n : Z) (rt : JSRuntime) : res (Z * JSRuntime) :=
  if n <=? JS_ATOM_MAX_INT then Ret (__JS_AtomFromUInt32 n, rt)
  else __JS_NewAtomInit (dec_digits 10 n) JS_ATOM_TYPE_STRING rt.

Definition JS_NewAtomInt64 (n : Z) (rt : JSRuntime) : res (Z * JSRuntime) :=
  if u64 n <=? JS_ATOM_MAX_INT then Ret (__JS_AtomFromUInt32 (u32 n), rt)
  else __JS_NewAtomInit ((if n <? 0 then [45] else []) ++ dec_digits 20 (Z.abs n)) JS_ATOM_TYPE_STRING rt.

(** The address of the symbol; [None]: out of memory. *)
Definition JS_NewSymbol (str : option Z) (ty : Z) (rt : JSRuntime) : res (option Z * JSRuntime) :=
  '(atom, rt) ← __JS_NewAtom str ty rt;
  if atom =? JS_ATOM_NULL then Ret (None, rt)
  else
    p ← atom_ptr rt atom;
    Ret (Some p, rt).

Definition JS_NewSymbolFromAtom (descr ty : Z) (rt : JSRuntime) : res (option Z * JSRuntime) :=
  _ ← assert_ (negb (__JS_AtomIsTaggedInt descr));
  _ ← assert_ (descr <? atom_size rt);
  p ← atom_ptr rt descr;
  rt ← js_dup_struct p rt;
  JS_NewSymbol (Some p) ty rt.

(** ** Atoms as values *)
Definition is_null_string (s : JSAtomStruct) : bool := (zlen (chars (body s)) =? 0) && is_wide_char (body s).

(** The address of the value, and whether it is a symbol; [None]: out of memory. *)
Definition __JS_AtomToValue (atom : Z) (force_string : bool) (rt : JSRuntime)
    : res (option (Z * bool) * JSRuntime) :=
  if __JS_AtomIsTaggedInt atom then
    let '(p, rt) := js_alloc_string_rt (mkString false (dec_digits 10 (__JS_AtomToUInt32 atom))) rt in
    Ret (match p with Some p => Some (p, false) | None => None end, rt)
  else
    _ ← assert_ (atom <? atom_size rt);
    p ← atom_ptr rt atom;
    s ← get_struct rt p;
    if atom_type s =? JS_ATOM_TYPE_STRING then
      rt ← js_dup_struct p rt; Ret (Some (p, false), rt)
    else if force_string then
      p ← (if is_null_string s then atom_ptr rt JS_ATOM_empty_string else Ret p);
      rt ← js_dup_struct p rt; Ret (Some (p, false), rt)
    else
      rt ← js_dup_struct p rt; Ret (Some (p, true), rt).

(** [JS_ValueToAtom] of a symbol. *)
Definition symbol_to_atom (p : Z) (rt : JSRuntime) : res (Z * JSRuntime) :=
  i ← js_get_atom_index rt p;
  rt ← JS_DupAtom i rt;
  Ret (i, rt).

Inductive JSAtomKindEnum : Type :=
| JS_ATOM_KIND_STRING
| JS_ATOM_KIND_SYMBOL
| JS_ATOM_KIND_PRIVATE.

Definition JS_AtomGetKind (v : Z) (rt : JSRuntime) : res JSAtomKindEnum :=
  if __JS_AtomIsTaggedInt v then Ret JS_ATOM_KIND_STRING
  else
    p ← atom_ptr rt v;
    s ← get_struct rt p;
    if atom_type s =? JS_ATOM_TYPE_STRING then Ret JS_ATOM_KIND_STRING
    else if atom_type s =? JS_ATOM_TYPE_GLOBAL_SYMBOL then Ret JS_ATOM_KIND_SYMBOL
    else if atom_type s =? JS_ATOM_TYPE_SYMBOL then
      if hash s =? JS_ATOM_HASH_SYMBOL then Ret JS_ATOM_KIND_SYMBOL
      else if hash s =? JS_ATOM_HASH_PRIVATE then Ret JS_ATOM_KIND_PRIVATE
      else Fault
    else Fault.

(** The index [0 <= n <= 2^32-2] that the atom stands for. *)
Definition JS_AtomIsArrayIndex (atom : Z) (rt : JSRuntime) : res (option Z) :=
  if __JS_AtomIsTaggedInt atom then Ret (Some (__JS_AtomToUInt32 atom))
  else
    _ ← assert_ (atom <? atom_size rt);
    p ← atom_ptr rt atom;
    s ← get_struct rt p;
    if atom_type s =? JS_ATOM_TYPE_STRING then
      match is_num_string (body s) with
      | Some v => Ret (if v =? UINT32_MAX then None else Some v)
      | None => Ret None
      end
    else Ret None.

(** ** Initialization *)
Definition empty_runtime (mem : list bool) : JSRuntime := mkRuntime ∅ [] [] 0 0 0 mem 1.

(** The loop of [JS_InitAtoms]; [None]: out of memory. *)
Fixpoint init_atoms (names : list (list Z * Z)) (rt : JSRuntime) : res (option JSRuntime) :=
  match names with
  | [] => Ret (Some rt)
  | (str, ty) :: names =>
      '(i, rt) ← __JS_NewAtomInit str ty rt;
      if i =? JS_ATOM_NULL then Ret None else init_atoms names rt
  end.

Definition JS_InitAtoms (names : list (list Z * Z)) (rt : JSRuntime) : res (option JSRuntime) :=
  '(ok, rt) ← JS_ResizeAtomHash 256 rt;
  if (ok : bool) then init_atoms names rt else Ret None.

(** ** The client *)

(** What a reference stands for: a text, a symbol of the registry with its key,
    or the symbol that was made at an address, with its description. *)
Inductive meaning : Type :=
| MText (l : list Z)
| MGlobal (l : list Z)
| MSymbol (p : Z) (descr : list Z).

(** A string or symbol value, or an atom. *)
Inductive hold : Type :=
| HPtr (p : Z) (m : meaning)
| HAtom (a : Z) (m : meaning).

#[global] Instance meaning_eq_dec : EqDecision meaning.
Proof. solve_decision. Defined.
#[global] Instance hold_eq_dec : EqDecision hold.
Proof. solve_decision. Defined.

Record client : Type := mkClient { runtime : JSRuntime; holds : list hold }.

Fixpoint drop_hold (h : hold) (l : list hold) : list hold :=
  match l with
  | [] => []
  | x :: l => if decide (x = h) then l else x :: drop_hold h l
  end.

Inductive client_op : Type :=
| NewString (str : JSString)
| DupValue (p : Z) (m : meaning)
| FreeValue (p : Z) (m : meaning)
| StringToAtom (p : Z) (l : list Z)            (* JS_NewAtomStr *)
| UInt32ToAtom (n : Z)                         (* JS_NewAtomUInt32 *)
| NewSymbol (str : option (Z * list Z)) (private : bool)
| SymbolFor (p : Z) (l : list Z)               (* Symbol.for *)
| DupAtom (a : Z) (m : meaning)
| FreeAtom (a : Z) (m : meaning)
| AtomToValue (a : Z) (m : meaning)
| AtomToString (a : Z) (m : meaning)
| SymbolToAtom (p : Z) (m : meaning).

(** The reference that an operation uses. *)
Definition op_hold (o : client_op) : option hold :=
  match o with
  | NewString _ | UInt32ToAtom _ => None
  | DupValue p m | FreeValue p m | SymbolToAtom p m => Some (HPtr p m)
  | StringToAtom p l | SymbolFor p l => Some (HPtr p (MText l))
  | NewSymbol str _ => match str with Some (p, l) => Some (HPtr p (MText l)) | None => None end
  | DupAtom a m | FreeAtom a m | AtomToValue a m | AtomToString a m => Some (HAtom a m)
  end.

Definition is_text (m : meaning) : bool := match m with MText _ => true | _ => false end.
Definition meaning_text (m : meaning) : list Z := match m with MText l | MGlobal l | MSymbol _ l => l end.

Definition give (h : hold) (rt : JSRuntime) (l : list hold) : client := mkClient rt (h :: l).
Definition give_atom (a : Z) (m : meaning) (rt : JSRuntime) (l : list hold) : client :=
  mkClient rt (if a =? JS_ATOM_NULL then l else HAtom a m :: l).

Definition do_op (o : client_op) (rt : JSRuntime) (l : list hold) : res client :=
  match o with
  | NewString str =>
      let '(p, rt) := js_alloc_string_rt str rt in
      Ret (match p with Some p => give (HPtr p (MText (chars str))) rt l | None => mkClient rt l end)
  | DupValue p m => rt ← js_dup_struct p rt; Ret (give (HPtr p m) rt l)
  | FreeValue p m =>
      rt ← (if is_text m then js_free_string p rt else js_free_symbol p rt);
      Ret (mkClient rt (drop_hold (HPtr p m) l))
  | StringToAtom p s =>
      '(a, rt) ← JS_NewAtomStr p rt;
      Ret (give_atom a (MText s) rt (drop_hold (HPtr p (MText s)) l))
  | UInt32ToAtom n =>
      '(a, rt) ← JS_NewAtomUInt32 n rt;
      Ret (give_atom a (MText (dec_digits 10 n)) rt l)
  | NewSymbol str private =>
      let l := match str with Some (p, s) => drop_hold (HPtr p (MText s)) l | None => l end in
      let descr := match str with Some (_, s) => s | None => [] end in
      '(q, rt) ← JS_NewSymbol (fst <$> str) (if private then JS_ATOM_TYPE_PRIVATE else JS_ATOM_TYPE_SYMBOL) rt;
      Ret (match q with Some q => give (HPtr q (MSymbol q descr)) rt l | None => mkClient rt l end)
  | SymbolFor p s =>
      '(q, rt) ← JS_NewSymbol (Some p) JS_ATOM_TYPE_GLOBAL_SYMBOL rt;
      let l := drop_hold (HPtr p (MText s)) l in
      Ret (match q with Some q => give (HPtr q (MGlobal s)) rt l | None => mkClient rt l end)
  | DupAtom a m => rt ← JS_DupAtom a rt; Ret (give (HAtom a m) rt l)
  | FreeAtom a m => rt ← JS_FreeAtom a rt; Ret (mkClient rt (drop_hold (HAtom a m) l))
  | AtomToValue a m =>
      '(r, rt) ← __JS_AtomToValue a false rt;
      Ret (match r with Some (p, _) => give (HPtr p m) rt l | None => mkClient rt l end)
  | AtomToString a m =>
      '(r, rt) ← __JS_AtomToValue a true rt;
      Ret (match r with Some (p, _) => give (HPtr p (MText (meaning_text m))) rt l | None => mkClient rt l end)
  | SymbolToAtom p m =>
      '(a, rt) ← symbol_to_atom p rt;
      Ret (give_atom a m rt l)
  end.

(** Operations are skipped when the client does not have the reference they
    use, or it is of the wrong kind. *)
Definition op_ok (o : client_op) (l : list hold) : bool :=
  match op_hold o with
  | Some h => bool_decide (h ∈ l)
  | None => true
  end &&
  match o with
  | SymbolToAtom _ m => negb (is_text m)
  | UInt32ToAtom n => (0 <=? n) && (n <=? UINT32_MAX)
  | _ => true
  end.

Definition client_step (o : client_op) (c : client) : res client :=
  if op_ok o (holds c) then do_op o (runtime c) (holds c) else Ret c.

Fixpoint client_run (ops : list client_op) (c : client) : res client :=
  match ops with
  | [] => Ret c
  | o :: ops => c ← client_step o c; client_run ops c
  end.
End atoms.
