(* ===== verification/AtomTable.v ===== *)
(** * quickjs-atom.h: the predefined atoms

    The names of the constants [JS_ATOM_xxx] with their texts, in the order of
    the file, without those of CONFIG_BIGNUM and CONFIG_ATOMICS, which the plugin
    does not define.  A constant is the position of its name, from 1. *)
From Stdlib Require Import ZArith Lia Bool Ascii String.
From stdpp Require Import base numbers list gmap.
From S2P Require Import Prelude Cutils JSValue AtomState.

Local Open Scope string_scope.

Definition js_atom_init : list (string * string) := [
  ("null", "null"); ("false", "false"); ("true", "true"); ("if", "if"); ("else", "else"); ("return", "return");
  ("var", "var"); ("this", "this"); ("delete", "delete"); ("void", "void"); ("typeof", "typeof");
  ("new", "new"); ("in", "in"); ("instanceof", "instanceof"); ("do", "do"); ("while", "while"); ("for", "for");
  ("break", "break"); ("continue", "continue"); ("switch", "switch"); ("case", "case"); ("default", "default");
  ("throw", "throw"); ("try", "try"); ("catch", "catch"); ("finally", "finally"); ("function", "function");
  ("debugger", "debugger"); ("with", "with"); ("class", "class"); ("const", "const"); ("enum", "enum");
  ("export", "export"); ("extends", "extends"); ("import", "import"); ("super", "super");
  ("implements", "implements"); ("interface", "interface"); ("let", "let"); ("package", "package");
  ("private", "private"); ("protected", "protected"); ("public", "public"); ("static", "static");
  ("yield", "yield"); ("await", "await"); ("empty_string", EmptyString); ("length", "length");
  ("fileName", "fileName"); ("lineNumber", "lineNumber"); ("message", "message"); ("errors", "errors");
  ("stack", "stack"); ("name", "name"); ("toString", "toString"); ("toLocaleString", "toLocaleString");
  ("valueOf", "valueOf"); ("eval", "eval"); ("prototype", "prototype"); ("constructor", "constructor");
  ("configurable", "configurable"); ("writable", "writable"); ("enumerable", "enumerable"); ("value", "value");
  ("get", "get"); ("set", "set"); ("of", "of"); ("__proto__", "__proto__"); ("undefined", "undefined");
  ("number", "number"); ("boolean", "boolean"); ("string", "string"); ("object", "object");
  ("symbol", "symbol"); ("integer", "integer"); ("unknown", "unknown"); ("arguments", "arguments");
  ("callee", "callee"); ("caller", "caller"); ("_eval_", "<eval>"); ("_ret_", "<ret>"); ("_var_", "<var>");
  ("_arg_var_", "<arg_var>"); ("_with_", "<with>"); ("lastIndex", "lastIndex"); ("target", "target");
  ("index", "index"); ("input", "input"); ("defineProperties", "defineProperties"); ("apply", "apply");
  ("join", "join"); ("concat", "concat"); ("split", "split"); ("construct", "construct");
  ("getPrototypeOf", "getPrototypeOf"); ("setPrototypeOf", "setPrototypeOf"); ("isExtensible", "isExtensible");
  ("preventExtensions", "preventExtensions"); ("has", "has"); ("deleteProperty", "deleteProperty");
  ("defineProperty", "defineProperty"); ("getOwnPropertyDescriptor", "getOwnPropertyDescriptor");
  ("ownKeys", "ownKeys"); ("add", "add"); ("done", "done"); ("next", "next"); ("values", "values");
  ("source", "source"); ("flags", "flags"); ("global", "global"); ("unicode", "unicode"); ("raw", "raw");
  ("new_target", "new.target"); ("this_active_func", "this.active_func"); ("home_object", "<home_object>");
  ("computed_field", "<computed_field>"); ("static_computed_field", "<static_computed_field>");
  ("class_fields_init", "<class_fields_init>"); ("brand", "<brand>"); ("hash_constructor", "#constructor");
  ("as", "as"); ("from", "from"); ("meta", "meta"); ("_default_", "*default*"); ("_star_", "*");
  ("Module", "Module"); ("then", "then"); ("resolve", "resolve"); ("reject", "reject"); ("promise", "promise");
  ("proxy", "proxy"); ("revoke", "revoke"); ("async", "async"); ("exec", "exec"); ("groups", "groups");
  ("status", "status"); ("reason", "reason"); ("globalThis", "globalThis"); ("toJSON", "toJSON");
  ("Object", "Object"); ("Array", "Array"); ("Error", "Error"); ("Number", "Number"); ("String", "String");
  ("Boolean", "Boolean"); ("Symbol", "Symbol"); ("Arguments", "Arguments"); ("Math", "Math"); ("JSON", "JSON");
  ("Date", "Date"); ("Function", "Function"); ("GeneratorFunction", "GeneratorFunction");
  ("ForInIterator", "ForInIterator"); ("RegExp", "RegExp"); ("ArrayBuffer", "ArrayBuffer");
  ("SharedArrayBuffer", "SharedArrayBuffer"); ("Uint8ClampedArray", "Uint8ClampedArray");
  ("Int8Array", "Int8Array"); ("Uint8Array", "Uint8Array"); ("Int16Array", "Int16Array");
  ("Uint16Array", "Uint16Array"); ("Int32Array", "Int32Array"); ("Uint32Array", "Uint32Array");
  ("Float32Array", "Float32Array"); ("Float64Array", "Float64Array"); ("DataView", "DataView"); ("Map", "Map");
  ("Set", "Set"); ("WeakMap", "WeakMap"); ("WeakSet", "WeakSet"); ("Map_Iterator", "Map Iterator");
  ("Set_Iterator", "Set Iterator"); ("Array_Iterator", "Array Iterator");
  ("String_Iterator", "String Iterator"); ("RegExp_String_Iterator", "RegExp String Iterator");
  ("Generator", "Generator"); ("Proxy", "Proxy"); ("Promise", "Promise");
  ("PromiseResolveFunction", "PromiseResolveFunction"); ("PromiseRejectFunction", "PromiseRejectFunction");
  ("AsyncFunction", "AsyncFunction"); ("AsyncFunctionResolve", "AsyncFunctionResolve");
  ("AsyncFunctionReject", "AsyncFunctionReject"); ("AsyncGeneratorFunction", "AsyncGeneratorFunction");
  ("AsyncGenerator", "AsyncGenerator"); ("EvalError", "EvalError"); ("RangeError", "RangeError");
  ("ReferenceError", "ReferenceError"); ("SyntaxError", "SyntaxError"); ("TypeError", "TypeError");
  ("URIError", "URIError"); ("InternalError", "InternalError"); ("Private_brand", "<brand>");
  ("Symbol_toPrimitive", "Symbol.toPrimitive"); ("Symbol_iterator", "Symbol.iterator");
  ("Symbol_match", "Symbol.match"); ("Symbol_matchAll", "Symbol.matchAll");
  ("Symbol_replace", "Symbol.replace"); ("Symbol_search", "Symbol.search"); ("Symbol_split", "Symbol.split");
  ("Symbol_toStringTag", "Symbol.toStringTag"); ("Symbol_isConcatSpreadable", "Symbol.isConcatSpreadable");
  ("Symbol_hasInstance", "Symbol.hasInstance"); ("Symbol_species", "Symbol.species");
  ("Symbol_unscopables", "Symbol.unscopables"); ("Symbol_asyncIterator", "Symbol.asyncIterator")
].

Local Close Scope string_scope.

Definition text_of (s : string) : list Z := map (fun c => Z.of_nat (nat_of_ascii c)) (list_ascii_of_string s).

Definition JS_ATOM_END : Z := 1 + zlen js_atom_init.

(** The position of a name. *)
Fixpoint position (name : string) (l : list (string * string)) (i : Z) : Z :=
  match l with
  | [] => 0
  | (n, _) :: l => if String.eqb n name then i else position name l (i + 1)
  end.
Definition JS_ATOM (name : string) : Z := position name js_atom_init 1.
Definition JS_ATOM_empty_string : Z := JS_ATOM "empty_string".

(** The types that [JS_InitAtoms] gives to the names. *)
Definition init_type (i : Z) : Z :=
  if i =? JS_ATOM "Private_brand" then JS_ATOM_TYPE_PRIVATE
  else if JS_ATOM "Symbol_toPrimitive" <=? i then JS_ATOM_TYPE_SYMBOL
  else JS_ATOM_TYPE_STRING.

Definition init_names : list (list Z * Z) :=
  imap (fun k x => (text_of x.2, init_type (Z.of_nat k + 1))) js_atom_init.

(** The runtime after [JS_InitAtoms] when no allocation fails. *)
Definition initial : res (option JSRuntime) := JS_InitAtoms JS_ATOM_END init_names (empty_runtime []).
