(* ===== verification/AtomFacts.v ===== *)
(** * quickjs.c: the well-formedness of the table of atoms

    What the operations on the table do to it: each keeps the free list, the
    chains and the array consistent, and changes nothing else than the structure
    it is called on ([frame]). *)
From Stdlib Require Import ZArith Lia Bool.
From stdpp Require Import base numbers list gmap.
From S2P Require Import Prelude Cutils Chains JSValue AtomState.

(** ** The table *)
Definition at_index (rt : JSRuntime) (i p : Z) (s : JSAtomStruct) : Prop :=
  znth (atom_array rt) i = Some (APtr p) /\ strings rt !! p = Some s.

Definition chain_next (rt : JSRuntime) (i : Z) : option Z :=
  match znth (atom_array rt) i with Some (APtr p) => hash_next <$> strings rt !! p | _ => None end.
Definition free_next (rt : JSRuntime) (i : Z) : option Z :=
  match znth (atom_array rt) i with Some (AFree n) => Some n | _ => None end.

Definition is_symbol (s : JSAtomStruct) : Prop := atom_type s = JS_ATOM_TYPE_SYMBOL.
#[export] Instance is_symbol_dec s : Decision (is_symbol s).
Proof. unfold is_symbol. apply _. Defined.

(** The chains of the buckets. *)
Record chains_ok (rt : JSRuntime) (ch : list (list Z)) : Prop := {
  ch_linked : Forall2 (linked (chain_next rt)) (atom_hash rt) ch;
  ch_elem : forall b l i, ch !! b = Some l -> i ∈ l ->
    exists p s, at_index rt i p s /\ ~ is_symbol s /\ Z.of_nat b = hash_index (hash s) rt;
  ch_all : forall i p s, at_index rt i p s -> ~ is_symbol s -> exists b l, ch !! b = Some l /\ i ∈ l
}.

Record wf (rt : JSRuntime) : Prop := {
  w_free : exists fl, linked (free_next rt) (atom_free_index rt) fl /\
    forall i n, znth (atom_array rt) i = Some (AFree n) -> i ∈ fl;
  w_ptr : forall i p, znth (atom_array rt) i = Some (APtr p) ->
    exists s, strings rt !! p = Some s /\ 1 <= atom_type s <= 3;
  w_inj : forall i j p, znth (atom_array rt) i = Some (APtr p) -> znth (atom_array rt) j = Some (APtr p) -> i = j;
  w_back : forall p s, strings rt !! p = Some s -> atom_type s <> 0 ->
    exists i, znth (atom_array rt) i = Some (APtr p);
  w_zero : atom_array rt <> [] -> exists p s, at_index rt 0 p s /\ is_symbol s;
  w_sym : forall i p s, at_index rt i p s -> is_symbol s -> hash_next s = i;
  w_hash : forall p s, strings rt !! p = Some s -> atom_type s <> 0 -> ~ is_symbol s ->
    hash s = Z.land (hash_string (body s) (atom_type s)) JS_ATOM_HASH_MASK;
  w_chain : exists ch, chains_ok rt ch;
  w_uniq : forall i j p q s t, at_index rt i p s -> at_index rt j q t -> ~ is_symbol s ->
    atom_type s = atom_type t -> chars (body s) = chars (body t) -> i = j;
  w_size : exists k, 0 <= k /\ atom_hash_size rt = 2 ^ k;
  w_count : atom_count rt = countb (fun e => negb (atom_is_free e)) (atom_array rt);
  w_addr : forall p s, strings rt !! p = Some s -> p < next_addr rt
}.

(** Nothing changes but the structures at the addresses in [Q]. *)
Record frame (Q : Z -> Prop) (rt rt' : JSRuntime) : Prop := {
  f_str : forall q s, ~ Q q -> strings rt !! q = Some s -> exists s', strings rt' !! q = Some s' /\
    ref_count s' = ref_count s /\ body s' = body s /\ atom_type s' = atom_type s /\ hash s' = hash s;
  f_back : forall q s', ~ Q q -> strings rt' !! q = Some s' -> is_Some (strings rt !! q);
  f_arr : forall i q, ~ Q q -> znth (atom_array rt) i = Some (APtr q) <-> znth (atom_array rt') i = Some (APtr q)
}.

Lemma frame_refl Q rt : frame Q rt rt.
Proof. split; [intros q s _ Hs; by exists s | by eauto | done]. Qed.

Lemma frame_eq Q rt rt' : strings rt' = strings rt -> atom_array rt' = atom_array rt -> frame Q rt rt'.
Proof.
  intros E1 E2. split; rewrite ?E1, ?E2; [intros q s _ Hs; by exists s | by eauto | done].
Qed.

Lemma frame_trans Q Q' R rt1 rt2 rt3 : frame Q rt1 rt2 -> frame Q' rt2 rt3 ->
  (forall q, Q q -> R q) -> (forall q, Q' q -> R q) -> frame R rt1 rt3.
Proof.
  intros [S1 B1 A1] [S2 B2 A2] H1 H2. split.
  - intros q s Hq Hs. destruct (S1 q s ltac:(auto) Hs) as (s1 & Hs1 & ? & ? & ? & ?).
    destruct (S2 q s1 ltac:(auto) Hs1) as (s2 & Hs2 & ? & ? & ? & ?).
    exists s2. split_and!; congruence.
  - intros q s Hq Hs. destruct (B2 q s ltac:(auto) Hs) as [s1 Hs1]. by apply (B1 q s1); auto.
  - intros i q Hq. rewrite A1, A2; auto.
Qed.

(** ** Reading *)
Lemma atom_ptr_Ret rt i p : znth (atom_array rt) i = Some (APtr p) -> atom_ptr rt i = Ret p.
Proof. intros H. unfold atom_ptr. by rewrite H. Qed.

Lemma get_struct_Ret rt p s : strings rt !! p = Some s -> get_struct rt p = Ret s.
Proof. intros H. unfold get_struct. by rewrite H. Qed.

Lemma at_index_ptr rt i p s : wf rt -> znth (atom_array rt) i = Some (APtr p) -> strings rt !! p = Some s ->
  at_index rt i p s /\ 1 <= atom_type s <= 3.
Proof.
  intros W H Hs. destruct (w_ptr _ W i p H) as (s' & Hs' & Ht). split; [done |]. by rewrite Hs in Hs'; injection Hs' as ->.
Qed.

Lemma at_index_range rt i p s : at_index rt i p s -> 0 <= i < atom_size rt.
Proof. intros [H _]. by apply znth_lt_Some in H. Qed.

(** A power of two as the size of a table. *)
Lemma hash_index_range rt h : (exists k, 0 <= k /\ atom_hash_size rt = 2 ^ k) -> 0 <= hash_index h rt < atom_hash_size rt.
Proof.
  intros (k & Hk & E). unfold hash_index. rewrite E, land_mask by done.
  apply Z.mod_pos_bound. by apply Z.pow_pos_nonneg.
Qed.

Lemma bucket_chain rt ch h : wf rt -> chains_ok rt ch -> exists i l,
  znth (atom_hash rt) (hash_index h rt) = Some i /\ ch !! Z.to_nat (hash_index h rt) = Some l /\
  linked (chain_next rt) i l.
Proof.
  intros W C. pose proof (hash_index_range rt h (w_size _ W)) as Hr.
  pose proof (ch_linked _ _ C) as H2.
  destruct (lookup_lt_is_Some_2 (atom_hash rt) (Z.to_nat (hash_index h rt))) as [i Hi].
  { unfold atom_hash_size, zlen in Hr. lia. }
  destruct (Forall2_lookup_l _ _ _ _ _ H2 Hi) as (l & Hl & Hk).
  exists i, l. split_and!; [| done | done]. unfold znth.
  rewrite (proj2 (Z.leb_le _ _)) by lia. done.
Qed.

(** ** Changes that do not concern the table *)
Definition same (s t : JSAtomStruct) : Prop :=
  body s = body t /\ hash s = hash t /\ atom_type s = atom_type t /\ hash_next s = hash_next t.

(** Atoms keep everything but their reference count; strings come and go. *)
Record strings_only (rt rt' : JSRuntime) : Prop := {
  so_array : atom_array rt' = atom_array rt;
  so_hash : atom_hash rt' = atom_hash rt;
  so_free : atom_free_index rt' = atom_free_index rt;
  so_count : atom_count rt' = atom_count rt;
  so_new : forall p s, strings rt' !! p = Some s ->
    p < next_addr rt' /\ ((exists t, strings rt !! p = Some t /\ same s t) \/ atom_type s = 0 /\ strings rt !! p = None);
  so_old : forall p s, strings rt !! p = Some s -> atom_type s <> 0 -> is_Some (strings rt' !! p)
}.

Lemma wf_strings_only rt rt' : wf rt -> strings_only rt rt' -> wf rt'.
Proof.
  intros W [Ea Eh Ef Ec Hn Ho].
  assert (forall i p s, at_index rt' i p s -> exists t, at_index rt i p t /\ same s t) as Hback.
  { intros i p s [Hi Hs]. rewrite Ea in Hi. destruct (w_ptr _ W i p Hi) as (t & Ht & Hr).
    destruct (Hn p s Hs) as [_ [(u & Hu & Hsame) | [_ Hnone]]]; [| congruence].
    exists u. done. }
  assert (forall i p t, at_index rt i p t -> exists s, at_index rt' i p s /\ same s t) as Hfwd.
  { intros i p t [Hi Ht]. destruct (w_ptr _ W i p Hi) as (t' & Ht' & Hr).
    assert (t' = t) as -> by congruence. destruct (Ho p t Ht ltac:(lia)) as [s Hs].
    exists s. split; [by split; [rewrite Ea |] |].
    destruct (Hn p s Hs) as [_ [(u & Hu & Hsame) | [_ Hnone]]]; [| congruence]. by assert (u = t) as -> by congruence. }
  assert (forall i, chain_next rt' i = chain_next rt i) as Hnext.
  { intros i. unfold chain_next. rewrite Ea. destruct (znth (atom_array rt) i) as [[p |] |] eqn:E; [| done..].
    destruct (w_ptr _ W i p E) as (t & Ht & _). destruct (Hfwd i p t) as (s & [_ Hs] & Hsame); [done |].
    rewrite Hs, Ht. cbn. f_equal. apply Hsame. }
  assert (forall h, hash_index h rt' = hash_index h rt) as Hidx
    by (intros h; unfold hash_index, atom_hash_size; by rewrite Eh).
  destruct W as [(fl & Hfl & Hfa) Wp Wi Wb Wz Ws Wh (ch & [C1 C2 C3]) Wu Wk Wc Wa]. split.
  - exists fl. rewrite Ef, Ea. split; [| done]. apply (linked_ext (free_next rt)); [done |].
    intros j _. unfold free_next. by rewrite Ea.
  - intros i p Hi. rewrite Ea in Hi. destruct (Wp i p Hi) as (t & Ht & Hr).
    destruct (Hfwd i p t) as (s & [_ Hs] & _ & _ & Hty & _); [done |]. exists s. by rewrite Hty.
  - rewrite Ea. exact Wi.
  - intros p s Hs Hty. rewrite Ea. destruct (Hn p s Hs) as [_ [(t & Ht & _ & _ & E & _) | [E _]]]; [| done].
    apply (Wb p t Ht). by rewrite <- E.
  - rewrite Ea. intros Hne. destruct (Wz Hne) as (p & t & Hat & Hsym).
    destruct (Hfwd 0 p t Hat) as (s & Hat' & _ & _ & E & _). exists p, s. split; [done |]. unfold is_symbol. congruence.
  - intros i p s Hat Hsym. destruct (Hback i p s Hat) as (t & Hat' & _ & _ & E & ->).
    apply (Ws i p t Hat'). unfold is_symbol in *. congruence.
  - intros p s Hs Hty Hsym. destruct (Hn p s Hs) as [_ [(t & Ht & -> & -> & E & _) | [E _]]]; [| done].
    rewrite E. apply (Wh p t Ht); [congruence | unfold is_symbol in *; congruence].
  - exists ch. split.
    + rewrite Eh. eapply list.Forall2_impl; [exact C1 |]. intros i l Hl. by eapply linked_ext.
    + intros b l i Hb Hi. destruct (C2 b l i Hb Hi) as (p & t & Hat & Hsym & Hh).
      destruct (Hfwd i p t Hat) as (s & Hat' & _ & Eh' & Et & _).
      exists p, s. split_and!; [done | unfold is_symbol in *; congruence | by rewrite Hidx, Eh'].
    + intros i p s Hat Hsym. destruct (Hback i p s Hat) as (t & Hat' & _ & _ & E & _).
      apply (C3 i p t Hat'). unfold is_symbol in *. congruence.
  - intros i j p q s t Hi Hj Hsym Ety Ech.
    destruct (Hback i p s Hi) as (s' & Hi' & Eb & _ & Et & _), (Hback j q t Hj) as (t' & Hj' & Eb' & _ & Et' & _).
    eapply (Wu i j p q s' t' Hi' Hj'); [unfold is_symbol in *; congruence | congruence | congruence].
  - unfold atom_hash_size. by rewrite Eh.
  - by rewrite Ec, Ea.
  - intros p s Hs. by apply (Hn p s Hs).
Qed.

Lemma wf_set_ref p s n rt : wf rt -> strings rt !! p = Some s ->
  wf (set_struct p (set_ref_count n s) rt) /\ frame (fun q => q = p) rt (set_struct p (set_ref_count n s) rt).
Proof.
  intros W Hs. split.
  - apply (wf_strings_only rt); [done |]. split; try done.
    + intros q t Hq. cbn in Hq. destruct (decide (p = q)) as [<- | D].
      * rewrite lookup_insert_eq in Hq. injection Hq as <-. split; [by apply (w_addr _ W p s) |]. left. by exists s.
      * rewrite lookup_insert_ne in Hq by done. split; [by apply (w_addr _ W q t) |]. left. by exists t.
    + intros q t Hq _. cbn. apply lookup_insert_is_Some. destruct (decide (p = q)); [by left | right; eauto].
  - split; cbn.
    + intros q t Hq Ht. exists t. by rewrite lookup_insert_ne.
    + intros q t Hq Ht. rewrite lookup_insert_ne in Ht by done. eauto.
    + done.
Qed.

(** Memory. *)
Lemma alloc_ok_spec rt : wf rt -> exists ok rt', alloc_ok rt = (ok, rt') /\ wf rt' /\ frame (fun _ => False) rt rt' /\
  strings rt' = strings rt /\ atom_array rt' = atom_array rt /\ atom_hash rt' = atom_hash rt /\
  atom_free_index rt' = atom_free_index rt /\ atom_count rt' = atom_count rt /\ next_addr rt' = next_addr rt.
Proof.
  intros W. unfold alloc_ok. destruct (mem rt) as [| b m].
  - exists true, rt. split_and!; try done. apply frame_refl.
  - eexists b, _. split; [reflexivity |]. split_and!; try done; [| by apply frame_eq].
    apply (wf_strings_only rt); [done |]. split; try done.
    + intros p s Hs. split; [by apply (w_addr _ W p s) |]. left. by exists s.
Qed.

Lemma js_malloc_struct_spec s rt : wf rt -> atom_type s = 0 -> exists o rt',
  js_malloc_struct s rt = (o, rt') /\ wf rt' /\
  atom_array rt' = atom_array rt /\ atom_hash rt' = atom_hash rt /\ atom_free_index rt' = atom_free_index rt /\
  atom_count rt' = atom_count rt /\
  match o with
  | Some p => strings rt !! p = None /\ strings rt' = <[p := s]> (strings rt) /\ p = next_addr rt
  | None => strings rt' = strings rt
  end.
Proof.
  intros W Hty. unfold js_malloc_struct.
  destruct (alloc_ok_spec rt W) as (ok & rt1 & -> & W1 & F1 & Es & Ea & Eh & Ef & Ec & En).
  destruct ok; [| exists None, rt1; by rewrite Es].
  assert (strings rt1 !! next_addr rt1 = None) as Hnone.
  { destruct (strings rt1 !! next_addr rt1) eqn:E; [| done]. apply (w_addr _ W1) in E. lia. }
  eexists _, _. split; [reflexivity |]. split_and!; try done.
  - apply (wf_strings_only rt1); [done |]. split; try done; cbn.
    + intros q t Hq. destruct (decide (next_addr rt1 = q)) as [<- | D].
      * rewrite lookup_insert_eq in Hq. injection Hq as <-. split; [lia |]. by right.
      * rewrite lookup_insert_ne in Hq by done. split; [apply (w_addr _ W1) in Hq; lia |]. left. by exists t.
    + intros q t Hq _. apply lookup_insert_is_Some. destruct (decide (next_addr rt1 = q)); [by left | right; eauto].
  - by rewrite <- Es.
  - cbn. by rewrite Es.
Qed.

Lemma js_free_rt_spec p s rt : wf rt -> strings rt !! p = Some s -> atom_type s = 0 ->
  wf (js_free_rt p rt) /\ frame (fun q => q = p) rt (js_free_rt p rt).
Proof.
  intros W Hs Hty. split.
  - apply (wf_strings_only rt); [done |]. split; try done; cbn.
    + intros q t Hq. apply lookup_delete_Some in Hq as [D Hq]. split; [by apply (w_addr _ W q t) |]. left. by exists t.
    + intros q t Hq Ht. rewrite lookup_delete_ne; [by eauto |]. intros <-. congruence.
  - split; cbn.
    + intros q t Hq Ht. exists t. by rewrite lookup_delete_ne by congruence.
    + intros q t Hq Ht. apply lookup_delete_Some in Ht as [_ Ht]. eauto.
    + done.
Qed.

(** ** Walking along a chain *)
Lemma chain_next_Some rt i k : chain_next rt i = Some k ->
  exists p s, at_index rt i p s /\ hash_next s = k.
Proof.
  unfold chain_next, at_index. destruct (znth (atom_array rt) i) as [[p |] |]; [| done..].
  destruct (strings rt !! p) as [s |] eqn:Hs; [| done]. intros [= <-]. by exists p, s.
Qed.

Lemma chain_length rt i l : linked (chain_next rt) i l -> (length l <= length (atom_array rt))%nat.
Proof.
  intros H. rewrite <- (Nat2Z.id (length (atom_array rt))). apply nodup_bounded; [by eapply linked_nodup |].
  intros j Hj. destruct (linked_nonzero _ _ _ _ H Hj) as [_ [k Hk]].
  apply chain_next_Some in Hk as (p & s & Hat & _). exact (at_index_range _ _ _ _ Hat).
Qed.

Lemma index_walk_spec rt p x : wf rt -> znth (atom_array rt) x = Some (APtr p) -> forall l i fuel,
  linked (chain_next rt) i l -> x ∈ l -> (length l <= fuel)%nat -> index_walk fuel rt p i = Ret x.
Proof.
  intros W Hx. induction l as [| j l IH]; intros i fuel H Hin Hf; [by apply not_elem_of_nil in Hin |].
  destruct H as (-> & Hj & k & Hk & Hl). destruct (chain_next_Some _ _ _ Hk) as (q & s & [Hq Hs] & <-).
  destruct fuel as [| fuel]; [cbn in Hf; lia |]. cbn [index_walk].
  rewrite (atom_ptr_Ret _ _ _ Hq). cbn [mbind res_bind]. destruct (Z.eqb_spec q p) as [-> | D].
  - f_equal. by apply (w_inj _ W j x p).
  - rewrite (proj2 (Z.eqb_neq _ _) Hj), (get_struct_Ret _ _ _ Hs). cbn [negb assert_ mbind res_bind].
    apply IH; [done | | cbn in Hf; lia]. apply elem_of_cons in Hin as [-> | ?]; [congruence | done].
Qed.

Lemma js_get_atom_index_spec rt i p s : wf rt -> at_index rt i p s -> js_get_atom_index rt p = Ret i.
Proof.
  intros W Hat. pose proof Hat as [Hi Hs]. unfold js_get_atom_index. rewrite (get_struct_Ret _ _ _ Hs).
  cbn [mbind res_bind]. destruct (Z.eqb_spec (atom_type s) JS_ATOM_TYPE_SYMBOL) as [E | E].
  - f_equal. exact (w_sym _ W i p s Hat E).
  - destruct (w_chain _ W) as [ch C]. destruct (bucket_chain rt ch (hash s) W C) as (h & l & Hh & Hl & Hk).
    rewrite Hh. cbn [of_opt mbind res_bind].
    apply (index_walk_spec rt p i W Hi l); [done | | by eapply chain_length].
    destruct (ch_all _ _ C i p s Hat E) as (b & l' & Hb & Hin).
    destruct (ch_elem _ _ C b l' i Hb Hin) as (p' & s' & [Hi' Hs'] & _ & Hbk).
    assert (p' = p) as -> by congruence. assert (s' = s) as -> by congruence.
    rewrite <- Hbk, Nat2Z.id in Hl. by assert (l' = l) as -> by congruence.
Qed.

(** The atom that [find_walk] looks for. *)
Definition matches (rt : JSRuntime) (ty : Z) (str : JSString) (i : Z) : Prop :=
  exists p s, at_index rt i p s /\ atom_type s = ty /\ chars (body s) = chars str.

Lemma js_string_memcmp_eq s t : zlen (chars s) = zlen (chars t) ->
  exists c, js_string_memcmp s t (zlen (chars t)) = Ret c /\ (c = 0 <-> chars s = chars t).
Proof.
  intros E. unfold js_string_memcmp. unfold zlen in *. rewrite Nat2Z.id.
  assert (length (chars s) = length (chars t)) as El by lia.
  destruct (negb (is_wide_char s) && is_wide_char t).
  - destruct (memcmp16_spec (chars t) (chars s) (length (chars t))) as (c & -> & Hc); [lia.. |].
    rewrite (firstn_all2 (n := length (chars t)) (chars s)), firstn_all in Hc by lia.
    exists (- c). split; [done |]. split; intros H; [symmetry; apply Hc; lia | symmetry in H; apply Hc in H; lia].
  - destruct (memcmp16_spec (chars s) (chars t) (length (chars t))) as (c & -> & Hc); [lia.. |].
    rewrite (firstn_all2 (n := length (chars t)) (chars s)), firstn_all in Hc by lia. by exists c.
Qed.

Lemma find_walk_spec rt ty str : wf rt -> ty <> 0 -> ty <> JS_ATOM_TYPE_SYMBOL -> forall l i fuel,
  linked (chain_next rt) i l -> (length l <= fuel)%nat ->
  exists r, find_walk fuel rt (Z.land (hash_string str ty) JS_ATOM_HASH_MASK) ty str i = Ret r /\
    match r with
    | Some j => j ∈ l /\ matches rt ty str j
    | None => forall j, j ∈ l -> ~ matches rt ty str j
    end.
Proof.
  intros W Hty0 Hty3. set (h := Z.land _ _). induction l as [| j l IH]; intros i fuel H Hf.
  { cbn in H. subst i. exists None. split; [by destruct fuel |]. intros j Hj. by apply not_elem_of_nil in Hj. }
  destruct H as (-> & Hj & k & Hk & Hl). destruct (chain_next_Some _ _ _ Hk) as (p & s & [Hp Hs] & <-).
  destruct fuel as [| fuel]; [cbn in Hf; lia |]. cbn [find_walk].
  rewrite (proj2 (Z.eqb_neq _ _) Hj), (atom_ptr_Ret _ _ _ Hp). cbn [mbind res_bind].
  rewrite (get_struct_Ret _ _ _ Hs). cbn [mbind res_bind].
  destruct (IH (hash_next s) fuel Hl ltac:(cbn in Hf; lia)) as (r & Er & Hr).
  assert ((~ matches rt ty str j) -> exists r, find_walk fuel rt h ty str (hash_next s) = Ret r /\
    match r with Some x => x ∈ j :: l /\ matches rt ty str x | None => forall x, x ∈ j :: l -> ~ matches rt ty str x end)
    as Hskip.
  { intros Hno. exists r. split; [done |]. destruct r as [x |].
    - destruct Hr. split; [by right | done].
    - intros x [-> | Hx]%elem_of_cons; [done | by apply Hr]. }
  assert (matches rt ty str j <-> atom_type s = ty /\ chars (body s) = chars str) as Hm.
  { split; [| by exists p, s]. intros (p' & s' & [Hp' Hs'] & ?).
    assert (p' = p) as -> by congruence. by assert (s' = s) as -> by congruence. }
  destruct ((hash s =? h) && (atom_type s =? ty) && (zlen (chars (body s)) =? zlen (chars str))) eqn:E.
  - apply andb_true_iff in E as [[Eh Et]%andb_true_iff El]. apply Z.eqb_eq in Eh, Et, El.
    destruct (js_string_memcmp_eq (body s) str El) as (c & -> & Hc). cbn [mbind res_bind].
    destruct (Z.eqb_spec c 0) as [-> | Hc0].
    + exists (Some j). split; [done |]. split; [by left |]. apply Hm. split; [done | by apply Hc].
    + apply Hskip. rewrite Hm. intros [_ Ech]. apply Hc0. by apply Hc.
  - apply Hskip. rewrite Hm. intros [Et Ech]. rewrite Ech, Et, !Z.eqb_refl, andb_true_r, andb_true_r in E.
    apply Z.eqb_neq in E. apply E. rewrite (w_hash _ W p s Hs ltac:(congruence)).
    + unfold h, hash_string. rewrite Et, Ech. by destruct (is_wide_char (body s)), (is_wide_char str).
    + unfold is_symbol. congruence.
Qed.

(** The whole search. *)
Lemma find_atom_spec rt ty str : wf rt -> ty <> 0 -> ty <> JS_ATOM_TYPE_SYMBOL -> exists i r,
  let h := Z.land (hash_string str ty) JS_ATOM_HASH_MASK in
  znth (atom_hash rt) (hash_index h rt) = Some i /\ find_walk (length (atom_array rt)) rt h ty str i = Ret r /\
  match r with Some j => matches rt ty str j | None => forall j, ~ matches rt ty str j end.
Proof.
  intros W H0 H3. destruct (w_chain _ W) as [ch C].
  destruct (bucket_chain rt ch (Z.land (hash_string str ty) JS_ATOM_HASH_MASK) W C) as (i & l & Hi & Hl & Hk).
  destruct (find_walk_spec rt ty str W H0 H3 l i (length (atom_array rt)) Hk (chain_length _ _ _ Hk)) as (r & Er & Hr).
  exists i, r. split_and!; [done | done |]. destruct r as [j |]; [apply Hr |].
  intros j Hm. apply (Hr j); [| done]. destruct Hm as (p & s & Hat & Et & Ech).
  assert (~ is_symbol s) as Hns by (unfold is_symbol; congruence).
  destruct (ch_all _ _ C j p s Hat Hns) as (b & l' & Hb & Hin).
  destruct (ch_elem _ _ C b l' j Hb Hin) as (p' & s' & [Hp' Hs'] & _ & Hbk). destruct Hat as [Hp Hs].
  assert (p' = p) as -> by congruence. assert (s' = s) as -> by congruence.
  rewrite (w_hash _ W p s Hs ltac:(congruence) Hns) in Hbk.
  assert (hash_string (body s) (atom_type s) = hash_string str ty) as Eh.
  { unfold hash_string. rewrite Et, Ech. by destruct (is_wide_char (body s)), (is_wide_char str). }
  rewrite Eh in Hbk. rewrite <- Hbk, Nat2Z.id in Hl. by assert (l' = l) as -> by congruence.
Qed.

(** ** Freeing an atom *)
Definition without (i : Z) (l : list Z) : list Z := filter (fun j => j <> i) l.

Lemma without_not_in i l : i ∉ l -> without i l = l.
Proof.
  unfold without. intros H. induction l as [| j l IH]; [done |]. apply not_elem_of_cons in H as [H1 H2].
  rewrite filter_cons_True by congruence. by rewrite IH.
Qed.

Lemma without_middle i l k : NoDup (l ++ i :: k) -> without i (l ++ i :: k) = l ++ k.
Proof.
  intros H. apply list.NoDup_app in H as (_ & H1 & H2). apply list.NoDup_cons in H2 as [H2 _].
  unfold without. rewrite list.filter_app, filter_cons_False by (intros E; by apply E).
  f_equal; apply without_not_in; [| done]. intros Hin. apply (H1 i Hin). by left.
Qed.

(** Only the links of the chains change. *)
Record relinked (rt rt' : JSRuntime) : Prop := {
  rl_array : atom_array rt' = atom_array rt;
  rl_free : atom_free_index rt' = atom_free_index rt;
  rl_count : atom_count rt' = atom_count rt;
  rl_next : next_addr rt' = next_addr rt;
  rl_size : atom_hash_size rt' = atom_hash_size rt;
  rl_fwd : forall q s, strings rt !! q = Some s -> exists s', strings rt' !! q = Some s' /\
    ref_count s' = ref_count s /\ body s' = body s /\ atom_type s' = atom_type s /\ hash s' = hash s /\
    (is_symbol s -> hash_next s' = hash_next s);
  rl_back : forall q s', strings rt' !! q = Some s' -> is_Some (strings rt !! q)
}.

Lemma relinked_refl rt : relinked rt rt.
Proof. split; try done. intros q s Hs. by exists s. Qed.

Lemma relinked_frame rt rt' : relinked rt rt' -> frame (fun _ => False) rt rt'.
Proof.
  intros []. split.
  - intros q s _ Hs. destruct (rl_fwd0 q s Hs) as (s' & ? & ? & ? & ? & ? & _). by exists s'.
  - intros q s' _ Hs. by eapply rl_back0.
  - intros i q _. by rewrite rl_array0.
Qed.

Lemma relinked_hash l n rt : zlen l = atom_hash_size rt -> relinked rt (set_hash l n rt).
Proof. intros H. split; try done. intros q s Hs. by exists s. Qed.

Lemma relinked_struct rt p s k : strings rt !! p = Some s -> ~ is_symbol s ->
  relinked rt (set_struct p (set_hash_next k s) rt).
Proof.
  intros Hs Hn. split; try done; cbn.
  - intros q t Ht. destruct (decide (p = q)) as [<- | D].
    + rewrite lookup_insert_eq. assert (t = s) as -> by congruence. by eexists.
    + rewrite lookup_insert_ne by done. by exists t.
  - intros q t Ht. destruct (decide (p = q)) as [<- | D]; [by eauto |]. rewrite lookup_insert_ne in Ht by done. by eauto.
Qed.

Lemma chain_next_set rt p s k i : strings rt !! p = Some s ->
  chain_next (set_struct p (set_hash_next k s) rt) i =
    if decide (znth (atom_array rt) i = Some (APtr p)) then Some k else chain_next rt i.
Proof.
  intros Hs. unfold chain_next. cbn. destruct (decide _) as [-> | D]; [by rewrite lookup_insert_eq |].
  destruct (znth (atom_array rt) i) as [[q |] |]; [| done..]. rewrite lookup_insert_ne; [done |]. by intros ->.
Qed.

Lemma unlink_walk_spec rt p x s : wf rt -> at_index rt x p s -> forall pre i p1 post fuel,
  linked (chain_next rt) i (i :: pre ++ x :: post) -> znth (atom_array rt) i = Some (APtr p1) ->
  (length pre < fuel)%nat ->
  exists l1 z pz sz, i :: pre = l1 ++ [z] /\ at_index rt z pz sz /\
    unlink_walk fuel p i p1 rt = Ret (x, set_struct pz (set_hash_next (hash_next s) sz) rt).
Proof.
  intros W [Hx Hs]. induction pre as [| j pre IH]; intros i p1 post fuel H Hp1 Hf;
    (destruct fuel as [| fuel]; [cbn in Hf; lia |]); destruct H as (_ & Hi & k & Hk & Hl);
    destruct (chain_next_Some _ _ _ Hk) as (p1' & s1 & [Hp1' Hs1] & <-);
    (assert (p1' = p1) as -> by congruence); cbn [unlink_walk];
    rewrite (proj2 (Z.eqb_neq _ _) Hi), (get_struct_Ret _ _ _ Hs1); cbn [negb assert_ mbind res_bind].
  - destruct Hl as (-> & _). rewrite (atom_ptr_Ret _ _ _ Hx). cbn [mbind res_bind].
    rewrite Z.eqb_refl, (get_struct_Ret _ _ _ Hs). cbn [mbind res_bind]. by exists [], i, p1, s1.
  - pose proof (linked_nodup _ _ _ Hl) as Hnd. pose proof Hl as (<- & Hj & k & Hk' & _).
    destruct (chain_next_Some _ _ _ Hk') as (q & t & [Hq Ht] & _).
    rewrite (atom_ptr_Ret _ _ _ Hq). cbn [mbind res_bind].
    destruct (Z.eqb_spec q p) as [-> | D].
    + pose proof (w_inj _ W _ _ _ Hq Hx) as <-. exfalso.
      apply list.NoDup_cons in Hnd as [Hn _]. apply Hn. apply elem_of_app. right. by left.
    + destruct (IH (hash_next s1) q post fuel Hl Hq ltac:(cbn in Hf; lia)) as (l1 & z & pz & sz & E & Hz & ->).
      exists (i :: l1), z, pz, sz. split_and!; [by rewrite E | done | done].
Qed.

(** The first part of [JS_FreeAtomStruct]: the atom leaves its chain. *)
Definition unlink (p : Z) (s : JSAtomStruct) (rt : JSRuntime) : res (Z * JSRuntime) :=
  if atom_type s =? JS_ATOM_TYPE_SYMBOL then Ret (hash_next s, rt)
  else
    let h0 := hash_index (hash s) rt in
    i ← of_opt (znth (atom_hash rt) h0);
    p1 ← atom_ptr rt i;
    if p1 =? p then
      s1 ← get_struct rt p1;
      l ← of_opt (zupd (atom_hash rt) h0 (hash_next s1));
      Ret (i, set_hash l (atom_count_resize rt) rt)
    else unlink_walk (length (atom_array rt)) p i p1 rt.

(** The chain of the bucket [b] changes, the others do not contain [i]. *)
Lemma chains_without rt rt' ch b c h' i : chains_ok rt ch -> ch !! b = Some c -> i ∈ c ->
  atom_hash rt' = <[b := h']> (atom_hash rt) ->
  (forall j, j ∉ c -> chain_next rt' j = chain_next rt j) -> linked (chain_next rt') h' (without i c) ->
  Forall2 (linked (chain_next rt')) (atom_hash rt') (without i <$> ch).
Proof.
  intros C Hb Hi -> Hn Hl.
  apply Forall2_same_length_lookup. pose proof (ch_linked _ _ C) as H2.
  pose proof (list.Forall2_length _ _ _ H2) as Hlen. split; [by rewrite length_insert, length_fmap |].
  intros a x l Hx Hc. rewrite list_lookup_fmap in Hc. destruct (ch !! a) as [c' |] eqn:Ha; [| done].
  injection Hc as <-. destruct (decide (b = a)) as [<- | D].
  - rewrite list_lookup_insert_eq in Hx by (rewrite Hlen; by eapply lookup_lt_Some).
    injection Hx as <-. by assert (c' = c) as -> by congruence.
  - rewrite list_lookup_insert_ne in Hx by done.
    assert (forall j, j ∈ c' -> j ∉ c) as Hdis.
    { intros j Hj Hj'. destruct (ch_elem _ _ C a c' j Ha Hj) as (p & s & [Hp Hs] & _ & E).
      destruct (ch_elem _ _ C b c j Hb Hj') as (q & t & [Hq Ht] & _ & E').
      assert (q = p) as -> by congruence. assert (t = s) as -> by congruence. apply D. lia. }
    rewrite without_not_in by (intros Hin; by apply (Hdis i)).
    apply (linked_ext (chain_next rt)); [| intros j Hj; apply Hn; by apply Hdis].
    by eapply Forall2_lookup_lr.
Qed.

Lemma unlink_spec p i s rt : wf rt -> at_index rt i p s -> exists rt1 ch,
  unlink p s rt = Ret (i, rt1) /\ relinked rt rt1 /\ chains_ok rt ch /\
  Forall2 (linked (chain_next rt1)) (atom_hash rt1) (without i <$> ch).
Proof.
  intros W Hat. destruct (w_chain _ W) as [ch C]. unfold unlink.
  destruct (Z.eqb_spec (atom_type s) JS_ATOM_TYPE_SYMBOL) as [E | E].
  { exists rt, ch. rewrite (w_sym _ W i p s Hat E). split_and!; [done | apply relinked_refl | done |].
    assert (without i <$> ch = ch) as ->; [| apply (ch_linked _ _ C)].
    rewrite <- (list_fmap_id ch) at 2. apply list_fmap_ext. intros a c Ha. apply without_not_in.
    intros Hin. destruct (ch_elem _ _ C a c i Ha Hin) as (q & t & [Hq Ht] & Hn & _). destruct Hat as [Hp Hs].
    assert (q = p) as -> by congruence. assert (t = s) as -> by congruence. by destruct Hn. }
  destruct (ch_all _ _ C i p s Hat E) as (b & c & Hb & Hin).
  destruct (ch_elem _ _ C b c i Hb Hin) as (q & t & [Hq Ht] & _ & Hbk). pose proof Hat as [Hp Hs].
  assert (q = p) as -> by congruence. assert (t = s) as -> by congruence. clear Hq Ht.
  cbn zeta. rewrite <- Hbk.
  destruct (bucket_chain rt ch (hash s) W C) as (h & c' & Hh & Hc' & Hk). rewrite <- Hbk in Hh, Hc'.
  rewrite Nat2Z.id in Hc'. assert (c' = c) as -> by congruence. rewrite Hh. cbn [of_opt mbind res_bind].
  pose proof (linked_nodup _ _ _ Hk) as Hnd. pose proof (chain_length _ _ _ Hk) as Hlen.
  assert (forall k, exists l, zupd (atom_hash rt) (Z.of_nat b) k = Some l /\ l = <[b := k]> (atom_hash rt)) as Hupd.
  { intros k. exists (<[b := k]> (atom_hash rt)). split; [| done]. apply zupd_Some. rewrite Nat2Z.id.
    split; [by apply znth_lt_Some in Hh | done]. }
  apply list_elem_of_split in Hin as (pre & post & ->).
  destruct pre as [| j pre]; cbn [app] in *.
  - pose proof Hk as (-> & Hi0 & k & Hk1 & Hl). rewrite (atom_ptr_Ret _ _ _ Hp). cbn [mbind res_bind].
    rewrite Z.eqb_refl, (get_struct_Ret _ _ _ Hs). cbn [mbind res_bind].
    assert (hash_next s = k) as ->.
    { destruct (chain_next_Some _ _ _ Hk1) as (q & t & [Hq Ht] & <-). congruence. }
    destruct (Hupd k) as (l & -> & ->). cbn [of_opt mbind res_bind].
    eexists _, ch. split; [reflexivity |]. split_and!; [apply relinked_hash, zlen_insert | done |].
    apply (chains_without rt _ ch b (i :: post) k i C Hb); [by left | done | done |].
    pose proof (without_middle i [] post Hnd) as Ew. cbn [app] in Ew. rewrite Ew. exact Hl.
  - pose proof Hk as (-> & Hj0 & k & Hk1 & _). destruct (chain_next_Some _ _ _ Hk1) as (p1 & s1 & [Hp1 Hs1] & _).
    rewrite (atom_ptr_Ret _ _ _ Hp1). cbn [mbind res_bind]. destruct (Z.eqb_spec p1 p) as [-> | D].
    { exfalso. pose proof (w_inj _ W _ _ _ Hp1 Hp) as ->. apply list.NoDup_cons in Hnd as [Hn _].
      apply Hn. apply elem_of_app. right. by left. }
    destruct (unlink_walk_spec rt p i s W Hat pre j p1 post (length (atom_array rt)) Hk Hp1) as (l1 & z & pz & sz & El & [Hz Hsz] & ->).
    { cbn in Hlen. rewrite length_app in Hlen. cbn in Hlen. lia. }
    assert (z ∈ j :: pre ++ i :: post) as Hzin.
    { change (z ∈ (j :: pre) ++ i :: post). rewrite El. rewrite !elem_of_app. left. right. by left. }
    destruct (ch_elem _ _ C b _ z Hb Hzin) as (pz' & sz' & [Hz' Hsz'] & Hnz & _).
    assert (pz' = pz) as -> by congruence. assert (sz' = sz) as -> by congruence.
    eexists _, ch. split; [reflexivity |]. split_and!; [by apply relinked_struct | done |].
    apply (chains_without rt _ ch b (j :: pre ++ i :: post) j i C Hb).
    + change (i ∈ (j :: pre) ++ i :: post). apply elem_of_app. right. by left.
    + cbn. symmetry. apply list_insert_id. by rewrite <- znth_nat.
    + intros y Hy. rewrite (chain_next_set rt pz sz) by done. case_decide as Hd; [| done].
      pose proof (w_inj _ W _ _ _ Hd Hz) as ->. done.
    + pose proof (without_middle i (j :: pre) post Hnd) as Ew. cbn [app] in Ew. rewrite Ew.
      change (j :: pre ++ post) with ((j :: pre) ++ post). rewrite El, <- app_assoc. cbn [app].
      apply (linked_remove (chain_next rt) _ z i (hash_next s)).
      * change (j :: pre ++ i :: post) with ((j :: pre) ++ i :: post) in Hk. rewrite El, <- app_assoc in Hk. exact Hk.
      * unfold chain_next. by rewrite Hp, Hs.
      * rewrite (chain_next_set rt pz sz) by done. by rewrite decide_True.
      * intros y Hy. rewrite (chain_next_set rt pz sz) by done. case_decide as Hd; [| done].
        by pose proof (w_inj _ W _ _ _ Hd Hz).
Qed.

(** An index that is not free anymore, or becomes free. *)
Lemma free_list_cons rt rt' fl i : linked (free_next rt) (atom_free_index rt) fl ->
  (forall j n, znth (atom_array rt) j = Some (AFree n) -> j ∈ fl) -> i <> 0 ->
  zupd (atom_array rt) i (AFree (atom_free_index rt)) = Some (atom_array rt') -> i ∉ fl ->
  atom_free_index rt' = i ->
  linked (free_next rt') (atom_free_index rt') (i :: fl) /\
  forall j n, znth (atom_array rt') j = Some (AFree n) -> j ∈ i :: fl.
Proof.
  intros Hl Hall Hi Hu Hn ->. split.
  - cbn. split_and!; [done | done |]. exists (atom_free_index rt). split.
    + unfold free_next. by rewrite (znth_zupd_eq _ _ _ _ Hu).
    + apply (linked_ext (free_next rt)); [done |]. intros j Hj. unfold free_next.
      rewrite (znth_zupd _ _ _ _ _ Hu), decide_False; [done |]. by intros ->.
  - intros j n Hj. rewrite (znth_zupd _ _ _ _ _ Hu) in Hj. destruct (decide (j = i)) as [-> | D]; [by left |].
    right. by eapply Hall.
Qed.

Lemma wf_count_pos rt i p s : wf rt -> at_index rt i p s -> 1 <= atom_count rt.
Proof.
  intros W [Hi _]. rewrite (w_count _ W).
  pose proof (countb_pos (fun e => negb (atom_is_free e)) (atom_array rt) (APtr p) (znth_elem_of _ _ _ Hi) eq_refl). lia.
Qed.

(** The table without the atom [i], after it has left its chain. *)
Lemma wf_freed rt rt1 rt' ch i p s : wf rt -> at_index rt i p s -> i <> 0 -> relinked rt rt1 -> chains_ok rt ch ->
  Forall2 (linked (chain_next rt1)) (atom_hash rt1) (without i <$> ch) ->
  zupd (atom_array rt) i (AFree (atom_free_index rt)) = Some (atom_array rt') ->
  strings rt' = delete p (strings rt1) -> atom_hash rt' = atom_hash rt1 -> atom_free_index rt' = i ->
  atom_count rt' = atom_count rt - 1 -> next_addr rt' = next_addr rt -> wf rt'.
Proof.
  intros W [Hi Hs] Hi0 R C H2 Hu Es Eh Ef Ec En.
  assert (forall j, znth (atom_array rt') j = if decide (j = i) then Some (AFree (atom_free_index rt))
            else znth (atom_array rt) j) as Harr by (intros j; exact (znth_zupd _ _ _ _ _ Hu)).
  assert (forall j q t', at_index rt' j q t' -> j <> i /\ q <> p /\ strings rt1 !! q = Some t' /\
    exists t, at_index rt j q t /\ body t' = body t /\ atom_type t' = atom_type t /\ hash t' = hash t /\
      (is_symbol t -> hash_next t' = hash_next t)) as Hback.
  { intros j q t' [Hj Ht']. rewrite Harr in Hj. destruct (decide (j = i)) as [| Dj]; [done |].
    rewrite Es in Ht'. apply lookup_delete_Some in Ht' as [Dq Ht'].
    destruct (rl_back _ _ R q t' Ht') as [t Ht]. destruct (rl_fwd _ _ R q t Ht) as (t1 & Ht1 & _ & Eb & Et & Ehh & Esym).
    assert (t1 = t') as -> by congruence. split_and!; [done | congruence | done |]. by exists t. }
  assert (forall j q t, at_index rt j q t -> j <> i -> exists t', at_index rt' j q t' /\ body t' = body t /\
    atom_type t' = atom_type t /\ hash t' = hash t) as Hfwd.
  { intros j q t [Hj Ht] Dj. destruct (rl_fwd _ _ R q t Ht) as (t' & Ht' & _ & Eb & Et & Ehh & _).
    assert (q <> p) as Dq by (intros ->; apply Dj; by apply (w_inj _ W j i p)).
    exists t'. split_and!; try done. split; [by rewrite Harr, decide_False | rewrite Es; by rewrite lookup_delete_ne]. }
  assert (forall h, hash_index h rt' = hash_index h rt) as Hidx.
  { intros h. pose proof (rl_size _ _ R) as E. unfold hash_index, atom_hash_size in *. by rewrite Eh, E. }
  split.
  - destruct (w_free _ W) as (fl & Hfl & Hall). exists (i :: fl).
    apply (free_list_cons rt rt' fl i); try done. intros Hin.
    destruct (linked_nonzero _ _ _ _ Hfl Hin) as [_ [n Hn]]. unfold free_next in Hn. by rewrite Hi in Hn.
  - intros j q Hj. rewrite Harr in Hj. destruct (decide (j = i)) as [| Dj]; [done |].
    destruct (w_ptr _ W j q Hj) as (t & Ht & Hr). destruct (Hfwd j q t) as (t' & [_ Ht'] & _ & Et & _); [done.. |].
    exists t'. by rewrite Et.
  - intros j k q. rewrite !Harr. destruct (decide (j = i)), (decide (k = i)); try done. apply (w_inj _ W).
  - intros q t' Ht' Hty. rewrite Es in Ht'. apply lookup_delete_Some in Ht' as [Dq Ht'].
    destruct (rl_back _ _ R q t' Ht') as [t Ht]. destruct (rl_fwd _ _ R q t Ht) as (t1 & Ht1 & _ & _ & Et & _).
    assert (t1 = t') as -> by congruence. destruct (w_back _ W q t Ht ltac:(congruence)) as [j Hj].
    exists j. rewrite Harr, decide_False; [done |]. intros ->. congruence.
  - intros _. assert (atom_array rt <> []) as Hne.
    { intros E. apply znth_lt_Some in Hi. rewrite E in Hi. unfold zlen in Hi. cbn in Hi. lia. }
    destruct (w_zero _ W Hne) as (q & t & Hat & Hsym). destruct (Hfwd 0 q t Hat) as (t' & Hat' & _ & Et & _); [done |].
    exists q, t'. split; [done |]. unfold is_symbol in *. congruence.
  - intros j q t' Hat Hsym. destruct (Hback j q t' Hat) as (_ & _ & _ & t & Hat' & _ & Et & _ & Enx).
    assert (is_symbol t) as Hs' by (unfold is_symbol in *; congruence). rewrite Enx by done. by apply (w_sym _ W j q t).
  - intros q t' Ht' Hty Hsym. rewrite Es in Ht'. apply lookup_delete_Some in Ht' as [Dq Ht'].
    destruct (rl_back _ _ R q t' Ht') as [t Ht]. destruct (rl_fwd _ _ R q t Ht) as (t1 & Ht1 & _ & Eb & Et & Ehh & _).
    assert (t1 = t') as -> by congruence. rewrite Ehh, Eb, Et.
    apply (w_hash _ W q t Ht); [congruence | unfold is_symbol in *; congruence].
  - exists (without i <$> ch). split.
    + rewrite Eh. apply Forall2_same_length_lookup. apply Forall2_same_length_lookup in H2 as [Hlen H2].
      split; [done |]. intros b h c Hh Hb. pose proof (H2 b h c Hh Hb) as Hc. apply (linked_ext (chain_next rt1)); [done |].
      intros j Hj. assert (j <> i) as Dji.
      { intros ->. rewrite list_lookup_fmap in Hb. destruct (ch !! b); [| done]. injection Hb as <-.
        by apply list_elem_of_filter in Hj as [? _]. }
      destruct (linked_nonzero _ _ _ _ Hc Hj) as [_ [k Hk]].
      destruct (chain_next_Some _ _ _ Hk) as (q & t & [Hq Ht] & _). rewrite (rl_array _ _ R) in Hq.
      unfold chain_next. rewrite (rl_array _ _ R), Harr, Hq, Es. rewrite decide_False by done.
      rewrite lookup_delete_ne; [done |]. intros <-. apply Dji. by apply (w_inj _ W j i p).
    + intros b c j Hb Hj. rewrite list_lookup_fmap in Hb. destruct (ch !! b) as [c0 |] eqn:Hc0; [| done].
      injection Hb as <-. apply list_elem_of_filter in Hj as [Dj Hj].
      destruct (ch_elem _ _ C b c0 j Hc0 Hj) as (q & t & Hat & Hsym & Hbk).
      destruct (Hfwd j q t Hat Dj) as (t' & Hat' & _ & Et & Ehh). exists q, t'.
      split_and!; [done | unfold is_symbol in *; congruence | by rewrite Hidx, Ehh].
    + intros j q t' Hat Hsym. destruct (Hback j q t' Hat) as (Dj & _ & _ & t & Hat' & _ & Et & _).
      destruct (ch_all _ _ C j q t Hat') as (b & c & Hb & Hin); [unfold is_symbol in *; congruence |].
      exists b, (without i c). split; [by rewrite list_lookup_fmap, Hb | by apply list_elem_of_filter].
  - intros j k q r t u Hj Hk Hsym Ety Ech.
    destruct (Hback j q t Hj) as (_ & _ & _ & t0 & Hj0 & Eb & Et & _), (Hback k r u Hk) as (_ & _ & _ & u0 & Hk0 & Eb' & Et' & _).
    eapply (w_uniq _ W j k q r t0 u0 Hj0 Hk0); [unfold is_symbol in *; congruence | congruence | congruence].
  - unfold atom_hash_size. rewrite Eh. pose proof (rl_size _ _ R) as E. unfold atom_hash_size in E. rewrite E. apply (w_size _ W).
  - rewrite Ec, (w_count _ W), (countb_zupd _ _ _ _ _ _ Hi Hu). cbn. lia.
  - intros q t' Ht'. rewrite Es in Ht'. apply lookup_delete_Some in Ht' as [Dq Ht'].
    destruct (rl_back _ _ R q t' Ht') as [t Ht]. rewrite En. by apply (w_addr _ W q t).
Qed.

Lemma JS_FreeAtomStruct_spec p i s rt : wf rt -> at_index rt i p s -> i <> 0 -> exists rt',
  JS_FreeAtomStruct p rt = Ret rt' /\ wf rt' /\ frame (fun q => q = p) rt rt' /\ strings rt' !! p = None /\
  (forall j, znth (atom_array rt') j <> Some (APtr p)) /\ atom_size rt' = atom_size rt /\
  atom_count rt' = atom_count rt - 1 /\ next_addr rt' = next_addr rt /\ atom_hash_size rt' = atom_hash_size rt.
Proof.
  intros W Hat Hi0. destruct (unlink_spec p i s rt W Hat) as (rt1 & ch & Eu & R & C & H2).
  pose proof Hat as [Hi Hs]. unfold JS_FreeAtomStruct. rewrite (get_struct_Ret _ _ _ Hs). cbn [mbind res_bind].
  fold (unlink p s rt). rewrite Eu. cbn [mbind res_bind].
  rewrite (rl_array _ _ R), (rl_free _ _ R), (rl_count _ _ R).
  destruct (zupd_is_Some (atom_array rt) i (atom_set_free (atom_free_index rt))) as [l Hl];
    [exact (at_index_range _ _ _ _ Hat) |].
  rewrite Hl. cbn [of_opt mbind res_bind]. pose proof (wf_count_pos _ _ _ _ W Hat) as Hpos.
  set (rt' := js_free_rt p _). cbn [atom_count rt'].
  assert (assert_ (0 <=? atom_count rt') = Ret tt) as ->.
  { apply assert_Ret. cbn. apply Z.leb_le. lia. }
  cbn [mbind res_bind].
  assert (forall j, znth (atom_array rt') j = if decide (j = i) then Some (AFree (atom_free_index rt))
            else znth (atom_array rt) j) as Harr by (intros j; exact (znth_zupd _ _ _ _ _ Hl)).
  exists rt'. split_and!; [done | | | | | | done | exact (rl_next _ _ R) | exact (rl_size _ _ R)].
  - apply (wf_freed rt rt1 rt' ch i p s); try done. exact (rl_next _ _ R).
  - split.
    + intros q t Hq Ht. destruct (rl_fwd _ _ R q t Ht) as (t' & ? & ? & ? & ? & ? & _).
      exists t'. cbn. by rewrite lookup_delete_ne by congruence.
    + intros q t Hq Ht. cbn in Ht. apply lookup_delete_Some in Ht as [_ Ht]. by eapply (rl_back _ _ R).
    + intros j q Hq. rewrite Harr. case_decide as Dj; [| done]. subst j. rewrite Hi. split; [congruence | done].
  - cbn. apply lookup_delete_eq.
  - intros j. rewrite Harr. case_decide as Dj; [done |]. intros Hj. apply Dj. by apply (w_inj _ W j i p).
  - exact (zupd_zlen _ _ _ _ Hl).
Qed.
