(* ===== verification/AtomGrow.v ===== *)
(** * quickjs.c: new atoms in the table

    The array grows, an atom takes a free index and enters its chain, and the
    hash table is enlarged. *)
From Stdlib Require Import ZArith Lia Bool.
From stdpp Require Import base numbers list gmap.
From S2P Require Import Prelude Cutils Chains JSValue AtomState AtomFacts.

(** ** More free elements *)
Lemma free_entries_nth start n k : 0 <= k < n - start ->
  znth (free_entries start n) k = Some (AFree (if start + k =? n - 1 then 0 else start + k + 1)).
Proof.
  intros Hk. unfold free_entries. rewrite znth_Some. split; [lia |].
  rewrite list_lookup_fmap, lookup_seq_lt by lia. cbn. rewrite Z2Nat.id by lia. done.
Qed.

Lemma free_entries_len start n : zlen (free_entries start n) = Z.max 0 (n - start).
Proof. unfold free_entries, zlen. rewrite length_map, length_seq. lia. Qed.

Lemma countb_free start n : countb (fun e => negb (atom_is_free e)) (free_entries start n) = 0.
Proof.
  apply countb_zero. intros e He. unfold free_entries in He.
  apply list_elem_of_In, in_map_iff in He as (k & <- & _). done.
Qed.

Lemma linked_free next start n : (forall i, start <= i < n -> next i = Some (if i =? n - 1 then 0 else i + 1)) ->
  forall len i, start <= i -> 0 < i -> (0 < len)%nat -> i + Z.of_nat len = n -> linked next i (seqZ i (Z.of_nat len)).
Proof.
  intros Hn. induction len as [| len IH]; intros i Hi Hi0 Hlen E; [lia |].
  rewrite seqZ_cons by lia. cbn [linked]. split_and!; [done | lia |].
  eexists. split; [apply Hn; lia |]. replace (Z.pred (Z.of_nat (S len))) with (Z.of_nat len) by lia.
  destruct (Z.eqb_spec i (n - 1)) as [-> | D].
  - replace len with O by lia. done.
  - apply IH; lia.
Qed.

(** The array with free elements after the others. *)
Lemma wf_append rt rt' n : wf rt -> atom_free_index rt = 0 -> 0 < atom_size rt < n ->
  atom_array rt' = atom_array rt ++ free_entries (atom_size rt) n -> atom_free_index rt' = atom_size rt ->
  strings rt' = strings rt -> atom_hash rt' = atom_hash rt -> atom_count rt' = atom_count rt ->
  next_addr rt' = next_addr rt -> wf rt'.
Proof.
  intros W Hf0 Hn Ea Ef Es Eh Ec En.
  assert (forall i, i < atom_size rt -> znth (atom_array rt') i = znth (atom_array rt) i) as Hlo.
  { intros i Hi. rewrite Ea. by apply znth_app_l. }
  assert (forall i, atom_size rt <= i < n -> znth (atom_array rt') i = Some (AFree (if i =? n - 1 then 0 else i + 1))) as Hhi.
  { intros i Hi. rewrite Ea. fold (atom_size rt) in *. rewrite znth_app_r by (fold (atom_size rt); lia).
    fold (atom_size rt). rewrite free_entries_nth by lia. by replace (atom_size rt + (i - atom_size rt)) with i by lia. }
  assert (zlen (atom_array rt') = n) as Hlen.
  { rewrite Ea, zlen_app, free_entries_len. fold (atom_size rt). lia. }
  assert (forall i p, znth (atom_array rt') i = Some (APtr p) <-> znth (atom_array rt) i = Some (APtr p)) as Hp.
  { intros i p. destruct (decide (i < atom_size rt)) as [Hi | Hi]; [by rewrite Hlo |]. split; intros H.
    - pose proof (znth_lt_Some _ _ _ H). rewrite Hhi in H by lia. done.
    - pose proof (znth_lt_Some _ _ _ H). fold (atom_size rt) in *. lia. }
  assert (forall i p s, at_index rt' i p s <-> at_index rt i p s) as Hat.
  { intros i p s. unfold at_index. by rewrite Hp, Es. }
  assert (forall h, hash_index h rt' = hash_index h rt) as Hidx
    by (intros h; unfold hash_index, atom_hash_size; by rewrite Eh).
  destruct W as [(fl & Hfl & Hall) Wp Wi Wb Wz Ws Wh (ch & [C1 C2 C3]) Wu Wk Wc Wa]. split.
  - exists (seqZ (atom_size rt) (n - atom_size rt)). rewrite Ef. split.
    + replace (n - atom_size rt) with (Z.of_nat (Z.to_nat (n - atom_size rt))) by lia.
      apply (linked_free _ (atom_size rt) n); [| lia..]. intros i Hi. unfold free_next. by rewrite Hhi.
    + intros i k Hi. apply elem_of_seqZ. pose proof (znth_lt_Some _ _ _ Hi) as Hr.
      destruct (decide (i < atom_size rt)) as [Hlt | ?]; [| lia]. rewrite Hlo in Hi by done.
      rewrite Hf0 in Hfl. destruct fl as [| x fl]; [by apply Hall, not_elem_of_nil in Hi |].
      by destruct Hfl as (_ & [] & _).
  - intros i p Hi. rewrite Es. apply (Wp i p). by apply Hp.
  - intros i j p Hi Hj. apply (Wi i j p); by apply Hp.
  - intros p s Hs Ht. rewrite Es in Hs. destruct (Wb p s Hs Ht) as [i Hi]. exists i. by apply Hp.
  - intros _. assert (atom_array rt <> []) as Hne by (intros E; unfold atom_size, zlen in Hn; rewrite E in Hn; cbn in Hn; lia).
    destruct (Wz Hne) as (p & s & H & ?). exists p, s. by rewrite Hat.
  - intros i p s H. apply (Ws i p s). by apply Hat.
  - intros p s Hs. rewrite Es in Hs. by apply (Wh p s).
  - exists ch. split.
    + rewrite Eh. eapply list.Forall2_impl; [exact C1 |]. intros i l Hl. apply (linked_ext (chain_next rt)); [done |].
      intros j Hj. destruct (linked_nonzero _ _ _ _ Hl Hj) as [_ [k Hk]].
      destruct (chain_next_Some _ _ _ Hk) as (q & t & [Hq Ht] & _).
      unfold chain_next. by rewrite Es, Hq, (proj2 (Hp j q) Hq).
    + intros b l i Hb Hi. destruct (C2 b l i Hb Hi) as (p & s & H & ? & ?). exists p, s. by rewrite Hat, Hidx.
    + intros i p s H. apply (C3 i p s). by apply Hat.
  - intros i j p q s t Hi Hj. apply (Wu i j p q s t); by apply Hat.
  - unfold atom_hash_size. by rewrite Eh.
  - rewrite Ec, Ea, countb_app, countb_free, Wc. lia.
  - intros p s Hs. rewrite Es in Hs. rewrite En. by apply (Wa p s).
Qed.

(** The entry [JS_ATOM_NULL]. *)
Definition null_struct : JSAtomStruct := mkAtom 1 (mkString false []) 0 JS_ATOM_TYPE_SYMBOL 0.

Lemma wf_null rt rt' : wf rt -> atom_array rt = [] -> atom_free_index rt' = 0 ->
  atom_array rt' = [APtr (next_addr rt)] -> strings rt' = <[next_addr rt := null_struct]> (strings rt) ->
  atom_hash rt' = atom_hash rt -> atom_count rt' = atom_count rt + 1 -> next_addr rt' = next_addr rt + 1 -> wf rt'.
Proof.
  intros W Hnil Ef Ea Es Eh Ec En.
  assert (forall i p, znth (atom_array rt') i = Some (APtr p) -> i = 0 /\ p = next_addr rt) as Hp.
  { intros i p H. rewrite Ea in H. pose proof (znth_lt_Some _ _ _ H) as Hr. unfold zlen in Hr. cbn in Hr.
    assert (i = 0) as -> by lia. by injection H as <-. }
  assert (forall i p, znth (atom_array rt) i <> Some (APtr p)) as Hno.
  { intros i p H. pose proof (znth_lt_Some _ _ _ H) as Hr. rewrite Hnil in Hr. unfold zlen in Hr. cbn in Hr. lia. }
  assert (forall p s, strings rt !! p = Some s -> atom_type s = 0) as Hty.
  { intros p s Hs. destruct (Z.eq_dec (atom_type s) 0) as [| D]; [done |].
    destruct (w_back _ W p s Hs D) as [i Hi]. by apply Hno in Hi. }
  assert (forall p s, strings rt' !! p = Some s -> s = null_struct /\ p = next_addr rt \/ p <> next_addr rt /\ strings rt !! p = Some s) as Hs'.
  { intros p s H. rewrite Es in H. destruct (decide (next_addr rt = p)) as [<- | D].
    - rewrite lookup_insert_eq in H. injection H as <-. by left.
    - rewrite lookup_insert_ne in H by done. by right. }
  assert (forall i p s, at_index rt' i p s -> i = 0 /\ s = null_struct) as Hat.
  { intros i p s [Hi Hs]. apply Hp in Hi as [-> ->]. rewrite Es, lookup_insert_eq in Hs. by injection Hs as <-. }
  assert (is_symbol null_struct) as Hsym by done.
  split.
  - exists []. split; [done |]. intros i n H. rewrite Ea in H. pose proof (znth_lt_Some _ _ _ H) as Hr.
    unfold zlen in Hr. cbn in Hr. by assert (i = 0) as -> by lia.
  - intros i p Hi. apply Hp in Hi as [-> ->]. exists null_struct. rewrite Es, lookup_insert_eq. split; [done |].
    unfold null_struct, JS_ATOM_TYPE_SYMBOL. cbn. lia.
  - intros i j p Hi Hj. apply Hp in Hi as [-> _], Hj as [-> _]. done.
  - intros p s H Ht. destruct (Hs' p s H) as [[-> ->] | [_ H']]; [exists 0; by rewrite Ea |]. by apply Hty in H'.
  - intros _. exists (next_addr rt), null_struct. split; [| done]. split; [by rewrite Ea | by rewrite Es, lookup_insert_eq].
  - intros i p s H _. by apply Hat in H as [-> ->].
  - intros p s H Ht Hn. destruct (Hs' p s H) as [[-> ->] | [_ H']]; [by destruct Hn |]. by apply Hty in H'.
  - destruct (w_chain _ W) as [ch [C1 C2 C3]]. exists ch. split.
    + rewrite Eh. eapply list.Forall2_impl; [exact C1 |]. intros i l Hl. destruct l as [| j l]; [exact Hl |].
      destruct Hl as (-> & _ & k & Hk & _). destruct (chain_next_Some _ _ _ Hk) as (q & t & [Hq _] & _). by apply Hno in Hq.
    + intros b l i Hb Hi. destruct (C2 b l i Hb Hi) as (p & s & [Hq _] & _). by apply Hno in Hq.
    + intros i p s H Hn. apply Hat in H as [-> ->]. by destruct Hn.
  - intros i j p q s t Hi Hj Hn. apply Hat in Hi as [-> ->]. by destruct Hn.
  - unfold atom_hash_size. rewrite Eh. apply (w_size _ W).
  - rewrite Ec, Ea, (w_count _ W), Hnil. done.
  - intros p s H. rewrite En. destruct (Hs' p s H) as [[_ ->] | [_ H']]; [lia |]. apply (w_addr _ W) in H'. lia.
Qed.

Lemma frame_append Q rt rt' l : strings rt' = strings rt -> atom_array rt' = atom_array rt ++ l ->
  (forall p, APtr p ∉ l) -> frame Q rt rt'.
Proof.
  intros Es Ea Hl. split; rewrite ?Es; [intros q s _ Hs; by exists s | by eauto |].
  intros i q _. rewrite Ea. destruct (decide (i < zlen (atom_array rt))) as [Hi | Hi]; [by rewrite znth_app_l |].
  rewrite znth_app_r by lia. split; intros H.
  - apply znth_lt_Some in H. lia.
  - apply znth_elem_of in H. by apply Hl in H.
Qed.

Lemma free_entries_no_ptr start n p : APtr p ∉ free_entries start n.
Proof. intros H. unfold free_entries in H. by apply list_elem_of_In, in_map_iff in H as (k & [=] & _). Qed.

Lemma grow_array_spec rt : wf rt -> atom_free_index rt = 0 -> atom_size rt * 3 <= INT32_MAX ->
  exists ok rt', grow_array rt = Ret (ok, rt') /\ wf rt' /\ frame (fun q => q = next_addr rt) rt rt' /\
    atom_hash rt' = atom_hash rt /\ (ok = true -> atom_free_index rt' <> 0) /\
    (atom_size rt <= JS_ATOM_MAX -> atom_size rt' <= JS_ATOM_MAX) /\ atom_count rt' <= atom_count rt + 1 /\
    (strings rt' = strings rt \/
     strings rt' = <[next_addr rt := null_struct]> (strings rt) /\ at_index rt' 0 (next_addr rt) null_struct).
Proof.
  intros W Hf Hb. pose proof (zlen_nonneg (atom_array rt)) as Hs0. fold (atom_size rt) in Hs0.
  unfold grow_array, grow_size. rewrite (proj2 (Z.leb_le _ _) Hb). cbn [mbind res_bind].
  set (n := Z.max 211 (Z.quot (atom_size rt * 3) 2)).
  assert (atom_size rt < n) as Hn.
  { unfold n. rewrite Z.quot_div_nonneg by lia. pose proof (Z.div_mod (atom_size rt * 3) 2 ltac:(lia)).
    pose proof (Z.mod_pos_bound (atom_size rt * 3) 2 ltac:(lia)). lia. }
  assert (forall r, r = Ret (false, rt) -> exists ok rt', r = Ret (ok, rt') /\ wf rt' /\
    frame (fun q => q = next_addr rt) rt rt' /\ atom_hash rt' = atom_hash rt /\
    (ok = true -> atom_free_index rt' <> 0) /\ (atom_size rt <= JS_ATOM_MAX -> atom_size rt' <= JS_ATOM_MAX) /\
    atom_count rt' <= atom_count rt + 1 /\ (strings rt' = strings rt \/
     strings rt' = <[next_addr rt := null_struct]> (strings rt) /\ at_index rt' 0 (next_addr rt) null_struct)) as Hno.
  { intros r ->. exists false, rt. split_and!; try done; [apply frame_refl | lia | by left]. }
  destruct (Z.ltb_spec JS_ATOM_MAX n) as [| Hmax]; [by apply Hno |].
  destruct (alloc_ok_spec rt W) as (ok & rt1 & -> & W1 & F1 & Es & Ea & Eh & Ef & Ec & En).
  assert (frame (fun q => q = next_addr rt) rt rt1) as F1' by (by apply frame_eq).
  destruct ok; cbn [negb].
  2: { exists false, rt1. unfold atom_size in *. rewrite Ea. split_and!; try done; [lia | by left]. }
  assert (atom_size rt1 = atom_size rt) as Esz by (unfold atom_size; by rewrite Ea).
  rewrite Esz. destruct (Z.eqb_spec (atom_size rt) 0) as [E0 | E0].
  - assert (atom_array rt = []) as Hnil.
    { unfold atom_size, zlen in E0. destruct (atom_array rt); [done | cbn in E0; lia]. }
    unfold js_malloc_struct.
    destruct (alloc_ok_spec rt1 W1) as (ok & rt2 & -> & W2 & F2 & Es2 & Ea2 & Eh2 & Ef2 & Ec2 & En2).
    destruct ok.
    2: { exists false, rt2. unfold atom_size in *. rewrite Ea2, Ea, Es2, Es.
         split_and!; try done; [apply frame_eq; congruence | congruence | lia | by left]. }
    fold null_struct. rewrite En2, En. cbn zeta.
    set (rt4 := set_array _ _ _ _).
    set (rt3 := mkRuntime (<[next_addr rt := null_struct]> (strings rt)) (atom_hash rt) [APtr (next_addr rt)]
                  (atom_count rt + 1) (atom_count_resize rt2) 0 (mem rt2) (next_addr rt + 1)).
    assert (wf rt3) as W3 by (by apply (wf_null rt)).
    assert (wf rt4) as W4.
    { apply (wf_append rt3 rt4 n); try done; cbn; [| congruence | congruence | congruence].
      unfold atom_size, zlen. cbn. lia. }
    exists true, rt4. split_and!; try done.
    + assert (forall q, q <> next_addr rt -> strings rt4 !! q = strings rt !! q) as Hq
        by (intros q Dq; cbn; rewrite Es2, Es; by rewrite lookup_insert_ne).
      split.
      * intros q s Dq Hs. exists s. by rewrite Hq.
      * intros q s Dq Hs. rewrite Hq in Hs by done. eauto.
      * intros i q Dq. split; intros H.
        { apply znth_lt_Some in H. rewrite Hnil in H. unfold zlen in H. cbn in H. lia. }
        { apply znth_elem_of in H. cbn in H. apply elem_of_cons in H as [[= ->] | H]; [done |].
          by apply free_entries_no_ptr in H. }
    + cbn. congruence.
    + unfold rt4, atom_size. intros _. cbn [set_array atom_array]. rewrite zlen_cons, free_entries_len. lia.
    + cbn. lia.
    + right. split; [cbn; congruence |]. split; [done |]. cbn. by rewrite lookup_insert_eq.
  - eexists true, _. split; [reflexivity |]. set (rt2 := set_array _ _ _ _).
    split_and!; try done.
    + apply (wf_append rt rt2 n); try done; cbn; try congruence; lia.
    + apply (frame_append _ rt rt2 (free_entries (atom_size rt) n)); [done | cbn; by rewrite Ea |].
      intros p. apply free_entries_no_ptr.
    + unfold rt2, atom_size. intros _. cbn [set_array atom_array]. rewrite Ea, zlen_app, free_entries_len. unfold atom_size in *. lia.
    + cbn. lia.
    + by left.
Qed.

(** ** A larger hash table *)
Lemma chains_nodup rt ch : chains_ok rt ch -> NoDup (concat ch).
Proof.
  intros C. apply nodup_concat.
  - intros b l Hb. destruct (Forall2_lookup_r _ _ _ _ _ (ch_linked _ _ C) Hb) as (h & _ & Hl). by eapply linked_nodup.
  - intros a b l m i Ha Hb Hl Hm. destruct (ch_elem _ _ C a l i Ha Hl) as (p & s & [Hp Hs] & _ & E).
    destruct (ch_elem _ _ C b m i Hb Hm) as (q & t & [Hq Ht] & _ & E').
    assert (q = p) as -> by congruence. assert (t = s) as -> by congruence. lia.
Qed.

(** The state of the loops: [nch] are the chains of the new table, [pend] the
    atoms that are still to be moved. *)
Record resizing (mask : Z) (rt0 rt : JSRuntime) (new_hash : list Z) (nch : list (list Z)) (pend : list Z) : Prop := {
  r_relinked : relinked rt0 rt;
  r_table : atom_hash rt = atom_hash rt0;
  r_wf : forall i j p, znth (atom_array rt) i = Some (APtr p) -> znth (atom_array rt) j = Some (APtr p) -> i = j;
  r_len : zlen new_hash = mask + 1;
  r_mask : forall h, 0 <= Z.land h mask <= mask;
  r_linked : Forall2 (linked (chain_next rt)) new_hash nch;
  r_elem : forall b l i, nch !! b = Some l -> i ∈ l ->
    i ∉ pend /\ exists p s, at_index rt i p s /\ ~ is_symbol s /\ Z.of_nat b = Z.land (hash s) mask;
  r_pend : NoDup pend;
  r_atoms : forall i, i ∈ pend -> exists p s, at_index rt i p s /\ ~ is_symbol s
}.

Lemma chain_next_relink rt p s k i j : (forall i j p, znth (atom_array rt) i = Some (APtr p) ->
    znth (atom_array rt) j = Some (APtr p) -> i = j) -> at_index rt i p s -> j <> i ->
  chain_next (set_struct p (set_hash_next k s) rt) j = chain_next rt j.
Proof.
  intros Hinj [Hi Hs] D. rewrite (chain_next_set rt p s) by done. rewrite decide_False; [done |].
  intros Hj. apply D. by apply (Hinj j i p).
Qed.

(** One atom moves. *)
Lemma resize_step mask rt0 rt new_hash nch h p s pend : resizing mask rt0 rt new_hash nch (h :: pend) ->
  at_index rt h p s -> h <> 0 -> exists nj new_hash' nch',
    let j := Z.land (hash s) mask in
    let rt' := set_struct p (set_hash_next nj s) rt in
    znth new_hash j = Some nj /\ zupd new_hash j h = Some new_hash' /\
    resizing mask rt0 rt' new_hash' nch' pend /\
    (forall x, x ∈ concat nch' <-> x = h \/ x ∈ concat nch) /\
    (forall x, x <> h -> chain_next rt' x = chain_next rt x).
Proof.
  intros R Hat Hh0. pose proof R as []. pose proof Hat as [Hp Hs].
  apply list.NoDup_cons in r_pend0 as [Hnin Hnd].
  destruct (r_atoms0 h ltac:(by left)) as (p' & s' & [Hp' Hs'] & Hsym).
  assert (p' = p) as -> by congruence. assert (s' = s) as -> by congruence.
  set (j := Z.land (hash s) mask). pose proof (r_mask0 (hash s)) as Hj. fold j in Hj.
  destruct (proj2 (znth_is_Some new_hash j) ltac:(lia)) as [nj Hnj].
  pose proof Hnj as [_ Hnj']%znth_Some.
  destruct (Forall2_lookup_l _ _ _ _ _ r_linked0 Hnj') as (c & Hc & Hlc).
  exists nj, (<[Z.to_nat j := h]> new_hash), (<[Z.to_nat j := h :: c]> nch).
  set (rt' := set_struct p (set_hash_next nj s) rt).
  assert (forall x, x <> h -> chain_next rt' x = chain_next rt x) as Hnext
    by (intros x Hx; by apply (chain_next_relink rt p s nj h)).
  assert (forall x l b, nch !! b = Some l -> x ∈ l -> x <> h) as Hnh.
  { intros x l b Hb Hx ->. destruct (r_elem0 b l h Hb Hx) as [Hn _]. apply Hn. by left. }
  assert (relinked rt rt') as Rl by (by apply relinked_struct).
  pose proof (lookup_lt_Some _ _ _ Hc) as Hcl.
  assert (forall i q t, at_index rt i q t -> ~ is_symbol t -> exists t', at_index rt' i q t' /\ ~ is_symbol t' /\ hash t' = hash t) as Hfwd.
  { intros i q t [Hq Ht] Hnt. destruct (rl_fwd _ _ Rl q t Ht) as (t' & Ht' & _ & _ & Et & Eh & _).
    exists t'. split_and!; [done | unfold is_symbol in *; congruence | done]. }
  cbn zeta. split_and!; [done | apply zupd_Some; split; [lia | done] | split | | done].
  - destruct r_relinked0 as [A1 A2 A3 A4 A5 A6 A7], Rl as [B1 B2 B3 B4 B5 B6 B7]. split; try congruence.
    + intros q t Ht. destruct (A6 q t Ht) as (t1 & Ht1 & ? & ? & ? & ? & Hx). destruct (B6 q t1 Ht1) as (t2 & Ht2 & ? & ? & ? & ? & Hy).
      exists t2. split_and!; try congruence. intros Hsy. rewrite Hy, Hx by (unfold is_symbol in *; congruence). done.
    + intros q t Ht. destruct (B7 q t Ht) as [t1 Ht1]. by apply (A7 q t1).
  - done.
  - done.
  - by rewrite zlen_insert.
  - done.
  - apply Forall2_insert.
    + apply Forall2_same_length_lookup. apply Forall2_same_length_lookup in r_linked0 as [Hlen Hl]. split; [done |].
      intros b x l Hx Hb. apply (linked_ext (chain_next rt)); [by apply (Hl b) |].
      intros y Hy. apply Hnext. by apply (Hnh y l b).
    + split_and!; [done | done |]. exists nj. split.
      * unfold rt'. rewrite (chain_next_set rt p s) by done. by rewrite decide_True.
      * apply (linked_ext (chain_next rt)); [done |]. intros y Hy. apply Hnext. by apply (Hnh y c (Z.to_nat j)).
  - intros b l i Hb Hi. destruct (decide (Z.to_nat j = b)) as [<- | D].
    + rewrite list_lookup_insert_eq in Hb by done. injection Hb as <-. apply elem_of_cons in Hi as [-> | Hi].
      * split; [done |]. destruct (Hfwd h p s Hat Hsym) as (t & Hat' & Hn & Eh). exists p, t. rewrite Eh. split_and!; [done | done | fold j; lia].
      * destruct (r_elem0 _ c i Hc Hi) as (Hni & q & t & Hq & Hn & E). split; [intros Hin; apply Hni; by right |].
        destruct (Hfwd i q t Hq Hn) as (t' & Hq' & Hn' & Eh). exists q, t'. by rewrite Eh.
    + rewrite list_lookup_insert_ne in Hb by done.
      destruct (r_elem0 _ l i Hb Hi) as (Hni & q & t & Hq & Hn & E). split; [intros Hin; apply Hni; by right |].
      destruct (Hfwd i q t Hq Hn) as (t' & Hq' & Hn' & Eh). exists q, t'. by rewrite Eh.
  - done.
  - intros i Hi. destruct (r_atoms0 i ltac:(by right)) as (q & t & Hq & Hn).
    destruct (Hfwd i q t Hq Hn) as (t' & Hq' & Hn' & _). by exists q, t'.
  - intros x. rewrite !elem_of_concat. split.
    + intros (b & l & Hb & Hx). destruct (decide (Z.to_nat j = b)) as [<- | D].
      * rewrite list_lookup_insert_eq in Hb by done. injection Hb as <-. apply elem_of_cons in Hx as [-> | Hx]; [by left |].
        right. by exists (Z.to_nat j), c.
      * rewrite list_lookup_insert_ne in Hb by done. right. by exists b, l.
    + intros [-> | (b & l & Hb & Hx)].
      * exists (Z.to_nat j), (h :: c). rewrite list_lookup_insert_eq by done. split; [done | by left].
      * destruct (decide (Z.to_nat j = b)) as [<- | D].
        { exists (Z.to_nat j), (h :: c). rewrite list_lookup_insert_eq by done. split; [done |]. right. by simplify_eq. }
        { exists b, l. by rewrite list_lookup_insert_ne. }
Qed.

(** A chain moves. *)
Lemma resize_chain_spec mask rt0 more rest : forall h rt new_hash nch fuel,
  resizing mask rt0 rt new_hash nch (rest ++ more) -> linked (chain_next rt) h rest -> (length rest <= fuel)%nat ->
  exists new_hash' nch' rt', resize_chain fuel mask h new_hash rt = Ret (new_hash', rt') /\
    resizing mask rt0 rt' new_hash' nch' more /\
    (forall x, x ∈ concat nch' <-> x ∈ rest \/ x ∈ concat nch) /\
    (forall x, x ∉ rest -> chain_next rt' x = chain_next rt x).
Proof.
  induction rest as [| y rest IH]; intros h rt new_hash nch fuel R Hl Hf.
  - cbn in Hl. subst h. exists new_hash, nch, rt. split_and!; [by destruct fuel | done | | done].
    intros x. split; [by right | by intros [[]%not_elem_of_nil |]].
  - destruct Hl as (-> & Hy & k & Hk & Hl). destruct fuel as [| fuel]; [cbn in Hf; lia |].
    destruct (chain_next_Some _ _ _ Hk) as (p & s & Hat & Eh). pose proof Hat as [Hp Hs].
    cbn [resize_chain]. rewrite (proj2 (Z.eqb_neq _ _) Hy), (atom_ptr_Ret _ _ _ Hp). cbn [mbind res_bind].
    rewrite (get_struct_Ret _ _ _ Hs). cbn [mbind res_bind].
    destruct (resize_step mask rt0 rt new_hash nch y p s (rest ++ more) R Hat Hy) as (nj & nh & nch' & Hnj & Hup & R' & Hel & Hnx).
    rewrite Hnj. cbn [of_opt mbind res_bind]. rewrite Hup. cbn [of_opt mbind res_bind]. rewrite Eh.
    pose proof (r_pend _ _ _ _ _ _ R) as Hnd. cbn in Hnd. apply list.NoDup_cons in Hnd as [Hnin _].
    destruct (IH k _ nh nch' fuel R') as (nh2 & nch2 & rt2 & E & R2 & Hel2 & Hnx2).
    + apply (linked_ext (chain_next rt)); [done |]. intros z Hz. apply Hnx. intros ->. apply Hnin. apply elem_of_app. by left.
    + cbn in Hf. lia.
    + exists nh2, nch2, rt2. split_and!; [done | done | |].
      * intros x. rewrite Hel2, Hel, elem_of_cons. tauto.
      * intros x Hx. apply not_elem_of_cons in Hx as [? ?]. by rewrite Hnx2, Hnx.
Qed.

Lemma resize_buckets_spec mask rt0 fuel och : forall old rt new_hash nch,
  resizing mask rt0 rt new_hash nch (concat och) -> Forall2 (linked (chain_next rt)) old och ->
  (length (atom_array rt0) <= fuel)%nat ->
  exists new_hash' nch' rt', resize_buckets fuel mask old new_hash rt = Ret (new_hash', rt') /\
    resizing mask rt0 rt' new_hash' nch' [] /\ (forall x, x ∈ concat nch' <-> x ∈ concat och \/ x ∈ concat nch).
Proof.
  induction och as [| c och IH]; intros old rt new_hash nch R H2 Hf; inversion H2 as [| h c' old' och' Hh H2']; subst.
  - exists new_hash, nch, rt. split_and!; [done | done |]. intros x. cbn. split; [by right | by intros [[]%not_elem_of_nil |]].
  - cbn [resize_buckets]. cbn [concat] in R.
    destruct (resize_chain_spec mask rt0 (concat och) c h rt new_hash nch fuel R Hh) as (nh & nch' & rt' & -> & R' & Hel & Hnx).
    { pose proof (chain_length _ _ _ Hh) as Hl. rewrite (rl_array _ _ (r_relinked _ _ _ _ _ _ R)) in Hl. lia. }
    cbn [mbind res_bind]. pose proof (r_pend _ _ _ _ _ _ R) as Hnd. apply list.NoDup_app in Hnd as (_ & Hdis & _).
    destruct (IH old' rt' nh nch' R') as (nh2 & nch2 & rt2 & E & R2 & Hel2); [| done |].
    + apply Forall2_same_length_lookup. apply Forall2_same_length_lookup in H2' as [Hlen Hl]. split; [done |].
      intros b x l Hx Hb. apply (linked_ext (chain_next rt)); [by apply (Hl b) |]. intros y Hy. apply Hnx.
      intros Hin. apply (Hdis y Hin). apply elem_of_concat. by exists b, l.
    + exists nh2, nch2, rt2. split_and!; [done | done |]. intros x. rewrite Hel2, Hel. cbn. rewrite elem_of_app. tauto.
Qed.

(** A table with other chains for the same atoms. *)
Lemma wf_rehashed mask rt rt1 n new_hash nch : wf rt -> resizing mask rt rt1 new_hash nch [] ->
  (exists k, 0 <= k /\ mask + 1 = 2 ^ k) ->
  (forall i p s, at_index rt i p s -> ~ is_symbol s -> i ∈ concat nch) -> wf (set_hash new_hash n rt1).
Proof.
  intros W R Hk Hall. pose proof R as []. pose proof r_relinked0 as [].
  assert (forall h, hash_index h (set_hash new_hash n rt1) = Z.land h mask) as Hidx.
  { intros h. unfold hash_index, atom_hash_size. cbn. rewrite r_len0. f_equal. lia. }
  assert (forall i p s', at_index rt1 i p s' -> exists s, at_index rt i p s /\ body s' = body s /\
    atom_type s' = atom_type s /\ hash s' = hash s /\ (is_symbol s -> hash_next s' = hash_next s)) as Hback.
  { intros i p s' [Hp Hs']. destruct (rl_back p s' Hs') as [s Hs]. destruct (rl_fwd p s Hs) as (t & Ht & _ & ? & ? & ? & ?).
    assert (t = s') as -> by congruence. exists s. rewrite rl_array in Hp. done. }
  split; cbn.
  - destruct (w_free _ W) as (fl & Hfl & Hfa). exists fl. rewrite rl_free, rl_array. split; [| done].
    apply (linked_ext (free_next rt)); [done |]. intros j _. unfold free_next. cbn. by rewrite rl_array.
  - intros i p Hi. rewrite rl_array in Hi. destruct (w_ptr _ W i p Hi) as (s & Hs & Hr).
    destruct (rl_fwd p s Hs) as (t & Ht & _ & _ & E & _). exists t. by rewrite E.
  - rewrite rl_array. apply (w_inj _ W).
  - intros p s' Hs' Ht. destruct (rl_back p s' Hs') as [s Hs]. destruct (rl_fwd p s Hs) as (t & Ht' & _ & _ & E & _).
    assert (t = s') as -> by congruence. rewrite rl_array. apply (w_back _ W p s Hs). congruence.
  - rewrite rl_array. intros Hne. destruct (w_zero _ W Hne) as (p & s & [Hp Hs] & Hsym).
    destruct (rl_fwd p s Hs) as (t & Ht & _ & _ & E & _). exists p, t. split; [by split; cbn; rewrite ?rl_array |].
    unfold is_symbol in *. congruence.
  - intros i p s' Hat Hsym. destruct (Hback i p s' Hat) as (s & Hat' & _ & E & _ & En).
    assert (is_symbol s) as Hs by (unfold is_symbol in *; congruence). rewrite En by done. by apply (w_sym _ W i p s).
  - intros p s' Hs' Hty Hsym. destruct (rl_back p s' Hs') as [s Hs].
    destruct (rl_fwd p s Hs) as (t & Ht & _ & Eb & E & Eh & _). assert (t = s') as -> by congruence.
    rewrite Eh, Eb, E. apply (w_hash _ W p s Hs); [congruence | unfold is_symbol in *; congruence].
  - exists nch. split; cbn.
    + exact r_linked0.
    + intros b l i Hb Hi. destruct (r_elem0 b l i Hb Hi) as (_ & p & s & Hat & Hn & E). exists p, s. by rewrite Hidx.
    + intros i p s' Hat Hn. destruct (Hback i p s' Hat) as (s & Hat' & _ & E & _).
      apply elem_of_concat. apply (Hall i p s Hat'). unfold is_symbol in *. congruence.
  - intros i j p q s t Hi Hj Hn Ety Ech.
    destruct (Hback i p s Hi) as (s0 & Hi0 & Eb & Et & _), (Hback j q t Hj) as (t0 & Hj0 & Eb' & Et' & _).
    eapply (w_uniq _ W i j p q s0 t0 Hi0 Hj0); [unfold is_symbol in *; congruence | congruence | congruence].
  - unfold atom_hash_size. cbn. by rewrite r_len0.
  - rewrite rl_count, rl_array. apply (w_count _ W).
  - intros p s' Hs'. destruct (rl_back p s' Hs') as [s Hs]. rewrite rl_next. by apply (w_addr _ W p s).
Qed.

Lemma land_pow2 k : 0 <= k -> Z.land (2 ^ k) (2 ^ k - 1) = 0.
Proof. intros Hk. rewrite land_mask by done. by apply Z_mod_same_full. Qed.

(** The part of the runtime that a larger table leaves alone. *)
Lemma JS_ResizeAtomHash_spec rt : wf rt -> exists ok rt',
  JS_ResizeAtomHash (atom_hash_size rt * 2) rt = Ret (ok, rt') /\ wf rt' /\ frame (fun _ => False) rt rt' /\
  atom_array rt' = atom_array rt /\ atom_count rt' = atom_count rt.
Proof.
  intros W. destruct (w_size _ W) as (k & Hk & Ek). unfold JS_ResizeAtomHash.
  assert (atom_hash_size rt * 2 = 2 ^ (k + 1)) as -> by (rewrite Z.pow_add_r by lia; lia).
  rewrite land_pow2 by lia. cbn [Z.eqb assert_ mbind res_bind].
  destruct (alloc_ok_spec rt W) as (ok & rt1 & -> & W1 & F1 & Es & Ea & Eh & Ef & Ec & En).
  destruct ok; cbn [negb]; [| by exists false, rt1].
  destruct (w_chain _ W1) as [ch C]. assert (0 < 2 ^ (k + 1)) as Hpos by (apply Z.pow_pos_nonneg; lia).
  set (nh := replicate (Z.to_nat (2 ^ (k + 1))) 0).
  assert (resizing (2 ^ (k + 1) - 1) rt1 rt1 nh (replicate (Z.to_nat (2 ^ (k + 1))) []) (concat ch)) as R.
  { split.
    - apply relinked_refl.
    - done.
    - apply (w_inj _ W1).
    - unfold nh. rewrite zlen_replicate. lia.
    - intros h. rewrite land_mask by lia. pose proof (Z.mod_pos_bound h _ Hpos). lia.
    - apply Forall2_same_length_lookup. unfold nh. rewrite !length_replicate. split; [done |].
      intros b x l Hx Hb. apply lookup_replicate in Hx as [-> _], Hb as [-> _]. done.
    - intros b l i Hb Hi. apply lookup_replicate in Hb as [-> _]. by apply not_elem_of_nil in Hi.
    - by eapply chains_nodup.
    - intros i Hi. apply elem_of_concat in Hi as (b & l & Hb & Hi).
      destruct (ch_elem _ _ C b l i Hb Hi) as (p & s & Hat & Hn & _). by exists p, s. }
  destruct (resize_buckets_spec _ rt1 (length (atom_array rt1)) ch (atom_hash rt1) rt1 nh _ R (ch_linked _ _ C) (le_n _))
    as (nh2 & nch2 & rt2 & -> & R2 & Hel). cbn [mbind res_bind].
  pose proof (r_relinked _ _ _ _ _ _ R2) as Rl.
  eexists true, _. split; [reflexivity |]. split_and!.
  - apply (wf_rehashed (2 ^ (k + 1) - 1) rt1 rt2 _ nh2 nch2 W1 R2).
    + exists (k + 1). split; lia.
    + intros i p s Hat Hn. apply Hel. left. apply elem_of_concat. by apply (ch_all _ _ C i p s).
  - pose proof (relinked_frame _ _ Rl) as F2. destruct F1 as [S1 B1 A1], F2 as [S2 B2 A2]. split; cbn.
    + intros q s Hq Hs. destruct (S1 q s Hq Hs) as (s1 & Hs1 & ? & ? & ? & ?).
      destruct (S2 q s1 Hq Hs1) as (s2 & Hs2 & ? & ? & ? & ?). exists s2. split_and!; congruence.
    + intros q s Hq Hs. destruct (B2 q s Hq Hs) as [s1 Hs1]. by apply (B1 q s1).
    + intros i q Hq. rewrite A1, A2; done.
  - cbn. rewrite (rl_array _ _ Rl). exact Ea.
  - cbn. rewrite (rl_count _ _ Rl). exact Ec.
Qed.

(** ** A new atom *)
Record linking (i p : Z) (s s' : JSAtomStruct) (rt rt' : JSRuntime) : Prop := {
  l_free : free_next rt i = Some (atom_free_index rt');
  l_index : atom_free_index rt = i;
  l_nonzero : i <> 0;
  l_array : zupd (atom_array rt) i (APtr p) = Some (atom_array rt');
  l_strings : strings rt' = <[p := s']> (strings rt);
  l_old : strings rt !! p = Some s;
  l_type0 : atom_type s = 0;
  l_count : atom_count rt' = atom_count rt + 1;
  l_addr : next_addr rt' = next_addr rt;
  l_type : 1 <= atom_type s' <= 3
}.

Lemma linking_at i p s s' rt rt' : wf rt -> linking i p s s' rt rt' -> forall j q t,
  at_index rt' j q t <-> j = i /\ q = p /\ t = s' \/ j <> i /\ q <> p /\ at_index rt j q t.
Proof.
  intros W [] j q t. unfold at_index. rewrite (znth_zupd _ _ _ _ _ l_array0), l_strings0. case_decide as Dj.
  - subst j. split.
    + intros [[= ->] Ht]. rewrite lookup_insert_eq in Ht. injection Ht as <-. by left.
    + intros [(_ & -> & ->) | [? _]]; [| done]. by rewrite lookup_insert_eq.
  - split.
    + intros [Hj Ht]. right. assert (q <> p) as Dq.
      { intros ->. destruct (w_ptr _ W j p Hj) as (u & Hu & Hr). assert (u = s) as -> by congruence. lia. }
      rewrite lookup_insert_ne in Ht by congruence. done.
    + intros [[-> _] | (_ & Dq & Hj & Ht)]; [done |]. by rewrite lookup_insert_ne by congruence.
Qed.

(** The new atom is in the chain of the bucket [b], or in none. *)
Definition linked_in (i : Z) (s s' : JSAtomStruct) (rt rt' : JSRuntime) : Prop :=
  is_symbol s' /\ hash_next s' = i /\ atom_hash rt' = atom_hash rt \/
  ~ is_symbol s' /\ body s' = body s /\
  hash s' = Z.land (hash_string (body s) (atom_type s')) JS_ATOM_HASH_MASK /\
  znth (atom_hash rt) (hash_index (hash s') rt) = Some (hash_next s') /\
  zupd (atom_hash rt) (hash_index (hash s') rt) i = Some (atom_hash rt') /\
  forall j, ~ matches rt (atom_type s') (body s) j.

Lemma linking_hash_size i s s' rt rt' : linked_in i s s' rt rt' -> atom_hash_size rt' = atom_hash_size rt.
Proof.
  unfold atom_hash_size. intros [(_ & _ & ->) | (_ & _ & _ & _ & H & _)]; [done |]. by apply zupd_zlen in H.
Qed.

Lemma linking_chains i p s s' rt rt' : wf rt -> linking i p s s' rt rt' -> linked_in i s s' rt rt' ->
  exists ch, chains_ok rt' ch.
Proof.
  intros W L Hin. pose proof (linking_at _ _ _ _ _ _ W L) as Hat. pose proof L as [].
  assert (forall h, hash_index h rt' = hash_index h rt) as Hidx
    by (intros h; unfold hash_index; by rewrite (linking_hash_size _ _ _ _ _ Hin)).
  assert (forall j q t, at_index rt j q t -> at_index rt' j q t) as Hkeep.
  { intros j q t [Hj Ht]. apply Hat. right. split_and!; [| | done].
    - intros ->. unfold free_next in l_free0. by rewrite Hj in l_free0.
    - intros ->. destruct (w_ptr _ W j p Hj) as (u & Hu & Hr). assert (u = s) as -> by congruence. lia. }
  assert (forall x, x <> i -> chain_next rt' x = chain_next rt x) as Hnext.
  { intros x Hx. unfold chain_next. rewrite (znth_zupd _ _ _ _ _ l_array0), decide_False by done.
    destruct (znth (atom_array rt) x) as [[q |] |] eqn:E; [| done..].
    rewrite l_strings0, lookup_insert_ne; [done |]. intros <-.
    destruct (w_ptr _ W x p E) as (u & Hu & Hr). assert (u = s) as -> by congruence. lia. }
  destruct (w_chain _ W) as [ch C]. pose proof C as [C1 C2 C3].
  assert (forall b l j, ch !! b = Some l -> j ∈ l -> j <> i) as Hni.
  { intros b l j Hb Hj ->. destruct (C2 b l i Hb Hj) as (q & t & [Hq _] & _).
    unfold free_next in l_free0. by rewrite Hq in l_free0. }
  assert (forall b l j, ch !! b = Some l -> j ∈ l ->
    exists q t, at_index rt' j q t /\ ~ is_symbol t /\ Z.of_nat b = hash_index (hash t) rt') as C2'.
  { intros b l j Hb Hj. destruct (C2 b l j Hb Hj) as (q & t & Hq & Hn & E). exists q, t. rewrite Hidx. auto. }
  assert (Forall2 (linked (chain_next rt')) (atom_hash rt) ch) as C1'.
  { apply Forall2_same_length_lookup. apply Forall2_same_length_lookup in C1 as [Hlen Hl]. split; [done |].
    intros b x l Hx Hb. apply (linked_ext (chain_next rt)); [by apply (Hl b) |].
    intros y Hy. apply Hnext. by apply (Hni b l). }
  destruct Hin as [(Hsym & _ & Eh) | (Hsym & _ & _ & Hhd & Hup & _)].
  - exists ch. split; [by rewrite Eh | exact C2' |]. intros j q t Hj Hn.
    apply Hat in Hj as [(-> & -> & ->) | (_ & _ & Hj)]; [by destruct Hn | by apply (C3 j q t)].
  - set (b := Z.to_nat (hash_index (hash s') rt)). pose proof (hash_index_range rt (hash s') (w_size _ W)) as Hr.
    apply znth_Some in Hhd as [_ Hhd]. fold b in Hhd.
    destruct (Forall2_lookup_l _ _ _ _ _ C1' Hhd) as (c & Hc & Hlc). pose proof (lookup_lt_Some _ _ _ Hc) as Hcl.
    apply zupd_Some in Hup as [_ Eh]. fold b in Eh.
    assert (at_index rt' i p s') as Hi by (apply Hat; by left).
    exists (<[b := i :: c]> ch). split.
    + rewrite Eh. apply Forall2_insert; [done |]. split_and!; [done | done |]. exists (hash_next s'). split; [| done].
      unfold chain_next. destruct Hi as [-> ->]. done.
    + intros b' l j Hb Hj. destruct (decide (b = b')) as [<- | D].
      * rewrite list_lookup_insert_eq in Hb by done. injection Hb as <-. apply elem_of_cons in Hj as [-> | Hj].
        { exists p, s'. rewrite Hidx. split_and!; [done | done |]. unfold b. lia. }
        { by apply (C2' b c j). }
      * rewrite list_lookup_insert_ne in Hb by done. by apply (C2' b' l j).
    + intros j q t Hj Hn. apply Hat in Hj as [(-> & _) | (_ & _ & Hj)].
      * exists b, (i :: c). rewrite list_lookup_insert_eq by done. split; [done | by left].
      * destruct (C3 j q t Hj Hn) as (b' & l & Hb & Hin). destruct (decide (b = b')) as [<- | D].
        { exists b, (i :: c). rewrite list_lookup_insert_eq by done. split; [done |]. right. by simplify_eq. }
        { exists b', l. by rewrite list_lookup_insert_ne. }
Qed.

Lemma wf_linking i p s s' rt rt' : wf rt -> linking i p s s' rt rt' -> linked_in i s s' rt rt' -> wf rt'.
Proof.
  intros W L Hin. pose proof (linking_at _ _ _ _ _ _ W L) as Hat. pose proof L as [].
  assert (forall j q t, at_index rt j q t -> at_index rt' j q t) as Hkeep.
  { intros j q t [Hj Ht]. apply Hat. right. split_and!; [| | done].
    - intros ->. unfold free_next in l_free0. by rewrite Hj in l_free0.
    - intros ->. destruct (w_ptr _ W j p Hj) as (u & Hu & Hr). assert (u = s) as -> by congruence. lia. }
  assert (at_index rt' i p s') as Hi by (apply Hat; by left).
  assert (forall q t, strings rt' !! q = Some t -> q = p /\ t = s' \/ q <> p /\ strings rt !! q = Some t) as Hstr.
  { intros q t Ht. rewrite l_strings0 in Ht. destruct (decide (p = q)) as [<- | D].
    - rewrite lookup_insert_eq in Ht. injection Ht as <-. by left.
    - rewrite lookup_insert_ne in Ht by done. by right. }
  assert (forall j q, znth (atom_array rt') j = Some (APtr q) -> exists t, at_index rt' j q t) as Hptr.
  { intros j q Hj. rewrite (znth_zupd _ _ _ _ _ l_array0) in Hj. case_decide as Dj.
    - injection Hj as <-. subst j. by exists s'.
    - destruct (w_ptr _ W j q Hj) as (t & Ht & _). exists t. by apply Hkeep. }
  split.
  - destruct (w_free _ W) as (fl & Hfl & Hall). rewrite l_index0 in Hfl. destruct fl as [| x fl]; [done |].
    pose proof (linked_nodup _ _ _ Hfl) as Hnd. apply list.NoDup_cons in Hnd as [Hnx _].
    destruct Hfl as (<- & _ & k & Hk & Hfl). rewrite l_free0 in Hk. injection Hk as <-. exists fl. split.
    + apply (linked_ext (free_next rt)); [done |]. intros j Hj. unfold free_next.
      rewrite (znth_zupd _ _ _ _ _ l_array0), decide_False; [done |]. by intros ->.
    + intros j n Hj. rewrite (znth_zupd _ _ _ _ _ l_array0) in Hj. case_decide as Dj; [done |].
      apply Hall, elem_of_cons in Hj as [-> | Hj]; done.
  - intros j q Hj. destruct (Hptr j q Hj) as [t Ht]. exists t. pose proof Ht as [_ Hs]. split; [done |].
    apply Hat in Ht as [(_ & _ & ->) | (_ & _ & Ht)]; [done |]. pose proof Ht as [Hj' _].
    destruct (w_ptr _ W j q Hj') as (u & Hu & Hr). destruct Ht as [_ Ht]. by assert (u = t) as <- by congruence.
  - intros j k q Hj Hk. destruct (Hptr j q Hj) as [t Ht], (Hptr k q Hk) as [u Hu].
    apply Hat in Ht as [(-> & -> & ->) | (_ & Dq & [Ht _])], Hu as [(-> & E & _) | (_ & Dq' & [Hu _])]; try done.
    by apply (w_inj _ W j k q).
  - intros q t Ht Hty. destruct (Hstr q t Ht) as [[-> ->] | [D Ht']]; [by exists i; apply Hi |].
    destruct (w_back _ W q t Ht' Hty) as [j Hj]. exists j. by apply (Hkeep j q t).
  - intros _. assert (atom_array rt <> []) as Hne.
    { intros E. apply zupd_Some in l_array0 as [Hr _]. rewrite E in Hr. unfold zlen in Hr. cbn in Hr. lia. }
    destruct (w_zero _ W Hne) as (q & t & Ht & Hsym). exists q, t. split; [by apply Hkeep | done].
  - intros j q t Hj Hsym. apply Hat in Hj as [(-> & -> & ->) | (_ & _ & Hj)]; [| by apply (w_sym _ W j q t)].
    destruct Hin as [(_ & H & _) | (Hn & _)]; [exact H | done].
  - intros q t Ht Hty Hsym. destruct (Hstr q t Ht) as [[-> ->] | [D Ht']]; [| by apply (w_hash _ W q t)].
    destruct Hin as [(Hs & _) | (_ & Eb & Eh & _)]; [done |]. by rewrite Eh, Eb.
  - by apply (linking_chains i p s s' rt rt').
  - assert (forall j q t, at_index rt j q t -> ~ is_symbol s' -> atom_type t = atom_type s' ->
      chars (body t) = chars (body s') -> False) as Hnew.
    { intros j q t Hj Hn Ety Ech. destruct Hin as [(Hs & _) | (_ & Eb & _ & _ & _ & Hno)]; [done |].
      apply (Hno j). exists q, t. rewrite <- Eb. done. }
    intros j k q r t u Hj Hk Hn Ety Ech.
    apply Hat in Hj as [(-> & -> & ->) | (_ & _ & Hj)], Hk as [(-> & -> & ->) | (_ & _ & Hk)]; [done | | |].
    + destruct (Hnew k r u Hk Hn); congruence.
    + destruct (Hnew j q t Hj); [unfold is_symbol in *; congruence | congruence..].
    + by apply (w_uniq _ W j k q r t u).
  - rewrite (linking_hash_size _ _ _ _ _ Hin). apply (w_size _ W).
  - unfold free_next in l_free0. destruct (znth (atom_array rt) i) as [[| n] |] eqn:E; [done | | done].
    rewrite l_count0, (countb_zupd _ _ _ _ _ _ E l_array0), (w_count _ W). cbn. lia.
  - intros q t Ht. rewrite l_addr0. destruct (Hstr q t Ht) as [[-> ->] | [_ Ht']]; [by apply (w_addr _ W p s) | by apply (w_addr _ W q t)].
Qed.

(** What an operation that makes an atom of the string at [p] leaves. *)
Definition atom_made (p i : Z) (s : JSAtomStruct) (ty h : Z) (rt rt' : JSRuntime) : Prop :=
  wf rt' /\ frame (fun q => q = p) rt rt' /\ i <> 0 /\
  (forall j, znth (atom_array rt') j = Some (APtr p) <-> j = i) /\
  exists s', strings rt' !! p = Some s' /\ ref_count s' = ref_count s /\ body s' = body s /\
    atom_type s' = ty /\ hash s' = h.

Lemma linking_frame i p s s' rt rt' : wf rt -> linking i p s s' rt rt' -> frame (fun q => q = p) rt rt'.
Proof.
  intros W L. pose proof L as []. split.
  - intros q t Dq Ht. exists t. by rewrite l_strings0, lookup_insert_ne by congruence.
  - intros q t Dq Ht. rewrite l_strings0, lookup_insert_ne in Ht by congruence. eauto.
  - intros j q Dq. rewrite (znth_zupd _ _ _ _ _ l_array0). case_decide as Dj; [| done]. subst j.
    unfold free_next in l_free0. destruct (znth (atom_array rt) i) as [[|] |]; [done | | done].
    split; [done | congruence].
Qed.

Lemma linking_made i p s s' rt rt' : wf rt -> linking i p s s' rt rt' -> linked_in i s s' rt rt' ->
  ref_count s' = ref_count s -> body s' = body s -> atom_made p i s (atom_type s') (hash s') rt rt'.
Proof.
  intros W L Hin Er Eb. pose proof (linking_at _ _ _ _ _ _ W L) as Hat. pose proof L as [].
  split_and!; [by apply (wf_linking i p s s' rt rt') | by apply (linking_frame i p s s') | done | |].
  - intros j. rewrite (znth_zupd _ _ _ _ _ l_array0). case_decide as Dj; [done |]. split; [| done].
    intros Hj. destruct (w_ptr _ W j p Hj) as (u & Hu & Hr). assert (u = s) as -> by congruence. lia.
  - exists s'. rewrite l_strings0, lookup_insert_eq. done.
Qed.

Lemma link_atom_spec rt p s ty h h1 : wf rt -> atom_free_index rt <> 0 -> strings rt !! p = Some s ->
  atom_type s = 0 -> 1 <= ty <= 3 ->
  (ty <> JS_ATOM_TYPE_SYMBOL -> h = Z.land (hash_string (body s) ty) JS_ATOM_HASH_MASK /\ h1 = hash_index h rt /\
     forall j, ~ matches rt ty (body s) j) ->
  exists i rt', link_atom p h h1 ty rt = Ret (i, rt') /\ atom_made p i s ty h rt rt' /\
    atom_size rt' = atom_size rt /\ atom_count rt' = atom_count rt + 1.
Proof.
  intros W Hf Hs Hty0 Hty Hns. destruct (w_free _ W) as (fl & Hfl & _). destruct fl as [| x fl]; [done |].
  destruct Hfl as (Ex & _ & n & Hn & _). set (i := atom_free_index rt) in *.
  pose proof Hn as Hn'. unfold free_next in Hn'. destruct (znth (atom_array rt) i) as [[| n'] |] eqn:Hi; [done | | done].
  injection Hn' as ->. unfold link_atom. fold i. rewrite Hi. cbn [of_opt mbind res_bind atom_get_free].
  destruct (zupd_is_Some (atom_array rt) i (APtr p)) as [l Hl]; [by apply znth_lt_Some in Hi |].
  rewrite Hl. cbn [of_opt mbind res_bind]. rewrite (get_struct_Ret _ _ _ Hs). cbn [mbind res_bind].
  destruct (Z.eqb_spec ty JS_ATOM_TYPE_SYMBOL) as [-> | Dty]; cbn [negb].
  - set (s' := mkAtom (ref_count s) (body s) h JS_ATOM_TYPE_SYMBOL i). set (rt' := set_struct p s' _).
    eexists i, rt'. split; [done |]. split; [| split; [exact (zupd_zlen _ _ _ _ Hl) | done]].
    apply (linking_made i p s s'); [done | by split | by left | done | done].
  - destruct (Hns Dty) as (Eh & E1 & Hno). pose proof (hash_index_range rt h (w_size _ W)) as Hr.
    destruct (proj2 (znth_is_Some (atom_hash rt) h1)) as [nx Hnx]; [rewrite E1; exact Hr |].
    cbn [atom_hash set_array set_struct set_strings]. rewrite Hnx. cbn [of_opt mbind res_bind].
    destruct (zupd_is_Some (atom_hash rt) h1 i) as [hl Hhl]; [rewrite E1; exact Hr |].
    rewrite Hhl. cbn [of_opt mbind res_bind].
    set (s' := mkAtom (ref_count s) (body s) h ty nx). set (rt1 := set_hash hl _ _).
    assert (atom_made p i s ty h rt rt1) as M.
    { apply (linking_made i p s s'); [done | by split | | done | done].
      right. cbn. rewrite <- E1, <- Eh. done. }
    destruct (_ <=? _).
    + destruct (JS_ResizeAtomHash_spec rt1 (proj1 M)) as (ok & rt2 & -> & W2 & F2 & Ea & Ec). cbn [mbind res_bind].
      exists i, rt2. split; [done |]. split; [| unfold atom_size; rewrite Ea, Ec; split; [exact (zupd_zlen _ _ _ _ Hl) | done]].
      destruct M as (_ & F1 & Hi0 & Hptr & s1 & Hs1 & ? & ? & ? & ?).
      split_and!; [done | apply (frame_trans _ _ _ _ _ _ F1 F2); [done | by intros q []] | done | by rewrite Ea |].
      destruct (f_str _ _ _ F2 p s1 (fun H : False => H) Hs1) as (s2 & Hs2 & ? & ? & ? & ?).
      exists s2. split_and!; congruence.
    + exists i, rt1. split_and!; [done | done | exact (zupd_zlen _ _ _ _ Hl) | done].
Qed.
