(* ===== verification/AtomRefs.v ===== *)
(** * quickjs.c: references to atoms, symbols and strings

    The reference count of a structure is the number of references that the
    client holds, with one more for a predefined atom.  Each operation keeps
    this, and what the references stand for.  [is_num_string] accepts the decimal
    numerals without leading zeros up to [2^32 - 1], and no others: a tagged
    integer has exactly one text. *)
From Stdlib Require Import ZArith Lia Bool.
From stdpp Require Import base numbers list gmap.
From S2P Require Import Prelude Cutils Chains JSValue AtomState AtomFacts AtomGrow.

Section refs.
Variable JS_ATOM_END : Z.
Hypothesis end_range : 0 < JS_ATOM_END <= 2 ^ 30.
Abbreviation is_const := (__JS_AtomIsConst JS_ATOM_END).

(** ** Counting references *)
Definition refers (rt : JSRuntime) (p : Z) (h : hold) : bool :=
  match h with
  | HPtr q _ => q =? p
  | HAtom a _ => negb (is_const a) && bool_decide (znth (atom_array rt) a = Some (APtr p))
  end.

(** One for a predefined atom. *)
Definition base_refs (rt : JSRuntime) (p : Z) : Z :=
  if existsb (fun i => bool_decide (znth (atom_array rt) i = Some (APtr p))) (seqZ 0 JS_ATOM_END) then 1 else 0.

Definition refs (rt : JSRuntime) (l : list hold) (p : Z) : Z := base_refs rt p + countb (refers rt p) l.

(** ** What references stand for *)
Definition num_text (l : list Z) : option Z := is_num_string (mkString false l).

(** The text of a tagged integer. *)
Definition tagged_text (a : Z) (l : list Z) : Prop :=
  exists n, 0 <= n <= JS_ATOM_MAX_INT /\ num_text l = Some n /\ a = __JS_AtomFromUInt32 n.

Definition not_tagged (l : list Z) : Prop := forall n, num_text l = Some n -> JS_ATOM_MAX_INT < n.

Definition hold_ok (rt : JSRuntime) (h : hold) : Prop :=
  match h with
  | HPtr p (MText l) => exists s, strings rt !! p = Some s /\ chars (body s) = l
  | HPtr p (MGlobal l) => exists i s, at_index rt i p s /\ atom_type s = JS_ATOM_TYPE_GLOBAL_SYMBOL /\ chars (body s) = l
  | HPtr p (MSymbol q d) => q = p /\ exists i s, at_index rt i p s /\ is_symbol s /\ chars (body s) = d
  | HAtom a (MText l) => tagged_text a l \/
      not_tagged l /\ exists p s, at_index rt a p s /\ atom_type s = JS_ATOM_TYPE_STRING /\ chars (body s) = l
  | HAtom a (MGlobal l) => exists p s, at_index rt a p s /\ atom_type s = JS_ATOM_TYPE_GLOBAL_SYMBOL /\ chars (body s) = l
  | HAtom a (MSymbol q d) => exists s, at_index rt a q s /\ is_symbol s /\ chars (body s) = d
  end.

(** The predefined atoms: their texts and types.  During the initialization the
    list is empty. *)
Variable names : list (list Z * Z).
Hypothesis names_range : zlen names < JS_ATOM_END.

Definition kept_type (ty : Z) : Z := if ty =? JS_ATOM_TYPE_PRIVATE then JS_ATOM_TYPE_SYMBOL else ty.

Definition named (rt : JSRuntime) (k : nat) (x : list Z * Z) : Prop :=
  exists p s, at_index rt (Z.of_nat k + 1) p s /\ chars (body s) = x.1 /\ atom_type s = kept_type x.2.

(** [n] bounds the number of atoms. *)
Record inv (n : Z) (rt : JSRuntime) (l : list hold) : Prop := {
  i_wf : wf rt;
  i_refs : forall p s, strings rt !! p = Some s -> ref_count s = refs rt l p /\ 0 < ref_count s;
  i_holds : forall h, h ∈ l -> hold_ok rt h;
  i_names : forall k x, names !! k = Some x -> named rt k x;
  i_bound : atom_count rt <= n;
  i_size : atom_size rt <= JS_ATOM_MAX
}.

(** ** Indices and constants *)
Lemma is_const_small i : 0 <= i < 2 ^ 31 -> is_const i = (i <? JS_ATOM_END).
Proof. intros H. unfold __JS_AtomIsConst. rewrite swrap_small; [done | lia | lia]. Qed.

Lemma is_const_tagged n : 0 <= n <= JS_ATOM_MAX_INT -> is_const (__JS_AtomFromUInt32 n) = true.
Proof.
  intros H. unfold JS_ATOM_MAX_INT, JS_ATOM_TAG_INT in H. change (Z.shiftl 1 31) with (2 ^ 31) in H.
  assert (__JS_AtomFromUInt32 n = n + 2 ^ 31) as ->.
  { unfold __JS_AtomFromUInt32, JS_ATOM_TAG_INT. change (Z.shiftl 1 31) with (1 * 2 ^ 31). rewrite lor_low_high; lia. }
  unfold __JS_AtomIsConst, swrap. change (32 - 1) with 31.
  replace (n + 2 ^ 31 + 2 ^ 31) with (n + 1 * 2 ^ 32) by lia. rewrite Z.mod_add by lia.
  rewrite Z.mod_small by lia. apply Z.ltb_lt. lia.
Qed.

Lemma base_refs_cases rt p : base_refs rt p = 0 \/ base_refs rt p = 1.
Proof. unfold base_refs. destruct (existsb _ _); auto. Qed.

Lemma base_refs_true rt p i : 0 <= i < JS_ATOM_END -> znth (atom_array rt) i = Some (APtr p) -> base_refs rt p = 1.
Proof.
  intros Hi Hp. unfold base_refs. rewrite (proj2 (existsb_exists _ _)); [done |].
  exists i. split; [apply list_elem_of_In, elem_of_seqZ; lia |]. by apply bool_decide_eq_true.
Qed.

Lemma base_refs_inv rt p : base_refs rt p <> 0 -> exists i, 0 <= i < JS_ATOM_END /\ znth (atom_array rt) i = Some (APtr p).
Proof.
  unfold base_refs. destruct (existsb _ _) eqn:E; [| done]. intros _.
  apply existsb_exists in E as (i & Hi & Hp). apply list_elem_of_In, elem_of_seqZ in Hi.
  apply bool_decide_eq_true in Hp. exists i. split; [lia | done].
Qed.

Lemma refs_nonneg rt l p : 0 <= refs rt l p.
Proof. unfold refs. pose proof (countb_nonneg (refers rt p) l). destruct (base_refs_cases rt p); lia. Qed.

(** ** Changes of the runtime *)
Lemma refers_arr rt rt' p h : (forall i, znth (atom_array rt') i = Some (APtr p) <-> znth (atom_array rt) i = Some (APtr p)) ->
  refers rt' p h = refers rt p h.
Proof. intros H. destruct h as [q m | a m]; cbn; [done |]. f_equal. by apply bool_decide_ext. Qed.

Lemma base_arr rt rt' p : (forall i, znth (atom_array rt') i = Some (APtr p) <-> znth (atom_array rt) i = Some (APtr p)) ->
  base_refs rt' p = base_refs rt p.
Proof.
  intros H. destruct (base_refs_cases rt' p) as [E' | E'], (base_refs_cases rt p) as [E | E]; rewrite E, E'; try done.
  - destruct (base_refs_inv rt p) as (i & Hi & Hp); [lia |]. apply H in Hp. rewrite (base_refs_true rt' p i Hi Hp) in E'. done.
  - destruct (base_refs_inv rt' p) as (i & Hi & Hp); [lia |]. apply H in Hp. rewrite (base_refs_true rt p i Hi Hp) in E. done.
Qed.

Lemma countb_ext {A} (P Q : A -> bool) l : (forall x, P x = Q x) -> countb P l = countb Q l.
Proof. intros H. induction l as [| x l IH]; cbn; [done |]. by rewrite H, IH. Qed.

Lemma refs_arr rt rt' l p : (forall i, znth (atom_array rt') i = Some (APtr p) <-> znth (atom_array rt) i = Some (APtr p)) ->
  refs rt' l p = refs rt l p.
Proof. intros H. unfold refs. rewrite (base_arr rt rt' p H). f_equal. apply countb_ext. intros h. by apply refers_arr. Qed.

(** The structure that a hold is about. *)
Definition points (rt : JSRuntime) (p : Z) (h : hold) : Prop :=
  match h with
  | HPtr q _ => q = p
  | HAtom a _ => znth (atom_array rt) a = Some (APtr p)
  end.

(** The structure at [p] stays what it was. *)
Definition kept (rt rt' : JSRuntime) (p : Z) : Prop :=
  forall s, strings rt !! p = Some s -> exists s', strings rt' !! p = Some s' /\ body s' = body s /\
    (atom_type s <> 0 -> atom_type s' = atom_type s /\
       forall i, znth (atom_array rt) i = Some (APtr p) -> znth (atom_array rt') i = Some (APtr p)).

Lemma kept_frame Q rt rt' p : frame Q rt rt' -> ~ Q p -> kept rt rt' p.
Proof.
  intros F Hq s Hs. destruct (f_str _ _ _ F p s Hq Hs) as (s' & Hs' & _ & Eb & Et & _).
  exists s'. split_and!; [done | done |]. intros _. split; [done |]. intros i Hi. by apply (f_arr _ _ _ F i p Hq).
Qed.

Lemma kept_index rt rt' i p s : kept rt rt' p -> wf rt -> at_index rt i p s ->
  exists s', at_index rt' i p s' /\ body s' = body s /\ atom_type s' = atom_type s.
Proof.
  intros K W [Hi Hs]. destruct (K s Hs) as (s' & Hs' & Eb & Et).
  destruct (w_ptr _ W i p Hi) as (t & Ht & Hr). assert (t = s) as -> by congruence.
  destruct (Et ltac:(lia)) as [E1 E2]. exists s'. split_and!; [split; [by apply E2 | done] | done | done].
Qed.

Lemma hold_kept rt rt' h : wf rt -> (forall p, points rt p h -> kept rt rt' p) -> hold_ok rt h -> hold_ok rt' h.
Proof.
  intros W K H. destruct h as [p [l | l | q d] | a [l | l | q d]]; cbn [hold_ok points] in *.
  - destruct H as (s & Hs & E). destruct (K p eq_refl s Hs) as (s' & Hs' & Eb & _). exists s'. by rewrite Eb.
  - destruct H as (i & s & Hat & Et & E). destruct (kept_index _ _ _ _ _ (K p eq_refl) W Hat) as (s' & Hat' & Eb & Et').
    exists i, s'. by rewrite Et', Eb.
  - destruct H as (-> & i & s & Hat & Et & E).
    destruct (kept_index _ _ _ _ _ (K p eq_refl) W Hat) as (s' & Hat' & Eb & Et').
    split; [done |]. exists i, s'. unfold is_symbol in *. by rewrite Et', Eb.
  - destruct H as [H | (Hn & p & s & Hat & Et & E)]; [by left | right]. split; [done |].
    destruct (kept_index _ _ _ _ _ (K p (proj1 Hat)) W Hat) as (s' & Hat' & Eb & Et').
    exists p, s'. by rewrite Et', Eb.
  - destruct H as (p & s & Hat & Et & E). destruct (kept_index _ _ _ _ _ (K p (proj1 Hat)) W Hat) as (s' & Hat' & Eb & Et').
    exists p, s'. by rewrite Et', Eb.
  - destruct H as (s & Hat & Et & E). destruct (kept_index _ _ _ _ _ (K q (proj1 Hat)) W Hat) as (s' & Hat' & Eb & Et').
    exists s'. unfold is_symbol in *. by rewrite Et', Eb.
Qed.

(** Who is referred to by nobody. *)
Lemma index_const rt i e : znth (atom_array rt) i = Some e -> atom_size rt <= JS_ATOM_MAX ->
  is_const i = (i <? JS_ATOM_END).
Proof.
  intros H Hs. apply znth_lt_Some in H. apply is_const_small. unfold atom_size in Hs.
  change JS_ATOM_MAX with (2 ^ 30 - 1) in Hs. lia.
Qed.

Lemma not_referred rt l p h : refs rt l p = 0 -> h ∈ l -> atom_size rt <= JS_ATOM_MAX -> ~ points rt p h.
Proof.
  intros H0 Hh Hs Hp. pose proof (countb_nonneg (refers rt p) l). unfold refs in H0.
  pose proof (base_refs_cases rt p) as Hb. assert (countb (refers rt p) l = 0) as Hc by lia.
  pose proof (countb_all _ _ _ Hc Hh) as Hr. destruct h as [q m | a m]; cbn in *.
  - subst q. by rewrite Z.eqb_refl in Hr.
  - pose proof (znth_lt_Some _ _ _ Hp) as Hlt. rewrite (bool_decide_eq_true_2 _ Hp), andb_true_r in Hr.
    apply negb_false_iff in Hr. rewrite (index_const _ _ _ Hp Hs) in Hr. apply Z.ltb_lt in Hr.
    rewrite (base_refs_true rt p a) in H0 by (done || lia). lia.
Qed.

(** ** The change of one structure *)
Lemma named_kept rt rt' k x : wf rt -> named rt k x -> (forall p, znth (atom_array rt) (Z.of_nat k + 1) = Some (APtr p) ->
  kept rt rt' p) -> named rt' k x.
Proof.
  intros W (p & s & Hat & E & Et) K. destruct (kept_index _ _ _ _ _ (K p (proj1 Hat)) W Hat) as (s' & Hat' & Eb & Et').
  exists p, s'. split_and!; [done | congruence | congruence].
Qed.

Lemma inv_change n n' rt rt' l l' p : inv n rt l -> wf rt' -> frame (fun q => q = p) rt rt' ->
  atom_count rt' <= n' -> atom_size rt' <= JS_ATOM_MAX ->
  (forall q, q <> p -> countb (refers rt' q) l' = countb (refers rt q) l) ->
  (forall s', strings rt' !! p = Some s' -> ref_count s' = refs rt' l' p /\ 0 < ref_count s') ->
  (forall h, h ∈ l' -> hold_ok rt' h) -> (base_refs rt p <> 0 -> kept rt rt' p) -> inv n' rt' l'.
Proof.
  intros I W' F Hc Hz Hl Hp Hh Hb. split; try done.
  - intros q s' Hs'. destruct (decide (q = p)) as [-> | D]; [by apply Hp |].
    destruct (f_back _ _ _ F q s' D Hs') as [s Hs]. destruct (f_str _ _ _ F q s D Hs) as (t & Ht & Er & _).
    assert (t = s') as -> by congruence. rewrite Er. destruct (i_refs _ _ _ I q s Hs) as [-> Hpos].
    split; [| done]. unfold refs. rewrite (Hl q D). f_equal. symmetry. apply base_arr. intros i.
    symmetry. by apply (f_arr _ _ _ F i q).
  - intros k x Hk. apply (named_kept rt); [apply (i_wf _ _ _ I) | by apply (i_names _ _ _ I) |].
    intros q Hq. destruct (decide (q = p)) as [-> | D]; [| by apply (kept_frame _ _ _ _ F)].
    apply Hb. rewrite (base_refs_true rt p (Z.of_nat k + 1)); [done | | done].
    pose proof (lookup_lt_Some _ _ _ Hk). unfold zlen in names_range. lia.
Qed.

(** The reference of a hold moves with the table. *)
Lemma countb_refers rt rt' q l : (forall i, znth (atom_array rt') i = Some (APtr q) <-> znth (atom_array rt) i = Some (APtr q)) ->
  countb (refers rt' q) l = countb (refers rt q) l.
Proof. intros H. apply countb_ext. intros h. by apply refers_arr. Qed.

Lemma hold_frame rt rt' p h : wf rt -> frame (fun q => q = p) rt rt' -> (points rt p h -> kept rt rt' p) ->
  hold_ok rt h -> hold_ok rt' h.
Proof.
  intros W F K. apply hold_kept; [done |]. intros q Hq. destruct (decide (q = p)) as [-> | D]; [by apply K |].
  by apply (kept_frame _ _ _ _ F).
Qed.
End refs.

(** * The numeric strings *)

Lemma num_loop_snoc l : forall n c, num_loop (l ++ [c]) n =
  match num_loop l n with
  | Some m => if is_num c && (Z.shiftr (m * 10 + (c - 48)) 32 =? 0) then Some (m * 10 + (c - 48)) else None
  | None => None
  end.
Proof.
  induction l as [| x l IH]; intros n c; cbn [num_loop app].
  - destruct (is_num c); cbn [negb andb]; [| done]. by destruct (_ =? 0).
  - destruct (negb (is_num x)); [done |]. cbn zeta. destruct (negb (_ =? 0)); [done |]. apply IH.
Qed.

Lemma shiftr_32 x : 0 <= x -> (Z.shiftr x 32 =? 0) = (x <? 2 ^ 32).
Proof.
  intros H. rewrite Z.shiftr_div_pow2 by lia. apply eq_true_iff_eq. rewrite Z.eqb_eq, Z.ltb_lt.
  rewrite Z.div_small_iff by lia. lia.
Qed.

Lemma is_num_digit k : 0 <= k < 10 -> is_num (48 + k) = true.
Proof. intros H. unfold is_num. rewrite andb_true_iff, !Z.leb_le. lia. Qed.

(** The digits of a number are its first digit and the others. *)
Lemma dec_digits_loop fuel : forall n, 0 < n < 10 ^ Z.of_nat fuel -> n < 2 ^ 32 -> exists d l,
  dec_digits fuel n = (48 + d) :: l /\ 0 < d < 10 /\ num_loop l d = Some n /\ (length l < fuel)%nat.
Proof.
  induction fuel as [| fuel IH]; intros n Hn Hb; [cbn in Hn; lia |]. cbn [dec_digits].
  destruct (Z.ltb_spec n 10) as [Hlt | Hge]; [exists n, []; cbn; split_and!; [done | lia | lia | done | lia] |].
  pose proof (Z.div_mod n 10 ltac:(lia)) as E. pose proof (Z.mod_pos_bound n 10 ltac:(lia)) as Hm.
  rewrite Nat2Z.inj_succ, Z.pow_succ_r in Hn by lia.
  destruct (IH (n / 10)) as (d & l & -> & Hd & Hl & Hlen); [split; [lia | apply Z.div_lt_upper_bound; lia] | lia |].
  exists d, (l ++ [48 + n mod 10]). split_and!; [done | lia | lia | | rewrite length_app; cbn; lia].
  rewrite num_loop_snoc, Hl, is_num_digit by lia. cbn [andb].
  replace (n / 10 * 10 + (48 + n mod 10 - 48)) with n by lia.
  rewrite shiftr_32 by lia. by rewrite (proj2 (Z.ltb_lt _ _)).
Qed.

Lemma loop_dec_digits l : forall n0 n fuel, 0 < n0 < 10 -> num_loop l n0 = Some n -> n < 10 ^ Z.of_nat fuel ->
  dec_digits fuel n = (48 + n0) :: l /\ n0 <= n /\ (l <> [] -> 10 <= n) /\ n < 2 ^ 32.
Proof.
  induction l as [| c l IH] using rev_ind; intros n0 n fuel H0 Hl Hf.
  - injection Hl as <-. destruct fuel as [| fuel]; [cbn in Hf; lia |]. cbn [dec_digits].
    rewrite (proj2 (Z.ltb_lt _ _)) by lia. split_and!; [done | lia | done | lia].
  - rewrite num_loop_snoc in Hl. destruct (num_loop l n0) as [m |] eqn:Em; [| done].
    destruct (is_num c) eqn:Ec; [| done]. unfold is_num in Ec. rewrite andb_true_iff, !Z.leb_le in Ec. cbn [andb] in Hl.
    assert (n = m * 10 + (c - 48) /\ (Z.shiftr (m * 10 + (c - 48)) 32 =? 0) = true) as [-> Hs]
      by (destruct (_ =? 0); [by injection Hl as <- | done]).
    assert (0 < m) as Hm.
    { destruct (Z.le_gt_cases m 0) as [Hle |]; [| lia].
      destruct (IH n0 m 1%nat H0 Em) as (_ & ? & _); [cbn; lia | lia]. }
    rewrite shiftr_32 in Hs by lia. apply Z.ltb_lt in Hs. destruct fuel as [| fuel]; [cbn in Hf; lia |].
    rewrite Nat2Z.inj_succ, Z.pow_succ_r in Hf by lia.
    destruct (IH n0 m fuel H0 Em) as (E & Hge & _ & _); [lia |]. cbn [dec_digits].
    rewrite (proj2 (Z.ltb_ge _ _)) by lia.
    replace ((m * 10 + (c - 48)) / 10) with m by (apply (Z.div_unique _ _ _ (c - 48)); lia).
    replace ((m * 10 + (c - 48)) mod 10) with (c - 48) by (apply (Z.mod_unique _ _ m); lia).
    rewrite E. split_and!; [cbn; do 3 f_equal; lia | lia | lia | lia].
Qed.

Lemma num_text_digits l n : num_text l = Some n -> 0 <= n < 2 ^ 32 /\ dec_digits 10 n = l.
Proof.
  unfold num_text, is_num_string. cbn [chars]. destruct l as [| c l]; [done |].
  destruct (10 <? zlen (c :: l)) eqn:El; [done |]. destruct (is_num c) eqn:Ec; [| done].
  unfold is_num in Ec. rewrite andb_true_iff, !Z.leb_le in Ec. destruct (Z.eqb_spec c 48) as [-> | D].
  - destruct (Z.eqb_spec (zlen (48 :: l)) 1) as [E1 | E1]; [| done]. intros [= <-]. split; [lia |].
    rewrite zlen_cons in E1. destruct l as [| x l]; [done |]. rewrite zlen_cons in E1. pose proof (zlen_nonneg l). lia.
  - intros H. assert (n < 2 ^ 32 /\ 0 <= n) as [Hn Hn0].
    { assert (n < 10 ^ Z.of_nat (Z.to_nat (Z.max 0 n + 1))) as Hbig.
      { rewrite Z2Nat.id by lia. pose proof (Z.pow_gt_lin_r 10 (Z.max 0 n + 1) ltac:(lia)). lia. }
      destruct (loop_dec_digits l (c - 48) n _ ltac:(lia) H Hbig) as (_ & ? & _ & ?). lia. }
    destruct (loop_dec_digits l (c - 48) n 10 ltac:(lia) H) as (E & _); [cbn; lia |].
    split; [lia |]. rewrite E. f_equal. lia.
Qed.

Lemma digits_num_text n : 0 <= n < 2 ^ 32 -> num_text (dec_digits 10 n) = Some n.
Proof.
  intros H. destruct (Z.eqb_spec n 0) as [-> | D]; [done |].
  destruct (dec_digits_loop 10 n) as (d & l & -> & Hd & Hl & Hlen); [cbn; lia | lia |].
  unfold num_text, is_num_string. cbn [chars]. rewrite (proj2 (Z.ltb_ge _ _)) by (unfold zlen; cbn [length]; lia).
  rewrite is_num_digit, (proj2 (Z.eqb_neq _ _)) by lia. rewrite <- Hl. f_equal. lia.
Qed.

Lemma tagged_text_inj a b l : tagged_text a l -> tagged_text b l -> a = b.
Proof. intros (n & _ & E & ->) (m & _ & E' & ->). congruence. Qed.

Lemma from_uint32_val n : 0 <= n <= JS_ATOM_MAX_INT -> __JS_AtomFromUInt32 n = n + 2 ^ 31.
Proof.
  intros H. unfold JS_ATOM_MAX_INT, JS_ATOM_TAG_INT in H. change (Z.shiftl 1 31) with (2 ^ 31) in H.
  unfold __JS_AtomFromUInt32, JS_ATOM_TAG_INT. change (Z.shiftl 1 31) with (1 * 2 ^ 31). by rewrite lor_low_high by lia.
Qed.

Lemma tagged_text_det a l k : tagged_text a l -> tagged_text a k -> l = k.
Proof.
  intros (n & Hn & E & ->) (m & Hm & E' & Ea). rewrite !from_uint32_val in Ea by done.
  assert (n = m) as <- by lia. apply num_text_digits in E as [_ <-]. by apply num_text_digits in E' as [_ <-].
Qed.
