(* ===== verification/AtomSteps.v ===== *)
(** * quickjs.c: what the primitive steps on atoms do to the references

    Releasing, duplicating and making a structure, growing the array and linking
    a string as an atom: each keeps [AtomRefs.inv] for the references that are
    left. *)
From Stdlib Require Import ZArith Lia Bool.
From stdpp Require Import base numbers list gmap.
From S2P Require Import Prelude Cutils Chains JSValue AtomState AtomFacts AtomGrow AtomRefs.

(** Atoms do not appear, and there is room for one if there was. *)
Record calm (rt rt' : JSRuntime) : Prop := {
  c_atoms : forall j q s', at_index rt' j q s' -> ~ is_symbol s' ->
    exists s, at_index rt j q s /\ body s = body s' /\ atom_type s = atom_type s';
  c_hash : atom_hash_size rt' = atom_hash_size rt;
  c_free : atom_free_index rt <> 0 -> atom_free_index rt' <> 0
}.

Lemma calm_refl rt : calm rt rt.
Proof. split; [intros j q s H _; by exists s | done | done]. Qed.

Lemma calm_trans rt1 rt2 rt3 : calm rt1 rt2 -> calm rt2 rt3 -> calm rt1 rt3.
Proof.
  intros [A1 H1 F1] [A2 H2 F2]. split; [| congruence | auto].
  intros j q s' Hat Hn. destruct (A2 j q s' Hat Hn) as (s2 & Hat2 & E1 & E2).
  destruct (A1 j q s2 Hat2) as (s1 & Hat1 & ? & ?); [unfold is_symbol in *; congruence |].
  exists s1. split_and!; [done | congruence | congruence].
Qed.

Lemma calm_matches rt rt' ty str j : calm rt rt' -> ty <> JS_ATOM_TYPE_SYMBOL -> matches rt' ty str j -> matches rt ty str j.
Proof.
  intros C Hty (p & s & Hat & Et & E). destruct (c_atoms _ _ C j p s Hat) as (t & Hat' & Eb & Et').
  { unfold is_symbol. congruence. }
  exists p, t. split_and!; [done | congruence | congruence].
Qed.

(** Without free elements every element is an atom. *)
Lemma no_free_count rt : wf rt -> atom_free_index rt = 0 -> atom_count rt = atom_size rt.
Proof.
  intros W E. destruct (w_free _ W) as (fl & Hl & Hall). rewrite E in Hl.
  assert (fl = []) as ->. { destruct fl as [| x fl]; [done |]. destruct Hl as (<- & ? & _). done. }
  rewrite (w_count _ W). unfold atom_size, zlen.
  assert (forall e, e ∈ atom_array rt -> atom_is_free e = false) as H.
  { intros e He. destruct e as [p | k]; [done |]. apply list_elem_of_lookup in He as [i Hi].
    assert (znth (atom_array rt) (Z.of_nat i) = Some (AFree k)) as Hz.
    { unfold znth. rewrite (proj2 (Z.leb_le _ _)) by lia. by rewrite Nat2Z.id. }
    apply Hall in Hz. by apply not_elem_of_nil in Hz. }
  revert H. generalize (atom_array rt). intros l. induction l as [| e l IH]; intros H; [done |].
  cbn [countb length]. rewrite (H e) by (by left). rewrite IH; [cbn; lia |]. intros x Hx. apply H. by right.
Qed.

Lemma free_index_room rt : wf rt -> atom_count rt < atom_size rt -> atom_free_index rt <> 0.
Proof. intros W H E. pose proof (no_free_count rt W E). lia. Qed.

Lemma countb_ext_in {A} (P Q : A -> bool) l : (forall x, x ∈ l -> P x = Q x) -> countb P l = countb Q l.
Proof.
  intros H. induction l as [| x l IH]; cbn; [done |]. rewrite (H x) by (by left). rewrite IH; [done |].
  intros y Hy. apply H. by right.
Qed.

Lemma countb_perm {A} (P : A -> bool) l k : l ≡ₚ k -> countb P l = countb P k.
Proof. induction 1; cbn; lia. Qed.

Lemma kept_set_ref rt p s n : strings rt !! p = Some s -> kept rt (set_struct p (set_ref_count n s) rt) p.
Proof.
  intros Hs t Ht. assert (t = s) as -> by congruence. exists (set_ref_count n s). cbn. rewrite lookup_insert_eq.
  split_and!; done.
Qed.

Section steps.
Variable JS_ATOM_END : Z.
Hypothesis end_range : 0 < JS_ATOM_END <= 2 ^ 30.
Variable names : list (list Z * Z).
Hypothesis names_range : zlen names < JS_ATOM_END.
Abbreviation is_const := (__JS_AtomIsConst JS_ATOM_END).
Abbreviation refers := (refers JS_ATOM_END).
Abbreviation refs := (refs JS_ATOM_END).
Abbreviation base_refs := (base_refs JS_ATOM_END).
Abbreviation inv := (inv JS_ATOM_END names).

(** ** References that change hands *)
Lemma inv_holds_change n rt l l' : inv n rt l -> (forall q, countb (refers rt q) l' = countb (refers rt q) l) ->
  (forall h, h ∈ l' -> hold_ok rt h) -> inv n rt l'.
Proof.
  intros [W R H N B S] Hc Hh. split; try done. intros p s Hs. destruct (R p s Hs) as [E Hpos].
  split; [| done]. rewrite E. unfold AtomRefs.refs. by rewrite Hc.
Qed.

Lemma inv_perm n rt l l' : l ≡ₚ l' -> inv n rt l -> inv n rt l'.
Proof.
  intros P I. apply (inv_holds_change n rt l); [done | intros q; symmetry; by apply countb_perm |].
  intros h Hh. apply (i_holds _ _ _ _ _ I). by rewrite P.
Qed.

Lemma inv_swap n rt h h' l : inv n rt (h :: l) -> (forall q, refers rt q h' = refers rt q h) -> hold_ok rt h' ->
  inv n rt (h' :: l).
Proof.
  intros I E H. apply (inv_holds_change n rt (h :: l)); [done | intros q; cbn; by rewrite E |].
  intros x Hx. apply elem_of_cons in Hx as [-> | Hx]; [done |]. apply (i_holds _ _ _ _ _ I). by right.
Qed.

Lemma inv_uncounted n rt h l : (forall q, refers rt q h = false) -> hold_ok rt h -> inv n rt l -> inv n rt (h :: l).
Proof.
  intros E H I. apply (inv_holds_change n rt l); [done | intros q; cbn; by rewrite E |].
  intros x Hx. apply elem_of_cons in Hx as [-> | Hx]; [done |]. by apply (i_holds _ _ _ _ _ I).
Qed.

Lemma inv_forget n rt h l : (forall q, refers rt q h = false) -> inv n rt (h :: l) -> inv n rt l.
Proof.
  intros E I. apply (inv_holds_change n rt (h :: l)); [done | intros q; cbn; by rewrite E |].
  intros x Hx. apply (i_holds _ _ _ _ _ I). by right.
Qed.

Lemma inv_weaken n n' rt l : n <= n' -> inv n rt l -> inv n' rt l.
Proof. intros Hn []. split; try done. lia. Qed.

(** [h] is a counted reference to [p]. *)
Definition ref_to (rt : JSRuntime) (h : hold) (p : Z) : Prop := forall q, refers rt q h = (q =? p).

Lemma ref_to_ptr rt p m : ref_to rt (HPtr p m) p.
Proof. intros q. cbn. apply Z.eqb_sym. Qed.

Lemma ref_to_atom rt i p m : znth (atom_array rt) i = Some (APtr p) -> is_const i = false -> ref_to rt (HAtom i m) p.
Proof.
  intros H Hc q. cbn. rewrite Hc. cbn. rewrite H. destruct (Z.eqb_spec q p) as [-> | D].
  - by apply bool_decide_eq_true_2.
  - apply bool_decide_eq_false_2. congruence.
Qed.

Lemma const_uncounted rt i m : is_const i = true -> forall q, refers rt q (HAtom i m) = false.
Proof. intros H q. cbn. by rewrite H. Qed.

Lemma hold_refs_cons rt h p l : ref_to rt h p -> refs rt (h :: l) p = 1 + refs rt l p.
Proof. intros H. unfold AtomRefs.refs. cbn [countb]. rewrite H, Z.eqb_refl. lia. Qed.

Lemma countb_cons_ne rt h p q l : ref_to rt h p -> q <> p -> countb (refers rt q) (h :: l) = countb (refers rt q) l.
Proof. intros H D. cbn. rewrite H, (proj2 (Z.eqb_neq _ _) D). lia. Qed.

(** ** Reference counts *)
Lemma inv_ref n rt l l' p s c : inv n rt l -> strings rt !! p = Some s -> 0 < c -> c = refs rt l' p ->
  (forall q, q <> p -> countb (refers rt q) l' = countb (refers rt q) l) -> (forall h, h ∈ l' -> hold_ok rt h) ->
  inv n (set_struct p (set_ref_count c s) rt) l'.
Proof.
  intros I Hs Hc Ec Hq Hh. pose proof (i_wf _ _ _ _ _ I) as W. destruct (wf_set_ref p s c rt W Hs) as [W' F].
  eapply (inv_change JS_ATOM_END names names_range n n rt _ l l' p); try done.
  - apply (i_bound _ _ _ _ _ I).
  - apply (i_size _ _ _ _ _ I).
  - intros s'. cbn. rewrite lookup_insert_eq. intros [= <-]. cbn. split; [| done]. rewrite Ec. apply refs_arr. done.
  - intros h Hin. apply (hold_frame rt _ p h W F); [intros _; by apply kept_set_ref | by apply Hh].
  - intros _. by apply kept_set_ref.
Qed.

Lemma calm_set_ref rt p s c : strings rt !! p = Some s -> calm rt (set_struct p (set_ref_count c s) rt).
Proof.
  intros Hs. split; [| done | done]. intros j q t [Hj Ht] _. cbn in Hj, Ht. destruct (decide (p = q)) as [<- | D].
  - rewrite lookup_insert_eq in Ht. injection Ht as <-. by exists s.
  - rewrite lookup_insert_ne in Ht by done. by exists t.
Qed.

Lemma dup_inv n rt l h p s : inv n rt l -> strings rt !! p = Some s -> ref_to rt h p -> hold_ok rt h ->
  exists rt', js_dup_struct p rt = Ret rt' /\ inv n rt' (h :: l) /\ atom_array rt' = atom_array rt /\ calm rt rt'.
Proof.
  intros I Hs Hr Hh. unfold js_dup_struct. rewrite (get_struct_Ret _ _ _ Hs). cbn [mbind res_bind].
  eexists. split; [reflexivity |]. destruct (i_refs _ _ _ _ _ I p s Hs) as [E Hpos]. split_and!; [| done | by apply calm_set_ref].
  apply (inv_ref n rt l); try done; [lia | rewrite (hold_refs_cons _ _ _ _ Hr); lia | |].
  - intros q D. by apply (countb_cons_ne _ _ p).
  - intros x Hx. apply elem_of_cons in Hx as [-> | Hx]; [done |]. by apply (i_holds _ _ _ _ _ I).
Qed.

(** [js_free_symbol] and [__JS_FreeAtom] are [js_free_string] on an atom. *)
Lemma free_symbol_string p s rt : strings rt !! p = Some s -> atom_type s <> 0 -> js_free_symbol p rt = js_free_string p rt.
Proof.
  intros Hs Ht. unfold js_free_symbol, js_free_string. rewrite (get_struct_Ret _ _ _ Hs). cbn [mbind res_bind].
  by rewrite (proj2 (Z.eqb_neq _ _) Ht).
Qed.

Lemma free_atom_string i p s rt : at_index rt i p s -> atom_type s <> 0 -> __JS_FreeAtom i rt = js_free_string p rt.
Proof.
  intros [Hi Hs] Ht. unfold __JS_FreeAtom, js_free_string. rewrite (atom_ptr_Ret _ _ _ Hi). cbn [mbind res_bind].
  rewrite (get_struct_Ret _ _ _ Hs). cbn [mbind res_bind]. rewrite (proj2 (Z.eqb_neq _ _) Ht). cbn [negb].
  destruct (Z.ltb_spec 0 (ref_count s - 1)), (Z.leb_spec (ref_count s - 1) 0); try lia; done.
Qed.

(** The structure goes with its last reference. *)
Lemma gone_inv n rt rt' l h p : inv n rt (h :: l) -> ref_to rt h p -> wf rt' ->
  frame (fun q => q = p) rt rt' -> strings rt' !! p = None -> atom_count rt' <= n -> atom_size rt' = atom_size rt ->
  refs rt l p = 0 -> inv n rt' l.
Proof.
  intros I Hr W' F Hp Hc Hz H0. pose proof (i_wf _ _ _ _ _ I) as W. pose proof (i_size _ _ _ _ _ I) as Hsz.
  eapply (inv_change JS_ATOM_END names names_range n n rt rt' (h :: l) l p); try done; try lia.
  - intros q D. rewrite (countb_cons_ne _ _ _ _ _ Hr D). apply countb_refers. intros i. symmetry. by apply (f_arr _ _ _ F i q).
  - by rewrite Hp.
  - intros h' Hh. apply (hold_frame rt _ p h' W F); [| apply (i_holds _ _ _ _ _ I); by right].
    intros Hpt. exfalso. revert Hpt. by eapply not_referred.
  - intros Hb. unfold AtomRefs.refs in H0. pose proof (countb_nonneg (refers rt p) l).
    destruct (base_refs_cases JS_ATOM_END rt p); lia.
Qed.

(** An atom that goes. *)
Lemma free_struct_inv n rt l h p s c : inv n rt (h :: l) -> ref_to rt h p -> strings rt !! p = Some s ->
  atom_type s <> 0 -> refs rt l p = 0 ->
  exists rt', JS_FreeAtomStruct p (set_struct p (set_ref_count c s) rt) = Ret rt' /\ inv n rt' l /\
    frame (fun q => q = p) rt rt' /\ calm rt rt' /\ atom_size rt' = atom_size rt.
Proof.
  intros I Hr Hs Ht H0. pose proof (i_wf _ _ _ _ _ I) as W. destruct (w_back _ W p s Hs Ht) as [i Hi].
  assert (JS_ATOM_END <= i) as Hend.
  { destruct (Z.le_gt_cases JS_ATOM_END i) as [| Hlt]; [done |]. pose proof (znth_lt_Some _ _ _ Hi).
    unfold AtomRefs.refs in H0. rewrite (base_refs_true JS_ATOM_END rt p i) in H0 by (done || lia).
    pose proof (countb_nonneg (refers rt p) l). lia. }
  set (rt1 := set_struct p (set_ref_count c s) rt). destruct (wf_set_ref p s c rt W Hs) as [W1 F1]. fold rt1 in W1, F1.
  assert (at_index rt1 i p (set_ref_count c s)) as Hat by (split; [done | apply lookup_insert_eq]).
  destruct (JS_FreeAtomStruct_spec p i _ rt1 W1 Hat ltac:(lia)) as (rt' & E & W' & F' & Hnone & Hno & Hz & Hcount & Hnext & Hh).
  assert (frame (fun q => q = p) rt rt') as F by (eapply frame_trans; [exact F1 | exact F' | intros ? ->; reflexivity | intros ? ->; reflexivity]).
  exists rt'. split_and!; [done | | done | | done].
  - eapply (gone_inv n rt rt' l h p); try done. rewrite Hcount. cbn. pose proof (i_bound _ _ _ _ _ I). lia.
  - split; [| done |].
    + intros j q t [Hj Ht'] _. assert (q <> p) as D by (intros ->; by destruct (Hno j)).
      destruct (f_back _ _ _ F q t D Ht') as [u Hu]. destruct (f_str _ _ _ F q u D Hu) as (t' & Ht1 & _ & Eb & Et & _).
      exists u. split_and!; [split; [by apply (f_arr _ _ _ F j q D) | done] | congruence | congruence].
    + intros _. apply free_index_room; [done |]. rewrite Hcount, Hz.
      pose proof (countb_le (fun e => negb (atom_is_free e)) (atom_array rt1)) as Hle. rewrite <- (w_count _ W1) in Hle.
      unfold atom_size, zlen. lia.
Qed.

(** A string that goes. *)
Lemma free_plain_inv n rt l h p s c : inv n rt (h :: l) -> ref_to rt h p -> strings rt !! p = Some s ->
  atom_type s = 0 -> refs rt l p = 0 ->
  inv n (js_free_rt p (set_struct p (set_ref_count c s) rt)) l /\
    frame (fun q => q = p) rt (js_free_rt p (set_struct p (set_ref_count c s) rt)) /\
    calm rt (js_free_rt p (set_struct p (set_ref_count c s) rt)).
Proof.
  intros I Hr Hs Ht H0. pose proof (i_wf _ _ _ _ _ I) as W. destruct (wf_set_ref p s c rt W Hs) as [W1 F1].
  destruct (js_free_rt_spec p (set_ref_count c s) _ W1) as [W2 F2]; [apply lookup_insert_eq | done |].
  assert (frame (fun q => q = p) rt (js_free_rt p (set_struct p (set_ref_count c s) rt))) as F
    by (eapply frame_trans; [exact F1 | exact F2 | done | done]).
  split_and!; [| done |].
  - eapply (gone_inv n rt _ l h p); try done; [apply lookup_delete_eq | apply (i_bound _ _ _ _ _ I)].
  - split; [| done | done]. intros j q t [Hj Hq] _. cbn in Hj, Hq. apply lookup_delete_Some in Hq as [D Hq].
    rewrite lookup_insert_ne in Hq by done. by exists t.
Qed.

(** [js_free_string] gives up one reference. *)
Lemma release_inv n rt l h p s : inv n rt (h :: l) -> ref_to rt h p -> strings rt !! p = Some s ->
  exists rt', js_free_string p rt = Ret rt' /\ inv n rt' l /\ frame (fun q => q = p) rt rt' /\ calm rt rt' /\
    atom_size rt' = atom_size rt.
Proof.
  intros I Hr Hs. destruct (i_refs _ _ _ _ _ I p s Hs) as [E Hpos]. rewrite (hold_refs_cons _ _ _ _ Hr) in E.
  pose proof (refs_nonneg JS_ATOM_END rt l p) as Hnn. unfold js_free_string. rewrite (get_struct_Ret _ _ _ Hs).
  cbn [mbind res_bind]. destruct (Z.leb_spec (ref_count s - 1) 0) as [Hle | Hgt].
  - assert (refs rt l p = 0) as H0 by lia. destruct (Z.eqb_spec (atom_type s) 0) as [Ht | Ht]; cbn [negb].
    + eexists. split; [reflexivity |]. destruct (free_plain_inv n rt l h p s (ref_count s - 1) I Hr Hs Ht H0) as (? & ? & ?). done.
    + by eapply free_struct_inv.
  - eexists. split; [reflexivity |]. pose proof (wf_set_ref p s (ref_count s - 1) rt (i_wf _ _ _ _ _ I) Hs) as [_ F].
    split_and!; [| done | by apply calm_set_ref | done].
    apply (inv_ref n rt (h :: l)); try done; [lia | |].
    + intros q D. symmetry. by apply (countb_cons_ne _ _ p).
    + intros x Hx. apply (i_holds _ _ _ _ _ I). by right.
Qed.
End steps.
