(* ===== verification/AtomNew.v ===== *)
(** * quickjs.c: the atom of a string, new symbols

    A new string is a new reference; the growth of the array changes none; a
    string that becomes an atom passes its reference on to the atom.
    [__JS_NewAtom] gives up the reference to the string and returns a reference
    to the atom that stands for it, or 0. *)
From Stdlib Require Import ZArith Lia Bool.
From stdpp Require Import base numbers list gmap.
From S2P Require Import Prelude Cutils Chains JSValue AtomState AtomFacts AtomGrow AtomRefs AtomSteps.

(** What a reference to the new atom stands for. *)
Definition atom_meaning (ty p : Z) (l : list Z) : meaning :=
  if ty =? JS_ATOM_TYPE_STRING then MText l
  else if ty =? JS_ATOM_TYPE_GLOBAL_SYMBOL then MGlobal l else MSymbol p l.

Lemma atom_meaning_ok rt i p s ty l : at_index rt i p s -> atom_type s = ty -> chars (body s) = l -> 1 <= ty <= 3 ->
  (ty = JS_ATOM_TYPE_STRING -> not_tagged l) -> hold_ok rt (HAtom i (atom_meaning ty p l)).
Proof.
  intros Hat Et E Hty Hn. unfold atom_meaning. repeat case_match; cbn [hold_ok].
  - right. rewrite Z.eqb_eq in *. split; [auto |]. exists p, s. by rewrite Et.
  - rewrite Z.eqb_eq in *. exists p, s. by rewrite Et.
  - rewrite Z.eqb_neq in *. exists s. split_and!; [done | | done]. unfold is_symbol, JS_ATOM_TYPE_SYMBOL,
      JS_ATOM_TYPE_STRING, JS_ATOM_TYPE_GLOBAL_SYMBOL in *. lia.
Qed.

Section make.
Variable JS_ATOM_END : Z.
Hypothesis end_range : 0 < JS_ATOM_END <= 2 ^ 30.
Variable names : list (list Z * Z).
Hypothesis names_range : zlen names < JS_ATOM_END.
Abbreviation is_const := (__JS_AtomIsConst JS_ATOM_END).
Abbreviation refers := (refers JS_ATOM_END).
Abbreviation refs := (refs JS_ATOM_END).
Abbreviation base_refs := (base_refs JS_ATOM_END).
Abbreviation inv := (inv JS_ATOM_END names).
Abbreviation inv_change := (inv_change JS_ATOM_END names names_range).

(** Nothing refers to an address that is not in use. *)
Lemma fresh_points n rt l p h : inv n rt l -> strings rt !! p = None -> h ∈ l -> ~ points rt p h.
Proof.
  intros I Hn Hh Hp. pose proof (i_wf _ _ _ _ _ I) as W. destruct h as [q m | a m]; cbn in Hp.
  - subst q. pose proof (i_holds _ _ _ _ _ I _ Hh) as H. destruct m; cbn in H.
    + destruct H as (s & Hs & _). congruence.
    + destruct H as (i & s & [_ Hs] & _). congruence.
    + destruct H as (_ & i & s & [_ Hs] & _). congruence.
  - destruct (w_ptr _ W a p Hp) as (s & Hs & _). congruence.
Qed.

Lemma refers_points rt p h : refers rt p h = true -> points rt p h.
Proof.
  destruct h as [q m | a m]; cbn; [by intros ->%Z.eqb_eq |]. intros [_ H]%andb_true_iff. by apply bool_decide_eq_true in H.
Qed.

Lemma fresh_base rt p : wf rt -> strings rt !! p = None -> base_refs rt p = 0.
Proof.
  intros W Hn. destruct (base_refs_cases JS_ATOM_END rt p) as [| E]; [done |].
  destruct (base_refs_inv JS_ATOM_END rt p) as (i & _ & Hi); [lia |]. destruct (w_ptr _ W i p Hi) as (s & Hs & _). congruence.
Qed.

Lemma fresh_count n rt l p : inv n rt l -> strings rt !! p = None -> countb (refers rt p) l = 0.
Proof.
  intros I Hn. apply countb_zero. intros h Hh. destruct (refers rt p h) eqn:E; [| done].
  exfalso. by eapply (fresh_points n rt l p h); [.. | apply refers_points].
Qed.

(** ** A new string *)
Lemma malloc_inv n rt l s : inv n rt l -> atom_type s = 0 -> ref_count s = 1 -> exists o rt',
  js_malloc_struct s rt = (o, rt') /\ atom_array rt' = atom_array rt /\ calm rt rt' /\
  match o with
  | Some p => strings rt !! p = None /\ strings rt' = <[p := s]> (strings rt) /\
      inv n rt' (HPtr p (MText (chars (body s))) :: l)
  | None => strings rt' = strings rt /\ inv n rt' l
  end.
Proof.
  intros I Ht Hrc. pose proof (i_wf _ _ _ _ _ I) as W.
  destruct (js_malloc_struct_spec s rt W Ht) as (o & rt' & E & W' & Ea & Eh & Ef & Ec & Ho).
  exists o, rt'. split_and!; [done | done | |].
  { split; [| by unfold atom_hash_size; rewrite Eh | by rewrite Ef].
    intros j q t [Hj Hq] _. rewrite Ea in Hj. destruct (w_ptr _ W j q Hj) as (u & Hu & _). exists u.
    assert (u = t) as -> by (destruct o as [p |]; [destruct Ho as (Hn & Es & _); rewrite Es in Hq;
      rewrite lookup_insert_ne in Hq by congruence | rewrite Ho in Hq]; congruence).
    done. }
  pose proof (i_bound _ _ _ _ _ I) as Hb. pose proof (i_size _ _ _ _ _ I) as Hz. destruct o as [p |].
  - destruct Ho as (Hn & Es & _). split_and!; [done | done |].
    assert (frame (fun q => q = p) rt rt') as F.
    { split; rewrite ?Es, ?Ea; [| | done].
      - intros q t Hq Hs. exists t. by rewrite lookup_insert_ne by congruence.
      - intros q t Hq Hs. rewrite lookup_insert_ne in Hs by congruence. eauto. }
    eapply (inv_change n n rt rt' l _ p); try done; [by rewrite Ec | by unfold atom_size; rewrite Ea | ..].
    + intros q D. rewrite (countb_cons_ne _ _ _ p) by (apply ref_to_ptr || done). apply countb_refers. by rewrite Ea.
    + intros s'. rewrite Es, lookup_insert_eq. intros [= <-]. rewrite Hrc. split; [| lia].
      rewrite (hold_refs_cons _ _ _ p) by apply ref_to_ptr. rewrite (refs_arr JS_ATOM_END rt rt') by (by rewrite Ea).
      unfold AtomRefs.refs. rewrite (fresh_base rt p W Hn), (fresh_count n rt l p I Hn). done.
    + intros h Hh. apply elem_of_cons in Hh as [-> | Hh].
      * exists s. by rewrite Es, lookup_insert_eq.
      * apply (hold_frame rt rt' p h W F); [| by apply (i_holds _ _ _ _ _ I)]. intros Hp.
        destruct (fresh_points n rt l p h I Hn Hh Hp).
    + by rewrite (fresh_base rt p W Hn).
  - split; [done |]. assert (frame (fun q => q = next_addr rt) rt rt') as F by (by apply frame_eq).
    assert (kept rt rt' (next_addr rt)) as K.
    { intros t Hs. exists t. rewrite Ho, Ea. done. }
    eapply (inv_change n n rt rt' l l (next_addr rt)); try done; [by rewrite Ec | by unfold atom_size; rewrite Ea | ..].
    + intros q _. apply countb_refers. by rewrite Ea.
    + intros s'. rewrite Ho. intros Hs. rewrite (refs_arr JS_ATOM_END rt rt') by (by rewrite Ea). by apply (i_refs _ _ _ _ _ I).
    + intros h Hh. apply (hold_frame rt rt' (next_addr rt) h W F); [done | by apply (i_holds _ _ _ _ _ I)].
Qed.

Lemma alloc_string_inv n rt l str : inv n rt l -> exists o rt',
  js_alloc_string_rt str rt = (o, rt') /\ calm rt rt' /\
  match o with
  | Some p => inv n rt' (HPtr p (MText (chars str)) :: l)
  | None => inv n rt' l
  end.
Proof.
  intros I. destruct (malloc_inv n rt l (mkAtom 1 str 0 0 0) I eq_refl eq_refl) as (o & rt' & E & _ & C & Ho).
  exists o, rt'. split_and!; [done | done |]. destruct o; by apply Ho.
Qed.

(** ** The array grows *)

(** With the null atom, if the array was empty. *)
Lemma null_inv n rt rt' l : inv n rt l -> wf rt' -> frame (fun q => q = next_addr rt) rt rt' -> atom_count rt' <= n + 1 ->
  atom_size rt' <= JS_ATOM_MAX -> strings rt' = <[next_addr rt := null_struct]> (strings rt) ->
  at_index rt' 0 (next_addr rt) null_struct -> strings rt !! next_addr rt = None -> inv (n + 1) rt' l.
Proof.
  intros I W' F Hc Hz Es [H0 _] Hn. pose proof (i_wf _ _ _ _ _ I) as W.
  assert (forall h, h ∈ l -> refers rt' (next_addr rt) h = false) as Hnone.
  { intros h Hh. destruct (refers rt' (next_addr rt) h) eqn:E; [| done]. destruct h as [q m | a m].
    - exfalso. apply (fresh_points n rt l _ _ I Hn Hh). by apply refers_points in E.
    - pose proof (refers_points _ _ _ E) as Hp. cbn in Hp, E. rewrite (w_inj _ W' a 0 _ Hp H0) in E.
      rewrite is_const_small in E by lia. by rewrite (proj2 (Z.ltb_lt _ _)) in E by lia. }
  eapply (inv_change n (n + 1) rt rt' l l (next_addr rt)); try done.
  - intros q D. apply countb_refers. intros i. symmetry. by apply (f_arr _ _ _ F i q).
  - intros s'. rewrite Es, lookup_insert_eq. intros [= <-]. split; [| done]. unfold AtomRefs.refs.
    rewrite (base_refs_true JS_ATOM_END rt' _ 0), (countb_zero _ l Hnone) by (done || lia). done.
  - intros h Hh. apply (hold_frame rt rt' (next_addr rt) h W F); [| by apply (i_holds _ _ _ _ _ I)].
    intros Hp. destruct (fresh_points n rt l _ h I Hn Hh Hp).
  - by rewrite (fresh_base rt _ W Hn).
Qed.

Lemma grow_inv n rt l : inv n rt l -> atom_free_index rt = 0 -> n * 3 <= INT32_MAX -> exists ok rt',
  grow_array rt = Ret (ok, rt') /\ inv (n + 1) rt' l /\ calm rt rt' /\ frame (fun q => q = next_addr rt) rt rt' /\
  (ok = true -> atom_free_index rt' <> 0).
Proof.
  intros I Hf Hn. pose proof (i_wf _ _ _ _ _ I) as W. pose proof (i_bound _ _ _ _ _ I) as Hb.
  pose proof (i_size _ _ _ _ _ I) as Hz. pose proof (no_free_count rt W Hf) as Hc.
  destruct (grow_array_spec rt W Hf ltac:(lia)) as (ok & rt' & E & W' & F & Eh & Hok & Hz' & Hc' & Hs).
  assert (strings rt !! next_addr rt = None) as Hnone.
  { destruct (strings rt !! next_addr rt) eqn:Eq; [| done]. apply (w_addr _ W) in Eq. lia. }
  exists ok, rt'. split_and!; [done | | | done | done].
  - destruct Hs as [Es | [Es Hat]]; [| eapply (null_inv n rt rt'); try done; [lia | by apply Hz']].
    assert (kept rt rt' (next_addr rt)) as K by (intros t Ht; congruence).
    eapply (inv_change n (n + 1) rt rt' l l (next_addr rt)); try done; [lia | by apply Hz' | ..].
    + intros q D. apply countb_refers. intros i. symmetry. by apply (f_arr _ _ _ F i q).
    + intros s'. rewrite Es. congruence.
    + intros h Hh. apply (hold_frame rt rt' _ h W F); [done | by apply (i_holds _ _ _ _ _ I)].
  - split; [| unfold atom_hash_size; by rewrite Eh | done]. intros j q s' [Hj Hq] Hns.
    assert (q <> next_addr rt) as D.
    { intros ->. destruct Hs as [Es | [Es _]]; rewrite Es in Hq; [congruence |].
      rewrite lookup_insert_eq in Hq. by injection Hq as <-. }
    destruct (f_back _ _ _ F q s' D Hq) as [u Hu]. destruct (f_str _ _ _ F q u D Hu) as (t & Ht & _ & Eb & Et & _).
    exists u. split_and!; [split; [by apply (f_arr _ _ _ F j q D) | done] | congruence | congruence].
Qed.

(** ** A string becomes an atom *)
Lemma plain_base rt p s : wf rt -> strings rt !! p = Some s -> atom_type s = 0 -> forall i, znth (atom_array rt) i <> Some (APtr p).
Proof. intros W Hs Ht i Hi. destruct (w_ptr _ W i p Hi) as (t & Ht' & ?). assert (t = s) as -> by congruence. lia. Qed.

(** The reference to the string is now one to the atom. *)
Lemma made_inv n rt rt' l p i s m ty h : inv n rt (HPtr p m :: l) -> strings rt !! p = Some s -> atom_type s = 0 ->
  1 <= ty <= 3 -> (ty = JS_ATOM_TYPE_STRING -> not_tagged (chars (body s))) ->
  atom_made p i s ty h rt rt' -> atom_size rt' = atom_size rt -> atom_count rt' = atom_count rt + 1 ->
  inv (n + 1) rt' (HAtom i (atom_meaning ty p (chars (body s))) :: l).
Proof.
  intros I Hs Ht Hty Hnt (W' & F & Hi0 & Hat & s' & Hs' & Erc & Eb & Ety & _) Hz Hc.
  pose proof (i_wf _ _ _ _ _ I) as W. pose proof (plain_base rt p s W Hs Ht) as Hnp.
  pose proof (i_size _ _ _ _ _ I) as Hsz. pose proof (i_bound _ _ _ _ _ I) as Hbd.
  assert (znth (atom_array rt') i = Some (APtr p)) as Hip by (by apply Hat).
  assert (base_refs rt p = 0) as Hb0.
  { destruct (base_refs_cases JS_ATOM_END rt p) as [| Eb1]; [done |].
    destruct (base_refs_inv JS_ATOM_END rt p) as (j & _ & Hj); [lia | by destruct (Hnp j)]. }
  pose proof (index_const JS_ATOM_END rt' i _ Hip ltac:(lia)) as Hic.
  set (hi := HAtom i _). assert (refers rt' p hi = negb (i <? JS_ATOM_END)) as Hrp.
  { cbn. rewrite Hic, (bool_decide_eq_true_2 _ Hip). by rewrite andb_true_r. }
  assert (forall q, q <> p -> refers rt' q hi = false) as Hrq.
  { intros q D. cbn. rewrite Hip, (bool_decide_eq_false_2 _), andb_false_r; [done | congruence]. }
  assert (forall x, x ∈ l -> refers rt' p x = refers rt p x) as Hsame.
  { intros x Hx. destruct x as [q m' | a m']; cbn; [done |]. f_equal. apply bool_decide_ext.
    split; intros H; [| by destruct (Hnp a)]. apply Hat in H. subst a. exfalso.
    pose proof (i_holds _ _ _ _ _ I (HAtom i m') ltac:(by right)) as Hok.
    assert (exists q t, at_index rt i q t) as (q & t & Hq & Hqs).
    { destruct m'; cbn in Hok.
      - destruct Hok as [(k & Hk & _ & ->) | (_ & q & t & ? & _)]; [| by exists q, t].
        apply znth_lt_Some in Hip. unfold atom_size in *. exfalso. revert Hip Hsz Hz. unfold __JS_AtomFromUInt32.
        unfold JS_ATOM_MAX_INT, JS_ATOM_TAG_INT in *. change (Z.shiftl 1 31) with (1 * 2 ^ 31) in *.
        rewrite lor_low_high by lia. change JS_ATOM_MAX with (2 ^ 30 - 1). lia.
      - destruct Hok as (q & t & ? & _). by exists q, t.
      - destruct Hok as (t & ? & _). by exists p0, t. }
    assert (q <> p) as D by (intros ->; by destruct (Hnp i)).
    apply (f_arr _ _ _ F i q D) in Hq. congruence. }
  eapply (inv_change n (n + 1) rt rt' _ _ p I W' F); [lia | lia | ..].
  - intros q D. rewrite (countb_cons_ne _ rt (HPtr p m) p) by (apply ref_to_ptr || done). cbn [countb]. rewrite (Hrq q D).
    rewrite (countb_refers JS_ATOM_END rt rt'); [done |]. intros j. symmetry. by apply (f_arr _ _ _ F j q D).
  - intros t Ht'. assert (t = s') as -> by congruence. destruct (i_refs _ _ _ _ _ I p s Hs) as [E Hpos].
    rewrite Erc. split; [| done]. rewrite E, (hold_refs_cons _ _ _ p) by apply ref_to_ptr.
    unfold AtomRefs.refs. cbn [countb]. rewrite Hb0, Hrp, (countb_ext_in _ _ _ Hsame).
    destruct (Z.ltb_spec i JS_ATOM_END) as [Hlt | Hge]; cbn [negb].
    + pose proof (znth_lt_Some _ _ _ Hip). rewrite (base_refs_true JS_ATOM_END rt' p i) by (done || lia). lia.
    + destruct (base_refs_cases JS_ATOM_END rt' p) as [-> | Eb1]; [lia |].
      destruct (base_refs_inv JS_ATOM_END rt' p) as (j & Hj & Hjp); [lia |]. apply Hat in Hjp. lia.
  - intros x Hx. apply elem_of_cons in Hx as [-> | Hx].
    + apply (atom_meaning_ok rt' i p s'); [done | done | congruence | done | done].
    + apply (hold_frame rt rt' p x W F); [| apply (i_holds _ _ _ _ _ I); by right]. intros _ t Ht'.
      assert (t = s) as -> by congruence. by exists s'.
  - by rewrite Hb0.
Qed.
End make.

(** * The atom of a string *)

(** The reference to the string that is given up. *)
Definition str_holds (str : option Z) (txt : list Z) : list hold :=
  match str with Some p => [HPtr p (MText txt)] | None => [] end.

Lemma hash_string_chars s t ty : chars s = chars t -> hash_string s ty = hash_string t ty.
Proof. intros E. unfold hash_string. rewrite E. by destruct (is_wide_char s), (is_wide_char t). Qed.

Lemma matches_chars rt ty s t j : chars s = chars t -> matches rt ty s j -> matches rt ty t j.
Proof. intros E (p & x & Hat & Et & Ec). exists p, x. by rewrite <- E. Qed.

Section make.
Variable JS_ATOM_END : Z.
Hypothesis end_range : 0 < JS_ATOM_END <= 2 ^ 30.
Variable names : list (list Z * Z).
Hypothesis names_range : zlen names < JS_ATOM_END.
Abbreviation is_const := (__JS_AtomIsConst JS_ATOM_END).
Abbreviation refers := (refers JS_ATOM_END).
Abbreviation inv := (inv JS_ATOM_END names).
Abbreviation ref_to := (ref_to JS_ATOM_END).
Abbreviation release_inv := (release_inv JS_ATOM_END end_range names names_range).

(** ** Strings *)
Lemma string_hold n rt l p txt : inv n rt (HPtr p (MText txt) :: l) -> exists s, strings rt !! p = Some s /\ chars (body s) = txt.
Proof. intros I. exact (i_holds _ _ _ _ _ I (HPtr p (MText txt)) ltac:(by left)). Qed.

Lemma free_string_inv n rt l p txt : inv n rt (HPtr p (MText txt) :: l) -> exists rt',
  js_free_string p rt = Ret rt' /\ inv n rt' l /\ frame (fun q => q = p) rt rt' /\ calm rt rt'.
Proof.
  intros I. destruct (string_hold _ _ _ _ _ I) as (s & Hs & _).
  destruct (release_inv n rt l _ p s I (ref_to_ptr _ _ _ _) Hs) as (rt' & ? & ? & ? & ? & _). by exists rt'.
Qed.

Lemma free_opt_inv n rt l str txt : inv n rt (str_holds str txt ++ l) -> exists rt',
  free_opt_string str rt = Ret rt' /\ inv n rt' l.
Proof.
  intros I. destruct str as [p |]; cbn [free_opt_string str_holds app] in *; [| by exists rt].
  destruct (free_string_inv _ _ _ _ _ I) as (rt' & ? & ? & _). by exists rt'.
Qed.

(** The structure of the new atom. *)
Lemma atom_struct_inv n rt l str txt ty : inv n rt (str_holds str txt ++ l) -> (str = None -> txt = []) ->
  exists o fail rt', atom_struct str ty rt = Ret (o, fail, rt') /\ calm rt rt' /\
  match o with
  | Some q => inv n rt' (HPtr q (MText txt) :: l) /\
      exists s, strings rt' !! q = Some s /\ atom_type s = 0 /\ chars (body s) = txt
  | None => inv n rt' (str_holds str txt ++ l) /\ (fail = false -> str = None)
  end.
Proof.
  intros I Hnil. destruct str as [p |]; cbn [atom_struct str_holds app] in *.
  - destruct (string_hold _ _ _ _ _ I) as (s & Hs & E). rewrite (get_struct_Ret _ _ _ Hs). cbn [mbind res_bind].
    destruct (Z.eqb_spec (atom_type s) 0) as [Et | Et].
    { exists (Some p), false, rt. split_and!; [done | apply calm_refl | done | by exists s]. }
    destruct (malloc_inv JS_ATOM_END names names_range n rt _ (mkAtom 1 (body s) 0 0 0) I eq_refl eq_refl)
      as (o & rt1 & -> & _ & C1 & Ho).
    destruct o as [q |]; [| exists None, true, rt1; split_and!; [done | done | by apply Ho | done]].
    destruct Ho as (Hq & Es & I1). cbn [body] in I1. rewrite E in I1.
    assert (q <> p) as D by congruence.
    apply (inv_perm _ _ _ _ _ (HPtr p (MText txt) :: HPtr q (MText txt) :: l)) in I1; [| constructor].
    destruct (free_string_inv _ _ _ _ _ I1) as (rt2 & -> & I2 & F & C2). cbn [mbind res_bind].
    exists (Some q), false, rt2. split_and!; [done | by eapply calm_trans | done |].
    destruct (f_str _ _ _ F q (mkAtom 1 (body s) 0 0 0) D) as (t & Ht & _ & Eb & Et' & _).
    { rewrite Es. apply lookup_insert_eq. }
    exists t. split_and!; [done | done | by rewrite Eb].
  - destruct (malloc_inv JS_ATOM_END names names_range n rt l (mkAtom 1 (mkString true []) 0 0 0) I eq_refl eq_refl)
      as (o & rt1 & -> & _ & C1 & Ho). rewrite (Hnil eq_refl) in *. exists o, false, rt1.
    split_and!; [done | done |]. destruct o as [q |]; [| by split; [apply Ho |]].
    destruct Ho as (Hq & Es & I1). split; [done |]. eexists. rewrite Es, lookup_insert_eq. done.
Qed.

(** ** New atoms *)
Definition not_predefined (i : Z) : Prop := forall k x, names !! k = Some x -> Z.of_nat k + 1 <> i.

(** The reference that comes back. *)
Definition atom_result (n : Z) (rt : JSRuntime) (l : list hold) (ty : Z) (txt : list Z) (i : Z) : Prop :=
  i = 0 /\ inv n rt l \/
  i <> 0 /\ exists p s, at_index rt i p s /\ atom_type s = ty /\ chars (body s) = txt /\
    inv n rt (HAtom i (atom_meaning ty p txt) :: l).

Lemma link_inv n rt l p txt s ty h h1 : inv n rt (HPtr p (MText txt) :: l) -> strings rt !! p = Some s ->
  atom_type s = 0 -> chars (body s) = txt -> atom_free_index rt <> 0 -> 1 <= ty <= 3 ->
  (ty = JS_ATOM_TYPE_STRING -> not_tagged txt) ->
  (ty <> JS_ATOM_TYPE_SYMBOL -> h = Z.land (hash_string (body s) ty) JS_ATOM_HASH_MASK /\ h1 = hash_index h rt /\
     forall j, ~ matches rt ty (body s) j) ->
  exists i rt', link_atom p h h1 ty rt = Ret (i, rt') /\ atom_result (n + 1) rt' l ty txt i /\ i <> 0 /\ not_predefined i.
Proof.
  intros I Hs Ht E Hf Hty Hnt Hh. pose proof (i_wf _ _ _ _ _ I) as W.
  destruct (link_atom_spec rt p s ty h h1 W Hf Hs Ht Hty Hh) as (i & rt' & El & Hm & Hz & Hc).
  exists i, rt'. pose proof Hm as (W' & F & Hi0 & Hat & s' & Hs' & _ & Eb & Ety & _). split_and!; [done | | done |].
  - right. split; [done |]. exists p, s'. split_and!; [split; [by apply Hat | done] | done | congruence |].
    rewrite <- E. eapply (made_inv JS_ATOM_END end_range names names_range n rt rt'); try done. by rewrite E.
  - intros k x Hk <-. destruct (i_names _ _ _ _ _ I k x Hk) as (q & t & [Hq _] & _).
    assert (q <> p) as D by (intros ->; by destruct (plain_base rt p s W Hs Ht (Z.of_nat k + 1))).
    apply (f_arr _ _ _ F _ q D) in Hq. pose proof (proj2 (Hat (Z.of_nat k + 1)) eq_refl). congruence.
Qed.

Lemma new_atom_inv n rt l str txt ty h h1 : inv n rt (str_holds str txt ++ l) -> n * 3 <= INT32_MAX ->
  (str = None -> txt = []) -> 1 <= ty <= 3 -> (ty = JS_ATOM_TYPE_STRING -> not_tagged txt) ->
  (ty <> JS_ATOM_TYPE_SYMBOL -> exists b, chars b = txt /\ h = Z.land (hash_string b ty) JS_ATOM_HASH_MASK /\
     h1 = hash_index h rt /\ forall j, ~ matches rt ty b j) ->
  exists i rt', new_atom str h h1 ty rt = Ret (i, rt') /\ atom_result (n + 2) rt' l ty txt i /\
    (i <> 0 -> not_predefined i).
Proof.
  intros I Hn Hnil Hty Hnt Hh. unfold new_atom.
  assert (exists ok rt1, (if atom_free_index rt =? 0 then grow_array rt else Ret (true, rt)) = Ret (ok, rt1) /\
    inv (n + 1) rt1 (str_holds str txt ++ l) /\ calm rt rt1 /\ (ok = true -> atom_free_index rt1 <> 0))
    as (ok & rt1 & -> & I1 & C1 & Hok).
  { destruct (Z.eqb_spec (atom_free_index rt) 0) as [E | E].
    - destruct (grow_inv JS_ATOM_END end_range names names_range n rt _ I E Hn) as (ok & rt1 & ? & ? & ? & _ & ?).
      by exists ok, rt1.
    - exists true, rt. split_and!; [done | by eapply (inv_weaken _ _ n); [lia |] | apply calm_refl | done]. }
  cbn [mbind res_bind].
  assert (forall rt2, inv (n + 1) rt2 (str_holds str txt ++ l) -> exists i rt',
    (rt3 ← free_opt_string str rt2; Ret (JS_ATOM_NULL, rt3)) = Ret (i, rt') /\ atom_result (n + 2) rt' l ty txt i /\
    (i <> 0 -> not_predefined i)) as Hfail.
  { intros rt2 I2. destruct (free_opt_inv _ _ _ _ _ I2) as (rt3 & -> & I3). cbn [mbind res_bind]. exists 0, rt3.
    split_and!; [done | | done]. left. split; [done |]. eapply (inv_weaken _ _ (n + 1)); [lia | done]. }
  destruct ok; cbn [negb]; [| by apply Hfail].
  destruct (atom_struct_inv (n + 1) rt1 l str txt ty I1 Hnil) as (o & fail & rt2 & -> & C2 & Ho). cbn [mbind res_bind].
  destruct o as [q |].
  - destruct Ho as (I2 & s & Hs & Ht & E).
    destruct (link_inv (n + 1) rt2 l q txt s ty h h1 I2 Hs Ht E) as (i & rt' & -> & Hr & Hi & Hp); try done.
    + apply (c_free _ _ C2). by apply Hok.
    + intros Hsym. destruct (Hh Hsym) as (b & Eb & -> & -> & Hno).
      rewrite (hash_string_chars (body s) b ty) by congruence. split_and!; [done | |].
      * unfold hash_index. by rewrite (c_hash _ _ C2), (c_hash _ _ C1).
      * intros j Hm. apply (Hno j). apply (calm_matches rt rt1 ty b j C1 Hsym), (calm_matches rt1 rt2 ty b j C2 Hsym).
        by apply (matches_chars _ _ (body s)); [congruence |].
    + exists i, rt'. replace (n + 2) with (n + 1 + 1) by lia. done.
  - destruct Ho as [I2 Hf]. destruct fail; [by apply Hfail |]. rewrite (Hf eq_refl) in I2. exists 0, rt2.
    split_and!; [done | | done]. left. split; [done |]. eapply (inv_weaken _ _ (n + 1)); [lia | done].
Qed.

(** ** References to atoms *)
Lemma hold_atom rt a m : hold_ok rt (HAtom a m) -> is_const a = false -> exists p s, at_index rt a p s.
Proof.
  intros H Hc. destruct m; cbn in H.
  - destruct H as [(k & Hk & _ & ->) | (_ & p & s & ? & _)]; [| by exists p, s].
    by rewrite is_const_tagged in Hc.
  - destruct H as (p & s & ? & _). by exists p, s.
  - destruct H as (s & ? & _). by exists p, s.
Qed.

Lemma dup_atom_inv n rt l a m : inv n rt l -> hold_ok rt (HAtom a m) -> exists rt',
  JS_DupAtom JS_ATOM_END a rt = Ret rt' /\ inv n rt' (HAtom a m :: l) /\ atom_array rt' = atom_array rt.
Proof.
  intros I H. unfold JS_DupAtom. destruct (is_const a) eqn:E; cbn [negb].
  - exists rt. split_and!; [done | | done]. by apply inv_uncounted; [apply const_uncounted | |].
  - destruct (hold_atom _ _ _ H E) as (p & s & Hat). pose proof Hat as [Hi Hs]. rewrite (atom_ptr_Ret _ _ _ Hi).
    cbn [mbind res_bind].
    destruct (dup_inv JS_ATOM_END names names_range n rt l (HAtom a m) p s I Hs (ref_to_atom _ _ _ _ _ Hi E) H)
      as (rt' & ? & ? & ? & _). by exists rt'.
Qed.

Lemma free_atom_inv n rt l a m : inv n rt (HAtom a m :: l) -> exists rt', JS_FreeAtom JS_ATOM_END a rt = Ret rt' /\ inv n rt' l.
Proof.
  intros I. unfold JS_FreeAtom. destruct (is_const a) eqn:E; cbn [negb].
  - exists rt. split; [done |]. by eapply inv_forget; [apply const_uncounted |].
  - pose proof (i_holds _ _ _ _ _ I (HAtom a m) ltac:(by left)) as H. destruct (hold_atom _ _ _ H E) as (p & s & Hat).
    pose proof Hat as [Hi Hs]. destruct (at_index_ptr _ _ _ _ (i_wf _ _ _ _ _ I) Hi Hs) as [_ Hty].
    rewrite (free_atom_string a p s rt Hat) by lia.
    destruct (release_inv n rt l _ p s I (ref_to_atom _ _ _ _ _ Hi E) Hs) as (rt' & ? & ? & _). by exists rt'.
Qed.

(** ** The atom of a string *)
Lemma index_not_zero rt i p s : wf rt -> at_index rt i p s -> ~ is_symbol s -> i <> 0.
Proof.
  intros W Hat Hn ->. destruct (w_zero _ W) as (q & t & [Hq Ht] & Hsym).
  { intros E. destruct Hat as [H _]. by rewrite E in H. }
  destruct Hat as [Hp Hs]. assert (q = p) as -> by congruence. by assert (t = s) as -> by congruence.
Qed.

(** A string that is an atom already. *)
Lemma same_atom_inv n rt l p s i txt ty : inv n rt (HPtr p (MText txt) :: l) -> at_index rt i p s -> chars (body s) = txt ->
  atom_type s = ty -> ty < JS_ATOM_TYPE_SYMBOL -> (ty = JS_ATOM_TYPE_STRING -> not_tagged txt) ->
  atom_result n (if is_const i then set_struct p (set_ref_count (ref_count s - 1) s) rt else rt) l ty txt i.
Proof.
  intros I Hat E Ety Hlt Hnt. pose proof (i_wf _ _ _ _ _ I) as W. pose proof Hat as [Hi Hs].
  destruct (at_index_ptr _ _ _ _ W Hi Hs) as [_ Hr]. right.
  assert (~ is_symbol s) as Hns by (unfold is_symbol; lia).
  split; [by eapply index_not_zero |].
  assert (hold_ok rt (HAtom i (atom_meaning ty p txt))) as Hok by (eapply atom_meaning_ok; [done.. | lia | done]).
  destruct (is_const i) eqn:Hc.
  - exists p, (set_ref_count (ref_count s - 1) s). split_and!; [split; [done | apply lookup_insert_eq] | done | done |].
    apply inv_uncounted; [by apply const_uncounted | |].
    + eapply hold_kept; [exact W | | exact Hok]. intros q Hq. cbn in Hq. assert (q = p) as -> by congruence.
      by apply kept_set_ref.
    + destruct (i_refs _ _ _ _ _ I p s Hs) as [Er _]. rewrite (hold_refs_cons _ _ _ p) in Er by apply ref_to_ptr.
      assert (i < JS_ATOM_END) as Hlt'.
      { rewrite (index_const JS_ATOM_END rt i _ Hi (i_size _ _ _ _ _ I)) in Hc. by apply Z.ltb_lt. }
      pose proof (znth_lt_Some _ _ _ Hi). unfold refs in Er.
      rewrite (base_refs_true JS_ATOM_END rt p i) in Er by (done || lia).
      pose proof (countb_nonneg (refers rt p) l).
      eapply (inv_ref JS_ATOM_END names names_range n rt (HPtr p (MText txt) :: l)); try done; [lia | | |].
      * unfold refs. rewrite (base_refs_true JS_ATOM_END rt p i) by (done || lia). lia.
      * intros q D. symmetry. apply (countb_cons_ne _ _ _ p); [apply ref_to_ptr | done].
      * intros h Hh. apply (i_holds _ _ _ _ _ I). by right.
  - exists p, s. split_and!; [done | done | done |].
    eapply inv_swap; [exact I | | done]. intros q.
    rewrite (ref_to_atom JS_ATOM_END rt i p _ Hi Hc q). symmetry. apply (ref_to_ptr JS_ATOM_END rt p (MText txt) q).
Qed.

(** The string of an atom that exists is given up. *)
Lemma found_atom_inv n rt l p txt i q s ty : inv n rt (HPtr p (MText txt) :: l) -> at_index rt i q s ->
  chars (body s) = txt -> atom_type s = ty -> ty < JS_ATOM_TYPE_SYMBOL -> (ty = JS_ATOM_TYPE_STRING -> not_tagged txt) ->
  exists rt', (rt1 ← JS_DupAtom JS_ATOM_END i rt; rt2 ← js_free_string p rt1; Ret (i, rt2)) = Ret (i, rt') /\
    atom_result n rt' l ty txt i.
Proof.
  intros I Hat E Ety Hlt Hnt. pose proof (i_wf _ _ _ _ _ I) as W. pose proof Hat as [Hi Hs].
  destruct (at_index_ptr _ _ _ _ W Hi Hs) as [_ Hr]. assert (~ is_symbol s) as Hns by (unfold is_symbol; lia).
  assert (hold_ok rt (HAtom i (atom_meaning ty q txt))) as Hok by (eapply atom_meaning_ok; [done.. | lia | done]).
  destruct (dup_atom_inv n rt _ i _ I Hok) as (rt1 & -> & I1 & Ea). cbn [mbind res_bind].
  apply (inv_perm _ _ _ _ _ (HPtr p (MText txt) :: HAtom i (atom_meaning ty q txt) :: l)) in I1; [| constructor].
  destruct (free_string_inv _ _ _ _ _ I1) as (rt2 & -> & I2 & _). cbn [mbind res_bind]. exists rt2. split; [done |].
  right. split; [by eapply index_not_zero |].
  pose proof (i_holds _ _ _ _ _ I2 _ ltac:(by left)) as Hok2. unfold atom_meaning in *.
  assert (ty = JS_ATOM_TYPE_STRING \/ ty = JS_ATOM_TYPE_GLOBAL_SYMBOL) as [-> | ->]
    by (unfold JS_ATOM_TYPE_SYMBOL, JS_ATOM_TYPE_STRING, JS_ATOM_TYPE_GLOBAL_SYMBOL in *; lia); cbn in Hok2, I2.
  - destruct Hok2 as [(k & Hk & En & _) | (_ & p' & s' & Hat' & Ety' & E')]; [by specialize (Hnt eq_refl k En); lia |].
    by exists p', s'.
  - destruct Hok2 as (p' & s' & Hat' & Ety' & E'). by exists p', s'.
Qed.

Lemma __JS_NewAtom_inv n rt l p txt ty : inv n rt (HPtr p (MText txt) :: l) -> n * 3 <= INT32_MAX ->
  1 <= ty < JS_ATOM_TYPE_SYMBOL -> (ty = JS_ATOM_TYPE_STRING -> not_tagged txt) ->
  exists i rt', __JS_NewAtom JS_ATOM_END (Some p) ty rt = Ret (i, rt') /\ atom_result (n + 2) rt' l ty txt i.
Proof.
  intros I Hn Hty Hnt. pose proof (i_wf _ _ _ _ _ I) as W. destruct (string_hold _ _ _ _ _ I) as (s & Hs & E).
  unfold __JS_NewAtom. rewrite (proj2 (Z.ltb_lt _ _)) by lia. cbn [of_opt mbind res_bind].
  rewrite (get_struct_Ret _ _ _ Hs). cbn [mbind res_bind].
  assert (forall rt' i, atom_result n rt' l ty txt i -> atom_result (n + 2) rt' l ty txt i) as Hweak.
  { intros rt' i [[-> I'] | (Hi & q & t & ? & ? & ? & I')]; [left | right]; (split; [done |]).
    - eapply (inv_weaken _ _ n); [lia | done].
    - exists q, t. split_and!; try done. eapply (inv_weaken _ _ n); [lia | done]. }
  destruct (Z.eqb_spec (atom_type s) ty) as [Et | Et].
  - destruct (w_back _ W p s Hs ltac:(lia)) as [i Hi]. rewrite (js_get_atom_index_spec rt i p s W) by done.
    cbn [mbind res_bind]. eexists i, _. split; [reflexivity |]. apply Hweak.
    eapply same_atom_inv; try done. unfold JS_ATOM_TYPE_SYMBOL in *. lia.
  - destruct (find_atom_spec rt ty (body s) W) as (i & r & Hi & Hr & Hm); [lia | lia |]. cbn zeta in *.
    rewrite Hi. cbn [of_opt mbind res_bind]. rewrite Hr. cbn [mbind res_bind]. destruct r as [j |].
    + destruct Hm as (q & t & Hat & Etj & Ej).
      destruct (found_atom_inv n rt l p txt j q t ty I Hat ltac:(congruence) Etj ltac:(lia) Hnt) as (rt' & Er & Hres).
      exists j, rt'. split; [done | by apply Hweak].
    + destruct (new_atom_inv n rt l (Some p) txt ty (Z.land (hash_string (body s) ty) JS_ATOM_HASH_MASK)
                  (hash_index (Z.land (hash_string (body s) ty) JS_ATOM_HASH_MASK) rt) I Hn)
        as (i' & rt' & En & Hres & _); try done; [unfold JS_ATOM_TYPE_SYMBOL in *; lia | | by exists i', rt'].
      intros _. exists (body s). done.
Qed.
End make.
