(* ===== verification/AtomClient.v ===== *)
(** * quickjs.c: a client of the table of atoms

    Every operation of the client keeps [AtomRefs.inv]: no structure is used
    after it is freed, none is forgotten, and every reference still stands for
    what it stood for.  A run from the table that [JS_InitAtoms] makes never
    faults, whatever allocation fails; references are equal as numbers exactly
    when they stand for the same. *)
From Stdlib Require Import ZArith Lia Bool.
From stdpp Require Import base numbers list gmap.
From S2P Require Import Prelude Cutils Chains JSValue AtomState AtomTable AtomFacts AtomGrow AtomRefs AtomSteps AtomNew.

(** ** Tagged integers *)
Lemma tag_bit : JS_ATOM_TAG_INT = 2 ^ 31.
Proof. done. Qed.

Lemma tagged_index i : 0 <= i < 2 ^ 31 -> __JS_AtomIsTaggedInt i = false.
Proof.
  intros H. unfold __JS_AtomIsTaggedInt. rewrite tag_bit. rewrite negb_false_iff, Z.eqb_eq.
  apply Z.bits_inj'. intros k Hk. rewrite Z.land_spec, Z.bits_0, Z.pow2_bits_eqb by lia.
  destruct (Z.eqb_spec 31 k) as [<- | D]; [| apply andb_false_r]. rewrite andb_true_r.
  apply Z.testbit_false; [lia |]. by rewrite Z.div_small by lia.
Qed.

Lemma tagged_number n : 0 <= n <= JS_ATOM_MAX_INT -> __JS_AtomIsTaggedInt (__JS_AtomFromUInt32 n) = true /\
  __JS_AtomToUInt32 (__JS_AtomFromUInt32 n) = n.
Proof.
  intros H. assert (forall k, 31 <= k -> Z.testbit n k = false) as Hn.
  { intros k Hk. apply Z.testbit_false; [lia |]. rewrite Z.div_small; [done |]. split; [lia |].
    apply Z.lt_le_trans with (2 ^ 31); [unfold JS_ATOM_MAX_INT in H; rewrite tag_bit in H; lia |].
    apply Z.pow_le_mono_r; lia. }
  unfold __JS_AtomIsTaggedInt, __JS_AtomToUInt32, __JS_AtomFromUInt32. rewrite tag_bit. split.
  - rewrite negb_true_iff, Z.eqb_neq. intros E. apply (f_equal (fun x => Z.testbit x 31)) in E. revert E.
    rewrite Z.land_spec, Z.lor_spec, Z.bits_0, Z.pow2_bits_true by lia. by rewrite orb_true_r.
  - apply Z.bits_inj'. intros k Hk. rewrite Z.land_spec, Z.lor_spec, Z.lnot_spec, Z.pow2_bits_eqb by lia.
    destruct (Z.eqb_spec 31 k) as [<- | D]; cbn [negb];
      [by rewrite (Hn 31), andb_false_r by lia | by rewrite orb_false_r, andb_true_r].
Qed.

Lemma drop_hold_perm h l : h ∈ l -> l ≡ₚ h :: drop_hold h l.
Proof.
  induction l as [| x l IH]; intros H; [by apply not_elem_of_nil in H |]. cbn. destruct (decide (x = h)) as [-> | D]; [done |].
  apply elem_of_cons in H as [-> | H]; [done |]. rewrite (IH H) at 1. constructor.
Qed.

Section client.
Variable JS_ATOM_END : Z.
Hypothesis end_range : 0 < JS_ATOM_END <= 2 ^ 30.
Variable names : list (list Z * Z).
Hypothesis names_range : zlen names < JS_ATOM_END.
Abbreviation is_const := (__JS_AtomIsConst JS_ATOM_END).
Abbreviation inv := (inv JS_ATOM_END names).
Abbreviation atom_result := (atom_result JS_ATOM_END names).

(** [JS_InitAtoms] uses this one too. *)
Lemma NewAtomInit_inv n rt l txt ty : inv n rt l -> n * 3 <= INT32_MAX -> 1 <= ty <= 4 -> (ty = JS_ATOM_TYPE_STRING -> not_tagged txt) ->
  exists i rt', __JS_NewAtomInit JS_ATOM_END txt ty rt = Ret (i, rt') /\ atom_result (n + 2) rt' l (kept_type ty) txt i.
Proof.
  intros I Hn Hty Hnt. unfold __JS_NewAtomInit.
  destruct (alloc_string_inv JS_ATOM_END names names_range n rt l (mkString false txt) I) as (o & rt1 & -> & _ & Ho).
  destruct o as [p |]; cbn [chars] in Ho.
  2: { exists 0, rt1. split; [done |]. left. split; [done |]. eapply (inv_weaken _ _ n); [lia | done]. }
  destruct (Z.ltb_spec ty JS_ATOM_TYPE_SYMBOL) as [Hlt | Hge].
  - assert (kept_type ty = ty) as ->.
    { unfold kept_type. destruct (Z.eqb_spec ty JS_ATOM_TYPE_PRIVATE) as [-> |]; [done |]. done. }
    apply (__JS_NewAtom_inv JS_ATOM_END end_range names names_range n rt1 l p txt ty Ho Hn); [lia | done].
  - assert (kept_type ty = JS_ATOM_TYPE_SYMBOL) as ->.
    { unfold kept_type. unfold JS_ATOM_TYPE_SYMBOL, JS_ATOM_TYPE_PRIVATE in *. destruct (Z.eqb_spec ty 4); lia. }
    unfold __JS_NewAtom. rewrite (proj2 (Z.ltb_ge _ _)) by done.
    assert (forall h, exists i rt', new_atom (Some p) h 0 JS_ATOM_TYPE_SYMBOL rt1 = Ret (i, rt') /\
      atom_result (n + 2) rt' l JS_ATOM_TYPE_SYMBOL txt i) as Hnew.
    { intros h. destruct (new_atom_inv JS_ATOM_END end_range names names_range n rt1 l (Some p) txt JS_ATOM_TYPE_SYMBOL h 0 Ho Hn)
        as (i & rt' & ? & ? & _); try done. by exists i, rt'. }
    destruct (ty =? JS_ATOM_TYPE_SYMBOL); apply Hnew.
Qed.

Lemma text_result n rt l txt i : atom_result n rt l JS_ATOM_TYPE_STRING txt i ->
  inv n rt (if i =? JS_ATOM_NULL then l else HAtom i (MText txt) :: l).
Proof.
  intros [[-> I] | (Hi & p & s & _ & _ & _ & I)]; [done |]. unfold JS_ATOM_NULL. by rewrite (proj2 (Z.eqb_neq _ _) Hi).
Qed.

Lemma from_uint32_nonzero k : 0 <= k <= JS_ATOM_MAX_INT -> (__JS_AtomFromUInt32 k =? JS_ATOM_NULL) = false.
Proof. intros H. rewrite from_uint32_val by done. apply Z.eqb_neq. unfold JS_ATOM_NULL. lia. Qed.

Lemma tagged_inv n rt l k txt : inv n rt l -> num_text txt = Some k -> k <= JS_ATOM_MAX_INT ->
  inv n rt (HAtom (__JS_AtomFromUInt32 k) (MText txt) :: l).
Proof.
  intros I E Hk. pose proof (num_text_digits _ _ E) as [Hr _]. apply inv_uncounted; [| left; exists k; split_and!; [lia | lia | done | done] | done].
  apply const_uncounted. by apply is_const_tagged; [| lia].
Qed.

Lemma JS_NewAtomStr_inv n rt l p txt : inv n rt (HPtr p (MText txt) :: l) -> n * 3 <= INT32_MAX ->
  exists i rt', JS_NewAtomStr JS_ATOM_END p rt = Ret (i, rt') /\
    inv (n + 2) rt' (if i =? JS_ATOM_NULL then l else HAtom i (MText txt) :: l).
Proof.
  intros I Hn. destruct (string_hold _ _ _ _ _ _ _ I) as (s & Hs & E). unfold JS_NewAtomStr.
  rewrite (get_struct_Ret _ _ _ Hs). cbn [mbind res_bind].
  assert (is_num_string (body s) = num_text txt) as -> by (unfold num_text, is_num_string; cbn; by rewrite E).
  assert (not_tagged txt -> exists i rt', __JS_NewAtom JS_ATOM_END (Some p) JS_ATOM_TYPE_STRING rt = Ret (i, rt') /\
    inv (n + 2) rt' (if i =? JS_ATOM_NULL then l else HAtom i (MText txt) :: l)) as Hnew.
  { intros Hnt. destruct (__JS_NewAtom_inv JS_ATOM_END end_range names names_range n rt l p txt JS_ATOM_TYPE_STRING I Hn)
      as (i & rt' & ? & Hr); [done | done |]. exists i, rt'. split; [done | by apply text_result]. }
  destruct (num_text txt) as [k |] eqn:Ek; [| apply Hnew; intros k Hk; congruence].
  destruct (Z.leb_spec k JS_ATOM_MAX_INT) as [Hle | Hgt]; [| apply Hnew; intros k' Hk; congruence].
  destruct (free_string_inv JS_ATOM_END end_range names names_range n rt l p txt I) as (rt' & -> & I' & _). cbn [mbind res_bind].
  eexists _, rt'. split; [reflexivity |]. rewrite from_uint32_nonzero by (apply num_text_digits in Ek; lia).
  apply tagged_inv; [| done | done]. eapply (inv_weaken _ _ n); [lia | done].
Qed.

Lemma JS_NewAtomUInt32_inv n rt l k : inv n rt l -> n * 3 <= INT32_MAX -> 0 <= k <= UINT32_MAX ->
  exists i rt', JS_NewAtomUInt32 JS_ATOM_END k rt = Ret (i, rt') /\
    inv (n + 2) rt' (if i =? JS_ATOM_NULL then l else HAtom i (MText (dec_digits 10 k)) :: l).
Proof.
  intros I Hn Hk. unfold JS_NewAtomUInt32.
  assert (num_text (dec_digits 10 k) = Some k) as Ek by (apply digits_num_text; unfold UINT32_MAX in Hk; lia).
  destruct (Z.leb_spec k JS_ATOM_MAX_INT) as [Hle | Hgt].
  - eexists _, rt. split; [reflexivity |]. rewrite from_uint32_nonzero by lia.
    apply tagged_inv; [| done | done]. eapply (inv_weaken _ _ n); [lia | done].
  - destruct (NewAtomInit_inv n rt l (dec_digits 10 k) JS_ATOM_TYPE_STRING I Hn) as (i & rt' & ? & Hr); [done | |].
    + intros _ k' Hk'. congruence.
    + exists i, rt'. split; [done | by apply text_result].
Qed.
End client.

(** ** After the initialization *)
Section ready.
Variable JS_ATOM_END : Z.
Hypothesis end_range : 0 < JS_ATOM_END <= 2 ^ 30.
Variable names : list (list Z * Z).
Hypothesis names_full : zlen names = JS_ATOM_END - 1.
Hypothesis names_types : forall k x, names !! k = Some x -> kept_type x.2 <> JS_ATOM_TYPE_GLOBAL_SYMBOL.
Variable JS_ATOM_empty_string : Z.
Hypothesis empty_named : exists k ty, JS_ATOM_empty_string = Z.of_nat k + 1 /\ names !! k = Some ([], ty).
Abbreviation is_const := (__JS_AtomIsConst JS_ATOM_END).
Abbreviation inv := (inv JS_ATOM_END names).

Lemma names_range : zlen names < JS_ATOM_END.
Proof. lia. Qed.

(** The predefined atoms are the ones that have a name. *)
Lemma index_named i : 0 < i < JS_ATOM_END -> exists k x, names !! k = Some x /\ Z.of_nat k + 1 = i.
Proof.
  intros H. destruct (lookup_lt_is_Some_2 names (Z.to_nat (i - 1))) as [x Hx]; [unfold zlen in names_full; lia |].
  exists (Z.to_nat (i - 1)), x. split; [done | lia].
Qed.

Lemma counted n rt l i p s : inv n rt l -> at_index rt i p s -> i <> 0 -> not_predefined names i -> is_const i = false.
Proof.
  intros I [Hi Hs] H0 Hp. rewrite (index_const JS_ATOM_END rt i _ Hi (i_size _ _ _ _ _ I)). apply Z.ltb_ge.
  destruct (Z.le_gt_cases JS_ATOM_END i) as [| Hlt]; [done |]. pose proof (znth_lt_Some _ _ _ Hi).
  destruct (index_named i) as (k & x & Hk & E); [lia |]. by destruct (Hp k x Hk).
Qed.

Lemma global_counted n rt l i p s : inv n rt l -> at_index rt i p s -> atom_type s = JS_ATOM_TYPE_GLOBAL_SYMBOL ->
  is_const i = false.
Proof.
  intros I Hat Et. pose proof (i_wf _ _ _ _ _ I) as W. apply (counted n rt l i p s I Hat).
  - eapply index_not_zero; [done | done |]. unfold is_symbol. by rewrite Et.
  - intros k x Hk <-. destruct (i_names _ _ _ _ _ I k x Hk) as (q & t & [Hq Ht] & _ & Ety).
    destruct Hat as [Hp Hs]. assert (q = p) as -> by congruence. assert (t = s) as -> by congruence.
    apply (names_types k x Hk). congruence.
Qed.

(** A reference to a symbol is one to its atom. *)
Lemma symbol_value n rt l i p s m : inv n rt (HAtom i m :: l) -> at_index rt i p s -> is_const i = false ->
  hold_ok rt (HPtr p m) -> inv n rt (HPtr p m :: l).
Proof.
  intros I [Hi Hs] Hc Hok. eapply inv_swap; [exact I | | done]. intros q.
  rewrite (ref_to_ptr JS_ATOM_END rt p m q). symmetry. by apply ref_to_atom.
Qed.

Lemma new_symbol_inv n rt l i p s ty txt : atom_result JS_ATOM_END names n rt l ty txt i -> at_index rt i p s ->
  is_const i = false -> 2 <= ty <= 3 -> i <> 0 ->
  inv n rt (HPtr p (atom_meaning ty p txt) :: l).
Proof.
  intros [[-> _] | (Hi & q & t & Hat' & Ety & E & I)] Hat Hc Hty H0; [done |].
  pose proof Hat as [Hp Hs]. pose proof Hat' as [Hq Ht]. assert (q = p) as -> by congruence. assert (t = s) as -> by congruence.
  apply (symbol_value n rt l i p s _ I Hat Hc).
  unfold atom_meaning. unfold JS_ATOM_TYPE_STRING, JS_ATOM_TYPE_GLOBAL_SYMBOL. destruct (Z.eqb_spec ty 1); [lia |].
  destruct (Z.eqb_spec ty 2); cbn [hold_ok].
  - exists i, s. split_and!; [done | | done]. unfold JS_ATOM_TYPE_GLOBAL_SYMBOL. congruence.
  - split; [done |]. exists i, s. split_and!; [done | | done]. unfold is_symbol, JS_ATOM_TYPE_SYMBOL. lia.
Qed.

Lemma fresh_symbol_inv n rt l str txt ty : inv n rt (str_holds str txt ++ l) -> n * 3 <= INT32_MAX ->
  (str = None -> txt = []) -> ty = JS_ATOM_TYPE_SYMBOL \/ ty = JS_ATOM_TYPE_PRIVATE ->
  exists o rt', JS_NewSymbol JS_ATOM_END str ty rt = Ret (o, rt') /\
    inv (n + 2) rt' (match o with Some q => HPtr q (MSymbol q txt) :: l | None => l end).
Proof.
  intros I Hn Hnil Hty. unfold JS_NewSymbol.
  assert (exists i rt', __JS_NewAtom JS_ATOM_END str ty rt = Ret (i, rt') /\
    atom_result JS_ATOM_END names (n + 2) rt' l JS_ATOM_TYPE_SYMBOL txt i /\ (i <> 0 -> not_predefined names i))
    as (i & rt' & -> & Hr & Hp).
  { unfold __JS_NewAtom. destruct Hty as [-> | ->]; cbn.
    all: apply (new_atom_inv JS_ATOM_END end_range names names_range n rt l str txt JS_ATOM_TYPE_SYMBOL _ 0 I Hn Hnil); done. }
  cbn [mbind res_bind]. unfold JS_ATOM_NULL. destruct (Z.eqb_spec i 0) as [-> | Hi].
  - exists None, rt'. split; [done |]. destruct Hr as [[_ I'] | [Hne _]]; done.
  - pose proof Hr as [[-> _] | (_ & q & s & Hat & Ety & E & I')]; [done |].
    rewrite (atom_ptr_Ret _ _ _ (proj1 Hat)). cbn [mbind res_bind]. exists (Some q), rt'. split; [done |].
    apply (new_symbol_inv _ _ _ i q s JS_ATOM_TYPE_SYMBOL txt Hr Hat); [| done | done].
    by apply (counted _ _ _ i q s I' Hat Hi), Hp.
Qed.

Lemma symbol_for_inv n rt l p txt : inv n rt (HPtr p (MText txt) :: l) -> n * 3 <= INT32_MAX ->
  exists o rt', JS_NewSymbol JS_ATOM_END (Some p) JS_ATOM_TYPE_GLOBAL_SYMBOL rt = Ret (o, rt') /\
    inv (n + 2) rt' (match o with Some q => HPtr q (MGlobal txt) :: l | None => l end).
Proof.
  intros I Hn. unfold JS_NewSymbol.
  destruct (__JS_NewAtom_inv JS_ATOM_END end_range names names_range n rt l p txt JS_ATOM_TYPE_GLOBAL_SYMBOL I Hn)
    as (i & rt' & -> & Hr); [done | done |].
  cbn [mbind res_bind]. unfold JS_ATOM_NULL. destruct (Z.eqb_spec i 0) as [-> | Hi].
  - exists None, rt'. split; [done |]. destruct Hr as [[_ I'] | [Hne _]]; done.
  - pose proof Hr as [[-> _] | (_ & q & s & Hat & Ety & E & I')]; [done |].
    rewrite (atom_ptr_Ret _ _ _ (proj1 Hat)). cbn [mbind res_bind]. exists (Some q), rt'. split; [done |].
    apply (new_symbol_inv _ _ _ i q s JS_ATOM_TYPE_GLOBAL_SYMBOL txt Hr Hat); [| done | done].
    exact (global_counted _ _ _ i q s I' Hat Ety).
Qed.

(** ** Atoms as values *)
Lemma dup_hold n rt l p m s : inv n rt l -> strings rt !! p = Some s -> hold_ok rt (HPtr p m) ->
  exists rt', js_dup_struct p rt = Ret rt' /\ inv n rt' (HPtr p m :: l).
Proof.
  intros I Hs Hok. destruct (dup_inv JS_ATOM_END names names_range n rt l _ p s I Hs (ref_to_ptr _ _ _ _) Hok)
    as (rt' & ? & ? & _). by exists rt'.
Qed.

Lemma index_hold n rt l a m : inv n rt l -> hold_ok rt (HAtom a m) ->
  (exists k, 0 <= k <= JS_ATOM_MAX_INT /\ m = MText (dec_digits 10 k) /\ a = __JS_AtomFromUInt32 k) \/
  exists p s, at_index rt a p s /\ chars (body s) = meaning_text m /\ hold_ok rt (HPtr p m) /\
    (atom_type s = JS_ATOM_TYPE_STRING <-> is_text m = true).
Proof.
  intros I H. destruct m; cbn in H.
  - destruct H as [(k & Hk & E & ->) | (_ & p & s & Hat & Ety & E)]; [left | right].
    + apply num_text_digits in E as [_ <-]. by exists k.
    + exists p, s. split_and!; [done | done | exists s; split; [apply Hat | done] | done].
  - right. destruct H as (p & s & Hat & Ety & E). exists p, s.
    split_and!; [done | done | by exists a, s | rewrite Ety; split; done].
  - right. destruct H as (s & Hat & Ety & E). exists p, s.
    split_and!; [done | done | split; [done |]; by exists a, s | rewrite Ety; split; done].
Qed.

Lemma value_inv n rt l a m force : inv n rt l -> hold_ok rt (HAtom a m) -> exists o rt',
  __JS_AtomToValue JS_ATOM_empty_string a force rt = Ret (o, rt') /\
  inv n rt' (match o with
             | Some (p, _) => HPtr p (if force then MText (meaning_text m) else m) :: l
             | None => l
             end).
Proof.
  intros I H. unfold __JS_AtomToValue. destruct (index_hold n rt l a m I H) as
    [(k & Hk & -> & ->) | (p & s & Hat & E & Hok & Ety)].
  - destruct (tagged_number k Hk) as [-> ->].
    destruct (alloc_string_inv JS_ATOM_END names names_range n rt l (mkString false (dec_digits 10 k)) I) as (o & rt' & -> & _ & Ho).
    destruct o as [p |]; [exists (Some (p, false)) | exists None]; exists rt'; (split; [done |]); [| done].
    by destruct force.
  - pose proof Hat as [Hi Hs]. pose proof (znth_lt_Some _ _ _ Hi) as Hlt. fold (atom_size rt) in Hlt.
    pose proof (i_size _ _ _ _ _ I) as Hz. change JS_ATOM_MAX with (2 ^ 30 - 1) in Hz.
    rewrite tagged_index, (proj2 (Z.ltb_lt _ _)) by lia. cbn [assert_ mbind res_bind].
    rewrite (atom_ptr_Ret _ _ _ Hi). cbn [mbind res_bind]. rewrite (get_struct_Ret _ _ _ Hs). cbn [mbind res_bind].
    assert (hold_ok rt (HPtr p (MText (meaning_text m)))) as Hokt by (by exists s).
    destruct (Z.eqb_spec (atom_type s) JS_ATOM_TYPE_STRING) as [Et | Et].
    + apply Ety in Et. destruct m; try done. cbn [meaning_text] in *.
      destruct (dup_hold n rt l p _ s I Hs Hok) as (rt' & -> & I'). exists (Some (p, false)), rt'.
      split; [done |]. by destruct force.
    + destruct force.
      2: { destruct (dup_hold n rt l p _ s I Hs Hok) as (rt' & -> & I'). by exists (Some (p, true)), rt'. }
      destruct (is_null_string s) eqn:En.
      * unfold is_null_string in En. apply andb_true_iff in En as [En _]. apply Z.eqb_eq in En.
        assert (meaning_text m = []) as Em.
        { rewrite <- E. destruct (chars (body s)); [done |]. unfold zlen in En. cbn in En. lia. }
        destruct empty_named as (k & ty & -> & Hk). destruct (i_names _ _ _ _ _ I k _ Hk) as (q & t & [Hq Ht] & Eq & _).
        rewrite (atom_ptr_Ret _ _ _ Hq). cbn [mbind res_bind].
        destruct (dup_hold n rt l q (MText (meaning_text m)) t I Ht) as (rt' & -> & I').
        { exists t. by rewrite Em. }
        by exists (Some (q, false)), rt'.
      * cbn [mbind res_bind]. destruct (dup_hold n rt l p _ s I Hs Hokt) as (rt' & -> & I'). by exists (Some (p, false)), rt'.
Qed.
End ready.

(** * Runs of the client, and the initial table *)

Section run.
Variable END : Z.
Hypothesis end_range : 0 < END <= 2 ^ 30.
Variable names : list (list Z * Z).
Hypothesis names_full : zlen names = END - 1.
Hypothesis names_types : forall k x, names !! k = Some x -> kept_type x.2 <> JS_ATOM_TYPE_GLOBAL_SYMBOL.
Variable empty : Z.
Hypothesis empty_named : exists k ty, empty = Z.of_nat k + 1 /\ names !! k = Some ([], ty).
Abbreviation inv := (inv END names).

Lemma take_hold n rt l h : inv n rt l -> h ∈ l -> inv n rt (h :: drop_hold h l).
Proof. intros I H. by eapply inv_perm; [by apply drop_hold_perm |]. Qed.

Lemma ptr_struct rt p m : hold_ok rt (HPtr p m) -> exists s, strings rt !! p = Some s.
Proof.
  intros H. destruct m; cbn in H.
  - destruct H as (s & ? & _). by exists s.
  - destruct H as (i & s & [_ ?] & _). by exists s.
  - destruct H as (_ & i & s & [_ ?] & _). by exists s.
Qed.

(** A symbol is an atom. *)
Lemma ptr_symbol rt p m : wf rt -> hold_ok rt (HPtr p m) -> is_text m = false ->
  exists i s, at_index rt i p s /\ atom_type s <> 0 /\ hold_ok rt (HAtom i m).
Proof.
  intros W H Hm. destruct m; [done | |]; cbn in H.
  - destruct H as (i & s & Hat & Et & E). exists i, s. split_and!; [done | by rewrite Et | by exists p, s].
  - destruct H as (-> & i & s & Hat & Et & E). exists i, s. split_and!; [done | by rewrite Et | by exists s].
Qed.

Lemma free_value_inv n rt l p m : inv n rt (HPtr p m :: l) ->
  exists rt', (if is_text m then js_free_string p rt else js_free_symbol p rt) = Ret rt' /\ inv n rt' l.
Proof.
  intros I. pose proof (i_holds _ _ _ _ _ I (HPtr p m) ltac:(by left)) as H.
  destruct (ptr_struct _ _ _ H) as (s & Hs).
  destruct (release_inv END end_range names (names_range END names names_full) n rt l _ p s I (ref_to_ptr _ _ _ _) Hs)
    as (rt' & E & I' & _).
  exists rt'. split; [| done]. destruct (is_text m) eqn:Hm; [done |].
  destruct (ptr_symbol rt p m (i_wf _ _ _ _ _ I) H Hm) as (i & t & [_ Ht] & Hty & _).
  by rewrite (free_symbol_string p t).
Qed.

Lemma symbol_to_atom_inv n rt l p m : inv n rt l -> hold_ok rt (HPtr p m) -> is_text m = false -> exists a rt',
  symbol_to_atom END p rt = Ret (a, rt') /\ inv n rt' (if a =? JS_ATOM_NULL then l else HAtom a m :: l).
Proof.
  intros I H Hm. pose proof (i_wf _ _ _ _ _ I) as W. destruct (ptr_symbol rt p m W H Hm) as (i & s & Hat & _ & Hok).
  unfold symbol_to_atom. rewrite (js_get_atom_index_spec rt i p s W Hat). cbn [mbind res_bind].
  destruct (dup_atom_inv END end_range names (names_range END names names_full) n rt l i m I Hok) as (rt' & -> & I' & _).
  cbn [mbind res_bind]. exists i, rt'. split; [done |]. destruct (Z.eqb_spec i JS_ATOM_NULL) as [-> |]; [| done].
  eapply inv_forget; [| exact I']. apply const_uncounted. rewrite is_const_small by (unfold JS_ATOM_NULL; lia).
  apply Z.ltb_lt. unfold JS_ATOM_NULL. lia.
Qed.

(** ** One operation *)
Lemma do_op_inv n rt l o : inv n rt l -> op_ok o l = true -> n * 3 <= INT32_MAX -> exists c,
  do_op END empty o rt l = Ret c /\ inv (n + 2) (runtime c) (holds c).
Proof.
  intros I Hok Hn. pose proof (names_range END names names_full) as Hrange. unfold op_ok in Hok.
  apply andb_true_iff in Hok as [Hh Hop].
  assert (forall h, op_hold o = Some h -> h ∈ l) as Hin by (intros h E; rewrite E in Hh; by apply bool_decide_eq_true in Hh).
  assert (forall rt' l', inv n rt' l' -> inv (n + 2) rt' l') as Hw by (intros rt' l' ?; eapply (inv_weaken _ _ n); [lia | done]).
  pose proof (fun h E => i_holds _ _ _ _ _ I h (Hin h E)) as Hhold.
  destruct o as [str | p m | p m | p s | k | str pr | p s | a m | a m | a m | a m | p m]; cbn [do_op op_hold] in *.
  - destruct (alloc_string_inv END names Hrange n rt l str I) as (o & rt' & -> & _ & Ho).
    eexists. split; [reflexivity |]. destruct o; by apply Hw.
  - destruct (ptr_struct _ _ _ (Hhold _ eq_refl)) as (s & Hs).
    destruct (dup_hold END names names_full n rt l p m s I Hs (Hhold _ eq_refl)) as (rt' & -> & I').
    eexists. split; [reflexivity |]. by apply Hw.
  - destruct (free_value_inv n rt _ p m (take_hold _ _ _ _ I (Hin _ eq_refl))) as (rt' & -> & I').
    eexists. split; [reflexivity |]. by apply Hw.
  - destruct (JS_NewAtomStr_inv END end_range names Hrange n rt _ p s (take_hold _ _ _ _ I (Hin _ eq_refl)) Hn)
      as (i & rt' & -> & I'). eexists. split; [reflexivity |]. done.
  - apply andb_true_iff in Hop as [H1 H2]. apply Z.leb_le in H1, H2.
    destruct (JS_NewAtomUInt32_inv END end_range names Hrange n rt l k I Hn) as (i & rt' & -> & I'); [lia |].
    eexists. split; [reflexivity |]. done.
  - set (ty := if pr then JS_ATOM_TYPE_PRIVATE else JS_ATOM_TYPE_SYMBOL).
    assert (ty = JS_ATOM_TYPE_SYMBOL \/ ty = JS_ATOM_TYPE_PRIVATE) as Hty by (unfold ty; destruct pr; auto).
    destruct str as [[p s] |]; cbn [fmap option_fmap option_map fst].
    + destruct (fresh_symbol_inv END end_range names names_full n rt _ (Some p) s ty (take_hold _ _ _ _ I (Hin _ eq_refl)) Hn)
        as (o & rt' & -> & I'); [done | done |]. eexists. split; [reflexivity |]. by destruct o.
    + destruct (fresh_symbol_inv END end_range names names_full n rt l None [] ty I Hn) as (o & rt' & -> & I'); [done | done |].
      eexists. split; [reflexivity |]. by destruct o.
  - destruct (symbol_for_inv END end_range names names_full names_types n rt _ p s (take_hold _ _ _ _ I (Hin _ eq_refl)) Hn)
      as (o & rt' & -> & I'). eexists. split; [reflexivity |]. by destruct o.
  - destruct (dup_atom_inv END end_range names Hrange n rt l a m I (Hhold _ eq_refl)) as (rt' & -> & I' & _).
    eexists. split; [reflexivity |]. by apply Hw.
  - destruct (free_atom_inv END end_range names Hrange n rt _ a m (take_hold _ _ _ _ I (Hin _ eq_refl))) as (rt' & -> & I').
    eexists. split; [reflexivity |]. by apply Hw.
  - destruct (value_inv END names names_full empty empty_named n rt l a m false I (Hhold _ eq_refl)) as (o & rt' & -> & I').
    eexists. split; [reflexivity |]. destruct o as [[p b] |]; by apply Hw.
  - destruct (value_inv END names names_full empty empty_named n rt l a m true I (Hhold _ eq_refl)) as (o & rt' & -> & I').
    eexists. split; [reflexivity |]. destruct o as [[p b] |]; by apply Hw.
  - destruct (symbol_to_atom_inv n rt l p m I (Hhold _ eq_refl)) as (a & rt' & -> & I'); [by apply negb_true_iff in Hop |].
    eexists. split; [reflexivity |]. by apply Hw.
Qed.

Lemma client_run_inv ops : forall n c, inv n (runtime c) (holds c) -> (n + 2 * zlen ops) * 3 <= INT32_MAX -> exists c',
  client_run END empty ops c = Ret c' /\ inv (n + 2 * zlen ops) (runtime c') (holds c').
Proof.
  induction ops as [| o ops IH]; intros n [rt l] I Hb.
  { exists (mkClient rt l). split; [done |]. by replace (n + 2 * zlen []) with n by (unfold zlen; cbn; lia). }
  cbn [runtime holds] in *. rewrite zlen_cons in Hb. pose proof (zlen_nonneg ops). cbn [client_run].
  assert (exists c, client_step END empty o (mkClient rt l) = Ret c /\ inv (n + 2) (runtime c) (holds c)) as (c & -> & I').
  { unfold client_step. cbn [runtime holds]. destruct (op_ok o l) eqn:E; [apply do_op_inv; [done | done | lia] |].
    eexists. split; [reflexivity |]. eapply (inv_weaken _ _ n); [lia | done]. }
  cbn [mbind res_bind]. destruct (IH (n + 2) c I' ltac:(lia)) as (c' & -> & I''). exists c'. split; [done |].
  rewrite zlen_cons. replace (n + 2 * (1 + zlen ops)) with (n + 2 + 2 * zlen ops) by lia. done.
Qed.

(** ** References and what they stand for *)

(** An atom is a small number, or the index of a structure that says it all. *)
Lemma atom_hold_meaning rt a m : hold_ok rt (HAtom a m) ->
  (exists k, 0 <= k <= JS_ATOM_MAX_INT /\ m = MText (dec_digits 10 k) /\ a = __JS_AtomFromUInt32 k) \/
  exists p s, at_index rt a p s /\ m = atom_meaning (atom_type s) p (chars (body s)) /\
    (atom_type s = JS_ATOM_TYPE_STRING -> not_tagged (chars (body s))).
Proof.
  intros H. destruct m; cbn in H.
  - destruct H as [(k & Hk & E & ->) | (Hn & p & s & Hat & Ety & E)]; [left | right].
    + apply num_text_digits in E as [_ <-]. by exists k.
    + exists p, s. rewrite Ety, E. done.
  - right. destruct H as (p & s & Hat & Ety & E). exists p, s. rewrite Ety, E. done.
  - right. destruct H as (s & Hat & Ety & E). exists p, s. rewrite Ety, E. done.
Qed.

Lemma tagged_not_index n rt l k p s : inv n rt l -> 0 <= k <= JS_ATOM_MAX_INT -> ~ at_index rt (__JS_AtomFromUInt32 k) p s.
Proof.
  intros I Hk Hat. apply at_index_range in Hat. rewrite from_uint32_val in Hat by done.
  pose proof (i_size _ _ _ _ _ I) as Hz. change JS_ATOM_MAX with (2 ^ 30 - 1) in Hz. lia.
Qed.

Lemma atom_meaning_inj t t' p p' l l' : 1 <= t <= 3 -> 1 <= t' <= 3 -> atom_meaning t p l = atom_meaning t' p' l' ->
  t = t' /\ l = l' /\ (t = JS_ATOM_TYPE_SYMBOL -> p = p').
Proof.
  unfold atom_meaning, JS_ATOM_TYPE_STRING, JS_ATOM_TYPE_GLOBAL_SYMBOL, JS_ATOM_TYPE_SYMBOL. intros H H' E.
  destruct (Z.eqb_spec t 1), (Z.eqb_spec t' 1), (Z.eqb_spec t 2), (Z.eqb_spec t' 2); try lia; try done;
    injection E; intros; split_and!; try done; lia.
Qed.

Lemma atoms_equal n rt l a b m m' : inv n rt l -> hold_ok rt (HAtom a m) -> hold_ok rt (HAtom b m') ->
  a = b <-> m = m'.
Proof.
  intros I Ha Hb. pose proof (i_wf _ _ _ _ _ I) as W.
  destruct (atom_hold_meaning _ _ _ Ha) as [(k & Hk & -> & ->) | (p & s & Hat & -> & Hn)],
    (atom_hold_meaning _ _ _ Hb) as [(k' & Hk' & -> & ->) | (q & t & Hat' & -> & Hn')].
  - rewrite !from_uint32_val by done. split; [intros E; f_equal; f_equal; lia |]. intros E0.
    assert (dec_digits 10 k = dec_digits 10 k') as E by congruence. apply (f_equal num_text) in E. unfold JS_ATOM_MAX_INT in *. rewrite tag_bit in *.
    rewrite !digits_num_text in E by lia. congruence.
  - split; [intros <-; by destruct (tagged_not_index n rt l k q t I Hk) |].
    unfold atom_meaning. intros E. repeat case_match; try done. injection E as E. rewrite Z.eqb_eq in *.
    exfalso. apply (Z.lt_irrefl JS_ATOM_MAX_INT). apply Z.lt_le_trans with k; [| lia]. apply (Hn' ltac:(done)).
    rewrite <- E. apply digits_num_text. unfold JS_ATOM_MAX_INT in *. rewrite tag_bit in *. lia.
  - split; [intros ->; by destruct (tagged_not_index n rt l k' p s I Hk') |].
    unfold atom_meaning. intros E. repeat case_match; try done. injection E as E. rewrite Z.eqb_eq in *.
    exfalso. apply (Z.lt_irrefl JS_ATOM_MAX_INT). apply Z.lt_le_trans with k'; [| lia]. apply (Hn ltac:(done)).
    rewrite E. apply digits_num_text. unfold JS_ATOM_MAX_INT in *. rewrite tag_bit in *. lia.
  - pose proof Hat as [Hp Hs]. pose proof Hat' as [Hq Ht]. split.
    + intros <-. assert (q = p) as -> by congruence. by assert (t = s) as -> by congruence.
    + intros E. apply atom_meaning_inj in E as (Et & Ec & Ep);
        [| exact (proj2 (at_index_ptr rt a p s W Hp Hs)) | exact (proj2 (at_index_ptr rt b q t W Hq Ht))].
      destruct (decide (is_symbol s)) as [Hsym | Hsym].
      * rewrite (Ep Hsym) in Hp. exact (w_inj _ W a b q Hp Hq).
      * exact (w_uniq _ W a b p q s t Hat Hat' Hsym Et Ec).
Qed.
End run.
