(* ===== verification/AtomProps.v ===== *)
(** * quickjs.c: the table of atoms, from the initialization on *)
From Stdlib Require Import ZArith Lia Bool String.
From stdpp Require Import base numbers list gmap.
From S2P Require Import Prelude Cutils Chains JSValue AtomState AtomTable AtomFacts AtomGrow AtomRefs AtomSteps AtomNew AtomClient.

(** ** The empty table *)
Definition hashed (mem : list bool) : JSRuntime := set_hash (replicate 256 0) 512 (empty_runtime mem).

Lemma hashed_wf mem : wf (hashed mem).
Proof.
  assert (forall i p, znth (atom_array (hashed mem)) i <> Some (APtr p)) as Hno.
  { intros i p H. apply znth_lt_Some in H. unfold zlen in H. cbn in H. lia. }
  assert (forall i p s, ~ at_index (hashed mem) i p s) as Hat by (intros i p s [H _]; by destruct (Hno i p)).
  assert (forall p, strings (hashed mem) !! p = None) as Hs by (intros p; apply lookup_empty).
  split; try (intros; exfalso; eapply Hno; eassumption); try (intros; exfalso; eapply Hat; eassumption);
    try (intros p s H; by rewrite Hs in H).
  - exists []. split; [done |]. intros i n H. apply znth_lt_Some in H. unfold zlen in H. cbn in H. lia.
  - done.
  - exists (replicate 256 []). split.
    + apply Forall2_same_length_lookup. split; [by rewrite !length_replicate |]. intros i x l Hx Hl.
      apply lookup_replicate in Hx as [-> _]. by apply lookup_replicate in Hl as [-> _].
    + intros b l i Hb Hi. apply lookup_replicate in Hb as [-> _]. by apply not_elem_of_nil in Hi.
    + intros i p s H. by destruct (Hat i p s).
  - exists 8. done.
  - done.
Qed.

Lemma first_resize mem : exists (ok : bool) (mem' : list bool), JS_ResizeAtomHash 256 (empty_runtime mem) =
  Ret (ok, if ok then hashed mem' else empty_runtime mem').
Proof. destruct mem as [| [] mem]; [by exists true, [] | by exists true, mem | by exists false, mem]. Qed.

Lemma hashed_inv END mem : 0 < END -> inv END [] 0 (hashed mem) [].
Proof.
  intros He. split.
  - apply hashed_wf.
  - intros p s H. cbn in H. by rewrite lookup_empty in H.
  - intros h H. by apply not_elem_of_nil in H.
  - done.
  - done.
  - unfold atom_size, zlen. cbn. change JS_ATOM_MAX with (2 ^ 30 - 1). lia.
Qed.

(** ** The initialization *)
Definition is_atom (h : hold) : Prop := match h with HAtom _ _ => True | HPtr _ _ => False end.

Definition name_ok (x : list Z * Z) : Prop := 1 <= x.2 <= 4 /\ num_text x.1 = None.

Lemma init_atoms_inv END : 0 < END <= 2 ^ 30 -> forall names n rt l, Forall name_ok names -> inv END [] n rt l ->
  Forall is_atom l -> (n + 2 * zlen names) * 3 <= INT32_MAX -> exists r, init_atoms END names rt = Ret r /\
  forall rt', r = Some rt' -> exists l', inv END [] (n + 2 * zlen names) rt' l' /\ Forall is_atom l'.
Proof.
  intros He. induction names as [| [txt ty] names IH]; intros n rt l Hn I Hl Hb.
  { exists (Some rt). split; [done |]. intros rt' [= <-]. exists l. unfold zlen. cbn. by rewrite Z.add_0_r. }
  apply list.Forall_cons in Hn as [[Hty Hnum] Hn]. cbn [fst snd] in *. rewrite zlen_cons in *. pose proof (zlen_nonneg names).
  cbn [init_atoms]. destruct (NewAtomInit_inv END He [] ltac:(unfold zlen; cbn; lia) n rt l txt ty I) as (i & rt1 & -> & Hr);
    [lia | done | intros _ k Hk; congruence |].
  cbn [mbind res_bind]. destruct (Z.eqb_spec i JS_ATOM_NULL) as [-> | Hi]; [by exists None |].
  destruct Hr as [[-> _] | (_ & p & s & _ & _ & _ & I1)]; [done |].
  destruct (IH (n + 2) rt1 _ Hn I1) as (r & Er & Hr); [by constructor | lia |].
  exists r. split; [done |]. intros rt' E. destruct (Hr rt' E) as (l' & I' & Hl').
  exists l'. replace (n + 2 * (1 + zlen names)) with (n + 2 + 2 * zlen names) by lia. done.
Qed.

(** Whatever allocation fails. *)
Lemma JS_InitAtoms_inv END names mem : 0 < END <= 2 ^ 30 -> Forall name_ok names -> zlen names < 2 ^ 28 ->
  exists r, JS_InitAtoms END names (empty_runtime mem) = Ret r /\
  forall rt, r = Some rt -> exists l, inv END [] (2 * zlen names) rt l /\ Forall is_atom l.
Proof.
  intros He Hn Hb. unfold JS_InitAtoms. destruct (first_resize mem) as (ok & mem' & ->). cbn [mbind res_bind].
  destruct ok; [| by exists None].
  destruct (init_atoms_inv END He names 0 (hashed mem') [] Hn) as (r & -> & Hr);
    [apply hashed_inv; lia | done | unfold INT32_MAX; lia | by exists r].
Qed.

(** ** The table that QuickJS starts with *)
Definition initial_rt : JSRuntime := match initial with Ret (Some rt) => rt | _ => empty_runtime [] end.

(** The elements of the array are the predefined atoms, in order, and free ones. *)
Definition check_name (rt : JSRuntime) (k : nat) (x : list Z * Z) : bool :=
  match znth (atom_array rt) (Z.of_nat k + 1) with
  | Some (APtr p) =>
      match strings rt !! p with
      | Some s => bool_decide (chars (body s) = x.1) && (atom_type s =? kept_type x.2)
      | None => false
      end
  | _ => false
  end.

Definition check_initial (rt : JSRuntime) : bool :=
  forallb (fun y => check_name rt y.1 y.2) (imap pair init_names) &&
  forallb atom_is_free (skipn (Z.to_nat JS_ATOM_END) (atom_array rt)).

Lemma initial_checked : initial = Ret (Some initial_rt) /\ check_initial initial_rt = true.
Proof. split; vm_compute; reflexivity. Qed.

Lemma init_names_facts : zlen init_names = JS_ATOM_END - 1 /\ Forall name_ok init_names /\
  Forall (fun x => kept_type x.2 <> JS_ATOM_TYPE_GLOBAL_SYMBOL) init_names /\
  init_names !! 46%nat = Some ([], JS_ATOM_TYPE_STRING) /\ JS_ATOM_empty_string = 47.
Proof.
  split_and!; [vm_compute; reflexivity | | | vm_compute; reflexivity | vm_compute; reflexivity].
  - apply (bool_decide_eq_true_1 (Forall (fun x => 1 <= x.2 <= 4 /\ num_text x.1 = None) init_names)).
    vm_compute. reflexivity.
  - apply (bool_decide_eq_true_1 (Forall (fun x => kept_type x.2 <> JS_ATOM_TYPE_GLOBAL_SYMBOL) init_names)).
    vm_compute. reflexivity.
Qed.

Lemma end_value : JS_ATOM_END = 207.
Proof. vm_compute. reflexivity. Qed.

Lemma end_range : 0 < JS_ATOM_END <= 2 ^ 30.
Proof. rewrite end_value. lia. Qed.

Lemma checked_named rt k x : check_initial rt = true -> init_names !! k = Some x -> named rt k x.
Proof.
  unfold check_initial. intros [H _]%andb_true_iff Hx. rewrite forallb_forall in H.
  specialize (H (k, x)). cbn [fst snd] in H. unfold check_name in H.
  assert (In (k, x) (imap pair init_names)) as Hin.
  { apply list_elem_of_In, list_elem_of_lookup. exists k. by rewrite list_lookup_imap, Hx. }
  specialize (H Hin). destruct (znth _ _) as [[p |] |] eqn:Ez; try done. destruct (strings rt !! p) as [s |] eqn:Es; [| done].
  apply andb_true_iff in H as [Hc Ht]. apply bool_decide_eq_true in Hc. apply Z.eqb_eq in Ht. by exists p, s.
Qed.

Lemma checked_const rt i p s : check_initial rt = true -> at_index rt i p s -> i < JS_ATOM_END.
Proof.
  unfold check_initial. intros [_ H]%andb_true_iff [Hi _]. destruct (Z.lt_ge_cases i JS_ATOM_END) as [| Hge]; [done |].
  pose proof end_range. rewrite forallb_forall in H. specialize (H (APtr p)).
  assert (In (APtr p) (skipn (Z.to_nat JS_ATOM_END) (atom_array rt))) as Hin; [| by specialize (H Hin)].
  apply list_elem_of_In, list_elem_of_lookup. exists (Z.to_nat i - Z.to_nat JS_ATOM_END)%nat.
  rewrite lookup_drop. apply znth_Some in Hi as [_ Hi]. replace (_ + _)%nat with (Z.to_nat i) by lia. done.
Qed.

Definition set_mem (mem : list bool) (rt : JSRuntime) : JSRuntime :=
  mkRuntime (strings rt) (atom_hash rt) (atom_array rt) (atom_count rt) (atom_count_resize rt) (atom_free_index rt)
    mem (next_addr rt).

Lemma set_mem_inv names n rt l mem : inv JS_ATOM_END names n rt l -> inv JS_ATOM_END names n (set_mem mem rt) l.
Proof.
  intros [W R H N B S]. split; try done. apply (wf_strings_only rt); [done |]. split; try done; cbn.
  intros p s Hs. split; [by apply (w_addr _ W p s) |]. left. by exists s.
Qed.

(** No reference is held when the initialization ends; the predefined atoms have
    one each. *)
Lemma initial_inv mem : inv JS_ATOM_END init_names (2 * zlen init_names) (set_mem mem initial_rt) [].
Proof.
  destruct initial_checked as [Ei Hc]. destruct init_names_facts as (Hlen & Hok & _).
  destruct (JS_InitAtoms_inv JS_ATOM_END init_names [] end_range Hok) as (r & Er & Hr); [rewrite Hlen, end_value; lia |].
  unfold initial in Ei. rewrite Ei in Er. injection Er as <-. clear Ei. revert Hc Hr. generalize initial_rt. intros rt Hc Hr.
  destruct (Hr rt eq_refl) as (l & I & Hl). apply set_mem_inv.
  assert (inv JS_ATOM_END [] (2 * zlen init_names) rt []) as [W R H _ B S].
  { eapply inv_holds_change; [exact I | | intros h Hh; by apply not_elem_of_nil in Hh].
    intros q. symmetry. apply countb_zero. intros h Hh. rewrite list.Forall_forall in Hl.
    specialize (Hl h Hh). destruct h as [| a m]; [done |]. apply const_uncounted.
    destruct (__JS_AtomIsConst JS_ATOM_END a) eqn:E; [done |].
    pose proof (i_holds _ _ _ _ _ I _ Hh) as Hok'. destruct (hold_atom JS_ATOM_END end_range rt a m Hok' E) as (p & s & Hat).
    pose proof (checked_const rt a p s Hc Hat) as Hlt. rewrite (index_const JS_ATOM_END rt a _ (proj1 Hat) (i_size _ _ _ _ _ I)) in E.
    apply Z.ltb_ge in E. lia. }
  split; try done. intros k x Hk. by apply checked_named.
Qed.

(** ** Runs of the client *)
Definition start (mem : list bool) : client := mkClient (set_mem mem initial_rt) [].
Definition run (ops : list client_op) (mem : list bool) : res client :=
  client_run JS_ATOM_END JS_ATOM_empty_string ops (start mem).

Definition short (ops : list client_op) : Prop := zlen ops <= 2 ^ 28.

Lemma run_inv ops mem : short ops -> exists c, run ops mem = Ret c /\
  inv JS_ATOM_END init_names (2 * zlen init_names + 2 * zlen ops) (runtime c) (holds c) /\
  (2 * zlen init_names + 2 * zlen ops) * 3 <= INT32_MAX.
Proof.
  intros Hs. destruct init_names_facts as (Hlen & Hok & Hty & He & Hidx). unfold run.
  assert ((2 * zlen init_names + 2 * zlen ops) * 3 <= INT32_MAX) as Hb
    by (unfold short in Hs; rewrite Hlen, end_value; unfold INT32_MAX; lia).
  destruct (client_run_inv JS_ATOM_END end_range init_names Hlen) with (empty := JS_ATOM_empty_string) (ops := ops)
    (n := 2 * zlen init_names) (c := start mem) as (c & E & I).
  - intros k x Hk. rewrite list.Forall_forall in Hty. apply Hty. by eapply list_elem_of_lookup_2.
  - exists 46%nat, JS_ATOM_TYPE_STRING. by rewrite Hidx.
  - apply initial_inv.
  - done.
  - by exists c.
Qed.

(** C23: Atoms are interned strings: from the table that [JS_InitAtoms] makes, no
    sequence of operations accesses a freed structure, whichever allocations
    fail, and two atoms that are held are the same number exactly when they
    stand for the same text, the same key of the symbol registry or the same
    symbol. *)
Theorem atoms_intern ops mem : short ops -> exists c, run ops mem = Ret c /\
  forall a b m m', HAtom a m ∈ holds c -> HAtom b m' ∈ holds c -> (a = b <-> m = m').
Proof.
  intros Hs. destruct (run_inv ops mem Hs) as (c & E & I & _). exists c. split; [done |].
  intros a b m m' Ha Hb. eapply atoms_equal; [exact I | by apply (i_holds _ _ _ _ _ I) ..].
Qed.

(** C24: The reference count of every string, symbol and atom structure is the
    number of references that are held, and one more if the atom is predefined:
    nothing is freed while it is used, and nothing stays that is not. *)
Theorem reference_counts_exact ops mem : short ops -> exists c, run ops mem = Ret c /\
  forall p s, strings (runtime c) !! p = Some s ->
    0 < ref_count s /\
    ref_count s = base_refs JS_ATOM_END (runtime c) p + countb (refers JS_ATOM_END (runtime c) p) (holds c).
Proof.
  intros Hs. destruct (run_inv ops mem Hs) as (c & E & I & _). exists c. split; [done |].
  intros p s Hp. destruct (i_refs _ _ _ _ _ I p s Hp) as [Er Hpos]. done.
Qed.

Lemma js_atom_init_positions : Forall (fun x => exists k, JS_ATOM x.1 = Z.of_nat k + 1 /\
  init_names !! k = Some (text_of x.2, init_type (JS_ATOM x.1))) js_atom_init.
Proof.
  assert (forallb (fun x => (1 <=? JS_ATOM x.1) && bool_decide (init_names !! Z.to_nat (JS_ATOM x.1 - 1) =
    Some (text_of x.2, init_type (JS_ATOM x.1)))) js_atom_init = true) as H by (vm_compute; reflexivity).
  rewrite forallb_forall in H. apply list.Forall_forall. intros x Hx%list_elem_of_In. specialize (H x Hx).
  apply andb_true_iff in H as [H1 H2]. apply Z.leb_le in H1. apply bool_decide_eq_true in H2.
  exists (Z.to_nat (JS_ATOM x.1 - 1)). split; [lia | done].
Qed.

Lemma init_texts_not_tagged k txt ty : init_names !! k = Some (txt, ty) -> not_tagged txt.
Proof.
  destruct init_names_facts as (_ & Hok & _). intros H n Hn. rewrite list.Forall_forall in Hok.
  destruct (Hok (txt, ty)) as [_ E]; [by eapply list_elem_of_lookup_2 |]. cbn in E. congruence.
Qed.

(** The predefined atoms keep their numbers: a reference that stands for the
    text of [JS_ATOM_x] is the number [JS_ATOM_x], at any time. *)
Theorem predefined_atoms ops mem name txt : short ops -> (name, txt) ∈ js_atom_init ->
  init_type (JS_ATOM name) = JS_ATOM_TYPE_STRING -> exists c, run ops mem = Ret c /\
  forall a, HAtom a (MText (text_of txt)) ∈ holds c -> a = JS_ATOM name.
Proof.
  intros Hs Hin Hty. destruct (run_inv ops mem Hs) as (c & E & I & _). exists c. split; [done |]. intros a Ha.
  pose proof js_atom_init_positions as Hpos. rewrite list.Forall_forall in Hpos.
  destruct (Hpos _ Hin) as (k & Hk & Hx). cbn [fst snd] in *. rewrite Hty in Hx.
  destruct (i_names _ _ _ _ _ I k _ Hx) as (p & s & Hat & Ec & Et).
  eapply (proj2 (atoms_equal _ _ _ _ _ a (JS_ATOM name) _ (MText (text_of txt)) I (i_holds _ _ _ _ _ I _ Ha) _)); done.
  Unshelve. right. split; [by eapply init_texts_not_tagged |]. exists p, s. rewrite Hk. done.
Qed.

(** C25: An atom and the value it stands for determine each other: the string of
    an atom has its text, and it is the same atom again when the string is
    interned; so is the symbol of a symbol atom.  Only a lack of memory gives no
    result. *)
Theorem atom_value_roundtrip ops mem : short ops -> exists c, run ops mem = Ret c /\
  forall a m, HAtom a m ∈ holds c -> exists o rt1,
    __JS_AtomToValue JS_ATOM_empty_string a false (runtime c) = Ret (o, rt1) /\
    forall p b, o = Some (p, b) -> exists s a' rt2,
      strings rt1 !! p = Some s /\ chars (body s) = meaning_text m /\
      (if is_text m then JS_NewAtomStr JS_ATOM_END p rt1 else symbol_to_atom JS_ATOM_END p rt1) = Ret (a', rt2) /\
      (a' = JS_ATOM_NULL \/ a' = a).
Proof.
  intros Hs. destruct (run_inv ops mem Hs) as (c & E & I & Hb). exists c. split; [done |]. intros a m Ha.
  destruct init_names_facts as (Hlen & _ & _ & He & Hidx).
  destruct (value_inv JS_ATOM_END init_names Hlen JS_ATOM_empty_string) with (rt := runtime c) (l := holds c)
    (n := 2 * zlen init_names + 2 * zlen ops) (a := a) (m := m) (force := false) as (o & rt1 & -> & I1).
  { exists 46%nat, JS_ATOM_TYPE_STRING. by rewrite Hidx. }
  { done. }
  { by apply (i_holds _ _ _ _ _ I). }
  exists o, rt1. split; [done |]. intros p b ->. pose proof (i_holds _ _ _ _ _ I1 (HPtr p m) ltac:(by left)) as Hp.
  assert (exists s, strings rt1 !! p = Some s /\ chars (body s) = meaning_text m) as (s & Hps & Hc).
  { destruct m; cbn in Hp; [done | |].
    - destruct Hp as (i & s & [_ ?] & _ & ?). by exists s.
    - destruct Hp as (_ & i & s & [_ ?] & _ & ?). by exists s. }
  assert (forall n rt l a', inv JS_ATOM_END init_names n rt l -> HAtom a m ∈ l -> HAtom a' m ∈ l -> a' = a) as Heq.
  { intros n rt l a' I' H H'. by apply (atoms_equal _ _ _ _ _ a' a m m I' (i_holds _ _ _ _ _ I' _ H') (i_holds _ _ _ _ _ I' _ H)). }
  destruct (is_text m) eqn:Hm.
  - destruct m; try done. destruct (JS_NewAtomStr_inv JS_ATOM_END end_range init_names) with (rt := rt1) (l := holds c)
      (n := 2 * zlen init_names + 2 * zlen ops) (p := p) (txt := l) as (a' & rt2 & Es & I2); [lia | done | done |].
    exists s, a', rt2. split_and!; [done | done | done |]. destruct (Z.eqb_spec a' JS_ATOM_NULL); [by left | right].
    eapply Heq; [exact I2 | by right | by left].
  - destruct (symbol_to_atom_inv JS_ATOM_END end_range init_names Hlen _ rt1 _ p m I1 Hp Hm) as (a' & rt2 & Es & I2).
    exists s, a', rt2. split_and!; [done | done | done |]. destruct (Z.eqb_spec a' JS_ATOM_NULL); [by left | right].
    eapply Heq; [exact I2 | right; by right | by left].
Qed.

(** ** Examples *)

(** [hello] twice, in 8 and in 16 bits, the number 42, a symbol, and
    [Symbol.for("x")]. *)
Definition hello : list Z := [104; 101; 108; 108; 111].
Definition sample : list client_op :=
  [NewString (mkString false hello); NewString (mkString true hello); StringToAtom 208 hello; StringToAtom 209 hello;
   UInt32ToAtom 42; NewSymbol None false; NewString (mkString false [120]); SymbolFor 211 [120];
   NewString (mkString false (text_of "length")); StringToAtom 212 (text_of "length")].

Lemma sample_short : short sample.
Proof. unfold short. vm_compute. discriminate. Qed.

Lemma atoms_intern_witness : short sample /\
  (holds <$> match run sample [] with Ret c => Some c | _ => None end) =
    Some [HAtom 48 (MText (text_of "length")); HPtr 211 (MGlobal [120]); HPtr 210 (MSymbol 210 []);
          HAtom 2147483690 (MText [52; 50]); HAtom 207 (MText hello); HAtom 207 (MText hello)] /\
  exists c, run sample [true; true; true; false] = Ret c /\
    forall a b m m', HAtom a m ∈ holds c -> HAtom b m' ∈ holds c -> (a = b <-> m = m').
Proof. split; [exact sample_short | split; [vm_compute; reflexivity | apply (atoms_intern sample); exact sample_short]]. Defined.

Lemma reference_counts_exact_witness : short sample /\
  (match run sample [] with Ret c => ref_count <$> strings (runtime c) !! 208 | _ => None end) = Some 2 /\
  exists c, run sample [] = Ret c /\ forall p s, strings (runtime c) !! p = Some s -> 0 < ref_count s /\
    ref_count s = base_refs JS_ATOM_END (runtime c) p + countb (refers JS_ATOM_END (runtime c) p) (holds c).
Proof. split; [exact sample_short | split; [vm_compute; reflexivity | apply (reference_counts_exact sample []); exact sample_short]]. Defined.

Lemma predefined_atoms_witness : short sample /\ ("length", "length")%string ∈ js_atom_init /\
  init_type (JS_ATOM "length") = JS_ATOM_TYPE_STRING /\ exists c, run sample [] = Ret c /\
  forall a, HAtom a (MText (text_of "length")) ∈ holds c -> a = JS_ATOM "length".
Proof.
  assert (("length", "length")%string ∈ js_atom_init) as Hin
    by (apply (bool_decide_eq_true_1 (_ ∈ js_atom_init)); vm_compute; reflexivity).
  split; [exact sample_short |]. split; [exact Hin |]. split; [vm_compute; reflexivity |].
  apply (predefined_atoms sample []); [exact sample_short | exact Hin | vm_compute; reflexivity].
Defined.

Lemma atom_value_roundtrip_witness : short sample /\ exists c, run sample [] = Ret c /\
  forall a m, HAtom a m ∈ holds c -> exists o rt1,
    __JS_AtomToValue JS_ATOM_empty_string a false (runtime c) = Ret (o, rt1) /\
    forall p b, o = Some (p, b) -> exists s a' rt2,
      strings rt1 !! p = Some s /\ chars (body s) = meaning_text m /\
      (if is_text m then JS_NewAtomStr JS_ATOM_END p rt1 else symbol_to_atom JS_ATOM_END p rt1) = Ret (a', rt2) /\
      (a' = JS_ATOM_NULL \/ a' = a).
Proof. split; [exact sample_short | apply (atom_value_roundtrip sample []); exact sample_short]. Defined.
