(* ===== verification/ShapeState.v ===== *)
(** * quickjs.c: shapes and the properties of objects

    The names and flags of the properties of an object are in its shape, the
    values in an array of the object itself.  Objects that got the same
    properties in the same order share a shape; shared shapes are in a hash table
    of the runtime, [shape_table], and must not change.  A shape finds a property
    through a hash table of its own, [prop_hash], whose chains go through
    [hash_next].

    [shapes] and [objects] map addresses to structures; a freed one is absent, so
    that an access to it is a [Fault].  A block that is reallocated moves.  The
    operations on atoms are those of a class, which Shape files use through its
    laws.  Values of properties are numbers: what they are is not looked at here,
    and their reference counts are the subject of Gc.v. *)
From Stdlib Require Import ZArith Lia Bool.
From stdpp Require Import base numbers list gmap.
From S2P Require Import Prelude Cutils JSValue AtomState.

(** ** Atoms, as shapes use them *)
Class AtomOps (A : Type) : Type := {
  JS_DupAtom : Z -> A -> res A;
  JS_FreeAtom : Z -> A -> res A;
  JS_NewAtomUInt32 : Z -> A -> res (Z * A);
  JS_AtomIsArrayIndex : Z -> A -> res (option Z)
}.

(** ** Data *)
Definition JS_PROP_CONFIGURABLE : Z := Z.shiftl 1 0.
Definition JS_PROP_WRITABLE : Z := Z.shiftl 1 1.
Definition JS_PROP_ENUMERABLE : Z := Z.shiftl 1 2.
Definition JS_PROP_C_W_E : Z := Z.lor (Z.lor JS_PROP_CONFIGURABLE JS_PROP_WRITABLE) JS_PROP_ENUMERABLE.
Definition JS_PROP_LENGTH : Z := Z.shiftl 1 3.

Definition JS_PROP_INITIAL_SIZE : Z := 2.
Definition JS_PROP_INITIAL_HASH_SIZE : Z := 4.

Record JSShapeProperty : Type := mkProp { hash_next : Z; flags : Z; atom : Z }.

(** [prop_hash] is the table in front of the structure: its element [h] is
    [prop_hash_end(sh)[-h-1]].  [prop] has the elements in use. *)
Record JSShape : Type := mkShape {
  ref_count : Z;
  is_hashed : bool;
  has_small_array_index : bool;
  hash : Z;
  prop_size : Z;
  deleted_prop_count : Z;
  shape_hash_next : Z;
  proto : Z;
  prop_hash : list Z;
  prop : list JSShapeProperty
}.

Definition prop_hash_mask (sh : JSShape) : Z := zlen (prop_hash sh) - 1.
Definition prop_count (sh : JSShape) : Z := zlen (prop sh).

(** [values] is the array [p->prop] as it was allocated. *)
Record JSObject : Type := mkObject { shape : Z; values : list Z }.

Section state.
Context {A : Type}.

Record JSRuntime : Type := mkRuntime {
  atoms : A;
  shapes : gmap Z JSShape;
  objects : gmap Z JSObject;
  shape_hash_bits : Z;
  shape_hash_count : Z;
  shape_table : list Z;
  mem : list bool;
  next_addr : Z
}.

Definition set_atoms (a : A) (rt : JSRuntime) : JSRuntime :=
  mkRuntime a (shapes rt) (objects rt) (shape_hash_bits rt) (shape_hash_count rt) (shape_table rt) (mem rt) (next_addr rt).
Definition set_shapes (m : gmap Z JSShape) (rt : JSRuntime) : JSRuntime :=
  mkRuntime (atoms rt) m (objects rt) (shape_hash_bits rt) (shape_hash_count rt) (shape_table rt) (mem rt) (next_addr rt).
Definition set_objects (m : gmap Z JSObject) (rt : JSRuntime) : JSRuntime :=
  mkRuntime (atoms rt) (shapes rt) m (shape_hash_bits rt) (shape_hash_count rt) (shape_table rt) (mem rt) (next_addr rt).
Definition set_hash (bits count : Z) (l : list Z) (rt : JSRuntime) : JSRuntime :=
  mkRuntime (atoms rt) (shapes rt) (objects rt) bits count l (mem rt) (next_addr rt).

Definition get_shape (rt : JSRuntime) (a : Z) : res JSShape := of_opt (shapes rt !! a).
Definition get_object (rt : JSRuntime) (p : Z) : res JSObject := of_opt (objects rt !! p).
Definition put_shape (a : Z) (sh : JSShape) (rt : JSRuntime) : JSRuntime := set_shapes (<[a := sh]> (shapes rt)) rt.
Definition put_object (p : Z) (o : JSObject) (rt : JSRuntime) : JSRuntime := set_objects (<[p := o]> (objects rt)) rt.

(** ** Memory *)
Definition alloc_ok (rt : JSRuntime) : bool * JSRuntime :=
  match mem rt with
  | [] => (true, rt)
  | b :: m => (b, mkRuntime (atoms rt) (shapes rt) (objects rt) (shape_hash_bits rt) (shape_hash_count rt)
                    (shape_table rt) m (next_addr rt))
  end.

Definition new_addr (rt : JSRuntime) : Z * JSRuntime :=
  (next_addr rt, mkRuntime (atoms rt) (shapes rt) (objects rt) (shape_hash_bits rt) (shape_hash_count rt)
                   (shape_table rt) (mem rt) (next_addr rt + 1)).

(** [js_realloc] of [p->prop]: new elements are not initialized. *)
Definition resize_values (n : Z) (l : list Z) : list Z :=
  firstn (Z.to_nat n) l ++ replicate (Z.to_nat n - length l) 0.
End state.
Arguments JSRuntime A : clear implicits.

(** ** Setters *)
Definition set_ref_count (n : Z) (s : JSShape) : JSShape :=
  mkShape n (is_hashed s) (has_small_array_index s) (hash s) (prop_size s) (deleted_prop_count s) (shape_hash_next s)
    (proto s) (prop_hash s) (prop s).
Definition set_hashed (b : bool) (s : JSShape) : JSShape :=
  mkShape (ref_count s) b (has_small_array_index s) (hash s) (prop_size s) (deleted_prop_count s) (shape_hash_next s)
    (proto s) (prop_hash s) (prop s).
Definition set_shape_hash (h : Z) (s : JSShape) : JSShape :=
  mkShape (ref_count s) (is_hashed s) (has_small_array_index s) h (prop_size s) (deleted_prop_count s)
    (shape_hash_next s) (proto s) (prop_hash s) (prop s).
Definition set_next (n : Z) (s : JSShape) : JSShape :=
  mkShape (ref_count s) (is_hashed s) (has_small_array_index s) (hash s) (prop_size s) (deleted_prop_count s) n
    (proto s) (prop_hash s) (prop s).
Definition set_props (size deleted : Z) (ph : list Z) (l : list JSShapeProperty) (s : JSShape) : JSShape :=
  mkShape (ref_count s) (is_hashed s) (has_small_array_index s) (hash s) size deleted (shape_hash_next s) (proto s) ph l.
Definition set_small (b : bool) (s : JSShape) : JSShape :=
  mkShape (ref_count s) (is_hashed s) b (hash s) (prop_size s) (deleted_prop_count s) (shape_hash_next s) (proto s)
    (prop_hash s) (prop s).
Definition set_proto (p : Z) (s : JSShape) : JSShape :=
  mkShape (ref_count s) (is_hashed s) (has_small_array_index s) (hash s) (prop_size s) (deleted_prop_count s)
    (shape_hash_next s) p (prop_hash s) (prop s).

(** ** Hashing *)
Definition shape_hash (h val : Z) : Z := u32 (u32 (h + u32 val) * 0x9e370001).
Definition get_shape_hash (h hash_bits : Z) : Z := Z.shiftr h (32 - hash_bits).
Definition shape_initial_hash (proto : Z) : Z := shape_hash (shape_hash 1 proto) (Z.shiftr proto 32).

Section shapes.
Context {A : Type} {ops : AtomOps A}.
Abbreviation JSRuntime := (JSRuntime A).

Definition init_shape_hash (rt : JSRuntime) : bool * JSRuntime :=
  let '(ok, rt) := alloc_ok rt in
  if ok then (true, set_hash 4 0 (replicate 16 0) rt) else (false, rt).

(** The loop over a chain in [resize_shape_hash]. *)
Fixpoint resize_chain (fuel : nat) (bits a : Z) (new_hash : list Z) (rt : JSRuntime) : res (list Z * JSRuntime) :=
  if a =? 0 then Ret (new_hash, rt)
  else match fuel with
  | O => NoFuel
  | S fuel =>
      sh ← get_shape rt a;
      let sh_next := shape_hash_next sh in
      let h := get_shape_hash (hash sh) bits in
      first ← of_opt (znth new_hash h);
      let rt := put_shape a (set_next first sh) rt in
      new_hash ← of_opt (zupd new_hash h a);
      resize_chain fuel bits sh_next new_hash rt
  end.

Fixpoint resize_buckets (fuel : nat) (bits : Z) (old new_hash : list Z) (rt : JSRuntime) : res (list Z * JSRuntime) :=
  match old with
  | [] => Ret (new_hash, rt)
  | a :: old =>
      '(new_hash, rt) ← resize_chain fuel bits a new_hash rt;
      resize_buckets fuel bits old new_hash rt
  end.

Definition resize_shape_hash (new_shape_hash_bits : Z) (rt : JSRuntime) : res (bool * JSRuntime) :=
  let '(ok, rt) := alloc_ok rt in
  if negb ok then Ret (false, rt)
  else
    let new_hash := replicate (Z.to_nat (Z.shiftl 1 new_shape_hash_bits)) 0 in
    '(new_hash, rt) ← resize_buckets (size (shapes rt)) new_shape_hash_bits (shape_table rt) new_hash rt;
    Ret (true, set_hash new_shape_hash_bits (shape_hash_count rt) new_hash rt).

Definition js_shape_hash_link (a : Z) (rt : JSRuntime) : res JSRuntime :=
  sh ← get_shape rt a;
  let h := get_shape_hash (hash sh) (shape_hash_bits rt) in
  first ← of_opt (znth (shape_table rt) h);
  let rt := put_shape a (set_next first sh) rt in
  l ← of_opt (zupd (shape_table rt) h a);
  Ret (set_hash (shape_hash_bits rt) (shape_hash_count rt + 1) l rt).

(** The loop of [js_shape_hash_unlink], from the shape [b] whose link is looked at. *)
Fixpoint unlink_walk (fuel : nat) (a b : Z) (rt : JSRuntime) : res JSRuntime :=
  match fuel with
  | O => NoFuel
  | S fuel =>
      sb ← get_shape rt b;
      if shape_hash_next sb =? a then
        sh ← get_shape rt a;
        Ret (put_shape b (set_next (shape_hash_next sh) sb) rt)
      else unlink_walk fuel a (shape_hash_next sb) rt
  end.

Definition js_shape_hash_unlink (a : Z) (rt : JSRuntime) : res JSRuntime :=
  sh ← get_shape rt a;
  let h := get_shape_hash (hash sh) (shape_hash_bits rt) in
  first ← of_opt (znth (shape_table rt) h);
  rt ← (if first =? a then
          l ← of_opt (zupd (shape_table rt) h (shape_hash_next sh));
          Ret (set_hash (shape_hash_bits rt) (shape_hash_count rt) l rt)
        else unlink_walk (size (shapes rt)) a first rt);
  Ret (set_hash (shape_hash_bits rt) (shape_hash_count rt - 1) (shape_table rt) rt).

(** ** Shapes *)

(** The address of the shape; 0: out of memory. *)
Definition js_new_shape2 (proto hash_size prop_size : Z) (rt : JSRuntime) : res (Z * JSRuntime) :=
  '(_, rt) ← (if zlen (shape_table rt) <? 2 * (shape_hash_count rt + 1) then
                resize_shape_hash (shape_hash_bits rt + 1) rt
              else Ret (true, rt));
  let '(ok, rt) := alloc_ok rt in
  if negb ok then Ret (0, rt)
  else
    let '(a, rt) := new_addr rt in
    let sh := mkShape 1 true false (shape_initial_hash proto) prop_size 0 0 proto
                (replicate (Z.to_nat hash_size) 0) [] in
    rt ← js_shape_hash_link a (put_shape a sh rt);
    Ret (a, rt).

Definition js_new_shape (proto : Z) (rt : JSRuntime) : res (Z * JSRuntime) :=
  js_new_shape2 proto JS_PROP_INITIAL_HASH_SIZE JS_PROP_INITIAL_SIZE rt.

Fixpoint dup_atoms (l : list JSShapeProperty) (s : A) : res A :=
  match l with
  | [] => Ret s
  | pr :: l => s ← JS_DupAtom (atom pr) s; dup_atoms l s
  end.

Fixpoint free_atoms (l : list JSShapeProperty) (s : A) : res A :=
  match l with
  | [] => Ret s
  | pr :: l => s ← JS_FreeAtom (atom pr) s; free_atoms l s
  end.

Definition js_clone_shape (a1 : Z) (rt : JSRuntime) : res (Z * JSRuntime) :=
  sh1 ← get_shape rt a1;
  let '(ok, rt) := alloc_ok rt in
  if negb ok then Ret (0, rt)
  else
    let '(a, rt) := new_addr rt in
    let sh := set_hashed false (set_ref_count 1 sh1) in
    s ← dup_atoms (prop sh) (atoms rt);
    Ret (a, set_atoms s (put_shape a sh rt)).

Definition js_dup_shape (a : Z) (rt : JSRuntime) : res JSRuntime :=
  sh ← get_shape rt a;
  Ret (put_shape a (set_ref_count (ref_count sh + 1) sh) rt).

Definition js_free_shape0 (a : Z) (rt : JSRuntime) : res JSRuntime :=
  sh ← get_shape rt a;
  _ ← assert_ (ref_count sh =? 0);
  rt ← (if is_hashed sh then js_shape_hash_unlink a rt else Ret rt);
  sh ← get_shape rt a;
  s ← free_atoms (prop sh) (atoms rt);
  Ret (set_atoms s (set_shapes (delete a (shapes rt)) rt)).

Definition js_free_shape (a : Z) (rt : JSRuntime) : res JSRuntime :=
  sh ← get_shape rt a;
  let rt := put_shape a (set_ref_count (ref_count sh - 1) sh) rt in
  if ref_count sh - 1 <=? 0 then js_free_shape0 a rt else Ret rt.

(** ** The table of a shape *)

(** The loop of [resize_properties] that builds the new table: the property with
    the index [i] comes first. *)
Fixpoint rehash (i : Z) (l : list JSShapeProperty) (ph : list Z) : res (list JSShapeProperty * list Z) :=
  match l with
  | [] => Ret ([], ph)
  | pr :: l =>
      if atom pr =? JS_ATOM_NULL then
        '(l, ph) ← rehash (i + 1) l ph;
        Ret (pr :: l, ph)
      else
        let h := Z.land (atom pr) (zlen ph - 1) in
        first ← of_opt (znth ph h);
        ph ← of_opt (zupd ph h (i + 1));
        '(l, ph) ← rehash (i + 1) l ph;
        Ret (mkProp (wrap 26 first) (flags pr) (atom pr) :: l, ph)
  end.

(** [new_hash_size = 2 * new_hash_size] until it is large enough. *)
Fixpoint grow_hash (fuel : nat) (n new_size : Z) : res Z :=
  if new_size <=? n then Ret n
  else match fuel with
  | O => NoFuel
  | S fuel => grow_hash fuel (u32 (2 * n)) new_size
  end.

(** [p] gets the shape [a], which it owns a reference to. *)
Definition change_shape (p a : Z) (rt : JSRuntime) : res JSRuntime :=
  o ← get_object rt p;
  Ret (put_object p (mkObject a (values o)) rt).

(** [*psh = sh], where [psh] is the shape of [p], if there is an object. *)
Definition put_psh (p : option Z) (a : Z) (rt : JSRuntime) : res JSRuntime :=
  match p with Some p => change_shape p a rt | None => Ret rt end.

(** The shape moves; [None]: out of memory, nothing has changed but the size of
    the array of the object. *)
Definition resize_properties (a : Z) (p : option Z) (count : Z) (rt : JSRuntime) : res (option Z * JSRuntime) :=
  sh ← get_shape rt a;
  _ ← assert_ (prop_size sh * 3 <=? INT32_MAX);
  let new_size := max_int count (Z.quot (prop_size sh * 3) 2) in
  let '(ok, rt) := match p with Some _ => alloc_ok rt | None => (true, rt) end in
  if negb ok then Ret (None, rt)
  else
    rt ← match p with
         | Some p => o ← get_object rt p; Ret (put_object p (mkObject (shape o) (resize_values new_size (values o))) rt)
         | None => Ret rt
         end;
    new_hash_size ← grow_hash 32 (prop_hash_mask sh + 1) new_size;
    let '(ok, rt) := alloc_ok rt in
    if negb ok then Ret (None, rt)
    else
      let '(b, rt) := new_addr rt in
      '(l, ph) ← (if negb (new_hash_size =? prop_hash_mask sh + 1) then
                    rehash 0 (prop sh) (replicate (Z.to_nat new_hash_size) 0)
                  else Ret (prop sh, prop_hash sh));
      rt ← put_psh p b (set_shapes (<[b := set_props new_size (deleted_prop_count sh) ph l sh]> (delete a (shapes rt))) rt);
      Ret (Some b, rt).

(** The loop of [compact_properties]: the properties that are left, with their
    values.  [j] of them have been copied. *)
Fixpoint compact (j : Z) (l : list JSShapeProperty) (vs : list Z) (ph : list Z)
    : res (list JSShapeProperty * list Z * list Z) :=
  match l with
  | [] => Ret ([], [], ph)
  | pr :: l =>
      match vs with
      | [] => Fault
      | v :: vs =>
          if atom pr =? JS_ATOM_NULL then compact j l vs ph
          else
            let h := Z.land (atom pr) (zlen ph - 1) in
            first ← of_opt (znth ph h);
            ph ← of_opt (zupd ph h (j + 1));
            '(l, vs, ph) ← compact (j + 1) l vs ph;
            Ret (mkProp (wrap 26 first) (flags pr) (atom pr) :: l, v :: vs, ph)
      end
  end.

Fixpoint shrink_hash (fuel : nat) (n new_size : Z) : res Z :=
  if new_size <=? n / 2 then
    match fuel with
    | O => NoFuel
    | S fuel => shrink_hash fuel (n / 2) new_size
    end
  else Ret n.

(** [false]: out of memory. *)
Definition compact_properties (p : Z) (rt : JSRuntime) : res (bool * JSRuntime) :=
  o ← get_object rt p;
  sh ← get_shape rt (shape o);
  _ ← assert_ (negb (is_hashed sh));
  let new_size := max_int JS_PROP_INITIAL_SIZE (prop_count sh - deleted_prop_count sh) in
  _ ← assert_ (new_size <=? prop_size sh);
  new_hash_size ← shrink_hash 32 (prop_hash_mask sh + 1) new_size;
  let '(ok, rt) := alloc_ok rt in
  if negb ok then Ret (false, rt)
  else
    let '(b, rt) := new_addr rt in
    '(l, vs, ph) ← compact 0 (prop sh) (values o) (replicate (Z.to_nat new_hash_size) 0);
    _ ← assert_ (zlen l =? prop_count sh - deleted_prop_count sh);
    let values1 := vs ++ drop (length vs) (values o) in
    let rt := set_shapes (<[b := set_props new_size 0 ph l sh]> (delete (shape o) (shapes rt))) rt in
    let '(ok, rt) := alloc_ok rt in
    Ret (true, put_object p (mkObject b (if ok : bool then resize_values new_size values1 else values1)) rt).

(** The result is the address of the shape, which may have moved. *)
Definition add_shape_property (a : Z) (p : option Z) (atom prop_flags : Z) (rt : JSRuntime) : res (option Z * JSRuntime) :=
  sh ← get_shape rt a;
  rt ← (if is_hashed sh then js_shape_hash_unlink a rt else Ret rt);
  let new_shape_hash := shape_hash (shape_hash (hash sh) atom) prop_flags in
  '(r, rt) ← (if prop_size sh <=? prop_count sh then resize_properties a p (prop_count sh + 1) rt else Ret (Some a, rt));
  match r with
  | None =>
      rt ← (if is_hashed sh then js_shape_hash_link a rt else Ret rt);
      Ret (None, rt)
  | Some a =>
      rt ← (if is_hashed sh then
              sh ← get_shape rt a;
              js_shape_hash_link a (put_shape a (set_shape_hash new_shape_hash sh) rt)
            else Ret rt);
      sh ← get_shape rt a;
      _ ← assert_ (prop_count sh <? prop_size sh);
      s ← JS_DupAtom atom (atoms rt);
      let h := Z.land atom (prop_hash_mask sh) in
      first ← of_opt (znth (prop_hash sh) h);
      ph ← of_opt (zupd (prop_hash sh) h (prop_count sh + 1));
      let sh := set_props (prop_size sh) (deleted_prop_count sh) ph
                  (prop sh ++ [mkProp (wrap 26 first) (wrap 6 prop_flags) atom])
                  (set_small (has_small_array_index sh || __JS_AtomIsTaggedInt atom) sh) in
      Ret (Some a, set_atoms s (put_shape a sh rt))
  end.

(** ** Finding *)

(** The chain of a table; 0: not found. *)
Fixpoint proto_walk (fuel : nat) (rt : JSRuntime) (h proto0 a : Z) : res Z :=
  if a =? 0 then Ret 0
  else match fuel with
  | O => NoFuel
  | S fuel =>
      sh1 ← get_shape rt a;
      if (hash sh1 =? h) && (proto sh1 =? proto0) && (prop_count sh1 =? 0) then Ret a
      else proto_walk fuel rt h proto0 (shape_hash_next sh1)
  end.

Definition find_hashed_shape_proto (proto0 : Z) (rt : JSRuntime) : res Z :=
  let h := shape_initial_hash proto0 in
  a ← of_opt (znth (shape_table rt) (get_shape_hash h (shape_hash_bits rt)));
  proto_walk (size (shapes rt)) rt h proto0 a.

Definition same_prop (p q : JSShapeProperty) : bool := (atom p =? atom q) && (flags p =? flags q).

(** The properties of [sh1] are those of [sh] and one more. *)
Fixpoint props_match (l1 l : list JSShapeProperty) (atom0 prop_flags : Z) : bool :=
  match l, l1 with
  | [], [pr1] => (atom pr1 =? atom0) && (flags pr1 =? prop_flags)
  | pr :: l, pr1 :: l1 => same_prop pr1 pr && props_match l1 l atom0 prop_flags
  | _, _ => false
  end.

Fixpoint prop_walk (fuel : nat) (rt : JSRuntime) (h : Z) (sh : JSShape) (atom0 prop_flags a : Z) : res Z :=
  if a =? 0 then Ret 0
  else match fuel with
  | O => NoFuel
  | S fuel =>
      sh1 ← get_shape rt a;
      if (hash sh1 =? h) && (proto sh1 =? proto sh) && (prop_count sh1 =? prop_count sh + 1)
         && props_match (prop sh1) (prop sh) atom0 prop_flags then Ret a
      else prop_walk fuel rt h sh atom0 prop_flags (shape_hash_next sh1)
  end.

Definition find_hashed_shape_prop (sh : JSShape) (atom0 prop_flags : Z) (rt : JSRuntime) : res Z :=
  let h := shape_hash (shape_hash (hash sh) atom0) prop_flags in
  a ← of_opt (znth (shape_table rt) (get_shape_hash h (shape_hash_bits rt)));
  prop_walk (size (shapes rt)) rt h sh atom0 prop_flags a.

(** The search in the table of a shape: the property before it in the chain, if
    any, and its number from 1; 0: not found. *)
Fixpoint find_walk (fuel : nat) (l : list JSShapeProperty) (atom0 : Z) (lpr : option Z) (h : Z) : res (option Z * Z) :=
  if h =? 0 then Ret (lpr, 0)
  else match fuel with
  | O => NoFuel
  | S fuel =>
      pr ← of_opt (znth l (h - 1));
      if atom pr =? atom0 then Ret (lpr, h)
      else find_walk fuel l atom0 (Some (h - 1)) (hash_next pr)
  end.

Definition find_prop (sh : JSShape) (atom0 : Z) : res (option Z * Z) :=
  first ← of_opt (znth (prop_hash sh) (Z.land atom0 (prop_hash_mask sh)));
  find_walk (length (prop sh)) (prop sh) atom0 None first.

(** The flags of the property and its index. *)
Definition find_own_property (p atom0 : Z) (rt : JSRuntime) : res (option (Z * Z)) :=
  o ← get_object rt p;
  sh ← get_shape rt (shape o);
  '(_, h) ← find_prop sh atom0;
  if h =? 0 then Ret None
  else
    pr ← of_opt (znth (prop sh) (h - 1));
    _ ← of_opt (znth (values o) (h - 1));
    Ret (Some (flags pr, h - 1)).

(** ** Objects *)

(** The address of the object; 0: out of memory. *)
Definition JS_NewObjectFromShape (a : Z) (rt : JSRuntime) : res (Z * JSRuntime) :=
  let '(ok, rt) := alloc_ok rt in
  if negb ok then rt ← js_free_shape a rt; Ret (0, rt)
  else
    sh ← get_shape rt a;
    let '(ok, rt) := alloc_ok rt in
    if negb ok then rt ← js_free_shape a rt; Ret (0, rt)
    else
      let '(p, rt) := new_addr rt in
      Ret (p, put_object p (mkObject a (replicate (Z.to_nat (prop_size sh)) 0)) rt).

Definition JS_NewObjectProto (proto0 : Z) (rt : JSRuntime) : res (Z * JSRuntime) :=
  a ← find_hashed_shape_proto proto0 rt;
  if negb (a =? 0) then
    rt ← js_dup_shape a rt;
    JS_NewObjectFromShape a rt
  else
    '(a, rt) ← js_new_shape proto0 rt;
    if a =? 0 then Ret (0, rt) else JS_NewObjectFromShape a rt.

(** What [free_object] does to the shape and the properties. *)
Definition free_object (p : Z) (rt : JSRuntime) : res JSRuntime :=
  o ← get_object rt p;
  sh ← get_shape rt (shape o);
  _ ← assert_ (prop_count sh <=? zlen (values o));
  rt ← js_free_shape (shape o) rt;
  Ret (set_objects (delete p (objects rt)) rt).

(** The index of the new property; [None]: out of memory. *)
Definition add_property_unshared (p atom0 prop_flags : Z) (rt : JSRuntime) : res (option Z * JSRuntime) :=
  o ← get_object rt p;
  sh ← get_shape rt (shape o);
  _ ← assert_ (ref_count sh =? 1);
  '(r, rt) ← add_shape_property (shape o) (Some p) atom0 prop_flags rt;
  match r with
  | None => Ret (None, rt)
  | Some a =>
      sh ← get_shape rt a;
      Ret (Some (prop_count sh - 1), rt)
  end.

Definition add_property (p atom0 prop_flags : Z) (rt : JSRuntime) : res (option Z * JSRuntime) :=
  o ← get_object rt p;
  sh ← get_shape rt (shape o);
  if is_hashed sh then
    new_sh ← find_hashed_shape_prop sh atom0 prop_flags rt;
    if negb (new_sh =? 0) then
      nsh ← get_shape rt new_sh;
      '(ok, rt) ← (if negb (prop_size nsh =? prop_size sh) then
                     let '(ok, rt) := alloc_ok rt in
                     Ret (ok, if ok then put_object p (mkObject (shape o) (resize_values (prop_size nsh) (values o))) rt
                              else rt)
                   else Ret (true, rt));
      if negb (ok : bool) then Ret (None, rt)
      else
        rt ← js_dup_shape new_sh rt;
        rt ← change_shape p new_sh rt;
        rt ← js_free_shape (shape o) rt;
        Ret (Some (prop_count nsh - 1), rt)
    else if negb (ref_count sh =? 1) then
      '(a, rt) ← js_clone_shape (shape o) rt;
      if a =? 0 then Ret (None, rt)
      else
        nsh ← get_shape rt a;
        rt ← js_shape_hash_link a (put_shape a (set_hashed true nsh) rt);
        rt ← js_free_shape (shape o) rt;
        rt ← change_shape p a rt;
        add_property_unshared p atom0 prop_flags rt
    else add_property_unshared p atom0 prop_flags rt
  else add_property_unshared p atom0 prop_flags rt.

(** [false]: out of memory. *)
Definition js_shape_prepare_update (p : Z) (rt : JSRuntime) : res (bool * JSRuntime) :=
  o ← get_object rt p;
  sh ← get_shape rt (shape o);
  if is_hashed sh then
    if negb (ref_count sh =? 1) then
      '(a, rt) ← js_clone_shape (shape o) rt;
      if a =? 0 then Ret (false, rt)
      else
        rt ← js_free_shape (shape o) rt;
        rt ← change_shape p a rt;
        Ret (true, rt)
    else
      rt ← js_shape_hash_unlink (shape o) rt;
      sh ← get_shape rt (shape o);
      Ret (true, put_shape (shape o) (set_hashed false sh) rt)
  else Ret (true, rt).

(** The property with the index [i]. *)
Definition js_update_property_flags (p i flags0 : Z) (rt : JSRuntime) : res (bool * JSRuntime) :=
  o ← get_object rt p;
  sh ← get_shape rt (shape o);
  pr ← of_opt (znth (prop sh) i);
  if negb (flags0 =? flags pr) then
    '(ok, rt) ← js_shape_prepare_update p rt;
    if negb (ok : bool) then Ret (false, rt)
    else
      o ← get_object rt p;
      sh ← get_shape rt (shape o);
      pr ← of_opt (znth (prop sh) i);
      l ← of_opt (zupd (prop sh) i (mkProp (hash_next pr) (wrap 6 flags0) (atom pr)));
      Ret (true, put_shape (shape o) (set_props (prop_size sh) (deleted_prop_count sh) (prop_hash sh) l sh) rt)
  else Ret (true, rt).

(** [JS_SetPrototypeInternal], once it is known that the prototype may change. *)
Definition set_prototype (p proto0 : Z) (rt : JSRuntime) : res (bool * JSRuntime) :=
  '(ok, rt) ← js_shape_prepare_update p rt;
  if negb (ok : bool) then Ret (false, rt)
  else
    o ← get_object rt p;
    sh ← get_shape rt (shape o);
    Ret (true, put_shape (shape o) (set_proto proto0 sh) rt).

Definition JS_UNDEFINED_VALUE : Z := 0.

(** The property [h] leaves its chain and its entry is freed. *)
Definition remove_property (p atom0 : Z) (lpr : option Z) (h : Z) (rt : JSRuntime) : res JSRuntime :=
  o ← get_object rt p;
  sh ← get_shape rt (shape o);
  pr ← of_opt (znth (prop sh) (h - 1));
  '(l, ph) ← match lpr with
             | Some i =>
                 lp ← of_opt (znth (prop sh) i);
                 l ← of_opt (zupd (prop sh) i (mkProp (hash_next pr) (flags lp) (atom lp)));
                 Ret (l, prop_hash sh)
             | None =>
                 ph ← of_opt (zupd (prop_hash sh) (Z.land atom0 (prop_hash_mask sh)) (hash_next pr));
                 Ret (prop sh, ph)
             end;
  s ← JS_FreeAtom (atom pr) (atoms rt);
  pr ← of_opt (znth l (h - 1));
  l ← of_opt (zupd l (h - 1) (mkProp (hash_next pr) 0 JS_ATOM_NULL));
  vs ← of_opt (zupd (values o) (h - 1) JS_UNDEFINED_VALUE);
  let sh := set_props (prop_size sh) (deleted_prop_count sh + 1) ph l sh in
  Ret (put_object p (mkObject (shape o) vs) (put_shape (shape o) sh (set_atoms s rt))).

(** 1, 0, or -1 when memory runs out.  For objects without exotic methods. *)
Definition delete_property (p atom0 : Z) (rt : JSRuntime) : res (Z * JSRuntime) :=
  o ← get_object rt p;
  sh ← get_shape rt (shape o);
  '(lpr, h) ← find_prop sh atom0;
  if h =? 0 then Ret (1, rt)
  else
    pr ← of_opt (znth (prop sh) (h - 1));
    if Z.land (flags pr) JS_PROP_CONFIGURABLE =? 0 then Ret (0, rt)
    else
      '(ok, rt) ← js_shape_prepare_update p rt;
      if negb (ok : bool) then Ret (-1, rt)
      else
        rt ← remove_property p atom0 lpr h rt;
        o ← get_object rt p;
        sh ← get_shape rt (shape o);
        if (8 <=? deleted_prop_count sh) && (prop_count sh / 2 <=? deleted_prop_count sh) then
          '(_, rt) ← compact_properties p rt;
          Ret (1, rt)
        else Ret (1, rt).

(** [p->prop[i].u.value = v] *)
Definition set_value (p i v : Z) (rt : JSRuntime) : res JSRuntime :=
  o ← get_object rt p;
  vs ← of_opt (zupd (values o) i v);
  Ret (put_object p (mkObject (shape o) vs) rt).

Definition get_value (p i : Z) (rt : JSRuntime) : res Z :=
  o ← get_object rt p;
  of_opt (znth (values o) i).

(** ** The length of arrays that are not fast *)

(** The elements one by one. *)
Fixpoint delete_down (fuel : nat) (p len cur_len : Z) (rt : JSRuntime) : res (Z * JSRuntime) :=
  if cur_len <=? len then Ret (cur_len, rt)
  else match fuel with
  | O => NoFuel
  | S fuel =>
      '(atom0, s) ← JS_NewAtomUInt32 (cur_len - 1) (atoms rt);
      '(ret, rt) ← delete_property p atom0 (set_atoms s rt);
      s ← JS_FreeAtom atom0 (atoms rt);
      let rt := set_atoms s rt in
      if ret =? 0 then Ret (cur_len, rt) else delete_down fuel p len (cur_len - 1) rt
  end.

(** The first pass over the properties: the length that they allow. *)
Fixpoint least_length (l : list JSShapeProperty) (cur_len : Z) (s : A) : res Z :=
  match l with
  | [] => Ret cur_len
  | pr :: l =>
      if atom pr =? JS_ATOM_NULL then least_length l cur_len s
      else
        idx ← JS_AtomIsArrayIndex (atom pr) s;
        least_length l (match idx with
                        | Some idx =>
                            if (cur_len <=? idx) && (Z.land (flags pr) JS_PROP_CONFIGURABLE =? 0) then u32 (idx + 1)
                            else cur_len
                        | None => cur_len
                        end) s
  end.

(** The second pass, from the property [i]: the shape is looked at again each
    time, since [delete_property] can change it. *)
Fixpoint delete_from (fuel : nat) (p i cur_len : Z) (rt : JSRuntime) : res JSRuntime :=
  o ← get_object rt p;
  sh ← get_shape rt (shape o);
  if prop_count sh <=? i then Ret rt
  else match fuel with
  | O => NoFuel
  | S fuel =>
      pr ← of_opt (znth (prop sh) i);
      if atom pr =? JS_ATOM_NULL then delete_from fuel p (i + 1) cur_len rt
      else
        idx ← JS_AtomIsArrayIndex (atom pr) (atoms rt);
        match idx with
        | Some idx =>
            if cur_len <=? idx then
              '(_, rt) ← delete_property p (atom pr) rt;
              delete_from fuel p (i + 1) cur_len rt
            else delete_from fuel p (i + 1) cur_len rt
        | None => delete_from fuel p (i + 1) cur_len rt
        end
  end.

(** [set_array_length] on an array with [fast_array = 0] whose length may be
    written: 1, or 0 if an element is not configurable. *)
Definition set_array_length (p len : Z) (rt : JSRuntime) : res (Z * JSRuntime) :=
  cur_len ← get_value p 0 rt;
  '(cur_len, rt) ←
    (if len <? cur_len then
       let d := cur_len - len in
       o ← get_object rt p;
       sh ← get_shape rt (shape o);
       if d <=? prop_count sh then delete_down (Z.to_nat d) p len cur_len rt
       else
         cur_len ← least_length (prop sh) len (atoms rt);
         rt ← delete_from (length (prop sh)) p 0 cur_len rt;
         Ret (cur_len, rt)
     else Ret (len, rt));
  rt ← set_value p 0 cur_len rt;
  Ret (if len <? cur_len then 0 else 1, rt).
End shapes.
