(* ===== verification/ShapeSpec.v ===== *)
(** * Property lists: what an object is for a program

    The properties of an object in the order in which they were added, each with
    its flags and its value.  This is the specification of ShapeState.v: there
    are no shapes here, and objects share nothing. *)
From Stdlib Require Import ZArith Lia Bool.
From stdpp Require Import base numbers list.
From S2P Require Import Prelude.

Abbreviation proplist := (list (Z * (Z * Z))) (only parsing).

Definition keys (l : proplist) : list Z := map fst l.

Fixpoint find_key (a : Z) (l : proplist) : option (Z * Z) :=
  match l with
  | [] => None
  | (b, x) :: l => if b =? a then Some x else find_key a l
  end.

Definition remove_key (a : Z) (l : proplist) : proplist := filter (fun x => x.1 <> a) l.

Definition update_key (a : Z) (x : Z * Z) (l : proplist) : proplist :=
  map (fun y => if y.1 =? a then (a, x) else y) l.

(** A property changes where it is, or comes last. *)
Definition define_key (a : Z) (x : Z * Z) (l : proplist) : proplist :=
  match find_key a l with
  | Some _ => update_key a x l
  | None => l ++ [(a, x)]
  end.

(** ** Lemmas *)
Lemma keys_app l k : keys (l ++ k) = keys l ++ keys k.
Proof. apply map_app. Qed.

Lemma find_key_None a l : a ∉ keys l <-> find_key a l = None.
Proof.
  induction l as [| [b x] l IH]; cbn; [split; [done | intros _ H; by apply not_elem_of_nil in H] |].
  rewrite not_elem_of_cons. destruct (Z.eqb_spec b a) as [-> | D]; [split; [by intros [] | done] |].
  rewrite <- IH. split; [by intros [] | intros H; split; [congruence | done]].
Qed.

Lemma find_key_app a l k : a ∉ keys l -> find_key a (l ++ k) = find_key a k.
Proof.
  induction l as [| [b x] l IH]; intros H; [done |]. cbn in *. apply not_elem_of_cons in H as [H1 H2].
  rewrite (proj2 (Z.eqb_neq _ _)) by congruence. by apply IH.
Qed.

Lemma remove_key_absent a l : a ∉ keys l -> remove_key a l = l.
Proof.
  unfold remove_key. induction l as [| [b x] l IH]; intros H; [done |]. cbn in H. apply not_elem_of_cons in H as [H1 H2].
  rewrite filter_cons_True by (cbn; congruence). by rewrite IH.
Qed.

Lemma update_key_absent a x l : a ∉ keys l -> update_key a x l = l.
Proof.
  unfold update_key. induction l as [| [b y] l IH]; intros H; [done |]. cbn in *. apply not_elem_of_cons in H as [H1 H2].
  rewrite (proj2 (Z.eqb_neq _ _)) by congruence. by rewrite IH.
Qed.

Lemma keys_middle a x l1 l2 : NoDup (keys (l1 ++ (a, x) :: l2)) -> a ∉ keys l1 /\ a ∉ keys l2.
Proof.
  rewrite keys_app. cbn. intros H. apply list.NoDup_app in H as (_ & H1 & H2). apply list.NoDup_cons in H2 as [H2 _].
  split; [| done]. intros Ha. apply (H1 a Ha). by left.
Qed.

Lemma find_middle a x l1 l2 : a ∉ keys l1 -> find_key a (l1 ++ (a, x) :: l2) = Some x.
Proof. intros H. rewrite find_key_app by done. cbn. by rewrite Z.eqb_refl. Qed.

Lemma remove_middle a x l1 l2 : a ∉ keys l1 -> a ∉ keys l2 -> remove_key a (l1 ++ (a, x) :: l2) = l1 ++ l2.
Proof.
  intros H1 H2. unfold remove_key. rewrite list.filter_app, filter_cons_False by (intros H; by apply H).
  fold (remove_key a l1) (remove_key a l2). by rewrite !remove_key_absent.
Qed.

Lemma update_middle a x y l1 l2 : a ∉ keys l1 -> a ∉ keys l2 ->
  update_key a y (l1 ++ (a, x) :: l2) = l1 ++ (a, y) :: l2.
Proof.
  intros H1 H2. unfold update_key. rewrite map_app. cbn. rewrite Z.eqb_refl.
  fold (update_key a y l1) (update_key a y l2). by rewrite !update_key_absent.
Qed.
