(* ===== verification/ShapeFacts.v ===== *)
(** * quickjs.c: the properties of one shape

    The table of a shape finds exactly the properties that are not deleted, and
    its operations keep it so. *)
From Stdlib Require Import ZArith Lia Bool.
From stdpp Require Import base numbers list gmap.
From S2P Require Import Prelude Cutils Chains JSValue AtomState ShapeState ShapeSpec.

(** The nodes of the chains are the numbers of the properties, from 1. *)
Definition pnext (l : list JSShapeProperty) (i : Z) : option Z := hash_next <$> znth l (i - 1).
Definition pbucket (size : Z) (l : list JSShapeProperty) (i : Z) : option Z :=
  match znth l (i - 1) with
  | Some pr => if atom pr =? JS_ATOM_NULL then None else Some (Z.land (atom pr) (size - 1))
  | None => None
  end.

(** The atoms of the properties that are not deleted; none occurs twice. *)
Definition atoms_of (l : list JSShapeProperty) : list Z := map atom (filter (fun p => atom p <> JS_ATOM_NULL) l).
Definition distinct (l : list JSShapeProperty) : Prop := NoDup (atoms_of l).

(** [n] bounds the number of properties. *)
Record shape_wf (n : Z) (sh : JSShape) : Prop := {
  sw_size : exists k, 0 <= k <= 30 /\ zlen (prop_hash sh) = 2 ^ k;
  sw_table : table (pnext (prop sh)) (prop_hash sh) (pbucket (zlen (prop_hash sh)) (prop sh));
  sw_distinct : distinct (prop sh);
  sw_deleted : deleted_prop_count sh = countb (fun p => atom p =? JS_ATOM_NULL) (prop sh);
  sw_count : prop_count sh <= prop_size sh;
  sw_small : prop_count sh <= n /\ 2 <= prop_size sh <= 2 * n + 2
}.

Lemma mask_range a k : 0 <= k -> 0 <= Z.land a (2 ^ k - 1) < 2 ^ k.
Proof. intros Hk. rewrite land_mask by done. apply Z.mod_pos_bound. by apply Z.pow_pos_nonneg. Qed.

(** ** Lists of properties *)
Lemma znth_snoc {X} (l : list X) x : znth (l ++ [x]) (zlen l) = Some x.
Proof. apply znth_Some. split; [apply zlen_nonneg |]. unfold zlen. by rewrite Nat2Z.id, list_lookup_middle. Qed.

Lemma pbucket_range size l i b : pbucket size l i = Some b -> 0 < i <= zlen l.
Proof.
  unfold pbucket. destruct (znth l (i - 1)) eqn:E; [| done]. apply znth_lt_Some in E. lia.
Qed.

Lemma pbucket_old size l k i : i <= zlen l -> pbucket size (l ++ k) i = pbucket size l i.
Proof. intros H. unfold pbucket. by rewrite znth_app_l by lia. Qed.

Lemma pnext_old l k i : i <= zlen l -> pnext (l ++ k) i = pnext l i.
Proof. intros H. unfold pnext. by rewrite znth_app_l by lia. Qed.

Lemma pbucket_snoc size l pr i : i <> zlen l + 1 -> pbucket size (l ++ [pr]) i = pbucket size l i.
Proof.
  intros H. destruct (Z.le_gt_cases i (zlen l)); [by apply pbucket_old |]. unfold pbucket.
  destruct (znth (l ++ [pr]) (i - 1)) eqn:E; [apply znth_lt_Some in E; rewrite zlen_app in E; unfold zlen in *; cbn in E; lia |].
  destruct (znth l (i - 1)) eqn:E'; [apply znth_lt_Some in E'; lia | done].
Qed.

(** A property is added at the end. *)
Lemma table_snoc size l pr ph first ph' : table (pnext l) ph (pbucket size l) ->
  atom pr <> JS_ATOM_NULL -> znth ph (Z.land (atom pr) (size - 1)) = Some first ->
  zupd ph (Z.land (atom pr) (size - 1)) (zlen l + 1) = Some ph' -> hash_next pr = first ->
  table (pnext (l ++ [pr])) ph' (pbucket size (l ++ [pr])).
Proof.
  intros T Ha Hf Hu Hn. pose proof (zlen_nonneg l).
  eapply (table_push (pnext l) _ ph ph' (pbucket size l) _ (Z.land (atom pr) (size - 1)) (zlen l + 1)); try done.
  - lia.
  - destruct (pbucket size l (zlen l + 1)) eqn:E; [| done]. apply pbucket_range in E. lia.
  - unfold pnext. replace (zlen l + 1 - 1) with (zlen l) by lia. rewrite znth_snoc. cbn. by rewrite Hn.
  - intros y [b Hy]. apply pbucket_range in Hy. by rewrite pnext_old by lia.
  - unfold pbucket. replace (zlen l + 1 - 1) with (zlen l) by lia. rewrite znth_snoc.
    by rewrite (proj2 (Z.eqb_neq _ _) Ha).
  - intros y Hy. by apply pbucket_snoc.
Qed.

Lemma table_snoc_null size l pr ph : table (pnext l) ph (pbucket size l) -> atom pr = JS_ATOM_NULL ->
  table (pnext (l ++ [pr])) ph (pbucket size (l ++ [pr])).
Proof.
  intros T Ha. apply (table_ext (pnext l) _ ph (pbucket size l)); [done | |].
  - intros i [b Hb]. apply pbucket_range in Hb. by rewrite pnext_old by lia.
  - intros i. destruct (decide (i = zlen l + 1)) as [-> | D]; [| by apply pbucket_snoc].
    unfold pbucket. replace (zlen l + 1 - 1) with (zlen l) by lia. rewrite znth_snoc, Ha. cbn.
    destruct (znth l (zlen l)) eqn:E; [apply znth_lt_Some in E; lia | done].
Qed.

(** The heads are numbers of properties. *)
Lemma head_small size l ph h first : table (pnext l) ph (pbucket size l) -> znth ph h = Some first -> 0 <= first <= zlen l.
Proof.
  intros T H. destruct (table_chain _ _ _ h T (znth_lt_Some _ _ _ H)) as (i & c & Hi & Hl & Hm).
  assert (i = first) as -> by congruence. destruct c as [| x c]; [cbn in Hl; subst; pose proof (zlen_nonneg l); lia |].
  destruct Hl as (-> & _). assert (pbucket size l x = Some h) as Hx by (apply Hm; by left). apply pbucket_range in Hx. lia.
Qed.

(** ** Finding *)
Lemma find_prop_walk_spec l at0 : forall ch h lpr fuel, linked (pnext l) h ch -> (length ch <= fuel)%nat ->
  exists r x, find_walk fuel l at0 lpr h = Ret (r, x) /\
  (x = 0 /\ (forall i p, i ∈ ch -> znth l (i - 1) = Some p -> atom p <> at0) \/
   x <> 0 /\ exists l1 l2 p, ch = l1 ++ x :: l2 /\ znth l (x - 1) = Some p /\ atom p = at0 /\
     r = match list.last l1 with Some y => Some (y - 1) | None => lpr end).
Proof.
  induction ch as [| j ch IH]; intros h lpr fuel H Hf.
  { cbn in H. subst h. exists lpr, 0. split; [by destruct fuel |]. left. split; [done |].
    intros i p Hi. by apply not_elem_of_nil in Hi. }
  destruct H as (-> & Hj & k & Hk & Hl). destruct fuel as [| fuel]; [cbn in Hf; lia |]. cbn [find_walk].
  rewrite (proj2 (Z.eqb_neq _ _) Hj). unfold pnext in Hk. destruct (znth l (j - 1)) as [pr |] eqn:Ez; [| done].
  injection Hk as <-. cbn [of_opt mbind res_bind]. destruct (Z.eqb_spec (atom pr) at0) as [Ea | Ea].
  - exists lpr, j. split; [done |]. right. split; [done |]. by exists [], ch, pr.
  - destruct (IH (hash_next pr) (Some (j - 1)) fuel Hl ltac:(cbn in Hf; lia)) as (r & x & -> & Hr).
    exists r, x. split; [done |]. destruct Hr as [(-> & Hr) | (Hx & l1 & l2 & p & -> & Hp & Hpa & ->)].
    + left. split; [done |]. intros i p [-> | Hi]%elem_of_cons Hp; [congruence | by eapply Hr].
    + right. split; [done |]. exists (j :: l1), l2, p. split_and!; [done | done | done |].
      rewrite last_cons. by destruct (list.last l1).
Qed.

(** Where a property is in its chain. *)
Definition in_chain (sh : JSShape) (lpr : option Z) (h : Z) (p : JSShapeProperty) : Prop :=
  let b := Z.land (atom p) (prop_hash_mask sh) in
  znth (prop sh) (h - 1) = Some p /\ exists first l1 l2, znth (prop_hash sh) b = Some first /\
    linked (pnext (prop sh)) first (l1 ++ h :: l2) /\
    match lpr with Some i => exists l3, l1 = l3 ++ [i + 1] | None => l1 = [] end.

Lemma chain_length_prop size l ph b c first : table (pnext l) ph (pbucket size l) -> linked (pnext l) first c ->
  (forall x, x ∈ c <-> pbucket size l x = Some b) -> (length c <= length l)%nat.
Proof.
  intros T Hl Hm. rewrite <- (length_map Z.pred c), <- (Nat2Z.id (length l)). apply nodup_bounded.
  - apply NoDup_fmap_2; [intros x y; lia | by eapply linked_nodup].
  - intros i Hi. change (map Z.pred c) with (Z.pred <$> c) in Hi. apply list_elem_of_fmap in Hi as (y & -> & Hy).
    apply Hm, pbucket_range in Hy. unfold zlen in Hy. lia.
Qed.

Lemma find_prop_spec n sh at0 : shape_wf n sh -> at0 <> JS_ATOM_NULL -> exists lpr h, find_prop sh at0 = Ret (lpr, h) /\
  (h = 0 /\ (forall i p, znth (prop sh) i = Some p -> atom p <> at0) \/
   h <> 0 /\ exists p, atom p = at0 /\ in_chain sh lpr h p).
Proof.
  intros W H0. destruct (sw_size _ _ W) as (k & Hk & Es). pose proof (sw_table _ _ W) as T.
  assert (0 <= Z.land at0 (prop_hash_mask sh) < zlen (prop_hash sh)) as Hr
    by (unfold prop_hash_mask; rewrite Es; apply mask_range; lia).
  destruct (table_chain _ _ _ _ T Hr) as (first & c & Hf & Hl & Hm). unfold find_prop. rewrite Hf. cbn [of_opt mbind res_bind].
  destruct (find_prop_walk_spec (prop sh) at0 c first None (length (prop sh)) Hl) as (lpr & h & -> & Hcase).
  { by eapply chain_length_prop. }
  exists lpr, h. split; [done |]. destruct Hcase as [(-> & Hno) | (Hh & l1 & l2 & p & -> & Hp & Ha & ->)].
  - left. split; [done |]. intros i p Hi Ha. apply (Hno (i + 1) p); [| by replace (i + 1 - 1) with i by lia | done].
    apply Hm. unfold pbucket. replace (i + 1 - 1) with i by lia. rewrite Hi.
    by rewrite (proj2 (Z.eqb_neq _ _)) by congruence; rewrite Ha.
  - right. split; [done |]. exists p. split; [done |]. split; [done |]. exists first, l1, l2. rewrite Ha.
    split_and!; [done | done |]. destruct (list.last l1) as [y |] eqn:Ey; [| by apply last_None].
    apply last_Some in Ey as (l3 & ->). exists l3. do 2 f_equal. lia.
Qed.

(** ** Building the table again *)
Definition same_prop_rel (p q : JSShapeProperty) : Prop := atom p = atom q /\ flags p = flags q.

Lemma wrap26_small x : 0 <= x < 2 ^ 26 -> wrap 26 x = x.
Proof. apply wrap_small. Qed.

Lemma rehash_props_spec k l : forall done ph, zlen ph = 2 ^ k -> 0 <= k -> zlen done + zlen l < 2 ^ 26 ->
  table (pnext done) ph (pbucket (2 ^ k) done) -> exists l' ph', rehash (zlen done) l ph = Ret (l', ph') /\
  zlen ph' = 2 ^ k /\ Forall2 same_prop_rel l l' /\ table (pnext (done ++ l')) ph' (pbucket (2 ^ k) (done ++ l')).
Proof.
  induction l as [| pr l IH]; intros done ph Hph Hk Hb T.
  { exists [], ph. rewrite app_nil_r. split_and!; [done | done | constructor | done]. }
  rewrite zlen_cons in Hb. pose proof (zlen_nonneg done). pose proof (zlen_nonneg l). cbn [rehash].
  assert (forall pr', zlen (done ++ [pr']) = zlen done + 1) as Hlen by (intros; rewrite zlen_app; reflexivity).
  destruct (Z.eqb_spec (atom pr) JS_ATOM_NULL) as [Ea | Ea].
  - destruct (IH (done ++ [pr]) ph) as (l' & ph' & E & Hz & H2 & T'); [done | done | rewrite Hlen; lia | by apply table_snoc_null |].
    rewrite Hlen in E. rewrite E. cbn [mbind res_bind]. exists (pr :: l'), ph'. rewrite <- app_assoc in T'.
    split_and!; [done | done | by constructor | done].
  - rewrite Hph. assert (0 <= Z.land (atom pr) (2 ^ k - 1) < zlen ph) as Hr by (rewrite Hph; by apply mask_range).
    destruct (proj2 (znth_is_Some ph _) Hr) as [first Hf]. destruct (zupd_is_Some ph (Z.land (atom pr) (2 ^ k - 1)) (zlen done + 1) Hr) as [ph1 Hu].
    rewrite Hf, Hu. cbn [of_opt mbind res_bind]. pose proof (head_small _ _ _ _ _ T Hf) as Hs.
    set (pr' := mkProp (wrap 26 first) (flags pr) (atom pr)).
    destruct (IH (done ++ [pr']) ph1) as (l' & ph' & E & Hz & H2 & T');
      [by rewrite (zupd_zlen _ _ _ _ Hu) | done | rewrite Hlen; lia | |].
    { eapply table_snoc; try done. cbn. by rewrite wrap26_small by lia. }
    rewrite Hlen in E. rewrite E. cbn [mbind res_bind]. exists (pr' :: l'), ph'. rewrite <- app_assoc in T'.
    split_and!; [done | done | by constructor | done].
Qed.

Lemma table_nil k : table (pnext []) (replicate (Z.to_nat (2 ^ k)) 0) (pbucket (2 ^ k) []).
Proof. apply table_empty. intros i. unfold pbucket. destruct (znth [] (i - 1)) eqn:E; [apply znth_lt_Some in E; unfold zlen in E; cbn in E; lia | done]. Qed.

Lemma zlen_heads k : 0 <= k -> zlen (replicate (Z.to_nat (2 ^ k)) 0) = 2 ^ k.
Proof. intros Hk. rewrite zlen_replicate, Z2Nat.id; [done |]. apply Z.pow_nonneg. lia. Qed.

(** The properties that are not deleted, with their values. *)
Fixpoint live (l : list JSShapeProperty) (vs : list Z) : proplist :=
  match l, vs with
  | pr :: l, v :: vs => if atom pr =? JS_ATOM_NULL then live l vs else (atom pr, (flags pr, v)) :: live l vs
  | _, _ => []
  end.

Lemma compact_spec k l : forall done vs ph, zlen ph = 2 ^ k -> 0 <= k -> zlen done + zlen l < 2 ^ 26 -> zlen l <= zlen vs ->
  table (pnext done) ph (pbucket (2 ^ k) done) -> exists l' vs' ph', compact (zlen done) l vs ph = Ret (l', vs', ph') /\
  zlen ph' = 2 ^ k /\ length l' = length vs' /\ live l' vs' = live l vs /\
  map atom l' = atoms_of l /\
  table (pnext (done ++ l')) ph' (pbucket (2 ^ k) (done ++ l')).
Proof.
  induction l as [| pr l IH]; intros done vs ph Hph Hk Hb Hv T.
  { exists [], [], ph. rewrite app_nil_r. by split_and!. }
  destruct vs as [| v vs]; [rewrite zlen_cons in Hv; pose proof (zlen_nonneg l); unfold zlen in Hv; cbn in Hv; lia |].
  rewrite !zlen_cons in *. pose proof (zlen_nonneg done). pose proof (zlen_nonneg l). cbn [compact live].
  destruct (Z.eqb_spec (atom pr) JS_ATOM_NULL) as [Ea | Ea].
  - destruct (IH done vs ph Hph Hk ltac:(lia) ltac:(lia) T) as (l' & vs' & ph' & -> & ? & ? & ? & Hm & ?).
    exists l', vs', ph'. unfold atoms_of. rewrite filter_cons_False by (intros H'; by apply H'). by split_and!.
  - rewrite Hph. assert (0 <= Z.land (atom pr) (2 ^ k - 1) < zlen ph) as Hr by (rewrite Hph; by apply mask_range).
    destruct (proj2 (znth_is_Some ph _) Hr) as [first Hf]. destruct (zupd_is_Some ph (Z.land (atom pr) (2 ^ k - 1)) (zlen done + 1) Hr) as [ph1 Hu].
    rewrite Hf, Hu. cbn [of_opt mbind res_bind]. pose proof (head_small _ _ _ _ _ T Hf) as Hs.
    set (pr' := mkProp (wrap 26 first) (flags pr) (atom pr)).
    assert (zlen (done ++ [pr']) = zlen done + 1) as Hlen by (rewrite zlen_app; reflexivity).
    destruct (IH (done ++ [pr']) vs ph1) as (l' & vs' & ph' & E & Hz & Hl & Hlv & Hm & T');
      [by rewrite (zupd_zlen _ _ _ _ Hu) | done | rewrite Hlen; lia | lia | |].
    { eapply table_snoc; try done. cbn. by rewrite wrap26_small by lia. }
    rewrite Hlen in E. rewrite E. cbn [mbind res_bind]. exists (pr' :: l'), (v :: vs'), ph'. rewrite <- app_assoc in T'.
    split_and!; [done | done | cbn; by rewrite Hl | | | done].
    + cbn [live]. cbn [atom pr']. by rewrite (proj2 (Z.eqb_neq _ _) Ea), Hlv.
    + unfold atoms_of. rewrite filter_cons_True by done. cbn. by rewrite Hm.
Qed.

(** Deleted and other properties. *)
Lemma countb_filter_length l : zlen (filter (fun p => atom p <> JS_ATOM_NULL) l) =
  zlen l - countb (fun p => atom p =? JS_ATOM_NULL) l.
Proof.
  induction l as [| p l IH]; [done |]. cbn [countb]. rewrite zlen_cons. destruct (Z.eqb_spec (atom p) JS_ATOM_NULL) as [E | E].
  - rewrite filter_cons_False by (intros H; by apply H). lia.
  - rewrite filter_cons_True by done. rewrite zlen_cons. lia.
Qed.

(** ** The live properties *)
Definition entry (p : JSShapeProperty) (v : Z) : proplist :=
  if atom p =? JS_ATOM_NULL then [] else [(atom p, (flags p, v))].

Lemma live_cons p l v vs : live (p :: l) (v :: vs) = entry p v ++ live l vs.
Proof. cbn. unfold entry. by destruct (atom p =? JS_ATOM_NULL). Qed.

Lemma live_app l k : forall vs ws, length l = length vs -> live (l ++ k) (vs ++ ws) = live l vs ++ live k ws.
Proof.
  induction l as [| p l IH]; intros [| v vs] ws E; try done. cbn [app]. rewrite !live_cons, IH by (cbn in E; lia).
  by rewrite app_assoc.
Qed.

(** Only as many values as there are properties matter. *)
Lemma live_take l : forall vs, live l vs = live l (take (length l) vs).
Proof. induction l as [| p l IH]; intros [| v vs]; try done. cbn [length take]. by rewrite !live_cons, IH. Qed.

Lemma live_same l l' : Forall2 same_prop_rel l l' -> forall vs, live l vs = live l' vs.
Proof.
  induction 1 as [| p q l l' [Ea Ef] _ IH]; intros [| v vs]; try done. rewrite !live_cons, IH. unfold entry. by rewrite Ea, Ef.
Qed.

Lemma atoms_same l l' : Forall2 same_prop_rel l l' -> atoms_of l = atoms_of l' /\
  countb (fun p => atom p =? JS_ATOM_NULL) l = countb (fun p => atom p =? JS_ATOM_NULL) l'.
Proof.
  unfold atoms_of. induction 1 as [| p q l l' [Ea Ef] _ [IH1 IH2]]; [done |]. cbn [countb]. rewrite !filter_cons, Ea, IH2.
  split; [| done]. case_decide; cbn; by rewrite ?Ea, IH1.
Qed.

Lemma live_keys l : forall vs, (length l <= length vs)%nat -> keys (live l vs) = atoms_of l.
Proof.
  unfold atoms_of. induction l as [| p l IH]; intros [| v vs] H; try done; [cbn in H; lia |]. rewrite live_cons, keys_app, IH by (cbn in H; lia).
  unfold entry. destruct (Z.eqb_spec (atom p) JS_ATOM_NULL) as [E | E].
  - by rewrite filter_cons_False by (intros H'; by apply H').
  - by rewrite filter_cons_True by done.
Qed.

Lemma live_split l vs k p : l !! k = Some p -> (length l <= length vs)%nat -> exists l1 l2 v1 v v2,
  l = l1 ++ p :: l2 /\ vs = v1 ++ v :: v2 /\ length l1 = k /\ length v1 = k /\
  live l vs = live l1 v1 ++ entry p v ++ live l2 v2.
Proof.
  intros Hp Hlen. pose proof (lookup_lt_Some _ _ _ Hp) as Hk.
  destruct (lookup_lt_is_Some_2 vs k ltac:(lia)) as [v Hv].
  exists (take k l), (drop (S k) l), (take k vs), v, (drop (S k) vs).
  pose proof (take_drop_middle _ _ _ Hp) as El. pose proof (take_drop_middle _ _ _ Hv) as Ev.
  split_and!; [done | done | rewrite length_take; lia | rewrite length_take; lia |].
  rewrite <- El at 1. rewrite <- Ev at 1. rewrite live_app by (rewrite !length_take; lia). by rewrite live_cons.
Qed.

Lemma live_insert l1 p' l2 v1 v' v2 : length l1 = length v1 ->
  live (l1 ++ p' :: l2) (v1 ++ v' :: v2) = live l1 v1 ++ entry p' v' ++ live l2 v2.
Proof. intros E. by rewrite live_app, live_cons by done. Qed.

(** ** The invariant is kept *)
Lemma shape_wf_weaken n n' sh : n <= n' -> shape_wf n sh -> shape_wf n' sh.
Proof. intros Hn [? ? ? ? ? [? ?]]. split; try done. lia. Qed.

(** Only what the table does not look at changes. *)
Lemma shape_wf_same n sh sh' : shape_wf n sh -> prop_hash sh' = prop_hash sh -> prop sh' = prop sh ->
  prop_size sh' = prop_size sh -> deleted_prop_count sh' = deleted_prop_count sh -> shape_wf n sh'.
Proof. intros [] E1 E2 E3 E4. split; unfold prop_count in *; by rewrite ?E1, ?E2, ?E3, ?E4. Qed.

Lemma atoms_of_snoc l p : atom p <> JS_ATOM_NULL -> atoms_of (l ++ [p]) = atoms_of l ++ [atom p].
Proof.
  intros H. unfold atoms_of. rewrite list.filter_app, map_app. f_equal. by rewrite filter_cons_True by done.
Qed.

Lemma add_wf n sh sh' first ph pr : shape_wf n sh -> n < 2 ^ 25 -> atom pr <> JS_ATOM_NULL -> atom pr ∉ atoms_of (prop sh) ->
  prop_count sh < prop_size sh ->
  znth (prop_hash sh) (Z.land (atom pr) (prop_hash_mask sh)) = Some first ->
  zupd (prop_hash sh) (Z.land (atom pr) (prop_hash_mask sh)) (prop_count sh + 1) = Some ph ->
  hash_next pr = wrap 26 first -> prop_hash sh' = ph -> prop sh' = prop sh ++ [pr] -> prop_size sh' = prop_size sh ->
  deleted_prop_count sh' = deleted_prop_count sh -> shape_wf (n + 1) sh'.
Proof.
  intros W Hn Ha Hnew Hc Hf Hu Hnx Eph El Es Ed. pose proof (zupd_zlen _ _ _ _ Hu) as Hz.
  pose proof (sw_small _ _ W) as Hs. pose proof (sw_table _ _ W) as T. pose proof (head_small _ _ _ _ _ T Hf) as Hh.
  unfold prop_count, prop_hash_mask in *. split; rewrite ?Eph, ?El, ?Es, ?Ed.
  - rewrite Hz. apply (sw_size _ _ W).
  - rewrite Hz. apply (table_snoc _ _ pr (prop_hash sh) first); try done. rewrite Hnx. apply wrap26_small. lia.
  - unfold distinct. rewrite atoms_of_snoc by done. apply list.NoDup_app. split_and!; [apply (sw_distinct _ _ W) | | apply list.NoDup_singleton].
    intros x Hx Hx'. apply list_elem_of_singleton in Hx' as ->. done.
  - rewrite countb_app, (sw_deleted _ _ W). cbn. rewrite (proj2 (Z.eqb_neq _ _) Ha). lia.
  - unfold prop_count. rewrite El, zlen_app. unfold zlen at 2. cbn. lia.
  - unfold prop_count. rewrite El, zlen_app. unfold zlen at 2. cbn. lia.
Qed.

(** The table is built again, or the properties only get more room. *)
Lemma rebuilt_wf n n' sh sh' k : shape_wf n sh -> n <= n' -> 0 <= k <= 30 -> zlen (prop_hash sh') = 2 ^ k ->
  Forall2 same_prop_rel (prop sh) (prop sh') ->
  table (pnext (prop sh')) (prop_hash sh') (pbucket (2 ^ k) (prop sh')) ->
  deleted_prop_count sh' = deleted_prop_count sh -> prop_count sh <= prop_size sh' -> 2 <= prop_size sh' <= 2 * n' + 2 ->
  shape_wf n' sh'.
Proof.
  intros W Hn Hk Hz H2 T Ed Hc Hs. destruct (atoms_same _ _ H2) as [Ea Ec]. pose proof (list.Forall2_length _ _ _ H2) as Hlen.
  pose proof (sw_small _ _ W). unfold prop_count, zlen in *. split.
  - exists k. split; [lia | done].
  - unfold zlen. by rewrite Hz.
  - unfold distinct. rewrite <- Ea. apply (sw_distinct _ _ W).
  - rewrite Ed, (sw_deleted _ _ W). apply Ec.
  - unfold prop_count, zlen. lia.
  - unfold prop_count, zlen. lia.
Qed.

Lemma atoms_of_all l : (forall p, p ∈ l -> atom p <> JS_ATOM_NULL) -> atoms_of l = map atom l /\
  countb (fun p => atom p =? JS_ATOM_NULL) l = 0.
Proof.
  unfold atoms_of. induction l as [| p l IH]; intros H; [done |]. destruct IH as [IH1 IH2]; [intros q Hq; apply H; by right |].
  pose proof (H p ltac:(by left)) as Hp. rewrite filter_cons_True by done. cbn. rewrite IH1, IH2, (proj2 (Z.eqb_neq _ _) Hp). done.
Qed.

Lemma compacted_wf n sh sh' k : shape_wf n sh -> 0 <= k <= 30 -> zlen (prop_hash sh') = 2 ^ k ->
  map atom (prop sh') = atoms_of (prop sh) ->
  table (pnext (prop sh')) (prop_hash sh') (pbucket (2 ^ k) (prop sh')) ->
  deleted_prop_count sh' = 0 -> prop_size sh' = Z.max 2 (prop_count sh - deleted_prop_count sh) -> shape_wf n sh'.
Proof.
  intros W Hk Hz Ha T Ed Es. pose proof (sw_small _ _ W) as Hs. pose proof (sw_deleted _ _ W) as Hd.
  pose proof (zlen_nonneg (prop sh)).
  assert (zlen (prop sh') = prop_count sh - deleted_prop_count sh) as Hlen.
  { rewrite Hd. unfold prop_count. rewrite <- countb_filter_length. apply (f_equal length) in Ha. unfold atoms_of in Ha.
    rewrite !length_map in Ha. unfold zlen. by rewrite Ha. }
  assert (0 <= deleted_prop_count sh) by (rewrite Hd; apply countb_nonneg).
  destruct (atoms_of_all (prop sh')) as [E0 Ec].
  { intros p Hp. assert (atom p ∈ atoms_of (prop sh)) as Hin.
    { rewrite <- Ha. change (map atom) with (fmap (M := list) atom). by apply list_elem_of_fmap_2. }
    unfold atoms_of in Hin. change (map atom) with (fmap (M := list) atom) in Hin.
    apply list_elem_of_fmap in Hin as (q & -> & Hq). by apply list_elem_of_filter in Hq as [? _]. }
  unfold prop_count in *. split.
  - exists k. by split.
  - by rewrite Hz.
  - unfold distinct. rewrite E0, Ha. apply (sw_distinct _ _ W).
  - by rewrite Ed, Ec.
  - unfold prop_count. lia.
  - unfold prop_count. lia.
Qed.

(** ** Removing *)
(** The entry [h] leaves its chain, then it is cleared. *)
Definition cleared (pr : JSShapeProperty) : JSShapeProperty := mkProp (hash_next pr) 0 JS_ATOM_NULL.

Lemma pbucket_cleared size l l' h p q : znth l (h - 1) = Some p -> zupd l (h - 1) q = Some l' -> atom q = JS_ATOM_NULL ->
  pbucket size l' h = None /\ forall y, y <> h -> pbucket size l' y = pbucket size l y.
Proof.
  intros Hp Hu Hq. unfold pbucket. split.
  - rewrite (znth_zupd _ _ _ _ _ Hu), decide_True, Hq by done. done.
  - intros y Hy. by rewrite (znth_zupd _ _ _ _ _ Hu), decide_False by lia.
Qed.

Lemma pnext_cleared l l' h p q : znth l (h - 1) = Some p -> zupd l (h - 1) q = Some l' ->
  forall y, y <> h -> pnext l' y = pnext l y.
Proof. intros Hp Hu y Hy. unfold pnext. by rewrite (znth_zupd _ _ _ _ _ Hu), decide_False by lia. Qed.

(** [remove_property] on the shape. *)
Definition unlinked (sh : JSShape) (lpr : option Z) (h : Z) (pr : JSShapeProperty) (l : list JSShapeProperty) (ph : list Z) : Prop :=
  match lpr with
  | Some i => exists lp, znth (prop sh) i = Some lp /\ zupd (prop sh) i (mkProp (hash_next pr) (flags lp) (atom lp)) = Some l /\
      ph = prop_hash sh
  | None => l = prop sh /\ zupd (prop_hash sh) (Z.land (atom pr) (prop_hash_mask sh)) (hash_next pr) = Some ph
  end.

Lemma unlinked_table n sh lpr h pr l ph l' : shape_wf n sh -> in_chain sh lpr h pr -> atom pr <> JS_ATOM_NULL ->
  unlinked sh lpr h pr l ph -> (exists q, zupd l (h - 1) q = Some l' /\ atom q = JS_ATOM_NULL) ->
  zlen ph = zlen (prop_hash sh) /\ table (pnext l') ph (pbucket (zlen (prop_hash sh)) l').
Proof.
  intros W (Hh & first & l1 & l2 & Hf & Hl & Hlpr) Ha Hun (q & Hu & Hq). pose proof (sw_table _ _ W) as T.
  assert (pbucket (zlen (prop_hash sh)) (prop sh) h = Some (Z.land (atom pr) (prop_hash_mask sh))) as Hb.
  { unfold pbucket. rewrite Hh. by rewrite (proj2 (Z.eqb_neq _ _) Ha). }
  assert (pnext (prop sh) h = Some (hash_next pr)) as Hnx by (unfold pnext; by rewrite Hh).
  destruct lpr as [i |]; cbn [unlinked] in Hun.
  - destruct Hun as (lp & Hlp & Hul & ->). split; [done |]. destruct Hlpr as (l3 & ->). rewrite <- app_assoc in Hl.
    change ([i + 1] ++ h :: l2) with (i + 1 :: h :: l2) in Hl.
    assert (i + 1 <> h) as Hne.
    { pose proof (linked_nodup _ _ _ Hl) as Hnd. intros E. apply list.NoDup_app in Hnd as (_ & _ & Hnd).
      apply list.NoDup_cons in Hnd as [Hnd _]. apply Hnd. rewrite E. by left. }
    assert (znth l (h - 1) = Some pr) as Hh' by (rewrite (znth_zupd _ _ _ _ _ Hul), decide_False by lia; done).
    destruct (pbucket_cleared (zlen (prop_hash sh)) l l' h pr q Hh' Hu Hq) as [Hb1 Hb2].
    assert (forall y, pbucket (zlen (prop_hash sh)) l y = pbucket (zlen (prop_hash sh)) (prop sh) y) as Hbl.
    { intros y. unfold pbucket. rewrite (znth_zupd _ _ _ _ _ Hul). case_decide as D; [| done]. rewrite D, Hlp. done. }
    eapply (table_skip (pnext (prop sh)) (pnext l') (prop_hash sh) _ _ _ h (i + 1) first l3 l2 (hash_next pr) T Hf Hl Hb Hnx).
    + rewrite (pnext_cleared _ _ _ _ _ Hh' Hu) by done. unfold pnext.
      rewrite (znth_zupd _ _ _ _ _ Hul), decide_True by lia. done.
    + intros z Hz1 Hz2. rewrite (pnext_cleared _ _ _ _ _ Hh' Hu) by done. unfold pnext.
      by rewrite (znth_zupd _ _ _ _ _ Hul), decide_False by lia.
    + done.
    + intros z Hz. by rewrite Hb2, Hbl.
  - destruct Hun as [-> Hup]. split; [by rewrite (zupd_zlen _ _ _ _ Hup) |]. subst l1. cbn [app] in Hl.
    destruct (pbucket_cleared (zlen (prop_hash sh)) (prop sh) l' h pr q Hh Hu Hq) as [Hb1 Hb2].
    assert (first = h) as -> by (by destruct Hl as (-> & _)).
    eapply (table_pop (pnext (prop sh)) (pnext l') (prop_hash sh) ph _ _ _ h (hash_next pr) T Hf Hb Hnx Hup); [| done | done].
    by apply (pnext_cleared _ _ _ _ _ Hh Hu).
Qed.

Lemma live_zupd l l' vs vs' i p p' v' : znth l i = Some p -> zupd l i p' = Some l' -> zupd vs i v' = Some vs' ->
  (length l <= length vs)%nat -> exists k1 k2 v, znth vs i = Some v /\ live l vs = k1 ++ entry p v ++ k2 /\
  live l' vs' = k1 ++ entry p' v' ++ k2.
Proof.
  intros Hp Hl Hv Hlen. apply znth_Some in Hp as [Hi Hp]. apply zupd_Some in Hl as [_ ->]. apply zupd_Some in Hv as [_ ->].
  destruct (live_split l vs (Z.to_nat i) p Hp Hlen) as (l1 & l2 & v1 & v & v2 & -> & -> & E1 & E2 & ->).
  exists (live l1 v1), (live l2 v2), v. split_and!.
  - apply znth_Some. split; [done |]. by rewrite list_lookup_middle.
  - done.
  - assert (<[Z.to_nat i := p']> (l1 ++ p :: l2) = l1 ++ p' :: l2) as -> by (rewrite <- E1; replace (length l1) with (length l1 + 0)%nat by lia; by rewrite insert_app_r).
    assert (<[Z.to_nat i := v']> (v1 ++ v :: v2) = v1 ++ v' :: v2) as -> by (rewrite <- E2; replace (length v1) with (length v1 + 0)%nat by lia; by rewrite insert_app_r).
    apply live_insert. lia.
Qed.

Lemma live_distinct l vs : distinct l -> (length l <= length vs)%nat -> NoDup (keys (live l vs)).
Proof. intros H Hl. by rewrite live_keys. Qed.

Lemma cleared_live l0 l l' vs vs' h pr q v' : Forall2 same_prop_rel l0 l -> znth l0 (h - 1) = Some pr ->
  zupd l (h - 1) q = Some l' -> atom q = JS_ATOM_NULL -> atom pr <> JS_ATOM_NULL -> distinct l0 ->
  (length l0 <= length vs)%nat -> zupd vs (h - 1) v' = Some vs' ->
  live l' vs' = remove_key (atom pr) (live l0 vs) /\ distinct l' /\
  countb (fun p => atom p =? JS_ATOM_NULL) l' = countb (fun p => atom p =? JS_ATOM_NULL) l0 + 1 /\ length l' = length l0.
Proof.
  intros H2 Hp Hu Hq Ha Hd Hlen Hv. pose proof (list.Forall2_length _ _ _ H2) as El.
  assert (length l' = length l) as El' by (apply zupd_Some in Hu as [_ ->]; apply length_insert).
  assert (length vs' = length vs) as Ev by (apply zupd_Some in Hv as [_ ->]; apply length_insert).
  destruct (proj2 (znth_is_Some l (h - 1))) as [pr1 Hp1].
  { apply znth_lt_Some in Hp. unfold zlen in *. lia. }
  assert (atom pr1 = atom pr) as Ea.
  { apply znth_Some in Hp as [_ Hp]. apply znth_Some in Hp1 as [_ Hp1].
    destruct (Forall2_lookup_lr _ _ _ _ _ _ H2 Hp Hp1) as [-> _]. done. }
  destruct (live_zupd l l' vs vs' (h - 1) pr1 q v' Hp1 Hu Hv ltac:(lia)) as (k1 & k2 & v & _ & E & E').
  unfold entry in E, E'. rewrite Hq in E'. rewrite Ea, (proj2 (Z.eqb_neq _ _) Ha) in E. cbn [app] in E, E'.
  change (JS_ATOM_NULL =? JS_ATOM_NULL) with true in E'. cbn [app] in E'.
  rewrite (live_same _ _ H2), E, E'. destruct (atoms_same _ _ H2) as [Eat Ec].
  assert (NoDup (keys (k1 ++ (atom pr, (flags pr1, v)) :: k2))) as Hnd.
  { rewrite <- E. apply live_distinct; [unfold distinct; by rewrite <- Eat | lia]. }
  destruct (keys_middle _ _ _ _ Hnd) as [N1 N2]. split_and!.
  - by rewrite remove_middle.
  - unfold distinct. rewrite <- (live_keys l' vs') by lia. rewrite E'. rewrite keys_app in *. cbn in Hnd.
    apply list.NoDup_app in Hnd as (H1 & H3 & H4). apply list.NoDup_cons in H4 as [_ H4]. apply list.NoDup_app.
    split_and!; [done | | done]. intros x Hx Hx'. apply (H3 x Hx). by right.
  - rewrite (countb_zupd _ _ _ _ _ _ Hp1 Hu), Ea, (proj2 (Z.eqb_neq _ _) Ha), Hq, Ec. cbn. lia.
  - lia.
Qed.

Lemma unlinked_same sh lpr h pr l ph : unlinked sh lpr h pr l ph -> Forall2 same_prop_rel (prop sh) l.
Proof.
  assert (forall l0 : list JSShapeProperty, Forall2 same_prop_rel l0 l0) as Hrefl
    by (intros l0; induction l0; constructor; done).
  destruct lpr as [i |]; cbn; [| by intros [-> _]]. intros (lp & Hlp & Hu & _).
  apply zupd_Some in Hu as [Hlt ->]. apply znth_Some in Hlp as [_ Hlp].
  rewrite <- (list_insert_id _ _ _ Hlp) at 1. apply Forall2_insert; done.
Qed.

Lemma removed_wf n sh sh' lpr h pr l ph q : shape_wf n sh -> in_chain sh lpr h pr -> atom pr <> JS_ATOM_NULL ->
  unlinked sh lpr h pr l ph -> zupd l (h - 1) q = Some (prop sh') -> atom q = JS_ATOM_NULL -> prop_hash sh' = ph ->
  prop_size sh' = prop_size sh -> deleted_prop_count sh' = deleted_prop_count sh + 1 -> shape_wf n sh'.
Proof.
  intros W Hin Ha Hun Hu Hq Eph Es Ed.
  destruct (unlinked_table n sh lpr h pr l ph (prop sh') W Hin Ha Hun) as [Hz T]; [by exists q |].
  pose proof (unlinked_same _ _ _ _ _ _ Hun) as H2. pose proof Hin as [Hh _].
  assert (exists vs', zupd (replicate (length (prop sh)) 0) (h - 1) 0 = Some vs') as [vs' Hv].
  { apply zupd_is_Some. apply znth_lt_Some in Hh. unfold zlen in *. rewrite length_replicate. lia. }
  destruct (cleared_live (prop sh) l (prop sh') (replicate (length (prop sh)) 0) vs' h pr q 0 H2 Hh Hu Hq Ha (sw_distinct _ _ W)
    ltac:(rewrite length_replicate; lia) Hv) as (_ & Hd & Hc & Hlen).
  pose proof (sw_count _ _ W). pose proof (sw_small _ _ W). unfold prop_count, zlen in *. split; unfold prop_count, zlen.
  - unfold zlen. rewrite Eph, Hz. apply (sw_size _ _ W).
  - unfold zlen. by rewrite Eph, Hz.
  - done.
  - by rewrite Ed, Hc, (sw_deleted _ _ W).
  - by rewrite Hlen, Es.
  - by rewrite Hlen, Es.
Qed.

(** ** Changing the flags and the value *)
Lemma zupd_same {X} (l : list X) i x : znth l i = Some x -> zupd l i x = Some l.
Proof.
  intros H. pose proof (znth_lt_Some _ _ _ H) as Hi. apply znth_Some in H as [_ H]. apply zupd_Some. split; [done |].
  by rewrite list_insert_id.
Qed.

Lemma updated_live l l' vs vs' i pr p' v' : znth l i = Some pr -> zupd l i p' = Some l' -> atom p' = atom pr ->
  atom pr <> JS_ATOM_NULL -> zupd vs i v' = Some vs' -> distinct l -> (length l <= length vs)%nat ->
  live l' vs' = update_key (atom pr) (flags p', v') (live l vs).
Proof.
  intros Hp Hl Ea Ha Hv Hd Hlen. destruct (live_zupd _ _ _ _ _ _ _ _ Hp Hl Hv Hlen) as (k1 & k2 & v & _ & E & E').
  pose proof (live_distinct l vs Hd Hlen) as Hn. unfold entry in *. rewrite Ea in E'. rewrite (proj2 (Z.eqb_neq _ _)) in E, E' by done.
  cbn [app] in *. rewrite E in *. destruct (keys_middle _ _ _ _ Hn). by rewrite E', update_middle.
Qed.

Lemma flags_wf n sh sh' i pr p' : shape_wf n sh -> znth (prop sh) i = Some pr -> zupd (prop sh) i p' = Some (prop sh') ->
  atom p' = atom pr -> hash_next p' = hash_next pr -> prop_hash sh' = prop_hash sh -> prop_size sh' = prop_size sh ->
  deleted_prop_count sh' = deleted_prop_count sh -> shape_wf n sh' /\ atoms_of (prop sh') = atoms_of (prop sh).
Proof.
  intros W Hp Hu Ea En Eh Ez Ed. pose proof (zupd_zlen _ _ _ _ Hu) as El.
  assert (forall j, atom <$> znth (prop sh') j = atom <$> znth (prop sh) j /\ hash_next <$> znth (prop sh') j = hash_next <$> znth (prop sh) j) as Hj.
  { intros j. rewrite (znth_zupd _ _ _ _ _ Hu). case_decide as D; [| done]. rewrite D, Hp. cbn. by rewrite Ea, En. }
  assert (atoms_of (prop sh') = atoms_of (prop sh)) as Eat.
  { destruct (live_zupd (prop sh) (prop sh') (replicate (length (prop sh)) 0) (replicate (length (prop sh)) 0) i pr p' 0 Hp Hu)
      as (k1 & k2 & v & _ & E & E').
    - apply zupd_same. pose proof (znth_lt_Some _ _ _ Hp) as Hi. apply znth_Some. split; [lia |]. apply lookup_replicate. unfold zlen in Hi. split; [done | lia].
    - by rewrite length_replicate.
    - unfold zlen in El. rewrite <- (live_keys (prop sh) (replicate (length (prop sh)) 0)), <- (live_keys (prop sh') (replicate (length (prop sh)) 0)) by (rewrite length_replicate; lia).
      rewrite E, E', !keys_app. unfold entry. rewrite Ea. by case_match. }
  split; [| done]. unfold prop_count in *. split; unfold prop_count; rewrite ?Eh, ?Ez, ?Ed, ?El; try apply W.
  - eapply table_ext; [apply W | |].
    + intros j _. unfold pnext. apply Hj.
    + intros j. unfold pbucket. destruct (Hj (j - 1)) as [E _]. destruct (znth (prop sh') (j - 1)), (znth (prop sh) (j - 1)); try done.
      cbn in E. by injection E as ->.
  - unfold distinct. rewrite Eat. apply W.
  - rewrite (sw_deleted _ _ W), (countb_zupd _ _ _ _ _ _ Hp Hu), Ea. lia.
Qed.

(** ** The size of the table *)
Lemma grow_hash_spec fuel : forall k m, 0 <= k -> m <= 2 ^ 30 -> m <= 2 ^ (k + Z.of_nat fuel) -> exists k',
  grow_hash fuel (2 ^ k) m = Ret (2 ^ k') /\ k <= k' /\ (k' = k \/ k' <= 30).
Proof.
  induction fuel as [| fuel IH]; intros k m Hk Hm Hf; cbn [grow_hash].
  - replace (k + Z.of_nat 0) with k in Hf by lia. rewrite (proj2 (Z.leb_le _ _)) by lia. exists k. split_and!; [done | lia | lia].
  - destruct (Z.leb_spec m (2 ^ k)) as [Hle | Hgt]; [exists k; split_and!; [done | lia | lia] |].
    assert (k < 30) as Hk30 by (apply (Z.pow_lt_mono_r_iff 2); lia).
    assert (u32 (2 * 2 ^ k) = 2 ^ (k + 1)) as ->.
    { rewrite Z.pow_add_r by lia. change (2 ^ 1) with 2. rewrite wrap_small; [lia |]. change (2 ^ 32) with (8 * 2 ^ 29).
      pose proof (Z.pow_le_mono_r 2 k 29 ltac:(lia) ltac:(lia)). pose proof (Z.pow_pos_nonneg 2 k ltac:(lia) Hk). lia. }
    destruct (IH (k + 1) m) as (k' & E & ? & ?); [lia | done | replace (k + 1 + Z.of_nat fuel) with (k + Z.of_nat (S fuel)) by lia; done |].
    exists k'. split_and!; [done | lia | lia].
Qed.

Lemma shrink_hash_spec fuel : forall k m, 0 <= k <= Z.of_nat fuel -> 2 <= m -> exists k',
  shrink_hash fuel (2 ^ k) m = Ret (2 ^ k') /\ 0 <= k' <= k.
Proof.
  induction fuel as [| fuel IH]; intros k m Hk Hm; cbn [shrink_hash].
  - assert (k = 0) as -> by lia. change (2 ^ 0 / 2) with 0. rewrite (proj2 (Z.leb_gt _ _)) by lia. exists 0. split; [done | lia].
  - destruct (Z.eq_dec k 0) as [-> | D].
    { change (2 ^ 0 / 2) with 0. rewrite (proj2 (Z.leb_gt _ _)) by lia. exists 0. split; [done | lia]. }
    assert (2 ^ k / 2 = 2 ^ (k - 1)) as ->.
    { replace k with (k - 1 + 1) at 1 by lia. rewrite Z.pow_add_r by lia. by rewrite Z.div_mul. }
    destruct (m <=? 2 ^ (k - 1)); [| exists k; split; [done | lia]].
    destruct (IH (k - 1) m) as (k' & -> & ?); [lia | done |]. exists k'. split; [done | lia].
Qed.
