(* ===== verification/ShapeTable.v ===== *)
(** * quickjs.c: the table of the shared shapes

    Every shape that says it is hashed is in the chain of its hash value.  The
    operations on the table change nothing but the links. *)
From Stdlib Require Import ZArith Lia Bool.
From stdpp Require Import base numbers list gmap.
From S2P Require Import Prelude Cutils Chains JSValue AtomState ShapeState ShapeSpec ShapeFacts.

(** ** Links *)
Definition links_only (m m' : gmap Z JSShape) : Prop := forall a, set_next 0 <$> m' !! a = set_next 0 <$> m !! a.

Lemma links_refl m : links_only m m.
Proof. done. Qed.

Lemma links_trans m1 m2 m3 : links_only m1 m2 -> links_only m2 m3 -> links_only m1 m3.
Proof. intros H1 H2 a. by rewrite H2, H1. Qed.

Lemma set_next_eq s s' : set_next 0 s' = set_next 0 s -> s' = set_next (shape_hash_next s') s.
Proof. destruct s, s'. unfold set_next. cbn. intros E. injection E. intros. by subst. Qed.

Lemma links_fwd m m' a s : links_only m m' -> m !! a = Some s -> exists k, m' !! a = Some (set_next k s).
Proof.
  intros H Ha. specialize (H a). rewrite Ha in H. destruct (m' !! a) as [s' |] eqn:E; [| done].
  cbn in H. injection H as H. apply (f_equal (fun x => x)) in H. exists (shape_hash_next s').
  f_equal. apply set_next_eq. unfold set_next. cbn. by destruct s, s'; cbn in *; subst.
Qed.

Lemma links_sym m m' : links_only m m' -> links_only m' m.
Proof. intros H a. by rewrite H. Qed.

Lemma links_bwd m m' a s' : links_only m m' -> m' !! a = Some s' -> exists k s, m !! a = Some s /\ s' = set_next k s.
Proof.
  intros H Ha. destruct (links_fwd m' m a s' (links_sym _ _ H) Ha) as (k & Hk). exists (shape_hash_next s'), (set_next k s').
  split; [done |]. by destruct s'.
Qed.

Lemma links_insert m a s k : m !! a = Some s -> links_only m (<[a := set_next k s]> m).
Proof.
  intros H b. destruct (decide (a = b)) as [<- | D]; [by rewrite lookup_insert_eq, H | by rewrite lookup_insert_ne].
Qed.

Lemma links_none m m' a : links_only m m' -> m !! a = None -> m' !! a = None.
Proof. intros H Ha. specialize (H a). rewrite Ha in H. by destruct (m' !! a). Qed.

(** ** The invariant of the table *)

(** [out] is not in the table, whatever it says. *)
Definition snext (m : gmap Z JSShape) (a : Z) : option Z := shape_hash_next <$> m !! a.
Definition sbucket (out : option Z) (bits : Z) (m : gmap Z JSShape) (a : Z) : option Z :=
  if decide (Some a = out) then None
  else match m !! a with
  | Some s => if is_hashed s then Some (get_shape_hash (hash s) bits) else None
  | None => None
  end.

Definition hash_ok (m : gmap Z JSShape) : Prop := forall a s, m !! a = Some s -> 0 <= hash s < 2 ^ 32 /\ a <> 0.

Definition table_ok (out : option Z) (bits : Z) (m : gmap Z JSShape) (heads : list Z) : Prop :=
  table (snext m) heads (sbucket out bits m) /\ zlen heads = 2 ^ bits /\ 4 <= bits <= 32.

Lemma shape_hash_range h v : 0 <= shape_hash h v < 2 ^ 32.
Proof. apply wrap_range. lia. Qed.

Lemma get_shape_hash_range h bits : 0 <= h < 2 ^ 32 -> 0 <= bits <= 32 -> 0 <= get_shape_hash h bits < 2 ^ bits.
Proof.
  intros Hh Hb. unfold get_shape_hash. rewrite Z.shiftr_div_pow2 by lia.
  pose proof (Z.pow_pos_nonneg 2 (32 - bits) ltac:(lia) ltac:(lia)). split; [apply Z.div_pos; lia |].
  apply Z.div_lt_upper_bound; [lia |]. rewrite <- Z.pow_add_r by lia. replace (32 - bits + bits) with 32 by lia. lia.
Qed.

Lemma chain_size (m : gmap Z JSShape) l : NoDup l -> (forall x, x ∈ l -> is_Some (m !! x)) -> (length l <= size m)%nat.
Proof.
  intros Hnd H. rewrite <- size_dom. rewrite <- (size_list_to_set (C := gset Z) l Hnd). apply subseteq_size.
  intros x Hx. apply elem_of_list_to_set in Hx. apply elem_of_dom. by apply H.
Qed.

Lemma sbucket_Some out bits m a b : sbucket out bits m a = Some b -> exists s, m !! a = Some s /\ is_hashed s = true /\
  b = get_shape_hash (hash s) bits /\ Some a <> out.
Proof.
  unfold sbucket. case_decide; [done |]. destruct (m !! a) as [s |]; [| done]. destruct (is_hashed s) eqn:E; [| done].
  intros [= <-]. by exists s.
Qed.

Lemma sbucket_in out bits m a s : m !! a = Some s -> is_hashed s = true -> Some a <> out ->
  sbucket out bits m a = Some (get_shape_hash (hash s) bits).
Proof. intros H E D. unfold sbucket. rewrite decide_False, H, E by done. done. Qed.

(** Finding a chain. *)
Lemma bucket_of out bits m heads h : table_ok out bits m heads -> 0 <= h < 2 ^ 32 -> exists i l,
  znth heads (get_shape_hash h bits) = Some i /\ linked (snext m) i l /\
  (forall x, x ∈ l <-> sbucket out bits m x = Some (get_shape_hash h bits)) /\ (length l <= size m)%nat.
Proof.
  intros (T & Hz & Hb) Hh. destruct (table_chain _ _ _ (get_shape_hash h bits) T) as (i & l & Hi & Hl & Hm).
  { rewrite Hz. apply get_shape_hash_range; lia. }
  exists i, l. split_and!; [done | done | done |]. apply chain_size; [by eapply linked_nodup |].
  intros x Hx. apply Hm in Hx. apply sbucket_Some in Hx as (s & Hs & _). by exists s.
Qed.

Lemma table_ok_ext out out' bits m m' heads : table_ok out bits m heads ->
  (forall a, is_Some (sbucket out bits m a) -> snext m' a = snext m a) ->
  (forall a, sbucket out' bits m' a = sbucket out bits m a) -> table_ok out' bits m' heads.
Proof. intros (T & Hz & Hb) H1 H2. split; [| done]. by apply (table_ext (snext m) _ heads (sbucket out bits m)). Qed.

(** ** Linking and unlinking *)
Section table.
Context {A : Type}.
Abbreviation JSRuntime := (JSRuntime A).
Abbreviation rt_table := (fun out (rt : JSRuntime) => table_ok out (shape_hash_bits rt) (shapes rt) (shape_table rt)).

(** Everything but the table and the links of the shapes. *)
Definition same_rest (rt rt' : JSRuntime) : Prop :=
  suffix (mem rt') (mem rt) /\ atoms rt' = atoms rt /\ objects rt' = objects rt /\ next_addr rt' = next_addr rt /\
  links_only (shapes rt) (shapes rt').

Lemma same_rest_refl rt : same_rest rt rt.
Proof. by split_and!. Qed.

Lemma get_shape_Ret (rt : JSRuntime) a s : shapes rt !! a = Some s -> get_shape rt a = Ret s.
Proof. intros H. unfold get_shape. by rewrite H. Qed.

Lemma get_object_Ret (rt : JSRuntime) p o : objects rt !! p = Some o -> get_object rt p = Ret o.
Proof. intros H. unfold get_object. by rewrite H. Qed.

Lemma snext_insert m a s k b : m !! a = Some s -> snext (<[a := set_next k s]> m) b = if decide (b = a) then Some k else snext m b.
Proof.
  intros H. unfold snext. destruct (decide (b = a)) as [-> | D]; [by rewrite lookup_insert_eq | by rewrite lookup_insert_ne by congruence].
Qed.

Lemma sbucket_insert out bits m a s k b : m !! a = Some s -> sbucket out bits (<[a := set_next k s]> m) b = sbucket out bits m b.
Proof.
  intros H. unfold sbucket. case_decide; [done |]. destruct (decide (b = a)) as [-> | D];
    [by rewrite lookup_insert_eq, H | by rewrite lookup_insert_ne by congruence].
Qed.

Lemma link_spec rt a s : rt_table (Some a) rt -> hash_ok (shapes rt) -> shapes rt !! a = Some s -> is_hashed s = true ->
  exists rt', js_shape_hash_link a rt = Ret rt' /\ rt_table None rt' /\ same_rest rt rt' /\
    shape_hash_bits rt' = shape_hash_bits rt /\ shape_hash_count rt' = shape_hash_count rt + 1.
Proof.
  intros (T & Hz & Hb) Hh Hs He. destruct (Hh a s Hs) as [Hr H0]. unfold js_shape_hash_link.
  rewrite (get_shape_Ret _ _ _ Hs). cbn [mbind res_bind].
  pose proof (get_shape_hash_range (hash s) (shape_hash_bits rt) Hr ltac:(lia)) as Hg. rewrite <- Hz in Hg.
  destruct (proj2 (znth_is_Some _ _) Hg) as [first Hf]. rewrite Hf. cbn [of_opt mbind res_bind].
  destruct (zupd_is_Some _ _ a Hg) as [l Hl]. cbn [put_shape set_shapes shape_table shape_hash_bits shape_hash_count].
  rewrite Hl. cbn [of_opt mbind res_bind]. eexists. split; [reflexivity |]. cbn. split_and!; try done.
  - split; cbn; [| split; [by rewrite (zupd_zlen _ _ _ _ Hl) | done]].
    eapply (table_push (snext (shapes rt)) _ _ l _ _ _ a first T H0); try done.
    + unfold sbucket. by rewrite decide_True.
    + rewrite (snext_insert _ _ _ _ _ Hs). by rewrite decide_True.
    + intros y [b Hy]. apply sbucket_Some in Hy as (_ & _ & _ & _ & D). rewrite (snext_insert _ _ _ _ _ Hs), decide_False; [done | congruence].
    + rewrite (sbucket_insert _ _ _ _ _ _ _ Hs). by apply sbucket_in.
    + intros y D. rewrite (sbucket_insert _ _ _ _ _ _ _ Hs). unfold sbucket. rewrite !decide_False by congruence. done.
  - split_and!; try done. cbn. by apply links_insert.
Qed.

Lemma unlink_shape_walk_spec (rt : JSRuntime) x s : shapes rt !! x = Some s -> forall l1 b l2 fuel, linked (snext (shapes rt)) b (b :: l1 ++ x :: l2) ->
  (length l1 < fuel)%nat -> exists l3 y sy, b :: l1 = l3 ++ [y] /\ shapes rt !! y = Some sy /\
  unlink_walk fuel x b rt = Ret (put_shape y (set_next (shape_hash_next s) sy) rt).
Proof.
  intros Hs. induction l1 as [| c l1 IH]; intros b l2 fuel H Hf; (destruct fuel as [| fuel]; [cbn in Hf; lia |]);
    destruct H as (_ & Hb & k & Hk & Hl); unfold snext in Hk; destruct (shapes rt !! b) as [sb |] eqn:Eb; [| done | | done];
    injection Hk as <-; cbn [unlink_walk]; rewrite (get_shape_Ret _ _ _ Eb); cbn [mbind res_bind].
  - destruct Hl as (<- & _). rewrite Z.eqb_refl, (get_shape_Ret _ _ _ Hs). cbn [mbind res_bind]. by exists [], b, sb.
  - pose proof (linked_nodup _ _ _ Hl) as Hnd. pose proof Hl as (Ec & _). subst c.
    assert (shape_hash_next sb <> x) as D.
    { intros E. rewrite E in Hnd. cbn in Hnd. apply list.NoDup_cons in Hnd as [Hnd _]. apply Hnd. apply elem_of_app. right. by left. }
    rewrite (proj2 (Z.eqb_neq _ _) D).
    destruct (IH (shape_hash_next sb) l2 fuel Hl ltac:(cbn in Hf; lia)) as (l3 & y & sy & E & Hy & ->).
    exists (b :: l3), y, sy. cbn. by rewrite E.
Qed.

Lemma unlink_shape_spec rt a s : rt_table None rt -> hash_ok (shapes rt) -> shapes rt !! a = Some s -> is_hashed s = true ->
  exists rt', js_shape_hash_unlink a rt = Ret rt' /\ rt_table (Some a) rt' /\ same_rest rt rt' /\
    shape_hash_bits rt' = shape_hash_bits rt /\ shape_hash_count rt' = shape_hash_count rt - 1.
Proof.
  intros T Hh Hs He. destruct (Hh a s Hs) as [Hr H0]. unfold js_shape_hash_unlink.
  rewrite (get_shape_Ret _ _ _ Hs). cbn [mbind res_bind].
  destruct (bucket_of _ _ _ _ (hash s) T Hr) as (first & l & Hf & Hl & Hm & Hlen). rewrite Hf. cbn [of_opt mbind res_bind].
  assert (sbucket None (shape_hash_bits rt) (shapes rt) a = Some (get_shape_hash (hash s) (shape_hash_bits rt))) as Hb by (by apply sbucket_in).
  assert (a ∈ l) as Hin by (by apply Hm). pose proof T as (T' & Hz & Hbits).
  assert (snext (shapes rt) a = Some (shape_hash_next s)) as Hnx by (unfold snext; by rewrite Hs).
  assert (forall b, b <> a -> sbucket (Some a) (shape_hash_bits rt) (shapes rt) b = sbucket None (shape_hash_bits rt) (shapes rt) b) as Hsb.
  { intros b D. unfold sbucket. rewrite !decide_False by congruence. done. }
  assert (sbucket (Some a) (shape_hash_bits rt) (shapes rt) a = None) as Hsa by (unfold sbucket; by rewrite decide_True).
  destruct (Z.eqb_spec first a) as [-> | D].
  - destruct (zupd_is_Some (shape_table rt) _ (shape_hash_next s) (znth_lt_Some _ _ _ Hf)) as [l' Hl']. rewrite Hl'.
    cbn [of_opt mbind res_bind]. eexists. split; [reflexivity |]. split_and!; try done. split; cbn;
      [| split; [by rewrite (zupd_zlen _ _ _ _ Hl') | done]].
    eapply (table_pop (snext (shapes rt)) _ _ l' _ _ _ a); done.
  - apply list_elem_of_split in Hin as (l1 & l2 & ->). destruct l1 as [| b l1].
    { destruct Hl as (-> & _). done. }
    cbn [app] in Hl. assert (b = first) as -> by (by destruct Hl as (-> & _)).
    destruct (unlink_shape_walk_spec rt a s Hs l1 first l2 (size (shapes rt)) Hl) as (l3 & y & sy & E & Hy & ->).
    { cbn in Hlen. rewrite length_app in Hlen. cbn in Hlen. lia. }
    cbn [mbind res_bind]. eexists. split; [reflexivity |].
    assert (first :: l1 ++ a :: l2 = l3 ++ y :: a :: l2) as El by (change (first :: l1 ++ a :: l2) with ((first :: l1) ++ a :: l2); by rewrite E, <- app_assoc).
    rewrite El in Hl. split_and!; try done; [| split_and!; try done; cbn; by apply links_insert].
    split; cbn; [| done].
    eapply (table_skip (snext (shapes rt)) _ _ _ _ _ a y first l3 l2 (shape_hash_next s) T' Hf Hl Hb Hnx).
    + rewrite (snext_insert _ _ _ _ _ Hy). by rewrite decide_True.
    + intros z Hz1 Hz2. rewrite (snext_insert _ _ _ _ _ Hy). by rewrite decide_False.
    + rewrite (sbucket_insert _ _ _ _ _ _ _ Hy). done.
    + intros z Hz1. rewrite (sbucket_insert _ _ _ _ _ _ _ Hy). by apply Hsb.
Qed.

(** ** Resizing *)
Definition moved_bucket (moved : list Z) (bits : Z) (m : gmap Z JSShape) (a : Z) : option Z :=
  if decide (a ∈ moved) then sbucket None bits m a else None.

Lemma resize_shape_chain_spec bits rest : 4 <= bits <= 32 -> forall a new_hash moved (rt : JSRuntime) fuel,
  linked (snext (shapes rt)) a rest -> (forall x, x ∈ rest -> x ∉ moved /\ is_Some (sbucket None bits (shapes rt) x)) ->
  table (snext (shapes rt)) new_hash (moved_bucket moved bits (shapes rt)) -> zlen new_hash = 2 ^ bits ->
  hash_ok (shapes rt) -> (length rest <= fuel)%nat -> exists new_hash' rt',
  resize_chain fuel bits a new_hash rt = Ret (new_hash', rt') /\ zlen new_hash' = 2 ^ bits /\ same_rest rt rt' /\
  shape_hash_count rt' = shape_hash_count rt /\ shape_table rt' = shape_table rt /\ shape_hash_bits rt' = shape_hash_bits rt /\
  table (snext (shapes rt')) new_hash' (moved_bucket (rest ++ moved) bits (shapes rt')) /\
  forall y, y ∉ rest -> snext (shapes rt') y = snext (shapes rt) y.
Proof.
  intros Hbits. induction rest as [| x rest IH]; intros a new_hash moved rt fuel Hl Hin T Hz Hok Hf.
  { cbn in Hl. subst a. exists new_hash, rt. destruct fuel; split_and!; done. }
  pose proof (linked_nodup _ _ _ Hl) as Hnd. apply list.NoDup_cons in Hnd as [Hnx Hnd].
  destruct Hl as (-> & Hx0 & k & Hk & Hl). unfold snext in Hk. destruct (shapes rt !! x) as [s |] eqn:Hs; [| done].
  injection Hk as <-. destruct fuel as [| fuel]; [cbn in Hf; lia |]. cbn [resize_chain].
  rewrite (proj2 (Z.eqb_neq _ _) Hx0), (get_shape_Ret _ _ _ Hs). cbn [mbind res_bind].
  destruct (Hok x s Hs) as [Hr _]. pose proof (get_shape_hash_range (hash s) bits Hr ltac:(lia)) as Hg. rewrite <- Hz in Hg.
  destruct (proj2 (znth_is_Some _ _) Hg) as [first Hfi]. destruct (zupd_is_Some _ _ x Hg) as [l Hu].
  rewrite Hfi, Hu. cbn [of_opt mbind res_bind]. set (rt1 := put_shape x (set_next first s) rt).
  destruct (Hin x ltac:(by left)) as [Hxm [b Hb]]. apply sbucket_Some in Hb as (s' & Hs' & He & _ & _).
  assert (s' = s) as -> by congruence.
  assert (forall y, sbucket None bits (shapes rt1) y = sbucket None bits (shapes rt) y) as Hsb
    by (intros y; apply (sbucket_insert _ _ _ _ _ _ _ Hs)).
  destruct (IH (shape_hash_next s) l (x :: moved) rt1 fuel) as (new' & rt' & E & Hz' & (Em & Ea & Eo & En & Hlo) & Ec & Et & Eb & T' & Hn').
  - apply (linked_ext (snext (shapes rt))); [done |]. intros j Hj. unfold rt1. cbn. rewrite (snext_insert _ _ _ _ _ Hs), decide_False; [done |]. by intros ->.
  - intros y Hy. rewrite Hsb. destruct (Hin y ltac:(by right)) as [Hym Hyb]. split; [| done]. rewrite elem_of_cons.
    intros [-> | ?]; done.
  - eapply (table_push (snext (shapes rt)) _ new_hash l _ _ _ x first T Hx0); try done.
    + unfold moved_bucket. by rewrite decide_False.
    + unfold rt1. cbn. rewrite (snext_insert _ _ _ _ _ Hs). by rewrite decide_True.
    + intros y [c Hy]. unfold moved_bucket in Hy. case_decide as D; [| done]. unfold rt1. cbn. rewrite (snext_insert _ _ _ _ _ Hs), decide_False; [done |].
      by intros ->.
    + unfold moved_bucket. rewrite decide_True by (by left). rewrite Hsb. by apply sbucket_in.
    + intros y D. unfold moved_bucket. rewrite Hsb. destruct (decide (y ∈ moved)) as [H1 | H1].
      * rewrite decide_True by (by right). done.
      * rewrite decide_False; [done |]. rewrite elem_of_cons. by intros [? | ?].
  - by rewrite (zupd_zlen _ _ _ _ Hu).
  - intros y t Ht. destruct (links_bwd (shapes rt) (shapes rt1) y t) as (k & u & Hy & ->); [by apply links_insert | done |]. apply (Hok y u Hy).
  - cbn in Hf. lia.
  - exists new', rt'. rewrite E. split_and!; try done.
    + split_and!; try done. eapply links_trans; [by apply links_insert | exact Hlo].
    + eapply (table_ext _ _ _ _ _ T'); [done |]. intros i. unfold moved_bucket.
      destruct (decide (i ∈ rest ++ x :: moved)) as [D | D], (decide (i ∈ (x :: rest) ++ moved)) as [D' | D']; try done;
        exfalso; revert D D'; rewrite ?elem_of_app, ?elem_of_cons, ?elem_of_app; cbn; rewrite ?elem_of_cons, ?elem_of_app; tauto.
    + intros y Hy. apply not_elem_of_cons in Hy as [Hy1 Hy2]. rewrite Hn' by done. unfold rt1. cbn.
      by rewrite (snext_insert _ _ _ _ _ Hs), decide_False.
Qed.

Lemma resize_shape_buckets_spec bits fuel och : 4 <= bits <= 32 -> forall old new_hash moved (rt : JSRuntime),
  Forall2 (linked (snext (shapes rt))) old och -> NoDup (concat och) ->
  (forall x, x ∈ concat och -> x ∉ moved /\ is_Some (sbucket None bits (shapes rt) x)) ->
  table (snext (shapes rt)) new_hash (moved_bucket moved bits (shapes rt)) -> zlen new_hash = 2 ^ bits ->
  hash_ok (shapes rt) -> (forall l, l ∈ och -> (length l <= fuel)%nat) -> exists new_hash' rt',
  resize_buckets fuel bits old new_hash rt = Ret (new_hash', rt') /\ zlen new_hash' = 2 ^ bits /\ same_rest rt rt' /\
  shape_hash_count rt' = shape_hash_count rt /\
  table (snext (shapes rt')) new_hash' (moved_bucket (concat och ++ moved) bits (shapes rt')).
Proof.
  intros Hbits. induction och as [| l och IH]; intros old new_hash moved rt H2 Hnd Hin T Hz Hok Hf.
  { apply Forall2_nil_inv_r in H2 as ->. exists new_hash, rt. by split_and!. }
  apply Forall2_cons_inv_r in H2 as (a & old' & Hl & H2 & ->). cbn [concat] in *. cbn [resize_buckets].
  apply list.NoDup_app in Hnd as (Hnd1 & Hdis & Hnd2).
  destruct (resize_shape_chain_spec bits l Hbits a new_hash moved rt fuel Hl) as
    (new1 & rt1 & -> & Hz1 & (Em & Ea & Eo & En & Hlo) & Ec & Et & Eb & T1 & Hn1); try done.
  { intros x Hx. apply Hin. apply elem_of_app. by left. }
  { apply Hf. by left. }
  cbn [mbind res_bind].
  assert (forall y, sbucket None bits (shapes rt1) y = sbucket None bits (shapes rt) y) as Hsb.
  { intros y. unfold sbucket. rewrite !decide_False by done. destruct (shapes rt !! y) as [s |] eqn:Hy.
    - destruct (links_fwd _ _ _ _ Hlo Hy) as (k & ->). done.
    - by rewrite (links_none _ _ _ Hlo Hy). }
  destruct (IH old' new1 (l ++ moved) rt1) as (new2 & rt2 & -> & Hz2 & (Em' & Ea' & Eo' & En' & Hlo') & Ec' & T2); try done.
  - apply Forall2_same_length_lookup. split; [by eapply list.Forall2_length |]. intros i x c Hx Hc.
    apply (linked_ext (snext (shapes rt))); [by eapply Forall2_lookup_lr |]. intros j Hj. apply Hn1. intros Hjl.
    apply (Hdis j Hjl). apply elem_of_concat. by exists i, c.
  - intros x Hx. rewrite Hsb. destruct (Hin x) as [Hm Hb]; [apply elem_of_app; by right |]. split; [| done].
    rewrite elem_of_app. intros [H | H]; [by apply (Hdis x) | done].
  - intros y t Ht. destruct (links_bwd _ _ _ _ Hlo Ht) as (k & u & Hy & ->). apply (Hok y u Hy).
  - intros c Hc. apply Hf. by right.
  - exists new2, rt2. split_and!; try done.
    + split_and!; [by etrans | congruence | congruence | congruence | by eapply links_trans].
    + congruence.
    + eapply (table_ext _ _ _ _ _ T2); [done |]. intros i. unfold moved_bucket.
      destruct (decide (i ∈ concat och ++ l ++ moved)) as [D | D], (decide (i ∈ (l ++ concat och) ++ moved)) as [D' | D']; try done;
        exfalso; revert D D'; rewrite !elem_of_app; tauto.
Qed.

Lemma sbucket_hashed bits bits' m a : is_Some (sbucket None bits m a) -> is_Some (sbucket None bits' m a).
Proof. intros [b Hb]. apply sbucket_Some in Hb as (s & Hs & He & _). exists (get_shape_hash (hash s) bits'). by apply sbucket_in. Qed.

Lemma resize_spec (rt : JSRuntime) : rt_table None rt -> hash_ok (shapes rt) -> shape_hash_bits rt < 32 -> exists ok rt',
  resize_shape_hash (shape_hash_bits rt + 1) rt = Ret (ok, rt') /\ rt_table None rt' /\ same_rest rt rt' /\
  shape_hash_count rt' = shape_hash_count rt /\ shape_hash_bits rt <= shape_hash_bits rt' <= shape_hash_bits rt + 1.
Proof.
  intros T Hok Hb. pose proof T as (T0 & Hz & Hbits). unfold resize_shape_hash.
  assert (exists ok rt1, alloc_ok rt = (ok, rt1) /\ shapes rt1 = shapes rt /\ objects rt1 = objects rt /\ atoms rt1 = atoms rt /\
    next_addr rt1 = next_addr rt /\ shape_table rt1 = shape_table rt /\ shape_hash_bits rt1 = shape_hash_bits rt /\
    shape_hash_count rt1 = shape_hash_count rt /\ suffix (mem rt1) (mem rt)) as (ok & rt1 & -> & E1 & E2 & E3 & E4 & E5 & E6 & E7 & Em1).
  { unfold alloc_ok. destruct (mem rt) as [| b m] eqn:Em; eexists _, _; (split; [reflexivity |]); split_and!; try done; [by rewrite Em | by apply suffix_cons_r]. }
  destruct ok; cbn [negb].
  2: { exists false, rt1. split; [done |]. rewrite E1, E5, E6, E7. split_and!; [done | | done | lia | lia].
       split_and!; try done. by rewrite E1. }
  destruct (table_nodes _ _ _ T0) as (och & H2 & Hnd & Hmem).
  set (bits := shape_hash_bits rt + 1).
  assert (Z.shiftl 1 bits = 2 ^ bits) as -> by (rewrite Z.shiftl_1_l; done).
  destruct (resize_shape_buckets_spec bits (size (shapes rt1)) och ltac:(unfold bits; lia) (shape_table rt1)
    (replicate (Z.to_nat (2 ^ bits)) 0) [] rt1) as (new1 & rt2 & -> & Hz2 & (Em & Ea & Eo & En & Hlo) & Ec & T2).
  - by rewrite E5, E1.
  - done.
  - intros x Hx. split; [apply not_elem_of_nil |]. rewrite E1. apply (sbucket_hashed (shape_hash_bits rt)). by apply Hmem.
  - apply table_empty. intros i. unfold moved_bucket. rewrite decide_False; [done |]. apply not_elem_of_nil.
  - rewrite zlen_replicate, Z2Nat.id; [done |]. apply Z.pow_nonneg. lia.
  - by rewrite E1.
  - intros l Hl. rewrite E1. apply list_elem_of_lookup in Hl as [b Hlb].
    destruct (Forall2_lookup_r _ _ _ _ _ H2 Hlb) as (i & _ & Hlk). apply chain_size; [by eapply linked_nodup |].
    intros x Hx. assert (is_Some (sbucket None (shape_hash_bits rt) (shapes rt) x)) as [c Hc].
    { apply Hmem. apply elem_of_concat. by exists b, l. }
    apply sbucket_Some in Hc as (s & Hs & _). by exists s.
  - cbn [mbind res_bind]. rewrite E1 in Hlo. eexists true, _. split; [reflexivity |]. cbn [set_hash shape_hash_bits shapes shape_table shape_hash_count].
    split_and!; [| split_and!; cbn; [by etrans | congruence | congruence | congruence | done] | congruence | unfold bits; lia | unfold bits; lia].
    split; [| split; [done | unfold bits; lia]].
    eapply (table_ext _ _ _ _ _ T2); [done |]. intros a. unfold moved_bucket. rewrite app_nil_r.
    destruct (decide (a ∈ concat och)) as [D | D]; [done |]. destruct (sbucket None bits (shapes rt2) a) eqn:E; [| done].
    exfalso. apply D. apply Hmem. apply sbucket_Some in E as (s & Hs & He & _).
    destruct (links_bwd _ _ _ _ Hlo Hs) as (k & u & Hu & ->). exists (get_shape_hash (hash u) (shape_hash_bits rt)). by apply sbucket_in.
Qed.

(** ** Finding *)
Lemma proto_walk_spec (rt : JSRuntime) h proto0 l : forall a fuel, linked (snext (shapes rt)) a l ->
  (forall x, x ∈ l -> exists s, shapes rt !! x = Some s /\ is_hashed s = true) -> (length l <= fuel)%nat ->
  exists b, proto_walk fuel rt h proto0 a = Ret b /\
  (b = 0 \/ exists s, shapes rt !! b = Some s /\ is_hashed s = true /\ proto s = proto0 /\ prop s = []).
Proof.
  induction l as [| x l IH]; intros a fuel Hl Hin Hf.
  { cbn in Hl. subst a. exists 0. destruct fuel; split; auto. }
  destruct Hl as (-> & Hx0 & k & Hk & Hl). destruct (Hin x ltac:(by left)) as (s & Hs & He). unfold snext in Hk.
  rewrite Hs in Hk. injection Hk as <-. destruct fuel as [| fuel]; [cbn in Hf; lia |]. cbn [proto_walk].
  rewrite (proj2 (Z.eqb_neq _ _) Hx0), (get_shape_Ret _ _ _ Hs). cbn [mbind res_bind]. destruct (_ && _) eqn:E.
  - apply andb_true_iff in E as [E Ec]. apply andb_true_iff in E as [_ Ep]. apply Z.eqb_eq in Ep, Ec. exists x. split; [done |].
    right. exists s. split_and!; [done | done | done |]. unfold prop_count, zlen in Ec. by destruct (prop s); cbn in Ec; [| lia].
  - apply IH; [done | | cbn in Hf; lia]. intros y Hy. apply Hin. by right.
Qed.

Lemma props_match_spec l : forall l1 a f, props_match l1 l a f = true -> exists l2 pr, l1 = l2 ++ [pr] /\
  Forall2 same_prop_rel l l2 /\ atom pr = a /\ flags pr = f.
Proof.
  induction l as [| p l IH]; intros [| q l1] a f H; cbn in H; try done.
  - destruct l1; [| done]. apply andb_true_iff in H as [Ea Ef]. apply Z.eqb_eq in Ea, Ef. by exists [], q.
  - apply andb_true_iff in H as [H1 H2]. unfold same_prop in H1. apply andb_true_iff in H1 as [Ea Ef]. apply Z.eqb_eq in Ea, Ef.
    destruct (IH l1 a f H2) as (l2 & pr & -> & ? & ? & ?). exists (q :: l2), pr. split_and!; [done | by constructor | done | done].
Qed.

Lemma prop_walk_spec (rt : JSRuntime) h sh a0 f l : forall a fuel, linked (snext (shapes rt)) a l ->
  (forall x, x ∈ l -> exists s, shapes rt !! x = Some s /\ is_hashed s = true) -> (length l <= fuel)%nat ->
  exists b, prop_walk fuel rt h sh a0 f a = Ret b /\
  (b = 0 \/ exists s l2 pr, shapes rt !! b = Some s /\ is_hashed s = true /\ proto s = proto sh /\ prop s = l2 ++ [pr] /\
     Forall2 same_prop_rel (prop sh) l2 /\ atom pr = a0 /\ flags pr = f).
Proof.
  induction l as [| x l IH]; intros a fuel Hl Hin Hf.
  { cbn in Hl. subst a. exists 0. destruct fuel; split; auto. }
  destruct Hl as (-> & Hx0 & k & Hk & Hl). destruct (Hin x ltac:(by left)) as (s & Hs & He). unfold snext in Hk.
  rewrite Hs in Hk. injection Hk as <-. destruct fuel as [| fuel]; [cbn in Hf; lia |]. cbn [prop_walk].
  rewrite (proj2 (Z.eqb_neq _ _) Hx0), (get_shape_Ret _ _ _ Hs). cbn [mbind res_bind]. destruct (_ && _) eqn:E.
  - apply andb_true_iff in E as [E Em]. apply andb_true_iff in E as [E _]. apply andb_true_iff in E as [_ Ep]. apply Z.eqb_eq in Ep.
    apply props_match_spec in Em as (l2 & pr & El & H2 & Ea & Ef). exists x. split; [done |]. right. by exists s, l2, pr.
  - apply IH; [done | | cbn in Hf; lia]. intros y Hy. apply Hin. by right.
Qed.

Lemma chain_hashed out bits m (l : list Z) b : (forall x, x ∈ l <-> sbucket out bits m x = Some b) ->
  forall x, x ∈ l -> exists s, m !! x = Some s /\ is_hashed s = true.
Proof. intros H x Hx. apply H in Hx. apply sbucket_Some in Hx as (s & ? & ? & _). by exists s. Qed.

Lemma find_proto_spec (rt : JSRuntime) proto0 : rt_table None rt -> exists b, find_hashed_shape_proto proto0 rt = Ret b /\
  (b = 0 \/ exists s, shapes rt !! b = Some s /\ is_hashed s = true /\ proto s = proto0 /\ prop s = []).
Proof.
  intros T. unfold find_hashed_shape_proto.
  destruct (bucket_of _ _ _ _ (shape_initial_hash proto0) T (shape_hash_range _ _)) as (i & l & Hi & Hl & Hm & Hlen).
  rewrite Hi. cbn [of_opt mbind res_bind]. apply (proto_walk_spec rt _ _ l); [done | | done]. by eapply chain_hashed.
Qed.

Lemma find_prop_shape_spec (rt : JSRuntime) sh a0 f : rt_table None rt -> exists b, find_hashed_shape_prop sh a0 f rt = Ret b /\
  (b = 0 \/ exists s l2 pr, shapes rt !! b = Some s /\ is_hashed s = true /\ proto s = proto sh /\ prop s = l2 ++ [pr] /\
     Forall2 same_prop_rel (prop sh) l2 /\ atom pr = a0 /\ flags pr = f).
Proof.
  intros T. unfold find_hashed_shape_prop.
  destruct (bucket_of _ _ _ _ (shape_hash (shape_hash (hash sh) a0) f) T (shape_hash_range _ _)) as (i & l & Hi & Hl & Hm & Hlen).
  rewrite Hi. cbn [of_opt mbind res_bind]. apply (prop_walk_spec rt _ _ _ _ l); [done | | done]. by eapply chain_hashed.
Qed.
End table.
