(* ===== verification/ShapeInv.v ===== *)
(** * quickjs.c: shapes, objects and the references between them

    The reference count of a shape is the number of objects that have it, and of
    references that the code is about to store or to give up ([extra]); a shape
    that is not hashed has one owner.  Every property holds a reference to its
    atom. *)
From Stdlib Require Import ZArith Lia Bool.
From stdpp Require Import base numbers list gmap.
From S2P Require Import Prelude Cutils Chains JSValue AtomState ShapeState ShapeSpec ShapeFacts ShapeTable.

(** ** What shapes rely on about atoms *)
Class AtomLaws (A : Type) {ops : AtomOps A} : Type := {
  owned : A -> list Z -> Prop;
  owned_perm s l k : l ≡ₚ k -> owned s l -> owned s k;
  dup_owned s a l : owned s l -> a ∈ l -> exists s', JS_DupAtom a s = Ret s' /\ owned s' (a :: l);
  free_owned s a l : owned s (a :: l) -> exists s', JS_FreeAtom a s = Ret s' /\ owned s' l;
  dup_null s : JS_DupAtom JS_ATOM_NULL s = Ret s;
  free_null s : JS_FreeAtom JS_ATOM_NULL s = Ret s
}.

(** ** Counting objects *)
Definition obj_refs (m : gmap Z JSObject) (a : Z) : Z := countb (fun x => shape x.2 =? a) (map_to_list m).

Lemma countb_permutation {X} (P : X -> bool) l k : l ≡ₚ k -> countb P l = countb P k.
Proof. induction 1; cbn; lia. Qed.

Lemma obj_refs_new m p o a : m !! p = None -> obj_refs (<[p := o]> m) a = (if shape o =? a then 1 else 0) + obj_refs m a.
Proof. intros H. unfold obj_refs. by rewrite (countb_permutation _ _ _ (map_to_list_insert m p o H)). Qed.

Lemma obj_refs_delete m p o a : m !! p = Some o -> obj_refs m a = (if shape o =? a then 1 else 0) + obj_refs (delete p m) a.
Proof. intros H. rewrite <- (insert_delete_id m p o H) at 1. rewrite obj_refs_new; [done | apply lookup_delete_eq]. Qed.

Lemma obj_refs_update m p o o' a : m !! p = Some o ->
  obj_refs (<[p := o']> m) a = obj_refs m a - (if shape o =? a then 1 else 0) + (if shape o' =? a then 1 else 0).
Proof.
  intros H. rewrite (obj_refs_delete m p o a H). rewrite <- insert_delete_eq.
  rewrite obj_refs_new by apply lookup_delete_eq. lia.
Qed.

Lemma obj_refs_nonneg m a : 0 <= obj_refs m a.
Proof. apply countb_nonneg. Qed.

Lemma obj_refs_zero m a p o : obj_refs m a = 0 -> m !! p = Some o -> shape o <> a.
Proof.
  intros H Hp E. pose proof (obj_refs_delete m p o a Hp) as Hd. rewrite (proj2 (Z.eqb_eq _ _) E) in Hd.
  pose proof (obj_refs_nonneg (delete p m) a). lia.
Qed.

(** ** The atoms of all shapes *)
Definition shape_atoms (m : gmap Z JSShape) : list Z := concat (map (fun x => atoms_of (prop x.2)) (map_to_list m)).

Lemma concat_perm {X} (l k : list (list X)) : l ≡ₚ k -> concat l ≡ₚ concat k.
Proof.
  induction 1; cbn; [done | by f_equiv | | by etrans]. rewrite !app_assoc. f_equiv. apply Permutation_app_comm.
Qed.

Lemma shape_atoms_new m a s : m !! a = None -> shape_atoms (<[a := s]> m) ≡ₚ atoms_of (prop s) ++ shape_atoms m.
Proof.
  intros H. unfold shape_atoms. change (map (fun x => atoms_of (prop x.2))) with (fmap (M := list) (fun x : Z * JSShape => atoms_of (prop x.2))).
  rewrite (concat_perm _ _ (fmap_Permutation _ _ _ (map_to_list_insert m a s H))). done.
Qed.

Lemma shape_atoms_delete m a s : m !! a = Some s -> shape_atoms m ≡ₚ atoms_of (prop s) ++ shape_atoms (delete a m).
Proof. intros H. rewrite <- (insert_delete_id m a s H) at 1. apply shape_atoms_new, lookup_delete_eq. Qed.

Lemma shape_atoms_update m a s s' : m !! a = Some s -> shape_atoms (<[a := s']> m) ≡ₚ atoms_of (prop s') ++ shape_atoms (delete a m).
Proof. intros H. rewrite <- insert_delete_eq. apply shape_atoms_new, lookup_delete_eq. Qed.

Lemma shape_atoms_links m m' : links_only m m' -> shape_atoms m' ≡ₚ shape_atoms m.
Proof.
  intros H. assert (set_next 0 <$> m' = set_next 0 <$> m) as E by (apply map_eq; intros a; rewrite !lookup_fmap; apply H).
  assert (forall m0 : gmap Z JSShape, shape_atoms (set_next 0 <$> m0) = shape_atoms m0) as Hf.
  { intros m0. unfold shape_atoms. rewrite map_to_list_fmap.
    change (map (fun x => atoms_of (prop x.2))) with (fmap (M := list) (fun x : Z * JSShape => atoms_of (prop x.2))).
    by rewrite <- list_fmap_compose. }
  rewrite <- (Hf m'), <- (Hf m). by rewrite E.
Qed.

Lemma atom_of_shape m a s x : m !! a = Some s -> x ∈ atoms_of (prop s) -> x ∈ shape_atoms m.
Proof. intros H Hx. rewrite (shape_atoms_delete m a s H). apply elem_of_app. by left. Qed.

Section inv.
Context {A : Type} {ops : AtomOps A} {laws : AtomLaws A}.
Variable held : list Z.
(** Some allocations do not work. *)
Variable poor : Prop.
Abbreviation JSRuntime := (JSRuntime A).

Definition refs (rt : JSRuntime) (extra : list Z) (a : Z) : Z := obj_refs (objects rt) a + countb (fun b => b =? a) extra.

Definition obj_ok (rt : JSRuntime) (o : JSObject) : Prop :=
  exists s, shapes rt !! shape o = Some s /\ prop_size s <= zlen (values o).

(** [n] bounds the number of operations so far. *)
Record inv (n : Z) (out : option Z) (extra : list Z) (rt : JSRuntime) : Prop := {
  v_table : table_ok out (shape_hash_bits rt) (shapes rt) (shape_table rt);
  v_hash : hash_ok (shapes rt);
  v_shapes : forall a s, shapes rt !! a = Some s -> shape_wf n s /\ a < next_addr rt;
  v_refs : forall a s, shapes rt !! a = Some s -> ref_count s = refs rt extra a /\ 0 < ref_count s;
  v_unshared : forall a s, shapes rt !! a = Some s -> is_hashed s = false -> ref_count s = 1;
  v_objs : forall p o, objects rt !! p = Some o -> obj_ok rt o /\ 0 < p < next_addr rt;
  v_extra : forall a, a ∈ extra -> is_Some (shapes rt !! a);
  v_atoms : owned (atoms rt) (shape_atoms (shapes rt) ++ held);
  v_next : 0 < next_addr rt;
  v_count : shape_hash_count rt <= n /\ 2 ^ shape_hash_bits rt <= 4 * n + 16;
  v_mem : false ∈ mem rt -> poor
}.

(** What the object is for a program. *)
Definition abs (rt : JSRuntime) (p : Z) : option (Z * list (Z * (Z * Z))) :=
  match objects rt !! p with
  | Some o => match shapes rt !! shape o with Some s => Some (proto s, live (prop s) (values o)) | None => None end
  | None => None
  end.

Definition same_abs (rt rt' : JSRuntime) : Prop := forall p, abs rt' p = abs rt p.

Lemma same_abs_trans rt1 rt2 rt3 : same_abs rt1 rt2 -> same_abs rt2 rt3 -> same_abs rt1 rt3.
Proof. intros H1 H2 p. by rewrite H2, H1. Qed.

Lemma abs_Some rt p o s : objects rt !! p = Some o -> shapes rt !! shape o = Some s ->
  abs rt p = Some (proto s, live (prop s) (values o)).
Proof. intros Ho Hs. unfold abs. by rewrite Ho, Hs. Qed.

Lemma refs_nonneg_shape rt extra a : 0 <= refs rt extra a.
Proof. unfold refs. pose proof (obj_refs_nonneg (objects rt) a). pose proof (countb_nonneg (fun b => b =? a) extra). lia. Qed.

Lemma inv_weaken_shape n n' out extra rt : n <= n' -> inv n out extra rt -> inv n' out extra rt.
Proof.
  intros Hn []. split; try done; [| lia]. intros a s Hs. destruct (v_shapes0 a s Hs). split; [by eapply shape_wf_weaken | done].
Qed.

Lemma suffix_mem (l k : list bool) b : suffix l k -> b ∈ l -> b ∈ k.
Proof. intros [j ->] H. apply elem_of_app. by right. Qed.

(** ** Only links change *)
Lemma links_inv n n' out out' extra rt rt' : inv n out extra rt -> same_rest rt rt' ->
  table_ok out' (shape_hash_bits rt') (shapes rt') (shape_table rt') -> n <= n' ->
  shape_hash_count rt' <= n' /\ 2 ^ shape_hash_bits rt' <= 4 * n' + 16 -> inv n' out' extra rt' /\ same_abs rt rt'.
Proof.
  intros I (Em & Ea & Eo & En & L) T Hn Hc. destruct I as [T0 Hh Hs Hr Hu Ho He Hat Hnx Hct Hmem]. split.
  - split; rewrite ?Ea, ?Eo, ?En; try done.
    + intros a s' Ha. destruct (links_bwd _ _ _ _ L Ha) as (k & s & Hs' & ->). apply (Hh a s Hs').
    + intros a s' Ha. destruct (links_bwd _ _ _ _ L Ha) as (k & s & Hs' & ->). destruct (Hs a s Hs') as [W Hlt].
      split; [| done]. apply (shape_wf_weaken n); [done |]. by eapply shape_wf_same.
    + intros a s' Ha. destruct (links_bwd _ _ _ _ L Ha) as (k & s & Hs' & ->). unfold refs. rewrite Eo. apply (Hr a s Hs').
    + intros a s' Ha. destruct (links_bwd _ _ _ _ L Ha) as (k & s & Hs' & ->). apply (Hu a s Hs').
    + intros p o Hp. destruct (Ho p o Hp) as [(s & Hs' & Hz) Hlt]. split; [| done].
      destruct (links_fwd _ _ _ _ L Hs') as (k & Hk). by exists (set_next k s).
    + intros a Ha. destruct (He a Ha) as [s Hs']. destruct (links_fwd _ _ _ _ L Hs') as (k & Hk). by exists (set_next k s).
    + eapply owned_perm; [| exact Hat]. by rewrite (shape_atoms_links _ _ L).
    + intros Hf. by apply Hmem, (suffix_mem _ _ _ Em).
  - intros p. unfold abs. rewrite Eo. destruct (objects rt !! p) as [o |] eqn:Hp; [| done].
    destruct (Ho p o Hp) as [(s & Hs' & _) _]. destruct (links_fwd _ _ _ _ L Hs') as (k & Hk). by rewrite Hk, Hs'.
Qed.

(** ** Memory *)
Definition same_but_mem (rt rt' : JSRuntime) : Prop :=
  atoms rt' = atoms rt /\ shapes rt' = shapes rt /\ objects rt' = objects rt /\ next_addr rt' = next_addr rt /\
  shape_table rt' = shape_table rt /\ shape_hash_bits rt' = shape_hash_bits rt /\ shape_hash_count rt' = shape_hash_count rt.

(** Memory runs out only if some allocations do not work. *)
Lemma alloc_step n out extra rt : inv n out extra rt -> exists ok rt', alloc_ok rt = (ok, rt') /\ same_but_mem rt rt' /\
  inv n out extra rt' /\ same_abs rt rt' /\ (ok = false -> poor).
Proof.
  intros I. unfold alloc_ok. destruct (mem rt) as [| b m] eqn:Em.
  - exists true, rt. by split_and!.
  - eexists b, _. split; [reflexivity |]. split; [done |]. pose proof (v_mem _ _ _ _ I) as Hm. rewrite Em in Hm. split_and!; [| done |].
    + destruct I. split; try done. intros Hf. apply Hm. by right.
    + intros ->. apply Hm. by left.
Qed.

(** ** The shape of an object that has it alone *)

(** Only [p] has the shape [a]. *)
Lemma own_refs n out extra rt p o s : inv n out extra rt -> objects rt !! p = Some o -> shapes rt !! shape o = Some s ->
  ref_count s = 1 -> obj_refs (delete p (objects rt)) (shape o) = 0 /\ countb (fun b => b =? shape o) extra = 0.
Proof.
  intros I Hp Hs H1. destruct (v_refs _ _ _ _ I _ _ Hs) as [Hr _]. unfold refs in Hr.
  rewrite (obj_refs_delete _ p o (shape o) Hp), Z.eqb_refl in Hr.
  pose proof (obj_refs_nonneg (delete p (objects rt)) (shape o)). pose proof (countb_nonneg (fun b => b =? shape o) extra). lia.
Qed.

Lemma own_unique n out extra rt p o s q o' : inv n out extra rt -> objects rt !! p = Some o -> shapes rt !! shape o = Some s ->
  ref_count s = 1 -> objects rt !! q = Some o' -> q <> p -> shape o' <> shape o.
Proof.
  intros I Hp Hs H1 Hq D. destruct (own_refs _ _ _ _ _ _ _ I Hp Hs H1) as [H0 _].
  apply (obj_refs_zero _ _ q o' H0). by rewrite lookup_delete_ne by congruence.
Qed.

Record owner_change (n : Z) (p : Z) (o : JSObject) (s : JSShape) (b : Z) (s' : JSShape) (vs : list Z)
    (rt rt' : JSRuntime) : Prop := {
  oc_shapes : shapes rt' = <[b := s']> (delete (shape o) (shapes rt));
  oc_objects : objects rt' = <[p := mkObject b vs]> (objects rt);
  oc_table : shape_table rt' = shape_table rt;
  oc_bits : shape_hash_bits rt' = shape_hash_bits rt;
  oc_count : shape_hash_count rt' = shape_hash_count rt;
  oc_mem : suffix (mem rt') (mem rt);
  oc_next : next_addr rt <= next_addr rt' /\ b < next_addr rt';
  oc_fresh : b = shape o \/ shapes rt !! b = None;
  oc_nonzero : b <> 0;
  oc_hash : 0 <= hash s' < 2 ^ 32;
  oc_refs : ref_count s' = 1;
  oc_wf : shape_wf n s';
  oc_size : prop_size s' <= zlen vs;
  oc_atoms : owned (atoms rt') (atoms_of (prop s') ++ shape_atoms (delete (shape o) (shapes rt)) ++ held)
}.

Lemma owner_table n n' out out' extra p o s b s' vs rt rt' : inv n out extra rt -> objects rt !! p = Some o ->
  shapes rt !! shape o = Some s -> owner_change n' p o s b s' vs rt rt' ->
  is_hashed s = false \/ out = Some (shape o) -> is_hashed s' = false \/ out' = Some b ->
  out = None \/ out = Some (shape o) -> out' = None \/ out' = Some b ->
  table_ok out' (shape_hash_bits rt') (shapes rt') (shape_table rt').
Proof.
  intros I Hp Hs C Hout Hout' Ho Ho'. rewrite (oc_shapes _ _ _ _ _ _ _ _ _ C), (oc_bits _ _ _ _ _ _ _ _ _ C), (oc_table _ _ _ _ _ _ _ _ _ C).
  set (bits := shape_hash_bits rt).
  assert (sbucket out bits (shapes rt) (shape o) = None) as Ha.
  { unfold sbucket. case_decide as D; [done |]. rewrite Hs. destruct Hout as [-> | ->]; done. }
  assert (sbucket out' bits (<[b := s']> (delete (shape o) (shapes rt))) b = None) as Hb.
  { unfold sbucket. case_decide as D; [done |]. rewrite lookup_insert_eq.
    destruct Hout' as [-> | ->]; done. }
  assert (b <> shape o -> sbucket out bits (shapes rt) b = None) as Hb0.
  { intros D. unfold sbucket. case_decide; [done |]. destruct (oc_fresh _ _ _ _ _ _ _ _ _ C) as [| ->]; done. }
  eapply table_ok_ext; [apply (v_table _ _ _ _ I) | |].
  - intros y [c Hy]. unfold snext.
    assert (y <> b /\ y <> shape o) as [D1 D2].
    { split; intros ->; [| congruence]. destruct (decide (b = shape o)) as [E | E]; [congruence | rewrite Hb0 in Hy; done]. }
    by rewrite lookup_insert_ne, lookup_delete_ne by congruence.
  - intros y. destruct (decide (y = b)) as [-> | D1].
    { fold bits. rewrite Hb. destruct (decide (b = shape o)) as [E | E]; [congruence | by rewrite Hb0]. }
    destruct (decide (y = shape o)) as [-> | D2].
    { fold bits. rewrite Ha. unfold sbucket. case_decide; [done |]. by rewrite lookup_insert_ne, lookup_delete_eq by congruence. }
    unfold sbucket. rewrite lookup_insert_ne, lookup_delete_ne by congruence.
    destruct Ho as [-> | ->], Ho' as [-> | ->]; rewrite !decide_False by congruence; done.
Qed.

(** [p] is the only owner of its shape, which is replaced by [b]. *)
Lemma inv_replace n n' out out' extra p o s b s' vs rt rt' : inv n out extra rt -> objects rt !! p = Some o ->
  shapes rt !! shape o = Some s -> ref_count s = 1 -> owner_change n' p o s b s' vs rt rt' -> n <= n' ->
  table_ok out' (shape_hash_bits rt') (shapes rt') (shape_table rt') ->
  inv n' out' extra rt' /\ abs rt' p = Some (proto s', live (prop s') vs) /\ forall q, q <> p -> abs rt' q = abs rt q.
Proof.
  intros I Hp Hs H1 C Hn T.
  destruct (own_refs _ _ _ _ _ _ _ I Hp Hs H1) as [H0 He0].
  destruct C as [Es Eo Et Eb Ec Em [Hnx Hbn] Hfr Hb0 Hh Hrc W Hz Hat].
  assert (forall a t, shapes rt' !! a = Some t -> a = b /\ t = s' \/ a <> b /\ a <> shape o /\ shapes rt !! a = Some t) as Hcase.
  { intros a t Ha. rewrite Es in Ha. destruct (decide (b = a)) as [<- | D]; [rewrite lookup_insert_eq in Ha; left; split; congruence |].
    rewrite lookup_insert_ne in Ha by done. apply lookup_delete_Some in Ha as [D' Ha]. right. split_and!; congruence. }
  assert (forall a, obj_refs (objects rt') a = obj_refs (delete p (objects rt)) a + (if b =? a then 1 else 0)) as Hor.
  { intros a. rewrite Eo, (obj_refs_update _ p o (mkObject b vs) a Hp), (obj_refs_delete _ p o a Hp). cbn. lia. }
  assert (obj_refs (delete p (objects rt)) b = 0 /\ countb (fun c => c =? b) extra = 0) as [Hb1 Hb2].
  { destruct Hfr as [-> | Hfr]; [done |]. split.
    - destruct (Z.eq_dec (obj_refs (delete p (objects rt)) b) 0) as [| D]; [done |]. exfalso.
      unfold obj_refs in D. apply D. apply countb_zero. intros [q o'] Hq. apply elem_of_map_to_list in Hq. cbn.
      apply Z.eqb_neq. intros E. apply lookup_delete_Some in Hq as [_ Hq]. destruct (v_objs _ _ _ _ I q o' Hq) as [(t & Ht & _) _]. congruence.
    - apply countb_zero. intros c Hc. apply Z.eqb_neq. intros ->. destruct (v_extra _ _ _ _ I b Hc). congruence. }
  assert (forall q o', q <> p -> objects rt !! q = Some o' -> shape o' <> shape o /\ shape o' <> b) as Hother.
  { intros q o' D Hq. pose proof (own_unique _ _ _ _ _ _ _ _ _ I Hp Hs H1 Hq D) as D'. split; [done |].
    destruct Hfr as [-> | Hfr]; [done |]. intros E. destruct (v_objs _ _ _ _ I q o' Hq) as [(t & Ht & _) _]. congruence. }
  split_and!.
  - split; try done.
    + intros a t Ha. destruct (Hcase a t Ha) as [[-> ->] | (_ & _ & Ha')]; [done | by apply (v_hash _ _ _ _ I)].
    + intros a t Ha. destruct (Hcase a t Ha) as [[-> ->] | (_ & _ & Ha')]; [done |].
      destruct (v_shapes _ _ _ _ I a t Ha'). split; [by eapply shape_wf_weaken | lia].
    + intros a t Ha. unfold refs. rewrite Hor. destruct (Hcase a t Ha) as [[-> ->] | (D & D' & Ha')].
      * rewrite Z.eqb_refl, Hb1, Hb2. lia.
      * rewrite (proj2 (Z.eqb_neq b a)) by congruence. destruct (v_refs _ _ _ _ I a t Ha') as [Hr Hpos]. split; [| done].
        rewrite Hr. unfold refs. rewrite (obj_refs_delete _ p o a Hp), (proj2 (Z.eqb_neq (shape o) a)) by congruence. lia.
    + intros a t Ha Ht. destruct (Hcase a t Ha) as [[-> ->] | (_ & _ & Ha')]; [done | by apply (v_unshared _ _ _ _ I a)].
    + intros q o' Hq. rewrite Eo in Hq. destruct (decide (p = q)) as [<- | D].
      * rewrite lookup_insert_eq in Hq. injection Hq as <-. destruct (v_objs _ _ _ _ I p o Hp) as [_ ?].
        split; [| lia]. exists s'. cbn. split; [by rewrite Es, lookup_insert_eq | done].
      * rewrite lookup_insert_ne in Hq by done. destruct (v_objs _ _ _ _ I q o' Hq) as [(t & Ht & Hzt) ?]. split; [| lia].
        destruct (Hother q o' ltac:(congruence) Hq) as [D1 D2]. exists t. split; [| done].
        by rewrite Es, lookup_insert_ne, lookup_delete_ne by congruence.
    + intros a Ha. destruct (v_extra _ _ _ _ I a Ha) as [t Ht]. rewrite Es. destruct (decide (b = a)) as [<- | D]; [rewrite lookup_insert_eq; eauto |].
      rewrite lookup_insert_ne by done. rewrite lookup_delete_ne; [eauto |]. intros E.
      pose proof (countb_all _ _ _ He0 Ha) as Hc. cbn in Hc. apply Z.eqb_neq in Hc. congruence.
    + eapply owned_perm; [| exact Hat]. rewrite Es. rewrite app_assoc. f_equiv.
      destruct Hfr as [-> | Hfr].
      * rewrite <- (insert_delete_eq (delete _ _)), delete_delete_eq. symmetry. apply shape_atoms_new, lookup_delete_eq.
      * symmetry. apply shape_atoms_new. by apply lookup_delete_None; right.
    + pose proof (v_next _ _ _ _ I). lia.
    + rewrite Ec, Eb. pose proof (v_count _ _ _ _ I). lia.
    + intros Hf. by apply (v_mem _ _ _ _ I), (suffix_mem _ _ _ Em).
  - unfold abs. rewrite Eo, lookup_insert_eq. cbn. by rewrite Es, lookup_insert_eq.
  - intros q D. unfold abs. rewrite Eo, lookup_insert_ne by congruence. destruct (objects rt !! q) as [o' |] eqn:Hq; [| done].
    destruct (Hother q o' D Hq) as [D1 D2]. by rewrite Es, lookup_insert_ne, lookup_delete_ne by congruence.
Qed.

Lemma inv_own n n' out out' extra p o s b s' vs rt rt' : inv n out extra rt -> objects rt !! p = Some o ->
  shapes rt !! shape o = Some s -> ref_count s = 1 -> owner_change n' p o s b s' vs rt rt' -> n <= n' ->
  is_hashed s = false \/ out = Some (shape o) -> is_hashed s' = false \/ out' = Some b ->
  out = None \/ out = Some (shape o) -> out' = None \/ out' = Some b ->
  inv n' out' extra rt' /\ abs rt' p = Some (proto s', live (prop s') vs) /\ forall q, q <> p -> abs rt' q = abs rt q.
Proof. intros. by eapply inv_replace; [.. | eapply owner_table]. Qed.
End inv.
