(* ===== verification/ShapeSteps.v ===== *)
(** * quickjs.c: the primitive steps on shapes

    Taking, giving up, cloning and hashing a shape, giving it to an object: each
    keeps the invariant of ShapeInv.v and what the objects are. *)
From Stdlib Require Import ZArith Lia Bool.
From stdpp Require Import base numbers list gmap.
From S2P Require Import Prelude Cutils Chains JSValue AtomState ShapeState ShapeSpec ShapeFacts ShapeTable ShapeInv.

Section steps.
Context {A : Type} {ops : AtomOps A} {laws : AtomLaws A}.
Variable held : list Z.
Variable poor : Prop.
Abbreviation JSRuntime := (JSRuntime A).
Abbreviation inv := (inv held poor).

(** ** Reference counts *)
Lemma table_same_keys out bits m heads a s s' : table_ok out bits m heads -> m !! a = Some s ->
  hash s' = hash s -> is_hashed s' = is_hashed s -> shape_hash_next s' = shape_hash_next s ->
  table_ok out bits (<[a := s']> m) heads.
Proof.
  intros T Hs E1 E2 E3. eapply table_ok_ext; [exact T | |].
  - intros b _. unfold snext. destruct (decide (a = b)) as [<- | D]; [by rewrite lookup_insert_eq, Hs; cbn; rewrite E3 | by rewrite lookup_insert_ne].
  - intros b. unfold sbucket. case_decide; [done |]. destruct (decide (a = b)) as [<- | D];
      [by rewrite lookup_insert_eq, Hs, E1, E2 | by rewrite lookup_insert_ne].
Qed.

Lemma inv_ref_shape n out extra extra' (rt : JSRuntime) a s c : inv n out extra rt -> shapes rt !! a = Some s -> 0 < c ->
  (is_hashed s = false -> c = 1) -> refs rt extra' a = c ->
  (forall b, b <> a -> countb (fun x => x =? b) extra' = countb (fun x => x =? b) extra) ->
  (forall b, b ∈ extra' -> is_Some (shapes rt !! b)) ->
  inv n out extra' (put_shape a (set_ref_count c s) rt) /\ same_abs rt (put_shape a (set_ref_count c s) rt).
Proof.
  intros I Hs Hc Hun Hr Hx Hex.
  assert (forall b t, <[a := set_ref_count c s]> (shapes rt) !! b = Some t -> b = a /\ t = set_ref_count c s \/
    b <> a /\ shapes rt !! b = Some t) as Hcase.
  { intros b t Hb. destruct (decide (a = b)) as [<- | D]; [rewrite lookup_insert_eq in Hb; left; split; congruence |].
    rewrite lookup_insert_ne in Hb by done. right. split; [congruence | done]. }
  assert (forall b t, shapes rt !! b = Some t -> exists t', <[a := set_ref_count c s]> (shapes rt) !! b = Some t' /\
    proto t' = proto t /\ prop t' = prop t /\ prop_size t' = prop_size t) as Hfwd.
  { intros b t Hb. destruct (decide (a = b)) as [<- | D]; [rewrite lookup_insert_eq; exists (set_ref_count c s); by assert (t = s) as -> by congruence |].
    rewrite lookup_insert_ne by done. by exists t. }
  split.
  - destruct I as [T Hh Hsh Hrf Hu Ho He Hat Hnx Hct Hmem]. split; cbn; try done.
    + by eapply table_same_keys.
    + intros b t Hb. destruct (Hcase b t Hb) as [[-> ->] | [_ Hb']]; [exact (Hh a s Hs) | exact (Hh b t Hb')].
    + intros b t Hb. destruct (Hcase b t Hb) as [[-> ->] | [_ Hb']]; [| by apply Hsh]. destruct (Hsh a s Hs). split; [| done].
      by eapply shape_wf_same.
    + intros b t Hb. destruct (Hcase b t Hb) as [[-> ->] | [D Hb']]; [done |]. unfold refs in *. cbn. rewrite (Hx b D). by apply (Hrf b).
    + intros b t Hb Ht. destruct (Hcase b t Hb) as [[-> ->] | [D Hb']]; [by apply Hun | by apply (Hu b)].
    + intros p o Hp. destruct (Ho p o Hp) as [(t & Ht & Hz) Hlt]. split; [| done]. destruct (Hfwd _ t Ht) as (t' & Ht' & _ & _ & Ez).
      exists t'. cbn. by rewrite Ez.
    + intros b Hb. destruct (Hex b Hb) as [t Ht]. destruct (Hfwd b t Ht) as (t' & ? & _). eauto.
    + eapply owned_perm; [| exact Hat]. f_equiv. rewrite (shape_atoms_update _ a s _ Hs). exact (shape_atoms_delete _ a s Hs).
  - intros p. unfold abs. cbn. destruct (objects rt !! p) as [o |] eqn:Hp; [| done].
    destruct (v_objs _ _ _ _ _ _ I p o Hp) as [(t & Ht & _) _]. destruct (Hfwd _ t Ht) as (t' & -> & -> & -> & _). by rewrite Ht.
Qed.

Lemma dup_shape_step n extra (rt : JSRuntime) a s : inv n None extra rt -> shapes rt !! a = Some s -> is_hashed s = true ->
  exists rt', js_dup_shape a rt = Ret rt' /\ inv n None (a :: extra) rt' /\ same_abs rt rt' /\ objects rt' = objects rt /\
    shapes rt' = <[a := set_ref_count (ref_count s + 1) s]> (shapes rt).
Proof.
  intros I Hs Hh. unfold js_dup_shape. rewrite (get_shape_Ret _ _ _ Hs). cbn [mbind res_bind].
  destruct (v_refs _ _ _ _ _ _ I a s Hs) as [Hr Hpos].
  destruct (inv_ref_shape n None extra (a :: extra) rt a s (ref_count s + 1) I Hs) as [I' Hab]; [lia | congruence | | | |].
  - rewrite Hr. unfold refs. cbn [countb]. rewrite Z.eqb_refl. lia.
  - intros b D. cbn [countb]. by rewrite (proj2 (Z.eqb_neq _ _)) by congruence.
  - intros b [-> | Hb]%elem_of_cons; [by eauto | by apply (v_extra _ _ _ _ _ _ I)].
  - eexists. split; [reflexivity |]. done.
Qed.

Lemma free_atoms_owned l : forall s k, owned s (atoms_of l ++ k) -> exists s', free_atoms l s = Ret s' /\ owned s' k.
Proof.
  unfold atoms_of. induction l as [| p l IH]; intros s k H; [by exists s |]. cbn [free_atoms].
  destruct (decide (atom p <> JS_ATOM_NULL)) as [Ha | Ha].
  - rewrite filter_cons_True in H by done. cbn [map app] in H. destruct (free_owned _ _ _ H) as (s' & -> & H'). cbn [mbind res_bind]. by apply IH.
  - rewrite filter_cons_False in H by done. assert (atom p = JS_ATOM_NULL) as -> by (destruct (Z.eq_dec (atom p) JS_ATOM_NULL); done).
    rewrite free_null. cbn [mbind res_bind]. by apply IH.
Qed.

Lemma dup_atoms_owned l k : (forall x, x ∈ atoms_of l -> x ∈ k) -> forall s k', owned s (k' ++ k) -> exists s',
  dup_atoms l s = Ret s' /\ owned s' (atoms_of l ++ k' ++ k).
Proof.
  unfold atoms_of. induction l as [| p l IH]; intros Hin s k' H; [by exists s |]. cbn [dup_atoms].
  destruct (decide (atom p <> JS_ATOM_NULL)) as [Ha | Ha].
  - rewrite filter_cons_True in * by done. cbn [map] in *. destruct (dup_owned _ (atom p) _ H) as (s1 & -> & H1).
    { apply elem_of_app. right. apply Hin. by left. }
    cbn [mbind res_bind]. destruct (IH ltac:(intros x Hx; apply Hin; by right) s1 (atom p :: k') H1) as (s' & -> & H2).
    exists s'. split; [done |]. eapply owned_perm; [| exact H2]. cbn. rewrite <- Permutation_middle. done.
  - rewrite filter_cons_False in * by done. assert (atom p = JS_ATOM_NULL) as -> by (destruct (Z.eq_dec (atom p) JS_ATOM_NULL); done).
    rewrite dup_null. cbn [mbind res_bind]. by apply IH.
Qed.

(** ** Giving up a shape *)

(** The shape [a] is gone. *)
Lemma drop_inv n extra (rt rt' : JSRuntime) a s : inv n None (a :: extra) rt -> shapes rt !! a = Some s -> refs rt extra a = 0 ->
  links_only (delete a (shapes rt)) (shapes rt') -> objects rt' = objects rt -> suffix (mem rt') (mem rt) -> next_addr rt' = next_addr rt ->
  table_ok None (shape_hash_bits rt') (shapes rt') (shape_table rt') ->
  shape_hash_bits rt' = shape_hash_bits rt -> shape_hash_count rt' <= shape_hash_count rt ->
  owned (atoms rt') (shape_atoms (delete a (shapes rt)) ++ held) -> inv n None extra rt' /\ same_abs rt rt'.
Proof.
  intros I Hs H0 L Eo Em En T Eb Hc Hat. unfold refs in H0. pose proof (obj_refs_nonneg (objects rt) a).
  pose proof (countb_nonneg (fun b => b =? a) extra) as Hcn.
  assert (forall b t', shapes rt' !! b = Some t' -> b <> a /\ exists k t, shapes rt !! b = Some t /\ t' = set_next k t) as Hcase.
  { intros b t' Hb. destruct (links_bwd _ _ _ _ L Hb) as (k & t & Ht & ->). apply lookup_delete_Some in Ht as [D Ht]. split; [congruence |]. by exists k, t. }
  assert (forall b t, b <> a -> shapes rt !! b = Some t -> exists k, shapes rt' !! b = Some (set_next k t)) as Hfwd.
  { intros b t D Ht. apply (links_fwd _ _ _ _ L). by rewrite lookup_delete_ne by congruence. }
  assert (forall q o, objects rt !! q = Some o -> shape o <> a) as Hno by (intros q o Hq; apply (obj_refs_zero (objects rt) a q o); [lia | done]).
  split.
  - destruct I as [T0 Hh Hsh Hrf Hu Ho He Hat0 Hnx Hct Hmem]. split; try done.
    + intros b t' Hb. destruct (Hcase b t' Hb) as (D & k & t & Ht & ->). apply (Hh b t Ht).
    + intros b t' Hb. destruct (Hcase b t' Hb) as (D & k & t & Ht & ->). rewrite En. destruct (Hsh b t Ht). split; [by eapply shape_wf_same | done].
    + intros b t' Hb. destruct (Hcase b t' Hb) as (D & k & t & Ht & ->). destruct (Hrf b t Ht) as [Hr Hpos]. cbn. split; [| done].
      rewrite Hr. unfold refs. rewrite Eo. cbn [countb]. rewrite (proj2 (Z.eqb_neq a b)) by congruence. lia.
    + intros b t' Hb Ht'. destruct (Hcase b t' Hb) as (D & k & t & Ht & ->). by apply (Hu b t).
    + intros q o Hq. rewrite Eo in Hq. rewrite En. destruct (Ho q o Hq) as [(t & Ht & Hz) Hlt]. split; [| done].
      destruct (Hfwd _ t (Hno q o Hq) Ht) as (k & Hk). by exists (set_next k t).
    + intros b Hb. destruct (He b ltac:(by right)) as [t Ht]. destruct (Hfwd b t) as (k & Hk); [| done | eauto].
      intros ->. assert (countb (fun x => x =? a) extra = 0) as Hz by lia. pose proof (countb_all _ _ _ Hz Hb) as Hc'. cbn in Hc'. by rewrite Z.eqb_refl in Hc'.
    + eapply owned_perm; [| exact Hat]. f_equiv. symmetry. by apply shape_atoms_links.
    + by rewrite En.
    + rewrite Eb. lia.
    + intros Hf. by apply Hmem, (suffix_mem _ _ _ Em).
  - intros q. unfold abs. rewrite Eo. destruct (objects rt !! q) as [o |] eqn:Hq; [| done].
    destruct (v_objs _ _ _ _ _ _ I q o Hq) as [(t & Ht & _) _]. destruct (Hfwd _ t (Hno q o Hq) Ht) as (k & ->). by rewrite Ht.
Qed.

Lemma hash_ok_update m a s s' : hash_ok m -> m !! a = Some s -> hash s' = hash s -> hash_ok (<[a := s']> m).
Proof.
  intros H Hs E b t Hb. destruct (decide (a = b)) as [<- | D]; [rewrite lookup_insert_eq in Hb; injection Hb as <-; rewrite E; apply (H a s Hs) |].
  rewrite lookup_insert_ne in Hb by done. by apply H.
Qed.

Lemma delete_links m m' a s k : m !! a = Some s -> links_only (<[a := k]> m) m' -> links_only (delete a m) (delete a m').
Proof.
  intros Hs L b. destruct (decide (a = b)) as [<- | D]; [by rewrite !lookup_delete_eq |]. rewrite !lookup_delete_ne by done.
  specialize (L b). by rewrite lookup_insert_ne in L.
Qed.

Lemma table_delete bits m heads a : table_ok (Some a) bits m heads -> table_ok None bits (delete a m) heads.
Proof.
  intros T. eapply table_ok_ext; [exact T | |].
  - intros b [c Hb]. apply sbucket_Some in Hb as (_ & _ & _ & _ & D). unfold snext. by rewrite lookup_delete_ne by congruence.
  - intros b. unfold sbucket. destruct (decide (b = a)) as [-> | D].
    + rewrite (decide_True (P := Some a = Some a)) by done. rewrite decide_False by done. by rewrite lookup_delete_eq.
    + rewrite !decide_False by congruence. by rewrite lookup_delete_ne by congruence.
Qed.

Lemma table_unhashed bits m heads a s : table_ok None bits m heads -> m !! a = Some s -> is_hashed s = false -> table_ok (Some a) bits m heads.
Proof.
  intros T Hs Hh. eapply table_ok_ext; [exact T | done |]. intros b. unfold sbucket. rewrite (decide_False (P := Some b = None)) by done.
  case_decide as D; [| done]. injection D as ->. by rewrite Hs, Hh.
Qed.

Lemma free_shape_step n extra (rt : JSRuntime) a : inv n None (a :: extra) rt -> exists rt', js_free_shape a rt = Ret rt' /\
  inv n None extra rt' /\ same_abs rt rt' /\ objects rt' = objects rt /\ next_addr rt' = next_addr rt /\
  forall b s, b <> a -> shapes rt !! b = Some s -> exists k, shapes rt' !! b = Some (set_next k s).
Proof.
  intros I. destruct (v_extra _ _ _ _ _ _ I a ltac:(by left)) as [s Hs]. destruct (v_refs _ _ _ _ _ _ I a s Hs) as [Hr Hpos].
  unfold js_free_shape. rewrite (get_shape_Ret _ _ _ Hs). cbn [mbind res_bind].
  assert (ref_count s - 1 = refs rt extra a) as Hr' by (rewrite Hr; unfold refs; cbn [countb]; rewrite Z.eqb_refl; lia).
  destruct (Z.leb_spec (ref_count s - 1) 0) as [Hle | Hgt].
  2: { destruct (inv_ref_shape n None (a :: extra) extra rt a s (ref_count s - 1) I Hs Hgt) as [I' Hab].
    - intros Hh. pose proof (v_unshared _ _ _ _ _ _ I a s Hs Hh). lia.
    - done.
    - intros b D. cbn [countb]. by rewrite (proj2 (Z.eqb_neq _ _)) by congruence.
    - intros b Hb. apply (v_extra _ _ _ _ _ _ I). by right.
    - eexists. split; [reflexivity |]. split_and!; try done. intros b t D Hb. exists (shape_hash_next t). cbn.
      rewrite lookup_insert_ne by congruence. rewrite Hb. by destruct t. }
  pose proof (refs_nonneg_shape rt extra a) as Hnn. assert (refs rt extra a = 0) as H0 by lia.
  replace (ref_count s - 1) with 0 by lia. set (rt1 := put_shape a (set_ref_count 0 s) rt).
  assert (shapes rt1 !! a = Some (set_ref_count 0 s)) as Hs1 by apply lookup_insert_eq.
  assert (hash_ok (shapes rt1)) as Hh1 by (by apply (hash_ok_update _ a s); [apply (v_hash _ _ _ _ _ _ I) | |]).
  assert (table_ok None (shape_hash_bits rt1) (shapes rt1) (shape_table rt1)) as T1
    by (by apply (table_same_keys None _ (shapes rt) _ a s); [apply (v_table _ _ _ _ _ _ I) | ..]).
  unfold js_free_shape0. rewrite (get_shape_Ret _ _ _ Hs1). cbn [mbind res_bind ref_count set_ref_count assert_ is_hashed].
  assert (exists rt2, (if is_hashed s then js_shape_hash_unlink a rt1 else Ret rt1) = Ret rt2 /\
    table_ok (Some a) (shape_hash_bits rt2) (shapes rt2) (shape_table rt2) /\ same_rest rt1 rt2 /\
    shape_hash_bits rt2 = shape_hash_bits rt1 /\ shape_hash_count rt2 <= shape_hash_count rt1) as (rt2 & -> & T2 & (Em & Ea & Eo & En & L) & Eb & Ec).
  { destruct (is_hashed s) eqn:Hh.
    - destruct (unlink_shape_spec rt1 a _ T1 Hh1 Hs1 Hh) as (rt2 & ? & ? & ? & ? & ?). exists rt2. split_and!; try done. lia.
    - exists rt1. split_and!; try done. by apply (table_unhashed _ _ _ a (set_ref_count 0 s)). }
  cbn [mbind res_bind]. destruct (links_fwd _ _ _ _ L Hs1) as (k & Hk). rewrite (get_shape_Ret _ _ _ Hk). cbn [mbind res_bind prop set_next set_ref_count].
  destruct (free_atoms_owned (prop s) (atoms rt2) (shape_atoms (delete a (shapes rt)) ++ held)) as (at' & -> & Hat).
  { rewrite Ea. eapply owned_perm; [| apply (v_atoms _ _ _ _ _ _ I)]. rewrite app_assoc. f_equiv. by apply shape_atoms_delete. }
  cbn [mbind res_bind]. eexists. split; [reflexivity |].
  assert (links_only (delete a (shapes rt)) (delete a (shapes rt2))) as Ld by (by apply (delete_links _ _ a s (set_ref_count 0 s))).
  destruct (drop_inv n extra rt (set_atoms at' (set_shapes (delete a (shapes rt2)) rt2)) a s I Hs H0 Ld) as [I' Hab]; try done.
  - by apply table_delete.
  - split_and!; try done. intros b t D Hb. cbn. apply (links_fwd _ _ _ _ Ld). by rewrite lookup_delete_ne by congruence.
Qed.

(** ** New shapes *)
Lemma fresh_shape n out extra (rt : JSRuntime) : inv n out extra rt -> shapes rt !! next_addr rt = None /\ next_addr rt <> 0.
Proof.
  intros I. split; [| pose proof (v_next _ _ _ _ _ _ I); lia]. destruct (shapes rt !! next_addr rt) as [s |] eqn:E; [| done].
  destruct (v_shapes _ _ _ _ _ _ I _ s E). lia.
Qed.

Lemma new_shape_inv n n' out' extra (rt rt' : JSRuntime) a s : inv n None extra rt -> n <= n' -> a = next_addr rt ->
  shapes rt' = <[a := s]> (shapes rt) -> objects rt' = objects rt -> suffix (mem rt') (mem rt) -> next_addr rt' = next_addr rt + 1 ->
  shape_table rt' = shape_table rt -> shape_hash_bits rt' = shape_hash_bits rt -> shape_hash_count rt' = shape_hash_count rt ->
  ref_count s = 1 -> 0 <= hash s < 2 ^ 32 -> shape_wf n' s -> is_hashed s = false /\ out' = None \/ out' = Some a ->
  owned (atoms rt') (atoms_of (prop s) ++ shape_atoms (shapes rt) ++ held) -> inv n' out' (a :: extra) rt' /\ same_abs rt rt'.
Proof.
  intros I Hn -> Es Eo Em En Et Eb Ec Hrc Hh W Hout Hat. destruct (fresh_shape _ _ _ _ I) as [Hfr H0]. set (a := next_addr rt) in *.
  assert (forall b t, shapes rt' !! b = Some t -> b = a /\ t = s \/ b <> a /\ shapes rt !! b = Some t) as Hcase.
  { intros b t Hb. rewrite Es in Hb. destruct (decide (a = b)) as [<- | D]; [rewrite lookup_insert_eq in Hb; left; split; congruence |].
    rewrite lookup_insert_ne in Hb by done. right. split; [congruence | done]. }
  assert (forall b t, shapes rt !! b = Some t -> shapes rt' !! b = Some t) as Hfwd.
  { intros b t Hb. rewrite Es, lookup_insert_ne; [done |]. congruence. }
  assert (forall q o, objects rt !! q = Some o -> shape o <> a) as Hno.
  { intros q o Hq E. destruct (v_objs _ _ _ _ _ _ I q o Hq) as [(t & Ht & _) _]. congruence. }
  split.
  - destruct I as [T Hok Hsh Hrf Hu Ho He Hat0 Hnx Hct Hmem]. split; rewrite ?Et, ?Eb, ?Ec, ?En, ?Eo; try lia.
    + eapply table_ok_ext; [exact T | |].
      * intros b [c Hb]. apply sbucket_Some in Hb as (t & Ht & _). unfold snext. by rewrite (Hfwd b t Ht), Ht.
      * intros b. unfold sbucket. rewrite (decide_False (P := Some b = None)) by done. rewrite Es.
        destruct (decide (b = a)) as [-> | D].
        { rewrite Hfr. case_decide; [done |]. rewrite lookup_insert_eq. destruct Hout as [[-> _] | ->]; done. }
        { rewrite lookup_insert_ne by congruence. rewrite decide_False; [done |]. destruct Hout as [[_ ->] | ->]; congruence. }
    + intros b t Hb. destruct (Hcase b t Hb) as [[-> ->] | [_ Hb']]; [done | exact (Hok b t Hb')].
    + intros b t Hb. destruct (Hcase b t Hb) as [[-> ->] | [_ Hb']]; [split; [done | unfold a; lia] |].
      destruct (Hsh b t Hb'). split; [by eapply shape_wf_weaken | lia].
    + intros b t Hb. unfold refs. rewrite Eo. cbn [countb]. destruct (Hcase b t Hb) as [[-> ->] | [D Hb']].
      * rewrite Z.eqb_refl, Hrc. assert (obj_refs (objects rt) a = 0) as ->.
        { unfold obj_refs. apply countb_zero. intros [q o] Hq. apply elem_of_map_to_list in Hq. apply Z.eqb_neq. by apply (Hno q). }
        rewrite countb_zero; [lia |]. intros c Hc. apply Z.eqb_neq. intros ->. destruct (He a Hc). congruence.
      * rewrite (proj2 (Z.eqb_neq a b)) by congruence. destruct (Hrf b t Hb') as [Hr Hpos]. unfold refs in Hr. lia.
    + intros b t Hb Ht. destruct (Hcase b t Hb) as [[-> ->] | [_ Hb']]; [done | by apply (Hu b t)].
    + intros q o Hq. destruct (Ho q o Hq) as [(t & Ht & Hz) Hlt]. split; [| lia]. exists t. split; [by apply Hfwd | done].
    + intros b [-> | Hb]%elem_of_cons; [rewrite Es, lookup_insert_eq; eauto |]. destruct (He b Hb) as [t Ht]. exists t. by apply Hfwd.
    + eapply owned_perm; [| exact Hat]. rewrite app_assoc. f_equiv. rewrite Es. symmetry. by apply shape_atoms_new.
    + intros Hf. by apply Hmem, (suffix_mem _ _ _ Em).
  - intros q. unfold abs. rewrite Eo. destruct (objects rt !! q) as [o |] eqn:Hq; [| done].
    destruct (v_objs _ _ _ _ _ _ I q o Hq) as [(t & Ht & _) _]. by rewrite Ht, (Hfwd _ t Ht).
Qed.

Lemma clone_step n extra (rt : JSRuntime) a1 s1 : inv n None extra rt -> shapes rt !! a1 = Some s1 -> exists a rt',
  js_clone_shape a1 rt = Ret (a, rt') /\ same_abs rt rt' /\ objects rt' = objects rt /\
  (a = 0 /\ poor /\ inv n None extra rt' /\ shapes rt' = shapes rt \/
   a <> 0 /\ a <> a1 /\ inv n None (a :: extra) rt' /\
   shapes rt' = <[a := set_hashed false (set_ref_count 1 s1)]> (shapes rt)).
Proof.
  intros I Hs. unfold js_clone_shape. rewrite (get_shape_Ret _ _ _ Hs). cbn [mbind res_bind].
  destruct (alloc_step held poor n None extra rt I) as (ok & rt1 & -> & (Ea & Es & Eo & En & Et & Eb & Ec) & I1 & Hab1 & Hpo1).
  destruct ok; cbn [negb].
  2: { exists 0, rt1. split_and!; [done | done | done |]. left. split_and!; [done | by apply Hpo1 | done | done]. }
  destruct (fresh_shape _ _ _ _ I1) as [Hfr H0]. cbn [new_addr].
  assert (shapes rt1 !! a1 = Some s1) as Hs1 by congruence.
  destruct (dup_atoms_owned (prop s1) (shape_atoms (shapes rt1) ++ held)) with (s := atoms rt1) (k' := []: list Z) as (at' & Ed & Hat).
  { intros x Hx. apply elem_of_app. left. by apply (atom_of_shape _ a1 s1). }
  { apply (v_atoms _ _ _ _ _ _ I1). }
  cbn [prop set_hashed set_ref_count atoms]. rewrite Ed. cbn [mbind res_bind]. eexists _, _. split; [reflexivity |].
  cbn [app] in Hat. destruct (v_shapes _ _ _ _ _ _ I1 a1 s1 Hs1) as [W _]. destruct (v_hash _ _ _ _ _ _ I1 a1 s1 Hs1) as [Hh _].
  match goal with |- same_abs _ ?r /\ _ => set (rt' := r) end.
  destruct (new_shape_inv n n None extra rt1 rt' (next_addr rt1) (set_hashed false (set_ref_count 1 s1)) I1) as [I' Hab]; try done.
  - by eapply shape_wf_same.
  - by left.
  - split_and!; [by eapply same_abs_trans | done |]. right. split_and!; [done | | done | unfold rt'; cbn; by rewrite Es].
    intros E. rewrite E in Hfr. congruence.
Qed.

(** The clone enters the table. *)
Lemma put_hashed_inv n extra (rt : JSRuntime) a s : inv n None extra rt -> shapes rt !! a = Some s ->
  is_hashed s = false -> inv n (Some a) extra (put_shape a (set_hashed true s) rt) /\ same_abs rt (put_shape a (set_hashed true s) rt).
Proof.
  intros I Hs Hu.
  assert (forall b t, <[a := set_hashed true s]> (shapes rt) !! b = Some t -> b = a /\ t = set_hashed true s \/
    b <> a /\ shapes rt !! b = Some t) as Hcase.
  { intros b t Hb. destruct (decide (a = b)) as [<- | D]; [rewrite lookup_insert_eq in Hb; left; split; congruence |].
    rewrite lookup_insert_ne in Hb by done. right. split; [congruence | done]. }
  assert (forall b t, shapes rt !! b = Some t -> exists t', <[a := set_hashed true s]> (shapes rt) !! b = Some t' /\
    proto t' = proto t /\ prop t' = prop t /\ prop_size t' = prop_size t) as Hfwd.
  { intros b t Hb. destruct (decide (a = b)) as [<- | D]; [rewrite lookup_insert_eq; exists (set_hashed true s); by assert (t = s) as -> by congruence |].
    rewrite lookup_insert_ne by done. by exists t. }
  split.
  - destruct I as [T Hh Hsh Hrf Hun Ho He Hat Hnx Hct Hmem]. split; cbn; try done.
    + eapply table_ok_ext; [exact T | |].
      * intros b [c Hb]. apply sbucket_Some in Hb as (t & Ht & Hht & _). unfold snext. rewrite lookup_insert_ne; [done |]. congruence.
      * intros b. unfold sbucket. rewrite (decide_False (P := Some b = None)) by done. case_decide as D.
        { injection D as ->. by rewrite Hs, Hu. }
        { rewrite lookup_insert_ne; [done |]. congruence. }
    + intros b t Hb. destruct (Hcase b t Hb) as [[-> ->] | [_ Hb']]; [exact (Hh a s Hs) | exact (Hh b t Hb')].
    + intros b t Hb. destruct (Hcase b t Hb) as [[-> ->] | [_ Hb']]; [| by apply Hsh]. destruct (Hsh a s Hs). split; [| done].
      by eapply shape_wf_same.
    + intros b t Hb. destruct (Hcase b t Hb) as [[-> ->] | [D Hb']]; [exact (Hrf a s Hs) | exact (Hrf b t Hb')].
    + intros b t Hb Ht. destruct (Hcase b t Hb) as [[-> ->] | [D Hb']]; [done | by apply (Hun b)].
    + intros p o Hp. destruct (Ho p o Hp) as [(t & Ht & Hz) Hlt]. split; [| done]. destruct (Hfwd _ t Ht) as (t' & Ht' & _ & _ & Ez).
      exists t'. cbn. by rewrite Ez.
    + intros b Hb. destruct (He b Hb) as [t Ht]. destruct (Hfwd b t Ht) as (t' & ? & _). eauto.
    + eapply owned_perm; [| exact Hat]. f_equiv. rewrite (shape_atoms_update _ a s _ Hs). exact (shape_atoms_delete _ a s Hs).
  - intros p. unfold abs. cbn. destruct (objects rt !! p) as [o |] eqn:Hp; [| done].
    destruct (v_objs _ _ _ _ _ _ I p o Hp) as [(t & Ht & _) _]. destruct (Hfwd _ t Ht) as (t' & -> & -> & -> & _). by rewrite Ht.
Qed.

Lemma hash_step n extra (rt : JSRuntime) a s : inv n None extra rt -> shapes rt !! a = Some s -> is_hashed s = false ->
  exists rt', js_shape_hash_link a (put_shape a (set_hashed true s) rt) = Ret rt' /\ inv (n + 1) None extra rt' /\ same_abs rt rt' /\
  objects rt' = objects rt /\ links_only (<[a := set_hashed true s]> (shapes rt)) (shapes rt').
Proof.
  intros I Hs Hu. destruct (put_hashed_inv n extra rt a s I Hs Hu) as [I1 Hab1].
  destruct (link_spec (put_shape a (set_hashed true s) rt) a (set_hashed true s)) as (rt' & -> & T & R & Eb & Ec).
  - apply (v_table _ _ _ _ _ _ I1).
  - apply (v_hash _ _ _ _ _ _ I1).
  - apply lookup_insert_eq.
  - done.
  - exists rt'. split; [done |]. pose proof (v_count _ _ _ _ _ _ I1) as [Hc1 Hc2].
    destruct (links_inv held poor n (n + 1) (Some a) None extra _ rt' I1 R T) as [I' Hab]; [lia | rewrite Eb, Ec; cbn in *; lia |].
    split_and!; [done | by eapply same_abs_trans | apply R | apply R].
Qed.
End steps.
