(* ===== verification/ShapeUpdate.v ===== *)
(** * quickjs.c: changing the properties of an object

    Giving a shape to an object, and an object that becomes the only owner of a
    shape that is not in the table, so that the shape may change:
    [js_shape_prepare_update] makes the shape of an object its own; then flags,
    the prototype and the values change in place. *)
From Stdlib Require Import ZArith Lia Bool.
From stdpp Require Import base numbers list gmap.
From S2P Require Import Prelude Cutils Chains JSValue AtomState ShapeState ShapeSpec ShapeFacts ShapeTable ShapeInv ShapeSteps.

Section owner.
Context {A : Type} {ops : AtomOps A} {laws : AtomLaws A}.
Variable held : list Z.
Variable poor : Prop.
Abbreviation JSRuntime := (JSRuntime A).
Abbreviation inv := (inv held poor).

(** Only the object [p] changes. *)
Definition abs_change (p : Z) (x : option (Z * list (Z * (Z * Z)))) (rt rt' : JSRuntime) : Prop :=
  abs rt' p = x /\ forall q, q <> p -> abs rt' q = abs rt q.

Lemma abs_change_pre p x (rt1 rt2 rt3 : JSRuntime) : same_abs rt1 rt2 -> abs_change p x rt2 rt3 -> abs_change p x rt1 rt3.
Proof. intros H [H1 H2]. split; [done |]. intros q D. by rewrite H2, H by done. Qed.

Lemma abs_change_post p x (rt1 rt2 rt3 : JSRuntime) : abs_change p x rt1 rt2 -> same_abs rt2 rt3 -> abs_change p x rt1 rt3.
Proof. intros [H1 H2] H. split; [by rewrite H |]. intros q D. by rewrite H, H2. Qed.

Lemma abs_change_trans p x y (rt1 rt2 rt3 : JSRuntime) : abs_change p x rt1 rt2 -> abs_change p y rt2 rt3 -> abs_change p y rt1 rt3.
Proof. intros [_ H2] [H3 H4]. split; [done |]. intros q D. by rewrite H4, H2. Qed.

Lemma abs_change_same p (rt1 rt2 : JSRuntime) : abs_change p (abs rt1 p) rt1 rt2 -> same_abs rt1 rt2.
Proof. intros [H1 H2] q. destruct (decide (q = p)) as [-> | D]; [done | by apply H2]. Qed.

Lemma same_abs_change p (rt1 rt2 : JSRuntime) : same_abs rt1 rt2 -> abs_change p (abs rt1 p) rt1 rt2.
Proof. intros H. split; [apply H | intros; apply H]. Qed.

(** ** Giving a shape and values to an object *)
Lemma put_object_inv n out extra extra' (rt : JSRuntime) p o b sb vs : inv n out extra rt -> objects rt !! p = Some o ->
  shapes rt !! b = Some sb -> prop_size sb <= zlen vs ->
  (forall a, countb (fun c => c =? a) extra' + (if b =? a then 1 else 0) = countb (fun c => c =? a) extra + (if shape o =? a then 1 else 0)) ->
  (forall a, a ∈ extra' -> a ∈ extra \/ a = shape o) ->
  inv n out extra' (put_object p (mkObject b vs) rt) /\
  abs_change p (Some (proto sb, live (prop sb) vs)) rt (put_object p (mkObject b vs) rt).
Proof.
  intros I Hp Hb Hz Hc Hin. destruct (v_objs _ _ _ _ _ _ I p o Hp) as [(s & Hs & _) Hpos]. split.
  - destruct I as [T Hok Hsh Hrf Hu Ho He Hat Hnx Hct Hmem]. split; try done.
    + intros a t Ht. destruct (Hrf a t Ht) as [Hr Ht0]. split; [| done]. rewrite Hr. unfold refs. cbn.
      rewrite (obj_refs_update _ p o _ a Hp). cbn. specialize (Hc a). lia.
    + intros q o' Hq. cbn in Hq. destruct (decide (p = q)) as [<- | D].
      * rewrite lookup_insert_eq in Hq. injection Hq as <-. split; [by exists sb | done].
      * rewrite lookup_insert_ne in Hq by done. by apply Ho.
    + intros a Ha. destruct (Hin a Ha) as [? | ->]; [by apply He | by exists s].
  - split.
    + unfold abs. cbn. rewrite lookup_insert_eq. cbn. by rewrite Hb.
    + intros q D. unfold abs. cbn. by rewrite lookup_insert_ne by congruence.
Qed.

Lemma change_step n extra (rt : JSRuntime) p o b sb : inv n None (b :: extra) rt -> objects rt !! p = Some o ->
  shapes rt !! b = Some sb -> prop_size sb <= zlen (values o) ->
  change_shape p b rt = Ret (put_object p (mkObject b (values o)) rt) /\
  inv n None (shape o :: extra) (put_object p (mkObject b (values o)) rt) /\
  abs_change p (Some (proto sb, live (prop sb) (values o))) rt (put_object p (mkObject b (values o)) rt).
Proof.
  intros I Hp Hb Hz. split; [unfold change_shape; by rewrite (get_object_Ret _ _ _ Hp) |].
  eapply put_object_inv; try done.
  - intros a. cbn [countb]. lia.
  - intros a [-> | Ha]%elem_of_cons; [by right | left; by right].
Qed.

Lemma put_values_step n out extra (rt : JSRuntime) p o s vs : inv n out extra rt -> objects rt !! p = Some o ->
  shapes rt !! shape o = Some s -> prop_size s <= zlen vs ->
  inv n out extra (put_object p (mkObject (shape o) vs) rt) /\
  abs_change p (Some (proto s, live (prop s) vs)) rt (put_object p (mkObject (shape o) vs) rt).
Proof. intros I Hp Hs Hz. eapply put_object_inv; try done. intros a Ha. by left. Qed.

(** The first values are the same. *)
Lemma live_prefix l vs ws : take (length l) vs = take (length l) ws -> live l vs = live l ws.
Proof. intros H. by rewrite live_take, H, <- live_take. Qed.

Lemma resize_values_zlen n l : 0 <= n -> zlen (resize_values n l) = n.
Proof. intros Hn. unfold resize_values, zlen. rewrite length_app, length_take, length_replicate. lia. Qed.

Lemma resize_values_take n l k : (k <= length l)%nat -> (k <= Z.to_nat n)%nat -> take k (resize_values n l) = take k l.
Proof.
  intros H1 H2. unfold resize_values. change (firstn (Z.to_nat n) l) with (take (Z.to_nat n) l).
  rewrite take_app, take_take, length_take. replace (k `min` Z.to_nat n)%nat with k by lia.
  replace (k - _)%nat with 0%nat by lia. by rewrite take_0, app_nil_r.
Qed.

Lemma live_resize l vs n : zlen l <= n -> zlen l <= zlen vs -> live l (resize_values n vs) = live l vs.
Proof. intros H1 H2. apply live_prefix. unfold zlen in *. apply resize_values_take; lia. Qed.

(** An object of the invariant. *)
Lemma object_shape n out extra (rt : JSRuntime) p x : inv n out extra rt -> abs rt p = Some x -> exists o s, objects rt !! p = Some o /\
  shapes rt !! shape o = Some s /\ x = (proto s, live (prop s) (values o)) /\ shape_wf n s /\ prop_size s <= zlen (values o).
Proof.
  intros I Hx. unfold abs in Hx. destruct (objects rt !! p) as [o |] eqn:Hp; [| done].
  destruct (v_objs _ _ _ _ _ _ I p o Hp) as [(s & Hs & Hz) _]. rewrite Hs in Hx. injection Hx as <-.
  exists o, s. split_and!; try done. apply (v_shapes _ _ _ _ _ _ I _ _ Hs).
Qed.

Lemma abs_object n out extra (rt : JSRuntime) p o : inv n out extra rt -> objects rt !! p = Some o -> exists s,
  shapes rt !! shape o = Some s /\ shape_wf n s /\ prop_size s <= zlen (values o) /\ abs rt p = Some (proto s, live (prop s) (values o)).
Proof.
  intros I Hp. destruct (v_objs _ _ _ _ _ _ I p o Hp) as [(s & Hs & Hz) _]. exists s. split_and!; try done.
  - apply (v_shapes _ _ _ _ _ _ I _ _ Hs).
  - by apply abs_Some.
Qed.

(** ** A shared shape is given up *)
Lemma free_shared (rt : JSRuntime) a s : shapes rt !! a = Some s -> 1 < ref_count s ->
  js_free_shape a rt = Ret (put_shape a (set_ref_count (ref_count s - 1) s) rt).
Proof. intros Hs H. unfold js_free_shape. rewrite (get_shape_Ret _ _ _ Hs). cbn [mbind res_bind]. by rewrite (proj2 (Z.leb_gt _ _)) by lia. Qed.

(** [js_free_shape], then [p->shape = b]: another object has the old shape. *)
Lemma swap_step n extra (rt : JSRuntime) p o s b sb : inv n None (b :: extra) rt -> objects rt !! p = Some o ->
  shapes rt !! shape o = Some s -> 1 < ref_count s -> b <> shape o -> shapes rt !! b = Some sb -> prop_size sb <= zlen (values o) ->
  exists rt1 rt', js_free_shape (shape o) rt = Ret rt1 /\ change_shape p b rt1 = Ret rt' /\ inv n None extra rt' /\
  abs_change p (Some (proto sb, live (prop sb) (values o))) rt rt' /\
  objects rt' = <[p := mkObject b (values o)]> (objects rt) /\ shapes rt' !! b = Some sb.
Proof.
  intros I Hp Hs H1 D Hb Hz. destruct (change_step n extra rt p o b sb I Hp Hb Hz) as (_ & I1 & Hab1).
  set (rt1 := put_object p (mkObject b (values o)) rt) in *.
  destruct (free_shape_step held poor n extra rt1 (shape o) I1) as (rt2 & E & I2 & Hab2 & Eo & _ & _).
  rewrite (free_shared rt1 _ s Hs H1) in E. injection E as E. rewrite (free_shared rt _ s Hs H1).
  eexists _, rt2. split; [reflexivity |]. split.
  - unfold change_shape. rewrite (get_object_Ret (put_shape _ _ rt) p o Hp). cbn [mbind res_bind]. f_equal. rewrite <- E. done.
  - split_and!; [done | by eapply abs_change_post | by rewrite Eo | rewrite <- E; cbn; by rewrite lookup_insert_ne by congruence].
Qed.
End owner.

(** * Changes in place *)

(** The shape [s] once one object has it and it is not in the table. *)
Definition alone (k : Z) (s : JSShape) : JSShape := set_hashed false (set_ref_count 1 (set_next k s)).

Section update.
Context {A : Type} {ops : AtomOps A} {laws : AtomLaws A}.
Variable held : list Z.
Variable poor : Prop.
Abbreviation JSRuntime := (JSRuntime A).
Abbreviation inv := (inv held poor).

(** The only owner of a shape changes it where it is. *)
Lemma own_in_place n n' out out' extra (rt rt' : JSRuntime) p o s s' vs : inv n out extra rt -> objects rt !! p = Some o ->
  shapes rt !! shape o = Some s -> ref_count s = 1 -> n <= n' ->
  shapes rt' = <[shape o := s']> (shapes rt) -> objects rt' = <[p := mkObject (shape o) vs]> (objects rt) ->
  shape_table rt' = shape_table rt -> shape_hash_bits rt' = shape_hash_bits rt ->
  shape_hash_count rt' = shape_hash_count rt -> suffix (mem rt') (mem rt) -> next_addr rt' = next_addr rt ->
  0 <= hash s' < 2 ^ 32 -> ref_count s' = 1 -> shape_wf n' s' -> prop_size s' <= zlen vs ->
  owned (atoms rt') (atoms_of (prop s') ++ shape_atoms (delete (shape o) (shapes rt)) ++ held) ->
  is_hashed s = false \/ out = Some (shape o) -> is_hashed s' = false \/ out' = Some (shape o) ->
  out = None \/ out = Some (shape o) -> out' = None \/ out' = Some (shape o) ->
  inv n' out' extra rt' /\ abs_change p (Some (proto s', live (prop s') vs)) rt rt'.
Proof.
  intros I Hp Hs H1 Hn Es Eo Et Eb Ec Em En Hh H1' W Hz Hat O1 O2 O3 O4.
  destruct (v_shapes _ _ _ _ _ _ I _ _ Hs) as [_ Hlt]. destruct (v_hash _ _ _ _ _ _ I _ _ Hs) as [_ H0].
  eapply (inv_own held poor n n' out out' extra p o s (shape o) s' vs); try done. split; try done.
  - by rewrite Es, insert_delete_eq.
  - lia.
  - by left.
Qed.

Lemma own_atoms n out extra (rt : JSRuntime) a s : inv n out extra rt -> shapes rt !! a = Some s ->
  owned (atoms rt) (atoms_of (prop s) ++ shape_atoms (delete a (shapes rt)) ++ held).
Proof.
  intros I Hs. eapply owned_perm; [| apply (v_atoms _ _ _ _ _ _ I)]. rewrite app_assoc. f_equiv. by apply shape_atoms_delete.
Qed.

Lemma object_eta (m : gmap Z JSObject) p o : m !! p = Some o -> m = <[p := mkObject (shape o) (values o)]> m.
Proof. intros H. symmetry. apply insert_id. rewrite H. by destruct o. Qed.

(** The shape leaves the table, if it is there. *)
Lemma unlink_step n extra (rt : JSRuntime) a s : inv n None extra rt -> shapes rt !! a = Some s -> exists rt1 k,
  (if is_hashed s then js_shape_hash_unlink a rt else Ret rt) = Ret rt1 /\ inv n (Some a) extra rt1 /\ same_abs rt rt1 /\
  objects rt1 = objects rt /\ shapes rt1 !! a = Some (set_next k s).
Proof.
  intros I Hs. destruct (is_hashed s) eqn:Hh.
  - destruct (unlink_shape_spec rt a s (v_table _ _ _ _ _ _ I) (v_hash _ _ _ _ _ _ I) Hs Hh) as (rt1 & -> & T & R & Eb & Ec).
    destruct (v_count _ _ _ _ _ _ I). destruct (links_inv held poor n n None (Some a) extra rt rt1 I R T) as [I1 Hab]; [lia | rewrite Eb, Ec; lia |].
    destruct R as (_ & _ & Eo & _ & L). destruct (links_fwd _ _ _ _ L Hs) as (k & Hk). by exists rt1, k.
  - exists rt, (shape_hash_next s). split_and!; try done; [| by destruct s].
    destruct I as [T ? ? ? ? ? ? ? ? ? ?]. split; try done. by eapply table_unhashed.
Qed.

Lemma alone_eq s : is_hashed s = false -> ref_count s = 1 -> s = alone (shape_hash_next s) s.
Proof. destruct s. cbn. intros -> ->. done. Qed.

Lemma alone_wf n s s' : shape_wf n s -> (exists k, s' = alone k s) -> shape_wf n s'.
Proof. intros W (k & ->). by eapply shape_wf_same. Qed.

Lemma prepare_step n extra (rt : JSRuntime) p o s : inv n None extra rt -> objects rt !! p = Some o -> shapes rt !! shape o = Some s ->
  exists ok rt', js_shape_prepare_update p rt = Ret (ok, rt') /\ inv n None extra rt' /\ same_abs rt rt' /\ (ok = false -> poor /\ is_hashed s = true) /\
  (ok = true -> exists a k, objects rt' !! p = Some (mkObject a (values o)) /\ shapes rt' !! a = Some (alone k s)).
Proof.
  intros I Hp Hs. destruct (abs_object held poor _ _ _ _ _ _ I Hp) as (s0 & Hs0 & W & Hz & Hab). assert (s0 = s) as -> by congruence.
  unfold js_shape_prepare_update. rewrite (get_object_Ret _ _ _ Hp). cbn [mbind res_bind]. rewrite (get_shape_Ret _ _ _ Hs). cbn [mbind res_bind].
  destruct (is_hashed s) eqn:Hh.
  2: { exists true, rt. split_and!; try done. intros _. exists (shape o), (shape_hash_next s).
    rewrite <- alone_eq; [| done | by apply (v_unshared _ _ _ _ _ _ I (shape o))]. rewrite Hp. by destruct o. }
  destruct (v_refs _ _ _ _ _ _ I _ _ Hs) as [_ Hpos]. destruct (Z.eqb_spec (ref_count s) 1) as [H1 | H1]; cbn [negb].
  - destruct (unlink_step n extra rt (shape o) s I Hs) as (rt1 & k & E & I1 & Hab1 & Eo & Hk). rewrite Hh in E. rewrite E. cbn [mbind res_bind].
    rewrite (get_shape_Ret _ _ _ Hk). cbn [mbind res_bind].
    assert (set_hashed false (set_next k s) = alone k s) as Ea by (destruct s; cbn in *; by subst).
    assert (objects rt1 !! p = Some o) as Hp1 by congruence. rewrite Ea.
    destruct (own_in_place n n (Some (shape o)) None extra rt1 (put_shape (shape o) (alone k s) rt1) p o (set_next k s) (alone k s) (values o))
      as [I2 Hab2]; try done.
    { by apply object_eta. }
    { apply (v_hash _ _ _ _ _ _ I _ _ Hs). }
    { eapply alone_wf; [exact W | by exists k]. }
    { apply (own_atoms _ _ _ _ _ _ I1 Hk). }
    { by right. }
    { by left. }
    { by right. }
    { by left. }
    eexists true, _. split; [reflexivity |]. split_and!; [done | | done |].
    + eapply same_abs_trans; [exact Hab1 |]. apply (abs_change_same p). by rewrite (abs_Some _ _ _ _ Hp1 Hk).
    + intros _. exists (shape o), k. cbn. split; [by rewrite Hp1; destruct o | by rewrite lookup_insert_eq].
  - destruct (clone_step held poor n extra rt (shape o) s I Hs) as (a & rt1 & -> & Hab1 & Eo & [(-> & Hpo & I1 & _) | (Ha0 & Ha & I1 & Es)]); cbn [mbind res_bind].
    { exists false, rt1. by split_and!. }
    rewrite (proj2 (Z.eqb_neq _ _) Ha0). assert (objects rt1 !! p = Some o) as Hp1 by congruence.
    assert (shapes rt1 !! shape o = Some s) as Hs1 by (by rewrite Es, lookup_insert_ne).
    destruct (swap_step held poor n extra rt1 p o s a (set_hashed false (set_ref_count 1 s)) I1 Hp1 Hs1) as
      (rt2 & rt3 & E2 & E3 & I3 & Hab3 & Eo3 & Hs3); [lia | done | by rewrite Es, lookup_insert_eq | done |].
    rewrite E2. cbn [mbind res_bind]. rewrite E3. cbn [mbind res_bind]. eexists true, _. split; [reflexivity |]. split_and!; [done | | done |].
    + eapply same_abs_trans; [exact Hab1 |]. apply (abs_change_same p). by rewrite (abs_Some _ _ _ _ Hp1 Hs1).
    + intros _. exists a, (shape_hash_next s). rewrite Eo3, lookup_insert_eq, Hs3. split; [done |]. by destruct s.
Qed.
(** ** Values and flags *)

(** The shape of [p] is not in the table. *)
Definition own_shape (rt : JSRuntime) (p : Z) : Prop :=
  exists o s, objects rt !! p = Some o /\ shapes rt !! shape o = Some s /\ is_hashed s = false.


(** [pr] is the property [i] of the object [p]. *)
Definition has_prop (rt : JSRuntime) (p i : Z) (pr : JSShapeProperty) : Prop :=
  atom pr <> JS_ATOM_NULL /\ exists o s, objects rt !! p = Some o /\ shapes rt !! shape o = Some s /\ znth (prop s) i = Some pr.

Lemma wf_length n s (vs : list Z) : shape_wf n s -> prop_size s <= zlen vs -> (length (prop s) <= length vs)%nat.
Proof. intros W Hz. pose proof (sw_count _ _ W) as H. unfold prop_count, zlen in *. lia. Qed.

Lemma prop_value n out extra (rt : JSRuntime) p i pr : inv n out extra rt -> has_prop rt p i pr -> exists o s v l1 l2,
  objects rt !! p = Some o /\ shapes rt !! shape o = Some s /\ znth (prop s) i = Some pr /\ znth (values o) i = Some v /\
  live (prop s) (values o) = l1 ++ (atom pr, (flags pr, v)) :: l2 /\ atom pr ∉ keys l1 /\ atom pr ∉ keys l2.
Proof.
  intros I (Ha & o & s & Hp & Hs & Hi). destruct (abs_object held poor _ _ _ _ _ _ I Hp) as (s0 & Hs0 & W & Hz & _).
  assert (s0 = s) as -> by congruence. pose proof (wf_length _ _ _ W Hz) as Hlen.
  destruct (proj2 (znth_is_Some (values o) i)) as [v Hv]; [apply znth_lt_Some in Hi; unfold zlen in *; lia |].
  destruct (live_zupd (prop s) (prop s) (values o) (values o) i pr pr v Hi (zupd_same _ _ _ Hi) (zupd_same _ _ _ Hv) Hlen) as (l1 & l2 & v1 & Hv1 & E & _).
  assert (v1 = v) as -> by congruence. pose proof (live_distinct _ _ (sw_distinct _ _ W) Hlen) as Hn. unfold entry in E.
  rewrite (proj2 (Z.eqb_neq _ _)) in E by done. cbn [app] in E. rewrite E in Hn. destruct (keys_middle _ _ _ _ Hn).
  exists o, s, v, l1, l2. by split_and!.
Qed.

Lemma set_value_step n extra (rt : JSRuntime) p i pr v : inv n None extra rt -> has_prop rt p i pr -> exists rt' p0 l,
  set_value p i v rt = Ret rt' /\ inv n None extra rt' /\ abs rt p = Some (p0, l) /\
  abs_change p (Some (p0, update_key (atom pr) (flags pr, v) l)) rt rt'.
Proof.
  intros I Hpr. destruct (prop_value _ _ _ _ _ _ _ I Hpr) as (o & s & v0 & l1 & l2 & Hp & Hs & Hi & Hv & _). destruct Hpr as [Ha _].
  destruct (abs_object held poor _ _ _ _ _ _ I Hp) as (s0 & Hs0 & W & Hz & Hab). assert (s0 = s) as -> by congruence.
  unfold set_value. rewrite (get_object_Ret _ _ _ Hp). cbn [mbind res_bind].
  destruct (zupd_is_Some (values o) i v) as [vs Hvs]; [by apply znth_lt_Some in Hv |]. rewrite Hvs. cbn [of_opt mbind res_bind].
  destruct (put_values_step held poor n None extra rt p o s vs I Hp Hs) as [I' Hab']; [by rewrite (zupd_zlen _ _ _ _ Hvs) |].
  eexists _, _, _. split; [reflexivity |]. split_and!; [done | exact Hab |].
  rewrite <- (updated_live _ _ _ _ _ _ _ _ Hi (zupd_same _ _ _ Hi) eq_refl Ha Hvs (sw_distinct _ _ W) (wf_length _ _ _ W Hz)). done.
Qed.

Lemma update_flags_step n extra (rt : JSRuntime) p i pr f : inv n None extra rt -> has_prop rt p i pr -> 0 <= f < 64 ->
  exists ok rt', js_update_property_flags p i f rt = Ret (ok, rt') /\ inv n None extra rt' /\
  (ok = false -> poor /\ same_abs rt rt' /\ ~ own_shape rt p) /\
  (ok = true -> f = flags pr \/ own_shape rt' p) /\
  (ok = true -> exists pr' p0 l v, has_prop rt' p i pr' /\ atom pr' = atom pr /\ flags pr' = f /\ abs rt p = Some (p0, l) /\
     find_key (atom pr) l = Some (flags pr, v) /\
     abs_change p (Some (p0, update_key (atom pr) (f, v) l)) rt rt').
Proof.
  intros I Hpr Hf. destruct (prop_value _ _ _ _ _ _ _ I Hpr) as (o & s & v & l1 & l2 & Hp & Hs & Hi & Hv & El & Hk1 & Hk2). destruct Hpr as [Ha _].
  destruct (abs_object held poor _ _ _ _ _ _ I Hp) as (s0 & Hs0 & W & Hz & Hab). assert (s0 = s) as -> by congruence.
  unfold js_update_property_flags. rewrite (get_object_Ret _ _ _ Hp). cbn [mbind res_bind]. rewrite (get_shape_Ret _ _ _ Hs). cbn [mbind res_bind].
  rewrite Hi. cbn [of_opt mbind res_bind]. destruct (Z.eqb_spec f (flags pr)) as [-> | D]; cbn [negb].
  { exists true, rt. split_and!; try done; [by left |]. intros _. exists pr, (proto s), (live (prop s) (values o)), v. split_and!; try done.
    - split; [done |]. by exists o, s.
    - rewrite El. by apply find_middle.
    - rewrite El, update_middle, <- El, <- Hab by done. by apply same_abs_change. }
  destruct (prepare_step n extra rt p o s I Hp Hs) as (ok & rt1 & -> & I1 & Hab1 & Hpo & Hok). cbn [mbind res_bind].
  destruct ok; cbn [negb]; [| exists false, rt1; destruct (Hpo eq_refl) as [Hpo' Hh]; split_and!; try done; intros _; split_and!; try done; intros (o1 & s1 & Hp1 & Hs1 & Hh1); congruence]. destruct (Hok eq_refl) as (a & k & Hp1 & Hs1).
  rewrite (get_object_Ret _ _ _ Hp1). cbn [mbind res_bind shape]. rewrite (get_shape_Ret _ _ _ Hs1). cbn [mbind res_bind prop alone set_hashed set_ref_count set_next].
  rewrite Hi. cbn [of_opt mbind res_bind]. set (pr' := mkProp (hash_next pr) (wrap 6 f) (atom pr)).
  assert (wrap 6 f = f) as Ewr by (unfold wrap; apply Z.mod_small; change (2 ^ 6) with 64; done).
  destruct (zupd_is_Some (prop s) i pr') as [l' Hl']; [by apply znth_lt_Some in Hi |]. rewrite Hl'. cbn [of_opt mbind res_bind].
  match goal with |- context [put_shape a ?x rt1] => set (s' := x) end.
  destruct (flags_wf n s s' i pr pr' W Hi Hl') as [W' Eat]; try done.
  destruct (own_in_place n n None None extra rt1 (put_shape a s' rt1) p _ _ s' (values o) I1 Hp1 Hs1) as [I2 Hab2]; try done.
  { by apply (object_eta _ p (mkObject a (values o))). }
  { apply (v_hash _ _ _ _ _ _ I _ _ Hs). }
  { rewrite Eat. apply (own_atoms _ _ _ _ _ _ I1 Hs1). }
  { by left. } { by left. } { by left. } { by left. }
  eexists true, _. split; [reflexivity |]. split_and!; [done | done | |].
  { intros _. right. exists (mkObject a (values o)), s'. cbn. by rewrite lookup_insert_eq. }
  intros _. exists pr', (proto s), (live (prop s) (values o)), v. split_and!; try done.
  - split; [done |]. exists (mkObject a (values o)), s'. split_and!; [done | by cbn; rewrite lookup_insert_eq | by eapply znth_zupd_eq].
  - rewrite El. by apply find_middle.
  - eapply abs_change_pre; [exact Hab1 |]. rewrite <- Ewr. change (wrap 6 f) with (flags pr').
    rewrite <- (updated_live _ _ _ _ _ _ _ _ Hi Hl' eq_refl Ha (zupd_same _ _ _ Hv) (sw_distinct _ _ W) (wf_length _ _ _ W Hz)). done.
Qed.

Lemma set_prototype_step n extra (rt : JSRuntime) p o s q : inv n None extra rt -> objects rt !! p = Some o -> shapes rt !! shape o = Some s ->
  exists ok rt', set_prototype p q rt = Ret (ok, rt') /\ inv n None extra rt' /\ (ok = false -> poor /\ same_abs rt rt') /\
  (ok = true -> abs_change p (Some (q, live (prop s) (values o))) rt rt').
Proof.
  intros I Hp Hs. destruct (abs_object held poor _ _ _ _ _ _ I Hp) as (s0 & Hs0 & W & Hz & Hab). assert (s0 = s) as -> by congruence.
  unfold set_prototype. destruct (prepare_step n extra rt p o s I Hp Hs) as (ok & rt1 & -> & I1 & Hab1 & Hpo & Hok). cbn [mbind res_bind].
  destruct ok; cbn [negb]; [| by exists false, rt1; split_and!; try done; split; [apply Hpo | done]]. destruct (Hok eq_refl) as (a & k & Hp1 & Hs1).
  rewrite (get_object_Ret _ _ _ Hp1). cbn [mbind res_bind shape]. rewrite (get_shape_Ret _ _ _ Hs1). cbn [mbind res_bind].
  set (s' := set_proto q (alone k s)).
  destruct (own_in_place n n None None extra rt1 (put_shape a s' rt1) p _ _ s' (values o) I1 Hp1 Hs1) as [I2 Hab2]; try done.
  { by apply (object_eta _ p (mkObject a (values o))). }
  { apply (v_hash _ _ _ _ _ _ I _ _ Hs). }
  { by eapply shape_wf_same. }
  { apply (own_atoms _ _ _ _ _ _ I1 Hs1). }
  { by left. } { by left. } { by left. } { by left. }
  eexists true, _. split; [reflexivity |]. split_and!; [done | done |]. intros _. by eapply abs_change_pre.
Qed.
End update.
