(* ===== verification/ShapeAdd.v ===== *)
(** * quickjs.c: deleting and adding properties

    A deleted property leaves a hole; when there are many the properties are
    compacted.  Neither is seen in the property list.  A property is added to the
    shape of the object if no other object has it; otherwise the object gets the
    shape that has one more property, or a clone. *)
From Stdlib Require Import ZArith Lia Bool.
From stdpp Require Import base numbers list gmap.
From S2P Require Import Prelude Cutils Chains JSValue AtomState ShapeState ShapeSpec ShapeFacts ShapeTable ShapeInv ShapeSteps ShapeUpdate.

Section delete.
Context {A : Type} {ops : AtomOps A} {laws : AtomLaws A}.
Variable held : list Z.
Variable poor : Prop.
Abbreviation JSRuntime := (JSRuntime A).
Abbreviation inv := (inv held poor).

(** ** Leaving the chain *)
Lemma linked_in next l j : forall i, linked next i l -> j ∈ l -> is_Some (next j).
Proof. intros i H Hj. by destruct (linked_nonzero next l j i H Hj). Qed.

(** What [remove_property] stores is what [unlinked] says. *)
Lemma unlink_prop n s lpr h pr : shape_wf n s -> in_chain s lpr h pr -> exists l ph,
  match lpr with
  | Some i =>
      lp ← of_opt (znth (prop s) i);
      l ← of_opt (zupd (prop s) i (mkProp (hash_next pr) (flags lp) (atom lp)));
      Ret (l, prop_hash s)
  | None =>
      ph ← of_opt (zupd (prop_hash s) (Z.land (atom pr) (prop_hash_mask s)) (hash_next pr));
      Ret (prop s, ph)
  end = Ret (l, ph) /\ unlinked s lpr h pr l ph.
Proof.
  intros W (Hh & first & l1 & l2 & Hf & L & Hlpr). destruct lpr as [i |].
  - destruct Hlpr as (l3 & ->). destruct (linked_in _ _ (i + 1) _ L) as [k Hk]; [rewrite !elem_of_app, elem_of_cons; tauto |].
    unfold pnext in Hk. replace (i + 1 - 1) with i in Hk by lia. destruct (znth (prop s) i) as [lp |] eqn:Hi; [| done].
    cbn [of_opt mbind res_bind]. destruct (zupd_is_Some (prop s) i (mkProp (hash_next pr) (flags lp) (atom lp))) as [l Hl].
    { by apply znth_lt_Some in Hi. }
    exists l, (prop_hash s). rewrite Hl. split; [done |]. by exists lp.
  - destruct (zupd_is_Some (prop_hash s) (Z.land (atom pr) (prop_hash_mask s)) (hash_next pr)) as [ph Hph].
    { by apply znth_lt_Some in Hf. }
    exists (prop s), ph. rewrite Hph. by split.
Qed.

Lemma removed_atoms s vs l1 l2 a x s' vs' : live (prop s) vs = l1 ++ (a, x) :: l2 -> a ∉ keys l1 -> a ∉ keys l2 ->
  live (prop s') vs' = remove_key a (live (prop s) vs) -> (length (prop s) <= length vs)%nat -> (length (prop s') <= length vs')%nat ->
  atoms_of (prop s) ≡ₚ a :: atoms_of (prop s').
Proof.
  intros E H1 H2 E' L L'. rewrite E, remove_middle in E' by done. rewrite <- (live_keys _ _ L), <- (live_keys _ _ L'), E, E'.
  rewrite !keys_app. cbn. symmetry. apply Permutation_middle.
Qed.

Lemma remove_step n extra (rt : JSRuntime) p o s lpr h pr : inv n None extra rt -> objects rt !! p = Some o ->
  shapes rt !! shape o = Some s -> is_hashed s = false -> in_chain s lpr h pr -> atom pr <> JS_ATOM_NULL -> exists rt',
  remove_property p (atom pr) lpr h rt = Ret rt' /\ inv n None extra rt' /\
  abs_change p (Some (proto s, remove_key (atom pr) (live (prop s) (values o)))) rt rt' /\
  exists vs s', objects rt' !! p = Some (mkObject (shape o) vs) /\ shapes rt' !! shape o = Some s' /\ is_hashed s' = false.
Proof.
  intros I Hp Hs Hh Hc Ha. destruct (abs_object held poor _ _ _ _ _ _ I Hp) as (s0 & Hs0 & W & Hz & Hab). assert (s0 = s) as -> by congruence.
  pose proof (wf_length _ _ _ W Hz) as Hlen. destruct Hc as [Hi Hc'] eqn:Ec. clear Ec.
  assert (has_prop rt p (h - 1) pr) as Hpr by (split; [done | by exists o, s]).
  destruct (prop_value held poor _ _ _ _ _ _ _ I Hpr) as (o1 & s1 & v & l1 & l2 & Hp1 & Hs1 & _ & Hv & El & Hk1 & Hk2).
  assert (o1 = o) as -> by congruence. assert (s1 = s) as -> by congruence. clear Hp1 Hs1.
  destruct (unlink_prop n s lpr h pr W Hc) as (l & ph & E & U). pose proof (unlinked_same _ _ _ _ _ _ U) as Hsame.
  unfold remove_property. rewrite (get_object_Ret _ _ _ Hp). cbn [mbind res_bind]. rewrite (get_shape_Ret _ _ _ Hs). cbn [mbind res_bind].
  rewrite Hi. cbn [of_opt mbind res_bind] in *. rewrite E. cbn [mbind res_bind].
  assert (0 <= h - 1 < zlen l) as Hr.
  { apply znth_lt_Some in Hi. apply list.Forall2_length in Hsame. unfold zlen in *. lia. }
  destruct (proj2 (znth_is_Some l (h - 1)) Hr) as [q Hq]. destruct (zupd_is_Some l (h - 1) (mkProp (hash_next q) 0 JS_ATOM_NULL) Hr) as [l' Hl'].
  destruct (zupd_is_Some (values o) (h - 1) JS_UNDEFINED_VALUE) as [vs Hvs]; [by apply znth_lt_Some in Hv |].
  set (s' := set_props (prop_size s) (deleted_prop_count s + 1) ph l' s).
  destruct (cleared_live (prop s) l l' (values o) vs h pr _ JS_UNDEFINED_VALUE Hsame Hi Hl' eq_refl Ha (sw_distinct _ _ W) Hlen Hvs) as (Elive & _).
  assert (shape_wf n s') as W' by (by eapply (removed_wf n s s' lpr h pr l ph)).
  assert (prop_size s' <= zlen vs) as Hz' by (by rewrite (zupd_zlen _ _ _ _ Hvs)).
  pose proof (removed_atoms s (values o) l1 l2 _ _ s' vs El Hk1 Hk2 Elive Hlen (wf_length _ _ _ W' Hz')) as Hperm.
  destruct (free_owned (atoms rt) (atom pr) (atoms_of (prop s') ++ shape_atoms (delete (shape o) (shapes rt)) ++ held)) as (at' & Ef & Hat).
  { eapply owned_perm; [| apply (own_atoms held poor _ _ _ _ _ _ I Hs)]. by rewrite Hperm. }
  rewrite Ef. cbn [mbind res_bind]. rewrite Hq. cbn [of_opt mbind res_bind]. rewrite Hl'. cbn [of_opt mbind res_bind]. rewrite Hvs. cbn [of_opt mbind res_bind].
  eexists. split; [reflexivity |].
  match goal with |- inv _ _ _ ?r /\ _ => destruct (own_in_place held poor n n None None extra rt r p o s s' vs I Hp Hs) as [I' Hab'] end; try done.
  { by apply (v_unshared _ _ _ _ _ _ I (shape o)). }
  { apply (v_hash _ _ _ _ _ _ I _ _ Hs). }
  { exact (v_unshared _ _ _ _ _ _ I (shape o) s Hs Hh). }
  { by left. } { by left. } { by left. } { by left. }
  split_and!; [done | by rewrite <- Elive |]. exists vs, s'. cbn. by rewrite !lookup_insert_eq.
Qed.

(** ** Compacting *)

(** The loop, on a shape that is well formed. *)
Lemma compact_shape n s vs k : shape_wf n s -> n < 2 ^ 25 -> prop_size s <= zlen vs -> 0 <= k <= 30 -> exists l vs' ph,
  compact 0 (prop s) vs (replicate (Z.to_nat (2 ^ k)) 0) = Ret (l, vs', ph) /\
  zlen l = prop_count s - deleted_prop_count s /\ length l = length vs' /\ live l vs' = live (prop s) vs /\
  atoms_of l = atoms_of (prop s) /\
  shape_wf n (set_props (Z.max 2 (prop_count s - deleted_prop_count s)) 0 ph l s).
Proof.
  intros W Hn Hz Hk. pose proof (sw_small _ _ W) as Hsm. pose proof (sw_count _ _ W) as Hct. unfold prop_count in *.
  destruct (compact_spec k (prop s) [] vs (replicate (Z.to_nat (2 ^ k)) 0)) as (l & vs' & ph & E & Hph & Hlv & Elive & Eat & T).
  - apply zlen_heads. lia.
  - lia.
  - change (2 ^ 26) with (2 * 2 ^ 25). unfold zlen in *. cbn [length]. lia.
  - lia.
  - apply table_nil.
  - cbn [app] in T. exists l, vs', ph. split_and!; [exact E | | done | done | |].
    + rewrite (sw_deleted _ _ W), <- countb_filter_length. apply (f_equal length) in Eat. unfold atoms_of in Eat. rewrite !length_map in Eat.
      unfold zlen. by rewrite Eat.
    + rewrite <- (live_keys l vs') by lia. rewrite Elive. apply live_keys. unfold zlen in *. lia.
    + by eapply (compacted_wf n s _ k).
Qed.

Lemma compacted_values s l vs vs0 new_size (ok : bool) : zlen l <= new_size -> new_size <= prop_size s -> length l = length vs ->
  prop_size s <= zlen vs0 -> let vs1 := vs ++ drop (length vs) vs0 in let vs2 := if ok then resize_values new_size vs1 else vs1 in
  new_size <= zlen vs2 /\ live l vs2 = live l vs.
Proof.
  intros H1 H2 H3 H4 vs1 vs2. assert (length vs1 = length vs0) as Hvl.
  { unfold vs1. rewrite length_app, length_drop. unfold zlen in *. lia. }
  pose proof (zlen_nonneg l). assert (live l vs1 = live l vs) as E.
  { apply live_prefix. unfold vs1. rewrite H3. by rewrite take_app_length, firstn_all. }
  unfold vs2. destruct ok.
  - rewrite resize_values_zlen by lia. split; [lia |]. rewrite live_resize; [done | done |]. unfold zlen in *. rewrite Hvl. lia.
  - split; [| done]. unfold zlen in *. rewrite Hvl. lia.
Qed.

Lemma alloc_any (rt : JSRuntime) : exists ok rt', alloc_ok rt = (ok, rt') /\ same_but_mem rt rt' /\ suffix (mem rt') (mem rt).
Proof.
  unfold alloc_ok. destruct (mem rt) as [| b m] eqn:E; eexists _, _; (split; [reflexivity |]); (split; [by split_and! |]).
  - by rewrite E.
  - by apply suffix_cons_r.
Qed.

Lemma compact_step n extra (rt : JSRuntime) p o s : inv n None extra rt -> n < 2 ^ 25 -> objects rt !! p = Some o ->
  shapes rt !! shape o = Some s -> is_hashed s = false -> exists ok rt',
  compact_properties p rt = Ret (ok, rt') /\ inv n None extra rt' /\ same_abs rt rt'.
Proof.
  intros I Hn Hp Hs Hh. destruct (abs_object held poor _ _ _ _ _ _ I Hp) as (s0 & Hs0 & W & Hz & Hab). assert (s0 = s) as -> by congruence.
  pose proof (sw_small _ _ W) as Hsm. pose proof (sw_count _ _ W) as Hct.
  assert (0 <= deleted_prop_count s) by (rewrite (sw_deleted _ _ W); apply countb_nonneg). destruct (sw_size _ _ W) as (k & Hk & Hks).
  unfold compact_properties. rewrite (get_object_Ret _ _ _ Hp). cbn [mbind res_bind]. rewrite (get_shape_Ret _ _ _ Hs). cbn [mbind res_bind].
  rewrite Hh. cbn [negb assert_ mbind res_bind].
  assert (max_int JS_PROP_INITIAL_SIZE (prop_count s - deleted_prop_count s) = Z.max 2 (prop_count s - deleted_prop_count s)) as ->
    by (unfold max_int, JS_PROP_INITIAL_SIZE; case_match; lia).
  rewrite (proj2 (Z.leb_le _ _)) by lia. cbn [assert_ mbind res_bind]. unfold prop_hash_mask. rewrite Hks, Z.sub_add.
  destruct (shrink_hash_spec 32 k (Z.max 2 (prop_count s - deleted_prop_count s))) as (k' & -> & Hk'); [lia | lia |]. cbn [mbind res_bind].
  destruct (alloc_step held poor n None extra rt I) as (ok & rt1 & -> & (Ea & Es & Eo & Enx & Et & Eb & Ecn) & I1 & Hab1 & Hpo1).
  destruct ok; cbn [negb]; [| by exists false, rt1]. cbn [new_addr].
  assert (objects rt1 !! p = Some o) as Hp1 by congruence. assert (shapes rt1 !! shape o = Some s) as Hs1 by congruence.
  destruct (compact_shape n s (values o) k' W Hn Hz ltac:(lia)) as (l & vs & ph & -> & Ell & Hlv & Elive & Eat & W'). cbn [mbind res_bind].
  set (s' := set_props _ 0 ph l s) in W'.
  rewrite Ell, Z.eqb_refl. cbn [assert_ mbind res_bind]. match goal with |- context [alloc_ok ?r] => set (rt2 := r) end.
  destruct (alloc_any rt2) as (ok & rt3 & -> & (Ea3 & Es3 & Eo3 & En3 & Et3 & Eb3 & Ec3) & Em3).
  destruct (compacted_values s l vs (values o) (Z.max 2 (prop_count s - deleted_prop_count s)) ok) as [Hz' Elive']; [lia.. |].
  destruct (fresh_shape held poor _ _ _ _ I1) as [Hfr Hnz]. eexists true, _. split; [reflexivity |].
  match goal with |- inv _ _ _ (put_object _ (mkObject _ ?v) _) /\ _ => set (vs2 := v) in * end.
  match goal with |- inv _ _ _ ?r /\ _ => set (rt4 := r) end.
  pose proof (v_unshared _ _ _ _ _ _ I (shape o) s Hs Hh) as H1.
  destruct (inv_own held poor n n None None extra p o s (next_addr rt1) s' vs2 rt1 rt4 I1 Hp1 Hs1 H1) as (I4 & Hab4 & Hab4'); try done; try (by left).
  - split; try exact W'; unfold rt4; cbn; rewrite ?Es3, ?Eo3, ?Et3, ?Eb3, ?Ec3, ?En3, ?Ea3; try done; [unfold rt2; cbn; lia | by right | |].
    + apply (v_hash _ _ _ _ _ _ I _ _ Hs).
    + change (owned (atoms rt1) (atoms_of l ++ shape_atoms (delete (shape o) (shapes rt1)) ++ held)). rewrite Eat. apply (own_atoms held poor _ _ _ _ _ _ I1 Hs1).
  - split; [done |]. eapply same_abs_trans; [exact Hab1 |]. apply (abs_change_same p). rewrite (abs_Some _ _ _ _ Hp1 Hs1).
    rewrite <- Elive, <- Elive'. by split.
Qed.

(** ** Deleting *)

(** The search finds the entry of the property list. *)
Lemma find_prop_live n out extra (rt : JSRuntime) p o s a : inv n out extra rt -> objects rt !! p = Some o -> shapes rt !! shape o = Some s ->
  a <> JS_ATOM_NULL -> exists lpr h, find_prop s a = Ret (lpr, h) /\
  (h = 0 /\ find_key a (live (prop s) (values o)) = None /\ a ∉ atoms_of (prop s) \/
   h <> 0 /\ exists pr v, in_chain s lpr h pr /\ has_prop rt p (h - 1) pr /\ atom pr = a /\ znth (values o) (h - 1) = Some v /\
     find_key a (live (prop s) (values o)) = Some (flags pr, v)).
Proof.
  intros I Hp Hs Ha. destruct (abs_object held poor _ _ _ _ _ _ I Hp) as (s0 & Hs0 & W & Hz & _). assert (s0 = s) as -> by congruence.
  destruct (find_prop_spec n s a W Ha) as (lpr & h & E & [(-> & Hno) | (Hh & pr & Ep & Hc)]); exists lpr; eexists; (split; [exact E |]).
  - left. split; [done |]. assert (a ∉ atoms_of (prop s)) as Hno'; [| split; [| done]].
    + unfold atoms_of. change (map atom) with (fmap (M := list) atom). intros (q & -> & Hq)%list_elem_of_fmap.
      apply list_elem_of_filter in Hq as [_ Hq]. apply list_elem_of_lookup in Hq as [i Hi]. apply (Hno (Z.of_nat i) q); [by rewrite znth_nat | done].
    + apply find_key_None. by rewrite (live_keys _ _ (wf_length _ _ _ W Hz)).
  - right. split; [done |]. assert (has_prop rt p (h - 1) pr) as Hpr.
    { split; [congruence |]. exists o, s. split_and!; [done | done | apply Hc]. }
    destruct (prop_value held poor _ _ _ _ _ _ _ I Hpr) as (o1 & s1 & v & l1 & l2 & Hp1 & Hs1 & _ & Hv & El & Hk1 & _).
    assert (o1 = o) as -> by congruence. assert (s1 = s) as -> by congruence.
    exists pr, v. split_and!; try done. rewrite El, <- Ep. by apply find_middle.
Qed.

Lemma in_chain_same s s' lpr h pr : in_chain s lpr h pr -> prop s' = prop s -> prop_hash s' = prop_hash s -> in_chain s' lpr h pr.
Proof. unfold in_chain, prop_hash_mask. by intros H -> ->. Qed.

Lemma delete_step n extra (rt : JSRuntime) p o s a : inv n None extra rt -> n < 2 ^ 25 -> objects rt !! p = Some o ->
  shapes rt !! shape o = Some s -> a <> JS_ATOM_NULL -> exists r rt', delete_property p a rt = Ret (r, rt') /\ inv n None extra rt' /\
  match find_key a (live (prop s) (values o)) with
  | None => r = 1 /\ same_abs rt rt'
  | Some (f, _) =>
      if Z.land f JS_PROP_CONFIGURABLE =? 0 then r = 0 /\ same_abs rt rt'
      else r = -1 /\ poor /\ same_abs rt rt' \/
           r = 1 /\ abs_change p (Some (proto s, remove_key a (live (prop s) (values o)))) rt rt'
  end.
Proof.
  intros I Hn Hp Hs Ha. unfold delete_property. rewrite (get_object_Ret _ _ _ Hp). cbn [mbind res_bind]. rewrite (get_shape_Ret _ _ _ Hs). cbn [mbind res_bind].
  destruct (find_prop_live _ _ _ _ _ _ _ a I Hp Hs Ha) as (lpr & h & -> & [(-> & -> & _) | (Hh & pr & v & Hc & _ & Ea & _ & ->)]); cbn [mbind res_bind].
  { by exists 1, rt. }
  rewrite (proj2 (Z.eqb_neq _ _) Hh). rewrite (proj1 Hc). cbn [of_opt mbind res_bind]. destruct (Z.eqb_spec (Z.land (flags pr) JS_PROP_CONFIGURABLE) 0).
  { by exists 0, rt. }
  destruct (prepare_step held poor n extra rt p o s I Hp Hs) as (ok & rt1 & -> & I1 & Hab1 & Hpo & Hok). cbn [mbind res_bind].
  destruct ok; cbn [negb]; [| exists (-1), rt1; split_and!; [done | done |]; left; split; [done | split; [by apply Hpo | done]]]. destruct (Hok eq_refl) as (b & k & Hp1 & Hs1).
  destruct (remove_step n extra rt1 p _ _ lpr h pr I1 Hp1 Hs1 eq_refl) as (rt2 & E2 & I2 & Hab2 & vs & s2 & Hp2 & Hs2 & Hu2).
  { by apply (in_chain_same s). }
  { congruence. }
  rewrite Ea in E2, Hab2. rewrite E2. cbn [mbind res_bind]. rewrite (get_object_Ret _ _ _ Hp2). cbn [mbind res_bind]. cbn [shape] in *.
  rewrite (get_shape_Ret _ _ _ Hs2). cbn [mbind res_bind]. pose proof (abs_change_pre _ _ _ _ _ Hab1 Hab2) as Hab3.
  case_match.
  - destruct (compact_step n extra rt2 p _ _ I2 Hn Hp2 Hs2 Hu2) as (ok & rt3 & -> & I3 & Hab4). cbn [mbind res_bind]. exists 1, rt3.
    split_and!; [done | done |]. right. split; [done |]. by eapply abs_change_post.
  - exists 1, rt2. split_and!; [done | done |]. by right.
Qed.
End delete.

(** * Adding properties *)

(** ** One shape *)
Lemma same_props_refl l : Forall2 same_prop_rel l l.
Proof. induction l; constructor; done. Qed.

Lemma rehash_shape n s k new_size : shape_wf n s -> n < 2 ^ 25 -> 0 <= k <= 30 -> exists l ph,
  (if negb (2 ^ k =? prop_hash_mask s + 1) then rehash 0 (prop s) (replicate (Z.to_nat (2 ^ k)) 0) else Ret (prop s, prop_hash s)) = Ret (l, ph) /\
  Forall2 same_prop_rel (prop s) l /\
  forall n', n <= n' -> prop_count s <= new_size -> 2 <= new_size <= 2 * n' + 2 ->
    shape_wf n' (set_props new_size (deleted_prop_count s) ph l s).
Proof.
  intros W Hn Hk. unfold prop_hash_mask. rewrite Z.sub_add. destruct (Z.eqb_spec (2 ^ k) (zlen (prop_hash s))) as [E | D]; cbn [negb].
  - exists (prop s), (prop_hash s). split_and!; [done | apply same_props_refl |]. intros n' Hn' H1 H2.
    apply (rebuilt_wf n n' s _ k); try done; [apply same_props_refl |]. cbn. rewrite E. apply W.
  - pose proof (sw_small _ _ W) as Hsm. unfold prop_count in *.
    destruct (rehash_props_spec k (prop s) [] (replicate (Z.to_nat (2 ^ k)) 0)) as (l & ph & Er & Hph & H2 & T).
    + apply zlen_heads. lia.
    + lia.
    + change (2 ^ 26) with (2 * 2 ^ 25). unfold zlen in *. cbn [length]. lia.
    + apply table_nil.
    + exists l, ph. split_and!; [done | done |]. intros n' Hn' H3 H4. by apply (rebuilt_wf n n' s _ k).
Qed.

(** The new value is what the array has there. *)
Lemma live_snoc l pr vs : zlen l < zlen vs -> atom pr <> JS_ATOM_NULL -> exists v, live (l ++ [pr]) vs = live l vs ++ [(atom pr, (flags pr, v))].
Proof.
  intros H Ha. unfold zlen in H. destruct (lookup_lt_is_Some_2 vs (length l) ltac:(lia)) as [v Hv]. exists v.
  rewrite <- (take_drop_middle vs (length l) v Hv). rewrite live_app by (rewrite length_take; lia).
  rewrite live_cons. unfold entry. rewrite (proj2 (Z.eqb_neq _ _) Ha). cbn [live]. rewrite app_nil_r. f_equal.
  rewrite (live_take l (take (length l) vs ++ _)). rewrite take_app_le by (rewrite length_take; lia). by rewrite take_take, Nat.min_id.
Qed.

Section add.
Context {A : Type} {ops : AtomOps A} {laws : AtomLaws A}.
Variable held : list Z.
Variable poor : Prop.
Abbreviation JSRuntime := (JSRuntime A).
Abbreviation inv := (inv held poor).

(** ** More room *)
Lemma resize_properties_step n extra (rt : JSRuntime) p o s : inv n (Some (shape o)) extra rt -> n < 2 ^ 25 -> objects rt !! p = Some o ->
  shapes rt !! shape o = Some s -> ref_count s = 1 -> prop_size s <= prop_count s -> exists r rt',
  resize_properties (shape o) (Some p) (prop_count s + 1) rt = Ret (r, rt') /\ same_abs rt rt' /\
  match r with
  | None => poor /\ inv n (Some (shape o)) extra rt' /\ shapes rt' !! shape o = Some s
  | Some b => inv (n + 1) (Some b) extra rt' /\ exists vs s', objects rt' !! p = Some (mkObject b vs) /\ shapes rt' !! b = Some s' /\
      is_hashed s' = is_hashed s /\ ref_count s' = 1 /\ proto s' = proto s /\ prop_count s' = prop_count s /\ prop_count s' < prop_size s' /\
      atoms_of (prop s') = atoms_of (prop s) /\ live (prop s') vs = live (prop s) (values o)
  end.
Proof.
  intros I Hn Hp Hs H1 Hfull. destruct (abs_object held poor _ _ _ _ _ _ I Hp) as (s0 & Hs0 & W & Hz & Hab). assert (s0 = s) as -> by congruence.
  pose proof (sw_small _ _ W) as Hsm. pose proof (sw_count _ _ W) as Hct. destruct (sw_size _ _ W) as (k & Hk & Hks).
  unfold resize_properties. rewrite (get_shape_Ret _ _ _ Hs). cbn [mbind res_bind].
  rewrite (proj2 (Z.leb_le _ _)) by (unfold INT32_MAX; lia). cbn [assert_ mbind res_bind].
  set (new_size := max_int (prop_count s + 1) (Z.quot (prop_size s * 3) 2)).
  assert (prop_count s < new_size <= 2 * n + 2) as Hns.
  { unfold new_size, max_int. rewrite Z.quot_div_nonneg by lia. pose proof (Z.div_lt_upper_bound (prop_size s * 3) 2 (2 * n + 2)). case_match; lia. }
  destruct (alloc_step held poor n _ extra rt I) as (ok & rt1 & -> & (Ea & Es & Eo & Enx & Et & Eb & Ecn) & I1 & Hab1 & Hpo1).
  destruct ok; cbn [negb]; [| by exists None, rt1; split_and!; [| | apply Hpo1 | | rewrite Es]].
  assert (objects rt1 !! p = Some o) as Hp1 by congruence. assert (shapes rt1 !! shape o = Some s) as Hs1 by congruence.
  rewrite (get_object_Ret _ _ _ Hp1). cbn [mbind res_bind].
  assert (prop_hash_mask s + 1 = 2 ^ k) as Em by (unfold prop_hash_mask; lia).
  replace (grow_hash 32 (prop_hash_mask s + 1) new_size) with (grow_hash 32 (2 ^ k) new_size) by (by rewrite Em). destruct (grow_hash_spec 32 k new_size) as (k' & -> & Hk1 & Hk2).
  { lia. } { lia. } { transitivity (2 ^ 30); [lia | apply Z.pow_le_mono_r; lia]. }
  cbn [mbind res_bind]. pose proof (put_values_step held poor n _ extra rt1 p o s (resize_values new_size (values o)) I1 Hp1 Hs1) as Hpv.
  rewrite resize_values_zlen, live_resize in Hpv by (unfold prop_count in *; lia). destruct Hpv as [I2 Hab2]; [lia |].
  set (rt2 := put_object p _ rt1) in *. assert (same_abs rt rt2) as Hab3.
  { eapply same_abs_trans; [exact Hab1 |]. apply (abs_change_same p). by rewrite (abs_Some _ _ _ _ Hp1 Hs1). }
  destruct (alloc_step held poor n _ extra rt2 I2) as (ok & rt3 & -> & (Ea3 & Es3 & Eo3 & Enx3 & Et3 & Eb3 & Ecn3) & I3 & Hab4 & Hpo3).
  pose proof (same_abs_trans _ _ _ Hab3 Hab4) as Hab5.
  destruct ok; cbn [negb]; [| by exists None, rt3; split_and!; [| | apply Hpo3 | | rewrite Es3]]. cbn [new_addr].
  destruct (rehash_shape n s k' new_size W Hn ltac:(lia)) as (l & ph & -> & H2 & Hwf). cbn [mbind res_bind put_psh].
  set (vs := resize_values new_size (values o)) in *. assert (objects rt3 !! p = Some (mkObject (shape o) vs)) as Hp3 by (rewrite Eo3; apply lookup_insert_eq).
  assert (shapes rt3 !! shape o = Some s) as Hs3 by (by rewrite Es3).
  unfold change_shape. match goal with |- context [get_object ?r p] => rewrite (get_object_Ret r p _ Hp3) end. cbn [mbind res_bind].
  set (s' := set_props new_size (deleted_prop_count s) ph l s) in *. destruct (fresh_shape held poor _ _ _ _ I3) as [Hfr Hnz].
  destruct (atoms_same _ _ H2) as [Eat _]. assert (live l vs = live (prop s) (values o)) as Elive.
  { rewrite <- (live_same _ _ H2). unfold vs. unfold prop_count in *. rewrite live_resize by lia. done. }
  eexists (Some _), _. split; [reflexivity |].
  match goal with |- same_abs _ ?r /\ _ => set (rt4 := r) end.
  destruct (inv_own held poor n (n + 1) _ (Some (next_addr rt3)) extra p _ s (next_addr rt3) s' vs rt3 rt4 I3 Hp3 Hs3 H1) as (I4 & Hab6 & Hab7); try done; try (by right).
  - split; unfold rt4; cbn; try done; [lia | by right | | | |].
    + apply (v_hash _ _ _ _ _ _ I _ _ Hs).
    + apply Hwf; lia.
    + unfold vs. rewrite resize_values_zlen by (unfold prop_count in *; pose proof (zlen_nonneg (prop s)); lia). done.
    + change (owned (atoms rt3) (atoms_of l ++ shape_atoms (delete (shape o) (shapes rt3)) ++ held)). rewrite <- Eat.
      apply (own_atoms held poor _ _ _ _ _ _ I3 Hs3).
  - lia.
  - split_and!; [| done |].
    + eapply same_abs_trans; [exact Hab5 |]. apply (abs_change_same p). split; [| done]. rewrite Hab6. cbn [prop s' set_props].
      rewrite Elive. rewrite (Hab5 p). by rewrite Hab.
    + exists vs, s'. unfold rt4. cbn. rewrite !lookup_insert_eq. split_and!; try done.
      * unfold prop_count. cbn. apply list.Forall2_length in H2. unfold zlen. by rewrite H2.
      * unfold prop_count in *. cbn. apply list.Forall2_length in H2. unfold zlen in *. rewrite <- H2. lia.
Qed.
(** ** The shape enters the table again *)
Lemma table_not_hashed bits m heads a s : table_ok (Some a) bits m heads -> m !! a = Some s -> is_hashed s = false -> table_ok None bits m heads.
Proof.
  intros T Hs Hh. eapply table_ok_ext; [exact T | done |]. intros b. unfold sbucket. rewrite (decide_False (P := Some b = None)) by done.
  case_decide as D; [| done]. injection D as ->. by rewrite Hs, Hh.
Qed.

Lemma link_step n extra (rt : JSRuntime) a s : inv n (Some a) extra rt -> shapes rt !! a = Some s -> exists rt' k,
  (if is_hashed s then js_shape_hash_link a rt else Ret rt) = Ret rt' /\ inv (n + 1) None extra rt' /\ same_abs rt rt' /\
  objects rt' = objects rt /\ shapes rt' !! a = Some (set_next k s).
Proof.
  intros I Hs. destruct (is_hashed s) eqn:Hh.
  - destruct (link_spec rt a s (v_table _ _ _ _ _ _ I) (v_hash _ _ _ _ _ _ I) Hs Hh) as (rt1 & -> & T & R & Eb & Ec).
    destruct (v_count _ _ _ _ _ _ I). destruct (links_inv held poor n (n + 1) (Some a) None extra rt rt1 I R T) as [I1 Hab]; [lia | rewrite Eb, Ec; lia |].
    destruct R as (_ & _ & Eo & _ & L). destruct (links_fwd _ _ _ _ L Hs) as (k & Hk). by exists rt1, k.
  - exists rt, (shape_hash_next s). split_and!; try done; [| by destruct s].
    apply (inv_weaken_shape held poor n (n + 1)); [lia |]. destruct I as [T ? ? ? ? ? ? ? ? ? ?]. split; try done. by eapply table_not_hashed.
Qed.

(** With the hash value of one more property. *)
Lemma relink_step n extra (rt : JSRuntime) p o s h : inv n (Some (shape o)) extra rt -> objects rt !! p = Some o ->
  shapes rt !! shape o = Some s -> ref_count s = 1 -> 0 <= h < 2 ^ 32 -> exists rt' s',
  (if is_hashed s then sh ← get_shape rt (shape o); js_shape_hash_link (shape o) (put_shape (shape o) (set_shape_hash h sh) rt) else Ret rt) = Ret rt' /\
  inv (n + 1) None extra rt' /\ same_abs rt rt' /\ objects rt' = objects rt /\ shapes rt' !! shape o = Some s' /\
  ref_count s' = 1 /\ proto s' = proto s /\ prop s' = prop s /\ prop_size s' = prop_size s.
Proof.
  intros I Hp Hs H1 Hh. destruct (is_hashed s) eqn:Eh.
  2: { destruct (link_step n extra rt _ s I Hs) as (rt' & k & E & I' & Hab & Eo & Es). rewrite Eh in E. exists rt', (set_next k s). by split_and!. }
  rewrite (get_shape_Ret _ _ _ Hs). cbn [mbind res_bind]. set (s1 := set_shape_hash h s). set (rt1 := put_shape (shape o) s1 rt).
  destruct (abs_object held poor _ _ _ _ _ _ I Hp) as (s0 & Hs0 & W & Hz & Hab0). assert (s0 = s) as -> by congruence.
  destruct (own_in_place held poor n n (Some (shape o)) (Some (shape o)) extra rt rt1 p o s s1 (values o) I Hp Hs H1) as [I1 Hab1]; try done; try (by right).
  { by apply object_eta. }
  { by eapply shape_wf_same. }
  { apply (own_atoms held poor _ _ _ _ _ _ I Hs). }
  assert (shapes rt1 !! shape o = Some s1) as Hs1 by apply lookup_insert_eq.
  destruct (link_step n extra rt1 _ s1 I1 Hs1) as (rt' & k & E & I' & Hab & Eo & Es). change (is_hashed s1) with (is_hashed s) in E. rewrite Eh in E.
  exists rt', (set_next k s1). split_and!; try done. eapply same_abs_trans; [| exact Hab]. apply (abs_change_same p). by rewrite Hab0.
Qed.

(** ** The new property *)
Lemma append_step n extra (rt : JSRuntime) p o s a f : inv n None extra rt -> n < 2 ^ 25 -> objects rt !! p = Some o ->
  shapes rt !! shape o = Some s -> ref_count s = 1 -> prop_count s < prop_size s -> a <> JS_ATOM_NULL -> a ∈ held ->
  a ∉ atoms_of (prop s) -> exists at' first ph pr s' v, let rt' := set_atoms at' (put_shape (shape o) s' rt) in
  JS_DupAtom a (atoms rt) = Ret at' /\ znth (prop_hash s) (Z.land a (prop_hash_mask s)) = Some first /\
  zupd (prop_hash s) (Z.land a (prop_hash_mask s)) (prop_count s + 1) = Some ph /\ pr = mkProp (wrap 26 first) (wrap 6 f) a /\
  s' = set_props (prop_size s) (deleted_prop_count s) ph (prop s ++ [pr]) (set_small (has_small_array_index s || __JS_AtomIsTaggedInt a) s) /\
  inv (n + 1) None extra rt' /\ abs_change p (Some (proto s, live (prop s) (values o) ++ [(a, (wrap 6 f, v))])) rt rt'.
Proof.
  intros I Hn Hp Hs H1 Hroom Ha Hheld Hno. destruct (abs_object held poor _ _ _ _ _ _ I Hp) as (s0 & Hs0 & W & Hz & _). assert (s0 = s) as -> by congruence.
  destruct (sw_size _ _ W) as (k & Hk & Hks).
  assert (0 <= Z.land a (prop_hash_mask s) < zlen (prop_hash s)) as Hb by (unfold prop_hash_mask; rewrite Hks; apply mask_range; lia).
  destruct (proj2 (znth_is_Some (prop_hash s) _) Hb) as [first Hf]. destruct (zupd_is_Some (prop_hash s) _ (prop_count s + 1) Hb) as [ph Hph].
  pose proof (own_atoms held poor _ _ _ _ _ _ I Hs) as Hat. destruct (dup_owned (atoms rt) a _ Hat) as (at' & Ed & Hat').
  { rewrite !elem_of_app. tauto. }
  set (pr := mkProp (wrap 26 first) (wrap 6 f) a).
  set (s' := set_props (prop_size s) (deleted_prop_count s) ph (prop s ++ [pr]) (set_small (has_small_array_index s || __JS_AtomIsTaggedInt a) s)).
  assert (shape_wf (n + 1) s') as W' by (by eapply (add_wf n s s' first ph pr)).
  destruct (live_snoc (prop s) pr (values o)) as [v Hv]; [unfold prop_count in *; lia | done |].
  exists at', first, ph, pr, s', v. cbv zeta. do 5 (split; [done |]). destruct (v_shapes _ _ _ _ _ _ I _ _ Hs) as [_ Hlt]. destruct (v_hash _ _ _ _ _ _ I _ _ Hs) as [Hh H0].
  cbn [flags atom pr] in Hv. rewrite <- Hv.
  change (prop s ++ [pr]) with (prop s'). change (proto s) with (proto s').
  apply (inv_replace held poor n (n + 1) None None extra p o s (shape o) s' (values o) rt _ I Hp Hs H1); [| lia |].
  - split; try done.
    + cbn. by rewrite insert_delete_eq.
    + by apply object_eta.
    + by left.
    + cbn [prop s' set_props]. rewrite atoms_of_snoc by done. eapply owned_perm; [| exact Hat']. rewrite <- app_assoc. apply Permutation_middle.
  - by eapply (table_same_keys None _ _ _ _ s); [apply (v_table _ _ _ _ _ _ I) | ..].
Qed.
(** ** Adding to a shape that nobody else has *)
Lemma add_shape_step n extra (rt : JSRuntime) p o s a f : inv n None extra rt -> n + 2 < 2 ^ 25 -> objects rt !! p = Some o ->
  shapes rt !! shape o = Some s -> ref_count s = 1 -> a <> JS_ATOM_NULL -> a ∈ held ->
  a ∉ atoms_of (prop s) -> 0 <= f < 64 -> exists r rt',
  add_shape_property (shape o) (Some p) a f rt = Ret (r, rt') /\ inv (n + 3) None extra rt' /\
  match r with
  | None => poor /\ same_abs rt rt'
  | Some b => exists s' vs l pr v, objects rt' !! p = Some (mkObject b vs) /\ shapes rt' !! b = Some s' /\ prop s' = l ++ [pr] /\
      atom pr = a /\ flags pr = f /\ abs_change p (Some (proto s, live (prop s) (values o) ++ [(a, (f, v))])) rt rt'
  end.
Proof.
  intros I Hn Hp Hs H1 Ha Hheld Hno Hf. unfold add_shape_property. rewrite (get_shape_Ret _ _ _ Hs). cbn [mbind res_bind].
  destruct (unlink_step held poor n extra rt _ s I Hs) as (rt1 & k & -> & I1 & Hab1 & Eo1 & Hs1). cbn [mbind res_bind].
  assert (objects rt1 !! p = Some o) as Hp1 by congruence.
  set (room := if prop_size s <=? prop_count s then _ else _).
  assert (exists r rt2, room = Ret (r, rt2) /\ same_abs rt1 rt2 /\ match r with
    | None => poor /\ inv n (Some (shape o)) extra rt2 /\ shapes rt2 !! shape o = Some (set_next k s)
    | Some b => inv (n + 1) (Some b) extra rt2 /\ exists vs s', objects rt2 !! p = Some (mkObject b vs) /\ shapes rt2 !! b = Some s' /\
        is_hashed s' = is_hashed s /\ ref_count s' = 1 /\ proto s' = proto s /\ prop_count s' = prop_count s /\ prop_count s' < prop_size s' /\
        atoms_of (prop s') = atoms_of (prop s) /\ live (prop s') vs = live (prop s) (values o) end) as (r & rt2 & -> & Hab2 & Hr).
  { unfold room. destruct (Z.leb_spec (prop_size s) (prop_count s)) as [Hle | Hgt].
    - apply (resize_properties_step n extra rt1 p o (set_next k s)); try done. lia.
    - exists (Some (shape o)), rt1. split_and!; try done. { apply (inv_weaken_shape held poor n (n + 1)); [lia | done]. }
      exists (values o), (set_next k s). split_and!; try done. rewrite Hp1. by destruct o. }
  cbn [mbind res_bind]. destruct r as [b |].
  2: { destruct Hr as (Hpo & I2 & Hs2). destruct (link_step n extra rt2 _ _ I2 Hs2) as (rt3 & k3 & E & I3 & Hab3 & _).
    change (is_hashed (set_next k s)) with (is_hashed s) in E. rewrite E. cbn [mbind res_bind]. exists None, rt3. split_and!; [done | | done |].
    - apply (inv_weaken_shape held poor (n + 1)); [lia | done].
    - eapply same_abs_trans; [exact Hab1 |]. by eapply same_abs_trans. }
  destruct Hr as (I2 & vs & s2 & Hp2 & Hs2 & Eh2 & H12 & Epr2 & Ec2 & Hroom & Eat2 & El2).
  destruct (relink_step (n + 1) extra rt2 p (mkObject b vs) s2 (shape_hash (shape_hash (hash s) a) f) I2 Hp2 Hs2 H12 (shape_hash_range _ _))
    as (rt3 & s3 & E & I3 & Hab3 & Eo3 & Hs3 & H13 & Epr3 & Epl3 & Eps3).
  rewrite Eh2 in E. cbn [shape] in *. rewrite E. cbn [mbind res_bind]. rewrite (get_shape_Ret _ _ _ Hs3). cbn [mbind res_bind].
  assert (prop_count s3 < prop_size s3) as Hroom3 by (unfold prop_count in *; rewrite Epl3, Eps3; done).
  rewrite (proj2 (Z.ltb_lt _ _) Hroom3). cbn [assert_ mbind res_bind].
  assert (objects rt3 !! p = Some (mkObject b vs)) as Hp3 by congruence. replace (n + 1 + 1) with (n + 2) in I3 by lia.
  destruct (append_step (n + 2) extra rt3 p _ s3 a f I3 Hn Hp3 Hs3 H13 Hroom3 Ha Hheld) as (at' & first & ph & pr & s4 & v & Ed & Efi & Eph & -> & -> & I4 & Hab4).
  { rewrite Epl3, Eat2. done. }
  rewrite Ed. cbn [mbind res_bind]. rewrite Efi. cbn [of_opt mbind res_bind]. rewrite Eph. cbn [of_opt mbind res_bind].
  cbn [values shape] in *. assert (wrap 6 f = f) as Ew by (unfold wrap; apply Z.mod_small; change (2 ^ 6) with 64; done).
  replace (n + 2 + 1) with (n + 3) in I4 by lia. 
  eexists (Some b), _. split; [reflexivity |]. split; [exact I4 |]. eexists _, vs, _, _, v. split; [done |]. split; [apply lookup_insert_eq |].
  do 2 (split; [done |]). split; [exact Ew |].
  replace (a, (f, v)) with (a, (wrap 6 f, v)) by (by rewrite Ew).
  rewrite <- El2, <- Epr2, <- Epr3. replace (live (prop s2) vs) with (live (prop s3) vs) by (by rewrite Epl3). eapply abs_change_pre; [| exact Hab4]. eapply same_abs_trans; [exact Hab1 |]. by eapply same_abs_trans.
Qed.

(** What adding a property does; [i] is its index. *)
Definition added (p a f : Z) (r : option Z) (rt rt' : JSRuntime) : Prop :=
  match r with
  | None => poor /\ same_abs rt rt'
  | Some i => exists p0 l v pr, abs rt p = Some (p0, l) /\ abs_change p (Some (p0, l ++ [(a, (f, v))])) rt rt' /\
      has_prop rt' p i pr /\ atom pr = a /\ flags pr = f
  end.

Lemma added_pre p a f r (rt1 rt2 rt3 : JSRuntime) : same_abs rt1 rt2 -> added p a f r rt2 rt3 -> added p a f r rt1 rt3.
Proof.
  intros H. destruct r as [i |]; cbn; [| intros [? ?]; split; [done | by eapply same_abs_trans]]. intros (p0 & l & v & pr & E & C & ?). exists p0, l, v, pr.
  split; [by rewrite <- H |]. split; [by eapply abs_change_pre | done].
Qed.

Lemma add_unshared_step n extra (rt : JSRuntime) p o s a f : inv n None extra rt -> n + 2 < 2 ^ 25 -> objects rt !! p = Some o ->
  shapes rt !! shape o = Some s -> ref_count s = 1 -> a <> JS_ATOM_NULL -> a ∈ held -> a ∉ atoms_of (prop s) -> 0 <= f < 64 ->
  exists r rt', add_property_unshared p a f rt = Ret (r, rt') /\ inv (n + 3) None extra rt' /\ added p a f r rt rt'.
Proof.
  intros I Hn Hp Hs H1 Ha Hheld Hno Hf. unfold add_property_unshared. rewrite (get_object_Ret _ _ _ Hp). cbn [mbind res_bind].
  rewrite (get_shape_Ret _ _ _ Hs). cbn [mbind res_bind]. rewrite (proj2 (Z.eqb_eq _ _) H1). cbn [assert_ mbind res_bind].
  destruct (add_shape_step n extra rt p o s a f I Hn Hp Hs H1 Ha Hheld Hno Hf) as (r & rt' & -> & I' & Hr). cbn [mbind res_bind].
  destruct r as [b |]; [| by exists None, rt'].
  destruct Hr as (s' & vs & l & pr & v & Hp' & Hs' & El & Ea & Ef & C). rewrite (get_shape_Ret _ _ _ Hs'). cbn [mbind res_bind].
  eexists (Some _), rt'. split; [reflexivity |]. split; [done |]. exists (proto s), (live (prop s) (values o)), v, pr.
  split; [by apply abs_Some |]. split; [done |]. split_and!; try done. split; [congruence |]. exists (mkObject b vs), s'. split_and!; try done.
  unfold prop_count. rewrite El, zlen_app. change (zlen [pr]) with 1. rewrite Z.add_simpl_r. apply znth_snoc.
Qed.
End add.
