(* ===== verification/ShapeShare.v ===== *)
(** * quickjs.c: objects that share shapes, new and freed objects

    [add_property] looks for a shape that has one more property and gives it to
    the object, or clones the shape of the object when others have it.  For each
    object only its property list matters. *)
From Stdlib Require Import ZArith Lia Bool.
From stdpp Require Import base numbers list gmap.
From S2P Require Import Prelude Cutils Chains JSValue AtomState ShapeState ShapeSpec ShapeFacts ShapeTable ShapeInv ShapeSteps ShapeUpdate ShapeAdd.

Section share.
Context {A : Type} {ops : AtomOps A} {laws : AtomLaws A}.
Variable held : list Z.
Variable poor : Prop.
Abbreviation JSRuntime := (JSRuntime A).
Abbreviation inv := (inv held poor).

(** ** The shape with one more property *)

(** [p] has the shape [b] instead of its own, with the values [vs]. *)
Definition adopt (p b : Z) (nsh : JSShape) (vs : list Z) (rt : JSRuntime) : JSRuntime :=
  put_object p (mkObject b vs) (put_shape b (set_ref_count (ref_count nsh + 1) nsh) rt).

Lemma adopt_step n extra (rt : JSRuntime) p o b nsh vs : inv n None extra rt -> objects rt !! p = Some o ->
  shapes rt !! b = Some nsh -> is_hashed nsh = true -> prop_size nsh <= zlen vs -> exists rt',
  js_free_shape (shape o) (adopt p b nsh vs rt) = Ret rt' /\ inv n None extra rt' /\
  abs_change p (Some (proto nsh, live (prop nsh) vs)) rt rt' /\ objects rt' = <[p := mkObject b vs]> (objects rt) /\
  exists k c, shapes rt' !! b = Some (set_next k (set_ref_count c nsh)).
Proof.
  intros I Hp Hb Hh Hz. destruct (dup_shape_step held poor n extra rt b nsh I Hb Hh) as (rt1 & E & I1 & Hab1 & Eo & Es).
  unfold js_dup_shape in E. rewrite (get_shape_Ret _ _ _ Hb) in E. cbn [mbind res_bind] in E. injection E as E.
  assert (objects rt1 !! p = Some o) as Hp1 by congruence.
  assert (shapes rt1 !! b = Some (set_ref_count (ref_count nsh + 1) nsh)) as Hb1 by (by rewrite Es, lookup_insert_eq).
  destruct (put_object_inv held poor n None (b :: extra) (shape o :: extra) rt1 p o b _ vs I1 Hp1 Hb1 Hz) as [I2 Hab2].
  { intros a. cbn [countb]. lia. }
  { intros a [-> | Ha]%elem_of_cons; [by right | left; by right]. }
  unfold adopt. rewrite E. destruct (free_shape_step held poor n extra _ (shape o) I2) as (rt3 & E3 & I3 & Hab3 & Eo3 & _ & Hother).
  exists rt3. split_and!; [done | done | | by rewrite Eo3; cbn; rewrite Eo |].
  - eapply abs_change_pre; [exact Hab1 |]. by eapply abs_change_post.
  - destruct (decide (b = shape o)) as [Eb | D].
    + (* the object has it already: it is still there *)
      assert (objects rt3 !! p = Some (mkObject b vs)) as Hp3 by (rewrite Eo3; apply lookup_insert_eq).
      destruct (abs_object held poor _ _ _ _ _ _ I3 Hp3) as (s3 & Hs3 & _). cbn in Hs3. exists (shape_hash_next s3), (ref_count s3). rewrite Hs3. f_equal.
      rewrite <- Eb in E3. unfold js_free_shape in E3. rewrite (get_shape_Ret (put_object _ _ rt1) b _ Hb1) in E3. cbn [mbind res_bind] in E3.
      destruct (v_refs _ _ _ _ _ _ I b nsh Hb) as [_ Hpos]. cbn [ref_count set_ref_count] in E3.
      rewrite (proj2 (Z.leb_gt _ _)) in E3 by lia. injection E3 as <-. cbn in Hs3. rewrite lookup_insert_eq in Hs3. injection Hs3 as <-. by destruct nsh.
    + destruct (Hother b _ D Hb1) as [k Hk]. exists k, (ref_count nsh + 1). done.
Qed.

(** The shape that is found has the properties of [s], then the new one. *)
Lemma found_live n n' s nsh l2 pr vs vs0 : shape_wf n nsh -> shape_wf n' s -> prop nsh = l2 ++ [pr] -> Forall2 same_prop_rel (prop s) l2 ->
  atom pr <> JS_ATOM_NULL -> prop_size s <= zlen vs -> prop_size nsh <= zlen vs0 ->
  vs0 = vs \/ vs0 = resize_values (prop_size nsh) vs ->
  exists v, live (prop nsh) vs0 = live (prop s) vs ++ [(atom pr, (flags pr, v))].
Proof.
  intros W W' El H2 Ha Hz Hz0 Hvs. pose proof (sw_count _ _ W) as Hc. pose proof (sw_count _ _ W') as Hc'. unfold prop_count in *. rewrite El in *.
  rewrite zlen_app in Hc. change (zlen [pr]) with 1 in Hc. destruct (live_snoc l2 pr vs0) as [v ->]; [lia | done |]. exists v. f_equal.
  rewrite <- (live_same _ _ H2). destruct Hvs as [-> | ->]; [done |]. apply list.Forall2_length in H2. unfold zlen in *. apply live_resize; unfold zlen; lia.
Qed.

Lemma add_found_step n extra (rt : JSRuntime) p o s a f b nsh l2 pr vs : inv n None extra rt -> objects rt !! p = Some o ->
  shapes rt !! shape o = Some s -> a <> JS_ATOM_NULL -> shapes rt !! b = Some nsh -> is_hashed nsh = true -> proto nsh = proto s ->
  prop nsh = l2 ++ [pr] -> Forall2 same_prop_rel (prop s) l2 -> atom pr = a -> flags pr = f -> prop_size nsh <= zlen vs ->
  vs = values o \/ vs = resize_values (prop_size nsh) (values o) -> exists rt',
  js_free_shape (shape o) (adopt p b nsh vs rt) = Ret rt' /\ inv n None extra rt' /\ added poor p a f (Some (prop_count nsh - 1)) rt rt'.
Proof.
  intros I Hp Hs Ha Hb Hh Epr El H2 Ea Ef Hz Hvs. destruct (abs_object held poor _ _ _ _ _ _ I Hp) as (s0 & Hs0 & W & Hzo & Hab).
  assert (s0 = s) as -> by congruence. destruct (v_shapes _ _ _ _ _ _ I b nsh Hb) as [Wn _].
  destruct (adopt_step n extra rt p o b nsh vs I Hp Hb Hh Hz) as (rt' & E & I' & C & Eo & k & c & Hb').
  destruct (found_live n n s nsh l2 pr (values o) vs Wn W El H2) as [v Ev]; [congruence | done | done | done |].
  exists rt'. split; [done |]. split; [done |]. exists (proto s), (live (prop s) (values o)), v, pr.
  split; [done |]. split; [by rewrite Epr, Ev, Ea, Ef in C |]. split_and!; try done. split; [congruence |].
  exists (mkObject b vs), (set_next k (set_ref_count c nsh)). rewrite Eo, lookup_insert_eq. split_and!; try done.
  unfold prop_count. cbn. rewrite El, zlen_app. change (zlen [pr]) with 1. rewrite Z.add_simpl_r. apply znth_snoc.
Qed.

(** ** A clone *)
Lemma add_clone_step n extra (rt : JSRuntime) p o s a f : inv n None extra rt -> n + 3 < 2 ^ 25 -> objects rt !! p = Some o ->
  shapes rt !! shape o = Some s -> ref_count s <> 1 -> a <> JS_ATOM_NULL -> a ∈ held -> a ∉ atoms_of (prop s) -> 0 <= f < 64 ->
  exists r rt', ('(b, rt) ← js_clone_shape (shape o) rt;
    if b =? 0 then Ret (None, rt)
    else
      nsh ← get_shape rt b;
      rt ← js_shape_hash_link b (put_shape b (set_hashed true nsh) rt);
      rt ← js_free_shape (shape o) rt;
      rt ← change_shape p b rt;
      add_property_unshared p a f rt) = Ret (r, rt') /\ inv (n + 4) None extra rt' /\ added poor p a f r rt rt'.
Proof.
  intros I Hn Hp Hs H1 Ha Hheld Hno Hf. destruct (abs_object held poor _ _ _ _ _ _ I Hp) as (s0 & Hs0 & W & Hz & Hab). assert (s0 = s) as -> by congruence.
  destruct (v_refs _ _ _ _ _ _ I _ _ Hs) as [_ Hpos].
  destruct (clone_step held poor n extra rt (shape o) s I Hs) as (b & rt1 & -> & Hab1 & Eo & [(-> & Hpo & I1 & _) | (Hb0 & Hb & I1 & Es)]); cbn [mbind res_bind].
  { exists None, rt1. split; [done |]. split; [apply (inv_weaken_shape held poor n (n + 4)); [lia | done] | by split]. }
  rewrite (proj2 (Z.eqb_neq _ _) Hb0). assert (shapes rt1 !! b = Some (set_hashed false (set_ref_count 1 s))) as Hb1 by (by rewrite Es, lookup_insert_eq).
  rewrite (get_shape_Ret _ _ _ Hb1). cbn [mbind res_bind]. destruct (hash_step held poor n (b :: extra) rt1 b _ I1 Hb1 eq_refl) as (rt2 & -> & I2 & Hab2 & Eo2 & L).
  cbn [mbind res_bind]. assert (objects rt2 !! p = Some o) as Hp2 by congruence.
  destruct (links_fwd _ _ (shape o) s L) as (k & Hs2). { rewrite lookup_insert_ne by done. by rewrite Es, lookup_insert_ne. }
  destruct (links_fwd _ _ b _ L (lookup_insert_eq _ _ _)) as (k' & Hb2). set (sb := set_next k' _) in Hb2.
  destruct (swap_step held poor (n + 1) extra rt2 p o _ b sb I2 Hp2 Hs2) as (rt3 & rt4 & E3 & E4 & I4 & C & Eo4 & Hb4); [cbn; lia | done | exact Hb2 | done |].
  rewrite E3. cbn [mbind res_bind]. rewrite E4. cbn [mbind res_bind].
  assert (objects rt4 !! p = Some (mkObject b (values o))) as Hp4 by (by rewrite Eo4, lookup_insert_eq).
  destruct (add_unshared_step held poor (n + 1) extra rt4 p _ _ a f I4 ltac:(lia) Hp4 Hb4 eq_refl Ha Hheld Hno Hf) as (r & rt5 & E5 & I5 & Hadd).
  exists r, rt5. split; [exact E5 |]. split; [by replace (n + 4) with (n + 1 + 3) by lia |]. eapply added_pre; [| exact Hadd].
  eapply same_abs_trans; [exact Hab1 |]. eapply same_abs_trans; [exact Hab2 |]. apply (abs_change_same p).
  by rewrite (abs_Some _ _ _ _ Hp2 Hs2).
Qed.

Lemma add_property_step n extra (rt : JSRuntime) p o s a f : inv n None extra rt -> n + 3 < 2 ^ 25 -> objects rt !! p = Some o ->
  shapes rt !! shape o = Some s -> a <> JS_ATOM_NULL -> a ∈ held -> a ∉ atoms_of (prop s) -> 0 <= f < 64 ->
  exists r rt', add_property p a f rt = Ret (r, rt') /\ inv (n + 4) None extra rt' /\ added poor p a f r rt rt'.
Proof.
  intros I Hn Hp Hs Ha Hheld Hno Hf. destruct (abs_object held poor _ _ _ _ _ _ I Hp) as (s0 & Hs0 & W & Hz & Hab). assert (s0 = s) as -> by congruence.
  assert (ref_count s = 1 -> exists r rt', add_property_unshared p a f rt = Ret (r, rt') /\ inv (n + 4) None extra rt' /\ added poor p a f r rt rt') as Halone.
  { intros H1. destruct (add_unshared_step held poor n extra rt p o s a f I ltac:(lia) Hp Hs H1 Ha Hheld Hno Hf) as (r & rt' & E & I' & Hadd).
    exists r, rt'. split_and!; [done | | done]. apply (inv_weaken_shape held poor (n + 3)); [lia | done]. }
  unfold add_property. rewrite (get_object_Ret _ _ _ Hp). cbn [mbind res_bind]. rewrite (get_shape_Ret _ _ _ Hs). cbn [mbind res_bind].
  destruct (is_hashed s) eqn:Hh; [| by apply Halone, (v_unshared _ _ _ _ _ _ I (shape o))].
  destruct (find_prop_shape_spec rt s a f (v_table _ _ _ _ _ _ I)) as (b & -> & Hb). cbn [mbind res_bind].
  destruct (Z.eqb_spec b 0) as [-> | Hb0]; cbn [negb].
  { destruct (Z.eqb_spec (ref_count s) 1) as [H1 | H1]; cbn [negb]; [by apply Halone |]. by apply (add_clone_step n extra rt p o s a f). }
  destruct Hb as [-> | (nsh & l2 & pr & Hb & Hnh & Epr & El & H2 & Ea & Ef)]; [done |]. rewrite (get_shape_Ret _ _ _ Hb). cbn [mbind res_bind].
  destruct (v_shapes _ _ _ _ _ _ I b nsh Hb) as [Wn _]. pose proof (sw_small _ _ Wn) as Hsz.
  destruct (Z.eqb_spec (prop_size nsh) (prop_size s)) as [Ez | Dz]; cbn [negb mbind res_bind].
  - destruct (add_found_step n extra rt p o s a f b nsh l2 pr (values o)) as (rt' & E & I' & Hadd); try done; [lia | by left |].
    unfold js_dup_shape, change_shape. rewrite (get_shape_Ret _ _ _ Hb). cbn [mbind res_bind]. rewrite (get_object_Ret (put_shape _ _ rt) p o Hp). cbn [mbind res_bind].
    unfold adopt in E. rewrite E. cbn [mbind res_bind]. eexists _, rt'. split; [reflexivity |]. split; [| done]. apply (inv_weaken_shape held poor n); [lia | done].
  - destruct (alloc_step held poor n None extra rt I) as (ok & rt1 & -> & (Eat & Es & Eo & Enx & Et & Eb & Ecn) & I1 & Hab1 & Hpo1). cbn [mbind res_bind].
    destruct ok; cbn [negb].
    2: { exists None, rt1. split; [done |]. split; [apply (inv_weaken_shape held poor n); [lia | done] | split; [by apply Hpo1 | done]]. }
    set (vs := resize_values (prop_size nsh) (values o)). assert (prop_size nsh <= zlen vs) as Hzv by (unfold vs; rewrite resize_values_zlen by lia; lia).
    assert (objects rt1 !! p = Some o) as Hp1 by congruence. assert (shapes rt1 !! b = Some nsh) as Hb1 by congruence.
    destruct (add_found_step n extra rt1 p o s a f b nsh l2 pr vs) as (rt' & E & I' & Hadd); try done; [congruence | by right |].
    unfold js_dup_shape, change_shape. rewrite (get_shape_Ret (put_object _ _ rt1) b nsh Hb1). cbn [mbind res_bind].
    match goal with |- context [get_object ?r p] => rewrite (get_object_Ret r p (mkObject (shape o) vs)) by apply lookup_insert_eq end. cbn [mbind res_bind values].
    match goal with |- context [js_free_shape (shape o) ?r] => replace r with (adopt p b nsh vs rt1) end.
    2: { unfold adopt, put_object, set_objects. cbn. by rewrite insert_insert_eq. }
    rewrite E. cbn [mbind res_bind]. eexists _, rt'. split; [reflexivity |]. split; [apply (inv_weaken_shape held poor n); [lia | done] |]. by eapply added_pre.
Qed.
End share.

(** * New objects and freed objects *)

Section new.
Context {A : Type} {ops : AtomOps A} {laws : AtomLaws A}.
Variable held : list Z.
Variable poor : Prop.
Abbreviation JSRuntime := (JSRuntime A).
Abbreviation inv := (inv held poor).

(** ** New shapes *)
Lemma make_room n extra (rt : JSRuntime) : inv n None extra rt -> n < 2 ^ 25 -> exists ok rt',
  (if zlen (shape_table rt) <? 2 * (shape_hash_count rt + 1) then resize_shape_hash (shape_hash_bits rt + 1) rt else Ret (true, rt)) = Ret (ok, rt') /\
  inv n None extra rt' /\ same_abs rt rt' /\ objects rt' = objects rt.
Proof.
  intros I Hn. destruct (Z.ltb_spec (zlen (shape_table rt)) (2 * (shape_hash_count rt + 1))) as [Hlt | _]; [| by exists true, rt].
  pose proof (v_table _ _ _ _ _ _ I) as T. destruct (v_count _ _ _ _ _ _ I) as [Hc Hb]. destruct T as (T0 & Hz & Hbits) eqn:ET. clear ET.
  assert (shape_hash_bits rt < 32) as Hb32.
  { destruct (Z.ltb_spec (shape_hash_bits rt) 32) as [| Hge]; [done |]. pose proof (Z.pow_le_mono_r 2 32 (shape_hash_bits rt) ltac:(lia) Hge). lia. }
  destruct (resize_spec rt T (v_hash _ _ _ _ _ _ I) Hb32) as (ok & rt' & -> & T' & R & Ec & Hbt). exists ok, rt'. split; [done |].
  destruct (links_inv held poor n n None None extra rt rt' I R T') as [I' Hab]; [lia | | split_and!; [done | done | apply R]].
  rewrite Ec. split; [done |]. pose proof (Z.pow_le_mono_r 2 (shape_hash_bits rt') (shape_hash_bits rt + 1) ltac:(lia) ltac:(lia)) as Hp.
  rewrite Z.pow_add_r in Hp by lia. lia.
Qed.

Lemma new_shape_step n extra (rt : JSRuntime) q : inv n None extra rt -> 0 <= n < 2 ^ 25 -> exists a rt',
  js_new_shape q rt = Ret (a, rt') /\ inv (n + 1) None (if a =? 0 then extra else a :: extra) rt' /\ same_abs rt rt' /\
  (a = 0 /\ poor \/ a <> 0 /\ exists s, shapes rt' !! a = Some s /\ proto s = q /\ prop s = []).
Proof.
  intros I Hn. unfold js_new_shape, js_new_shape2. destruct (make_room n extra rt I ltac:(lia)) as (ok0 & rt1 & -> & I1 & Hab1 & Eo1). cbn [mbind res_bind].
  destruct (alloc_step held poor n None extra rt1 I1) as (ok & rt2 & -> & _ & I2 & Hab2 & Hpo2). pose proof (same_abs_trans _ _ _ Hab1 Hab2) as Hab.
  destruct ok; cbn [negb].
  2: { exists 0, rt2. split_and!; [done | | done | left; auto]. apply (inv_weaken_shape held poor n (n + 1)); [lia | done]. }
  destruct (fresh_shape held poor _ _ _ _ I2) as [Hfr H0]. cbn [new_addr].
  set (s := mkShape 1 true false (shape_initial_hash q) _ 0 0 q _ []). match goal with |- context [put_shape ?a s ?r] => set (rt3 := put_shape a s r) end.
  assert (shape_wf n s) as W.
  { split; cbn; try done.
    - exists 2. split; [lia | done].
    - apply (table_nil 2).
    - constructor.
    - unfold prop_count, JS_PROP_INITIAL_SIZE. cbn. change (zlen []) with 0. lia. }
  destruct (new_shape_inv held poor n n (Some (next_addr rt2)) extra rt2 rt3 (next_addr rt2) s I2) as [I3 Hab3]; try done.
  { apply shape_hash_range. } { by right. } { apply (v_atoms _ _ _ _ _ _ I2). }
  assert (shapes rt3 !! next_addr rt2 = Some s) as Hs3 by apply lookup_insert_eq.
  destruct (link_step held poor n _ rt3 _ s I3 Hs3) as (rt4 & k & E & I4 & Hab4 & Eo4 & Hs4). cbn [is_hashed s] in E. rewrite E. cbn [mbind res_bind].
  exists (next_addr rt2), rt4. rewrite (proj2 (Z.eqb_neq _ _) H0). split_and!; [done | done | |].
  - eapply same_abs_trans; [exact Hab |]. by eapply same_abs_trans.
  - right. split; [done |]. by exists (set_next k s).
Qed.

(** ** New objects *)
Lemma new_object_inv n extra (rt rt' : JSRuntime) a s : inv n None (a :: extra) rt -> shapes rt !! a = Some s -> prop s = [] ->
  rt' = (let '(p, r) := new_addr rt in put_object p (mkObject a (replicate (Z.to_nat (prop_size s)) 0)) r) ->
  inv n None extra rt' /\ abs rt (next_addr rt) = None /\ abs_change (next_addr rt) (Some (proto s, [])) rt rt'.
Proof.
  intros I Hs El ->. cbn [new_addr]. set (p := next_addr rt). destruct (v_shapes _ _ _ _ _ _ I a s Hs) as [W _]. pose proof (sw_small _ _ W) as Hsz.
  assert (objects rt !! p = None) as Hfr.
  { destruct (objects rt !! p) as [o |] eqn:E; [| done]. destruct (v_objs _ _ _ _ _ _ I p o E) as [_ ?]. unfold p in *. lia. }
  split; [| split].
  - destruct I as [T Hok Hsh Hrf Hu Ho He Hat Hnx Hct Hmem]. split; cbn; try done; try lia.
    + intros b t Hb. destruct (Hsh b t Hb). split; [done | lia].
    + intros b t Hb. destruct (Hrf b t Hb) as [Hr Hpos]. split; [| done]. rewrite Hr. unfold refs. cbn.
      rewrite obj_refs_new by done. cbn. lia.
    + intros q o Hq. destruct (decide (p = q)) as [<- | D].
      * rewrite lookup_insert_eq in Hq. injection Hq as <-. split; [| unfold p; lia]. exists s. cbn. split; [done |]. rewrite zlen_replicate. lia.
      * rewrite lookup_insert_ne in Hq by done. destruct (Ho q o Hq). split; [done | lia].
    + intros b Hb. apply He. by right.
  - unfold abs. by rewrite Hfr.
  - split.
    + unfold abs. cbn. rewrite lookup_insert_eq. cbn. by rewrite Hs, El.
    + intros q D. unfold abs. cbn. by rewrite lookup_insert_ne by congruence.
Qed.

(** What making an object does. *)
Definition made (q p : Z) (rt rt' : JSRuntime) : Prop :=
  if p =? 0 then poor /\ same_abs rt rt' else abs rt p = None /\ abs_change p (Some (q, [])) rt rt'.

Lemma made_pre q p (rt1 rt2 rt3 : JSRuntime) : same_abs rt1 rt2 -> made q p rt2 rt3 -> made q p rt1 rt3.
Proof.
  unfold made. intros H. destruct (p =? 0); [intros [? ?]; split; [done | by eapply same_abs_trans] |]. intros [H1 H2]. split; [by rewrite <- H | by eapply abs_change_pre].
Qed.

Lemma from_shape_step n extra (rt : JSRuntime) a s : inv n None (a :: extra) rt -> shapes rt !! a = Some s -> prop s = [] ->
  exists p rt', JS_NewObjectFromShape a rt = Ret (p, rt') /\ inv n None extra rt' /\ made (proto s) p rt rt'.
Proof.
  intros I Hs El.
  assert (forall rt1, poor -> same_abs rt rt1 -> inv n None (a :: extra) rt1 -> exists p rt', (rt2 ← js_free_shape a rt1; Ret (0, rt2)) = Ret (p, rt') /\
    inv n None extra rt' /\ made (proto s) p rt rt') as Hfail.
  { intros rt1 Hpo Hab I1. destruct (free_shape_step held poor n extra rt1 a I1) as (rt2 & -> & I2 & Hab2 & _). exists 0, rt2. split_and!; [done | done |].
    split; [done |]. by eapply same_abs_trans. }
  unfold JS_NewObjectFromShape.
  destruct (alloc_step held poor n None _ rt I) as (ok & rt1 & -> & (_ & Es & _) & I1 & Hab1 & Hpo1). destruct ok; cbn [negb]; [| by apply Hfail; auto].
  assert (shapes rt1 !! a = Some s) as Hs1 by congruence. rewrite (get_shape_Ret _ _ _ Hs1). cbn [mbind res_bind].
  destruct (alloc_step held poor n None _ rt1 I1) as (ok & rt2 & -> & (_ & Es2 & _ & _) & I2 & Hab2 & Hpo2). pose proof (same_abs_trans _ _ _ Hab1 Hab2) as Hab.
  destruct ok; cbn [negb]; [| by apply Hfail; auto]. assert (shapes rt2 !! a = Some s) as Hs2 by congruence. cbn [new_addr].
  destruct (new_object_inv n extra rt2 _ a s I2 Hs2 El eq_refl) as (I3 & Hno & C). cbn [new_addr] in I3, C.
  eexists _, _. split; [reflexivity |]. split; [done |]. eapply made_pre; [exact Hab |]. unfold made.
  rewrite (proj2 (Z.eqb_neq _ _)); [done |]. pose proof (v_next _ _ _ _ _ _ I2). lia.
Qed.

Lemma new_object_step n (rt : JSRuntime) q : inv n None [] rt -> 0 <= n < 2 ^ 25 -> exists p rt',
  JS_NewObjectProto q rt = Ret (p, rt') /\ inv (n + 1) None [] rt' /\ made q p rt rt'.
Proof.
  intros I Hn. unfold JS_NewObjectProto. destruct (find_proto_spec rt q (v_table _ _ _ _ _ _ I)) as (a & -> & Ha). cbn [mbind res_bind].
  destruct (Z.eqb_spec a 0) as [-> | D]; cbn [negb].
  - destruct (new_shape_step n [] rt q I Hn) as (a & rt1 & -> & I1 & Hab1 & Hs). cbn [mbind res_bind]. destruct (Z.eqb_spec a 0) as [-> | D].
    { destruct Hs as [[_ Hpo] | [? _]]; [| done]. exists 0, rt1. by split_and!. }
    destruct Hs as [[? _] | (_ & s & Hs & Eq & El)]; [done |].
    destruct (from_shape_step (n + 1) [] rt1 a s I1 Hs El) as (p & rt2 & -> & I2 & M). exists p, rt2. split_and!; [done | done |].
    rewrite <- Eq. by eapply made_pre.
  - destruct Ha as [? | (s & Hs & Hh & Eq & El)]; [done |].
    destruct (dup_shape_step held poor n [] rt a s I Hs Hh) as (rt1 & -> & I1 & Hab1 & _ & Es1). cbn [mbind res_bind].
    assert (shapes rt1 !! a = Some (set_ref_count (ref_count s + 1) s)) as Hs1 by (by rewrite Es1, lookup_insert_eq).
    destruct (from_shape_step n [] rt1 a _ I1 Hs1 El) as (p & rt2 & -> & I2 & M). exists p, rt2. split_and!; [done | |].
    + apply (inv_weaken_shape held poor n (n + 1)); [lia | done].
    + cbn [proto set_ref_count] in M. rewrite Eq in M. by eapply made_pre.
Qed.

(** ** Freeing an object *)
Lemma unlink_walk_objects m a (rt' : JSRuntime) fuel : forall b (rt : JSRuntime), unlink_walk fuel a b rt = Ret rt' ->
  unlink_walk fuel a b (set_objects m rt) = Ret (set_objects m rt').
Proof.
  induction fuel as [| fuel IH]; intros b rt H; [done |]. cbn [unlink_walk] in *. change (get_shape (set_objects m rt) b) with (get_shape rt b).
  destruct (get_shape rt b) as [sb | |]; cbn [mbind res_bind] in *; try done. case_match; [| by apply IH].
  change (get_shape (set_objects m rt) a) with (get_shape rt a). destruct (get_shape rt a) as [sh | |]; cbn [mbind res_bind] in *; try done.
  by injection H as <-.
Qed.

Lemma unlink_objects m a (rt rt' : JSRuntime) : js_shape_hash_unlink a rt = Ret rt' ->
  js_shape_hash_unlink a (set_objects m rt) = Ret (set_objects m rt').
Proof.
  unfold js_shape_hash_unlink. change (get_shape (set_objects m rt) a) with (get_shape rt a).
  destruct (get_shape rt a) as [s | |]; cbn [mbind res_bind]; try done. cbn [shape_table set_objects shape_hash_bits shapes].
  destruct (znth (shape_table rt) _) as [first |]; cbn [of_opt mbind res_bind]; [| done]. case_match.
  - destruct (zupd (shape_table rt) _ _) as [l |]; cbn [of_opt mbind res_bind]; [| done]. intros E. by injection E as <-.
  - destruct (unlink_walk _ a first rt) as [r | |] eqn:E; cbn [mbind res_bind]; try done. intros E'. injection E' as <-.
    rewrite (unlink_walk_objects m a r _ first rt E). cbn [mbind res_bind]. done.
Qed.

Lemma free_objects m a (rt rt' : JSRuntime) : js_free_shape a rt = Ret rt' -> js_free_shape a (set_objects m rt) = Ret (set_objects m rt').
Proof.
  unfold js_free_shape. change (get_shape (set_objects m rt) a) with (get_shape rt a).
  destruct (get_shape rt a) as [s | |]; cbn [mbind res_bind]; try done. case_match; [| by intros [= <-]].
  unfold js_free_shape0. change (put_shape a ?x (set_objects m rt)) with (set_objects m (put_shape a x rt)).
  set (rt1 := put_shape a _ rt). change (get_shape (set_objects m rt1) a) with (get_shape rt1 a).
  destruct (get_shape rt1 a) as [s1 | |]; cbn [mbind res_bind]; try done. destruct (assert_ _) as [[] | |]; cbn [mbind res_bind]; try done.
  destruct (is_hashed s1).
  - destruct (js_shape_hash_unlink a rt1) as [rt2 | |] eqn:E; cbn [mbind res_bind]; try done. rewrite (unlink_objects m a rt1 rt2 E). cbn [mbind res_bind].
    change (get_shape (set_objects m rt2) a) with (get_shape rt2 a). destruct (get_shape rt2 a) as [s2 | |]; cbn [mbind res_bind]; try done.
    change (atoms (set_objects m rt2)) with (atoms rt2). destruct (free_atoms (prop s2) (atoms rt2)); cbn [mbind res_bind]; try done. by intros [= <-].
  - cbn [mbind res_bind]. change (get_shape (set_objects m rt1) a) with (get_shape rt1 a). destruct (get_shape rt1 a) as [s2 | |]; cbn [mbind res_bind]; try done.
    change (atoms (set_objects m rt1)) with (atoms rt1). destruct (free_atoms (prop s2) (atoms rt1)); cbn [mbind res_bind]; try done. by intros [= <-].
Qed.

(** Without the object, its reference is given up. *)
Lemma remove_object_inv n extra (rt : JSRuntime) p o : inv n None extra rt -> objects rt !! p = Some o ->
  inv n None (shape o :: extra) (set_objects (delete p (objects rt)) rt) /\ abs_change p None rt (set_objects (delete p (objects rt)) rt).
Proof.
  intros I Hp. destruct (v_objs _ _ _ _ _ _ I p o Hp) as [(s & Hs & _) _]. split.
  - destruct I as [T Hok Hsh Hrf Hu Ho He Hat Hnx Hct Hmem]. split; cbn; try done.
    + intros b t Hb. destruct (Hrf b t Hb) as [Hr Hpos]. split; [| done]. rewrite Hr. unfold refs. cbn. rewrite (obj_refs_delete _ p o b Hp). lia.
    + intros q o' Hq. apply lookup_delete_Some in Hq as [_ Hq]. by apply Ho.
    + intros b [-> | Hb]%elem_of_cons; [by exists s | by apply He].
  - split.
    + unfold abs. cbn. by rewrite lookup_delete_eq.
    + intros q D. unfold abs. cbn. by rewrite lookup_delete_ne by congruence.
Qed.

Lemma free_object_step n extra (rt : JSRuntime) p o : inv n None extra rt -> objects rt !! p = Some o -> exists rt',
  free_object p rt = Ret rt' /\ inv n None extra rt' /\ abs_change p None rt rt'.
Proof.
  intros I Hp. destruct (abs_object held poor _ _ _ _ _ _ I Hp) as (s & Hs & W & Hz & _). unfold free_object. rewrite (get_object_Ret _ _ _ Hp). cbn [mbind res_bind].
  rewrite (get_shape_Ret _ _ _ Hs). cbn [mbind res_bind]. pose proof (sw_count _ _ W). rewrite (proj2 (Z.leb_le _ _)) by lia. cbn [assert_ mbind res_bind].
  destruct (remove_object_inv n extra rt p o I Hp) as [I1 C]. destruct (free_shape_step held poor n extra _ _ I1) as (rt2 & E & I2 & Hab2 & Eo & _).
  apply (free_objects (objects rt)) in E.
  assert (set_objects (objects rt) (set_objects (delete p (objects rt)) rt) = rt) as Er by (by destruct rt). rewrite Er in E. rewrite E. cbn [mbind res_bind].
  eexists. split; [reflexivity |]. assert (set_objects (delete p (objects rt)) (set_objects (objects rt) rt2) = rt2) as E2.
  { destruct rt2. cbn in Eo. by rewrite Eo. }
  cbn [objects set_objects]. change (objects (set_objects (objects rt) rt2)) with (objects rt). rewrite E2. split; [done |]. by eapply abs_change_post.
Qed.
End new.
