(* ===== verification/ObjectState.v ===== *)
(** * quickjs.c: ordinary objects

    The operations of programs on objects that are not exotic, over the shapes of
    ShapeState.v: getting, setting, defining and deleting properties, the
    prototype and the flag [extensible], for properties that are values
    ([JS_PROP_NORMAL]): the branches for getters, variable references and
    properties that are made when they are first used are [assert_]ed away, and
    so is the length of arrays.  A value is a number that tells it from others, so
    that [js_same_value] is equality. *)
From Stdlib Require Import ZArith Lia Bool.
From stdpp Require Import base numbers list gmap.
From S2P Require Import Prelude Cutils JSValue AtomState ShapeState.

(** ** Flags *)
Definition JS_PROP_TMASK : Z := Z.shiftl 3 4.
Definition JS_PROP_NORMAL : Z := Z.shiftl 0 4.
Definition JS_PROP_GETSET : Z := Z.shiftl 1 4.
Definition JS_PROP_HAS_SHIFT : Z := 8.
Definition JS_PROP_HAS_CONFIGURABLE : Z := Z.shiftl 1 8.
Definition JS_PROP_HAS_WRITABLE : Z := Z.shiftl 1 9.
Definition JS_PROP_HAS_ENUMERABLE : Z := Z.shiftl 1 10.
Definition JS_PROP_HAS_GET : Z := Z.shiftl 1 11.
Definition JS_PROP_HAS_SET : Z := Z.shiftl 1 12.
Definition JS_PROP_HAS_VALUE : Z := Z.shiftl 1 13.
Definition JS_PROP_THROW : Z := Z.shiftl 1 14.
Definition JS_PROP_THROW_STRICT : Z := Z.shiftl 1 15.
Definition JS_PROP_NO_ADD : Z := Z.shiftl 1 16.

(** [flags & f] as a condition. *)
Definition has (flags f : Z) : bool := negb (Z.land flags f =? 0).
(** [flags & ~f] *)
Definition clear_flags (flags f : Z) : Z := Z.ldiff flags f.

(** What an operation returns: -1 is [TypeError], [ReferenceError] or [OutOfMemory]. *)
Inductive JSResult : Type := TRUE | FALSE | TypeError | ReferenceError | OutOfMemory.

(** [strict]: the running function is strict. *)
Definition JS_ThrowTypeErrorOrFalse (strict : bool) (flags : Z) : JSResult :=
  if has flags JS_PROP_THROW || (has flags JS_PROP_THROW_STRICT && strict) then TypeError else FALSE.
Definition JS_ThrowTypeErrorReadOnly (strict : bool) (flags : Z) : JSResult :=
  if has flags JS_PROP_THROW || (has flags JS_PROP_THROW_STRICT && strict) then TypeError else FALSE.

Definition check_define_prop_flags (prop_flags flags : Z) : bool :=
  if negb (has prop_flags JS_PROP_CONFIGURABLE) &&
     (Z.land flags (Z.lor JS_PROP_HAS_CONFIGURABLE JS_PROP_CONFIGURABLE) =? Z.lor JS_PROP_HAS_CONFIGURABLE JS_PROP_CONFIGURABLE)
  then false
  else if negb (has prop_flags JS_PROP_CONFIGURABLE) && has flags JS_PROP_HAS_ENUMERABLE &&
     negb (Z.land flags JS_PROP_ENUMERABLE =? Z.land prop_flags JS_PROP_ENUMERABLE)
  then false
  else if has flags (Z.lor (Z.lor JS_PROP_HAS_VALUE JS_PROP_HAS_WRITABLE) (Z.lor JS_PROP_HAS_GET JS_PROP_HAS_SET)) &&
     negb (has prop_flags JS_PROP_CONFIGURABLE)
  then
    let has_accessor := has flags (Z.lor JS_PROP_HAS_GET JS_PROP_HAS_SET) in
    let is_getset := Z.land prop_flags JS_PROP_TMASK =? JS_PROP_GETSET in
    if xorb has_accessor is_getset then false
    else if negb has_accessor && negb is_getset && negb (has prop_flags JS_PROP_WRITABLE) &&
       (Z.land flags (Z.lor JS_PROP_HAS_WRITABLE JS_PROP_WRITABLE) =? Z.lor JS_PROP_HAS_WRITABLE JS_PROP_WRITABLE)
    then false
    else true
  else true.

Section objects.
Context {A : Type} {ops : AtomOps A}.
Abbreviation JSRuntime := (JSRuntime A).
Variable strict : bool.

(** The flags of the property with the index [i], where the code reads [prs->flags]. *)
Definition get_flags (p i : Z) (rt : JSRuntime) : res Z :=
  o ← get_object rt p;
  sh ← get_shape rt (shape o);
  pr ← of_opt (znth (prop sh) i);
  Ret (flags pr).

Definition get_proto (p : Z) (rt : JSRuntime) : res Z :=
  o ← get_object rt p;
  sh ← get_shape rt (shape o);
  Ret (proto sh).

(** ** Own properties *)
Definition JS_GetOwnProperty (p atom0 : Z) (rt : JSRuntime) : res (option (Z * Z)) :=
  prs ← find_own_property p atom0 rt;
  match prs with
  | Some (f, i) =>
      _ ← assert_ (Z.land f JS_PROP_TMASK =? JS_PROP_NORMAL);
      v ← get_value p i rt;
      Ret (Some (Z.land f JS_PROP_C_W_E, v))
  | None => Ret None
  end.

(** [extensible] is [p->extensible]. *)
Definition JS_CreateProperty (p atom0 val flags0 : Z) (extensible : bool) (rt : JSRuntime) : res (JSResult * JSRuntime) :=
  if negb extensible then Ret (JS_ThrowTypeErrorOrFalse strict flags0, rt)
  else
    _ ← assert_ (negb (has flags0 (Z.lor JS_PROP_HAS_GET JS_PROP_HAS_SET)));
    let prop_flags := Z.land flags0 JS_PROP_C_W_E in
    '(i, rt) ← add_property p atom0 prop_flags rt;
    match i with
    | None => Ret (OutOfMemory, rt)
    | Some i =>
        rt ← set_value p i (if has flags0 JS_PROP_HAS_VALUE then val else JS_UNDEFINED_VALUE) rt;
        Ret (TRUE, rt)
    end.

(** The part of [JS_DefineProperty] for the value and [writable] of the property
    [i]; [Some]: the function returns. *)
Definition define_value (p i val flags0 : Z) (rt : JSRuntime) : res (option JSResult * JSRuntime) :=
  f ← get_flags p i rt;
  if has flags0 (Z.lor (Z.lor JS_PROP_HAS_VALUE JS_PROP_HAS_WRITABLE) (Z.lor JS_PROP_HAS_GET JS_PROP_HAS_SET)) then
    if (Z.land f (Z.lor JS_PROP_CONFIGURABLE JS_PROP_WRITABLE) =? 0) && has flags0 JS_PROP_HAS_VALUE then
      v ← get_value p i rt;
      if negb (val =? v) then Ret (Some (JS_ThrowTypeErrorOrFalse strict flags0), rt) else Ret (Some TRUE, rt)
    else
      rt ← (if has flags0 JS_PROP_HAS_VALUE then set_value p i val rt else Ret rt);
      if has flags0 JS_PROP_HAS_WRITABLE then
        '(ok, rt) ← js_update_property_flags p i (Z.lor (clear_flags f JS_PROP_WRITABLE) (Z.land flags0 JS_PROP_WRITABLE)) rt;
        Ret (if ok : bool then None else Some OutOfMemory, rt)
      else Ret (None, rt)
  else Ret (None, rt).

(** Its last part: [configurable] and [enumerable]. *)
Definition define_attributes (p i flags0 : Z) (rt : JSRuntime) : res (JSResult * JSRuntime) :=
  let mask := Z.lor (if has flags0 JS_PROP_HAS_CONFIGURABLE then JS_PROP_CONFIGURABLE else 0)
                    (if has flags0 JS_PROP_HAS_ENUMERABLE then JS_PROP_ENUMERABLE else 0) in
  f ← get_flags p i rt;
  '(ok, rt) ← js_update_property_flags p i (Z.lor (clear_flags f mask) (Z.land flags0 mask)) rt;
  Ret (if ok : bool then TRUE else OutOfMemory, rt).

Definition JS_DefineProperty (p atom0 val flags0 : Z) (extensible : bool) (rt : JSRuntime) : res (JSResult * JSRuntime) :=
  prs ← find_own_property p atom0 rt;
  match prs with
  | Some (f, i) =>
      if negb (check_define_prop_flags f flags0) then Ret (JS_ThrowTypeErrorOrFalse strict flags0, rt)
      else
        _ ← assert_ ((Z.land f (Z.lor JS_PROP_TMASK JS_PROP_LENGTH) =? 0) && negb (has flags0 (Z.lor JS_PROP_HAS_GET JS_PROP_HAS_SET)));
        '(r, rt) ← define_value p i val flags0 rt;
        match r with
        | Some r => Ret (r, rt)
        | None => define_attributes p i flags0 rt
        end
  | None => JS_CreateProperty p atom0 val flags0 extensible rt
  end.

Definition JS_DeleteProperty (p atom0 flags0 : Z) (rt : JSRuntime) : res (JSResult * JSRuntime) :=
  '(r, rt) ← delete_property p atom0 rt;
  Ret (if r =? 1 then TRUE else if r =? 0 then JS_ThrowTypeErrorOrFalse strict flags0 else OutOfMemory, rt).

(** ** The chain of prototypes *)

(** The loops take [fuel] steps at most. *)
Fixpoint get_property_walk (fuel : nat) (p atom0 : Z) (rt : JSRuntime) : res (option Z) :=
  match fuel with
  | O => NoFuel
  | S fuel =>
      prs ← find_own_property p atom0 rt;
      match prs with
      | Some (f, i) =>
          _ ← assert_ (Z.land f JS_PROP_TMASK =? 0);
          v ← get_value p i rt;
          Ret (Some v)
      | None =>
          q ← get_proto p rt;
          if q =? 0 then Ret None else get_property_walk fuel q atom0 rt
      end
  end.

(** [None]: the property is not there, the value is undefined. *)
Definition JS_GetPropertyInternal (p atom0 : Z) (rt : JSRuntime) : res (option Z) :=
  get_property_walk (size (objects rt)) p atom0 rt.

Fixpoint has_property_walk (fuel : nat) (p atom0 : Z) (rt : JSRuntime) : res bool :=
  match fuel with
  | O => NoFuel
  | S fuel =>
      prs ← find_own_property p atom0 rt;
      match prs with
      | Some _ => Ret true
      | None =>
          q ← get_proto p rt;
          if q =? 0 then Ret false else has_property_walk fuel q atom0 rt
      end
  end.

Definition JS_HasProperty (p atom0 : Z) (rt : JSRuntime) : res bool :=
  has_property_walk (size (objects rt)) p atom0 rt.

(** The loop of [JS_SetPropertyInternal] over the prototypes, from the object
    [p1]: whether a property that may not be written is met. *)
Fixpoint set_property_walk (fuel : nat) (p1 atom0 : Z) (rt : JSRuntime) : res bool :=
  match fuel with
  | O => NoFuel
  | S fuel =>
      q ← get_proto p1 rt;
      if q =? 0 then Ret false
      else
        prs ← find_own_property q atom0 rt;
        match prs with
        | Some (f, _) =>
            _ ← assert_ (Z.land f JS_PROP_TMASK =? 0);
            if negb (has f JS_PROP_WRITABLE) then Ret true else set_property_walk fuel q atom0 rt
        | None => set_property_walk fuel q atom0 rt
        end
  end.

(** Its last part: the property is new. *)
Definition set_property_add (p atom0 val flags0 : Z) (extensible : bool) (rt : JSRuntime) : res (JSResult * JSRuntime) :=
  if has flags0 JS_PROP_NO_ADD then Ret (ReferenceError, rt)
  else if negb extensible then Ret (JS_ThrowTypeErrorOrFalse strict flags0, rt)
  else
    '(i, rt) ← add_property p atom0 JS_PROP_C_W_E rt;
    match i with
    | None => Ret (OutOfMemory, rt)
    | Some i => rt ← set_value p i val rt; Ret (TRUE, rt)
    end.

Definition JS_SetPropertyInternal (p atom0 val flags0 : Z) (extensible : bool) (rt : JSRuntime) : res (JSResult * JSRuntime) :=
  prs ← find_own_property p atom0 rt;
  match prs with
  | Some (f, i) =>
      if Z.land f (Z.lor (Z.lor JS_PROP_TMASK JS_PROP_WRITABLE) JS_PROP_LENGTH) =? JS_PROP_WRITABLE then
        rt ← set_value p i val rt;
        Ret (TRUE, rt)
      else
        _ ← assert_ (Z.land f (Z.lor JS_PROP_TMASK JS_PROP_LENGTH) =? 0);
        Ret (JS_ThrowTypeErrorReadOnly strict flags0, rt)
  | None =>
      read_only ← set_property_walk (size (objects rt)) p atom0 rt;
      if (read_only : bool) then Ret (JS_ThrowTypeErrorReadOnly strict flags0, rt)
      else set_property_add p atom0 val flags0 extensible rt
  end.

(** Whether [p] is met from [p1]. *)
Fixpoint cycle_walk (fuel : nat) (p p1 : Z) (rt : JSRuntime) : res bool :=
  match fuel with
  | O => NoFuel
  | S fuel =>
      if p1 =? p then Ret true
      else
        q ← get_proto p1 rt;
        if q =? 0 then Ret false else cycle_walk fuel p q rt
  end.

Definition JS_SetPrototypeInternal (p proto0 : Z) (throw_flag extensible : bool) (rt : JSRuntime) : res (JSResult * JSRuntime) :=
  q ← get_proto p rt;
  if q =? proto0 then Ret (TRUE, rt)
  else if negb extensible then Ret (if throw_flag then TypeError else FALSE, rt)
  else
    cycle ← (if negb (proto0 =? 0) then cycle_walk (size (objects rt)) p proto0 rt else Ret false);
    if (cycle : bool) then Ret (if throw_flag then TypeError else FALSE, rt)
    else
      '(ok, rt) ← set_prototype p proto0 rt;
      Ret (if ok : bool then TRUE else OutOfMemory, rt).
End objects.

(** ** Programs *)

(** The objects and those whose flag [extensible] is not set. *)
Record heap (A : Type) : Type := mkHeap { runtime : JSRuntime A; closed : gset Z }.
Arguments mkHeap {A} _ _.
Arguments runtime {A} _.
Arguments closed {A} _.

Inductive op : Type :=
  | ONew (proto0 : Z)
  | OFree (p : Z)
  | OGetOwn (p atom0 : Z)
  | ODefine (p atom0 val flags0 : Z)
  | ODelete (p atom0 flags0 : Z)
  | OGet (p atom0 : Z)
  | OHas (p atom0 : Z)
  | OSet (p atom0 val flags0 : Z)
  | OSetPrototype (p proto0 : Z) (throw_flag : bool)
  | OPreventExtensions (p : Z)
  | OIsExtensible (p : Z).

Inductive reply : Type :=
  | RObject (p : Z)
  | RRet (r : JSResult)
  | RProperty (x : option (Z * Z))
  | RValue (v : option Z)
  | RBool (b : bool)
  | RNone.

Section programs.
Context {A : Type} {ops : AtomOps A}.
Variable strict : bool.
Variable held : list Z.
Abbreviation heap := (heap A).

(** What a program can name: an object, and an atom that it holds.  An object is
    freed when no object has it as its prototype. *)
Definition is_object (p : Z) (rt : JSRuntime A) : bool := bool_decide (is_Some (objects rt !! p)).
Definition is_proto (p : Z) (rt : JSRuntime A) : bool := (p =? 0) || is_object p rt.
Definition is_key (atom0 : Z) : bool := negb (atom0 =? JS_ATOM_NULL) && bool_decide (atom0 ∈ held).
Definition is_referenced (p : Z) (rt : JSRuntime A) : bool := existsb (fun x => proto x.2 =? p) (map_to_list (shapes rt)).

(** The flags of a descriptor: an attribute that is set is present. *)
Definition descriptor_flags (f : Z) : bool :=
  negb (has f (Z.lor JS_PROP_HAS_GET JS_PROP_HAS_SET)) &&
  (Z.land f JS_PROP_C_W_E =? Z.land (Z.land f JS_PROP_C_W_E) (Z.shiftr f JS_PROP_HAS_SHIFT)).

(** Whether the program can do this. *)
Definition possible (x : op) (rt : JSRuntime A) : bool :=
  match x with
  | ONew q => is_proto q rt
  | OFree p => is_object p rt && negb (is_referenced p rt)
  | OGetOwn p a | OGet p a | OHas p a => is_object p rt && is_key a
  | ODefine p a _ f => is_object p rt && is_key a && descriptor_flags f
  | ODelete p a _ | OSet p a _ _ => is_object p rt && is_key a
  | OSetPrototype p q _ => is_object p rt && is_proto q rt
  | OPreventExtensions p | OIsExtensible p => is_object p rt
  end.

Definition perform (x : op) (h : heap) : res (reply * heap) :=
  let rt := runtime h in
  let extensible p := bool_decide (p ∉ closed h) in
  match x with
  | ONew q => '(p, rt) ← JS_NewObjectProto q rt; Ret (RObject p, mkHeap rt (closed h))
  | OFree p => rt ← free_object p rt; Ret (RNone, mkHeap rt (closed h ∖ {[p]}))
  | OGetOwn p a => x ← JS_GetOwnProperty p a rt; Ret (RProperty x, h)
  | ODefine p a v f => '(r, rt) ← JS_DefineProperty strict p a v f (extensible p) rt; Ret (RRet r, mkHeap rt (closed h))
  | ODelete p a f => '(r, rt) ← JS_DeleteProperty strict p a f rt; Ret (RRet r, mkHeap rt (closed h))
  | OGet p a => v ← JS_GetPropertyInternal p a rt; Ret (RValue v, h)
  | OHas p a => b ← JS_HasProperty p a rt; Ret (RBool b, h)
  | OSet p a v f => '(r, rt) ← JS_SetPropertyInternal strict p a v f (extensible p) rt; Ret (RRet r, mkHeap rt (closed h))
  | OSetPrototype p q t => '(r, rt) ← JS_SetPrototypeInternal p q t (extensible p) rt; Ret (RRet r, mkHeap rt (closed h))
  | OPreventExtensions p => Ret (RRet TRUE, mkHeap rt (closed h ∪ {[p]}))
  | OIsExtensible p => Ret (RBool (extensible p), h)
  end.

(** What cannot be done is skipped. *)
Fixpoint run (l : list op) (h : heap) : res (list (op * reply) * heap) :=
  match l with
  | [] => Ret ([], h)
  | x :: l =>
      if possible x (runtime h) then
        '(r, h) ← perform x h;
        '(rs, h) ← run l h;
        Ret ((x, r) :: rs, h)
      else run l h
  end.

(** No objects; [m] says which allocations work. *)
Definition init (s : A) (m : list bool) : heap :=
  mkHeap (mkRuntime s ∅ ∅ 4 0 (replicate 16 0) m 1) ∅.
End programs.
