(* ===== verification/ObjectSpec.v ===== *)
(** * Ordinary objects of ECMAScript

    The internal methods of ordinary objects (ECMAScript 2020, 9.1) on objects
    that are lists of properties with attributes: [ValidateAndApplyPropertyDescriptor],
    [OrdinaryGet], [OrdinarySet] and the others, for data properties.  The result
    of a program is a relation, since memory may run out and since the heap
    chooses where objects are.

    The code deviates from [OrdinarySet] in one case, which is not in [performs]:
    [refuses_hidden].  [executes] allows it beside the operations of
    ECMAScript. *)
From Stdlib Require Import ZArith Lia Bool.
From stdpp Require Import base numbers list gmap.
From S2P Require Import Prelude Chains ShapeState ObjectState.

Record property : Type := mkProperty { p_value : Z; p_writable : bool; p_enumerable : bool; p_configurable : bool }.

(** A field is absent or present. *)
Record descriptor : Type := mkDescriptor {
  d_value : option Z; d_writable : option bool; d_enumerable : option bool; d_configurable : option bool
}.

Record object : Type := mkObj { o_proto : Z; o_extensible : bool; o_props : list (Z * property) }.

Abbreviation obj_map := (gmap Z object) (only parsing).

Fixpoint find (k : Z) (l : list (Z * property)) : option property :=
  match l with
  | [] => None
  | (b, x) :: l => if b =? k then Some x else find k l
  end.

Definition update (k : Z) (x : property) (l : list (Z * property)) : list (Z * property) :=
  map (fun y => if y.1 =? k then (k, x) else y) l.

Definition remove (k : Z) (l : list (Z * property)) : list (Z * property) := filter (fun x => x.1 <> k) l.

(** ** Defining a property *)
Definition is_present {X} (x : option X) : bool := match x with Some _ => true | None => false end.

(** The field is present and it is not [b]. *)
Definition differs (x : option bool) (b : bool) : bool := match x with Some c => negb (eqb c b) | None => false end.

Definition apply_descriptor (d : descriptor) (x : property) : property :=
  mkProperty (default (p_value x) (d_value d)) (default (p_writable x) (d_writable d))
    (default (p_enumerable x) (d_enumerable d)) (default (p_configurable x) (d_configurable d)).

(** Absent fields are undefined or false in a new property. *)
Definition new_property (d : descriptor) : property := apply_descriptor d (mkProperty JS_UNDEFINED_VALUE false false false).

(** The checks of [ValidateAndApplyPropertyDescriptor] on an existing property. *)
Definition validate (d : descriptor) (x : property) : bool :=
  if negb (p_configurable x) && (bool_decide (d_configurable d = Some true) || differs (d_enumerable d) (p_enumerable x)) then false
  else if negb (is_present (d_value d)) && negb (is_present (d_writable d)) then true
  else if negb (p_configurable x) && negb (p_writable x) then
    negb (bool_decide (d_writable d = Some true)) &&
    match d_value d with Some v => v =? p_value x | None => true end
  else true.

(** The result and the properties. *)
Definition define_own_property (k : Z) (d : descriptor) (o : object) : bool * list (Z * property) :=
  match find k (o_props o) with
  | Some x => if validate d x then (true, update k (apply_descriptor d x) (o_props o)) else (false, o_props o)
  | None => if o_extensible o then (true, o_props o ++ [(k, new_property d)]) else (false, o_props o)
  end.

(** ** The chain of prototypes *)
Definition next_proto (h : obj_map) (p : Z) : option Z := o_proto <$> h !! p.

(** [l] is [p], its prototype, and so on to the object without a prototype. *)
Definition chain (h : obj_map) (p : Z) (l : list Z) : Prop := linked (next_proto h) p l.

Definition own (h : obj_map) (k p : Z) : option property := match h !! p with Some o => find k (o_props o) | None => None end.

(** The nearest property. *)
Fixpoint lookup_chain (h : obj_map) (k : Z) (l : list Z) : option property :=
  match l with
  | [] => None
  | p :: l => match own h k p with Some x => Some x | None => lookup_chain h k l end
  end.

(** ** Setting a property *)

(** [OrdinarySet] on the object itself: the nearest property tells whether the
    value may be set. *)
Definition ordinary_set (h : obj_map) (k : Z) (l : list Z) (extensible : bool) : bool :=
  match lookup_chain h k l with
  | Some x => p_writable x && (extensible || match l with p :: _ => is_present (own h k p) | [] => false end)
  | None => extensible
  end.

(** The property that is inherited from the prototypes [l], which is the nearest,
    may not be written. *)
Definition inherits_read_only (h : obj_map) (k : Z) (l : list Z) : bool :=
  match lookup_chain h k l with
  | Some x => negb (p_writable x)
  | None => false
  end.

(** The inherited property may be written, but it hides one that may not. *)
Definition hides_read_only (h : obj_map) (k : Z) (l : list Z) : Prop :=
  (exists x, lookup_chain h k l = Some x /\ p_writable x = true) /\
  exists q x, q ∈ l /\ own h k q = Some x /\ p_writable x = false.

Definition set_props (l : list (Z * property)) (o : object) : object := mkObj (o_proto o) (o_extensible o) l.
Definition set_value_prop (v : Z) (x : property) : property := mkProperty v (p_writable x) (p_enumerable x) (p_configurable x).

(** ** Programs *)

(** The meaning of the flags of the code. *)
Definition present_if {X} (b : bool) (x : X) : option X := if b then Some x else None.
Definition to_descriptor (v flags : Z) : descriptor :=
  mkDescriptor (present_if (has flags JS_PROP_HAS_VALUE) v)
    (present_if (has flags JS_PROP_HAS_WRITABLE) (has flags JS_PROP_WRITABLE))
    (present_if (has flags JS_PROP_HAS_ENUMERABLE) (has flags JS_PROP_ENUMERABLE))
    (present_if (has flags JS_PROP_HAS_CONFIGURABLE) (has flags JS_PROP_CONFIGURABLE)).

Definition to_property (x : Z * Z) : property :=
  mkProperty x.2 (has x.1 JS_PROP_WRITABLE) (has x.1 JS_PROP_ENUMERABLE) (has x.1 JS_PROP_CONFIGURABLE).

(** The prototypes of [p]. *)
Definition protos (h : obj_map) (p : Z) (l : list Z) : Prop := exists q, next_proto h p = Some q /\ chain h q l.

Section programs.
Variable strict : bool.
(** Some allocations do not work: only then can memory run out. *)
Variable poor : Prop.

(** The result that says that the operation was refused. *)
Definition refused (flags : Z) : JSResult := JS_ThrowTypeErrorOrFalse strict flags.

Definition set_extensible (b : bool) (o : object) : object := mkObj (o_proto o) b (o_props o).
Definition set_o_proto (q : Z) (o : object) : object := mkObj q (o_extensible o) (o_props o).

(** One operation. *)
Inductive performs (h : obj_map) : op -> reply -> obj_map -> Prop :=
  | does_new q p : p <> 0 -> h !! p = None -> performs h (ONew q) (RObject p) (<[p := mkObj q true []]> h)
  | new_no_memory q : poor -> performs h (ONew q) (RObject 0) h
  | does_free p : performs h (OFree p) RNone (delete p h)
  | does_get_own p k o x : h !! p = Some o -> to_property <$> x = find k (o_props o) -> performs h (OGetOwn p k) (RProperty x) h
  | does_define p k v f o b l : h !! p = Some o -> define_own_property k (to_descriptor v f) o = (b, l) ->
      performs h (ODefine p k v f) (RRet (if b then TRUE else refused f)) (<[p := set_props l o]> h)
  | define_no_memory p k v f : poor -> performs h (ODefine p k v f) (RRet OutOfMemory) h
  (** the value has been changed, the attributes have not *)
  | define_no_memory_value p k v f o x : poor -> h !! p = Some o -> find k (o_props o) = Some x -> validate (to_descriptor v f) x = true ->
      has f JS_PROP_HAS_VALUE = true ->
      performs h (ODefine p k v f) (RRet OutOfMemory) (<[p := set_props (update k (set_value_prop v x) (o_props o)) o]> h)
  | does_delete p k f o x : h !! p = Some o -> find k (o_props o) = Some x -> p_configurable x = true ->
      performs h (ODelete p k f) (RRet TRUE) (<[p := set_props (remove k (o_props o)) o]> h)
  | delete_refused p k f o x : h !! p = Some o -> find k (o_props o) = Some x -> p_configurable x = false ->
      performs h (ODelete p k f) (RRet (refused f)) h
  | delete_absent p k f o : h !! p = Some o -> find k (o_props o) = None -> performs h (ODelete p k f) (RRet TRUE) h
  | delete_no_memory p k f : poor -> performs h (ODelete p k f) (RRet OutOfMemory) h
  | does_get p k l : chain h p l -> performs h (OGet p k) (RValue (p_value <$> lookup_chain h k l)) h
  | does_has p k l : chain h p l -> performs h (OHas p k) (RBool (is_present (lookup_chain h k l))) h
  | set_own p k v f o x : h !! p = Some o -> find k (o_props o) = Some x -> p_writable x = true ->
      performs h (OSet p k v f) (RRet TRUE) (<[p := set_props (update k (set_value_prop v x) (o_props o)) o]> h)
  | set_own_refused p k v f o x : h !! p = Some o -> find k (o_props o) = Some x -> p_writable x = false ->
      performs h (OSet p k v f) (RRet (refused f)) h
  | set_refused p k v f o l : h !! p = Some o -> find k (o_props o) = None -> protos h p l -> inherits_read_only h k l = true ->
      performs h (OSet p k v f) (RRet (refused f)) h
  | set_new p k v f o l : h !! p = Some o -> find k (o_props o) = None -> protos h p l -> inherits_read_only h k l = false ->
      has f JS_PROP_NO_ADD = false -> o_extensible o = true ->
      performs h (OSet p k v f) (RRet TRUE) (<[p := set_props (o_props o ++ [(k, mkProperty v true true true)]) o]> h)
  | set_no_add p k v f o l : h !! p = Some o -> find k (o_props o) = None -> protos h p l -> inherits_read_only h k l = false ->
      has f JS_PROP_NO_ADD = true -> performs h (OSet p k v f) (RRet ReferenceError) h
  | set_not_extensible p k v f o l : h !! p = Some o -> find k (o_props o) = None -> protos h p l -> inherits_read_only h k l = false ->
      has f JS_PROP_NO_ADD = false -> o_extensible o = false -> performs h (OSet p k v f) (RRet (refused f)) h
  | set_no_memory p k v f : poor -> performs h (OSet p k v f) (RRet OutOfMemory) h
  | proto_same p q t o : h !! p = Some o -> o_proto o = q -> performs h (OSetPrototype p q t) (RRet TRUE) h
  | proto_not_extensible p q t o : h !! p = Some o -> o_proto o <> q -> o_extensible o = false ->
      performs h (OSetPrototype p q t) (RRet (if t then TypeError else FALSE)) h
  | proto_cycle p q t o l : h !! p = Some o -> o_proto o <> q -> o_extensible o = true -> chain h q l -> p ∈ l ->
      performs h (OSetPrototype p q t) (RRet (if t then TypeError else FALSE)) h
  | does_set_proto p q t o l : h !! p = Some o -> o_proto o <> q -> o_extensible o = true -> chain h q l -> p ∉ l ->
      performs h (OSetPrototype p q t) (RRet TRUE) (<[p := set_o_proto q o]> h)
  | proto_no_memory p q t : poor -> performs h (OSetPrototype p q t) (RRet OutOfMemory) h
  | does_prevent p o : h !! p = Some o -> performs h (OPreventExtensions p) (RRet TRUE) (<[p := set_extensible false o]> h)
  | does_is_extensible p o : h !! p = Some o -> performs h (OIsExtensible p) (RBool (o_extensible o)) h.

(** One after the other. *)
Inductive performs_all : obj_map -> list (op * reply) -> obj_map -> Prop :=
  | performs_nil h : performs_all h [] h
  | performs_cons h x r h1 l h2 : performs h x r h1 -> performs_all h1 l h2 -> performs_all h ((x, r) :: l) h2.

(** ** The deviation *)

(** An assignment is refused, without any effect, because of a read-only property
    that a nearer one hides. *)
Definition refuses_hidden (h : obj_map) (x : op) (r : reply) : Prop :=
  exists p k v f o l, x = OSet p k v f /\ r = RRet (refused f) /\ h !! p = Some o /\ find k (o_props o) = None /\
    protos h p l /\ hides_read_only h k l.

Inductive executes : obj_map -> list (op * reply) -> obj_map -> Prop :=
  | executes_nil h : executes h [] h
  | executes_ordinary h x r h1 l h2 : performs h x r h1 -> executes h1 l h2 -> executes h ((x, r) :: l) h2
  | executes_hidden h x r l h2 : refuses_hidden h x r -> executes h l h2 -> executes h ((x, r) :: l) h2.

(** A program without the deviation is one of ECMAScript, and any program up to
    its first one. *)
Lemma executes_performs h l h' : executes h l h' ->
  performs_all h l h' \/
  exists l1 x r l2 h1, l = l1 ++ (x, r) :: l2 /\ performs_all h l1 h1 /\ refuses_hidden h1 x r.
Proof.
  induction 1 as [h | h x r h1 l h2 P _ IH | h x r l h2 Hr _ _].
  - left. constructor.
  - destruct IH as [P' | (l1 & y & s & l2 & h3 & -> & P' & Hr)]; [left; by econstructor | right].
    exists ((x, r) :: l1), y, s, l2, h3. split_and!; [done | by econstructor | done].
  - right. exists [], x, r, l, h. split_and!; [done | constructor | done].
Qed.
End programs.
