(* ===== verification/ObjectSteps.v ===== *)
(** * Flags and descriptors, operations on one object

    The tests of [JS_DefineProperty] on the bits of the flags are the ones of
    [ValidateAndApplyPropertyDescriptor] on the fields of a descriptor.  What the
    operations of ObjectState.v do to the property list of the object, on states
    that keep the invariant of shapes. *)
From Stdlib Require Import ZArith Lia Bool.
From stdpp Require Import base numbers list gmap.
From S2P Require Import Prelude Chains JSValue AtomState ShapeState ShapeSpec ShapeFacts ShapeTable ShapeInv ShapeSteps ShapeUpdate ShapeAdd ShapeShare ObjectState ObjectSpec.

(** ** Bits *)
Lemma has_bit a k : 0 <= k -> has a (Z.shiftl 1 k) = Z.testbit a k.
Proof.
  intros Hk. unfold has. rewrite Z.shiftl_1_l. destruct (Z.testbit a k) eqn:E.
  - apply negb_true_iff, Z.eqb_neq. intros H. apply (f_equal (fun x => Z.testbit x k)) in H.
    rewrite Z.land_spec, Z.pow2_bits_true, E, Z.bits_0 in H by lia. done.
  - apply negb_false_iff, Z.eqb_eq. apply Z.bits_inj'. intros i Hi. rewrite Z.land_spec, Z.pow2_bits_eqb, Z.bits_0 by lia.
    destruct (Z.eqb_spec k i) as [<- | D]; [by rewrite E | apply andb_false_r].
Qed.

Lemma has_lor a x y : has a (Z.lor x y) = has a x || has a y.
Proof.
  unfold has. rewrite Z.land_lor_distr_r. destruct (Z.eqb_spec (Z.land a x) 0) as [-> | D].
  - rewrite Z.lor_0_l. done.
  - apply negb_true_iff, Z.eqb_neq. intros H. apply Z.lor_eq_0_iff in H as [H _]. done.
Qed.

(** Both bits are set. *)
Lemma both_bits a j k : 0 <= j -> 0 <= k -> j <> k ->
  (Z.land a (Z.lor (Z.shiftl 1 j) (Z.shiftl 1 k)) =? Z.lor (Z.shiftl 1 j) (Z.shiftl 1 k)) = Z.testbit a j && Z.testbit a k.
Proof.
  intros Hj Hk D. rewrite !Z.shiftl_1_l. destruct (Z.eqb_spec (Z.land a (Z.lor (2 ^ j) (2 ^ k))) (Z.lor (2 ^ j) (2 ^ k))) as [H | H].
  - assert (forall i, 0 <= i -> Z.testbit (Z.lor (2 ^ j) (2 ^ k)) i = true -> Z.testbit a i = true) as Hi.
    { intros i Hi E. rewrite <- H, Z.land_spec in E. by apply andb_true_iff in E as [? _]. }
    rewrite !Hi; [done | lia | | lia |]; rewrite Z.lor_spec, ?Z.pow2_bits_true by lia; [apply orb_true_r | done].
  - symmetry. apply andb_false_iff. destruct (Z.testbit a j) eqn:Ej; [| by left]. right. destruct (Z.testbit a k) eqn:Ek; [| done].
    exfalso. apply H. apply Z.bits_inj'. intros i Hi. rewrite Z.land_spec, Z.lor_spec, !Z.pow2_bits_eqb by lia.
    destruct (Z.eqb_spec j i) as [E1 | _]; [by rewrite <- E1, Ej |]. destruct (Z.eqb_spec k i) as [E2 | _]; [by rewrite <- E2, Ek | apply andb_false_r].
Qed.

Lemma same_bit a b k : 0 <= k -> (Z.land a (Z.shiftl 1 k) =? Z.land b (Z.shiftl 1 k)) = eqb (Z.testbit a k) (Z.testbit b k).
Proof.
  intros Hk. rewrite Z.shiftl_1_l. assert (forall c, Z.land c (2 ^ k) = if Z.testbit c k then 2 ^ k else 0) as E.
  { intros c. apply Z.bits_inj'. intros i Hi. rewrite Z.land_spec, Z.pow2_bits_eqb by lia.
    destruct (Z.eqb_spec k i) as [<- | D]; destruct (Z.testbit c k) eqn:Ec; rewrite ?Z.bits_0, ?Z.pow2_bits_eqb, ?Z.eqb_refl, ?andb_false_r by lia; try done.
    by rewrite (proj2 (Z.eqb_neq _ _)). }
  rewrite !E. assert (2 ^ k <> 0) by (apply Z.pow_nonzero; lia).
  destruct (Z.testbit a k), (Z.testbit b k); cbn [eqb]; rewrite ?Z.eqb_refl; try done; apply Z.eqb_neq; lia.
Qed.

(** Tests of flags become bits. *)
Ltac flag_bits :=
  unfold JS_PROP_CONFIGURABLE, JS_PROP_WRITABLE, JS_PROP_ENUMERABLE, JS_PROP_HAS_CONFIGURABLE, JS_PROP_HAS_WRITABLE, JS_PROP_HAS_ENUMERABLE,
    JS_PROP_HAS_VALUE; rewrite ?both_bits, ?same_bit, ?has_bit by lia.

(** ** Flags of data properties *)
Definition small (f : Z) : Prop := Z.land f JS_PROP_C_W_E = f.

Lemma small_range f : small f -> 0 <= f < 8.
Proof. intros <-. change JS_PROP_C_W_E with (2 ^ 3 - 1). rewrite land_mask by lia. by apply Z.mod_pos_bound. Qed.

Lemma small_land a : small (Z.land a JS_PROP_C_W_E).
Proof. unfold small. rewrite <- Z.land_assoc. done. Qed.

Lemma small_zero f x : small f -> Z.land JS_PROP_C_W_E x = 0 -> Z.land f x = 0.
Proof. intros <- H. by rewrite <- Z.land_assoc, H, Z.land_0_r. Qed.

(** The fast case of [JS_SetPropertyInternal]. *)
Lemma small_writable f : small f ->
  (Z.land f (Z.lor (Z.lor JS_PROP_TMASK JS_PROP_WRITABLE) JS_PROP_LENGTH) =? JS_PROP_WRITABLE) = has f JS_PROP_WRITABLE.
Proof.
  intros Hf. pose proof (small_range f Hf). assert (f = 0 \/ f = 1 \/ f = 2 \/ f = 3 \/ f = 4 \/ f = 5 \/ f = 6 \/ f = 7) as
    [-> | [-> | [-> | [-> | [-> | [-> | [-> | ->]]]]]]] by lia; reflexivity.
Qed.

(** Some bits are replaced. *)
Definition replace_bits (f g mask : Z) : Z := Z.lor (clear_flags f mask) (Z.land g mask).

Lemma replace_small f g mask : small f -> Z.land mask JS_PROP_C_W_E = mask -> small (replace_bits f g mask).
Proof.
  unfold small, replace_bits, clear_flags. intros Hf Hm. rewrite Z.land_lor_distr_l, <- Z.land_assoc, Hm. f_equal.
  apply Z.bits_inj'. intros i Hi. rewrite Z.land_spec, Z.ldiff_spec. rewrite <- Hf at 2. rewrite Z.land_spec.
  destruct (Z.testbit f i), (Z.testbit mask i), (Z.testbit JS_PROP_C_W_E i); done.
Qed.

Lemma replace_testbit f g mask i : 0 <= i -> Z.testbit (replace_bits f g mask) i = if Z.testbit mask i then Z.testbit g i else Z.testbit f i.
Proof.
  intros Hi. unfold replace_bits, clear_flags. rewrite Z.lor_spec, Z.ldiff_spec, Z.land_spec.
  destruct (Z.testbit f i), (Z.testbit g i), (Z.testbit mask i); done.
Qed.

Lemma to_property_eq x : to_property x = mkProperty x.2 (Z.testbit x.1 1) (Z.testbit x.1 2) (Z.testbit x.1 0).
Proof. unfold to_property. by flag_bits. Qed.

Lemma to_descriptor_eq v f : to_descriptor v f =
  mkDescriptor (present_if (Z.testbit f 13) v) (present_if (Z.testbit f 9) (Z.testbit f 1))
    (present_if (Z.testbit f 10) (Z.testbit f 2)) (present_if (Z.testbit f 8) (Z.testbit f 0)).
Proof. unfold to_descriptor. by flag_bits. Qed.

(** ** The tests *)
Lemma check_define_spec f g : small f -> has g (Z.lor JS_PROP_HAS_GET JS_PROP_HAS_SET) = false ->
  check_define_prop_flags f g =
    negb (negb (Z.testbit f 0) && (Z.testbit g 8 && Z.testbit g 0)) &&
    negb (negb (Z.testbit f 0) && Z.testbit g 10 && negb (eqb (Z.testbit g 2) (Z.testbit f 2))) &&
    negb (negb (Z.testbit f 0) && negb (Z.testbit f 1) && (Z.testbit g 9 && Z.testbit g 1)).
Proof.
  intros Hf Hg. unfold check_define_prop_flags. rewrite (has_lor g (Z.lor _ _)), Hg, has_lor, (small_zero f JS_PROP_TMASK Hf eq_refl).
  flag_bits. change (0 =? JS_PROP_GETSET) with false.
  destruct (Z.testbit f 0), (Z.testbit f 1), (Z.testbit f 2), (Z.testbit g 0), (Z.testbit g 1), (Z.testbit g 2), (Z.testbit g 8), (Z.testbit g 9),
    (Z.testbit g 10), (Z.testbit g 13); reflexivity.
Qed.

(** The branch for values of properties that are neither writable nor configurable. *)
Definition frozen (f g : Z) : bool := (Z.land f (Z.lor JS_PROP_CONFIGURABLE JS_PROP_WRITABLE) =? 0) && has g JS_PROP_HAS_VALUE.

Lemma frozen_eq f g : frozen f g = negb (Z.testbit f 0) && negb (Z.testbit f 1) && Z.testbit g 13.
Proof.
  unfold frozen. assert ((Z.land f (Z.lor JS_PROP_CONFIGURABLE JS_PROP_WRITABLE) =? 0) = negb (has f (Z.lor JS_PROP_CONFIGURABLE JS_PROP_WRITABLE))) as ->.
  { unfold has. by rewrite negb_involutive. }
  rewrite has_lor. flag_bits. by rewrite negb_orb.
Qed.

Lemma validate_spec f v g cur : small f -> has g (Z.lor JS_PROP_HAS_GET JS_PROP_HAS_SET) = false ->
  validate (to_descriptor v g) (to_property (f, cur)) = check_define_prop_flags f g && negb (frozen f g && negb (v =? cur)).
Proof.
  intros Hf Hg. rewrite check_define_spec, frozen_eq, to_descriptor_eq, to_property_eq by done. unfold validate. cbn [p_value p_writable p_enumerable p_configurable d_value d_writable d_enumerable d_configurable fst snd].
  destruct (Z.testbit f 0), (Z.testbit f 1), (Z.testbit f 2), (Z.testbit g 0), (Z.testbit g 1), (Z.testbit g 2), (Z.testbit g 8), (Z.testbit g 9),
    (Z.testbit g 10), (Z.testbit g 13); cbn; try reflexivity; destruct (v =? cur); reflexivity.
Qed.

(** The flags that [JS_DefineProperty] stores. *)
Definition attribute_mask (g : Z) : Z :=
  Z.lor (if has g JS_PROP_HAS_CONFIGURABLE then JS_PROP_CONFIGURABLE else 0) (if has g JS_PROP_HAS_ENUMERABLE then JS_PROP_ENUMERABLE else 0).
Definition writable_flags (f g : Z) : Z := if has g JS_PROP_HAS_WRITABLE then replace_bits f g JS_PROP_WRITABLE else f.
Definition defined_flags (f g : Z) : Z := replace_bits (writable_flags f g) g (attribute_mask g).

Lemma mask_small g : Z.land (attribute_mask g) JS_PROP_C_W_E = attribute_mask g.
Proof. unfold attribute_mask. destruct (has g _), (has g _); reflexivity. Qed.

Lemma writable_small f g : small f -> small (writable_flags f g).
Proof. intros H. unfold writable_flags. destruct (has g _); [by apply replace_small | done]. Qed.

Lemma defined_small f g : small f -> small (defined_flags f g).
Proof. intros H. apply replace_small; [by apply writable_small | apply mask_small]. Qed.

Lemma defined_property f g v cur : to_property (defined_flags f g, if has g JS_PROP_HAS_VALUE then v else cur) =
  apply_descriptor (to_descriptor v g) (to_property (f, cur)).
Proof.
  rewrite to_descriptor_eq, !to_property_eq. unfold apply_descriptor. cbn [p_value p_writable p_enumerable p_configurable d_value d_writable d_enumerable d_configurable fst snd].
  unfold defined_flags. rewrite !replace_testbit by lia. unfold attribute_mask, writable_flags.
  flag_bits.
  destruct (Z.testbit g 8) eqn:E8, (Z.testbit g 10) eqn:E10, (Z.testbit g 9) eqn:E9, (Z.testbit g 13) eqn:E13; cbn -[Z.testbit replace_bits];
    rewrite ?replace_testbit by lia; reflexivity.
Qed.

Lemma descriptor_flags_spec g : descriptor_flags g = true -> has g (Z.lor JS_PROP_HAS_GET JS_PROP_HAS_SET) = false /\
  forall i, 0 <= i < 3 -> Z.testbit g i = true -> Z.testbit g (i + 8) = true.
Proof.
  unfold descriptor_flags. intros [H1 H2]%andb_true_iff. apply negb_true_iff in H1. apply Z.eqb_eq in H2. split; [done |]. intros i Hi Hb.
  apply (f_equal (fun x => Z.testbit x i)) in H2. rewrite !Z.land_spec, Z.shiftr_spec, Hb in H2 by lia.
  assert (Z.testbit JS_PROP_C_W_E i = true) as E by (assert (i = 0 \/ i = 1 \/ i = 2) as [-> | [-> | ->]] by lia; reflexivity).
  by rewrite E in H2.
Qed.

Lemma created_property g v : descriptor_flags g = true ->
  to_property (Z.land g JS_PROP_C_W_E, if has g JS_PROP_HAS_VALUE then v else JS_UNDEFINED_VALUE) = new_property (to_descriptor v g).
Proof.
  intros [_ Hb]%descriptor_flags_spec. rewrite to_descriptor_eq, to_property_eq. unfold new_property, apply_descriptor.
  cbn [p_value p_writable p_enumerable p_configurable d_value d_writable d_enumerable d_configurable fst snd]. rewrite !Z.land_spec. flag_bits.
  assert (Z.testbit g 0 = true -> Z.testbit g 8 = true) as H0 by exact (Hb 0 ltac:(lia)).
  assert (Z.testbit g 1 = true -> Z.testbit g 9 = true) as H1 by exact (Hb 1 ltac:(lia)).
  assert (Z.testbit g 2 = true -> Z.testbit g 10 = true) as H2 by exact (Hb 2 ltac:(lia)). clear Hb.
  destruct (Z.testbit g 0), (Z.testbit g 1), (Z.testbit g 2), (Z.testbit g 8), (Z.testbit g 9), (Z.testbit g 10), (Z.testbit g 13); try reflexivity;
    exfalso; intuition congruence.
Qed.

(** Defining a property that is neither writable nor configurable with its value
    changes nothing. *)
Lemma frozen_same f g v : small f -> descriptor_flags g = true -> check_define_prop_flags f g = true -> frozen f g = true ->
  apply_descriptor (to_descriptor v g) (to_property (f, v)) = to_property (f, v).
Proof.
  intros Hf Hg. destruct (descriptor_flags_spec g Hg) as [Hg' Hb]. rewrite check_define_spec, frozen_eq, to_descriptor_eq, to_property_eq by done.
  unfold apply_descriptor. cbn [p_value p_writable p_enumerable p_configurable d_value d_writable d_enumerable d_configurable fst snd].
  destruct (Z.testbit f 0), (Z.testbit f 1), (Z.testbit f 2), (Z.testbit g 0), (Z.testbit g 1), (Z.testbit g 2), (Z.testbit g 8), (Z.testbit g 9),
    (Z.testbit g 10), (Z.testbit g 13); cbn; intros; try discriminate; reflexivity.
Qed.

(** ** Lists of properties *)
Definition props (l : list (Z * (Z * Z))) : list (Z * property) := map (fun y => (y.1, to_property y.2)) l.

Lemma find_props k l : find k (props l) = to_property <$> find_key k l.
Proof. induction l as [| [b x] l IH]; [done |]. cbn. by case_match. Qed.

Lemma update_props k x y l : to_property x = y -> update k y (props l) = props (update_key k x l).
Proof. intros <-. unfold update, props, update_key. rewrite !map_map. apply map_ext. intros [b z]. cbn. by case_match. Qed.

Lemma remove_props k l : remove k (props l) = props (remove_key k l).
Proof.
  unfold remove, remove_key. induction l as [| [b x] l IH]; [done |]. cbn [props map].
  destruct (decide (b <> k)) as [D | D].
  - rewrite !filter_cons_True by done. cbn. f_equal. apply IH.
  - rewrite !filter_cons_False by done. apply IH.
Qed.

Lemma props_app l k : props (l ++ k) = props l ++ props k.
Proof. apply map_app. Qed.

(** The flags of all properties are those of data properties. *)
Definition data_only (l : list (Z * (Z * Z))) : Prop := Forall (fun y => small y.2.1) l.

Lemma data_find k l f v : data_only l -> find_key k l = Some (f, v) -> small f.
Proof.
  induction 1 as [| [b x] l Hx Hl IH]; cbn; [done |]. case_match; [| done]. intros [= ->]. done.
Qed.

Lemma data_update k f v l : data_only l -> small f -> data_only (update_key k (f, v) l).
Proof. intros H Hf. apply List.Forall_map. eapply list.Forall_impl; [exact H |]. intros y Hy. cbn. by case_match. Qed.

Lemma data_remove k l : data_only l -> data_only (remove_key k l).
Proof. unfold data_only. rewrite !list.Forall_forall. intros H y Hy. apply list_elem_of_filter in Hy as [_ Hy]. by apply H. Qed.

Lemma data_snoc l k f v : data_only l -> small f -> data_only (l ++ [(k, (f, v))]).
Proof. intros H Hf. apply list.Forall_app. split; [done |]. by constructor. Qed.

(** * Operations on one object *)

Section objects.
Context {A : Type} {ops : AtomOps A} {laws : AtomLaws A}.
Variable strict : bool.
Variable held : list Z.
Variable poor : Prop.
Abbreviation JSRuntime := (JSRuntime A).
Abbreviation inv := (inv held poor).

(** The property [k] is the one with the index [i]. *)
Record located (rt : JSRuntime) (p k i f v : Z) (l : list (Z * (Z * Z))) : Prop := {
  lo_prop : exists pr, has_prop rt p i pr /\ atom pr = k /\ flags pr = f;
  lo_value : get_value p i rt = Ret v;
  lo_find : find_key k l = Some (f, v)
}.

Lemma find_own_step n (rt : JSRuntime) p k p0 l : inv n None [] rt -> abs rt p = Some (p0, l) -> k <> JS_ATOM_NULL -> exists r,
  find_own_property p k rt = Ret r /\
  match r with Some (f, i) => exists v, located rt p k i f v l | None => find_key k l = None end.
Proof.
  intros I Hab Hk. destruct (object_shape held poor _ _ _ _ _ _ I Hab) as (o & s & Hp & Hs & [= -> ->] & W & Hz).
  unfold find_own_property. rewrite (get_object_Ret _ _ _ Hp). cbn [mbind res_bind]. rewrite (get_shape_Ret _ _ _ Hs). cbn [mbind res_bind].
  destruct (find_prop_live held poor _ _ _ _ _ _ _ k I Hp Hs Hk) as (lpr & h & -> & [(-> & Hf & _) | (Hh & pr & v & Hc & Hpr & Ea & Hv & Hf)]); cbn [mbind res_bind].
  - by exists None.
  - rewrite (proj2 (Z.eqb_neq _ _) Hh), (proj1 Hc). cbn [of_opt mbind res_bind]. rewrite Hv. cbn [of_opt mbind res_bind].
    eexists. split; [reflexivity |]. exists v. split; [by exists pr | | done]. unfold get_value. rewrite (get_object_Ret _ _ _ Hp). cbn [mbind res_bind].
    by rewrite Hv.
Qed.

Lemma get_flags_step (rt : JSRuntime) p i pr : has_prop rt p i pr -> get_flags p i rt = Ret (flags pr).
Proof.
  intros (_ & o & s & Hp & Hs & Hi). unfold get_flags. rewrite (get_object_Ret _ _ _ Hp). cbn [mbind res_bind].
  rewrite (get_shape_Ret _ _ _ Hs). cbn [mbind res_bind]. by rewrite Hi.
Qed.

Lemma get_proto_step n (rt : JSRuntime) p p0 l : inv n None [] rt -> abs rt p = Some (p0, l) -> get_proto p rt = Ret p0.
Proof.
  intros I Hab. destruct (object_shape held poor _ _ _ _ _ _ I Hab) as (o & s & Hp & Hs & [= -> ->] & _).
  unfold get_proto. rewrite (get_object_Ret _ _ _ Hp). cbn [mbind res_bind]. by rewrite (get_shape_Ret _ _ _ Hs).
Qed.

Lemma same_change p x (rt rt' : JSRuntime) : abs rt p = x -> same_abs rt rt' -> abs_change p x rt rt'.
Proof. intros <-. apply same_abs_change. Qed.

Lemma update_key_same k x l : find_key k l = Some x -> NoDup (keys l) -> update_key k x l = l.
Proof.
  induction l as [| [b y] l IH]; [done |]. cbn. intros Hf Hn. apply list.NoDup_cons in Hn as [Hb Hn]. destruct (Z.eqb_spec b k) as [-> | D].
  - injection Hf as ->. f_equal. by apply update_key_absent.
  - f_equal. by apply IH.
Qed.

Lemma update_update k x y l : update_key k x (update_key k y l) = update_key k x l.
Proof.
  unfold update_key. rewrite map_map. apply map_ext. intros [b z]. cbn. destruct (Z.eqb_spec b k) as [-> | D]; cbn; [by rewrite Z.eqb_refl |].
  by rewrite (proj2 (Z.eqb_neq _ _) D).
Qed.

Lemma find_update k x y l : find_key k l = Some y -> find_key k (update_key k x l) = Some x.
Proof. induction l as [| [b z] l IH]; [done |]. cbn. destruct (Z.eqb_spec b k) as [-> | D]; cbn; [by rewrite Z.eqb_refl | by rewrite (proj2 (Z.eqb_neq _ _) D)]. Qed.

Lemma abs_nodup n (rt : JSRuntime) p p0 l : inv n None [] rt -> abs rt p = Some (p0, l) -> NoDup (keys l).
Proof.
  intros I Hab. destruct (object_shape held poor _ _ _ _ _ _ I Hab) as (o & s & Hp & Hs & [= -> ->] & W & Hz).
  apply (live_distinct _ _ (sw_distinct _ _ W)). by eapply wf_length.
Qed.

(** ** Values and flags *)
Lemma located_value n (rt : JSRuntime) p k i f v l p0 v' : inv n None [] rt -> abs rt p = Some (p0, l) -> located rt p k i f v l -> exists rt',
  set_value p i v' rt = Ret rt' /\ inv n None [] rt' /\ abs_change p (Some (p0, update_key k (f, v') l)) rt rt' /\
  located rt' p k i f v' (update_key k (f, v') l).
Proof.
  intros I Hab [(pr & Hpr & <- & <-) Hv Hf]. destruct (set_value_step held poor n [] rt p i pr v' I Hpr) as (rt' & p1 & l1 & E & I' & Hab' & C).
  assert (p1 = p0 /\ l1 = l) as [-> ->] by (split; congruence). exists rt'. split_and!; try done.
  unfold set_value in E. destruct Hpr as (Ha & o & s & Hp & Hs & Hi). rewrite (get_object_Ret _ _ _ Hp) in E. cbn [mbind res_bind] in E.
  destruct (zupd (values o) i v') as [vs |] eqn:Hvs; [| done]. injection E as <-. split.
  - exists pr. split; [| done]. split; [done |]. exists (mkObject (shape o) vs), s. cbn. by rewrite lookup_insert_eq.
  - unfold get_value. rewrite (get_object_Ret _ p (mkObject (shape o) vs)) by apply lookup_insert_eq. cbn [mbind res_bind values].
    by rewrite (znth_zupd_eq _ _ _ _ Hvs).
  - by eapply find_update.
Qed.

Lemma located_flags n (rt : JSRuntime) p k i f v l p0 f' : inv n None [] rt -> abs rt p = Some (p0, l) -> located rt p k i f v l ->
  0 <= f' < 64 -> exists ok rt', js_update_property_flags p i f' rt = Ret (ok, rt') /\ inv n None [] rt' /\
  (ok = false -> poor /\ same_abs rt rt' /\ ~ own_shape rt p) /\ (ok = true -> f' = f \/ own_shape rt' p) /\
  (ok = true -> abs_change p (Some (p0, update_key k (f', v) l)) rt rt' /\ located rt' p k i f' v (update_key k (f', v) l)).
Proof.
  intros I Hab [(pr & Hpr & <- & <-) Hv Hf] Hr.
  destruct (update_flags_step held poor n [] rt p i pr f' I Hpr Hr) as (ok & rt' & E & I' & Hno & Hown & Hok). exists ok, rt'. split_and!; try done.
  intros Eok. destruct (Hok Eok) as (pr' & p1 & l1 & v1 & Hpr' & Ea & Ef & Hab1 & Hf' & C). assert (p1 = p0 /\ l1 = l) as [-> ->] by (split; congruence).
  (* the value is that of the new property list *)
  assert (abs rt' p = Some (p0, update_key (atom pr) (f', v1) l)) as Hab2 by apply C.
  destruct (prop_value held poor _ _ _ _ _ _ _ I' Hpr') as (o & s & v2 & l1 & l2 & Hp & Hs & Hi & Hv2 & El & Hk1 & Hk2).
  pose proof (abs_Some _ _ _ _ Hp Hs) as Hab3. assert (find_key (atom pr) (update_key (atom pr) (f', v1) l) = Some (f', v1)) as Hf1 by (by eapply find_update).
  assert (update_key (atom pr) (f', v1) l = live (prop s) (values o)) as Eu by congruence.
  rewrite Eu, El, <- Ea, find_middle in Hf1 by done. injection Hf1 as _ ->.
  assert (v1 = v) as -> by congruence. split; [done |].
  split; [by exists pr' | | by eapply find_update]. unfold get_value. rewrite (get_object_Ret _ _ _ Hp). cbn [mbind res_bind]. by rewrite Hv2.
Qed.
(** ** Adding *)
Lemma update_last k x y l : k ∉ keys l -> update_key k x (l ++ [(k, y)]) = l ++ [(k, x)].
Proof. intros H. rewrite update_middle; [done | done | apply not_elem_of_nil]. Qed.

Lemma add_value_step n (rt : JSRuntime) p k p0 l f v : inv n None [] rt -> n + 3 < 2 ^ 25 -> abs rt p = Some (p0, l) ->
  find_key k l = None -> k <> JS_ATOM_NULL -> k ∈ held -> 0 <= f < 64 -> exists r rt',
  ('(i, rt) ← add_property p k f rt;
   match i with
   | None => Ret (OutOfMemory, rt)
   | Some i => rt ← set_value p i v rt; Ret (TRUE, rt)
   end) = Ret (r, rt') /\ inv (n + 4) None [] rt' /\
  (r = OutOfMemory /\ poor /\ same_abs rt rt' \/ r = TRUE /\ abs_change p (Some (p0, l ++ [(k, (f, v))])) rt rt').
Proof.
  intros I Hn Hab Hf Hk Hheld Hr. destruct (object_shape held poor _ _ _ _ _ _ I Hab) as (o & s & Hp & Hs & [= -> ->] & W & Hz).
  assert (k ∉ atoms_of (prop s)) as Hno by (rewrite <- (live_keys _ _ (wf_length _ _ _ W Hz)); by apply find_key_None).
  destruct (add_property_step held poor n [] rt p o s k f I Hn Hp Hs Hk Hheld Hno Hr) as (r & rt1 & -> & I1 & Hadd). cbn [mbind res_bind].
  destruct r as [i |].
  - destruct Hadd as (p1 & l1 & v1 & pr & Hab1 & C & Hpr & Ea & Ef).
    assert (p1 = proto s /\ l1 = live (prop s) (values o)) as [-> ->] by (split; congruence).
    destruct (set_value_step held poor (n + 4) [] rt1 p i pr v I1 Hpr) as (rt2 & p2 & l2 & -> & I2 & Hab2 & C2). cbn [mbind res_bind].
    rewrite (proj1 C) in Hab2. injection Hab2 as <- <-. exists TRUE, rt2. split; [done |]. split; [done |]. right. split; [done |].
    rewrite Ea, Ef, update_last in C2 by (by apply find_key_None). by eapply abs_change_trans.
  - destruct Hadd as [Hpo Hsame]. exists OutOfMemory, rt1. split; [done |]. split; [done |]. by left.
Qed.

Lemma create_step n (rt : JSRuntime) p k p0 l val g ext : inv n None [] rt -> n + 3 < 2 ^ 25 -> abs rt p = Some (p0, l) ->
  find_key k l = None -> k <> JS_ATOM_NULL -> k ∈ held -> has g (Z.lor JS_PROP_HAS_GET JS_PROP_HAS_SET) = false -> exists r rt',
  JS_CreateProperty strict p k val g ext rt = Ret (r, rt') /\ inv (n + 4) None [] rt' /\
  (ext = false /\ r = JS_ThrowTypeErrorOrFalse strict g /\ rt' = rt \/
   ext = true /\ r = OutOfMemory /\ poor /\ same_abs rt rt' \/
   ext = true /\ r = TRUE /\ abs_change p (Some (p0, l ++ [(k, (Z.land g JS_PROP_C_W_E, if has g JS_PROP_HAS_VALUE then val else JS_UNDEFINED_VALUE))])) rt rt').
Proof.
  intros I Hn Hab Hf Hk Hheld Hg. unfold JS_CreateProperty. destruct ext; cbn [negb].
  - rewrite Hg. cbn [negb assert_ mbind res_bind]. pose proof (small_range _ (small_land g)).
    destruct (add_value_step n rt p k p0 l (Z.land g JS_PROP_C_W_E) (if has g JS_PROP_HAS_VALUE then val else JS_UNDEFINED_VALUE) I Hn Hab Hf Hk Hheld ltac:(lia))
      as (r & rt' & E & I' & Hr). exists r, rt'. split; [exact E |]. split; [done |]. right.
    destruct Hr as [(-> & ? & ?) | (-> & ?)]; [by left | by right].
  - eexists _, rt. split; [reflexivity |]. split; [apply (inv_weaken_shape held poor n); [lia | done] |]. by left.
Qed.

(** ** Defining *)

(** The value and [writable]. *)
Lemma define_value_step n (rt : JSRuntime) p k i f v v' l p0 val g : inv n None [] rt -> abs rt p = Some (p0, l) -> located rt p k i f v l ->
  small f -> has g (Z.lor JS_PROP_HAS_GET JS_PROP_HAS_SET) = false -> v' = (if has g JS_PROP_HAS_VALUE then val else v) -> exists r rt',
  define_value strict p i val g rt = Ret (r, rt') /\ inv n None [] rt' /\
  if frozen f g then r = Some (if negb (val =? v) then JS_ThrowTypeErrorOrFalse strict g else TRUE) /\ rt' = rt
  else r = Some OutOfMemory /\ poor /\ abs_change p (Some (p0, update_key k (f, v') l)) rt rt' \/
       r = None /\ abs_change p (Some (p0, update_key k (writable_flags f g, v') l)) rt rt' /\
       located rt' p k i (writable_flags f g) v' (update_key k (writable_flags f g, v') l) /\ (writable_flags f g = f \/ own_shape rt' p).
Proof.
  intros I Hab Hl Hf Hg Ev. pose proof Hl as [(pr & Hpr & Ek & Ef) Hv Hfind]. pose proof (abs_nodup _ _ _ _ _ I Hab) as Hnd.
  unfold define_value. rewrite (get_flags_step _ _ _ _ Hpr), Ef. cbn [mbind res_bind].
  rewrite (has_lor g (Z.lor _ _)), Hg, orb_false_r, has_lor.
  assert (update_key k (f, v) l = l) as Esame by (by apply update_key_same).
  destruct (has g JS_PROP_HAS_VALUE) eqn:HV, (has g JS_PROP_HAS_WRITABLE) eqn:HW; cbn [orb]; subst v'.
  - fold (frozen f g). unfold frozen. rewrite HV, andb_true_r. destruct (Z.land f _ =? 0).
    + rewrite Hv. cbn [mbind res_bind]. destruct (val =? v); cbn [negb]; by eexists _, rt.
    + destruct (located_value n rt p k i f v l p0 val I Hab Hl) as (rt1 & -> & I1 & C1 & Hl1). cbn [mbind res_bind].
      pose proof (small_range _ (writable_small f g Hf)) as Hr. unfold writable_flags in *. rewrite HW in *.
      destruct (located_flags n rt1 p k i f val _ p0 (replace_bits f g JS_PROP_WRITABLE) I1 (proj1 C1) Hl1 ltac:(lia)) as (ok & rt2 & E & I2 & Hno & Hown & Hok).
      unfold replace_bits in E. rewrite E. cbn [mbind res_bind]. eexists _, rt2. split; [reflexivity |]. split; [done |]. destruct ok.
      * right. destruct (Hok eq_refl) as [C2 Hl2]. rewrite update_update in C2, Hl2. split; [done |]. split; [by eapply abs_change_trans |]. split; [done | by apply Hown].
      * left. destruct (Hno eq_refl) as (Hpo & Hsame & _). split; [done |]. split; [done |]. by eapply abs_change_post.
  - fold (frozen f g). unfold frozen. rewrite HV, andb_true_r. destruct (Z.land f _ =? 0).
    + rewrite Hv. cbn [mbind res_bind]. destruct (val =? v); cbn [negb]; by eexists _, rt.
    + destruct (located_value n rt p k i f v l p0 val I Hab Hl) as (rt1 & -> & I1 & C1 & Hl1). cbn [mbind res_bind].
      eexists _, rt1. split; [reflexivity |]. split; [done |]. right. unfold writable_flags. rewrite HW. split_and!; try done. by left.
  - unfold frozen. rewrite HV, andb_false_r. cbn [mbind res_bind].
    pose proof (small_range _ (writable_small f g Hf)) as Hr. unfold writable_flags in *. rewrite HW in *.
    destruct (located_flags n rt p k i f v _ p0 (replace_bits f g JS_PROP_WRITABLE) I Hab Hl ltac:(lia)) as (ok & rt2 & E & I2 & Hno & Hown & Hok).
    unfold replace_bits in E. rewrite E. cbn [mbind res_bind]. eexists _, rt2. split; [reflexivity |]. split; [done |]. destruct ok.
    + right. destruct (Hok eq_refl) as [C2 Hl2]. split; [done |]. split; [done |]. split; [done | by apply Hown].
    + left. destruct (Hno eq_refl) as (Hpo & Hsame & _). split; [done |]. split; [done |]. rewrite Esame, <- Hab. by apply same_abs_change.
  - unfold frozen. rewrite HV, andb_false_r. eexists None, rt. split; [reflexivity |]. split; [done |]. right. unfold writable_flags. rewrite HW, Esame.
    split; [done |]. split; [rewrite <- Hab; by apply same_abs_change |]. split; [done | by left].
Qed.
(** What [JS_DefineProperty] may do: when memory runs out the value may have been
    changed, the attributes have not. *)
Definition defined (k val g : Z) (o : object) (r : JSResult) (l' : list (Z * property)) : Prop :=
  (exists b, define_own_property k (to_descriptor val g) o = (b, l') /\ r = if b then TRUE else JS_ThrowTypeErrorOrFalse strict g) \/
  poor /\ r = OutOfMemory /\ (l' = o_props o \/ exists x, find k (o_props o) = Some x /\ validate (to_descriptor val g) x = true /\
    has g JS_PROP_HAS_VALUE = true /\ l' = update k (set_value_prop val x) (o_props o)).

(** The property is there and the checks allow the change. *)
Lemma define_found n (rt : JSRuntime) p k i f v p0 l val g : inv n None [] rt -> abs rt p = Some (p0, l) -> located rt p k i f v l -> data_only l ->
  small f -> descriptor_flags g = true -> check_define_prop_flags f g = true -> exists r rt' l',
  ('(r, rt) ← define_value strict p i val g rt;
   match r with
   | Some r => Ret (r, rt)
   | None =>
       let mask := Z.lor (if has g JS_PROP_HAS_CONFIGURABLE then JS_PROP_CONFIGURABLE else 0)
                         (if has g JS_PROP_HAS_ENUMERABLE then JS_PROP_ENUMERABLE else 0) in
       f ← get_flags p i rt;
       '(ok, rt) ← js_update_property_flags p i (Z.lor (clear_flags f mask) (Z.land g mask)) rt;
       Ret (if ok : bool then TRUE else OutOfMemory, rt)
   end) = Ret (r, rt') /\ inv (n + 4) None [] rt' /\ abs_change p (Some (p0, l')) rt rt' /\ data_only l' /\
  ((exists b, (if negb (frozen f g && negb (val =? v)) then (true, update k (apply_descriptor (to_descriptor val g) (to_property (f, v))) (props l))
               else (false, props l)) = (b, props l') /\ r = if b then TRUE else JS_ThrowTypeErrorOrFalse strict g) \/
   poor /\ r = OutOfMemory /\ (props l' = props l \/ exists x, Some (to_property (f, v)) = Some x /\ validate (to_descriptor val g) x = true /\
     has g JS_PROP_HAS_VALUE = true /\ props l' = update k (set_value_prop val x) (props l))).
Proof.
  intros I Hab Hl Hd Hs Hg Hc. destruct (descriptor_flags_spec g Hg) as [Hgs _]. pose proof (abs_nodup _ _ _ _ _ I Hab) as Hnd.
  assert (forall rt', inv n None [] rt' -> inv (n + 4) None [] rt') as Hweak by (intros; apply (inv_weaken_shape held poor n); [lia | done]).
  pose proof (lo_find _ _ _ _ _ _ _ Hl) as Hf. pose proof (validate_spec f val g v Hs Hgs) as Hval. rewrite Hc, andb_true_l in Hval.
  destruct (define_value_step n rt p k i f v _ l p0 val g I Hab Hl Hs Hgs eq_refl) as (r & rt1 & -> & I1 & Hr). cbn [mbind res_bind].
  destruct (frozen f g) eqn:Hfz; cbn [andb negb] in *.
  { destruct Hr as [-> ->]. eexists _, rt, l. split; [reflexivity |]. split; [by apply Hweak |]. split; [by apply same_change |]. split; [done |]. left.
    destruct (Z.eqb_spec val v) as [-> | D]; cbn [negb]; [exists true | by exists false]. split; [| done]. f_equal.
    rewrite frozen_same by done. rewrite (update_props k (f, v)) by done. by rewrite update_key_same. }
  set (v' := if has g JS_PROP_HAS_VALUE then val else v) in *.
  assert (poor -> (props (update_key k (f, v') l) = props l \/ exists x, Some (to_property (f, v)) = Some x /\ validate (to_descriptor val g) x = true /\
     has g JS_PROP_HAS_VALUE = true /\ props (update_key k (f, v') l) = update k (set_value_prop val x) (props l))) as Hmemory.
  { intros _. unfold v'. destruct (has g JS_PROP_HAS_VALUE) eqn:HV; [right | left; by rewrite update_key_same].
    exists (to_property (f, v)). split_and!; try done. symmetry. by apply update_props. }
  destruct Hr as [(-> & Hpo & C) | (-> & C & Hl1 & Hown)].
  { eexists _, rt1, _. split; [reflexivity |]. split; [by apply Hweak |]. split; [exact C |]. split; [by apply data_update |]. right. split_and!; try done. by apply Hmemory. }
  destruct Hl1 as [(pr & Hpr & Ek & Ef) Hv1 Hf1]. rewrite (get_flags_step _ _ _ _ Hpr), Ef. cbn [mbind res_bind].
  assert (located rt1 p k i (writable_flags f g) v' (update_key k (writable_flags f g, v') l)) as Hl1 by (split; [by exists pr | done | done]).
  pose proof (small_range _ (defined_small f g Hs)) as Hr8.
  destruct (located_flags n rt1 p k i _ v' _ p0 (defined_flags f g) I1 (proj1 C) Hl1 ltac:(lia)) as (ok & rt2 & E & I2 & Hno & _ & Hok).
  unfold defined_flags, replace_bits, attribute_mask in E. rewrite E. cbn [mbind res_bind]. destruct ok.
  - destruct (Hok eq_refl) as [C2 _]. rewrite update_update in C2. eexists _, rt2, _. split; [reflexivity |]. split; [by apply Hweak |].
    split; [by eapply abs_change_trans |]. split; [apply data_update; [done | by apply defined_small] |]. left. exists true. split; [| done]. f_equal.
    rewrite (update_props k (defined_flags f g, v')); [done |]. apply defined_property.
  - destruct (Hno eq_refl) as (Hpo & Hsame & Hnot). destruct Hown as [Ewr | Hown]; [| done]. rewrite Ewr in C.
    eexists _, rt2, _. split; [reflexivity |]. split; [by apply Hweak |]. split; [by eapply abs_change_post |]. split; [by apply data_update |].
    right. split_and!; try done. by apply Hmemory.
Qed.

Lemma define_step n (rt : JSRuntime) p k p0 l val g ext : inv n None [] rt -> n + 3 < 2 ^ 25 -> abs rt p = Some (p0, l) -> data_only l ->
  k <> JS_ATOM_NULL -> k ∈ held -> descriptor_flags g = true -> exists r rt' l',
  JS_DefineProperty strict p k val g ext rt = Ret (r, rt') /\ inv (n + 4) None [] rt' /\
  abs_change p (Some (p0, l')) rt rt' /\ data_only l' /\ defined k val g (mkObj p0 ext (props l)) r (props l').
Proof.
  intros I Hn Hab Hd Hk Hheld Hg. destruct (descriptor_flags_spec g Hg) as [Hgs _]. pose proof (abs_nodup _ _ _ _ _ I Hab) as Hnd.
  assert (forall rt', inv n None [] rt' -> inv (n + 4) None [] rt') as Hweak by (intros; apply (inv_weaken_shape held poor n); [lia | done]).
  unfold JS_DefineProperty, define_attributes, defined, define_own_property. cbn [o_props o_extensible]. rewrite find_props.
  destruct (find_own_step n rt p k p0 l I Hab Hk) as (x & -> & Hx). cbn [mbind res_bind]. destruct x as [[f i] |].
  - destruct Hx as (v & Hl). pose proof (lo_find _ _ _ _ _ _ _ Hl) as Hf. pose proof (data_find _ _ _ _ Hd Hf) as Hs. rewrite Hf. cbn [fmap option_fmap option_map].
    rewrite (validate_spec f val g v Hs Hgs). destruct (check_define_prop_flags f g) eqn:Hc; cbn [negb andb].
    + rewrite (small_zero f (Z.lor JS_PROP_TMASK JS_PROP_LENGTH) Hs eq_refl), Hgs. cbn [negb Z.eqb andb assert_ mbind res_bind].
      apply (define_found n rt p k i f v p0 l); try done.
    + eexists _, rt, l. split; [reflexivity |]. split; [by apply Hweak |]. split; [by apply same_change |]. split; [done |]. left. by exists false.
  - rewrite Hx. cbn [fmap option_fmap option_map]. destruct (create_step n rt p k p0 l val g ext I Hn Hab Hx Hk Hheld Hgs) as (r & rt' & -> & I' & Hr).
    destruct Hr as [(-> & -> & ->) | [(-> & -> & Hpo & Hsame) | (-> & -> & C)]].
    + eexists _, rt, l. split; [reflexivity |]. split; [done |]. split; [by apply same_change |]. split; [done |]. left. by exists false.
    + eexists _, rt', l. split; [reflexivity |]. split; [done |]. split; [by apply same_change |]. split; [done |]. right. split_and!; try done. by left.
    + eexists _, rt', _. split; [reflexivity |]. split; [done |]. split; [exact C |]. split; [apply data_snoc; [done | apply small_land] |].
      left. exists true. split; [| done]. rewrite props_app, <- created_property by done. done.
Qed.
End objects.
