(* ===== verification/ObjectRun.v ===== *)
(** * Programs on objects

    The chains of prototypes, which no operation makes circular, and the state of
    the code as a heap of the specification: every operation of the code is one
    of the specification, on the heap that its state stands for. *)
From Stdlib Require Import ZArith Lia Bool.
From stdpp Require Import base numbers list gmap.
From S2P Require Import Prelude Chains JSValue AtomState ShapeState ShapeSpec ShapeFacts ShapeTable ShapeInv ShapeSteps ShapeUpdate ShapeAdd ShapeShare ObjectState ObjectSpec ObjectSteps.

(** ** Chains of prototypes *)
Implicit Types h : gmap Z object.

(** Every object has a chain. *)
Definition acyclic h : Prop := forall p o, h !! p = Some o -> exists l, chain h p l.

Lemma chain_objects h p l x : chain h p l -> x ∈ l -> exists o, h !! x = Some o.
Proof.
  intros H Hx. destruct (linked_nonzero _ _ x _ H Hx) as [_ [q Hq]]. unfold next_proto in Hq. destruct (h !! x) as [o |]; [by exists o | done].
Qed.

Lemma chain_zero h l : chain h 0 l -> l = [].
Proof. destruct l as [| x l]; [done |]. intros (<- & D & _). done. Qed.

Lemma chain_cons h p l : chain h p l -> p <> 0 -> exists o l', h !! p = Some o /\ l = p :: l' /\ chain h (o_proto o) l'.
Proof.
  intros H D. destruct l as [| x l]; [done |]. destruct H as (-> & _ & q & Hq & H). unfold next_proto in Hq.
  destruct (h !! x) as [o |] eqn:E; [| done]. injection Hq as <-. by exists o, l.
Qed.

Lemma chain_zero_or h p : acyclic h -> p = 0 \/ is_Some (h !! p) -> exists l, chain h p l.
Proof. intros Ha [-> | [o Ho]]; [by exists [] | by apply (Ha p o)]. Qed.

(** Only what is in the chain matters. *)
Lemma chain_ext h h' p l : chain h p l -> (forall x, x ∈ l -> next_proto h' x = next_proto h x) -> chain h' p l.
Proof. apply linked_ext. Qed.

Lemma acyclic_same h h' : acyclic h -> (forall p, next_proto h' p = next_proto h p) -> acyclic h'.
Proof.
  intros Ha Hn p o Hp. assert (is_Some (next_proto h p)) as [q Hq]. { rewrite <- Hn. unfold next_proto. rewrite Hp. by eexists. }
  unfold next_proto in Hq. destruct (h !! p) as [o' |] eqn:E; [| done]. destruct (Ha p o' E) as [l Hl]. exists l. eapply chain_ext; [exact Hl | auto].
Qed.

(** The properties of an object change. *)
Lemma next_proto_insert h p o o' x : h !! p = Some o -> o_proto o' = o_proto o -> next_proto (<[p := o']> h) x = next_proto h x.
Proof.
  intros Hp E. unfold next_proto. destruct (decide (p = x)) as [<- | D]; [rewrite lookup_insert_eq, Hp; cbn; by rewrite E | by rewrite lookup_insert_ne].
Qed.

Lemma acyclic_insert h p o o' : acyclic h -> h !! p = Some o -> o_proto o' = o_proto o -> acyclic (<[p := o']> h).
Proof. intros Ha Hp E. apply (acyclic_same h); [done |]. intros x. by apply (next_proto_insert _ _ o). Qed.

(** A new object. *)
Lemma acyclic_new h p o : acyclic h -> h !! p = None -> p <> 0 -> o_proto o = 0 \/ is_Some (h !! o_proto o) -> acyclic (<[p := o]> h).
Proof.
  intros Ha Hp D Hq. assert (forall x l, chain h x l -> chain (<[p := o]> h) x l) as Hext.
  { intros x l Hl. eapply chain_ext; [exact Hl |]. intros y Hy. destruct (chain_objects _ _ _ _ Hl Hy) as [oy Hoy]. unfold next_proto.
    rewrite lookup_insert_ne; [done |]. congruence. }
  intros x ox Hx. destruct (decide (p = x)) as [<- | D'].
  - rewrite lookup_insert_eq in Hx. injection Hx as <-. destruct (chain_zero_or h (o_proto o) Ha Hq) as [l Hl]. exists (p :: l).
    split; [done |]. split; [done |]. exists (o_proto o). split; [unfold next_proto; by rewrite lookup_insert_eq | by apply Hext].
  - rewrite lookup_insert_ne in Hx by done. destruct (Ha x ox Hx) as [l Hl]. exists l. by apply Hext.
Qed.

(** An element of a chain is the first or comes after another. *)
Lemma linked_before (next : Z -> option Z) l j : forall i, linked next i l -> j ∈ l -> j = i \/ exists x, x ∈ l /\ next x = Some j.
Proof.
  induction l as [| y l IH]; intros i H Hj; [by apply not_elem_of_nil in Hj |]. destruct H as (-> & _ & k & Hk & H).
  apply elem_of_cons in Hj as [-> | Hj]; [by left |]. right. destruct (IH k H Hj) as [-> | (x & Hx & Hn)]; [exists y | exists x]; (split; [rewrite elem_of_cons; tauto | done]).
Qed.

(** An object that is nobody's prototype is freed. *)
Lemma acyclic_delete h p : acyclic h -> (forall q o, h !! q = Some o -> o_proto o <> p) -> acyclic (delete p h).
Proof.
  intros Ha Hno q o Hq. apply lookup_delete_Some in Hq as [D Hq]. destruct (Ha q o Hq) as [l Hl]. exists l. eapply chain_ext; [exact Hl |].
  intros x Hx. unfold next_proto. rewrite lookup_delete_ne; [done |]. intros <-.
  destruct (linked_before _ _ _ _ Hl Hx) as [-> | (y & Hy & Hn)]; [done |]. unfold next_proto in Hn. destruct (h !! y) as [oy |] eqn:E; [| done].
  injection Hn as Hn. by apply (Hno y oy).
Qed.

(** What [JS_SetPropertyInternal] looks at: every property of the prototypes. *)
Definition read_only_proto h (k : Z) (l : list Z) : bool :=
  existsb (fun p => match own h k p with Some x => negb (p_writable x) | None => false end) l.

(** It differs from what [OrdinarySet] looks at in one case. *)
Lemma read_only_cases h k l :
  read_only_proto h k l = inherits_read_only h k l \/ read_only_proto h k l = true /\ hides_read_only h k l.
Proof.
  unfold inherits_read_only, hides_read_only. induction l as [| p l IH]; [by left |]. cbn [read_only_proto existsb lookup_chain].
  destruct (own h k p) as [x |] eqn:E.
  - destruct (p_writable x) eqn:Hw; cbn [negb orb]; [| by left]. destruct (existsb _ l) eqn:El; [right | by left]. split; [done |].
    split; [by exists x |]. apply existsb_exists in El as (q & Hq & Ho). destruct (own h k q) as [y |] eqn:Ey; [| done].
    exists q, y. split_and!; [right; by apply list_elem_of_In | done | by apply negb_true_iff].
  - cbn [orb]. destruct IH as [IH | [IH (Hn & q & y & Hq & Hy)]]; [by left | right]. split; [done |]. split; [done |].
    exists q, y. split; [by right | done].
Qed.

(** The chain from [p] on is replaced. *)
Lemma linked_retarget (next next' : Z -> option Z) p q l2 lq : linked next' q lq -> next' p = Some q -> (forall y, y <> p -> next' y = next y) ->
  forall l1 i, linked next i (l1 ++ p :: l2) -> p ∉ l1 -> linked next' i (l1 ++ p :: lq).
Proof.
  intros Hq Hp Hn. induction l1 as [| y l1 IH]; intros i H Hni.
  - destruct H as (-> & D & _). split; [done |]. split; [done |]. by exists q.
  - destruct H as (-> & D & k & Hk & H). apply not_elem_of_cons in Hni as [Dy Hni]. split; [done |]. split; [done |]. exists k.
    split; [by rewrite Hn by congruence | by apply IH].
Qed.

Lemma acyclic_set_proto h p o q lq : acyclic h -> h !! p = Some o -> chain h q lq -> p ∉ lq -> acyclic (<[p := set_o_proto q o]> h).
Proof.
  intros Ha Hp Hq Hnq. set (h' := <[p := set_o_proto q o]> h).
  assert (forall y, y <> p -> next_proto h' y = next_proto h y) as Hn by (intros y D; unfold next_proto, h'; by rewrite lookup_insert_ne by congruence).
  assert (next_proto h' p = Some q) as Hp' by (unfold next_proto, h'; by rewrite lookup_insert_eq).
  assert (chain h' q lq) as Hq' by (eapply chain_ext; [exact Hq |]; intros x Hx; apply Hn; by intros ->).
  intros x ox Hx. assert (is_Some (h !! x)) as [ox' Hx'].
  { unfold h' in Hx. destruct (decide (p = x)) as [<- | D]; [by exists o | rewrite lookup_insert_ne in Hx by done; by exists ox]. }
  destruct (Ha x ox' Hx') as [l Hl]. destruct (decide (p ∈ l)) as [Hin | Hin].
  - apply list_elem_of_split in Hin as (l1 & l2 & ->). exists (l1 ++ p :: lq). eapply (linked_retarget (next_proto h)); try done.
    pose proof (linked_nodup _ _ _ Hl) as Hnd. apply list.NoDup_app in Hnd as (_ & Hd & _). intros H. apply (Hd p H). by left.
  - exists l. eapply chain_ext; [exact Hl |]. intros y Hy. apply Hn. by intros ->.
Qed.

Lemma chain_size_objects {X} (m : gmap Z X) l : NoDup l -> (forall x, x ∈ l -> is_Some (m !! x)) -> (length l <= size m)%nat.
Proof.
  intros Hn Hin. rewrite <- size_dom, <- (size_list_to_set (C := gset Z) l) by done. apply subseteq_size. intros x Hx.
  apply elem_of_list_to_set in Hx. apply elem_of_dom. by apply Hin.
Qed.

(** * The state as a heap *)

Section run.
Context {A : Type} {ops : AtomOps A} {laws : AtomLaws A}.
Variable strict : bool.
Variable held : list Z.
Variable poor : Prop.
Abbreviation JSRuntime := (JSRuntime A).
Abbreviation inv := (inv held poor).

(** The object that a property list is. *)
Definition obj_of (cl : gset Z) (p : Z) (x : Z * list (Z * (Z * Z))) : object := mkObj x.1 (bool_decide (p ∉ cl)) (props x.2).

(** The state stands for the heap [h]. *)
Record rep (n : Z) (w : heap A) (h : gmap Z object) : Prop := {
  r_inv : inv n None [] (runtime w);
  r_abs : forall p, h !! p = obj_of (closed w) p <$> abs (runtime w) p;
  r_data : forall p x, abs (runtime w) p = Some x -> data_only x.2;
  r_acyclic : acyclic h;
  r_closed : forall p, p ∈ closed w -> is_Some (abs (runtime w) p)
}.

Lemma rep_object n w h p o : rep n w h -> h !! p = Some o -> exists l, abs (runtime w) p = Some (o_proto o, l) /\
  o = mkObj (o_proto o) (bool_decide (p ∉ closed w)) (props l) /\ data_only l.
Proof.
  intros R Hp. rewrite (r_abs _ _ _ R) in Hp. destruct (abs (runtime w) p) as [[q l] |] eqn:E; [| done]. injection Hp as <-.
  exists l. split_and!; [done | done |]. apply (r_data _ _ _ R p (q, l) E).
Qed.

Lemma is_object_spec n w h p : rep n w h -> is_object p (runtime w) = true -> exists o, h !! p = Some o.
Proof.
  intros R [o Ho]%bool_decide_eq_true. destruct (abs_object held poor _ _ _ _ _ _ (r_inv _ _ _ R) Ho) as (s & _ & _ & _ & Hab).
  rewrite (r_abs _ _ _ R), Hab. by eexists.
Qed.

Lemma object_nonzero n w h p o : rep n w h -> h !! p = Some o -> p <> 0.
Proof.
  intros R Hp. destruct (rep_object _ _ _ _ _ R Hp) as (l & Hab & _). destruct (object_shape held poor _ _ _ _ _ _ (r_inv _ _ _ R) Hab) as (ob & s & Ho & _).
  destruct (v_objs _ _ _ _ _ _ (r_inv _ _ _ R) p ob Ho) as [_ ?]. lia.
Qed.

Lemma is_key_spec k : is_key held k = true -> k <> JS_ATOM_NULL /\ k ∈ held.
Proof. intros [H1 H2]%andb_true_iff. apply negb_true_iff, Z.eqb_neq in H1. by apply bool_decide_eq_true in H2. Qed.

(** Nothing changes but the bound. *)
Lemma rep_same n n' w h (rt' : JSRuntime) : rep n w h -> inv n' None [] rt' -> same_abs (runtime w) rt' -> rep n' (mkHeap rt' (closed w)) h.
Proof.
  intros R I Hs. split; cbn; try done.
  - intros p. rewrite (Hs p). apply (r_abs _ _ _ R).
  - intros p x. rewrite (Hs p). apply (r_data _ _ _ R).
  - apply (r_acyclic _ _ _ R).
  - intros p. rewrite (Hs p). apply (r_closed _ _ _ R).
Qed.

(** One object changes. *)
Lemma rep_change n n' w h p o q l (rt' : JSRuntime) : rep n w h -> h !! p = Some o -> inv n' None [] rt' -> abs_change p (Some (q, l)) (runtime w) rt' ->
  data_only l -> acyclic (<[p := mkObj q (o_extensible o) (props l)]> h) ->
  rep n' (mkHeap rt' (closed w)) (<[p := mkObj q (o_extensible o) (props l)]> h).
Proof.
  intros R Hp I [C1 C2] Hd Ha. destruct (rep_object _ _ _ _ _ R Hp) as (l0 & Hab & Eo & _). split; cbn; try done.
  - intros x. destruct (decide (p = x)) as [<- | D]; [rewrite lookup_insert_eq, C1; cbn; by rewrite Eo |].
    rewrite lookup_insert_ne, C2 by congruence. apply (r_abs _ _ _ R).
  - intros x y Hx. destruct (decide (x = p)) as [-> | D]; [rewrite C1 in Hx; by injection Hx as <- |]. rewrite C2 in Hx by done. by apply (r_data _ _ _ R x).
  - intros x Hx. destruct (decide (x = p)) as [-> | D]; [rewrite C1; by eexists |]. rewrite C2 by done. by apply (r_closed _ _ _ R).
Qed.

Lemma rep_props n n' w h p o l (rt' : JSRuntime) : rep n w h -> h !! p = Some o -> inv n' None [] rt' ->
  abs_change p (Some (o_proto o, l)) (runtime w) rt' -> data_only l -> rep n' (mkHeap rt' (closed w)) (<[p := set_props (props l) o]> h).
Proof. intros R Hp I C Hd. eapply rep_change; try done. eapply acyclic_insert; [apply (r_acyclic _ _ _ R) | exact Hp | done]. Qed.

(** ** Loops over the prototypes *)
Lemma fuel_enough n w h p l : rep n w h -> chain h p l -> (length l <= size (objects (runtime w)))%nat.
Proof.
  intros R Hl. apply chain_size_objects; [by eapply linked_nodup |]. intros x Hx. destruct (chain_objects _ _ _ _ Hl Hx) as [o Ho].
  destruct (rep_object _ _ _ _ _ R Ho) as (l0 & Hab & _). destruct (object_shape held poor _ _ _ _ _ _ (r_inv _ _ _ R) Hab) as (ob & s & Hob & _). by exists ob.
Qed.

Lemma own_find n w h p k : rep n w h -> forall o l, h !! p = Some o -> abs (runtime w) p = Some (o_proto o, l) -> own h k p = to_property <$> find_key k l.
Proof.
  intros R o l Hp Hab. unfold own. rewrite Hp. destruct (rep_object _ _ _ _ _ R Hp) as (l1 & Hab1 & Eo & _). assert (l1 = l) as -> by congruence.
  rewrite Eo. cbn. apply find_props.
Qed.

Lemma get_walk_step n w h k : rep n w h -> k <> JS_ATOM_NULL -> forall l p fuel, chain h p l -> p <> 0 -> (length l <= fuel)%nat ->
  get_property_walk fuel p k (runtime w) = Ret (p_value <$> lookup_chain h k l) /\
  has_property_walk fuel p k (runtime w) = Ret (is_present (lookup_chain h k l)).
Proof.
  intros R Hk. induction l as [| x l IH]; intros p fuel Hl Hp Hf; [by cbn in Hl |].
  destruct (chain_cons _ _ _ Hl Hp) as (o & l' & Ho & [= -> <-] & Hl'). destruct fuel as [| fuel]; [cbn in Hf; lia |].
  destruct (rep_object _ _ _ _ _ R Ho) as (pl & Hab & Eo & Hd). cbn [get_property_walk has_property_walk lookup_chain].
  rewrite (own_find _ _ _ _ k R _ _ Ho Hab). destruct (find_own_step held poor n _ p k _ _ (r_inv _ _ _ R) Hab Hk) as (r & -> & Hr). cbn [mbind res_bind].
  destruct r as [[f i] |].
  - destruct Hr as (v & [_ Hv Hfind]). rewrite Hfind. cbn [fmap option_fmap option_map is_present].
    rewrite (small_zero f JS_PROP_TMASK (data_find _ _ _ _ Hd Hfind) eq_refl). cbn [Z.eqb assert_ mbind res_bind]. rewrite Hv. by cbn [mbind res_bind].
  - rewrite Hr. cbn [fmap option_fmap option_map]. rewrite (get_proto_step held poor n _ p _ _ (r_inv _ _ _ R) Hab). cbn [mbind res_bind].
    destruct (Z.eqb_spec (o_proto o) 0) as [E | D].
    + rewrite E in Hl'. by rewrite (chain_zero _ _ Hl').
    + apply IH; [done | done | cbn in Hf; lia].
Qed.

Lemma set_walk_step n w h k : rep n w h -> k <> JS_ATOM_NULL -> forall l p o fuel, h !! p = Some o -> chain h (o_proto o) l -> (length l < fuel)%nat ->
  set_property_walk fuel p k (runtime w) = Ret (read_only_proto h k l).
Proof.
  intros R Hk. induction l as [| x l IH]; intros p o fuel Ho Hl Hf; (destruct fuel as [| fuel]; [cbn in Hf; lia |]);
    destruct (rep_object _ _ _ _ _ R Ho) as (pl & Hab & Eo & Hd); cbn [set_property_walk read_only_proto existsb];
    rewrite (get_proto_step held poor n _ p _ _ (r_inv _ _ _ R) Hab); cbn [mbind res_bind].
  - cbn in Hl. by rewrite Hl.
  - assert (o_proto o <> 0) as D by (by destruct Hl as (_ & ? & _)). rewrite (proj2 (Z.eqb_neq _ _) D).
    destruct (chain_cons _ _ _ Hl D) as (o1 & l' & Ho1 & [= -> <-] & Hl'). destruct (rep_object _ _ _ _ _ R Ho1) as (pl1 & Hab1 & Eo1 & Hd1).
    rewrite (own_find _ _ _ _ k R _ _ Ho1 Hab1). destruct (find_own_step held poor n _ _ k _ _ (r_inv _ _ _ R) Hab1 Hk) as (r & -> & Hr). cbn [mbind res_bind].
    assert (set_property_walk fuel (o_proto o) k (runtime w) = Ret (read_only_proto h k l)) as Hrest by (eapply IH; [exact Ho1 | done | cbn in Hf; lia]).
    destruct r as [[f i] |]; [| by rewrite Hr].
    destruct Hr as (v & [_ Hv Hfind]). rewrite Hfind. cbn [fmap option_fmap option_map].
    rewrite (small_zero f JS_PROP_TMASK (data_find _ _ _ _ Hd1 Hfind) eq_refl). cbn [Z.eqb assert_ mbind res_bind to_property p_writable fst].
    destruct (has f JS_PROP_WRITABLE); [| done]. cbn [negb orb]. exact Hrest.
Qed.

Lemma cycle_walk_step n w h p : rep n w h -> forall l q fuel, chain h q l -> q <> 0 -> (length l <= fuel)%nat ->
  cycle_walk fuel p q (runtime w) = Ret (bool_decide (p ∈ l)).
Proof.
  intros R. induction l as [| x l IH]; intros q fuel Hl Hq Hf; [by cbn in Hl |].
  destruct (chain_cons _ _ _ Hl Hq) as (o & l' & Ho & [= -> <-] & Hl'). destruct fuel as [| fuel]; [cbn in Hf; lia |].
  destruct (rep_object _ _ _ _ _ R Ho) as (pl & Hab & Eo & Hd). cbn [cycle_walk]. destruct (Z.eqb_spec q p) as [-> | D].
  { rewrite bool_decide_true; [done |]. by left. }
  rewrite (get_proto_step held poor n _ q _ _ (r_inv _ _ _ R) Hab). cbn [mbind res_bind].
  assert (bool_decide (p ∈ q :: l) = bool_decide (p ∈ l)) as -> by (apply bool_decide_ext; rewrite elem_of_cons; intuition congruence).
  destruct (Z.eqb_spec (o_proto o) 0) as [E | D'].
  - rewrite E in Hl'. rewrite (chain_zero _ _ Hl'). by rewrite bool_decide_false by apply not_elem_of_nil.
  - apply IH; [done | done | cbn in Hf; lia].
Qed.
End run.
