(* ===== verification/ObjectOps.v ===== *)
(** * Each operation of a program *)
From Stdlib Require Import ZArith Lia Bool.
From stdpp Require Import base numbers list gmap.
From S2P Require Import Prelude Chains JSValue AtomState ShapeState ShapeSpec ShapeFacts ShapeTable ShapeInv ShapeSteps ShapeUpdate ShapeAdd ShapeShare ObjectState ObjectSpec ObjectSteps ObjectRun.

Section operations.
Context {A : Type} {ops : AtomOps A} {laws : AtomLaws A}.
Variable strict : bool.
Variable held : list Z.
Variable poor : Prop.
Abbreviation JSRuntime := (JSRuntime A).
Abbreviation inv := (inv held poor).
Abbreviation rep := (rep held poor).

(** The code performs [x] as the specification does. *)
Definition simulates (n : Z) (w : heap A) (h : gmap Z object) (x : op) : Prop :=
  exists r w' h', perform strict x w = Ret (r, w') /\ rep (n + 4) w' h' /\ performs strict poor h x r h'.

(** Or it refuses an assignment that the specification allows. *)
Definition deviates (n : Z) (w : heap A) (h : gmap Z object) (x : op) : Prop :=
  exists r, perform strict x w = Ret (r, w) /\ refuses_hidden strict h x r.

Lemma rep_weaken n w h : rep n w h -> rep (n + 4) w h.
Proof. intros [I ? ? ? ?]. split; try done. apply (inv_weaken_shape held poor n); [lia | done]. Qed.

Lemma heap_eta (w : heap A) : mkHeap (runtime w) (closed w) = w.
Proof. by destruct w. Qed.

Lemma rep_same_all n w h (rt' : JSRuntime) : rep n w h -> inv (n + 4) None [] rt' -> same_abs (runtime w) rt' -> rep (n + 4) (mkHeap rt' (closed w)) h.
Proof. apply rep_same. Qed.

(** ** Objects *)
Lemma perform_new n w h q : rep n w h -> 0 <= n < 2 ^ 25 -> is_proto q (runtime w) = true -> simulates n w h (ONew q).
Proof.
  intros R Hn Hq. unfold simulates. cbn [perform]. destruct (new_object_step held poor n (runtime w) q (r_inv _ _ _ _ _ R) Hn) as (p & rt' & -> & I' & M).
  cbn [mbind res_bind]. assert (inv (n + 4) None [] rt') as I4 by (apply (inv_weaken_shape held poor (n + 1)); [lia | done]).
  eexists _, _. unfold made in M. destruct (Z.eqb_spec p 0) as [-> | D].
  { destruct M as [Hpo Hs]. exists h. split; [reflexivity |]. split; [by eapply rep_same | by apply new_no_memory]. }
  destruct M as [Hno [C1 C2]]. assert (h !! p = None) as Hp by (by rewrite (r_abs _ _ _ _ _ R), Hno).
  assert (p ∉ closed w) as Hcl. { intros H. destruct (r_closed _ _ _ _ _ R p H) as [x Hx]. congruence. }
  exists (<[p := mkObj q true []]> h). split; [reflexivity |]. split; [| by apply does_new]. split; cbn; try done.
  - intros x. destruct (decide (p = x)) as [<- | D']; [rewrite lookup_insert_eq, C1; cbn; unfold obj_of; by rewrite bool_decide_true |].
    rewrite lookup_insert_ne, C2 by congruence. apply (r_abs _ _ _ _ _ R).
  - intros x y Hx. destruct (decide (x = p)) as [-> | D']; [rewrite C1 in Hx; injection Hx as <-; constructor |]. rewrite C2 in Hx by done.
    by apply (r_data _ _ _ _ _ R x).
  - apply acyclic_new; [apply (r_acyclic _ _ _ _ _ R) | done | done |]. cbn. unfold is_proto in Hq. destruct (Z.eqb_spec q 0) as [-> | D']; [by left |]. right.
    destruct (is_object_spec held poor n w h q R Hq) as [o Ho]. by eexists.
  - intros x Hx. destruct (decide (x = p)) as [-> | D']; [done |]. rewrite C2 by done. by apply (r_closed _ _ _ _ _ R).
Qed.

(** A shape that is alive belongs to an object. *)
Lemma not_referenced n w h p : rep n w h -> is_referenced p (runtime w) = false -> forall q o, h !! q = Some o -> o_proto o <> p.
Proof.
  intros R Hr q o Hq E. destruct (rep_object held poor _ _ _ _ _ R Hq) as (l & Hab & _).
  destruct (object_shape held poor _ _ _ _ _ _ (r_inv _ _ _ _ _ R) Hab) as (ob & s & Ho & Hs & [= Ep _] & _).
  unfold is_referenced in Hr. assert (existsb (fun x => proto x.2 =? p) (map_to_list (shapes (runtime w))) = true) as Hx; [| congruence].
  apply existsb_exists. exists (shape ob, s). split; [apply list_elem_of_In; by apply elem_of_map_to_list | cbn; lia].
Qed.

Lemma perform_free n w h p : rep n w h -> is_object p (runtime w) = true -> is_referenced p (runtime w) = false -> simulates n w h (OFree p).
Proof.
  intros R Hp Hr. unfold simulates. cbn [perform]. pose proof Hp as [o Ho]%bool_decide_eq_true.
  destruct (free_object_step held poor n [] (runtime w) p o (r_inv _ _ _ _ _ R) Ho) as (rt' & -> & I' & [C1 C2]). cbn [mbind res_bind].
  eexists _, _, (delete p h). split; [reflexivity |]. split; [| apply does_free]. apply rep_weaken. split; cbn; try done.
  - intros x. destruct (decide (p = x)) as [<- | D]; [by rewrite lookup_delete_eq, C1 |]. rewrite lookup_delete_ne, C2, (r_abs _ _ _ _ _ R) by congruence.
    destruct (abs (runtime w) x) as [y |]; [| done]. cbn. f_equal. unfold obj_of. f_equal. apply bool_decide_ext. rewrite not_elem_of_difference, elem_of_singleton. intuition congruence.
  - intros x y Hx. destruct (decide (x = p)) as [-> | D]; [congruence |]. rewrite C2 in Hx by done. by apply (r_data _ _ _ _ _ R x).
  - apply acyclic_delete; [apply (r_acyclic _ _ _ _ _ R) |]. by eapply not_referenced.
  - intros x Hx. apply elem_of_difference in Hx as [Hx D]. rewrite C2 by (intros ->; by apply D, elem_of_singleton). by apply (r_closed _ _ _ _ _ R).
Qed.

(** ** Own properties *)
Lemma perform_get_own n w h p k : rep n w h -> is_object p (runtime w) = true -> is_key held k = true -> simulates n w h (OGetOwn p k).
Proof.
  intros R Hp [Hk _]%is_key_spec. unfold simulates. cbn [perform]. destruct (is_object_spec held poor n w h p R Hp) as [o Ho].
  destruct (rep_object held poor _ _ _ _ _ R Ho) as (l & Hab & Eo & Hd). unfold JS_GetOwnProperty.
  destruct (find_own_step held poor n _ p k _ _ (r_inv _ _ _ _ _ R) Hab Hk) as (r & -> & Hr). cbn [mbind res_bind].
  assert (find k (o_props o) = to_property <$> find_key k l) as Hfp by (rewrite Eo; apply find_props).
  destruct r as [[f i] |].
  - destruct Hr as (v & [_ Hv Hfind]). pose proof (data_find _ _ _ _ Hd Hfind) as Hs. rewrite (small_zero f JS_PROP_TMASK Hs eq_refl).
    cbn [Z.eqb assert_ mbind res_bind JS_PROP_NORMAL]. change (0 =? JS_PROP_NORMAL) with true. cbn [assert_ mbind res_bind]. rewrite Hv. cbn [mbind res_bind].
    eexists _, w, h. split; [reflexivity |]. split; [by apply rep_weaken |]. apply (does_get_own _ _ _ _ _ o); [done |]. by rewrite Hs, Hfp, Hfind.
  - eexists _, w, h. split; [reflexivity |]. split; [by apply rep_weaken |]. apply (does_get_own _ _ _ _ _ o); [done |]. by rewrite Hfp, Hr.
Qed.

Lemma perform_define n w h p k v g : rep n w h -> n + 3 < 2 ^ 25 -> is_object p (runtime w) = true -> is_key held k = true -> descriptor_flags g = true ->
  simulates n w h (ODefine p k v g).
Proof.
  intros R Hn Hp [Hk Hheld]%is_key_spec Hg. unfold simulates. cbn [perform]. destruct (is_object_spec held poor n w h p R Hp) as [o Ho].
  destruct (rep_object held poor _ _ _ _ _ R Ho) as (l & Hab & Eo & Hd).
  destruct (define_step strict held poor n _ p k _ _ v g (bool_decide (p ∉ closed w)) (r_inv _ _ _ _ _ R) Hn Hab Hd Hk Hheld Hg)
    as (r & rt' & l' & -> & I' & C & Hd' & Hdef). cbn [mbind res_bind]. rewrite <- Eo in Hdef.
  pose proof (rep_props held poor n (n + 4) w h p o l' rt' R Ho I' C Hd') as R'. eexists _, _, _. split; [reflexivity |]. split; [exact R' |].
  destruct Hdef as [(b & E & ->) | (Hpo & -> & [E | (x & Hf & Hval & HV & ->)])].
  - by apply does_define.
  - rewrite E. assert (<[p := set_props (o_props o) o]> h = h) as -> by (apply insert_id; rewrite Ho; by destruct o). by apply define_no_memory.
  - by apply define_no_memory_value.
Qed.

Lemma perform_delete n w h p k g : rep n w h -> n < 2 ^ 25 -> is_object p (runtime w) = true -> is_key held k = true -> simulates n w h (ODelete p k g).
Proof.
  intros R Hn Hp [Hk Hheld]%is_key_spec. unfold simulates. cbn [perform]. unfold JS_DeleteProperty. destruct (is_object_spec held poor n w h p R Hp) as [o Ho].
  destruct (rep_object held poor _ _ _ _ _ R Ho) as (l & Hab & Eo & Hd).
  destruct (object_shape held poor _ _ _ _ _ _ (r_inv _ _ _ _ _ R) Hab) as (ob & s & Hob & Hs & Ex & _).
  destruct (delete_step held poor n [] _ p ob s k (r_inv _ _ _ _ _ R) Hn Hob Hs Hk) as (r & rt' & -> & I' & Hr). cbn [mbind res_bind].
  injection Ex as Ep El. rewrite <- El, <- Ep in Hr. assert (inv (n + 4) None [] rt') as I4 by (apply (inv_weaken_shape held poor n); [lia | done]).
  assert (find k (o_props o) = to_property <$> find_key k l) as Hfp by (rewrite Eo; apply find_props).
  destruct (find_key k l) as [[f v] |] eqn:Hf; cbn [fmap option_fmap option_map] in Hfp.
  - assert (p_configurable (to_property (f, v)) = negb (Z.land f JS_PROP_CONFIGURABLE =? 0)) as Hcf by done. destruct (Z.land f JS_PROP_CONFIGURABLE =? 0).
    + destruct Hr as [-> Hs']. eexists _, _, h. split; [reflexivity |]. split; [by eapply rep_same |]. by eapply delete_refused.
    + destruct Hr as [(-> & Hpo & Hs') | (-> & C)].
      * eexists _, _, h. split; [reflexivity |]. split; [by eapply rep_same |]. by apply delete_no_memory.
      * eexists _, _, (<[p := set_props (remove k (o_props o)) o]> h). split; [reflexivity |]. split; [| by eapply does_delete].
        assert (remove k (o_props o) = props (remove_key k l)) as -> by (rewrite Eo; apply remove_props).
        eapply rep_props; [exact R | done | done | exact C | by apply data_remove].
  - destruct Hr as [-> Hs']. eexists _, _, h. split; [reflexivity |]. split; [by eapply rep_same |]. by eapply delete_absent.
Qed.

(** ** Properties of prototypes *)
Lemma perform_get n w h p k : rep n w h -> is_object p (runtime w) = true -> is_key held k = true -> simulates n w h (OGet p k).
Proof.
  intros R Hp [Hk _]%is_key_spec. unfold simulates. cbn [perform]. destruct (is_object_spec held poor n w h p R Hp) as [o Ho].
  destruct (r_acyclic _ _ _ _ _ R p o Ho) as [l Hl]. unfold JS_GetPropertyInternal.
  destruct (get_walk_step held poor n w h k R Hk l p _ Hl (object_nonzero held poor n w h p o R Ho) (fuel_enough held poor n w h p l R Hl)) as [-> _].
  cbn [mbind res_bind]. eexists _, w, h. split; [reflexivity |]. split; [by apply rep_weaken | by apply does_get].
Qed.

Lemma perform_has n w h p k : rep n w h -> is_object p (runtime w) = true -> is_key held k = true -> simulates n w h (OHas p k).
Proof.
  intros R Hp [Hk _]%is_key_spec. unfold simulates. cbn [perform]. destruct (is_object_spec held poor n w h p R Hp) as [o Ho].
  destruct (r_acyclic _ _ _ _ _ R p o Ho) as [l Hl]. unfold JS_HasProperty.
  destruct (get_walk_step held poor n w h k R Hk l p _ Hl (object_nonzero held poor n w h p o R Ho) (fuel_enough held poor n w h p l R Hl)) as [_ ->].
  cbn [mbind res_bind]. eexists _, w, h. split; [reflexivity |]. split; [by apply rep_weaken | by apply does_has].
Qed.

(** The walk over the prototypes has fuel for all but the object itself. *)
Lemma protos_of n w h p o : rep n w h -> h !! p = Some o -> exists l, chain h (o_proto o) l /\ protos h p l /\ (length l < size (objects (runtime w)))%nat.
Proof.
  intros R Ho. pose proof (object_nonzero held poor n w h p o R Ho) as D. destruct (r_acyclic _ _ _ _ _ R p o Ho) as [l Hl].
  pose proof (fuel_enough held poor n w h p l R Hl) as Hf. destruct (chain_cons _ _ _ Hl D) as (o1 & l' & Ho1 & -> & Hl'). assert (o1 = o) as -> by congruence.
  exists l'. split_and!; [done | | cbn in Hf; lia]. exists (o_proto o). split; [unfold next_proto; by rewrite Ho | done].
Qed.

Lemma perform_set n w h p k v g : rep n w h -> n + 3 < 2 ^ 25 -> is_object p (runtime w) = true -> is_key held k = true ->
  simulates n w h (OSet p k v g) \/ deviates n w h (OSet p k v g).
Proof.
  intros R Hn Hp [Hk Hheld]%is_key_spec. unfold simulates, deviates. cbn [perform]. unfold JS_SetPropertyInternal, set_property_add. destruct (is_object_spec held poor n w h p R Hp) as [o Ho].
  destruct (rep_object held poor _ _ _ _ _ R Ho) as (l & Hab & Eo & Hd). assert (find k (o_props o) = to_property <$> find_key k l) as Hfp by (rewrite Eo; apply find_props).
  destruct (find_own_step held poor n _ p k _ _ (r_inv _ _ _ _ _ R) Hab Hk) as (r & -> & Hr). cbn [mbind res_bind]. destruct r as [[f i] |].
  - left. destruct Hr as (v0 & Hl). pose proof (lo_find _ _ _ _ _ _ _ Hl) as Hfind. rewrite Hfind in Hfp. cbn [fmap option_fmap option_map] in Hfp.
    pose proof (data_find _ _ _ _ Hd Hfind) as Hs. rewrite (small_writable f Hs). destruct (has f JS_PROP_WRITABLE) eqn:Hw.
    + destruct (located_value held poor n _ p k i f v0 l _ v (r_inv _ _ _ _ _ R) Hab Hl) as (rt' & -> & I' & C & _). cbn [mbind res_bind].
      eexists _, _, (<[p := set_props (update k (set_value_prop v (to_property (f, v0))) (o_props o)) o]> h). split; [reflexivity |].
      split; [| by eapply set_own]. assert (update k (set_value_prop v (to_property (f, v0))) (o_props o) = props (update_key k (f, v) l)) as ->.
      { rewrite Eo. by apply update_props. }
      apply rep_weaken. eapply rep_props; [exact R | done | done | exact C | by apply data_update].
    + rewrite (small_zero f (Z.lor JS_PROP_TMASK JS_PROP_LENGTH) Hs eq_refl). cbn [Z.eqb assert_ mbind res_bind].
      eexists _, _, h. split; [reflexivity |]. rewrite heap_eta. split; [by apply rep_weaken |]. by eapply set_own_refused.
  - rewrite Hr in Hfp. cbn [fmap option_fmap option_map] in Hfp. destruct (protos_of n w h p o R Ho) as (lc & Hlc & Hpr & Hfuel).
    rewrite (set_walk_step held poor n w h k R Hk lc p o _ Ho Hlc Hfuel). cbn [mbind res_bind].
    destruct (read_only_cases h k lc) as [-> | [-> Hh]].
    2: { right. eexists. split; [cbn [mbind res_bind]; by rewrite heap_eta |]. exists p, k, v, g, o, lc. done. }
    left. destruct (inherits_read_only h k lc) eqn:Hro.
    { eexists _, _, h. split; [reflexivity |]. rewrite heap_eta. split; [by apply rep_weaken |]. by eapply set_refused. }
    destruct (has g JS_PROP_NO_ADD) eqn:Hna.
    { eexists _, _, h. split; [reflexivity |]. rewrite heap_eta. split; [by apply rep_weaken |]. by eapply set_no_add. }
    assert (o_extensible o = bool_decide (p ∉ closed w)) as Hext by (by rewrite Eo). destruct (bool_decide (p ∉ closed w)) eqn:Hcl; cbn [negb].
    + destruct (add_value_step held poor n _ p k _ _ JS_PROP_C_W_E v (r_inv _ _ _ _ _ R) Hn Hab Hr Hk Hheld) as (r & rt' & -> & I' & Hadd); [done |].
      cbn [mbind res_bind]. destruct Hadd as [(-> & Hpo & Hs) | (-> & C)].
      * eexists _, _, h. split; [reflexivity |]. split; [by eapply rep_same | by apply set_no_memory].
      * eexists _, _, (<[p := set_props (o_props o ++ [(k, mkProperty v true true true)]) o]> h). split; [reflexivity |]. split; [| by eapply set_new].
        assert (o_props o ++ [(k, mkProperty v true true true)] = props (l ++ [(k, (JS_PROP_C_W_E, v))])) as -> by (rewrite Eo, props_app; done).
        eapply rep_props; [exact R | done | done | exact C | by apply data_snoc].
    + eexists _, _, h. split; [reflexivity |]. rewrite heap_eta. split; [by apply rep_weaken |]. by eapply set_not_extensible.
Qed.

(** ** Prototypes *)
Lemma perform_set_prototype n w h p q t : rep n w h -> is_object p (runtime w) = true -> is_proto q (runtime w) = true -> simulates n w h (OSetPrototype p q t).
Proof.
  intros R Hp Hq. unfold simulates. cbn [perform]. unfold JS_SetPrototypeInternal. destruct (is_object_spec held poor n w h p R Hp) as [o Ho].
  destruct (rep_object held poor _ _ _ _ _ R Ho) as (l & Hab & Eo & Hd). rewrite (get_proto_step held poor n _ p _ _ (r_inv _ _ _ _ _ R) Hab). cbn [mbind res_bind].
  destruct (Z.eqb_spec (o_proto o) q) as [Eq | D].
  { eexists _, _, h. split; [reflexivity |]. rewrite heap_eta. split; [by apply rep_weaken |]. by eapply proto_same. }
  assert (o_extensible o = bool_decide (p ∉ closed w)) as Hext by (by rewrite Eo). destruct (bool_decide (p ∉ closed w)) eqn:Hcl; cbn [negb].
  2: { eexists _, _, h. split; [reflexivity |]. rewrite heap_eta. split; [by apply rep_weaken |]. by eapply proto_not_extensible. }
  assert (exists lq, chain h q lq) as [lq Hlq].
  { apply chain_zero_or; [apply (r_acyclic _ _ _ _ _ R) |]. unfold is_proto in Hq. destruct (Z.eqb_spec q 0); [by left | right].
    destruct (is_object_spec held poor n w h q R Hq) as [oq ?]. by exists oq. }
  assert ((if negb (q =? 0) then cycle_walk (size (objects (runtime w))) p q (runtime w) else Ret false) = Ret (bool_decide (p ∈ lq))) as ->.
  { destruct (Z.eqb_spec q 0) as [-> | Dq]; cbn [negb]; [rewrite (chain_zero _ _ Hlq); by rewrite bool_decide_false by apply not_elem_of_nil |].
    eapply cycle_walk_step; [exact R | done | done | by eapply fuel_enough]. }
  cbn [mbind res_bind]. destruct (bool_decide (p ∈ lq)) eqn:Hin; [apply bool_decide_eq_true in Hin | apply bool_decide_eq_false in Hin]; cbn [mbind res_bind].
  { eexists _, _, h. split; [reflexivity |]. rewrite heap_eta. split; [by apply rep_weaken |]. by eapply proto_cycle. }
  destruct (object_shape held poor _ _ _ _ _ _ (r_inv _ _ _ _ _ R) Hab) as (ob & s & Hob & Hs & Ex & _). injection Ex as Ep El.
  destruct (set_prototype_step held poor n [] _ p ob s q (r_inv _ _ _ _ _ R) Hob Hs) as (ok & rt' & -> & I' & Hno & Hok). cbn [mbind res_bind].
  assert (inv (n + 4) None [] rt') as I4 by (apply (inv_weaken_shape held poor n); [lia | done]). destruct ok.
  - pose proof (Hok eq_refl) as C. rewrite <- El in C. assert (set_o_proto q o = mkObj q (o_extensible o) (props l)) as Es by (by rewrite Eo).
    pose proof (acyclic_set_proto h p o q lq (r_acyclic _ _ _ _ _ R) Ho Hlq Hin) as Ha. rewrite Es in Ha.
    eexists _, _, (<[p := set_o_proto q o]> h). split; [reflexivity |]. split; [rewrite Es; by eapply rep_change | by eapply does_set_proto].
  - destruct (Hno eq_refl) as [Hpo Hs']. eexists _, _, h. split; [reflexivity |]. split; [by eapply rep_same | by apply proto_no_memory].
Qed.

Lemma perform_prevent n w h p : rep n w h -> is_object p (runtime w) = true -> simulates n w h (OPreventExtensions p).
Proof.
  intros R Hp. unfold simulates. cbn [perform]. destruct (is_object_spec held poor n w h p R Hp) as [o Ho].
  destruct (rep_object held poor _ _ _ _ _ R Ho) as (l & Hab & Eo & Hd). eexists _, _, (<[p := set_extensible false o]> h). split; [reflexivity |].
  split; [| by apply does_prevent]. apply rep_weaken. destruct R as [I Habs Hdata Ha Hcl]. split; cbn; try done.
  - intros x. destruct (decide (p = x)) as [<- | D].
    + rewrite lookup_insert_eq, Hab. cbn. unfold obj_of, set_extensible. rewrite bool_decide_false; [by rewrite Eo |]. rewrite elem_of_union, elem_of_singleton. tauto.
    + rewrite lookup_insert_ne, Habs by done. destruct (abs (runtime w) x) as [y |]; [| done]. cbn. f_equal. unfold obj_of. f_equal.
      apply bool_decide_ext. rewrite not_elem_of_union, elem_of_singleton. intuition congruence.
  - by apply (acyclic_insert _ _ o).
  - intros x [Hx | Hx%elem_of_singleton]%elem_of_union; [by apply Hcl | subst; by eexists].
Qed.

Lemma perform_is_extensible n w h p : rep n w h -> is_object p (runtime w) = true -> simulates n w h (OIsExtensible p).
Proof.
  intros R Hp. unfold simulates. cbn [perform]. destruct (is_object_spec held poor n w h p R Hp) as [o Ho].
  destruct (rep_object held poor _ _ _ _ _ R Ho) as (l & Hab & Eo & Hd). eexists _, w, h. split; [reflexivity |]. split; [by apply rep_weaken |].
  assert (bool_decide (p ∉ closed w) = o_extensible o) as -> by (by rewrite Eo). by apply does_is_extensible.
Qed.

(** ** Any of them *)
Lemma perform_step n w h x : rep n w h -> 0 <= n -> n + 3 < 2 ^ 25 -> possible held x (runtime w) = true ->
  simulates n w h x \/ deviates n w h x.
Proof.
  intros R H0 Hn Hx. destruct x; cbn in Hx; repeat (apply andb_true_iff in Hx as [Hx ?]); [left | left | left | left | left | left | left | | left | left | left].
  - apply perform_new; [done | lia | done].
  - apply perform_free; [done | done | by apply negb_true_iff].
  - by apply perform_get_own.
  - by apply perform_define.
  - apply perform_delete; [done | lia | done | done].
  - by apply perform_get.
  - by apply perform_has.
  - by apply perform_set.
  - by apply perform_set_prototype.
  - by apply perform_prevent.
  - by apply perform_is_extensible.
Qed.

Lemma run_step l : forall n w h, rep n w h -> 0 <= n -> n + 4 * zlen l < 2 ^ 25 -> exists rs w' h',
  run strict held l w = Ret (rs, w') /\ rep (n + 4 * zlen l) w' h' /\ executes strict poor h rs h'.
Proof.
  induction l as [| x l IH]; intros n w h R H0 Hn.
  { exists [], w, h. split; [done |]. split; [| constructor]. change (zlen []) with 0. by replace (n + 4 * 0) with n by lia. }
  rewrite zlen_cons in *. pose proof (zlen_nonneg l). cbn [run].
  replace (n + 4 * (1 + zlen l)) with (n + 4 + 4 * zlen l) by lia. destruct (possible held x (runtime w)) eqn:Hx.
  - destruct (perform_step n w h x R H0 ltac:(lia) Hx) as [(r & w1 & h1 & -> & R1 & P1) | (r & -> & P1)]; cbn [mbind res_bind].
    + destruct (IH (n + 4) w1 h1 R1 ltac:(lia) ltac:(lia)) as (rs & w2 & h2 & -> & R2 & P2). cbn [mbind res_bind].
      exists ((x, r) :: rs), w2, h2. split; [done |]. split; [done |]. by eapply executes_ordinary.
    + destruct (IH (n + 4) w h (rep_weaken _ _ _ R) ltac:(lia) ltac:(lia)) as (rs & w2 & h2 & -> & R2 & P2). cbn [mbind res_bind].
      exists ((x, r) :: rs), w2, h2. split; [done |]. split; [done |]. by eapply executes_hidden.
  - destruct (IH (n + 4) w h (rep_weaken _ _ _ R) ltac:(lia) ltac:(lia)) as (rs & w2 & h2 & -> & R2 & P2). by exists rs, w2, h2.
Qed.

(** ** The beginning *)
Lemma init_rep s m : owned s held -> (false ∈ m -> poor) -> rep 0 (init s m) ∅.
Proof.
  intros Hs Hm. split; cbn; try done.
  - split; cbn; try done.
    + split; [| done]. change [0; 0; 0; 0; 0; 0; 0; 0; 0; 0; 0; 0; 0; 0; 0; 0] with (replicate 16 0). apply table_empty. intros i. unfold sbucket. case_decide; [done |]. by rewrite lookup_empty.
    + intros a Ha. by apply not_elem_of_nil in Ha.
Qed.
End operations.
