(* ===== verification/ObjectProps.v ===== *)
(** * Objects and atoms together

    Programs whose property keys are atoms that the table of atoms made. *)
From Stdlib Require Import ZArith Lia Bool String.
From stdpp Require Import base numbers list gmap.
From S2P Require Import Prelude Cutils Chains JSValue AtomState AtomTable AtomFacts AtomGrow AtomRefs AtomSteps AtomNew AtomClient AtomProps ShapeState ShapeSpec ShapeFacts ShapeTable ShapeInv ShapeUpdate ObjectState ObjectSpec ObjectSteps ObjectRun ObjectOps.

(** ** Atoms *)
#[export] Instance atom_ops : AtomOps AtomState.JSRuntime := {
  JS_DupAtom := AtomState.JS_DupAtom JS_ATOM_END;
  JS_FreeAtom := AtomState.JS_FreeAtom JS_ATOM_END;
  JS_NewAtomUInt32 := AtomState.JS_NewAtomUInt32 JS_ATOM_END;
  JS_AtomIsArrayIndex := AtomState.JS_AtomIsArrayIndex
}.

Section laws.
(** The strings and symbols that the client holds itself. *)
Variable rest : list hold.

(** The references to atoms that are held are exactly [l]. *)
Definition atoms_owned (rt : AtomState.JSRuntime) (l : list Z) : Prop :=
  exists n hs, AtomRefs.inv JS_ATOM_END init_names n rt (map (uncurry HAtom) hs ++ rest) /\ l ≡ₚ map fst hs.

Lemma atoms_owned_perm rt l k : l ≡ₚ k -> atoms_owned rt l -> atoms_owned rt k.
Proof. intros H (n & hs & I & E). exists n, hs. split; [done |]. by rewrite <- H. Qed.

Lemma dup_atom_owned rt a l : atoms_owned rt l -> a ∈ l -> exists rt', AtomState.JS_DupAtom JS_ATOM_END a rt = Ret rt' /\ atoms_owned rt' (a :: l).
Proof.
  intros (n & hs & I & E) Ha. rewrite E in Ha. change (map fst) with (fmap (M := list) (@fst Z meaning)) in Ha.
  apply list_elem_of_fmap in Ha as ([a' m] & -> & Hm). assert (hold_ok rt (HAtom a' m)) as Hok.
  { apply (i_holds _ _ _ _ _ I). apply elem_of_app. left. change (map (uncurry HAtom)) with (fmap (M := list) (uncurry HAtom)).
    apply (list_elem_of_fmap_2 (uncurry HAtom) hs (a', m) Hm). }
  destruct (dup_atom_inv JS_ATOM_END end_range init_names (names_range JS_ATOM_END init_names (proj1 init_names_facts)) n rt _ a' m I Hok) as (rt' & Ed & I' & _).
  exists rt'. split; [done |]. exists n, ((a', m) :: hs). split; [done |]. cbn. by rewrite E.
Qed.

Lemma permutation_map_cons {X Y} (f : X -> Y) (l : list X) y k : y :: k ≡ₚ map f l -> exists x l', l ≡ₚ x :: l' /\ y = f x /\ k ≡ₚ map f l'.
Proof.
  intros H. assert (y ∈ map f l) as Hy by (rewrite <- H; by left). change (map f) with (fmap (M := list) f) in *.
  apply list_elem_of_fmap in Hy as (x & -> & Hx). apply list_elem_of_split in Hx as (l1 & l2 & ->). exists x, (l1 ++ l2).
  split; [symmetry; apply Permutation_middle |]. split; [done |]. rewrite fmap_app in *. cbn in H. rewrite <- Permutation_middle in H.
  by apply Permutation_cons_inv in H.
Qed.

Lemma free_atom_owned rt a l : atoms_owned rt (a :: l) -> exists rt', AtomState.JS_FreeAtom JS_ATOM_END a rt = Ret rt' /\ atoms_owned rt' l.
Proof.
  intros (n & hs & I & E). destruct (permutation_map_cons _ _ _ _ E) as ([a' m] & hs' & Ehs & -> & El).
  assert (AtomRefs.inv JS_ATOM_END init_names n rt (HAtom a' m :: map (uncurry HAtom) hs' ++ rest)) as I1.
  { eapply AtomSteps.inv_perm; [| exact I]. rewrite app_comm_cons. f_equiv. change (map (uncurry HAtom)) with (fmap (M := list) (uncurry HAtom)).
    by rewrite Ehs. }
  destruct (free_atom_inv JS_ATOM_END end_range init_names (names_range JS_ATOM_END init_names (proj1 init_names_facts)) n rt _ a' m I1) as (rt' & Ef & I').
  exists rt'. split; [done |]. by exists n, hs'.
Qed.

Definition atom_laws : AtomLaws AtomState.JSRuntime := {|
  owned := atoms_owned;
  owned_perm := atoms_owned_perm;
  dup_owned := dup_atom_owned;
  free_owned := free_atom_owned;
  dup_null _ := eq_refl;
  free_null _ := eq_refl
|}.
End laws.

(** The atoms that the client of the table holds, and the rest. *)
Definition held_atoms (c : client) : list Z := omap (fun x => match x with HAtom a _ => Some a | _ => None end) (holds c).
Definition pointers (l : list hold) : list hold := omap (fun x => match x with HAtom _ _ => None | _ => Some x end) l.

Lemma split_holds (l : list hold) : exists hs, l ≡ₚ map (uncurry HAtom) hs ++ pointers l /\
  omap (fun x => match x with HAtom a _ => Some a | _ => None end) l = map fst hs.
Proof.
  induction l as [| [p m | a m] l (hs & E & F)]; [by exists [] | |].
  - exists hs. split; [cbn; rewrite E at 1; apply Permutation_middle | done].
  - exists ((a, m) :: hs). cbn in *. split; [by rewrite E at 1 | by rewrite F].
Qed.

Lemma held_owned n c : AtomRefs.inv JS_ATOM_END init_names n (AtomState.runtime c) (holds c) ->
  atoms_owned (pointers (holds c)) (AtomState.runtime c) (held_atoms c).
Proof.
  intros I. destruct (split_holds (holds c)) as (hs & E & F). exists n, hs. unfold held_atoms. rewrite F.
  split; [by eapply AtomSteps.inv_perm | done].
Qed.

(** Whether a reference to the atom [a] is one to the structure [p]. *)
Definition refers_atom (rt : AtomState.JSRuntime) (p a : Z) : bool := refers JS_ATOM_END rt p (HAtom a (MText [])).

Lemma countb_holds rt p hs : countb (refers JS_ATOM_END rt p) (map (uncurry HAtom) hs) = countb (refers_atom rt p) (map fst hs).
Proof. induction hs as [| [a m] hs IH]; [done |]. cbn [map countb uncurry fst]. rewrite IH. done. Qed.

Lemma countb_concat {X} (P : X -> bool) l k : countb P (l ++ k) = countb P l + countb P k.
Proof. induction l as [| x l IH]; cbn; lia. Qed.

(** The count of an atom, from what is held. *)
Lemma owned_count c rt l p s : atoms_owned (pointers (holds c)) rt (l ++ held_atoms c) -> strings rt !! p = Some s ->
  AtomState.ref_count s = base_refs JS_ATOM_END rt p + countb (refers JS_ATOM_END rt p) (holds c) + countb (refers_atom rt p) l.
Proof.
  intros (n & hs & I & E) Hp. destruct (i_refs _ _ _ _ _ I p s Hp) as [-> _]. unfold AtomRefs.refs.
  destruct (split_holds (holds c)) as (hs0 & E0 & F). unfold held_atoms in E. rewrite F in E.
  rewrite countb_concat, countb_holds, <- (countb_permutation _ _ _ E), countb_concat.
  rewrite (countb_permutation _ _ _ E0), countb_concat, countb_holds. lia.
Qed.

(** ** The theorems *)

(** The program [l] with the atoms of the client [c] as keys. *)
Definition program (strict : bool) (c : client) (l : list op) (m : list bool) : res (list (op * reply) * heap AtomState.JSRuntime) :=
  run strict (held_atoms c) l (init (AtomState.runtime c) m).

Definition short_program (l : list op) : Prop := zlen l < 2 ^ 23.

(** What a heap of the specification is in the state of the code. *)
Definition stands_for (w : heap AtomState.JSRuntime) (h : gmap Z object) : Prop :=
  forall p, h !! p = obj_of (closed w) p <$> abs (runtime w) p.

Lemma program_rep strict keys amem c l m : short keys -> AtomProps.run keys amem = Ret c -> short_program l -> exists rs w h,
  program strict c l m = Ret (rs, w) /\ rep (laws := atom_laws (pointers (holds c))) (held_atoms c) (false ∈ m) (4 * zlen l) w h /\ executes strict (false ∈ m) ∅ rs h.
Proof.
  intros Hk Hc Hl. destruct (run_inv keys amem Hk) as (c' & E & I & _). assert (c' = c) as -> by congruence.
  apply (run_step (laws := atom_laws (pointers (holds c))) strict (held_atoms c) (false ∈ m) l 0 _ ∅); [| lia | unfold short_program in Hl; change (2 ^ 25) with (4 * 2 ^ 23); lia].
  apply init_rep; [by eapply held_owned | done].
Qed.

(** C38: Objects are ordinary objects of ECMAScript, with one exception: whatever
    shapes are shared, cloned, compacted or freed, in every program of fewer than
    2^23 operations of getting, setting, defining and deleting data properties, of
    changing prototypes and of preventing extensions each operation does what the
    specification says, and never accesses a freed shape or an element that is not
    there; only allocations that fail give a result that says so.  The exception
    ([refuses_hidden]): an assignment to a property that is inherited from a
    writable one is refused, without any effect, when this one hides a read-only
    property further up the chain of prototypes, although [OrdinarySet] allows it. *)
Theorem objects_are_ordinary strict keys amem l m : short keys -> short_program l -> exists c, AtomProps.run keys amem = Ret c /\
  exists rs w h, program strict c l m = Ret (rs, w) /\ executes strict (false ∈ m) ∅ rs h /\ stands_for w h.
Proof.
  intros Hk Hl. destruct (run_inv keys amem Hk) as (c & E & _). exists c. split; [done |].
  destruct (program_rep strict keys amem c l m Hk E Hl) as (rs & w & h & Er & R & P). exists rs, w, h. split_and!; [done | done | exact (r_abs _ _ _ _ _ R)].
Qed.

(** The chain of a hash value in the table of shapes. *)
Definition in_table (w : heap AtomState.JSRuntime) (a : Z) (s : JSShape) : Prop :=
  exists first chain, znth (shape_table (runtime w)) (get_shape_hash (ShapeState.hash s) (shape_hash_bits (runtime w))) = Some first /\
    linked (snext (shapes (runtime w))) first chain /\ a ∈ chain.

(** C39: After any program (of fewer than 2^23 operations) the reference count of a
    shape is the number of objects that have it, so that none stays when the last
    object is gone; a shape that objects share is in the table, where its hash
    value finds it, and a shape that is not there has one object; no shape has the
    same property twice.  The reference count of an atom is the number of
    references that the client of the table holds, and one for each property of a
    shape with it, and one if it is predefined: no shape leaks an atom or gives one
    up that it still uses. *)
Theorem shape_references_exact strict keys amem l m : short keys -> short_program l -> exists c, AtomProps.run keys amem = Ret c /\
  exists rs w, program strict c l m = Ret (rs, w) /\
  (forall a s, shapes (runtime w) !! a = Some s ->
    ShapeState.ref_count s = obj_refs (objects (runtime w)) a /\ 0 < ShapeState.ref_count s /\ NoDup (atoms_of (prop s)) /\
    (if is_hashed s then in_table w a s else ShapeState.ref_count s = 1)) /\
  let rt := atoms (runtime w) in
  forall p s, strings rt !! p = Some s -> AtomState.ref_count s =
    base_refs JS_ATOM_END rt p + countb (refers JS_ATOM_END rt p) (holds c) + countb (refers_atom rt p) (shape_atoms (shapes (runtime w))).
Proof.
  intros Hk Hl. destruct (run_inv keys amem Hk) as (c & E & _). exists c. split; [done |].
  destruct (program_rep strict keys amem c l m Hk E Hl) as (rs & w & h & Er & R & _). exists rs, w. split; [done |].
  pose proof (r_inv _ _ _ _ _ R) as I. split; [intros a s Hs | cbn zeta; intros p s; apply (owned_count c), (v_atoms _ _ _ _ _ _ I)].
  destruct (v_refs _ _ _ _ _ _ I a s Hs) as [Hr Hpos]. destruct (v_shapes _ _ _ _ _ _ I a s Hs) as [W _].
  split_and!; [rewrite Hr; unfold ShapeInv.refs; cbn; lia | done | apply (sw_distinct _ _ W) |]. destruct (is_hashed s) eqn:Hh.
  - destruct (v_hash _ _ _ _ _ _ I a s Hs) as [Hhash _]. destruct (bucket_of _ _ _ _ _ (v_table _ _ _ _ _ _ I) Hhash) as (first & chain & Hf & L & Hin & _).
    exists first, chain. split_and!; [done | done |]. apply Hin. by apply sbucket_in.
  - by apply (v_unshared _ _ _ _ _ _ I a).
Qed.

(** The heap that a state stands for, computed. *)
Definition decode (w : heap AtomState.JSRuntime) : gmap Z object :=
  map_imap (fun p o => (fun s => obj_of (closed w) p (proto s, live (prop s) (values o))) <$> shapes (runtime w) !! shape o) (objects (runtime w)).

Lemma decode_stands w : stands_for w (decode w).
Proof.
  intros p. unfold decode, abs. rewrite map_lookup_imap. destruct (objects (runtime w) !! p) as [o |]; [| done]. cbn.
  by destruct (shapes (runtime w) !! shape o).
Qed.

Lemma stands_decode w h : stands_for w h -> h = decode w.
Proof. intros H. apply map_eq. intros p. by rewrite (H p), (decode_stands w p). Qed.

(** One object of the heap changes its properties. *)
Lemma decode_change w p o l rt' : decode w !! p = Some o -> abs_change p (Some (o_proto o, l)) (runtime w) rt' ->
  decode (mkHeap rt' (closed w)) = <[p := set_props (props l) o]> (decode w).
Proof.
  intros Hp [C1 C2]. symmetry. apply stands_decode. intros q. cbn. destruct (decide (p = q)) as [<- | D].
  - rewrite lookup_insert_eq, C1. cbn. rewrite (decode_stands w p) in Hp. destruct (abs (runtime w) p) as [x |]; [| done]. injection Hp as <-. done.
  - rewrite lookup_insert_ne, C2 by done. apply decode_stands.
Qed.

(** C40: In every state that a program (of fewer than 2^22 operations) reaches, and
    for the flags of any descriptor of a data property, [JS_DefineProperty] on an
    object is [ValidateAndApplyPropertyDescriptor]: it succeeds exactly when that
    allows the change, then the object has the properties that it gives (value,
    attributes, order), and otherwise nothing changes and the result is the
    refusal that the flags ask for; no other object changes, whatever shapes they
    share.  When an allocation fails the result says so, and either nothing has
    changed or only the value of the property, in a change that is allowed. *)
Theorem define_property_correct strict keys amem l m p k v g : short keys -> zlen l < 2 ^ 22 -> exists c, AtomProps.run keys amem = Ret c /\
  exists rs w, program strict c l m = Ret (rs, w) /\ forall o, decode w !! p = Some o -> is_key (held_atoms c) k = true -> descriptor_flags g = true ->
  exists r rt', JS_DefineProperty strict p k v g (o_extensible o) (runtime w) = Ret (r, rt') /\
  let h := decode w in
  let h' := decode (mkHeap rt' (closed w)) in
  ((exists b new, define_own_property k (to_descriptor v g) o = (b, new) /\
      r = (if b then TRUE else refused strict g) /\ h' = <[p := set_props new o]> h) \/
   false ∈ m /\ r = OutOfMemory /\
     (h' = h \/ exists x, find k (o_props o) = Some x /\ validate (to_descriptor v g) x = true /\ has g JS_PROP_HAS_VALUE = true /\
        h' = <[p := set_props (update k (set_value_prop v x) (o_props o)) o]> h)).
Proof.
  intros Hk Hl. destruct (run_inv keys amem Hk) as (c & E & _). exists c. split; [done |].
  assert (short_program l) as Hl' by (unfold short_program; lia).
  destruct (program_rep strict keys amem c l m Hk E Hl') as (rs & w & h & Er & R & _). exists rs, w. split; [done |].
  intros o Ho [Hk0 Hheld]%is_key_spec Hg. rewrite <- (stands_decode w h (r_abs _ _ _ _ _ R)) in Ho.
  destruct (rep_object _ _ _ _ _ _ _ R Ho) as (pl & Hab & Eo & Hd).
  destruct (define_step strict _ _ _ _ p k _ _ v g (o_extensible o) (r_inv _ _ _ _ _ R) ltac:(lia) Hab Hd Hk0 Hheld Hg)
    as (r & rt' & l' & Ed & _ & C & _ & Hdef). exists r, rt'. split; [exact Ed |]. cbn zeta.
  rewrite (stands_decode w h (r_abs _ _ _ _ _ R)) in Ho. rewrite (decode_change w p o l' rt' Ho C).
  assert (mkObj (o_proto o) (o_extensible o) (props pl) = o) as Emk by (by rewrite Eo). rewrite Emk in Hdef.
  destruct Hdef as [(b & Hb & Er') | (Hpo & Er' & [El | (x & Hf & Hv & HV & El)])]; [left | right..]; rewrite ?El.
  - by exists b, (props l').
  - split_and!; [done | done | left]. apply insert_id. rewrite Ho. by destruct o.
  - split_and!; [done | done | right]. by exists x.
Qed.

(** ** Examples *)

(** The client that made the atoms of [sample]: it holds 48, [length], and 207, [hello]. *)
Definition sample_client : client := match AtomProps.run sample [] with Ret c => c | _ => start [] end.

(** Every attribute is present and false. *)
Definition ALL_PRESENT : Z := Z.shiftl JS_PROP_C_W_E JS_PROP_HAS_SHIFT.

(** Two objects with the same properties, one of which then changes. *)
Definition sharing : list op :=
  [ONew 0; ONew 0; OSet 2 48 1 0; OSet 3 48 2 0; OSet 2 207 3 0; OSet 3 207 4 0; ONew 2; OGet 7 207; ODelete 3 48 0; OGetOwn 3 48; OGetOwn 2 48].

Lemma sharing_short : short_program sharing.
Proof. unfold short_program. vm_compute. reflexivity. Qed.

Lemma objects_are_ordinary_witness : short sample /\ short_program sharing /\
  (match program false sample_client sharing [] with Ret (rs, _) => Some (map snd rs) | _ => None end) =
    Some [RObject 2; RObject 3; RRet TRUE; RRet TRUE; RRet TRUE; RRet TRUE; RObject 7; RValue (Some 3); RRet TRUE; RProperty None; RProperty (Some (7, 1))] /\
  exists c, AtomProps.run sample [] = Ret c /\ exists rs w h, program false c sharing [] = Ret (rs, w) /\
    executes false (false ∈ @nil bool) ∅ rs h /\ stands_for w h.
Proof.
  split; [exact sample_short |]. split; [exact sharing_short |]. split; [vm_compute; reflexivity |].
  apply (objects_are_ordinary false sample [] sharing []); [exact sample_short | exact sharing_short].
Defined.

Lemma shape_references_exact_witness : short sample /\ short_program (take 7 sharing) /\
  (match program false sample_client (take 7 sharing) [] with
   | Ret (_, w) => (fun s => (ShapeState.ref_count s, is_hashed s)) <$> shapes (runtime w) !! 5
   | _ => None end) = Some (2, true) /\
  exists c, AtomProps.run sample [] = Ret c /\ exists rs w, program false c (take 7 sharing) [true; false] = Ret (rs, w) /\
    (forall a s, shapes (runtime w) !! a = Some s -> ShapeState.ref_count s = obj_refs (objects (runtime w)) a /\ 0 < ShapeState.ref_count s /\
      NoDup (atoms_of (prop s)) /\ (if is_hashed s then in_table w a s else ShapeState.ref_count s = 1)) /\
    let rt := atoms (runtime w) in
    forall p s, strings rt !! p = Some s -> AtomState.ref_count s =
      base_refs JS_ATOM_END rt p + countb (refers JS_ATOM_END rt p) (holds c) + countb (refers_atom rt p) (shape_atoms (shapes (runtime w))).
Proof.
  assert (short_program (take 7 sharing)) as H by (unfold short_program; vm_compute; reflexivity).
  split; [exact sample_short |]. split; [exact H |]. split; [vm_compute; reflexivity |].
  apply (shape_references_exact false sample [] (take 7 sharing) [true; false]); [exact sample_short | exact H].
Defined.

(** A read-only property: no new value, and the old one is no change. *)
Definition read_only : list op := [ONew 0; ODefine 2 48 7 (Z.lor JS_PROP_HAS_VALUE ALL_PRESENT)].

Lemma define_property_correct_witness : short sample /\
  (match program false sample_client read_only [] with
   | Ret (_, w) => define_own_property 48 (to_descriptor 8 JS_PROP_HAS_VALUE) <$> decode w !! 2
   | _ => None end) = Some (false, [(48, mkProperty 7 false false false)]) /\
  exists c, AtomProps.run sample [] = Ret c /\ exists rs w, program false c read_only [] = Ret (rs, w) /\
  forall o, decode w !! 2 = Some o -> is_key (held_atoms c) 48 = true -> descriptor_flags JS_PROP_HAS_VALUE = true ->
  exists r rt', JS_DefineProperty false 2 48 8 JS_PROP_HAS_VALUE (o_extensible o) (runtime w) = Ret (r, rt') /\
  let h := decode w in
  let h' := decode (mkHeap rt' (closed w)) in
  ((exists b new, define_own_property 48 (to_descriptor 8 JS_PROP_HAS_VALUE) o = (b, new) /\
      r = (if b then TRUE else refused false JS_PROP_HAS_VALUE) /\ h' = <[2 := set_props new o]> h) \/
   false ∈ @nil bool /\ r = OutOfMemory /\
     (h' = h \/ exists x, find 48 (o_props o) = Some x /\ validate (to_descriptor 8 JS_PROP_HAS_VALUE) x = true /\
        has JS_PROP_HAS_VALUE JS_PROP_HAS_VALUE = true /\
        h' = <[2 := set_props (update 48 (set_value_prop 8 x) (o_props o)) o]> h)).
Proof.
  split; [exact sample_short |]. split; [vm_compute; reflexivity |].
  apply (define_property_correct false sample [] read_only [] 2 48 8 JS_PROP_HAS_VALUE); [exact sample_short | vm_compute; reflexivity].
Defined.

(** ** A prototype of the prototype *)

(** The object 6 inherits a property [length] from 4 that may be written; 4 has
    it instead of the one of 2, which may not. *)
Definition prototypes : list op :=
  [ONew 0; ODefine 2 48 7 (Z.lor JS_PROP_HAS_VALUE ALL_PRESENT); ONew 2;
   ODefine 4 48 8 (Z.lor (Z.lor JS_PROP_HAS_VALUE JS_PROP_WRITABLE) ALL_PRESENT); ONew 4; OSet 6 48 9 0; OGet 6 48].

(** [JS_SetPropertyInternal] does not stop at the nearest property: a property
    of a prototype that may be written does not hide one further up the chain
    that may not, and the value is not set, although [OrdinarySet] sets it. *)
Theorem set_looks_past_nearest :
  match program false sample_client prototypes [] with
  | Ret (rs, w) =>
      inherits_read_only (decode w) 48 [4; 2] = false /\
      map snd rs = [RObject 2; RRet TRUE; RObject 4; RRet TRUE; RObject 6; RRet FALSE; RValue (Some 8)] /\
      chain (decode w) 6 [6; 4; 2] /\ ordinary_set (decode w) 48 [6; 4; 2] true = true
  | _ => False
  end.
Proof. vm_compute. split_and!; try done. all: repeat (eexists; split; [done |]; try split_and!; try done). Qed.

(** ** The length of an array *)

(** A property with a value. *)
Definition put (p a f v : Z) (rt : ShapeState.JSRuntime AtomState.JSRuntime) : res (ShapeState.JSRuntime AtomState.JSRuntime) :=
  '(i, rt) ← add_property p a f rt;
  match i with Some i => ShapeState.set_value p i v rt | None => Fault end.

Fixpoint put_all (p : Z) (l : list Z) (rt : ShapeState.JSRuntime AtomState.JSRuntime) : res (ShapeState.JSRuntime AtomState.JSRuntime) :=
  match l with
  | [] => Ret rt
  | n :: l => rt ← put p (__JS_AtomFromUInt32 n) JS_PROP_C_W_E n rt; put_all p l rt
  end.

(** An array that is not fast, of length 100000, with the elements 1000, 1010, ...,
    1190 and no others: its properties after [length = 0]. *)
Definition elements : list Z := map (fun k => 1000 + 10 * k) (seqZ 0 20).

Definition shortened : res (Z * Z * list Z) :=
  '(p, rt) ← JS_NewObjectProto 0 (runtime (init (AtomState.runtime sample_client) []));
  rt ← put p 48 (Z.lor JS_PROP_WRITABLE JS_PROP_LENGTH) 100000 rt;
  rt ← put_all p elements rt;
  '(r, rt) ← set_array_length p 0 rt;
  len ← get_value p 0 rt;
  match abs rt p with
  | Some (_, l) => Ret (r, len, keys l)
  | None => Fault
  end.

(** [set_array_length] leaves elements: on an array that is not fast, with
    more elements removed than it has properties, the second pass deletes while
    it counts, and the compaction of the properties moves elements to places that
    the loop has passed.  The length is 0, all elements were configurable, the
    result says that they were deleted, and half of them are still there. *)
Theorem set_array_length_keeps_elements :
  exists kept, shortened = Ret (1, 0, 48 :: map __JS_AtomFromUInt32 kept) /\ length kept = 10%nat /\ forall n, n ∈ kept -> n ∈ elements.
Proof.
  exists [1100; 1110; 1120; 1130; 1140; 1150; 1160; 1170; 1180; 1190]. split; [vm_compute; reflexivity |]. split; [reflexivity |].
  intros n Hn. apply (bool_decide_eq_true_1 (n ∈ elements)). revert n Hn. apply list.Forall_forall. repeat constructor.
Qed.
